(* ===== verification/_CoqProject ===== *)
-Q . S2P
Prelude.v
Errors.v
Ids.v
Endpoint.v
NatType.v
SnProtocol.v
NatConnectPlan.v
Rendezvous.v
Membership.v
ControlPlane.v
RouteStore.v
Election.v
NatProbeScheduler.v
KBucket.v
Codec.v
SnExtension.v
TunnelCommand.v
PeerManager.v
Mpsc.v
ControlStream.v
TunnelActivity.v
ReverseOpen.v
TcpLease.v
TcpDrain.v
TcpTunnel.v
TunnelManager.v
ProxyUpgrade.v
RendezvousOwner.v
OpenTunnel.v
TcpTunnelObject.v
PnTraffic.v
PnServer.v
PnTunnel.v
PnClient.v
SnEndpoints.v
SnService.v
SnProfiles.v
RendezvousNet.v
SnServer.v
InterSn.v
OwnerDirectory.v
OwnerServer.v
SnClient.v
SnReporting.v
NatProbe.v
QuicListener.v
NetManager.v
TcpNetwork.v
QuicNetwork.v
Ttp.v
Listeners.v
QuicTunnel.v
QuicChannels.v
Async.v
DeviceFinder.v
Opening.v
OpeningInvariant.v
OpeningSafety.v
Text.v
EndpointText.v
LocalIp.v
SnMessages.v
PnSetup.v
Identity.v
TlsAuth.v
