(* ===== verification/Prelude.v ===== *)
(** * A verification of p2p-frame

    The repository's crate [p2p-frame] (src/p2p-frame/src) connects peers behind
    NATs.  Peers report to super nodes (SNs); an SN measures a peer's NAT by
    directives, caches its profile, relays rendezvous requests between two peers
    and, together with other owner SNs, keeps a replicated directory of which SN
    serves which peer.  Two peers then choose who dials, who punches and with
    which ports, and the tunnel they obtain carries framed commands.  This
    library translates the decision logic of that program into executable
    definitions and proves what makes each part correct.

    ** Files and the code they model

    - [Prelude] (this file): machine integers ([saturating_add], wrapping adds,
      checked casts), [Duration] in nanoseconds, [Result] with its notation,
      three-way comparison as the class [TotalCompare], [sort_by] and [dedup_by]
      as the standard library defines them, and the shared tactics.
    - [Errors]: error.rs, the codes [P2pErrorCode] with their discriminants.
    - [Ids]: types.rs and p2p_identity.rs, the identifiers, their two orders and
      the atomic generators, also as a step relation of interleaved
      [fetch_add]s.
    - [Endpoint]: endpoint.rs, endpoints, their equality, order, area
      predicates and their wire codec.  [None] stands for a panic.
    - [NatType]: nat_type.rs, NAT profiles, prediction hints, contexts.
    - [SnProtocol]: sn/protocol/sn.rs, rendezvous messages with their
      validation, probe directives and results.
    - [NatConnectPlan]: tunnel/nat_connect_plan.rs, the choice of roles.
    - [Rendezvous]: sn/service/rendezvous_state.rs, the SN's table of attempts
      with waiters.  A tokio oneshot channel is a number; what an operation
      sends on channels is the list of answers it returns.
    - [Membership], [ControlPlane], [RouteStore], [Election]: sn/directory
      (membership.rs, control_plane.rs, route.rs with store.rs and local.rs,
      election.rs), the owner SNs' replicated directory.  [ControlPlane] offers
      the class [ServingOnline] to [RouteStore], whose query theorem is proved
      against that interface.  The hash of rendezvous hashing is a parameter.
      The peer client of [Election] is a record of functions from requests to
      responses; a procedure that calls it returns [None] when no client is
      attached, where the code panics.
    - [NatProbeScheduler]: sn/service/nat_probe_scheduler.rs, who is probed
      when, which results are published.
    - [KBucket]: dht/k_bucket.rs, buckets and tables over the class [KadId].
    - [Codec]: the interface of the external crate bucky_raw_codec and of its
      derive macros, as the classes [RawCodec], [RawCodecLaws] and [FixedCodec];
      concrete instances show that the laws can hold.
    - [SnExtension]: sn/protocol/sn.rs, messages with trailing extensions.
    - [TunnelCommand]: networks/command.rs and networks/tcp/protocol.rs, frames.
    - [PeerManager]: sn/service/peer_manager.rs, the SN's cache of peers.
    - [Mpsc]: the interface of tokio's bounded channels, as the classes [Mpsc]
      and [MpscLaws], with an instance.
    - [ControlStream]: networks/control_stream.rs and the results of
      networks/tunnel.rs, byte streams over a tunnel's control connection.
    - [TunnelActivity]: networks/tunnel.rs, the ledger of opens and channels
      that decides when a tunnel is idle, and the listener registries.
    - [ReverseOpen], [TcpLease], [TcpDrain], [TcpTunnel]: networks/tcp/tunnel.rs,
      the TCP tunnel.  [ReverseOpen] is the state machine that joins a requested
      data connection with its response; [TcpLease] is one end of a lease, the
      use of a pooled data connection by one channel, as functions from a lease
      to a lease and a list of effects; [TcpDrain] connects two ends by ordered
      data and unordered control messages; [TcpTunnel] is the tunnel's record
      with the handlers of all control commands, the claiming side, reverse
      opening, incoming connections, timers and shutdown.  Procedures are split
      where they await.
    - [TunnelManager], [ProxyUpgrade], [RendezvousOwner], [OpenTunnel]:
      tunnel/tunnel_manager.rs.  [TunnelManager] has the registry of tunnels and
      its operations over the class [TunnelOps] (the trait [Tunnel]) with laws
      [TunnelLaws]; tunnels live in a heap and are shared by address.
      [ProxyUpgrade] interleaves the registry with the task that replaces
      relayed tunnels; [RendezvousOwner] is the ownership of rendezvous attempts;
      [OpenTunnel] the ranking and choice of endpoints and the races.
    - [TcpTunnelObject]: the TCP tunnel as an instance of [TunnelOps] and
      [TunnelLaws].
    - [PnTraffic], [PnServer]: pn/protocol.rs and pn/service/pn_server.rs, the
      proxy node: traffic accounting and limits with their deferred cleanup, the
      validation of proxy requests, relay sessions and the handlers that open
      and bridge them.  The speed statistics and the rate limiter of the crate
      sfo-io are the classes [SpeedStatOps] and [LimiterOps] with their laws.
    - [PnTunnel], [PnClient]: pn/client, relayed tunnels (lifecycle, idle timers,
      heartbeat), the decisions of the client's accept and open paths and its
      registry of tunnels; [PnTunnelObject] is the second instance of [TunnelOps]
      and [TunnelLaws].
    - [SnEndpoints], [SnService], [SnProfiles], [RendezvousNet], [SnServer]: sn/service
      (service.rs, call_stub.rs), the super node: which endpoints it accepts and
      hands out, the handlers of reports, queries, calls and rendezvous over the
      tables above, the agreement of its two copies of a NAT profile, its command
      handlers and life cycle.  A handler is split where it awaits; the streams
      of a peer are read afresh after each await.  Certificates are the class
      [CertOps].  [RendezvousNet] lets several SNs authenticate, lead, relay and
      deliver rendezvous requests.
    - [InterSn]: sn/inter_sn, the protocol between SNs: codes, messages, the
      dispatcher and the client's methods, and the SN service as a peer.
    - [OwnerDirectory], [OwnerServer]: sn/directory/server.rs and client.rs, the
      owner directory as a service, its client at the serving SNs, the control
      loop of an owner and its life cycle.
    - [SnClient], [SnReporting]: sn/client/sn_service.rs, the client of SNs:
      registration, reports, probing, eviction, calls and queries; and the
      composition of the two ends of a report.
    - [NatProbe]: sn/nat_probe.rs, the probe datagrams, their signatures and the
      reflector with its signing budget.
    - [NetManager], [TcpNetwork], [QuicListener], [QuicNetwork]: networks
      (net_manager.rs, tcp/network.rs, tcp/listener.rs, quic/listener.rs,
      quic/network.rs).  [NetManager] listens over networks of the class
      [TunnelNetwork], of which [TcpNetwork] and [QuicNetwork] have the
      instances, and hands incoming tunnels to subscribers; [TcpNetwork] leads
      data connections to the tunnels the manager has accepted; [QuicListener]
      sorts datagrams, probes, predicts and punches; [QuicNetwork] chooses
      listeners and retries connections.
    - [QuicTunnel], [QuicChannels]: networks/quic/tunnel.rs.  [QuicTunnel] has the
      tunnel over one QUIC connection with its messages, loops, channels and
      handshake, and is an instance of [TunnelOps] and [TunnelLaws];
      [QuicChannels] lets two of them open datagram channels to each other.
    - [Ttp]: ttp, streams and datagrams between nodes that know each other's
      address: registries of callbacks, attaching of tunnels, the caches of the
      runtime and of the client with its leases.
    - [Listeners]: stream/stream_manager.rs and datagram/datagram_manager.rs,
      the listeners of an application and the channels handed to them.
    - [Async]: futures as the language has them, that run between awaits, can be
      dropped at each of them and then release the guards they hold, with
      timeouts, races and spawned tasks; a logic whose judgement [ok] carries an
      invariant over the world and the guards held, and pools of tasks.
    - [DeviceFinder]: tunnel/device_finder.rs and finder/device_cache.rs, the
      lookup of a device by its identifier over the caches and the SN client.
    - [Opening], [OpeningInvariant], [OpeningSafety]: the asynchronous procedures
      of tunnel/tunnel_manager.rs that open tunnels, as futures over the state of
      [TunnelManager], [RendezvousOwner] and [OpenTunnel]: dialling, connecting
      back, rendezvous on both sides, the proxy, their races, timeouts, locks and
      drop guards; the invariant of the manager with the guards of its running
      tasks; and what callers can rely on.  [Opening] awaits answers ([Ask]) of
      the networks, the SN client and the device finder, of which
      [default_finder_found] discharges what is assumed of the finder.
    - [Text], [EndpointText]: the standard library's numbers, words and lines in
      text, its printer and parser of socket addresses, and the textual form of
      endpoints (endpoint.rs, [Display] and [FromStr]).
    - [LocalIp]: sn/client/local_ip.rs and the filter of interfaces in
      sn/client/sn_service.rs, which local addresses a client reports.
    - [SnMessages]: sn/protocol/sn.rs and v0.rs, the answers to queries and the
      notices of calls with their extensions, and service receipts.
    - [PnSetup]: pn/client (pn_client.rs, pn_listener.rs), two proxy clients that
      set up relayed tunnels over a proxy and open channels on them, over the
      registries of [PnClient].
    - [Identity], [TlsAuth]: p2p_identity.rs, x509.rs, tls and
      networks/tcp/connection.rs.  [Identity] has the traits of identities and
      certificates as classes with laws, and X.509 as their implementation over
      the class [X509Ops] of cryptographic functions; [TlsAuth] the callbacks and
      configurations given to rustls (an interface with the laws [TlsLaws]) and
      what TCP, QUIC and proxied streams make of a handshake.

    ** How code becomes definitions

    A struct behind a mutex is a record passed through the operations; each
    operation is the body of the locked region.  [bucky_time_now()] is an
    argument.  A [HashMap] is a [gmap]; where the code returns a [Vec] in the
    map's iteration order the model returns a set or an unspecified order.
    [P2pResult] is [Result] with the error code; messages of errors and log
    lines are left out.  Integers are [Z]: saturating, wrapping and narrowing
    operations are written out where the code has them, and theorems that
    depend on a width have [is_u16], [is_u32] or [is_u64] as hypotheses.

    ** What the theorems show

    - Rendezvous at the SN (C1, C2, C9): every waiter is answered exactly once
      and as long as one waits its attempt has a leader that will finish it; a
      notification reaches a peer, also over a second SN, only for an
      authenticated client that owns the endpoints it names; delivery tries the
      streams of the target until one decides; all limits hold in every
      reachable state and the rate limit is a sliding window.
    - SN service (C19, C26): the peer cache and the scheduler hold the same NAT
      profile in every reachable state, a call is delivered once per caller and
      tunnel and recycling, reported endpoints are filtered, a start that fails
      leaves no task behind.
    - Between SNs (C17, C33): a client method called over the wire is the peer's
      method; a lease published through the owner directory is found by a query,
      a lease answered was published by the SN it names, and an owner silent for
      a minute is never asked again.
    - SN client (C20, C28, C39, C40): reports and their answers fit together end
      to end, a directive is executed once while its SN stays active, an SN is
      evicted after exactly two failures in a row, a call is answered by the
      first SN that answers; the local addresses reported are the usable ones
      among the first of the interfaces, best first; the directives of a
      restarted SN are refused by the clients that keep it active.
    - Rendezvous at the peers (C11, C35): two colliding attempts are decided
      alike on both sides, no caller is lost, and requests the client builds are
      accepted.
    - Election and commitment (C4): winning and committing take a majority; two
      winners of one term take a member that voted for both and forgot its vote
      in between, by one of the operations listed.
    - Control streams (C5): bytes are delivered in order, an end of file never
      hides a loss, no reader waits once the runtime is closed.
    - TCP tunnel (C6, C14, C37): a data connection is pooled again only when
      both directions are empty, simultaneous claims are decided alike on both
      ends, also when the loser cannot accept the winner's, reverse opening
      joins exactly the matching pair, shutdown answers everyone.
    - Tunnel manager (C12): selection, housekeeping that spares tunnels in use,
      an upgrade task that does not oversleep, races that leak no connection.
    - Opening of tunnels (C3, C10, C23): however callers, super nodes, peers,
      timeouts and races interleave and whoever gives up at whichever await,
      waiters, attempts and locks are held by running tasks and none is left
      when they have ended; a caller is given a tunnel with the peer it asked
      for; a lookup answers with the device asked for unless a super node
      answers with another.
    - Proxy node (C29, C31): only validated requests are bridged, each open is
      answered once; traffic counters are exact, and the deferred cleanup
      neither oversleeps nor runs forever.
    - Proxy tunnels (C30, C36): a channel opened by one client reaches the other
      end of its tunnel and no other, and a set-up that fails leaves nothing
      registered; an idle tunnel is closed only without work and its closing is
      always scheduled; an early pong closes a healthy tunnel.
    - Directory: the session table is the replay of its log, leases can be found
      until they expire.
    - NAT probing (C21): bounds, and that only answers to outstanding directives
      over the registered path are published.
    - NAT probes and the QUIC listener (C18, C22): a probe is answered with the
      source it came from and only the SN asked can have answered it; every
      datagram goes to the QUIC stack, to the waiter of its probe or nowhere;
      predicted endpoints pass every later check of a rendezvous; the reflector
      signs and a burst sends a bounded number of packets.
    - Networks (C7, C8, C13, C27, C32): the two ends of a TLS connection name
      each other and have proved their identities; a data connection reaches
      only the live tunnel that was authenticated with its ids and accepted; an
      incoming tunnel has one fate and a subscriber is removed by its own guard
      only; the tunnel ids of two ends are apart; retried connections end;
      requests go to the listeners they should.
    - QUIC tunnels (C15, C16): an open that succeeded was accepted by the other
      end, no opener is lost whatever closes when, and the handshake gives both
      ends the same ids.
    - TTP, streams and datagrams (C34): channels are opened only over available
      tunnels that were validated or created and attached once; a tunnel in use
      stays in the cache of the client; arriving channels are accepted once and
      in their order, by the listener that was asked for.
    - Codecs (C24, C25, C38): round trips of the bytes and of the text of
      endpoints, and canonicity.

    Further theorems of each file (replay of retried requests, top-n owner sets,
    query specifications, plan roles, replacement of relayed tunnels, uniqueness
    of identifiers and so on) support these.  Lemmas that end in a race or a
    counterexample ([two_leaders_in_one_term],
    [interleaved_election_votes_twice], [stale_claim_decision], [observer_idles_dead_connection],
    [upgrade_stuck], [public_listener_hides_observed],
    [open_resp_races_with_close], [relay_session_outlives_connections],
    [pn_idle_timeout_overflow_panics], [stale_transition_erases_profile],
    [call_in_anothers_name], [restart_does_nothing], [merged_leases_repeat_sn],
    [evicted_stays_out], [growing_count_panics], [server_names_confused],
    [endpoint_registered_after_close], [failed_listen_leaves_listeners],
    [lease_of_successor_lost], [listen_race_stops_successor],
    [lost_connection_left_open], [found_other_device], [handed_tunnel_lost],
    [identity_not_remembered], [usable_address_cut_off],
    [wide_protocol_misread], [early_channel_rejected], [shared_name_lost],
    [rebound_name_confuses_ends] and others) record where the code does not do what
    it means to.

    Invariants are proved by rule induction over step relations whose rules are
    the operations ([rz_run], [cp_run], [sched_reachable], [stub_run],
    [gen_run], [pm_reachable], [cs_reachable], [wr_run], [act_step],
    [sys_step], [world_step], [rz_step], [tr_step], [server_step], [life_step],
    [reg_step], [rw_run], [sn_step], [server_run], [od_run], [online_run],
    [oc_step], [owner_server_run], [client_step], [loop_step], [budget_run], [recv_run],
    [rznet_step], [wait_step], [ql_step], [net_step], [tcp_step], [quic_net_step],
    [lease_step], [admission_step], [table_step], [channel_step], [finder_step],
    [setup_step]), or by induction over a list of operations ([run_ops] of an
    election node).
    Tasks that interleave at their awaits are the pools of [pool_step]; their
    invariant follows from one lemma per procedure ([pool_inv]).

    ** Fuel and bounds

    Loops of the code are structural recursions over the list they traverse
    ([validate_loop], [vote_loop], [accept_loop], [pop_old], [base_loop],
    [direct_race], [predict_loop] over its step count, at most
    [MAX_NAT_PREDICTION_PORTS]).  Fuel is used in these places: the search for a
    free stream identifier ([alloc_loop]) has two iterations more than there are
    streams in use, which [alloc_stream_id_fresh] proves to be enough; the search
    for a local identifier of a TCP tunnel ([next_local_id_loop]) needs at most
    two turns ([local_ids_disjoint]); the loop of [new_rendezvous_request] is
    left at its first turn; paging through the traffic users
    ([iter_collect]) takes more turns than there are users; two turns are enough
    for the id of a tunnel ([next_tunnel_id_spec]); the loop of [net_listen] has
    a turn per endpoint ([listen_loop_spec]).  Loops that wait for the world
    ([poll_recv], [punch_burst], [connect_loop]) run over the list of what the
    world answers, and the theorems bound the part they use.
    [open_channel_loop] is the code's own loop of four attempts and
    [cleanup_loop] its batch of 64.

    ** What is not modelled

    Sockets, the TLS and QUIC protocols, the scheduling of the async runtime (any task may run
    next, any timer may fire), logging, and the crates outside the repository
    (bucky_raw_codec, sfo-cmd-server, tokio, quinn, rustls, mini-moka).  Of the
    repository's own logic: the construction of a stack from its configuration
    (stack.rs, builders and wiring), the copying of bytes through proxied
    streams, the unsafe call of the Windows address interface, the node layer of
    the DHT (dht/node.rs, which lib.rs does not declare and which sends no
    request), and the test driver cyfs-p2p-test. *)

From stdpp Require Export prelude gmap sorting.
From Stdlib Require Export ZArith Lia.

#[global] Open Scope Z_scope.

(** ** Development-wide automation *)

Create HintDb p2p.

(** Turn the boolean tests of the code into the propositions they decide. *)
Ltac bool_to_prop :=
  repeat match goal with
  | H : (_ && _) = true |- _ => apply andb_true_iff in H as [? ?]
  | H : (_ || _) = false |- _ => apply orb_false_iff in H as [? ?]
  | H : negb _ = true |- _ => apply negb_true_iff in H
  | H : negb _ = false |- _ => apply negb_false_iff in H
  | H : (_ =? _) = true |- _ => apply Z.eqb_eq in H
  | H : (_ =? _) = false |- _ => apply Z.eqb_neq in H
  | H : (_ <? _) = true |- _ => apply Z.ltb_lt in H
  | H : (_ <? _) = false |- _ => apply Z.ltb_ge in H
  | H : (_ <=? _) = true |- _ => apply Z.leb_le in H
  | H : (_ <=? _) = false |- _ => apply Z.leb_gt in H
  | H : bool_decide _ = true |- _ => apply bool_decide_eq_true_1 in H
  | H : bool_decide _ = false |- _ => apply bool_decide_eq_false_1 in H
  end.

(** ** Machine integers

    A [w]-bit unsigned integer is a [Z] together with the range predicate of
    its width; the arithmetic of the Rust operators is written out. *)

Definition u8_max : Z := 255.
Definition u16_max : Z := 65535.
Definition u32_max : Z := 4294967295.
Definition u64_max : Z := 18446744073709551615.
Definition i32_min : Z := -2147483648.
Definition i32_max : Z := 2147483647.
Definition i64_min : Z := -9223372036854775808.
Definition i64_max : Z := 9223372036854775807.

Definition is_u8 (z : Z) : Prop := 0 <= z <= u8_max.
Definition is_u16 (z : Z) : Prop := 0 <= z <= u16_max.
Definition is_u32 (z : Z) : Prop := 0 <= z <= u32_max.
Definition is_u64 (z : Z) : Prop := 0 <= z <= u64_max.

(** [u64::saturating_add], [u64::saturating_sub], [u64::wrapping_add],
    [u32::wrapping_add] (the effect of [AtomicU32::fetch_add]) and the checked
    operations of [i32] and [i64]. *)
Definition saturating_add (a b : Z) : Z := Z.min (a + b) u64_max.
Definition saturating_sub (a b : Z) : Z := Z.max (a - b) 0.
Definition wrapping_add_u64 (a b : Z) : Z := (a + b) mod (u64_max + 1).
Definition wrapping_add_u32 (a b : Z) : Z := (a + b) mod (u32_max + 1).

Definition checked_i32 (z : Z) : option Z :=
  if (i32_min <=? z) && (z <=? i32_max) then Some z else None.
Definition checked_i64 (z : Z) : option Z :=
  if (i64_min <=? z) && (z <=? i64_max) then Some z else None.

Lemma saturating_add_u64 a b : is_u64 a -> is_u64 b -> is_u64 (saturating_add a b).
Proof. unfold is_u64, saturating_add, u64_max. lia. Qed.

Lemma saturating_add_ge a b : is_u64 a -> 0 <= b -> a <= saturating_add a b.
Proof. unfold is_u64, saturating_add. lia. Qed.

Lemma saturating_add_le a b : saturating_add a b <= a + b.
Proof. unfold saturating_add. lia. Qed.

Lemma checked_i32_Some z y : checked_i32 z = Some y -> y = z /\ i32_min <= z <= i32_max.
Proof.
  unfold checked_i32. intros H. case_match eqn:E; simplify_eq. bool_to_prop. lia.
Qed.

Lemma checked_i32_in z : i32_min <= z <= i32_max -> checked_i32 z = Some z.
Proof. intros H. unfold checked_i32. case_match eqn:E; [done|]. lia. Qed.

Lemma checked_i64_in z : i64_min <= z <= i64_max -> checked_i64 z = Some z.
Proof. intros H. unfold checked_i64. case_match eqn:E; [done|]. lia. Qed.

#[export] Hint Resolve saturating_add_u64 saturating_add_ge : p2p.

(** ** Time

    A [std::time::Duration] counts nanoseconds; a [Timestamp] is a [u64] of
    microseconds (the unit of [bucky_time_now]). *)

Definition Duration := Z.
Definition from_secs (s : Z) : Duration := s * 1000000000.
Definition from_millis (s : Z) : Duration := s * 1000000.
Definition from_micros (s : Z) : Duration := s * 1000.
Definition as_micros (d : Duration) : Z := d / 1000.
Definition is_zero (d : Duration) : bool := d =? 0.

(** ** Results and orderings *)

Inductive Result (E A : Type) : Type :=
| Ok (a : A)
| Err (e : E).
Arguments Ok {E A} a.
Arguments Err {E A} e.

Definition is_ok {E A} (r : Result E A) : bool :=
  match r with Ok _ => true | Err _ => false end.
Definition is_err {E A} (r : Result E A) : bool := negb (is_ok r).

Declare Scope result_scope.
Notation "x <-? c1 ;; c2" :=
  (match c1 with Ok x => c2 | Err e => Err e end)
  (at level 100, c1 at next level, right associativity) : result_scope.
#[global] Open Scope result_scope.

#[global] Instance Result_eq_dec {E A} `{EqDecision E, EqDecision A} : EqDecision (Result E A).
Proof. solve_decision. Defined.

(** [Ordering::then_with]. *)
Definition then_with (c d : comparison) : comparison :=
  match c with Eq => d | _ => c end.

(** Lexicographic comparison, the derived [Ord] of [Vec<u8>]. *)
Fixpoint list_compare (l1 l2 : list Z) : comparison :=
  match l1, l2 with
  | [], [] => Eq
  | [], _ :: _ => Lt
  | _ :: _, [] => Gt
  | x :: l1, y :: l2 => then_with (x ?= y) (list_compare l1 l2)
  end.

(** A comparison function is a total order. *)
Class TotalCompare {A} (cmp : A -> A -> comparison) : Prop := {
  cmp_eq : forall x y, cmp x y = Eq <-> x = y;
  cmp_opp : forall x y, cmp y x = CompOpp (cmp x y);
  cmp_lt_trans : forall x y z, cmp x y = Lt -> cmp y z = Lt -> cmp x z = Lt;
}.

Arguments cmp_eq {A} cmp {_}.
Arguments cmp_opp {A} cmp {_}.
Arguments cmp_lt_trans {A} cmp {_}.

Lemma then_with_Lt c d : then_with c d = Lt <-> c = Lt \/ (c = Eq /\ d = Lt).
Proof. destruct c, d; naive_solver. Qed.

Lemma then_with_Eq c d : then_with c d = Eq <-> c = Eq /\ d = Eq.
Proof. destruct c, d; naive_solver. Qed.

Lemma then_with_opp c d : CompOpp (then_with c d) = then_with (CompOpp c) (CompOpp d).
Proof. by destruct c. Qed.

#[global] Instance Zcompare_total : TotalCompare Z.compare.
Proof.
  split.
  - intros. apply Z.compare_eq_iff.
  - intros. by rewrite Z.compare_antisym.
  - intros x y z. rewrite !Z.compare_lt_iff. lia.
Qed.

#[global] Instance list_compare_total : TotalCompare list_compare.
Proof.
  split.
  - induction x as [|x l IH]; intros [|y k]; simpl; try done.
    rewrite then_with_Eq, Z.compare_eq_iff, IH. naive_solver.
  - induction x as [|x l IH]; intros [|y k]; simpl; try done.
    by rewrite then_with_opp, <-IH, <-Z.compare_antisym.
  - induction x as [|x l IH]; intros [|y k] [|z m]; simpl; try done.
    rewrite !then_with_Lt, !Z.compare_lt_iff, !Z.compare_eq_iff.
    intros [?|[-> ?]] [?|[-> ?]]; [left; lia..|]. right; split; eauto.
Qed.

Section total_compare.
Context {A} (cmp : A -> A -> comparison) `{!TotalCompare cmp}.

Lemma cmp_refl x : cmp x x = Eq.
Proof using TotalCompare0. by apply (cmp_eq cmp). Qed.

Lemma cmp_Gt_Lt x y : cmp x y = Gt <-> cmp y x = Lt.
Proof using TotalCompare0. rewrite (cmp_opp cmp x y). destruct (cmp x y); naive_solver. Qed.
End total_compare.

(** ** Stable sorting ([slice::sort_by]) and [Vec::dedup_by]

    Every stable sort computes the same list, so insertion sort stands for the
    merge sort of the library.  [le x y] is [cmp x y <> Greater]. *)

Definition cmp_le {A} (cmp : A -> A -> comparison) (x y : A) : bool :=
  match cmp x y with Gt => false | _ => true end.

Fixpoint sorted_insert {A} (le : A -> A -> bool) (x : A) (l : list A) : list A :=
  match l with
  | [] => [x]
  | y :: k => if le x y then x :: l else y :: sorted_insert le x k
  end.

Definition sort_by {A} (le : A -> A -> bool) (l : list A) : list A :=
  foldr (sorted_insert le) [] l.

(** [dedup_by same]: drops an element when [same] relates it to the element
    kept before it. *)
Fixpoint dedup_after {A} (same : A -> A -> bool) (kept : A) (l : list A) : list A :=
  match l with
  | [] => []
  | x :: k => if same x kept then dedup_after same kept k else x :: dedup_after same x k
  end.

Definition dedup_by {A} (same : A -> A -> bool) (l : list A) : list A :=
  match l with
  | [] => []
  | x :: k => x :: dedup_after same x k
  end.

Section sorting.
Context {A} (le : A -> A -> bool).
Context (le_total : forall x y, le x y = true \/ le y x = true).
Context (le_trans : forall x y z, le x y = true -> le y z = true -> le x z = true).

Let R x y := le x y = true.

Lemma sorted_insert_perm x l : sorted_insert le x l ≡ₚ x :: l.
Proof.
  induction l as [|y l IH]; simpl; [done|]. case_match; [done|].
  rewrite IH. by constructor.
Qed.

Lemma sort_by_perm l : sort_by le l ≡ₚ l.
Proof. induction l as [|x l IH]; simpl; [done|]. by rewrite sorted_insert_perm, IH. Qed.

Lemma sort_by_elem l x : x ∈ sort_by le l <-> x ∈ l.
Proof. by rewrite sort_by_perm. Qed.

Lemma sort_by_length l : length (sort_by le l) = length l.
Proof. apply Permutation_length, sort_by_perm. Qed.

Lemma sorted_insert_sorted x l :
  StronglySorted R l -> StronglySorted R (sorted_insert le x l).
Proof using le_total le_trans.
  induction 1 as [|y l Hl IH Hy]; simpl; [by repeat constructor|].
  case_match eqn:E.
  - constructor; [by constructor|]. constructor; [exact E|].
    eapply Forall_impl; [exact Hy|]. intros z Hz. by apply (le_trans x y z).
  - constructor; [done|]. rewrite sorted_insert_perm. constructor; [|done].
    destruct (le_total x y) as [?|?]; [congruence|done].
Qed.

Lemma sort_by_sorted l : StronglySorted R (sort_by le l).
Proof using le_total le_trans.
  induction l as [|x l IH]; simpl; [constructor|]. by apply sorted_insert_sorted.
Qed.

(** Sorting forgets the input order of lists on which [le] separates. *)
Lemma sort_by_unique l k :
  (forall x y, x ∈ l -> y ∈ l -> le x y = true -> le y x = true -> x = y) ->
  l ≡ₚ k -> sort_by le l = sort_by le k.
Proof using le_total le_trans.
  intros Hanti Hp. apply (StronglySorted_unique_strong R); [|apply sort_by_sorted..|].
  - intros x1 x2 Hx1 Hx2. apply Hanti; [by apply sort_by_elem|].
    rewrite Hp. by rewrite sort_by_elem in Hx2.
  - by rewrite !sort_by_perm.
Qed.
End sorting.

(** What [dedup_by] leaves of a sorted list: a sublist in which every dropped
    element has a smaller one with the same key. *)
Section dedup.
Context {A K} (key : A -> K) (same : A -> A -> bool) (R : A -> A -> Prop).
Context (same_key : forall x y, same x y = true -> key x = key y).

Lemma dedup_by_sublist l : dedup_by same l `sublist_of` l.
Proof using Type.
  clear same_key. destruct l as [|x l]; simpl; [done|]. apply sublist_skip. revert x.
  induction l as [|y l IH]; intros x; simpl; [done|]. case_match; [by apply sublist_cons|by apply sublist_skip].
Qed.

Lemma dedup_by_sorted l : StronglySorted R l -> StronglySorted R (dedup_by same l).
Proof using Type.
  clear same_key. intros H. pose proof (dedup_by_sublist l) as Hs. revert H. induction Hs as [|x k l Hk IH|x k l Hk IH].
  - done.
  - inversion 1 as [|?? Hl Hx]; subst. constructor; [auto|]. rewrite Forall_forall in *. intros y Hy. apply Hx. by apply (sublist_subseteq _ _ Hk).
  - inversion 1; auto.
Qed.

Lemma dedup_by_covers l x :
  StronglySorted R l -> x ∈ l -> exists y, y ∈ dedup_by same l /\ key y = key x /\ (y = x \/ R y x).
Proof using same_key.
  destruct l as [|z l]; [by intros _ ?%elem_of_nil|]. simpl. revert z.
  induction l as [|y l IH]; intros z Hs Hx.
  - apply list_elem_of_singleton in Hx as ->. exists z. split; [left|auto].
  - inversion Hs as [|?? Hs' Hz]; subst. apply Forall_cons in Hz as [Hzy Hzl]. simpl. case_match eqn:E.
    + apply elem_of_cons in Hx as [->|[->|Hx]%elem_of_cons].
      * exists z. split; [left|auto].
      * exists z. split; [left|]. split; [symmetry; by apply same_key|by right].
      * apply (IH z); [inversion Hs'; by constructor|by right].
    + apply elem_of_cons in Hx as [->|Hx]; [exists z; split; [left|auto]|].
      destruct (IH y Hs' Hx) as (w & Hw & ?). exists w. split; [by right|done].
Qed.
End dedup.

(** Comparison-driven sorting: [sort_by(|l, r| cmp l r)] for a total order. *)
Section cmp_sorting.
Context {A} (cmp : A -> A -> comparison) `{!TotalCompare cmp}.

Lemma cmp_le_total x y : cmp_le cmp x y = true \/ cmp_le cmp y x = true.
Proof using TotalCompare0. unfold cmp_le. rewrite (cmp_opp cmp x y). destruct (cmp x y); auto. Qed.

Lemma cmp_le_trans x y z :
  cmp_le cmp x y = true -> cmp_le cmp y z = true -> cmp_le cmp x z = true.
Proof using TotalCompare0.
  unfold cmp_le. destruct (cmp x y) eqn:E1, (cmp y z) eqn:E2; try done; intros _ _.
  - apply (cmp_eq cmp) in E1 as ->. by rewrite E2.
  - apply (cmp_eq cmp) in E1 as ->. by rewrite E2.
  - apply (cmp_eq cmp) in E2 as ->. by rewrite E1.
  - by rewrite (cmp_lt_trans cmp x y z).
Qed.

Lemma cmp_le_antisym x y : cmp_le cmp x y = true -> cmp_le cmp y x = true -> x = y.
Proof using TotalCompare0.
  unfold cmp_le. rewrite (cmp_opp cmp x y). destruct (cmp x y) eqn:E; try done.
  intros _ _. by apply (cmp_eq cmp).
Qed.
End cmp_sorting.

(** ** Maps: [HashMap::retain] is [filter]; counting entries is the size of a
    filtered map. *)

Lemma map_filter_size_le {K V} `{Countable K} (P : K * V -> Prop) `{!forall x, Decision (P x)}
    (m : gmap K V) : (size (filter P m) <= size m)%nat.
Proof. apply map_subseteq_size, map_filter_subseteq. Qed.

Lemma map_size_insert_le {K V} `{Countable K} (m : gmap K V) k v :
  (size (<[k:=v]> m) <= S (size m))%nat.
Proof. rewrite map_size_insert. case_match; simpl; lia. Qed.

Lemma size_list_to_set_le {A} `{Countable A} (l : list A) :
  (size (list_to_set l : gset A) <= length l)%nat.
Proof.
  induction l as [|x l IH]; [by rewrite list_to_set_nil, size_empty|]. rewrite list_to_set_cons.
  rewrite size_union_alt, size_singleton. simpl.
  assert ((list_to_set l : gset A) ∖ {[x]} ⊆ list_to_set l) as Hs%subseteq_size by set_solver. lia.
Qed.

(** ** Association lists whose keys are distinct *)

Lemma NoDup_fst_inj {A B} (l : list (A * B)) x a b : NoDup (map fst l) -> (x, a) ∈ l -> (x, b) ∈ l -> a = b.
Proof.
  induction l as [|[y c] l IH]; [intros _ H; inversion H|]. simpl. intros [Hy Hl]%NoDup_cons Ha Hb.
  assert (Hn : forall d, (y, d) ∉ l) by (intros d Hd; apply Hy, list_elem_of_fmap; by exists (y, d)).
  inversion Ha; inversion Hb; subst; try congruence; try by destruct (Hn a); try by destruct (Hn b).
  all: try by (exfalso; eapply Hn). by apply IH.
Qed.

(** ** Executions: what every step preserves holds at the end of every run. *)

Lemma rtc_preserves {A} (R : relation A) (P : A -> Prop) x y :
  (forall u v, R u v -> P u -> P v) -> rtc R x y -> P x -> P y.
Proof. intros Hstep. induction 1; eauto. Qed.
