(* ===== verification/Errors.v ===== *)
(** * Error codes (src/p2p-frame/src/error.rs)

    The [P2pErrorCode] enum with its [repr(u16)] discriminants, the narrowing
    conversions used on the wire, and the [P2pResult] type of the crate. *)

From S2P Require Import Prelude.

Module P2pErrorCode.

Inductive t : Set :=
| Ok
| Failed
| InvalidParam
| Timeout
| NotFound
| AlreadyExists
| NotSupport
| ErrorState
| InvalidFormat
| Expired
| OutOfLimit
| InternalError
| PermissionDenied
| ConnectionRefused
| ConnectionReset
| ConnectionAborted
| NotConnected
| AddrInUse
| AddrNotAvailable
| Interrupted
| InvalidInput
| InvalidData
| WriteZero
| UnexpectedEof
| BrokenPipe
| WouldBlock
| UnSupport
| Unmatch
| ExecuteError
| Reject
| Ignored
| InvalidSignature
| AlreadyExistsAndSignatureMerged
| TargetNotFound
| Aborted
| ConnectFailed
| ConnectInterZoneFailed
| InnerPathNotFound
| RangeNotSatisfiable
| UserCanceled
| Conflict
| OutofSessionLimit
| Redirect
| MongoDBError
| SqliteError
| UrlError
| ZipError
| HttpError
| JsonError
| HexError
| RsaError
| CryptoError
| MpscSendError
| MpscRecvError
| IoError
| NetworkError
| CodeError
| UnknownBdtError
| UnknownIOError
| Unknown
| Pending
| NotChange
| NotMatch
| NotImplement
| NotInit
| ParseError
| NotHandled
| RawCodecError
| SignError
| StreamPortAlreadyListen
| DatagramPortAlreadyListen
| CertError
| TlsError
| QuicError
| TunnelNotConnected
| ConnectReset
| PortNotListen
| ConnectAckError.

(** The discriminant: constructors are numbered from 0 in order. *)
Definition as_u16 (c : t) : Z :=
  match c with
  | Ok => 0
  | Failed => 1
  | InvalidParam => 2
  | Timeout => 3
  | NotFound => 4
  | AlreadyExists => 5
  | NotSupport => 6
  | ErrorState => 7
  | InvalidFormat => 8
  | Expired => 9
  | OutOfLimit => 10
  | InternalError => 11
  | PermissionDenied => 12
  | ConnectionRefused => 13
  | ConnectionReset => 14
  | ConnectionAborted => 15
  | NotConnected => 16
  | AddrInUse => 17
  | AddrNotAvailable => 18
  | Interrupted => 19
  | InvalidInput => 20
  | InvalidData => 21
  | WriteZero => 22
  | UnexpectedEof => 23
  | BrokenPipe => 24
  | WouldBlock => 25
  | UnSupport => 26
  | Unmatch => 27
  | ExecuteError => 28
  | Reject => 29
  | Ignored => 30
  | InvalidSignature => 31
  | AlreadyExistsAndSignatureMerged => 32
  | TargetNotFound => 33
  | Aborted => 34
  | ConnectFailed => 35
  | ConnectInterZoneFailed => 36
  | InnerPathNotFound => 37
  | RangeNotSatisfiable => 38
  | UserCanceled => 39
  | Conflict => 40
  | OutofSessionLimit => 41
  | Redirect => 42
  | MongoDBError => 43
  | SqliteError => 44
  | UrlError => 45
  | ZipError => 46
  | HttpError => 47
  | JsonError => 48
  | HexError => 49
  | RsaError => 50
  | CryptoError => 51
  | MpscSendError => 52
  | MpscRecvError => 53
  | IoError => 54
  | NetworkError => 55
  | CodeError => 56
  | UnknownBdtError => 57
  | UnknownIOError => 58
  | Unknown => 59
  | Pending => 60
  | NotChange => 61
  | NotMatch => 62
  | NotImplement => 63
  | NotInit => 64
  | ParseError => 65
  | NotHandled => 66
  | RawCodecError => 67
  | SignError => 68
  | StreamPortAlreadyListen => 69
  | DatagramPortAlreadyListen => 70
  | CertError => 71
  | TlsError => 72
  | QuicError => 73
  | TunnelNotConnected => 74
  | ConnectReset => 75
  | PortNotListen => 76
  | ConnectAckError => 77
  end.

(** [num_derive::FromPrimitive] on the same discriminants. *)
Definition from_u16 (v : Z) : option t :=
  match v with
  | 0 => Some Ok
  | 1 => Some Failed
  | 2 => Some InvalidParam
  | 3 => Some Timeout
  | 4 => Some NotFound
  | 5 => Some AlreadyExists
  | 6 => Some NotSupport
  | 7 => Some ErrorState
  | 8 => Some InvalidFormat
  | 9 => Some Expired
  | 10 => Some OutOfLimit
  | 11 => Some InternalError
  | 12 => Some PermissionDenied
  | 13 => Some ConnectionRefused
  | 14 => Some ConnectionReset
  | 15 => Some ConnectionAborted
  | 16 => Some NotConnected
  | 17 => Some AddrInUse
  | 18 => Some AddrNotAvailable
  | 19 => Some Interrupted
  | 20 => Some InvalidInput
  | 21 => Some InvalidData
  | 22 => Some WriteZero
  | 23 => Some UnexpectedEof
  | 24 => Some BrokenPipe
  | 25 => Some WouldBlock
  | 26 => Some UnSupport
  | 27 => Some Unmatch
  | 28 => Some ExecuteError
  | 29 => Some Reject
  | 30 => Some Ignored
  | 31 => Some InvalidSignature
  | 32 => Some AlreadyExistsAndSignatureMerged
  | 33 => Some TargetNotFound
  | 34 => Some Aborted
  | 35 => Some ConnectFailed
  | 36 => Some ConnectInterZoneFailed
  | 37 => Some InnerPathNotFound
  | 38 => Some RangeNotSatisfiable
  | 39 => Some UserCanceled
  | 40 => Some Conflict
  | 41 => Some OutofSessionLimit
  | 42 => Some Redirect
  | 43 => Some MongoDBError
  | 44 => Some SqliteError
  | 45 => Some UrlError
  | 46 => Some ZipError
  | 47 => Some HttpError
  | 48 => Some JsonError
  | 49 => Some HexError
  | 50 => Some RsaError
  | 51 => Some CryptoError
  | 52 => Some MpscSendError
  | 53 => Some MpscRecvError
  | 54 => Some IoError
  | 55 => Some NetworkError
  | 56 => Some CodeError
  | 57 => Some UnknownBdtError
  | 58 => Some UnknownIOError
  | 59 => Some Unknown
  | 60 => Some Pending
  | 61 => Some NotChange
  | 62 => Some NotMatch
  | 63 => Some NotImplement
  | 64 => Some NotInit
  | 65 => Some ParseError
  | 66 => Some NotHandled
  | 67 => Some RawCodecError
  | 68 => Some SignError
  | 69 => Some StreamPortAlreadyListen
  | 70 => Some DatagramPortAlreadyListen
  | 71 => Some CertError
  | 72 => Some TlsError
  | 73 => Some QuicError
  | 74 => Some TunnelNotConnected
  | 75 => Some ConnectReset
  | 76 => Some PortNotListen
  | 77 => Some ConnectAckError
  | _ => None
  end.

(** [let v: u16 = self.as_u16(); v as u8]. *)
Definition as_u8 (c : t) : Z := as_u16 c mod 256.

Lemma from_as_u16 c : from_u16 (as_u16 c) = Some c.
Proof. by destruct c. Qed.

Lemma as_u16_inj c d : as_u16 c = as_u16 d -> c = d.
Proof. intros H. apply (f_equal from_u16) in H. rewrite !from_as_u16 in H. congruence. Qed.

Lemma as_u16_small c : 0 <= as_u16 c < 256.
Proof. destruct c; simpl; lia. Qed.

#[global] Instance t_eq_dec : EqDecision t.
Proof.
  refine (fun c d => cast_if (decide (as_u16 c = as_u16 d))); [by apply as_u16_inj|congruence].
Defined.

(** The narrowing of an error code to the [u8] carried by the wire
    messages (as_u8) loses nothing: the code is recovered by widening the byte
    and reading the discriminant. *)
Theorem error_code_u8_roundtrip c : from_u16 (as_u8 c) = Some c.
Proof.
  unfold as_u8. rewrite Z.mod_small by apply as_u16_small. apply from_as_u16.
Qed.

End P2pErrorCode.

Notation P2pResult := (Result P2pErrorCode.t).
