(* ===== verification/Ids.v ===== *)
(** * Identifiers (src/p2p-frame/src/types.rs, p2p_identity.rs)

    [P2pId] (a byte vector with the derived lexicographic order), the [u32]
    identifiers with their serial-number comparison, and the atomic id
    generators, both as sequential functions and as a step relation that
    interleaves the [fetch_add]s of concurrent callers. *)

From S2P Require Import Prelude.

(** ** P2pId *)

(** [pub struct P2pId(Vec<u8>)]. *)
Record P2pId := mkP2pId { p2pid_bytes : list Z }.

#[global] Instance P2pId_eq_dec : EqDecision P2pId.
Proof. solve_decision. Defined.

#[global] Instance P2pId_countable : Countable P2pId.
Proof. by apply (inj_countable' p2pid_bytes mkP2pId); intros []. Defined.

(** The derived [Ord]. *)
Definition P2pId_cmp (a b : P2pId) : comparison :=
  list_compare (p2pid_bytes a) (p2pid_bytes b).

#[global] Instance P2pId_cmp_total : TotalCompare P2pId_cmp.
Proof.
  unfold P2pId_cmp. split.
  - intros [x] [y]. simpl. rewrite (cmp_eq list_compare). naive_solver.
  - intros [x] [y]. apply (cmp_opp list_compare).
  - intros [x] [y] [z]. apply (cmp_lt_trans list_compare).
Qed.

(** [self.0.iter().all(|b| *b == 0)] and [Default] ([vec![0; 32]]). *)
Definition P2pId_is_default (id : P2pId) : bool :=
  forallb (fun b => b =? 0) (p2pid_bytes id).
Definition P2pId_default : P2pId := mkP2pId (replicate 32 0).

(** ** The u32 newtypes

    [Sequence], [TunnelId], [TunnelCandidateId] and [SessionId] wrap a [u32];
    [value] is the identity on that representation. *)

Notation Sequence := Z (only parsing).
Notation TunnelId := Z (only parsing).
Notation TunnelCandidateId := Z (only parsing).
Notation SessionId := Z (only parsing).
Notation Timestamp := Z (only parsing).

(** [PartialOrd for TunnelId]: serial-number arithmetic, except around 0. *)
Definition TunnelId_partial_cmp (a b : TunnelId) : option comparison :=
  if (a =? 0) || (b =? 0) then Some (a ?= b)
  else if Z.max a b - Z.min a b >? u32_max / 2 then
    Some (if a >? b then Lt else Gt)
  else Some (a ?= b).

(** The [Ord] derived for the same struct: the order of the wrapped [u32]. *)
Definition TunnelId_cmp (a b : TunnelId) : comparison := a ?= b.

(** ** Generators *)

(** [AtomicU32::fetch_add(1, SeqCst)]: the value read and the new counter. *)
Definition fetch_add (cur : Z) : Z * Z := (cur, wrapping_add_u32 cur 1).

(** [SequenceGenerator::generate], [TunnelCandidateIdGenerator::generate] and
    [TunnelIdGenerator::generate] have the same body. *)
Definition generate (cur : Z) : Z * Z :=
  let '(v, cur1) := fetch_add cur in
  if v =? 0 then fetch_add cur1 else (v, cur1).

Definition SequenceGenerator_generate := generate.
Definition TunnelCandidateIdGenerator_generate := generate.
Definition TunnelIdGenerator_generate := generate.

(** [SessionId]: 0 is the invalid id. *)
Definition SessionId_invalid : SessionId := 0.
Definition SessionId_is_valid (s : SessionId) : bool := negb (s =? SessionId_invalid).

(** [SessionId(self.cur.fetch_add(1) + 1)]: the addition panics ([None]) on
    overflow in builds with overflow checks and wraps otherwise. *)
Definition SessionIdGenerator_generate (overflow_checks : bool) (cur : Z) : option SessionId * Z :=
  let '(v, cur1) := fetch_add cur in
  (if v + 1 <=? u32_max then Some (v + 1)
   else if overflow_checks then None else Some (wrapping_add_u32 v 1), cur1).

(** ** Concurrent callers

    One call of [generate] is one atomic [fetch_add], or two when the first
    reads 0.  [retrying] counts the callers between the two. [gen_run cur0 n
    s out] says that [n] atomic steps from the counter [cur0] reach [s], the
    calls completed on the way having returned [out] (latest first). *)

Record gen_state := mkGen { gen_cur : Z; gen_retrying : nat }.

Inductive gen_step : gen_state -> option Z -> gen_state -> Prop :=
| gen_first_nonzero cur r :
    cur <> 0 ->
    gen_step (mkGen cur r) (Some cur) (mkGen (snd (fetch_add cur)) r)
| gen_first_zero r :
    gen_step (mkGen 0 r) None (mkGen (snd (fetch_add 0)) (S r))
| gen_second cur r :
    gen_step (mkGen cur (S r)) (Some cur) (mkGen (snd (fetch_add cur)) r).

Inductive gen_run (cur0 : Z) : nat -> gen_state -> list Z -> Prop :=
| gen_run_start : gen_run cur0 0 (mkGen cur0 0) []
| gen_run_step n s out o s' :
    gen_run cur0 n s out -> gen_step s o s' ->
    gen_run cur0 (S n) s' (match o with Some v => v :: out | None => out end).

(** ** Properties of the comparison *)

Lemma TunnelId_partial_cmp_total a b : exists c, TunnelId_partial_cmp a b = Some c.
Proof. unfold TunnelId_partial_cmp. repeat case_match; eauto. Qed.

(** The serial comparison of tunnel ids is antisymmetric: swapping the
    operands reverses the answer, also across the wrap-around and around 0. *)
Theorem tunnel_id_cmp_antisym a b :
  TunnelId_partial_cmp b a = CompOpp <$> TunnelId_partial_cmp a b.
Proof.
  unfold TunnelId_partial_cmp. rewrite (orb_comm (b =? 0)), Z.max_comm, Z.min_comm.
  destruct ((a =? 0) || (b =? 0)); simpl; [by rewrite Z.compare_antisym|].
  destruct (Z.max a b - Z.min a b >? u32_max / 2) eqn:E; simpl;
    [|by rewrite Z.compare_antisym].
  assert (Hd : 2147483647 < Z.max a b - Z.min a b).
  { change (u32_max / 2) with 2147483647 in E. lia. }
  destruct (Z.gtb_spec a b), (Z.gtb_spec b a); simpl; try done; lia.
Qed.

(** An id issued at most 2^31-1 increments after another one compares
    greater than it, across the wrap of the 32-bit counter (0, which is never
    issued, excepted). *)
Theorem tunnel_id_cmp_serial a k :
  is_u32 a -> a <> 0 -> 0 < k <= 2147483647 -> wrapping_add_u32 a k <> 0 ->
  TunnelId_partial_cmp (wrapping_add_u32 a k) a = Some Gt.
Proof.
  unfold is_u32, wrapping_add_u32, u32_max. intros Ha Ha0 Hk.
  destruct (Z_lt_le_dec (a + k) 4294967296) as [Hs|Hs].
  - rewrite Z.mod_small by lia. intros _. unfold TunnelId_partial_cmp.
    change (u32_max / 2) with 2147483647.
    repeat case_match; try lia. f_equal. apply Z.compare_gt_iff. lia.
  - replace ((a + k) mod (4294967295 + 1)) with (a + k - 4294967296).
    2: { apply (Z.mod_unique _ _ 1); lia. }
    intros Hn. unfold TunnelId_partial_cmp. change (u32_max / 2) with 2147483647.
    destruct ((a + k - 4294967296 =? 0) || (a =? 0)) eqn:E0; [lia|].
    destruct (Z.max _ _ - _ >? _) eqn:E1; [|lia].
    destruct (a + k - 4294967296 >? a) eqn:E2; [lia|done].
Qed.

Lemma tunnel_id_cmp_serial_witness :
  TunnelId_partial_cmp (wrapping_add_u32 4294967290 100) 4294967290 = Some Gt.
Proof. apply (tunnel_id_cmp_serial 4294967290 100); unfold is_u32; vm_compute; intuition discriminate. Defined.

(** The two orders of [TunnelId] disagree: [Ord] is derived from the
    wrapped integer while [PartialOrd] is the serial comparison, so there are
    ids on which [partial_cmp] is not [Some (cmp)], and the serial comparison
    itself is not transitive. *)
Theorem tunnel_id_orders_disagree :
  (exists a b, is_u32 a /\ is_u32 b /\
     TunnelId_partial_cmp a b <> Some (TunnelId_cmp a b)) /\
  (exists a b c, is_u32 a /\ is_u32 b /\ is_u32 c /\
     TunnelId_partial_cmp a b = Some Lt /\ TunnelId_partial_cmp b c = Some Lt /\
     TunnelId_partial_cmp a c = Some Gt).
Proof.
  split.
  - exists 1, 4294967295. unfold is_u32. vm_compute. intuition discriminate.
  - exists 1, 2000000000, 4000000000. unfold is_u32. vm_compute. intuition discriminate.
Qed.

(** ** Properties of the generators *)

Lemma fetch_add_next cur0 k :
  0 <= k -> snd (fetch_add ((cur0 + k) mod 4294967296)) = (cur0 + (k + 1)) mod 4294967296.
Proof.
  intros Hk. simpl. unfold wrapping_add_u32, u32_max.
  change (4294967295 + 1) with 4294967296.
  rewrite Zplus_mod_idemp_l. f_equal. lia.
Qed.

Lemma mod_window_inj a i j :
  0 <= i < 4294967296 -> 0 <= j < 4294967296 ->
  (a + i) mod 4294967296 = (a + j) mod 4294967296 -> i = j.
Proof.
  intros Hi Hj H.
  pose proof (Z.div_mod (a + i) 4294967296 ltac:(lia)).
  pose proof (Z.div_mod (a + j) 4294967296 ltac:(lia)). nia.
Qed.

(** The invariant of a run of fewer than 2^32 atomic steps. *)
Record gen_inv (cur0 : Z) (n : nat) (s : gen_state) (out : list Z) : Prop := {
  gi_cur : gen_cur s = (cur0 + Z.of_nat n) mod 4294967296;
  gi_out : forall v, v ∈ out ->
    exists k, 0 <= k < Z.of_nat n /\ v = (cur0 + k) mod 4294967296;
  gi_retry : (0 < gen_retrying s)%nat ->
    exists k, 0 <= k < Z.of_nat n /\ 0 = (cur0 + k) mod 4294967296;
  gi_nodup : NoDup out;
  gi_nonzero : 0 ∉ out;
}.

Lemma gen_inv_step cur0 n s out o s' :
  Z.of_nat (S n) <= 4294967296 ->
  gen_inv cur0 n s out -> gen_step s o s' ->
  gen_inv cur0 (S n) s' (match o with Some v => v :: out | None => out end).
Proof.
  intros Hn [Hcur Hout Hretry Hnd Hnz] Hstep.
  assert (Hnext : forall cur, cur = (cur0 + Z.of_nat n) mod 4294967296 ->
    snd (fetch_add cur) = (cur0 + Z.of_nat (S n)) mod 4294967296).
  { intros cur ->. rewrite fetch_add_next by lia. f_equal. lia. }
  assert (Hfresh : forall k, 0 <= k < Z.of_nat n ->
    (cur0 + Z.of_nat n) mod 4294967296 <> (cur0 + k) mod 4294967296).
  { intros k Hk Heq. apply mod_window_inj in Heq; lia. }
  assert (Hlast : forall v, v ∈ out \/ v = gen_cur s ->
    exists k, 0 <= k < Z.of_nat (S n) /\ v = (cur0 + k) mod 4294967296).
  { intros v [Hv| ->]; [destruct (Hout v Hv) as (k & ? & ->); exists k|exists (Z.of_nat n)];
      (split; [lia|done]). }
  assert (Hnew : gen_cur s ∉ out).
  { intros Hin. destruct (Hout _ Hin) as (k & Hk & He). rewrite Hcur in He.
    by apply (Hfresh k Hk). }
  assert (Hold : forall r, ((0 < r)%nat -> (0 < gen_retrying s)%nat) -> (0 < r)%nat ->
    exists k, 0 <= k < Z.of_nat (S n) /\ 0 = (cur0 + k) mod 4294967296).
  { intros r Hr Hp. destruct (Hretry (Hr Hp)) as (k & ? & ?). exists k. split; [lia|done]. }
  inversion Hstep; subst; cbn [gen_cur gen_retrying] in *.
  - split; cbn [gen_cur gen_retrying]; [by apply Hnext| |by apply Hold|by constructor|set_solver].
    intros v Hv. apply Hlast. set_solver.
  - split; cbn [gen_cur gen_retrying]; [by apply Hnext| | |done|done].
    + intros v Hv. apply Hlast. by left.
    + intros _. exists (Z.of_nat n). split; [lia|done].
  - split; cbn [gen_cur gen_retrying]; [by apply Hnext| |apply Hold; lia|by constructor|].
    + intros v Hv. apply Hlast. set_solver.
    + intros [Hz|Hz]%elem_of_cons; [|done]. destruct Hretry as (k & Hk & He); [lia|].
      apply (Hfresh k Hk). congruence.
Qed.

Lemma gen_run_inv cur0 n s out :
  is_u32 cur0 -> Z.of_nat n <= 4294967296 -> gen_run cur0 n s out -> gen_inv cur0 n s out.
Proof.
  unfold is_u32, u32_max. intros H0 Hn Hrun. induction Hrun as [|n s out o s' Hrun IH Hstep].
  - split; simpl; try set_solver; try lia; [|constructor].
    rewrite Z.add_0_r, Z.mod_small; lia.
  - eapply gen_inv_step; [lia| |done]. apply IH. lia.
Qed.

(** However the atomic steps of concurrent [generate] calls interleave,
    the ids returned within one cycle of the 32-bit counter are pairwise
    distinct and never 0. *)
Theorem generate_concurrent_unique cur0 n s out :
  is_u32 cur0 -> Z.of_nat n <= 4294967296 -> gen_run cur0 n s out ->
  NoDup out /\ 0 ∉ out.
Proof. intros H0 Hn Hr. by destruct (gen_run_inv cur0 n s out H0 Hn Hr). Qed.

(** Two callers racing across the wrap: the first reads 0 and retries after
    the second has taken 1. *)
Lemma generate_concurrent_unique_witness : NoDup [2; 1; 4294967295] /\ 0 ∉ [2; 1; 4294967295].
Proof.
  apply (generate_concurrent_unique 4294967295 4 (mkGen 3 0)); [unfold is_u32; vm_compute; intuition discriminate|lia|].
  refine (gen_run_step _ 3 (mkGen 2 1) [1; 4294967295] (Some 2) _ _ (gen_second 2 0)).
  refine (gen_run_step _ 2 (mkGen 1 1) [4294967295] (Some 1) _ _ (gen_first_nonzero 1 1 _)); [|lia].
  refine (gen_run_step _ 1 (mkGen 0 0) [4294967295] None _ _ (gen_first_zero 0)).
  refine (gen_run_step _ 0 (mkGen 4294967295 0) [] (Some 4294967295) _ _ (gen_first_nonzero _ _ _)); [constructor|lia].
Defined.

(** A sequential caller is a run with one thread. *)
Lemma generate_is_run cur0 n s out :
  gen_run cur0 n s out -> gen_retrying s = 0%nat -> is_u32 (gen_cur s) ->
  exists m, gen_run cur0 (n + m) (mkGen (snd (generate (gen_cur s))) 0)
              (fst (generate (gen_cur s)) :: out) /\ (1 <= m <= 2)%nat.
Proof.
  destruct s as [cur r]; simpl. intros Hrun -> Hcur. unfold generate. simpl.
  destruct (Z.eqb_spec cur 0) as [->|Hne].
  - exists 2%nat. split; [|lia]. replace (n + 2)%nat with (S (S n)) by lia.
    refine (gen_run_step _ (S n) _ out (Some _) _ _ (gen_second _ 0)).
    exact (gen_run_step _ n _ out None _ Hrun (gen_first_zero 0)).
  - exists 1%nat. split; [|lia]. replace (n + 1)%nat with (S n) by lia.
    exact (gen_run_step _ n _ out (Some _) _ Hrun (gen_first_nonzero _ _ Hne)).
Qed.

(** A single call of [generate] returns a non-zero u32 and leaves the
    counter in range. *)
Theorem generate_nonzero cur :
  is_u32 cur ->
  is_u32 (fst (generate cur)) /\ fst (generate cur) <> 0 /\ is_u32 (snd (generate cur)).
Proof.
  unfold generate, is_u32, fetch_add, wrapping_add_u32, u32_max. intros H.
  assert (Hm : forall a, 0 <= (a mod (4294967295 + 1)) <= 4294967295).
  { intros a. pose proof (Z.mod_pos_bound a (4294967295 + 1) ltac:(lia)). lia. }
  destruct (Z.eqb_spec cur 0) as [->|Hne]; simpl.
  - repeat split; try done; vm_compute; intuition discriminate.
  - repeat split; auto; try apply Hm; lia.
Qed.

Lemma generate_nonzero_witness :
  is_u32 (fst (generate 0)) /\ fst (generate 0) <> 0 /\ is_u32 (snd (generate 0)).
Proof. apply (generate_nonzero 0). unfold is_u32; vm_compute; intuition discriminate. Defined.
