(* ===== verification/Endpoint.v ===== *)
(** * Endpoints (src/p2p-frame/src/endpoint.rs, EndpointPair of types.rs)

    Socket addresses, endpoint areas and protocols; equality, ordering and
    hashing of endpoints; the classification predicates used by rendezvous and
    by the SN; the binary codec.  [None] as the result of a codec function is
    a Rust panic (slice index out of range). *)

From S2P Require Import Prelude.

(** ** Socket addresses (std::net) *)

Record Ipv4Addr := mkV4 { v4_a : Z; v4_b : Z; v4_c : Z; v4_d : Z }.

(** The eight 16-bit segments. *)
Record Ipv6Addr := mkV6 {
  v6_0 : Z; v6_1 : Z; v6_2 : Z; v6_3 : Z; v6_4 : Z; v6_5 : Z; v6_6 : Z; v6_7 : Z }.

Inductive IpAddr := IpV4 (ip : Ipv4Addr) | IpV6 (ip : Ipv6Addr).

Inductive SocketAddr :=
| V4 (ip : Ipv4Addr) (port : Z)
| V6 (ip : Ipv6Addr) (port flowinfo scope_id : Z).

Definition octets4 (ip : Ipv4Addr) : list Z := [v4_a ip; v4_b ip; v4_c ip; v4_d ip].
Definition segments (ip : Ipv6Addr) : list Z :=
  [v6_0 ip; v6_1 ip; v6_2 ip; v6_3 ip; v6_4 ip; v6_5 ip; v6_6 ip; v6_7 ip].
Definition octets16 (ip : Ipv6Addr) : list Z :=
  s ← segments ip; [s / 256; s mod 256].

Definition ip_of (a : SocketAddr) : IpAddr :=
  match a with V4 ip _ => IpV4 ip | V6 ip _ _ _ => IpV6 ip end.
Definition port_of (a : SocketAddr) : Z :=
  match a with V4 _ p => p | V6 _ p _ _ => p end.
Definition set_port (a : SocketAddr) (p : Z) : SocketAddr :=
  match a with V4 ip _ => V4 ip p | V6 ip _ f s => V6 ip p f s end.
Definition is_ipv4 (a : SocketAddr) : bool := match a with V4 _ _ => true | _ => false end.
Definition is_ipv6 (a : SocketAddr) : bool := match a with V6 _ _ _ _ => true | _ => false end.

#[global] Instance Ipv4Addr_eq_dec : EqDecision Ipv4Addr.
Proof. solve_decision. Defined.
#[global] Instance Ipv6Addr_eq_dec : EqDecision Ipv6Addr.
Proof. solve_decision. Defined.
#[global] Instance IpAddr_eq_dec : EqDecision IpAddr.
Proof. solve_decision. Defined.
#[global] Instance SocketAddr_eq_dec : EqDecision SocketAddr.
Proof. solve_decision. Defined.

(** Address classes of [Ipv4Addr] and [Ipv6Addr]. *)
Definition v4_is_private (ip : Ipv4Addr) : bool :=
  (v4_a ip =? 10)
  || ((v4_a ip =? 172) && (16 <=? v4_b ip) && (v4_b ip <=? 31))
  || ((v4_a ip =? 192) && (v4_b ip =? 168)).
Definition v4_is_loopback (ip : Ipv4Addr) : bool := v4_a ip =? 127.
Definition v4_is_link_local (ip : Ipv4Addr) : bool := (v4_a ip =? 169) && (v4_b ip =? 254).
Definition v4_is_unspecified (ip : Ipv4Addr) : bool := bool_decide (ip = mkV4 0 0 0 0).
Definition v4_is_broadcast (ip : Ipv4Addr) : bool := bool_decide (ip = mkV4 255 255 255 255).
Definition v4_is_multicast (ip : Ipv4Addr) : bool := (224 <=? v4_a ip) && (v4_a ip <=? 239).

Definition v6_is_loopback (ip : Ipv6Addr) : bool := bool_decide (ip = mkV6 0 0 0 0 0 0 0 1).
Definition v6_is_unspecified (ip : Ipv6Addr) : bool := bool_decide (ip = mkV6 0 0 0 0 0 0 0 0).
Definition v6_is_multicast (ip : Ipv6Addr) : bool := Z.land (v6_0 ip) 0xff00 =? 0xff00.
Definition v6_is_unique_local (ip : Ipv6Addr) : bool := Z.land (v6_0 ip) 0xfe00 =? 0xfc00.
Definition v6_is_unicast_link_local (ip : Ipv6Addr) : bool := Z.land (v6_0 ip) 0xffc0 =? 0xfe80.

Definition ip_is_loopback (ip : IpAddr) : bool :=
  match ip with IpV4 ip => v4_is_loopback ip | IpV6 ip => v6_is_loopback ip end.

(** ** Endpoints *)

Inductive Protocol := Ext (n : Z) | Tcp | Quic.
Inductive EndpointArea := Lan | ServerReflexive | Wan | Mapped.

Record Endpoint := mkEndpoint { area : EndpointArea; protocol : Protocol; addr : SocketAddr }.

#[global] Instance Protocol_eq_dec : EqDecision Protocol.
Proof. solve_decision. Defined.
#[global] Instance EndpointArea_eq_dec : EqDecision EndpointArea.
Proof. solve_decision. Defined.
#[global] Instance Endpoint_eq_dec : EqDecision Endpoint.
Proof. solve_decision. Defined.

Definition set_protocol (p : Protocol) (ep : Endpoint) : Endpoint :=
  mkEndpoint (area ep) p (addr ep).
Definition set_area (a : EndpointArea) (ep : Endpoint) : Endpoint :=
  mkEndpoint a (protocol ep) (addr ep).

Definition is_same_ip_version (a b : Endpoint) : bool :=
  Bool.eqb (is_ipv4 (addr a)) (is_ipv4 (addr b)).
Definition is_same_ip_addr (a b : Endpoint) : bool :=
  bool_decide (set_port (addr a) 0 = set_port (addr b) 0).
Definition is_loopback (ep : Endpoint) : bool := ip_is_loopback (ip_of (addr ep)).
Definition is_udp (ep : Endpoint) : bool := negb (bool_decide (protocol ep = Tcp)).
Definition is_tcp (ep : Endpoint) : bool := bool_decide (protocol ep = Tcp).
Definition is_static_wan (ep : Endpoint) : bool :=
  bool_decide (area ep = Wan) || bool_decide (area ep = Mapped).
Definition is_mapped_wan (ep : Endpoint) : bool := bool_decide (area ep = Mapped).

(** The unspecified address of the same IP version. *)
Definition unspecified_like (ep : Endpoint) : SocketAddr :=
  if is_ipv4 (addr ep) then V4 (mkV4 0 0 0 0) 0 else V6 (mkV6 0 0 0 0 0 0 0 0) 0 0 0.
Definition default_tcp (ep : Endpoint) : Endpoint := mkEndpoint Lan Tcp (unspecified_like ep).
Definition default_udp (ep : Endpoint) : Endpoint := mkEndpoint Lan Quic (unspecified_like ep).
Definition default_of (ep : Endpoint) : Endpoint :=
  match protocol ep with
  | Tcp => default_tcp ep
  | Quic => default_udp ep
  | _ => mkEndpoint Lan Quic (unspecified_like ep)
  end.

(** [Endpoint::default] and the two [From] conversions. *)
Definition endpoint_default : Endpoint := mkEndpoint Lan Quic (V4 (mkV4 0 0 0 0) 0).
Definition endpoint_from (p : Protocol) (a : SocketAddr) : Endpoint := mkEndpoint Lan p a.
Definition endpoint_from_ip (p : Protocol) (ip : IpAddr) (port : Z) : Endpoint :=
  mkEndpoint Lan p (match ip with IpV4 ip => V4 ip port | IpV6 ip => V6 ip port 0 0 end).

(** *** Equality, order, hash *)

(** [PartialEq for Endpoint]: the area does not count. *)
Definition ep_eqb (a b : Endpoint) : bool :=
  bool_decide (protocol a = protocol b) && bool_decide (addr a = addr b).

Definition Protocol_cmp (p q : Protocol) : comparison :=
  match p, q with
  | Ext n, Ext m => n ?= m
  | Ext _, _ => Lt
  | Tcp, Ext _ => Gt | Tcp, Tcp => Eq | Tcp, Quic => Lt
  | Quic, Quic => Eq | Quic, _ => Gt
  end.

Definition IpAddr_cmp (a b : IpAddr) : comparison :=
  match a, b with
  | IpV4 a, IpV4 b => list_compare (octets4 a) (octets4 b)
  | IpV6 a, IpV6 b => list_compare (segments a) (segments b)
  | IpV4 _, IpV6 _ => Lt
  | IpV6 _, IpV4 _ => Gt
  end.

(** [PartialOrd]/[Ord for Endpoint]: protocol, then ip, then port.  The
    [None] arm of the source is unreachable ([IpAddr] is totally ordered). *)
Definition ep_cmp (a b : Endpoint) : comparison :=
  match Protocol_cmp (protocol a) (protocol b) with
  | Eq => match IpAddr_cmp (ip_of (addr a)) (ip_of (addr b)) with
          | Gt => Gt
          | Lt => Lt
          | Eq => port_of (addr a) ?= port_of (addr b)
          end
  | c => c
  end.

(** The derived [Hash] feeds every field to the hasher, the area included:
    two endpoints are hashed alike only if these inputs agree. *)
Definition hash_input (ep : Endpoint) : EndpointArea * Protocol * SocketAddr :=
  (area ep, protocol ep, addr ep).

(** *** Classification *)

Definition is_non_lan_ipv4_addr (a : SocketAddr) : bool :=
  match a with
  | V4 ip _ =>
      negb (v4_is_private ip) && negb (v4_is_loopback ip) && negb (v4_is_link_local ip)
      && negb (v4_is_unspecified ip) && negb (v4_is_broadcast ip) && negb (v4_is_multicast ip)
  | V6 _ _ _ _ => false
  end.

Definition is_ipv4_mapped_prefix (ip : Ipv6Addr) : bool :=
  forallb (fun s => s =? 0) (take 5 (segments ip)) && (v6_5 ip =? 0xffff).

Definition is_documentation_range (ip : Ipv6Addr) : bool :=
  ((v6_0 ip =? 0x2001) && (v6_1 ip =? 0x0db8)) || (Z.land (v6_0 ip) 0xfff0 =? 0x3ff0).

Definition is_benchmarking_range (ip : Ipv6Addr) : bool :=
  (v6_0 ip =? 0x2001) && (v6_1 ip =? 0x0002).

Definition classify_reported_ipv6_area (a : SocketAddr) : option EndpointArea :=
  match a with
  | V4 _ _ => None
  | V6 ip _ _ _ =>
      if v6_is_loopback ip || v6_is_unspecified ip || v6_is_multicast ip then None
      else if v6_is_unique_local ip || v6_is_unicast_link_local ip || is_ipv4_mapped_prefix ip
              || is_documentation_range ip || is_benchmarking_range ip
      then Some Lan
      else Some Wan
  end.

(** The cargo feature [test-real-socket-matrix] is an argument. *)
Section feature.
Context (test_real_socket_matrix : bool).

Definition rendezvous_ipv4_eligible (a : SocketAddr) : bool :=
  if is_non_lan_ipv4_addr a then true
  else if test_real_socket_matrix then
    match a with V4 ip _ => v4_is_loopback ip || v4_is_private ip | _ => false end
  else false.

Definition rendezvous_eligible_area (ep : Endpoint) : bool :=
  if negb (rendezvous_ipv4_eligible (addr ep)) then false
  else if bool_decide (area ep = ServerReflexive) then true
  else if test_real_socket_matrix then
    match area ep with Wan | Mapped => true | _ => false end
  else false.

Definition rendezvous_reverse_connect_eligible_area (ep : Endpoint) : bool :=
  rendezvous_ipv4_eligible (addr ep)
  && match area ep with ServerReflexive | Wan | Mapped => true | Lan => false end.
End feature.

(** *** Binary codec *)

(** The codes of [bucky_raw_codec::CodecErrorCode] the crate uses. *)
Inductive CodecErrorCode := CodecOutOfLimit | CodecInvalidInput | CodecInvalidData | CodecFailed.

Definition ENDPOINT_PROTOCOL_TCP : Z := 0.
Definition ENDPOINT_PROTOCOL_QUIC : Z := 1.
Definition ENDPOINT_PROTOCOL_MASK : Z := 0x0f.
Definition ENDPOINT_IP_VERSION_4 : Z := Z.shiftl 0 4.
Definition ENDPOINT_IP_VERSION_6 : Z := Z.shiftl 1 4.
Definition ENDPOINT_IP_VERSION_MASK : Z := 0x10.
Definition ENDPOINT_AREA_LAN : Z := Z.shiftl 0 5.
Definition ENDPOINT_AREA_SERVER_REFLEXIVE : Z := Z.shiftl 1 5.
Definition ENDPOINT_AREA_WAN : Z := Z.shiftl 2 5.
Definition ENDPOINT_AREA_MAPPED : Z := Z.shiftl 3 5.
Definition ENDPOINT_AREA_MASK : Z := 0x60.

Definition raw_max_bytes : nat := 1 + 2 + 16.
Definition raw_min_bytes : nat := 1 + 2 + 4.

Definition flags (ep : Endpoint) : Z :=
  let f := 0 in
  let f := Z.lor f (match protocol ep with
                    | Tcp => ENDPOINT_PROTOCOL_TCP
                    | Ext p => p
                    | Quic => ENDPOINT_PROTOCOL_QUIC
                    end) in
  let f := Z.lor f (match area ep with
                    | Lan => ENDPOINT_AREA_LAN
                    | ServerReflexive => ENDPOINT_AREA_SERVER_REFLEXIVE
                    | Wan => ENDPOINT_AREA_WAN
                    | Mapped => ENDPOINT_AREA_MAPPED
                    end) in
  Z.lor f (match addr ep with
           | V4 _ _ => ENDPOINT_IP_VERSION_4
           | V6 _ _ _ _ => ENDPOINT_IP_VERSION_6
           end).

Definition le_bytes16 (p : Z) : list Z := [p mod 256; p / 256].

(** The buffer after the call and what the call returns (the unused tail). *)
Definition raw_encode_no_flags (ep : Endpoint) (buf : list Z)
    : option (list Z * Result CodecErrorCode (list Z)) :=
  if (length buf <? 2)%nat then None
  else
    let port := le_bytes16 (port_of (addr ep)) in
    let rest := drop 2 buf in
    match addr ep with
    | V4 ip _ =>
        if (length rest <? 4)%nat then Some (port ++ rest, Err CodecOutOfLimit)
        else Some (port ++ octets4 ip ++ drop 4 rest, Ok (drop 4 rest))
    | V6 ip _ _ _ =>
        if (length rest <? 16)%nat then Some (port ++ rest, Err CodecOutOfLimit)
        else Some (port ++ octets16 ip ++ drop 16 rest, Ok (drop 16 rest))
    end.

Definition ipv6_from_octets (s : list Z) : option Ipv6Addr :=
  match s with
  | [a0;a1;b0;b1;c0;c1;d0;d1;e0;e1;f0;f1;g0;g1;h0;h1] =>
      Some (mkV6 (a0*256+a1) (b0*256+b1) (c0*256+c1) (d0*256+d1)
                 (e0*256+e1) (f0*256+f1) (g0*256+g1) (h0*256+h1))
  | _ => None
  end.

Definition decode_protocol (fl : Z) : Result CodecErrorCode Protocol :=
  let n := Z.land fl ENDPOINT_PROTOCOL_MASK in
  if n =? ENDPOINT_PROTOCOL_TCP then Ok Tcp
  else if n =? ENDPOINT_PROTOCOL_QUIC then Ok Quic
  else if (n <? 8) || (16 <=? n) then Err CodecInvalidInput
  else Ok (Ext n).

Definition decode_area (fl : Z) : EndpointArea :=
  let n := Z.land fl ENDPOINT_AREA_MASK in
  if n =? ENDPOINT_AREA_LAN then Lan
  else if n =? ENDPOINT_AREA_SERVER_REFLEXIVE then ServerReflexive
  else if n =? ENDPOINT_AREA_WAN then Wan
  else if n =? ENDPOINT_AREA_MAPPED then Mapped
  else Lan.

Definition raw_decode_no_flags (fl : Z) (buf : list Z)
    : option (Result CodecErrorCode (Endpoint * list Z)) :=
  match decode_protocol fl with
  | Err e => Some (Err e)
  | Ok proto =>
      let ar := decode_area fl in
      match buf with
      | p0 :: p1 :: rest =>
          let port := p0 + 256 * p1 in
          if Z.land fl ENDPOINT_IP_VERSION_MASK =? ENDPOINT_IP_VERSION_6 then
            if (length rest <? 16)%nat then Some (Err CodecOutOfLimit)
            else match ipv6_from_octets (take 16 rest) with
                 | Some ip => Some (Ok (mkEndpoint ar proto (V6 ip port 0 0), drop 16 rest))
                 | None => None
                 end
          else match rest with
               | a :: b :: c :: d :: tail =>
                   Some (Ok (mkEndpoint ar proto (V4 (mkV4 a b c d) port), tail))
               | _ => None
               end
      | _ => None
      end
  end.

Definition raw_measure (ep : Endpoint) : nat :=
  match addr ep with V4 _ _ => 1 + 2 + 4 | V6 _ _ _ _ => 1 + 2 + 16 end.

Definition raw_encode (ep : Endpoint) (buf : list Z)
    : option (list Z * Result CodecErrorCode (list Z)) :=
  if match protocol ep with Ext n => (n <? 8) || (16 <=? n) | _ => false end
  then Some (buf, Err CodecInvalidInput)
  else if (length buf <? raw_min_bytes)%nat then Some (buf, Err CodecOutOfLimit)
  else match raw_encode_no_flags ep (drop 1 buf) with
       | Some (tail, r) => Some (flags ep :: tail, r)
       | None => None
       end.

Definition raw_decode (buf : list Z) : option (Result CodecErrorCode (Endpoint * list Z)) :=
  if (length buf <? raw_min_bytes)%nat then Some (Err CodecOutOfLimit)
  else match buf with
       | fl :: rest => raw_decode_no_flags fl rest
       | [] => None
       end.

(** *** EndpointPair: [From] asserts the IP versions and protocols agree. *)

Definition endpoint_pair (local remote : Endpoint) : option (Endpoint * Endpoint) :=
  if is_same_ip_version local remote && bool_decide (protocol local = protocol remote)
  then Some (local, remote) else None.
Definition pair_is_tcp (p : Endpoint * Endpoint) : bool :=
  is_tcp (fst p) && (port_of (addr (fst p)) =? 0).
Definition pair_is_udp (p : Endpoint * Endpoint) : bool := is_udp (fst p).
Definition pair_is_reverse_tcp (p : Endpoint * Endpoint) : bool :=
  is_tcp (fst p) && negb (port_of (addr (fst p)) =? 0).

(** ** Well-formedness: the ranges of the machine types *)

Definition wf_v4 (ip : Ipv4Addr) : Prop := Forall is_u8 (octets4 ip).
Definition wf_v6 (ip : Ipv6Addr) : Prop := Forall is_u16 (segments ip).
Definition wf_addr (a : SocketAddr) : Prop :=
  match a with
  | V4 ip p => wf_v4 ip /\ is_u16 p
  | V6 ip p f s => wf_v6 ip /\ is_u16 p /\ is_u32 f /\ is_u32 s
  end.
Definition ext_in_range (p : Protocol) : Prop :=
  match p with Ext n => 8 <= n < 16 | _ => True end.
(** The codec carries neither flow information nor scope ids. *)
Definition no_flow_or_scope (a : SocketAddr) : Prop :=
  match a with V6 _ _ f s => f = 0 /\ s = 0 | _ => True end.
Definition encodable (ep : Endpoint) : Prop :=
  wf_addr (addr ep) /\ ext_in_range (protocol ep) /\ no_flow_or_scope (addr ep).

(** ** The flags byte *)

Definition flags_of (p : Protocol) (a : EndpointArea) (v6 : bool) : Z :=
  flags (mkEndpoint a p (if v6 then V6 (mkV6 0 0 0 0 0 0 0 0) 0 0 0 else V4 (mkV4 0 0 0 0) 0)).

Lemma flags_flags_of ep : flags ep = flags_of (protocol ep) (area ep) (is_ipv6 (addr ep)).
Proof. by destruct ep as [a p []]. Qed.

Definition version_bit (fl : Z) : bool :=
  Z.land fl ENDPOINT_IP_VERSION_MASK =? ENDPOINT_IP_VERSION_6.

Lemma decode_flags_of p a v :
  ext_in_range p ->
  decode_protocol (flags_of p a v) = Ok p /\ decode_area (flags_of p a v) = a
  /\ version_bit (flags_of p a v) = v.
Proof.
  intros Hp. destruct p as [n| |]; [|by destruct a, v..]. simpl in Hp.
  assert (n = 8 \/ n = 9 \/ n = 10 \/ n = 11 \/ n = 12 \/ n = 13 \/ n = 14 \/ n = 15)
    as Hn by lia.
  repeat destruct Hn as [->|Hn]; subst; by destruct a, v.
Qed.

(** Decoding any byte and encoding the fields again clears bit 7 only. *)
Definition flags_reencode_ok (fl : Z) : bool :=
  match decode_protocol fl with
  | Ok p => (flags_of p (decode_area fl) (version_bit fl) =? Z.land fl 0x7f)
            && match p with Ext n => (8 <=? n) && (n <? 16) | _ => true end
  | Err _ => true
  end.

Lemma flags_reencode_all : forallb flags_reencode_ok (Z.of_nat <$> seq 0 256) = true.
Proof. by vm_compute. Qed.

Lemma flags_reencode fl p :
  is_u8 fl -> decode_protocol fl = Ok p ->
  flags_of p (decode_area fl) (version_bit fl) = Z.land fl 0x7f /\ ext_in_range p.
Proof.
  intros Hf Hd. pose proof flags_reencode_all as H. rewrite forallb_forall in H.
  specialize (H fl). unfold flags_reencode_ok in H. rewrite Hd in H.
  assert (In fl (Z.of_nat <$> seq 0 256)) as Hin.
  { apply list_elem_of_In, list_elem_of_fmap. exists (Z.to_nat fl). unfold is_u8, u8_max in Hf.
    rewrite elem_of_seq. lia. }
  apply H in Hin. bool_to_prop. split; [done|]. destruct p; simpl; [bool_to_prop; lia|done..].
Qed.

(** ** Byte-level helpers *)

Lemma le_bytes16_combine p : p mod 256 + 256 * (p / 256) = p.
Proof. pose proof (Z.div_mod p 256 ltac:(lia)). lia. Qed.

Lemma be_bytes16_combine p : p / 256 * 256 + p mod 256 = p.
Proof. pose proof (Z.div_mod p 256 ltac:(lia)). lia. Qed.

Lemma ipv6_octets_roundtrip ip : ipv6_from_octets (octets16 ip) = Some ip.
Proof.
  destruct ip as [s0 s1 s2 s3 s4 s5 s6 s7].
  unfold octets16; simpl. by rewrite !be_bytes16_combine.
Qed.

Lemma octets16_length ip : length (octets16 ip) = 16%nat.
Proof. done. Qed.

Lemma byte_pair_split a b : is_u8 b -> (a * 256 + b) / 256 = a /\ (a * 256 + b) mod 256 = b.
Proof.
  unfold is_u8, u8_max. intros H. rewrite Z.add_comm, Z.div_add, Z.mod_add by lia.
  rewrite Z.div_small, Z.mod_small by lia. lia.
Qed.

Lemma length_16 {A} (l : list A) : length l = 16%nat ->
  exists a0 a1 b0 b1 c0 c1 d0 d1 e0 e1 f0 f1 g0 g1 h0 h1,
    l = [a0;a1;b0;b1;c0;c1;d0;d1;e0;e1;f0;f1;g0;g1;h0;h1].
Proof. intros H. do 17 (destruct l as [|? l]; try discriminate H). eauto 20. Qed.

Lemma ipv6_from_octets_spec s :
  length s = 16%nat -> Forall is_u8 s ->
  exists ip, ipv6_from_octets s = Some ip /\ octets16 ip = s /\ wf_v6 ip.
Proof.
  intros Hl Hs.
  destruct (length_16 s Hl) as (a0&a1&b0&b1&c0&c1&d0&d1&e0&e1&f0&f1&g0&g1&h0&h1&->).
  rewrite !Forall_cons in Hs. destruct_and?. eexists. split; [done|].
  unfold octets16, wf_v6; simpl.
  rewrite !(fun a b H => proj1 (byte_pair_split a b H)),
    !(fun a b H => proj2 (byte_pair_split a b H)) by done.
  split; [done|]. unfold is_u8, is_u16, u8_max, u16_max in *.
  unfold segments; simpl. rewrite !Forall_cons, Forall_nil. lia.
Qed.

(** ** Codec theorems *)

(** Totality: no buffer makes the codec index out of range. *)
Lemma raw_decode_no_panic buf : Forall is_u8 buf -> exists r, raw_decode buf = Some r.
Proof.
  intros Hb. unfold raw_decode, raw_min_bytes.
  destruct (Nat.ltb_spec (length buf) (1 + 2 + 4)); [eauto|].
  do 7 (destruct buf as [|? buf]; [simpl in *; lia|]). unfold raw_decode_no_flags.
  destruct (decode_protocol _); [|eauto]. case_match; [|eauto].
  case_match eqn:Hlen; [eauto|]. apply Nat.ltb_ge in Hlen.
  edestruct ipv6_from_octets_spec as (ip & -> & _).
  - rewrite length_take_le; [done|exact Hlen].
  - apply Forall_take. by do 3 apply Forall_inv_tail in Hb.
  - eauto.
Qed.

Lemma raw_encode_no_panic ep buf : exists r, raw_encode ep buf = Some r.
Proof.
  unfold raw_encode, raw_min_bytes. case_match; [eauto|].
  destruct (Nat.ltb_spec (length buf) (1 + 2 + 4)); [eauto|].
  unfold raw_encode_no_flags. rewrite length_drop.
  destruct (Nat.ltb_spec (length buf - 1) 2); [lia|].
  destruct (addr ep); [destruct (_ <? 4)%nat|destruct (_ <? 16)%nat]; eauto.
Qed.

Lemma raw_decode_flags ep tail :
  ext_in_range (protocol ep) -> (raw_min_bytes <= S (length tail))%nat ->
  raw_decode (flags ep :: tail) =
  match tail with
  | p0 :: p1 :: rest =>
      if is_ipv6 (addr ep) then
        if (length rest <? 16)%nat then Some (Err CodecOutOfLimit)
        else match ipv6_from_octets (take 16 rest) with
             | Some ip => Some (Ok (mkEndpoint (area ep) (protocol ep) (V6 ip (p0 + 256 * p1) 0 0), drop 16 rest))
             | None => None
             end
      else match rest with
           | a :: b :: c :: d :: tail =>
               Some (Ok (mkEndpoint (area ep) (protocol ep) (V4 (mkV4 a b c d) (p0 + 256 * p1)), tail))
           | _ => None
           end
  | _ => None
  end.
Proof.
  intros Hp Hl. unfold raw_decode. simpl length.
  destruct (Nat.ltb_spec (S (length tail)) raw_min_bytes); [lia|].
  unfold raw_decode_no_flags. rewrite flags_flags_of.
  destruct (decode_flags_of (protocol ep) (area ep) (is_ipv6 (addr ep)) Hp) as (-> & -> & Hv).
  unfold version_bit in Hv. by rewrite Hv.
Qed.

(** C24: encoding an endpoint (extension protocol in 8..15, no flow or scope)
    into any buffer of at least [raw_measure] bytes succeeds, writes exactly
    [raw_measure] bytes, leaves the rest of the buffer alone and returns it,
    and decoding the buffer gives the endpoint, its area included, and the
    same rest. *)
Theorem endpoint_raw_roundtrip ep buf :
  encodable ep -> (raw_measure ep <= length buf)%nat ->
  exists bytes,
    length bytes = raw_measure ep
    /\ raw_encode ep buf = Some (bytes ++ drop (raw_measure ep) buf, Ok (drop (raw_measure ep) buf))
    /\ raw_decode (bytes ++ drop (raw_measure ep) buf) = Some (Ok (ep, drop (raw_measure ep) buf)).
Proof.
  destruct ep as [ar p ad]. intros (Hwf & Hp & Hfs) Hlen; simpl in *.
  exists (flags (mkEndpoint ar p ad) :: le_bytes16 (port_of ad) ++
            match ad with V4 ip _ => octets4 ip | V6 ip _ _ _ => octets16 ip end).
  assert (Hext : match p with Ext n => (n <? 8) || (16 <=? n) | _ => false end = false).
  { destruct p; simpl in *; lia. }
  unfold raw_encode, raw_encode_no_flags, raw_measure, raw_min_bytes in *; simpl in *.
  rewrite Hext. split; [by destruct ad|]. split.
  - destruct ad; simpl in *;
      (destruct (Nat.ltb_spec (length buf) 7); [lia|]); rewrite ?length_drop;
      (destruct (Nat.ltb_spec (length buf - 1) 2); [lia|]); rewrite !drop_drop;
      [destruct (Nat.ltb_spec (length buf - 1 - 2) 4)|destruct (Nat.ltb_spec (length buf - 1 - 2) 16)];
      try lia; done.
  - destruct ad as [[a b c d] port|ip port f s]; simpl app in *;
      rewrite raw_decode_flags; simpl in *; unfold raw_min_bytes; simpl; try lia; try done.
    + by rewrite le_bytes16_combine.
    + rewrite !be_bytes16_combine, le_bytes16_combine. destruct Hfs as [-> ->]. by destruct ip.
Qed.

Lemma endpoint_raw_roundtrip_witness :
  exists bytes, length bytes = 19%nat
    /\ raw_encode (mkEndpoint ServerReflexive (Ext 9) (V6 (mkV6 0x240e 1 2 3 4 5 6 0xffff) 3456 0 0))
         (replicate 20 7) = Some (bytes ++ [7], Ok [7])
    /\ raw_decode (bytes ++ [7]) =
       Some (Ok (mkEndpoint ServerReflexive (Ext 9) (V6 (mkV6 0x240e 1 2 3 4 5 6 0xffff) 3456 0 0), [7])).
Proof.
  apply (endpoint_raw_roundtrip
    (mkEndpoint ServerReflexive (Ext 9) (V6 (mkV6 0x240e 1 2 3 4 5 6 0xffff) 3456 0 0)) (replicate 20 7)).
  - unfold encodable, wf_addr, wf_v6, is_u16, is_u32, u16_max, u32_max; simpl.
    repeat split; repeat constructor; simpl; lia.
  - vm_compute. lia.
Defined.

Lemma raw_decode_inv buf ep rest :
  raw_decode buf = Some (Ok (ep, rest)) ->
  exists fl p0 p1 body,
    buf = fl :: p0 :: p1 :: body /\ decode_protocol fl = Ok (protocol ep)
    /\ area ep = decode_area fl
    /\ if version_bit fl then
         (16 <= length body)%nat /\ rest = drop 16 body /\
         exists ip, ipv6_from_octets (take 16 body) = Some ip /\ addr ep = V6 ip (p0 + 256 * p1) 0 0
       else exists a b c d, body = a :: b :: c :: d :: rest
              /\ addr ep = V4 (mkV4 a b c d) (p0 + 256 * p1).
Proof.
  unfold raw_decode. intros H. case_match; [done|]. destruct buf as [|fl buf]; [done|].
  unfold raw_decode_no_flags in H. destruct (decode_protocol fl) as [p|] eqn:Hp; [|done].
  destruct buf as [|p0 [|p1 body]]; [done..|].
  exists fl, p0, p1, body. split; [done|]. fold (version_bit fl) in H.
  destruct (version_bit fl).
  - destruct (length body <? 16)%nat eqn:E; [done|]. apply Nat.ltb_ge in E.
    destruct (ipv6_from_octets (take 16 body)) eqn:Hip; simplify_eq/=. eauto 10.
  - destruct body as [|a [|b [|c [|d body]]]]; simplify_eq/=. eauto 10.
Qed.

(** C38: what [raw_decode] accepts is well formed and canonical: the decoded
    endpoint is encodable, it consumes exactly its measured length, and
    encoding it back over the same buffer reproduces the buffer with bit 7 of
    the flags byte cleared. *)
Theorem endpoint_raw_decode_sound fl tail ep rest :
  Forall is_u8 (fl :: tail) -> raw_decode (fl :: tail) = Some (Ok (ep, rest)) ->
  encodable ep /\ (raw_measure ep <= S (length tail))%nat
  /\ rest = drop (raw_measure ep) (fl :: tail)
  /\ raw_encode ep (fl :: tail) = Some (Z.land fl 0x7f :: tail, Ok rest).
Proof.
  intros Hb H. apply raw_decode_inv in H as (fl' & p0 & p1 & body & [= <- ->] & Hp & Ha & Hv).
  destruct ep as [ar p ad]; simpl in *. subst ar.
  rewrite !Forall_cons in Hb. destruct Hb as (Hfl & Hp0 & Hp1 & Hbody).
  destruct (flags_reencode fl p Hfl Hp) as [Hflags Hext].
  assert (Hext' : match p with Ext n => (n <? 8) || (16 <=? n) | _ => false end = false).
  { destruct p; simpl in *; lia. }
  assert (Hport : is_u16 (p0 + 256 * p1) /\ (p0 + 256 * p1) mod 256 = p0 /\ (p0 + 256 * p1) / 256 = p1).
  { unfold is_u8, is_u16, u8_max, u16_max in *. rewrite (Z.add_comm p0), (Z.mul_comm 256).
    destruct (byte_pair_split p1 p0) as [-> ->]; unfold is_u8, u8_max; lia. }
  destruct Hport as (Hport & Hlo & Hhi).
  unfold raw_encode, raw_encode_no_flags, raw_measure, encodable, raw_min_bytes; simpl.
  rewrite Hext', flags_flags_of; simpl. destruct (version_bit fl) eqn:Ev.
  - destruct Hv as (Hlen & -> & ip & Hip & ->).
    destruct (ipv6_from_octets_spec (take 16 body)) as (ip' & Hip' & Hoct & Hwf).
    { by rewrite length_take_le. } { by apply Forall_take. }
    rewrite Hip in Hip'. simplify_eq. simpl. rewrite Hflags, Hlo, Hhi.
    destruct (Nat.ltb_spec (S (S (S (length body)))) 7); [lia|].
    assert (Hsplit : octets16 ip' ++ drop 16 body = body) by (by rewrite Hoct, take_drop).
    unfold octets16 in Hsplit; simpl in Hsplit. rewrite !drop_0, Hsplit.
    destruct (Nat.ltb_spec (length body) 16); [lia|].
    split_and!; try done; unfold is_u32, u32_max; lia.
  - destruct Hv as (a & b & c & d & -> & ->). simpl. rewrite Hflags, Hlo, Hhi.
    rewrite !Forall_cons in Hbody. destruct_and?.
    split_and!; try done; try lia. unfold wf_v4, octets4. simpl.
    auto using Forall_cons_2, Forall_nil_2.
Qed.

Lemma endpoint_raw_decode_sound_witness :
  encodable (mkEndpoint Wan Tcp (V4 (mkV4 8 8 4 4) 443)) /\ (7 <= 7)%nat /\ [] = @nil Z
  /\ raw_encode (mkEndpoint Wan Tcp (V4 (mkV4 8 8 4 4) 443)) [0xc0; 187; 1; 8; 8; 4; 4]
     = Some ([0x40; 187; 1; 8; 8; 4; 4], Ok []).
Proof.
  apply (endpoint_raw_decode_sound 0xc0 [187; 1; 8; 8; 4; 4] (mkEndpoint Wan Tcp (V4 (mkV4 8 8 4 4) 443)) []).
  - repeat constructor; unfold is_u8, u8_max; lia.
  - by vm_compute.
Defined.

(** The codec is total: neither decoding an arbitrary byte buffer nor
    encoding an arbitrary endpoint into an arbitrary buffer panics, and
    encoding rejects extension protocols outside 8..15 and short buffers with
    the codes of the source. *)
Theorem endpoint_codec_total ep buf :
  Forall is_u8 buf ->
  raw_decode buf <> None /\ raw_encode ep buf <> None
  /\ ((length buf < raw_min_bytes)%nat -> raw_decode buf = Some (Err CodecOutOfLimit))
  /\ (~ ext_in_range (protocol ep) -> raw_encode ep buf = Some (buf, Err CodecInvalidInput))
  /\ (ext_in_range (protocol ep) -> (length buf < raw_measure ep)%nat ->
      exists buf', raw_encode ep buf = Some (buf', Err CodecOutOfLimit)).
Proof.
  intros Hb. destruct (raw_decode_no_panic buf Hb) as [r Hr].
  destruct (raw_encode_no_panic ep buf) as [r' Hr']. split; [by rewrite Hr|].
  split; [by rewrite Hr'|]. clear Hr Hr'. unfold raw_decode, raw_encode.
  assert (Hext : forall q, match q with Ext n => (n <? 8) || (16 <=? n) | _ => false end = true
    <-> ~ ext_in_range q) by (intros [n| |]; simpl; [lia|naive_solver..]).
  split_and!.
  - intros Hl. apply Nat.ltb_lt in Hl. by rewrite Hl.
  - intros Hn. by rewrite (proj2 (Hext _) Hn).
  - intros Hp Hl. rewrite (not_true_is_false _ (fun H => proj1 (Hext _) H Hp)).
    destruct (Nat.ltb_spec (length buf) raw_min_bytes) as [|El]; [eauto|].
    unfold raw_encode_no_flags, raw_measure, raw_min_bytes in *. rewrite !length_drop.
    destruct (Nat.ltb_spec (length buf - 1) 2); [lia|].
    destruct (addr ep) eqn:Ea; [lia|].
    destruct (Nat.ltb_spec (length buf - 1 - 2) 16); [eauto|lia].
Qed.

Lemma endpoint_codec_total_witness :
  raw_decode [1; 2] <> None /\ raw_encode (endpoint_from (Ext 7) (V4 (mkV4 1 2 3 4) 5)) [1; 2] <> None
  /\ ((2 < 7)%nat -> raw_decode [1; 2] = Some (Err CodecOutOfLimit))
  /\ (~ 8 <= 7 < 16 -> raw_encode (endpoint_from (Ext 7) (V4 (mkV4 1 2 3 4) 5)) [1; 2] = Some ([1; 2], Err CodecInvalidInput))
  /\ (8 <= 7 < 16 -> (2 < 7)%nat ->
      exists buf', raw_encode (endpoint_from (Ext 7) (V4 (mkV4 1 2 3 4) 5)) [1; 2] = Some (buf', Err CodecOutOfLimit)).
Proof.
  apply (endpoint_codec_total (endpoint_from (Ext 7) (V4 (mkV4 1 2 3 4) 5)) [1; 2]).
  repeat constructor; unfold is_u8, u8_max; lia.
Defined.

(** ** Equality, order and hash *)

(** The order is the lexicographic order of a key. *)
Definition protocol_key (p : Protocol) : list Z :=
  match p with Ext n => [0; n] | Tcp => [1] | Quic => [2] end.
Definition ip_key (ip : IpAddr) : list Z :=
  match ip with IpV4 ip => 0 :: octets4 ip | IpV6 ip => 1 :: segments ip end.
Definition ep_key (ep : Endpoint) : list Z :=
  protocol_key (protocol ep) ++ ip_key (ip_of (addr ep)) ++ [port_of (addr ep)].

Lemma list_compare_cons_eq x l k : list_compare (x :: l) (x :: k) = list_compare l k.
Proof. simpl. by rewrite Z.compare_refl. Qed.

Lemma addr_cmp_key a b :
  match IpAddr_cmp (ip_of a) (ip_of b) with
  | Gt => Gt | Lt => Lt | Eq => port_of a ?= port_of b
  end = list_compare (ip_key (ip_of a) ++ [port_of a]) (ip_key (ip_of b) ++ [port_of b]).
Proof.
  destruct a as [[]|[]], b as [[]|[]]; try done; simpl;
    repeat match goal with |- context [?x ?= ?y] => destruct (x ?= y); simpl; try done end.
Qed.

Lemma ep_cmp_key a b : ep_cmp a b = list_compare (ep_key a) (ep_key b).
Proof.
  unfold ep_cmp, ep_key. destruct (protocol a) as [n| |], (protocol b) as [m| |];
    cbn [Protocol_cmp protocol_key app]; rewrite ?list_compare_cons_eq, <- ?addr_cmp_key; try done.
  cbn [list_compare]. rewrite <-addr_cmp_key. by destruct (n ?= m).
Qed.

Lemma ep_key_inj a b :
  ep_key a = ep_key b <->
  protocol a = protocol b /\ ip_of (addr a) = ip_of (addr b) /\ port_of (addr a) = port_of (addr b).
Proof.
  split; [|by intros (Hp & Hi & Ho); unfold ep_key; rewrite Hp, Hi, Ho].
  destruct a as [? p [[]|[]]], b as [? q [[]|[]]]; destruct p, q; unfold ep_key; simpl;
    intros; simplify_eq/=; done.
Qed.

(** The order of endpoints is a total order on (protocol, ip, port):
    antisymmetric, transitive, [Equal] exactly when the three agree; equal
    endpoints (==) always compare [Equal]. *)
Theorem endpoint_order_total a b c :
  ep_cmp b a = CompOpp (ep_cmp a b)
  /\ (ep_cmp a b = Lt -> ep_cmp b c = Lt -> ep_cmp a c = Lt)
  /\ (ep_cmp a b = Eq <-> protocol a = protocol b /\ ip_of (addr a) = ip_of (addr b)
                          /\ port_of (addr a) = port_of (addr b))
  /\ (ep_eqb a b = true -> ep_cmp a b = Eq).
Proof.
  rewrite !ep_cmp_key. split_and!.
  - apply (cmp_opp list_compare).
  - apply (cmp_lt_trans list_compare).
  - by rewrite (cmp_eq list_compare), ep_key_inj.
  - unfold ep_eqb. intros H. bool_to_prop. rewrite (cmp_eq list_compare), ep_key_inj.
    repeat split; congruence.
Qed.

(** The equality of endpoints breaks the contracts of [Hash] and [Ord]:
    there are endpoints that are == but feed different inputs to the hasher
    (the area is hashed, not compared), and endpoints that compare [Equal]
    without being == (the scope id is compared by ==, not by cmp). *)
Theorem endpoint_eq_contracts_broken :
  (exists a b, encodable a /\ encodable b /\ ep_eqb a b = true /\ hash_input a <> hash_input b)
  /\ (exists a b, wf_addr (addr a) /\ wf_addr (addr b) /\ ep_cmp a b = Eq /\ ep_eqb a b = false).
Proof.
  split.
  - exists (mkEndpoint Wan Quic (V4 (mkV4 8 8 8 8) 53)), (mkEndpoint Mapped Quic (V4 (mkV4 8 8 8 8) 53)).
    split_and!; try (by vm_compute); unfold encodable, wf_addr, wf_v4, is_u8, is_u16; simpl;
      split_and!; try done; repeat constructor; vm_compute; intuition discriminate.
  - exists (mkEndpoint Lan Quic (V6 (mkV6 0xfe80 0 0 0 0 0 0 1) 53 0 1)),
           (mkEndpoint Lan Quic (V6 (mkV6 0xfe80 0 0 0 0 0 0 1) 53 0 2)).
    split_and!; try (by vm_compute); unfold wf_addr, wf_v6, is_u16, is_u32; simpl;
      split_and!; try done; repeat constructor; vm_compute; intuition discriminate.
Qed.

(** ** Classification *)

(** The ranges the comments of the source name. *)
Definition in_3fff_20 (ip : Ipv6Addr) : bool := (v6_0 ip =? 0x3fff) && (v6_1 ip <? 0x1000).
Definition in_2001_db8_32 (ip : Ipv6Addr) : bool := (v6_0 ip =? 0x2001) && (v6_1 ip =? 0xdb8).
Definition in_2001_2_48 (ip : Ipv6Addr) : bool :=
  (v6_0 ip =? 0x2001) && (v6_1 ip =? 2) && (v6_2 ip =? 0).

(** The documentation and benchmarking predicates are wider than the
    ranges their comments cite: every address of 3ff0::/12 counts as
    documentation although 3fff::/20 is meant, and 2001:2::/32 counts as
    benchmarking although 2001:2::/48 is meant; so global unicast addresses
    outside the cited ranges are classified [Lan]. *)
Theorem ipv6_ranges_too_wide :
  (forall ip, in_2001_db8_32 ip || in_3fff_20 ip = true -> is_documentation_range ip = true)
  /\ (forall ip, in_2001_2_48 ip = true -> is_benchmarking_range ip = true)
  /\ (exists ip p, wf_v6 ip /\ in_2001_db8_32 ip || in_3fff_20 ip = false
        /\ classify_reported_ipv6_area (V6 ip p 0 0) = Some Lan
        /\ is_documentation_range ip = true)
  /\ (exists ip p, wf_v6 ip /\ in_2001_2_48 ip = false
        /\ classify_reported_ipv6_area (V6 ip p 0 0) = Some Lan
        /\ is_benchmarking_range ip = true).
Proof.
  split_and!.
  - intros ip. unfold is_documentation_range, in_2001_db8_32, in_3fff_20.
    destruct (_ && (v6_1 ip =? 0xdb8)); simpl; [done|]. intros H. bool_to_prop.
    match goal with H : v6_0 ip = _ |- _ => by rewrite H end.
  - intros ip. unfold in_2001_2_48, is_benchmarking_range. intros H. bool_to_prop. lia.
  - exists (mkV6 0x3ff0 0x1234 0 0 0 0 0 1), 3622.
    split_and!; try (by vm_compute). repeat constructor; vm_compute; intuition discriminate.
  - exists (mkV6 0x2001 2 5 0 0 0 0 1), 3622.
    split_and!; try (by vm_compute). repeat constructor; vm_compute; intuition discriminate.
Qed.

(** Rendezvous eligibility in default builds. *)
Lemma rendezvous_eligible_production ep :
  rendezvous_eligible_area false ep = true <->
  area ep = ServerReflexive /\ is_non_lan_ipv4_addr (addr ep) = true.
Proof.
  unfold rendezvous_eligible_area, rendezvous_ipv4_eligible.
  destruct (is_non_lan_ipv4_addr (addr ep)); simpl; [|naive_solver].
  case_bool_decide; naive_solver.
Qed.

Lemma rendezvous_eligible_reverse test ep :
  rendezvous_eligible_area test ep = true ->
  rendezvous_reverse_connect_eligible_area test ep = true.
Proof.
  unfold rendezvous_eligible_area, rendezvous_reverse_connect_eligible_area.
  destruct (rendezvous_ipv4_eligible test (addr ep)); simpl; [|done].
  destruct (area ep); simpl; try done. by destruct test.
Qed.

Lemma rendezvous_reverse_ipv4 test ep :
  rendezvous_reverse_connect_eligible_area test ep = true -> is_ipv4 (addr ep) = true.
Proof.
  unfold rendezvous_reverse_connect_eligible_area, rendezvous_ipv4_eligible.
  destruct (addr ep); [done|]. simpl. by destruct test.
Qed.

(** Default builds never let a LAN address into rendezvous: an endpoint
    eligible for punching or for reverse connect is a non-LAN IPv4 endpoint
    that is neither private, loopback, link-local, unspecified, broadcast nor
    multicast, and whose area is not [Lan]; punch eligibility implies reverse
    connect eligibility. *)
Theorem rendezvous_production_non_lan ep :
  (rendezvous_eligible_area false ep = true ->
     rendezvous_reverse_connect_eligible_area false ep = true)
  /\ (rendezvous_reverse_connect_eligible_area false ep = true ->
      area ep <> Lan /\ exists ip p, addr ep = V4 ip p
        /\ v4_is_private ip = false /\ v4_is_loopback ip = false /\ v4_is_link_local ip = false
        /\ v4_is_unspecified ip = false /\ v4_is_broadcast ip = false /\ v4_is_multicast ip = false).
Proof.
  split; [apply rendezvous_eligible_reverse|]. intros H.
  pose proof (rendezvous_reverse_ipv4 false ep H) as H4.
  unfold rendezvous_reverse_connect_eligible_area, rendezvous_ipv4_eligible in H.
  destruct (addr ep) as [ip p|]; [|done]. apply andb_true_iff in H as [Hip Ha].
  destruct (is_non_lan_ipv4_addr (V4 ip p)) eqn:E; [|done]. unfold is_non_lan_ipv4_addr in E.
  bool_to_prop. split; [by destruct (area ep)|]. exists ip, p. by split_and!.
Qed.
