(* ===== verification/NatType.v ===== *)
(** * NAT profiles (src/p2p-frame/src/nat_type.rs)

    Mapping observations, the bounded port-prediction hint, profiles with
    their freshness window and the caller/callee context. *)

From S2P Require Import Prelude Ids Endpoint.

Definition NAT_PROFILE_VERSION : Z := 1.
Definition NAT_TRAVERSAL_CONTEXT_VERSION : Z := 1.
Definition MAX_NAT_PREDICTION_PORTS : Z := 8.

Inductive NatMappingObservation := ObsUnknown | NonSymmetricLike | SymmetricLike.
Inductive NatPortParityRelation := Same | Alternating.

#[global] Instance NatMappingObservation_eq_dec : EqDecision NatMappingObservation.
Proof. solve_decision. Defined.
#[global] Instance NatPortParityRelation_eq_dec : EqDecision NatPortParityRelation.
Proof. solve_decision. Defined.

Definition duration_to_bucky_time (d : Duration) : Timestamp := Z.min (as_micros d) u64_max.

Notation port ep := (port_of (addr ep)).
Notation ip ep := (ip_of (addr ep)).

(** ** NatPredictionHint *)

Record NatPredictionHint := mkHint {
  first_observed : Endpoint;
  last_observed : Endpoint;
  sample_count : Z;
  port_delta : Z;
  parity : NatPortParityRelation;
}.

#[global] Instance NatPredictionHint_eq_dec : EqDecision NatPredictionHint.
Proof. solve_decision. Defined.

(** [slice.windows(2).any(|pair| f pair[0] pair[1])]. *)
Fixpoint windows2_any {A} (f : A -> A -> bool) (l : list A) : bool :=
  match l with
  | x :: (y :: _) as k => f x y || windows2_any f k
  | _ => false
  end.

Definition hint_from_observations (observations : list Endpoint) : option NatPredictionHint :=
  match observations with
  | first :: second :: _ =>
      if existsb (fun ep => negb (is_ipv4 (addr ep))) observations then None
      else if existsb (fun ep => negb (bool_decide (ip ep = ip first))) observations then None
      else
        let delta := port second - port first in
        if (delta =? 0)
           || windows2_any (fun a b => negb (port b - port a =? delta)) observations
        then None
        else Some {|
          first_observed := first;
          last_observed := default first (last observations);
          sample_count := Z.min (Z.of_nat (length observations)) u16_max;
          port_delta := delta;
          parity := if port first mod 2 =? port second mod 2 then Same else Alternating;
        |}
  | _ => None
  end.

Definition is_usable_with (h : NatPredictionHint) (base : Endpoint) : bool :=
  if (sample_count h <? 2) || (port_delta h =? 0)
     || negb (is_ipv4 (addr (first_observed h))) || negb (is_ipv4 (addr (last_observed h)))
     || negb (is_ipv4 (addr base))
     || negb (bool_decide (ip (first_observed h) = ip (last_observed h)))
     || negb (bool_decide (ip base = ip (last_observed h)))
  then false
  else match checked_i32 (port_delta h * (sample_count h - 1)) with
       | None => false
       | Some expected_total_delta =>
           if negb (port (last_observed h) - port (first_observed h) =? expected_total_delta)
           then false
           else bool_decide (parity h = if Z.abs (port_delta h) mod 2 =? 0 then Same else Alternating)
       end.

(** The loop [for step in 1..=limit]: [steps] iterations remain. *)
Fixpoint predict_loop (base delta : Z) (steps : nat) (step : Z) (ports : list Z) : list Z :=
  match steps with
  | O => ports
  | S k =>
      match checked_i64 (delta * step) with
      | None => ports
      | Some offset =>
          match checked_i64 (base + offset) with
          | None => ports
          | Some candidate =>
              if negb ((1 <=? candidate) && (candidate <=? u16_max)) then ports
              else predict_loop base delta k (step + 1)
                     (if negb (candidate =? base) && negb (bool_decide (candidate ∈ ports))
                      then ports ++ [candidate] else ports)
          end
      end
  end.

Definition predicted_ports (h : NatPredictionHint) (base : Endpoint) (limit : Z) : list Z :=
  if negb (is_usable_with h base) then []
  else predict_loop (port base) (port_delta h)
         (Z.to_nat (Z.min limit MAX_NAT_PREDICTION_PORTS)) 1 [].

(** ** NatProfile *)

Record NatProfile := mkProfile {
  version : Z;
  observation : NatMappingObservation;
  observed_at : Timestamp;
  valid_until : Timestamp;
  prediction_hint : option NatPredictionHint;
}.

#[global] Instance NatProfile_eq_dec : EqDecision NatProfile.
Proof. solve_decision. Defined.

Definition profile_unknown : NatProfile :=
  mkProfile NAT_PROFILE_VERSION ObsUnknown 0 0 None.

Definition profile_from_observations (observations : list Endpoint) (at_ : Timestamp)
    (ttl : Duration) : NatProfile :=
  match observations with
  | first :: _ =>
      if (Z.of_nat (length observations) <? 2) || (u16_max <? Z.of_nat (length observations))
         || is_zero ttl
      then profile_unknown
      else
        let until := saturating_add at_ (duration_to_bucky_time ttl) in
        if forallb (fun ep => bool_decide (addr ep = addr first)) observations
        then mkProfile NAT_PROFILE_VERSION NonSymmetricLike at_ until None
        else mkProfile NAT_PROFILE_VERSION SymmetricLike at_ until (hint_from_observations observations)
  | [] => profile_unknown
  end.

Definition is_supported (p : NatProfile) : bool := version p =? NAT_PROFILE_VERSION.

Definition is_fresh (p : NatProfile) (now : Timestamp) : bool :=
  is_supported p && negb (bool_decide (observation p = ObsUnknown))
  && (observed_at p <=? valid_until p) && (observed_at p <=? now) && (now <=? valid_until p).

Definition mapping_at (p : NatProfile) (now : Timestamp) : NatMappingObservation :=
  if is_fresh p now then observation p else ObsUnknown.

Definition usable_prediction_hint (p : NatProfile) (now : Timestamp) : option NatPredictionHint :=
  if negb (bool_decide (mapping_at p now = SymmetricLike)) then None
  else match prediction_hint p with
       | Some h => if is_usable_with h (last_observed h) then Some h else None
       | None => None
       end.

(** ** NatTraversalContext *)

Record NatTraversalContext := mkContext {
  ctx_version : Z;
  caller_peer_id : P2pId;
  callee_peer_id : P2pId;
  caller_profile : NatProfile;
  callee_profile : NatProfile;
}.

Definition context_new (caller callee : P2pId) (cp kp : NatProfile) : NatTraversalContext :=
  mkContext NAT_TRAVERSAL_CONTEXT_VERSION caller callee cp kp.

Definition context_is_supported (c : NatTraversalContext) : bool :=
  ctx_version c =? NAT_TRAVERSAL_CONTEXT_VERSION.

Definition is_valid_for (c : NatTraversalContext) (caller callee : P2pId) (now : Timestamp) : bool :=
  context_is_supported c && bool_decide (caller_peer_id c = caller)
  && bool_decide (callee_peer_id c = callee)
  && negb (bool_decide (caller_peer_id c = callee_peer_id c))
  && is_fresh (caller_profile c) now && is_fresh (callee_profile c) now.

(** ** Arithmetic progressions in observations *)

Lemma windows2_any_false_progression (d : Z) eps first :
  windows2_any (fun a b => negb (port b - port a =? d)) (first :: eps) = false ->
  port (default first (last (first :: eps))) = port first + d * Z.of_nat (length eps).
Proof.
  revert first. induction eps as [|e eps IH]; intros first H; simpl in *; [lia|].
  apply orb_false_iff in H as [H1 H2]. bool_to_prop.
  specialize (IH e H2). destruct (last (e :: eps)) as [l|] eqn:E; [|by apply last_None in E].
  simpl in IH. destruct eps; simpl in *; simplify_eq; lia.
Qed.

Lemma parity_of_delta a b :
  (if a mod 2 =? b mod 2 then Same else Alternating)
  = (if Z.abs (b - a) mod 2 =? 0 then Same else Alternating).
Proof.
  assert (H : (a mod 2 =? b mod 2) = (Z.abs (b - a) mod 2 =? 0)); [|by rewrite H].
  destruct (Z.eqb_spec (a mod 2) (b mod 2)), (Z.eqb_spec (Z.abs (b - a) mod 2) 0); try done;
    Z.to_euclidean_division_equations; lia.
Qed.

Lemma existsb_false {A} (f : A -> bool) l : existsb f l = false -> forall x, x ∈ l -> f x = false.
Proof.
  intros H x Hx. destruct (f x) eqn:E; [|done].
  rewrite <-H. symmetry. apply existsb_exists. exists x. by rewrite <-list_elem_of_In.
Qed.

Lemma last_elem_of {A} (x : A) l : default x (last (x :: l)) ∈ x :: l.
Proof.
  destruct (last (x :: l)) as [y|] eqn:E; simpl; [|set_solver].
  apply last_Some_elem_of in E. done.
Qed.

Lemma hint_from_observations_ipv4 eps h :
  hint_from_observations eps = Some h -> is_ipv4 (addr (last_observed h)) = true.
Proof.
  intros E. destruct eps as [|first [|second eps]]; [done..|]. cbn [hint_from_observations] in E.
  case_match eqn:Hv; [done|]. do 2 (case_match; [done|]). simplify_eq.
  pose proof (existsb_false _ _ Hv _ (last_elem_of first (second :: eps))) as Hl.
  by apply negb_false_iff in Hl.
Qed.

(** A hint built from at most 65535 observations is usable from every base on
    the observed address. *)
Lemma hint_from_observations_usable eps h base :
  Z.of_nat (length eps) <= u16_max -> Forall (fun ep => is_u16 (port ep)) eps ->
  hint_from_observations eps = Some h ->
  is_ipv4 (addr base) = true -> ip base = ip (last_observed h) ->
  is_usable_with h base = true.
Proof.
  intros Hlen Hports H Hb4 Hbip. destruct eps as [|first [|second eps]]; [done..|].
  cbn [hint_from_observations] in H.
  case_match eqn:Hv4; [done|]. case_match eqn:Hip; [done|].
  case_match eqn:Hd; [done|]. apply orb_false_iff in Hd as [Hd0 Hd]. simplify_eq.
  pose proof (last_elem_of first (second :: eps)) as Hlast.
  pose proof (existsb_false _ _ Hv4) as Hall4. pose proof (existsb_false _ _ Hip) as Hallip.
  pose proof (windows2_any_false_progression _ _ _ Hd) as Hprog.
  set (l := default first (last (first :: second :: eps))) in *.
  assert (Hfirst : first ∈ first :: second :: eps) by set_solver.
  pose proof (Hallip _ Hlast) as Hipl. pose proof (Hall4 _ Hlast) as H4l.
  pose proof (Hall4 _ Hfirst) as H4f. unfold is_usable_with.
  cbn [sample_count port_delta first_observed last_observed parity] in *.
  rewrite Forall_forall in Hports. pose proof (Hports _ Hlast). pose proof (Hports _ Hfirst).
  unfold is_u16 in *. bool_to_prop. cbn [length] in *. unfold u16_max in *.
  rewrite Z.min_l by lia. rewrite H4l, H4f, Hb4, Hbip.
  rewrite !bool_decide_true by done. rewrite (proj2 (Z.ltb_ge _ _)) by lia.
  rewrite (proj2 (Z.eqb_neq _ _) Hd0). simpl orb.
  replace (Z.of_nat (S (S (length eps))) - 1) with (Z.of_nat (S (length eps))) by lia.
  rewrite checked_i32_in by (unfold i32_min, i32_max; lia).
  rewrite (proj2 (Z.eqb_eq _ _)) by lia. simpl negb. cbv iota.
  apply bool_decide_true, parity_of_delta.
Qed.

(** ** Port prediction *)

(** The ports [base + delta], [base + 2 delta], ..., [base + n delta]. *)
Definition progression (base delta : Z) (n : nat) : list Z :=
  (fun i => base + delta * Z.of_nat i) <$> seq 1 n.

Lemma progression_snoc base delta n :
  progression base delta (S n) = progression base delta n ++ [base + delta * (Z.of_nat n + 1)].
Proof.
  unfold progression. rewrite seq_S, fmap_app. simpl. do 4 f_equal. lia.
Qed.

Lemma elem_of_progression base delta n v :
  v ∈ progression base delta n <-> exists i, (1 <= i <= n)%nat /\ v = base + delta * Z.of_nat i.
Proof.
  unfold progression. rewrite list_elem_of_fmap. setoid_rewrite elem_of_seq.
  split; intros (i & ? & ?); exists i; split; auto; lia.
Qed.

Lemma progression_NoDup base delta n : delta <> 0 -> NoDup (progression base delta n).
Proof.
  intros Hd. apply NoDup_fmap_2_strong; [|apply NoDup_seq]. intros i j _ _ H.
  assert (delta * Z.of_nat i = delta * Z.of_nat j) as He by lia.
  apply Z.mul_reg_l in He; lia.
Qed.

Definition port_ok (v : Z) : Prop := 1 <= v <= u16_max.

(** The loop extends a progression until the window leaves the port range. *)
Lemma predict_loop_spec base delta steps n :
  is_u16 base -> delta <> 0 -> i32_min <= delta <= i32_max ->
  Z.of_nat n + Z.of_nat steps <= MAX_NAT_PREDICTION_PORTS ->
  exists k, (n <= k <= n + steps)%nat
    /\ predict_loop base delta steps (Z.of_nat n + 1) (progression base delta n) = progression base delta k
    /\ (forall i, (n < i <= k)%nat -> port_ok (base + delta * Z.of_nat i))
    /\ ((k < n + steps)%nat -> ~ port_ok (base + delta * Z.of_nat (S k))).
Proof.
  intros Hb Hd Hi. revert n. unfold is_u16, u16_max, i32_min, i32_max, MAX_NAT_PREDICTION_PORTS in *.
  induction steps as [|steps IH]; intros n Hn; cbn [predict_loop].
  { exists n. split; [lia|]. split; [done|]. split; intros; lia. }
  rewrite !checked_i64_in by (unfold i64_min, i64_max; nia).
  destruct (Z.leb_spec 1 (base + delta * (Z.of_nat n + 1))) as [H1|H1]; simpl.
  2: { exists n. split; [lia|]. split; [done|]. unfold port_ok. split; intros; [lia|].
       replace (Z.of_nat (S n)) with (Z.of_nat n + 1) by lia. lia. }
  destruct (Z.leb_spec (base + delta * (Z.of_nat n + 1)) u16_max) as [H2|H2]; simpl.
  2: { exists n. split; [lia|]. split; [done|]. unfold port_ok. split; intros; [lia|].
       replace (Z.of_nat (S n)) with (Z.of_nat n + 1) by lia. lia. }
  rewrite (proj2 (Z.eqb_neq _ base)) by nia.
  rewrite bool_decide_false; simpl.
  2: { rewrite elem_of_progression. intros (i & Hin & He).
       assert (delta * (Z.of_nat n + 1) = delta * Z.of_nat i) as Hm by lia.
       apply Z.mul_reg_l in Hm; lia. }
  rewrite <-progression_snoc. replace (Z.of_nat n + 1 + 1) with (Z.of_nat (S n) + 1) by lia.
  destruct (IH (S n)) as (k & Hk & -> & Hok & Hstop); [lia|].
  exists k. split; [lia|]. split; [done|]. split; [|intros; apply Hstop; lia].
  intros i Hik. destruct (decide (i = S n)) as [->|]; [|apply Hok; lia].
  unfold port_ok. replace (Z.of_nat (S n)) with (Z.of_nat n + 1) by lia. lia.
Qed.

Lemma is_usable_with_delta h base : is_usable_with h base = true -> port_delta h <> 0.
Proof. unfold is_usable_with. case_match eqn:E; [done|]. bool_to_prop. lia. Qed.

(** For a usable hint [predicted_ports] is the arithmetic progression
    from the base port, cut at [min(limit, 8)] steps or where it first leaves
    1..65535; so at most 8 pairwise distinct valid ports come out, the base
    port never among them. *)
Theorem predicted_ports_spec h base limit :
  is_usable_with h base = true -> i32_min <= port_delta h <= i32_max -> is_u16 (port base) ->
  0 <= limit ->
  exists k : nat,
    predicted_ports h base limit = progression (port base) (port_delta h) k
    /\ Z.of_nat k <= Z.min limit MAX_NAT_PREDICTION_PORTS
    /\ (Z.of_nat k < Z.min limit MAX_NAT_PREDICTION_PORTS ->
        ~ port_ok (port base + port_delta h * Z.of_nat (S k)))
    /\ Forall port_ok (predicted_ports h base limit)
    /\ NoDup (predicted_ports h base limit)
    /\ port base ∉ predicted_ports h base limit.
Proof.
  intros Hu Hi Hb Hl. pose proof (is_usable_with_delta h base Hu) as Hd.
  unfold predicted_ports. rewrite Hu. simpl negb. cbv iota.
  destruct (predict_loop_spec (port base) (port_delta h)
    (Z.to_nat (Z.min limit MAX_NAT_PREDICTION_PORTS)) 0 Hb Hd Hi) as (k & Hk & Heq & Hok & Hstop).
  { unfold MAX_NAT_PREDICTION_PORTS. lia. }
  change (progression _ _ 0) with (@nil Z) in Heq. change (Z.of_nat 0 + 1) with 1 in Heq. rewrite Heq.
  exists k. unfold MAX_NAT_PREDICTION_PORTS in *. split; [done|]. split; [lia|].
  split; [intros; apply Hstop; lia|]. split_and!.
  - apply Forall_forall. intros v (i & ? & ->)%elem_of_progression. apply Hok. lia.
  - by apply progression_NoDup.
  - intros (i & ? & He)%elem_of_progression. nia.
Qed.

Lemma predicted_ports_spec_witness :
  let base := endpoint_from Quic (V4 (mkV4 203 0 113 7) 65000) in
  let h := mkHint (endpoint_from Quic (V4 (mkV4 203 0 113 7) 64600)) base 3 200 Same in
  predicted_ports h base 5 = [65200; 65400] /\
  exists k : nat, predicted_ports h base 5 = progression 65000 200 k
    /\ Z.of_nat k <= 5 /\ (Z.of_nat k < 5 -> ~ port_ok (65000 + 200 * Z.of_nat (S k)))
    /\ Forall port_ok (predicted_ports h base 5) /\ NoDup (predicted_ports h base 5)
    /\ 65000 ∉ predicted_ports h base 5.
Proof.
  split; [by vm_compute|].
  apply (predicted_ports_spec
    (mkHint (endpoint_from Quic (V4 (mkV4 203 0 113 7) 64600))
            (endpoint_from Quic (V4 (mkV4 203 0 113 7) 65000)) 3 200 Same)
    (endpoint_from Quic (V4 (mkV4 203 0 113 7) 65000)) 5);
    [by vm_compute|vm_compute; intuition discriminate..].
Defined.

(** ** Profiles *)

Lemma is_fresh_iff p now :
  is_fresh p now = true <->
  version p = NAT_PROFILE_VERSION /\ observation p <> ObsUnknown
  /\ observed_at p <= now <= valid_until p.
Proof.
  unfold is_fresh, is_supported. rewrite !andb_true_iff, negb_true_iff, bool_decide_eq_false,
    Z.eqb_eq, !Z.leb_le. intuition lia.
Qed.

(** Classification of the observations: for 2..65535 observed endpoints
    and a non-zero lifetime, the profile reports, at every moment of its
    validity window, [NonSymmetricLike] when all observed addresses agree and
    [SymmetricLike] otherwise; the prediction hint it then offers is exactly
    the hint computed from the observations (never silently dropped), and none
    in the first case. *)
Theorem profile_from_observations_spec obs at_ ttl now :
  2 <= Z.of_nat (length obs) <= u16_max -> Forall (fun ep => is_u16 (port ep)) obs ->
  is_u64 at_ -> 0 < ttl ->
  at_ <= now <= saturating_add at_ (duration_to_bucky_time ttl) ->
  let p := profile_from_observations obs at_ ttl in
  let all_same := forallb (fun ep => bool_decide (Some (addr ep) = addr <$> head obs)) obs in
  mapping_at p now = (if all_same then NonSymmetricLike else SymmetricLike)
  /\ usable_prediction_hint p now = (if all_same then None else hint_from_observations obs).
Proof.
  intros Hlen Hports Hat Httl Hnow. destruct obs as [|first obs]; [simpl in *; lia|].
  cbn [profile_from_observations head fmap option_fmap option_map]. unfold is_zero.
  rewrite (proj2 (Z.ltb_ge (Z.of_nat (length (first :: obs))) 2)) by lia.
  rewrite (proj2 (Z.ltb_ge u16_max _)) by lia. rewrite (proj2 (Z.eqb_neq ttl 0)) by lia.
  simpl orb. cbv iota.
  assert (Hforall : forall l, forallb (fun ep => bool_decide (addr ep = addr first)) l
    = forallb (fun ep => bool_decide (Some (addr ep) = Some (addr first))) l).
  { induction l as [|e l IH]; simpl; [done|]. rewrite IH.
    by rewrite (bool_decide_ext (addr e = addr first) (Some (addr e) = Some (addr first)))
      by (split; congruence). }
  rewrite Hforall. destruct (forallb _ _).
  - unfold usable_prediction_hint, mapping_at. rewrite (proj2 (is_fresh_iff _ _)); [done|].
    split_and!; simpl; try done; lia.
  - assert (Hm : forall h, mapping_at (mkProfile NAT_PROFILE_VERSION SymmetricLike at_
        (saturating_add at_ (duration_to_bucky_time ttl)) h) now = SymmetricLike).
    { intros h. unfold mapping_at. rewrite (proj2 (is_fresh_iff _ _)); [done|].
      split_and!; simpl; try done; lia. }
    split; [apply Hm|]. unfold usable_prediction_hint. rewrite Hm.
    rewrite bool_decide_true by done. cbn [negb prediction_hint].
    destruct (hint_from_observations (first :: obs)) as [h|] eqn:E; [|done].
    rewrite (hint_from_observations_usable (first :: obs) h); [done|lia|done|done| |done].
    by apply (hint_from_observations_ipv4 (first :: obs)).
Qed.

Lemma profile_from_observations_spec_witness :
  let obs := (fun p => endpoint_from Quic (V4 (mkV4 203 0 113 7) p)) <$> [4000; 4002; 4004] in
  let p := profile_from_observations obs 1000 (from_secs 60) in
  mapping_at p 5000 = SymmetricLike
  /\ usable_prediction_hint p 5000 = hint_from_observations obs.
Proof.
  refine ((fun H => _) (profile_from_observations_spec
    ((fun p => endpoint_from Quic (V4 (mkV4 203 0 113 7) p)) <$> [4000; 4002; 4004])
    1000 (from_secs 60) 5000 _ _ _ _ _));
    [|vm_compute; intuition discriminate|repeat constructor; vm_compute; intuition discriminate
     |vm_compute; intuition discriminate..].
  vm_compute in H. vm_compute. exact H.
Defined.

(** Profiles fail closed: a non-[Unknown] mapping or a usable hint is
    only ever reported by a profile of the supported version whose validity
    window contains the current time, and a hint only by a [SymmetricLike]
    profile; a context valid for a pair of peers names exactly these two
    different peers, with both profiles fresh. *)
Theorem profile_fail_closed p now c caller callee :
  (mapping_at p now <> ObsUnknown ->
     version p = NAT_PROFILE_VERSION /\ observed_at p <= now <= valid_until p
     /\ mapping_at p now = observation p)
  /\ (forall h, usable_prediction_hint p now = Some h ->
        mapping_at p now = SymmetricLike /\ prediction_hint p = Some h
        /\ is_usable_with h (last_observed h) = true)
  /\ (is_valid_for c caller callee now = true ->
        caller_peer_id c = caller /\ callee_peer_id c = callee /\ caller <> callee
        /\ mapping_at (caller_profile c) now <> ObsUnknown
        /\ mapping_at (callee_profile c) now <> ObsUnknown).
Proof.
  split_and!.
  - unfold mapping_at. destruct (is_fresh p now) eqn:E; [|done]. apply is_fresh_iff in E. tauto.
  - intros h. unfold usable_prediction_hint. case_bool_decide; simpl; [|done].
    destruct (prediction_hint p) as [h'|]; [|done].
    destruct (is_usable_with h' (last_observed h')) eqn:E; naive_solver.
  - unfold is_valid_for. intros H. bool_to_prop. subst. unfold mapping_at.
    rewrite H1, H0. apply is_fresh_iff in H0, H1. naive_solver.
Qed.
