(* ===== verification/SnProtocol.v ===== *)
(** * SN rendezvous and NAT-probe messages (src/p2p-frame/src/sn/protocol/sn.rs)

    The rendezvous request, notification and response with their validation,
    and the NAT-probe directive/result pair. *)

From S2P Require Import Prelude Errors Ids Endpoint NatType.

Definition NAT_PROBE_CONTROL_VERSION : Z := 1.
Definition MAX_NAT_PROBE_ENDPOINTS : nat := 8.
Definition SN_TUNNEL_RENDEZVOUS_RESULT_OK : Z := P2pErrorCode.as_u8 P2pErrorCode.Ok.
Definition SN_TUNNEL_RENDEZVOUS_RESULT_FAILED : Z := P2pErrorCode.as_u8 P2pErrorCode.Failed.
Definition MAX_SN_TUNNEL_RENDEZVOUS_ENDPOINTS : nat := 8.

Inductive SnTunnelRendezvousOperation :=
| PunchOnly | PunchAndReverseConnect | ReverseConnectOnly | WaitIncoming.

#[global] Instance SnTunnelRendezvousOperation_eq_dec : EqDecision SnTunnelRendezvousOperation.
Proof. solve_decision. Defined.

Definition requires_endpoints (op : SnTunnelRendezvousOperation) : bool :=
  match op with WaitIncoming => false | _ => true end.
Definition punches (op : SnTunnelRendezvousOperation) : bool :=
  match op with PunchOnly | PunchAndReverseConnect => true | _ => false end.
Definition reverse_connects (op : SnTunnelRendezvousOperation) : bool :=
  match op with PunchAndReverseConnect | ReverseConnectOnly => true | _ => false end.

Record SnTunnelRendezvous := mkRendezvous {
  rq_seq : Sequence;
  rq_tunnel_id : TunnelId;
  rq_to_peer_id : P2pId;
  rq_operation : SnTunnelRendezvousOperation;
  rq_end_point_array : list Endpoint;
  rq_need_predict_endpoint : bool;
}.

Record SnTunnelRendezvousNotify := mkNotify {
  nt_seq : Sequence;
  nt_tunnel_id : TunnelId;
  nt_peer_info : list Z;
  nt_operation : SnTunnelRendezvousOperation;
  nt_end_point_array : list Endpoint;
  nt_need_predict_endpoint : bool;
}.

Record SnTunnelRendezvousResp := mkResp {
  rs_seq : Sequence;
  rs_result : Z;
  rs_predicted_endpoint_array : list Endpoint;
}.

(** The derived [PartialEq] of the messages compares endpoint vectors with the
    equality of [Endpoint], which ignores areas. *)
Fixpoint ep_list_eqb (l k : list Endpoint) : bool :=
  match l, k with
  | [], [] => true
  | x :: l, y :: k => ep_eqb x y && ep_list_eqb l k
  | _, _ => false
  end.

Definition rendezvous_eqb (a b : SnTunnelRendezvous) : bool :=
  (rq_seq a =? rq_seq b) && (rq_tunnel_id a =? rq_tunnel_id b)
  && bool_decide (rq_to_peer_id a = rq_to_peer_id b)
  && bool_decide (rq_operation a = rq_operation b)
  && ep_list_eqb (rq_end_point_array a) (rq_end_point_array b)
  && Bool.eqb (rq_need_predict_endpoint a) (rq_need_predict_endpoint b).

Definition resp_success (seq : Sequence) (eps : list Endpoint) : SnTunnelRendezvousResp :=
  mkResp seq SN_TUNNEL_RENDEZVOUS_RESULT_OK eps.
Definition resp_failure (seq : Sequence) : SnTunnelRendezvousResp :=
  mkResp seq SN_TUNNEL_RENDEZVOUS_RESULT_FAILED [].
Definition resp_is_success (r : SnTunnelRendezvousResp) : bool :=
  rs_result r =? SN_TUNNEL_RENDEZVOUS_RESULT_OK.

Section validation.
(** The cargo feature, and the probing of the [HashSet]: [probe e x] says
    that looking up [x] reaches the bucket of the stored [e]. *)
Context (test_real_socket_matrix : bool) (probe : Endpoint -> Endpoint -> bool).

(** [unique.insert] returns [false] when an equal element is found. *)
Definition hashset_contains (unique : list Endpoint) (x : Endpoint) : bool :=
  existsb (fun e => probe e x && ep_eqb e x) unique.

Definition rendezvous_eligible (op : SnTunnelRendezvousOperation) (ep : Endpoint) : bool :=
  if reverse_connects op then rendezvous_reverse_connect_eligible_area test_real_socket_matrix ep
  else rendezvous_eligible_area test_real_socket_matrix ep.

Fixpoint validate_loop (op : SnTunnelRendezvousOperation) (transport : option Protocol)
    (unique eps : list Endpoint) : P2pResult unit :=
  match eps with
  | [] => Ok tt
  | ep :: eps =>
      if negb (bool_decide (Some (protocol ep) = transport))
         || negb (match protocol ep with Quic | Tcp => true | _ => false end)
         || negb (rendezvous_eligible op ep)
         || (port_of (addr ep) =? 0)
         || hashset_contains unique ep
      then Err P2pErrorCode.InvalidParam
      else validate_loop op transport (ep :: unique) eps
  end.

Definition validate_rendezvous_endpoints (eps : list Endpoint)
    (op : SnTunnelRendezvousOperation) : P2pResult unit :=
  if (MAX_SN_TUNNEL_RENDEZVOUS_ENDPOINTS <? length eps)%nat then Err P2pErrorCode.OutOfLimit
  else if negb (Bool.eqb (requires_endpoints op) (negb (bool_decide (eps = []))))
  then Err P2pErrorCode.InvalidParam
  else
    let transport := protocol <$> head eps in
    if punches op && negb (bool_decide (transport = Some Quic))
    then Err P2pErrorCode.InvalidParam
    else validate_loop op transport [] eps.

Definition rendezvous_validate (r : SnTunnelRendezvous) : P2pResult unit :=
  if rq_seq r =? 0 then Err P2pErrorCode.InvalidParam
  else validate_rendezvous_endpoints (rq_end_point_array r) (rq_operation r).

Definition notify_validate (n : SnTunnelRendezvousNotify) : P2pResult unit :=
  if nt_seq n =? 0 then Err P2pErrorCode.InvalidParam
  else validate_rendezvous_endpoints (nt_end_point_array n) (nt_operation n).

Definition resp_validate (r : SnTunnelRendezvousResp) (expected_seq : Sequence)
    (need_predict_endpoint : bool) : P2pResult unit :=
  if negb (rs_seq r =? expected_seq) then Err P2pErrorCode.Unmatch
  else if negb ((rs_result r =? SN_TUNNEL_RENDEZVOUS_RESULT_OK)
                || (rs_result r =? SN_TUNNEL_RENDEZVOUS_RESULT_FAILED))
  then Err P2pErrorCode.InvalidData
  else if negb (resp_is_success r) then
    if negb (bool_decide (rs_predicted_endpoint_array r = [])) then Err P2pErrorCode.InvalidData
    else Ok tt
  else if negb (Bool.eqb need_predict_endpoint
                  (negb (bool_decide (rs_predicted_endpoint_array r = []))))
  then Err P2pErrorCode.InvalidData
  else if need_predict_endpoint then
    validate_rendezvous_endpoints (rs_predicted_endpoint_array r) PunchOnly
  else Ok tt.
End validation.

(** ** NAT-probe messages *)

Definition supported_nat_profile (p : option NatProfile) : option NatProfile :=
  match p with Some p => if is_supported p then Some p else None | None => None end.

Definition supported_nat_probe_ports (ports : list Z) : bool :=
  (2 <=? length ports)%nat && (length ports <=? MAX_NAT_PROBE_ENDPOINTS)%nat
  && forallb (fun p => negb (p =? 0)) ports
  && (size (list_to_set ports : gset Z) =? length ports)%nat.

Record NatProbeDirective := mkDirective {
  dr_version : Z;
  dr_sn_peer_id : P2pId;
  dr_peer_id : P2pId;
  dr_registration_generation : Z;
  dr_request_id : Z;
  dr_probe_config_generation : Z;
  dr_expires_at : Timestamp;
  dr_ports : list Z;
}.

Definition directive_is_supported (d : NatProbeDirective) : bool :=
  (dr_version d =? NAT_PROBE_CONTROL_VERSION) && supported_nat_probe_ports (dr_ports d).

Record NatProbeResult := mkProbeResult {
  pr_version : Z;
  pr_sn_peer_id : P2pId;
  pr_peer_id : P2pId;
  pr_registration_generation : Z;
  pr_request_id : Z;
  pr_probe_config_generation : Z;
  pr_profile : NatProfile;
}.

Definition result_from_directive (d : NatProbeDirective) (p : NatProfile) : NatProbeResult :=
  mkProbeResult (dr_version d) (dr_sn_peer_id d) (dr_peer_id d) (dr_registration_generation d)
    (dr_request_id d) (dr_probe_config_generation d) p.

Definition result_is_supported (r : NatProbeResult) : bool :=
  (pr_version r =? NAT_PROBE_CONTROL_VERSION) && is_supported (pr_profile r).

Definition supported_nat_context (c : option NatTraversalContext) : option NatTraversalContext :=
  match c with
  | Some c => if context_is_supported c && is_supported (caller_profile c)
                 && is_supported (callee_profile c) then Some c else None
  | None => None
  end.

(** ** What validation guarantees *)

Lemma ep_list_eqb_refl l : ep_list_eqb l l = true.
Proof.
  induction l as [|x l IH]; simpl; [done|]. unfold ep_eqb.
  by rewrite !bool_decide_true, IH.
Qed.

Lemma rendezvous_eqb_refl r : rendezvous_eqb r r = true.
Proof.
  unfold rendezvous_eqb. rewrite !Z.eqb_refl, !bool_decide_true, ep_list_eqb_refl by done.
  by destruct (rq_need_predict_endpoint r).
Qed.

Lemma rendezvous_eqb_key a b :
  rendezvous_eqb a b = true -> rq_seq a = rq_seq b /\ rq_tunnel_id a = rq_tunnel_id b
  /\ rq_to_peer_id a = rq_to_peer_id b /\ rq_need_predict_endpoint a = rq_need_predict_endpoint b.
Proof.
  unfold rendezvous_eqb. intros H. bool_to_prop.
  repeat match goal with H : Bool.eqb _ _ = true |- _ => apply Bool.eqb_prop in H end. auto.
Qed.

Section validation_facts.
Context (test : bool) (probe : Endpoint -> Endpoint -> bool).
(** Hashing is a function of the hashed fields, so an endpoint is found by
    any endpoint with the same fields. *)
Context (probe_same_hash : forall a b, hash_input a = hash_input b -> probe a b = true).

Record endpoint_valid (op : SnTunnelRendezvousOperation) (t : Protocol) (ep : Endpoint) : Prop := {
  ev_protocol : protocol ep = t;
  ev_transport : t = Quic \/ t = Tcp;
  ev_eligible : rendezvous_eligible test op ep = true;
  ev_port : port_of (addr ep) <> 0;
}.

Lemma validate_loop_sound op t unique eps :
  validate_loop test probe op (Some t) unique eps = Ok tt ->
  Forall (endpoint_valid op t) eps
  /\ (forall e x, e ∈ unique -> x ∈ eps -> hash_input e <> hash_input x)
  /\ NoDup (hash_input <$> eps).
Proof using probe_same_hash.
  revert unique. induction eps as [|ep eps IH]; intros unique H; simpl in H.
  { split; [constructor|]. split; [set_solver|constructor]. }
  case_match eqn:E; [done|]. apply IH in H as (Hv & Hd & Hn). bool_to_prop.
  assert (Hnew : forall e, e ∈ unique -> hash_input e <> hash_input ep).
  { intros e He Hh. unfold hashset_contains in *.
    match goal with H : existsb _ unique = false |- _ => apply (existsb_false _ _ H) in He end.
    simpl in He. rewrite (probe_same_hash _ _ Hh) in He. unfold hash_input, ep_eqb in *.
    simplify_eq. rewrite !bool_decide_true in He by congruence. done. }
  split_and!.
  - constructor; [|done]. split; [congruence| |done|done].
    assert (Ht : t = protocol ep) by congruence. rewrite Ht.
    match goal with H : match protocol ep with _ => _ end = true |- _ =>
      destruct (protocol ep) in H |- *; [done|auto..] end.
  - intros e x He [->|Hx]%elem_of_cons; [by apply Hnew|]. apply Hd; set_solver.
  - simpl. constructor; [|done]. rewrite list_elem_of_fmap. intros (x & Hh & Hx).
    eapply (Hd ep x); [set_solver|done|done].
Qed.

(** What a validated endpoint array satisfies. *)
Record array_valid (op : SnTunnelRendezvousOperation) (eps : list Endpoint) : Prop := {
  av_length : (length eps <= MAX_SN_TUNNEL_RENDEZVOUS_ENDPOINTS)%nat;
  av_presence : eps = [] <-> op = WaitIncoming;
  av_each : exists t, (punches op = true -> t = Quic) /\ Forall (endpoint_valid op t) eps;
  av_unique : NoDup (hash_input <$> eps);
}.

Lemma validate_rendezvous_endpoints_sound op eps :
  validate_rendezvous_endpoints test probe eps op = Ok tt -> array_valid op eps.
Proof using probe_same_hash.
  unfold validate_rendezvous_endpoints. intros H.
  case_match eqn:Hlen; [done|]. apply Nat.ltb_ge in Hlen.
  case_match eqn:Hreq; [done|]. apply negb_false_iff, eqb_prop in Hreq.
  case_match eqn:Hp; [done|].
  assert (Hpres : eps = [] <-> op = WaitIncoming).
  { destruct eps; simpl in Hreq; destruct op; simpl in *; split; congruence. }
  destruct eps as [|ep eps].
  - split; [done|done| |constructor]. exists Quic. by split.
  - cbn [head fmap option_fmap option_map] in *. apply validate_loop_sound in H as (Hv & _ & Hn).
    split; [done|done| |done]. exists (protocol ep). split; [|done].
    intros Hpu. rewrite Hpu in Hp. apply negb_false_iff, bool_decide_eq_true_1 in Hp. congruence.
Qed.
End validation_facts.

(** A validated rendezvous request has a non-zero sequence and at most
    eight endpoints, none exactly when it only waits; all share one transport,
    QUIC when it punches; each has a non-zero port, an area eligible for the
    operation and, in default builds, a non-LAN IPv4 address; no two agree on
    area, protocol and address. *)
Theorem rendezvous_validate_sound probe r :
  (forall a b, hash_input a = hash_input b -> probe a b = true) ->
  rendezvous_validate false probe r = Ok tt ->
  rq_seq r <> 0 /\ array_valid false (rq_operation r) (rq_end_point_array r)
  /\ Forall (fun ep => is_non_lan_ipv4_addr (addr ep) = true /\ area ep <> Lan) (rq_end_point_array r).
Proof.
  intros Hprobe. unfold rendezvous_validate. case_match eqn:Hs; [done|]. intros H.
  apply validate_rendezvous_endpoints_sound in H; [|done]. bool_to_prop. split; [done|].
  split; [done|]. destruct (av_each _ _ _ H) as (t & _ & Hall).
  eapply Forall_impl; [exact Hall|]. intros ep [_ _ Hel _].
  assert (Hr : rendezvous_reverse_connect_eligible_area false ep = true).
  { unfold rendezvous_eligible in Hel. case_match; [done|].
    by apply rendezvous_eligible_reverse. }
  unfold rendezvous_reverse_connect_eligible_area, rendezvous_ipv4_eligible in Hr.
  destruct (is_non_lan_ipv4_addr (addr ep)); [|done]. split; [done|]. by destruct (area ep).
Qed.

Definition sample_request : SnTunnelRendezvous :=
  mkRendezvous 7 3 (mkP2pId [1]) PunchOnly
    [mkEndpoint ServerReflexive Quic (V4 (mkV4 203 0 113 7) 3456);
     mkEndpoint ServerReflexive Quic (V4 (mkV4 203 0 113 7) 3457)] true.

Lemma rendezvous_validate_sound_witness :
  rq_seq sample_request <> 0 /\ array_valid false PunchOnly (rq_end_point_array sample_request)
  /\ Forall (fun ep => is_non_lan_ipv4_addr (addr ep) = true /\ area ep <> Lan)
       (rq_end_point_array sample_request).
Proof.
  apply (rendezvous_validate_sound (fun a b => bool_decide (hash_input a = hash_input b)) sample_request).
  - intros a b H. by apply bool_decide_true.
  - by vm_compute.
Defined.

(** The duplicate check does not implement endpoint equality: because
    the set hashes the area while == ignores it, a hash set that separates
    different hash inputs lets two equal (==) endpoints with different areas
    through a reverse-connect request. *)
Theorem rendezvous_duplicate_escapes :
  exists probe r a b,
    (forall x y, hash_input x = hash_input y <-> probe x y = true)
    /\ rendezvous_validate false probe r = Ok tt
    /\ rq_end_point_array r = [a; b] /\ ep_eqb a b = true.
Proof.
  exists (fun a b => bool_decide (hash_input a = hash_input b)).
  exists (mkRendezvous 7 3 (mkP2pId [1]) ReverseConnectOnly
    [mkEndpoint Wan Quic (V4 (mkV4 203 0 113 7) 3456);
     mkEndpoint Mapped Quic (V4 (mkV4 203 0 113 7) 3456)] false).
  do 2 eexists. split; [intros; by rewrite bool_decide_eq_true|].
  split; [by vm_compute|]. split; [done|]. by vm_compute.
Qed.
