(* ===== verification/NatConnectPlan.v ===== *)
(** * Connect plans (src/p2p-frame/src/tunnel/nat_connect_plan.rs)

    The decision table that assigns connect, punch and wait actions to the two
    parties of a tunnel attempt, and its encoding as a rendezvous request. *)

From S2P Require Import Prelude Ids Endpoint NatType SnProtocol.

Inductive PlanParty := Caller | Callee.
Inductive CandidateMode := Base | Predicted.
Inductive ConnectStrategy := StrategyLegacy | StrategyPublic | StrategyMatrix | BoundedBestEffort.
Inductive PlanFallback := FallbackLegacy | FallbackProxy.

Inductive PlanAction :=
| ActionLegacy
| ActionConnect (candidates : CandidateMode) (reverse : bool)
| ActionPunchThenWait (candidates : CandidateMode)
| ActionWaitIncoming.

#[global] Instance PlanParty_eq_dec : EqDecision PlanParty.
Proof. solve_decision. Defined.
#[global] Instance CandidateMode_eq_dec : EqDecision CandidateMode.
Proof. solve_decision. Defined.
#[global] Instance PlanAction_eq_dec : EqDecision PlanAction.
Proof. solve_decision. Defined.

Record ConnectPlan := mkPlan {
  strategy : ConnectStrategy;
  connector : option PlanParty;
  connector_candidates : CandidateMode;
  peer_candidates : option CandidateMode;
  plan_reverse : bool;
  fallback : PlanFallback;
}.

Inductive RendezvousCallerAction :=
| CallerConnect (use_predicted_response : bool)
| CallerPunchThenWait (use_predicted_response : bool)
| CallerWaitIncoming.

Record RendezvousPlan := mkRendezvousPlan {
  rp_operation : SnTunnelRendezvousOperation;
  rp_request_candidates : option CandidateMode;
  rp_need_predict_endpoint : bool;
  rp_caller_action : RendezvousCallerAction;
}.

Definition plan_legacy : ConnectPlan :=
  mkPlan StrategyLegacy None Base None false FallbackLegacy.

Definition action_for (p : ConnectPlan) (party : PlanParty) : PlanAction :=
  match connector p with
  | None => ActionLegacy
  | Some c =>
      if bool_decide (c = party) then ActionConnect (connector_candidates p) (plan_reverse p)
      else match peer_candidates p with
           | Some candidates => ActionPunchThenWait candidates
           | None => ActionWaitIncoming
           end
  end.

Definition rendezvous_plan (p : ConnectPlan) : option RendezvousPlan :=
  match connector p with
  | None => None
  | Some Caller =>
      let request_candidates := peer_candidates p in
      Some {|
        rp_operation := if request_candidates then PunchOnly else WaitIncoming;
        rp_request_candidates := request_candidates;
        rp_need_predict_endpoint := bool_decide (connector_candidates p = Predicted);
        rp_caller_action := CallerConnect (bool_decide (connector_candidates p = Predicted));
      |}
  | Some Callee =>
      let caller_punch_candidates := peer_candidates p in
      Some {|
        rp_operation := if caller_punch_candidates then PunchAndReverseConnect else ReverseConnectOnly;
        rp_request_candidates := Some (connector_candidates p);
        rp_need_predict_endpoint := bool_decide (caller_punch_candidates = Some Predicted);
        rp_caller_action := match caller_punch_candidates with
                            | Some mode => CallerPunchThenWait (bool_decide (mode = Predicted))
                            | None => CallerWaitIncoming
                            end;
      |}
  end.

Definition public_plan (c : PlanParty) : ConnectPlan :=
  mkPlan StrategyPublic (Some c) Base None (bool_decide (c = Callee)) FallbackProxy.

Definition matrix_plan (s : ConnectStrategy) (c : PlanParty) (cc pc : CandidateMode) : ConnectPlan :=
  mkPlan s (Some c) cc (Some pc) (bool_decide (c = Callee)) FallbackProxy.

Definition prediction_or_base (prediction_usable : bool) : CandidateMode :=
  if prediction_usable then Predicted else Base.

Definition select_connect_plan (context : NatTraversalContext) (now : Timestamp)
    (caller_public callee_public : bool) : ConnectPlan :=
  if callee_public then public_plan Caller
  else if caller_public then public_plan Callee
  else if negb (context_is_supported context) then plan_legacy
  else
    let caller := mapping_at (caller_profile context) now in
    let callee := mapping_at (callee_profile context) now in
    if bool_decide (caller = ObsUnknown) || bool_decide (callee = ObsUnknown) then plan_legacy
    else
      let caller_predictable := negb (bool_decide (caller = SymmetricLike))
        || bool_decide (is_Some (usable_prediction_hint (caller_profile context) now)) in
      let callee_predictable := negb (bool_decide (callee = SymmetricLike))
        || bool_decide (is_Some (usable_prediction_hint (callee_profile context) now)) in
      let strategy := if caller_predictable && callee_predictable
                      then StrategyMatrix else BoundedBestEffort in
      match caller, callee with
      | NonSymmetricLike, NonSymmetricLike => matrix_plan strategy Caller Base Base
      | NonSymmetricLike, SymmetricLike =>
          matrix_plan strategy Callee Base (prediction_or_base callee_predictable)
      | SymmetricLike, NonSymmetricLike =>
          matrix_plan strategy Caller Base (prediction_or_base caller_predictable)
      | SymmetricLike, SymmetricLike =>
          matrix_plan strategy Caller (prediction_or_base callee_predictable)
            (prediction_or_base caller_predictable)
      | _, _ => plan_legacy
      end.

(** ** Roles *)

Definition other (p : PlanParty) : PlanParty :=
  match p with Caller => Callee | Callee => Caller end.

Definition profile_of (c : NatTraversalContext) (p : PlanParty) : NatProfile :=
  match p with Caller => caller_profile c | Callee => callee_profile c end.

(** The candidates of the other side an action dials or punches. *)
Definition action_candidates (a : PlanAction) : option CandidateMode :=
  match a with
  | ActionConnect m _ | ActionPunchThenWait m => Some m
  | _ => None
  end.

Definition is_connect (a : PlanAction) : bool :=
  match a with ActionConnect _ _ => true | _ => false end.
Definition is_passive (a : PlanAction) : bool :=
  match a with ActionPunchThenWait _ | ActionWaitIncoming => true | _ => false end.

Ltac case_plan :=
  unfold select_connect_plan; cbv zeta;
  repeat match goal with
  | |- context [if ?b then public_plan _ else _] => destruct b eqn:?
  | |- context [if negb ?b then plan_legacy else _] => destruct b eqn:?; cbn [negb]
  | |- context [if ?b || ?c then plan_legacy else _] => destruct (b || c) eqn:?
  end;
  try match goal with
  | |- context [match mapping_at ?a ?n with _ => _ end] =>
      destruct (mapping_at a n) eqn:?
  end;
  try match goal with
  | |- context [match mapping_at ?a ?n with _ => _ end] =>
      destruct (mapping_at a n) eqn:?
  end.

(** Every selected plan gives the parties complementary roles: either it
    is the legacy plan (both act as before, nothing is sent through the SN) or
    exactly one party connects while the other punches and waits or just
    waits; the connection is a reverse one exactly when the callee makes it,
    and the fallback is then the proxy. *)
Theorem connect_plan_roles context now caller_public callee_public :
  let p := select_connect_plan context now caller_public callee_public in
  (p = plan_legacy /\ rendezvous_plan p = None /\ forall party, action_for p party = ActionLegacy)
  \/ (exists c m, connector p = Some c /\ fallback p = FallbackProxy
       /\ action_for p c = ActionConnect m (bool_decide (c = Callee))
       /\ is_passive (action_for p (other c)) = true
       /\ is_Some (rendezvous_plan p)).
Proof.
  cbv zeta. case_plan; try (left; split_and!; done);
    right; unfold public_plan, matrix_plan, action_for; simpl; do 2 eexists;
    (split; [done|]); simpl; split_and!; eauto.
Qed.

(** A party aims at predicted ports only on evidence: in every selected
    plan the candidates a party dials or punches are predicted ones exactly
    when, without a public party, the other party is [SymmetricLike] at this
    time and its profile offers a usable prediction hint. *)
Theorem connect_plan_prediction context now caller_public callee_public party m :
  let p := select_connect_plan context now caller_public callee_public in
  action_candidates (action_for p party) = Some m ->
  (m = Predicted <->
     caller_public = false /\ callee_public = false
     /\ mapping_at (profile_of context (other party)) now = SymmetricLike
     /\ is_Some (usable_prediction_hint (profile_of context (other party)) now)).
Proof.
  destruct party; cbn [other profile_of]; case_plan; try done; unfold action_for; simpl;
    intros [= <-]; unfold prediction_or_base;
    try (destruct (bool_decide (is_Some _)) eqn:?); bool_to_prop; naive_solver.
Qed.

(** ** The rendezvous encoding *)

Definition mode_of (predicted : bool) : CandidateMode := if predicted then Predicted else Base.

(** What the caller does with the plan and with the callee's response. *)
Definition caller_executes (r : RendezvousPlan) : PlanAction :=
  match rp_caller_action r with
  | CallerConnect b => ActionConnect (mode_of b) false
  | CallerPunchThenWait b => ActionPunchThenWait (mode_of b)
  | CallerWaitIncoming => ActionWaitIncoming
  end.

(** What the operation asks of the callee, given the request's endpoints. *)
Definition callee_executes (r : RendezvousPlan) : PlanAction :=
  match rp_operation r, rp_request_candidates r with
  | (PunchAndReverseConnect | ReverseConnectOnly), Some m => ActionConnect m true
  | PunchOnly, Some m => ActionPunchThenWait m
  | _, _ => ActionWaitIncoming
  end.

Lemma mode_of_predicted m : mode_of (bool_decide (m = Predicted)) = m.
Proof. by destruct m. Qed.

(** The rendezvous request carries the plan faithfully: executing the
    caller action and the operation sent to the callee gives exactly the two
    actions of the plan; the request has endpoints exactly when the operation
    requires them; a prediction is asked of the callee exactly when the caller
    is going to use predicted ports; and the callee punches before connecting
    back exactly when the caller punches too. *)
Theorem rendezvous_plan_refines context now caller_public callee_public r :
  let p := select_connect_plan context now caller_public callee_public in
  rendezvous_plan p = Some r ->
  caller_executes r = action_for p Caller
  /\ callee_executes r = action_for p Callee
  /\ requires_endpoints (rp_operation r) = bool_decide (is_Some (rp_request_candidates r))
  /\ (rp_need_predict_endpoint r = true <-> action_candidates (action_for p Caller) = Some Predicted)
  /\ (reverse_connects (rp_operation r) = true ->
      (punches (rp_operation r) = true <-> is_Some (action_candidates (action_for p Caller)))).
Proof.
  cbv zeta. case_plan; try done; unfold rendezvous_plan, action_for; simpl; intros [= <-];
    unfold caller_executes, callee_executes; simpl; rewrite ?mode_of_predicted;
    unfold prediction_or_base; split_and!; try done; try naive_solver;
    repeat case_match; naive_solver.
Qed.

Definition sample_profile (obs : NatMappingObservation) (h : option NatPredictionHint) : NatProfile :=
  mkProfile 1 obs 1000 9000 h.
Definition sample_ep (p : Z) : Endpoint := endpoint_from Quic (V4 (mkV4 203 0 113 7) p).
Definition sample_context : NatTraversalContext :=
  context_new (mkP2pId [1]) (mkP2pId [2]) (sample_profile NonSymmetricLike None)
    (sample_profile SymmetricLike (Some (mkHint (sample_ep 4000) (sample_ep 4004) 3 2 Same))).

Lemma connect_plan_prediction_witness :
  Predicted = Predicted <->
     false = false /\ false = false
     /\ mapping_at (callee_profile sample_context) 5000 = SymmetricLike
     /\ is_Some (usable_prediction_hint (callee_profile sample_context) 5000).
Proof.
  apply (connect_plan_prediction sample_context 5000 false false Caller Predicted). by vm_compute.
Defined.

Lemma rendezvous_plan_refines_witness :
  let r := mkRendezvousPlan PunchAndReverseConnect (Some Base) true (CallerPunchThenWait true) in
  let p := select_connect_plan sample_context 5000 false false in
  caller_executes r = action_for p Caller
  /\ callee_executes r = action_for p Callee
  /\ requires_endpoints (rp_operation r) = bool_decide (is_Some (rp_request_candidates r))
  /\ (rp_need_predict_endpoint r = true <-> action_candidates (action_for p Caller) = Some Predicted)
  /\ (reverse_connects (rp_operation r) = true ->
      (punches (rp_operation r) = true <-> is_Some (action_candidates (action_for p Caller)))).
Proof.
  apply (rendezvous_plan_refines sample_context 5000 false false
    (mkRendezvousPlan PunchAndReverseConnect (Some Base) true (CallerPunchThenWait true))).
  by vm_compute.
Defined.
