(* ===== verification/Rendezvous.v ===== *)
(** * Rendezvous bookkeeping of the SN service
      (src/p2p-frame/src/sn/service/rendezvous_state.rs)

    The table of live rendezvous attempts with its limits, the rate windows,
    the waiters of duplicate requests and their answers.  A [oneshot] channel
    is a number drawn from [next_chan]; sending on it is an output event
    [(channel, result)].  The order in which a hash map is traversed is not
    modelled: outputs are compared up to permutation. *)

From S2P Require Import Prelude Errors Ids Endpoint NatType SnProtocol.

Definition MAX_LIVE_ATTEMPTS : nat := 256.
Definition MAX_LIVE_ATTEMPTS_PER_PAIR : nat := 8.
Definition MAX_REQUESTS_PER_INITIATOR_WINDOW : nat := 32.
Definition MAX_INFLIGHT_WAITERS_PER_ATTEMPT : nat := 8.
Definition RATE_WINDOW : Timestamp := 60 * 1000000.
Definition MAX_REQUEST_LIFETIME : Timestamp := 30 * 1000000.

Record RendezvousKey := mkKey { key_initiator : P2pId; key_seq : Sequence; key_tunnel_id : TunnelId }.

#[global] Instance RendezvousKey_eq_dec : EqDecision RendezvousKey.
Proof. solve_decision. Defined.
#[global] Instance RendezvousKey_countable : Countable RendezvousKey.
Proof.
  by apply (inj_countable' (fun k => (key_initiator k, key_seq k, key_tunnel_id k))
    (fun '(i, s, t) => mkKey i s t)); intros [].
Defined.

Definition key_new (initiator : P2pId) (request : SnTunnelRendezvous) : RendezvousKey :=
  mkKey initiator (rq_seq request) (rq_tunnel_id request).

Definition Chan := nat.
Definition Answer : Type := Chan * P2pResult SnTunnelRendezvousResp.

Record RendezvousEntry := mkEntry {
  e_request : SnTunnelRendezvous;
  e_expires_at : Timestamp;
  e_response : option SnTunnelRendezvousResp;
  e_waiters : list Chan;
}.

Inductive RendezvousBegin :=
| BeginNew
| BeginCached (r : SnTunnelRendezvousResp)
| BeginInFlight (c : Chan).

Record RendezvousState := mkRendezvousState {
  entries : gmap RendezvousKey RendezvousEntry;
  rate_windows : gmap P2pId (list Timestamp);
  next_chan : Chan;
}.

Definition rendezvous_state_new : RendezvousState := mkRendezvousState ∅ ∅ O.

(** Everything waiting in a table of entries. *)
Definition pending_of (m : gmap RendezvousKey RendezvousEntry) : list Chan :=
  '(_, e) ← map_to_list m; e_waiters e.

(** [for waiter in waiters.drain(..) { waiter.send(r) }]. *)
Definition answer_all (cs : list Chan) (r : P2pResult SnTunnelRendezvousResp) : list Answer :=
  (fun c => (c, r)) <$> cs.

(** Timestamps leave the window from the front. *)
Fixpoint pop_old (now : Timestamp) (ts : list Timestamp) : list Timestamp :=
  match ts with
  | t :: ts' => if saturating_add t RATE_WINDOW <? now then pop_old now ts' else ts
  | [] => []
  end.

Definition live (now : Timestamp) (x : RendezvousKey * RendezvousEntry) : Prop :=
  now < e_expires_at (snd x).
#[global] Instance live_dec now x : Decision (live now x).
Proof. apply Z_lt_dec. Defined.

Definition cleanup (now : Timestamp) (s : RendezvousState) : list Answer * RendezvousState :=
  (answer_all (pending_of (filter (fun x => ~ live now x) (entries s))) (Err P2pErrorCode.Expired),
   mkRendezvousState
     (filter (live now) (entries s))
     (omap (fun ts => match pop_old now ts with [] => None | ts' => Some ts' end) (rate_windows s))
     (next_chan s)).

Definition same_pair (i t : P2pId) (x : RendezvousKey * RendezvousEntry) : Prop :=
  key_initiator (fst x) = i /\ rq_to_peer_id (e_request (snd x)) = t.
#[global] Instance same_pair_dec i t x : Decision (same_pair i t x).
Proof. apply and_dec; apply _. Defined.

Definition begin (initiator : P2pId) (request : SnTunnelRendezvous) (now : Timestamp)
    (s : RendezvousState) : P2pResult RendezvousBegin * list Answer * RendezvousState :=
  let '(out, s) := cleanup now s in
  let key := key_new initiator request in
  match entries s !! key with
  | Some entry =>
      if negb (rendezvous_eqb (e_request entry) request) then (Err P2pErrorCode.Conflict, out, s)
      else match e_response entry with
           | Some response => (Ok (BeginCached response), out, s)
           | None =>
               if (MAX_INFLIGHT_WAITERS_PER_ATTEMPT <=? length (e_waiters entry))%nat
               then (Err P2pErrorCode.OutOfLimit, out, s)
               else
                 let c := next_chan s in
                 (Ok (BeginInFlight c), out,
                  mkRendezvousState
                    (<[key := mkEntry (e_request entry) (e_expires_at entry) None
                                (e_waiters entry ++ [c])]> (entries s))
                    (rate_windows s) (S c))
           end
  | None =>
      if (MAX_LIVE_ATTEMPTS <=? size (entries s))%nat
         || (MAX_LIVE_ATTEMPTS_PER_PAIR <=?
               size (filter (same_pair initiator (rq_to_peer_id request)) (entries s)))%nat
      then (Err P2pErrorCode.OutOfLimit, out, s)
      else
        let timestamps := pop_old now (default [] (rate_windows s !! initiator)) in
        if (MAX_REQUESTS_PER_INITIATOR_WINDOW <=? length timestamps)%nat
        then (Err P2pErrorCode.OutOfLimit, out,
              mkRendezvousState (entries s) (<[initiator := timestamps]> (rate_windows s)) (next_chan s))
        else
          (Ok BeginNew, out,
           mkRendezvousState
             (<[key := mkEntry request (saturating_add now MAX_REQUEST_LIFETIME) None []]> (entries s))
             (<[initiator := timestamps ++ [now]]> (rate_windows s))
             (next_chan s))
  end.

Section responses.
Context (test_real_socket_matrix : bool) (probe : Endpoint -> Endpoint -> bool).

Definition cache_response (initiator : P2pId) (request : SnTunnelRendezvous)
    (response : SnTunnelRendezvousResp) (now : Timestamp) (s : RendezvousState)
    : P2pResult unit * list Answer * RendezvousState :=
  let key := key_new initiator request in
  match entries s !! key with
  | Some entry =>
      if e_expires_at entry <=? now then
        (Err P2pErrorCode.Expired, answer_all (e_waiters entry) (Err P2pErrorCode.Expired),
         mkRendezvousState (delete key (entries s)) (rate_windows s) (next_chan s))
      else if negb (rendezvous_eqb (e_request entry) request) then (Err P2pErrorCode.Conflict, [], s)
      else match resp_validate test_real_socket_matrix probe response (rq_seq request)
                   (rq_need_predict_endpoint request) with
           | Err e => (Err e, [], s)
           | Ok _ =>
               let cached_response :=
                 if rq_need_predict_endpoint request then resp_failure (rq_seq request)
                 else response in
               (Ok tt, answer_all (e_waiters entry) (Ok response),
                mkRendezvousState
                  (<[key := mkEntry (e_request entry) (e_expires_at entry)
                              (Some cached_response) []]> (entries s))
                  (rate_windows s) (next_chan s))
           end
  | None => (Err P2pErrorCode.NotFound, [], s)
  end.

Definition fail_unanswered (initiator : P2pId) (request : SnTunnelRendezvous) (s : RendezvousState)
    : list Answer * RendezvousState :=
  let key := key_new initiator request in
  match entries s !! key with
  | Some entry =>
      if negb (rendezvous_eqb (e_request entry) request) || bool_decide (is_Some (e_response entry))
      then ([], s)
      else (answer_all (e_waiters entry) (Err P2pErrorCode.NetworkError),
            mkRendezvousState (delete key (entries s)) (rate_windows s) (next_chan s))
  | None => ([], s)
  end.
End responses.

Definition not_of_peer (p : P2pId) (x : RendezvousKey * RendezvousEntry) : Prop :=
  key_initiator (fst x) <> p /\ rq_to_peer_id (e_request (snd x)) <> p.
#[global] Instance not_of_peer_dec p x : Decision (not_of_peer p x).
Proof. apply and_dec; apply _. Defined.

Definition remove_peer (p : P2pId) (s : RendezvousState) : list Answer * RendezvousState :=
  (answer_all (pending_of (filter (fun x => ~ not_of_peer p x) (entries s)))
     (Err P2pErrorCode.UserCanceled),
   mkRendezvousState (filter (not_of_peer p) (entries s)) (delete p (rate_windows s)) (next_chan s)).

(** ** The service as a transition system

    The operations the service performs under its lock, with the answers they
    send. *)

Section steps.
Context (test : bool) (probe : Endpoint -> Endpoint -> bool).

Inductive rz_step : RendezvousState -> list Answer -> RendezvousState -> Prop :=
| rz_begin i r now s res out s' :
    begin i r now s = (res, out, s') -> rz_step s out s'
| rz_cache i r resp now s res out s' :
    cache_response test probe i r resp now s = (res, out, s') -> rz_step s out s'
| rz_fail i r s out s' :
    fail_unanswered i r s = (out, s') -> rz_step s out s'
| rz_remove p s out s' :
    remove_peer p s = (out, s') -> rz_step s out s'.

Inductive rz_run : RendezvousState -> list Answer -> Prop :=
| rz_start : rz_run rendezvous_state_new []
| rz_next s out s' out' :
    rz_run s out -> rz_step s out' s' -> rz_run s' (out ++ out').
End steps.

(** ** Waiters: permutation lemmas *)

Lemma pending_delete m k e :
  m !! k = Some e -> pending_of m ≡ₚ e_waiters e ++ pending_of (delete k m).
Proof.
  intros H. unfold pending_of. by rewrite <-(map_to_list_delete _ _ _ H).
Qed.

Lemma pending_insert_new m k e :
  m !! k = None -> pending_of (<[k:=e]> m) ≡ₚ e_waiters e ++ pending_of m.
Proof. intros H. unfold pending_of. by rewrite map_to_list_insert. Qed.

Lemma pending_insert m k e e' :
  m !! k = Some e ->
  pending_of (<[k:=e']> m) ≡ₚ e_waiters e' ++ pending_of (delete k m).
Proof.
  intros H. rewrite <-insert_delete_eq. apply pending_insert_new, lookup_delete_eq.
Qed.

Lemma pending_filter (P : RendezvousKey * RendezvousEntry -> Prop) `{!forall x, Decision (P x)} m :
  pending_of m ≡ₚ pending_of (filter P m) ++ pending_of (filter (fun x => ~ P x) m).
Proof.
  assert (Hf : forall (Q : RendezvousKey * RendezvousEntry -> Prop) `{!forall x, Decision (Q x)},
    map_to_list (filter Q m) ≡ₚ filter Q (map_to_list m)).
  { intros Q HQ. rewrite map_filter_alt. apply map_to_list_to_map.
    eapply NoDup_fmap_fst; [|apply NoDup_filter, NoDup_map_to_list].
    intros k x y [_ Hx]%list_elem_of_filter [_ Hy]%list_elem_of_filter.
    apply elem_of_map_to_list in Hx, Hy. congruence. }
  unfold pending_of. rewrite !Hf, <-bind_app. apply bind_Permutation. symmetry.
  apply filter_app_complement.
Qed.

Lemma answer_all_fst cs r : fst <$> answer_all cs r = cs.
Proof.
  unfold answer_all. rewrite <-list_fmap_compose. apply list_fmap_id.
Qed.

(** Every step moves each channel at most once: what is pending afterwards
    together with what was answered is what was pending before together with
    the channels handed out. *)
Definition conserves (s : RendezvousState) (out : list Answer) (s' : RendezvousState) : Prop :=
  (next_chan s <= next_chan s')%nat /\
  pending_of (entries s') ++ (fst <$> out)
  ≡ₚ pending_of (entries s) ++ seq (next_chan s) (next_chan s' - next_chan s).

Lemma conserves_refl s : conserves s [] s.
Proof. split; [done|]. simpl. by rewrite Nat.sub_diag. Qed.

(** A step that hands out no channel. *)
Lemma conserves_same s out s' :
  next_chan s' = next_chan s ->
  pending_of (entries s') ++ (fst <$> out) ≡ₚ pending_of (entries s) -> conserves s out s'.
Proof. intros Hc Hp. split; [lia|]. rewrite Hp, Hc, Nat.sub_diag. simpl. by rewrite app_nil_r. Qed.

Lemma conserves_trans s out1 s1 out2 s2 :
  conserves s out1 s1 -> conserves s1 out2 s2 -> conserves s (out1 ++ out2) s2.
Proof.
  intros [Hc1 Hp1] [Hc2 Hp2]. split; [lia|].
  rewrite fmap_app, (Permutation_app_comm (fst <$> out1)), app_assoc, Hp2, <-app_assoc,
    (Permutation_app_comm (seq _ _)), app_assoc, Hp1, <-app_assoc.
  apply Permutation_app_head.
  replace (next_chan s2 - next_chan s)%nat
    with ((next_chan s1 - next_chan s) + (next_chan s2 - next_chan s1))%nat by lia.
  rewrite seq_app. do 2 f_equiv. lia.
Qed.

Lemma cleanup_conserves now s : conserves s (fst (cleanup now s)) (snd (cleanup now s)).
Proof.
  apply conserves_same; [done|]. simpl. rewrite answer_all_fst. symmetry.
  apply (pending_filter (live now)).
Qed.

Lemma begin_conserves i r now s res out s' : begin i r now s = (res, out, s') -> conserves s out s'.
Proof.
  unfold begin. pose proof (cleanup_conserves now s) as Hc.
  destruct (cleanup now s) as [out0 s0]; simpl in Hc. intros H.
  rewrite <-(app_nil_r out). destruct (entries s0 !! key_new i r) as [e|] eqn:Hk.
  - repeat (case_match; simplify_eq); try (eapply conserves_trans; [exact Hc|apply conserves_refl]).
    eapply conserves_trans; [exact Hc|]. split; simpl; [lia|]. rewrite app_nil_r.
    replace (S (next_chan s0) - next_chan s0)%nat with 1%nat by lia.
    rewrite (pending_insert _ _ _ _ Hk), (pending_delete _ _ _ Hk). simpl.
    rewrite <-!app_assoc. apply Permutation_app_head, Permutation_app_comm.
  - repeat (case_match; simplify_eq); (eapply conserves_trans; [exact Hc|]);
      try apply conserves_refl; apply conserves_same; try done; simpl; rewrite app_nil_r; [done|].
    by rewrite pending_insert_new.
Qed.

Lemma cache_response_conserves test probe i r resp now s res out s' :
  cache_response test probe i r resp now s = (res, out, s') -> conserves s out s'.
Proof.
  unfold cache_response. intros H. destruct (entries s !! key_new i r) as [e|] eqn:Hk;
    [|simplify_eq; apply conserves_refl].
  destruct (e_expires_at e <=? now); [|destruct (negb _); [simplify_eq; apply conserves_refl|]].
  - simplify_eq. apply conserves_same; [done|]. simpl. rewrite answer_all_fst.
    rewrite (pending_delete _ _ _ Hk). apply Permutation_app_comm.
  - destruct (resp_validate _ _ _ _ _); simplify_eq; [|apply conserves_refl].
    apply conserves_same; [done|]. simpl. rewrite answer_all_fst.
    rewrite (pending_insert _ _ _ _ Hk), (pending_delete _ _ _ Hk). apply Permutation_app_comm.
Qed.

Lemma fail_unanswered_conserves i r s out s' :
  fail_unanswered i r s = (out, s') -> conserves s out s'.
Proof.
  unfold fail_unanswered. intros H. repeat (case_match; simplify_eq); try apply conserves_refl.
  apply conserves_same; [done|]. simpl. rewrite answer_all_fst.
  erewrite (pending_delete (entries s)) by done. apply Permutation_app_comm.
Qed.

Lemma remove_peer_conserves p s out s' : remove_peer p s = (out, s') -> conserves s out s'.
Proof.
  unfold remove_peer. intros [= <- <-]. apply conserves_same; [done|]. simpl.
  rewrite answer_all_fst. symmetry. apply (pending_filter (not_of_peer p)).
Qed.

Lemma rz_step_conserves test probe s out s' : rz_step test probe s out s' -> conserves s out s'.
Proof.
  destruct 1; eauto using begin_conserves, cache_response_conserves, fail_unanswered_conserves,
    remove_peer_conserves.
Qed.

Lemma rz_run_conserves test probe s out :
  rz_run test probe s out -> conserves rendezvous_state_new out s.
Proof.
  induction 1; [apply conserves_refl|].
  eapply conserves_trans; [done|]. by eapply rz_step_conserves.
Qed.

(** C1: every duplicate request that was told to wait is answered exactly
    once or still waits: along any sequence of operations the channels handed
    out are exactly the channels pending in the table together with the
    channels answered, none occurring twice. *)
Theorem rendezvous_waiters_exactly_once test probe s out :
  rz_run test probe s out ->
  pending_of (entries s) ++ (fst <$> out) ≡ₚ seq 0 (next_chan s)
  /\ NoDup (pending_of (entries s) ++ (fst <$> out)).
Proof.
  intros H. apply rz_run_conserves in H as [_ Hp]. simpl in Hp.
  rewrite Nat.sub_0_r in Hp. split; [done|]. rewrite Hp. apply NoDup_seq.
Qed.

(** ** The invariant of the table *)

Record entry_ok (k : RendezvousKey) (e : RendezvousEntry) : Prop := {
  eo_seq : rq_seq (e_request e) = key_seq k;
  eo_tunnel : rq_tunnel_id (e_request e) = key_tunnel_id k;
  eo_waiters : (length (e_waiters e) <= MAX_INFLIGHT_WAITERS_PER_ATTEMPT)%nat;
  eo_answered : is_Some (e_response e) -> e_waiters e = [];
  eo_no_prediction : forall r, e_response e = Some r ->
    rs_predicted_endpoint_array r = [] /\ rs_seq r = key_seq k;
}.

Record rz_inv (s : RendezvousState) : Prop := {
  ri_live : (size (entries s) <= MAX_LIVE_ATTEMPTS)%nat;
  ri_pair : forall i t,
    (size (filter (same_pair i t) (entries s)) <= MAX_LIVE_ATTEMPTS_PER_PAIR)%nat;
  ri_rate : map_Forall (fun _ ts => (length ts <= MAX_REQUESTS_PER_INITIATOR_WINDOW)%nat) (rate_windows s);
  ri_entries : map_Forall entry_ok (entries s);
}.

(** Shrinking the table keeps the entry part of the invariant. *)
Lemma inv_shrink s m rw c :
  rz_inv s -> m ⊆ entries s ->
  map_Forall (fun _ ts => (length ts <= MAX_REQUESTS_PER_INITIATOR_WINDOW)%nat) rw ->
  rz_inv (mkRendezvousState m rw c).
Proof.
  intros [Hl Hp Hr He] Hsub Hrw. split; simpl; [| |done|].
  - etrans; [by apply map_subseteq_size|done].
  - intros i t. etrans; [apply map_subseteq_size, map_filter_subseteq_mono; exact Hsub|apply Hp].
  - intros k e Hk. apply He. by eapply lookup_weaken.
Qed.

(** Rewriting one live entry for the same request keeps the counts. *)
Lemma inv_update s k e e' c :
  rz_inv s -> entries s !! k = Some e ->
  rq_to_peer_id (e_request e') = rq_to_peer_id (e_request e) ->
  entry_ok k e' ->
  rz_inv (mkRendezvousState (<[k:=e']> (entries s)) (rate_windows s) c).
Proof.
  intros [Hl Hp Hr He] Hk Ht Hok. split; simpl; [| |done|].
  - rewrite map_size_insert_Some; [done|by rewrite Hk].
  - intros i t. destruct (decide (same_pair i t (k, e'))) as [Hs|Hs].
    + rewrite map_filter_insert_True by done. rewrite map_size_insert_Some; [apply Hp|].
      exists e. apply map_lookup_filter_Some. split; [done|].
      destruct Hs as [? Hs]. split; simpl in *; congruence.
    + rewrite map_filter_insert_False by done. etrans; [|apply (Hp i t)].
      apply map_subseteq_size, map_filter_subseteq_mono, delete_subseteq.
  - by apply map_Forall_insert_2.
Qed.

Lemma pop_old_length now ts : (length (pop_old now ts) <= length ts)%nat.
Proof. induction ts as [|t ts IH]; simpl; [done|]. case_match; simpl; lia. Qed.

Lemma cleanup_inv now s : rz_inv s -> rz_inv (snd (cleanup now s)).
Proof.
  intros Hs. apply (inv_shrink s); [done|apply map_filter_subseteq|].
  intros i ts Hts. rewrite lookup_omap in Hts. destruct (rate_windows s !! i) as [ts0|] eqn:E; [|done].
  pose proof (ri_rate _ Hs i ts0 E) as Hle. pose proof (pop_old_length now ts0).
  simpl in Hts. destruct (pop_old now ts0) eqn:E'; [done|]. simplify_eq. simpl in *. lia.
Qed.

Lemma window_length s now i :
  rz_inv s ->
  (length (pop_old now (default [] (rate_windows s !! i))) <= MAX_REQUESTS_PER_INITIATOR_WINDOW)%nat.
Proof.
  intros Hs. etrans; [apply pop_old_length|]. destruct (rate_windows s !! i) eqn:E; simpl; [|lia].
  by apply (ri_rate _ Hs i).
Qed.

(** Admitting a new attempt below the limits. *)
Lemma inv_admit s i r now ts c :
  rz_inv s -> entries s !! key_new i r = None ->
  (size (entries s) < MAX_LIVE_ATTEMPTS)%nat ->
  (size (filter (same_pair i (rq_to_peer_id r)) (entries s)) < MAX_LIVE_ATTEMPTS_PER_PAIR)%nat ->
  (length ts < MAX_REQUESTS_PER_INITIATOR_WINDOW)%nat ->
  rz_inv (mkRendezvousState
    (<[key_new i r := mkEntry r (saturating_add now MAX_REQUEST_LIFETIME) None []]> (entries s))
    (<[i := ts ++ [now]]> (rate_windows s)) c).
Proof.
  intros [Hl Hp Hr He] Hk H1 H2 H3. split; simpl.
  - rewrite map_size_insert_None by done. lia.
  - intros i' t'. destruct (decide (same_pair i' t' (key_new i r,
      mkEntry r (saturating_add now MAX_REQUEST_LIFETIME) None []))) as [[<- <-]|Hs].
    + etrans; [|exact H2]. rewrite map_filter_insert_True by done. apply map_size_insert_le.
    + rewrite map_filter_insert_False, delete_id by done. apply Hp.
  - apply map_Forall_insert_2; [|done]. rewrite length_app. simpl. lia.
  - apply map_Forall_insert_2; [|done]. split; simpl; try done; [lia].
Qed.

Lemma begin_inv i r now s res out s' : rz_inv s -> begin i r now s = (res, out, s') -> rz_inv s'.
Proof.
  unfold begin. intros Hs. pose proof (cleanup_inv now s Hs) as Hc.
  destruct (cleanup now s) as [out0 s0]; simpl in Hc. clear Hs. intros H.
  destruct (entries s0 !! key_new i r) as [e|] eqn:Hk.
  - destruct (negb (rendezvous_eqb (e_request e) r)) eqn:Eq; [by simplify_eq|]. destruct (e_response e) eqn:Er; [by simplify_eq|].
    destruct (_ <=? length (e_waiters e))%nat eqn:El; simplify_eq; [done|].
    apply Nat.leb_gt in El. apply (inv_update _ _ e); try done.
    destruct (ri_entries _ Hc _ _ Hk) as [? ? ? ? ?]. split; simpl; try done.
    rewrite length_app. simpl. lia.
  - destruct (_ || _) eqn:El; [by simplify_eq|]. apply orb_false_iff in El as [El1 El2].
    apply Nat.leb_gt in El1, El2. destruct (_ <=? length _)%nat eqn:El3; simplify_eq.
    + apply (inv_shrink s0); try done. apply map_Forall_insert_2; [by apply window_length|].
      apply (ri_rate _ Hc).
    + apply Nat.leb_gt in El3. by apply inv_admit.
Qed.

(** A response that passed validation for an attempt without prediction
    carries none. *)
Lemma resp_validate_no_prediction test probe resp seq :
  resp_validate test probe resp seq false = Ok tt ->
  rs_predicted_endpoint_array resp = [] /\ rs_seq resp = seq.
Proof.
  unfold resp_validate. intros H. repeat (case_match; simplify_eq); bool_to_prop; try done.
  by destruct (bool_decide (rs_predicted_endpoint_array resp = [])) eqn:E; bool_to_prop.
Qed.

Lemma cache_response_inv test probe i r resp now s res out s' :
  rz_inv s -> cache_response test probe i r resp now s = (res, out, s') -> rz_inv s'.
Proof.
  unfold cache_response. intros Hs H. destruct (entries s !! key_new i r) as [e|] eqn:Hk; [|by simplify_eq].
  destruct (e_expires_at e <=? now).
  { simplify_eq. apply (inv_shrink s); [done|apply delete_subseteq|apply (ri_rate _ Hs)]. }
  destruct (negb (rendezvous_eqb (e_request e) r)) eqn:Eq; [by simplify_eq|].
  destruct (resp_validate _ _ _ _ _) as [[]|] eqn:Hv; simplify_eq; [|done].
  apply (inv_update _ _ e); [done..|]. destruct (ri_entries _ Hs _ _ Hk) as [Hq Ht _ _ _].
  split; simpl; try done; [lia|]. intros r' [= <-].
  destruct (rq_need_predict_endpoint r) eqn:En; [done|].
  by apply resp_validate_no_prediction in Hv.
Qed.

Lemma fail_unanswered_inv i r s out s' :
  rz_inv s -> fail_unanswered i r s = (out, s') -> rz_inv s'.
Proof.
  unfold fail_unanswered. intros Hs H. repeat (case_match; simplify_eq; try done).
  apply (inv_shrink s); [done|apply delete_subseteq|apply (ri_rate _ Hs)].
Qed.

Lemma remove_peer_inv p s out s' : rz_inv s -> remove_peer p s = (out, s') -> rz_inv s'.
Proof.
  unfold remove_peer. intros Hs [= <- <-].
  apply (inv_shrink s); [done|apply map_filter_subseteq|].
  eapply map_Forall_delete, (ri_rate _ Hs).
Qed.

Lemma rz_new_inv : rz_inv rendezvous_state_new.
Proof. split; simpl; [|intros; rewrite map_filter_empty|..]; (rewrite ?map_size_empty; lia) || done. Qed.

#[export] Hint Resolve rz_new_inv begin_inv cache_response_inv fail_unanswered_inv remove_peer_inv : p2p.

Lemma rz_run_inv test probe s out : rz_run test probe s out -> rz_inv s.
Proof.
  induction 1 as [|s out s' out' _ IH Hstep]; [apply rz_new_inv|].
  destruct Hstep; eauto with p2p.
Qed.

(** The rendezvous table never exceeds its limits: in every reachable
    state there are at most 256 live attempts, at most 8 per pair, at most 32
    timestamps per rate window and at most 8 waiters per attempt, an answered
    attempt has no waiters, and the response kept for replay carries the
    attempt's own sequence and never a predicted endpoint. *)
Theorem rendezvous_invariant test probe s out : rz_run test probe s out -> rz_inv s.
Proof. apply rz_run_inv. Qed.

(** ** Retries of one request *)

Lemma cleanup_keeps now s k e :
  entries s !! k = Some e -> now < e_expires_at e ->
  entries (snd (cleanup now s)) !! k = Some e.
Proof. intros Hk Hn. simpl. by apply map_lookup_filter_Some. Qed.

Lemma cleanup_drops now s k e :
  entries s !! k = Some e -> e_expires_at e <= now ->
  entries (snd (cleanup now s)) !! k = None.
Proof.
  intros Hk Hn. simpl. apply map_lookup_filter_None. right. intros e' He'. simplify_eq.
  unfold live; simpl. lia.
Qed.

(** What a request meets when its key is live: it is never admitted as new. *)
Definition retry_outcome (e : RendezvousEntry) (r : SnTunnelRendezvous) (c : Chan)
    : P2pResult RendezvousBegin :=
  if negb (rendezvous_eqb (e_request e) r) then Err P2pErrorCode.Conflict
  else match e_response e with
       | Some resp => Ok (BeginCached resp)
       | None => if (MAX_INFLIGHT_WAITERS_PER_ATTEMPT <=? length (e_waiters e))%nat
                 then Err P2pErrorCode.OutOfLimit else Ok (BeginInFlight c)
       end.

Lemma begin_retry i r now s e :
  entries s !! key_new i r = Some e -> now < e_expires_at e ->
  fst (fst (begin i r now s)) = retry_outcome e r (next_chan s).
Proof.
  intros Hk Hn. unfold begin, retry_outcome. pose proof (cleanup_keeps now s _ _ Hk Hn) as Hc.
  assert (Hx : next_chan (snd (cleanup now s)) = next_chan s) by done.
  destruct (cleanup now s) as [out0 s0]; cbn [snd] in Hc, Hx. rewrite Hc, <-Hx.
  destruct (negb _); [done|]. destruct (e_response e); [done|]. by destruct (_ <=? _)%nat.
Qed.

(** A retried request is executed once: after a validated response was
    stored, the same request is answered from the stored copy for the rest of
    the attempt's lifetime, with a failure in place of a prediction, which is
    not replayed; every waiter of the attempt got the full response; and until
    the attempt expires a begin on its key is never admitted as new. *)
Theorem rendezvous_replay test probe i r resp now s e out s' :
  entries s !! key_new i r = Some e ->
  cache_response test probe i r resp now s = (Ok tt, out, s') ->
  out = answer_all (e_waiters e) (Ok resp)
  /\ (forall now', now' < e_expires_at e ->
        fst (fst (begin i r now' s'))
        = Ok (BeginCached (if rq_need_predict_endpoint r then resp_failure (rq_seq r) else resp)))
  /\ (forall r' now', key_new i r' = key_new i r -> now' < e_expires_at e ->
        fst (fst (begin i r' now' s')) <> Ok BeginNew).
Proof.
  intros Hk. unfold cache_response. rewrite Hk. intros H.
  destruct (e_expires_at e <=? now); [done|].
  destruct (negb (rendezvous_eqb (e_request e) r)) eqn:Eq; [done|].
  destruct (resp_validate _ _ _ _ _) as [[]|] eqn:Hv; simplify_eq. split; [done|].
  split.
  - intros now' Hn. erewrite begin_retry; [|simpl; apply lookup_insert_eq|done].
    unfold retry_outcome. simpl. by rewrite Eq.
  - intros r' now' Hkey Hn. erewrite begin_retry; [|simpl; rewrite Hkey; apply lookup_insert_eq|done].
    unfold retry_outcome. simpl. by case_match.
Qed.

(** ** Rate limiting *)

(** The history of one initiator: the times at which a begin of his was
    admitted, under a clock that does not run backwards; the peer's removal,
    which resets the window, is the only operation excluded. *)
Inductive rate_history (test : bool) (probe : Endpoint -> Endpoint -> bool) (i : P2pId)
    : list Timestamp -> Timestamp -> RendezvousState -> Prop :=
| rh_start : rate_history test probe i [] 0 rendezvous_state_new
| rh_admit ts t s r now out s' :
    rate_history test probe i ts t s -> t <= now -> is_u64 now ->
    begin i r now s = (Ok BeginNew, out, s') -> rate_history test probe i (ts ++ [now]) now s'
| rh_begin ts t s j r now res out s' :
    rate_history test probe i ts t s -> t <= now -> is_u64 now ->
    begin j r now s = (res, out, s') -> (j <> i \/ res <> Ok BeginNew) ->
    rate_history test probe i ts now s'
| rh_cache ts t s j r resp now res out s' :
    rate_history test probe i ts t s ->
    cache_response test probe j r resp now s = (res, out, s') -> rate_history test probe i ts t s'
| rh_fail ts t s j r out s' :
    rate_history test probe i ts t s ->
    fail_unanswered j r s = (out, s') -> rate_history test probe i ts t s'
| rh_remove ts t s p out s' :
    rate_history test probe i ts t s -> p <> i ->
    remove_peer p s = (out, s') -> rate_history test probe i ts t s'.

Lemma pop_old_twice t now ts : t <= now -> pop_old now (pop_old t ts) = pop_old now ts.
Proof.
  intros Ht. induction ts as [|x ts IH]; simpl; [done|]. destruct (Z.ltb_spec (saturating_add x RATE_WINDOW) t).
  - rewrite IH. destruct (Z.ltb_spec (saturating_add x RATE_WINDOW) now); [done|lia].
  - done.
Qed.

Definition window (i : P2pId) (s : RendezvousState) : list Timestamp := default [] (rate_windows s !! i).

Lemma window_cleanup i now s : window i (snd (cleanup now s)) = pop_old now (window i s).
Proof.
  unfold window. simpl. rewrite lookup_omap. destruct (rate_windows s !! i) as [ts|]; simpl; [|done].
  by destruct (pop_old now ts).
Qed.

Lemma window_begin i j r now s res out s' :
  begin j r now s = (res, out, s') ->
  (j = i /\ res = Ok BeginNew /\ window i s' = pop_old now (window i s) ++ [now]
     /\ (length (pop_old now (window i s)) < MAX_REQUESTS_PER_INITIATOR_WINDOW)%nat)
  \/ ((j <> i \/ res <> Ok BeginNew) /\ window i s' = pop_old now (window i s)).
Proof.
  unfold begin. pose proof (window_cleanup i now s) as Hw.
  destruct (cleanup now s) as [out0 s0]; cbn [snd] in Hw. intros H.
  assert (Hp : pop_old now (default [] (rate_windows s0 !! i)) = pop_old now (window i s)).
  { fold (window i s0). rewrite Hw. by apply pop_old_twice. }
  destruct (entries s0 !! key_new j r) as [e|].
  { right. destruct (negb _); [by simplify_eq; auto|]. destruct (e_response e); [by simplify_eq; auto|].
    destruct (_ <=? _)%nat; simplify_eq; auto. }
  destruct (_ || _); [right; by simplify_eq; auto|].
  destruct (decide (j = i)) as [->|Hne].
  - rewrite Hp in H. destruct (_ <=? length _)%nat eqn:El; simplify_eq; [right|left];
      unfold window; simpl; rewrite lookup_insert_eq; simpl; [by auto|].
    apply Nat.leb_gt in El. done.
  - right. split; [by auto|]. rewrite <-Hw. unfold window.
    by destruct (_ <=? length _)%nat; simplify_eq; simpl; rewrite lookup_insert_ne.
Qed.

(** The admissions of an interval of the window's length. *)
Definition in_interval (x y : Timestamp) : Prop := x <= y <= x + RATE_WINDOW.
#[global] Instance in_interval_dec x y : Decision (in_interval x y).
Proof. apply and_dec; apply _. Defined.

Lemma interval_le_window x now ts :
  is_u64 now -> now <= x + RATE_WINDOW ->
  (length (filter (in_interval x) ts) <= length (pop_old now ts))%nat.
Proof.
  intros Hu Hx. induction ts as [|y ts IH]; simpl; [done|].
  destruct (Z.ltb_spec (saturating_add y RATE_WINDOW) now) as [Hy|Hy].
  - rewrite filter_cons_False; [done|]. unfold in_interval, saturating_add, is_u64 in *. lia.
  - apply length_filter.
Qed.

Lemma rate_history_window test probe i ts t s :
  rate_history test probe i ts t s -> pop_old t (window i s) = pop_old t ts.
Proof.
  induction 1 as [|ts t s r now out s' _ IH Ht Hu Hb|ts t s j r now res out s' _ IH Ht Hu Hb Hor
    |ts t s j r resp now res out s' _ IH Hb|ts t s j r out s' _ IH Hb|ts t s p out s' _ IH Hp Hb]; [done|..].
  - apply (window_begin i) in Hb as [(_ & _ & -> & _)|([?|?] & _)]; [|done..].
    assert (Hs : forall l, pop_old now (pop_old now l ++ [now]) = pop_old now (l ++ [now])).
    { induction l as [|y l IHl]; simpl; [done|]. destruct (saturating_add y RATE_WINDOW <? now) eqn:E; [done|].
      simpl. by rewrite E. }
    rewrite <-(pop_old_twice t now (window i s)), IH, pop_old_twice by done. apply Hs.
  - apply (window_begin i) in Hb as [(? & ? & _)|[_ ->]]; [naive_solver|].
    rewrite pop_old_twice by done. rewrite <-(pop_old_twice t now (window i s)), IH by done.
    by apply pop_old_twice.
  - rewrite <-IH. f_equal. unfold cache_response in Hb. by repeat (case_match; simplify_eq/=).
  - rewrite <-IH. f_equal. unfold fail_unanswered in Hb. by repeat (case_match; simplify_eq/=).
  - rewrite <-IH. f_equal. unfold remove_peer in Hb. simplify_eq. unfold window. simpl.
    by rewrite lookup_delete_ne.
Qed.

(** The rate limit holds as a sliding window: whatever other operations
    interleave, as long as the clock does not run backwards and the initiator
    is not removed, no interval of sixty seconds contains more than 32 admitted
    requests of one initiator. *)
Theorem rendezvous_rate_limit test probe i ts t s :
  rate_history test probe i ts t s ->
  forall x, (length (filter (in_interval x) ts) <= MAX_REQUESTS_PER_INITIATOR_WINDOW)%nat.
Proof.
  induction 1 as [|ts t s r now out s' Hh IH Ht Hu Hb| | | |]; intros x; try done; [simpl; lia|].
  apply (window_begin i) in Hb as [(_ & _ & _ & Hlt)|([?|?] & _)]; [|done..].
  rewrite filter_app, length_app. destruct (decide (in_interval x now)) as [Hin|Hin].
  - rewrite (filter_cons_True _ _ _ Hin). simpl.
    pose proof (interval_le_window x now ts Hu (proj2 Hin)) as Hle.
    apply rate_history_window in Hh.
    rewrite <-(pop_old_twice t now (window i s)), Hh, pop_old_twice in Hlt by done. lia.
  - rewrite (filter_cons_False _ _ _ Hin). simpl. rewrite Nat.add_0_r. apply IH.
Qed.

(** ** A concrete run *)

Definition peer_a : P2pId := mkP2pId [10].
Definition run_resp : SnTunnelRendezvousResp :=
  resp_success 7 [mkEndpoint ServerReflexive Quic (V4 (mkV4 203 0 113 9) 4000)].
Definition run_1 : RendezvousState := snd (begin peer_a sample_request 1000 rendezvous_state_new).
Definition run_2 : RendezvousState := snd (begin peer_a sample_request 2000 run_1).
Definition run_3 : P2pResult unit * list Answer * RendezvousState :=
  cache_response false (fun _ _ => true) peer_a sample_request run_resp 3000 run_2.

Lemma run_2_reachable : rz_run false (fun _ _ => true) run_2 [].
Proof.
  apply (rz_next _ _ run_1 [] _ []).
  - apply (rz_next _ _ rendezvous_state_new [] _ []); [apply rz_start|].
    by apply (rz_begin _ _ peer_a sample_request 1000 _ (Ok BeginNew)).
  - by apply (rz_begin _ _ peer_a sample_request 2000 _ (Ok (BeginInFlight 0%nat))).
Qed.

Lemma run_3_reachable : rz_run false (fun _ _ => true) (snd run_3) [(0%nat, Ok run_resp)].
Proof.
  apply (rz_next _ _ run_2 [] _ [(0%nat, Ok run_resp)]); [apply run_2_reachable|].
  by apply (rz_cache _ _ peer_a sample_request run_resp 3000 _ (Ok tt)).
Qed.

Lemma rendezvous_waiters_exactly_once_witness :
  pending_of (entries (snd run_3)) ++ [0%nat] ≡ₚ seq 0 (next_chan (snd run_3))
  /\ NoDup (pending_of (entries (snd run_3)) ++ [0%nat]).
Proof. exact (rendezvous_waiters_exactly_once _ _ _ _ run_3_reachable). Defined.

Lemma rendezvous_invariant_witness : rz_inv (snd run_3).
Proof. exact (rendezvous_invariant _ _ _ _ run_3_reachable). Defined.

Lemma rendezvous_replay_witness :
  fst (fst (begin peer_a sample_request 30000999 (snd run_3))) = Ok (BeginCached (resp_failure 7)).
Proof.
  destruct (rendezvous_replay false (fun _ _ => true) peer_a sample_request run_resp 3000 run_2
    (mkEntry sample_request 30001000 None [0%nat]) [(0%nat, Ok run_resp)] (snd run_3)) as (_ & H & _);
    [by vm_compute..|]. by apply H.
Defined.

Lemma rendezvous_rate_limit_witness :
  (length (filter (in_interval 500) [1000%Z]) <= MAX_REQUESTS_PER_INITIATOR_WINDOW)%nat.
Proof.
  apply (rendezvous_rate_limit false (fun _ _ => true) peer_a [1000%Z] 1000 run_1).
  apply (rh_admit _ _ _ [] 0 rendezvous_state_new sample_request 1000 [] run_1);
    [apply rh_start|lia|unfold is_u64, u64_max; lia|by vm_compute].
Defined.
