(* ===== verification/Membership.v ===== *)
(** * Owner membership and the owner set of a peer
      (src/p2p-frame/src/sn/directory/membership.rs, mod.rs)

    The sorted, deduplicated member list, the highest-random-weight choice of
    the owners of a peer, and the health table that filters it.  The score of a
    member for a peer is what [DefaultHasher] computes: the theorems hold for
    every score function. *)

From stdpp Require Import strings.
From S2P Require Import Prelude Errors Ids Endpoint NatType.

Definition DEFAULT_OWNER_COUNT : nat := 1.
Definition DEFAULT_LEASE_TTL : Duration := from_secs 300.
Definition DEFAULT_OWNER_MEMBER_HEALTH_TTL : Duration := from_secs 60.

(** ** Leases *)

Record ServingLease := mkLease {
  sl_peer_id : P2pId;
  sl_serving_sn_id : P2pId;
  sl_sequence : Z;
  sl_expires_at : Timestamp;
}.

Definition lease_new (peer_id serving_sn_id : P2pId) (sequence : Z) (ttl : Duration)
    (now : Timestamp) : ServingLease :=
  mkLease peer_id serving_sn_id sequence (saturating_add now (duration_to_bucky_time ttl)).

Definition lease_is_fresh (l : ServingLease) (now : Timestamp) : bool := now <? sl_expires_at l.

(** ** Members *)

Record OwnerMember := mkMember {
  sn_id : P2pId;
  om_endpoints : list Endpoint;
  om_name : option string;
}.

Definition member_new (id : P2pId) : OwnerMember := mkMember id [] None.
Definition member_with_endpoint (id : P2pId) (ep : Endpoint) : OwnerMember := mkMember id [ep] None.

Record OwnerMembership := mkMembership {
  members : list OwnerMember;
  owner_count : nat;
  lease_ttl : Duration;
  member_health_ttl : Duration;
}.

(** [left.sn_id.cmp(&right.sn_id)] is not [Greater]. *)
Definition member_le (a b : OwnerMember) : bool := cmp_le P2pId_cmp (sn_id a) (sn_id b).
Definition same_member (a b : OwnerMember) : bool := bool_decide (sn_id a = sn_id b).

Definition with_members (ms : list OwnerMember) (owner_count : nat) (lease_ttl : Duration)
    : P2pResult OwnerMembership :=
  let ms := dedup_by same_member (sort_by member_le ms) in
  if bool_decide (ms = []) then Err P2pErrorCode.InvalidParam
  else Ok (mkMembership ms (Nat.max owner_count 1) lease_ttl
             (Z.min lease_ttl DEFAULT_OWNER_MEMBER_HEALTH_TTL)).

Definition with_options (ids : list P2pId) (owner_count : nat) (lease_ttl : Duration)
    : P2pResult OwnerMembership :=
  with_members (member_new <$> ids) owner_count lease_ttl.

Definition membership_new (ids : list P2pId) : P2pResult OwnerMembership :=
  with_members (member_new <$> ids) DEFAULT_OWNER_COUNT DEFAULT_LEASE_TTL.

Definition member (m : OwnerMembership) (id : P2pId) : option OwnerMember :=
  List.find (fun x => bool_decide (sn_id x = id)) (members m).

Definition member_ids (m : OwnerMembership) : list P2pId := sn_id <$> members m.

(** ** Health of the members *)

Record OwnerMemberHealth := mkHealth { health_ttl : Duration; fresh_until : gmap P2pId Timestamp }.

Definition health_new (ttl : Duration) : OwnerMemberHealth := mkHealth ttl ∅.

Definition refresh_at (id : P2pId) (now : Timestamp) (h : OwnerMemberHealth) : OwnerMemberHealth :=
  mkHealth (health_ttl h)
    (<[id := saturating_add now (duration_to_bucky_time (health_ttl h))]> (fresh_until h)).

Definition health_is_fresh (h : OwnerMemberHealth) (id : P2pId) (now : Timestamp) : bool :=
  match fresh_until h !! id with Some t => now <? t | None => false end.

Definition health_with_members (ms : list OwnerMember) (ttl : Duration) (now : Timestamp)
    : OwnerMemberHealth :=
  foldl (fun h m => refresh_at (sn_id m) now h) (health_new ttl) ms.

(** [Duration::from_micros(delta.max(1))]. *)
Definition bucky_time_to_duration (delta : Timestamp) : Duration := from_micros (Z.max delta 1).

(** ** The resolver *)

Section resolver.
(** [owner_score peer member], the digest of the two identifiers. *)
Context (owner_score : P2pId -> P2pId -> Z).

Definition scored_cmp (l r : Z * P2pId) : comparison :=
  then_with (fst r ?= fst l) (P2pId_cmp (snd l) (snd r)).

(** [map], [sort_by] by descending score, then by identifier. *)
Definition ranking (peer : P2pId) (ids : list P2pId) : list P2pId :=
  snd <$> sort_by (cmp_le scored_cmp) ((fun id => (owner_score peer id, id)) <$> ids).

Definition static_owner_set (m : OwnerMembership) (peer : P2pId) : list P2pId :=
  take (owner_count m `min` length (members m)) (ranking peer (member_ids m)).

Definition owner_set_at (membership : option OwnerMembership) (peer local : P2pId)
    (health : option OwnerMemberHealth) (now : Timestamp) : list P2pId :=
  match membership with
  | None => [local]
  | Some m =>
      match health with
      | Some h => filter (fun id => bool_decide (id = local) || health_is_fresh h id now)
                    (static_owner_set m peer)
      | None => static_owner_set m peer
      end
  end.
End resolver.

Definition resolver_lease_ttl (membership : option OwnerMembership) : Duration :=
  match membership with Some m => lease_ttl m | None => DEFAULT_LEASE_TTL end.

Definition has_member (membership : option OwnerMembership) (id : P2pId) : bool :=
  match membership with Some m => bool_decide (is_Some (member m id)) | None => false end.

(** ** The member list is canonical *)

Definition id_lt (a b : P2pId) : Prop := P2pId_cmp a b = Lt.

Record membership_wf (m : OwnerMembership) : Prop := {
  mw_sorted : StronglySorted id_lt (member_ids m);
  mw_nonempty : members m <> [];
  mw_owner_count : (1 <= owner_count m)%nat;
  mw_health : member_health_ttl m <= lease_ttl m /\ member_health_ttl m <= DEFAULT_OWNER_MEMBER_HEALTH_TTL;
}.

Lemma member_le_total a b : member_le a b = true \/ member_le b a = true.
Proof. apply (cmp_le_total P2pId_cmp). Qed.
Lemma member_le_trans a b c : member_le a b = true -> member_le b c = true -> member_le a c = true.
Proof. apply (cmp_le_trans P2pId_cmp). Qed.

Lemma member_le_lt a b : member_le a b = true -> sn_id a <> sn_id b -> id_lt (sn_id a) (sn_id b).
Proof.
  unfold member_le, cmp_le, id_lt. destruct (P2pId_cmp _ _) eqn:E; try done.
  apply (cmp_eq P2pId_cmp) in E. done.
Qed.

(** After sorting, [dedup_by] leaves a strictly increasing list. *)
Lemma dedup_after_sorted x l :
  StronglySorted (fun a b => member_le a b = true) (x :: l) ->
  StronglySorted id_lt (sn_id x :: (sn_id <$> dedup_after same_member x l)).
Proof.
  revert x. induction l as [|y l IH]; intros x Hs; simpl; [by repeat constructor|].
  apply StronglySorted_inv in Hs as [Hyl Hx]. apply Forall_cons in Hx as [Hxy Hxl].
  unfold same_member at 1. case_bool_decide as Heq.
  - apply IH. apply StronglySorted_inv in Hyl as [Hl Hy]. by constructor.
  - specialize (IH y Hyl). simpl. pose proof (member_le_lt x y Hxy ltac:(congruence)) as Hlt.
    constructor; [done|]. constructor; [done|].
    apply StronglySorted_inv in IH as [_ IH]. eapply Forall_impl; [exact IH|].
    intros z Hz. by eapply (cmp_lt_trans P2pId_cmp).
Qed.

(** Removing repetitions keeps the set of identifiers. *)
Lemma dedup_after_ids x l id :
  id ∈ sn_id x :: (sn_id <$> dedup_after same_member x l) <-> id ∈ sn_id x :: (sn_id <$> l).
Proof.
  revert x. induction l as [|y l IH]; intros x; simpl; [done|].
  unfold same_member at 1. case_bool_decide as Heq.
  - rewrite IH. rewrite Heq. set_solver.
  - simpl. specialize (IH y). set_solver.
Qed.

Lemma with_members_ids ms n ttl m :
  with_members ms n ttl = Ok m ->
  (forall id, id ∈ member_ids m <-> id ∈ sn_id <$> ms) /\ membership_wf m.
Proof.
  unfold with_members. case_bool_decide as Hne; [done|]. intros [= <-].
  pose proof (sort_by_sorted member_le member_le_total member_le_trans ms) as Hs.
  assert (Hids : forall id, id ∈ sn_id <$> sort_by member_le ms <-> id ∈ sn_id <$> ms).
  { intros id. by rewrite (sort_by_perm member_le ms). }
  unfold member_ids, dedup_by in *. simpl in *.
  destruct (sort_by member_le ms) as [|x l] eqn:E; [done|]. split.
  - intros id. rewrite <-Hids. apply dedup_after_ids.
  - split; simpl; try done; [by apply dedup_after_sorted|lia|lia].
Qed.

Lemma sorted_NoDup l : StronglySorted id_lt l -> NoDup l.
Proof.
  induction 1 as [|x l _ IH Hx]; constructor; [|done]. intros Hin.
  rewrite Forall_forall in Hx. specialize (Hx _ Hin). unfold id_lt in Hx.
  by rewrite (cmp_refl P2pId_cmp) in Hx.
Qed.

Lemma sorted_ids_unique l k :
  StronglySorted id_lt l -> StronglySorted id_lt k -> (forall x, x ∈ l <-> x ∈ k) -> l = k.
Proof.
  intros Hl Hk Hin. apply (StronglySorted_unique_strong id_lt); [|done..|].
  - intros x1 x2 _ _ H1 H2. pose proof (cmp_lt_trans P2pId_cmp _ _ _ H1 H2) as H.
    by rewrite (cmp_refl P2pId_cmp) in H.
  - apply NoDup_Permutation; auto using sorted_NoDup.
Qed.

(** ** The first description of a member wins *)

Definition has_id (id : P2pId) (x : OwnerMember) : bool := bool_decide (sn_id x = id).

Lemma find_sorted_insert id x l :
  List.find (has_id id) (sorted_insert member_le x l) = List.find (has_id id) (x :: l).
Proof.
  induction l as [|y l IH]; [done|]. cbn [sorted_insert]. destruct (member_le x y) eqn:E; [done|].
  simpl in *. rewrite IH. destruct (has_id id x) eqn:Hx, (has_id id y) eqn:Hy; try done.
  unfold has_id in *. bool_to_prop. unfold member_le, cmp_le in E.
  by rewrite Hx, Hy, (cmp_refl P2pId_cmp) in E.
Qed.

Lemma find_sort id l : List.find (has_id id) (sort_by member_le l) = List.find (has_id id) l.
Proof.
  induction l as [|x l IH]; [done|]. simpl sort_by. rewrite find_sorted_insert. simpl. by rewrite IH.
Qed.

Lemma find_dedup_after id x l :
  has_id id x = false ->
  List.find (has_id id) (dedup_after same_member x l) = List.find (has_id id) l.
Proof.
  revert x. induction l as [|y l IH]; intros x Hx; simpl; [done|].
  unfold same_member at 1. case_bool_decide as Heq.
  - rewrite IH by done. unfold has_id in *. by rewrite Heq, Hx.
  - simpl. destruct (has_id id y) eqn:E; [done|]. by apply IH.
Qed.

Lemma find_dedup id l : List.find (has_id id) (dedup_by same_member l) = List.find (has_id id) l.
Proof.
  destruct l as [|x l]; simpl; [done|]. destruct (has_id id x) eqn:E; [done|]. by apply find_dedup_after.
Qed.

(** The membership is canonical: building it fails exactly on an empty
    member list; otherwise the members are strictly sorted by identifier,
    hence distinct, they are the given identifiers, each with the description
    given first for it, and the owner count is at least one and the health
    time-to-live at most the lease's. *)
Theorem with_members_canonical ms n ttl :
  match with_members ms n ttl with
  | Err e => ms = [] /\ e = P2pErrorCode.InvalidParam
  | Ok m => ms <> [] /\ membership_wf m
            /\ (forall id, id ∈ member_ids m <-> id ∈ sn_id <$> ms)
            /\ (forall id, member m id = List.find (has_id id) ms)
  end.
Proof.
  destruct (with_members ms n ttl) as [m|e] eqn:E.
  - pose proof (with_members_ids _ _ _ _ E) as [Hids Hwf]. split_and!; [|done|done|].
    + intros ->. by vm_compute in E.
    + intros id. unfold with_members in E. case_bool_decide; [done|]. injection E as <-.
      unfold member. simpl. fold (has_id id). by rewrite find_dedup, find_sort.
  - unfold with_members in E. case_bool_decide as Hnil; [|done]. injection E as <-. split; [|done].
    apply (f_equal length) in Hnil. pose proof (sort_by_length member_le ms) as Hl.
    destruct (sort_by member_le ms); [|done]. by destruct ms.
Qed.

(** ** Highest random weight *)

#[global] Instance scored_cmp_total : TotalCompare scored_cmp.
Proof.
  unfold scored_cmp. split.
  - intros [s x] [t y]; simpl. rewrite then_with_Eq, Z.compare_eq_iff, (cmp_eq P2pId_cmp). naive_solver.
  - intros [s x] [t y]; simpl. by rewrite then_with_opp, <-(cmp_opp P2pId_cmp), <-Z.compare_antisym.
  - intros [s x] [t y] [u z]; simpl. rewrite !then_with_Lt, !Z.compare_lt_iff, !Z.compare_eq_iff.
    intros [?|[-> H1]] [?|[-> H2]]; [left; lia..|]. right; split; [done|].
    by eapply (cmp_lt_trans P2pId_cmp).
Qed.

Lemma sorted_filter {A} (R : A -> A -> Prop) (P : A -> Prop) `{!forall x, Decision (P x)} l :
  StronglySorted R l -> StronglySorted R (filter P l).
Proof.
  induction 1 as [|x l Hl IH Hx]; [constructor|]. rewrite filter_cons. case_decide; [|done].
  constructor; [done|]. rewrite Forall_forall in *. intros y [_ Hy]%list_elem_of_filter. by apply Hx.
Qed.

Section hrw.
Context (score : P2pId -> P2pId -> Z) (peer : P2pId).

Notation scored ids := ((fun id => (score peer id, id)) <$> ids).
Notation rank := (ranking score peer).

(** [outranks a b]: [a] is preferred to [b] as an owner of the peer. *)
Definition outranks (a b : P2pId) : Prop :=
  scored_cmp (score peer a, a) (score peer b, b) <> Gt.

Lemma outranks_antisym a b : outranks a b -> outranks b a -> a = b.
Proof.
  unfold outranks. rewrite (cmp_opp scored_cmp (score peer a, a)).
  destruct (scored_cmp (score peer a, a) (score peer b, b)) eqn:E; try done.
  apply (cmp_eq scored_cmp) in E. by simplify_eq.
Qed.

Lemma ranking_perm ids : rank ids ≡ₚ ids.
Proof.
  unfold ranking. rewrite (sort_by_perm (cmp_le scored_cmp)), <-list_fmap_compose.
  by rewrite list_fmap_id.
Qed.

Lemma ranking_sorted ids : StronglySorted outranks (rank ids).
Proof.
  unfold ranking.
  pose proof (sort_by_sorted (cmp_le scored_cmp) (cmp_le_total scored_cmp)
    (cmp_le_trans scored_cmp) (scored ids)) as Hs.
  assert (Hall : Forall (fun p => fst p = score peer (snd p))
    (sort_by (cmp_le scored_cmp) (scored ids))).
  { rewrite (sort_by_perm (cmp_le scored_cmp)). apply Forall_fmap, Forall_true. done. }
  induction Hs as [|p l Hl IH Hp]; [constructor|]. apply Forall_cons in Hall as [Hx Hall].
  simpl. constructor; [by apply IH|]. apply Forall_fmap.
  eapply Forall_impl; [apply Forall_and; split; [exact Hp|exact Hall]|].
  intros q [Hle Hq]. unfold outranks. simpl. rewrite <-Hx, <-Hq, <-!surjective_pairing.
  unfold cmp_le in Hle. by destruct (scored_cmp p q).
Qed.

(** The ranking is determined by the set of identifiers. *)
Lemma ranking_unique ids l :
  l ≡ₚ ids -> StronglySorted outranks l -> rank ids = l.
Proof.
  intros Hp Hl. apply (StronglySorted_unique_strong outranks); [|apply ranking_sorted|done|].
  - intros x y _ _. apply outranks_antisym.
  - by rewrite ranking_perm, Hp.
Qed.

Lemma ranking_filter (P : P2pId -> Prop) `{!forall x, Decision (P x)} ids :
  rank (filter P ids) = filter P (rank ids).
Proof.
  apply ranking_unique; [by rewrite ranking_perm|].
  apply sorted_filter, ranking_sorted.
Qed.

Lemma owner_set_take m : static_owner_set score m peer = take (owner_count m) (rank (member_ids m)).
Proof.
  unfold static_owner_set. rewrite <-take_take, (take_ge _ (length (members m))); [done|].
  rewrite ranking_perm. unfold member_ids. by rewrite length_fmap.
Qed.
End hrw.

(** Filtering the best [n] keeps a prefix of the filtered ranking. *)
Lemma filter_take_incl {A} (P : A -> Prop) `{!forall x, Decision (P x)} n l x :
  x ∈ filter P (take n l) -> x ∈ take n (filter P l).
Proof.
  revert n. induction l as [|y l IH]; intros [|n]; try done. simpl.
  rewrite !filter_cons. case_decide; simpl.
  - rewrite !elem_of_cons. intros [->|Hx]; [by left|right; by apply IH].
  - intros (i & Hi & Hlt)%IH%elem_of_take. apply elem_of_take. exists i. split; [done|lia].
Qed.

Lemma filter_all {A} (P : A -> Prop) `{!forall x, Decision (P x)} (l : list A) :
  (forall x, x ∈ l -> P x) -> filter P l = l.
Proof.
  induction l as [|y l IH]; intros Hall; [done|].
  rewrite filter_cons_True by (apply Hall; set_solver). f_equal. apply IH. set_solver.
Qed.

Lemma take_filter_all {A} (P : A -> Prop) `{!forall x, Decision (P x)} n l :
  (forall x, x ∈ take n l -> P x) -> take n (filter P l) = take n l.
Proof.
  revert n. induction l as [|y l IH]; intros [|n] Hall; try done. simpl in *.
  rewrite filter_cons_True by (apply Hall; set_solver). simpl. f_equal. apply IH. set_solver.
Qed.

Lemma take_filter_ne {A} `{EqDecision A} (g : A) n l x :
  NoDup l -> x ∈ take n (filter (fun y => y <> g) l) -> x ∈ take (S n) l.
Proof.
  intros Hnd. revert n. induction Hnd as [|y l Hy _ IH]; intros n; [destruct n; by intros ?%elem_of_nil|].
  rewrite filter_cons. case_decide as Hd.
  - destruct n as [|n]; [by intros ?%elem_of_nil|]. simpl. rewrite !elem_of_cons.
    intros [->|Hx]; [by left|right]. by apply IH.
  - subst y. intros Hx. simpl. right.
    rewrite filter_all in Hx; [done|]. set_solver.
Qed.

Lemma member_ids_determined ms ms' n ttl m m' :
  with_members ms n ttl = Ok m -> with_members ms' n ttl = Ok m' ->
  (forall id, id ∈ sn_id <$> ms <-> id ∈ sn_id <$> ms') ->
  member_ids m = member_ids m' /\ owner_count m = owner_count m'.
Proof.
  intros H H' Hin. pose proof (with_members_ids _ _ _ _ H) as [Hi Hw].
  pose proof (with_members_ids _ _ _ _ H') as [Hi' Hw']. split.
  - apply sorted_ids_unique; [apply Hw|apply Hw'|]. intros x. by rewrite Hi, Hi'.
  - unfold with_members in *. by repeat (case_bool_decide; simplify_eq/=).
Qed.

(** The owner set of a peer is the set of its best-scoring members: it
    has no repetitions, it has owner_count elements or all members, every
    owner is preferred (score descending, then identifier) to every member
    that is not one, and it depends only on the set of member identifiers, not
    on the order or repetition in which they are configured. *)
Theorem owner_set_is_top_n score peer ms n ttl m :
  with_members ms n ttl = Ok m ->
  let owners := static_owner_set score m peer in
  NoDup owners
  /\ length owners = (owner_count m `min` length (members m))%nat
  /\ (forall o, o ∈ owners -> o ∈ sn_id <$> ms)
  /\ (forall o x, o ∈ owners -> x ∈ sn_id <$> ms -> x ∉ owners -> outranks score peer o x)
  /\ (forall ms' m', with_members ms' n ttl = Ok m' ->
        (forall id, id ∈ sn_id <$> ms <-> id ∈ sn_id <$> ms') ->
        static_owner_set score m' peer = owners).
Proof.
  intros H owners. pose proof (with_members_ids _ _ _ _ H) as [Hids Hwf].
  assert (Hnd : NoDup (ranking score peer (member_ids m))).
  { rewrite ranking_perm. apply sorted_NoDup, Hwf. }
  unfold owners. rewrite owner_set_take. split_and!.
  - eapply sublist_NoDup; [exact Hnd|apply sublist_take].
  - rewrite length_take, ranking_perm. unfold member_ids. by rewrite length_fmap.
  - intros o (i & Hi%list_elem_of_lookup_2 & _)%elem_of_take. by rewrite ranking_perm, Hids in Hi.
  - intros o x Ho Hx Hnx. rewrite <-Hids, <-(ranking_perm score peer (member_ids m)) in Hx.
    pose proof (ranking_sorted score peer (member_ids m)) as Hs.
    rewrite <-(take_drop (owner_count m) (ranking score peer (member_ids m))) in Hs, Hx.
    apply elem_of_app in Hx as [?|Hx]; [done|].
    apply StronglySorted_app in Hs as (Hs & _ & _). by apply Hs.
  - intros ms' m' H' Hin. destruct (member_ids_determined _ _ _ _ _ _ H H' Hin) as [Hm Hc].
    by rewrite owner_set_take, <-Hm, <-Hc.
Qed.

(** Removing one SN disrupts as little as rendezvous hashing promises:
    the owner set of a peer it did not own is unchanged; the owners other than
    it remain owners; at most one member becomes an owner in its place. *)
Theorem owner_set_minimal_disruption score peer gone ms n ttl m m' :
  with_members ms n ttl = Ok m ->
  with_members (filter (fun x => sn_id x <> gone) ms) n ttl = Ok m' ->
  let before := static_owner_set score m peer in
  let after := static_owner_set score m' peer in
  (gone ∉ before -> after = before)
  /\ (forall o, o ∈ before -> o <> gone -> o ∈ after)
  /\ exists y, forall o, o ∈ after -> o ∈ before \/ o = y.
Proof.
  intros H H'. pose proof (with_members_ids _ _ _ _ H) as [Hids Hwf].
  pose proof (with_members_ids _ _ _ _ H') as [Hids' Hwf'].
  assert (Hm : member_ids m' = filter (fun x => x <> gone) (member_ids m)).
  { apply sorted_ids_unique; [apply Hwf'| |].
    - apply sorted_filter, Hwf.
    - intros x. rewrite Hids', list_elem_of_filter, Hids, !list_elem_of_fmap.
      split; [intros (z & -> & [? ?]%list_elem_of_filter); eauto|].
      intros (? & z & -> & ?). exists z. split; [done|]. by apply list_elem_of_filter. }
  assert (Hc : owner_count m' = owner_count m)
    by (unfold with_members in *; by repeat (case_bool_decide; simplify_eq/=)).
  assert (Hnd : NoDup (ranking score peer (member_ids m))).
  { rewrite ranking_perm. apply sorted_NoDup, Hwf. }
  cbn zeta. rewrite !owner_set_take, Hm, Hc, (ranking_filter score peer (fun x => x <> gone)).
  set (l := ranking score peer (member_ids m)) in *. set (k := owner_count m). split_and!.
  - intros Hg. apply take_filter_all. intros x Hx ->. done.
  - intros o Ho Hne. apply filter_take_incl. by apply list_elem_of_filter.
  - exists (default gone (l !! k)). intros o Ho%take_filter_ne; [|done].
    apply elem_of_take in Ho as (i & Hi & Hlt). destruct (decide (i = k)) as [->|].
    + right. by rewrite Hi.
    + left. apply elem_of_take. exists i. split; [done|lia].
Qed.

(** An owner that is not the local SN is offered only while it is
    healthy: after a history of refreshes it is in the health-filtered owner
    set exactly when it is a static owner and its last refresh is younger than
    the health time-to-live; the local SN is never filtered out. *)
Theorem owner_set_health score m peer local h id t now :
  id <> local ->
  (id ∈ owner_set_at score (Some m) peer local (Some (refresh_at id t h)) now
   <-> id ∈ static_owner_set score m peer
       /\ now < saturating_add t (duration_to_bucky_time (health_ttl h)))
  /\ (local ∈ owner_set_at score (Some m) peer local (Some h) now
      <-> local ∈ static_owner_set score m peer).
Proof.
  intros Hne. unfold owner_set_at. rewrite !list_elem_of_filter. split.
  - unfold health_is_fresh, refresh_at. simpl. rewrite lookup_insert_eq, bool_decide_false by done.
    simpl. rewrite Is_true_true, Z.ltb_lt. naive_solver.
  - rewrite bool_decide_true by done. simpl. naive_solver.
Qed.

(** ** A concrete membership *)

Definition ids_123 : list OwnerMember := member_new <$> [mkP2pId [3]; mkP2pId [1]; mkP2pId [2]; mkP2pId [1]].
Definition score_sum (a b : P2pId) : Z := foldr Z.add 0 (p2pid_bytes a ++ p2pid_bytes b) mod 3.
Definition members_123 : OwnerMembership :=
  mkMembership (member_new <$> [mkP2pId [1]; mkP2pId [2]; mkP2pId [3]]) 2 (from_secs 300) (from_secs 60).
Definition members_23 : OwnerMembership :=
  mkMembership (member_new <$> [mkP2pId [2]; mkP2pId [3]]) 2 (from_secs 300) (from_secs 60).

Lemma owner_set_is_top_n_witness :
  let owners := static_owner_set score_sum members_123 (mkP2pId [9]) in
  owners = [mkP2pId [2]; mkP2pId [1]] /\ NoDup owners.
Proof.
  split; [by vm_compute|].
  apply (owner_set_is_top_n score_sum (mkP2pId [9]) ids_123 2 (from_secs 300) members_123). by vm_compute.
Defined.

Lemma owner_set_minimal_disruption_witness :
  mkP2pId [2] ∈ static_owner_set score_sum members_23 (mkP2pId [9]).
Proof.
  apply (owner_set_minimal_disruption score_sum (mkP2pId [9]) (mkP2pId [1]) ids_123 2 (from_secs 300)
    members_123 members_23); [by vm_compute..| |done].
  by apply (bool_decide_unpack _); vm_compute.
Defined.

Lemma owner_set_health_witness :
  mkP2pId [2] ∈ owner_set_at score_sum (Some members_123) (mkP2pId [9]) (mkP2pId [1])
    (Some (refresh_at (mkP2pId [2]) 1000 (health_new (from_secs 60)))) 2000.
Proof.
  apply (owner_set_health score_sum members_123 (mkP2pId [9]) (mkP2pId [1])
    (health_new (from_secs 60)) (mkP2pId [2]) 1000 2000); [done|].
  split; [|by vm_compute]. by apply (bool_decide_unpack _); vm_compute.
Defined.
