(* ===== verification/ControlPlane.v ===== *)
(** * The owner control plane
      (src/p2p-frame/src/sn/directory/control_plane.rs)

    The replicated table of serving-SN sessions of one owner SN: leader, term,
    log and committed index, sessions and active voters.  A method that takes
    the lock is a function of the state.  The class [ServingOnline] is what the
    route store relies on; [OwnerControlPlane] implements it. *)

From S2P Require Import Prelude Errors Ids NatType Membership.

Inductive ServingSnSessionState := Online | Offline.
#[global] Instance ServingSnSessionState_eq_dec : EqDecision ServingSnSessionState.
Proof. solve_decision. Defined.

Record ServingSnSession := mkSession {
  ss_serving_sn_id : P2pId;
  ss_state : ServingSnSessionState;
  ss_expires_at : Timestamp;
}.

Definition session_online (id : P2pId) (ttl : Duration) (now : Timestamp) : ServingSnSession :=
  mkSession id Online (saturating_add now (duration_to_bucky_time ttl)).

Definition session_is_online (s : ServingSnSession) (now : Timestamp) : bool :=
  bool_decide (ss_state s = Online) && (now <? ss_expires_at s).

Inductive OwnerSessionEntry :=
| RenewServingSession (s : ServingSnSession)
| RevokeServingSession (serving_sn_id : P2pId).

Record OwnerControlPlane := mkPlane {
  cp_membership : OwnerMembership;
  cp_current_term : Z;
  cp_leader_id : option P2pId;
  cp_committed_index : Z;
  cp_log : list OwnerSessionEntry;
  cp_sessions : gmap P2pId ServingSnSession;
  cp_active_voters : gset P2pId;
}.

Definition plane_new (m : OwnerMembership) : OwnerControlPlane :=
  let leader := sn_id <$> head (members m) in
  mkPlane m (match leader with Some _ => 1 | None => 0 end) leader 0 [] ∅
    (list_to_set (member_ids m)).

(** [OwnerMembership::new(vec![local]).expect(..)]: [None] is the panic. *)
Definition plane_local_only (local : P2pId) : option OwnerControlPlane :=
  match membership_new [local] with Ok m => Some (plane_new m) | Err _ => None end.

Definition set_voter_active (id : P2pId) (active : bool) (p : OwnerControlPlane)
    : bool * OwnerControlPlane :=
  match member (cp_membership p) id with
  | None => (false, p)
  | Some _ =>
      (true, mkPlane (cp_membership p) (cp_current_term p) (cp_leader_id p) (cp_committed_index p)
               (cp_log p) (cp_sessions p)
               (if active then {[id]} ∪ cp_active_voters p else cp_active_voters p ∖ {[id]}))
  end.

Definition quorum_size (m : OwnerMembership) : nat := (length (members m) / 2 + 1)%nat.

Definition has_quorum (p : OwnerControlPlane) : bool :=
  (quorum_size (cp_membership p) <=? size (cp_active_voters p))%nat.

Definition elect_leader (candidate : P2pId) (p : OwnerControlPlane)
    : P2pResult Z * OwnerControlPlane :=
  match member (cp_membership p) candidate with
  | None => (Err P2pErrorCode.PermissionDenied, p)
  | Some _ =>
      if negb (bool_decide (candidate ∈ cp_active_voters p)) || negb (has_quorum p)
      then (Err P2pErrorCode.NotFound, p)
      else
        let term := Z.max (saturating_add (cp_current_term p) 1) 1 in
        (Ok term, mkPlane (cp_membership p) term (Some candidate) (cp_committed_index p) (cp_log p)
                    (cp_sessions p) (cp_active_voters p))
  end.

(** The effect of one entry on the session table. *)
Definition apply_entry (sessions : gmap P2pId ServingSnSession) (e : OwnerSessionEntry)
    (now : Timestamp) : gmap P2pId ServingSnSession :=
  match e with
  | RenewServingSession s =>
      let should_update :=
        match sessions !! ss_serving_sn_id s with
        | Some existing => negb (bool_decide (ss_state existing = Online))
                           || (ss_expires_at existing <=? ss_expires_at s)
        | None => true
        end in
      if should_update then <[ss_serving_sn_id s := s]> sessions else sessions
  | RevokeServingSession id =>
      match sessions !! id with
      | Some existing =>
          if now <? ss_expires_at existing
          then <[id := mkSession (ss_serving_sn_id existing) Offline now]> sessions
          else sessions
      | None => sessions
      end
  end.

(** [log.push], [committed_index = log.len()], [apply_entry]. *)
Definition commit_entry (term : Z) (leader : option P2pId) (e : OwnerSessionEntry)
    (now : Timestamp) (p : OwnerControlPlane) : P2pResult Z * OwnerControlPlane :=
  let log := cp_log p ++ [e] in
  (Ok (Z.of_nat (length log)),
   mkPlane (cp_membership p) term leader (Z.of_nat (length log)) log
     (apply_entry (cp_sessions p) e now) (cp_active_voters p)).

Definition append_as_leader (leader_id : P2pId) (e : OwnerSessionEntry) (now : Timestamp)
    (p : OwnerControlPlane) : P2pResult Z * OwnerControlPlane :=
  if negb (bool_decide (cp_leader_id p = Some leader_id)) then (Err P2pErrorCode.PermissionDenied, p)
  else if negb (has_quorum p) then (Err P2pErrorCode.NotFound, p)
  else commit_entry (cp_current_term p) (cp_leader_id p) e now p.

Definition renew_serving_online (leader_id serving : P2pId) (ttl : Duration) (now : Timestamp)
    (p : OwnerControlPlane) : P2pResult Z * OwnerControlPlane :=
  append_as_leader leader_id (RenewServingSession (session_online serving ttl now)) now p.

Definition mark_serving_offline (leader_id serving : P2pId) (now : Timestamp)
    (p : OwnerControlPlane) : P2pResult Z * OwnerControlPlane :=
  append_as_leader leader_id (RevokeServingSession serving) now p.

(** The epoch parameter of the session methods is not used. *)
Definition cp_renew_serving_session (leader_id serving : P2pId) (epoch : Z) (ttl : Duration)
    (now : Timestamp) (p : OwnerControlPlane) : P2pResult Z * OwnerControlPlane :=
  renew_serving_online leader_id serving ttl now p.
Definition cp_revoke_serving_session (leader_id serving : P2pId) (epoch : Z) (now : Timestamp)
    (p : OwnerControlPlane) : P2pResult Z * OwnerControlPlane :=
  mark_serving_offline leader_id serving now p.

Definition is_serving_online (p : OwnerControlPlane) (id : P2pId) (now : Timestamp) : bool :=
  match cp_sessions p !! id with Some s => session_is_online s now | None => false end.

Definition serving_online_expires_at (p : OwnerControlPlane) (id : P2pId) (now : Timestamp)
    : option Timestamp :=
  match cp_sessions p !! id with
  | Some s => if session_is_online s now then Some (ss_expires_at s) else None
  | None => None
  end.

Definition set_known_leader (leader_id : P2pId) (term : Z) (p : OwnerControlPlane)
    : P2pResult unit * OwnerControlPlane :=
  match member (cp_membership p) leader_id with
  | None => (Err P2pErrorCode.PermissionDenied, p)
  | Some _ =>
      (Ok tt, mkPlane (cp_membership p) (Z.max (cp_current_term p) term) (Some leader_id)
                (cp_committed_index p) (cp_log p) (cp_sessions p) (cp_active_voters p))
  end.

Definition apply_committed_session_entry (leader_id : P2pId) (term : Z) (e : OwnerSessionEntry)
    (now : Timestamp) (p : OwnerControlPlane) : P2pResult Z * OwnerControlPlane :=
  match member (cp_membership p) leader_id with
  | None => (Err P2pErrorCode.PermissionDenied, p)
  | Some _ => commit_entry (Z.max (cp_current_term p) term) (Some leader_id) e now p
  end.

(** ** What the route store relies on *)

Class ServingOnline (T : Type) := {
  online : T -> P2pId -> Timestamp -> bool;
  online_until : T -> P2pId -> Timestamp -> option Timestamp;
  online_until_spec : forall t id now,
    online t id now = true <-> exists e, online_until t id now = Some e /\ now < e;
  online_until_stable : forall t id now now' e,
    online_until t id now = Some e -> now <= now' ->
    online_until t id now' = (if now' <? e then Some e else None);
}.

#[global] Program Instance OwnerControlPlane_online : ServingOnline OwnerControlPlane := {|
  online := is_serving_online;
  online_until := serving_online_expires_at;
|}.
Next Obligation.
  intros p id now. unfold is_serving_online, serving_online_expires_at, session_is_online.
  destruct (cp_sessions p !! id) as [s|]; [|naive_solver]. case_bool_decide; simpl; [|naive_solver].
  destruct (Z.ltb_spec now (ss_expires_at s)); naive_solver.
Qed.
Next Obligation.
  intros p id now now' e. unfold serving_online_expires_at, session_is_online.
  destruct (cp_sessions p !! id) as [s|]; [|done]. case_bool_decide; simpl; [|done].
  destruct (Z.ltb_spec now (ss_expires_at s)); [|done]. intros [= <-] _. done.
Qed.

(** ** The control plane as a transition system

    [cp_run p h]: [p] is reachable from a fresh control plane, having applied
    the entries [h], each with the time it was applied at. *)

Definition History := list (OwnerSessionEntry * Timestamp).

Inductive cp_step : OwnerControlPlane -> History -> OwnerControlPlane -> Prop :=
| cs_voter id active p b p' :
    set_voter_active id active p = (b, p') -> cp_step p [] p'
| cs_elect c p r p' :
    elect_leader c p = (r, p') -> cp_step p [] p'
| cs_leader l t p r p' :
    is_u64 t -> set_known_leader l t p = (r, p') -> cp_step p [] p'
| cs_append l e now p i p' :
    append_as_leader l e now p = (Ok i, p') -> cp_step p [(e, now)] p'
| cs_append_err l e now p err p' :
    append_as_leader l e now p = (Err err, p') -> cp_step p [] p'
| cs_committed l t e now p i p' :
    is_u64 t -> apply_committed_session_entry l t e now p = (Ok i, p') -> cp_step p [(e, now)] p'
| cs_committed_err l t e now p err p' :
    is_u64 t -> apply_committed_session_entry l t e now p = (Err err, p') -> cp_step p [] p'.

Inductive cp_run (m : OwnerMembership) : OwnerControlPlane -> History -> Prop :=
| cr_new : cp_run m (plane_new m) []
| cr_step p h p' h' : cp_run m p h -> cp_step p h' p' -> cp_run m p' (h ++ h').

(** The specification: the session table is what the entries applied so far
    make of an empty table. *)
Definition replay (h : History) : gmap P2pId ServingSnSession :=
  foldl (fun m '(e, now) => apply_entry m e now) ∅ h.

Record cp_inv (p : OwnerControlPlane) (h : History) : Prop := {
  ci_log : cp_log p = fst <$> h;
  ci_committed : cp_committed_index p = Z.of_nat (length (cp_log p));
  ci_sessions : cp_sessions p = replay h;
  ci_leader : forall l, cp_leader_id p = Some l -> l ∈ member_ids (cp_membership p);
  ci_voters : forall v, v ∈ cp_active_voters p -> v ∈ member_ids (cp_membership p);
  ci_term : is_u64 (cp_current_term p);
}.

Lemma member_Some m id x : member m id = Some x -> id ∈ member_ids m.
Proof.
  intros [Hin Heq]%List.find_some. apply bool_decide_eq_true_1 in Heq as <-.
  apply list_elem_of_fmap. exists x. split; [done|]. by apply list_elem_of_In.
Qed.

Lemma member_complete m id : id ∈ member_ids m -> is_Some (member m id).
Proof.
  intros (x & -> & Hx)%list_elem_of_fmap. unfold member.
  destruct (List.find _ (members m)) eqn:E; [eauto|].
  apply list_elem_of_In in Hx. eapply List.find_none in E; [|exact Hx].
  by rewrite bool_decide_true in E.
Qed.

Lemma replay_snoc h e now : replay (h ++ [(e, now)]) = apply_entry (replay h) e now.
Proof. unfold replay. by rewrite foldl_app. Qed.

Lemma plane_new_inv m : cp_inv (plane_new m) [].
Proof.
  split; simpl; try done.
  - intros l Hl. unfold member_ids. destruct (members m); simplify_eq/=. set_solver.
  - set_solver.
  - unfold is_u64, u64_max. destruct (head (members m)); simpl; lia.
Qed.

Lemma commit_entry_inv term leader e now p h r p' :
  cp_inv p h -> is_u64 term -> (forall l, leader = Some l -> l ∈ member_ids (cp_membership p)) ->
  commit_entry term leader e now p = (r, p') -> cp_inv p' (h ++ [(e, now)]).
Proof.
  intros [Hl Hc Hs Hle Hv Ht] Hterm Hleader [= <- <-]. split; simpl; try done.
  - by rewrite Hl, fmap_app.
  - by rewrite replay_snoc, Hs.
Qed.

Lemma max_u64 a b : is_u64 a -> is_u64 b -> is_u64 (Z.max a b).
Proof. unfold is_u64. lia. Qed.

#[export] Hint Resolve max_u64 : p2p.

Lemma cp_step_inv p h h' p' : cp_inv p h -> cp_step p h' p' -> cp_inv p' (h ++ h').
Proof.
  intros Hi Hstep. destruct Hstep as [id active p b p' H|c p r p' H|l t p r p' Ht H|l e now p i p' H
    |l e now p err p' H|l t e now p i p' Ht H|l t e now p err p' Ht H]; rewrite ?app_nil_r.
  - unfold set_voter_active in H. destruct (member _ id) eqn:E; simplify_eq; [|done].
    destruct Hi as [? ? ? ? Hv ?]. split; simpl; try done. apply member_Some in E.
    destruct active; set_solver.
  - unfold elect_leader in H. destruct (member _ c) eqn:E; simplify_eq; [|done].
    destruct (_ || _); simplify_eq; [done|]. apply member_Some in E.
    destruct Hi as [? ? ? ? ? Ht]. split; simpl; try done; [by intros ? [= <-]|].
    unfold is_u64, saturating_add, u64_max in *. lia.
  - unfold set_known_leader in H. destruct (member _ l) eqn:E; simplify_eq; [|done].
    apply member_Some in E. destruct Hi as [? ? ? ? ? ?]. split; simpl; try done; [by intros ? [= <-]|by apply max_u64].
  - unfold append_as_leader in H. destruct (negb _); [done|]. destruct (negb _); [done|].
    eapply commit_entry_inv; [done|apply Hi|apply Hi|done].
  - unfold append_as_leader in H. destruct (negb _); simplify_eq; [done|].
    by destruct (negb _); simplify_eq.
  - unfold apply_committed_session_entry in H. destruct (member _ l) eqn:E; [|done].
    apply member_Some in E.
    apply (commit_entry_inv _ _ _ _ _ h _ _ Hi (max_u64 _ _ (ci_term _ _ Hi) Ht)) in H; [done|].
    by intros ? [= <-].
  - unfold apply_committed_session_entry in H. by destruct (member _ l); simplify_eq.
Qed.

(** The session table is a replicated state machine: in every reachable
    state the log lists exactly the entries applied, the committed index is
    its length, and the sessions are the replay of those entries, so two owner
    SNs that applied the same entries at the same times agree on every serving
    SN; the leader and the active voters are always members. *)
Theorem control_plane_replays_log m p h :
  cp_run m p h ->
  cp_inv p h
  /\ (forall m' p' id now, cp_run m' p' h -> is_serving_online p' id now = is_serving_online p id now).
Proof.
  assert (Hinv : forall m p h, cp_run m p h -> cp_inv p h).
  { induction 1; [apply plane_new_inv|]. by eapply cp_step_inv. }
  intros Hr. split; [by eapply Hinv|].
  intros m' p' id now Hr'. unfold is_serving_online.
  by rewrite (ci_sessions _ _ (Hinv _ _ _ Hr)), (ci_sessions _ _ (Hinv _ _ _ Hr')).
Qed.

(** ** Sessions over time *)

(** What one entry does to the availability of a serving SN. *)
Lemma apply_entry_other m e now id :
  (match e with RenewServingSession s => ss_serving_sn_id s | RevokeServingSession i => i end) <> id ->
  apply_entry m e now !! id = m !! id.
Proof.
  intros Hne. destruct e as [s|i]; simpl.
  - by case_match; [case_match|]; rewrite ?lookup_insert_ne.
  - case_match; [case_match|]; rewrite ?lookup_insert_ne; done.
Qed.

Lemma online_expires_spec p id now e :
  serving_online_expires_at p id now = Some e <->
  exists s, cp_sessions p !! id = Some s /\ ss_state s = Online /\ ss_expires_at s = e /\ now < e.
Proof.
  unfold serving_online_expires_at, session_is_online. destruct (cp_sessions p !! id) as [s|]; [|naive_solver].
  case_bool_decide; simpl; [|naive_solver]. destruct (Z.ltb_spec now (ss_expires_at s)); naive_solver lia.
Qed.

(** A renewal leaves an online session that lasts at least as long. *)
Lemma renew_entry_lasts m s now :
  ss_state s = Online ->
  exists x, apply_entry m (RenewServingSession s) now !! ss_serving_sn_id s = Some x
    /\ ss_state x = Online /\ ss_expires_at s <= ss_expires_at x.
Proof.
  intros Hs. simpl. destruct (m !! ss_serving_sn_id s) as [x|] eqn:E.
  - destruct (_ || _) eqn:Hu; [exists s; rewrite lookup_insert_eq; split_and!; done || lia|].
    exists x. bool_to_prop. split_and!; [done..|lia].
  - exists s. rewrite lookup_insert_eq. split_and!; done || lia.
Qed.

Lemma revoke_entry_offline m id now t :
  now <= t ->
  match apply_entry m (RevokeServingSession id) now !! id with
  | Some s => session_is_online s t
  | None => false
  end = false.
Proof.
  intros Ht. simpl. destruct (m !! id) as [x|] eqn:E; [|by rewrite E].
  destruct (Z.ltb_spec now (ss_expires_at x)); [by rewrite lookup_insert_eq|].
  rewrite E. unfold session_is_online. apply andb_false_intro2, Z.ltb_ge. lia.
Qed.

Lemma append_as_leader_cases l e now p r p' :
  append_as_leader l e now p = (r, p') ->
  (exists err, r = Err err /\ p' = p) \/
  (r = Ok (cp_committed_index p') /\ cp_leader_id p = Some l /\ has_quorum p = true
   /\ cp_log p' = cp_log p ++ [e] /\ cp_sessions p' = apply_entry (cp_sessions p) e now).
Proof.
  unfold append_as_leader. destruct (negb (bool_decide _)) eqn:E1; [intros [= <- <-]; eauto|].
  destruct (negb (has_quorum p)) eqn:E2; [intros [= <- <-]; eauto|]. bool_to_prop.
  intros [= <- <-]. right. done.
Qed.

(** A renewal is committed only by the current leader with a quorum of
    active voters, and it only ever extends availability: afterwards the
    serving SN is online exactly until the later of its old expiry and now +
    ttl, and no other serving SN changes; a rejected renewal changes nothing. *)
Theorem renew_extends_online leader serving ttl now p r p' :
  renew_serving_online leader serving ttl now p = (r, p') ->
  match r with
  | Err _ => p' = p
  | Ok i =>
      cp_leader_id p = Some leader /\ has_quorum p = true /\ cp_committed_index p' = i
      /\ (forall t, is_serving_online p' serving t
             = is_serving_online p serving t
               || (t <? saturating_add now (duration_to_bucky_time ttl)))
      /\ (forall id t, id <> serving -> is_serving_online p' id t = is_serving_online p id t)
  end.
Proof.
  intros [(err & -> & ->)|(-> & Hl & Hq & _ & Hs)]%append_as_leader_cases; [done|].
  split_and!; try done.
  - intros t. unfold is_serving_online. rewrite Hs. simpl.
    destruct (cp_sessions p !! serving) as [x|] eqn:E; [|by rewrite lookup_insert_eq].
    unfold session_is_online. set (e := saturating_add _ _). simpl in *.
    destruct (bool_decide (ss_state x = Online)) eqn:Eo; simpl.
    + destruct (Z.leb_spec (ss_expires_at x) e); rewrite ?lookup_insert_eq, ?E; simpl; rewrite ?Eo; simpl;
        destruct (Z.ltb_spec t (ss_expires_at x)), (Z.ltb_spec t e); simpl; lia || done.
    + by rewrite lookup_insert_eq.
  - intros id t Hne. unfold is_serving_online. by rewrite Hs, apply_entry_other.
Qed.

(** A revocation takes effect at once: after the leader commits it at
    time now, the serving SN is offline at every later time, and no other
    serving SN changes; a rejected revocation changes nothing. *)
Theorem revoke_takes_offline leader serving now p r p' :
  mark_serving_offline leader serving now p = (r, p') ->
  match r with
  | Err _ => p' = p
  | Ok i =>
      cp_leader_id p = Some leader /\ has_quorum p = true /\ cp_committed_index p' = i
      /\ (forall t, now <= t -> is_serving_online p' serving t = false)
      /\ (forall id t, id <> serving -> is_serving_online p' id t = is_serving_online p id t)
  end.
Proof.
  intros [(err & -> & ->)|(-> & Hl & Hq & _ & Hs)]%append_as_leader_cases; [done|].
  split_and!; try done.
  - intros t Ht. unfold is_serving_online. rewrite Hs. by apply revoke_entry_offline.
  - intros id t Hne. unfold is_serving_online. by rewrite Hs, apply_entry_other.
Qed.

(** ** A concrete run *)

Definition plane_1 : OwnerControlPlane := plane_new members_123.
Definition plane_2 : OwnerControlPlane :=
  snd (renew_serving_online (mkP2pId [1]) (mkP2pId [70]) (from_secs 10) 1000 plane_1).

Lemma renew_extends_online_witness :
  is_serving_online plane_2 (mkP2pId [70]) 2000 = true.
Proof.
  destruct (renew_extends_online (mkP2pId [1]) (mkP2pId [70]) (from_secs 10) 1000 plane_1 (Ok 1) plane_2)
    as (_ & _ & _ & H & _); [by vm_compute|]. rewrite H. by vm_compute.
Defined.

Lemma revoke_takes_offline_witness :
  is_serving_online (snd (mark_serving_offline (mkP2pId [1]) (mkP2pId [70]) 1500 plane_2))
    (mkP2pId [70]) 2000 = false.
Proof.
  destruct (revoke_takes_offline (mkP2pId [1]) (mkP2pId [70]) 1500 plane_2 (Ok 2)
    (snd (mark_serving_offline (mkP2pId [1]) (mkP2pId [70]) 1500 plane_2)))
    as (_ & _ & _ & H & _); [by vm_compute|]. apply H. lia.
Defined.

Lemma control_plane_replays_log_witness :
  cp_inv plane_2 [(RenewServingSession (mkSession (mkP2pId [70]) Online 10001000), 1000)].
Proof.
  apply (control_plane_replays_log members_123).
  apply (cr_step _ plane_1 [] _ [(RenewServingSession (mkSession (mkP2pId [70]) Online 10001000), 1000)]);
    [apply cr_new|].
  apply (cs_append (mkP2pId [1]) _ _ _ 1). by vm_compute.
Defined.
