(* ===== verification/RouteStore.v ===== *)
(** * Peer routes and the owner directory
      (src/p2p-frame/src/sn/directory/route.rs, store.rs, local.rs)

    [PeerRouteStore] is proved against the interface [ServingOnline];
    [OwnerDirectoryStore] instantiates it with the control plane, and
    [LocalSnDirectory] adds the resolver and the member health.  The clock
    [bucky_time_now()] is an argument. *)

From S2P Require Import Prelude Errors Ids NatType Membership ControlPlane.

Record PeerRoute := mkRoute { ro_peer_id : P2pId; ro_serving_sn_id : P2pId; ro_sequence : Z }.

Definition from_lease (l : ServingLease) : PeerRoute :=
  mkRoute (sl_peer_id l) (sl_serving_sn_id l) (sl_sequence l).
Definition to_lease (r : PeerRoute) (expires_at : Timestamp) : ServingLease :=
  mkLease (ro_peer_id r) (ro_serving_sn_id r) (ro_sequence r) expires_at.

(** [HashMap<P2pId, HashMap<P2pId, PeerRoute>>]. *)
Notation PeerRouteStore := (gmap P2pId (gmap P2pId PeerRoute)).

Definition put_route (r : PeerRoute) (routes : PeerRouteStore) : bool * PeerRouteStore :=
  let peer_routes := default ∅ (routes !! ro_peer_id r) in
  match peer_routes !! ro_serving_sn_id r with
  | Some existing =>
      if ro_sequence r <? ro_sequence existing
      then (false, <[ro_peer_id r := peer_routes]> routes)
      else (true, <[ro_peer_id r := <[ro_serving_sn_id r := r]> peer_routes]> routes)
  | None => (true, <[ro_peer_id r := <[ro_serving_sn_id r := r]> peer_routes]> routes)
  end.

(** Descending sequence, then ascending serving SN. *)
Definition route_cmp (l r : PeerRoute) : comparison :=
  then_with (ro_sequence r ?= ro_sequence l) (P2pId_cmp (ro_serving_sn_id l) (ro_serving_sn_id r)).

Section query.
Context {T} `{!ServingOnline T}.

Definition route_online (control : T) (now : Timestamp) (x : P2pId * PeerRoute) : Prop :=
  online control (ro_serving_sn_id (snd x)) now = true.
#[global] Instance route_online_dec c now x : Decision (route_online c now x).
Proof. unfold route_online. apply _. Defined.

(** [retain], then the values sorted; the retained map is stored back. *)
Definition query_route_store (peer : P2pId) (control : T) (now : Timestamp)
    (routes : PeerRouteStore) : list PeerRoute * PeerRouteStore :=
  match routes !! peer with
  | None => ([], routes)
  | Some peer_routes =>
      let kept := filter (route_online control now) peer_routes in
      (sort_by (cmp_le route_cmp) (snd <$> map_to_list kept), <[peer := kept]> routes)
  end.
End query.

(** ** The owner directory store *)

Record OwnerDirectoryStore := mkStore { st_control_plane : OwnerControlPlane; st_routes : PeerRouteStore }.

Definition store_with_membership (m : OwnerMembership) : OwnerDirectoryStore :=
  mkStore (plane_new m) ∅.
Definition store_local_only (local : P2pId) : option OwnerDirectoryStore :=
  match plane_local_only local with Some p => Some (mkStore p ∅) | None => None end.

Definition store_put_route (r : PeerRoute) (now : Timestamp) (s : OwnerDirectoryStore)
    : bool * OwnerDirectoryStore :=
  if negb (is_serving_online (st_control_plane s) (ro_serving_sn_id r) now) then (false, s)
  else let '(b, routes) := put_route r (st_routes s) in (b, mkStore (st_control_plane s) routes).

Definition query_routes (peer : P2pId) (now : Timestamp) (s : OwnerDirectoryStore)
    : list PeerRoute * OwnerDirectoryStore :=
  let '(l, routes) := query_route_store peer (st_control_plane s) now (st_routes s) in
  (l, mkStore (st_control_plane s) routes).

Definition put_lease (l : ServingLease) (now : Timestamp) (s : OwnerDirectoryStore)
    : bool * OwnerDirectoryStore :=
  if negb (lease_is_fresh l now) then (false, s)
  else match cp_leader_id (st_control_plane s) with
       | None => (false, s)
       | Some leader =>
           let ttl := bucky_time_to_duration (saturating_sub (sl_expires_at l) now) in
           let '(r, p) := cp_renew_serving_session leader (sl_serving_sn_id l) 0 ttl now
                            (st_control_plane s) in
           let s := mkStore p (st_routes s) in
           if is_err r then (false, s) else store_put_route (from_lease l) now s
       end.

Definition with_leader {A} (s : OwnerDirectoryStore)
    (f : P2pId -> P2pResult A * OwnerControlPlane) : P2pResult A * OwnerDirectoryStore :=
  match cp_leader_id (st_control_plane s) with
  | None => (Err P2pErrorCode.NotFound, s)
  | Some leader => let '(r, p) := f leader in (r, mkStore p (st_routes s))
  end.

Definition store_revoke_serving_session (serving : P2pId) (epoch : Z) (now : Timestamp)
    (s : OwnerDirectoryStore) : P2pResult Z * OwnerDirectoryStore :=
  with_leader s (fun leader =>
    cp_revoke_serving_session leader serving epoch now (st_control_plane s)).
Definition store_renew_serving_session (serving : P2pId) (epoch : Z) (ttl : Duration)
    (now : Timestamp) (s : OwnerDirectoryStore) : P2pResult Z * OwnerDirectoryStore :=
  with_leader s (fun leader =>
    cp_renew_serving_session leader serving epoch ttl now (st_control_plane s)).

(** [filter_map] over the routes of [query_routes]. *)
Definition store_query (peer : P2pId) (now : Timestamp) (s : OwnerDirectoryStore)
    : list ServingLease * OwnerDirectoryStore :=
  let '(l, s') := query_routes peer now s in
  (omap (fun r => to_lease r <$> serving_online_expires_at (st_control_plane s') (ro_serving_sn_id r) now) l,
   s').

(** ** The directory of one SN *)

Record LocalSnDirectory := mkDirectory {
  ld_resolver : option OwnerMembership;
  ld_member_health : OwnerMemberHealth;
  ld_store : OwnerDirectoryStore;
}.

Definition local_only_directory : option LocalSnDirectory :=
  mkDirectory None (health_new DEFAULT_OWNER_MEMBER_HEALTH_TTL) <$> store_local_only P2pId_default.

Definition directory_new (membership : option OwnerMembership) (now : Timestamp)
    : option LocalSnDirectory :=
  let health :=
    match membership with
    | Some m => health_with_members (members m) (member_health_ttl m) now
    | None => health_new DEFAULT_OWNER_MEMBER_HEALTH_TTL
    end in
  mkDirectory membership health <$>
    match membership with
    | Some m => Some (store_with_membership m)
    | None => store_local_only P2pId_default
    end.

Definition directory_owner_set (score : P2pId -> P2pId -> Z) (d : LocalSnDirectory)
    (peer local : P2pId) (now : Timestamp) : list P2pId :=
  owner_set_at score (ld_resolver d) peer local (Some (ld_member_health d)) now.

Definition refresh_owner_member (id : P2pId) (now : Timestamp) (d : LocalSnDirectory)
    : bool * LocalSnDirectory :=
  if negb (has_member (ld_resolver d) id) then (false, d)
  else (true, mkDirectory (ld_resolver d) (refresh_at id now (ld_member_health d)) (ld_store d)).

Definition directory_new_lease (d : LocalSnDirectory) (peer serving : P2pId) (sequence : Z)
    (now : Timestamp) : ServingLease :=
  lease_new peer serving sequence (resolver_lease_ttl (ld_resolver d)) now.

Definition on_store {A} (f : OwnerDirectoryStore -> A * OwnerDirectoryStore) (d : LocalSnDirectory)
    : A * LocalSnDirectory :=
  let '(a, s) := f (ld_store d) in (a, mkDirectory (ld_resolver d) (ld_member_health d) s).

Definition directory_put_lease (l : ServingLease) (now : Timestamp) : LocalSnDirectory -> bool * LocalSnDirectory :=
  on_store (put_lease l now).
Definition directory_put_lease_route (l : ServingLease) (now : Timestamp)
    : LocalSnDirectory -> bool * LocalSnDirectory :=
  on_store (store_put_route (from_lease l) now).
Definition directory_query (peer : P2pId) (now : Timestamp)
    : LocalSnDirectory -> list ServingLease * LocalSnDirectory :=
  on_store (store_query peer now).

(** ** Invariant of the route table: a route is stored under its own keys *)

Definition routes_ok (routes : PeerRouteStore) : Prop :=
  forall p m s r, routes !! p = Some m -> m !! s = Some r -> ro_peer_id r = p /\ ro_serving_sn_id r = s.

(** The route stored for a peer and a serving SN. *)
Definition route_of (routes : PeerRouteStore) (p s : P2pId) : option PeerRoute :=
  m ← routes !! p; m !! s.

Lemma put_route_lookup r routes b routes' p s :
  put_route r routes = (b, routes') ->
  route_of routes' p s
  = if b && bool_decide (p = ro_peer_id r /\ s = ro_serving_sn_id r) then Some r else route_of routes p s.
Proof.
  unfold put_route, route_of. intros H.
  assert (Hd : forall m, default ∅ (routes !! ro_peer_id r) = m ->
    (routes !! p ≫= (fun x => x !! s)) = if decide (p = ro_peer_id r) then m !! s else routes !! p ≫= (fun x => x !! s)).
  { intros m <-. case_decide; [|done]. subst. by destruct (routes !! ro_peer_id r). }
  specialize (Hd _ eq_refl). set (m := default ∅ (routes !! ro_peer_id r)) in *.
  rewrite Hd. clear Hd. assert (Hins : (exists b', b = b' /\
    routes' = <[ro_peer_id r := if b' then <[ro_serving_sn_id r := r]> m else m]> routes)).
  { destruct (m !! ro_serving_sn_id r); [destruct (_ <? _)|]; simplify_eq; eauto. }
  destruct Hins as (b' & -> & ->).
  destruct (decide (p = ro_peer_id r)) as [->|Hp].
  - rewrite lookup_insert_eq. simpl. destruct b'; simpl; [|done].
    destruct (decide (s = ro_serving_sn_id r)) as [->|Hs].
    + by rewrite lookup_insert_eq, bool_decide_true.
    + rewrite lookup_insert_ne, bool_decide_false by naive_solver. done.
  - rewrite lookup_insert_ne by done. rewrite bool_decide_false by naive_solver. by rewrite andb_false_r.
Qed.

Lemma routes_ok_alt routes :
  routes_ok routes <-> forall p s r, route_of routes p s = Some r -> ro_peer_id r = p /\ ro_serving_sn_id r = s.
Proof.
  unfold routes_ok, route_of. split.
  - intros H p s r (m & Hm & Hs)%bind_Some. by eapply H.
  - intros H p m s r Hm Hs. apply H. by rewrite Hm.
Qed.

Lemma put_route_ok r routes b routes' :
  put_route r routes = (b, routes') -> routes_ok routes -> routes_ok routes'.
Proof.
  rewrite !routes_ok_alt. intros Hp Hok p s x. rewrite (put_route_lookup _ _ _ _ p s Hp).
  destruct (b && _) eqn:E; [|apply Hok]. intros [= <-]. bool_to_prop. naive_solver.
Qed.

(** A peer's route through a serving SN moves only forward: a put is
    rejected exactly when a strictly newer route of the same pair is stored,
    an accepted route replaces it and nothing else, and the stored sequence of
    every pair never decreases. *)
Theorem put_route_monotone r routes :
  let '(b, routes') := put_route r routes in
  (b = false <-> exists x, route_of routes (ro_peer_id r) (ro_serving_sn_id r) = Some x
                           /\ ro_sequence r < ro_sequence x)
  /\ (b = true -> route_of routes' (ro_peer_id r) (ro_serving_sn_id r) = Some r)
  /\ (forall p s, (p, s) <> (ro_peer_id r, ro_serving_sn_id r) \/ b = false ->
        route_of routes' p s = route_of routes p s)
  /\ (forall p s x, route_of routes p s = Some x ->
        exists y, route_of routes' p s = Some y /\ ro_sequence x <= ro_sequence y).
Proof.
  destruct (put_route r routes) as [b routes'] eqn:E.
  pose proof (fun p s => put_route_lookup _ _ _ _ p s E) as Hl.
  assert (Hb : b = false <-> exists x, route_of routes (ro_peer_id r) (ro_serving_sn_id r) = Some x
                           /\ ro_sequence r < ro_sequence x).
  { unfold put_route in E. unfold route_of. destruct (routes !! ro_peer_id r) as [m|]; simpl in *.
    - destruct (m !! ro_serving_sn_id r) as [x|]; [|simplify_eq; naive_solver].
      destruct (Z.ltb_spec (ro_sequence r) (ro_sequence x)); simplify_eq; split; try done; [eauto|].
      intros (? & ? & ?). simplify_eq. lia.
    - rewrite lookup_empty in E. simplify_eq. naive_solver. }
  split_and!; [done| | |].
  - intros ->. rewrite Hl. by rewrite bool_decide_true.
  - intros p s Hps. rewrite Hl. destruct Hps as [Hne| ->]; [|done].
    rewrite bool_decide_false by naive_solver. by rewrite andb_false_r.
  - intros p s x Hx. rewrite Hl. destruct (b && _) eqn:Eb; [|eauto with lia].
    bool_to_prop. destruct H0 as [-> ->]. exists r. split; [done|].
    destruct (Z.le_gt_cases (ro_sequence x) (ro_sequence r)); [done|].
    assert (b = false) by naive_solver. congruence.
Qed.

(** ** Queries *)

(** The order of the answers, as the order of the scored pairs. *)
Definition route_pair (r : PeerRoute) : Z * P2pId := (ro_sequence r, ro_serving_sn_id r).

Lemma route_le_total a b : cmp_le route_cmp a b = true \/ cmp_le route_cmp b a = true.
Proof. apply (cmp_le_total scored_cmp (route_pair a) (route_pair b)). Qed.
Lemma route_le_trans a b c :
  cmp_le route_cmp a b = true -> cmp_le route_cmp b c = true -> cmp_le route_cmp a c = true.
Proof. apply (cmp_le_trans scored_cmp (route_pair a) (route_pair b) (route_pair c)). Qed.

Lemma elem_of_values {K V} `{Countable K} (m : gmap K V) v :
  v ∈ snd <$> map_to_list m <-> exists k, m !! k = Some v.
Proof.
  rewrite list_elem_of_fmap. split.
  - intros ([k x] & -> & Hx%elem_of_map_to_list). eauto.
  - intros [k Hk]. exists (k, v). split; [done|]. by apply elem_of_map_to_list.
Qed.

Section query_facts.
Context {T} `{!ServingOnline T}.

Lemma NoDup_values p (m : gmap P2pId PeerRoute) :
  (forall s r, m !! s = Some r -> ro_peer_id r = p /\ ro_serving_sn_id r = s) ->
  NoDup (snd <$> map_to_list m).
Proof.
  intros Hm. apply NoDup_fmap_2_strong; [|apply NoDup_map_to_list].
  intros [s r] [s' r'] H1%elem_of_map_to_list H2%elem_of_map_to_list ?. simplify_eq/=.
  apply Hm in H1 as [_ <-], H2 as [_ <-]. done.
Qed.

Lemma query_route_store_effect peer (c : T) now routes p s :
  routes_ok routes ->
  route_of (snd (query_route_store peer c now routes)) p s
  = if bool_decide (p = peer) && negb (online c s now) then None else route_of routes p s.
Proof.
  intros Hok. unfold query_route_store, route_of.
  destruct (decide (p = peer)) as [->|Hne].
  - rewrite bool_decide_true by done. simpl. destruct (routes !! peer) as [m|] eqn:E; simpl.
    + rewrite lookup_insert_eq. simpl. destruct (m !! s) as [r|] eqn:Er.
      * destruct (Hok _ _ _ _ E Er) as [_ <-]. destruct (online c _ now) eqn:Eo; simpl.
        -- by apply map_lookup_filter_Some.
        -- apply map_lookup_filter_None. right. intros r' ?. unfold route_online. simplify_eq/=. congruence.
      * rewrite (proj2 (map_lookup_filter_None _ _ _)) by (by left). by case_match.
    + rewrite E. by case_match.
  - rewrite bool_decide_false by done. simpl. destruct (routes !! peer) as [m|]; simpl; [|done].
    by rewrite lookup_insert_ne.
Qed.

(** A query of a peer's routes answers exactly the stored routes whose
    serving SN is online, each once, newest first and by serving SN within
    one sequence; the others of that peer are forgotten, every other peer is
    left as it was, and the table stays keyed by its routes.  Whatever
    answers the online question need only satisfy the interface. *)
Theorem query_route_store_spec peer (c : T) now routes :
  routes_ok routes ->
  let '(l, routes') := query_route_store peer c now routes in
  (forall r, r ∈ l <-> route_of routes peer (ro_serving_sn_id r) = Some r
                       /\ online c (ro_serving_sn_id r) now = true)
  /\ NoDup l
  /\ StronglySorted (fun a b => cmp_le route_cmp a b = true) l
  /\ (forall p s, route_of routes' p s
        = if bool_decide (p = peer) && negb (online c s now) then None else route_of routes p s)
  /\ routes_ok routes'.
Proof.
  intros Hok. pose proof (fun p s => query_route_store_effect peer c now routes p s Hok) as He.
  assert (Hok' : routes_ok (snd (query_route_store peer c now routes))).
  { apply routes_ok_alt. intros p s r. rewrite He. case_match; [done|].
    apply routes_ok_alt, Hok. }
  unfold query_route_store, route_of in *. destruct (routes !! peer) as [m|] eqn:E; cbn [snd fst] in *.
  - assert (Hf : forall s r, filter (route_online c now) m !! s = Some r
                   <-> m !! s = Some r /\ online c (ro_serving_sn_id r) now = true).
    { intros s r. rewrite map_lookup_filter_Some. done. }
    split_and!; [|..|done|done].
    + intros r. rewrite (sort_by_elem (cmp_le route_cmp)), elem_of_values. simpl. split.
      * intros (s & [Hs Ho]%Hf). destruct (Hok _ _ _ _ E Hs) as [_ <-]. done.
      * intros [Hs Ho]. exists (ro_serving_sn_id r). by apply Hf.
    + rewrite (sort_by_perm (cmp_le route_cmp)). apply (NoDup_values peer).
      intros s r [Hs _]%Hf. by eapply Hok.
    + apply sort_by_sorted; [apply route_le_total|apply route_le_trans].
  - split_and!; [|constructor|constructor|done|done]. intros r. simpl. split; [by intros ?%elem_of_nil|].
    by intros [? _].
Qed.
End query_facts.

(** ** The store *)

Lemma store_query_elem peer now s l :
  routes_ok (st_routes s) ->
  l ∈ fst (store_query peer now s) <->
  exists r e, route_of (st_routes s) peer (ro_serving_sn_id r) = Some r
    /\ serving_online_expires_at (st_control_plane s) (ro_serving_sn_id r) now = Some e
    /\ l = to_lease r e.
Proof.
  intros Hok. unfold store_query, query_routes.
  pose proof (query_route_store_spec peer (st_control_plane s) now (st_routes s) Hok) as H.
  destruct (query_route_store _ _ _ _) as [rs routes']. destruct H as (Hin & _ & _ & _ & _).
  simpl. rewrite list_elem_of_omap. split.
  - intros (r & [Hr Ho]%Hin & (e & He & ->)%fmap_Some). eauto.
  - intros (r & e & Hr & He & ->). exists r. split; [|by rewrite He]. apply Hin. split; [done|].
    apply online_until_spec. exists e. split; [exact He|].
    by apply online_expires_spec in He as (? & _ & _ & _ & ?).
Qed.

(** The time to live [put_lease] derives gives back the lease's expiry. *)
Lemma lease_ttl_roundtrip l now :
  is_u64 (sl_expires_at l) -> is_u64 now -> lease_is_fresh l now = true ->
  saturating_add now
    (duration_to_bucky_time (bucky_time_to_duration (saturating_sub (sl_expires_at l) now)))
  = sl_expires_at l.
Proof.
  unfold lease_is_fresh. intros Hu Hn Hf. bool_to_prop.
  unfold saturating_add, duration_to_bucky_time, bucky_time_to_duration, as_micros, from_micros,
    saturating_sub, is_u64, u64_max in *. rewrite Z.div_mul by lia. lia.
Qed.

(** A published lease can be found: if a fresh lease is accepted, then
    until it expires a query of its peer answers a lease of the same serving
    SN and sequence that expires no earlier; and every lease a query answers
    belongs to the peer, is fresh, and expires with its serving SN's session. *)
Theorem put_lease_query_roundtrip l now s s' :
  routes_ok (st_routes s) -> is_u64 (sl_expires_at l) -> is_u64 now ->
  put_lease l now s = (true, s') ->
  routes_ok (st_routes s')
  /\ (forall t, now <= t -> t < sl_expires_at l ->
        exists e, sl_expires_at l <= e
          /\ mkLease (sl_peer_id l) (sl_serving_sn_id l) (sl_sequence l) e
             ∈ fst (store_query (sl_peer_id l) t s'))
  /\ (forall peer t x, x ∈ fst (store_query peer t s') ->
        sl_peer_id x = peer /\ lease_is_fresh x t = true
        /\ serving_online_expires_at (st_control_plane s') (sl_serving_sn_id x) t
           = Some (sl_expires_at x)).
Proof.
  intros Hok Hu Hn. unfold put_lease. destruct (lease_is_fresh l now) eqn:Hf; simpl; [|done].
  destruct (cp_leader_id _) as [leader|] eqn:Hl; [|done].
  unfold cp_renew_serving_session.
  destruct (renew_serving_online _ _ _ _ _) as [r p] eqn:Hr.
  pose proof Hr as [(err & -> & ->)|(-> & _ & _ & _ & Hs)]%append_as_leader_cases; [done|]. simpl is_err.
  unfold session_online in Hs. rewrite (lease_ttl_roundtrip l now Hu Hn Hf) in Hs.
  unfold store_put_route. simpl. destruct (negb _) eqn:Hon; [done|].
  destruct (put_route (from_lease l) (st_routes s)) as [b routes'] eqn:Hp. intros [= -> <-]. simpl.
  pose proof (put_route_ok _ _ _ _ Hp Hok) as Hok'. split_and!; [done|..].
  - intros t Ht He.
    destruct (renew_entry_lasts (cp_sessions (st_control_plane s))
      (mkSession (sl_serving_sn_id l) Online (sl_expires_at l)) now eq_refl) as (x & Hx & Ho & Hle).
    rewrite <-Hs in Hx. simpl in *. exists (ss_expires_at x). split; [done|].
    apply store_query_elem; [done|]. exists (from_lease l), (ss_expires_at x). simpl. split_and!; [| |done].
    + rewrite (put_route_lookup _ _ _ _ _ _ Hp). by rewrite bool_decide_true.
    + apply online_expires_spec. exists x. split_and!; [done..|lia].
  - intros peer t x (r & e & Hx & He & ->)%store_query_elem; [|done]. simpl in *.
    rewrite routes_ok_alt in Hok'. destruct (Hok' _ _ _ Hx) as [? _]. split_and!; [done| |done].
    apply Z.ltb_lt. by apply online_expires_spec in He as (? & _ & _ & _ & ?).
Qed.

(** Offline serving SNs disappear from the answers: once a revocation of
    a serving SN was committed, no query at a later time answers a lease of
    it, and the query forgets its routes. *)
Theorem revoked_serving_sn_not_answered serving epoch now i s s' peer t :
  routes_ok (st_routes s) -> now <= t ->
  store_revoke_serving_session serving epoch now s = (Ok i, s') ->
  (forall x, x ∈ fst (store_query peer t s') -> sl_serving_sn_id x <> serving)
  /\ route_of (st_routes (snd (store_query peer t s'))) peer serving = None.
Proof.
  intros Hok Ht. unfold store_revoke_serving_session, with_leader.
  destruct (cp_leader_id _) as [leader|]; [|done].
  unfold cp_revoke_serving_session, mark_serving_offline.
  destruct (append_as_leader _ _ _ _) as [r p] eqn:Hr. intros [= -> <-].
  apply append_as_leader_cases in Hr as [(? & ? & _)|(_ & _ & _ & _ & Hs)]; [done|].
  assert (Hoff : is_serving_online p serving t = false).
  { unfold is_serving_online. rewrite Hs. by apply revoke_entry_offline. }
  split.
  - intros x (r & e & Hx & He & ->)%store_query_elem; [|done]. simpl in *. intros Heq. rewrite Heq in He.
    assert (Hon : online p serving t = true).
    { apply online_until_spec. exists e. split; [exact He|].
      by apply online_expires_spec in He as (? & _ & _ & _ & ?). }
    simpl in Hon. congruence.
  - unfold store_query, query_routes.
    pose proof (query_route_store_effect peer p t (st_routes s) peer serving Hok) as He. simpl in *.
    destruct (query_route_store _ _ _ _) as [rs routes']. simpl in *. rewrite He, Hoff.
    by rewrite bool_decide_true.
Qed.

(** ** A concrete directory *)

Definition lease_70 : ServingLease := mkLease (mkP2pId [5]) (mkP2pId [70]) 4 20000000.
Definition store_1 : OwnerDirectoryStore := store_with_membership members_123.
Definition store_2 : OwnerDirectoryStore := snd (put_lease lease_70 1000 store_1).
Definition store_3 : OwnerDirectoryStore := snd (store_revoke_serving_session (mkP2pId [70]) 0 3000 store_2).

Lemma routes_ok_empty : routes_ok ∅.
Proof. intros p m s r H. by rewrite lookup_empty in H. Qed.

Lemma store_2_ok : routes_ok (st_routes store_2).
Proof. apply (put_route_ok (from_lease lease_70) ∅ true); [by vm_compute|apply routes_ok_empty]. Qed.

Lemma query_route_store_spec_witness :
  NoDup (fst (query_route_store (mkP2pId [5]) (st_control_plane store_2) 2000 (st_routes store_2))).
Proof.
  pose proof (query_route_store_spec (mkP2pId [5]) (st_control_plane store_2) 2000 (st_routes store_2)) as H.
  destruct (query_route_store _ _ _ _) as [l routes'] eqn:E. apply H, store_2_ok.
Defined.

Lemma put_lease_query_roundtrip_witness :
  exists e, 20000000 <= e
    /\ mkLease (mkP2pId [5]) (mkP2pId [70]) 4 e ∈ fst (store_query (mkP2pId [5]) 5000 store_2).
Proof.
  apply (put_lease_query_roundtrip lease_70 1000 store_1 store_2);
    [apply routes_ok_empty|by vm_compute..|lia|by vm_compute].
Defined.

Lemma revoked_serving_sn_not_answered_witness :
  route_of (st_routes (snd (store_query (mkP2pId [5]) 4000 store_3))) (mkP2pId [5]) (mkP2pId [70]) = None.
Proof.
  apply (revoked_serving_sn_not_answered (mkP2pId [70]) 0 3000 2 store_2 store_3 (mkP2pId [5]) 4000);
    [|lia|by vm_compute].
  apply store_2_ok.
Defined.
