(* ===== verification/Election.v ===== *)
(** * Leader election and session replication among owner SNs
      (src/p2p-frame/src/sn/directory/election.rs)

    One owner SN as a state record, its message handlers as functions of it,
    and its client-side procedures ([start_election], [send_heartbeat],
    [replicate_and_commit]) as loops over the remote members, in which the
    attached peer client answers each call.  [None] as the outcome of a
    procedure is the panic of [peer_client()] when no client is attached.

    A procedure of the code releases the lock while it awaits an answer.  The
    loops run here without other operations of the same node in between; the
    steps that hold the lock ([election_begin], [become_leader], [step_down],
    the handlers) are separate definitions, and the node runs below interleave
    them. *)

From S2P Require Import Prelude Errors Ids NatType Membership ControlPlane.

Definition DEFAULT_HEARTBEAT_TIMEOUT : Duration := from_secs 15.

Inductive OwnerElectionRole := Follower | Candidate | Leader.
#[global] Instance OwnerElectionRole_eq_dec : EqDecision OwnerElectionRole.
Proof. solve_decision. Defined.

(** ** Messages *)

Record OwnerVoteRequest := mkVoteRequest { vq_term : Z; vq_candidate_id : P2pId }.
Record OwnerVoteResponse := mkVoteResponse { vr_term : Z; vr_granted : bool; vr_leader_id : option P2pId }.
Record OwnerHeartbeatRequest := mkHeartbeat { hq_term : Z; hq_leader_id : P2pId; hq_committed_index : Z }.
Record OwnerHeartbeatResponse := mkHeartbeatResponse {
  hr_term : Z; hr_accepted : bool; hr_leader_id : option P2pId }.
Record OwnerSessionReplication := mkReplication {
  rp_term : Z;
  rp_leader_id : P2pId;
  rp_entry : OwnerSessionEntry;
  rp_now : Timestamp;
  rp_committed : bool;
}.
Record OwnerSessionReplicationResponse := mkReplicationResponse {
  rr_term : Z; rr_accepted : bool; rr_committed_index : Z; rr_leader_id : option P2pId }.
Record OwnerSessionForward := mkForward { fw_entry : OwnerSessionEntry; fw_now : Timestamp }.
Record OwnerSessionForwardResponse := mkForwardResponse {
  fr_term : Z; fr_accepted : bool; fr_committed_index : Z; fr_leader_id : option P2pId }.

(** The trait [OwnerPeerControlClient], as the answers it gives. *)
Record OwnerPeerControlClient := mkPeerClient {
  request_vote : P2pId -> OwnerVoteRequest -> P2pResult OwnerVoteResponse;
  client_heartbeat : P2pId -> OwnerHeartbeatRequest -> P2pResult OwnerHeartbeatResponse;
  replicate_session : P2pId -> OwnerSessionReplication -> P2pResult OwnerSessionReplicationResponse;
  forward_session : P2pId -> OwnerSessionForward -> P2pResult OwnerSessionForwardResponse;
}.

(** ** The node *)

Record OwnerElectionNode := mkNode {
  en_local_owner_id : P2pId;
  en_membership : OwnerMembership;
  en_control_plane : OwnerControlPlane;
  en_role : OwnerElectionRole;
  en_current_term : Z;
  en_voted_for : option P2pId;
  en_leader_id : option P2pId;
  en_last_heartbeat_at : Timestamp;
}.

(** Assigning the locked election state. *)
Definition set_state (n : OwnerElectionNode) (role : OwnerElectionRole) (term : Z)
    (voted_for leader_id : option P2pId) (last : Timestamp) : OwnerElectionNode :=
  mkNode (en_local_owner_id n) (en_membership n) (en_control_plane n) role term voted_for leader_id last.

Definition set_plane (n : OwnerElectionNode) (p : OwnerControlPlane) : OwnerElectionNode :=
  mkNode (en_local_owner_id n) (en_membership n) p (en_role n) (en_current_term n) (en_voted_for n)
    (en_leader_id n) (en_last_heartbeat_at n).

Definition node_new (local : P2pId) (m : OwnerMembership) (p : OwnerControlPlane) (now : Timestamp)
    : OwnerElectionNode :=
  let single := (length (members m) =? 1)%nat && bool_decide (is_Some (member m local)) in
  mkNode local m p (if single then Leader else Follower) (if single then 1 else 0)
    (if single then Some local else None) (if single then Some local else None) now.

Definition node_with_control_plane (local : P2pId) (m : OwnerMembership) (now : Timestamp)
    : OwnerElectionNode := node_new local m (plane_new m) now.

Definition is_member (n : OwnerElectionNode) (id : P2pId) : bool :=
  bool_decide (is_Some (member (en_membership n) id)).

Definition remote_members (n : OwnerElectionNode) : list P2pId :=
  filter (fun id => id <> en_local_owner_id n) (member_ids (en_membership n)).

Definition node_quorum_size (n : OwnerElectionNode) : nat :=
  (length (members (en_membership n)) / 2 + 1)%nat.

Definition require_leader (n : OwnerElectionNode) : P2pResult (Z * P2pId) :=
  if negb (bool_decide (en_role n = Leader)) then Err P2pErrorCode.PermissionDenied
  else Ok (en_current_term n, en_local_owner_id n).

Definition become_leader (term : Z) (now : Timestamp) (n : OwnerElectionNode)
    : P2pResult unit * OwnerElectionNode :=
  let n := set_state n Leader term (Some (en_local_owner_id n)) (Some (en_local_owner_id n)) now in
  let '(r, p) := set_known_leader (en_local_owner_id n) term (en_control_plane n) in
  (r, set_plane n p).

Definition step_down (term : Z) (leader : option P2pId) (now : Timestamp) (n : OwnerElectionNode)
    : P2pResult unit * OwnerElectionNode :=
  let n := set_state n Follower (Z.max (en_current_term n) term) None leader now in
  match leader with
  | Some l => let '(r, p) := set_known_leader l term (en_control_plane n) in (r, set_plane n p)
  | None => (Ok tt, n)
  end.

(** ** Handlers *)

Definition refuse_vote (n : OwnerElectionNode) : OwnerVoteResponse :=
  mkVoteResponse (en_current_term n) false (en_leader_id n).

Definition receive_vote_request (remote : P2pId) (q : OwnerVoteRequest) (now : Timestamp)
    (n : OwnerElectionNode) : OwnerVoteResponse * OwnerElectionNode :=
  if negb (is_member n remote) || negb (bool_decide (remote = vq_candidate_id q))
  then (refuse_vote n, n)
  else if vq_term q <? en_current_term n then (refuse_vote n, n)
  else
    let n := if en_current_term n <? vq_term q
             then set_state n Follower (vq_term q) None None (en_last_heartbeat_at n) else n in
    let granted := match en_voted_for n with
                   | Some v => bool_decide (v = vq_candidate_id q)
                   | None => true
                   end in
    let n := if granted
             then set_state n (en_role n) (en_current_term n) (Some (vq_candidate_id q)) (en_leader_id n) now
             else n in
    (mkVoteResponse (en_current_term n) granted (en_leader_id n), n).

Definition receive_heartbeat (remote : P2pId) (q : OwnerHeartbeatRequest) (now : Timestamp)
    (n : OwnerElectionNode) : OwnerHeartbeatResponse * OwnerElectionNode :=
  if negb (is_member n remote) || negb (bool_decide (remote = hq_leader_id q))
  then (mkHeartbeatResponse (en_current_term n) false (en_leader_id n), n)
  else if hq_term q <? en_current_term n
  then (mkHeartbeatResponse (en_current_term n) false (en_leader_id n), n)
  else
    let n := set_state n Follower (hq_term q) None (Some (hq_leader_id q)) now in
    let '(_, p) := set_known_leader (hq_leader_id q) (hq_term q) (en_control_plane n) in
    let n := set_plane n p in
    (mkHeartbeatResponse (en_current_term n) true (en_leader_id n), n).

Definition replication_response (n : OwnerElectionNode) (accepted : bool) : OwnerSessionReplicationResponse :=
  mkReplicationResponse (en_current_term n) accepted (cp_committed_index (en_control_plane n)) (en_leader_id n).

Definition receive_session_replication (remote : P2pId) (q : OwnerSessionReplication) (now : Timestamp)
    (n : OwnerElectionNode) : OwnerSessionReplicationResponse * OwnerElectionNode :=
  if negb (is_member n remote) || negb (bool_decide (remote = rp_leader_id q))
  then (replication_response n false, n)
  else
    let '(hb, n) := receive_heartbeat remote
      (mkHeartbeat (rp_term q) (rp_leader_id q) (cp_committed_index (en_control_plane n))) now n in
    if negb (hr_accepted hb)
    then (mkReplicationResponse (hr_term hb) false (cp_committed_index (en_control_plane n))
            (hr_leader_id hb), n)
    else if negb (rp_committed q) then (replication_response n true, n)
    else
      let '(r, p) := apply_committed_session_entry (rp_leader_id q) (rp_term q) (rp_entry q) (rp_now q)
                       (en_control_plane n) in
      let n := set_plane n p in
      match r with
      | Ok i => (mkReplicationResponse (en_current_term n) true i (en_leader_id n), n)
      | Err _ => (replication_response n false, n)
      end.

(** ** Procedures *)

Section procedures.
(** The attached client, if any. *)
Context (peer_client : option OwnerPeerControlClient).

(** [peer_client()] is called when there are remote members. *)
Definition needs_client (n : OwnerElectionNode) : bool :=
  negb (bool_decide (remote_members n = [])) && bool_decide (peer_client = None).

Definition election_begin (now : Timestamp) (n : OwnerElectionNode) : Z * OwnerElectionNode :=
  let term := Z.max (saturating_add (en_current_term n) 1) 1 in
  (term, set_state n Candidate term (Some (en_local_owner_id n)) None now).

(** The loop over the remote members: [inl] is the early exit on a higher
    term, with that term and the leader named in the answer. *)
Fixpoint vote_loop (ask : P2pId -> P2pResult OwnerVoteResponse) (term : Z) (todo : list P2pId)
    (votes : nat) (highest : Z) : (Z * option P2pId) + (nat * Z) :=
  match todo with
  | [] => inr (votes, highest)
  | j :: todo =>
      match ask j with
      | Ok resp =>
          if term <? vr_term resp then inl (vr_term resp, vr_leader_id resp)
          else vote_loop ask term todo (if vr_granted resp then S votes else votes)
                 (Z.max highest (vr_term resp))
      | Err _ => vote_loop ask term todo votes highest
      end
  end.

(** The loops of [send_heartbeat] and of the first phase of
    [replicate_and_commit]: [inl] is the early exit. *)
Fixpoint accept_loop {R} (ask : P2pId -> P2pResult R) (rterm : R -> Z) (raccepted : R -> bool)
    (rleader : R -> option P2pId) (term : Z) (todo : list P2pId) (accepted : nat)
    : (Z * option P2pId) + nat :=
  match todo with
  | [] => inr accepted
  | j :: todo =>
      match ask j with
      | Ok resp =>
          if term <? rterm resp then inl (rterm resp, rleader resp)
          else accept_loop ask rterm raccepted rleader term todo
                 (if raccepted resp then S accepted else accepted)
      | Err _ => accept_loop ask rterm raccepted rleader term todo accepted
      end
  end.

(** [self.step_down(..)?; return Err(code)]. *)
Definition step_down_err {A} (term : Z) (leader : option P2pId) (now : Timestamp)
    (code : P2pErrorCode.t) (n : OwnerElectionNode) : P2pResult A * OwnerElectionNode :=
  let '(r, n) := step_down term leader now n in
  (match r with Ok _ => Err code | Err e => Err e end, n).

Definition send_heartbeat (now : Timestamp) (n : OwnerElectionNode)
    : option (P2pResult nat * OwnerElectionNode) :=
  match require_leader n with
  | Err e => Some (Err e, n)
  | Ok (term, leader_id) =>
      if needs_client n then None
      else
        let q := mkHeartbeat term leader_id (cp_committed_index (en_control_plane n)) in
        let ask j := match peer_client with Some c => client_heartbeat c j q | None => Err P2pErrorCode.Failed end in
        Some match accept_loop ask hr_term hr_accepted hr_leader_id term (remote_members n) 1 with
             | inl (t, l) => step_down_err t l now P2pErrorCode.PermissionDenied n
             | inr accepted => (Ok accepted, n)
             end
  end.

Definition start_election (now : Timestamp) (n : OwnerElectionNode)
    : option (P2pResult P2pId * OwnerElectionNode) :=
  let '(term, n) := election_begin now n in
  if needs_client n then None
  else
    let ask j := match peer_client with
                 | Some c => request_vote c j (mkVoteRequest term (en_local_owner_id n))
                 | None => Err P2pErrorCode.Failed
                 end in
    match vote_loop ask term (remote_members n) 1 term with
    | inl (t, l) => Some (step_down_err t l now P2pErrorCode.PermissionDenied n)
    | inr (votes, highest) =>
        if (node_quorum_size n <=? votes)%nat then
          let '(r, n) := become_leader term now n in
          match r with
          | Err e => Some (Err e, n)
          | Ok _ =>
              match send_heartbeat now n with
              | None => None
              | Some (_, n) => Some (Ok (en_local_owner_id n), n)
              end
          end
        else Some (step_down_err highest None now P2pErrorCode.NotFound n)
    end.

Definition tick (now : Timestamp) (n : OwnerElectionNode)
    : option (P2pResult (option P2pId) * OwnerElectionNode) :=
  if negb (bool_decide (en_role n = Leader))
     && (duration_to_bucky_time DEFAULT_HEARTBEAT_TIMEOUT
         <? saturating_sub now (en_last_heartbeat_at n))
  then match start_election now n with
       | None => None
       | Some (Ok id, n) => Some (Ok (Some id), n)
       | Some (Err e, n) => Some (Err e, n)
       end
  else Some (Ok (en_leader_id n), n).

(** The answers to the second, committed round are only logged. *)
Definition replicate_and_commit (e : OwnerSessionEntry) (now : Timestamp) (n : OwnerElectionNode)
    : option (P2pResult Z * OwnerElectionNode) :=
  match require_leader n with
  | Err err => Some (Err err, n)
  | Ok (term, leader_id) =>
      if needs_client n then None
      else
        let ask j := match peer_client with
                     | Some c => replicate_session c j (mkReplication term leader_id e now false)
                     | None => Err P2pErrorCode.Failed
                     end in
        Some match accept_loop ask rr_term rr_accepted rr_leader_id term (remote_members n) 1 with
             | inl (t, l) => step_down_err t l now P2pErrorCode.PermissionDenied n
             | inr accepted =>
                 if (accepted <? node_quorum_size n)%nat then (Err P2pErrorCode.NotFound, n)
                 else
                   let '(r, p) := apply_committed_session_entry leader_id term e now
                                    (en_control_plane n) in
                   (r, set_plane n p)
             end
  end.

Definition commit_or_forward_session (e : OwnerSessionEntry) (now : Timestamp)
    (n : OwnerElectionNode) : option (P2pResult Z * OwnerElectionNode) :=
  if bool_decide (en_role n = Leader) then replicate_and_commit e now n
  else match en_leader_id n with
       | None => Some (Err P2pErrorCode.NotFound, n)
       | Some leader =>
           match peer_client with
           | None => None
           | Some c =>
               Some (resp <-? forward_session c leader (mkForward e now) ;;
                     (if fr_accepted resp then Ok (fr_committed_index resp)
                      else Err P2pErrorCode.PermissionDenied), n)
           end
       end.

Definition node_renew_serving_session (serving : P2pId) (epoch : Z) (ttl : Duration)
    (now : Timestamp) : OwnerElectionNode -> option (P2pResult Z * OwnerElectionNode) :=
  commit_or_forward_session (RenewServingSession (session_online serving ttl now)) now.
Definition node_revoke_serving_session (serving : P2pId) (epoch : Z) (now : Timestamp)
    : OwnerElectionNode -> option (P2pResult Z * OwnerElectionNode) :=
  commit_or_forward_session (RevokeServingSession serving) now.

Definition receive_session_forward (remote : P2pId) (q : OwnerSessionForward)
    (n : OwnerElectionNode) : option (OwnerSessionForwardResponse * OwnerElectionNode) :=
  if negb (is_member n remote)
  then Some (mkForwardResponse (en_current_term n) false
               (cp_committed_index (en_control_plane n)) (en_leader_id n), n)
  else match commit_or_forward_session (fw_entry q) (fw_now q) n with
       | None => None
       | Some (Ok i, n) => Some (mkForwardResponse (en_current_term n) true i (en_leader_id n), n)
       | Some (Err _, n) =>
           Some (mkForwardResponse (en_current_term n) false
                   (cp_committed_index (en_control_plane n)) (en_leader_id n), n)
       end.
End procedures.

(** ** Votes *)

(** Everything that changes the election state of a node, one constructor per
    critical section of the code: the three handlers, the beginning of an
    election, the taking of the leadership once the votes are in (any time
    later, since the node answers other members while it waits), the stepping
    down, a change of the control plane alone, and a restart of the process,
    which keeps nothing. *)
Inductive node_op : Type :=
| OpVote (remote : P2pId) (q : OwnerVoteRequest) (now : Timestamp)
| OpHeartbeat (remote : P2pId) (q : OwnerHeartbeatRequest) (now : Timestamp)
| OpReplication (remote : P2pId) (q : OwnerSessionReplication) (now : Timestamp)
| OpBegin (now : Timestamp)
| OpLead (term : Z) (now : Timestamp)
| OpStepDown (term : Z) (leader : option P2pId) (now : Timestamp)
| OpPlane (p : OwnerControlPlane)
| OpRestart (now : Timestamp).

Definition apply_op (op : node_op) (n : OwnerElectionNode) : OwnerElectionNode :=
  match op with
  | OpVote remote q now => snd (receive_vote_request remote q now n)
  | OpHeartbeat remote q now => snd (receive_heartbeat remote q now n)
  | OpReplication remote q now => snd (receive_session_replication remote q now n)
  | OpBegin now => snd (election_begin now n)
  | OpLead term now => snd (become_leader term now n)
  | OpStepDown term leader now => snd (step_down term leader now n)
  | OpPlane p => set_plane n p
  | OpRestart now => node_with_control_plane (en_local_owner_id n) (en_membership n) now
  end.

(** The vote an operation casts: the one granted in an answer, or the
    candidate's own. *)
Definition votes_of (op : node_op) (n : OwnerElectionNode) : list (Z * P2pId) :=
  match op with
  | OpVote remote q now =>
      if vr_granted (fst (receive_vote_request remote q now n)) then [(vq_term q, vq_candidate_id q)] else []
  | OpBegin now => [(fst (election_begin now n), en_local_owner_id n)]
  | _ => []
  end.

Fixpoint run_ops (ops : list node_op) (n : OwnerElectionNode) : OwnerElectionNode :=
  match ops with [] => n | op :: ops => run_ops ops (apply_op op n) end.

Fixpoint votes_cast (ops : list node_op) (n : OwnerElectionNode) : list (Z * P2pId) :=
  match ops with [] => [] | op :: ops => votes_of op n ++ votes_cast ops (apply_op op n) end.

(** The operations that make a node forget how it voted in term [t]. *)
Definition forgets (t : Z) (n : OwnerElectionNode) (op : node_op) : bool :=
  let here := (en_current_term n =? t) && bool_decide (is_Some (en_voted_for n)) in
  let other := (en_current_term n =? t) && match en_voted_for n with
                                           | Some c => negb (bool_decide (c = en_local_owner_id n))
                                           | None => false
                                           end in
  match op with
  | OpVote _ _ _ | OpBegin _ | OpPlane _ => false
  (* an accepted heartbeat or replication of that very term *)
  | OpHeartbeat remote q _ =>
      here && is_member n remote && bool_decide (remote = hq_leader_id q) && (hq_term q =? t)
  | OpReplication remote q _ =>
      here && is_member n remote && bool_decide (remote = rp_leader_id q) && (rp_term q =? t)
  (* stepping down without entering a newer term *)
  | OpStepDown term _ _ => here && (term <=? t)
  (* taking the leadership of a term the node has left, or has voted in for another *)
  | OpLead term _ => (term <=? t) && (t <=? en_current_term n) && ((term <? en_current_term n) || other)
  (* losing the state *)
  | OpRestart _ => t <=? en_current_term n
  end.

(** The node still holds its vote [c] of term [t]: the term is over, or it is
    the current one and the vote is recorded. *)
Definition holds_vote (t : Z) (c : P2pId) (n : OwnerElectionNode) : Prop :=
  t < en_current_term n \/ (en_current_term n = t /\ en_voted_for n = Some c).

(** What answering a vote request does. *)
Lemma receive_vote_request_cases remote q now n resp n' :
  receive_vote_request remote q now n = (resp, n') ->
  (vr_granted resp = false /\ en_current_term n <= en_current_term n'
   /\ (en_current_term n' = en_current_term n -> en_voted_for n' = en_voted_for n))
  \/ (vr_granted resp = true /\ vq_term q = en_current_term n' /\ en_current_term n <= en_current_term n'
      /\ en_voted_for n' = Some (vq_candidate_id q)
      /\ (en_current_term n' = en_current_term n ->
          en_voted_for n = None \/ en_voted_for n = Some (vq_candidate_id q))).
Proof.
  unfold receive_vote_request. destruct (negb _ || negb _); [intros [= <- <-]; left; split_and!; simpl; done || lia|].
  destruct (Z.ltb_spec (vq_term q) (en_current_term n)); [intros [= <- <-]; left; split_and!; simpl; done || lia|].
  destruct (Z.ltb_spec (en_current_term n) (vq_term q)); cbn [en_voted_for set_state].
  - intros [= <- <-]. right. simpl. split_and!; lia || done.
  - destruct (en_voted_for n) as [v|] eqn:E; [case_bool_decide; subst|]; intros [= <- <-]; simpl.
    + right. split_and!; try lia; auto.
    + left. rewrite E. split_and!; try lia; auto.
    + right. split_and!; try lia; auto.
Qed.

(** What an accepted heartbeat does to term and vote, and the other answers. *)
Lemma receive_heartbeat_cases remote q now n resp n' :
  receive_heartbeat remote q now n = (resp, n') ->
  (n' = n /\ hr_accepted resp = false)
  \/ (is_member n remote = true /\ remote = hq_leader_id q /\ en_current_term n <= hq_term q
      /\ hr_accepted resp = true /\ en_current_term n' = hq_term q /\ en_voted_for n' = None).
Proof.
  unfold receive_heartbeat. destruct (is_member n remote) eqn:Em; [|intros [= <- <-]; by left].
  case_bool_decide; simpl; [|intros [= <- <-]; by left].
  destruct (Z.ltb_spec (hq_term q) (en_current_term n)); [intros [= <- <-]; by left|].
  destruct (set_known_leader _ _ _). intros [= <- <-]. right. simpl. split_and!; done || lia.
Qed.

Lemma receive_session_replication_cases remote q now n resp n' :
  receive_session_replication remote q now n = (resp, n') ->
  n' = n
  \/ (is_member n remote = true /\ remote = rp_leader_id q /\ en_current_term n <= rp_term q
      /\ en_current_term n' = rp_term q /\ en_voted_for n' = None).
Proof.
  unfold receive_session_replication. destruct (negb _ || negb _); [intros [= <- <-]; by left|].
  destruct (receive_heartbeat _ _ _ _) as [hb n1] eqn:Eh.
  apply receive_heartbeat_cases in Eh as [[-> ->]|(Hm & Hr & Hle & -> & Ht & Hv)]; [intros [= <- <-]; by left|].
  simpl in *. intros H. right. split_and!; try done; revert H;
    destruct (negb (rp_committed q)); try (by intros [= <- <-]);
    destruct (apply_committed_session_entry _ _ _ _ _) as [[i|e] p]; by intros [= <- <-].
Qed.

(** A vote is held once cast. *)
Lemma vote_held t c op n : (t, c) ∈ votes_of op n -> holds_vote t c (apply_op op n).
Proof.
  destruct op as [remote q now| | |now| | | |]; cbn [votes_of apply_op]; try by intros ?%not_elem_of_nil.
  - destruct (receive_vote_request remote q now n) as [resp n'] eqn:H.
    apply receive_vote_request_cases in H as [(Hg & _)|(Hg & Hq & _ & Hv & _)]; simpl; rewrite Hg;
      [by intros ?%not_elem_of_nil|]. intros [= -> ->]%list_elem_of_singleton. by right.
  - intros [= -> ->]%list_elem_of_singleton. by right.
Qed.

(** A held vote survives whatever does not forget it, and no other vote is
    cast in its term meanwhile. *)
Lemma held_vote_kept t c op n :
  t < u64_max -> holds_vote t c n -> forgets t n op = false -> holds_vote t c (apply_op op n).
Proof.
  unfold holds_vote. intros Ht Hh Hf.
  destruct op as [remote q now|remote q now|remote q now|now|term now|term leader now|p|now]; cbn [apply_op].
  - destruct (receive_vote_request remote q now n) as [resp n'] eqn:H. simpl.
    apply receive_vote_request_cases in H as [(_ & Hle & Hv)|(_ & _ & Hle & Hv & Hn)];
      destruct Hh as [Hh|[Hh Hc]]; try (left; lia);
      (destruct (decide (en_current_term n' = t)) as [He|He]; [right|left; lia]); split; try done.
    + rewrite Hv; [done|lia].
    + destruct Hn as [|Hn]; [lia|congruence|]. congruence.
  - destruct (receive_heartbeat remote q now n) as [resp n'] eqn:H. simpl.
    apply receive_heartbeat_cases in H as [[-> _]|(Hm & Hr & Hle & _ & -> & _)]; [done|].
    destruct Hh as [Hh|[Hh Hc]]; left; [lia|]. simpl in Hf. rewrite Hm, Hc, Hh, !bool_decide_true in Hf by eauto. lia.
  - destruct (receive_session_replication remote q now n) as [resp n'] eqn:H. simpl.
    apply receive_session_replication_cases in H as [->|(Hm & Hr & Hle & -> & _)]; [done|].
    destruct Hh as [Hh|[Hh Hc]]; left; [lia|]. simpl in Hf. rewrite Hm, Hc, Hh, !bool_decide_true in Hf by eauto. lia.
  - simpl in *. unfold saturating_add. left. lia.
  - unfold become_leader. destruct (set_known_leader _ _ _) as [r p]. simpl in *.
    destruct Hh as [Hh|[Hh Hc]]; [left; lia|]. rewrite Hc in Hf.
    destruct (decide (t < term)); [by left|]. right. case_bool_decide; simpl in Hf; [|lia]. subst. split; [lia|done].
  - unfold step_down. simpl in Hf.
    assert (H : t < Z.max (en_current_term n) term).
    { destruct Hh as [Hh|[Hh Hc]]; [lia|]. rewrite Hc, bool_decide_true in Hf by eauto. lia. }
    destruct leader as [l|]; [destruct (set_known_leader _ _ _)|]; simpl; by left.
  - done.
  - simpl in Hf. lia.
Qed.

Lemma held_vote_excludes t c c' op n :
  t < u64_max -> holds_vote t c n -> (t, c') ∈ votes_of op n -> c' = c.
Proof.
  unfold holds_vote. intros Ht Hh. destruct op as [remote q now| | |now| | | |]; cbn [votes_of];
    try by intros ?%not_elem_of_nil.
  - destruct (receive_vote_request remote q now n) as [resp n'] eqn:H.
    apply receive_vote_request_cases in H as [(Hg & _)|(Hg & Hq & Hle & Hv & Hn)]; simpl; rewrite Hg;
      [by intros ?%not_elem_of_nil|]. intros [= -> ->]%list_elem_of_singleton.
    destruct Hh as [Hh|[Hh Hc]]; [lia|]. destruct Hn; [lia|congruence..].
  - intros [= Hb ->]%list_elem_of_singleton. simpl in Hb. unfold saturating_add in Hb. lia.
Qed.

(** [ops] cast a vote for [a] in term [t], later forgot it, and from then on
    cast one for [b]. *)
Definition forgot_between (t : Z) (a b : P2pId) (ops : list node_op) (n : OwnerElectionNode) : Prop :=
  exists before op after,
    ops = before ++ op :: after
    /\ (t, a) ∈ votes_cast before n
    /\ forgets t (run_ops before n) op = true
    /\ (t, b) ∈ votes_cast after (run_ops (before ++ [op]) n).

Lemma held_then_other t a b ops n :
  t < u64_max -> a <> b -> holds_vote t a n -> (t, b) ∈ votes_cast ops n ->
  exists before op after, ops = before ++ op :: after /\ forgets t (run_ops before n) op = true
    /\ (t, b) ∈ votes_cast after (run_ops (before ++ [op]) n).
Proof.
  intros Ht Hab. revert n. induction ops as [|op ops IH]; intros n Hh; simpl; [by intros ?%not_elem_of_nil|].
  intros [Hin|Hin]%elem_of_app.
  { by apply (held_vote_excludes t a b) in Hin. }
  destruct (forgets t n op) eqn:Hf; [by exists [], op, ops|].
  destruct (IH (apply_op op n)) as (l1 & o & l2 & -> & Ho & Hb); [by apply held_vote_kept|done|].
  by exists (op :: l1), o, l2.
Qed.

Lemma one_vote_per_op t a b op n : (t, a) ∈ votes_of op n -> (t, b) ∈ votes_of op n -> a = b.
Proof.
  destruct op; cbn [votes_of]; try by intros ?%not_elem_of_nil.
  - case_match; [|by intros ?%not_elem_of_nil]. by intros [= -> ->]%list_elem_of_singleton [= ->]%list_elem_of_singleton.
  - by intros [= -> ->]%list_elem_of_singleton [= ->]%list_elem_of_singleton.
Qed.

(** A node votes for two candidates in a term only after forgetting the first. *)
Lemma voted_twice_forgot t a b ops n :
  t < u64_max -> a <> b -> (t, a) ∈ votes_cast ops n -> (t, b) ∈ votes_cast ops n ->
  forgot_between t a b ops n \/ forgot_between t b a ops n.
Proof.
  intros Ht Hab. revert n. induction ops as [|op ops IH]; intros n; simpl; [by intros ?%not_elem_of_nil|].
  assert (Hcons : forall x y, forgot_between t x y ops (apply_op op n) -> forgot_between t x y (op :: ops) n).
  { intros x y (l1 & o & l2 & -> & Hx & Ho & Hy). exists (op :: l1), o, l2.
    split_and!; [done| |done|done]. simpl. apply elem_of_app. by right. }
  assert (Hfirst : forall x y, x <> y -> (t, x) ∈ votes_of op n -> (t, y) ∈ votes_cast ops (apply_op op n) ->
            forgot_between t x y (op :: ops) n).
  { intros x y Hxy Hx Hy. destruct (held_then_other t x y ops (apply_op op n)) as (l1 & o & l2 & -> & Ho & Hy');
      [done|done|by apply vote_held|done|]. exists (op :: l1), o, l2. split_and!; [done| |done|done].
    simpl. apply elem_of_app. by left. }
  intros [Ha|Ha]%elem_of_app [Hb|Hb]%elem_of_app.
  - by destruct (Hab (one_vote_per_op _ _ _ _ _ Ha Hb)).
  - left. auto.
  - right. auto.
  - destruct (IH _ Ha Hb); auto.
Qed.

(** The composed procedures are sequences of these operations, whatever the
    other members answer. *)
Lemma run_ops_app l1 l2 n : run_ops (l1 ++ l2) n = run_ops l2 (run_ops l1 n).
Proof. revert n. induction l1 as [|o l1 IH]; intros n; simpl; auto. Qed.

Definition by_ops (n n' : OwnerElectionNode) : Prop := exists ops, run_ops ops n = n'.

Lemma step_down_err_ops {A} term leader now code n (r : P2pResult A) n' :
  step_down_err term leader now code n = (r, n') -> run_ops [OpStepDown term leader now] n = n'.
Proof. unfold step_down_err. simpl. by destruct (step_down _ _ _ _) as [[] ?]; intros [= _ <-]. Qed.

Lemma send_heartbeat_ops client now n r n' : send_heartbeat client now n = Some (r, n') -> by_ops n n'.
Proof.
  unfold send_heartbeat. intros H. repeat (case_match; simplify_eq/=); try (by exists []);
    eexists; by eapply step_down_err_ops.
Qed.

Lemma start_election_ops client now n r n' :
  start_election client now n = Some (r, n') ->
  exists ops, run_ops (OpBegin now :: ops) n = n'.
Proof.
  unfold start_election. cbn [election_begin run_ops apply_op snd]. intros H.
  destruct (needs_client _ _); [done|]. destruct (vote_loop _ _ _ _ _) as [[t l]|[v h]].
  { apply Some_inj in H. eexists. by eapply step_down_err_ops. }
  destruct (_ <=? _)%nat; [|apply Some_inj in H; eexists; by eapply step_down_err_ops].
  destruct (become_leader _ _ _) as [[u|e] nl] eqn:Hb;
    [|injection H as <- <-; eexists [OpLead _ now]; cbn [run_ops apply_op]; by rewrite Hb].
  destruct (send_heartbeat _ _ _) as [[rh nh]|] eqn:Hh; [|done]. injection H as <- <-.
  apply send_heartbeat_ops in Hh as [ops <-]. eexists (OpLead _ now :: ops). cbn [run_ops apply_op]. by rewrite Hb.
Qed.

Lemma replicate_and_commit_ops client e now n r n' :
  replicate_and_commit client e now n = Some (r, n') -> by_ops n n'.
Proof.
  unfold replicate_and_commit. intros H. repeat (case_match; simplify_eq/=); try (by exists []);
    (by eexists [OpPlane _]) || (eexists; by eapply step_down_err_ops).
Qed.

Lemma tick_ops client now n r n' : tick client now n = Some (r, n') -> by_ops n n'.
Proof.
  unfold tick. intros H. case_match; [|simplify_eq; by exists []].
  destruct (start_election _ _ _) as [[r0 n0]|] eqn:Hs; [|done].
  apply start_election_ops in Hs as [ops <-]. destruct r0; simplify_eq; by eexists.
Qed.

Lemma session_forward_ops client remote q n resp n' :
  receive_session_forward client remote q n = Some (resp, n') -> by_ops n n'.
Proof.
  unfold receive_session_forward, commit_or_forward_session. intros H.
  repeat (case_match; simplify_eq/=); (by exists []) || by eapply replicate_and_commit_ops.
Qed.

(** ** Quorums *)

(** Two majorities of one membership have a member in common. *)
Lemma quorum_intersect m (q1 q2 : gset P2pId) :
  (forall v, v ∈ q1 -> v ∈ member_ids m) -> (forall v, v ∈ q2 -> v ∈ member_ids m) ->
  (quorum_size m <= size q1)%nat -> (quorum_size m <= size q2)%nat -> exists v, v ∈ q1 /\ v ∈ q2.
Proof.
  intros H1 H2 Hs1 Hs2. destruct (decide (q1 ## q2)) as [Hd|Hd].
  - exfalso. pose proof (size_union q1 q2 Hd) as Hu.
    assert (Hsub : q1 ∪ q2 ⊆ (list_to_set (member_ids m) : gset P2pId)) by set_solver.
    apply subseteq_size in Hsub. pose proof (size_list_to_set_le (member_ids m)) as Hl.
    unfold member_ids in Hl at 2. rewrite length_fmap in Hl. unfold quorum_size in *.
    pose proof (Nat.div_mod_eq (length (members m)) 2).
    pose proof (Nat.mod_upper_bound (length (members m)) 2). lia.
  - apply dec_stable. intros Hno. apply Hd. intros v Hv1 Hv2. eauto.
Qed.

(** C4: two winners of one term take a forgotten vote: let every member run
    any sequence of the operations that change its election state - answering
    votes, heartbeats and replications, beginning elections, taking a
    leadership at any later moment, stepping down, restarting - in any order
    and with any arguments.  If a quorum of members voted for one candidate in
    a term (any term before the last one a u64 can number) and a quorum for
    another, then some member of both quorums voted for the one, then executed
    an operation that made it forget that vote, and then voted for the other;
    the operations that can do so are those of [forgets]: an accepted heartbeat
    or replication of the term it is in, stepping down without entering a newer
    term, taking the leadership of a term it has left or voted in for somebody
    else, and a restart.  Answering a vote request and beginning an election
    never do. *)
Theorem election_safety_votes m (start : P2pId -> OwnerElectionNode) (ops : P2pId -> list node_op)
    t c1 c2 (q1 q2 : gset P2pId) :
  t < u64_max ->
  (forall v, v ∈ q1 -> v ∈ member_ids m /\ (t, c1) ∈ votes_cast (ops v) (start v)) ->
  (forall v, v ∈ q2 -> v ∈ member_ids m /\ (t, c2) ∈ votes_cast (ops v) (start v)) ->
  (quorum_size m <= size q1)%nat -> (quorum_size m <= size q2)%nat ->
  c1 = c2
  \/ exists v, v ∈ q1 /\ v ∈ q2
      /\ (forgot_between t c1 c2 (ops v) (start v) \/ forgot_between t c2 c1 (ops v) (start v)).
Proof.
  intros Ht H1 H2 Hs1 Hs2. destruct (decide (c1 = c2)) as [->|Hne]; [by left|right].
  destruct (quorum_intersect m q1 q2) as (v & Hv1 & Hv2); [naive_solver..|].
  exists v. split_and!; [done..|]. apply voted_twice_forgot; [done|done|by apply H1|by apply H2].
Qed.

(** ** Winning an election takes a quorum *)

(** The member answered, and its answer says yes. *)
Definition says_yes {R} (yes : R -> bool) (ask : P2pId -> P2pResult R) (j : P2pId) : bool :=
  match ask j with Ok resp => yes resp | Err _ => false end.

Definition count_yes {R} (yes : R -> bool) (ask : P2pId -> P2pResult R) (l : list P2pId) : nat :=
  length (filter (fun j => says_yes yes ask j = true) l).

Lemma count_yes_cons {R} (yes : R -> bool) ask j l :
  count_yes yes ask (j :: l) = ((if says_yes yes ask j then 1 else 0) + count_yes yes ask l)%nat.
Proof.
  unfold count_yes. rewrite filter_cons. by destruct (decide _) as [H|H]; destruct (says_yes yes ask j).
Qed.

Lemma vote_loop_count ask term todo votes highest v h :
  vote_loop ask term todo votes highest = inr (v, h) ->
  v = (votes + count_yes vr_granted ask todo)%nat.
Proof.
  revert votes highest. induction todo as [|j todo IH]; intros votes highest H; simpl in H.
  - simplify_eq. unfold count_yes. simpl. lia.
  - rewrite count_yes_cons. unfold says_yes at 1. destruct (ask j) as [resp|e]; [|by apply IH in H].
    destruct (term <? vr_term resp); [done|]. apply IH in H. destruct (vr_granted resp); lia.
Qed.

Lemma accept_loop_count {R} (ask : P2pId -> P2pResult R) rterm racc rlead term todo a0 a :
  accept_loop ask rterm racc rlead term todo a0 = inr a -> a = (a0 + count_yes racc ask todo)%nat.
Proof.
  revert a0. induction todo as [|j todo IH]; intros a0 H; simpl in H.
  - simplify_eq. unfold count_yes. simpl. lia.
  - rewrite count_yes_cons. unfold says_yes at 1. destruct (ask j) as [resp|e]; [|by apply IH in H].
    destruct (term <? rterm resp); [done|]. apply IH in H. destruct (racc resp); lia.
Qed.

(** Stepping down touches neither the log nor the sessions. *)
Lemma set_known_leader_log l t p r p' :
  set_known_leader l t p = (r, p') -> cp_log p' = cp_log p /\ cp_sessions p' = cp_sessions p.
Proof. unfold set_known_leader. intros H. by case_match; simplify_eq. Qed.

Lemma step_down_log t l now n r n' :
  step_down t l now n = (r, n') ->
  cp_log (en_control_plane n') = cp_log (en_control_plane n)
  /\ cp_sessions (en_control_plane n') = cp_sessions (en_control_plane n)
  /\ en_role n' = Follower /\ en_current_term n <= en_current_term n'.
Proof.
  unfold step_down. destruct l as [l|]; [|intros [= <- <-]; simpl; split_and!; done || lia].
  destruct (set_known_leader _ _ _) as [r0 p] eqn:E. intros [= <- <-]. simpl.
  apply set_known_leader_log in E as [? ?]. split_and!; done || lia.
Qed.

(** An election is won only with a quorum: if start_election reports
    success, the node itself and members that answered its vote request with a
    granted vote make up a majority of the membership, and the reported leader
    is the node. *)
Theorem election_needs_quorum client now n id n' :
  start_election client now n = Some (Ok id, n') ->
  let term := Z.max (saturating_add (en_current_term n) 1) 1 in
  let ask j := match client with
               | Some c => request_vote c j (mkVoteRequest term (en_local_owner_id n))
               | None => Err P2pErrorCode.Failed
               end in
  id = en_local_owner_id n
  /\ (node_quorum_size n <= 1 + count_yes vr_granted ask (remote_members n))%nat.
Proof.
  unfold start_election. cbn [election_begin]. destruct (needs_client _ _); [done|].
  destruct (vote_loop _ _ _ _ _) as [[t l]|[v h]] eqn:Hv.
  - unfold step_down_err. destruct (step_down _ _ _ _) as [[] ?]; congruence.
  - apply vote_loop_count in Hv. destruct (node_quorum_size _ <=? v)%nat eqn:Hq.
    + apply Nat.leb_le in Hq. destruct (become_leader _ _ _) as [[] nl] eqn:Hb; [|done].
      assert (Hid : en_local_owner_id nl = en_local_owner_id n).
      { unfold become_leader in Hb. by case_match; simplify_eq. }
      destruct (send_heartbeat _ _ _) as [[rh nh]|] eqn:Hh; [|done]. intros [= <- <-].
      subst v. split; [|exact Hq]. rewrite <-Hid. clear -Hh. unfold send_heartbeat in Hh.
      destruct (require_leader nl) as [[t l]|]; [|by simplify_eq].
      destruct (needs_client _ _); [done|]. destruct (accept_loop _ _ _ _ _ _ _) as [[t' l']|]; [|by simplify_eq].
      unfold step_down_err, step_down in Hh. by repeat (case_match; simplify_eq).
    + unfold step_down_err. destruct (step_down _ _ _ _) as [[] ?]; congruence.
Qed.

(** A session entry is committed only by a leader with a quorum of
    acceptances, and then exactly once: on success the node was leader, the
    members that accepted make a majority with it, and its log grew by exactly
    that entry with the session table updated by it; on failure its log and
    its sessions are unchanged. *)
Theorem commit_needs_quorum client e now n r n' :
  replicate_and_commit client e now n = Some (r, n') ->
  let ask j := match client with
               | Some c => replicate_session c j
                             (mkReplication (en_current_term n) (en_local_owner_id n) e now false)
               | None => Err P2pErrorCode.Failed
               end in
  match r with
  | Ok i =>
      en_role n = Leader
      /\ (node_quorum_size n <= 1 + count_yes rr_accepted ask (remote_members n))%nat
      /\ cp_log (en_control_plane n') = cp_log (en_control_plane n) ++ [e]
      /\ cp_sessions (en_control_plane n') = apply_entry (cp_sessions (en_control_plane n)) e now
      /\ i = Z.of_nat (length (cp_log (en_control_plane n')))
  | Err _ => cp_log (en_control_plane n') = cp_log (en_control_plane n)
             /\ cp_sessions (en_control_plane n') = cp_sessions (en_control_plane n)
  end.
Proof.
  unfold replicate_and_commit, require_leader. case_bool_decide as Hl; simpl negb; cbv iota;
    [|by intros [= <- <-]].
  destruct (needs_client _ _); [done|]. destruct (accept_loop _ _ _ _ _ _ _) as [[t l]|a] eqn:Ha.
  - intros [= H]. unfold step_down_err in H. destruct (step_down _ _ _ _) as [r0 n0] eqn:Hs.
    apply step_down_log in Hs as (? & ? & _ & _). by destruct r0; simplify_eq.
  - apply accept_loop_count in Ha. destruct (a <? node_quorum_size n)%nat eqn:Hq; [by intros [= <- <-]|].
    apply Nat.ltb_ge in Hq. unfold apply_committed_session_entry.
    destruct (member _ _); intros [= <- <-]; [|done]. simpl. subst a. split_and!; done.
Qed.

(** A replica applies only committed entries of its leader: a session
    replication that is not marked committed, or comes from a stale term, from
    a non-member or in another node's name, leaves log and sessions unchanged;
    a committed one appends and applies exactly its entry; and none of the
    handlers ever lowers the term. *)
Theorem replica_applies_only_committed remote q now n resp n' :
  receive_session_replication remote q now n = (resp, n') ->
  en_current_term n <= en_current_term n'
  /\ if rr_accepted resp && rp_committed q
     then remote = rp_leader_id q /\ en_current_term n <= rp_term q
          /\ cp_log (en_control_plane n') = cp_log (en_control_plane n) ++ [rp_entry q]
          /\ cp_sessions (en_control_plane n')
             = apply_entry (cp_sessions (en_control_plane n)) (rp_entry q) (rp_now q)
     else cp_log (en_control_plane n') = cp_log (en_control_plane n)
          /\ cp_sessions (en_control_plane n') = cp_sessions (en_control_plane n).
Proof.
  unfold receive_session_replication.
  destruct (negb _ || negb _) eqn:Hm; [intros [= <- <-]; simpl; split_and!; done || lia|].
  unfold receive_heartbeat. cbn [hq_leader_id hq_term]. rewrite Hm.
  destruct (Z.ltb_spec (rp_term q) (en_current_term n)).
  { intros [= <- <-]. simpl. split_and!; done || lia. }
  destruct (set_known_leader _ _ _) as [r p] eqn:Hk. apply set_known_leader_log in Hk as [Hkl Hks].
  simpl in *. bool_to_prop. destruct (rp_committed q); simpl.
  - unfold apply_committed_session_entry. destruct (member _ _); intros [= <- <-]; simpl;
      rewrite ?Hkl, ?Hks; split_and!; done || lia.
  - intros [= <- <-]. simpl. split_and!; done || lia.
Qed.

(** ** Where the single-leader guarantee ends *)

Definition owner_a : P2pId := mkP2pId [1].
Definition owner_b : P2pId := mkP2pId [2].
Definition owner_c : P2pId := mkP2pId [3].
Definition fresh_node (x : P2pId) : OwnerElectionNode := node_with_control_plane x members_123 0.

(** A client that reaches one member and times out on all others. *)
Definition client_reaching (target : P2pId) (vote : OwnerVoteRequest -> OwnerVoteResponse)
    (beat : OwnerHeartbeatRequest -> OwnerHeartbeatResponse) : OwnerPeerControlClient :=
  mkPeerClient
    (fun j q => if bool_decide (j = target) then Ok (vote q) else Err P2pErrorCode.Timeout)
    (fun j q => if bool_decide (j = target) then Ok (beat q) else Err P2pErrorCode.Timeout)
    (fun _ _ => Err P2pErrorCode.Timeout) (fun _ _ => Err P2pErrorCode.Timeout).

(** One term can have two leaders: with three fresh owner SNs of which
    the first and the third cannot reach each other, the first is elected in
    term 1 by the second; its heartbeat makes the second forget its vote, so
    the second also elects the third in term 1, and both stay leaders. *)
Theorem two_leaders_in_one_term :
  exists na nb1 nb2 nb3 nc ca cc,
    (* the election of the first node, and what its messages do to the second *)
    nb1 = snd (receive_vote_request owner_a (mkVoteRequest 1 owner_a) 100 (fresh_node owner_b))
    /\ nb2 = snd (receive_heartbeat owner_a (mkHeartbeat 1 owner_a 0) 100 nb1)
    /\ ca = client_reaching owner_b
              (fun q => fst (receive_vote_request owner_a q 100 (fresh_node owner_b)))
              (fun q => fst (receive_heartbeat owner_a q 100 nb1))
    /\ start_election (Some ca) 100 (fresh_node owner_a) = Some (Ok owner_a, na)
    (* the election of the third *)
    /\ nb3 = snd (receive_vote_request owner_c (mkVoteRequest 1 owner_c) 200 nb2)
    /\ cc = client_reaching owner_b
              (fun q => fst (receive_vote_request owner_c q 200 nb2))
              (fun q => fst (receive_heartbeat owner_c q 200 nb3))
    /\ start_election (Some cc) 200 (fresh_node owner_c) = Some (Ok owner_c, nc)
    (* both lead term 1 *)
    /\ en_role na = Leader /\ en_role nc = Leader
    /\ en_current_term na = 1 /\ en_current_term nc = 1.
Proof.
  do 7 eexists. split_and!; try reflexivity.
Qed.

(** Winning an election can undo a vote of a newer term: while a
    candidate awaits answers it may vote in a newer term; become_leader then
    sets the term back to the election's, so the node leads an old term and,
    asked again, votes for another candidate in the newer one. *)
Theorem interleaved_election_votes_twice :
  exists term n1 n2 n3 n4 r1 r2,
    election_begin 100 (fresh_node owner_b) = (term, n1)
    /\ receive_vote_request owner_a (mkVoteRequest (term + 1) owner_a) 110 n1 = (r1, n2)
    /\ become_leader term 120 n2 = (Ok tt, n3)
    /\ receive_vote_request owner_c (mkVoteRequest (term + 1) owner_c) 130 n3 = (r2, n4)
    /\ vr_granted r1 = true /\ vr_granted r2 = true
    /\ en_current_term n3 < en_current_term n2.
Proof.
  do 7 eexists. split_and!; reflexivity.
Qed.

(** ** Witnesses *)

Definition voting_node : OwnerElectionNode :=
  snd (receive_vote_request owner_a (mkVoteRequest 1 owner_a) 100 (fresh_node owner_b)).

(** The operations of the two-leaders run: the first and the third node begin
    elections, the second answers the first, hears its heartbeat, and answers
    the third. *)
Definition two_leader_ops (v : P2pId) : list node_op :=
  if bool_decide (v = owner_b)
  then [OpVote owner_a (mkVoteRequest 1 owner_a) 100; OpHeartbeat owner_a (mkHeartbeat 1 owner_a 0) 100;
        OpVote owner_c (mkVoteRequest 1 owner_c) 200]
  else [OpBegin 100; OpLead 1 110].

(** Two quorums that elected different nodes in term 1: the theorem finds the
    second node, and the votes it cast around a forgetting. *)
Lemma election_safety_votes_witness :
  exists v, v ∈ ({[owner_a; owner_b]} : gset P2pId)
    /\ (forgot_between 1 owner_a owner_c (two_leader_ops v) (fresh_node v)
        \/ forgot_between 1 owner_c owner_a (two_leader_ops v) (fresh_node v)).
Proof.
  destruct (election_safety_votes members_123 fresh_node two_leader_ops 1 owner_a owner_c
              {[owner_a; owner_b]} {[owner_b; owner_c]}) as [H|(v & H1 & _ & H)];
    [by vm_compute| | |by vm_compute|by vm_compute|by vm_compute in H|by exists v].
  - intros v [->%elem_of_singleton| ->%elem_of_singleton]%elem_of_union;
      split; apply (bool_decide_unpack _); by vm_compute.
  - intros v [->%elem_of_singleton| ->%elem_of_singleton]%elem_of_union;
      split; apply (bool_decide_unpack _); by vm_compute.
Defined.

Definition yes_client : OwnerPeerControlClient :=
  mkPeerClient (fun _ q => Ok (mkVoteResponse (vq_term q) true None))
    (fun _ q => Ok (mkHeartbeatResponse (hq_term q) true None))
    (fun _ q => Ok (mkReplicationResponse (rp_term q) true 0 None))
    (fun _ _ => Err P2pErrorCode.Timeout).

Definition leading_node : OwnerElectionNode :=
  match start_election (Some yes_client) 100 (fresh_node owner_a) with
  | Some (_, n) => n
  | None => fresh_node owner_a
  end.

Lemma election_needs_quorum_witness :
  (node_quorum_size (fresh_node owner_a) <=
     1 + count_yes vr_granted (fun j => request_vote yes_client j (mkVoteRequest 1 owner_a))
           (remote_members (fresh_node owner_a)))%nat.
Proof.
  apply (election_needs_quorum (Some yes_client) 100 (fresh_node owner_a) owner_a leading_node).
  by vm_compute.
Defined.

Lemma commit_needs_quorum_witness :
  exists n', replicate_and_commit (Some yes_client) (RevokeServingSession owner_c) 200 leading_node
             = Some (Ok 1, n')
  /\ cp_log (en_control_plane n') = [RevokeServingSession owner_c].
Proof.
  eexists. split; [by vm_compute|].
  eapply (commit_needs_quorum (Some yes_client) (RevokeServingSession owner_c) 200 leading_node (Ok 1)).
  by vm_compute.
Defined.

Lemma replica_applies_only_committed_witness :
  cp_log (en_control_plane (snd (receive_session_replication owner_a
    (mkReplication 1 owner_a (RevokeServingSession owner_c) 200 true) 210 (fresh_node owner_b))))
  = [RevokeServingSession owner_c].
Proof.
  destruct (replica_applies_only_committed owner_a
    (mkReplication 1 owner_a (RevokeServingSession owner_c) 200 true) 210 (fresh_node owner_b)
    (mkReplicationResponse 1 true 1 (Some owner_a))
    (snd (receive_session_replication owner_a
      (mkReplication 1 owner_a (RevokeServingSession owner_c) 200 true) 210 (fresh_node owner_b))))
    as (_ & _ & _ & H & _); [by vm_compute|]. exact H.
Defined.
