(* ===== verification/NatProbeScheduler.v ===== *)
(** * The NAT-probe scheduler of the SN service
      (src/p2p-frame/src/sn/service/nat_probe_scheduler.rs)

    Which command tunnel is authoritative for a peer, which probe directive is
    in flight, and which NAT profile is published.  The type of command-tunnel
    identifiers comes from the command-server library and is a parameter with
    decidable equality.  Log output is not modelled; the lists of affected
    peers, whose order is the hash map's, are sets. *)

From S2P Require Import Prelude Errors Ids Endpoint NatType SnProtocol.

Definition NAT_PROBE_PERIOD : Duration := from_secs (2 * 60 * 60).
Definition NAT_PROBE_DIRECTIVE_TIMEOUT : Duration := from_secs 30.
Definition MAX_CONCURRENT_NAT_PROBES : nat := 2048.

Inductive NatProbeTriggerReason := TriggerOnline | TriggerExternalAddress.

Inductive NatProbeResultRejectReason :=
| CapabilityUnsupported | VersionUnsupported | ProfileStale | SnMismatch | PeerMismatch
| RegistrationGenerationMismatch | ConfigGenerationMismatch | MissingInFlight | RequestMismatch
| DeadlineExpired.

Record InFlightProbe := mkInFlight { if_request_id : Z; if_expires_at : Timestamp }.

(** [(directive, profile_update)]; the update [Some None] invalidates the
    publication, [Some (Some p)] replaces it. *)
Record ProbeTransition := mkTransition {
  directive : option NatProbeDirective;
  profile_update : option (option NatProfile);
}.

Definition no_transition : ProbeTransition := mkTransition None None.

(** [ports.windows(2).all(|w| w[0] != w[1])]. *)
Fixpoint adjacent_distinct (l : list Z) : bool :=
  match l with
  | x :: (y :: _) as k => negb (x =? y) && adjacent_distinct k
  | _ => true
  end.

Definition ports_valid (sorted : list Z) : bool :=
  (2 <=? length sorted)%nat && (length sorted <=? MAX_NAT_PROBE_ENDPOINTS)%nat
  && forallb (fun p => negb (p =? 0)) sorted && adjacent_distinct sorted.

(** [wrapping_add(1).max(1)]. *)
Definition next_id (n : Z) : Z := Z.max (wrapping_add_u64 n 1) 1.

Section scheduler.
Context {CmdTunnelId : Type} `{!EqDecision CmdTunnelId}.

Record PeerProbeState := mkPeer {
  authority_tunnel_id : CmdTunnelId;
  remote_endpoint : Endpoint;
  registration_generation : Z;
  config_generation : Z;
  in_flight : option InFlightProbe;
  next_periodic_at : Timestamp;
  pending_trigger : option NatProbeTriggerReason;
  profile : option NatProfile;
  control_supported : bool;
}.

Record NatProbeScheduler := mkScheduler {
  sn_peer_id : P2pId;
  sch_ports : list Z;
  sch_config_generation : Z;
  next_registration_generation : Z;
  next_request_id : Z;
  peers : gmap P2pId PeerProbeState;
}.

Definition scheduler_new (id : P2pId) : NatProbeScheduler := mkScheduler id [] 1 1 1 ∅.

Definition set_peers (m : gmap P2pId PeerProbeState) (s : NatProbeScheduler) : NatProbeScheduler :=
  mkScheduler (sn_peer_id s) (sch_ports s) (sch_config_generation s)
    (next_registration_generation s) (next_request_id s) m.

(** The peer's state after its configuration was replaced. *)
Definition reconfigured (generation : Z) (p : PeerProbeState) : PeerProbeState :=
  mkPeer (authority_tunnel_id p) (remote_endpoint p) (registration_generation p) generation None
    (next_periodic_at p) (pending_trigger p) None (control_supported p).

Definition set_ports (ports : list Z) (s : NatProbeScheduler) : gset P2pId * NatProbeScheduler :=
  let ports := sort_by Z.leb ports in
  let ports := if ports_valid ports then ports else [] in
  if bool_decide (ports = sch_ports s) then (∅, s)
  else
    let generation := next_id (sch_config_generation s) in
    (dom (peers s),
     mkScheduler (sn_peer_id s) ports generation (next_registration_generation s)
       (next_request_id s) (reconfigured generation <$> peers s)).

Definition set_sn_peer_id (id : P2pId) (s : NatProbeScheduler) : NatProbeScheduler :=
  if bool_decide (sn_peer_id s = id) then s
  else mkScheduler id (sch_ports s) (sch_config_generation s) (next_registration_generation s)
         (next_request_id s) ∅.

Definition same_observed_path (registered reported : Endpoint) : bool :=
  bool_decide (protocol registered = protocol reported) && bool_decide (addr registered = addr reported).

Definition is_authoritative_report (p : PeerProbeState) (t : CmdTunnelId) (ep : Endpoint) : bool :=
  bool_decide (authority_tunnel_id p = t) || same_observed_path (remote_endpoint p) ep.

(** A report over a stream that cannot be probed drops the registration, when
    it comes over the stream that established it. *)
Definition observe_ineligible_report (peer : P2pId) (t : CmdTunnelId) (s : NatProbeScheduler)
    : ProbeTransition * NatProbeScheduler :=
  match peers s !! peer with
  | Some p =>
      if bool_decide (authority_tunnel_id p = t)
      then (mkTransition None (Some None), set_peers (delete peer (peers s)) s)
      else (no_transition, s)
  | None => (no_transition, s)
  end.

Definition finish_expired (peer : P2pId) (now : Timestamp) (tr : ProbeTransition)
    (s : NatProbeScheduler) : ProbeTransition * NatProbeScheduler :=
  match peers s !! peer with
  | Some p =>
      match in_flight p with
      | Some probe =>
          if if_expires_at probe <? now then
            (mkTransition (directive tr) (Some None),
             set_peers (<[peer := mkPeer (authority_tunnel_id p) (remote_endpoint p)
                (registration_generation p) (config_generation p) None
                (saturating_add now (duration_to_bucky_time NAT_PROBE_PERIOD)) None None
                (control_supported p)]> (peers s)) s)
          else (tr, s)
      | None => (tr, s)
      end
  | None => (tr, s)
  end.

(** The chain of tests of [accept_result], in the order of the code. *)
Definition rejection (sn : P2pId) (peer : P2pId) (p : PeerProbeState) (r : NatProbeResult)
    (now : Timestamp) : option NatProbeResultRejectReason :=
  let profile_valid := bool_decide (observation (pr_profile r) = ObsUnknown)
                       || is_fresh (pr_profile r) now in
  if negb (control_supported p) then Some CapabilityUnsupported
  else if negb (result_is_supported r) then Some VersionUnsupported
  else if negb profile_valid then Some ProfileStale
  else if negb (bool_decide (pr_sn_peer_id r = sn)) then Some SnMismatch
  else if negb (bool_decide (pr_peer_id r = peer)) then Some PeerMismatch
  else if negb (pr_registration_generation r =? registration_generation p)
  then Some RegistrationGenerationMismatch
  else if negb (pr_probe_config_generation r =? config_generation p)
  then Some ConfigGenerationMismatch
  else match in_flight p with
       | None => Some MissingInFlight
       | Some probe =>
           if negb (if_request_id probe =? pr_request_id r) then Some RequestMismatch
           else if if_expires_at probe <? now then Some DeadlineExpired
           else None
       end.

Definition accept_result (peer : P2pId) (r : NatProbeResult) (now : Timestamp)
    (tr : ProbeTransition) (s : NatProbeScheduler) : ProbeTransition * NatProbeScheduler :=
  match peers s !! peer with
  | None => (tr, s)
  | Some p =>
      match rejection (sn_peer_id s) peer p r now with
      | Some _ => (tr, s)
      | None =>
          let next := saturating_add now (duration_to_bucky_time NAT_PROBE_PERIOD) in
          let published :=
            if bool_decide (observation (pr_profile r) = ObsUnknown) then None
            else Some (mkProfile (version (pr_profile r)) (observation (pr_profile r))
                         (observed_at (pr_profile r)) next (prediction_hint (pr_profile r))) in
          (mkTransition (directive tr) (Some published),
           set_peers (<[peer := mkPeer (authority_tunnel_id p) (remote_endpoint p)
              (registration_generation p) (config_generation p) None next None published
              (control_supported p)]> (peers s)) s)
      end
  end.

Definition has_in_flight (x : P2pId * PeerProbeState) : Prop := is_Some (in_flight (snd x)).
#[global] Instance has_in_flight_dec x : Decision (has_in_flight x).
Proof using Type. unfold has_in_flight. apply _. Defined.

Definition in_flight_count (s : NatProbeScheduler) : nat := size (filter has_in_flight (peers s)).

Definition issue_if_due (peer : P2pId) (now : Timestamp) (s : NatProbeScheduler)
    : option NatProbeDirective * NatProbeScheduler :=
  match peers s !! peer with
  | None => (None, s)
  | Some p =>
      match pending_trigger p with
      | None => (None, s)
      | Some _ =>
          if bool_decide (sch_ports s = []) || negb (control_supported p)
             || bool_decide (is_Some (in_flight p))
             || (MAX_CONCURRENT_NAT_PROBES <=? in_flight_count s)%nat
          then (None, s)
          else
            let request_id := next_request_id s in
            let expires_at := saturating_add now (duration_to_bucky_time NAT_PROBE_DIRECTIVE_TIMEOUT) in
            (Some (mkDirective NAT_PROBE_CONTROL_VERSION (sn_peer_id s) peer
                     (registration_generation p) request_id (config_generation p) expires_at
                     (sch_ports s)),
             mkScheduler (sn_peer_id s) (sch_ports s) (sch_config_generation s)
               (next_registration_generation s) (next_id request_id)
               (<[peer := mkPeer (authority_tunnel_id p) (remote_endpoint p)
                    (registration_generation p) (config_generation p)
                    (Some (mkInFlight request_id expires_at)) (next_periodic_at p) None (profile p)
                    (control_supported p)]> (peers s)))
      end
  end.

(** A new registration, after an address change keeping the profile. *)
Definition register (peer : P2pId) (t : CmdTunnelId) (ep : Endpoint) (supported : bool)
    (now : Timestamp) (s : NatProbeScheduler) : ProbeTransition * NatProbeScheduler :=
  let previous := peers s !! peer in
  let trigger := match previous with Some _ => TriggerExternalAddress | None => TriggerOnline end in
  let generation := next_registration_generation s in
  (mkTransition None (match previous with Some _ => None | None => Some None end),
   mkScheduler (sn_peer_id s) (sch_ports s) (sch_config_generation s) (next_id generation)
     (next_request_id s)
     (<[peer := mkPeer t ep generation (sch_config_generation s) None now (Some trigger)
          (previous ≫= profile) supported]> (peers s))).

(** An existing registration learns whether the client supports the control
    protocol; losing it withdraws the profile. *)
Definition update_capability (peer : P2pId) (p : PeerProbeState) (supported : bool)
    (s : NatProbeScheduler) : ProbeTransition * NatProbeScheduler :=
  if control_supported p && negb supported then
    (mkTransition None (Some None),
     set_peers (<[peer := mkPeer (authority_tunnel_id p) (remote_endpoint p)
        (registration_generation p) (config_generation p) None (next_periodic_at p)
        (pending_trigger p) None supported]> (peers s)) s)
  else
    (no_transition,
     set_peers (<[peer := mkPeer (authority_tunnel_id p) (remote_endpoint p)
        (registration_generation p) (config_generation p) (in_flight p) (next_periodic_at p)
        (pending_trigger p) (profile p) supported]> (peers s)) s).

Definition supports_control (control_version : option Z) : bool :=
  bool_decide (control_version = Some NAT_PROBE_CONTROL_VERSION).

(** Whether a report of a known peer is ignored. *)
Definition ignored (peer : P2pId) (t : CmdTunnelId) (ep : Endpoint) (s : NatProbeScheduler) : bool :=
  match peers s !! peer with
  | Some p => negb (is_authoritative_report p t ep)
  | None => false
  end.

(** [needs_registration]: an unknown peer or another observed address. *)
Definition refresh_registration (peer : P2pId) (t : CmdTunnelId) (ep : Endpoint) (supported : bool)
    (now : Timestamp) (s : NatProbeScheduler) : ProbeTransition * NatProbeScheduler :=
  match peers s !! peer with
  | Some p => if bool_decide (addr (remote_endpoint p) = addr ep)
              then update_capability peer p supported s
              else register peer t ep supported now s
  | None => register peer t ep supported now s
  end.

Definition accept_optional (peer : P2pId) (result : option NatProbeResult) (now : Timestamp)
    (tr : ProbeTransition) (s : NatProbeScheduler) : ProbeTransition * NatProbeScheduler :=
  match result with
  | Some r => accept_result peer r now tr s
  | None => (tr, s)
  end.

Definition observe_capable_report (peer : P2pId) (t : CmdTunnelId) (ep : Endpoint)
    (control_version : option Z) (result : option NatProbeResult) (now : Timestamp)
    (s : NatProbeScheduler) : ProbeTransition * NatProbeScheduler :=
  if negb (is_udp ep) then observe_ineligible_report peer t s
  else if ignored peer t ep s then (no_transition, s)
  else
    let '(tr, s) := refresh_registration peer t ep (supports_control control_version) now s in
    let '(tr, s) := finish_expired peer now tr s in
    let '(tr, s) := accept_optional peer result now tr s in
    let '(d, s) := issue_if_due peer now s in
    (mkTransition d (profile_update tr), s).

(** A fresh current profile is newer than the reported one. *)
Definition older_than_current (p : PeerProbeState) (reported : NatProfile) (now : Timestamp) : bool :=
  match profile p with
  | Some current => is_fresh current now && (observed_at reported <? observed_at current)
  | None => false
  end.

Definition observe_reported_profile (peer : P2pId) (t : CmdTunnelId) (ep : Endpoint)
    (reported : NatProfile) (now : Timestamp) (s : NatProbeScheduler)
    : ProbeTransition * NatProbeScheduler :=
  match peers s !! peer with
  | None => (no_transition, s)
  | Some p =>
      if negb (is_udp ep) || negb (is_authoritative_report p t ep) || negb (is_fresh reported now)
      then (no_transition, s)
      else if older_than_current p reported now then (no_transition, s)
      else
        (mkTransition None (Some (Some reported)),
         set_peers (<[peer := mkPeer (authority_tunnel_id p) (remote_endpoint p)
            (registration_generation p) (config_generation p) (in_flight p)
            (saturating_add now (duration_to_bucky_time NAT_PROBE_PERIOD)) (pending_trigger p)
            (Some reported) (control_supported p)]> (peers s)) s)
  end.

Definition observe_control (peer : P2pId) (t : CmdTunnelId) (ep : Endpoint) (now : Timestamp)
    (s : NatProbeScheduler) : ProbeTransition * NatProbeScheduler :=
  if negb (is_udp ep) then observe_ineligible_report peer t s
  else if ignored peer t ep s then (no_transition, s)
  else
    let '(tr, s) :=
      match peers s !! peer with
      | Some p => if bool_decide (addr (remote_endpoint p) = addr ep) then (no_transition, s)
                  else register peer t ep (control_supported p) now s
      | None => register peer t ep false now s
      end in
    finish_expired peer now tr s.

Definition authority_tunnel (peer : P2pId) (s : NatProbeScheduler) : option CmdTunnelId :=
  authority_tunnel_id <$> peers s !! peer.
Definition authorities (s : NatProbeScheduler) : list (P2pId * CmdTunnelId) :=
  prod_map id authority_tunnel_id <$> map_to_list (peers s).
Definition authority_registration (peer : P2pId) (s : NatProbeScheduler) : option (CmdTunnelId * Z) :=
  (fun p => (authority_tunnel_id p, registration_generation p)) <$> peers s !! peer.
Definition authority_observed_endpoint (peer : P2pId) (s : NatProbeScheduler) : option Endpoint :=
  remote_endpoint <$> peers s !! peer.

(** [finish_expired] over all peers; the peers whose publication changed. *)
Definition expire_step (now : Timestamp) (acc : gset P2pId * NatProbeScheduler) (peer : P2pId)
    : gset P2pId * NatProbeScheduler :=
  let '(tr, s) := finish_expired peer now no_transition (snd acc) in
  (if bool_decide (is_Some (profile_update tr)) then {[peer]} ∪ fst acc else fst acc, s).
Definition expire_due (now : Timestamp) (s : NatProbeScheduler) : gset P2pId * NatProbeScheduler :=
  foldl (expire_step now) (∅, s) (fst <$> map_to_list (peers s)).

Definition current_profile (peer : P2pId) (now : Timestamp) (s : NatProbeScheduler) : option NatProfile :=
  match peers s !! peer ≫= profile with
  | Some p => if is_fresh p now then Some p else None
  | None => None
  end.

Definition scheduler_remove_peer (peer : P2pId) (s : NatProbeScheduler) : bool * NatProbeScheduler :=
  match peers s !! peer with
  | Some _ => (true, set_peers (delete peer (peers s)) s)
  | None => (false, s)
  end.

Definition remove_peer_if_authority (peer : P2pId) (t : CmdTunnelId) (generation : Z)
    (s : NatProbeScheduler) : bool * NatProbeScheduler :=
  match peers s !! peer with
  | Some p => if bool_decide (authority_tunnel_id p = t) && (registration_generation p =? generation)
              then scheduler_remove_peer peer s else (false, s)
  | None => (false, s)
  end.
End scheduler.

Arguments PeerProbeState : clear implicits.
Arguments NatProbeScheduler : clear implicits.

(** ** Invariant *)

Section scheduler_facts.
Context {CmdTunnelId : Type} `{!EqDecision CmdTunnelId}.
Implicit Types s : NatProbeScheduler CmdTunnelId.
Implicit Types p : PeerProbeState CmdTunnelId.

Record peer_ok (ports : list Z) (generation : Z) p : Prop := {
  po_config : config_generation p = generation;
  po_udp : is_udp (remote_endpoint p) = true;
  po_in_flight : is_Some (in_flight p) ->
    control_supported p = true /\ pending_trigger p = None /\ ports <> [];
}.

Record sched_inv s : Prop := {
  si_ports : sch_ports s = [] \/ supported_nat_probe_ports (sch_ports s) = true;
  si_count : (in_flight_count s <= MAX_CONCURRENT_NAT_PROBES)%nat;
  si_peers : map_Forall (fun _ => peer_ok (sch_ports s) (sch_config_generation s)) (peers s);
}.

Definition flying (m : gmap P2pId (PeerProbeState CmdTunnelId)) : nat := size (filter has_in_flight m).

Lemma flying_insert m k p :
  (is_Some (in_flight p) -> exists q, m !! k = Some q /\ is_Some (in_flight q)) ->
  (flying (<[k:=p]> m) <= flying m)%nat.
Proof.
  intros Hp. unfold flying. destruct (decide (has_in_flight (k, p))) as [Hf|Hf].
  - rewrite map_filter_insert_True by done. destruct (Hp Hf) as (q & Hq & Hi).
    rewrite map_size_insert_Some; [done|]. exists q. by apply map_lookup_filter_Some.
  - rewrite map_filter_insert_False by done.
    apply map_subseteq_size, map_filter_subseteq_mono, delete_subseteq.
Qed.

Lemma flying_insert_S m k p : (flying (<[k:=p]> m) <= S (flying m))%nat.
Proof.
  unfold flying. destruct (decide (has_in_flight (k, p))) as [Hf|Hf].
  - rewrite map_filter_insert_True by done. apply map_size_insert_le.
  - rewrite map_filter_insert_False by done.
    etrans; [apply map_subseteq_size, map_filter_subseteq_mono, delete_subseteq|]. lia.
Qed.

(** Replacing the state of one peer without putting a probe in flight. *)
Lemma inv_set_peer s k p a b :
  sched_inv s -> peer_ok (sch_ports s) (sch_config_generation s) p ->
  (is_Some (in_flight p) -> exists q, peers s !! k = Some q /\ is_Some (in_flight q)) ->
  sched_inv (mkScheduler (sn_peer_id s) (sch_ports s) (sch_config_generation s) a b
               (<[k:=p]> (peers s))).
Proof.
  intros [Hp Hc Hs] Hok Hi. split; simpl; [done| |by apply map_Forall_insert_2].
  etrans; [by apply flying_insert|done].
Qed.

Lemma inv_delete s k : sched_inv s -> sched_inv (set_peers (delete k (peers s)) s).
Proof.
  intros [Hp Hc Hs]. split; simpl; [done| |by apply map_Forall_delete].
  etrans; [apply map_subseteq_size, map_filter_subseteq_mono, delete_subseteq|done].
Qed.

Lemma finish_expired_inv peer now tr s :
  sched_inv s -> sched_inv (snd (finish_expired peer now tr s)).
Proof.
  intros Hs. unfold finish_expired. destruct (peers s !! peer) as [p|] eqn:E; [|done].
  destruct (in_flight p) as [f|]; [|done]. destruct (_ <? now); [|done].
  apply inv_set_peer; [done| |by intros []]. destruct (si_peers _ Hs _ _ E). by split; try intros [].
Qed.

Lemma accept_result_inv peer r now tr s :
  sched_inv s -> sched_inv (snd (accept_result peer r now tr s)).
Proof.
  intros Hs. unfold accept_result. destruct (peers s !! peer) as [p|] eqn:E; [|done].
  destruct (rejection _ _ _ _ _); [done|].
  apply inv_set_peer; [done| |by intros []]. destruct (si_peers _ Hs _ _ E). by split; try intros [].
Qed.

Lemma issue_if_due_inv peer now s : sched_inv s -> sched_inv (snd (issue_if_due peer now s)).
Proof.
  intros Hs. unfold issue_if_due. destruct (peers s !! peer) as [p|] eqn:E; [|done].
  destruct (pending_trigger p) eqn:Ep; [|done]. destruct (_ || _) eqn:Hb; [done|]. bool_to_prop.
  destruct Hs as [Hp Hc Hall]. destruct (Hall _ _ E) as [Hcfg Hudp _].
  split; simpl; [done| |].
  - etrans; [apply flying_insert_S|]. by apply Nat.leb_gt.
  - apply map_Forall_insert_2; [|done]. by split.
Qed.

Lemma register_inv peer t ep supported now s :
  is_udp ep = true -> sched_inv s -> sched_inv (snd (register peer t ep supported now s)).
Proof.
  intros Hu Hs. apply inv_set_peer; [done| |by intros []]. by split; try intros [].
Qed.

Lemma update_capability_inv peer p supported s :
  peers s !! peer = Some p -> sched_inv s -> sched_inv (snd (update_capability peer p supported s)).
Proof.
  intros Hp Hs. destruct (si_peers _ Hs _ _ Hp) as [Hc Hu Hi]. unfold update_capability.
  destruct (control_supported p && negb supported) eqn:E; apply inv_set_peer; try done.
  - by split; try intros [].
  - by intros [].
  - split; simpl; [done..|]. intros (Hsup & ? & ?)%Hi. split_and!; [|done..].
    rewrite Hsup in E. by destruct supported.
  - simpl. eauto.
Qed.

Lemma ineligible_inv peer t s : sched_inv s -> sched_inv (snd (observe_ineligible_report peer t s)).
Proof.
  intros Hs. unfold observe_ineligible_report. destruct (peers s !! peer); [|done].
  case_bool_decide; [|done]. by apply inv_delete.
Qed.

Lemma capable_inv peer t ep cv result now s :
  sched_inv s -> sched_inv (snd (observe_capable_report peer t ep cv result now s)).
Proof.
  intros Hs. unfold observe_capable_report. destruct (is_udp ep) eqn:Hu; simpl; [|by apply ineligible_inv].
  destruct (ignored _ _ _ _); [done|].
  assert (H1 : sched_inv (snd (refresh_registration peer t ep (supports_control cv) now s))).
  { unfold refresh_registration. destruct (peers s !! peer) eqn:E; [case_bool_decide|];
      auto using update_capability_inv, register_inv. }
  destruct (refresh_registration _ _ _ _ _ _) as [tr1 s1]. cbn [snd] in H1.
  pose proof (finish_expired_inv peer now tr1 s1 H1) as H2.
  destruct (finish_expired peer now tr1 s1) as [tr2 s2]. cbn [snd] in H2.
  assert (H3 : sched_inv (snd (accept_optional peer result now tr2 s2)))
    by (destruct result; [by apply accept_result_inv|done]).
  destruct (accept_optional _ _ _ _ _) as [tr3 s3]. cbn [snd] in H3.
  pose proof (issue_if_due_inv peer now s3 H3) as H4.
  by destruct (issue_if_due peer now s3).
Qed.

Lemma reported_profile_inv peer t ep reported now s :
  sched_inv s -> sched_inv (snd (observe_reported_profile peer t ep reported now s)).
Proof.
  intros Hs. unfold observe_reported_profile. destruct (peers s !! peer) as [p|] eqn:E; [|done].
  destruct (_ || _); [done|]. destruct (older_than_current _ _ _); [done|].
  destruct (si_peers _ Hs _ _ E) as [Hc Hu Hi].
  apply inv_set_peer; [done|by split|simpl; eauto].
Qed.

Lemma observe_control_inv peer t ep now s :
  sched_inv s -> sched_inv (snd (observe_control peer t ep now s)).
Proof.
  intros Hs. unfold observe_control. destruct (is_udp ep) eqn:Hu; simpl; [|by apply ineligible_inv].
  destruct (ignored _ _ _ _); [done|].
  destruct (peers s !! peer); [case_bool_decide|]; apply finish_expired_inv; try done;
    by apply (register_inv peer t ep).
Qed.

Lemma expire_due_inv now s : sched_inv s -> sched_inv (snd (expire_due now s)).
Proof.
  intros Hs. unfold expire_due. generalize (fst <$> map_to_list (peers s)). intros l.
  assert (H : forall acc, sched_inv (snd acc) -> sched_inv (snd (foldl (expire_step now) acc l))); [|by apply H].
  induction l as [|x l IH]; intros acc Ha; [done|]. simpl. apply IH. unfold expire_step.
  pose proof (finish_expired_inv x now no_transition (snd acc) Ha) as H.
  by destruct (finish_expired x now no_transition (snd acc)).
Qed.

Lemma remove_inv peer s : sched_inv s -> sched_inv (snd (scheduler_remove_peer peer s)).
Proof.
  intros Hs. unfold scheduler_remove_peer. destruct (peers s !! peer); [|done]. by apply inv_delete.
Qed.

Lemma remove_if_inv peer t g s : sched_inv s -> sched_inv (snd (remove_peer_if_authority peer t g s)).
Proof.
  intros Hs. unfold remove_peer_if_authority. destruct (peers s !! peer); [|done].
  destruct (_ && _); [by apply remove_inv|done].
Qed.

(** A valid port list, once sorted, is one the client accepts. *)
Lemma adjacent_distinct_NoDup l :
  StronglySorted (fun a b => Z.leb a b = true) l -> adjacent_distinct l = true -> NoDup l.
Proof.
  induction 1 as [|x l Hl IH Hx]; [constructor|]. intros Ha. destruct l as [|y l]; [apply NoDup_singleton|].
  simpl in Ha. apply andb_true_iff in Ha as [Hne Ha]. constructor; [|by apply IH]. bool_to_prop.
  intros [->|Hin]%elem_of_cons; [done|]. apply Forall_cons in Hx as [Hxy _].
  apply StronglySorted_inv in Hl as [_ Hy]. rewrite Forall_forall in Hy. apply Hy in Hin.
  bool_to_prop. lia.
Qed.

Lemma sorted_ports_supported l :
  ports_valid (sort_by Z.leb l) = true -> supported_nat_probe_ports (sort_by Z.leb l) = true.
Proof.
  intros H. unfold ports_valid, supported_nat_probe_ports in *. bool_to_prop.
  assert (Hnd : NoDup (sort_by Z.leb l)).
  { apply adjacent_distinct_NoDup; [|done].
    apply sort_by_sorted; intros; bool_to_prop; rewrite ?Z.leb_le; lia. }
  rewrite (size_list_to_set _ Hnd), Nat.eqb_refl, !andb_true_iff. done.
Qed.

Lemma set_ports_inv ports s : sched_inv s -> sched_inv (snd (set_ports ports s)).
Proof.
  intros Hs. unfold set_ports. case_bool_decide; [done|]. split; simpl.
  - destruct (ports_valid _) eqn:E; [right; by apply sorted_ports_supported|by left].
  - unfold in_flight_count. simpl.
    assert (Hz : flying (reconfigured (next_id (sch_config_generation s)) <$> peers s) = 0%nat).
    { unfold flying. apply map_size_empty_iff, map_empty. intros k.
      apply map_lookup_filter_None. right. intros p (q & <- & _)%lookup_fmap_Some [f Hf]. done. }
    unfold flying in Hz. rewrite Hz. lia.
  - intros k p (q & <- & Hq)%lookup_fmap_Some. destruct (si_peers _ Hs _ _ Hq).
    split; simpl; [done..|]. by intros [].
Qed.

Lemma set_sn_inv id s : sched_inv s -> sched_inv (snd (tt, set_sn_peer_id id s)).
Proof.
  intros Hs. simpl. unfold set_sn_peer_id. case_bool_decide; [done|]. destruct Hs. split; simpl; [done| |done].
  unfold in_flight_count. simpl. rewrite map_filter_empty, map_size_empty. lia.
Qed.

(** ** The scheduler as a transition system *)

Inductive sched_step : NatProbeScheduler CmdTunnelId -> NatProbeScheduler CmdTunnelId -> Prop :=
| st_ports ports s : sched_step s (snd (set_ports ports s))
| st_sn id s : sched_step s (set_sn_peer_id id s)
| st_report peer t ep cv r now s : sched_step s (snd (observe_capable_report peer t ep cv r now s))
| st_profile peer t ep q now s : sched_step s (snd (observe_reported_profile peer t ep q now s))
| st_control peer t ep now s : sched_step s (snd (observe_control peer t ep now s))
| st_expire now s : sched_step s (snd (expire_due now s))
| st_remove peer s : sched_step s (snd (scheduler_remove_peer peer s))
| st_remove_if peer t g s : sched_step s (snd (remove_peer_if_authority peer t g s)).

Inductive sched_reachable (id : P2pId) : NatProbeScheduler CmdTunnelId -> Prop :=
| sr_new : sched_reachable id (scheduler_new id)
| sr_step s s' : sched_reachable id s -> sched_step s s' -> sched_reachable id s'.

Lemma sched_reachable_inv id s : sched_reachable id s -> sched_inv s.
Proof.
  induction 1 as [|s s' _ IH Hstep].
  - split; simpl; [by left| |done]. unfold in_flight_count. simpl.
    rewrite map_filter_empty, map_size_empty. lia.
  - destruct Hstep; eauto using set_ports_inv, capable_inv, reported_profile_inv, observe_control_inv,
      expire_due_inv, remove_inv, remove_if_inv. by apply (set_sn_inv id0).
Qed.

(** *** The counters start at 1 and never return to 0 *)

Record counted s : Prop := {
  ct_registration : 1 <= next_registration_generation s;
  ct_request : 1 <= next_request_id s;
  ct_peers : map_Forall (fun _ p => 1 <= registration_generation p) (peers s);
}.

Lemma next_id_pos n : 1 <= next_id n.
Proof. unfold next_id. lia. Qed.

Lemma counted_set_peer s k p a b :
  counted s -> 1 <= registration_generation p -> 1 <= a -> 1 <= b ->
  counted (mkScheduler (sn_peer_id s) (sch_ports s) (sch_config_generation s) a b (<[k:=p]> (peers s))).
Proof. intros [Hr Hq Hp] ???. split; simpl; [done..|]. by apply map_Forall_insert_2. Qed.

Lemma counted_keep_peer s k p q :
  counted s -> peers s !! k = Some p -> registration_generation q = registration_generation p ->
  counted (set_peers (<[k:=q]> (peers s)) s).
Proof.
  intros Hs Hk Hq. pose proof (ct_peers _ Hs _ _ Hk) as Hp. simpl in Hp.
  apply counted_set_peer; [done|lia|apply Hs|apply Hs].
Qed.

Lemma counted_delete s k : counted s -> counted (set_peers (delete k (peers s)) s).
Proof. intros [Hr Hq Hp]. split; simpl; [done..|]. by apply map_Forall_delete. Qed.

Lemma finish_expired_counted peer now tr s : counted s -> counted (snd (finish_expired peer now tr s)).
Proof.
  intros Hs. unfold finish_expired. destruct (peers s !! peer) as [p|] eqn:E; [|done].
  destruct (in_flight p) as [f|]; [|done]. destruct (_ <? now); [|done]. by eapply counted_keep_peer.
Qed.

Lemma register_counted peer t ep supported now s : counted s -> counted (snd (register peer t ep supported now s)).
Proof. intros Hs. apply counted_set_peer; [done|apply Hs|apply next_id_pos|apply Hs]. Qed.

Lemma refresh_counted peer t ep supported now s :
  counted s -> counted (snd (refresh_registration peer t ep supported now s)).
Proof.
  intros Hs. unfold refresh_registration. destruct (peers s !! peer) as [p|] eqn:E; [|by apply register_counted].
  case_bool_decide; [|by apply register_counted]. unfold update_capability. case_match; by eapply counted_keep_peer.
Qed.

Lemma accept_optional_counted peer r now tr s : counted s -> counted (snd (accept_optional peer r now tr s)).
Proof.
  intros Hs. destruct r as [r|]; [|done]. simpl. unfold accept_result.
  destruct (peers s !! peer) as [p|] eqn:E; [|done]. destruct (rejection _ _ _ _ _); [done|]. by eapply counted_keep_peer.
Qed.

Lemma issue_counted peer now s d s' :
  counted s -> issue_if_due peer now s = (d, s') ->
  counted s' /\ match d with Some d => 1 <= dr_registration_generation d /\ 1 <= dr_request_id d | None => True end.
Proof.
  intros Hs. unfold issue_if_due. destruct (peers s !! peer) as [p|] eqn:E; [|by intros [= <- <-]].
  destruct (pending_trigger p); [|by intros [= <- <-]]. destruct (_ || _); intros [= <- <-]; [done|].
  pose proof (ct_peers _ Hs _ _ E) as Hp. simpl in Hp. split; [|split; [done|apply Hs]].
  apply counted_set_peer; [done|done|apply Hs|apply next_id_pos].
Qed.

Lemma ineligible_counted peer t s : counted s -> counted (snd (observe_ineligible_report peer t s)).
Proof.
  intros Hs. unfold observe_ineligible_report. destruct (peers s !! peer); [|done].
  case_bool_decide; [|done]. by apply counted_delete.
Qed.

Lemma capable_counted peer t ep cv r now s :
  counted s ->
  counted (snd (observe_capable_report peer t ep cv r now s))
  /\ forall d, directive (fst (observe_capable_report peer t ep cv r now s)) = Some d ->
       1 <= dr_registration_generation d /\ 1 <= dr_request_id d.
Proof.
  intros Hs. unfold observe_capable_report. destruct (is_udp ep); simpl.
  2:{ split; [by apply ineligible_counted|]. intros d. unfold observe_ineligible_report.
      destruct (peers s !! peer); [case_bool_decide|]; done. }
  destruct (ignored _ _ _ _); [done|]. pose proof (refresh_counted peer t ep (supports_control cv) now s Hs) as H1.
  destruct (refresh_registration _ _ _ _ _ _) as [tr1 s1]. pose proof (finish_expired_counted peer now tr1 s1 H1) as H2.
  destruct (finish_expired peer now tr1 s1) as [tr2 s2]. pose proof (accept_optional_counted peer r now tr2 s2 H2) as H3.
  destruct (accept_optional _ _ _ _ _) as [tr3 s3]. destruct (issue_if_due peer now s3) as [od s4] eqn:E.
  destruct (issue_counted _ _ _ _ _ H3 E) as [H4 Hd]. simpl. split; [done|]. intros d ->. exact Hd.
Qed.

Lemma sched_step_counted s s' : sched_step s s' -> counted s -> counted s'.
Proof.
  destruct 1 as [ports s|id s|peer t ep cv r now s|peer t ep q now s|peer t ep now s|now s|peer s|peer t g s]; intros Hs.
  - unfold set_ports. case_bool_decide; [done|]. destruct Hs as [Hr Hq Hp]. split; simpl; [done..|].
    intros k p (q & <- & Hk)%lookup_fmap_Some. exact (Hp _ _ Hk).
  - unfold set_sn_peer_id. case_bool_decide; [done|]. destruct Hs as [Hr Hq Hp]. by split.
  - by apply capable_counted.
  - unfold observe_reported_profile. destruct (peers s !! peer) as [p|] eqn:E; [|done].
    destruct (_ || _); [done|]. destruct (older_than_current _ _ _); [done|]. by eapply counted_keep_peer.
  - unfold observe_control. destruct (is_udp ep); simpl; [|by apply ineligible_counted].
    destruct (ignored _ _ _ _); [done|].
    destruct (peers s !! peer); [case_bool_decide|]; apply finish_expired_counted; try done;
      by apply (register_counted peer t ep).
  - unfold expire_due. generalize (fst <$> map_to_list (peers s)). intros l.
    assert (H : forall acc, counted (snd acc) -> counted (snd (foldl (expire_step now) acc l))); [|by apply H].
    induction l as [|x l IH]; intros acc Ha; [done|]. simpl. apply IH. unfold expire_step.
    pose proof (finish_expired_counted x now no_transition (snd acc) Ha) as H.
    by destruct (finish_expired x now no_transition (snd acc)).
  - unfold scheduler_remove_peer. destruct (peers s !! peer); [|done]. by apply counted_delete.
  - unfold remove_peer_if_authority, scheduler_remove_peer. destruct (peers s !! peer); [|done].
    destruct (_ && _); [by apply counted_delete|done].
Qed.

Lemma sched_reachable_counted id s : sched_reachable id s -> counted s.
Proof. induction 1 as [|s s' _ IH Hstep]; [by split|by eapply sched_step_counted]. Qed.

(** The scheduler keeps its bounds: in every reachable state at most
    2048 probes are in flight, every registration is over a UDP transport and
    of the current configuration, a probe is in flight only for a peer that
    supports the control protocol, with ports configured and no trigger left
    over; and every directive it issues is one the client accepts, naming
    this SN, the peer and its registration. *)
Theorem scheduler_invariant id s peer now d s' :
  sched_reachable id s -> issue_if_due peer now s = (Some d, s') ->
  sched_inv s /\ sched_inv s' /\ directive_is_supported d = true
  /\ dr_sn_peer_id d = sn_peer_id s /\ dr_peer_id d = peer
  /\ dr_probe_config_generation d = sch_config_generation s
  /\ authority_registration peer s'
     = (fun '(t, _) => (t, dr_registration_generation d)) <$> authority_registration peer s.
Proof using Type.
  intros Hr Hi. pose proof (sched_reachable_inv id s Hr) as Hs.
  pose proof (issue_if_due_inv peer now s Hs) as Hs'. rewrite Hi in Hs'. cbn [snd] in Hs'.
  split; [done|]. split; [done|]. unfold issue_if_due in Hi.
  destruct (peers s !! peer) as [p|] eqn:E; [|done]. destruct (pending_trigger p); [|done].
  destruct (_ || _) eqn:Hb; [done|]. bool_to_prop. injection Hi as <- <-.
  destruct (si_ports _ Hs) as [?|Hp]; [done|]. split; [|split_and!; try done].
  - unfold directive_is_supported. cbn [dr_version dr_ports]. by rewrite Hp.
  - by destruct (si_peers _ Hs _ _ E).
  - unfold authority_registration. simpl. by rewrite lookup_insert_eq, E.
Qed.

(** The registration of a peer is out of reach of other paths: a report,
    a control message or a profile over another command tunnel and another
    observed transport or address changes nothing at all, and a reconciliation
    holding an outdated snapshot of the registration removes nothing. *)
Theorem authority_protected peer p t ep s :
  peers s !! peer = Some p -> authority_tunnel_id p <> t ->
  (protocol (remote_endpoint p) <> protocol ep \/ addr (remote_endpoint p) <> addr ep) ->
  (forall cv r now, observe_capable_report peer t ep cv r now s = (no_transition, s))
  /\ (forall q now, observe_reported_profile peer t ep q now s = (no_transition, s))
  /\ (forall now, observe_control peer t ep now s = (no_transition, s))
  /\ (forall t' g, authority_registration peer s <> Some (t', g) ->
        remove_peer_if_authority peer t' g s = (false, s)).
Proof using Type.
  intros Hp Ht Hpath.
  assert (Hauth : is_authoritative_report p t ep = false).
  { unfold is_authoritative_report, same_observed_path. rewrite bool_decide_false by done. simpl.
    apply andb_false_iff. destruct Hpath; [left|right]; by apply bool_decide_false. }
  assert (Hinel : observe_ineligible_report peer t s = (no_transition, s)).
  { unfold observe_ineligible_report. by rewrite Hp, bool_decide_false. }
  assert (Hign : ignored peer t ep s = true) by (unfold ignored; by rewrite Hp, Hauth).
  split_and!.
  - intros. unfold observe_capable_report. destruct (is_udp ep); simpl; [by rewrite Hign|done].
  - intros. unfold observe_reported_profile. rewrite Hp, Hauth. simpl. by rewrite orb_true_r.
  - intros. unfold observe_control. destruct (is_udp ep); simpl; [by rewrite Hign|done].
  - intros t' g Hg. unfold remove_peer_if_authority, authority_registration in *. rewrite Hp in *.
    destruct (_ && _) eqn:E; [|done]. bool_to_prop. subst. done.
Qed.

(** ** Directives and results *)

Lemma rejection_None sn peer p r now :
  rejection sn peer p r now = None <->
  control_supported p = true /\ result_is_supported r = true
  /\ (observation (pr_profile r) = ObsUnknown \/ is_fresh (pr_profile r) now = true)
  /\ pr_sn_peer_id r = sn /\ pr_peer_id r = peer
  /\ pr_registration_generation r = registration_generation p
  /\ pr_probe_config_generation r = config_generation p
  /\ exists f, in_flight p = Some f /\ if_request_id f = pr_request_id r /\ now <= if_expires_at f.
Proof using Type.
  unfold rejection. destruct (control_supported p); simpl; [|naive_solver].
  destruct (result_is_supported r); simpl; [|naive_solver].
  destruct (bool_decide (observation (pr_profile r) = ObsUnknown) || is_fresh (pr_profile r) now) eqn:Ev; simpl.
  2:{ split; [done|]. intros (_ & _ & Hv & _). apply orb_false_iff in Ev as [Ev1 Ev2].
      apply bool_decide_eq_false_1 in Ev1. destruct Hv; congruence. }
  assert (Hv : observation (pr_profile r) = ObsUnknown \/ is_fresh (pr_profile r) now = true).
  { apply orb_true_iff in Ev as [Ev|Ev]; [left; by apply bool_decide_eq_true_1 in Ev|by right]. }
  clear Ev.
  case_bool_decide; simpl; [|naive_solver]. case_bool_decide; simpl; [|naive_solver].
  destruct (Z.eqb_spec (pr_registration_generation r) (registration_generation p)); simpl; [|naive_solver].
  destruct (Z.eqb_spec (pr_probe_config_generation r) (config_generation p)); simpl; [|naive_solver].
  destruct (in_flight p) as [f|]; [|naive_solver].
  destruct (Z.eqb_spec (if_request_id f) (pr_request_id r)); simpl; [|naive_solver].
  destruct (Z.ltb_spec (if_expires_at f) now) as [Hlt|Hge]; (split; [|try done]).
  - done.
  - intros (_ & _ & _ & _ & _ & _ & _ & f' & Hf & _ & Hle). injection Hf as <-. lia.
  - intros _. split_and!; try done. by exists f.
Qed.

(** The profile as it is published: valid until the next period. *)
Definition published (q : NatProfile) (now : Timestamp) : NatProfile :=
  mkProfile (version q) (observation q) (observed_at q)
    (saturating_add now (duration_to_bucky_time NAT_PROBE_PERIOD)) (prediction_hint q).

(** What accepting a result does to the peer. *)
Lemma accept_result_accepts peer r now tr s p :
  peers s !! peer = Some p -> rejection (sn_peer_id s) peer p r now = None ->
  observation (pr_profile r) <> ObsUnknown ->
  accept_result peer r now tr s =
    (mkTransition (directive tr) (Some (Some (published (pr_profile r) now))),
     set_peers (<[peer := mkPeer (authority_tunnel_id p) (remote_endpoint p)
        (registration_generation p) (config_generation p) None
        (saturating_add now (duration_to_bucky_time NAT_PROBE_PERIOD)) None
        (Some (published (pr_profile r) now)) (control_supported p)]> (peers s)) s).
Proof using Type.
  intros Hp Hr Hq. unfold accept_result. rewrite Hp, Hr, bool_decide_false by done. done.
Qed.

Lemma set_peers_id s : set_peers (peers s) s = s.
Proof using Type. by destruct s. Qed.

(** A report of a capable client over the registered address. *)
Lemma refresh_registration_same peer p t ep now s :
  peers s !! peer = Some p -> control_supported p = true -> addr (remote_endpoint p) = addr ep ->
  refresh_registration peer t ep true now s = (no_transition, s).
Proof using Type.
  intros Hp Hc Ha. unfold refresh_registration, update_capability.
  rewrite Hp, bool_decide_true, Hc by done. cbn [andb negb].
  rewrite insert_id, set_peers_id; [done|]. rewrite Hp. f_equal. destruct p; simpl in *. by subst.
Qed.

Lemma finish_expired_live peer p f now tr s :
  peers s !! peer = Some p -> in_flight p = Some f -> now <= if_expires_at f ->
  finish_expired peer now tr s = (tr, s).
Proof using Type.
  intros Hp Hf Hle. unfold finish_expired. rewrite Hp, Hf.
  by destruct (Z.ltb_spec (if_expires_at f) now); [lia|].
Qed.

Lemma issue_if_due_idle peer p now s :
  peers s !! peer = Some p -> pending_trigger p = None -> issue_if_due peer now s = (None, s).
Proof using Type. intros Hp Hn. unfold issue_if_due. by rewrite Hp, Hn. Qed.

(** What issuing a directive leaves behind. *)
Lemma issue_if_due_state peer p now d s s1 :
  peers s !! peer = Some p -> issue_if_due peer now s = (Some d, s1) ->
  exists p1, peers s1 !! peer = Some p1 /\ authority_tunnel_id p1 = authority_tunnel_id p
    /\ remote_endpoint p1 = remote_endpoint p /\ control_supported p1 = true
    /\ in_flight p1 = Some (mkInFlight (dr_request_id d) (dr_expires_at d))
    /\ dr_version d = NAT_PROBE_CONTROL_VERSION
    /\ dr_sn_peer_id d = sn_peer_id s1 /\ dr_peer_id d = peer
    /\ dr_registration_generation d = registration_generation p1
    /\ dr_probe_config_generation d = config_generation p1.
Proof using Type.
  intros Hp Hi. unfold issue_if_due in Hi. rewrite Hp in Hi.
  destruct (pending_trigger p); [|done]. destruct (_ || _) eqn:Hb; [done|].
  apply orb_false_iff in Hb as [Hb _]. apply orb_false_iff in Hb as [Hb _].
  apply orb_false_iff in Hb as [_ Hsup%negb_false_iff]. injection Hi as <- <-.
  eexists. cbn [peers]. rewrite lookup_insert_eq. split_and!; done.
Qed.

(** C21: a probe directive and its result fit together: when a directive was
    issued to a peer and, before it expires and anything else happens, the peer
    reports the result built
    from it over the registered tunnel and address with a fresh profile, that
    profile is published, valid for two hours; no probe is then in flight, so
    the same result sent again is rejected. *)
Theorem directive_result_roundtrip peer p now d s s1 t ep q now' :
  peers s !! peer = Some p -> issue_if_due peer now s = (Some d, s1) ->
  authority_tunnel_id p = t -> is_udp ep = true -> addr (remote_endpoint p) = addr ep ->
  is_fresh q now' = true -> now' <= dr_expires_at d ->
  let result := result_from_directive d q in
  let '(tr, s2) :=
    observe_capable_report peer t ep (Some NAT_PROBE_CONTROL_VERSION) (Some result) now' s1 in
  tr = mkTransition None (Some (Some (published q now')))
  /\ peers s2 !! peer ≫= profile = Some (published q now')
  /\ (forall p2 now'', peers s2 !! peer = Some p2 ->
        in_flight p2 = None /\ rejection (sn_peer_id s2) peer p2 result now'' <> None).
Proof using Type.
  intros Hp Hi Ht Hu Ha Hq Hle result.
  destruct (issue_if_due_state _ _ _ _ _ _ Hp Hi)
    as (p1 & Hp1 & Ht1 & He1 & Hc1 & Hf1 & Hver & Hsn & Hpeer & Hgen & Hcfg).
  assert (Hfr : is_supported q = true /\ observation q <> ObsUnknown).
  { unfold is_fresh in Hq. bool_to_prop. done. }
  unfold observe_capable_report. rewrite Hu. cbn [negb].
  assert (Hign : ignored peer t ep s1 = false).
  { unfold ignored, is_authoritative_report. by rewrite Hp1, bool_decide_true by congruence. }
  assert (Hc : supports_control (Some NAT_PROBE_CONTROL_VERSION) = true) by done.
  rewrite Hign, Hc, (refresh_registration_same _ _ _ _ _ _ Hp1 Hc1) by congruence.
  rewrite (finish_expired_live _ _ _ _ _ _ Hp1 Hf1 Hle). cbn [accept_optional].
  rewrite (accept_result_accepts _ _ _ _ _ _ Hp1); [| |apply Hfr].
  2:{ apply rejection_None. cbn. split_and!; try done; [|by right|by eexists].
      unfold result_is_supported. cbn. rewrite Hver. by destruct Hfr as [-> _]. }
  erewrite issue_if_due_idle; [|cbn [peers set_peers]; apply lookup_insert_eq|done].
  cbn [profile_update]. unfold set_peers. cbn [peers sn_peer_id]. rewrite lookup_insert_eq.
  split_and!; [done..|]. intros p2 now'' [= <-]. split; [done|].
  intros (_ & _ & _ & _ & _ & _ & _ & f & Hf & _)%rejection_None. done.
Qed.

(** Before the result is looked at, nothing is published. *)
Lemma refresh_registration_update peer t ep supported now s tr s1 :
  refresh_registration peer t ep supported now s = (tr, s1) ->
  (profile_update tr = None \/ profile_update tr = Some None)
  /\ sn_peer_id s1 = sn_peer_id s
  /\ (forall p1 f, peers s1 !! peer = Some p1 -> in_flight p1 = Some f ->
        exists p, peers s !! peer = Some p /\ in_flight p = Some f
          /\ registration_generation p1 = registration_generation p
          /\ config_generation p1 = config_generation p).
Proof using Type.
  unfold refresh_registration, register, update_capability.
  destruct (peers s !! peer) as [p|]; [case_bool_decide; [destruct (_ && _)|]|];
    intros [= <- <-]; cbn [profile_update no_transition peers set_peers sn_peer_id];
    (split; [by auto|]); (split; [done|]);
    unfold set_peers; cbn [peers]; rewrite lookup_insert_eq; intros p1 f [= <-] Hf; try done.
  by exists p.
Qed.

Lemma finish_expired_update peer now tr s tr1 s1 :
  finish_expired peer now tr s = (tr1, s1) ->
  (profile_update tr1 = profile_update tr \/ profile_update tr1 = Some None)
  /\ sn_peer_id s1 = sn_peer_id s
  /\ (forall p1 f, peers s1 !! peer = Some p1 -> in_flight p1 = Some f -> peers s !! peer = Some p1).
Proof using Type.
  unfold finish_expired. destruct (peers s !! peer) as [p|] eqn:E; [|intros [= <- <-]; naive_solver].
  destruct (in_flight p) as [f|]; [|intros [= <- <-]; naive_solver].
  destruct (_ <? now); intros [= <- <-]; [|naive_solver].
  unfold set_peers. cbn [peers profile_update sn_peer_id]. rewrite lookup_insert_eq.
  split_and!; [by right|done|]. by intros p1 f1 [= <-].
Qed.

(** Only answers to an outstanding directive are published: when a
    report publishes a profile, the report carried a result for this SN and
    this peer, with the peer's registration and configuration generation and
    the identifier of the request then in flight and not yet expired, its
    profile was fresh, and the path was authoritative; the published profile
    is the reported one with its validity reset to the probe period. *)
Theorem published_profile_provenance peer t ep cv result now s tr s' q :
  observe_capable_report peer t ep cv result now s = (tr, s') ->
  profile_update tr = Some (Some q) ->
  exists p r f, peers s !! peer = Some p /\ result = Some r /\ in_flight p = Some f
    /\ is_authoritative_report p t ep = true
    /\ pr_sn_peer_id r = sn_peer_id s /\ pr_peer_id r = peer
    /\ pr_registration_generation r = registration_generation p
    /\ pr_probe_config_generation r = config_generation p
    /\ pr_request_id r = if_request_id f /\ now <= if_expires_at f
    /\ is_fresh (pr_profile r) now = true /\ q = published (pr_profile r) now.
Proof using Type.
  unfold observe_capable_report. destruct (is_udp ep); simpl negb; cbv iota.
  2:{ unfold observe_ineligible_report. destruct (peers s !! peer); [case_bool_decide|];
        by intros [= <- <-]. }
  destruct (ignored peer t ep s) eqn:Hign; [by intros [= <- <-]|].
  destruct (refresh_registration _ _ _ _ _ _) as [tr1 s1] eqn:H1.
  destruct (finish_expired _ _ _ _) as [tr2 s2] eqn:H2.
  apply refresh_registration_update in H1 as (Hu1 & Hsn1 & Hf1).
  apply finish_expired_update in H2 as (Hu2 & Hsn2 & Hf2).
  destruct (accept_optional _ _ _ _ _) as [tr3 s3] eqn:H3. destruct (issue_if_due _ _ _) as [d s4].
  intros [= <- <-] Hq. cbn [profile_update] in Hq. unfold accept_optional, accept_result in H3.
  assert (Hno : profile_update tr2 <> Some (Some q)) by (destruct Hu1, Hu2; congruence).
  destruct result as [r|]; [|congruence].
  destruct (peers s2 !! peer) as [p2|] eqn:E2; [|congruence].
  destruct (rejection _ _ _ _ _) eqn:Hrej; [congruence|].
  injection H3 as <- <-. cbn [profile_update] in Hq.
  apply rejection_None in Hrej as (_ & _ & Hv & Hsn & Hpe & Hg & Hc & f & Hf & Hid & Hle).
  destruct (bool_decide _) eqn:Eo; [done|]. apply bool_decide_eq_false_1 in Eo. injection Hq as <-.
  destruct (Hf1 _ _ (Hf2 _ _ eq_refl Hf) Hf) as (p & Hp & Hfp & Hgp & Hcp).
  exists p, r, f. unfold ignored in Hign. rewrite Hp in Hign. apply negb_false_iff in Hign.
  split_and!; try congruence; [by destruct Hv|done].
Qed.
End scheduler_facts.

(** ** A concrete exchange *)

Definition probe_ep : Endpoint := mkEndpoint ServerReflexive Quic (V4 (mkV4 203 0 113 7) 3456).
Definition probe_peer : P2pId := mkP2pId [5].
Definition probe_s0 : NatProbeScheduler Z := snd (set_ports [5001; 5000] (scheduler_new (mkP2pId [1]))).
Definition probe_report (s : NatProbeScheduler Z) (r : option NatProbeResult) (now : Timestamp) :=
  observe_capable_report probe_peer 9 probe_ep (Some NAT_PROBE_CONTROL_VERSION) r now s.
(** Registered while no port was configured: the trigger is pending. *)
Definition probe_s1 : NatProbeScheduler Z :=
  snd (set_ports [5001; 5000] (snd (probe_report (scheduler_new (mkP2pId [1])) None 1000))).
Definition probe_d : NatProbeDirective :=
  mkDirective 1 (mkP2pId [1]) probe_peer 1 1 2 30002000 [5000; 5001].
Definition probe_s2 : NatProbeScheduler Z := snd (issue_if_due probe_peer 2000 probe_s1).
Definition probe_profile : NatProfile := mkProfile 1 NonSymmetricLike 2500 9000 None.
Definition probe_p1 : PeerProbeState Z :=
  mkPeer 9 probe_ep 1 2 None 1000 (Some TriggerOnline) None true.

Lemma probe_s1_reachable : sched_reachable (mkP2pId [1]) probe_s1.
Proof.
  apply (sr_step _ (snd (probe_report (scheduler_new (mkP2pId [1])) None 1000))); [|apply st_ports].
  apply (sr_step _ (scheduler_new (mkP2pId [1]))); [constructor|apply st_report].
Qed.

Lemma scheduler_invariant_witness : sched_inv probe_s1 /\ directive_is_supported probe_d = true.
Proof.
  destruct (scheduler_invariant (mkP2pId [1]) probe_s1 probe_peer 2000 probe_d probe_s2)
    as (H1 & _ & H2 & _); [apply probe_s1_reachable|by vm_compute|by split].
Defined.

Lemma authority_protected_witness :
  observe_control probe_peer 8 (mkEndpoint ServerReflexive Quic (V4 (mkV4 203 0 113 8) 3456)) 3000 probe_s1
  = (no_transition, probe_s1).
Proof.
  apply (authority_protected probe_peer probe_p1 8
    (mkEndpoint ServerReflexive Quic (V4 (mkV4 203 0 113 8) 3456)) probe_s1);
    [by vm_compute|done|by right].
Defined.

Lemma directive_result_roundtrip_witness :
  fst (probe_report probe_s2 (Some (result_from_directive probe_d probe_profile)) 3000)
  = mkTransition None (Some (Some (published probe_profile 3000))).
Proof.
  pose proof (directive_result_roundtrip probe_peer probe_p1 2000 probe_d probe_s1 probe_s2 9 probe_ep
    probe_profile 3000) as H.
  unfold probe_report. cbv zeta in H.
  destruct (observe_capable_report _ _ _ _ _ _ probe_s2) as [tr s2].
  apply H; by vm_compute.
Defined.

Lemma published_profile_provenance_witness :
  exists p r f, peers probe_s2 !! probe_peer = Some p
    /\ Some (result_from_directive probe_d probe_profile) = Some r /\ in_flight p = Some f
    /\ pr_request_id r = if_request_id f.
Proof.
  destruct (published_profile_provenance probe_peer 9 probe_ep (Some NAT_PROBE_CONTROL_VERSION)
    (Some (result_from_directive probe_d probe_profile)) 3000 probe_s2
    (mkTransition None (Some (Some (published probe_profile 3000))))
    (snd (probe_report probe_s2 (Some (result_from_directive probe_d probe_profile)) 3000))
    (published probe_profile 3000)) as (p & r & f & H1 & H2 & H3 & _ & _ & _ & _ & _ & H4 & _);
    [by vm_compute|done|].
  by exists p, r, f.
Defined.
