(* ===== verification/KBucket.v ===== *)
(** * Kademlia buckets (src/p2p-frame/src/dht/k_bucket.rs)

    The traits [KadId] and [KadEntry] are classes; what the buckets rely on
    when they sort by distance is the class [KadIdLaws].  A [VecDeque] is a
    list, front first.  [None] as a result is a panic. *)

From S2P Require Import Prelude.

(** [trait KadId: PartialEq]. *)
Class KadId (T : Type) := {
  #[global] kad_eq_dec :: EqDecision T;
  kad_compare : T -> T -> comparison;
  kad_distance : T -> T -> T;
  kad_index : T -> Z;
  kad_bits : Z;
}.

Class KadEntry (E : Type) := newest_than : E -> E -> bool.

(** A comparison that orders, and indices that name a bucket. *)
Class KadIdLaws (T : Type) `{KadId T} := {
  kad_compare_total : forall a b : T, cmp_le kad_compare a b = true \/ cmp_le kad_compare b a = true;
  kad_compare_trans : forall a b c : T,
    cmp_le kad_compare a b = true -> cmp_le kad_compare b c = true -> cmp_le kad_compare a c = true;
  kad_index_range : forall d : T, 0 <= kad_index d < kad_bits;
}.

Inductive KBucketResult (E : Type) := Added (evicted : option E) | Updated | Ignored.
Arguments Added {E}.
Arguments Updated {E}.
Arguments Ignored {E}.

Section buckets.
Context {T E : Type} `{!KadId T, !KadEntry E}.

Record KBucket := mkBucket { bucket_entries : list (T * E); bucket_k_size : Z }.

Definition bucket_new (k : Z) : KBucket := mkBucket [] k.

(** The loop over the entries: [None] when no entry has the identifier. *)
Fixpoint update_entry (id : T) (new : E) (l : list (T * E)) : option (KBucketResult E * list (T * E)) :=
  match l with
  | [] => None
  | (x, e) :: l =>
      if bool_decide (x = id) then
        if newest_than new e then Some (Updated, (x, new) :: l) else Some (Ignored, (x, e) :: l)
      else match update_entry id new l with
           | Some (r, l) => Some (r, (x, e) :: l)
           | None => None
           end
  end.

Definition bucket_set (id : T) (new : E) (b : KBucket) : option (KBucketResult E * KBucket) :=
  match update_entry id new (bucket_entries b) with
  | Some (r, l) => Some (r, mkBucket l (bucket_k_size b))
  | None =>
      if Z.of_nat (length (bucket_entries b)) <? bucket_k_size b
      then Some (Added None, mkBucket (bucket_entries b ++ [(id, new)]) (bucket_k_size b))
      else match bucket_entries b with
           | (_, e) :: l => Some (Added (Some e), mkBucket (l ++ [(id, new)]) (bucket_k_size b))
           | [] => None
           end
  end.

Fixpoint entry_get (id : T) (l : list (T * E)) : option E :=
  match l with
  | [] => None
  | (x, e) :: l => if bool_decide (x = id) then Some e else entry_get id l
  end.

Definition bucket_get (id : T) (b : KBucket) : option E := entry_get id (bucket_entries b).
Definition bucket_len (b : KBucket) : nat := length (bucket_entries b).

Record KBuckets := mkBuckets { buckets : list KBucket; owner : T; k_size : Z }.

Definition buckets_new (k : Z) (o : T) : KBuckets :=
  mkBuckets (replicate (Z.to_nat kad_bits) (bucket_new k)) o k.

(** The assertion and the indexing both panic. *)
Definition buckets_set (id : T) (e : E) (bs : KBuckets) : option (KBucketResult E * KBuckets) :=
  let index := kad_index (kad_distance (owner bs) id) in
  if negb (index <? kad_bits) then None
  else match buckets bs !! Z.to_nat index with
       | None => None
       | Some b =>
           match bucket_set id e b with
           | None => None
           | Some (r, b) => Some (r, mkBuckets (<[Z.to_nat index := b]> (buckets bs)) (owner bs) (k_size bs))
           end
       end.

Fixpoint first_get (id : T) (bs : list KBucket) : option E :=
  match bs with
  | [] => None
  | b :: bs => match bucket_get id b with Some e => Some e | None => first_get id bs end
  end.

Definition buckets_get (id : T) (bs : KBuckets) : option E := first_get id (buckets bs).

Definition all_entries (bs : KBuckets) : list (T * E) := b ← buckets bs; bucket_entries b.

Definition nearer (id : T) (a b : T * E) : bool :=
  cmp_le kad_compare (kad_distance (fst a) id) (kad_distance (fst b) id).

Definition get_nearest_of (id : T) (bs : KBuckets) : list (T * E) :=
  take (Z.to_nat (k_size bs)) (sort_by (nearer id) (all_entries bs)).
End buckets.

Arguments KBucket : clear implicits.
Arguments KBuckets : clear implicits.

(** The instances for [u32]: one bucket, all distances equal. *)
Definition u32_KadId : KadId Z := {|
  kad_eq_dec := Z.eq_dec;
  kad_compare := fun _ _ => Eq;
  kad_distance := fun _ _ => 0;
  kad_index := fun _ => 0;
  kad_bits := 16;
|}.
Definition u32_KadEntry : KadEntry Z := fun _ _ => false.

(** ** One bucket *)

Section bucket_facts.
Context {T E : Type} `{!KadId T, !KadEntry E}.
Implicit Types b : KBucket T E.

Definition bucket_ok b : Prop :=
  NoDup (bucket_entries b).*1 /\ Z.of_nat (length (bucket_entries b)) <= bucket_k_size b.

Lemma update_entry_spec id new (l : list (T * E)) :
  match update_entry id new l with
  | None => id ∉ l.*1
  | Some (r, l') =>
      l'.*1 = l.*1 /\ exists e, entry_get id l = Some e
      /\ entry_get id l' = Some (if newest_than new e then new else e)
      /\ r = (if newest_than new e then Updated else Ignored)
      /\ forall id', id' <> id -> entry_get id' l' = entry_get id' l
  end.
Proof using Type.
  induction l as [|[x e] l IH]; [by intros ?%elem_of_nil|]. cbn [update_entry entry_get].
  case_bool_decide as Hx.
  - destruct (newest_than new e) eqn:En; (split; [done|]); exists e; rewrite En; split_and!; try done;
      cbn [entry_get]; rewrite ?bool_decide_true by done; try done.
    intros id' Hne. by rewrite !bool_decide_false by congruence.
  - destruct (update_entry id new l) as [[r l']|].
    + destruct IH as (Hl & e0 & H1 & H2 & H3 & H4). split; [simpl; by f_equal|].
      exists e0. cbn [entry_get]. rewrite bool_decide_false by done. split_and!; try done.
      intros id' Hne. case_bool_decide; [done|]. by apply H4.
    + simpl. rewrite elem_of_cons. naive_solver.
Qed.

Lemma entry_get_None id (l : list (T * E)) : entry_get id l = None <-> id ∉ l.*1.
Proof using Type.
  induction l as [|[x e] l IH]; simpl; [set_solver|]. rewrite not_elem_of_cons, <-IH.
  case_bool_decide; naive_solver.
Qed.

Lemma entry_get_app id (l k : list (T * E)) :
  entry_get id (l ++ k) = match entry_get id l with Some e => Some e | None => entry_get id k end.
Proof using Type. induction l as [|[x e] l IH]; simpl; [done|]. by case_bool_decide. Qed.

Lemma bucket_set_ok id new b r b' :
  bucket_ok b -> bucket_set id new b = Some (r, b') ->
  bucket_ok b' /\ bucket_k_size b' = bucket_k_size b.
Proof using Type.
  intros [Hn Hl]. unfold bucket_set. pose proof (update_entry_spec id new (bucket_entries b)) as Hu.
  destruct (update_entry id new (bucket_entries b)) as [[r' l']|].
  - intros [= <- <-]. destruct Hu as (Hk & _). unfold bucket_ok. simpl.
    rewrite Hk. split_and!; try done. apply (f_equal length) in Hk. rewrite !length_fmap in Hk. lia.
  - destruct (Z.ltb_spec (Z.of_nat (length (bucket_entries b))) (bucket_k_size b)).
    + intros [= <- <-]. unfold bucket_ok. simpl. rewrite fmap_app, length_app. simpl.
      split_and!; [|lia|done]. apply NoDup_app. split_and!; [done| |apply NoDup_singleton]. set_solver.
    + destruct (bucket_entries b) as [|[x e] l]; [done|]. intros [= <- <-]. unfold bucket_ok. simpl in *.
      apply NoDup_cons in Hn as [_ Hn]. rewrite fmap_app, length_app. simpl.
      split_and!; [|lia|done]. apply NoDup_app. split_and!; [done| |apply NoDup_singleton]. set_solver.
Qed.

Lemma bucket_set_get id new b r b' :
  bucket_set id new b = Some (r, b') ->
  bucket_get id b' = Some match bucket_get id b with
                          | Some e => if newest_than new e then new else e
                          | None => new
                          end.
Proof using Type.
  unfold bucket_set, bucket_get. pose proof (update_entry_spec id new (bucket_entries b)) as Hu.
  destruct (update_entry id new (bucket_entries b)) as [[r' l']|].
  - intros [= <- <-]. destruct Hu as (_ & e & H1 & H2 & _). simpl. by rewrite H1, H2.
  - apply entry_get_None in Hu. rewrite Hu. destruct (_ <? _).
    + intros [= <- <-]. simpl. rewrite entry_get_app, Hu. simpl. by rewrite bool_decide_true.
    + destruct (bucket_entries b) as [|[x e] l]; [done|]. intros [= <- <-]. simpl in *.
      case_bool_decide; [done|]. rewrite entry_get_app, Hu. simpl. by rewrite bool_decide_true.
Qed.

(** A bucket of positive size never overflows and never panics: setting
    an entry succeeds and keeps identifiers distinct and at most k of them; a
    known identifier keeps the newer of both entries and its place; a new one
    is stored, evicting the entry at the front exactly when the bucket is
    full; every other entry is untouched. *)
Theorem bucket_set_spec id new b :
  bucket_ok b -> 1 <= bucket_k_size b ->
  exists r b', bucket_set id new b = Some (r, b') /\ bucket_ok b' /\ bucket_k_size b' = bucket_k_size b
    /\ match r with
       | Added None => bucket_get id b = None /\ bucket_get id b' = Some new
           /\ Z.of_nat (bucket_len b) < bucket_k_size b
           /\ forall id', id' <> id -> bucket_get id' b' = bucket_get id' b
       | Added (Some e) => bucket_get id b = None /\ bucket_get id b' = Some new
           /\ Z.of_nat (bucket_len b) = bucket_k_size b
           /\ exists x, head (bucket_entries b) = Some (x, e) /\ bucket_get x b' = None
              /\ forall id', id' <> id -> id' <> x -> bucket_get id' b' = bucket_get id' b
       | Updated | Ignored => exists e, bucket_get id b = Some e
           /\ bucket_get id b' = Some (if newest_than new e then new else e)
           /\ (bucket_entries b').*1 = (bucket_entries b).*1
           /\ forall id', id' <> id -> bucket_get id' b' = bucket_get id' b
       end.
Proof using Type.
  intros Hok Hk. pose proof (bucket_set_ok id new b) as Hpres. unfold bucket_set in *.
  pose proof (update_entry_spec id new (bucket_entries b)) as Hu. unfold bucket_get, bucket_len in *.
  destruct (update_entry id new (bucket_entries b)) as [[r l']|].
  - destruct Hu as (Hkeys & e & H1 & H2 & H3 & H4). exists r, (mkBucket l' (bucket_k_size b)).
    destruct (Hpres _ _ Hok eq_refl) as [? ?]. split_and!; try done. subst r.
    destruct (newest_than new e) eqn:En; exists e; simpl; rewrite En; split_and!; done.
  - assert (Hnone : entry_get id (bucket_entries b) = None) by (by apply entry_get_None).
    assert (Happ : forall id' (l : list (T * E)), id' <> id ->
      entry_get id' (l ++ [(id, new)]) = entry_get id' l).
    { intros id' l Hne. rewrite entry_get_app. simpl. rewrite bool_decide_false by done. by destruct (entry_get id' l). }
    destruct (Z.ltb_spec (Z.of_nat (length (bucket_entries b))) (bucket_k_size b)).
    + do 2 eexists. split; [done|]. destruct (Hpres _ _ Hok eq_refl) as [? ?]. split_and!; try done; simpl.
      * rewrite entry_get_app, Hnone. simpl. by rewrite bool_decide_true.
      * intros. by apply Happ.
    + pose proof Hok as [Hn Hl]. destruct (bucket_entries b) as [|[x e] l] eqn:Eb; [simpl in *; lia|].
      do 2 eexists. split; [done|]. destruct (Hpres _ _ Hok eq_refl) as [? ?].
      split_and!; try done; simpl in *.
      * case_bool_decide; [done|]. rewrite entry_get_app, Hnone. simpl. by rewrite bool_decide_true.
      * lia.
      * case_bool_decide as Hx; [done|]. exists x. split; [done|]. apply NoDup_cons in Hn as [Hx' _]. split.
        -- rewrite Happ by done. by apply entry_get_None.
        -- intros id' Hne Hnx. rewrite Happ by done. by rewrite bool_decide_false.
Qed.
End bucket_facts.

(** ** The table *)

Section table_facts.
Context {T E : Type} `{!KadId T, !KadEntry E}.
Implicit Types bs : KBuckets T E.

(** The bucket an identifier belongs to. *)
Definition bucket_of bs (id : T) : nat := Z.to_nat (kad_index (kad_distance (owner bs) id)).

Record table_ok bs : Prop := {
  to_len : length (buckets bs) = Z.to_nat (kad_bits (T:=T));
  to_buckets : Forall (fun b => bucket_ok b /\ bucket_k_size b = k_size bs) (buckets bs);
  to_place : forall i b id, buckets bs !! i = Some b -> id ∈ (bucket_entries b).*1 -> i = bucket_of bs id;
}.

Lemma bucket_get_Some id (b : KBucket T E) e : bucket_get id b = Some e -> id ∈ (bucket_entries b).*1.
Proof using Type.
  intros H. destruct (decide (id ∈ (bucket_entries b).*1)) as [?|Hn]; [done|].
  apply entry_get_None in Hn. unfold bucket_get in H. congruence.
Qed.

(** A lookup scans all buckets, but only the identifier's own can hold it. *)
Lemma buckets_get_own bs id b :
  table_ok bs -> buckets bs !! bucket_of bs id = Some b -> buckets_get id bs = bucket_get id b.
Proof using Type.
  intros Hok. unfold buckets_get. pose proof (to_place _ Hok) as Hp.
  assert (Hgen : forall l n, (forall i x, l !! i = Some x -> id ∈ (bucket_entries x).*1 -> i = n) ->
    l !! n = Some b -> first_get id l = bucket_get id b).
  { induction l as [|x l IH]; intros n Hl Hn; [done|]. simpl. destruct n as [|n].
    - injection Hn as ->. destruct (bucket_get id b) eqn:Eg; [done|].
      assert (Hrest : forall y, y ∈ l -> bucket_get id y = None).
      { intros y [i Hi]%list_elem_of_lookup. apply entry_get_None. intros Hin.
        by specialize (Hl (S i) y Hi Hin). }
      clear -Hrest. induction l as [|y l IH]; [done|]. simpl. rewrite Hrest by set_solver.
      apply IH. set_solver.
    - destruct (bucket_get id x) eqn:Eg.
      + apply bucket_get_Some in Eg. by specialize (Hl 0%nat x eq_refl Eg).
      + apply (IH n); [|done]. intros i y Hi Hy. specialize (Hl (S i) y Hi Hy). lia. }
  intros Hb. apply (Hgen (buckets bs) (bucket_of bs id)); [|done]. intros i x Hi Hx. by eapply Hp.
Qed.

Lemma bucket_set_keys id new (b : KBucket T E) r b' x :
  bucket_set id new b = Some (r, b') -> x ∈ (bucket_entries b').*1 -> x = id \/ x ∈ (bucket_entries b).*1.
Proof using Type.
  unfold bucket_set. pose proof (update_entry_spec id new (bucket_entries b)) as Hu.
  destruct (update_entry id new (bucket_entries b)) as [[r' l']|].
  - intros [= <- <-]. destruct Hu as [Hk _]. simpl. rewrite Hk. by right.
  - destruct (_ <? _); [intros [= <- <-]; simpl; rewrite fmap_app; set_solver|].
    destruct (bucket_entries b) as [|[y e] l]; [done|]. intros [= <- <-]. simpl. rewrite fmap_app. set_solver.
Qed.

Context `{!KadIdLaws T}.

Lemma bucket_of_lt bs id : table_ok bs -> (bucket_of bs id < length (buckets bs))%nat.
Proof using KadIdLaws0.
  intros Hok. rewrite (to_len _ Hok). unfold bucket_of.
  pose proof (kad_index_range (kad_distance (owner bs) id)). lia.
Qed.

(** Setting an entry in the table always succeeds, and the entry is
    found again: for a positive k the identifier's bucket exists and takes
    it, every identifier is stored in the one bucket its distance to the
    owner selects, so looking it up gives the newer of what was stored and
    what was set. *)
Theorem buckets_set_get id new bs :
  table_ok bs -> 1 <= k_size bs ->
  exists r bs', buckets_set id new bs = Some (r, bs') /\ table_ok bs'
    /\ buckets_get id bs'
       = Some match buckets_get id bs with
              | Some e => if newest_than new e then new else e
              | None => new
              end.
Proof using KadIdLaws0.
  intros Hok Hk. pose proof (bucket_of_lt bs id Hok) as Hlt. unfold buckets_set.
  destruct (lookup_lt_is_Some_2 _ _ Hlt) as [b Hb].
  destruct (kad_index_range (kad_distance (owner bs) id)) as [_ Hidx%Z.ltb_lt].
  rewrite Hidx. cbn [negb]. fold (bucket_of bs id). rewrite Hb.
  pose proof (to_buckets _ Hok) as Hall. rewrite Forall_lookup in Hall.
  destruct (Hall _ _ Hb) as [Hbok Hbk].
  destruct (bucket_set id new b) as [[r b']|] eqn:Hset.
  2:{ exfalso. unfold bucket_set in Hset. destruct (update_entry _ _ _) as [[? ?]|]; [done|].
      destruct (Z.ltb_spec (Z.of_nat (length (bucket_entries b))) (bucket_k_size b)); [done|].
      destruct (bucket_entries b) as [|[? ?] ?]; [simpl in *; lia|done]. }
  destruct (bucket_set_ok _ _ _ _ _ Hbok Hset) as [Hbok' Hbk'].
  set (bs' := mkBuckets _ _ _).
  assert (Hok' : table_ok bs').
  { split; simpl.
    - by rewrite length_insert, (to_len _ Hok).
    - apply Forall_insert; [apply (to_buckets _ Hok)|]. split; [done|congruence].
    - intros i x id' Hi Hin. unfold bucket_of, bs'. simpl. fold (bucket_of bs id').
      apply list_lookup_insert_Some in Hi as [(<- & -> & _)|[_ Hi]]; [|by eapply to_place].
      destruct (bucket_set_keys _ _ _ _ _ _ Hset Hin) as [->|Hin']; [done|]. by eapply to_place. }
  exists r, bs'. split_and!; [done..|].
  assert (Hb' : buckets bs' !! bucket_of bs' id = Some b').
  { unfold bs', bucket_of. simpl. fold (bucket_of bs id). by apply list_lookup_insert_eq. }
  rewrite (buckets_get_own _ _ _ Hok' Hb'), (buckets_get_own _ _ _ Hok Hb).
  by apply (bucket_set_get id new b r).
Qed.

(** The nearest entries are the nearest: the answer has at most k
    entries of the table, ordered by distance to the identifier, and every
    entry of the table left out is at least as far as every entry returned. *)
Theorem get_nearest_of_nearest id bs :
  let l := get_nearest_of id bs in
  exists rest, l ++ rest ≡ₚ all_entries bs
    /\ length l = (Z.to_nat (k_size bs) `min` length (all_entries bs))%nat
    /\ StronglySorted (fun a b => nearer id a b = true) l
    /\ (forall a b, a ∈ l -> b ∈ rest -> nearer id a b = true).
Proof using KadIdLaws0.
  simpl. unfold get_nearest_of. set (n := Z.to_nat (k_size bs)).
  exists (drop n (sort_by (nearer id) (all_entries bs))). rewrite take_drop.
  assert (Hs : StronglySorted (fun a b => nearer id a b = true) (sort_by (nearer id) (all_entries bs))).
  { apply sort_by_sorted; unfold nearer; intros; [apply kad_compare_total|by eapply kad_compare_trans]. }
  rewrite <-(take_drop n (sort_by _ _)) in Hs. apply StronglySorted_app in Hs as (H1 & H2 & H3).
  split_and!; [apply sort_by_perm| |done|done].
  by rewrite length_take, sort_by_length.
Qed.
End table_facts.

(** ** Concrete tables *)

(** Identifiers of four bits with the xor metric. *)
Definition xor_KadId : KadId Z := {|
  kad_eq_dec := Z.eq_dec;
  kad_compare := Z.compare;
  kad_distance := fun a b => Z.lxor a b mod 16;
  kad_index := fun d => Z.log2 d mod 4;
  kad_bits := 4;
|}.

Lemma xor_KadIdLaws : @KadIdLaws Z xor_KadId.
Proof.
  split.
  - apply (cmp_le_total Z.compare).
  - apply (cmp_le_trans Z.compare).
  - intros d. simpl. apply Z.mod_pos_bound. lia.
Qed.

Definition newer_KadEntry : KadEntry Z := fun a b => b <? a.

Definition table_0 : KBuckets Z Z := @buckets_new Z Z xor_KadId 2 5.

Lemma table_0_ok : @table_ok Z Z xor_KadId table_0.
Proof.
  split; simpl; [done|repeat (constructor; [split; [split; [constructor|simpl; lia]|done]|]); constructor|].
  intros i b id Hi. repeat (destruct i as [|i]; [injection Hi as <-; by intros ?%elem_of_nil|]). done.
Qed.

Lemma bucket_set_spec_witness :
  @bucket_set Z Z xor_KadId newer_KadEntry 3 30 (mkBucket [(1, 10); (2, 20)] 2)
  = Some (Added (Some 10), mkBucket [(2, 20); (3, 30)] 2)
  /\ exists r b', @bucket_set Z Z xor_KadId newer_KadEntry 3 30 (mkBucket [(1, 10); (2, 20)] 2) = Some (r, b')
     /\ bucket_ok b'.
Proof.
  split; [by vm_compute|].
  destruct (@bucket_set_spec Z Z xor_KadId newer_KadEntry 3 30 (mkBucket [(1, 10); (2, 20)] 2))
    as (r & b' & H1 & H2 & _); [|simpl; lia|by exists r, b'].
  split; [by apply (bool_decide_unpack _); vm_compute|simpl; lia].
Defined.

Lemma buckets_set_get_witness :
  exists r bs', @buckets_set Z Z xor_KadId newer_KadEntry 12 7 table_0 = Some (r, bs')
    /\ @buckets_get Z Z xor_KadId 12 bs' = Some 7.
Proof.
  destruct (@buckets_set_get Z Z xor_KadId newer_KadEntry xor_KadIdLaws 12 7 table_0)
    as (r & bs' & H1 & _ & H2); [apply table_0_ok|simpl; lia|]. by exists r, bs'.
Defined.

Lemma get_nearest_of_nearest_witness :
  @get_nearest_of Z Z xor_KadId 6 (mkBuckets [mkBucket [(4, 40)] 2; mkBucket [(7, 70); (1, 10)] 2] 5 2)
  = [(7, 70); (4, 40)]
  /\ exists rest : list (Z * Z),
      @get_nearest_of Z Z xor_KadId 6 (mkBuckets [mkBucket [(4, 40)] 2; mkBucket [(7, 70); (1, 10)] 2] 5 2)
      ++ rest ≡ₚ [(4, 40); (7, 70); (1, 10)].
Proof.
  split; [by vm_compute|].
  destruct (@get_nearest_of_nearest Z Z xor_KadId xor_KadIdLaws 6
    (mkBuckets [mkBucket [(4, 40)] 2; mkBucket [(7, 70); (1, 10)] 2] 5 2)) as (rest & H & _).
  by exists rest.
Defined.
