(* ===== verification/Codec.v ===== *)
(** * The codec interface

    The crate encodes with [bucky_raw_codec]: the traits [RawEncode],
    [RawDecode], [RawConvertTo] and [RawFrom] and the instances the derive
    macros generate are code outside the repository.  [RawCodec] is what the
    crate calls of them; [RawCodecLaws] is what it relies on.  The theorems on
    messages are proved against these classes. *)

From S2P Require Import Prelude Endpoint.

Notation CodecResult := (Result CodecErrorCode).

Class RawCodec (T : Type) := mkCodec {
  codec_measure : T -> CodecResult nat;             (* raw_measure *)
  to_vec : T -> CodecResult (list Z);               (* raw_encode into a buffer of that size *)
  codec_decode : list Z -> CodecResult (T * list Z); (* raw_decode *)
  clone_from_slice : list Z -> CodecResult T;
}.

Class RawCodecLaws (T : Type) `{RawCodec T} : Prop := {
  measure_to_vec : forall (v : T) b, to_vec v = Ok b -> codec_measure v = Ok (length b);
  decode_to_vec : forall (v : T) b rest, to_vec v = Ok b -> codec_decode (b ++ rest) = Ok (v, rest);
  clone_to_vec : forall (v : T) b, to_vec v = Ok b -> clone_from_slice b = Ok v;
}.

(** A codec of unsigned integers of [w] bytes: it encodes exactly the values in
    range, each in [w] bytes. *)
Class FixedCodec (w : nat) (c : RawCodec Z) : Prop := {
  fixed_laws : @RawCodecLaws Z c;
  fixed_encode : forall v, 0 <= v < 2 ^ (8 * Z.of_nat w) -> exists b, to_vec v = Ok b /\ length b = w;
  fixed_length : forall v b, to_vec v = Ok b -> length b = w;
}.

(** ** A codec that satisfies the laws *)

Fixpoint be_bytes (w : nat) (v : Z) : list Z :=
  match w with
  | O => []
  | S w => be_bytes w (v / 256) ++ [v mod 256]
  end.

Definition be_value (l : list Z) : Z := foldl (fun acc b => acc * 256 + b) 0 l.

Lemma be_bytes_length w v : length (be_bytes w v) = w.
Proof. revert v. induction w as [|w IH]; intros v; simpl; [done|]. rewrite length_app, IH. simpl. lia. Qed.

Lemma be_value_bytes w v : 0 <= v < 2 ^ (8 * Z.of_nat w) -> be_value (be_bytes w v) = v.
Proof.
  revert v. induction w as [|w IH]; intros v Hv; simpl.
  - unfold be_value. simpl in *. lia.
  - unfold be_value in *. rewrite foldl_app. simpl. rewrite IH.
    + pose proof (Z.div_mod v 256). lia.
    + replace (8 * Z.of_nat (S w)) with (8 * Z.of_nat w + 8) in Hv by lia.
      rewrite Z.pow_add_r in Hv by lia. split; [apply Z.div_pos; lia|].
      apply Z.div_lt_upper_bound; lia.
Qed.

Definition be_codec (w : nat) : RawCodec Z := {|
  codec_measure := fun _ => Ok w;
  to_vec := fun v => if (0 <=? v) && (v <? 2 ^ (8 * Z.of_nat w)) then Ok (be_bytes w v) else Err CodecInvalidInput;
  codec_decode := fun l => if (w <=? length l)%nat then Ok (be_value (take w l), drop w l) else Err CodecOutOfLimit;
  clone_from_slice := fun l => if (w <=? length l)%nat then Ok (be_value (take w l)) else Err CodecOutOfLimit;
|}.

Lemma be_codec_encode w v b :
  @to_vec Z (be_codec w) v = Ok b -> 0 <= v < 2 ^ (8 * Z.of_nat w) /\ b = be_bytes w v.
Proof. simpl. intros H. case_match eqn:E; simplify_eq. bool_to_prop. done. Qed.

Lemma be_codec_fixed w : FixedCodec w (be_codec w).
Proof.
  split.
  - split.
    + intros v b [_ ->]%be_codec_encode. simpl. by rewrite be_bytes_length.
    + intros v b rest [Hv ->]%be_codec_encode. simpl. rewrite length_app, be_bytes_length.
      rewrite (proj2 (Nat.leb_le _ _)) by lia. rewrite take_app_length', drop_app_length' by (by rewrite be_bytes_length).
      by rewrite be_value_bytes.
    + intros v b [Hv ->]%be_codec_encode. simpl. rewrite be_bytes_length, Nat.leb_refl.
      rewrite take_ge by (rewrite be_bytes_length; lia). by rewrite be_value_bytes.
  - intros v Hv. exists (be_bytes w v). split; [|apply be_bytes_length]. simpl.
    by rewrite (proj2 (Z.leb_le _ _)), (proj2 (Z.ltb_lt _ _)) by lia.
  - intros v b [_ ->]%be_codec_encode. apply be_bytes_length.
Qed.

(** A codec that knows one value. *)
Definition single_codec {T} `{EqDecision T} (v0 : T) (tag : Z) : RawCodec T := {|
  codec_measure := fun v => if decide (v = v0) then Ok 1%nat else Err CodecInvalidInput;
  to_vec := fun v => if decide (v = v0) then Ok [tag] else Err CodecInvalidInput;
  codec_decode := fun l => match l with
                           | x :: l => if x =? tag then Ok (v0, l) else Err CodecInvalidData
                           | [] => Err CodecOutOfLimit
                           end;
  clone_from_slice := fun l => match l with
                               | x :: _ => if x =? tag then Ok v0 else Err CodecInvalidData
                               | [] => Err CodecOutOfLimit
                               end;
|}.

Lemma single_codec_laws {T} `{EqDecision T} (v0 : T) tag : @RawCodecLaws T (single_codec v0 tag).
Proof.
  split; simpl; intros v b; intros; case_decide; simplify_eq/=; by rewrite ?Z.eqb_refl.
Qed.
