(* ===== verification/SnExtension.v ===== *)
(** * Extensions of the SN messages (src/p2p-frame/src/sn/protocol/sn.rs)

    The envelope in which newer fields follow a legacy message, and the
    messages built with it: [SnDetailResp], [ReportSn], [ReportSnResp] and
    [SnCall].  The legacy structs have derived codecs; the receipt types of
    [ReportSn] and [ReportSnResp] only pass through them and are parameters. *)

From S2P Require Import Prelude Errors Ids Endpoint NatType SnProtocol Codec.

Definition SN_EXTENSION_VERSION : Z := 1.
(** [u32::from_be_bytes(b"....")]. *)
Definition magic4 (a b c d : Z) : Z := ((a * 256 + b) * 256 + c) * 256 + d.
Definition REPORT_SN_EXTENSION_MAGIC : Z := magic4 82 83 78 80.               (* RSNP *)
Definition REPORT_SN_PROBE_RESULT_EXTENSION_MAGIC : Z := magic4 82 83 78 82.  (* RSNR *)
Definition REPORT_SN_RESP_EXTENSION_MAGIC : Z := magic4 82 83 82 80.          (* RSRP *)
Definition REPORT_SN_RESP_PROBE_DIRECTIVE_EXTENSION_MAGIC : Z := magic4 82 83 82 68. (* RSRD *)
Definition SN_DETAIL_RESP_EXTENSION_MAGIC : Z := magic4 83 68 82 80.          (* SDRP *)
Definition SN_DETAIL_RESP_PROTOCOL_VERSION_EXTENSION_MAGIC : Z := magic4 83 68 80 86. (* SDPV *)
Definition SN_CALL_EXTENSION_MAGIC : Z := magic4 83 67 65 76.                 (* SCAL *)
Definition SN_EXTENSION_HEADER_LEN : nat := 4 + 1 + 4.

Section extension.
(** The codecs of [u8] and [u32]. *)
Context (u8c u32c : RawCodec Z).

Definition extension_measure {T} `{RawCodec T} (value : option T) : CodecResult nat :=
  match value with
  | Some v => n <-? codec_measure v ;; Ok (SN_EXTENSION_HEADER_LEN + n)%nat
  | None => Ok 0%nat
  end.

(** The bytes written. *)
Definition extension_encode {T} `{RawCodec T} (value : option T) (magic : Z) : CodecResult (list Z) :=
  match value with
  | None => Ok []
  | Some v =>
      payload_len <-? codec_measure v ;;
      (if u32_max <? Z.of_nat payload_len then Err CodecOutOfLimit
       else m <-? @to_vec Z u32c magic ;;
            ver <-? @to_vec Z u8c SN_EXTENSION_VERSION ;;
            len <-? @to_vec Z u32c (Z.of_nat payload_len) ;;
            payload <-? to_vec v ;;
            Ok (m ++ ver ++ len ++ payload))
  end.

(** [&original[original.len()..]] is the empty rest. *)
Definition extension_decode (T : Type) `{RawCodec T} (buf : list Z) (magic : Z) : option T * list Z :=
  if (length buf <? 4)%nat then (None, buf)
  else match @codec_decode Z u32c buf with
  | Err _ => (None, buf)
  | Ok (tail_magic, after_magic) =>
      if negb (tail_magic =? magic) then (None, buf)
      else match @codec_decode Z u8c after_magic with
      | Err _ => (None, [])
      | Ok (ver, after_version) =>
          match @codec_decode Z u32c after_version with
          | Err _ => (None, [])
          | Ok (payload_len, after_header) =>
              let payload_len := Z.to_nat payload_len in
              if (length after_header <? payload_len)%nat then (None, [])
              else
                let payload := take payload_len after_header in
                let remainder := drop payload_len after_header in
                if negb (ver =? SN_EXTENSION_VERSION) then (None, remainder)
                else match codec_decode payload with
                     | Ok (v, rest) => if bool_decide (rest = []) then (Some v, remainder) else (None, remainder)
                     | Err _ => (None, remainder)
                     end
          end
      end
  end.
End extension.

(** ** Facts about one extension *)

Section extension_facts.
Context (u8c u32c : RawCodec Z) `{!FixedCodec 1 u8c, !FixedCodec 4 u32c}.
Context {T} `{!RawCodec T, !RawCodecLaws T}.

#[local] Existing Instance fixed_laws.

(** What an encoded extension looks like. *)
Lemma extension_encode_inv (v : T) magic b :
  extension_encode u8c u32c (Some v) magic = Ok b ->
  exists m ver len payload, b = m ++ ver ++ len ++ payload
    /\ @to_vec Z u32c magic = Ok m /\ @to_vec Z u8c SN_EXTENSION_VERSION = Ok ver
    /\ @to_vec Z u32c (Z.of_nat (length payload)) = Ok len /\ to_vec v = Ok payload.
Proof using RawCodecLaws0.
  simpl. destruct (codec_measure v) as [n|] eqn:Hm; [|done]. destruct (_ <? _); [done|].
  destruct (@to_vec Z u32c magic) as [m|]; [|done]. destruct (@to_vec Z u8c _) as [ver|]; [|done].
  destruct (@to_vec Z u32c (Z.of_nat n)) as [len|] eqn:Hl; [|done].
  destruct (to_vec v) as [payload|] eqn:Hp; [|done]. intros [= <-].
  apply measure_to_vec in Hp as Hm'. rewrite Hm' in Hm. injection Hm as <-. by exists m, ver, len, payload.
Qed.

(** The bytes of an extension are as many as measured, so the buffer the
    caller sized by [raw_measure] is filled exactly. *)
Lemma extension_measure_encode (value : option T) magic b :
  extension_encode u8c u32c value magic = Ok b -> extension_measure value = Ok (length b).
Proof using All.
  destruct value as [v|]; [|by intros [= <-]].
  intros (m & ver & len & payload & -> & Hm & Hv & Hl & Hp)%extension_encode_inv.
  simpl. rewrite (measure_to_vec _ _ Hp). f_equal. rewrite !length_app.
  rewrite (fixed_length _ _ Hm), (fixed_length _ _ Hv), (fixed_length _ _ Hl). done.
Qed.

Lemma extension_decode_encode (v : T) magic b rest :
  extension_encode u8c u32c (Some v) magic = Ok b ->
  extension_decode u8c u32c T (b ++ rest) magic = (Some v, rest).
Proof using All.
  intros (m & ver & len & payload & -> & Hm & Hv & Hl & Hp)%extension_encode_inv.
  unfold extension_decode. rewrite <-!app_assoc.
  assert (H4 : (length (m ++ ver ++ len ++ payload ++ rest) <? 4)%nat = false).
  { apply Nat.ltb_ge. rewrite length_app, (fixed_length _ _ Hm). lia. }
  rewrite H4, (decode_to_vec _ _ _ Hm), Z.eqb_refl. simpl negb. cbv iota.
  rewrite (decode_to_vec _ _ _ Hv), (decode_to_vec _ _ _ Hl), Nat2Z.id. cbv zeta.
  rewrite (proj2 (Nat.ltb_ge _ _)) by (rewrite length_app; lia).
  rewrite take_app_length, drop_app_length. rewrite Z.eqb_refl. simpl negb. cbv iota.
  rewrite <-(app_nil_r payload), (decode_to_vec _ _ _ Hp). by rewrite bool_decide_true.
Qed.

(** Bytes that belong to another extension, or to nothing, are left alone. *)
Lemma extension_decode_other magic m rest magic' :
  @to_vec Z u32c magic' = Ok m -> magic' <> magic ->
  extension_decode u8c u32c T (m ++ rest) magic = (None, m ++ rest).
Proof using FixedCodec1.
  intros Hm Hne. unfold extension_decode. destruct (_ <? 4)%nat; [done|].
  rewrite (decode_to_vec _ _ _ Hm). by rewrite (proj2 (Z.eqb_neq _ _)).
Qed.

Lemma extension_decode_nil magic : extension_decode u8c u32c T [] magic = (None, []).
Proof using Type. done. Qed.

(** An absent or present extension, followed by nothing or by an extension
    with another magic. *)
Lemma extension_decode_optional (value : option T) magic b rest magic' m :
  extension_encode u8c u32c value magic = Ok b ->
  rest = [] \/ (exists tail, rest = m ++ tail /\ @to_vec Z u32c magic' = Ok m /\ magic' <> magic) ->
  extension_decode u8c u32c T (b ++ rest) magic = (value, rest).
Proof using All.
  intros He Hr. destruct value as [v|]; [by apply extension_decode_encode|]. injection He as <-. simpl app.
  destruct Hr as [->|(tail & -> & Hm & Hne)]; [apply extension_decode_nil|].
  by apply (extension_decode_other magic m tail magic').
Qed.
End extension_facts.

(** ** The messages *)

Notation EncodedP2pIdentityCert := (list Z) (only parsing).

Record LegacySnDetailResp := mkLegacyDetail {
  ld_peer_info : option EncodedP2pIdentityCert;
  ld_end_point_array : list Endpoint;
}.
Record SnDetailResp := mkDetail {
  sd_peer_info : option EncodedP2pIdentityCert;
  sd_end_point_array : list Endpoint;
  sd_net_profile : option NatProfile;
  sd_target_protocol_version : option Z;
}.
Definition detail_legacy (m : SnDetailResp) : LegacySnDetailResp :=
  mkLegacyDetail (sd_peer_info m) (sd_end_point_array m).

Inductive TunnelType := TunnelDatagram | TunnelStream.

Record LegacySnCall := mkLegacyCall {
  lc_protocol_version : Z;
  lc_stack_version : Z;
  lc_seq : Sequence;
  lc_tunnel_id : TunnelId;
  lc_sn_peer_id : P2pId;
  lc_to_peer_id : P2pId;
  lc_from_peer_id : P2pId;
  lc_reverse_endpoint_array : option (list Endpoint);
  lc_active_pn_list : option (list P2pId);
  lc_peer_info : option EncodedP2pIdentityCert;
  lc_send_time : Timestamp;
  lc_call_type : TunnelType;
  lc_payload : list Z;
  lc_is_always_call : bool;
}.
Record SnCall := mkCall {
  sc_protocol_version : Z;
  sc_stack_version : Z;
  sc_seq : Sequence;
  sc_tunnel_id : TunnelId;
  sc_sn_peer_id : P2pId;
  sc_to_peer_id : P2pId;
  sc_from_peer_id : P2pId;
  sc_reverse_endpoint_array : option (list Endpoint);
  sc_active_pn_list : option (list P2pId);
  sc_peer_info : option EncodedP2pIdentityCert;
  sc_send_time : Timestamp;
  sc_call_type : TunnelType;
  sc_payload : list Z;
  sc_is_always_call : bool;
  sc_nat_context : option NatTraversalContext;
}.
Definition call_legacy (m : SnCall) : LegacySnCall :=
  mkLegacyCall (sc_protocol_version m) (sc_stack_version m) (sc_seq m) (sc_tunnel_id m)
    (sc_sn_peer_id m) (sc_to_peer_id m) (sc_from_peer_id m) (sc_reverse_endpoint_array m)
    (sc_active_pn_list m) (sc_peer_info m) (sc_send_time m) (sc_call_type m) (sc_payload m)
    (sc_is_always_call m).
Definition call_of_legacy (l : LegacySnCall) (c : option NatTraversalContext) : SnCall :=
  mkCall (lc_protocol_version l) (lc_stack_version l) (lc_seq l) (lc_tunnel_id l) (lc_sn_peer_id l)
    (lc_to_peer_id l) (lc_from_peer_id l) (lc_reverse_endpoint_array l) (lc_active_pn_list l)
    (lc_peer_info l) (lc_send_time l) (lc_call_type l) (lc_payload l) (lc_is_always_call l) c.

Record ReportSnProbeControl := mkProbeControl { pc_version : Z; pc_result : option NatProbeResult }.

Section reports.
(** [ReceiptWithSignature] and [SnServiceReceipt]. *)
Context {ReceiptWithSignature SnServiceReceipt : Type}.

Record LegacyReportSn := mkLegacyReport {
  lr_protocol_version : Z;
  lr_stack_version : Z;
  lr_seq : Sequence;
  lr_sn_peer_id : P2pId;
  lr_from_peer_id : option P2pId;
  lr_peer_info : option EncodedP2pIdentityCert;
  lr_send_time : Timestamp;
  lr_contract_id : option P2pId;
  lr_receipt : option ReceiptWithSignature;
  lr_map_ports : list (Protocol * Z);
  lr_local_eps : list Endpoint;
}.
Record ReportSn := mkReport {
  re_protocol_version : Z;
  re_stack_version : Z;
  re_seq : Sequence;
  re_sn_peer_id : P2pId;
  re_from_peer_id : option P2pId;
  re_peer_info : option EncodedP2pIdentityCert;
  re_send_time : Timestamp;
  re_contract_id : option P2pId;
  re_receipt : option ReceiptWithSignature;
  re_map_ports : list (Protocol * Z);
  re_local_eps : list Endpoint;
  re_net_profile : option NatProfile;
  re_nat_probe_control_version : option Z;
  re_nat_probe_result : option NatProbeResult;
}.
Definition report_legacy (m : ReportSn) : LegacyReportSn :=
  mkLegacyReport (re_protocol_version m) (re_stack_version m) (re_seq m) (re_sn_peer_id m)
    (re_from_peer_id m) (re_peer_info m) (re_send_time m) (re_contract_id m) (re_receipt m)
    (re_map_ports m) (re_local_eps m).
Definition report_of_legacy (l : LegacyReportSn) (p : option NatProfile) (v : option Z)
    (r : option NatProbeResult) : ReportSn :=
  mkReport (lr_protocol_version l) (lr_stack_version l) (lr_seq l) (lr_sn_peer_id l)
    (lr_from_peer_id l) (lr_peer_info l) (lr_send_time l) (lr_contract_id l) (lr_receipt l)
    (lr_map_ports l) (lr_local_eps l) p v r.

Record LegacyReportSnResp := mkLegacyReportResp {
  lp_seq : Sequence;
  lp_sn_peer_id : P2pId;
  lp_result : Z;
  lp_peer_info : option EncodedP2pIdentityCert;
  lp_end_point_array : list Endpoint;
  lp_receipt : option SnServiceReceipt;
}.
Record ReportSnResp := mkReportResp {
  pp_seq : Sequence;
  pp_sn_peer_id : P2pId;
  pp_result : Z;
  pp_peer_info : option EncodedP2pIdentityCert;
  pp_end_point_array : list Endpoint;
  pp_receipt : option SnServiceReceipt;
  pp_nat_probe_ports : list Z;
  pp_nat_probe_directive : option NatProbeDirective;
}.
Definition report_resp_legacy (m : ReportSnResp) : LegacyReportSnResp :=
  mkLegacyReportResp (pp_seq m) (pp_sn_peer_id m) (pp_result m) (pp_peer_info m)
    (pp_end_point_array m) (pp_receipt m).
End reports.

Arguments LegacyReportSn : clear implicits.
Arguments ReportSn : clear implicits.
Arguments LegacyReportSnResp : clear implicits.
Arguments ReportSnResp : clear implicits.

Section messages.
Context (u8c u32c : RawCodec Z).
Context {ReceiptWithSignature SnServiceReceipt : Type}.
Context `{!RawCodec LegacySnDetailResp, !RawCodec LegacySnCall,
          !RawCodec (LegacyReportSn ReceiptWithSignature),
          !RawCodec (LegacyReportSnResp SnServiceReceipt)}.
Context `{!RawCodec NatProfile, !RawCodec NatTraversalContext, !RawCodec ReportSnProbeControl,
          !RawCodec NatProbeDirective, ports_codec : !RawCodec (list Z)}.

#[local] Notation ext v magic := (extension_encode u8c u32c v magic).

Definition detail_encode (m : SnDetailResp) : CodecResult (list Z) :=
  l <-? to_vec (detail_legacy m) ;;
  a <-? ext (sd_net_profile m) SN_DETAIL_RESP_EXTENSION_MAGIC ;;
  b <-? extension_encode (H:=u8c) u8c u32c (sd_target_protocol_version m)
          SN_DETAIL_RESP_PROTOCOL_VERSION_EXTENSION_MAGIC ;;
  Ok (l ++ a ++ b).

Definition detail_decode (buf : list Z) : CodecResult (SnDetailResp * list Z) :=
  match codec_decode (T:=LegacySnDetailResp) buf with
  | Err e => Err e
  | Ok (legacy, buf) =>
      let '(p, buf) := extension_decode u8c u32c NatProfile buf SN_DETAIL_RESP_EXTENSION_MAGIC in
      let '(v, buf) := extension_decode (H:=u8c) u8c u32c Z buf
                         SN_DETAIL_RESP_PROTOCOL_VERSION_EXTENSION_MAGIC in
      Ok (mkDetail (ld_peer_info legacy) (ld_end_point_array legacy) (supported_nat_profile p) v, buf)
  end.

Definition call_encode (m : SnCall) : CodecResult (list Z) :=
  l <-? to_vec (call_legacy m) ;;
  a <-? ext (sc_nat_context m) SN_CALL_EXTENSION_MAGIC ;;
  Ok (l ++ a).

Definition call_decode (buf : list Z) : CodecResult (SnCall * list Z) :=
  match codec_decode (T:=LegacySnCall) buf with
  | Err e => Err e
  | Ok (legacy, buf) =>
      let '(c, buf) := extension_decode u8c u32c NatTraversalContext buf SN_CALL_EXTENSION_MAGIC in
      Ok (call_of_legacy legacy (supported_nat_context c), buf)
  end.

(** [(version.is_some() || result.is_some()).then(..)]. *)
Definition probe_control (m : ReportSn ReceiptWithSignature) : option ReportSnProbeControl :=
  if bool_decide (is_Some (re_nat_probe_control_version m))
     || bool_decide (is_Some (re_nat_probe_result m))
  then Some (mkProbeControl (default 0 (re_nat_probe_control_version m)) (re_nat_probe_result m))
  else None.

Definition report_encode (m : ReportSn ReceiptWithSignature) : CodecResult (list Z) :=
  l <-? to_vec (report_legacy m) ;;
  a <-? ext (re_net_profile m) REPORT_SN_EXTENSION_MAGIC ;;
  b <-? ext (probe_control m) REPORT_SN_PROBE_RESULT_EXTENSION_MAGIC ;;
  Ok (l ++ a ++ b).

Definition report_decode (buf : list Z) : CodecResult (ReportSn ReceiptWithSignature * list Z) :=
  match codec_decode (T:=LegacyReportSn ReceiptWithSignature) buf with
  | Err e => Err e
  | Ok (legacy, buf) =>
      let '(p, buf) := extension_decode u8c u32c NatProfile buf REPORT_SN_EXTENSION_MAGIC in
      let '(c, buf) := extension_decode u8c u32c ReportSnProbeControl buf
                         REPORT_SN_PROBE_RESULT_EXTENSION_MAGIC in
      let c := match c with
               | Some c => if pc_version c =? NAT_PROBE_CONTROL_VERSION then Some c else None
               | None => None
               end in
      let r := match c ≫= pc_result with
               | Some r => if result_is_supported r then Some r else None
               | None => None
               end in
      Ok (report_of_legacy legacy (supported_nat_profile p) (pc_version <$> c) r, buf)
  end.

Definition probe_ports_extension (m : ReportSnResp SnServiceReceipt) : option (list Z) :=
  if bool_decide (pp_nat_probe_ports m = []) then None else Some (pp_nat_probe_ports m).

Definition report_resp_encode (m : ReportSnResp SnServiceReceipt) : CodecResult (list Z) :=
  l <-? to_vec (report_resp_legacy m) ;;
  a <-? ext (probe_ports_extension m) REPORT_SN_RESP_EXTENSION_MAGIC ;;
  b <-? ext (pp_nat_probe_directive m) REPORT_SN_RESP_PROBE_DIRECTIVE_EXTENSION_MAGIC ;;
  Ok (l ++ a ++ b).

Definition report_resp_decode (buf : list Z) : CodecResult (ReportSnResp SnServiceReceipt * list Z) :=
  match codec_decode (T:=LegacyReportSnResp SnServiceReceipt) buf with
  | Err e => Err e
  | Ok (legacy, buf) =>
      let '(ports, buf) := extension_decode u8c u32c (list Z) buf REPORT_SN_RESP_EXTENSION_MAGIC in
      let ports := match ports with
                   | Some ports => if supported_nat_probe_ports ports then ports else []
                   | None => []
                   end in
      let '(d, buf) := extension_decode u8c u32c NatProbeDirective buf
                         REPORT_SN_RESP_PROBE_DIRECTIVE_EXTENSION_MAGIC in
      let d := match d with
               | Some d => if directive_is_supported d then Some d else None
               | None => None
               end in
      Ok (mkReportResp (lp_seq legacy) (lp_sn_peer_id legacy) (lp_result legacy) (lp_peer_info legacy)
            (lp_end_point_array legacy) (lp_receipt legacy) ports d, buf)
  end.
End messages.

(** ** Round trips *)

Section two_extensions.
Context (u8c u32c : RawCodec Z) `{!FixedCodec 1 u8c, !FixedCodec 4 u32c}.
Context {L A B} `{!RawCodec L, !RawCodecLaws L, !RawCodec A, !RawCodecLaws A, !RawCodec B, !RawCodecLaws B}.

(** A legacy part and two optional extensions with different magics. *)
Lemma two_extensions_roundtrip (l : L) (va : option A) (vb : option B) m1 m2 bl a b :
  m1 <> m2 -> to_vec l = Ok bl ->
  extension_encode u8c u32c va m1 = Ok a -> extension_encode u8c u32c vb m2 = Ok b ->
  codec_decode (bl ++ a ++ b) = Ok (l, a ++ b)
  /\ extension_decode u8c u32c A (a ++ b) m1 = (va, b)
  /\ extension_decode u8c u32c B b m2 = (vb, []).
Proof using All.
  intros Hne Hl Ha Hb. split; [by apply decode_to_vec|]. split.
  - destruct vb as [vb|].
    + apply extension_encode_inv in Hb as (m & ver & len & payload & -> & Hm & _); [|done].
      apply (extension_decode_optional u8c u32c va m1 a _ m2 m Ha). right. eauto.
    + injection Hb as <-. apply (extension_decode_optional u8c u32c va m1 a [] m2 [] Ha). by left.
  - rewrite <-(app_nil_r b). apply (extension_decode_optional u8c u32c vb m2 b [] m1 [] Hb). by left.
Qed.
End two_extensions.

Section roundtrips.
Context (u8c u32c : RawCodec Z) `{!FixedCodec 1 u8c, !FixedCodec 4 u32c}.
Context {ReceiptWithSignature SnServiceReceipt : Type}.
Context `{!RawCodec LegacySnDetailResp, !RawCodec LegacySnCall,
          !RawCodec (LegacyReportSn ReceiptWithSignature),
          !RawCodec (LegacyReportSnResp SnServiceReceipt)}.
Context `{!RawCodec NatProfile, !RawCodec NatTraversalContext, !RawCodec ReportSnProbeControl,
          !RawCodec NatProbeDirective, ports_codec : !RawCodec (list Z)}.
Context `{!RawCodecLaws LegacySnDetailResp, !RawCodecLaws LegacySnCall,
          !RawCodecLaws (LegacyReportSn ReceiptWithSignature),
          !RawCodecLaws (LegacyReportSnResp SnServiceReceipt)}.
Context `{!RawCodecLaws NatProfile, !RawCodecLaws NatTraversalContext, !RawCodecLaws ReportSnProbeControl,
          !RawCodecLaws NatProbeDirective, !@RawCodecLaws (list Z) ports_codec}.

#[local] Existing Instance fixed_laws.

(** A report survives the wire: decoding an encoded report consumes it
    whole and gives the report back, except that what this version cannot
    use is dropped: a profile of another version, the probe control unless
    its version is the supported one, and with it any result. *)
Theorem report_roundtrip (m : ReportSn ReceiptWithSignature) b :
  report_encode u8c u32c m = Ok b ->
  let usable := bool_decide (re_nat_probe_control_version m = Some NAT_PROBE_CONTROL_VERSION) in
  report_decode u8c u32c b =
    Ok (report_of_legacy (report_legacy m) (supported_nat_profile (re_net_profile m))
          (if usable then re_nat_probe_control_version m else None)
          (match re_nat_probe_result m with
           | Some r => if usable && result_is_supported r then Some r else None
           | None => None
           end), []).
Proof using FixedCodec0 FixedCodec1 RawCodecLaws2 RawCodecLaws4 RawCodecLaws6.
  unfold report_encode. destruct (to_vec (report_legacy m)) as [bl|] eqn:Hl; [|done].
  destruct (extension_encode _ _ (re_net_profile m) _) as [a|] eqn:Ha; [|done].
  destruct (extension_encode _ _ (probe_control m) _) as [c|] eqn:Hc; [|done]. intros [= <-].
  destruct (two_extensions_roundtrip u8c u32c (report_legacy m) (re_net_profile m) (probe_control m) REPORT_SN_EXTENSION_MAGIC
    REPORT_SN_PROBE_RESULT_EXTENSION_MAGIC bl a c) as (H1 & H2 & H3); [done..|].
  unfold report_decode. rewrite H1, H2, H3. unfold probe_control. do 2 f_equal.
  destruct (re_nat_probe_control_version m) as [v|]; simpl.
  - destruct (Z.eqb_spec v NAT_PROBE_CONTROL_VERSION) as [->|Hv]; simpl.
    + by destruct (re_nat_probe_result m).
    + rewrite bool_decide_false by congruence. simpl. by destruct (re_nat_probe_result m).
  - by destruct (re_nat_probe_result m) as [r|].
Qed.

Lemma report_resp_roundtrip (m : ReportSnResp SnServiceReceipt) b :
  report_resp_encode u8c u32c m = Ok b ->
  report_resp_decode u8c u32c b =
    Ok (mkReportResp (pp_seq m) (pp_sn_peer_id m) (pp_result m) (pp_peer_info m) (pp_end_point_array m)
          (pp_receipt m)
          (if supported_nat_probe_ports (pp_nat_probe_ports m) then pp_nat_probe_ports m else [])
          (match pp_nat_probe_directive m with
           | Some d => if directive_is_supported d then Some d else None
           | None => None
           end), []).
Proof using All.
  unfold report_resp_encode. destruct (to_vec (report_resp_legacy m)) as [bl|] eqn:Hl; [|done].
  destruct (extension_encode _ _ (probe_ports_extension m) _) as [a|] eqn:Ha; [|done].
  destruct (extension_encode _ _ (pp_nat_probe_directive m) _) as [c|] eqn:Hc; [|done]. intros [= <-].
  destruct (two_extensions_roundtrip u8c u32c (report_resp_legacy m) (probe_ports_extension m) (pp_nat_probe_directive m)
    REPORT_SN_RESP_EXTENSION_MAGIC REPORT_SN_RESP_PROBE_DIRECTIVE_EXTENSION_MAGIC bl a c) as (H1 & H2 & H3); [done..|].
  unfold report_resp_decode. rewrite H1, H2, H3. unfold probe_ports_extension.
  case_bool_decide as Hp; [rewrite Hp|]; done.
Qed.

Lemma detail_roundtrip (m : SnDetailResp) b :
  detail_encode u8c u32c m = Ok b ->
  detail_decode u8c u32c b =
    Ok (mkDetail (sd_peer_info m) (sd_end_point_array m) (supported_nat_profile (sd_net_profile m))
          (sd_target_protocol_version m), []).
Proof using All.
  unfold detail_encode. destruct (to_vec (detail_legacy m)) as [bl|] eqn:Hl; [|done].
  destruct (extension_encode _ _ (sd_net_profile m) _) as [a|] eqn:Ha; [|done].
  destruct (extension_encode _ _ (sd_target_protocol_version m) _) as [c|] eqn:Hc; [|done].
  intros [= <-].
  destruct (two_extensions_roundtrip u8c u32c (detail_legacy m) (sd_net_profile m) (sd_target_protocol_version m)
    SN_DETAIL_RESP_EXTENSION_MAGIC SN_DETAIL_RESP_PROTOCOL_VERSION_EXTENSION_MAGIC bl a c (RawCodec2:=u8c)) as (H1 & H2 & H3); [done..|].
  unfold detail_decode. by rewrite H1, H2, H3.
Qed.

Lemma call_roundtrip (m : SnCall) b :
  call_encode u8c u32c m = Ok b ->
  call_decode u8c u32c b = Ok (call_of_legacy (call_legacy m) (supported_nat_context (sc_nat_context m)), []).
Proof using All.
  unfold call_encode. destruct (to_vec (call_legacy m)) as [bl|] eqn:Hl; [|done].
  destruct (extension_encode _ _ (sc_nat_context m) _) as [a|] eqn:Ha; [|done]. intros [= <-].
  unfold call_decode. rewrite (decode_to_vec _ _ _ Hl). rewrite <-(app_nil_r a).
  by rewrite (extension_decode_optional u8c u32c _ _ a [] 0 [] Ha) by (by left).
Qed.

(** Extensions never break the legacy message: for any bytes at all
    after a legacy part that decodes, all four extended messages decode, with
    exactly the legacy fields; and what they take from the extensions is of a
    supported version. *)
Theorem extensions_are_tolerated buf rest :
  (forall l, codec_decode buf = Ok (l, rest) -> exists m r,
     detail_decode u8c u32c buf = Ok (m, r) /\ detail_legacy m = l
     /\ supported_nat_profile (sd_net_profile m) = sd_net_profile m)
  /\ (forall l, codec_decode buf = Ok (l, rest) -> exists m r,
     call_decode u8c u32c buf = Ok (m, r) /\ call_legacy m = l
     /\ supported_nat_context (sc_nat_context m) = sc_nat_context m)
  /\ (forall l, codec_decode buf = Ok (l, rest) -> exists (m : ReportSn ReceiptWithSignature) r,
     report_decode u8c u32c buf = Ok (m, r) /\ report_legacy m = l
     /\ supported_nat_profile (re_net_profile m) = re_net_profile m
     /\ (forall x, re_nat_probe_result m = Some x -> result_is_supported x = true
          /\ re_nat_probe_control_version m = Some NAT_PROBE_CONTROL_VERSION))
  /\ (forall l, codec_decode buf = Ok (l, rest) -> exists (m : ReportSnResp SnServiceReceipt) r,
     report_resp_decode u8c u32c buf = Ok (m, r) /\ report_resp_legacy m = l
     /\ (pp_nat_probe_ports m = [] \/ supported_nat_probe_ports (pp_nat_probe_ports m) = true)
     /\ (forall x, pp_nat_probe_directive m = Some x -> directive_is_supported x = true)).
Proof using Type.
  assert (Hp : forall p, supported_nat_profile (supported_nat_profile p) = supported_nat_profile p).
  { intros [p|]; [|done]. simpl. destruct (is_supported p) eqn:E; simpl; [by rewrite E|done]. }
  assert (Hcx : forall c, supported_nat_context (supported_nat_context c) = supported_nat_context c).
  { intros [c|]; [|done]. simpl. destruct (_ && _) eqn:E; simpl; [by rewrite E|done]. }
  split_and!; intros l Hl.
  - unfold detail_decode. rewrite Hl. destruct (extension_decode _ _ _ rest _) as [p r1].
    destruct (extension_decode _ _ _ r1 _) as [v r2]. do 2 eexists. split; [done|].
    split; [by destruct l|]. apply Hp.
  - unfold call_decode. rewrite Hl. destruct (extension_decode _ _ _ rest _) as [c r1].
    do 2 eexists. split; [done|]. split; [by destruct l|]. apply Hcx.
  - unfold report_decode. rewrite Hl. destruct (extension_decode _ _ _ rest _) as [p r1].
    destruct (extension_decode _ _ _ r1 _) as [c r2]. do 2 eexists. split; [done|].
    split; [by destruct l|]. split; [apply Hp|]. intros x. simpl.
    destruct c as [c|]; [|done].
    destruct (Z.eqb_spec (pc_version c) NAT_PROBE_CONTROL_VERSION) as [Hv|]; simpl; [|done].
    destruct (pc_result c) as [y|]; simpl; [|done]. destruct (result_is_supported y) eqn:E; [|done].
    intros [= <-]. by rewrite Hv.
  - unfold report_resp_decode. rewrite Hl. destruct (extension_decode _ _ _ rest _) as [ports r1].
    destruct (extension_decode _ _ _ r1 _) as [d r2]. do 2 eexists. split; [done|].
    split; [by destruct l|]. cbn [pp_nat_probe_ports pp_nat_probe_directive]. split.
    + destruct ports as [ports|]; [|by left]. destruct (supported_nat_probe_ports ports) eqn:E; auto.
    + intros x. destruct d as [d|]; [|done]. destruct (directive_is_supported d) eqn:E; [|done].
      by intros [= <-].
Qed.
End roundtrips.

(** ** A concrete exchange *)

#[global] Instance LegacyReportSn_eq_dec {A} `{EqDecision A} : EqDecision (LegacyReportSn A).
Proof. solve_decision. Defined.
#[global] Instance NatProbeResult_eq_dec : EqDecision NatProbeResult.
Proof. solve_decision. Defined.
#[global] Instance ReportSnProbeControl_eq_dec : EqDecision ReportSnProbeControl.
Proof. solve_decision. Defined.

Definition sample_report_profile : NatProfile := mkProfile 1 NonSymmetricLike 2500 9000 None.
Definition sample_report : ReportSn unit :=
  mkReport 1 0 7 (mkP2pId [1]) None None 1000 None None [] [] (Some sample_report_profile) (Some 1) None.

Lemma report_roundtrip_witness :
  exists b,
    @report_encode (be_codec 1) (be_codec 4) unit (single_codec (report_legacy sample_report) 9)
      (single_codec sample_report_profile 8) (single_codec (mkProbeControl 1 None) 6) sample_report = Ok b
    /\ @report_decode (be_codec 1) (be_codec 4) unit (single_codec (report_legacy sample_report) 9)
         (single_codec sample_report_profile 8) (single_codec (mkProbeControl 1 None) 6) b
       = Ok (sample_report, []).
Proof.
  eexists. split; [by vm_compute|].
  refine (@report_roundtrip (be_codec 1) (be_codec 4) (be_codec_fixed 1) (be_codec_fixed 4) unit
    (single_codec (report_legacy sample_report) 9) (single_codec sample_report_profile 8)
    (single_codec (mkProbeControl 1 None) 6) (single_codec_laws _ _) (single_codec_laws _ _)
    (single_codec_laws _ _) sample_report _ _). by vm_compute.
Defined.
