(* ===== verification/TunnelCommand.v ===== *)
(** * Tunnel command frames
      (src/p2p-frame/src/networks/command.rs, networks/tcp/protocol.rs)

    A frame is a fixed-size header (version, command id, body length) and a
    body.  The codecs of header and bodies are derived, hence instances of the
    interface [RawCodec].  A byte stream being read is the list of the bytes
    still to come. *)

From S2P Require Import Prelude Errors Ids Endpoint Codec.

Definition TUNNEL_COMMAND_VERSION : Z := 1.

Record TunnelCommandHeader := mkHeader { hd_version : Z; hd_command_id : Z; hd_data_len : Z }.

(** [TunnelCommandBody::COMMAND_ID]; [VERSION] keeps its default. *)
Class CommandId (T : Type) := mkCommandId { COMMAND_ID : Z }.
Arguments COMMAND_ID T {_}.

Definition codec_err {A} (r : CodecResult A) : P2pResult A :=
  match r with Ok a => Ok a | Err _ => Err P2pErrorCode.RawCodecError end.

(** [read_exact] of [n] bytes. *)
Definition read_exact (n : nat) (s : list Z) : P2pResult (list Z * list Z) :=
  if (n <=? length s)%nat then Ok (take n s, drop n s) else Err P2pErrorCode.IoError.

Section command.
Context `{header_codec : !RawCodec TunnelCommandHeader}.
Context {T : Type} `{body_codec : !RawCodec T, !CommandId T}.

Record TunnelCommand := mkCommand { header : TunnelCommandHeader; body : T }.

(** [raw_measure(..)? as u32] truncates. *)
Definition body_len (b : T) : P2pResult Z :=
  n <-? codec_err (codec_measure b) ;; Ok (Z.of_nat n mod (u32_max + 1)).

Definition command_new (b : T) : P2pResult TunnelCommand :=
  data_len <-? body_len b ;;
  Ok (mkCommand (mkHeader TUNNEL_COMMAND_VERSION (COMMAND_ID T) data_len) b).

Definition command_validate (c : TunnelCommand) : P2pResult unit :=
  if negb (hd_version (header c) =? TUNNEL_COMMAND_VERSION) then Err P2pErrorCode.InvalidData
  else if negb (hd_command_id (header c) =? COMMAND_ID T) then Err P2pErrorCode.InvalidData
  else data_len <-? body_len (body c) ;;
       if negb (hd_data_len (header c) =? data_len) then Err P2pErrorCode.InvalidData else Ok tt.

Definition from_header_and_body (h : TunnelCommandHeader) (b : T) : P2pResult TunnelCommand :=
  _ <-? command_validate (mkCommand h b) ;; Ok (mkCommand h b).

Definition header_len : P2pResult nat := codec_err (codec_measure (mkHeader 0 0 0)).

(** The bytes written, in order. *)
Definition write_tunnel_command (c : TunnelCommand) : P2pResult (list Z) :=
  _ <-? command_validate c ;;
  h <-? codec_err (to_vec (header c)) ;;
  b <-? codec_err (to_vec (body c)) ;;
  Ok (h ++ b).

Definition read_tunnel_command_header (s : list Z) : P2pResult (TunnelCommandHeader * list Z) :=
  n <-? header_len ;;
  x <-? read_exact n s ;;
  h <-? codec_err (clone_from_slice (fst x)) ;;
  Ok (h, snd x).

Definition read_tunnel_command_body (h : TunnelCommandHeader) (s : list Z)
    : P2pResult (TunnelCommand * list Z) :=
  if negb (hd_command_id h =? COMMAND_ID T) then Err P2pErrorCode.InvalidData
  else
    x <-? read_exact (Z.to_nat (hd_data_len h)) s ;;
    b <-? codec_err (clone_from_slice (fst x)) ;;
    c <-? from_header_and_body h b ;;
    Ok (c, snd x).
End command.

Arguments TunnelCommand : clear implicits.

(** ** The commands of a TCP tunnel *)

Definition MAX_TCP_TUNNEL_COMMAND_BODY_LEN : Z := 1024 * 1024.

Inductive TcpCommandId :=
| IdConnectionHello | IdControlConnReady | IdDataConnReady | IdPing | IdPong | IdOpenDataConnReq
| IdClaimConnReq | IdClaimConnAck | IdWriteFin | IdReadDone | IdData | IdOpenDataConnResp.

Definition command_id_u8 (c : TcpCommandId) : Z :=
  match c with
  | IdConnectionHello => 1 | IdControlConnReady => 2 | IdDataConnReady => 3 | IdPing => 4
  | IdPong => 5 | IdOpenDataConnReq => 6 | IdClaimConnReq => 7 | IdClaimConnAck => 8
  | IdWriteFin => 9 | IdReadDone => 10 | IdData => 11 | IdOpenDataConnResp => 12
  end.

Definition command_id_from_u8 (v : Z) : option TcpCommandId :=
  if v =? 1 then Some IdConnectionHello else if v =? 2 then Some IdControlConnReady
  else if v =? 3 then Some IdDataConnReady else if v =? 4 then Some IdPing
  else if v =? 5 then Some IdPong else if v =? 6 then Some IdOpenDataConnReq
  else if v =? 7 then Some IdClaimConnReq else if v =? 8 then Some IdClaimConnAck
  else if v =? 9 then Some IdWriteFin else if v =? 10 then Some IdReadDone
  else if v =? 11 then Some IdData else if v =? 12 then Some IdOpenDataConnResp
  else None.

Inductive TcpConnectionRole := RoleControl | RoleData.
Record TcpConnectionHello := mkHello {
  he_role : TcpConnectionRole;
  he_tunnel_id : TunnelId;
  he_candidate_id : TunnelCandidateId;
  he_is_reverse : bool;
  he_conn_id : option TunnelId;
  he_open_request_id : option TunnelId;
}.
Inductive ControlConnReadyResult :=
| CtrlSuccess | CtrlTunnelConflictLost | CtrlProtocolError | CtrlInternalError.
Record ControlConnReady := mkControlReady {
  cr_tunnel_id : TunnelId; cr_candidate_id : TunnelCandidateId; cr_result : ControlConnReadyResult }.
Inductive DataConnReadyResult :=
| DataSuccess | DataTunnelNotFound | DataConnIdConflict | DataProtocolError | DataInternalError.
Record DataConnReady := mkDataReady {
  dc_conn_id : TunnelId; dc_candidate_id : TunnelCandidateId; dc_result : DataConnReadyResult }.
Record PingCmd := mkPing { ping_seq : Z; ping_send_time : Timestamp }.
Record PongCmd := mkPong { pong_seq : Z; pong_send_time : Timestamp }.
Record OpenDataConnReq := mkOpenReq { oq_request_id : TunnelId }.
Inductive OpenDataConnRespResult := OpenSuccess | OpenConnectFailed | OpenProtocolError | OpenInternalError.
Record OpenDataConnResp := mkOpenResp {
  or_request_id : TunnelId; or_conn_id : option TunnelId; or_result : OpenDataConnRespResult }.
Inductive TcpChannelKind := KindStream | KindDatagram.
Record ClaimConnReq := mkClaimReq {
  cq_channel_id : TunnelId; cq_kind : TcpChannelKind; cq_purpose : list Z; cq_conn_id : TunnelId;
  cq_lease_seq : TunnelId; cq_claim_nonce : Z }.
Record ClaimConnAck := mkClaimAck {
  ca_channel_id : TunnelId; ca_conn_id : TunnelId; ca_lease_seq : TunnelId; ca_result : Z }.
Record WriteFin := mkWriteFin {
  wf_channel_id : TunnelId; wf_conn_id : TunnelId; wf_lease_seq : TunnelId; wf_final_tx_bytes : Z }.
Record ReadDone := mkReadDone {
  rd_channel_id : TunnelId; rd_conn_id : TunnelId; rd_lease_seq : TunnelId; rd_final_rx_bytes : Z }.
Record TcpControlData := mkControlData { cd_payload : list Z }.

Inductive ClaimConnAckResult :=
| AckSuccess | AckVportNotFound | AckListenerClosed | AckNotIdle | AckLeaseMismatch | AckConflictLost
| AckRetired | AckProtocolError | AckAcceptQueueFull.
Definition ack_result_u8 (r : ClaimConnAckResult) : Z :=
  match r with
  | AckSuccess => 0 | AckVportNotFound => 1 | AckListenerClosed => 2 | AckNotIdle => 3
  | AckLeaseMismatch => 4 | AckConflictLost => 5 | AckRetired => 6 | AckProtocolError => 7
  | AckAcceptQueueFull => 8
  end.
Definition ack_result_try_from (v : Z) : Result unit ClaimConnAckResult :=
  if v =? 0 then Ok AckSuccess else if v =? 1 then Ok AckVportNotFound
  else if v =? 2 then Ok AckListenerClosed else if v =? 3 then Ok AckNotIdle
  else if v =? 4 then Ok AckLeaseMismatch else if v =? 5 then Ok AckConflictLost
  else if v =? 6 then Ok AckRetired else if v =? 7 then Ok AckProtocolError
  else if v =? 8 then Ok AckAcceptQueueFull else Err tt.

#[global] Instance Hello_id : CommandId TcpConnectionHello := {| COMMAND_ID := command_id_u8 IdConnectionHello |}.
#[global] Instance ControlReady_id : CommandId ControlConnReady := {| COMMAND_ID := command_id_u8 IdControlConnReady |}.
#[global] Instance DataReady_id : CommandId DataConnReady := {| COMMAND_ID := command_id_u8 IdDataConnReady |}.
#[global] Instance Ping_id : CommandId PingCmd := {| COMMAND_ID := command_id_u8 IdPing |}.
#[global] Instance Pong_id : CommandId PongCmd := {| COMMAND_ID := command_id_u8 IdPong |}.
#[global] Instance OpenReq_id : CommandId OpenDataConnReq := {| COMMAND_ID := command_id_u8 IdOpenDataConnReq |}.
#[global] Instance OpenResp_id : CommandId OpenDataConnResp := {| COMMAND_ID := command_id_u8 IdOpenDataConnResp |}.
#[global] Instance ClaimReq_id : CommandId ClaimConnReq := {| COMMAND_ID := command_id_u8 IdClaimConnReq |}.
#[global] Instance ClaimAck_id : CommandId ClaimConnAck := {| COMMAND_ID := command_id_u8 IdClaimConnAck |}.
#[global] Instance WriteFin_id : CommandId WriteFin := {| COMMAND_ID := command_id_u8 IdWriteFin |}.
#[global] Instance ReadDone_id : CommandId ReadDone := {| COMMAND_ID := command_id_u8 IdReadDone |}.
#[global] Instance ControlData_id : CommandId TcpControlData := {| COMMAND_ID := command_id_u8 IdData |}.

Inductive TcpControlCmd :=
| CmdPing (c : PingCmd)
| CmdPong (c : PongCmd)
| CmdOpenDataConnReq (c : OpenDataConnReq)
| CmdOpenDataConnResp (c : OpenDataConnResp)
| CmdClaimConnReq (c : ClaimConnReq)
| CmdClaimConnAck (c : ClaimConnAck)
| CmdWriteFin (c : WriteFin)
| CmdReadDone (c : ReadDone)
| CmdData (c : TcpControlData).

Definition validate_header_len (h : TunnelCommandHeader) : P2pResult unit :=
  if (hd_data_len h =? 0) || (MAX_TCP_TUNNEL_COMMAND_BODY_LEN <? hd_data_len h)
  then Err P2pErrorCode.OutOfLimit else Ok tt.

Section tcp_body.
Context `{!RawCodec TunnelCommandHeader}.
Context {T : Type} `{!RawCodec T, !CommandId T}.

Definition encode_tunnel_command_bytes (b : T) : P2pResult (list Z) :=
  c <-? command_new b ;;
  h <-? codec_err (to_vec (header c)) ;;
  x <-? codec_err (to_vec (body c)) ;;
  Ok (h ++ x).

Definition decode_tunnel_command_body (h : TunnelCommandHeader) (s : list Z) : P2pResult (T * list Z) :=
  _ <-? validate_header_len h ;;
  x <-? read_tunnel_command_body h s ;;
  Ok (body (fst x), snd x).

(** [read_from_wire] of a handshake message. *)
Definition read_body_from_wire (s : list Z) : P2pResult (T * list Z) :=
  x <-? read_tunnel_command_header s ;;
  decode_tunnel_command_body (fst x) (snd x).
End tcp_body.

Section tcp_control.
Context `{!RawCodec TunnelCommandHeader, !RawCodec PingCmd, !RawCodec PongCmd, !RawCodec OpenDataConnReq,
          !RawCodec OpenDataConnResp, !RawCodec ClaimConnReq, !RawCodec ClaimConnAck, !RawCodec WriteFin,
          !RawCodec ReadDone, !RawCodec TcpControlData}.

Definition control_encode_wire (c : TcpControlCmd) : P2pResult (list Z) :=
  match c with
  | CmdPing c => encode_tunnel_command_bytes c
  | CmdPong c => encode_tunnel_command_bytes c
  | CmdOpenDataConnReq c => encode_tunnel_command_bytes c
  | CmdOpenDataConnResp c => encode_tunnel_command_bytes c
  | CmdClaimConnReq c => encode_tunnel_command_bytes c
  | CmdClaimConnAck c => encode_tunnel_command_bytes c
  | CmdWriteFin c => encode_tunnel_command_bytes c
  | CmdReadDone c => encode_tunnel_command_bytes c
  | CmdData c => encode_tunnel_command_bytes c
  end.

(** [Ok(Self::Ctor(decode_tunnel_command_body(..)?))]. *)
Definition decode_as {T} `{!RawCodec T, !CommandId T} (ctor : T -> TcpControlCmd)
    (h : TunnelCommandHeader) (s : list Z) : P2pResult (TcpControlCmd * list Z) :=
  x <-? decode_tunnel_command_body h s ;; Ok (ctor (fst x), snd x).

Definition decode_from_wire_header_bounded (h : TunnelCommandHeader) (max_command_id : Z) (s : list Z)
    : P2pResult (TcpControlCmd * list Z) :=
  _ <-? validate_header_len h ;;
  (if max_command_id <? hd_command_id h then Err P2pErrorCode.InvalidData
   else match command_id_from_u8 (hd_command_id h) with
        | None => Err P2pErrorCode.InvalidData
        | Some id =>
            match id with
            | IdConnectionHello | IdControlConnReady | IdDataConnReady => Err P2pErrorCode.InvalidData
            | IdPing => decode_as CmdPing h s
            | IdPong => decode_as CmdPong h s
            | IdOpenDataConnReq => decode_as CmdOpenDataConnReq h s
            | IdOpenDataConnResp => decode_as CmdOpenDataConnResp h s
            | IdClaimConnReq => decode_as CmdClaimConnReq h s
            | IdClaimConnAck => decode_as CmdClaimConnAck h s
            | IdWriteFin => decode_as CmdWriteFin h s
            | IdReadDone => decode_as CmdReadDone h s
            | IdData => decode_as CmdData h s
            end
        end).

Definition control_read_from_wire (s : list Z) : P2pResult (TcpControlCmd * list Z) :=
  x <-? read_tunnel_command_header s ;;
  decode_from_wire_header_bounded (fst x) (command_id_u8 IdOpenDataConnResp) (snd x).
End tcp_control.

(** ** Frames *)

(** What a fixed-size derived header promises. *)
Class HeaderCodec (c : RawCodec TunnelCommandHeader) : Prop := {
  header_laws :: @RawCodecLaws TunnelCommandHeader c;
  header_fixed : forall h h' : TunnelCommandHeader, codec_measure h = codec_measure h';
}.

Section frame_facts.
Context `{hc : !RawCodec TunnelCommandHeader, !HeaderCodec hc}.
Context {T : Type} `{!RawCodec T, !RawCodecLaws T, !CommandId T}.

Definition frame_header (len : nat) : TunnelCommandHeader :=
  mkHeader TUNNEL_COMMAND_VERSION (COMMAND_ID T) (Z.of_nat len mod (u32_max + 1)).

Lemma encode_frame_inv (b : T) bytes :
  encode_tunnel_command_bytes b = Ok bytes ->
  exists hb bb, bytes = hb ++ bb /\ to_vec (frame_header (length bb)) = Ok hb /\ to_vec b = Ok bb.
Proof using RawCodecLaws0.
  unfold encode_tunnel_command_bytes, command_new, body_len.
  destruct (codec_measure b) as [n|] eqn:Hm; [|done]. cbn [codec_err header body].
  destruct (to_vec (mkHeader _ _ _)) as [hb|] eqn:Hh; [|done]. cbn [codec_err].
  destruct (to_vec b) as [bb|] eqn:Hb; [|done]. intros [= <-].
  apply measure_to_vec in Hb as Hm'. rewrite Hm' in Hm. injection Hm as <-. by exists hb, bb.
Qed.

Lemma read_header_encoded h hb s :
  to_vec h = Ok hb -> read_tunnel_command_header (hb ++ s) = Ok (h, s).
Proof using HeaderCodec0.
  intros Hh. unfold read_tunnel_command_header, header_len, read_exact.
  rewrite (header_fixed _ h), (measure_to_vec _ _ Hh). cbn [codec_err].
  rewrite (proj2 (Nat.leb_le _ _)) by (rewrite length_app; lia). cbn [fst snd].
  rewrite take_app_length, drop_app_length, (clone_to_vec _ _ Hh). done.
Qed.

Lemma read_body_encoded (b : T) bb s :
  to_vec b = Ok bb -> (Z.of_nat (length bb) <= u32_max) ->
  read_tunnel_command_body (frame_header (length bb)) (bb ++ s)
  = Ok (mkCommand (frame_header (length bb)) b, s).
Proof using RawCodecLaws0.
  intros Hb Hle. unfold read_tunnel_command_body, read_exact, from_header_and_body, command_validate, body_len.
  unfold frame_header. cbn [hd_command_id hd_data_len hd_version header body].
  rewrite !Z.eqb_refl. cbn [negb].
  rewrite Z.mod_small by (unfold u32_max in *; lia). rewrite Nat2Z.id.
  rewrite (proj2 (Nat.leb_le _ _)) by (rewrite length_app; lia). cbn [fst snd].
  rewrite take_app_length, drop_app_length, (clone_to_vec _ _ Hb). cbn [codec_err].
  rewrite (measure_to_vec _ _ Hb). cbn [codec_err].
  rewrite Z.mod_small by (unfold u32_max in *; lia). by rewrite Z.eqb_refl.
Qed.

Lemma decode_body_encoded (b : T) bb s :
  to_vec b = Ok bb -> 1 <= Z.of_nat (length bb) <= MAX_TCP_TUNNEL_COMMAND_BODY_LEN ->
  decode_tunnel_command_body (frame_header (length bb)) (bb ++ s) = Ok (b, s).
Proof using RawCodecLaws0.
  intros Hb Hlen. unfold decode_tunnel_command_body, validate_header_len.
  assert (Hsmall : Z.of_nat (length bb) <= u32_max)
    by (unfold MAX_TCP_TUNNEL_COMMAND_BODY_LEN, u32_max in *; lia).
  rewrite (read_body_encoded b bb s Hb Hsmall). cbn [hd_data_len frame_header].
  rewrite Z.mod_small by (unfold u32_max in *; lia).
  destruct (Z.eqb_spec (Z.of_nat (length bb)) 0); [lia|].
  destruct (Z.ltb_spec MAX_TCP_TUNNEL_COMMAND_BODY_LEN (Z.of_nat (length bb))); [lia|]. done.
Qed.

(** A handshake message survives the wire: if its body is not empty and
    not longer than the limit, reading the written frame from the stream gives
    the message back and leaves exactly the bytes after the frame. *)
Theorem handshake_frame_roundtrip (b : T) bytes rest :
  encode_tunnel_command_bytes b = Ok bytes ->
  (forall bb, to_vec b = Ok bb -> 1 <= Z.of_nat (length bb) <= MAX_TCP_TUNNEL_COMMAND_BODY_LEN) ->
  read_body_from_wire (bytes ++ rest) = Ok (b, rest).
Proof using HeaderCodec0 RawCodecLaws0.
  intros (hb & bb & -> & Hh & Hb)%encode_frame_inv Hlen. unfold read_body_from_wire.
  rewrite <-app_assoc, (read_header_encoded _ _ _ Hh). cbn [fst snd].
  by apply decode_body_encoded, Hlen.
Qed.
End frame_facts.

Section control_facts.
Context `{hc : !RawCodec TunnelCommandHeader, !RawCodec PingCmd, !RawCodec PongCmd, !RawCodec OpenDataConnReq,
          !RawCodec OpenDataConnResp, !RawCodec ClaimConnReq, !RawCodec ClaimConnAck, !RawCodec WriteFin,
          !RawCodec ReadDone, !RawCodec TcpControlData}.
Context `{!HeaderCodec hc, !RawCodecLaws PingCmd, !RawCodecLaws PongCmd, !RawCodecLaws OpenDataConnReq,
          !RawCodecLaws OpenDataConnResp, !RawCodecLaws ClaimConnReq, !RawCodecLaws ClaimConnAck,
          !RawCodecLaws WriteFin, !RawCodecLaws ReadDone, !RawCodecLaws TcpControlData}.

Lemma control_body_encoded {T} `{!RawCodec T, !RawCodecLaws T, !CommandId T} (b : T) ctor bytes rest :
  encode_tunnel_command_bytes b = Ok bytes ->
  (forall h s, hd_command_id h = COMMAND_ID T -> decode_from_wire_header_bounded h 12 s
     = (_ <-? validate_header_len h ;; decode_as ctor h s)) ->
  exists hb bb, bytes = hb ++ bb /\ to_vec b = Ok bb
    /\ (1 <= Z.of_nat (length bb) <= MAX_TCP_TUNNEL_COMMAND_BODY_LEN ->
        control_read_from_wire (bytes ++ rest) = Ok (ctor b, rest))
    /\ (MAX_TCP_TUNNEL_COMMAND_BODY_LEN < Z.of_nat (length bb) <= u32_max ->
        control_read_from_wire (bytes ++ rest) = Err P2pErrorCode.OutOfLimit).
Proof using HeaderCodec0.
  intros (hb & bb & -> & Hh & Hb)%encode_frame_inv Hdec. exists hb, bb.
  split_and!; [done..| |]; intros Hlen; unfold control_read_from_wire;
    rewrite <-app_assoc, (read_header_encoded _ _ _ Hh); cbn [fst snd command_id_u8];
    rewrite (Hdec (frame_header (T:=T) (length bb)) _ eq_refl).
  - unfold decode_as. rewrite (decode_body_encoded b bb rest Hb Hlen).
    assert (Hv : validate_header_len (frame_header (T:=T) (length bb)) = Ok tt).
    { unfold validate_header_len, frame_header. cbn [hd_data_len].
      rewrite Z.mod_small by (unfold MAX_TCP_TUNNEL_COMMAND_BODY_LEN, u32_max in *; lia).
      destruct (Z.eqb_spec (Z.of_nat (length bb)) 0); [lia|].
      destruct (Z.ltb_spec MAX_TCP_TUNNEL_COMMAND_BODY_LEN (Z.of_nat (length bb))); [lia|]. done. }
    by rewrite Hv.
  - unfold validate_header_len, frame_header. cbn [hd_data_len].
    rewrite Z.mod_small by (unfold u32_max in *; lia).
    destruct (Z.ltb_spec MAX_TCP_TUNNEL_COMMAND_BODY_LEN (Z.of_nat (length bb))); [|lia].
    by rewrite orb_true_r.
Qed.

(** The length of the body of a command, if it encodes. *)
Definition control_body_len (c : TcpControlCmd) : CodecResult nat :=
  match c with
  | CmdPing c => codec_measure c | CmdPong c => codec_measure c
  | CmdOpenDataConnReq c => codec_measure c | CmdOpenDataConnResp c => codec_measure c
  | CmdClaimConnReq c => codec_measure c | CmdClaimConnAck c => codec_measure c
  | CmdWriteFin c => codec_measure c | CmdReadDone c => codec_measure c | CmdData c => codec_measure c
  end.

(** One command: the reader dispatches on its identifier. *)
Ltac control_case x ctor He :=
  match type of He with
  | _ = Ok ?bytes =>
      match goal with
      | |- context [control_read_from_wire (bytes ++ ?rest)] =>
          destruct (control_body_encoded x ctor bytes rest He) as (hb & bb & _ & Hb & H);
          [intros h s Hid; unfold decode_from_wire_header_bounded; by rewrite Hid|]
      end
  end.

(** Every control command survives the wire: reading the frame written
    for it gives the same command back and consumes exactly the frame, when
    its body is not empty and at most one mebibyte; a longer body, which the
    writer does not refuse, is rejected by the reader as over the limit. *)
Theorem control_command_roundtrip c bytes rest n :
  control_encode_wire c = Ok bytes -> control_body_len c = Ok n ->
  (1 <= Z.of_nat n <= MAX_TCP_TUNNEL_COMMAND_BODY_LEN ->
     control_read_from_wire (bytes ++ rest) = Ok (c, rest))
  /\ (MAX_TCP_TUNNEL_COMMAND_BODY_LEN < Z.of_nat n <= u32_max ->
     control_read_from_wire (bytes ++ rest) = Err P2pErrorCode.OutOfLimit).
Proof using All.
  intros He Hn.
  destruct c as [x|x|x|x|x|x|x|x|x]; cbn [control_encode_wire control_body_len] in *;
    [control_case x CmdPing He|control_case x CmdPong He|control_case x CmdOpenDataConnReq He
    |control_case x CmdOpenDataConnResp He|control_case x CmdClaimConnReq He
    |control_case x CmdClaimConnAck He|control_case x CmdWriteFin He|control_case x CmdReadDone He
    |control_case x CmdData He];
    apply measure_to_vec in Hb; rewrite Hb in Hn; injection Hn as <-; exact H.
Qed.
End control_facts.

(** ** A concrete exchange *)

Definition header_ok (h : TunnelCommandHeader) : bool :=
  (0 <=? hd_version h) && (hd_version h <? 256) && (0 <=? hd_command_id h) && (hd_command_id h <? 256)
  && (0 <=? hd_data_len h) && (hd_data_len h <=? u32_max).

Definition header_be_decode (l : list Z) : CodecResult (TunnelCommandHeader * list Z) :=
  match l with
  | v :: c :: l => if (4 <=? length l)%nat then Ok (mkHeader v c (be_value (take 4 l)), drop 4 l)
                   else Err CodecOutOfLimit
  | _ => Err CodecOutOfLimit
  end.

Definition header_be : RawCodec TunnelCommandHeader := {|
  codec_measure := fun _ => Ok 6%nat;
  to_vec := fun h => if header_ok h
                     then Ok (hd_version h :: hd_command_id h :: be_bytes 4 (hd_data_len h))
                     else Err CodecInvalidInput;
  codec_decode := header_be_decode;
  clone_from_slice := fun l => x <-? header_be_decode l ;; Ok (fst x);
|}.

Lemma header_be_laws : HeaderCodec header_be.
Proof.
  assert (Hdec : forall h b rest, @to_vec _ header_be h = Ok b ->
    header_be_decode (b ++ rest) = Ok (h, rest) /\ length b = 6%nat).
  { intros h b rest. cbn [to_vec header_be]. destruct (header_ok h) eqn:E; [|done].
    unfold header_ok in E. bool_to_prop.
    assert (Hv : be_value (be_bytes 4 (hd_data_len h)) = hd_data_len h)
      by (apply be_value_bytes; unfold u32_max in *; simpl; lia).
    pose proof (be_bytes_length 4 (hd_data_len h)) as Hl.
    generalize dependent (be_bytes 4 (hd_data_len h)). intros x Hv Hl [= <-].
    split; [|cbn [length]; lia]. unfold header_be_decode. rewrite <-!app_comm_cons.
    rewrite (proj2 (Nat.leb_le _ _)) by (rewrite length_app; lia).
    rewrite take_app_length', drop_app_length' by done. rewrite Hv. by destruct h. }
  split; [split|done].
  - intros h b Hb. destruct (Hdec h b [] Hb) as [_ Hl]. by rewrite Hl.
  - intros h b rest Hb. by destruct (Hdec h b rest Hb).
  - intros h b Hb. cbn [clone_from_slice header_be]. rewrite <-(app_nil_r b).
    by destruct (Hdec h b [] Hb) as [-> _].
Qed.

#[local] Ltac eq_dec_of_cmd := solve_decision.
#[global] Instance PingCmd_eq_dec : EqDecision PingCmd. Proof. eq_dec_of_cmd. Defined.
#[global] Instance PongCmd_eq_dec : EqDecision PongCmd. Proof. eq_dec_of_cmd. Defined.
#[global] Instance OpenDataConnReq_eq_dec : EqDecision OpenDataConnReq. Proof. eq_dec_of_cmd. Defined.
#[global] Instance OpenDataConnRespResult_eq_dec : EqDecision OpenDataConnRespResult. Proof. eq_dec_of_cmd. Defined.
#[global] Instance OpenDataConnResp_eq_dec : EqDecision OpenDataConnResp. Proof. eq_dec_of_cmd. Defined.
#[global] Instance TcpChannelKind_eq_dec : EqDecision TcpChannelKind. Proof. eq_dec_of_cmd. Defined.
#[global] Instance ClaimConnReq_eq_dec : EqDecision ClaimConnReq. Proof. eq_dec_of_cmd. Defined.
#[global] Instance ClaimConnAck_eq_dec : EqDecision ClaimConnAck. Proof. eq_dec_of_cmd. Defined.
#[global] Instance WriteFin_eq_dec : EqDecision WriteFin. Proof. eq_dec_of_cmd. Defined.
#[global] Instance ReadDone_eq_dec : EqDecision ReadDone. Proof. eq_dec_of_cmd. Defined.
#[global] Instance TcpControlData_eq_dec : EqDecision TcpControlData. Proof. eq_dec_of_cmd. Defined.

Definition sample_ping : PingCmd := mkPing 5 1000.

Lemma handshake_frame_roundtrip_witness :
  exists bytes,
    @encode_tunnel_command_bytes header_be PingCmd (single_codec sample_ping 9) _ sample_ping = Ok bytes
    /\ @read_body_from_wire header_be PingCmd (single_codec sample_ping 9) _ (bytes ++ [77])
       = Ok (sample_ping, [77]).
Proof.
  eexists. split; [by vm_compute|].
  apply (@handshake_frame_roundtrip header_be header_be_laws PingCmd (single_codec sample_ping 9)
    (single_codec_laws _ _) _ sample_ping); [by vm_compute|].
  intros bb. simpl. intros [= <-]. simpl. unfold MAX_TCP_TUNNEL_COMMAND_BODY_LEN. lia.
Defined.

Lemma control_command_roundtrip_witness :
  exists bytes,
    @control_encode_wire header_be (single_codec sample_ping 9) (single_codec (mkPong 0 0) 9)
      (single_codec (mkOpenReq 0) 9) (single_codec (mkOpenResp 0 None OpenSuccess) 9)
      (single_codec (mkClaimReq 0 KindStream [] 0 0 0) 9) (single_codec (mkClaimAck 0 0 0 0) 9)
      (single_codec (mkWriteFin 0 0 0 0) 9) (single_codec (mkReadDone 0 0 0 0) 9)
      (single_codec (mkControlData []) 9) (CmdPing sample_ping) = Ok bytes
    /\ @control_read_from_wire header_be (single_codec sample_ping 9) (single_codec (mkPong 0 0) 9)
      (single_codec (mkOpenReq 0) 9) (single_codec (mkOpenResp 0 None OpenSuccess) 9)
      (single_codec (mkClaimReq 0 KindStream [] 0 0 0) 9) (single_codec (mkClaimAck 0 0 0 0) 9)
      (single_codec (mkWriteFin 0 0 0 0) 9) (single_codec (mkReadDone 0 0 0 0) 9)
      (single_codec (mkControlData []) 9) (bytes ++ [77]) = Ok (CmdPing sample_ping, [77]).
Proof.
  eexists. split; [by vm_compute|].
  unshelve eapply (@control_command_roundtrip header_be _ _ _ _ _ _ _ _ _ header_be_laws
    (single_codec_laws _ _) (single_codec_laws _ _) (single_codec_laws _ _) (single_codec_laws _ _)
    (single_codec_laws _ _) (single_codec_laws _ _) (single_codec_laws _ _) (single_codec_laws _ _)
    (single_codec_laws _ _) (CmdPing sample_ping) _ [77] 1%nat); [by vm_compute..|].
  unfold MAX_TCP_TUNNEL_COMMAND_BODY_LEN. lia.
Defined.
