(* ===== verification/PeerManager.v ===== *)
(** * The peers an SN knows (src/p2p-frame/src/sn/service/peer_manager.rs)

    The table of cached peers.  A certificate is an object of the identity
    layer: its type and its endpoints are parameters.  [bucky_time_now()] is an
    argument. *)

From S2P Require Import Prelude Ids Endpoint NatType.

Section peer_manager.
(** [P2pIdentityCertRef] and [P2pIdentityCert::endpoints]. *)
Context {Cert : Type} (cert_endpoints : Cert -> list Endpoint).

Record CachedPeerInfo := mkPeerInfo {
  pi_desc : Cert;
  pi_protocol_version : option Z;
  pi_map_ports : list (Protocol * Z);
  pi_last_send_time : Timestamp;
  pi_last_call_time : Timestamp;
  pi_local_eps : list Endpoint;
  pi_is_wan : bool;
  pi_net_profile : NatProfile;
}.

Definition has_wan_endpoint (c : Cert) : bool := existsb is_static_wan (cert_endpoints c).
Definition contain_addr (c : Cert) (a : SocketAddr) : bool :=
  existsb (fun ep => bool_decide (addr ep = a)) (cert_endpoints c).

Definition peer_info_new (c : Cert) (send_time : Timestamp) : CachedPeerInfo :=
  mkPeerInfo c None [] send_time 0 [] (has_wan_endpoint c) profile_unknown.

Definition update_desc (c : Cert) (p : CachedPeerInfo) : CachedPeerInfo :=
  mkPeerInfo c (pi_protocol_version p) (pi_map_ports p) (pi_last_send_time p) (pi_last_call_time p)
    (pi_local_eps p) (has_wan_endpoint c) (pi_net_profile p).

Definition fresh_net_profile (p : CachedPeerInfo) (now : Timestamp) : option NatProfile :=
  if bool_decide (mapping_at (pi_net_profile p) now = ObsUnknown) then None else Some (pi_net_profile p).

Notation PeerManager := (gmap P2pId CachedPeerInfo).

Definition add_peer_info (id : P2pId) (c : Cert) (now : Timestamp) (m : PeerManager) : PeerManager :=
  match m !! id with
  | None => <[id := peer_info_new c now]> m
  | Some p => <[id := update_desc c p]> m
  end.

Definition remove_peer_info (id : P2pId) (m : PeerManager) : PeerManager := delete id m.

(** The fields a report carries. *)
Definition set_report (version : option Z) (map_ports : list (Protocol * Z)) (local_eps : list Endpoint)
    (profile : NatProfile) (p : CachedPeerInfo) : CachedPeerInfo :=
  mkPeerInfo (pi_desc p) version map_ports (pi_last_send_time p) (pi_last_call_time p) local_eps
    (pi_is_wan p) profile.

Definition add_or_update_peer (id : P2pId) (device : option Cert) (version : Z)
    (map_ports : list (Protocol * Z)) (local_eps : list Endpoint) (now : Timestamp) (m : PeerManager)
    : PeerManager :=
  match m !! id with
  | Some p =>
      let p := match device with Some c => update_desc c p | None => p end in
      <[id := set_report (Some version) map_ports local_eps (pi_net_profile p) p]> m
  | None =>
      match device with
      | Some c => let p := peer_info_new c now in
                  <[id := set_report (Some version) map_ports local_eps (pi_net_profile p) p]> m
      | None => m
      end
  end.

Definition add_or_update_peer_with_profile (id : P2pId) (device : option Cert)
    (map_ports : list (Protocol * Z)) (local_eps : list Endpoint) (profile : NatProfile)
    (now : Timestamp) (m : PeerManager) : PeerManager :=
  match m !! id with
  | Some p =>
      let p := match device with Some c => update_desc c p | None => p end in
      <[id := set_report (pi_protocol_version p) map_ports local_eps profile p]> m
  | None =>
      match device with
      | Some c => let p := peer_info_new c now in
                  <[id := set_report (pi_protocol_version p) map_ports local_eps profile p]> m
      | None => m
      end
  end.

Definition find_peer (id : P2pId) (m : PeerManager) : option CachedPeerInfo := m !! id.

Definition set_net_profile (id : P2pId) (profile : NatProfile) (m : PeerManager) : bool * PeerManager :=
  match m !! id with
  | Some p => (true, <[id := set_report (pi_protocol_version p) (pi_map_ports p) (pi_local_eps p) profile p]> m)
  | None => (false, m)
  end.
Definition invalidate_net_profile (id : P2pId) (m : PeerManager) : bool * PeerManager :=
  set_net_profile id profile_unknown m.

(** ** The table as a transition system *)

Inductive pm_step (m : PeerManager) : PeerManager -> Prop :=
| pm_add id c now : pm_step m (add_peer_info id c now m)
| pm_remove id : pm_step m (remove_peer_info id m)
| pm_report id d v ports eps now : pm_step m (add_or_update_peer id d v ports eps now m)
| pm_report_profile id d ports eps q now : pm_step m (add_or_update_peer_with_profile id d ports eps q now m)
| pm_profile id q : pm_step m (snd (set_net_profile id q m)).

(** What a peer's profile is after a history of its profile updates and
    removals: the last one set since it was last unknown to the table. *)
Definition cached_profile (id : P2pId) (m : PeerManager) : option NatProfile := pi_net_profile <$> m !! id.

Definition pm_inv (m : PeerManager) : Prop :=
  map_Forall (fun _ p => pi_is_wan p = has_wan_endpoint (pi_desc p)) m.

Lemma pm_inv_insert id p (m : PeerManager) :
  pm_inv m -> pi_is_wan p = has_wan_endpoint (pi_desc p) -> pm_inv (<[id:=p]> m).
Proof using Type. intros Hm Hp. by apply map_Forall_insert_2. Qed.

Lemma pm_step_inv m m' : pm_inv m -> pm_step m m' -> pm_inv m'.
Proof using Type.
  intros Hm Hs. destruct Hs as [id c now|id|id d v ports eps now|id d ports eps q now|id q].
  - unfold add_peer_info. destruct (m !! id); by apply pm_inv_insert.
  - by apply map_Forall_delete.
  - unfold add_or_update_peer. destruct (m !! id) as [p|] eqn:E, d as [c|]; try done; apply pm_inv_insert; try done.
    exact (Hm id p E).
  - unfold add_or_update_peer_with_profile. destruct (m !! id) as [p|] eqn:E, d as [c|]; try done;
      apply pm_inv_insert; try done. exact (Hm id p E).
  - unfold set_net_profile. destruct (m !! id) as [p|] eqn:E; [|done]. apply pm_inv_insert; [done|].
    exact (Hm id p E).
Qed.

Inductive pm_reachable : PeerManager -> Prop :=
| pr_empty : pm_reachable ∅
| pr_step m m' : pm_reachable m -> pm_step m m' -> pm_reachable m'.

(** The cached view of a peer is consistent: in every reachable table a
    peer counts as reachable from the WAN exactly when its current certificate
    lists a WAN endpoint; an ordinary report neither publishes nor erases a
    NAT profile, setting one changes only that peer's, and a profile is
    offered only while it is fresh. *)
Theorem peer_table_consistent m :
  pm_reachable m ->
  pm_inv m
  /\ (forall id d v ports eps now j,
        cached_profile j (add_or_update_peer id d v ports eps now m) = cached_profile j m
        \/ (j = id /\ m !! id = None /\ is_Some d
            /\ cached_profile j (add_or_update_peer id d v ports eps now m) = Some profile_unknown))
  /\ (forall id q j, cached_profile j (snd (set_net_profile id q m))
        = if bool_decide (j = id /\ is_Some (m !! id)) then Some q else cached_profile j m)
  /\ (forall id p now q, m !! id = Some p -> fresh_net_profile p now = Some q ->
        cached_profile id m = Some q /\ is_fresh q now = true).
Proof using Type.
  intros Hr. split_and!.
  - induction Hr; [done|]. by eapply pm_step_inv.
  - intros id d v ports eps now j. unfold add_or_update_peer, cached_profile.
    destruct (m !! id) as [p|] eqn:E.
    + left. destruct (decide (j = id)) as [->|Hne]; [|by rewrite lookup_insert_ne].
      rewrite lookup_insert_eq, E. by destruct d.
    + destruct d as [c|]; [|by left]. destruct (decide (j = id)) as [->|Hne].
      * right. rewrite lookup_insert_eq. split_and!; eauto.
      * left. by rewrite lookup_insert_ne.
  - intros id q j. unfold set_net_profile, cached_profile. destruct (m !! id) as [p|] eqn:E; simpl.
    + destruct (decide (j = id)) as [->|Hne].
      * rewrite lookup_insert_eq, bool_decide_true by eauto. done.
      * rewrite lookup_insert_ne, bool_decide_false by naive_solver. done.
    + rewrite bool_decide_false; [done|]. by intros [_ []].
  - intros id p now q Hp. unfold fresh_net_profile, cached_profile, mapping_at. rewrite Hp.
    destruct (is_fresh (pi_net_profile p) now) eqn:Ef; [|done]. case_bool_decide; [done|].
    by intros [= <-].
Qed.
End peer_manager.

Lemma peer_table_consistent_witness :
  cached_profile (Cert:=list Endpoint) (mkP2pId [5])
    (snd (set_net_profile (Cert:=list Endpoint) (mkP2pId [5]) profile_unknown
       (add_peer_info id (mkP2pId [5]) [] 1000 ∅))) = Some profile_unknown.
Proof.
  destruct (peer_table_consistent (Cert:=list Endpoint) id (add_peer_info id (mkP2pId [5]) [] 1000 ∅))
    as (_ & _ & H & _).
  - apply (pr_step id ∅); [constructor|]. apply (pm_add id ∅).
  - rewrite H. by vm_compute.
Defined.
