(* ===== verification/Mpsc.v ===== *)
(** * Bounded channels

    The interface of [tokio::sync::mpsc] (an external crate) as the control
    streams use it: a bounded FIFO queue whose receiver may be dropped.  [Mpsc]
    lists the calls, [MpscLaws] what tokio documents of them, in terms of the
    items queued, the bound and whether the receiver is alive.  The clients'
    theorems are proved against these classes; [queue] is an instance. *)

From S2P Require Import Prelude.

Inductive TrySend := SendOk | SendFull | SendClosed.

Class Mpsc (A : Type) := mkMpsc {
  chan : Type;
  channel : nat -> chan;               (* mpsc::channel(bound) *)
  try_send : A -> chan -> TrySend * chan;
  capacity : chan -> nat;              (* Sender::capacity *)
  recv : chan -> option A * chan;      (* the first item queued, if any *)
  drop_rx : chan -> chan;              (* the receiver is dropped *)
  queued : chan -> list A;
  bound : chan -> nat;
  rx_alive : chan -> bool;
}.

Class MpscLaws (A : Type) `{Mpsc A} : Prop := {
  channel_queued n : queued (channel n) = [];
  channel_bound n : bound (channel n) = n;
  channel_alive n : rx_alive (channel n) = true;
  capacity_spec c : rx_alive c = true -> capacity c = (bound c - length (queued c))%nat;
  try_send_closed x c : rx_alive c = false -> try_send x c = (SendClosed, c);
  try_send_full x c : rx_alive c = true -> (bound c <= length (queued c))%nat ->
    try_send x c = (SendFull, c);
  try_send_ok x c : rx_alive c = true -> (length (queued c) < bound c)%nat ->
    fst (try_send x c) = SendOk /\ queued (snd (try_send x c)) = queued c ++ [x]
    /\ bound (snd (try_send x c)) = bound c /\ rx_alive (snd (try_send x c)) = true;
  recv_nil c : queued c = [] -> recv c = (None, c);
  recv_cons c x q : queued c = x :: q ->
    fst (recv c) = Some x /\ queued (snd (recv c)) = q /\ bound (snd (recv c)) = bound c
    /\ rx_alive (snd (recv c)) = rx_alive c;
  drop_rx_spec c : queued (drop_rx c) = [] /\ bound (drop_rx c) = bound c
    /\ rx_alive (drop_rx c) = false;
}.

Section facts.
Context {A : Type} `{MpscLaws A}.

(** Sending never changes the bound nor revives a receiver. *)
Lemma try_send_stable x c :
  bound (snd (try_send x c)) = bound c /\ rx_alive (snd (try_send x c)) = rx_alive c.
Proof using All.
  destruct (rx_alive c) eqn:Ea; [|by rewrite try_send_closed].
  destruct (decide (length (queued c) < bound c)%nat) as [Hlt|Hge].
  - by destruct (try_send_ok x c Ea Hlt) as (_ & _ & ? & ?).
  - rewrite try_send_full by (done || lia). done.
Qed.
End facts.

(** ** An instance *)

Record Queue (A : Type) := mkQueue { q_items : list A; q_bound : nat; q_alive : bool }.
Arguments mkQueue {A}.
Arguments q_items {A}.
Arguments q_bound {A}.
Arguments q_alive {A}.

Definition queue (A : Type) : Mpsc A := {|
  chan := Queue A;
  channel := fun n => mkQueue [] n true;
  try_send := fun x c =>
    if negb (q_alive c) then (SendClosed, c)
    else if (q_bound c <=? length (q_items c))%nat then (SendFull, c)
    else (SendOk, mkQueue (q_items c ++ [x]) (q_bound c) true);
  capacity := fun c => (q_bound c - length (q_items c))%nat;
  recv := fun c => match q_items c with
                   | [] => (None, c)
                   | x :: q => (Some x, mkQueue q (q_bound c) (q_alive c))
                   end;
  drop_rx := fun c => mkQueue [] (q_bound c) false;
  queued := q_items;
  bound := q_bound;
  rx_alive := q_alive;
|}.

Lemma queue_laws A : @MpscLaws A (queue A).
Proof.
  split; try done; cbn.
  - intros x c ->. done.
  - intros x c -> Hle. cbn. by rewrite (proj2 (Nat.leb_le _ _)).
  - intros x c -> Hlt. cbn. rewrite (proj2 (Nat.leb_gt _ _)) by done. done.
  - intros c ->. done.
  - intros c x q ->. done.
Qed.
