(* ===== verification/ControlStream.v ===== *)
(** * Control streams (src/p2p-frame/src/networks/control_stream.rs)

    Many byte streams multiplexed over the control connection of one tunnel.
    Each runtime numbers the streams it opens with its own parity; a stream's
    inbound data goes through a bounded channel from the runtime to the
    stream's reader.  Channels are kept in a store, since the runtime holds the
    sending end and the reader the receiving end; they are named by the order
    in which they are created, and the oneshot channel of an open call has the
    name of its stream's channel.  The data sender, the codec of the derived
    frame type and the channels are interfaces.  Messages of errors are left
    out. *)

From stdpp Require Import functions.
From S2P Require Import Prelude Errors Ids Endpoint Codec Mpsc.

(** ** networks/tunnel.rs *)

Notation TunnelPurpose := (list Z) (only parsing).

Inductive TunnelCommandResult :=
| ResSuccess | ResPortNotListen | ResListenerClosed | ResAcceptQueueFull | ResConflictLost
| ResLeaseMismatch | ResRetired | ResProtocolError | ResTimeout | ResInterrupted
| ResInvalidParam | ResInternalError.

#[global] Instance TunnelCommandResult_eq_dec : EqDecision TunnelCommandResult.
Proof. solve_decision. Defined.

Definition command_result_u8 (r : TunnelCommandResult) : Z :=
  match r with
  | ResSuccess => 0 | ResPortNotListen => 1 | ResListenerClosed => 2 | ResAcceptQueueFull => 3
  | ResConflictLost => 4 | ResLeaseMismatch => 5 | ResRetired => 6 | ResProtocolError => 7
  | ResTimeout => 8 | ResInterrupted => 9 | ResInvalidParam => 10 | ResInternalError => 11
  end.

Definition command_result_from_u8 (v : Z) : option TunnelCommandResult :=
  if v =? 0 then Some ResSuccess else if v =? 1 then Some ResPortNotListen
  else if v =? 2 then Some ResListenerClosed else if v =? 3 then Some ResAcceptQueueFull
  else if v =? 4 then Some ResConflictLost else if v =? 5 then Some ResLeaseMismatch
  else if v =? 6 then Some ResRetired else if v =? 7 then Some ResProtocolError
  else if v =? 8 then Some ResTimeout else if v =? 9 then Some ResInterrupted
  else if v =? 10 then Some ResInvalidParam else if v =? 11 then Some ResInternalError
  else None.

Definition into_p2p_error (r : TunnelCommandResult) : P2pErrorCode.t :=
  match r with
  | ResSuccess => P2pErrorCode.Ok
  | ResPortNotListen => P2pErrorCode.PortNotListen
  | ResListenerClosed => P2pErrorCode.Interrupted
  | ResAcceptQueueFull => P2pErrorCode.Reject
  | ResConflictLost => P2pErrorCode.Conflict
  | ResLeaseMismatch => P2pErrorCode.Reject
  | ResRetired => P2pErrorCode.Interrupted
  | ResProtocolError => P2pErrorCode.InvalidData
  | ResTimeout => P2pErrorCode.Timeout
  | ResInterrupted => P2pErrorCode.Interrupted
  | ResInvalidParam => P2pErrorCode.InvalidParam
  | ResInternalError => P2pErrorCode.Unknown
  end.

(** ** Data *)

Definition MAX_CONTROL_DATA_FRAME_SIZE : Z := 64 * 1024.
Definition CONTROL_STREAM_WRITE_CHUNK : Z := 60 * 1024.
Definition CONTROL_STREAM_QUEUE_CAPACITY : nat := 1024.
Definition CONTROL_STREAM_QUEUE_TERMINAL_RESERVE : nat := 1.
#[global] Arguments CONTROL_STREAM_QUEUE_CAPACITY : simpl never.
#[global] Arguments CONTROL_STREAM_QUEUE_TERMINAL_RESERVE : simpl never.
#[global] Opaque CONTROL_STREAM_QUEUE_CAPACITY.

Inductive ControlStreamFrame :=
| FOpen (stream_id : Z) (purpose : TunnelPurpose)
| FOpenResp (stream_id : Z) (result : TunnelCommandResult)
| FData (stream_id : Z) (bytes : list Z)
| FFin (stream_id : Z)
| FReset (stream_id : Z) (reason : TunnelCommandResult)
| FWindow (stream_id : Z) (credit : Z).

Inductive InboundItem := ItemData (bytes : list Z) | ItemFin | ItemReset (code : P2pErrorCode.t).

(** The name of an inbound channel and of the open call that created it. *)
Notation Handle := nat (only parsing).

Record PendingOpen := mkPending { po_purpose : TunnelPurpose; po_inbound_tx : Handle; po_waiter : Handle }.

(** The purposes listened to and the [prepare] hook; the callback itself is an
    effect, [EvCallback]. *)
Record Listener := mkListener {
  is_listen : TunnelPurpose -> bool;
  ls_prepare : option (TunnelPurpose -> P2pResult unit);
}.

Inductive Event :=
| EvSent (payload : list Z)                       (* accepted by the data sender *)
| EvWaiter (h : Handle) (r : P2pResult unit)      (* the answer to an open call *)
| EvCallback (r : P2pResult (TunnelPurpose * Z * Handle))
| EvSpawn.                                        (* the callback's future is run *)

Section runtime.
Context `{mp : !Mpsc InboundItem}.

Record Runtime := mkRuntime {
  streams : gmap Z Handle;
  pending_opens : gmap Z PendingOpen;
  listener : option Listener;
  next_stream_id : Z;
  local_stream_id_parity : Z;
  closed : bool;
  close_reason : option P2pErrorCode.t;
  channels : gmap Handle chan;
  opening : gset Handle;         (* the open calls whose waiter is still awaited *)
  next_handle : Handle;
}.

Definition runtime_new (is_initiator : bool) : Runtime :=
  let first := if is_initiator then 1 else 2 in
  mkRuntime ∅ ∅ None first (Z.land first 1) false None ∅ ∅ O.

Definition set_streams (f : gmap Z Handle -> gmap Z Handle) (rt : Runtime) : Runtime :=
  mkRuntime (f (streams rt)) (pending_opens rt) (listener rt) (next_stream_id rt)
    (local_stream_id_parity rt) (closed rt) (close_reason rt) (channels rt) (opening rt) (next_handle rt).
Definition set_pending (f : gmap Z PendingOpen -> gmap Z PendingOpen) (rt : Runtime) : Runtime :=
  mkRuntime (streams rt) (f (pending_opens rt)) (listener rt) (next_stream_id rt)
    (local_stream_id_parity rt) (closed rt) (close_reason rt) (channels rt) (opening rt) (next_handle rt).
Definition set_listener (l : option Listener) (rt : Runtime) : Runtime :=
  mkRuntime (streams rt) (pending_opens rt) l (next_stream_id rt)
    (local_stream_id_parity rt) (closed rt) (close_reason rt) (channels rt) (opening rt) (next_handle rt).
Definition set_next_id (i : Z) (rt : Runtime) : Runtime :=
  mkRuntime (streams rt) (pending_opens rt) (listener rt) i
    (local_stream_id_parity rt) (closed rt) (close_reason rt) (channels rt) (opening rt) (next_handle rt).
Definition set_closed (code : P2pErrorCode.t) (rt : Runtime) : Runtime :=
  mkRuntime (streams rt) (pending_opens rt) (listener rt) (next_stream_id rt)
    (local_stream_id_parity rt) true (Some code) (channels rt) (opening rt) (next_handle rt).
Definition set_channels (f : gmap Handle chan -> gmap Handle chan) (rt : Runtime) : Runtime :=
  mkRuntime (streams rt) (pending_opens rt) (listener rt) (next_stream_id rt)
    (local_stream_id_parity rt) (closed rt) (close_reason rt) (f (channels rt)) (opening rt) (next_handle rt).
Definition set_opening (f : gset Handle -> gset Handle) (rt : Runtime) : Runtime :=
  mkRuntime (streams rt) (pending_opens rt) (listener rt) (next_stream_id rt)
    (local_stream_id_parity rt) (closed rt) (close_reason rt) (channels rt) (f (opening rt)) (next_handle rt).

(** ** Channels of the store *)

Definition inbound_channel (rt : Runtime) : Handle * Runtime :=
  let h := next_handle rt in
  (h, mkRuntime (streams rt) (pending_opens rt) (listener rt) (next_stream_id rt)
        (local_stream_id_parity rt) (closed rt) (close_reason rt)
        (<[h := channel (CONTROL_STREAM_QUEUE_CAPACITY + CONTROL_STREAM_QUEUE_TERMINAL_RESERVE)]>
           (channels rt))
        (opening rt) (S h)).

(** [tx.try_send(x)] on the channel [h]. *)
Definition chan_send (h : Handle) (x : InboundItem) (rt : Runtime) : TrySend * Runtime :=
  match channels rt !! h with
  | Some c => let '(r, c) := try_send x c in (r, set_channels <[h := c]> rt)
  | None => (SendClosed, rt)
  end.

Definition chan_capacity (h : Handle) (rt : Runtime) : nat :=
  match channels rt !! h with Some c => capacity c | None => 0 end.

(** The receiver of the channel [h] is dropped. *)
Definition chan_drop_rx (h : Handle) (rt : Runtime) : Runtime := set_channels (alter drop_rx h) rt.

(** ** Closing *)

Definition reset_one (code : P2pErrorCode.t) (rt : Runtime) (h : Handle) : Runtime :=
  snd (chan_send h (ItemReset code) rt).

(** The first close wins; it resets every stream and fails every open call. *)
Definition close_all (code : P2pErrorCode.t) (rt : Runtime) : list Event * Runtime :=
  if closed rt then ([], rt)
  else
    let rt := set_closed code rt in
    let rt := foldl (reset_one code) rt (snd <$> map_to_list (streams rt)) in
    let rt := set_streams (fun _ => ∅) rt in
    let pending := snd <$> map_to_list (pending_opens rt) in
    let rt := foldl (reset_one code) rt (po_inbound_tx <$> pending) in
    let rt := set_pending (fun _ => ∅) rt in
    ((fun p => EvWaiter (po_waiter p) (Err code)) <$> pending, set_listener None rt).

Definition check_open (rt : Runtime) : P2pResult unit :=
  if closed rt then Err (default P2pErrorCode.Interrupted (close_reason rt)) else Ok tt.

Definition is_peer_stream_id (rt : Runtime) (id : Z) : bool :=
  negb (id =? 0) && negb (Z.land id 1 =? local_stream_id_parity rt).

(** [loop { fetch_add(2); .. }], [fuel] iterations at most. *)
Fixpoint alloc_loop (fuel : nat) (rt : Runtime) : option (Z * Runtime) :=
  match fuel with
  | O => None
  | S fuel =>
      let id := next_stream_id rt in
      let rt := set_next_id (wrapping_add_u32 id 2) rt in
      if id =? 0 then alloc_loop fuel rt
      else if bool_decide (pending_opens rt !! id = None) && bool_decide (streams rt !! id = None)
           then Some (id, rt) else alloc_loop fuel rt
  end.

(** One iteration may hit 0, and each stream in use at most one. *)
Definition alloc_stream_id (rt : Runtime) : option (Z * Runtime) :=
  alloc_loop (2 + size (pending_opens rt) + size (streams rt)) rt.

Definition listen_with_prepare (l : Listener) (rt : Runtime) : P2pResult unit * Runtime :=
  match check_open rt with
  | Err e => (Err e, rt)
  | Ok _ => (Ok tt, set_listener (Some l) rt)
  end.

Section operations.
Context `{fc : !RawCodec ControlStreamFrame}.
(** [ControlDataSender::send], awaited. *)
Context (sender : list Z -> P2pResult unit).

Definition send_frame (f : ControlStreamFrame) (rt : Runtime) : P2pResult unit * list Event * Runtime :=
  match to_vec f with
  | Err _ => (Err P2pErrorCode.RawCodecError, [], rt)
  | Ok payload =>
      if MAX_CONTROL_DATA_FRAME_SIZE <? Z.of_nat (length payload) then (Err P2pErrorCode.OutOfLimit, [], rt)
      else match sender payload with
           | Ok _ => (Ok tt, [EvSent payload], rt)
           | Err e => let '(ev, rt) := close_all e rt in (Err e, ev, rt)
           end
  end.

(** [open] up to the point where it awaits the waiter.  [None] when no stream
    id is free, where the code loops. *)
Definition open_begin (purpose : TunnelPurpose) (rt : Runtime)
    : option (P2pResult (Z * Handle) * list Event * Runtime) :=
  match check_open rt with
  | Err e => Some (Err e, [], rt)
  | Ok _ =>
      match alloc_stream_id rt with
      | None => None
      | Some (id, rt) =>
          let '(h, rt) := inbound_channel rt in
          let rt := set_opening (union {[h]}) rt in
          let rt := set_pending <[id := mkPending purpose h h]> rt in
          let '(r, ev, rt) := send_frame (FOpen id purpose) rt in
          Some match r with
               | Ok _ => (Ok (id, h), ev, rt)
               | Err e => (* the waiter, the receiver and the cleanup guard are dropped *)
                   (Err e, ev, chan_drop_rx h (set_opening (fun s => s ∖ {[h]}) (set_pending (delete id) rt)))
               end
      end
  end.

(** What an open call is woken by: its waiter's answer, the waiter dropped
    without one, or the timeout. *)
Inductive OpenWake := WokenBy (r : P2pResult unit) | Canceled | TimedOut.

(** The rest of [open]; [Ok] hands out the reader on [h] and the writer of [id]. *)
Definition open_end (id : Z) (h : Handle) (w : OpenWake) (rt : Runtime)
    : P2pResult (Z * Handle) * Runtime :=
  let rt := set_pending (delete id) (set_opening (fun s => s ∖ {[h]}) rt) in
  match w with
  | WokenBy (Ok _) => (Ok (id, h), rt)
  | WokenBy (Err e) => (Err e, chan_drop_rx h rt)
  | Canceled => (Err P2pErrorCode.Interrupted, chan_drop_rx h rt)
  | TimedOut => (Err P2pErrorCode.Timeout, chan_drop_rx h rt)
  end.

(** ** Frames *)

(** [handle_open] after its checks: the stream is entered, unless one with
    that id was entered meanwhile, and offered to the listener. *)
Definition open_insert (l : Listener) (id : Z) (purpose : TunnelPurpose) (rt : Runtime)
    : P2pResult unit * list Event * Runtime :=
  if bool_decide (is_Some (streams rt !! id)) then send_frame (FOpenResp id ResConflictLost) rt
  else
    let '(h, rt) := inbound_channel rt in
    let rt := set_streams <[id := h]> rt in
    let prepared := match ls_prepare l with Some p => p purpose | None => Ok tt end in
    let '(result, cb, rt) :=
      match prepared with
      | Ok _ => (ResSuccess, EvCallback (Ok (purpose, id, h)), rt)
      | Err e => (ResRetired, EvCallback (Err e), chan_drop_rx h (set_streams (delete id) rt))
      end in
    let '(r, ev, rt) := send_frame (FOpenResp id result) rt in
    match r with
    | Ok _ => (Ok tt, cb :: ev ++ [EvSpawn], rt)
    | Err e => (Err e, cb :: ev, rt)
    end.

Definition handle_open (id : Z) (purpose : TunnelPurpose) (rt : Runtime)
    : P2pResult unit * list Event * Runtime :=
  if negb (is_peer_stream_id rt id) then send_frame (FOpenResp id ResInvalidParam) rt
  else if bool_decide (is_Some (pending_opens rt !! id)) || bool_decide (is_Some (streams rt !! id))
  then send_frame (FOpenResp id ResConflictLost) rt
  else match listener rt with
       | None => send_frame (FOpenResp id ResListenerClosed) rt
       | Some l =>
           if negb (is_listen l purpose) then send_frame (FOpenResp id ResPortNotListen) rt
           else open_insert l id purpose rt
       end.

(** [handle_open_resp] after it took the pending call: the stream is entered
    only when the waiter is still awaited. *)
Definition resp_insert (id : Z) (p : PendingOpen) (result : TunnelCommandResult) (rt : Runtime)
    : list Event * Runtime :=
  if bool_decide (result = ResSuccess) then
    if bool_decide (po_waiter p ∈ opening rt)
    then ([EvWaiter (po_waiter p) (Ok tt)], set_streams <[id := po_inbound_tx p]> rt)
    else ([], rt)
  else ([EvWaiter (po_waiter p) (Err (into_p2p_error result))], rt).

Definition handle_open_resp (id : Z) (result : TunnelCommandResult) (rt : Runtime)
    : P2pResult unit * list Event * Runtime :=
  match pending_opens rt !! id with
  | None => (Ok tt, [], rt)
  | Some p =>
      let '(ev, rt) := resp_insert id p result (set_pending (delete id) rt) in
      (Ok tt, ev, rt)
  end.

(** The outcome of handing the bytes to the stream's channel. *)
Inductive Delivery := Delivered | Overflow | ReaderClosed.

Definition enqueue (id : Z) (h : Handle) (bytes : list Z) (rt : Runtime) : Delivery * Runtime :=
  if (chan_capacity h rt <=? CONTROL_STREAM_QUEUE_TERMINAL_RESERVE)%nat
  then (Overflow, snd (chan_send h (ItemReset P2pErrorCode.OutOfLimit) (set_streams (delete id) rt)))
  else match chan_send h (ItemData bytes) rt with
       | (SendOk, rt) => (Delivered, rt)
       | (SendFull, rt) =>
           (Overflow, snd (chan_send h (ItemReset P2pErrorCode.OutOfLimit) (set_streams (delete id) rt)))
       | (SendClosed, rt) => (ReaderClosed, set_streams (delete id) rt)
       end.

Definition deliver (id : Z) (bytes : list Z) (rt : Runtime) : P2pResult unit * list Event * Runtime :=
  match streams rt !! id with
  | None => (Ok tt, [], rt)
  | Some h =>
      match enqueue id h bytes rt with
      | (Delivered, rt) => (Ok tt, [], rt)
      | (Overflow, rt) => send_frame (FReset id ResAcceptQueueFull) rt
      | (ReaderClosed, rt) => send_frame (FReset id ResInterrupted) rt
      end
  end.

Definition finish_stream (id : Z) (rt : Runtime) : Runtime :=
  match streams rt !! id with
  | Some h => snd (chan_send h ItemFin (set_streams (delete id) rt))
  | None => rt
  end.

Definition reset_stream (id : Z) (code : P2pErrorCode.t) (rt : Runtime) : Runtime :=
  match streams rt !! id with
  | Some h => snd (chan_send h (ItemReset code) (set_streams (delete id) rt))
  | None => rt
  end.

Definition handle_frame (f : ControlStreamFrame) (rt : Runtime) : P2pResult unit * list Event * Runtime :=
  match f with
  | FOpen id purpose => handle_open id purpose rt
  | FOpenResp id result => handle_open_resp id result rt
  | FData id bytes => deliver id bytes rt
  | FFin id => (Ok tt, [], finish_stream id rt)
  | FReset id reason => (Ok tt, [], reset_stream id (into_p2p_error reason) rt)
  | FWindow _ _ => (Ok tt, [], rt)
  end.

Definition on_data (payload : list Z) (rt : Runtime) : P2pResult unit * list Event * Runtime :=
  if MAX_CONTROL_DATA_FRAME_SIZE <? Z.of_nat (length payload) then
    let '(ev, rt) := close_all P2pErrorCode.InvalidData rt in (Err P2pErrorCode.InvalidData, ev, rt)
  else match check_open rt with
       | Err e => (Err e, [], rt)
       | Ok _ =>
           match clone_from_slice payload with
           | Err _ => (Err P2pErrorCode.RawCodecError, [], rt)
           | Ok f => handle_frame f rt
           end
       end.
End operations.

(** ** Reading *)

Record ControlStreamRead := mkRead { rd_rx : Handle; rd_pending : list Z; rd_offset : nat }.

Definition read_new (h : Handle) : ControlStreamRead := mkRead h [] 0.

(** [Ready(Ok(()))] with the bytes put into the buffer, an error, or pending. *)
Inductive ReadPoll := ReadReady (bytes : list Z) | ReadError (code : P2pErrorCode.t) | ReadPending.

(** Whether some sender of the channel [h] is alive. *)
Definition has_sender (rt : Runtime) (h : Handle) : bool :=
  existsb (fun x => bool_decide (snd x = h)) (map_to_list (streams rt))
  || existsb (fun x => bool_decide (po_inbound_tx (snd x) = h)) (map_to_list (pending_opens rt)).

Definition poll_read (room : nat) (rd : ControlStreamRead) (rt : Runtime)
    : ReadPoll * ControlStreamRead * Runtime :=
  if (rd_offset rd <? length (rd_pending rd))%nat then
    let start := rd_offset rd in
    let len := ((length (rd_pending rd) - start) `min` room)%nat in
    let bytes := take len (drop start (rd_pending rd)) in
    (ReadReady bytes,
     (if (start + len =? length (rd_pending rd))%nat then mkRead (rd_rx rd) [] 0
      else mkRead (rd_rx rd) (rd_pending rd) (start + len)), rt)
  else
    match channels rt !! rd_rx rd with
    | None => (ReadPending, rd, rt)
    | Some c =>
        let '(x, c) := recv c in
        let rt := set_channels <[rd_rx rd := c]> rt in
        match x with
        | Some (ItemData bytes) =>
            let len := (length bytes `min` room)%nat in
            (ReadReady (take len bytes),
             (if (len <? length bytes)%nat then mkRead (rd_rx rd) bytes len else rd), rt)
        | Some ItemFin => (ReadReady [], rd, rt)
        | Some (ItemReset code) => (ReadError code, rd, rt)
        | None => if has_sender rt (rd_rx rd) then (ReadPending, rd, rt) else (ReadReady [], rd, rt)
        end
    end.
End runtime.

Arguments mkRuntime {mp}.
Arguments Runtime {mp}.

(** ** Writing *)

Inductive IoErrorKind := InvalidDataKind | InvalidInputKind | BrokenPipeKind.

(** What polling the data sender's future gives. *)
Inductive SendPoll := SendReady (r : P2pResult unit) | SendPending.

Inductive WritePoll := WriteReady (n : nat) | WriteError (k : IoErrorKind) | WritePending.

Record ControlStreamWrite := mkWrite {
  wr_stream_id : Z;
  wr_pending_write : option (list Z);       (* the payload being sent *)
  wr_pending_len : nat;
  wr_pending_shutdown : option (list Z);
  wr_closed : bool;
}.

Definition write_new (id : Z) : ControlStreamWrite := mkWrite id None 0 None false.

Section writer.
Context `{fc : !RawCodec ControlStreamFrame}.
(** The runtime's [closed] flag as loaded before and after the data sender is
    polled, and the answer of the data sender. *)
Context (closed_before closed_after : bool) (poll : SendPoll).

Definition encode_frame (f : ControlStreamFrame) : Result IoErrorKind (list Z) :=
  match to_vec f with
  | Err _ => Err InvalidDataKind
  | Ok payload => if MAX_CONTROL_DATA_FRAME_SIZE <? Z.of_nat (length payload) then Err InvalidInputKind
                  else Ok payload
  end.

(** The poll, the payload the data sender accepted, and the writer after it. *)
Definition poll_pending_write (w : ControlStreamWrite) : WritePoll * option (list Z) * ControlStreamWrite :=
  let idle c := mkWrite (wr_stream_id w) None 0 (wr_pending_shutdown w) c in
  if closed_before then (WriteError BrokenPipeKind, None, idle true)
  else match wr_pending_write w with
       | None => (WriteReady 0, None, w)
       | Some payload =>
           match poll with
           | SendReady (Ok _) =>
               if closed_after then (WriteError BrokenPipeKind, Some payload, idle true)
               else (WriteReady (wr_pending_len w), Some payload, idle (wr_closed w))
           | SendReady (Err _) => (WriteError BrokenPipeKind, None, idle true)
           | SendPending => (WritePending, None, w)
           end
       end.

Definition poll_write (src : list Z) (w : ControlStreamWrite)
    : WritePoll * option (list Z) * ControlStreamWrite :=
  if wr_closed w || closed_before then
    (WriteError BrokenPipeKind, None,
     mkWrite (wr_stream_id w) (wr_pending_write w) (wr_pending_len w) (wr_pending_shutdown w) true)
  else if bool_decide (is_Some (wr_pending_write w)) then poll_pending_write w
  else if bool_decide (src = []) then (WriteReady 0, None, w)
  else
    let len := Z.to_nat (Z.min (Z.of_nat (length src)) CONTROL_STREAM_WRITE_CHUNK) in
    match encode_frame (FData (wr_stream_id w) (take len src)) with
    | Err k => (WriteError k, None, w)
    | Ok payload =>
        poll_pending_write (mkWrite (wr_stream_id w) (Some payload) len (wr_pending_shutdown w) (wr_closed w))
    end.

(** [?] on the first poll, then the test of the flag. *)
Definition poll_flush (w : ControlStreamWrite) : WritePoll * option (list Z) * ControlStreamWrite :=
  let finish sent w :=
    if closed_after then
      (WriteError BrokenPipeKind, sent,
       mkWrite (wr_stream_id w) (wr_pending_write w) (wr_pending_len w) (wr_pending_shutdown w) true)
    else (WriteReady 0, sent, w) in
  if bool_decide (is_Some (wr_pending_write w)) then
    match poll_pending_write w with
    | (WriteReady _, sent, w) => finish sent w
    | x => x
    end
  else finish None w.

End writer.

(** [poll_shutdown] finishes a pending write ([write_poll]), then sends [Fin]
    once ([fin_poll]); the flag is loaded before, between and after. *)
Definition poll_shutdown `{fc : !RawCodec ControlStreamFrame} (closed_before closed_mid closed_after : bool)
    (write_poll fin_poll : SendPoll) (w : ControlStreamWrite)
    : WritePoll * list (list Z) * ControlStreamWrite :=
  let '(first, sent, w) :=
    if bool_decide (is_Some (wr_pending_write w))
    then poll_pending_write closed_before closed_mid write_poll w else (WriteReady 0, None, w) in
  let sent := option_list sent in
  match first with
  | WriteReady _ =>
      if closed_mid then
        (WriteError BrokenPipeKind, sent,
         mkWrite (wr_stream_id w) (wr_pending_write w) (wr_pending_len w) None true)
      else if wr_closed w then (WriteReady 0, sent, w)
      else
        let payload := match wr_pending_shutdown w with
                       | Some p => Ok p
                       | None => encode_frame (FFin (wr_stream_id w))
                       end in
        match payload with
        | Err k => (WriteError k, sent, w)
        | Ok p =>
            let done c := mkWrite (wr_stream_id w) (wr_pending_write w) (wr_pending_len w) None c in
            match fin_poll with
            | SendReady (Ok _) =>
                if closed_after then (WriteError BrokenPipeKind, sent ++ [p], done true)
                else (WriteReady 0, sent ++ [p], done true)
            | SendReady (Err _) => (WriteError BrokenPipeKind, sent, done true)
            | SendPending =>
                (WritePending, sent,
                 mkWrite (wr_stream_id w) (wr_pending_write w) (wr_pending_len w) (Some p) (wr_closed w))
            end
        end
  | x => (x, sent, w)
  end.

(** ** The runtime and the readers as a transition system

    [w_arrived h] collects the bytes of the data frames that arrived for the
    stream of the channel [h] while it was open, [w_got h] what its reader
    returned; [w_failed h] holds once the reader returned an error. *)

Section world.
Context `{mp : !Mpsc InboundItem} `{fc : !RawCodec ControlStreamFrame}.

Record World := mkWorld {
  w_rt : Runtime;
  w_readers : Handle -> ControlStreamRead;
  w_arrived : Handle -> list Z;
  w_got : Handle -> list Z;
  w_failed : Handle -> bool;
}.

Definition world_new (is_initiator : bool) : World :=
  mkWorld (runtime_new is_initiator) read_new (fun _ => []) (fun _ => []) (fun _ => false).

Definition with_rt (rt : Runtime) (w : World) : World :=
  mkWorld rt (w_readers w) (w_arrived w) (w_got w) (w_failed w).

(** The stream a payload carries data for, with the data. *)
Definition arrival (payload : list Z) (rt : Runtime) : option (Handle * list Z) :=
  if (MAX_CONTROL_DATA_FRAME_SIZE <? Z.of_nat (length payload)) || closed rt then None
  else match clone_from_slice payload with
       | Ok (FData id bytes) => (fun h => (h, bytes)) <$> streams rt !! id
       | _ => None
       end.

Definition arrive (a : option (Handle * list Z)) (f : Handle -> list Z) : Handle -> list Z :=
  match a with Some (h, bytes) => <[h := f h ++ bytes]> f | None => f end.

Definition read_bytes (r : ReadPoll) : list Z := match r with ReadReady b => b | _ => [] end.
Definition read_failed (r : ReadPoll) : bool := match r with ReadError _ => true | _ => false end.

Inductive cs_step : World -> World -> Prop :=
| st_listen l w r rt :
    listen_with_prepare l (w_rt w) = (r, rt) -> cs_step w (with_rt rt w)
| st_open sender purpose w r ev rt :
    open_begin sender purpose (w_rt w) = Some (r, ev, rt) -> cs_step w (with_rt rt w)
| st_open_end id h wake w r rt :
    open_end id h wake (w_rt w) = (r, rt) -> cs_step w (with_rt rt w)
| st_data sender payload w r ev rt :
    on_data sender payload (w_rt w) = (r, ev, rt) ->
    cs_step w (mkWorld rt (w_readers w) (arrive (arrival payload (w_rt w)) (w_arrived w))
                 (w_got w) (w_failed w))
| st_close code w ev rt :
    close_all code (w_rt w) = (ev, rt) -> cs_step w (with_rt rt w)
| st_read h room w r rd rt :
    poll_read room (w_readers w h) (w_rt w) = (r, rd, rt) ->
    cs_step w (mkWorld rt (<[h := rd]> (w_readers w)) (w_arrived w)
                 (<[h := w_got w h ++ read_bytes r]> (w_got w))
                 (<[h := w_failed w h || read_failed r]> (w_failed w)))
| st_drop h w : cs_step w (with_rt (chan_drop_rx h (w_rt w)) w).

Inductive cs_reachable (is_initiator : bool) : World -> Prop :=
| cr_init : cs_reachable is_initiator (world_new is_initiator)
| cr_next w w' : cs_reachable is_initiator w -> cs_step w w' -> cs_reachable is_initiator w'.
End world.

(** ** Invariant *)

Section invariant.
Context `{mp : !Mpsc InboundItem, !MpscLaws InboundItem}.

(** The bytes a reader holds back. *)
Definition rest (rd : ControlStreamRead) : list Z := drop (rd_offset rd) (rd_pending rd).

(** The channel [h] has a sender in the tables. *)
Definition chan_live (ss : gmap Z Handle) (ps : gmap Z PendingOpen) (h : Handle) : Prop :=
  (exists i, ss !! i = Some h) \/ (exists i p, ps !! i = Some p /\ po_inbound_tx p = h).

(** What is known of the channel [h]: only data while it has a sender, with one
    place left; then at most one terminal item after the data.  What was read,
    is held back or is still queued is what arrived; something can be missing
    only behind a reset. *)
Definition queue_ok (lv : Prop) (q : list InboundItem) (seen arrived : list Z) (failed : bool) : Prop :=
  exists ds tl, q = (ItemData <$> ds) ++ tl
  /\ (length ds <= CONTROL_STREAM_QUEUE_CAPACITY)%nat
  /\ (lv -> tl = [])
  /\ match tl with
     | [] => seen ++ concat ds = arrived \/ (failed = true /\ ~ lv)
     | [ItemFin] => seen ++ concat ds = arrived \/ failed = true
     | [ItemReset _] => True
     | _ => False
     end
  /\ seen ++ concat ds `prefix_of` arrived.

Definition channel_ok (lv : Prop) (c : chan) (rd : ControlStreamRead) (arrived got : list Z)
    (failed : bool) : Prop :=
  bound c = (CONTROL_STREAM_QUEUE_CAPACITY + CONTROL_STREAM_QUEUE_TERMINAL_RESERVE)%nat
  /\ (rx_alive c = true -> queue_ok lv (queued c) (got ++ rest rd) arrived failed).

Record core (ss : gmap Z Handle) (ps : gmap Z PendingOpen) (cs : gmap Handle chan) (nh : Handle)
    (rds : Handle -> ControlStreamRead) (arr got : Handle -> list Z) (fl : Handle -> bool) : Prop := {
  co_dom : forall h, is_Some (cs !! h) <-> (h < nh)%nat;
  co_live : forall h, chan_live ss ps h -> (h < nh)%nat;
  co_inj_s : forall i j h, ss !! i = Some h -> ss !! j = Some h -> i = j;
  co_inj_p : forall i j p q, ps !! i = Some p -> ps !! j = Some q ->
               po_inbound_tx p = po_inbound_tx q -> i = j;
  co_cross : forall i j p, ss !! i = Some (po_inbound_tx p) -> ps !! j = Some p -> False;
  co_rd : forall h, rd_rx (rds h) = h;
  co_fresh : forall h, (nh <= h)%nat -> arr h = [] /\ got h = [] /\ rest (rds h) = [];
  co_chan : forall h c, cs !! h = Some c -> channel_ok (chan_live ss ps h) c (rds h) (arr h) (got h) (fl h);
}.

Lemma queue_ok_dead (lv lv' : Prop) q seen arrived failed :
  (lv' -> lv) -> queue_ok lv q seen arrived failed -> queue_ok lv' q seen arrived failed.
Proof using Type.
  intros Hi (ds & tl & -> & Hl & Ht & Hm & Hp). exists ds, tl. split_and!; try done; [by auto|].
  destruct tl as [|[]]; naive_solver.
Qed.

Lemma channel_ok_dead (lv lv' : Prop) c rd a g f :
  (lv' -> lv) -> channel_ok lv c rd a g f -> channel_ok lv' c rd a g f.
Proof using Type. intros Hi [Hb Hq]. split; [done|]. intros Ha. by eapply queue_ok_dead, Hq. Qed.

(** The tables may lose entries. *)
Lemma core_shrink ss ps ss' ps' cs nh rds arr got fl :
  core ss ps cs nh rds arr got fl ->
  (forall i h, ss' !! i = Some h -> ss !! i = Some h) ->
  (forall i p, ps' !! i = Some p -> ps !! i = Some p) ->
  core ss' ps' cs nh rds arr got fl.
Proof using Type.
  intros [Hd Hlt Hi Hj Hx Hr Hf Hc] Hs Hp.
  assert (Hl : forall h, chan_live ss' ps' h -> chan_live ss ps h) by (unfold chan_live; naive_solver).
  split; eauto 6.
  intros h c Hh. eapply channel_ok_dead; [apply Hl|eauto].
Qed.

(** A new channel. *)
Lemma core_new ss ps cs nh rds arr got fl :
  core ss ps cs nh rds arr got fl ->
  core ss ps (<[nh := channel (CONTROL_STREAM_QUEUE_CAPACITY + CONTROL_STREAM_QUEUE_TERMINAL_RESERVE)]> cs)
    (S nh) rds arr got fl.
Proof using All.
  intros [Hd Hl ?? ? ? Hf Hc]. split; eauto.
  - intros h. rewrite lookup_insert_is_Some, Hd. lia.
  - intros h Hh. specialize (Hl h Hh). lia.
  - intros h Hh. apply Hf. lia.
  - intros h c. rewrite lookup_insert_Some. intros [[<- <-]|[_ Hh]]; [|eauto].
    unfold channel_ok. destruct (Hf nh) as (-> & -> & ->); [lia|].
    split; [by rewrite channel_bound|]. intros _. exists [], []. rewrite channel_queued.
    split_and!; try done; [simpl; lia|by left].
Qed.

(** The channel can become a stream's: nothing but data, all of what arrived. *)
Definition clean (cs : gmap Handle chan) (rds : Handle -> ControlStreamRead) (arr got : Handle -> list Z)
    (h : Handle) : Prop :=
  forall c, cs !! h = Some c -> rx_alive c = true ->
  exists ds, queued c = ItemData <$> ds /\ (length ds <= CONTROL_STREAM_QUEUE_CAPACITY)%nat
             /\ (got h ++ rest (rds h)) ++ concat ds = arr h.

Lemma core_live_clean ss ps cs nh rds arr got fl h :
  core ss ps cs nh rds arr got fl -> chan_live ss ps h -> clean cs rds arr got h.
Proof using Type.
  intros Hco Hlv c Hc Ha. destruct (co_chan _ _ _ _ _ _ _ _ Hco h c Hc) as [_ Hq].
  destruct (Hq Ha) as (ds & tl & Hqd & Hl & Ht & Hm & _). rewrite (Ht Hlv), app_nil_r in *.
  exists ds. split_and!; try done. naive_solver.
Qed.

Lemma clean_channel_ok lv cs rds arr got fl h c :
  clean cs rds arr got h -> cs !! h = Some c ->
  channel_ok (chan_live ∅ ∅ h) c (rds h) (arr h) (got h) fl -> channel_ok lv c (rds h) (arr h) (got h) fl.
Proof using Type.
  intros Hcl Hc [Hb _]. split; [done|]. intros Ha. destruct (Hcl c Hc Ha) as (ds & Hq & Hl & He).
  exists ds, []. rewrite app_nil_r. split_and!; try done; [by left|by rewrite He].
Qed.

(** A clean channel without a sender gets one in the table of streams, which
    may replace another stream. *)
Lemma core_add_stream ss ps cs nh rds arr got fl i h :
  core ss ps cs nh rds arr got fl -> ~ chan_live ss ps h -> (h < nh)%nat -> clean cs rds arr got h ->
  core (<[i := h]> ss) ps cs nh rds arr got fl.
Proof using Type.
  intros [Hd Hl Hs Hp Hx Hr Hf Hc] Hn Hlt Hcl.
  assert (Hlv : forall k, chan_live (<[i := h]> ss) ps k -> k = h \/ chan_live ss ps k).
  { intros k [[j Hj]|?]; [|by right; right]. apply lookup_insert_Some in Hj as [[_ <-]|[_ ?]];
      [by left|right; left; eauto]. }
  split; eauto.
  - intros k Hk. destruct (Hlv k Hk); [lia|eauto].
  - intros a b k. rewrite !lookup_insert_Some. intros [[<- <-]|[? Ha]] [[<- E]|[? Hb]]; subst; try done; eauto;
      exfalso; apply Hn; left; eauto.
  - intros a b p. rewrite lookup_insert_Some. intros [[_ ->]|[_ Ha]] Hb; [|by eauto]. apply Hn. right. eauto.
  - intros k c Hk. specialize (Hc k c Hk). destruct (decide (k = h)) as [->|Hne].
    + eapply clean_channel_ok; eauto. eapply channel_ok_dead; [|done]. intros [[? ?]|(? & ? & ? & ?)]; by simplify_map_eq.
    + eapply channel_ok_dead; [|done]. intros Hk'. destruct (Hlv k Hk'); done.
Qed.

Lemma core_add_pending ss ps cs nh rds arr got fl i p :
  core ss ps cs nh rds arr got fl -> ~ chan_live ss ps (po_inbound_tx p) -> (po_inbound_tx p < nh)%nat ->
  clean cs rds arr got (po_inbound_tx p) ->
  core ss (<[i := p]> ps) cs nh rds arr got fl.
Proof using Type.
  intros [Hd Hl Hs Hp Hx Hr Hf Hc] Hn Hlt Hcl.
  assert (Hlv : forall k, chan_live ss (<[i := p]> ps) k -> k = po_inbound_tx p \/ chan_live ss ps k).
  { intros k [?|(j & q & Hj & <-)]; [by right; left|]. apply lookup_insert_Some in Hj as [[_ <-]|[_ ?]];
      [by left|right; right; eauto]. }
  split; eauto.
  - intros k Hk. destruct (Hlv k Hk); [lia|eauto].
  - intros a b q r. rewrite !lookup_insert_Some. intros [[<- <-]|[? Ha]] [[<- E]|[? Hb]] He; subst; try done; eauto;
      exfalso; apply Hn; right; eauto.
  - intros a b q Ha. rewrite lookup_insert_Some. intros [[_ ->]|[_ Hb]]; [|by eauto]. apply Hn. left. eauto.
  - intros k c Hk. specialize (Hc k c Hk). destruct (decide (k = po_inbound_tx p)) as [->|Hne].
    + eapply clean_channel_ok; eauto. eapply channel_ok_dead; [|done]. intros [[? ?]|(? & ? & ? & ?)]; by simplify_map_eq.
    + eapply channel_ok_dead; [|done]. intros Hk'. destruct (Hlv k Hk'); done.
Qed.

(** One channel and what is known of it change. *)
Lemma core_channel ss ps cs nh rds arr got fl h c c' rds' arr' got' fl' :
  core ss ps cs nh rds arr got fl -> cs !! h = Some c ->
  (forall k, k <> h -> rds' k = rds k /\ arr' k = arr k /\ got' k = got k /\ fl' k = fl k) ->
  rd_rx (rds' h) = h ->
  channel_ok (chan_live ss ps h) c' (rds' h) (arr' h) (got' h) (fl' h) ->
  core ss ps (<[h := c']> cs) nh rds' arr' got' fl'.
Proof using Type.
  intros [Hd Hl Hs Hp Hx Hr Hf Hc] Hh Ho Hrx Hok.
  assert (Hlt : (h < nh)%nat) by (apply Hd; eauto). split; eauto.
  - intros k. rewrite lookup_insert_is_Some, Hd. destruct (decide (k = h)); naive_solver lia.
  - intros k. destruct (decide (k = h)) as [->|Hne]; [done|]. by destruct (Ho k Hne) as (-> & _).
  - intros k Hk. destruct (Ho k) as (-> & -> & -> & _); [lia|]. eauto.
  - intros k ck. rewrite lookup_insert_Some. intros [[<- <-]|[Hne Hk]]; [done|].
    destruct (Ho k) as (-> & -> & -> & ->); [done|]. eauto.
Qed.

Definition terminal (x : InboundItem) : Prop := match x with ItemData _ => False | _ => True end.

(** A terminal item always fits behind the data; nothing of what arrived is
    missing then, unless it is a reset. *)
Lemma terminal_fits cs rds arr got h c x :
  clean cs rds arr got h -> cs !! h = Some c -> rx_alive c = true ->
  bound c = (CONTROL_STREAM_QUEUE_CAPACITY + CONTROL_STREAM_QUEUE_TERMINAL_RESERVE)%nat ->
  fst (try_send x c) = SendOk /\ queued (snd (try_send x c)) = queued c ++ [x].
Proof using All.
  intros Hcl Hc Ha Hb. destruct (Hcl c Hc Ha) as (ds & Hq & Hl & _).
  destruct (try_send_ok x c) as (? & ? & _); [done| |done].
  rewrite Hq, length_fmap, Hb. unfold CONTROL_STREAM_QUEUE_TERMINAL_RESERVE. lia.
Qed.

Lemma terminal_ok lv cs rds arr got h c x a f :
  clean cs rds arr got h -> cs !! h = Some c ->
  bound c = (CONTROL_STREAM_QUEUE_CAPACITY + CONTROL_STREAM_QUEUE_TERMINAL_RESERVE)%nat ->
  ~ lv -> terminal x -> arr h `prefix_of` a -> (x = ItemFin -> a = arr h) ->
  channel_ok lv (snd (try_send x c)) (rds h) a (got h) f.
Proof using All.
  intros Hcl Hc Hb Hn Ht Hpre Hfin. destruct (try_send_stable x c) as [Hb' Ha'].
  split; [by rewrite Hb'|]. rewrite Ha'. intros Ha.
  destruct (terminal_fits _ _ _ _ _ _ x Hcl Hc Ha Hb) as [_ ->].
  destruct (Hcl c Hc Ha) as (ds & -> & Hl & He). exists ds, [x]. rewrite He.
  split_and!; try done. destruct x; [done|left; by rewrite Hfin|done].
Qed.

(** The stream [i] ends: its entry goes and a terminal item is queued. *)
Lemma core_terminal ss ps cs nh rds arr got fl i h c x arr' :
  core ss ps cs nh rds arr got fl -> ss !! i = Some h -> cs !! h = Some c -> terminal x ->
  (forall k, k <> h -> arr' k = arr k) -> arr h `prefix_of` arr' h -> (x = ItemFin -> arr' h = arr h) ->
  core (delete i ss) ps (<[h := snd (try_send x c)]> cs) nh rds arr' got fl.
Proof using All.
  intros Hco Hi Hc Ht Ho Hpre Hfin.
  assert (Hcl : clean cs rds arr got h) by (eapply core_live_clean; [done|left; eauto]).
  assert (Hn : ~ chan_live (delete i ss) ps h).
  { intros [[j [Hne Hj]%lookup_delete_Some]|(j & p & Hj & <-)].
    - apply Hne. by eapply co_inj_s.
    - by eapply co_cross. }
  assert (Hco' : core (delete i ss) ps cs nh rds arr got fl).
  { eapply core_shrink; [done| |done]. intros j k [_ ?]%lookup_delete_Some. done. }
  destruct (co_chan _ _ _ _ _ _ _ _ Hco h c Hc) as [Hb _].
  eapply core_channel; [exact Hco'|done|..].
  - intros k Hk. by rewrite Ho.
  - by eapply co_rd.
  - by eapply terminal_ok.
Qed.

(** Data is queued only while a place remains for a terminal item. *)
Lemma core_data ss ps cs nh rds arr got fl i h c bytes :
  core ss ps cs nh rds arr got fl -> ss !! i = Some h -> cs !! h = Some c ->
  (CONTROL_STREAM_QUEUE_TERMINAL_RESERVE < capacity c)%nat -> rx_alive c = true ->
  fst (try_send (ItemData bytes) c) = SendOk /\
  core ss ps (<[h := snd (try_send (ItemData bytes) c)]> cs) nh rds (<[h := arr h ++ bytes]> arr) got fl.
Proof using All.
  intros Hco Hi Hc Hcap Ha.
  assert (Hcl : clean cs rds arr got h) by (eapply core_live_clean; [done|left; eauto]).
  destruct (co_chan _ _ _ _ _ _ _ _ Hco h c Hc) as [Hb _]. rewrite capacity_spec in Hcap by done.
  destruct (Hcl c Hc Ha) as (ds & Hq & Hl & He). rewrite Hq, length_fmap, Hb in Hcap.
  unfold CONTROL_STREAM_QUEUE_TERMINAL_RESERVE in *.
  destruct (try_send_ok (ItemData bytes) c) as (Hs & Hq' & Hb' & Ha'); [done|rewrite Hq, length_fmap; lia|].
  split; [done|]. eapply core_channel; [exact Hco|done|..].
  - intros k Hk. by rewrite fn_lookup_insert_ne.
  - by eapply co_rd.
  - rewrite fn_lookup_insert. split; [by rewrite Hb'|]. intros _. rewrite Hq', Hq.
    assert (Heq : (got h ++ rest (rds h)) ++ concat (ds ++ [bytes]) = arr h ++ bytes).
    { rewrite concat_app. simpl. by rewrite app_nil_r, app_assoc, He. }
    exists (ds ++ [bytes]), []. rewrite fmap_app, app_nil_r.
    split_and!; try done; [rewrite length_app; simpl; lia|by left|by rewrite Heq].
Qed.

(** A channel whose reader is gone promises nothing. *)
Lemma core_arrive_gone ss ps cs nh rds arr got fl h c bytes :
  core ss ps cs nh rds arr got fl -> cs !! h = Some c -> rx_alive c = false ->
  core ss ps cs nh rds (<[h := arr h ++ bytes]> arr) got fl.
Proof using Type.
  intros Hco Hc Ha. rewrite <-(insert_id cs h c Hc). eapply core_channel; [exact Hco|done|..].
  - intros k Hk. by rewrite fn_lookup_insert_ne.
  - by eapply co_rd.
  - destruct (co_chan _ _ _ _ _ _ _ _ Hco h c Hc) as [Hb _]. split; [done|]. by rewrite Ha.
Qed.

Lemma core_drop_rx ss ps cs nh rds arr got fl h :
  core ss ps cs nh rds arr got fl -> core ss ps (alter drop_rx h cs) nh rds arr got fl.
Proof using All.
  intros Hco. rewrite alter_alt. destruct (cs !! h) as [c|] eqn:Hc; [|done].
  - eapply core_channel; [exact Hco|done|done|by eapply co_rd|].
    destruct (co_chan _ _ _ _ _ _ _ _ Hco h c Hc) as [Hb _]. destruct (drop_rx_spec c) as (_ & Hb' & Ha').
    split; [by rewrite Hb'|]. by rewrite Ha'.
Qed.

(** ** Closing *)

Lemma fold_alter_lookup (f : chan -> chan) hs (cs : gmap Handle chan) k :
  NoDup hs ->
  foldl (fun cs h => alter f h cs) cs hs !! k
  = if bool_decide (k ∈ hs) then f <$> cs !! k else cs !! k.
Proof using All.
  revert cs. induction hs as [|h hs IH]; intros cs Hnd; cbn [foldl].
  - case_bool_decide; [set_solver|done].
  - apply NoDup_cons in Hnd as [Hni Hnd]. rewrite IH by done.
    destruct (decide (k = h)) as [->|Hne].
    + rewrite (bool_decide_false (h ∈ hs)) by done. rewrite bool_decide_true by set_solver.
      apply lookup_alter_eq.
    + rewrite lookup_alter_ne by done. destruct (decide (k ∈ hs)).
      * by rewrite !bool_decide_true by set_solver.
      * by rewrite !bool_decide_false by set_solver.
Qed.

(** The handles of the two tables. *)
Definition handles (ss : gmap Z Handle) (ps : gmap Z PendingOpen) : list Handle :=
  (snd <$> map_to_list ss) ++ (po_inbound_tx <$> (snd <$> map_to_list ps)).

Lemma elem_of_handles ss ps h : h ∈ handles ss ps <-> chan_live ss ps h.
Proof using Type.
  unfold handles, chan_live. rewrite elem_of_app, !list_elem_of_fmap. split.
  - intros [([i k] & -> & Hk%elem_of_map_to_list)|(p & -> & Hp)]; [left; eauto|right].
    apply list_elem_of_fmap in Hp as ([i q] & -> & Hq%elem_of_map_to_list). eauto.
  - intros [[i Hi]|(i & p & Hi & <-)].
    + left. exists (i, h). split; [done|]. by apply elem_of_map_to_list.
    + right. exists p. split; [done|]. apply list_elem_of_fmap. exists (i, p). split; [done|].
      by apply elem_of_map_to_list.
Qed.

Lemma NoDup_values_inj {A B} (f : A -> B) (m : gmap Z A) :
  (forall i j x y, m !! i = Some x -> m !! j = Some y -> f x = f y -> i = j) ->
  NoDup (f <$> (snd <$> map_to_list m)).
Proof using Type.
  intros Hinj. rewrite <-list_fmap_compose. apply NoDup_fmap_2_strong; [|apply NoDup_map_to_list].
  intros [i x] [j y] Hi%elem_of_map_to_list Hj%elem_of_map_to_list He. simpl in He.
  assert (i = j) as -> by eauto. by simplify_eq.
Qed.

Lemma core_handles_NoDup ss ps cs nh rds arr got fl :
  core ss ps cs nh rds arr got fl -> NoDup (handles ss ps).
Proof using Type.
  intros Hco. apply NoDup_app. split_and!.
  - rewrite <-(list_fmap_id (snd <$> map_to_list ss)). apply (NoDup_values_inj id).
    intros i j x y Hi Hj He. unfold id in He. subst. by eapply co_inj_s.
  - intros h Hh Hp. apply list_elem_of_fmap in Hh as ([i k] & -> & Hk%elem_of_map_to_list).
    apply list_elem_of_fmap in Hp as (p & He & Hp). apply list_elem_of_fmap in Hp as ([j q] & -> & Hq%elem_of_map_to_list).
    simpl in *. subst. by eapply co_cross.
  - apply NoDup_values_inj. intros i j x y. by eapply co_inj_p.
Qed.

Lemma core_close ss ps cs nh rds arr got fl code :
  core ss ps cs nh rds arr got fl ->
  core ∅ ∅ (foldl (fun cs h => alter (fun c => snd (try_send (ItemReset code) c)) h cs) cs (handles ss ps))
    nh rds arr got fl.
Proof using All.
  intros Hco. pose proof (core_handles_NoDup _ _ _ _ _ _ _ _ Hco) as Hnd.
  assert (Hno : forall h, ~ chan_live ∅ ∅ h).
  { intros h [[? ?]|(? & ? & ? & ?)]; by simplify_map_eq. }
  pose proof Hco as [Hd Hl Hs Hp Hx Hr Hf Hc]. split; try done; try (intros; by simplify_map_eq).
  - intros h. rewrite fold_alter_lookup by done. rewrite <-Hd. case_bool_decide; [by rewrite fmap_is_Some|done].
  - intros h H. by apply Hno in H.
  - intros h c. rewrite fold_alter_lookup by done. case_bool_decide as Hin.
    + intros (c0 & Hc0 & ->)%fmap_Some_1. apply elem_of_handles in Hin.
      eapply terminal_ok; eauto using core_live_clean; [by destruct (Hc h c0 Hc0)|done].
    + intros Hc0. eapply channel_ok_dead; [|by apply Hc]. intros H. by apply Hno in H.
Qed.

(** ** Reading *)

Lemma rest_empty rd : (rd_offset rd <? length (rd_pending rd))%nat = false -> rest rd = [].
Proof using Type. intros H%Nat.ltb_ge. unfold rest. by apply drop_ge. Qed.

(** Reading from what is held back. *)
Lemma rest_take rd room :
  (rd_offset rd <? length (rd_pending rd))%nat = true ->
  let len := ((length (rd_pending rd) - rd_offset rd) `min` room)%nat in
  take len (rest rd)
    ++ rest (if (rd_offset rd + len =? length (rd_pending rd))%nat then mkRead (rd_rx rd) [] 0
             else mkRead (rd_rx rd) (rd_pending rd) (rd_offset rd + len)) = rest rd.
Proof using Type.
  intros H%Nat.ltb_lt len. unfold rest. destruct (Nat.eqb_spec (rd_offset rd + len) (length (rd_pending rd))); simpl.
  - rewrite app_nil_r. apply take_ge. rewrite length_drop. lia.
  - by rewrite <-drop_drop, take_drop.
Qed.
End invariant.

Section preservation.
Context `{mp : !Mpsc InboundItem, !MpscLaws InboundItem} `{fc : !RawCodec ControlStreamFrame}.

Record rt_inv (rt : Runtime) (rds : Handle -> ControlStreamRead) (arr got : Handle -> list Z)
    (fl : Handle -> bool) : Prop := {
  ri_core : core (streams rt) (pending_opens rt) (channels rt) (next_handle rt) rds arr got fl;
  ri_closed : closed rt = true -> streams rt = ∅ /\ pending_opens rt = ∅;
}.

Lemma chan_send_alter h x rt :
  snd (chan_send h x rt) = set_channels (alter (fun c => snd (try_send x c)) h) rt.
Proof using Type.
  unfold chan_send, set_channels. rewrite alter_alt. destruct rt as [???? ? ? ? cs ??]. cbn.
  destruct (cs !! h) as [c|]; [|done]. by destruct (try_send x c).
Qed.

Lemma fold_reset code hs rt :
  foldl (reset_one code) rt hs
  = set_channels (fun cs => foldl (fun cs h => alter (fun c => snd (try_send (ItemReset code) c)) h cs) cs hs) rt.
Proof using Type.
  revert rt. induction hs as [|h hs IH]; intros rt; cbn [foldl]; [by destruct rt|].
  rewrite IH. unfold reset_one. by rewrite chan_send_alter.
Qed.

Lemma close_all_inv code rt ev rt' rds arr got fl :
  close_all code rt = (ev, rt') -> rt_inv rt rds arr got fl ->
  rt_inv rt' rds arr got fl /\ closed rt' = true.
Proof using All.
  unfold close_all. destruct (closed rt) eqn:Ec; [by intros [= <- <-]|].
  rewrite !fold_reset. intros [= <- <-] [Hco _]. cbn. split; [|done]. split; [|done]. cbn.
  apply (core_close _ _ _ _ _ _ _ _ code) in Hco. unfold handles in Hco. by rewrite foldl_app in Hco.
Qed.

Lemma send_frame_inv sender f rt r ev rt' rds arr got fl :
  send_frame sender f rt = (r, ev, rt') -> rt_inv rt rds arr got fl -> rt_inv rt' rds arr got fl.
Proof using All.
  unfold send_frame. destruct (to_vec f) as [p|]; [|by intros [= <- <- <-]].
  destruct (_ <? _); [by intros [= <- <- <-]|].
  destruct (sender p); [by intros [= <- <- <-]|].
  destruct (close_all e rt) as [ev0 rt0] eqn:Ec. intros [= <- <- <-] Hi. by eapply close_all_inv.
Qed.

(** A channel just created. *)
Lemma fresh_clean ss ps cs nh rds arr got fl :
  core ss ps cs nh rds arr got fl ->
  ~ chan_live ss ps nh
  /\ clean (<[nh := channel (CONTROL_STREAM_QUEUE_CAPACITY + CONTROL_STREAM_QUEUE_TERMINAL_RESERVE)]> cs)
       rds arr got nh.
Proof using All.
  intros [Hd Hl ?? ? ? Hf Hc]. split; [intros H%Hl; lia|].
  intros c. rewrite lookup_insert_eq. intros [= <-] _. exists []. rewrite channel_queued.
  destruct (Hf nh) as (-> & -> & ->); [lia|]. split_and!; [done|simpl; lia|done].
Qed.

Lemma alloc_loop_frame fuel rt id rt' :
  alloc_loop fuel rt = Some (id, rt') -> exists i, rt' = set_next_id i rt.
Proof using Type.
  revert rt. induction fuel as [|fuel IH]; intros rt; cbn [alloc_loop]; [done|].
  assert (Hrec : forall i, alloc_loop fuel (set_next_id i rt) = Some (id, rt') -> exists j, rt' = set_next_id j rt).
  { intros i H. apply IH in H as [j ->]. by exists j. }
  destruct (_ =? 0); [by apply Hrec|]. destruct (_ && _); [|by apply Hrec]. intros [= <- <-]. eauto.
Qed.

Lemma open_begin_inv sender purpose rt r ev rt' rds arr got fl :
  open_begin sender purpose rt = Some (r, ev, rt') -> rt_inv rt rds arr got fl -> rt_inv rt' rds arr got fl.
Proof using All.
  unfold open_begin, check_open. intros H [Hco Hcl]. destruct (closed rt) eqn:Ec.
  { injection H as <- <- <-. split; [done|by intros _; apply Hcl]. }
  destruct (alloc_stream_id rt) as [[id rt1]|] eqn:Ea; [|done]. apply alloc_loop_frame in Ea as [i ->].
  cbn in H. destruct (send_frame _ _ _) as [[r1 ev1] rt2] eqn:Es. eapply send_frame_inv in Es.
  - destruct r1; simplify_eq; [done|]. destruct Es as [Hco2 Hcl2]. split; cbn.
    + eapply core_drop_rx, core_shrink; [done|done|]. intros j p [_ ?]%lookup_delete_Some. done.
    + intros [-> ->]%Hcl2. by rewrite delete_empty.
  - destruct (fresh_clean _ _ _ _ _ _ _ _ Hco) as [Hn Hclean]. split; cbn; [|by rewrite Ec].
    apply core_add_pending; cbn; [by apply core_new|done|lia|done].
Qed.

Lemma open_end_inv id h wake rt r rt' rds arr got fl :
  open_end id h wake rt = (r, rt') -> rt_inv rt rds arr got fl -> rt_inv rt' rds arr got fl.
Proof using All.
  intros H [Hco Hcl]. assert (Hi : rt_inv (set_pending (delete id) (set_opening (fun s => s ∖ {[h]}) rt)) rds arr got fl).
  { split; cbn; [|by intros [-> ->]%Hcl; rewrite delete_empty].
    eapply core_shrink; [done|done|]. intros j p [_ ?]%lookup_delete_Some. done. }
  destruct Hi as [Hco' Hcl'].
  unfold open_end in H. destruct wake as [[]| |]; simplify_eq; split; try done; cbn; by apply core_drop_rx.
Qed.

Lemma open_insert_inv sender l id purpose rt r ev rt' rds arr got fl :
  closed rt = false ->
  open_insert sender l id purpose rt = (r, ev, rt') -> rt_inv rt rds arr got fl -> rt_inv rt' rds arr got fl.
Proof using All.
  unfold open_insert. intros Ec H [Hco Hcl]. destruct (bool_decide _); [by eapply send_frame_inv|]. cbn in H.
  destruct (fresh_clean _ _ _ _ _ _ _ _ Hco) as [Hn Hclean].
  assert (Hco' : core (<[id := next_handle rt]> (streams rt)) (pending_opens rt)
    (<[next_handle rt := channel (CONTROL_STREAM_QUEUE_CAPACITY + CONTROL_STREAM_QUEUE_TERMINAL_RESERVE)]> (channels rt))
    (S (next_handle rt)) rds arr got fl).
  { apply core_add_stream; [by apply core_new|done|lia|done]. }
  destruct (match ls_prepare l with Some p => p purpose | None => Ok tt end) as [|e];
    destruct (send_frame _ _ _) as [[r1 ev1] rt1] eqn:Es; (eapply send_frame_inv in Es;
      [by destruct r1; simplify_eq|]); split; cbn; try (by rewrite Ec); [done|].
  apply core_drop_rx. eapply core_shrink; [done| |done]. intros j k [_ ?]%lookup_delete_Some. done.
Qed.

Lemma handle_open_inv sender id purpose rt r ev rt' rds arr got fl :
  closed rt = false ->
  handle_open sender id purpose rt = (r, ev, rt') -> rt_inv rt rds arr got fl -> rt_inv rt' rds arr got fl.
Proof using All.
  unfold handle_open. intros Ec H Hi. destruct (negb _); [by eapply send_frame_inv|].
  destruct (_ || _); [by eapply send_frame_inv|]. destruct (listener rt) as [l|]; [|by eapply send_frame_inv].
  destruct (negb _); [by eapply send_frame_inv|]. by eapply open_insert_inv.
Qed.

Lemma handle_open_resp_inv id result rt r ev rt' rds arr got fl :
  closed rt = false ->
  handle_open_resp id result rt = (r, ev, rt') -> rt_inv rt rds arr got fl -> rt_inv rt' rds arr got fl.
Proof using All.
  unfold handle_open_resp, resp_insert. intros Ec H [Hco Hcl].
  destruct (pending_opens rt !! id) as [p|] eqn:Ep; [|by simplify_eq].
  assert (Hco' : core (streams rt) (delete id (pending_opens rt)) (channels rt) (next_handle rt) rds arr got fl).
  { eapply core_shrink; [done|done|]. intros j q [_ ?]%lookup_delete_Some. done. }
  destruct (bool_decide (result = ResSuccess)); [destruct (bool_decide _)|]; simplify_eq; split; cbn;
    try done; try (by rewrite Ec).
  apply core_add_stream; [done| | |].
  - intros [[j Hj]|(j & q & Hj & He)]; [by eapply (co_cross _ _ _ _ _ _ _ _ Hco)|].
    apply lookup_delete_Some in Hj as [Hne Hj]. apply Hne. by eapply (co_inj_p _ _ _ _ _ _ _ _ Hco).
  - eapply (co_live _ _ _ _ _ _ _ _ Hco). right. eauto.
  - eapply core_live_clean; [exact Hco|]. right. eauto.
Qed.

(** Ending a stream by a terminal item. *)
Lemma end_stream_inv id h x rt rds arr arr' got fl :
  rt_inv rt rds arr got fl -> closed rt = false -> streams rt !! id = Some h -> terminal x ->
  (forall k, k <> h -> arr' k = arr k) -> arr h `prefix_of` arr' h -> (x = ItemFin -> arr' h = arr h) ->
  rt_inv (snd (chan_send h x (set_streams (delete id) rt))) rds arr' got fl.
Proof using All.
  intros [Hco Hcl] Ec Hi Ht Ho Hpre Hfin. rewrite chan_send_alter.
  destruct (proj2 (co_dom _ _ _ _ _ _ _ _ Hco h)) as [c Hc].
  { eapply co_live; [done|]. left. eauto. }
  split; cbn; [|by rewrite Ec]. rewrite alter_alt, Hc. by eapply core_terminal.
Qed.

Lemma finish_stream_inv id rt rds arr got fl :
  rt_inv rt rds arr got fl -> closed rt = false -> rt_inv (finish_stream id rt) rds arr got fl.
Proof using All.
  intros Hi Ec. unfold finish_stream. destruct (streams rt !! id) as [h|] eqn:E; [|done].
  by eapply end_stream_inv.
Qed.

Lemma reset_stream_inv id code rt rds arr got fl :
  rt_inv rt rds arr got fl -> closed rt = false -> rt_inv (reset_stream id code rt) rds arr got fl.
Proof using All.
  intros Hi Ec. unfold reset_stream. destruct (streams rt !! id) as [h|] eqn:E; [|done].
  by eapply end_stream_inv.
Qed.

Lemma enqueue_inv id h bytes rt d rt' rds arr got fl :
  rt_inv rt rds arr got fl -> closed rt = false -> streams rt !! id = Some h ->
  enqueue id h bytes rt = (d, rt') -> rt_inv rt' rds (<[h := arr h ++ bytes]> arr) got fl.
Proof using All.
  intros Hi Ec Hs. pose proof Hi as [Hco Hcl].
  destruct (proj2 (co_dom _ _ _ _ _ _ _ _ Hco h)) as [c Hc].
  { eapply co_live; [done|]. left. eauto. }
  assert (Hover : rt_inv (snd (chan_send h (ItemReset P2pErrorCode.OutOfLimit) (set_streams (delete id) rt)))
                    rds (<[h := arr h ++ bytes]> arr) got fl).
  { eapply end_stream_inv; try done.
    - intros k Hk. by rewrite fn_lookup_insert_ne.
    - rewrite fn_lookup_insert. by apply prefix_app_r. }
  unfold enqueue, chan_capacity. rewrite Hc. destruct (Nat.leb_spec (capacity c) CONTROL_STREAM_QUEUE_TERMINAL_RESERVE).
  { by intros [= <- <-]. }
  unfold chan_send at 1. rewrite Hc. destruct (rx_alive c) eqn:Ea.
  - destruct (core_data _ _ _ _ _ _ _ _ id h c bytes Hco Hs Hc) as [Hok Hco']; [done..|].
    destruct (try_send (ItemData bytes) c) as [r c']. simpl in Hok, Hco'. subst r.
    intros [= <- <-]. split; cbn; [done|by rewrite Ec].
  - rewrite try_send_closed by done. intros [= <- <-]. split; cbn; [|by rewrite Ec].
    rewrite insert_id by done. eapply core_arrive_gone; [|done|done].
    eapply core_shrink; [done| |done]. intros j k [_ ?]%lookup_delete_Some. done.
Qed.

Lemma deliver_inv sender id bytes rt r ev rt' rds arr got fl :
  rt_inv rt rds arr got fl -> closed rt = false -> deliver sender id bytes rt = (r, ev, rt') ->
  rt_inv rt' rds (arrive ((fun h => (h, bytes)) <$> streams rt !! id) arr) got fl.
Proof using All.
  intros Hi Ec. unfold deliver. destruct (streams rt !! id) as [h|] eqn:E; cbn; [|by intros [= <- <- <-]].
  destruct (enqueue id h bytes rt) as [d rt1] eqn:Ee. eapply enqueue_inv in Ee; [|done..].
  destruct d; [by intros [= <- <- <-]|..]; intros H; by eapply send_frame_inv.
Qed.

Lemma on_data_inv sender payload rt r ev rt' rds arr got fl :
  rt_inv rt rds arr got fl -> on_data sender payload rt = (r, ev, rt') ->
  rt_inv rt' rds (arrive (arrival payload rt) arr) got fl.
Proof using All.
  intros Hi. unfold on_data, arrival, check_open. destruct (_ <? _).
  { cbn. destruct (close_all _ _) as [ev0 rt0] eqn:Ec. intros [= <- <- <-]. by eapply close_all_inv. }
  destruct (closed rt) eqn:Ec; [by intros [= <- <- <-]|]. cbn.
  destruct (clone_from_slice payload) as [f|]; [|by intros [= <- <- <-]].
  destruct f as [id p|id x|id b|id|id x|id x]; cbn.
  - intros H. by eapply handle_open_inv.
  - intros H. by eapply handle_open_resp_inv.
  - intros H. by eapply deliver_inv.
  - intros [= <- <- <-]. by apply finish_stream_inv.
  - intros [= <- <- <-]. by apply reset_stream_inv.
  - by intros [= <- <- <-].
Qed.

(** Taking an item off the queue keeps the account of the bytes. *)
Lemma recv_ok lv c x c' rd rd' a g got' f f' :
  channel_ok lv c rd a g f -> recv c = (x, c') -> rest rd = [] ->
  match x with
  | Some (ItemData bytes) => got' ++ rest rd' = g ++ bytes /\ f' = f
  | Some ItemFin | None => got' ++ rest rd' = g /\ f' = f
  | Some (ItemReset _) => got' ++ rest rd' = g /\ f' = true
  end ->
  channel_ok lv c' rd' a got' f'.
Proof using All.
  intros [Hb Hq] Hr Hrest Hx. destruct (queued c) as [|y q] eqn:Eq.
  - rewrite recv_nil in Hr by done. injection Hr as <- <-. destruct Hx as [Hg ->].
    split; [done|]. intros Ha. rewrite Hg, Eq. specialize (Hq Ha). by rewrite Hrest, app_nil_r in Hq.
  - destruct (recv_cons c y q Eq) as (Hy & Hq' & Hb' & Ha'). rewrite Hr in *. simpl in *. subst x.
    split; [by rewrite Hb'|]. rewrite Ha', Hq'. intros Ha. specialize (Hq Ha).
    rewrite Hrest, app_nil_r in Hq. destruct Hq as (ds & tl & Heq & Hl & Ht & Hm & Hp).
    destruct ds as [|d ds]; simpl in Heq.
    + rewrite app_nil_r in Hm, Hp. destruct tl as [|t tl]; [done|]. simplify_eq.
      assert (Hnl : ~ lv) by (intros Hlv; by specialize (Ht Hlv)).
      exists [], []. simpl. destruct t as [b| |code]; [done| |]; destruct (queued c'); try done;
        destruct Hx as [-> ->]; rewrite app_nil_r; split_and!; try done; tauto.
    + simplify_eq. destruct Hx as [-> ->]. exists ds, tl. simpl in *.
      rewrite <-app_assoc. split_and!; try done. lia.
Qed.

Lemma core_ext ss ps cs nh rds arr got fl rds' arr' got' fl' :
  core ss ps cs nh rds arr got fl ->
  (forall k, rds' k = rds k /\ arr' k = arr k /\ got' k = got k /\ fl' k = fl k) ->
  core ss ps cs nh rds' arr' got' fl'.
Proof using Type.
  intros [Hd Hl Hs Hp Hx Hr Hf Hc] He. split; eauto.
  - intros k. by destruct (He k) as (-> & _).
  - intros k Hk. destruct (He k) as (-> & -> & -> & _). eauto.
  - intros k c Hk. destruct (He k) as (-> & -> & -> & ->). eauto.
Qed.

(** Reading what the reader holds back leaves the channels alone. *)
Lemma core_read_held ss ps cs nh rds arr got fl h room :
  core ss ps cs nh rds arr got fl ->
  (rd_offset (rds h) <? length (rd_pending (rds h)))%nat = true ->
  let len := ((length (rd_pending (rds h)) - rd_offset (rds h)) `min` room)%nat in
  core ss ps cs nh
    (<[h := if (rd_offset (rds h) + len =? length (rd_pending (rds h)))%nat then mkRead h [] 0
            else mkRead h (rd_pending (rds h)) (rd_offset (rds h) + len)]> rds)
    arr (<[h := got h ++ take len (drop (rd_offset (rds h)) (rd_pending (rds h)))]> got)
    (<[h := fl h || false]> fl).
Proof using All.
  intros Hco Eo len. destruct (cs !! h) as [c|] eqn:Hc.
  - rewrite <-(insert_id cs h c Hc). eapply core_channel; [exact Hco|done|..].
    + intros k Hk. by rewrite !fn_lookup_insert_ne.
    + rewrite fn_lookup_insert. by destruct (_ =? _)%nat.
    + rewrite !fn_lookup_insert, orb_false_r.
      destruct (co_chan _ _ _ _ _ _ _ _ Hco h c Hc) as [Hb Hq]. split; [done|]. intros Ha.
      rewrite <-app_assoc. pose proof (rest_take (rds h) room Eo) as Hr. cbv zeta in Hr. fold len in Hr.
      rewrite (co_rd _ _ _ _ _ _ _ _ Hco) in Hr. unfold rest in Hr at 1. rewrite Hr. by apply Hq.
  - exfalso. destruct (co_fresh _ _ _ _ _ _ _ _ Hco h) as (_ & _ & Hr).
    { apply Nat.nlt_ge. intros [c Hc']%(co_dom _ _ _ _ _ _ _ _ Hco). congruence. }
    apply Nat.ltb_lt in Eo. apply (f_equal length) in Hr. unfold rest in Hr. rewrite length_drop in Hr. simpl in Hr. lia.
Qed.

(** Every read accounts for its bytes. *)
Lemma poll_read_inv h room rt r rd rt' rds arr got fl :
  rt_inv rt rds arr got fl -> poll_read room (rds h) rt = (r, rd, rt') ->
  rt_inv rt' (<[h := rd]> rds) arr (<[h := got h ++ read_bytes r]> got)
    (<[h := fl h || read_failed r]> fl).
Proof using All.
  intros [Hco Hcl]. unfold poll_read. rewrite (co_rd _ _ _ _ _ _ _ _ Hco).
  destruct (rd_offset (rds h) <? length (rd_pending (rds h)))%nat eqn:Eo.
  { intros [= <- <- <-]. split; [by apply core_read_held|done]. }
  apply rest_empty in Eo. destruct (channels rt !! h) as [c|] eqn:Hc.
  - destruct (recv c) as [x c'] eqn:Er.
    assert (Hgo : forall rd' r', rd_rx rd' = h ->
      match x with
      | Some (ItemData bytes) => (got h ++ read_bytes r') ++ rest rd' = got h ++ bytes /\ read_failed r' = false
      | Some ItemFin | None => (got h ++ read_bytes r') ++ rest rd' = got h /\ read_failed r' = false
      | Some (ItemReset _) => (got h ++ read_bytes r') ++ rest rd' = got h /\ read_failed r' = true
      end ->
      rt_inv (set_channels <[h := c']> rt) (<[h := rd']> rds) arr (<[h := got h ++ read_bytes r']> got)
        (<[h := fl h || read_failed r']> fl)).
    { intros rd' r' Hrx Hx. split; [|done]. cbn. eapply core_channel; [exact Hco|done|..].
      - intros k Hk. by rewrite !fn_lookup_insert_ne.
      - by rewrite fn_lookup_insert.
      - rewrite !fn_lookup_insert. eapply recv_ok; [by apply (co_chan _ _ _ _ _ _ _ _ Hco)|done|done|].
        destruct x as [[]|]; destruct Hx as [-> ->]; by rewrite ?orb_false_r, ?orb_true_r. }
    pose proof (co_rd _ _ _ _ _ _ _ _ Hco h) as Hrx.
    destruct x as [[bytes| |code]|]; [| | |destruct (has_sender _ _)]; intros [= <- <- <-]; apply Hgo; cbn [read_bytes read_failed];
      rewrite ?app_nil_r, ?Eo, ?app_nil_r; try done.
    + by destruct (_ <? _)%nat.
    + split; [|done]. rewrite <-app_assoc. f_equal.
      destruct (Nat.ltb_spec (length bytes `min` room) (length bytes)).
      * unfold rest. simpl. apply take_drop.
      * rewrite Eo, app_nil_r. apply take_ge. lia.
  - intros [= <- <- <-]. split; [|done]. eapply core_ext; [exact Hco|]. intros k.
    cbn. rewrite app_nil_r, orb_false_r. destruct (decide (k = h)) as [->|Hne];
      [by rewrite !fn_lookup_insert|by rewrite !fn_lookup_insert_ne].
Qed.

Definition world_inv (w : World) : Prop :=
  rt_inv (w_rt w) (w_readers w) (w_arrived w) (w_got w) (w_failed w).

Lemma world_new_inv b : world_inv (world_new b).
Proof using All.
  split; [|done]. split; cbn; try done.
  - intros h. rewrite lookup_empty. split; [by intros []|lia].
  - intros h [[i ?]|(i & p & ? & _)]; by simplify_map_eq.
Qed.

Lemma cs_step_inv w w' : world_inv w -> cs_step w w' -> world_inv w'.
Proof using All.
  unfold world_inv. intros Hi Hs.
  destruct Hs as [l w r rt H|sender purpose w r ev rt H|id h wake w r rt H|sender payload w r ev rt H
    |code w ev rt H|h room w r rd rt H|h w]; cbn.
  - unfold listen_with_prepare in H. destruct (check_open _); simplify_eq; [|done].
    destruct Hi as [Hco Hcl]. by split.
  - by eapply open_begin_inv.
  - by eapply open_end_inv.
  - by eapply on_data_inv.
  - by eapply close_all_inv.
  - by eapply poll_read_inv.
  - destruct Hi as [Hco Hcl]. split; cbn; [by apply core_drop_rx|done].
Qed.

Lemma cs_reachable_inv b w : cs_reachable b w -> world_inv w.
Proof using All. induction 1; eauto using world_new_inv, cs_step_inv. Qed.

Lemma has_sender_live rt h : has_sender rt h = true <-> chan_live (streams rt) (pending_opens rt) h.
Proof using Type.
  unfold has_sender, chan_live. rewrite orb_true_iff, !existsb_exists. split.
  - intros [([i k] & Hin & He%bool_decide_eq_true_1)|([i p] & Hin & He%bool_decide_eq_true_1)];
      apply list_elem_of_In, elem_of_map_to_list in Hin; simpl in He; subst; eauto.
  - intros [[i Hi]|(i & p & Hi & He)]; [left; exists (i, h)|right; exists (i, p)];
      (split; [by apply list_elem_of_In, elem_of_map_to_list|by apply bool_decide_eq_true_2]).
Qed.

Lemma poll_read_channel room rd rt r rd' rt' h c :
  poll_read room rd rt = (r, rd', rt') -> channels rt !! h = Some c ->
  exists c', channels rt' !! h = Some c' /\ rx_alive c' = rx_alive c.
Proof using All.
  unfold poll_read. intros H Hc. destruct (_ <? _)%nat; [simplify_eq; eauto|].
  destruct (channels rt !! rd_rx rd) as [c0|] eqn:Hc0; [|simplify_eq; eauto].
  destruct (recv c0) as [x c1] eqn:Er.
  assert (Ha : rx_alive c1 = rx_alive c0).
  { destruct (queued c0) as [|y q] eqn:Eq; [by rewrite recv_nil in Er by done; simplify_eq|].
    destruct (recv_cons c0 y q Eq) as (_ & _ & _ & Ha). by rewrite Er in Ha. }
  assert (Hrt : channels rt' = <[rd_rx rd := c1]> (channels rt)).
  { destruct x as [[]|]; [..|destruct (has_sender _ _)]; by simplify_eq. }
  rewrite Hrt. destruct (decide (h = rd_rx rd)) as [->|Hne].
  - rewrite lookup_insert_eq. exists c1. by simplify_eq.
  - rewrite lookup_insert_ne by done. eauto.
Qed.

Lemma take_length_min {A} (l : list A) n : take (length l `min` n) l = take n l.
Proof using Type.
  destruct (decide (length l <= n)%nat); [rewrite !take_ge by lia; done|].
  by rewrite Nat.min_r by lia.
Qed.

(** The reader of the channel [h] at its next item. *)
Lemma poll_read_item w h room r rd rt c :
  world_inv w -> poll_read room (w_readers w h) (w_rt w) = (r, rd, rt) ->
  channels (w_rt w) !! h = Some c ->
  (exists b, b <> [] /\ r = ReadReady (take room b) /\ rest (w_readers w h) = b)
  \/ (rest (w_readers w h) = [] /\
      match queued c with
      | [] => r = (if has_sender (w_rt w) h then ReadPending else ReadReady [])
      | ItemData b :: _ => r = ReadReady (take room b)
      | ItemFin :: _ => r = ReadReady []
      | ItemReset code :: _ => r = ReadError code
      end).
Proof using All.
  intros [Hco _]. unfold poll_read. rewrite (co_rd _ _ _ _ _ _ _ _ Hco). intros H Hc.
  destruct (_ <? _)%nat eqn:Eo.
  - left. injection H as <- _ _. exists (rest (w_readers w h)). apply Nat.ltb_lt in Eo. unfold rest.
    split_and!; [|f_equal|done].
    + intros He%(f_equal length). rewrite length_drop in He. simpl in He. lia.
    + rewrite <-length_drop. apply take_length_min.
  - right. split; [by apply rest_empty|]. rewrite Hc in H. destruct (queued c) as [|x q] eqn:Eq.
    + rewrite recv_nil in H by done. cbn in H. by destruct (has_sender _ h); simplify_eq.
    + destruct (recv_cons c x q Eq) as (Hx & _). destruct (recv c) as [y c1]. simpl in Hx. subst y.
      destruct x as [b| |code]; simplify_eq; try done. f_equal. apply take_length_min.
Qed.

(** C5: a control stream delivers its bytes in order and without silent loss:
    in every history of frames, opens, closes and reads, what a stream's reader
    has returned is a prefix of the bytes that arrived for the stream while it
    was open; and an end of file is returned, before any error, only when the
    stream has ended and everything that arrived has been read (a frame
    without data excepted). *)
Theorem control_stream_integrity b w h room r rd rt c :
  cs_reachable b w -> poll_read room (w_readers w h) (w_rt w) = (r, rd, rt) ->
  channels (w_rt w) !! h = Some c -> rx_alive c = true ->
  w_got w h ++ read_bytes r `prefix_of` w_arrived w h
  /\ (r = ReadReady [] -> (0 < room)%nat -> w_failed w h = false ->
      (forall q, queued c <> ItemData [] :: q) ->
      w_got w h = w_arrived w h /\ ~ chan_live (streams (w_rt w)) (pending_opens (w_rt w)) h).
Proof using All.
  intros Hr Hp Hc Ha. pose proof (cs_reachable_inv _ _ Hr) as Hi. split.
  - destruct (poll_read_channel _ _ _ _ _ _ _ _ Hp Hc) as (c' & Hc' & Ha').
    pose proof (poll_read_inv h room _ _ _ _ _ _ _ _ Hi Hp) as [Hco' _].
    destruct (co_chan _ _ _ _ _ _ _ _ Hco' h c' Hc') as [_ Hq]. rewrite !fn_lookup_insert, Ha', Ha in Hq.
    destruct Hq as (ds & tl & _ & _ & _ & _ & Hpre); [done|].
    etrans; [|exact Hpre]. rewrite <-app_assoc. by apply prefix_app_r.
  - intros -> Hroom Hf Hne. pose proof Hi as [Hco _].
    destruct (co_chan _ _ _ _ _ _ _ _ Hco h c Hc) as [_ Hq].
    destruct (Hq Ha) as (ds & tl & Heq & _ & Ht & Hm & _).
    destruct (poll_read_item _ _ _ _ _ _ _ Hi Hp Hc) as [(x & Hx & He & _)|[Hrest Hitem]].
    { destruct room, x; try done; lia. }
    rewrite Hrest, app_nil_r in Hm. destruct ds as [|d ds]; simpl in *.
    + rewrite app_nil_r in Hm. destruct tl as [|[| |] tl]; rewrite Heq in *; try done.
      * destruct (has_sender _ h) eqn:Eh; [done|]. rewrite <-not_true_iff_false, has_sender_live in Eh.
        destruct Hm as [->|[? _]]; [done|congruence].
      * destruct tl; [|done]. split; [destruct Hm; congruence|]. intros Hl. by specialize (Ht Hl).
    + rewrite Heq in *. destruct d; [by destruct (Hne ((ItemData <$> ds) ++ tl))|]. by destruct room; [lia|].
Qed.

(** No reader waits in vain: a reader is told to wait only while its stream,
    or the call that opens it, is in the runtime's tables; in particular, once
    the runtime is closed no reader waits, and a reader that has not yet failed
    then sees the rest of its data followed by the reset. *)
Theorem control_stream_no_lost_reader b w h room r rd rt c :
  cs_reachable b w -> poll_read room (w_readers w h) (w_rt w) = (r, rd, rt) ->
  channels (w_rt w) !! h = Some c -> rx_alive c = true ->
  (r = ReadPending -> chan_live (streams (w_rt w)) (pending_opens (w_rt w)) h /\ closed (w_rt w) = false)
  /\ (forall code, chan_live (streams (w_rt w)) (pending_opens (w_rt w)) h -> closed (w_rt w) = false ->
      exists c', channels (snd (close_all code (w_rt w))) !! h = Some c'
                 /\ queued c' = queued c ++ [ItemReset code]).
Proof using All.
  intros Hr Hp Hc Ha. pose proof (cs_reachable_inv _ _ Hr) as Hi. pose proof Hi as [Hco Hcl]. split.
  - intros ->. assert (Hlv : chan_live (streams (w_rt w)) (pending_opens (w_rt w)) h).
    { destruct (poll_read_item _ _ _ _ _ _ _ Hi Hp Hc) as [(x & _ & ? & _)|[_ Hitem]]; [done|].
      destruct (queued c) as [|[]]; try done. apply has_sender_live. by destruct (has_sender _ h). }
    split; [done|]. destruct (closed (w_rt w)); [|done]. destruct (Hcl eq_refl) as [E1 E2]. rewrite E1, E2 in Hlv.
    destruct Hlv as [[? ?]|(? & ? & ? & ?)]; by simplify_map_eq.
  - intros code Hlv Ec. exists (snd (try_send (ItemReset code) c)). unfold close_all. rewrite Ec, !fold_reset. cbn.
    rewrite <-foldl_app. fold (handles (streams (w_rt w)) (pending_opens (w_rt w))).
    rewrite fold_alter_lookup by (by eapply core_handles_NoDup).
    rewrite bool_decide_true by (by apply elem_of_handles). rewrite Hc. split; [done|].
    eapply terminal_fits; [by eapply core_live_clean|done|done|by apply (co_chan _ _ _ _ _ _ _ _ Hco h c Hc)].
Qed.
End preservation.

(** ** Stream identifiers *)

Lemma land_1_mod x : Z.land x 1 = x mod 2.
Proof. change 1 with (Z.ones 1). by rewrite Z.land_ones by lia. Qed.

Section stream_ids.
Context `{mp : !Mpsc InboundItem}.

(** The identifiers [k] iterations of the loop look at. *)
Definition visited (n : Z) (k : nat) : list Z := (fun j => (n + 2 * Z.of_nat j) mod 2 ^ 32) <$> seq 0 k.

Lemma visited_NoDup n k : Z.of_nat k <= 2 ^ 31 -> NoDup (visited n k).
Proof using Type.
  intros Hk. apply NoDup_fmap_2_strong; [|apply NoDup_seq].
  intros i j [_ Hi]%elem_of_seq [_ Hj]%elem_of_seq He.
  pose proof (Z.div_mod (n + 2 * Z.of_nat i) (2 ^ 32)). pose proof (Z.div_mod (n + 2 * Z.of_nat j) (2 ^ 32)). nia.
Qed.

Lemma visited_S n k : is_u32 n -> visited n (S k) = n :: visited (wrapping_add_u32 n 2) k.
Proof using Type.
  intros Hn. unfold visited. cbn [seq fmap list_fmap]. f_equal.
  - unfold is_u32, u32_max in Hn. rewrite Z.mod_small; lia.
  - rewrite <-fmap_S_seq, <-list_fmap_compose. apply list_fmap_ext. intros _ j _. simpl.
    unfold wrapping_add_u32, u32_max. change (4294967295 + 1) with (2 ^ 32). rewrite Zplus_mod_idemp_l. f_equal. lia.
Qed.

Lemma wrapping_add_u32_range a b : is_u32 (wrapping_add_u32 a b).
Proof using Type. unfold is_u32, wrapping_add_u32, u32_max. pose proof (Z.mod_pos_bound (a + b) (4294967295 + 1)). lia. Qed.

(** The loop finds the first visited identifier that is neither 0 nor used. *)
Lemma alloc_loop_spec fuel rt :
  is_u32 (next_stream_id rt) -> Z.land (next_stream_id rt) 1 = local_stream_id_parity rt ->
  match alloc_loop fuel rt with
  | Some (id, rt') => is_u32 id /\ id <> 0 /\ Z.land id 1 = local_stream_id_parity rt
      /\ pending_opens rt !! id = None /\ streams rt !! id = None
      /\ is_u32 (next_stream_id rt') /\ Z.land (next_stream_id rt') 1 = local_stream_id_parity rt
  | None => forall id, id ∈ visited (next_stream_id rt) fuel ->
      id = 0 \/ is_Some (pending_opens rt !! id) \/ is_Some (streams rt !! id)
  end.
Proof using Type.
  revert rt. induction fuel as [|fuel IH]; intros rt Hn Hpar; cbn [alloc_loop].
  { intros id. unfold visited. simpl. by rewrite elem_of_nil. }
  set (rt1 := set_next_id (wrapping_add_u32 (next_stream_id rt) 2) rt).
  assert (Hpar1 : Z.land (next_stream_id rt1) 1 = local_stream_id_parity rt1).
  { cbn. rewrite <-Hpar, !land_1_mod. unfold wrapping_add_u32, u32_max.
    rewrite Z.mod_mod_divide by (by exists 2147483648).
    by rewrite <-Zplus_mod_idemp_r, Z.add_0_r. }
  specialize (IH rt1 (wrapping_add_u32_range _ _) Hpar1).
  assert (Hrec : next_stream_id rt = 0 \/ is_Some (pending_opens rt !! next_stream_id rt)
                 \/ is_Some (streams rt !! next_stream_id rt) ->
    match alloc_loop fuel rt1 with
    | Some (id, rt') => is_u32 id /\ id <> 0 /\ Z.land id 1 = local_stream_id_parity rt
        /\ pending_opens rt !! id = None /\ streams rt !! id = None
        /\ is_u32 (next_stream_id rt') /\ Z.land (next_stream_id rt') 1 = local_stream_id_parity rt
    | None => forall id, id ∈ visited (next_stream_id rt) (S fuel) ->
        id = 0 \/ is_Some (pending_opens rt !! id) \/ is_Some (streams rt !! id)
    end).
  { intros Hused. destruct (alloc_loop fuel rt1) as [[id rt']|]; [exact IH|].
    intros id. rewrite visited_S, elem_of_cons by done. intros [->|Hin]; [done|by apply IH]. }
  destruct (Z.eqb_spec (next_stream_id rt) 0) as [E0|E0]; [apply Hrec; auto|].
  destruct (pending_opens rt !! next_stream_id rt) eqn:Ep.
  { rewrite bool_decide_false by (cbn; rewrite ?Ep; done). apply Hrec. right. left. rewrite ?Ep. by eexists. }
  destruct (streams rt !! next_stream_id rt) eqn:Es.
  { rewrite (bool_decide_false (streams rt1 !! _ = None)) by (cbn; rewrite ?Es; done). rewrite andb_false_r.
    apply Hrec. right. right. rewrite ?Es. by eexists. }
  rewrite !bool_decide_true by done. cbn [andb]. split_and!; try done; [apply wrapping_add_u32_range].
Qed.

(** Opening always finds a stream identifier: as long as fewer than 2^31 - 1
    streams are in use, the allocation loop ends, after at most two iterations
    more than there are streams, with an identifier that is not 0, is not in
    use and has the runtime's own parity, so that the other runtime accepts it
    as a peer's and never allocates it; and the counter stays in step for the
    next allocation. *)
Theorem alloc_stream_id_fresh rt peer :
  is_u32 (next_stream_id rt) -> Z.land (next_stream_id rt) 1 = local_stream_id_parity rt ->
  Z.of_nat (size (pending_opens rt) + size (streams rt)) < 2 ^ 31 - 1 ->
  local_stream_id_parity peer <> local_stream_id_parity rt ->
  exists id rt', alloc_stream_id rt = Some (id, rt') /\ is_u32 id /\ id <> 0
    /\ pending_opens rt !! id = None /\ streams rt !! id = None
    /\ is_peer_stream_id peer id = true /\ is_peer_stream_id rt id = false
    /\ is_u32 (next_stream_id rt') /\ Z.land (next_stream_id rt') 1 = local_stream_id_parity rt.
Proof using Type.
  intros Hn Hpar Hsz Hpeer. unfold alloc_stream_id.
  set (fuel := (2 + size (pending_opens rt) + size (streams rt))%nat).
  pose proof (alloc_loop_spec fuel rt Hn Hpar) as Hspec. destruct (alloc_loop fuel rt) as [[id rt']|].
  - destruct Hspec as (Hu & H0 & Hp & Hpe & Hst & Hn' & Hp'). exists id, rt'. unfold is_peer_stream_id.
    rewrite Hp, (proj2 (Z.eqb_neq id 0)), Z.eqb_refl by done.
    rewrite (proj2 (Z.eqb_neq _ _)) by (intros ?; by apply Hpeer). done.
  - exfalso. set (l := visited (next_stream_id rt) fuel) in *.
    assert (Hnd : NoDup l) by (apply visited_NoDup; unfold fuel; lia).
    assert (Hsub : l ⊆+ 0 :: (map_to_list (pending_opens rt)).*1 ++ (map_to_list (streams rt)).*1).
    { apply NoDup_submseteq; [done|]. intros id [->|[[x Hx]|[x Hx]]]%Hspec; rewrite elem_of_cons, elem_of_app; [by left|right..];
        [left; apply list_elem_of_fmap; exists (id, x)|right; apply list_elem_of_fmap; exists (id, x)];
        by rewrite elem_of_map_to_list. }
    apply submseteq_length in Hsub. cbn [length] in Hsub.
    rewrite length_app, !length_fmap, !length_map_to_list in Hsub.
    unfold l, visited in Hsub. rewrite length_fmap, length_seq in Hsub. unfold fuel in Hsub. lia.
Qed.
End stream_ids.

(** ** The bytes a writer sends *)

Section writing.
Context `{fc : !RawCodec ControlStreamFrame}.

Definition accepted (r : WritePoll) (buf : list Z) : list Z :=
  match r with WriteReady n => take n buf | _ => [] end.

(** A caller that offers the same bytes again while a write is pending, as
    [AsyncWrite] expects.  [cur] is the buffer offered last, [acc] the bytes
    the caller was told are written, [sent] the payloads the data sender
    accepted. *)
Inductive wr_run (id : Z) : ControlStreamWrite -> list Z -> list Z -> list (list Z) -> Prop :=
| wr_start : wr_run id (write_new id) [] [] []
| wr_poll before after p buf w cur acc sent r out w' :
    wr_run id w cur acc sent -> (wr_pending_write w = None \/ buf = cur) ->
    poll_write before after p buf w = (r, out, w') ->
    wr_run id w' buf (acc ++ accepted r buf) (sent ++ option_list out)
| wr_flush before after p w cur acc sent r out w' :
    wr_run id w cur acc sent -> wr_pending_write w = None ->
    poll_flush before after p w = (r, out, w') ->
    wr_run id w' cur acc (sent ++ option_list out).

(** A payload is the frame of a chunk. *)
Definition chunk_of (id : Z) (payload chunk : list Z) : Prop :=
  to_vec (FData id chunk) = Ok payload /\ chunk <> []
  /\ Z.of_nat (length chunk) <= CONTROL_STREAM_WRITE_CHUNK
  /\ Z.of_nat (length payload) <= MAX_CONTROL_DATA_FRAME_SIZE.

(** [chunks] were sent and [acc] acknowledged; a write is pending on [cur]. *)
Record wr_inv (id : Z) (w : ControlStreamWrite) (cur acc : list Z) (sent chunks : list (list Z)) : Prop := {
  wi_id : wr_stream_id w = id;
  wi_chunks : Forall2 (chunk_of id) sent chunks;
  wi_pre : acc `prefix_of` concat chunks;
  wi_eq : wr_closed w = false -> acc = concat chunks;
  wi_pending : forall payload, wr_pending_write w = Some payload ->
    chunk_of id payload (take (wr_pending_len w) cur) /\ (wr_pending_len w <= length cur)%nat;
}.

Lemma encode_frame_Ok f payload :
  encode_frame f = Ok payload ->
  to_vec f = Ok payload /\ Z.of_nat (length payload) <= MAX_CONTROL_DATA_FRAME_SIZE.
Proof using Type.
  unfold encode_frame. destruct (to_vec f) as [b|]; [|done]. destruct (Z.ltb_spec MAX_CONTROL_DATA_FRAME_SIZE (Z.of_nat (length b)));
    intros [= <-]. split; [done|lia].
Qed.

Lemma poll_pending_inv id w cur acc sent chunks before after p r out w' :
  wr_inv id w cur acc sent chunks -> wr_closed w = false ->
  poll_pending_write before after p w = (r, out, w') ->
  (forall n, r = WriteReady n -> is_Some (wr_pending_write w)) ->
  exists chunks', wr_inv id w' cur (acc ++ accepted r cur) (sent ++ option_list out) chunks'.
Proof using Type.
  intros [Hid Hch Hpre Heq Hpend] Hc. unfold poll_pending_write.
  destruct before; [|destruct (wr_pending_write w) as [pl|] eqn:Ep; [destruct p as [[]|]; [destruct after|..]|]];
    intros [= <- <- <-] Hn; cbn [accepted option_list]; rewrite ?app_nil_r.
  - by exists chunks.
  - destruct (Hpend pl eq_refl) as [Hck Hle]. exists (chunks ++ [take (wr_pending_len w) cur]). split; cbn; try done.
    + by apply Forall2_app; [|constructor].
    + rewrite concat_app. by apply prefix_app_r.
  - destruct (Hpend pl eq_refl) as [Hck Hle]. exists (chunks ++ [take (wr_pending_len w) cur]).
    assert (He : acc ++ take (wr_pending_len w) cur = concat (chunks ++ [take (wr_pending_len w) cur])).
    { rewrite concat_app, Heq by done. simpl. by rewrite app_nil_r. }
    split; cbn; try done.
    + by apply Forall2_app; [|constructor].
    + by rewrite He.
  - by exists chunks.
  - exists chunks. by split; [..|rewrite Ep].
  - by destruct (Hn 0%nat eq_refl).
Qed.

Lemma wr_run_inv id w cur acc sent : wr_run id w cur acc sent -> exists chunks, wr_inv id w cur acc sent chunks.
Proof using Type.
  induction 1 as [|before after p buf w cur acc sent r out w' Hrun [chunks IH] Hbuf Hp
                  |before after p w cur acc sent r out w' Hrun [chunks IH] Hnone Hp].
  - exists []. by split.
  - pose proof IH as [Hid Hch Hpre Heq Hpend]. unfold poll_write in Hp.
    assert (Hcur : wr_inv id w buf acc sent chunks).
    { split; try done. intros pl Epl. destruct Hbuf as [E| ->]; [congruence|by apply Hpend]. }
    destruct (wr_closed w || before) eqn:Ec.
    { injection Hp as <- <- <-. exists chunks. cbn. rewrite !app_nil_r. destruct Hcur. by split. }
    apply orb_false_iff in Ec as [Ec ->].
    case_bool_decide as Epd.
    { eapply poll_pending_inv; [exact Hcur|done|done|]. done. }
    case_bool_decide as Es.
    { injection Hp as <- <- <-. exists chunks. cbn. by rewrite !app_nil_r. }
    set (len := Z.to_nat (Z.min (Z.of_nat (length buf)) CONTROL_STREAM_WRITE_CHUNK)) in *.
    assert (Hlen : (0 < len <= length buf)%nat /\ Z.of_nat len <= CONTROL_STREAM_WRITE_CHUNK).
    { destruct buf; [done|]. unfold len, CONTROL_STREAM_WRITE_CHUNK. cbn [length]. lia. }
    destruct (encode_frame _) as [pl|k] eqn:Ee.
    + apply encode_frame_Ok in Ee as [Ev El].
      eapply poll_pending_inv; [| |exact Hp|]; [|done|done]. destruct Hcur as [Hid' Hch' Hpre' Heq' _]. split; cbn; try done.
      intros pl' [= <-]. rewrite Hid in Ev. split; [|lia]. split_and!; try done.
      * destruct buf; [done|]. by destruct len; [lia|].
      * rewrite length_take. lia.
    + injection Hp as <- <- <-. exists chunks. cbn. by rewrite !app_nil_r.
  - unfold poll_flush in Hp. rewrite Hnone, bool_decide_false in Hp by (by intros []).
    exists chunks. destruct after; injection Hp as <- <- <-; cbn; rewrite app_nil_r; [|done].
    destruct IH. by split.
Qed.

(** The frames a writer sends are the bytes it acknowledges: for a caller
    that retries the same buffer while a write is pending, the payloads handed
    to the data sender are the frames of non-empty chunks of at most 60 KiB,
    each frame at most 64 KiB; the acknowledged bytes are exactly the chunks in
    order while the writer is open, and a prefix of them once it is closed. *)
Theorem control_stream_writer_chunks id w cur acc sent :
  wr_run id w cur acc sent ->
  exists chunks, Forall2 (chunk_of id) sent chunks /\ acc `prefix_of` concat chunks
                 /\ (wr_closed w = false -> acc = concat chunks).
Proof using Type. intros [chunks []]%wr_run_inv. by exists chunks. Qed.
End writing.

(** ** Concrete runs *)

Definition frame_to_vec (f : ControlStreamFrame) : list Z :=
  match f with
  | FOpen id p => 0 :: id :: p
  | FOpenResp id r => [1; id; command_result_u8 r]
  | FData id b => 2 :: id :: b
  | FFin id => [3; id]
  | FReset id r => [4; id; command_result_u8 r]
  | FWindow id c => [5; id; c]
  end.

Definition frame_from_slice (l : list Z) : CodecResult ControlStreamFrame :=
  match l with
  | 0 :: id :: p => Ok (FOpen id p)
  | [1; id; r] => match command_result_from_u8 r with
                  | Some r => Ok (FOpenResp id r) | None => Err CodecInvalidData end
  | 2 :: id :: b => Ok (FData id b)
  | [3; id] => Ok (FFin id)
  | [4; id; r] => match command_result_from_u8 r with
                  | Some r => Ok (FReset id r) | None => Err CodecInvalidData end
  | [5; id; c] => Ok (FWindow id c)
  | _ => Err CodecInvalidData
  end.

Definition frame_codec : RawCodec ControlStreamFrame := {|
  codec_measure := fun f => Ok (length (frame_to_vec f));
  to_vec := fun f => Ok (frame_to_vec f);
  codec_decode := fun l => match frame_from_slice l with Ok f => Ok (f, []) | Err e => Err e end;
  clone_from_slice := frame_from_slice;
|}.

Definition items : Mpsc InboundItem := queue InboundItem.
Definition always (_ : list Z) : P2pResult unit := Ok tt.
Definition all_purposes : Listener := mkListener (fun _ => true) None.

(** An acceptor that lets the peer open stream 1 and receives data for it. *)
Definition cs_rt0 : @Runtime items := snd (listen_with_prepare all_purposes (@runtime_new items false)).
Definition cs_feed (payload : list Z) (rt : @Runtime items) : @Runtime items :=
  snd (@on_data items frame_codec always payload rt).
Definition cs_w0 : @World items := with_rt cs_rt0 (@world_new items false).
Definition cs_data (payload : list Z) (w : @World items) : @World items :=
  mkWorld (cs_feed payload (w_rt w)) (w_readers w)
    (arrive (@arrival items frame_codec payload (w_rt w)) (w_arrived w)) (w_got w) (w_failed w).
Definition cs_w1 : @World items := cs_data [2; 1; 7; 8; 9] (cs_data [0; 1; 42] cs_w0).

Lemma cs_data_step payload (w : @World items) : @cs_step items frame_codec w (cs_data payload w).
Proof.
  unfold cs_data, cs_feed. destruct (@on_data items frame_codec always payload (w_rt w)) as [[r ev] rt] eqn:E.
  by eapply (@st_data items frame_codec always payload w r ev rt).
Qed.

Lemma cs_w1_reachable : @cs_reachable items frame_codec false cs_w1.
Proof.
  do 2 (eapply cr_next; [|apply cs_data_step]). eapply cr_next; [apply cr_init|].
  unfold cs_w0, cs_rt0. destruct (listen_with_prepare _ _) as [r rt] eqn:E. by eapply st_listen.
Qed.

Lemma control_stream_integrity_witness :
  [] ++ [7; 8] `prefix_of` w_arrived cs_w1 0%nat.
Proof.
  exact (proj1 (@control_stream_integrity items (queue_laws _) frame_codec false cs_w1 0%nat 2%nat
    (ReadReady [7; 8]) (mkRead 0 [7; 8; 9] 2)
    (snd (@poll_read items 2 (read_new 0) (w_rt cs_w1)))
    (mkQueue [ItemData [7; 8; 9]] 1025 true) cs_w1_reachable eq_refl eq_refl eq_refl)).
Defined.

Lemma control_stream_no_lost_reader_witness :
  exists c', channels (snd (close_all P2pErrorCode.Interrupted (w_rt cs_w1))) !! 0%nat = Some c'
             /\ @queued _ items c' = [ItemData [7; 8; 9]; ItemReset P2pErrorCode.Interrupted].
Proof.
  exact (proj2 (@control_stream_no_lost_reader items (queue_laws _) frame_codec false cs_w1 0%nat 2%nat
    (ReadReady [7; 8]) (mkRead 0 [7; 8; 9] 2)
    (snd (@poll_read items 2 (read_new 0) (w_rt cs_w1)))
    (mkQueue [ItemData [7; 8; 9]] 1025 true) cs_w1_reachable eq_refl eq_refl eq_refl)
    P2pErrorCode.Interrupted (or_introl (ex_intro _ 1 eq_refl)) eq_refl).
Defined.

Lemma alloc_stream_id_fresh_witness :
  exists id rt', alloc_stream_id (@runtime_new items true) = Some (id, rt') /\ id <> 0.
Proof.
  destruct (@alloc_stream_id_fresh items (@runtime_new items true) (@runtime_new items false))
    as (id & rt' & H & _ & H0 & _); [by vm_compute|reflexivity|by vm_compute|discriminate|].
  exists id, rt'. exact (conj H H0).
Defined.

Lemma control_stream_writer_chunks_witness :
  exists chunks, Forall2 (@chunk_of frame_codec 3) [[2; 3; 7; 8]] chunks
                 /\ [7; 8] `prefix_of` concat chunks /\ (false = false -> [7; 8] = concat chunks).
Proof.
  apply (@control_stream_writer_chunks frame_codec 3 (write_new 3) [7; 8] [7; 8] [[2; 3; 7; 8]]).
  refine (@wr_poll frame_codec 3 false false (SendReady (Ok tt)) [7; 8]
    (mkWrite 3 (Some [2; 3; 7; 8]) 2 None false) [7; 8] [] [] (WriteReady 2) (Some [2; 3; 7; 8])
    (write_new 3) _ (or_intror eq_refl) eq_refl).
  refine (@wr_poll frame_codec 3 false false SendPending [7; 8] (write_new 3) [] [] [] WritePending None _
    (wr_start 3) (or_introl eq_refl) eq_refl).
Defined.

(** ** Two hazards *)

(** An answer to an open call and a close of the runtime can interleave so that
    a reader waits for ever: [handle_open_resp] takes the pending call, the
    runtime is closed meanwhile, and the stream is then entered into the table
    of the closed runtime, where nothing resets it any more. *)
Theorem open_resp_races_with_close :
  exists (rt1 rt2 rt3 : @Runtime items) p ev,
    (fun x => snd x) <$> @open_begin items frame_codec always [42] (runtime_new true) = Some rt1
    /\ pending_opens rt1 !! 1 = Some p
    /\ rt2 = snd (close_all P2pErrorCode.Interrupted (set_pending (delete 1) rt1))
    /\ resp_insert 1 p ResSuccess rt2 = (ev, rt3)
    /\ ev = [EvWaiter 0 (Ok tt)] /\ closed rt3 = true
    /\ fst (fst (poll_read 1 (read_new 0) rt3)) = ReadPending.
Proof. do 5 eexists. split_and!; reflexivity. Qed.

(** A write that is given up while pending is not undone: the next call of
    [poll_write], with another buffer, completes the old write and reports its
    length, which may exceed the buffer, while the new bytes are not sent. *)
Theorem abandoned_write_is_completed :
  exists w1 w2 payload,
    @poll_write frame_codec false false SendPending [7; 8; 9] (write_new 3) = (WritePending, None, w1)
    /\ @poll_write frame_codec false false (SendReady (Ok tt)) [5] w1 = (WriteReady 3, Some payload, w2)
    /\ payload = frame_to_vec (FData 3 [7; 8; 9]).
Proof. do 3 eexists. split_and!; reflexivity. Qed.
