(* ===== verification/TunnelActivity.v ===== *)
(** * Tunnel forms, listener registries and the activity ledger

    Source: src/p2p-frame/src/networks/tunnel.rs.

    [TunnelActivity] decides when an idle tunnel candidate may be retired: it
    counts the opens in progress ([PendingTunnelActivity] guards) and the live
    halves of channels ([TunnelWorkActivity] guards), and remembers when each
    kind of activity was last seen.  The methods are the functions of the
    mutex-protected state below, with the clock reading passed in; the guards
    that Rust's [Drop] releases are the counters of [act_world], and every
    interleaving of their creation, promotion and release is a sequence of
    [act_step]s. *)
From S2P Require Import Prelude Errors.

Inductive TunnelForm := FormActive | FormPassive | FormProxy.
Inductive TunnelState := StConnecting | StConnected | StClosed | StError.

#[global] Instance TunnelForm_eq_dec : EqDecision TunnelForm.
Proof. solve_decision. Defined.
#[global] Instance TunnelState_eq_dec : EqDecision TunnelState.
Proof. solve_decision. Defined.

(** ** Listener registries ([ListenPurposeRegistry], [ListenVPortRegistry]) *)
Section registry.
Context {L : Type}.

Definition PurposeRegistry := gmap (list Z) L.

Definition purpose_contains (p : list Z) (r : PurposeRegistry) : bool := bool_decide (is_Some (r !! p)).
Definition purpose_insert (p : list Z) (l : L) (r : PurposeRegistry) : option L * PurposeRegistry :=
  (r !! p, <[p := l]> r).
Definition purpose_get (p : list Z) (r : PurposeRegistry) : option L := r !! p.
Definition purpose_remove (p : list Z) (r : PurposeRegistry) : option L * PurposeRegistry :=
  (r !! p, delete p r).
Definition purpose_is_listen (r : PurposeRegistry) (p : list Z) : bool := purpose_contains p r.

Definition VPortRegistry := gmap Z L.
Definition vport_contains (v : Z) (r : VPortRegistry) : bool := bool_decide (is_Some (r !! v)).
Definition vport_insert (v : Z) (l : L) (r : VPortRegistry) : option L * VPortRegistry :=
  (r !! v, <[v := l]> r).
Definition vport_remove (v : Z) (r : VPortRegistry) : option L * VPortRegistry :=
  (r !! v, delete v r).

(** [decode_as] is the [u16] decoder of the codec library. *)
Definition vport_is_listen (decode_as : list Z -> option Z) (r : VPortRegistry) (p : list Z) : bool :=
  match decode_as p with Some v => vport_contains v r | None => false end.
End registry.

(** ** The activity ledger *)
Inductive TunnelActivityLifecycle := ActLive | ActRetired.
#[global] Instance Lifecycle_eq_dec : EqDecision TunnelActivityLifecycle.
Proof. solve_decision. Defined.

Record TunnelActivityState := mkActivity {
  lifecycle : TunnelActivityLifecycle;
  pending_open_count : Z;
  work_instance_num : Z;
  latest_active_at : Z;
  latest_business_activity_at : option Z }.

Definition activity_new (now : Z) : TunnelActivityState := mkActivity ActLive 0 0 now None.

Definition ensure_live (a : TunnelActivityState) : P2pResult unit :=
  match lifecycle a with ActLive => Ok tt | ActRetired => Err P2pErrorCode.Interrupted end.

Definition note_activity (now : Z) (a : TunnelActivityState) : TunnelActivityState :=
  match lifecycle a with
  | ActLive => mkActivity ActLive (pending_open_count a) (work_instance_num a) now
                 (latest_business_activity_at a)
  | ActRetired => a
  end.

Definition begin_pending (now : Z) (a : TunnelActivityState) : P2pResult unit * TunnelActivityState :=
  match lifecycle a with
  | ActRetired => (Err P2pErrorCode.Interrupted, a)
  | ActLive => (Ok tt, mkActivity ActLive (pending_open_count a + 1) (work_instance_num a) now
                         (latest_business_activity_at a))
  end.

Definition acquire_work_instances (n now : Z) (a : TunnelActivityState)
  : P2pResult unit * TunnelActivityState :=
  match lifecycle a with
  | ActRetired => (Err P2pErrorCode.Interrupted, a)
  | ActLive => (Ok tt, mkActivity ActLive (pending_open_count a) (work_instance_num a + n) now (Some now))
  end.

(** [track_stream_result] and [track_datagram_result]: the halves of an
    accepted channel become work instances; a failed accept is activity. *)
Definition track_result (n now : Z) (r : P2pResult unit) (a : TunnelActivityState)
  : P2pResult unit * TunnelActivityState :=
  match r with
  | Ok _ => acquire_work_instances n now a
  | Err e => (Err e, note_activity now a)
  end.
Definition track_stream_result := track_result 2.
Definition track_datagram_result := track_result 1.

Definition try_retire_idle (now idle_timeout : Z) (a : TunnelActivityState) : bool * TunnelActivityState :=
  if bool_decide (lifecycle a <> ActLive)
     || negb (pending_open_count a =? 0)
     || negb (work_instance_num a =? 0)
     || (if now <? latest_active_at a then true else now - latest_active_at a <=? idle_timeout)
  then (false, a)
  else (true, mkActivity ActRetired (pending_open_count a) (work_instance_num a) (latest_active_at a)
                (latest_business_activity_at a)).

Definition retire (a : TunnelActivityState) : TunnelActivityState :=
  mkActivity ActRetired (pending_open_count a) (work_instance_num a) (latest_active_at a)
    (latest_business_activity_at a).

(** The decrement the guards share: [if n > 0 { n -= 1 }]. *)
Definition dec (n : Z) : Z := if 0 <? n then n - 1 else n.

(** [PendingTunnelActivity::promote], consuming the guard. *)
Definition promote (n now : Z) (a : TunnelActivityState) : P2pResult unit * TunnelActivityState :=
  match lifecycle a with
  | ActRetired =>
      (Err P2pErrorCode.Interrupted,
       mkActivity ActRetired (dec (pending_open_count a)) (work_instance_num a) (latest_active_at a)
         (latest_business_activity_at a))
  | ActLive =>
      (Ok tt, mkActivity ActLive (dec (pending_open_count a)) (work_instance_num a + n) now (Some now))
  end.
Definition promote_stream := promote 2.
Definition promote_datagram := promote 1.

(** The [Drop] of an unpromoted pending guard and of a work guard. *)
Definition drop_pending (now : Z) (a : TunnelActivityState) : TunnelActivityState :=
  mkActivity (lifecycle a) (dec (pending_open_count a)) (work_instance_num a) now
    (latest_business_activity_at a).
Definition drop_work (now : Z) (a : TunnelActivityState) : TunnelActivityState :=
  mkActivity (lifecycle a) (pending_open_count a) (dec (work_instance_num a)) now
    (latest_business_activity_at a).

(** ** Guards and interleavings *)
Record act_world := mkActWorld { aw : TunnelActivityState; guards : Z; works : Z }.

Inductive act_step : act_world -> act_world -> Prop :=
| ActNote now w : act_step w (mkActWorld (note_activity now (aw w)) (guards w) (works w))
| ActBegin now w a : begin_pending now (aw w) = (Ok tt, a) ->
    act_step w (mkActWorld a (guards w + 1) (works w))
| ActTrack n now r w a : 0 <= n -> track_result n now r (aw w) = (Ok tt, a) ->
    act_step w (mkActWorld a (guards w) (works w + n))
| ActPromote n now w a : 0 <= n -> 0 < guards w -> promote n now (aw w) = (Ok tt, a) ->
    act_step w (mkActWorld a (guards w - 1) (works w + n))
| ActPromoteErr n now w e a : 0 < guards w -> promote n now (aw w) = (Err e, a) ->
    act_step w (mkActWorld a (guards w - 1) (works w))
| ActDropPending now w : 0 < guards w ->
    act_step w (mkActWorld (drop_pending now (aw w)) (guards w - 1) (works w))
| ActDropWork now w : 0 < works w ->
    act_step w (mkActWorld (drop_work now (aw w)) (guards w) (works w - 1))
| ActTryRetire now t w b a : try_retire_idle now t (aw w) = (b, a) ->
    act_step w (mkActWorld a (guards w) (works w))
| ActRetire w : act_step w (mkActWorld (retire (aw w)) (guards w) (works w)).

Definition act_reachable (now0 : Z) (w : act_world) : Prop :=
  rtc act_step (mkActWorld (activity_new now0) 0 0) w.

Definition act_inv (w : act_world) : Prop :=
  pending_open_count (aw w) = guards w /\ work_instance_num (aw w) = works w /\
  0 <= guards w /\ 0 <= works w.

Lemma dec_pos n : 0 < n -> dec n = n - 1.
Proof. unfold dec. intros. case_match; lia. Qed.

Lemma act_step_inv w w' : act_step w w' -> act_inv w -> act_inv w'.
Proof.
  unfold act_inv. intros Hs (Hp & Hw & Hg & Hk); inversion Hs; subst; simpl in *;
    unfold note_activity, begin_pending, track_result, acquire_work_instances, promote,
      try_retire_idle, note_activity in *;
    repeat case_match; simplify_eq/=; rewrite ?dec_pos by lia; lia.
Qed.

Lemma act_reachable_inv now0 w : act_reachable now0 w -> act_inv w.
Proof.
  intros H. by apply (rtc_preserves _ act_inv _ _ act_step_inv H).
Qed.

Lemma retired_stays w w' :
  rtc act_step w w' -> lifecycle (aw w) = ActRetired ->
  lifecycle (aw w') = ActRetired /\ guards w' <= guards w /\ works w' <= works w.
Proof.
  induction 1 as [w|w v w' Hs Hr IH]; intros Hl; [auto with lia|].
  assert (lifecycle (aw v) = ActRetired /\ guards v <= guards w /\ works v <= works w) as (? & ? & ?).
  { inversion Hs; subst; simpl in *;
      unfold note_activity, begin_pending, track_result, acquire_work_instances, promote,
        try_retire_idle in *; repeat case_match; simplify_eq/=; auto with lia; congruence. }
  destruct IH as (? & ? & ?); auto with lia.
Qed.

(** The ledger retires an idle tunnel candidate only when no open is in
    progress, no half of a channel is alive and the last activity is older than
    the timeout; and from then on, whatever happens, the candidate stays
    retired and admits no open and no channel. *)
Theorem idle_retirement_safe now0 w now idle_timeout a :
  act_reachable now0 w ->
  try_retire_idle now idle_timeout (aw w) = (true, a) ->
  guards w = 0 /\ works w = 0 /\ idle_timeout < now - latest_active_at (aw w) /\
  forall w', rtc act_step (mkActWorld a (guards w) (works w)) w' ->
    guards w' <= 0 /\ works w' <= 0 /\
    (forall t, fst (begin_pending t (aw w')) = Err P2pErrorCode.Interrupted) /\
    (forall n t, fst (acquire_work_instances n t (aw w')) = Err P2pErrorCode.Interrupted).
Proof.
  intros Hr Ht. destruct (act_reachable_inv _ _ Hr) as (Hp & Hw & Hg & Hk).
  unfold try_retire_idle in Ht. case_match eqn:E; simplify_eq.
  apply orb_false_iff in E as [E Ht]. bool_to_prop.
  case_match; [done|]. bool_to_prop. split_and!; [lia..|].
  intros w' Hw'. destruct (retired_stays _ _ Hw') as (Hl & ? & ?); [done|]. simpl in *.
  split_and!; [lia|lia|intros t|intros n t];
    unfold begin_pending, acquire_work_instances; by rewrite Hl.
Qed.

Lemma idle_retirement_safe_witness :
  let w := mkActWorld (mkActivity ActLive 0 0 9 (Some 5)) 0 0 in
  guards w = 0 /\ works w = 0 /\ 10 < 100 - latest_active_at (aw w) /\ act_reachable 0 w.
Proof.
  simpl.
  assert (act_reachable 0 (mkActWorld (mkActivity ActLive 0 0 9 (Some 5)) 0 0)) as Hr.
  { eapply rtc_l; [eapply (ActBegin 3); reflexivity|].
    eapply rtc_l; [eapply (ActPromote 1 5); [done|done|reflexivity]|].
    eapply rtc_l; [eapply (ActDropWork 9); done|]. apply rtc_refl. }
  destruct (idle_retirement_safe 0 _ 100 10 _ Hr eq_refl) as (? & ? & ? & ?). auto.
Defined.
