(* ===== verification/ReverseOpen.v ===== *)
(** * Correlating a reverse data connection with its request

    Source: src/p2p-frame/src/networks/tcp/tunnel.rs ([ReverseOpenCorrelation]).

    A tunnel that cannot open a data connection itself asks the peer for one.
    The answer comes on two independent paths: the data connection arrives and
    is registered, and a success response arrives on the control connection.
    The correlation joins them in whichever order they come and hands the
    connection out once.  [apply] is the source's transition function; the
    theorem characterises its runs by the history of events alone. *)
From S2P Require Import Prelude.

Inductive ReverseOpenCorrelationEvent :=
| Arrival (conn_id : Z)
| ArrivalRegistered (conn_id : Z)
| SuccessResponse (conn_id : Z)
| Failure
| TerminalCleanup.

Inductive ReverseOpenCorrelationError := DuplicateArrival | ConnIdMismatch | ArrivalNotStaged | ErrTerminal.

Inductive ReverseOpenCorrelationOutcome :=
| Wait
| Complete (conn_id : Z)
| Idempotent
| Terminal
| Reject (e : ReverseOpenCorrelationError).

Record ReverseOpenCorrelation := mkCorrelation {
  arrival_conn_id : option Z;
  response_conn_id : option Z;
  arrival_registered : bool;
  terminal : bool;
  completed_conn_id : option Z }.

Definition correlation_new : ReverseOpenCorrelation := mkCorrelation None None false false None.

Definition set_terminal (c : ReverseOpenCorrelation) : ReverseOpenCorrelation :=
  mkCorrelation (arrival_conn_id c) (response_conn_id c) (arrival_registered c) true (completed_conn_id c).
Definition complete_with (id : Z) (c : ReverseOpenCorrelation) : ReverseOpenCorrelation :=
  mkCorrelation (arrival_conn_id c) (response_conn_id c) (arrival_registered c) true (Some id).

(** [recorded.is_some_and(|recorded| recorded != conn_id)]. *)
Definition differs (o : option Z) (id : Z) : bool :=
  match o with Some r => negb (r =? id) | None => false end.

Definition apply (c : ReverseOpenCorrelation) (ev : ReverseOpenCorrelationEvent)
  : ReverseOpenCorrelationOutcome * ReverseOpenCorrelation :=
  if terminal c then
    match ev with
    | SuccessResponse id =>
        if bool_decide (completed_conn_id c = Some id) then (Idempotent, c)
        else if bool_decide (is_Some (completed_conn_id c)) then (Reject ConnIdMismatch, c)
        else (Reject ErrTerminal, c)
    | _ => (Reject ErrTerminal, c)
    end
  else
    match ev with
    | Arrival id =>
        match arrival_conn_id c with
        | Some r => (Reject (if r =? id then DuplicateArrival else ConnIdMismatch), set_terminal c)
        | None =>
            if differs (response_conn_id c) id then (Reject ConnIdMismatch, set_terminal c)
            else (Wait, mkCorrelation (Some id) (response_conn_id c) (arrival_registered c)
                          (terminal c) (completed_conn_id c))
        end
    | ArrivalRegistered id =>
        if negb (bool_decide (arrival_conn_id c = Some id)) then
          (Reject (match arrival_conn_id c with Some _ => ConnIdMismatch | None => ArrivalNotStaged end),
           set_terminal c)
        else if arrival_registered c then (Idempotent, c)
        else
          let c' := mkCorrelation (arrival_conn_id c) (response_conn_id c) true
                      (terminal c) (completed_conn_id c) in
          if bool_decide (response_conn_id c = Some id) then (Complete id, complete_with id c')
          else (Wait, c')
    | SuccessResponse id =>
        match response_conn_id c with
        | Some r =>
            if negb (r =? id) then (Reject ConnIdMismatch, set_terminal c)
            else if arrival_registered c then (Complete id, complete_with id c)
            else (Idempotent, c)
        | None =>
            if differs (arrival_conn_id c) id then (Reject ConnIdMismatch, set_terminal c)
            else
              let c' := mkCorrelation (arrival_conn_id c) (Some id) (arrival_registered c)
                          (terminal c) (completed_conn_id c) in
              if arrival_registered c then (Complete id, complete_with id c') else (Wait, c')
        end
    | Failure | TerminalCleanup => (Terminal, set_terminal c)
    end.

(** A run: the outcomes in order and the final state. *)
Fixpoint run (c : ReverseOpenCorrelation) (evs : list ReverseOpenCorrelationEvent)
  : list ReverseOpenCorrelationOutcome * ReverseOpenCorrelation :=
  match evs with
  | [] => ([], c)
  | ev :: evs =>
      let '(o, c1) := apply c ev in
      let '(os, c2) := run c1 evs in (o :: os, c2)
  end.

Definition completes (o : ReverseOpenCorrelationOutcome) : option Z :=
  match o with Complete id => Some id | _ => None end.

(** ** The reference: histories that join *)

(** The connection was staged once and then registered, a success response for
    the same connection came at some point, and nothing else happened. *)
Definition joins (id : Z) (h : list ReverseOpenCorrelationEvent) : Prop :=
  exists h1 h2 h3,
    h = h1 ++ Arrival id :: h2 ++ ArrivalRegistered id :: h3 /\
    Forall (eq (SuccessResponse id)) h1 /\
    Forall (eq (SuccessResponse id)) h2 /\
    Forall (fun e => e = SuccessResponse id \/ e = ArrivalRegistered id) h3 /\
    SuccessResponse id ∈ h.

(** ** Facts about runs *)
Lemma run_app c p q :
  run c (p ++ q) =
  let '(o1, c1) := run c p in let '(o2, c2) := run c1 q in (o1 ++ o2, c2).
Proof.
  revert c. induction p as [|e p IH]; intros c; simpl; [by destruct (run c q)|].
  destruct (apply c e) as [o c1]. rewrite IH. destruct (run c1 p) as [o1 c2].
  by destruct (run c2 q).
Qed.

Lemma snd_run_app c p q : snd (run c (p ++ q)) = snd (run (snd (run c p)) q).
Proof. rewrite run_app. destruct (run c p) as [o1 c1]. simpl. by destruct (run c1 q). Qed.

Lemma snd_run_cons c e q : snd (run c (e :: q)) = snd (run (snd (apply c e)) q).
Proof. simpl. destruct (apply c e) as [o c1]. simpl. by destruct (run c1 q). Qed.

Lemma terminal_frozen c p :
  terminal c = true -> snd (run c p) = c /\ omap completes (fst (run c p)) = [].
Proof.
  intros Ht. induction p as [|e p [IH1 IH2]]; simpl; [done|].
  destruct (apply c e) as [o c1] eqn:E. unfold apply in E. rewrite Ht in E.
  assert (c1 = c /\ completes o = None) as [-> Ho] by (repeat case_match; simplify_eq; done).
  destruct (run c p) as [os c2]. simpl in *. by rewrite Ho.
Qed.

Lemma terminal_run c p : terminal c = true -> snd (run c p) = c.
Proof. intros H. by destruct (terminal_frozen c p H). Qed.

(** The open states, each with the histories that lead to it. *)
Inductive open_after : ReverseOpenCorrelation -> list ReverseOpenCorrelationEvent -> Prop :=
| OpenFresh : open_after correlation_new []
| OpenAnswered id h : h <> [] -> Forall (eq (SuccessResponse id)) h ->
    open_after (mkCorrelation None (Some id) false false None) h
| OpenStaged id : open_after (mkCorrelation (Some id) None false false None) [Arrival id]
| OpenStagedAnswered id h1 h2 :
    Forall (eq (SuccessResponse id)) h1 -> Forall (eq (SuccessResponse id)) h2 -> h1 ++ h2 <> [] ->
    open_after (mkCorrelation (Some id) (Some id) false false None) (h1 ++ Arrival id :: h2)
| OpenRegistered id h3 : Forall (eq (ArrivalRegistered id)) h3 ->
    open_after (mkCorrelation (Some id) None true false None) (Arrival id :: ArrivalRegistered id :: h3).

#[local] Hint Constructors open_after : core.

Lemma open_after_open c h : open_after c h -> terminal c = false /\ completed_conn_id c = None.
Proof. by destruct 1. Qed.

Lemma open_answered_snoc id h :
  Forall (eq (SuccessResponse id)) h -> Forall (eq (SuccessResponse id)) (h ++ [SuccessResponse id]).
Proof. intros. apply Forall_app. eauto. Qed.

Lemma some_success id h1 h2 :
  Forall (eq (SuccessResponse id)) h1 -> Forall (eq (SuccessResponse id)) h2 -> h1 ++ h2 <> [] ->
  SuccessResponse id ∈ h1 \/ SuccessResponse id ∈ h2.
Proof.
  intros H1 H2 Hne. destruct h1 as [|e h1].
  - destruct h2 as [|e h2]; [done|]. inversion H2; subst. set_solver.
  - inversion H1; subst. set_solver.
Qed.

Lemma joins_registering id h1 h2 :
  Forall (eq (SuccessResponse id)) h1 -> Forall (eq (SuccessResponse id)) h2 -> h1 ++ h2 <> [] ->
  joins id ((h1 ++ Arrival id :: h2) ++ [ArrivalRegistered id]).
Proof.
  intros H1 H2 Hne. exists h1, h2, []. rewrite <-app_assoc. simpl. split_and!; auto.
  destruct (some_success id h1 h2); auto; set_solver.
Qed.

Lemma joins_answering id h3 :
  Forall (eq (ArrivalRegistered id)) h3 ->
  joins id ((Arrival id :: ArrivalRegistered id :: h3) ++ [SuccessResponse id]).
Proof.
  intros H3. exists [], [], (h3 ++ [SuccessResponse id]). simpl. split_and!; auto; [|set_solver].
  apply Forall_app. split; [|eauto]. eapply Forall_impl; [exact H3|]. naive_solver.
Qed.

Lemma open_arrival id h :
  h <> [] -> Forall (eq (SuccessResponse id)) h ->
  open_after (mkCorrelation (Some id) (Some id) false false None) (h ++ [Arrival id]).
Proof. intros. apply (OpenStagedAnswered id h []); rewrite ?app_nil_r; auto. Qed.

Lemma open_answered_again id h :
  h <> [] -> Forall (eq (SuccessResponse id)) h ->
  open_after (mkCorrelation None (Some id) false false None) (h ++ [SuccessResponse id]).
Proof. intros. constructor; [by destruct h|by apply open_answered_snoc]. Qed.

Lemma open_staged_again id h1 h2 :
  Forall (eq (SuccessResponse id)) h1 -> Forall (eq (SuccessResponse id)) h2 ->
  open_after (mkCorrelation (Some id) (Some id) false false None)
    ((h1 ++ Arrival id :: h2) ++ [SuccessResponse id]).
Proof.
  intros. rewrite <-app_assoc. simpl. constructor; [done|by apply open_answered_snoc|].
  by destruct h1, h2.
Qed.

Lemma open_registered_again id h3 :
  Forall (eq (ArrivalRegistered id)) h3 ->
  open_after (mkCorrelation (Some id) None true false None)
    ((Arrival id :: ArrivalRegistered id :: h3) ++ [ArrivalRegistered id]).
Proof. intros. simpl. constructor. apply Forall_app; eauto. Qed.

#[local] Hint Resolve joins_registering joins_answering open_arrival open_answered_again
  open_staged_again open_registered_again : core.

(** One event on an open state: it stays open, or completes with a joined
    history, or dies without completing. *)
Lemma open_step c h e :
  open_after c h ->
  let '(o, c') := apply c e in
  (open_after c' (h ++ [e]) /\ completes o = None) \/
  (exists id, o = Complete id /\ completed_conn_id c' = Some id /\ terminal c' = true /\ joins id (h ++ [e])) \/
  (completes o = None /\ completed_conn_id c' = None /\ terminal c' = true).
Proof.
  destruct 1 as [|id h Hne Hh|id|id h1 h2 H1 H2 Hne|id h3 H3]; destruct e as [x|x|x| |];
    unfold apply, differs, set_terminal; simpl; repeat case_match; simplify_eq; simpl in *; bool_to_prop;
    simplify_eq; auto; try (left; split; [auto|done]); try (right; left; eexists; split_and!; eauto; done).
  - by apply (OpenStagedAnswered x [] [SuccessResponse x]); auto.
  - by apply open_registered_again.
  - right; left. exists x. split_and!; auto. by apply joins_answering.
Qed.

(** A run from an open state stays open, or completes at a prefix whose history
    joins and then does nothing, or dies. *)
Lemma open_run evs c h :
  open_after c h ->
  let '(os, c') := run c evs in
  omap completes os = option_list (completed_conn_id c') /\
  (forall id, completed_conn_id c' = Some id -> exists p, p `prefix_of` evs /\ joins id (h ++ p)).
Proof.
  revert c h. induction evs as [|e evs IH]; intros c h Ho; simpl.
  { destruct (open_after_open _ _ Ho) as [_ ->]. done. }
  pose proof (open_step c h e Ho) as Hs. destruct (apply c e) as [o c1].
  destruct Hs as [[Ho' Hn]|Hs].
  - specialize (IH _ _ Ho'). destruct (run c1 evs) as [os c2]. destruct IH as [IH1 IH2].
    simpl. rewrite Hn. split; [done|]. intros id Hid. destruct (IH2 id Hid) as (p & Hp & Hj).
    exists (e :: p). split; [by apply prefix_cons|]. by rewrite <-app_assoc in Hj.
  - assert (terminal c1 = true) as Ht by naive_solver.
    destruct (terminal_frozen c1 evs Ht) as [Hc Hos]. destruct (run c1 evs) as [os c2]. simpl in *. subst c2.
    destruct Hs as [(id & -> & Hid & _ & Hj)|(Hn & Hid & _)]; simpl; rewrite ?Hn, ?Hid;
      (split; [by f_equal/=|]).
    + intros id' [= <-]. exists [e]. split; [by apply prefix_cons, prefix_nil|done].
    + done.
Qed.

(** A completed correlation is terminal. *)
Lemma apply_terminal c e :
  (completed_conn_id c <> None -> terminal c = true) ->
  completed_conn_id (snd (apply c e)) <> None -> terminal (snd (apply c e)) = true.
Proof. destruct c as [a r g [] id]; intros Hc; simpl in Hc; unfold apply, set_terminal; repeat case_match; simpl in *; auto; intros; by apply Hc. Qed.

Lemma open_run_terminal p :
  completed_conn_id (snd (run correlation_new p)) <> None ->
  terminal (snd (run correlation_new p)) = true.
Proof.
  assert (forall c, (completed_conn_id c <> None -> terminal c = true) ->
    completed_conn_id (snd (run c p)) <> None -> terminal (snd (run c p)) = true) as H.
  { induction p as [|e p IH]; intros c Hc; [done|]. rewrite !snd_run_cons.
    apply IH, apply_terminal, Hc. }
  by apply H.
Qed.

(** The answers of the peer alone only record the response. *)
Lemma run_success id h a r :
  Forall (eq (SuccessResponse id)) h -> differs a id = false -> differs r id = false ->
  snd (run (mkCorrelation a r false false None) h) =
  mkCorrelation a (match h with [] => r | _ => Some id end) false false None.
Proof.
  intros Hh Ha. revert r. induction Hh as [|e h <- Hh IH]; intros r Hr; simpl; [done|].
  assert (apply (mkCorrelation a r false false None) (SuccessResponse id) =
    (match r with Some _ => Idempotent | None => Wait end, mkCorrelation a (Some id) false false None)) as ->.
  { unfold apply; simpl. destruct r as [r|]; simpl in Hr; [rewrite Hr; bool_to_prop; by subst|by rewrite Ha]. }
  specialize (IH (Some id)). destruct (run _ h). simpl in *. rewrite IH; [by destruct h|].
  unfold differs. by rewrite Z.eqb_refl.
Qed.

(** Once registered, the first answer completes. *)
Lemma run_registered id h :
  Forall (fun e => e = SuccessResponse id \/ e = ArrivalRegistered id) h ->
  SuccessResponse id ∈ h ->
  completed_conn_id (snd (run (mkCorrelation (Some id) None true false None) h)) = Some id.
Proof.
  induction 1 as [|e h [->| ->] Hh IH]; intros Hin; [set_solver|..]; rewrite snd_run_cons;
    unfold apply; simpl.
  - rewrite Z.eqb_refl. simpl. by rewrite terminal_run.
  - rewrite bool_decide_true by done. simpl. apply IH. set_solver.
Qed.

Lemma joins_run id p : joins id p -> completed_conn_id (snd (run correlation_new p)) = Some id.
Proof.
  intros (h1 & h2 & h3 & -> & H1 & H2 & H3 & Hin).
  rewrite snd_run_app. unfold correlation_new. rewrite (run_success id) by done.
  rewrite snd_run_cons, snd_run_app.
  assert (forall r, differs r id = false ->
    snd (apply (mkCorrelation None r false false None) (Arrival id)) =
    mkCorrelation (Some id) r false false None) as Harr.
  { intros r Hr. unfold apply. simpl. by rewrite Hr. }
  rewrite Harr by (unfold differs; destruct h1; rewrite ?Z.eqb_refl; done).
  rewrite (run_success id); [|done|unfold differs; by rewrite Z.eqb_refl
    |unfold differs; destruct h1; rewrite ?Z.eqb_refl; done].
  rewrite snd_run_cons. unfold apply. simpl. rewrite bool_decide_true by done. simpl.
  set (r := match h2 with [] => _ | _ => _ end).
  assert (r = None /\ h1 = [] /\ h2 = [] \/ r = Some id) as [(-> & -> & ->)| ->]
    by (subst r; destruct h1, h2; auto); case_bool_decide; try done.
  - simpl. apply run_registered; [done|]. simpl in Hin. set_solver.
  - simpl. by rewrite terminal_run.
Qed.

(** C37: for every sequence of events, the correlation machine completes with
    a connection exactly when some prefix of the history stages that connection
    once, registers it and has a success response for it, in either order and
    with nothing else in between; and it hands the connection out exactly once,
    however often events are repeated afterwards. *)
Theorem correlation_equiv evs :
  (forall id, completed_conn_id (snd (run correlation_new evs)) = Some id <->
     exists p, p `prefix_of` evs /\ joins id p) /\
  omap completes (fst (run correlation_new evs)) =
    option_list (completed_conn_id (snd (run correlation_new evs))).
Proof.
  pose proof (open_run evs correlation_new [] OpenFresh) as Hr.
  assert (forall id p, p `prefix_of` evs -> joins id p ->
    completed_conn_id (snd (run correlation_new evs)) = Some id) as Hback.
  { intros id p [q ->] Hj%joins_run. rewrite snd_run_app.
    destruct (snd (run correlation_new p)) as [a r g t c] eqn:E. simpl in Hj. subst c.
    assert (t = true) as ->.
    { pose proof (open_run_terminal p) as H. rewrite E in H. by apply H. }
    by rewrite terminal_run. }
  destruct (run correlation_new evs) as [os c]. destruct Hr as [Hr1 Hr2]. simpl in *.
  split; [|done]. intros id. split; [apply Hr2|]. intros (p & Hp & Hj). eauto.
Qed.
