(* ===== verification/TcpLease.v ===== *)
(** * Leases of pooled data connections

    Source: src/p2p-frame/src/networks/tcp/tunnel.rs ([LeaseContext],
    [TcpLeaseRead], [TcpLeaseWrite] and the lease methods of [TcpTunnel]).

    A channel of a TCP tunnel borrows a pooled data connection for the time of
    a lease.  When both ends have finished writing and both have read what the
    other wrote, the connection returns to the pool and the next lease reuses
    its byte stream, so a byte left over would be read by the wrong channel.
    The two ends agree through [WriteFin] (how many bytes were written) and
    [ReadDone] (how many were read) messages on the control connection.

    Every method locks the lease, updates it and then acts on the entry, the
    control connection or the executor.  The functions below take the lease
    under the lock and return the new lease with the list of those actions in
    the order of the source ([Effect]); file TcpTunnel executes them on the
    tunnel.  The byte counters are [u64] values that a connection cannot
    overflow in practice and are left unbounded. *)
From S2P Require Import Prelude Errors Ids Endpoint Codec TunnelCommand.

(** The fields fixed when the lease is made, then the mutable ones. *)
Record LeaseId := mkLeaseId {
  li_entry : nat; li_conn_id : Z; li_lease_seq : Z; li_channel_id : Z;
  li_kind : TcpChannelKind; li_purpose : list Z; li_local_initiator : bool;
  li_hidden_zero_read : bool }.

Record LeaseContext := mkLease {
  lx_id : LeaseId;
  lx_read : bool;
  lx_write : bool;
  lx_tx_bytes : Z;
  lx_rx_bytes : Z;
  lx_peer_final_tx_bytes : option Z;
  lx_pending_done : option Z;
  lx_local_write_fin_sent : bool;
  lx_peer_write_fin_received : bool;
  lx_local_read_done_sent : bool;
  lx_peer_read_done_received : bool;
  lx_read_released : bool;
  lx_write_released : bool;
  lx_retired : bool;
  lx_no_reuse : bool;
  lx_last_drain_progress_at : option Z }.

Definition upd_halves (r w : bool) (x : LeaseContext) : LeaseContext :=
  mkLease (lx_id x) r w (lx_tx_bytes x) (lx_rx_bytes x) (lx_peer_final_tx_bytes x) (lx_pending_done x)
    (lx_local_write_fin_sent x) (lx_peer_write_fin_received x) (lx_local_read_done_sent x)
    (lx_peer_read_done_received x) (lx_read_released x) (lx_write_released x) (lx_retired x)
    (lx_no_reuse x) (lx_last_drain_progress_at x).
Definition upd_counts (tx rx : Z) (x : LeaseContext) : LeaseContext :=
  mkLease (lx_id x) (lx_read x) (lx_write x) tx rx (lx_peer_final_tx_bytes x) (lx_pending_done x)
    (lx_local_write_fin_sent x) (lx_peer_write_fin_received x) (lx_local_read_done_sent x)
    (lx_peer_read_done_received x) (lx_read_released x) (lx_write_released x) (lx_retired x)
    (lx_no_reuse x) (lx_last_drain_progress_at x).
Definition upd_peer_fin (n : Z) (x : LeaseContext) : LeaseContext :=
  mkLease (lx_id x) (lx_read x) (lx_write x) (lx_tx_bytes x) (lx_rx_bytes x) (Some n) (lx_pending_done x)
    (lx_local_write_fin_sent x) true (lx_local_read_done_sent x)
    (lx_peer_read_done_received x) (lx_read_released x) (lx_write_released x) (lx_retired x)
    (lx_no_reuse x) (lx_last_drain_progress_at x).
Definition upd_pending_done (o : option Z) (x : LeaseContext) : LeaseContext :=
  mkLease (lx_id x) (lx_read x) (lx_write x) (lx_tx_bytes x) (lx_rx_bytes x) (lx_peer_final_tx_bytes x) o
    (lx_local_write_fin_sent x) (lx_peer_write_fin_received x) (lx_local_read_done_sent x)
    (lx_peer_read_done_received x) (lx_read_released x) (lx_write_released x) (lx_retired x)
    (lx_no_reuse x) (lx_last_drain_progress_at x).
Definition upd_fin_sent (x : LeaseContext) : LeaseContext :=
  mkLease (lx_id x) (lx_read x) (lx_write x) (lx_tx_bytes x) (lx_rx_bytes x) (lx_peer_final_tx_bytes x)
    (lx_pending_done x) true (lx_peer_write_fin_received x) (lx_local_read_done_sent x)
    (lx_peer_read_done_received x) (lx_read_released x) (lx_write_released x) (lx_retired x)
    (lx_no_reuse x) (lx_last_drain_progress_at x).
Definition upd_done_sent (x : LeaseContext) : LeaseContext :=
  mkLease (lx_id x) (lx_read x) (lx_write x) (lx_tx_bytes x) (lx_rx_bytes x) (lx_peer_final_tx_bytes x)
    (lx_pending_done x) (lx_local_write_fin_sent x) (lx_peer_write_fin_received x) true
    (lx_peer_read_done_received x) (lx_read_released x) (lx_write_released x) (lx_retired x)
    (lx_no_reuse x) (lx_last_drain_progress_at x).
Definition upd_done_received (x : LeaseContext) : LeaseContext :=
  mkLease (lx_id x) (lx_read x) (lx_write x) (lx_tx_bytes x) (lx_rx_bytes x) (lx_peer_final_tx_bytes x)
    (lx_pending_done x) (lx_local_write_fin_sent x) (lx_peer_write_fin_received x)
    (lx_local_read_done_sent x) true (lx_read_released x) (lx_write_released x) (lx_retired x)
    (lx_no_reuse x) (lx_last_drain_progress_at x).
Definition upd_released (r w : bool) (x : LeaseContext) : LeaseContext :=
  mkLease (lx_id x) (lx_read x) (lx_write x) (lx_tx_bytes x) (lx_rx_bytes x) (lx_peer_final_tx_bytes x)
    (lx_pending_done x) (lx_local_write_fin_sent x) (lx_peer_write_fin_received x)
    (lx_local_read_done_sent x) (lx_peer_read_done_received x) r w (lx_retired x)
    (lx_no_reuse x) (lx_last_drain_progress_at x).
Definition upd_retired (x : LeaseContext) : LeaseContext :=
  mkLease (lx_id x) false false (lx_tx_bytes x) (lx_rx_bytes x) (lx_peer_final_tx_bytes x)
    (lx_pending_done x) (lx_local_write_fin_sent x) (lx_peer_write_fin_received x)
    (lx_local_read_done_sent x) (lx_peer_read_done_received x) (lx_read_released x) (lx_write_released x)
    true (lx_no_reuse x) (lx_last_drain_progress_at x).
Definition upd_no_reuse (x : LeaseContext) : LeaseContext :=
  mkLease (lx_id x) (lx_read x) (lx_write x) (lx_tx_bytes x) (lx_rx_bytes x) (lx_peer_final_tx_bytes x)
    (lx_pending_done x) (lx_local_write_fin_sent x) (lx_peer_write_fin_received x)
    (lx_local_read_done_sent x) (lx_peer_read_done_received x) (lx_read_released x) (lx_write_released x)
    (lx_retired x) true (lx_last_drain_progress_at x).
Definition upd_progress (o : option Z) (x : LeaseContext) : LeaseContext :=
  mkLease (lx_id x) (lx_read x) (lx_write x) (lx_tx_bytes x) (lx_rx_bytes x) (lx_peer_final_tx_bytes x)
    (lx_pending_done x) (lx_local_write_fin_sent x) (lx_peer_write_fin_received x)
    (lx_local_read_done_sent x) (lx_peer_read_done_received x) (lx_read_released x) (lx_write_released x)
    (lx_retired x) (lx_no_reuse x) o.

Definition can_send_read_done (x : LeaseContext) : bool :=
  lx_peer_write_fin_received x
  && bool_decide (lx_peer_final_tx_bytes x = Some (lx_rx_bytes x))
  && negb (lx_local_read_done_sent x).

Definition ready_for_idle (x : LeaseContext) : bool :=
  lx_local_write_fin_sent x && lx_peer_write_fin_received x && lx_local_read_done_sent x
  && lx_peer_read_done_received x && lx_read_released x && lx_write_released x
  && negb (lx_retired x) && negb (lx_no_reuse x).

Definition ready_for_close (x : LeaseContext) : bool :=
  lx_read_released x && lx_write_released x && (lx_retired x || lx_no_reuse x).

(** ** Effects of lease operations *)
Inductive Effect :=
| EDraining                    (* entry: Bound becomes Draining *)
| ESendFin (m : WriteFin)      (* task: send WriteFin, then finalize or retire *)
| ESendDone (m : ReadDone)     (* task: send ReadDone, then finalize or retire *)
| ERetired (reason : P2pErrorCode.t) (* entry retired and unregistered, its claim failed *)
| EClosed                      (* entry retired and unregistered *)
| EToIdle                      (* stream put back, entry Idle *)
| EDrainTimer (at_ : Z)        (* task: retire when no progress since [at_] *)
| EObserver                    (* task: the hidden zero-read observer *)
| EFinalizeCheck.              (* task: poll [maybe_finalize_lease] *)

Definition LeaseM := LeaseContext -> LeaseContext * list Effect.
Definition lm_ret : LeaseM := fun x => (x, []).
Definition lm_seq (f g : LeaseM) : LeaseM :=
  fun x => let '(x1, e1) := f x in let '(x2, e2) := g x1 in (x2, e1 ++ e2).
Definition lm_emit (e : Effect) : LeaseM := fun x => (x, [e]).
Declare Scope lease_scope.
Notation "f ;;; g" := (lm_seq f g) (at level 80, right associativity) : lease_scope.
Local Open Scope lease_scope.

Definition retire_lease_arc (reason : P2pErrorCode.t) : LeaseM := fun x =>
  if lx_retired x then (x, []) else (upd_retired x, [ERetired reason]).

Definition maybe_finalize_lease : LeaseM := fun x =>
  if ready_for_idle x then
    if negb (lx_read x) || negb (lx_write x) then (x, [])
    else (upd_halves false false x, [EToIdle])
  else if ready_for_close x then (upd_retired x, [EClosed])
  else (x, []).

(** [matches!(peer_final, Some(f) if fin_received && rx < f)]: the peer has
    bytes on the way that were not read yet. *)
Definition drain_outstanding (x : LeaseContext) : bool :=
  match lx_peer_final_tx_bytes x with
  | Some f => lx_peer_write_fin_received x && (lx_rx_bytes x <? f)
  | None => false
  end.

Definition note_drain_progress (now : Z) : LeaseM := fun x =>
  if negb (drain_outstanding x) then (upd_progress None x, [])
  else (upd_progress (Some now) x, [EDrainTimer now]).

(** The body of the drain timer once its sleep ends. *)
Definition drain_timeout_fires (observed_at : Z) : LeaseM := fun x =>
  if bool_decide (lx_last_drain_progress_at x = Some observed_at) && drain_outstanding x && negb (lx_retired x)
  then retire_lease_arc P2pErrorCode.Interrupted x else (x, []).

Definition spawn_send_write_fin : LeaseM := fun x =>
  if lx_local_write_fin_sent x || lx_retired x then (x, [])
  else
    let x1 := upd_pending_done None (upd_fin_sent x) in
    let '(x2, should_retire) :=
      match lx_pending_done x with
      | Some n => if n =? lx_tx_bytes x then (upd_done_received x1, false) else (x1, true)
      | None => (x1, false)
      end in
    let fin := mkWriteFin (li_channel_id (lx_id x)) (li_conn_id (lx_id x)) (li_lease_seq (lx_id x))
                 (lx_tx_bytes x) in
    (lm_emit EDraining ;;; (if should_retire then retire_lease_arc P2pErrorCode.Interrupted else lm_emit (ESendFin fin))) x2.

Definition spawn_send_read_done : LeaseM := fun x =>
  if negb (can_send_read_done x) || lx_retired x then (x, [])
  else
    let done_ := mkReadDone (li_channel_id (lx_id x)) (li_conn_id (lx_id x)) (li_lease_seq (lx_id x))
                   (lx_rx_bytes x) in
    (lm_emit EDraining ;;; lm_emit (ESendDone done_)) (upd_done_sent x).

(** The end of a spawned send: [Err] retires the lease. *)
Definition send_task_end (sent : bool) : LeaseM :=
  if sent then maybe_finalize_lease else retire_lease_arc P2pErrorCode.Interrupted.

(** What a method decided while it held the lock. *)
Inductive LeaseAction := ActNothing | ActRetire | ActSendReadDone | ActRefresh.
Definition act (now : Z) (a : LeaseAction) : LeaseM :=
  match a with
  | ActNothing => lm_ret
  | ActRetire => retire_lease_arc P2pErrorCode.Interrupted
  | ActSendReadDone => spawn_send_read_done
  | ActRefresh => note_drain_progress now
  end.

(** The choice shared by [after_read] and the observer once bytes were counted. *)
Definition drain_action (x : LeaseContext) : LeaseAction :=
  match lx_peer_final_tx_bytes x with
  | Some f =>
      if f <? lx_rx_bytes x then ActRetire
      else if can_send_read_done x then ActSendReadDone
      else if lx_peer_write_fin_received x && (lx_rx_bytes x <? f) then ActRefresh
      else ActNothing
  | None => ActNothing
  end.

Definition after_read (now read_len : Z) (eof : bool) : LeaseM := fun x =>
  if lx_retired x then (x, [])
  else if 0 <? read_len then
    let x1 := upd_counts (lx_tx_bytes x) (lx_rx_bytes x + read_len) x in
    act now (if li_hidden_zero_read (lx_id x1) then ActRetire else drain_action x1) x1
  else if eof then act now ActRetire x
  else (x, []).

(** [poll_read] and [poll_write] of a lease half; the result of the transport
    is an input, absent when the half was released. *)
Inductive IoResult := IoPending | IoReady (n : Z) | IoFailed.
Definition lease_poll_read (now : Z) (io : IoResult) : LeaseM := fun x =>
  if lx_read x then
    match io with
    | IoReady n => after_read now n (n =? 0) x
    | IoFailed => retire_lease_arc P2pErrorCode.IoError x
    | IoPending => (x, [])
    end
  else retire_lease_arc P2pErrorCode.IoError x.
Definition lease_poll_write (io : IoResult) : LeaseM := fun x =>
  if lx_write x then
    match io with
    | IoReady n => (upd_counts (lx_tx_bytes x + n) (lx_rx_bytes x) x, [])
    | IoFailed => retire_lease_arc P2pErrorCode.IoError x
    | IoPending => (x, [])
    end
  else retire_lease_arc P2pErrorCode.IoError x.
(** [poll_flush] and [poll_shutdown] touch the lease only when they fail. *)
Definition lease_poll_flush (io : IoResult) : LeaseM := fun x =>
  if lx_write x then match io with IoFailed => retire_lease_arc P2pErrorCode.IoError x | _ => (x, []) end
  else retire_lease_arc P2pErrorCode.IoError x.

Definition release_read_half : LeaseM := fun x =>
  if lx_read_released x then (x, [])
  else
    let x1 := upd_released true (lx_write_released x) x in
    let a :=
      if lx_peer_write_fin_received x1 then
        if bool_decide (lx_peer_final_tx_bytes x1 = Some (lx_rx_bytes x1)) then
          if can_send_read_done x1 then ActSendReadDone else ActNothing
        else ActRetire
      else ActNothing in
    (act 0 a ;;; maybe_finalize_lease) x1.

Definition release_write_half : LeaseM := fun x =>
  if lx_write_released x then (x, [])
  else
    let x1 := upd_released (lx_read_released x) true x in
    ((if lx_local_write_fin_sent x1 then lm_ret else spawn_send_write_fin) ;;; maybe_finalize_lease) x1.

(** ** Peer messages for a bound lease *)

(** [a < b] on lease sequence numbers is the serial comparison of tunnel ids. *)
Definition seq_lt (a b : Z) : bool := bool_decide (TunnelId_partial_cmp a b = Some Lt).

(** Recording a peer's final count: the block that [handle_write_fin] and the
    two replays of [bind_entry_to_lease] share. *)
Definition record_fin (n : Z) (x : LeaseContext) : LeaseContext * bool * bool :=
  let bad := li_hidden_zero_read (lx_id x) && negb (n =? 0) in
  let x1 := upd_peer_fin n x in
  if lx_read_released x1 && negb (lx_rx_bytes x1 =? n) then (x1, true, false)
  else (x1, bad, can_send_read_done x1).

(** The lease part of [handle_write_fin]; [None] is the early return. *)
Definition lease_write_fin (now : Z) (fin : WriteFin) (x : LeaseContext)
  : option (LeaseContext * list Effect) :=
  let finish (x1 : LeaseContext) (a : LeaseAction) :=
    Some ((lm_emit EDraining ;;; act now a ;;; maybe_finalize_lease) x1) in
  if negb (li_lease_seq (lx_id x) =? wf_lease_seq fin) then
    if seq_lt (wf_lease_seq fin) (li_lease_seq (lx_id x)) then None else finish x ActRetire
  else if negb (li_channel_id (lx_id x) =? wf_channel_id fin) then finish x ActRetire
  else if lx_peer_write_fin_received x then
    finish x (if bool_decide (lx_peer_final_tx_bytes x = Some (wf_final_tx_bytes fin))
              then ActNothing else ActRetire)
  else
    let n := wf_final_tx_bytes fin in
    let '(x1, bad, send_done) := record_fin n x in
    finish x1 (if bad then ActRetire
               else if send_done then ActSendReadDone
               else if lx_rx_bytes x1 <? n then ActRefresh else ActNothing).

(** The lease part of [handle_read_done]; [None] is the early return without an
    effect. *)
Definition lease_read_done (d : ReadDone) (x : LeaseContext) : option (LeaseContext * list Effect) :=
  let finalize (x1 : LeaseContext) := Some ((maybe_finalize_lease ;;; lm_emit EFinalizeCheck) x1) in
  if negb (li_lease_seq (lx_id x) =? rd_lease_seq d) then
    if seq_lt (rd_lease_seq d) (li_lease_seq (lx_id x)) then None else Some (retire_lease_arc P2pErrorCode.Interrupted x)
  else if negb (li_channel_id (lx_id x) =? rd_channel_id d) then Some (retire_lease_arc P2pErrorCode.Interrupted x)
  else if negb (lx_local_write_fin_sent x) then
    match lx_pending_done x with
    | Some v => if negb (v =? rd_final_rx_bytes d) then Some (retire_lease_arc P2pErrorCode.Interrupted x) else None
    | None => Some (lm_emit EDraining (upd_pending_done (Some (rd_final_rx_bytes d)) x))
    end
  else if negb (rd_final_rx_bytes d =? lx_tx_bytes x) then Some (retire_lease_arc P2pErrorCode.Interrupted x)
  else finalize (upd_done_received x).

(** ** Binding: facts that arrived before the claim was settled are replayed *)
Record PendingDrainFacts := mkDrain {
  pd_write_fin : option WriteFin; pd_read_done : option ReadDone; pd_updated_at : Z }.

(** [(read_released, write_released, hidden_zero_read, auto_write_fin_zero)]. *)
Definition bind_flags (kind : TcpChannelKind) (local_initiator : bool) : bool * bool * bool * bool :=
  match kind, local_initiator with
  | KindStream, _ => (false, false, false, false)
  | KindDatagram, true => (true, false, true, false)
  | KindDatagram, false => (false, true, false, true)
  end.

Definition lease_context_new (entry : nat) (conn_id seq channel_id : Z) (kind : TcpChannelKind)
    (purpose : list Z) (local_initiator : bool) : LeaseContext :=
  let '(rr, wr, hidden, _) := bind_flags kind local_initiator in
  mkLease (mkLeaseId entry conn_id seq channel_id kind purpose local_initiator hidden)
    true true 0 0 None None false false false false rr wr false false None.

(** One replayed [WriteFin]; [ok] says that it names this lease and channel. *)
Definition replay_fin (o : option WriteFin) (ok : WriteFin -> bool)
    (s : LeaseContext * bool * bool) : LeaseContext * bool * bool :=
  match o with
  | None => s
  | Some fin =>
      let '(x, retire, send) := s in
      if ok fin then
        let '(x1, bad, send') := record_fin (wf_final_tx_bytes fin) x in
        (x1, retire || bad, send || send')
      else (x, true, send)
  end.
Definition replay_done (o : option ReadDone) (ok : ReadDone -> bool)
    (s : LeaseContext * bool * bool) : LeaseContext * bool * bool :=
  match o with
  | None => s
  | Some d =>
      let '(x, retire, send) := s in
      if ok d then (upd_pending_done (Some (rd_final_rx_bytes d)) x, retire, send)
      else (x, true, send)
  end.

Definition bind_lease (now : Z) (pfin : option WriteFin) (pdone : option ReadDone)
    (drain : option PendingDrainFacts) : LeaseM := fun x =>
  let i := lx_id x in
  let dfin := d ← drain; pd_write_fin d in
  let ddone := d ← drain; pd_read_done d in
  let fin_here (f : WriteFin) := (wf_lease_seq f =? li_lease_seq i) && (wf_channel_id f =? li_channel_id i) in
  let done_here (d : ReadDone) := (rd_lease_seq d =? li_lease_seq i) && (rd_channel_id d =? li_channel_id i) in
  let s0 := replay_done pdone done_here (replay_fin pfin fin_here (x, false, false)) in
  let '(x1, retire, send) :=
    replay_done ddone (fun d => rd_channel_id d =? li_channel_id i)
      (replay_fin dfin (fun f => wf_channel_id f =? li_channel_id i) s0) in
  let marked := bool_decide (is_Some pfin) || bool_decide (is_Some pdone)
                || bool_decide (is_Some dfin) || bool_decide (is_Some ddone) in
  let '(_, _, hidden, auto_fin) := bind_flags (li_kind i) (li_local_initiator i) in
  ((if marked then lm_emit EDraining else lm_ret) ;;;
   (if hidden then lm_emit EObserver else lm_ret) ;;;
   (if auto_fin then spawn_send_write_fin else lm_ret) ;;;
   (if retire then retire_lease_arc P2pErrorCode.Interrupted else if send then spawn_send_read_done else lm_ret) ;;;
   note_drain_progress now) x1.

(** ** The hidden observer of a send-only datagram lease

    The initiator of a datagram channel has no reader, so a task reads the
    connection in its place: it takes the read half, waits at most 100 ms, puts
    the half back and decides.  [observer_take] is the top of its loop and
    [observer_result] the rest; the boolean says that the loop goes on. *)
Definition observer_take (x : LeaseContext) : LeaseContext * list Effect * bool :=
  if lx_retired x then let '(x1, e) := maybe_finalize_lease x in (x1, e, false)
  else if lx_read x then (upd_halves false (lx_write x) x, [], true)
  else (x, [], false).

Inductive ObserverRead := ObsTimeout | ObsBytes (n : Z) | ObsFailed.

Definition observer_result (now : Z) (r : ObserverRead) (x0 : LeaseContext)
  : LeaseContext * list Effect * bool :=
  let x := upd_halves true (lx_write x0) x0 in
  if lx_retired x then let '(x1, e) := maybe_finalize_lease x in (x1, e, false)
  else
    let '(x1, retire, send) :=
      match r with
      | ObsBytes n => if n =? 0 then (x, true, false)
                      else (upd_counts (lx_tx_bytes x) (lx_rx_bytes x + n) x, 0 <? n, false)
      | ObsFailed => (x, true, false)
      | ObsTimeout => (x, false, can_send_read_done x)
      end in
    if ready_for_idle x1 || ready_for_close x1 then
      let '(x2, e) := maybe_finalize_lease x1 in (x2, e, false)
    else
      let '(retire, send, refresh) :=
        if retire then (true, send, false)
        else match drain_action x1 with
             | ActRetire => (true, send, false)
             | ActSendReadDone => (false, true, false)
             | ActRefresh => (false, send, true)
             | ActNothing => (false, send, false)
             end in
      if retire then let '(x2, e) := retire_lease_arc P2pErrorCode.Interrupted x1 in (x2, e, false)
      else if send then let '(x2, e) := (spawn_send_read_done ;;; maybe_finalize_lease) x1 in (x2, e, false)
      else if refresh then let '(x2, e) := note_drain_progress now x1 in (x2, e, true)
      else (x1, [], true).

(** When the observer's read ends the connection (end of file or an error) at a
    moment where everything else is settled, the connection still goes back to
    the pool: the readiness test precedes the retirement the read asked for. *)
Lemma observer_idles_dead_connection now r x :
  ready_for_idle x = true -> lx_write x = true -> (r = ObsBytes 0 \/ r = ObsFailed) ->
  exists x', observer_result now r x = (x', [EToIdle], false).
Proof.
  intros Hr Hw Hio. assert (lx_retired x = false) as Hnr by (unfold ready_for_idle in Hr; by bool_to_prop).
  unfold observer_result. simpl. rewrite Hnr. destruct Hio as [-> | ->]; simpl;
    (replace (ready_for_idle (upd_halves true (lx_write x) x)) with true by done); simpl;
    unfold maybe_finalize_lease; (replace (ready_for_idle (upd_halves true (lx_write x) x)) with true by done);
    simpl; rewrite Hw; eauto.
Qed.
