(* ===== verification/TcpDrain.v ===== *)
(** * Two ends of a lease: a connection is reused only when it is empty

    The two ends of one lease, each running the lease operations of file
    TcpLease, joined by the two directions of the data connection and by the
    control connection.  One end has accepted the claim; the other is bound
    when the acknowledgement arrives, until then it stages what the peer
    reports.  Sends are tasks of the executor: they may run, or fail, at any
    later time and in any order, so the control messages of a lease are a bag.
    Handles are used and dropped at any time, the transport may fail, the
    tunnel may close, timers may fire. *)
From S2P Require Import Prelude Errors Ids Endpoint Codec TunnelCommand TcpLease.

#[local] Open Scope lease_scope.

Inductive Msg := MFin (m : WriteFin) | MDone (m : ReadDone).
Inductive Obs := ObsOff | ObsTop | ObsHolds.

Record Side := mkSide {
  sd_bound : bool;            (* the entry is bound to the lease *)
  sd_lease : LeaseContext;
  sd_pfin : option WriteFin;  (* staged while the claim is pending *)
  sd_pdone : option ReadDone;
  sd_obs : Obs;
  sd_tasks : list Msg;        (* sends not yet executed *)
  sd_wire : list Msg;         (* sent, not yet handled by the peer *)
  sd_data : Z;                (* bytes written, not yet read by the peer *)
  sd_idle : bool }.           (* the connection went back to the pool *)

Definition sends (es : list Effect) : list Msg :=
  omap (fun e => match e with ESendFin m => Some (MFin m) | ESendDone m => Some (MDone m) | _ => None end) es.
Definition is_to_idle (e : Effect) : bool := match e with EToIdle => true | _ => false end.
Definition is_observer (e : Effect) : bool := match e with EObserver => true | _ => false end.

(** The effects of a lease operation on its end. *)
Definition absorb (s : Side) (r : LeaseContext * list Effect) : Side :=
  mkSide true (fst r) (sd_pfin s) (sd_pdone s)
    (if existsb is_observer (snd r) then ObsTop else sd_obs s)
    (sd_tasks s ++ sends (snd r)) (sd_wire s) (sd_data s)
    (sd_idle s || existsb is_to_idle (snd r)).

Definition set_obs (o : Obs) (s : Side) : Side :=
  mkSide (sd_bound s) (sd_lease s) (sd_pfin s) (sd_pdone s) o (sd_tasks s) (sd_wire s) (sd_data s) (sd_idle s).
Definition set_tasks (l : list Msg) (s : Side) : Side :=
  mkSide (sd_bound s) (sd_lease s) (sd_pfin s) (sd_pdone s) (sd_obs s) l (sd_wire s) (sd_data s) (sd_idle s).
Definition set_wire (l : list Msg) (s : Side) : Side :=
  mkSide (sd_bound s) (sd_lease s) (sd_pfin s) (sd_pdone s) (sd_obs s) (sd_tasks s) l (sd_data s) (sd_idle s).
Definition set_data (n : Z) (s : Side) : Side :=
  mkSide (sd_bound s) (sd_lease s) (sd_pfin s) (sd_pdone s) (sd_obs s) (sd_tasks s) (sd_wire s) n (sd_idle s).
Definition set_staged (f : option WriteFin) (d : option ReadDone) (s : Side) : Side :=
  mkSide (sd_bound s) (sd_lease s) f d (sd_obs s) (sd_tasks s) (sd_wire s) (sd_data s) (sd_idle s).

(** A message for a bound lease; once the entry is idle it is ignored. *)
Definition side_deliver (now : Z) (m : Msg) (s : Side) : Side :=
  if sd_idle s then s
  else match (match m with MFin f => lease_write_fin now f (sd_lease s)
                         | MDone d => lease_read_done d (sd_lease s) end) with
       | Some r => absorb s r
       | None => s
       end.

(** A message that arrives while the claim is pending is staged once. *)
Definition stage (m : Msg) (s : Side) : option Side :=
  match m with
  | MFin f => match sd_pfin s with None => Some (set_staged (Some f) (sd_pdone s) s) | Some _ => None end
  | MDone d => match sd_pdone s with None => Some (set_staged (sd_pfin s) (Some d) s) | Some _ => None end
  end.

(** The acknowledgement binds the entry: staged facts sit both in the entry and
    in the table of pending drains. *)
Definition bind (now : Z) (s : Side) : Side :=
  set_staged None None
    (absorb s (bind_lease now (sd_pfin s) (sd_pdone s)
                 (match sd_pfin s, sd_pdone s with
                  | None, None => None | f, d => Some (mkDrain f d now) end) (sd_lease s))).

Inductive side_step : Side -> Side -> Side -> Side -> Prop :=
| SBind now s p : sd_bound s = false -> side_step s p (bind now s) p
| SStage m w1 w2 s p s' : sd_bound s = false -> sd_wire p = w1 ++ m :: w2 -> stage m s = Some s' ->
    side_step s p s' (set_wire (w1 ++ w2) p)
| SDeliver now m w1 w2 s p : sd_bound s = true -> sd_wire p = w1 ++ m :: w2 ->
    side_step s p (side_deliver now m s) (set_wire (w1 ++ w2) p)
| STaskSent m t1 t2 s p : sd_bound s = true -> sd_tasks s = t1 ++ m :: t2 ->
    side_step s p (absorb (set_wire (sd_wire s ++ [m]) (set_tasks (t1 ++ t2) s))
                     (send_task_end true (sd_lease s))) p
| STaskFailed m t1 t2 s p : sd_bound s = true -> sd_tasks s = t1 ++ m :: t2 ->
    side_step s p (absorb (set_tasks (t1 ++ t2) s) (send_task_end false (sd_lease s))) p
| SWrite n s p : sd_bound s = true -> lx_write_released (sd_lease s) = false ->
    lx_write (sd_lease s) = true -> 0 <= n ->
    side_step s p (set_data (sd_data s + n) (absorb s (lease_poll_write (IoReady n) (sd_lease s)))) p
| SWriteFail s p : sd_bound s = true -> lx_write_released (sd_lease s) = false ->
    side_step s p (absorb s (lease_poll_write IoFailed (sd_lease s))) p
| SRead now n s p : sd_bound s = true -> lx_read_released (sd_lease s) = false ->
    lx_read (sd_lease s) = true -> 0 < n <= sd_data p -> lx_retired (sd_lease s) = false ->
    side_step s p (absorb s (lease_poll_read now (IoReady n) (sd_lease s))) (set_data (sd_data p - n) p)
| SReadEnd now io s p : sd_bound s = true -> lx_read_released (sd_lease s) = false ->
    io = IoReady 0 \/ io = IoFailed ->
    side_step s p (absorb s (lease_poll_read now io (sd_lease s))) p
| SDropRead s p : sd_bound s = true -> side_step s p (absorb s (release_read_half (sd_lease s))) p
| SDropWrite s p : sd_bound s = true -> side_step s p (absorb s (release_write_half (sd_lease s))) p
| SCloseTunnel s p : sd_bound s = true -> sd_idle s = false ->
    side_step s p (absorb s (upd_no_reuse (sd_lease s), [])) p
| SRetire reason s p : sd_bound s = true -> side_step s p (absorb s (retire_lease_arc reason (sd_lease s))) p
| SFinalize s p : sd_bound s = true -> side_step s p (absorb s (maybe_finalize_lease (sd_lease s))) p
| SObsTake s p x e b : sd_bound s = true -> sd_obs s = ObsTop ->
    observer_take (sd_lease s) = (x, e, b) ->
    side_step s p (set_obs (if b then ObsHolds else ObsOff) (absorb s (x, e))) p
| SObsResult now r s p x e b : sd_bound s = true -> sd_obs s = ObsHolds ->
    (match r with ObsBytes n => lx_retired (sd_lease s) = false /\ 0 <= n <= sd_data p | _ => True end) ->
    observer_result now r (sd_lease s) = (x, e, b) ->
    side_step s p (set_obs (if b then ObsTop else ObsOff) (absorb s (x, e)))
      (match r with ObsBytes n => set_data (sd_data p - n) p | _ => p end).

Definition sys : Type := Side * Side.
Inductive sys_step : sys -> sys -> Prop :=
| StepL a b a' b' : side_step a b a' b' -> sys_step (a, b) (a', b')
| StepR a b a' b' : side_step b a b' a' -> sys_step (a, b) (a', b').

(** The claimer and the acceptor of one lease. *)
Definition unbound (x : LeaseContext) : Side := mkSide false x None None ObsOff [] [] 0 false.
Definition start (now : Z) (e1 e2 : nat) (conn seq ch : Z) (kind : TcpChannelKind) (purpose : list Z) : sys :=
  (unbound (lease_context_new e1 conn seq ch kind purpose true),
   bind now (unbound (lease_context_new e2 conn seq ch kind purpose false))).

(** ** The invariant *)
Definition as_fin (m : Msg) : option WriteFin := match m with MFin f => Some f | MDone _ => None end.
Definition as_done (m : Msg) : option ReadDone := match m with MDone d => Some d | MFin _ => None end.
Definition flight (s : Side) : list Msg := sd_tasks s ++ sd_wire s.
Definition fins (s : Side) : list WriteFin := omap as_fin (flight s).
Definition dones (s : Side) : list ReadDone := omap as_done (flight s).
Definition occ {A} (o : option A) : nat := match o with Some _ => 1%nat | None => 0%nat end.

Notation fin_sent s := (lx_local_write_fin_sent (sd_lease s)).
Notation done_sent s := (lx_local_read_done_sent (sd_lease s)).
Notation peer_final s := (lx_peer_final_tx_bytes (sd_lease s)).
Notation pending s := (lx_pending_done (sd_lease s)).
Notation done_rcvd s := (lx_peer_read_done_received (sd_lease s)).
Notation tx s := (lx_tx_bytes (sd_lease s)).
Notation rx s := (lx_rx_bytes (sd_lease s)).

(** What a [WriteFin] of [w] and a [ReadDone] of [r] in flight say. *)
Definition fin_ok (w : Side) (f : WriteFin) : Prop := fin_sent w = true /\ wf_final_tx_bytes f = tx w.
Definition done_ok (r : Side) (d : ReadDone) : Prop := done_sent r = true /\ rd_final_rx_bytes d = rx r.

(** The direction from the writer [w] to the reader [r]. *)
Record dir (w r : Side) : Prop := {
  d_bytes : tx w = rx r + sd_data w /\ 0 <= sd_data w;
  d_fin_msg : forall f, f ∈ fins w -> fin_ok w f;
  d_fin_staged : forall f, sd_pfin r = Some f -> fin_ok w f;
  d_fin_seen : forall n, peer_final r = Some n -> fin_sent w = true /\ n = tx w;
  d_fin_rel : fin_sent w = true -> lx_write_released (sd_lease w) = true;
  d_fin_once : (length (fins w) + occ (sd_pfin r) + occ (peer_final r) <= 1)%nat;
  d_done_msg : forall d, d ∈ dones r -> done_ok r d;
  d_done_staged : forall d, sd_pdone w = Some d -> done_ok r d;
  d_done_pending : forall n, pending w = Some n -> done_sent r = true /\ n = rx r;
  d_done_sent : done_sent r = true -> peer_final r = Some (rx r);
  d_done_rcvd : done_rcvd w = true -> done_sent r = true;
  d_done_once : (length (dones r) + occ (sd_pdone w) + occ (pending w) + (if done_rcvd w then 1 else 0) <= 1)%nat;
}.

Definition auto_fin (x : LeaseContext) : bool := snd (bind_flags (li_kind (lx_id x)) (li_local_initiator (lx_id x))).

Record side_ok (s : Side) : Prop := {
  so_auto : auto_fin (sd_lease s) = true -> lx_write_released (sd_lease s) = true;
  so_seen : lx_peer_write_fin_received (sd_lease s) = true -> is_Some (peer_final s);
  so_idle : sd_idle s = true ->
    fin_sent s = true /\ is_Some (peer_final s) /\ done_sent s = true /\ done_rcvd s = true;
}.

Record inv (s p : Side) : Prop := {
  i_out : dir s p; i_in : dir p s; i_me : side_ok s; i_peer : side_ok p }.

Lemma inv_sym s p : inv s p -> inv p s.
Proof. intros []. by split. Qed.

Lemma sends_app e1 e2 : sends (e1 ++ e2) = sends e1 ++ sends e2.
Proof. apply omap_app. Qed.

Lemma existsb_or {A} (f : A -> bool) l k : existsb f (l ++ k) = existsb f l || existsb f k.
Proof. apply existsb_app. Qed.

Lemma absorb_seq s f g x :
  absorb s (lm_seq f g x) = absorb (absorb s (f x)) (g (fst (f x))).
Proof.
  unfold lm_seq. destruct (f x) as [x1 e1]. simpl. destruct (g x1) as [x2 e2]. unfold absorb; simpl.
  rewrite sends_app, !existsb_or, app_assoc, orb_assoc. f_equal.
  by destruct (existsb is_observer e1), (existsb is_observer e2).
Qed.

Lemma absorb_nil s : sd_bound s = true -> absorb s (sd_lease s, []) = s.
Proof. intros. destruct s; unfold absorb; simpl in *. by rewrite app_nil_r, orb_false_r, H. Qed.

Lemma fins_eq s : fins s = omap as_fin (sd_tasks s) ++ omap as_fin (sd_wire s).
Proof. apply omap_app. Qed.
Lemma dones_eq s : dones s = omap as_done (sd_tasks s) ++ omap as_done (sd_wire s).
Proof. apply omap_app. Qed.

(** The fields the invariant reads. *)
Definition core_eq (x y : LeaseContext) : Prop :=
  lx_id y = lx_id x /\ lx_tx_bytes y = lx_tx_bytes x /\ lx_rx_bytes y = lx_rx_bytes x /\
  lx_peer_final_tx_bytes y = lx_peer_final_tx_bytes x /\ lx_pending_done y = lx_pending_done x /\
  lx_local_write_fin_sent y = lx_local_write_fin_sent x /\
  lx_peer_write_fin_received y = lx_peer_write_fin_received x /\
  lx_local_read_done_sent y = lx_local_read_done_sent x /\
  lx_peer_read_done_received y = lx_peer_read_done_received x /\
  (lx_write_released x = true -> lx_write_released y = true).

(** An operation that leaves those fields alone and sends nothing. *)
Lemma inv_frame s p x es :
  core_eq (sd_lease s) x -> sends es = [] ->
  (existsb is_to_idle es = true -> ready_for_idle (sd_lease s) = true) ->
  inv s p -> inv (absorb s (x, es)) p.
Proof.
  intros (Hid & Htx & Hrx & Hpf & Hpd & Hfs & Hfr & Hds & Hdr & Hwr) Hs Hidle [[] [] [] Hp].
  split; [..|exact Hp]; split; unfold fins, dones, flight, fin_ok, done_ok, auto_fin in *; simpl in *;
    rewrite ?Hs, ?app_nil_r, ?Htx, ?Hrx, ?Hpf, ?Hpd, ?Hfs, ?Hfr, ?Hds, ?Hdr, ?Hid; auto.
  intros Hor. destruct (sd_idle s); [auto|]. simpl in Hor. specialize (Hidle Hor).
  unfold ready_for_idle in Hidle. bool_to_prop. auto.
Qed.

Ltac frame := apply inv_frame; simpl; [repeat split; simpl; auto|done|done || auto|auto].

Lemma inv_retire reason s p : inv s p -> inv (absorb s (retire_lease_arc reason (sd_lease s))) p.
Proof. intros. unfold retire_lease_arc. case_match; frame. Qed.

Lemma inv_finalize s p : inv s p -> inv (absorb s (maybe_finalize_lease (sd_lease s))) p.
Proof. intros. unfold maybe_finalize_lease. repeat case_match; frame. Qed.

Lemma inv_progress now s p : inv s p -> inv (absorb s (note_drain_progress now (sd_lease s))) p.
Proof. intros. unfold note_drain_progress. case_match; frame. Qed.

Lemma inv_emit s p e : sends [e] = [] -> is_to_idle e = false -> inv s p -> inv (absorb s (lm_emit e (sd_lease s))) p.
Proof. intros He Hi ?. apply inv_frame; simpl; [repeat split; auto|done|by rewrite Hi|done]. Qed.

Lemma fins_absorb s x es : fins (absorb s (x, es)) ≡ₚ omap as_fin (sends es) ++ fins s.
Proof. rewrite !fins_eq. simpl. rewrite omap_app, <-app_assoc. solve_Permutation. Qed.
Lemma dones_absorb s x es : dones (absorb s (x, es)) ≡ₚ omap as_done (sends es) ++ dones s.
Proof. rewrite !dones_eq. simpl. rewrite omap_app, <-app_assoc. solve_Permutation. Qed.

(** Before the final count is sent, the peer knows nothing of it. *)
Lemma no_fin_before w r :
  dir w r -> fin_sent w = false -> fins w = [] /\ sd_pfin r = None /\ peer_final r = None.
Proof.
  intros [] Hf. split_and!.
  - destruct (fins w) as [|f l] eqn:Ef; [done|]. destruct (d_fin_msg0 f); [set_solver|congruence].
  - destruct (sd_pfin r) as [f|] eqn:Ef; [|done]. destruct (d_fin_staged0 f); congruence.
  - destruct (peer_final r) as [n|] eqn:Ef; [|done]. destruct (d_fin_seen0 n); congruence.
Qed.

(** Sending the final count: the writer is done, so the count is final.  A
    report of the peer that was waiting is settled at the same time. *)
Lemma dir_fin_sent w r m x es :
  dir w r -> fin_sent w = false -> lx_write_released (sd_lease w) = true ->
  omap as_fin (sends es) = [] \/ (omap as_fin (sends es) = [m] /\ wf_final_tx_bytes m = tx w) ->
  lx_local_write_fin_sent x = true -> lx_write_released x = true ->
  lx_tx_bytes x = tx w -> lx_pending_done x = None ->
  (lx_peer_read_done_received x = done_rcvd w \/ (lx_peer_read_done_received x = true /\ is_Some (pending w))) ->
  dir (absorb w (x, es)) r.
Proof.
  intros Hd Hns Hwr Hes Hf Hx Htx Hp Hdr. destruct (no_fin_before _ _ Hd Hns) as (Hfl & Hpf & Hpn).
  destruct Hd. split; simpl; rewrite ?Hf, ?Htx, ?Hp; auto.
  - intros f. rewrite fins_absorb, Hfl, app_nil_r. unfold fin_ok. simpl. rewrite Hf, Htx.
    destruct Hes as [->|[-> Hm]]; [set_solver|]. intros ->%list_elem_of_singleton. auto.
  - rewrite Hpf. done.
  - rewrite Hpn. done.
  - rewrite fins_absorb, Hfl, app_nil_r, Hpf, Hpn. destruct Hes as [->|[-> _]]; simpl; lia.
  - done.
  - destruct Hdr as [->|[-> [n Hn]]]; [done|]. intros _. by destruct (d_done_pending0 n).
  - destruct Hdr as [->|[-> [n Hn]]]; [simpl; lia|]. rewrite Hn in d_done_once0. simpl in *.
    destruct (done_rcvd w); lia.
Qed.

(** The reader's side of the other direction does not see the writer's fields. *)
Lemma dir_reader_frame w r x es :
  dir w r -> omap as_done (sends es) = [] ->
  lx_rx_bytes x = rx r -> lx_peer_final_tx_bytes x = peer_final r ->
  lx_local_read_done_sent x = done_sent r ->
  dir w (absorb r (x, es)).
Proof.
  intros [] Hes Hrx Hpf Hds. split; simpl; rewrite ?Hrx, ?Hpf, ?Hds; auto.
  - intros d. rewrite dones_absorb, Hes. unfold done_ok. simpl. rewrite Hrx, Hds. apply d_done_msg0.
  - intros d Hd. unfold done_ok. simpl. rewrite Hrx, Hds. by apply d_done_staged0.
  - rewrite dones_absorb, Hes. done.
Qed.

Lemma dir_writer_frame w r x es :
  dir w r -> omap as_fin (sends es) = [] ->
  lx_tx_bytes x = tx w -> lx_local_write_fin_sent x = fin_sent w -> lx_pending_done x = pending w ->
  lx_peer_read_done_received x = done_rcvd w ->
  (lx_write_released (sd_lease w) = true -> lx_write_released x = true) ->
  dir (absorb w (x, es)) r.
Proof.
  intros [] Hes Htx Hfs Hp Hdr Hwr. split; simpl; rewrite ?Htx, ?Hfs, ?Hp, ?Hdr; auto.
  - intros f. rewrite fins_absorb, Hes. unfold fin_ok. simpl. rewrite Htx, Hfs. apply d_fin_msg0.
  - intros f Hf. unfold fin_ok. simpl. rewrite Htx, Hfs. by apply d_fin_staged0.
  - rewrite fins_absorb, Hes. done.
Qed.

Lemma side_ok_frame s x es :
  side_ok s -> lx_id x = lx_id (sd_lease s) ->
  (lx_write_released (sd_lease s) = true -> lx_write_released x = true) ->
  (lx_peer_write_fin_received x = true -> is_Some (lx_peer_final_tx_bytes x)) ->
  existsb is_to_idle es = false ->
  (fin_sent s = true -> lx_local_write_fin_sent x = true) ->
  (is_Some (peer_final s) -> is_Some (lx_peer_final_tx_bytes x)) ->
  (done_sent s = true -> lx_local_read_done_sent x = true) ->
  (done_rcvd s = true -> lx_peer_read_done_received x = true) ->
  side_ok (absorb s (x, es)).
Proof.
  intros [] Hid Hwr Hseen He Hfs Hpf Hds Hdr. split; unfold auto_fin in *; simpl; rewrite ?Hid, ?He; auto.
  rewrite orb_false_r. intros Hi. destruct (so_idle0 Hi) as (? & ? & ? & ?). auto.
Qed.

Lemma inv_send_fin s p :
  lx_write_released (sd_lease s) = true -> inv s p ->
  inv (absorb s (spawn_send_write_fin (sd_lease s))) p.
Proof.
  intros Hwr Hinv. unfold spawn_send_write_fin.
  destruct (_ || _) eqn:E; [frame|]. bool_to_prop. rename H into Hns, H0 into Hnr.
  set (x1 := upd_pending_done None (upd_fin_sent (sd_lease s))).
  set (m := mkWriteFin _ _ _ _).
  assert (forall x es, (x = x1 \/ (x = upd_done_received x1 /\ is_Some (pending s))) ->
    es = [EDraining] \/ es = [EDraining; ESendFin m] -> inv (absorb s (x, es)) p) as Hmain.
  { intros x es Hx Hes. destruct Hinv as [Hout Hin Hme Hpe].
    assert (omap as_done (sends es) = [] /\ existsb is_to_idle es = false) as [? ?] by (by destruct Hes; subst es).
    split; [eapply (dir_fin_sent _ _ m)|eapply dir_reader_frame|eapply side_ok_frame|];
      auto; destruct Hx as [->|[-> ?]]; simpl; auto; destruct Hes; subst es; simpl; auto;
      try apply Hme. }
  assert (forall x, x = x1 \/ (x = upd_done_received x1 /\ is_Some (pending s)) ->
    inv (absorb s ((lm_emit EDraining ;;; lm_emit (ESendFin m)) x)) p) as Hsend
    by (intros x Hx; apply (Hmain x [EDraining; ESendFin m]); auto).
  destruct (lx_pending_done (sd_lease s)) as [n|] eqn:Hp; [|auto].
  destruct (n =? _); [apply Hsend; eauto|]. rewrite absorb_seq. simpl.
  apply (inv_retire _ (absorb s (x1, [EDraining]))). auto.
Qed.

(** Reporting a finished read. *)
Lemma inv_send_done s p : inv s p -> inv (absorb s (spawn_send_read_done (sd_lease s))) p.
Proof.
  intros Hinv. unfold spawn_send_read_done.
  destruct (_ || _) eqn:E; [frame|]. bool_to_prop. unfold can_send_read_done in *. bool_to_prop.
  rename H0 into Hnr, H into Hrcv, H1 into Hns, H2 into Hpf.
  set (m := mkReadDone _ _ _ _). set (x1 := upd_done_sent (sd_lease s)).
  change (_ x1) with (x1, [EDraining; ESendDone m]).
  destruct Hinv as [Hout Hin Hme Hpe]. split; [|..|exact Hpe].
  - by apply dir_writer_frame.
  - destruct Hin. assert (dones s = [] /\ sd_pdone p = None /\ pending p = None /\ done_rcvd p = false)
      as (Hd & Hpd & Hpn & Hr).
    { split_and!.
      - destruct (dones s) as [|d l] eqn:Ed; [done|]. destruct (d_done_msg0 d); [set_solver|congruence].
      - destruct (sd_pdone p) as [d|] eqn:Ed; [|done]. destruct (d_done_staged0 d); congruence.
      - destruct (pending p) as [n|] eqn:Ed; [|done]. destruct (d_done_pending0 n); congruence.
      - destruct (done_rcvd p) eqn:Ed; [|done]. by rewrite d_done_rcvd0 in Hns. }
    split; simpl; auto.
    + intros d. rewrite dones_absorb, Hd, app_nil_r. simpl. intros ->%list_elem_of_singleton. done.
    + rewrite Hpd. done.
    + rewrite Hpn. done.
    + rewrite dones_absorb, Hd, app_nil_r, Hpd, Hpn, Hr. simpl. lia.
  - apply side_ok_frame; simpl; auto; apply Hme.
Qed.

Lemma inv_act now a s p : inv s p -> inv (absorb s (act now a (sd_lease s))) p.
Proof.
  intros. destruct a; simpl; [frame|by apply inv_retire|by apply inv_send_done|by apply inv_progress].
Qed.

(** Sequencing: the lease a step starts from is the one the end holds. *)
Lemma inv_seq (f g : LeaseM) s p x :
  (inv (absorb s (f x)) p) ->
  (forall s', sd_lease s' = fst (f x) -> inv s' p -> inv (absorb s' (g (sd_lease s'))) p) ->
  inv (absorb s ((f ;;; g) x)) p.
Proof. intros Hf Hg. rewrite absorb_seq. by apply (Hg (absorb s (f x))). Qed.

(** Messages leave the wire of the peer. *)
Lemma omap_take {B} (f : Msg -> option B) s w1 w2 m :
  sd_wire s = w1 ++ m :: w2 ->
  omap f (flight s) ≡ₚ option_list (f m) ++ omap f (flight (set_wire (w1 ++ w2) s)).
Proof.
  intros Hw. unfold flight. simpl. rewrite Hw, !omap_app. simpl.
  destruct (f m); simpl; [|done]. solve_Permutation.
Qed.

Lemma inv_take s p w1 w2 m :
  inv s p -> sd_wire p = w1 ++ m :: w2 ->
  let p' := set_wire (w1 ++ w2) p in
  inv s p' /\
  match m with
  | MFin f => fin_ok p' f /\ sd_pfin s = None /\ peer_final s = None /\ fins p' = []
  | MDone d => done_ok p' d /\ sd_pdone s = None /\ pending s = None /\ done_rcvd s = false /\ dones p' = []
  end.
Proof.
  intros [Hout Hin Hme Hpe] Hw p'.
  assert (fins p ≡ₚ option_list (as_fin m) ++ fins p') as Hf by by apply omap_take.
  assert (dones p ≡ₚ option_list (as_done m) ++ dones p') as Hd by by apply omap_take.
  split; [split; [destruct Hout|destruct Hin|done|by destruct Hpe]|].
  - split; auto.
    + intros d Hd'. apply d_done_msg0. rewrite Hd. set_solver.
    + apply Permutation_length in Hd. rewrite length_app in Hd. lia.
  - split; auto.
    + intros f Hf'. apply d_fin_msg0. rewrite Hf. set_solver.
    + apply Permutation_length in Hf. rewrite length_app in Hf. lia.
  - destruct m as [f|d]; simpl in *.
    + destruct Hin. rewrite Hf in d_fin_once0. simpl in *. split; [apply d_fin_msg0; rewrite Hf; set_solver|].
      destruct (sd_pfin s), (peer_final s); simpl in *; try lia. split_and!; auto.
      apply length_zero_iff_nil. lia.
    + destruct Hout. rewrite Hd in d_done_once0. simpl in *. split; [apply d_done_msg0; rewrite Hd; set_solver|].
      destruct (sd_pdone s), (pending s), (done_rcvd s); simpl in *; try lia. split_and!; auto.
      apply length_zero_iff_nil. lia.
Qed.

(** Learning the peer's final count. *)
Lemma inv_record s p f es :
  inv s p -> fin_ok p f -> sd_pfin s = None -> peer_final s = None -> fins p = [] -> sends es = [] ->
  existsb is_to_idle es = false ->
  inv (absorb s (upd_peer_fin (wf_final_tx_bytes f) (sd_lease s), es)) p.
Proof.
  intros [Hout Hin Hme Hpe] [Hf Hn] Hpf Hnone Hfl Hes Hidle.
  assert (done_sent s = false) as Hds.
  { destruct (done_sent s) eqn:E; [|done]. rewrite (d_done_sent _ _ Hin E) in Hnone. done. }
  split; [by apply dir_writer_frame; rewrite ?Hes| |by apply side_ok_frame; simpl; eauto; apply Hme|done].
  destruct Hin. split; simpl; auto.
  - intros n [= <-]. auto.
  - rewrite Hfl, Hpf. simpl. lia.
  - intros d. rewrite dones_absorb, Hes. apply d_done_msg0.
  - rewrite Hds. done.
  - rewrite dones_absorb, Hes. done.
Qed.

(** Learning what the peer has read, before and after the own final count. *)
Lemma inv_report s p x es :
  inv s p -> (sd_pdone s = None /\ pending s = None /\ done_rcvd s = false /\ dones p = []) ->
  done_sent p = true -> sends es = [] -> existsb is_to_idle es = false ->
  (x = upd_pending_done (Some (rx p)) (sd_lease s) \/ x = upd_done_received (sd_lease s)) ->
  inv (absorb s (x, es)) p.
Proof.
  intros [Hout Hin Hme Hpe] (Hpd & Hpn & Hr & Hdl) Hds Hes Hidle Hx.
  split; [|apply dir_reader_frame; rewrite ?Hes; auto; by destruct Hx; subst x|
    by apply side_ok_frame; destruct Hx; subst x; simpl; eauto; apply Hme|done].
  destruct Hout. split; try (destruct Hx; subst x; simpl; auto; fail).
  - intros g. rewrite fins_absorb, Hes. unfold fin_ok. destruct Hx; subst x; simpl; apply d_fin_msg0.
  - rewrite fins_absorb, Hes. done.
  - destruct Hx; subst x; simpl; [by intros n [= <-]|done].
  - rewrite Hdl. destruct Hx; subst x; simpl; rewrite ?Hpd, ?Hpn, ?Hr; simpl; lia.
Qed.

Lemma inv_unstage_fin s p f :
  inv s p -> sd_pfin s = Some f ->
  let s' := set_staged None (sd_pdone s) s in
  inv s' p /\ fin_ok p f /\ peer_final s' = None /\ fins p = [].
Proof.
  intros [Hout Hin [] Hpe] Hf s'. destruct Hin. rewrite Hf in d_fin_once0. simpl in d_fin_once0.
  assert (peer_final s = None) as Hn by (destruct (peer_final s); simpl in *; [lia|done]).
  split; [|split_and!; auto; apply length_zero_iff_nil; lia].
  split; [by destruct Hout|split; simpl; auto; try done; lia|by split|done].
Qed.

Lemma inv_unstage_done s p d :
  inv s p -> sd_pdone s = Some d ->
  let s' := set_staged (sd_pfin s) None s in
  inv s' p /\ done_ok p d /\ pending s' = None /\ done_rcvd s' = false /\ dones p = [].
Proof.
  intros [Hout Hin [] Hpe] Hd s'. destruct Hout. rewrite Hd in d_done_once0. simpl in d_done_once0.
  split; [|split_and!; auto; simpl; destruct (pending s), (done_rcvd s); simpl in *; try lia; auto;
    apply length_zero_iff_nil; lia].
  split; [split; simpl; auto; try done; lia|by destruct Hin|by split|done].
Qed.

(** The replay of [bind_entry_to_lease] applies each staged fact or skips it. *)
Definition apply_fin (o : option WriteFin) (x : LeaseContext) : LeaseContext :=
  match o with Some f => upd_peer_fin (wf_final_tx_bytes f) x | None => x end.
Definition apply_done (o : option ReadDone) (x : LeaseContext) : LeaseContext :=
  match o with Some d => upd_pending_done (Some (rd_final_rx_bytes d)) x | None => x end.

Lemma record_fin_fst n x : fst (fst (record_fin n x)) = upd_peer_fin n x.
Proof. unfold record_fin. by case_match. Qed.

Lemma replay_fin_fst o ok s :
  fst (fst (replay_fin o ok s)) = fst (fst s) \/ fst (fst (replay_fin o ok s)) = apply_fin o (fst (fst s)).
Proof.
  destruct s as [[x r] b], o as [f|]; simpl; [|auto]. case_match; [|auto]. right.
  rewrite <-record_fin_fst. by destruct (record_fin _ _) as [[? ?] ?].
Qed.

Lemma replay_done_fst o ok s :
  fst (fst (replay_done o ok s)) = fst (fst s) \/ fst (fst (replay_done o ok s)) = apply_done o (fst (fst s)).
Proof. destruct s as [[x r] b], o as [d|]; simpl; [|auto]. case_match; auto. Qed.

Definition replayed (pfin : option WriteFin) (pdone : option ReadDone) (x x1 : LeaseContext) : Prop :=
  exists bf bd : bool, x1 = (if bd then apply_done pdone else id) ((if bf then apply_fin pfin else id) x).

Lemma replay_shape pf pd df dd ok1 ok2 ok3 ok4 x r b :
  (df = pf \/ df = None) -> (dd = pd \/ dd = None) ->
  replayed pf pd x
    (fst (fst (replay_done dd ok4 (replay_fin df ok3 (replay_done pd ok2 (replay_fin pf ok1 (x, r, b))))))).
Proof.
  intros Hdf Hdd. set (s1 := replay_fin pf ok1 _). set (s2 := replay_done pd ok2 s1).
  set (s3 := replay_fin df ok3 s2).
  destruct (replay_fin_fst pf ok1 (x, r, b)) as [E1|E1], (replay_done_fst pd ok2 s1) as [E2|E2],
    (replay_fin_fst df ok3 s2) as [E3|E3], (replay_done_fst dd ok4 s3) as [E4|E4];
    fold s1 in E1; fold s2 in E2; fold s3 in E3; rewrite E4, ?E3, ?E2, ?E1; simpl;
    destruct Hdf as [->| ->], Hdd as [->| ->]; unfold replayed;
    first [by exists false, false | by exists true, false | by exists false, true | by exists true, true
          | destruct pf, pd; first [by exists false, false | by exists true, false | by exists false, true | by exists true, true]].
Qed.

Lemma inv_unstage s p : inv s p -> inv (set_staged None None s) p.
Proof.
  intros [[] [] [] Hp]. split; [..|done]; split; simpl; auto; try done; lia.
Qed.

Lemma inv_replayed s p x1 :
  inv s p -> replayed (sd_pfin s) (sd_pdone s) (sd_lease s) x1 ->
  inv (absorb (set_staged None None s) (x1, [])) p.
Proof.
  intros Hi (bf & bd & ->).
  set (xf := (if bf then apply_fin (sd_pfin s) else id) (sd_lease s)).
  assert (inv (absorb (set_staged None (sd_pdone s) s) (xf, [])) p) as H1.
  { subst xf. destruct (sd_pfin s) as [f|] eqn:Ef.
    - destruct (inv_unstage_fin _ _ _ Hi Ef) as (Hi' & Hok & Hn & Hfl).
      destruct bf; [by apply (inv_record (set_staged None (sd_pdone s) s))|].
      by apply (inv_frame (set_staged None (sd_pdone s) s)); [repeat split; auto|..].
    - assert (set_staged None (sd_pdone s) s = s) as -> by (destruct s; simpl in *; by subst).
      apply inv_frame; auto; [|done]. by destruct bf; repeat split. }
  destruct (sd_pdone s) as [d|] eqn:Ed; [|by destruct bd].
  set (s1 := absorb (set_staged None (Some d) s) (xf, [])) in *.
  destruct (inv_unstage_done s1 p d H1 eq_refl) as (Hi' & [Hs Hn] & Hpn & Hr & Hdl).
  assert (forall y, absorb (set_staged None None s) (y, []) = absorb (set_staged None None s1) (y, [])) as Heq.
  { intros y. unfold absorb, s1; simpl. by rewrite !app_nil_r, !orb_false_r. }
  rewrite Heq. destruct bd; simpl.
  - apply (inv_report (set_staged None None s1)); auto. left. by rewrite Hn.
  - by apply (inv_frame (set_staged None None s1)); [repeat split; auto|..].
Qed.

Lemma inv_seq_emit (b : bool) e s p :
  sends [e] = [] -> is_to_idle e = false -> inv s p ->
  inv (absorb s ((if b then lm_emit e else lm_ret) (sd_lease s))) p.
Proof. intros. destruct b; [by apply inv_emit|frame]. Qed.

Lemma spawn_fin_id x : lx_id (fst (spawn_send_write_fin x)) = lx_id x.
Proof.
  unfold spawn_send_write_fin, lm_seq, lm_emit, retire_lease_arc. by repeat (case_match; simplify_eq/=).
Qed.

Lemma inv_bind now s p : inv s p -> inv (bind now s) p.
Proof.
  intros Hi. unfold bind.
  set (drain := match sd_pfin s with None => _ | Some _ => _ end).
  change (set_staged None None (absorb s ?r)) with (absorb (set_staged None None s) r).
  unfold bind_lease.
  match goal with
  | |- context [replay_done ?dd ?k4 (replay_fin ?df ?k3 (replay_done ?pd ?k2 (replay_fin ?pf ?k1 ?i)))] =>
      pose proof (replay_shape pf pd df dd k1 k2 k3 k4 (sd_lease s) false false) as Hsh;
      destruct (replay_done dd k4 (replay_fin df k3 (replay_done pd k2 (replay_fin pf k1 i))))
        as [[x1 retire] send]
  end.
  simpl in Hsh.
  assert (replayed (sd_pfin s) (sd_pdone s) (sd_lease s) x1) as Hre.
  { apply Hsh; subst drain; destruct (sd_pfin s), (sd_pdone s); simpl; auto. }
  clear Hsh. pose proof (inv_replayed s p x1 Hi Hre) as H1.
  assert (auto_fin x1 = auto_fin (sd_lease s)) as Hauto.
  { destruct Hre as (bf & bd & ->). destruct bf, bd, (sd_pfin s), (sd_pdone s); reflexivity. }
  unfold auto_fin in Hauto.
  destruct (bind_flags (li_kind (lx_id (sd_lease s))) (li_local_initiator (lx_id (sd_lease s))))
    as [[[? ?] hidden] auto] eqn:Hb. simpl in Hauto.
  set (s1 := absorb (set_staged None None s) (x1, [])) in *.
  assert (forall f : LeaseM, absorb (set_staged None None s) (f x1) = absorb s1 (f (sd_lease s1))) as Heq.
  { intros f. unfold s1, absorb; simpl. by rewrite app_nil_r, orb_false_r. }
  match goal with |- inv (absorb _ (?f x1)) p => rewrite (Heq f) end.
  assert (auto = true -> lx_write_released (sd_lease s1) = true) as Hwr.
  { intros ->. apply (so_auto _ (i_me _ _ H1)). exact Hauto. }
  assert (forall (b : bool) e x, fst ((if b then lm_emit e else lm_ret) x) = x) as Hemit by (by intros []).
  apply inv_seq; [by apply inv_seq_emit|]. intros s2 E2 H2. rewrite Hemit in E2.
  apply inv_seq; [by apply inv_seq_emit|]. intros s3 E3 H3. rewrite Hemit in E3.
  apply inv_seq; [|intros s4 _ H4; apply inv_seq; [|intros s5 _ H5; by apply inv_progress]].
  - destruct auto; [apply inv_send_fin; [rewrite E3, E2; auto|done]|frame].
  - destruct retire; [by apply inv_retire|]. destruct send; [by apply inv_send_done|frame].
Qed.

Lemma inv_stage m w1 w2 s p s' :
  inv s p -> sd_wire p = w1 ++ m :: w2 -> stage m s = Some s' ->
  inv s' (set_wire (w1 ++ w2) p).
Proof.
  intros Hi Hw Hst. destruct (inv_take _ _ _ _ _ Hi Hw) as [[Ho Hin [] Hpe] Hm].
  destruct m as [f|d]; simpl in Hst; case_match; simplify_eq.
  - destruct Hm as (Hok & Hf & Hn & Hfl). split; [by destruct Ho| |by split|done].
    destruct Hin. split; simpl; auto; [by intros ? [= <-]|]. rewrite Hfl, Hn. simpl. lia.
  - destruct Hm as (Hok & Hd & Hn & Hr & Hdl). split; [|by destruct Hin|by split|done].
    destruct Ho. split; simpl; auto; [by intros ? [= <-]|]. rewrite Hdl, Hn, Hr. simpl. lia.
Qed.

(** An operation that first changes the lease and then acts on it. *)
Lemma inv_via s p x (f : LeaseM) :
  inv (absorb s (x, [])) p ->
  (forall s2, sd_lease s2 = x -> inv s2 p -> inv (absorb s2 (f (sd_lease s2))) p) ->
  inv (absorb s (f x)) p.
Proof.
  intros H Hf. specialize (Hf (absorb s (x, [])) eq_refl H).
  unfold absorb in Hf |- *. simpl in Hf. by rewrite app_nil_r, orb_false_r in Hf.
Qed.

Lemma inv_deliver now m w1 w2 s p :
  inv s p -> sd_wire p = w1 ++ m :: w2 -> inv (side_deliver now m s) (set_wire (w1 ++ w2) p).
Proof.
  intros Hi Hw. destruct (inv_take _ _ _ _ _ Hi Hw) as [Hi' Hm]. set (p' := set_wire _ p) in *.
  unfold side_deliver. destruct (sd_idle s) eqn:Hidle; [done|].
  assert (forall s' a, inv s' p' ->
    inv (absorb s' ((lm_emit EDraining ;;; act now a ;;; maybe_finalize_lease) (sd_lease s'))) p') as Hfin.
  { intros s' a H'. apply inv_seq; [by apply inv_emit|]. intros s2 _ H2.
    apply inv_seq; [by apply inv_act|]. intros s3 _ H3. by apply inv_finalize. }
  destruct m as [f|d]; simpl.
  - destruct Hm as (Hok & Hf & Hn & Hfl). unfold lease_write_fin.
    destruct (negb (li_lease_seq _ =? _)); [destruct (seq_lt _ _); [done|by apply Hfin]|].
    destruct (negb (li_channel_id _ =? _)); [by apply Hfin|].
    destruct (lx_peer_write_fin_received _); [by apply Hfin|].
    destruct (record_fin _ _) as [[x1 bad] send] eqn:Er.
    pose proof (record_fin_fst (wf_final_tx_bytes f) (sd_lease s)) as Hx. rewrite Er in Hx. simpl in Hx. subst x1.
    apply (inv_via s _ _ (lm_emit EDraining ;;; act now _ ;;; maybe_finalize_lease)); [by apply inv_record|].
    intros s2 _ H2. by apply Hfin.
  - destruct Hm as ([Hds Hrx] & Hd & Hn & Hr & Hdl). unfold lease_read_done. rewrite Hn.
    destruct (negb (li_lease_seq _ =? _)); [destruct (seq_lt _ _); [done|by apply inv_retire]|].
    destruct (negb (li_channel_id _ =? _)); [by apply inv_retire|].
    destruct (negb (lx_local_write_fin_sent _)); [apply inv_report; auto; left; by rewrite Hrx|].
    destruct (negb (rd_final_rx_bytes d =? _)); [by apply inv_retire|].
    apply (inv_via s _ _ (maybe_finalize_lease ;;; lm_emit EFinalizeCheck)); [apply inv_report; auto|].
    intros s2 _ H2. apply inv_seq; [by apply inv_finalize|]. intros s3 _ H3. by apply inv_emit.
Qed.

Lemma side_ok_data n s : side_ok s -> side_ok (set_data n s).
Proof. by intros []. Qed.

(** Writing: allowed only while the writer is not released, so no final count
    is out. *)
Lemma inv_write n s p :
  inv s p -> lx_write_released (sd_lease s) = false -> 0 <= n ->
  inv (set_data (sd_data s + n) (absorb s (upd_counts (tx s + n) (rx s) (sd_lease s), []))) p.
Proof.
  intros [Hout Hin Hme Hpe] Hwr Hn.
  assert (fin_sent s = false) as Hfs.
  { destruct (fin_sent s) eqn:E; [|done]. by rewrite (d_fin_rel _ _ Hout E) in Hwr. }
  destruct (no_fin_before _ _ Hout Hfs) as (Hfl & Hpf & Hpn).
  split; [| |apply side_ok_data, side_ok_frame; simpl; auto; apply Hme|done]; cycle 1.
  { assert (dir p (absorb s (upd_counts (tx s + n) (rx s) (sd_lease s), []))) as []
      by (by apply dir_reader_frame). by split. }
  destruct Hout. split; simpl; auto; try done.
  - destruct d_bytes0. lia.
  - intros f Hf. exfalso. rewrite fins_eq in Hf, Hfl. simpl in Hf. rewrite app_nil_r in Hf.
    rewrite Hfl in Hf. set_solver.
  - intros f Hf. by rewrite Hpf in Hf.
  - intros m Hm. by rewrite Hpn in Hm.
  - rewrite fins_eq in Hfl |- *. simpl. rewrite app_nil_r, Hfl, Hpf, Hpn. simpl. lia.
Qed.

(** Reading: while bytes are on the way, no read report is out. *)
Lemma inv_count n s p :
  inv s p -> 0 < n <= sd_data p ->
  inv (absorb s (upd_counts (tx s) (rx s + n) (sd_lease s), [])) (set_data (sd_data p - n) p).
Proof.
  intros [Hout Hin Hme Hpe] Hn.
  assert (done_sent s = false) as Hds.
  { destruct (done_sent s) eqn:E; [|done]. pose proof (d_done_sent _ _ Hin E) as Hf.
    destruct (d_fin_seen _ _ Hin _ Hf) as [_ Hf']. destruct (d_bytes _ _ Hin). lia. }
  split; [| |apply side_ok_frame; simpl; auto; apply Hme|by apply side_ok_data].
  - assert (dir (absorb s (upd_counts (tx s) (rx s + n) (sd_lease s), [])) p) as []
      by (by apply (dir_writer_frame _ _ _ [])). by split.
  - destruct Hin. split; simpl; auto.
    + destruct d_bytes0. lia.
    + intros d Hd. destruct (d_done_msg0 d); [|congruence].
      rewrite dones_eq in Hd |- *. simpl in Hd. by rewrite app_nil_r in Hd.
    + intros d Hd. destruct (d_done_staged0 d); [done|congruence].
    + intros m Hm. destruct (d_done_pending0 m); [done|congruence].
    + rewrite Hds. done.
    + rewrite dones_eq in d_done_once0 |- *. simpl. by rewrite app_nil_r.
Qed.

Lemma inv_obs o s p : inv s p -> inv (set_obs o s) p.
Proof. intros [[] [] [] Hp]. by split; [split..|]. Qed.

Lemma set_data_same p : set_data (sd_data p - 0) p = p.
Proof. destruct p; unfold set_data; simpl. by rewrite Z.sub_0_r. Qed.

Lemma inv_after_read now n s p :
  inv s p -> 0 < n <= sd_data p -> lx_retired (sd_lease s) = false ->
  inv (absorb s (after_read now n false (sd_lease s))) (set_data (sd_data p - n) p).
Proof.
  intros Hi Hn Hr. unfold after_read. rewrite Hr. destruct (0 <? n) eqn:E; [|bool_to_prop; lia].
  apply (inv_via s _ _ (act now _)); [by apply inv_count|]. intros. by apply inv_act.
Qed.

Lemma inv_drop_read s p : inv s p -> inv (absorb s (release_read_half (sd_lease s))) p.
Proof.
  intros Hi. unfold release_read_half. case_match; [frame|].
  apply inv_via; [frame|]. intros s2 _ H2. apply inv_seq; [by apply inv_act|].
  intros. by apply inv_finalize.
Qed.

Lemma inv_drop_write s p : inv s p -> inv (absorb s (release_write_half (sd_lease s))) p.
Proof.
  intros Hi. unfold release_write_half. case_match; [frame|].
  apply inv_via; [frame|]. intros s2 E2 H2. apply inv_seq; [|intros; by apply inv_finalize].
  match goal with |- context [if ?b then _ else _] => destruct b end; [frame|].
  apply inv_send_fin; [by rewrite E2|done].
Qed.

(** The observer only counts bytes, finalizes, retires or reports. *)
Lemma observer_result_shape now r x0 x e b :
  observer_result now r x0 = (x, e, b) ->
  let y := upd_halves true (lx_write x0) x0 in
  let y1 := match r with
            | ObsBytes n => if lx_retired x0 || (n =? 0) then y else upd_counts (lx_tx_bytes y) (lx_rx_bytes y + n) y
            | _ => y end in
  (x, e) = maybe_finalize_lease y1 \/ (x, e) = retire_lease_arc P2pErrorCode.Interrupted y1 \/
  (x, e) = (spawn_send_read_done ;;; maybe_finalize_lease) y1 \/ (x, e) = note_drain_progress now y1 \/
  (x, e) = (y1, []).
Proof.
  unfold observer_result. simpl.
  destruct (lx_retired x0) eqn:Hr.
  { destruct (maybe_finalize_lease _) as [x2 e2] eqn:Ef. intros [= <- <- <-]. left. rewrite <-Ef.
    by destruct r. }
  destruct r as [|n|]; simpl; [|destruct (n =? 0)|].
  all: destruct (_ || ready_for_close _); [destruct (maybe_finalize_lease _) as [x2 e2]; intros [= <- <- <-]; auto|].
  all: repeat (case_match; simplify_eq; try (intros [= <- <- <-]; auto 6)); auto 6.
Qed.

Lemma inv_observer now r s p x e b :
  inv s p -> observer_result now r (sd_lease s) = (x, e, b) ->
  match r with ObsBytes n => lx_retired (sd_lease s) = false /\ 0 <= n <= sd_data p | _ => True end ->
  inv (absorb s (x, e)) (match r with ObsBytes n => set_data (sd_data p - n) p | _ => p end).
Proof.
  intros Hi Hr Hn. apply observer_result_shape in Hr. set (y1 := match r with ObsTimeout => _ | _ => _ end) in Hr.
  assert (inv (absorb s (y1, [])) (match r with ObsBytes n => set_data (sd_data p - n) p | _ => p end)) as Hy.
  { subst y1. destruct r as [|n|]; [frame| |frame]. destruct Hn as [-> Hn]. simpl.
    destruct (n =? 0) eqn:E; bool_to_prop; [subst n; rewrite set_data_same; frame|].
    assert (0 < n <= sd_data p) as Hn' by lia.
    refine (inv_via s _ (upd_counts (tx s) (rx s + n) (sd_lease s)) (fun _ => (_, [])) _ _);
      [by apply inv_count|].
    intros s2 E2 H2. apply inv_frame; [|done|done|done]. rewrite E2. repeat split; auto. }
  destruct Hr as [->|[->|[->|[->| ->]]]]; [..|done]; apply inv_via; auto; intros s2 _ H2.
  - by apply inv_finalize.
  - by apply inv_retire.
  - apply inv_seq; [by apply inv_send_done|]. intros. by apply inv_finalize.
  - by apply inv_progress.
Qed.

Lemma inv_take_task m t1 t2 s p (sent : bool) :
  inv s p -> sd_tasks s = t1 ++ m :: t2 ->
  inv (set_wire (sd_wire s ++ (if sent then [m] else [])) (set_tasks (t1 ++ t2) s)) p.
Proof.
  intros [Hout Hin [] Hpe] Ht. set (s' := set_wire _ _).
  assert (forall B (f : Msg -> option B), exists l,
    omap f (flight s) ≡ₚ l ++ omap f (flight s')) as Hsub.
  { intros B f. unfold flight, s'. simpl. rewrite Ht, !omap_app. simpl.
    destruct sent; simpl; destruct (f m) as [v|]; simpl;
      [exists []|exists []|exists [v]|exists []]; rewrite ?app_nil_r; simpl; solve_Permutation. }
  destruct (Hsub _ as_fin) as [lf Hf], (Hsub _ as_done) as [ld Hd].
  change (omap as_fin (flight ?z)) with (fins z) in Hf. change (omap as_done (flight ?z)) with (dones z) in Hd.
  split; [destruct Hout|destruct Hin|by split|done]; split; auto.
  - intros f Hin'. apply d_fin_msg0. rewrite Hf. set_solver.
  - apply Permutation_length in Hf. rewrite length_app in Hf. change (sd_lease s') with (sd_lease s). lia.
  - intros d Hd'. apply d_done_msg0. rewrite Hd. set_solver.
  - apply Permutation_length in Hd. rewrite length_app in Hd. lia.
Qed.

Lemma side_step_inv s p s' p' : side_step s p s' p' -> inv s p -> inv s' p'.
Proof.
  destruct 1; intros Hi.
  - by apply inv_bind.
  - by eapply inv_stage.
  - by apply (inv_deliver now m).
  - apply (inv_finalize (set_wire (sd_wire s ++ [m]) (set_tasks (t1 ++ t2) s))).
    by apply (inv_take_task m t1 t2 s p true).
  - apply (inv_retire _ (set_tasks (t1 ++ t2) s)). pose proof (inv_take_task m t1 t2 s p false Hi H0) as Ht.
    destruct s; simpl in *. by rewrite app_nil_r in Ht.
  - unfold lease_poll_write. rewrite H1. by apply inv_write.
  - unfold lease_poll_write. case_match; by apply inv_retire.
  - unfold lease_poll_read. rewrite H1. destruct (n =? 0) eqn:E; bool_to_prop; [lia|].
    by apply inv_after_read.
  - unfold lease_poll_read. destruct (lx_read _); [|by apply inv_retire].
    destruct H1 as [->| ->]; [|by apply inv_retire]. unfold after_read. simpl.
    case_match; [frame|by apply inv_retire].
  - by apply inv_drop_read.
  - by apply inv_drop_write.
  - frame.
  - by apply inv_retire.
  - by apply inv_finalize.
  - apply inv_obs. unfold observer_take in H1. repeat case_match; simplify_eq.
    + match goal with H : maybe_finalize_lease _ = _ |- _ => rewrite <-H end. by apply inv_finalize.
    + frame.
    + frame.
  - apply inv_obs. by eapply inv_observer.
Qed.

Definition sys_inv (ab : sys) : Prop := inv (fst ab) (snd ab).

Lemma sys_step_inv u v : sys_step u v -> sys_inv u -> sys_inv v.
Proof.
  unfold sys_inv. destruct 1; simpl; intros Hi; [by eapply side_step_inv|].
  apply inv_sym. eapply side_step_inv; [done|]. by apply inv_sym.
Qed.

Lemma unbound_inv e1 e2 conn seq ch kind purpose :
  inv (unbound (lease_context_new e1 conn seq ch kind purpose true)) (unbound (lease_context_new e2 conn seq ch kind purpose false)).
Proof.
  destruct kind; split; split; simpl; try done; try (split; lia); try lia; set_solver.
Qed.

Lemma start_inv now e1 e2 conn seq ch kind purpose : sys_inv (start now e1 e2 conn seq ch kind purpose).
Proof. apply inv_sym, inv_bind, inv_sym, unbound_inv. Qed.

(** What the pool relies on when an end hands the connection back. *)
Definition clean_for (me peer : Side) : Prop :=
  sd_data me = 0 /\ sd_data peer = 0 /\ rx me = tx peer /\ rx peer = tx me /\
  lx_write_released (sd_lease peer) = true /\ flight peer = [].

Lemma idle_clean me peer : inv me peer -> sd_idle me = true -> clean_for me peer.
Proof.
  intros [Hout Hin Hme Hpe] Hidle.
  destruct (so_idle _ Hme Hidle) as (Hfs & [n Hpf] & Hds & Hdr).
  pose proof (d_done_sent _ _ Hin Hds) as Hpf'. destruct (d_fin_seen _ _ Hin _ Hpf') as [Hfb Hrx].
  pose proof (d_done_rcvd _ _ Hout Hdr) as Hdb. pose proof (d_done_sent _ _ Hout Hdb) as Hpb.
  destruct (d_fin_seen _ _ Hout _ Hpb) as [_ Hrb].
  destruct (d_bytes _ _ Hout) as [? ?], (d_bytes _ _ Hin) as [? ?].
  unfold clean_for. split_and!; try lia; [by apply (d_fin_rel _ _ Hin)|].
  pose proof (d_fin_once _ _ Hin) as Hf1. rewrite Hpf in Hf1. simpl in Hf1.
  pose proof (d_done_once _ _ Hout) as Hd1. rewrite Hdr in Hd1.
  destruct (flight peer) as [|[f|d] l] eqn:E; [done|..].
  - unfold fins in Hf1. rewrite E in Hf1. simpl in Hf1. lia.
  - unfold dones in Hd1. rewrite E in Hd1. simpl in Hd1. lia.
Qed.

(** C6: a data connection returns to the pool only when it is empty: in
    every execution of the two ends of a lease, with control messages delayed
    and reordered, handles dropped early, sends failing, timers and tunnel
    shutdown at any time, when either end makes the connection idle then no byte
    is in flight in either direction, each end has read exactly what the other
    wrote, and the other end has finished writing and has nothing left in flight
    towards the idle end. *)
Theorem lease_reuse_clean now e1 e2 conn seq ch kind purpose a b :
  rtc sys_step (start now e1 e2 conn seq ch kind purpose) (a, b) ->
  (sd_idle a = true -> clean_for a b) /\ (sd_idle b = true -> clean_for b a).
Proof.
  intros Hr.
  assert (sys_inv (a, b)) as Hi by (eapply rtc_preserves; eauto using sys_step_inv, start_inv).
  split; apply idle_clean; [done|by apply inv_sym].
Qed.

(** Runs a concrete system one step and evaluates the state it reaches. *)
Ltac run_step tac :=
  eapply rtc_l; [tac|];
  match goal with |- rtc _ ?u _ => let v := eval vm_compute in u in change u with v end.

(** A short conversation: the claimer writes three bytes, both ends finish. *)
Lemma lease_reuse_clean_witness :
  exists a b, rtc sys_step (start 0 0 0 7 1 42 KindStream []) (a, b) /\
    sd_idle a = true /\ sd_idle b = true /\ rx b = 3 /\ clean_for a b /\ clean_for b a.
Proof.
  assert (exists a b, rtc sys_step (start 0 0 0 7 1 42 KindStream []) (a, b) /\
    sd_idle a = true /\ sd_idle b = true /\ rx b = 3) as (a & b & Hr & Ha & Hb & Hx).
  { eexists _, _. split.
    - match goal with |- rtc _ ?u _ => let v := eval vm_compute in u in change u with v end.
      run_step ltac:(eapply StepL, (SBind 1); reflexivity).
      run_step ltac:(eapply StepL, (SWrite 3); [reflexivity..|lia]).
      run_step ltac:(eapply StepR, (SRead 2 3); [reflexivity..|vm_compute; split; congruence|reflexivity]).
      run_step ltac:(apply StepL, SDropWrite; reflexivity).
      run_step ltac:(eapply StepL, (STaskSent _ [] []); reflexivity).
      run_step ltac:(eapply StepR, (SDeliver 3 _ [] []); reflexivity).
      run_step ltac:(eapply StepR, (STaskSent _ [] []); reflexivity).
      run_step ltac:(eapply StepL, (SDeliver 4 _ [] []); reflexivity).
      run_step ltac:(apply StepR, SDropRead; reflexivity).
      run_step ltac:(apply StepR, SDropWrite; reflexivity).
      run_step ltac:(eapply StepR, (STaskSent _ [] []); reflexivity).
      run_step ltac:(eapply StepL, (SDeliver 5 _ [] []); reflexivity).
      run_step ltac:(eapply StepL, (STaskSent _ [] []); reflexivity).
      run_step ltac:(eapply StepR, (SDeliver 6 _ [] []); reflexivity).
      run_step ltac:(apply StepL, SDropRead; reflexivity).
      apply rtc_refl.
    - split_and!; vm_compute; reflexivity. }
  exists a, b. destruct (lease_reuse_clean 0 0 0 7 1 42 KindStream [] a b Hr) as [H1 H2]. auto 10.
Defined.
