(* ===== verification/TcpTunnel.v ===== *)
(** * The TCP tunnel: pooled data connections, claims and shutdown

    Source: src/p2p-frame/src/networks/tcp/tunnel.rs.

    A tunnel owns data connections ([DataConnEntry]) which its channels claim
    for a lease (file TcpLease).  Entries and leases are shared objects of the
    source ([Arc]): here they live in a heap and are named by references, so
    that [Arc::ptr_eq] is equality of references and a failed [Weak::upgrade]
    is a reference the heap no longer has.  A handler runs to completion
    between suspension points; the places where the source awaits (the accept
    check of a claim, the answer to a claim, the spawned tasks) separate the
    definitions.  Answers to waiting tasks (the [oneshot] senders), control
    commands and spawned tasks are recorded in the order they are produced. *)
From S2P Require Import Prelude Errors Ids Endpoint Codec TunnelCommand TunnelActivity ReverseOpen TcpLease.

#[local] Open Scope lease_scope.

Inductive LocalTunnelPhase := PassiveReady | Connected | Closed | PhaseError.
#[global] Instance Phase_eq_dec : EqDecision LocalTunnelPhase.
Proof. solve_decision. Defined.

Definition external_state (p : LocalTunnelPhase) : TunnelState :=
  match p with
  | PassiveReady => StConnecting | Connected => StConnected | Closed => StClosed | PhaseError => StError
  end.

Record ClaimingState := mkClaiming {
  cl_lease_seq : Z; cl_channel_id : Z; cl_claim_nonce : Z; cl_kind : TcpChannelKind; cl_purpose : list Z }.

Inductive RecentClaimResponse := RespAck | RespErr (r : ClaimConnAckResult).

Record RecentClaimRecord := mkRecent {
  rc_channel_id : Z; rc_lease_seq : Z; rc_claim_nonce : Z; rc_kind : TcpChannelKind;
  rc_purpose : list Z; rc_response : RecentClaimResponse }.

Inductive DataConnEntryState :=
| FirstClaimPending | Idle | Claiming (c : ClaimingState) | Bound (l : nat) | Draining (l : nat) | Retired.

Record DataConnEntry := mkEntry {
  de_conn_id : Z; de_created_by_local : bool; de_first_claim_local : bool;
  de_stream : bool;
  de_committed : Z; de_state : DataConnEntryState; de_no_reuse : bool;
  de_recent : option RecentClaimRecord;
  de_pending_fin : option WriteFin; de_pending_read_done : option ReadDone }.

Record PendingOpenRequest := mkOpenRequest {
  pr_sender : bool; pr_staged : option nat; pr_correlation : ReverseOpenCorrelation }.

(** Tasks handed to the executor. *)
Inductive Task :=
| TaskSendFin (l : nat) (m : WriteFin)
| TaskSendDone (l : nat) (m : ReadDone)
| TaskDrainTimer (l : nat) (observed_at : Z)
| TaskObserver (l : nat)
| TaskFinalizeCheck (l : nat)
| TaskPendingDrain (key : Z * Z) (updated_at : Z)
| TaskFirstClaim (e : nat).

(** The listening side: which purposes are accepted ([None] before the first
    [listen_*] call) and whether a callback is installed. *)
Record Listening := mkListening {
  ls_stream_vports : option (list Z -> bool); ls_datagram_vports : option (list Z -> bool);
  ls_stream_callback : bool; ls_datagram_callback : bool }.

Record TcpTunnel := mkTunnel {
  tt_form : TunnelForm; tt_local_id : P2pId; tt_remote_id : P2pId; tt_candidate_id : Z;
  tt_heartbeat_timeout : Duration;
  tt_listen : Listening;
  tt_activity : TunnelActivityState;
  tt_phase : LocalTunnelPhase;
  tt_closed : bool;
  tt_data_conns : gmap Z nat;
  tt_pending_drains : gmap (Z * Z) PendingDrainFacts;
  tt_pending_open : gmap Z PendingOpenRequest;
  tt_pending_claims : gset Z;
  tt_entries : gmap nat DataConnEntry;
  tt_leases : gmap nat LeaseContext;
  tt_next_ref : nat;
  tt_stream_pending : Z; tt_stream_limit : Z; tt_datagram_pending : Z; tt_datagram_limit : Z;
  tt_tasks : list Task;
  tt_claim_answers : list (Z * P2pResult nat);
  tt_open_answers : list (Z * P2pResult nat) }.

Definition upd_maps (conns : gmap Z nat) (drains : gmap (Z * Z) PendingDrainFacts)
    (opens : gmap Z PendingOpenRequest) (claims : gset Z) (t : TcpTunnel) : TcpTunnel :=
  mkTunnel (tt_form t) (tt_local_id t) (tt_remote_id t) (tt_candidate_id t) (tt_heartbeat_timeout t)
    (tt_listen t) (tt_activity t) (tt_phase t) (tt_closed t) conns drains opens claims (tt_entries t) (tt_leases t) (tt_next_ref t)
    (tt_stream_pending t) (tt_stream_limit t) (tt_datagram_pending t) (tt_datagram_limit t)
    (tt_tasks t) (tt_claim_answers t) (tt_open_answers t).
Definition upd_heap (es : gmap nat DataConnEntry) (ls : gmap nat LeaseContext) (n : nat) (t : TcpTunnel)
  : TcpTunnel :=
  mkTunnel (tt_form t) (tt_local_id t) (tt_remote_id t) (tt_candidate_id t) (tt_heartbeat_timeout t)
    (tt_listen t) (tt_activity t) (tt_phase t) (tt_closed t) (tt_data_conns t) (tt_pending_drains t) (tt_pending_open t)
    (tt_pending_claims t) es ls n
    (tt_stream_pending t) (tt_stream_limit t) (tt_datagram_pending t) (tt_datagram_limit t)
    (tt_tasks t) (tt_claim_answers t) (tt_open_answers t).
Definition upd_out (ts : list Task) (ca oa : list (Z * P2pResult nat)) (t : TcpTunnel) : TcpTunnel :=
  mkTunnel (tt_form t) (tt_local_id t) (tt_remote_id t) (tt_candidate_id t) (tt_heartbeat_timeout t)
    (tt_listen t) (tt_activity t) (tt_phase t) (tt_closed t) (tt_data_conns t) (tt_pending_drains t) (tt_pending_open t)
    (tt_pending_claims t) (tt_entries t) (tt_leases t) (tt_next_ref t)
    (tt_stream_pending t) (tt_stream_limit t) (tt_datagram_pending t) (tt_datagram_limit t) ts ca oa.
Definition upd_phase (ls : Listening) (act : TunnelActivityState) (p : LocalTunnelPhase) (c : bool)
    (t : TcpTunnel) : TcpTunnel :=
  mkTunnel (tt_form t) (tt_local_id t) (tt_remote_id t) (tt_candidate_id t) (tt_heartbeat_timeout t)
    ls act p c (tt_data_conns t) (tt_pending_drains t) (tt_pending_open t)
    (tt_pending_claims t) (tt_entries t) (tt_leases t) (tt_next_ref t)
    (tt_stream_pending t) (tt_stream_limit t) (tt_datagram_pending t) (tt_datagram_limit t)
    (tt_tasks t) (tt_claim_answers t) (tt_open_answers t).
Definition upd_slots (sp dp : Z) (t : TcpTunnel) : TcpTunnel :=
  mkTunnel (tt_form t) (tt_local_id t) (tt_remote_id t) (tt_candidate_id t) (tt_heartbeat_timeout t)
    (tt_listen t) (tt_activity t) (tt_phase t) (tt_closed t) (tt_data_conns t) (tt_pending_drains t) (tt_pending_open t)
    (tt_pending_claims t) (tt_entries t) (tt_leases t) (tt_next_ref t)
    sp (tt_stream_limit t) dp (tt_datagram_limit t)
    (tt_tasks t) (tt_claim_answers t) (tt_open_answers t).

Definition set_entries (f : gmap nat DataConnEntry -> gmap nat DataConnEntry) (t : TcpTunnel) : TcpTunnel :=
  upd_heap (f (tt_entries t)) (tt_leases t) (tt_next_ref t) t.
Definition set_leases (f : gmap nat LeaseContext -> gmap nat LeaseContext) (t : TcpTunnel) : TcpTunnel :=
  upd_heap (tt_entries t) (f (tt_leases t)) (tt_next_ref t) t.
Definition set_conns (f : gmap Z nat -> gmap Z nat) (t : TcpTunnel) : TcpTunnel :=
  upd_maps (f (tt_data_conns t)) (tt_pending_drains t) (tt_pending_open t) (tt_pending_claims t) t.
Definition set_drains (f : gmap (Z * Z) PendingDrainFacts -> gmap (Z * Z) PendingDrainFacts)
    (t : TcpTunnel) : TcpTunnel :=
  upd_maps (tt_data_conns t) (f (tt_pending_drains t)) (tt_pending_open t) (tt_pending_claims t) t.
Definition set_opens (f : gmap Z PendingOpenRequest -> gmap Z PendingOpenRequest) (t : TcpTunnel) : TcpTunnel :=
  upd_maps (tt_data_conns t) (tt_pending_drains t) (f (tt_pending_open t)) (tt_pending_claims t) t.
Definition set_claims (f : gset Z -> gset Z) (t : TcpTunnel) : TcpTunnel :=
  upd_maps (tt_data_conns t) (tt_pending_drains t) (tt_pending_open t) (f (tt_pending_claims t)) t.
Definition spawn (k : Task) (t : TcpTunnel) : TcpTunnel :=
  upd_out (tt_tasks t ++ [k]) (tt_claim_answers t) (tt_open_answers t) t.

Definition entry_upd (st : DataConnEntryState) (e : DataConnEntry) : DataConnEntry :=
  mkEntry (de_conn_id e) (de_created_by_local e) (de_first_claim_local e) (de_stream e) (de_committed e) st
    (de_no_reuse e) (de_recent e) (de_pending_fin e) (de_pending_read_done e).
Definition entry_stream (b : bool) (e : DataConnEntry) : DataConnEntry :=
  mkEntry (de_conn_id e) (de_created_by_local e) (de_first_claim_local e) b (de_committed e) (de_state e)
    (de_no_reuse e) (de_recent e) (de_pending_fin e) (de_pending_read_done e).
Definition entry_recent (r : RecentClaimRecord) (e : DataConnEntry) : DataConnEntry :=
  mkEntry (de_conn_id e) (de_created_by_local e) (de_first_claim_local e) (de_stream e) (de_committed e)
    (de_state e) (de_no_reuse e) (Some r) (de_pending_fin e) (de_pending_read_done e).
Definition entry_pending (f : option WriteFin) (d : option ReadDone) (e : DataConnEntry) : DataConnEntry :=
  mkEntry (de_conn_id e) (de_created_by_local e) (de_first_claim_local e) (de_stream e) (de_committed e)
    (de_state e) (de_no_reuse e) (de_recent e) f d.
Definition entry_no_reuse (e : DataConnEntry) : DataConnEntry :=
  mkEntry (de_conn_id e) (de_created_by_local e) (de_first_claim_local e) (de_stream e) (de_committed e)
    (de_state e) true (de_recent e) (de_pending_fin e) (de_pending_read_done e).
Definition entry_bind (seq : Z) (l : nat) (e : DataConnEntry) : DataConnEntry :=
  mkEntry (de_conn_id e) (de_created_by_local e) (de_first_claim_local e) false seq (Bound l)
    (de_no_reuse e) (de_recent e) None None.

(** [DataConnEntry::new]. *)
Definition entry_new (conn_id : Z) (created_by_local first_claim_local : bool) : DataConnEntry :=
  mkEntry conn_id created_by_local first_claim_local true 0 FirstClaimPending false None None None.

(** ** Local identifiers *)
Definition TCP_LOCAL_ID_HIGH_BIT : Z := 2 ^ 31.

(** One turn of the allocation loop: the id, or [None] to try again. *)
Definition local_id_try (form : TunnelForm) (counter : Z) : option Z :=
  let seq := Z.land counter (u32_max - TCP_LOCAL_ID_HIGH_BIT) in
  if seq =? 0 then None
  else Some (match form with
             | FormActive | FormProxy => seq
             | FormPassive => Z.lor TCP_LOCAL_ID_HIGH_BIT seq
             end).

Fixpoint next_local_id_loop (fuel : nat) (form : TunnelForm) (counter : Z) : option (Z * Z) :=
  match fuel with
  | O => None
  | S fuel =>
      let counter' := wrapping_add_u32 counter 1 in
      match local_id_try form counter with
      | Some id => Some (id, counter')
      | None => next_local_id_loop fuel form counter'
      end
  end.
Definition next_local_id_value := next_local_id_loop 2.

Definition next_lease_seq (current : Z) : Z :=
  let next := wrapping_add_u32 current 1 in if next =? 0 then 1 else next.

(** ** Claims *)
Definition validate_remote_first_claim (first_claim_local : bool) (lease_seq : Z)
  : Result ClaimConnAckResult unit :=
  if negb (lease_seq =? 1) then Err AckLeaseMismatch
  else if first_claim_local then Err AckProtocolError
  else Ok tt.

Definition local_simultaneous_claim_wins (local_id remote_id : P2pId) (local_nonce remote_nonce : Z) : bool :=
  if local_nonce =? remote_nonce
  then match list_compare (p2pid_bytes local_id) (p2pid_bytes remote_id) with Gt => true | _ => false end
  else remote_nonce <? local_nonce.

Definition claim_result_to_error (r : ClaimConnAckResult) : P2pErrorCode.t :=
  match r with
  | AckSuccess => P2pErrorCode.Ok
  | AckConflictLost => P2pErrorCode.Conflict
  | AckRetired => P2pErrorCode.Interrupted
  | AckVportNotFound => P2pErrorCode.PortNotListen
  | AckLeaseMismatch | AckNotIdle | AckProtocolError | AckListenerClosed | AckAcceptQueueFull =>
      P2pErrorCode.Reject
  end.

#[global] Instance TcpChannelKind_eq_dec : EqDecision TcpChannelKind.
Proof. solve_decision. Defined.

Definition claim_record_matches (req : ClaimConnReq) (r : RecentClaimRecord) : bool :=
  (cq_channel_id req =? rc_channel_id r) && (cq_lease_seq req =? rc_lease_seq r)
  && (cq_claim_nonce req =? rc_claim_nonce r) && bool_decide (cq_kind req = rc_kind r)
  && bool_decide (cq_purpose req = rc_purpose r).

Definition claim_response_cmd (req : ClaimConnReq) (r : RecentClaimResponse) : ClaimConnAck :=
  mkClaimAck (cq_channel_id req) (cq_conn_id req) (cq_lease_seq req)
    (match r with RespAck => ack_result_u8 AckSuccess | RespErr e => ack_result_u8 e end).

Inductive ClaimDecision :=
| DReplay (r : RecentClaimResponse)
| DAccept
| DErr (r : ClaimConnAckResult)
| DConflictWin
| DConflictLose (local_channel_id : Z).
Inductive ClaimDecisionPlan := Ready (d : ClaimDecision) | CheckThen (d : ClaimDecision).

(** The [match &inner.state] the source writes twice. *)
Definition plan_by_state (local_id remote_id : P2pId) (e : DataConnEntry) (req : ClaimConnReq)
  : ClaimDecisionPlan :=
  match de_state e with
  | Retired => Ready (DErr AckRetired)
  | FirstClaimPending =>
      match validate_remote_first_claim (de_first_claim_local e) (cq_lease_seq req) with
      | Ok _ => CheckThen DAccept
      | Err r => Ready (DErr r)
      end
  | Idle =>
      if negb (cq_lease_seq req =? next_lease_seq (de_committed e)) then Ready (DErr AckLeaseMismatch)
      else CheckThen DAccept
  | Claiming c =>
      if negb (cq_lease_seq req =? cl_lease_seq c) then Ready (DErr AckLeaseMismatch)
      else if local_simultaneous_claim_wins local_id remote_id (cl_claim_nonce c) (cq_claim_nonce req)
      then CheckThen DConflictWin
      else CheckThen (DConflictLose (cl_channel_id c))
  | Bound _ | Draining _ => Ready (DErr AckNotIdle)
  end.

Definition claim_plan (local_id remote_id : P2pId) (e : DataConnEntry) (req : ClaimConnReq)
  : ClaimDecisionPlan :=
  match de_recent e with
  | Some r =>
      if rc_lease_seq r =? cq_lease_seq req then
        if claim_record_matches req r then Ready (DReplay (rc_response r))
        else Ready (DErr AckProtocolError)
      else plan_by_state local_id remote_id e req
  | None => plan_by_state local_id remote_id e req
  end.

(** ** Accept slots *)
Definition slot_pending (kind : TcpChannelKind) (t : TcpTunnel) : Z :=
  match kind with KindStream => tt_stream_pending t | KindDatagram => tt_datagram_pending t end.
Definition slot_limit (kind : TcpChannelKind) (t : TcpTunnel) : Z :=
  match kind with KindStream => tt_stream_limit t | KindDatagram => tt_datagram_limit t end.
Definition add_slot (kind : TcpChannelKind) (n : Z) (t : TcpTunnel) : TcpTunnel :=
  match kind with
  | KindStream => upd_slots (tt_stream_pending t + n) (tt_datagram_pending t) t
  | KindDatagram => upd_slots (tt_stream_pending t) (tt_datagram_pending t + n) t
  end.

Definition reserve_accept_slot (kind : TcpChannelKind) (t : TcpTunnel)
  : Result ClaimConnAckResult unit * TcpTunnel :=
  if tt_closed t then (Err AckListenerClosed, t)
  else if slot_limit kind t <=? slot_pending kind t then (Err AckAcceptQueueFull, t)
  else (Ok tt, add_slot kind 1 t).
Definition release_accept_slot (kind : TcpChannelKind) (t : TcpTunnel) : TcpTunnel := add_slot kind (-1) t.

Definition current_listen_vports (kind : TcpChannelKind) (t : TcpTunnel) : option (list Z -> bool) :=
  match kind with
  | KindStream => ls_stream_vports (tt_listen t) | KindDatagram => ls_datagram_vports (tt_listen t) end.

(** [check_accept_target], from the end of the wait for the first listener; the
    closed flag is read before the wait. *)
Definition check_accept_target (closed_before : bool) (kind : TcpChannelKind) (purpose : list Z) (t : TcpTunnel)
  : Result ClaimConnAckResult unit :=
  if closed_before then Err AckListenerClosed
  else match current_listen_vports kind t with
       | None => Err AckListenerClosed
       | Some is_listen =>
           if negb (is_listen purpose) then Err AckVportNotFound
           else if slot_limit kind t <=? slot_pending kind t then Err AckAcceptQueueFull
           else Ok tt
       end.

(** ** Registry of data connections *)
Definition get_entry (conn_id : Z) (t : TcpTunnel) : option (nat * DataConnEntry) :=
  r ← tt_data_conns t !! conn_id; e ← tt_entries t !! r; Some (r, e).

Definition register_entry (r : nat) (e : DataConnEntry) (t : TcpTunnel) : P2pResult unit * TcpTunnel :=
  match tt_data_conns t !! de_conn_id e with
  | Some _ => (Err P2pErrorCode.Conflict, t)
  | None => (Ok tt, set_conns <[de_conn_id e := r]> t)
  end.
Definition remove_entry (conn_id : Z) (t : TcpTunnel) : TcpTunnel := set_conns (delete conn_id) t.
Definition remove_entry_if_same (r : nat) (conn_id : Z) (t : TcpTunnel) : TcpTunnel :=
  if bool_decide (tt_data_conns t !! conn_id = Some r) then set_conns (delete conn_id) t else t.

Definition is_idle (e : DataConnEntry) : bool := match de_state e with Idle => true | _ => false end.
Definition idle_pool_len (t : TcpTunnel) : nat :=
  length (List.filter (fun '(_, r) => match tt_entries t !! r with Some e => is_idle e | None => false end)
            (map_to_list (tt_data_conns t))).

(** ** Answers to waiters *)
Definition send_pending_claim_result (ch : Z) (r : P2pResult nat) (t : TcpTunnel) : TcpTunnel :=
  if bool_decide (ch ∈ tt_pending_claims t) then
    upd_out (tt_tasks t) (tt_claim_answers t ++ [(ch, r)]) (tt_open_answers t)
      (set_claims (fun s => s ∖ {[ch]}) t)
  else t.
Definition answer_open (request_id : Z) (r : P2pResult nat) (t : TcpTunnel) : TcpTunnel :=
  upd_out (tt_tasks t) (tt_claim_answers t) (tt_open_answers t ++ [(request_id, r)]) t.

Definition clear_pending_drains_for_conn (conn_id : Z) (t : TcpTunnel) : TcpTunnel :=
  set_drains (filter (fun '((c, _), _) => c <> conn_id)) t.
Definition clear_pending_drain_for_entry (conn_id seq : Z) (t : TcpTunnel) : TcpTunnel :=
  set_drains (delete (conn_id, seq)) t.
Definition take_pending_drain (conn_id seq : Z) (t : TcpTunnel) : option PendingDrainFacts * TcpTunnel :=
  (tt_pending_drains t !! (conn_id, seq), clear_pending_drain_for_entry conn_id seq t).

Definition retire_plain_entry (r : nat) (reason : P2pErrorCode.t) (t : TcpTunnel) : TcpTunnel :=
  match tt_entries t !! r with
  | None => t
  | Some e =>
      let t1 := set_entries <[r := entry_stream false (entry_upd Retired e)]> t in
      let t2 := remove_entry_if_same r (de_conn_id e) (clear_pending_drains_for_conn (de_conn_id e) t1) in
      match de_state e with
      | Claiming c => send_pending_claim_result (cl_channel_id c) (Err reason) t2
      | _ => t2
      end
  end.

(** ** Running a lease operation on the tunnel *)
Definition entry_of (l : nat) (t : TcpTunnel) : option (LeaseId * DataConnEntry) :=
  x ← tt_leases t !! l; e ← tt_entries t !! li_entry (lx_id x); Some (lx_id x, e).

Definition apply_effect (l : nat) (t : TcpTunnel) (f : Effect) : TcpTunnel :=
  match f with
  | ESendFin m => spawn (TaskSendFin l m) t
  | ESendDone m => spawn (TaskSendDone l m) t
  | EDrainTimer n => spawn (TaskDrainTimer l n) t
  | EObserver => spawn (TaskObserver l) t
  | EFinalizeCheck => spawn (TaskFinalizeCheck l) t
  | EDraining | ERetired _ | EClosed | EToIdle =>
      match entry_of l t with
      | None => t
      | Some (i, e) =>
          let put e' := set_entries <[li_entry i := e']> t in
          match f with
          | EDraining => match de_state e with Bound _ => put (entry_upd (Draining l) e) | _ => t end
          | ERetired reason =>
              send_pending_claim_result (li_channel_id i) (Err reason)
                (remove_entry (li_conn_id i)
                   (clear_pending_drain_for_entry (li_conn_id i) (li_lease_seq i) (put (entry_upd Retired e))))
          | EClosed => remove_entry (li_conn_id i) (put (entry_upd Retired e))
          | _ => put (match de_state e with
                      | Bound _ | Draining _ => entry_upd Idle (entry_stream true e)
                      | _ => entry_stream true e
                      end)
          end
      end
  end.

Definition run_lease (l : nat) (f : LeaseM) (t : TcpTunnel) : TcpTunnel :=
  match tt_leases t !! l with
  | None => t
  | Some x => let '(x', es) := f x in foldl (apply_effect l) (set_leases <[l := x']> t) es
  end.

Definition bind_entry_to_lease (now : Z) (r : nat) (channel_id lease_seq : Z) (kind : TcpChannelKind)
    (purpose : list Z) (local_initiator : bool) (t : TcpTunnel) : P2pResult nat * TcpTunnel :=
  match tt_entries t !! r with
  | None => (Err P2pErrorCode.ErrorState, t)
  | Some e =>
      if negb (de_stream e) then (Err P2pErrorCode.ErrorState, t)
      else
        let l := tt_next_ref t in
        let x := lease_context_new r (de_conn_id e) lease_seq channel_id kind purpose local_initiator in
        let t1 := upd_heap (<[r := entry_bind lease_seq l e]> (tt_entries t)) (<[l := x]> (tt_leases t)) (S l) t in
        let '(drain, t2) := take_pending_drain (de_conn_id e) lease_seq t1 in
        (Ok l, run_lease l (bind_lease now (de_pending_fin e) (de_pending_read_done e) drain) t2)
  end.

(** ** Peer messages that are not for a bound lease *)
Definition insert_pending_write_fin (now : Z) (fin : WriteFin) (t : TcpTunnel) : P2pResult unit * TcpTunnel :=
  let key := (wf_conn_id fin, wf_lease_seq fin) in
  let d := default (mkDrain None None now) (tt_pending_drains t !! key) in
  match pd_write_fin d with
  | Some f =>
      (if negb (wf_channel_id f =? wf_channel_id fin) || negb (wf_final_tx_bytes f =? wf_final_tx_bytes fin)
       then Err P2pErrorCode.Interrupted else Ok tt, set_drains <[key := d]> t)
  | None =>
      (Ok tt, spawn (TaskPendingDrain key now) (set_drains <[key := mkDrain (Some fin) (pd_read_done d) now]> t))
  end.
Definition insert_pending_read_done (now : Z) (dn : ReadDone) (t : TcpTunnel) : P2pResult unit * TcpTunnel :=
  let key := (rd_conn_id dn, rd_lease_seq dn) in
  let d := default (mkDrain None None now) (tt_pending_drains t !! key) in
  match pd_read_done d with
  | Some f =>
      (if negb (rd_channel_id f =? rd_channel_id dn) || negb (rd_final_rx_bytes f =? rd_final_rx_bytes dn)
       then Err P2pErrorCode.Interrupted else Ok tt, set_drains <[key := d]> t)
  | None =>
      (Ok tt, spawn (TaskPendingDrain key now) (set_drains <[key := mkDrain (pd_write_fin d) (Some dn) now]> t))
  end.

(** [matches!(state, FirstClaimPending | Idle | Retired)] with a lease in the future. *)
Definition future_unbound (seq : Z) (e : DataConnEntry) : bool :=
  match de_state e with
  | FirstClaimPending | Idle | Retired => bool_decide (TunnelId_partial_cmp seq (de_committed e) = Some Gt)
  | _ => false
  end.

Definition handle_write_fin (now : Z) (fin : WriteFin) (t : TcpTunnel) : P2pResult unit * TcpTunnel :=
  match get_entry (wf_conn_id fin) t with
  | None => (Err P2pErrorCode.InvalidData, t)
  | Some (r, e) =>
      let retire t := (Ok tt, retire_plain_entry r P2pErrorCode.Interrupted t) in
      if future_unbound (wf_lease_seq fin) e then retire t
      else match de_state e with
           | Claiming c =>
               if cl_lease_seq c =? wf_lease_seq fin then
                 if negb (cl_channel_id c =? wf_channel_id fin) then retire t
                 else
                   let '(res, t1) := insert_pending_write_fin now fin t in
                   if is_err res then retire t1
                   else match de_pending_fin e with
                        | Some f =>
                            if negb (wf_channel_id f =? wf_channel_id fin)
                               || negb (wf_final_tx_bytes f =? wf_final_tx_bytes fin)
                            then retire t1 else (Ok tt, t1)
                        | None => (Ok tt, set_entries <[r := entry_pending (Some fin) (de_pending_read_done e) e]> t1)
                        end
               else (Ok tt, t)
           | Bound l | Draining l =>
               match x ← tt_leases t !! l; lease_write_fin now fin x with
               | Some (x', es) => (Ok tt, foldl (apply_effect l) (set_leases <[l := x']> t) es)
               | None => (Ok tt, t)
               end
           | _ => (Ok tt, t)
           end
  end.

Definition handle_read_done (now : Z) (dn : ReadDone) (t : TcpTunnel) : P2pResult unit * TcpTunnel :=
  match get_entry (rd_conn_id dn) t with
  | None => (Err P2pErrorCode.InvalidData, t)
  | Some (r, e) =>
      let retire t := (Ok tt, retire_plain_entry r P2pErrorCode.Interrupted t) in
      if future_unbound (rd_lease_seq dn) e then retire t
      else match de_state e with
           | Claiming c =>
               if cl_lease_seq c =? rd_lease_seq dn then
                 if negb (cl_channel_id c =? rd_channel_id dn) then retire t
                 else
                   let '(res, t1) := insert_pending_read_done now dn t in
                   if is_err res then retire t1
                   else match de_pending_read_done e with
                        | Some f =>
                            if negb (rd_channel_id f =? rd_channel_id dn)
                               || negb (rd_final_rx_bytes f =? rd_final_rx_bytes dn)
                            then retire t1 else (Ok tt, t1)
                        | None => (Ok tt, set_entries <[r := entry_pending (de_pending_fin e) (Some dn) e]> t1)
                        end
               else (Ok tt, t)
           | Bound l | Draining l =>
               match x ← tt_leases t !! l; lease_read_done dn x with
               | Some (x', es) => (Ok tt, foldl (apply_effect l) (set_leases <[l := x']> t) es)
               | None => (Ok tt, t)
               end
           | _ => (Ok tt, t)
           end
  end.

(** ** Claiming a connection: the accepting side *)
Record ClaimReqProcessing := mkProcessing {
  cp_response : ClaimConnAck;
  cp_accepted : option (TcpChannelKind * list Z * nat);
  cp_local_conflict : option Z }.

(** The accept check that may follow the plan; it runs after an await. *)
Definition claim_resolve (plan : ClaimDecisionPlan) (check : Result ClaimConnAckResult unit) : ClaimDecision :=
  match plan with
  | Ready d => d
  | CheckThen d => match check with Ok _ => d | Err r => DErr r end
  end.

Definition make_record (req : ClaimConnReq) (resp : RecentClaimResponse) : RecentClaimRecord :=
  mkRecent (cq_channel_id req) (cq_lease_seq req) (cq_claim_nonce req) (cq_kind req) (cq_purpose req) resp.

(** [entry.inner.lock().unwrap().recent_claim = Some(make_record(response))]. *)
Definition record_claim (r : nat) (req : ClaimConnReq) (resp : RecentClaimResponse) (t : TcpTunnel) : TcpTunnel :=
  set_entries (alter (entry_recent (make_record req resp)) r) t.

(** The two accepting branches: reserve a slot, bind, remember the answer. *)
Definition claim_accept (now : Z) (r : nat) (req : ClaimConnReq) (conflict : option Z) (t : TcpTunnel)
  : P2pResult ClaimReqProcessing * TcpTunnel :=
  match reserve_accept_slot (cq_kind req) t with
  | (Err reason, t1) =>
      (Ok (mkProcessing (claim_response_cmd req (RespErr reason)) None conflict),
       record_claim r req (RespErr reason) t1)
  | (Ok _, t1) =>
      match bind_entry_to_lease now r (cq_channel_id req) (cq_lease_seq req) (cq_kind req)
              (cq_purpose req) false t1 with
      | (Err e, t2) => (Err e, t2)
      | (Ok l, t2) =>
          (Ok (mkProcessing (claim_response_cmd req RespAck) (Some (cq_kind req, cq_purpose req, l)) conflict),
           record_claim r req RespAck t2)
      end
  end.

Definition claim_commit (now : Z) (r : nat) (req : ClaimConnReq) (d : ClaimDecision) (t : TcpTunnel)
  : P2pResult ClaimReqProcessing * TcpTunnel :=
  let reject reason :=
    (Ok (mkProcessing (claim_response_cmd req (RespErr reason)) None None), record_claim r req (RespErr reason) t) in
  match d with
  | DReplay resp => (Ok (mkProcessing (claim_response_cmd req resp) None None), t)
  | DErr reason => reject reason
  | DConflictWin => reject AckConflictLost
  | DConflictLose local_channel_id => claim_accept now r req (Some local_channel_id) t
  | DAccept => claim_accept now r req None t
  end.

(** The handler when nothing else runs during its await. *)
Definition process_claim_req (now : Z) (req : ClaimConnReq) (t : TcpTunnel)
  : P2pResult ClaimReqProcessing * TcpTunnel :=
  match get_entry (cq_conn_id req) t with
  | None => (Ok (mkProcessing (claim_response_cmd req (RespErr AckProtocolError)) None None), t)
  | Some (r, e) =>
      claim_commit now r req
        (claim_resolve (claim_plan (tt_local_id t) (tt_remote_id t) e req)
           (check_accept_target (tt_closed t) (cq_kind req) (cq_purpose req) t)) t
  end.

Definition set_activity (a : TunnelActivityState) (t : TcpTunnel) : TcpTunnel :=
  upd_phase (tt_listen t) a (tt_phase t) (tt_closed t) t.

(** [enqueue_accepted] with the pending guard it consumes or drops; the answer
    tells whether the callback received the channel. *)
Definition enqueue_accepted (now : Z) (kind : TcpChannelKind) (t : TcpTunnel) : P2pResult bool * TcpTunnel :=
  let t1 := release_accept_slot kind t in
  let dropped := (Ok false, set_activity (drop_pending now (tt_activity t1)) t1) in
  if tt_closed t1 then dropped
  else
    let '(callback, halves) :=
      match kind with
      | KindStream => (ls_stream_callback (tt_listen t1), 2)
      | KindDatagram => (ls_datagram_callback (tt_listen t1), 1)
      end in
    if negb callback then dropped
    else match promote halves now (tt_activity t1) with
         | (Ok _, a) => (Ok true, set_activity a t1)
         | (Err e, a) => (Err e, set_activity a t1)
         end.

(** [handle_claim_req] up to sending the response it returns. *)
Definition handle_claim_req (now : Z) (req : ClaimConnReq) (t : TcpTunnel) : P2pResult ClaimConnAck * TcpTunnel :=
  match begin_pending now (tt_activity t) with
  | (Err e, a) => (Err e, set_activity a t)
  | (Ok _, a) =>
      match process_claim_req now req (set_activity a t) with
      | (Err e, t1) => (Err e, set_activity (drop_pending now (tt_activity t1)) t1)
      | (Ok p, t1) =>
          let t2 := match cp_local_conflict p with
                    | Some ch => send_pending_claim_result ch (Err P2pErrorCode.Conflict) t1
                    | None => t1 end in
          match cp_accepted p with
          | None => (Ok (cp_response p), set_activity (drop_pending now (tt_activity t2)) t2)
          | Some (kind, _, _) =>
              match enqueue_accepted now kind t2 with
              | (Err e, t3) => (Err e, t3)
              | (Ok _, t3) => (Ok (cp_response p), t3)
              end
          end
      end
  end.

(** ** Claiming a connection: the claiming side *)

(** The state a failed claim falls back to. *)
Definition unclaimed_state (e : DataConnEntry) : DataConnEntryState :=
  if de_first_claim_local e && (de_committed e =? 0) then FirstClaimPending else Idle.

Definition claim_begin (r : nat) (kind : TcpChannelKind) (purpose : list Z) (channel_id nonce : Z)
    (t : TcpTunnel) : P2pResult ClaimConnReq * TcpTunnel :=
  match tt_entries t !! r with
  | None => (Err P2pErrorCode.ErrorState, t)
  | Some e =>
      let go seq :=
        (Ok (mkClaimReq channel_id kind purpose (de_conn_id e) seq nonce),
         set_claims (fun s => s ∪ {[channel_id]})
           (set_entries <[r := entry_upd (Claiming (mkClaiming seq channel_id nonce kind purpose)) e]> t)) in
      match de_state e with
      | FirstClaimPending => if de_first_claim_local e then go 1 else (Err P2pErrorCode.ErrorState, t)
      | Idle => go (next_lease_seq (de_committed e))
      | _ => (Err P2pErrorCode.ErrorState, t)
      end
  end.

(** The claim could not be sent. *)
Definition claim_send_failed (r : nat) (channel_id : Z) (t : TcpTunnel) : TcpTunnel :=
  set_entries (alter (fun e => entry_upd (unclaimed_state e) e) r)
    (set_claims (fun s => s ∖ {[channel_id]}) t).

(** No answer within the heartbeat timeout. *)
Definition claim_timeout (r : nat) (channel_id : Z) (t : TcpTunnel) : TcpTunnel :=
  retire_plain_entry r P2pErrorCode.Timeout (set_claims (fun s => s ∖ {[channel_id]}) t).

Definition handle_claim_ack (now : Z) (ack : ClaimConnAck) (t : TcpTunnel) : P2pResult unit * TcpTunnel :=
  match ack_result_try_from (ca_result ack) with
  | Err _ => (Err P2pErrorCode.InvalidData, t)
  | Ok result =>
      if negb (bool_decide (ca_channel_id ack ∈ tt_pending_claims t)) then (Ok tt, t)
      else match get_entry (ca_conn_id ack) t with
           | None => (Ok tt, send_pending_claim_result (ca_channel_id ack) (Err P2pErrorCode.NotFound) t)
           | Some (r, e) =>
               match de_state e with
               | Claiming c =>
                   if negb ((cl_channel_id c =? ca_channel_id ack) && (cl_lease_seq c =? ca_lease_seq ack))
                   then (Ok tt, t)
                   else match result with
                        | AckSuccess =>
                            match bind_entry_to_lease now r (cl_channel_id c) (cl_lease_seq c) (cl_kind c)
                                    (cl_purpose c) true t with
                            | (Err err, t1) => (Err err, t1)
                            | (Ok l, t1) => (Ok tt, send_pending_claim_result (ca_channel_id ack) (Ok l) t1)
                            end
                        | _ =>
                            (Ok tt, send_pending_claim_result (ca_channel_id ack) (Err (claim_result_to_error result))
                                      (set_entries <[r := entry_upd (unclaimed_state e) e]> t))
                        end
               | _ => (Ok tt, t)
               end
           end
  end.

(** [find_claimable_entry] over the registered entries in the order the map
    yields them. *)
Fixpoint find_claimable_entry (skipped : list Z) (rs : list nat) (t : TcpTunnel) : option nat :=
  match rs with
  | [] => None
  | r :: rs =>
      match tt_entries t !! r with
      | Some e =>
          if bool_decide (de_conn_id e ∈ skipped) then find_claimable_entry skipped rs t
          else match de_state e with
               | FirstClaimPending => if de_first_claim_local e then Some r else find_claimable_entry skipped rs t
               | Idle => Some r
               | _ => find_claimable_entry skipped rs t
               end
      | None => find_claimable_entry skipped rs t
      end
  end.

(** The retry loop of [open_channel]: an attempt either fails to provide a
    connection or claims one; only a lost conflict is retried, four times. *)
Fixpoint open_channel_loop (n : nat) (attempt : nat -> list Z -> P2pResult (Z * P2pResult nat))
    (skipped : list Z) (last : option P2pErrorCode.t) : P2pResult nat :=
  match n with
  | O => Err (default P2pErrorCode.ErrorState last)
  | S n' =>
      match attempt n skipped with
      | Err e => Err e
      | Ok (conn_id, Ok l) => Ok l
      | Ok (conn_id, Err P2pErrorCode.Conflict) =>
          open_channel_loop n' attempt (skipped ++ [conn_id]) (Some P2pErrorCode.Conflict)
      | Ok (_, Err e) => Err e
      end
  end.
Definition open_channel (attempt : nat -> list Z -> P2pResult (Z * P2pResult nat)) : P2pResult nat :=
  open_channel_loop 4 attempt [] None.

(** ** Asking the peer for a data connection *)
Definition correlation_error (e : ReverseOpenCorrelationError) : P2pErrorCode.t :=
  match e with
  | DuplicateArrival => P2pErrorCode.AlreadyExists
  | ConnIdMismatch => P2pErrorCode.InvalidData
  | ArrivalNotStaged => P2pErrorCode.ErrorState
  | ErrTerminal => P2pErrorCode.Interrupted
  end.

Definition open_data_resp_error (r : OpenDataConnRespResult) : P2pErrorCode.t :=
  match r with
  | OpenSuccess => P2pErrorCode.InvalidData
  | OpenConnectFailed => P2pErrorCode.ConnectFailed
  | OpenProtocolError => P2pErrorCode.InvalidData
  | OpenInternalError => P2pErrorCode.InternalError
  end.

Definition open_data_resp_result_from_error (c : P2pErrorCode.t) : OpenDataConnRespResult :=
  match c with
  | P2pErrorCode.ConnectFailed | P2pErrorCode.ConnectInterZoneFailed | P2pErrorCode.ConnectionRefused
  | P2pErrorCode.ConnectionReset | P2pErrorCode.ConnectionAborted | P2pErrorCode.NotConnected
  | P2pErrorCode.AddrNotAvailable | P2pErrorCode.Timeout | P2pErrorCode.TlsError => OpenConnectFailed
  | P2pErrorCode.InvalidParam | P2pErrorCode.InvalidFormat | P2pErrorCode.InvalidInput
  | P2pErrorCode.InvalidData | P2pErrorCode.Reject | P2pErrorCode.Unmatch | P2pErrorCode.NotMatch =>
      OpenProtocolError
  | _ => OpenInternalError
  end.

Definition open_request_begin (request_id : Z) (t : TcpTunnel) : TcpTunnel :=
  set_opens <[request_id := mkOpenRequest true None correlation_new]> t.

(** The terminal event is applied to the request as it leaves the map. *)
Definition take_terminal_pending_open_request (request_id : Z) (ev : ReverseOpenCorrelationEvent) (t : TcpTunnel)
  : option PendingOpenRequest * TcpTunnel :=
  ((fun p => mkOpenRequest (pr_sender p) (pr_staged p) (snd (apply (pr_correlation p) ev)))
     <$> tt_pending_open t !! request_id,
   set_opens (delete request_id) t).

Definition retire_staged (o : option nat) (reason : P2pErrorCode.t) (t : TcpTunnel) : TcpTunnel :=
  match o with Some r => retire_plain_entry r reason t | None => t end.

Definition fail_pending_open_request (request_id : Z) (err : P2pErrorCode.t) (t : TcpTunnel) : TcpTunnel :=
  match take_terminal_pending_open_request request_id Failure t with
  | (Some p, t1) =>
      let t2 := retire_staged (pr_staged p) err t1 in
      if pr_sender p then answer_open request_id (Err err) t2 else t2
  | (None, t1) => t1
  end.

Definition cancel_pending_open_request (request_id : Z) (t : TcpTunnel) : TcpTunnel :=
  match take_terminal_pending_open_request request_id TerminalCleanup t with
  | (Some p, t1) => retire_staged (pr_staged p) P2pErrorCode.Interrupted t1
  | (None, t1) => t1
  end.

(** The request could not be sent, or was not answered in time. *)
Definition open_request_abandon (request_id : Z) (reason : P2pErrorCode.t) (t : TcpTunnel) : TcpTunnel :=
  match take_terminal_pending_open_request request_id TerminalCleanup t with
  | (Some p, t1) => retire_staged (pr_staged p) reason t1
  | (None, t1) => t1
  end.

Definition consume_completed_pending_open_request (request_id : Z) (r : nat) (conn_id : Z) (t : TcpTunnel)
  : bool * TcpTunnel :=
  match tt_pending_open t !! request_id with
  | Some p =>
      if negb (pr_sender p) && bool_decide (completed_conn_id (pr_correlation p) = Some conn_id)
         && bool_decide (pr_staged p = Some r)
      then (true, set_opens (delete request_id) t) else (false, t)
  | None => (false, t)
  end.

(** The requester takes the connection it was handed. *)
Definition open_request_take (request_id : Z) (r : nat) (conn_id : Z) (t : TcpTunnel)
  : P2pResult nat * TcpTunnel :=
  match consume_completed_pending_open_request request_id r conn_id t with
  | (true, t1) => (Ok r, spawn (TaskFirstClaim r) t1)
  | (false, t1) => (Err P2pErrorCode.Interrupted, retire_plain_entry r P2pErrorCode.Interrupted t1)
  end.

(** Handing the connection to the waiting requester; [receiver] says that it
    still waits. *)
Definition deliver_open (receiver : bool) (request_id : Z) (r : nat) (t : TcpTunnel) : TcpTunnel :=
  if receiver then answer_open request_id (Ok r) t else cancel_pending_open_request request_id t.

Definition handle_open_data_conn_resp (receiver : bool) (resp : OpenDataConnResp) (t : TcpTunnel)
  : P2pResult unit * TcpTunnel :=
  let rid := or_request_id resp in
  match or_result resp, or_conn_id resp with
  | OpenSuccess, None => (Err P2pErrorCode.InvalidData, t)
  | OpenSuccess, Some conn_id =>
      match tt_pending_open t !! rid with
      | None => (Ok tt, t)
      | Some p =>
          let '(outcome, c) := apply (pr_correlation p) (SuccessResponse conn_id) in
          let put sender := set_opens <[rid := mkOpenRequest sender (pr_staged p) c]> t in
          let fail sender err :=
            let t1 := retire_staged (pr_staged p) err (set_opens (delete rid) t) in
            (Ok tt, if (sender : bool) then answer_open rid (Err err) t1 else t1) in
          match outcome with
          | Wait | Idempotent => (Ok tt, put (pr_sender p))
          | Complete _ =>
              match pr_sender p, pr_staged p with
              | true, Some r => (Ok tt, deliver_open receiver rid r (put false))
              | _, _ => fail false P2pErrorCode.ErrorState
              end
          | Reject e => fail (pr_sender p) (correlation_error e)
          | Terminal => fail (pr_sender p) P2pErrorCode.InvalidData
          end
      end
  | _, Some _ => (Err P2pErrorCode.InvalidData, t)
  | res, None => (Ok tt, fail_pending_open_request rid (open_data_resp_error res) t)
  end.

(** [on_incoming_data_connection]: the checks, then for a requested connection
    staging, the ready frame and registration.  [fresh_entry] puts the new
    entry in the heap. *)
Definition fresh_entry (e : DataConnEntry) (t : TcpTunnel) : nat * TcpTunnel :=
  (tt_next_ref t, upd_heap (<[tt_next_ref t := e]> (tt_entries t)) (tt_leases t) (S (tt_next_ref t)) t).

Definition incoming_stage (request_id : Z) (conn_id : Z) (r : nat) (t : TcpTunnel)
  : option P2pErrorCode.t * TcpTunnel :=
  match tt_pending_open t !! request_id with
  | None => (Some P2pErrorCode.NotFound, t)
  | Some p =>
      let '(outcome, c) := apply (pr_correlation p) (Arrival conn_id) in
      let put staged := set_opens <[request_id := mkOpenRequest (pr_sender p) staged c]> t in
      match outcome with
      | Wait => (None, put (Some r))
      | Reject e => (Some (correlation_error e), put (pr_staged p))
      | Idempotent => (Some P2pErrorCode.AlreadyExists, put (pr_staged p))
      | Complete _ | Terminal => (Some P2pErrorCode.ErrorState, put (pr_staged p))
      end
  end.

Definition incoming_register (receiver : bool) (request_id : Z) (conn_id : Z) (r : nat) (t : TcpTunnel)
  : P2pResult unit * TcpTunnel :=
  let fail err t := (Err P2pErrorCode.Interrupted,
                     set_entries (alter (entry_stream false) r) (fail_pending_open_request request_id err t)) in
  match tt_pending_open t !! request_id with
  | Some p =>
      if negb (bool_decide (pr_staged p = Some r)) then fail P2pErrorCode.Interrupted t
      else if bool_decide (is_Some (tt_data_conns t !! conn_id)) then fail P2pErrorCode.Conflict t
      else
        let '(outcome, c) := apply (pr_correlation p) (ArrivalRegistered conn_id) in
        let put sender := set_opens <[request_id := mkOpenRequest sender (pr_staged p) c]>
                            (set_conns <[conn_id := r]> t) in
        match outcome with
        | Wait | Idempotent => (Ok tt, put (pr_sender p))
        | Complete _ =>
            if pr_sender p then (Ok tt, deliver_open receiver request_id r (put false))
            else fail P2pErrorCode.ErrorState (put false)
        | Reject e => fail (correlation_error e) (put (pr_sender p))
        | Terminal => fail P2pErrorCode.ErrorState (put (pr_sender p))
        end
  | None => fail P2pErrorCode.Interrupted t
  end.

Definition promote_connected (now : Z) (t : TcpTunnel) : TcpTunnel :=
  match tt_phase t with
  | PassiveReady => upd_phase (tt_listen t) (note_activity now (tt_activity t)) Connected (tt_closed t) t
  | _ => t
  end.

(** The whole arrival with the ready frame's fate and the receiver's state as
    inputs; the answer carries the result written in the ready frame. *)
Definition on_incoming_data_connection (now : Z) (hello : TcpConnectionHello) (ready_sent : P2pResult unit)
    (receiver : bool) (t0 : TcpTunnel) : DataConnReadyResult * P2pResult unit * TcpTunnel :=
  let t := promote_connected now t0 in
  match he_role hello, he_conn_id hello with
  | RoleControl, _ | _, None => (DataProtocolError, Err P2pErrorCode.InvalidParam, t)
  | RoleData, Some conn_id =>
      match get_entry conn_id t with
      | Some _ => (DataConnIdConflict, Err P2pErrorCode.Conflict, t)
      | None =>
          match he_open_request_id hello with
          | None =>
              match ready_sent with
              | Err e => (DataSuccess, Err e, t)
              | Ok _ =>
                  let e := entry_new conn_id false false in
                  let '(r, t1) := fresh_entry e t in
                  match register_entry r e t1 with
                  | (Err err, t2) => (DataSuccess, Err err, set_entries (alter (entry_stream false) r) t2)
                  | (Ok _, t2) => (DataSuccess, Ok tt, spawn (TaskFirstClaim r) t2)
                  end
              end
          | Some request_id =>
              let '(r, t1) := fresh_entry (entry_new conn_id false true) t in
              match incoming_stage request_id conn_id r t1 with
              | (Some err, t2) =>
                  let t3 := if bool_decide (err = P2pErrorCode.NotFound) then t2
                            else fail_pending_open_request request_id err t2 in
                  (if bool_decide (err = P2pErrorCode.NotFound) then DataInternalError else DataProtocolError,
                   Err err, set_entries (alter (entry_stream false) r) t3)
              | (None, t2) =>
                  match ready_sent with
                  | Err e => (DataSuccess, Err e, fail_pending_open_request request_id e t2)
                  | Ok _ =>
                      let '(res, t3) := incoming_register receiver request_id conn_id r t2 in
                      (DataSuccess, res, t3)
                  end
              end
          end
      end
  end.

(** [create_data_connection] after the transport connected: the ready frame is
    checked and must be the only one. *)
Definition create_data_connection (conn_id : Z) (requested : bool) (ready : P2pResult DataConnReady)
    (extra : option (P2pResult DataConnReady)) (t : TcpTunnel) : P2pResult nat * TcpTunnel :=
  match ready with
  | Err e => (Err e, t)
  | Ok rdy =>
      if negb (dc_conn_id rdy =? conn_id) || negb (dc_candidate_id rdy =? tt_candidate_id t)
      then (Err P2pErrorCode.InvalidData, t)
      else match dc_result rdy with
           | DataSuccess =>
               match extra with
               | Some _ => (Err P2pErrorCode.InvalidData, t)
               | None =>
                   let e := entry_new conn_id true (negb requested) in
                   let '(r, t1) := fresh_entry e t in
                   match register_entry r e t1 with
                   | (Err err, t2) => (Err err, set_entries (alter (entry_stream false) r) t2)
                   | (Ok _, t2) => (Ok r, if requested then t2 else spawn (TaskFirstClaim r) t2)
                   end
               end
           | _ => (Err P2pErrorCode.Reject, t)
           end
  end.

(** The peer's request for a connection: the response sent and, when sending it
    fails, the retirement of the connection just made. *)
Definition reverse_open_finish (request_id : Z) (made : P2pResult nat) (sent : P2pResult unit) (t : TcpTunnel)
  : OpenDataConnResp * TcpTunnel :=
  match made with
  | Ok r =>
      (mkOpenResp request_id (de_conn_id <$> tt_entries t !! r) OpenSuccess,
       match sent with Err e => retire_plain_entry r e t | Ok _ => spawn (TaskFirstClaim r) t end)
  | Err e => (mkOpenResp request_id None (open_data_resp_result_from_error e), t)
  end.

(** Which side is asked first for a new connection. *)
Definition create_data_connection_for_channel (form : TunnelForm) (local peer : P2pResult nat) : P2pResult nat :=
  match form with
  | FormActive | FormProxy => match local with Ok r => Ok r | Err _ => peer end
  | FormPassive => match peer with Ok r => Ok r | Err _ => local end
  end.

(** ** Timers *)
Definition drain_timeout (t : TcpTunnel) : Duration :=
  Z.max (tt_heartbeat_timeout t + tt_heartbeat_timeout t) (from_secs 2).

Definition pending_drain_fires (key : Z * Z) (updated_at : Z) (t : TcpTunnel) : TcpTunnel :=
  match tt_pending_drains t !! key with
  | Some d =>
      if pd_updated_at d =? updated_at then
        match tt_data_conns t !! fst key with
        | Some r => retire_plain_entry r P2pErrorCode.Interrupted t
        | None => clear_pending_drain_for_entry (fst key) (snd key) t
        end
      else t
  | None => t
  end.

Definition first_claim_timeout_fires (r : nat) (t : TcpTunnel) : TcpTunnel :=
  match tt_entries t !! r with
  | Some e => match de_state e with FirstClaimPending => retire_plain_entry r P2pErrorCode.Timeout t | _ => t end
  | None => t
  end.

(** One turn of the finalize check; the boolean ends its loop. *)
Definition finalize_check_turn (l : nat) (t : TcpTunnel) : bool * TcpTunnel :=
  let t1 := run_lease l maybe_finalize_lease t in
  (match tt_leases t1 !! l with
   | Some x => lx_retired x || match tt_entries t1 !! li_entry (lx_id x) with
                               | Some e => match de_state e with Idle | Retired => true | _ => false end
                               | None => true end
   | None => true
   end, t1).

Inductive HeartbeatAction := HbStop | HbContinue | HbClose (p : LocalTunnelPhase) (c : P2pErrorCode.t).
(** One turn of [heartbeat_loop]: the ages of the last receive and the last
    pong, and whether the ping it may send goes out. *)
Definition heartbeat_turn (interval timeout since_recv since_pong : Duration) (ping_ok : bool) (t : TcpTunnel)
  : bool * HeartbeatAction :=
  if tt_closed t then (false, HbStop)
  else if negb (bool_decide (tt_phase t = Connected)) then (false, HbContinue)
  else
    let should_ping := interval <=? since_recv in
    if should_ping && negb ping_ok then (true, HbClose PhaseError P2pErrorCode.Interrupted)
    else if (timeout <=? since_pong) && (timeout <=? since_recv)
    then (should_ping, HbClose PhaseError P2pErrorCode.Timeout)
    else (should_ping, HbContinue).

(** ** Shutdown *)
Definition close_entry (reason : P2pErrorCode.t) (t : TcpTunnel) (r : nat) : TcpTunnel :=
  match tt_entries t !! r with
  | None => t
  | Some e =>
      let e1 := entry_no_reuse e in
      match de_state e with
      | Bound l | Draining l =>
          let t1 := set_leases (alter upd_no_reuse l) (set_entries <[r := e1]> t) in
          match tt_leases t1 !! l with
          | Some x => if ready_for_close x then run_lease l (retire_lease_arc reason) t1 else t1
          | None => t1
          end
      | Claiming _ | FirstClaimPending | Idle =>
          set_entries <[r := entry_stream false (entry_upd Retired e1)]> t
      | Retired => set_entries <[r := entry_stream false e1]> t
      end
  end.

Definition close_open_request (reason : P2pErrorCode.t) (t : TcpTunnel) (q : Z * PendingOpenRequest) : TcpTunnel :=
  let t1 := retire_staged (pr_staged (snd q)) reason t in
  if pr_sender (snd q) then answer_open (fst q) (Err reason) t1 else t1.

Definition close_local (phase : LocalTunnelPhase) (reason : P2pErrorCode.t) (t : TcpTunnel) : bool * TcpTunnel :=
  let t0 := set_activity (retire (tt_activity t)) t in
  if tt_closed t then (false, t0)
  else
    let ls := mkListening (ls_stream_vports (tt_listen t)) (ls_datagram_vports (tt_listen t)) false false in
    let opens := map_to_list (tt_pending_open t) in
    let claims := elements (tt_pending_claims t) in
    let conns := snd <$> map_to_list (tt_data_conns t) in
    let t1 := upd_maps (tt_data_conns t) ∅ ∅ ∅ (upd_phase ls (tt_activity t0) phase true t0) in
    let t2 := foldl (close_open_request reason) t1 opens in
    let t3 := foldl (fun t ch => upd_out (tt_tasks t) (tt_claim_answers t ++ [(ch, Err reason)]) (tt_open_answers t) t)
                t2 claims in
    (true, foldl (close_entry reason) t3 conns).

(** ** What a claim does to the tunnel *)

(** The channel and lease a registered connection serves. *)
Definition serving (conn : Z) (t : TcpTunnel) : option (Z * Z) :=
  match get_entry conn t with
  | Some (_, e) =>
      match de_state e with
      | Bound l | Draining l =>
          x ← tt_leases t !! l; Some (li_channel_id (lx_id x), li_lease_seq (lx_id x))
      | _ => None
      end
  | None => None
  end.

(** The effects of binding when nothing was staged. *)
Lemma bind_lease_fresh now e conn seq ch kind purpose init :
  exists x es, bind_lease now None None None (lease_context_new e conn seq ch kind purpose init) = (x, es) /\
    lx_id x = lx_id (lease_context_new e conn seq ch kind purpose init) /\
    (es = [] \/ es = [EObserver] \/ exists m, es = [EDraining; ESendFin m]).
Proof. destruct kind, init; eexists _, _; split; [reflexivity|eauto|reflexivity|eauto..]; eauto 6. Qed.

(** The fields that binding leaves alone. *)
Definition same_control (t t' : TcpTunnel) : Prop :=
  tt_data_conns t' = tt_data_conns t /\ tt_pending_claims t' = tt_pending_claims t /\
  tt_claim_answers t' = tt_claim_answers t /\ tt_closed t' = tt_closed t /\ tt_listen t' = tt_listen t /\
  tt_activity t' = tt_activity t.

Lemma bind_fresh now r e ch seq kind purpose init t :
  tt_entries t !! r = Some e -> de_stream e = true ->
  de_pending_fin e = None -> de_pending_read_done e = None ->
  tt_pending_drains t !! (de_conn_id e, seq) = None ->
  exists t' e' x,
    bind_entry_to_lease now r ch seq kind purpose init t = (Ok (tt_next_ref t), t') /\ same_control t t' /\
    tt_entries t' !! r = Some e' /\ (de_state e' = Bound (tt_next_ref t) \/ de_state e' = Draining (tt_next_ref t)) /\
    tt_leases t' !! tt_next_ref t = Some x /\
    li_channel_id (lx_id x) = ch /\ li_lease_seq (lx_id x) = seq.
Proof.
  intros He Hs Hf Hd Hdr. unfold bind_entry_to_lease. rewrite He, Hs, Hf, Hd. simpl. rewrite Hdr.
  set (l := tt_next_ref t). unfold run_lease. simpl. rewrite lookup_insert_eq.
  destruct (bind_lease_fresh now r (de_conn_id e) seq ch kind purpose init) as (x & es & -> & Hid & Hes).
  assert (li_channel_id (lx_id x) = ch /\ li_lease_seq (lx_id x) = seq /\ li_entry (lx_id x) = r) as (? & ? & Her).
  { rewrite Hid. by destruct kind, init. }
  destruct Hes as [->|[->|[m ->]]]; simpl.
  - eexists _, _, x. split; [reflexivity|]. unfold same_control. simpl. rewrite !lookup_insert_eq.
    split_and!; try reflexivity; auto.
  - eexists _, _, x. split; [reflexivity|]. unfold same_control. simpl. rewrite !lookup_insert_eq.
    split_and!; try reflexivity; auto.
  - unfold entry_of. simpl. rewrite lookup_insert_eq. simpl. rewrite Her, lookup_insert_eq. simpl.
    eexists _, _, x. split; [reflexivity|]. unfold same_control. simpl. rewrite ?Her, !lookup_insert_eq.
    split_and!; try reflexivity; auto.
Qed.

(** ** Simultaneous claims *)

(** The claim an end has sent. *)
Definition claim_of (conn : Z) (c : ClaimingState) : ClaimConnReq :=
  mkClaimReq (cl_channel_id c) (cl_kind c) (cl_purpose c) conn (cl_lease_seq c) (cl_claim_nonce c).

(** An end that waits for the answer to its claim [c] of connection [conn]. *)
Record waiting_claim (t : TcpTunnel) (r : nat) (conn : Z) (c : ClaimingState) : Prop := {
  wc_conn : tt_data_conns t !! conn = Some r;
  wc_entry : exists e, tt_entries t !! r = Some e /\ de_conn_id e = conn /\ de_state e = Claiming c /\
    de_stream e = true /\ de_pending_fin e = None /\ de_pending_read_done e = None /\
    (forall k, de_recent e = Some k -> rc_lease_seq k <> cl_lease_seq c);
  wc_drain : tt_pending_drains t !! (conn, cl_lease_seq c) = None;
  wc_waiter : cl_channel_id c ∈ tt_pending_claims t;
  wc_open : tt_closed t = false;
  wc_live : lifecycle (tt_activity t) = ActLive;
}.

(** The end would accept the peer's claim: it listens for the purpose and its
    accept queue has room. *)
Definition would_accept (t : TcpTunnel) (c : ClaimingState) : Prop :=
  check_accept_target false (cl_kind c) (cl_purpose c) t = Ok tt.

(** The answer of an end that does not give up its own claim: why it cannot
    accept the peer's, or that the peer lost. *)
Definition refusal (t : TcpTunnel) (c : ClaimingState) : ClaimConnAckResult :=
  match check_accept_target false (cl_kind c) (cl_purpose c) t with
  | Ok _ => AckConflictLost
  | Err reason => reason
  end.

#[global] Instance would_accept_dec t c : Decision (would_accept t c).
Proof.
  unfold would_accept. destruct (check_accept_target _ _ _ _) as [[]|r]; [by left|by right].
Defined.

Lemma ack_result_try_from_u8 r : ack_result_try_from (ack_result_u8 r) = Ok r.
Proof. by destruct r. Qed.

Lemma refusal_not_success t c : refusal t c <> AckSuccess.
Proof. unfold refusal, check_accept_target. by repeat case_match; simplify_eq. Qed.

Lemma claim_wins_antisym a b n m :
  a <> b -> local_simultaneous_claim_wins a b n m = negb (local_simultaneous_claim_wins b a m n).
Proof.
  intros Hne. unfold local_simultaneous_claim_wins. rewrite (Z.eqb_sym m n).
  destruct (n =? m) eqn:E; [|bool_to_prop; destruct (m <? n) eqn:E1, (n <? m) eqn:E2; bool_to_prop; simpl; lia].
  rewrite (cmp_opp list_compare (p2pid_bytes a) (p2pid_bytes b)).
  destruct (list_compare (p2pid_bytes a) (p2pid_bytes b)) eqn:C; try done.
  apply (cmp_eq list_compare) in C. destruct a, b. simpl in *. congruence.
Qed.

Lemma accept_slot_free t c :
  tt_closed t = false -> would_accept t c -> reserve_accept_slot (cl_kind c) t = (Ok tt, add_slot (cl_kind c) 1 t).
Proof.
  intros Hc. unfold would_accept, check_accept_target, reserve_accept_slot. rewrite Hc.
  repeat case_match; simplify_eq; done.
Qed.

Lemma claim_plan_waiting a b e c req :
  de_state e = Claiming c -> (forall k, de_recent e = Some k -> rc_lease_seq k <> cl_lease_seq c) ->
  cq_lease_seq req = cl_lease_seq c ->
  claim_plan a b e req =
  CheckThen (if local_simultaneous_claim_wins a b (cl_claim_nonce c) (cq_claim_nonce req)
             then DConflictWin else DConflictLose (cl_channel_id c)).
Proof.
  intros Hs Hr Hq. unfold claim_plan, plan_by_state. rewrite Hs, Hq, Z.eqb_refl. simpl.
  assert (forall p : ClaimDecisionPlan, (match de_recent e with
    | Some r0 => if rc_lease_seq r0 =? cl_lease_seq c then
        if claim_record_matches req r0 then Ready (DReplay (rc_response r0)) else Ready (DErr AckProtocolError)
        else p
    | None => p end) = p) as ->.
  { intros p. destruct (de_recent e) as [k|] eqn:E; [|done]. specialize (Hr k eq_refl).
    destruct (rc_lease_seq k =? cl_lease_seq c) eqn:E2; [bool_to_prop; done|done]. }
  by case_match.
Qed.

Lemma begin_pending_live now a :
  lifecycle a = ActLive -> exists a', begin_pending now a = (Ok tt, a') /\ lifecycle a' = ActLive.
Proof. intros H. unfold begin_pending. rewrite H. eauto. Qed.

Lemma enqueue_live now kind t :
  lifecycle (tt_activity t) = ActLive ->
  exists b t', enqueue_accepted now kind t = (Ok b, t') /\
    tt_data_conns t' = tt_data_conns t /\ tt_entries t' = tt_entries t /\ tt_leases t' = tt_leases t /\
    tt_pending_claims t' = tt_pending_claims t /\ tt_claim_answers t' = tt_claim_answers t.
Proof.
  intros Hl. unfold enqueue_accepted, promote. destruct kind; simpl; rewrite Hl;
    repeat case_match; simplify_eq; eexists _, _; (split; [reflexivity|done]).
Qed.

Lemma serving_bound t r conn e l x :
  tt_data_conns t !! conn = Some r -> tt_entries t !! r = Some e ->
  (de_state e = Bound l \/ de_state e = Draining l) -> tt_leases t !! l = Some x ->
  serving conn t = Some (li_channel_id (lx_id x), li_lease_seq (lx_id x)).
Proof.
  intros Hc He Hs Hl. unfold serving, get_entry. rewrite Hc. simpl. rewrite He. simpl.
  destruct Hs as [-> | ->]; by rewrite Hl.
Qed.

(** The end that loses the arbitration serves the peer's claim and fails its
    own waiter. *)
Lemma claim_loses now t r conn c c' :
  waiting_claim t r conn c -> cl_lease_seq c' = cl_lease_seq c -> would_accept t c' ->
  local_simultaneous_claim_wins (tt_local_id t) (tt_remote_id t) (cl_claim_nonce c) (cl_claim_nonce c') = false ->
  exists t',
    handle_claim_req now (claim_of conn c') t = (Ok (mkClaimAck (cl_channel_id c') conn (cl_lease_seq c') 0), t') /\
    serving conn t' = Some (cl_channel_id c', cl_lease_seq c) /\
    cl_channel_id c ∉ tt_pending_claims t' /\
    tt_claim_answers t' = tt_claim_answers t ++ [(cl_channel_id c, Err P2pErrorCode.Conflict)].
Proof.
  intros [Hc (e & He & Hconn & Hst & Hstr & Hpf & Hpd & Hrec) Hdr Hw Hopen Hlive] Hseq Hacc Hwin.
  destruct (begin_pending_live now _ Hlive) as (a' & Hbp & Hla). unfold handle_claim_req. rewrite Hbp.
  set (t0 := set_activity a' t).
  assert (would_accept t0 c') as Hacc0 by done. assert (tt_closed t0 = false) as Hop0 by done.
  unfold process_claim_req, get_entry. simpl. rewrite Hc. simpl. rewrite He. simpl.
  rewrite (claim_plan_waiting _ _ e c) by done. simpl. rewrite Hwin. unfold would_accept in Hacc0.
  rewrite Hopen, Hacc0. simpl. unfold claim_accept. simpl. rewrite (accept_slot_free t0 c' Hop0 Hacc).
  set (t1 := add_slot (cl_kind c') 1 t0).
  assert (same_control t0 t1 /\ tt_entries t1 = tt_entries t /\ tt_pending_drains t1 = tt_pending_drains t
    /\ tt_next_ref t1 = tt_next_ref t) as (Hs1 & He1 & Hd1 & Hn1)
    by (unfold t1, add_slot, same_control; by destruct (cl_kind c')).
  destruct (bind_fresh now r e (cl_channel_id c') (cl_lease_seq c') (cl_kind c') (cl_purpose c') false t1)
    as (t2 & e2 & x & Hb & Hs2 & He2 & Hst2 & Hx & Hch & Hsq); auto.
  { by rewrite He1. } { rewrite Hd1, Hconn, Hseq. done. }
  rewrite Hb. simpl. unfold same_control in *. destruct_and!. simpl in *.
  set (t3 := record_claim r (claim_of conn c') RespAck t2).
  assert (cl_channel_id c ∈ tt_pending_claims t3) as Hin3 by (simpl; congruence).
  unfold send_pending_claim_result. rewrite bool_decide_true by done.
  match goal with |- context [enqueue_accepted now (cl_kind c') ?u] => set (t4 := u) end.
  destruct (enqueue_live now (cl_kind c') t4) as (b & t5 & Hen & Q1 & Q2 & Q3 & Q4 & Q5); [simpl; congruence|].
  rewrite Hen. eexists. split; [reflexivity|].
  split_and!.
  - rewrite (serving_bound t5 r conn (entry_recent (make_record (claim_of conn c') RespAck) e2) (tt_next_ref t1) x).
    + by rewrite Hch, Hsq, Hseq.
    + rewrite Q1. simpl. congruence.
    + rewrite Q2. simpl. by rewrite lookup_alter_eq, He2.
    + done.
    + by rewrite Q3.
  - rewrite Q4. simpl. set_solver.
  - rewrite Q5. simpl. congruence.
Qed.

(** An end that keeps its own claim, because it wins or because it cannot
    accept the peer's, refuses the peer's claim; it is bound by a success
    answer to its own, and any other answer fails its waiter and leaves the
    connection unclaimed. *)
Lemma claim_refused now t r conn c c' :
  waiting_claim t r conn c -> cl_lease_seq c' = cl_lease_seq c ->
  (local_simultaneous_claim_wins (tt_local_id t) (tt_remote_id t) (cl_claim_nonce c) (cl_claim_nonce c') = true
   \/ ~ would_accept t c') ->
  exists t1,
    handle_claim_req now (claim_of conn c') t =
      (Ok (mkClaimAck (cl_channel_id c') conn (cl_lease_seq c') (ack_result_u8 (refusal t c'))), t1) /\
    (exists t2 l,
       handle_claim_ack now (mkClaimAck (cl_channel_id c) conn (cl_lease_seq c) 0) t1 = (Ok tt, t2) /\
       serving conn t2 = Some (cl_channel_id c, cl_lease_seq c) /\
       tt_claim_answers t2 = tt_claim_answers t ++ [(cl_channel_id c, Ok l)]) /\
    (forall reason, reason <> AckSuccess -> exists t2,
       handle_claim_ack now (mkClaimAck (cl_channel_id c) conn (cl_lease_seq c) (ack_result_u8 reason)) t1
         = (Ok tt, t2) /\
       serving conn t2 = None /\
       tt_claim_answers t2 = tt_claim_answers t ++ [(cl_channel_id c, Err (claim_result_to_error reason))]).
Proof.
  intros [Hc (e & He & Hconn & Hst & Hstr & Hpf & Hpd & Hrec) Hdr Hw Hopen Hlive] Hseq Hwin.
  destruct (begin_pending_live now _ Hlive) as (a' & Hbp & Hla).
  set (e1 := entry_recent (make_record (claim_of conn c') (RespErr (refusal t c'))) e).
  assert (exists t1, handle_claim_req now (claim_of conn c') t =
      (Ok (mkClaimAck (cl_channel_id c') conn (cl_lease_seq c') (ack_result_u8 (refusal t c'))), t1) /\
      tt_data_conns t1 !! conn = Some r /\ tt_entries t1 !! r = Some e1 /\
      tt_pending_drains t1 = tt_pending_drains t /\ tt_pending_claims t1 = tt_pending_claims t /\
      tt_claim_answers t1 = tt_claim_answers t) as (t1 & Hreq & Hc1 & He1 & Hd1 & Hp1 & Ha1).
  { unfold handle_claim_req. rewrite Hbp. unfold process_claim_req, get_entry. simpl. rewrite Hc. simpl.
    rewrite He. simpl. rewrite (claim_plan_waiting _ _ e c) by done. simpl. rewrite Hopen.
    change (check_accept_target false (cl_kind c') (cl_purpose c') (set_activity a' t))
      with (check_accept_target false (cl_kind c') (cl_purpose c') t).
    unfold would_accept in Hwin. unfold e1, refusal.
    destruct (check_accept_target _ _ _ _) as [[]|reason]; simpl.
    - destruct Hwin as [->|[]]; [|done]. simpl. eexists. split; [reflexivity|]. simpl.
      rewrite lookup_alter_eq, He. by split_and!.
    - eexists. split; [reflexivity|]. simpl. rewrite lookup_alter_eq, He. by split_and!. }
  exists t1. split; [done|]. unfold handle_claim_ack. simpl. rewrite Hp1, bool_decide_true by done.
  unfold get_entry. rewrite Hc1. simpl. rewrite He1. simpl. rewrite Hst, !Z.eqb_refl. simpl. split.
  - destruct (bind_fresh now r e1 (cl_channel_id c) (cl_lease_seq c) (cl_kind c) (cl_purpose c) true t1)
      as (t2 & e2 & x & Hb & Hs2 & He2 & Hst2 & Hx & Hch & Hsq); auto.
    { simpl. by rewrite Hd1, Hconn. }
    rewrite Hb. unfold same_control in Hs2. destruct_and!. simpl in *.
    unfold send_pending_claim_result. rewrite bool_decide_true by congruence.
    eexists _, _. split; [reflexivity|]. split.
    + rewrite (serving_bound _ r conn e2 (tt_next_ref t1) x); simpl; [by rewrite Hch, Hsq|congruence|done..].
    + simpl. f_equal. congruence.
  - intros reason Hne. eexists. rewrite ack_result_try_from_u8. split; [by destruct reason|].
    unfold send_pending_claim_result. simpl. rewrite bool_decide_true by congruence. split; [|simpl; by rewrite Ha1].
    unfold serving, get_entry. simpl. rewrite Hc1. simpl. rewrite lookup_insert_eq. simpl.
    unfold unclaimed_state. by destruct (_ && _).
Qed.

(** An answer nobody waits for changes nothing. *)
Lemma late_claim_ack now ch conn seq reason t :
  ch ∉ tt_pending_claims t -> handle_claim_ack now (mkClaimAck ch conn seq (ack_result_u8 reason)) t = (Ok tt, t).
Proof. intros H. unfold handle_claim_ack. simpl. rewrite ack_result_try_from_u8, bool_decide_false by done. done. Qed.

(** The outcome, seen from the winning end [W] and the losing end [L]. *)
Lemma claims_settled now W L rW rL conn cW cL :
  waiting_claim W rW conn cW -> waiting_claim L rL conn cL ->
  cl_lease_seq cW = cl_lease_seq cL ->
  local_simultaneous_claim_wins (tt_local_id W) (tt_remote_id W) (cl_claim_nonce cW) (cl_claim_nonce cL) = true ->
  local_simultaneous_claim_wins (tt_local_id L) (tt_remote_id L) (cl_claim_nonce cL) (cl_claim_nonce cW) = false ->
  exists ackW ackL W1 L1 W2 L2,
    handle_claim_req now (claim_of conn cW) L = (Ok ackW, L1) /\
    handle_claim_req now (claim_of conn cL) W = (Ok ackL, W1) /\
    handle_claim_ack now ackW W1 = (Ok tt, W2) /\
    handle_claim_ack now ackL L1 = (Ok tt, L2) /\
    if decide (would_accept L cW)
    then (exists l, tt_claim_answers W2 = tt_claim_answers W ++ [(cl_channel_id cW, Ok l)]) /\
         tt_claim_answers L2 = tt_claim_answers L ++ [(cl_channel_id cL, Err P2pErrorCode.Conflict)] /\
         serving conn W2 = Some (cl_channel_id cW, cl_lease_seq cW) /\
         serving conn L2 = Some (cl_channel_id cW, cl_lease_seq cW)
    else tt_claim_answers W2 = tt_claim_answers W
           ++ [(cl_channel_id cW, Err (claim_result_to_error (refusal L cW)))] /\
         tt_claim_answers L2 = tt_claim_answers L
           ++ [(cl_channel_id cL, Err (claim_result_to_error (refusal W cL)))] /\
         serving conn W2 = None /\ serving conn L2 = None.
Proof.
  intros HW HL Hseq Hw Hl.
  destruct (claim_refused now W rW conn cW cL) as (W1 & P1 & (W2 & l & P2 & P3 & P4) & P5); auto.
  destruct (decide (would_accept L cW)) as [Ha|Ha].
  - destruct (claim_loses now L rL conn cL cW) as (L1 & Q1 & Q2 & Q3 & Q4); auto.
    eexists _, _, W1, L1, W2, L1. rewrite P1, Q1. split_and!; try reflexivity; eauto using late_claim_ack.
    by rewrite Q2, Hseq.
  - destruct (claim_refused now L rL conn cL cW) as (L1 & Q1 & _ & Q5); auto.
    destruct (P5 _ (refusal_not_success L cW)) as (W3 & R1 & R2 & R3).
    destruct (Q5 _ (refusal_not_success W cL)) as (L3 & S1 & S2 & S3).
    eexists _, _, W1, L1, W3, L3. rewrite P1, Q1. by split_and!.
Qed.


(** *** Two concrete ends *)
Definition demo_tunnel (listens : bool) (me peer : Z) (form : TunnelForm) (ch nonce : Z) : TcpTunnel :=
  let c := mkClaiming 2 ch nonce KindStream [1] in
  let e := mkEntry 9 true true true 1 (Claiming c) false None None None in
  mkTunnel form (mkP2pId [me]) (mkP2pId [peer]) 5 (from_secs 10)
    (mkListening (Some (fun _ => listens)) None true false) (activity_new 0) Connected false
    {[9 := 0%nat]} ∅ ∅ {[ch]} {[0%nat := e]} ∅ 1 0 16 0 16 [] [] [].

Lemma demo_waiting listens me peer form ch nonce :
  waiting_claim (demo_tunnel listens me peer form ch nonce) 0 9 (mkClaiming 2 ch nonce KindStream [1]).
Proof.
  split; try done; [|simpl; set_solver]. eexists. split; [reflexivity|]. split_and!; try done.
Qed.


(** ** The answer to a claim stands for the whole lease number *)

(** What is remembered once a claim was answered. *)
Definition remembers (t : TcpTunnel) (req : ClaimConnReq) (resp : RecentClaimResponse) : Prop :=
  exists r e, get_entry (cq_conn_id req) t = Some (r, e) /\ de_recent e = Some (make_record req resp).

Lemma get_entry_Some conn t r e :
  get_entry conn t = Some (r, e) <-> tt_data_conns t !! conn = Some r /\ tt_entries t !! r = Some e.
Proof.
  unfold get_entry. split.
  - destruct (tt_data_conns t !! conn) as [r'|]; simpl; [|done].
    destruct (tt_entries t !! r') as [e'|] eqn:E; simpl; [|done]. intros [= -> ->]. auto.
  - intros [-> Hr]. simpl. by rewrite Hr.
Qed.

(** An operation that keeps the registration of [conn] or removes it. *)
Definition conn_kept (conn : Z) (t t' : TcpTunnel) : Prop :=
  tt_data_conns t' !! conn = tt_data_conns t !! conn \/ tt_data_conns t' !! conn = None.

Lemma conn_kept_trans conn t1 t2 t3 : conn_kept conn t1 t2 -> conn_kept conn t2 t3 -> conn_kept conn t1 t3.
Proof. unfold conn_kept. intros [E1|E1] [E2|E2]; auto; [left|right]; congruence. Qed.

Lemma apply_effect_conns conn l t f : conn_kept conn t (apply_effect l t f).
Proof.
  unfold conn_kept.
  destruct f; simpl; auto; destruct (entry_of l t) as [[i e]|]; simpl; auto; try (case_match; by auto).
  - unfold send_pending_claim_result. case_bool_decide; simpl;
      (destruct (decide (conn = li_conn_id i)) as [->|]; [right; by rewrite lookup_delete_eq|left; by rewrite lookup_delete_ne]).
  - destruct (decide (conn = li_conn_id i)) as [->|]; [right; by rewrite lookup_delete_eq|left; by rewrite lookup_delete_ne].
Qed.

Lemma effects_conns conn l es t : conn_kept conn t (foldl (apply_effect l) t es).
Proof.
  revert t. induction es as [|f es IH]; intros t; simpl; [by left|].
  eapply conn_kept_trans; [apply apply_effect_conns|apply IH].
Qed.

Lemma bind_conns conn now r ch seq kind purpose init t res t' :
  bind_entry_to_lease now r ch seq kind purpose init t = (res, t') -> conn_kept conn t t'.
Proof.
  unfold bind_entry_to_lease. destruct (tt_entries t !! r) as [e|]; [|intros [= <- <-]; by left].
  destruct (de_stream e); simpl; [|intros [= <- <-]; by left]. unfold run_lease. simpl. rewrite lookup_insert_eq.
  destruct (bind_lease _ _ _ _ _) as [x es]. intros [= <- <-].
  match goal with |- conn_kept conn t (foldl _ ?u es) => exact (effects_conns conn _ es u) end.
Qed.

Lemma record_claim_remembers t r req resp :
  tt_data_conns t !! cq_conn_id req = Some r -> is_Some (tt_entries t !! r) ->
  remembers (record_claim r req resp t) req resp.
Proof.
  intros Hc [e He]. exists r, (entry_recent (make_record req resp) e). split; [|done].
  apply get_entry_Some. simpl. by rewrite lookup_alter_eq, He.
Qed.

Lemma ack_code_inj r : ack_result_u8 r = 0 -> r = AckSuccess.
Proof. by destruct r. Qed.

Lemma plan_by_state_no_replay a b e req check resp :
  claim_resolve (plan_by_state a b e req) check <> DReplay resp.
Proof.
  unfold claim_resolve, plan_by_state, validate_remote_first_claim.
  destruct (de_state e); repeat match goal with |- context [if ?c then _ else _] => destruct c end;
    destruct check; done.
Qed.

(** Every answered claim of a connection that is still registered is
    remembered, with the answer that was sent. *)
Lemma process_remembers now req t p t1 :
  is_Some (get_entry (cq_conn_id req) t) ->
  process_claim_req now req t = (Ok p, t1) -> is_Some (get_entry (cq_conn_id req) t1) ->
  exists resp, remembers t1 req resp /\ cp_response p = claim_response_cmd req resp.
Proof.
  intros [[r e] Hg] Hp Hg1. unfold process_claim_req in Hp. rewrite Hg in Hp.
  apply get_entry_Some in Hg as [Hc He].
  set (d := claim_resolve _ _) in Hp.
  assert (forall resp, d = DReplay resp -> de_recent e = Some (make_record req resp)) as Hrep.
  { intros resp. unfold d, claim_plan. destruct (de_recent e) as [k|].
    - destruct (rc_lease_seq k =? cq_lease_seq req); [|by intros ?%plan_by_state_no_replay].
      destruct (claim_record_matches req k) eqn:E; simpl; [|done]. intros [= <-].
      unfold claim_record_matches in E. bool_to_prop. destruct k; unfold make_record; simpl in *. congruence.
    - by intros ?%plan_by_state_no_replay. }
  assert (forall conflict, claim_accept now r req conflict t = (Ok p, t1) ->
    exists resp, remembers t1 req resp /\ cp_response p = claim_response_cmd req resp) as Hacc.
  { intros cf Ha. unfold claim_accept in Ha.
    destruct (reserve_accept_slot (cq_kind req) t) as [[u|reason] t2] eqn:Es.
    - destruct (bind_entry_to_lease _ _ _ _ _ _ _ t2) as [[l|err] t3] eqn:Eb; simplify_eq. simpl.
      exists RespAck. split; [|done]. destruct Hg1 as [[r1 e1] Hg1]. apply get_entry_Some in Hg1 as [Hc1 He1]. simpl in *.
      assert (tt_data_conns t3 !! cq_conn_id req = Some r) as Hc3.
      { destruct (bind_conns (cq_conn_id req) _ _ _ _ _ _ _ _ _ _ Eb) as [E|E]; [|congruence].
        rewrite E. unfold reserve_accept_slot, add_slot in Es. repeat case_match; simplify_eq; done. }
      assert (r1 = r) as -> by congruence. apply record_claim_remembers; [done|].
      rewrite lookup_alter_eq in He1. destruct (tt_entries t3 !! r); [eauto|done].
    - simplify_eq. simpl. exists (RespErr reason). split; [|done].
      assert (t2 = t) as -> by (unfold reserve_accept_slot in Es; repeat case_match; simplify_eq; done).
      apply record_claim_remembers; eauto. }
  destruct d as [resp| |reason| |ch] eqn:Ed; simpl in Hp.
  - simplify_eq. exists resp. split; [|done]. exists r, e. split; [by apply get_entry_Some|auto].
  - by apply (Hacc None).
  - simplify_eq. exists (RespErr reason). split; [|done]. apply record_claim_remembers; eauto.
  - simplify_eq. exists (RespErr AckConflictLost). split; [|done]. apply record_claim_remembers; eauto.
  - by apply (Hacc (Some ch)).
Qed.

Lemma remembers_replay now t req resp :
  remembers t req resp ->
  process_claim_req now req t = (Ok (mkProcessing (claim_response_cmd req resp) None None), t).
Proof.
  intros (r & e & Hg & Hr). unfold process_claim_req. rewrite Hg. unfold claim_plan. rewrite Hr. simpl.
  unfold claim_record_matches. simpl. rewrite !Z.eqb_refl, !bool_decide_true by done. done.
Qed.

Lemma remembers_refuse now t req resp req' :
  remembers t req resp -> cq_conn_id req' = cq_conn_id req -> cq_lease_seq req' = cq_lease_seq req ->
  cq_channel_id req' <> cq_channel_id req ->
  exists t', process_claim_req now req' t =
      (Ok (mkProcessing (claim_response_cmd req' (RespErr AckProtocolError)) None None), t') /\
    remembers t' req' (RespErr AckProtocolError) /\ tt_leases t' = tt_leases t.
Proof.
  intros (r & e & Hg & Hr) Hc Hs Hch. unfold process_claim_req. rewrite Hc, Hg. unfold claim_plan. rewrite Hr. simpl.
  rewrite Hs, Z.eqb_refl. unfold claim_record_matches. simpl.
  destruct (cq_channel_id req' =? cq_channel_id req) eqn:E; [bool_to_prop; congruence|]. simpl.
  eexists. split; [reflexivity|]. split; [|done]. apply get_entry_Some in Hg as [Hg He].
  apply record_claim_remembers; [by rewrite Hc|eauto].
Qed.

(** Once a claim of a registered connection was answered, repeating it
    gets the same answer, creates no second lease and changes nothing; any other
    claim of the same lease number is refused as a protocol error, also when the
    first one was rejected. *)
Theorem claim_answer_final now req t p t1 :
  is_Some (get_entry (cq_conn_id req) t) ->
  process_claim_req now req t = (Ok p, t1) -> is_Some (get_entry (cq_conn_id req) t1) ->
  (forall now', exists p', process_claim_req now' req t1 = (Ok p', t1) /\
     cp_response p' = cp_response p /\ cp_accepted p' = None) /\
  (forall now' req', cq_conn_id req' = cq_conn_id req -> cq_lease_seq req' = cq_lease_seq req ->
     cq_channel_id req' <> cq_channel_id req ->
     exists p' t', process_claim_req now' req' t1 = (Ok p', t') /\
       cp_response p' = claim_response_cmd req' (RespErr AckProtocolError) /\
       cp_accepted p' = None /\ tt_leases t' = tt_leases t1).
Proof.
  intros Hg Hp Hg1. destruct (process_remembers _ _ _ _ _ Hg Hp Hg1) as (resp & Hr & Hresp). split.
  - intros now'. eexists. split; [by apply remembers_replay|]. done.
  - intros now' req' Hc Hs Hch.
    destruct (remembers_refuse now' _ _ _ _ Hr Hc Hs Hch) as (t' & Hp' & _ & Hl). eauto 10.
Qed.

Definition demo_acceptor (listens : bool) : TcpTunnel :=
  let e := mkEntry 9 true true true 1 Idle false None None None in
  mkTunnel FormPassive (mkP2pId [2]) (mkP2pId [1]) 5 (from_secs 10)
    (mkListening (Some (fun _ => listens)) None true false) (activity_new 0) Connected false
    {[9 := 0%nat]} ∅ ∅ ∅ {[0%nat := e]} ∅ 1 0 16 0 16 [] [] [].

Lemma claim_answer_final_witness :
  exists p p' t1 t2,
    process_claim_req 3 (mkClaimReq 11 KindStream [1] 9 2 7) (demo_acceptor true) = (Ok p, t1) /\
    ca_result (cp_response p) = 0 /\
    process_claim_req 4 (mkClaimReq 12 KindStream [1] 9 2 8) t1 = (Ok p', t2) /\ ca_result (cp_response p') = 7.
Proof.
  destruct (process_claim_req 3 (mkClaimReq 11 KindStream [1] 9 2 7) (demo_acceptor true)) as [[p|err] t1] eqn:E.
  - destruct (claim_answer_final 3 (mkClaimReq 11 KindStream [1] 9 2 7) (demo_acceptor true) p t1) as [_ H].
    + eexists. reflexivity.
    + exact E.
    + vm_compute in E. injection E as <- <-. eexists. reflexivity.
    + destruct (H 4 (mkClaimReq 12 KindStream [1] 9 2 8)) as (p' & t' & Hp & Hr & _); [done..|].
      exists p, p', t1, t'. split_and!; auto; [|by rewrite Hr].
      vm_compute in E. injection E as <- <-. reflexivity.
  - exfalso. vm_compute in E. discriminate.
Defined.

(** The claimer goes back to an unclaimed connection after a refusal. *)
Lemma refused_claim_reclaims now r e c conn reason ch2 nonce2 kind2 purpose2 t :
  get_entry conn t = Some (r, e) -> de_conn_id e = conn -> de_state e = Claiming c ->
  cl_channel_id c ∈ tt_pending_claims t -> cl_lease_seq c = next_lease_seq (de_committed e) ->
  reason <> AckSuccess ->
  exists t1 t2,
    handle_claim_ack now (mkClaimAck (cl_channel_id c) conn (cl_lease_seq c) (ack_result_u8 reason)) t = (Ok tt, t1) /\
    claim_begin r kind2 purpose2 ch2 nonce2 t1 =
      (Ok (mkClaimReq ch2 kind2 purpose2 conn (cl_lease_seq c) nonce2), t2).
Proof.
  intros Hg Hconn Hs Hin Hseq Hne. unfold handle_claim_ack. simpl.
  rewrite ack_result_try_from_u8.
  rewrite bool_decide_true by done. simpl. rewrite Hg, Hs. rewrite !Z.eqb_refl. simpl.
  set (t1 := send_pending_claim_result _ _ _).
  assert (tt_entries t1 !! r = Some (entry_upd (unclaimed_state e) e)) as He1.
  { unfold t1, send_pending_claim_result. rewrite bool_decide_true by done. simpl. by rewrite lookup_insert_eq. }
  exists t1. unfold claim_begin. rewrite He1. simpl. rewrite Hconn. unfold unclaimed_state.
  destruct (de_first_claim_local e && (de_committed e =? 0)) eqn:E; simpl.
  - bool_to_prop. rewrite H, Hseq, H0. eexists. split; [by destruct reason|reflexivity].
  - eexists. rewrite Hseq. split; [by destruct reason|reflexivity].
Qed.

(** After a claim was rejected, for instance because nobody listens to
    its purpose, the claimer puts the connection back among the claimable ones
    and its next claim uses the same lease number; the peer refuses that claim as
    a protocol error whatever its purpose and whoever listens by then, because
    it still remembers the rejected claim of that lease number. *)
Theorem rejected_claim_blocks_retry now A B r e c conn p B1 reason ch2 nonce2 kind2 purpose2 :
  get_entry conn A = Some (r, e) -> de_conn_id e = conn -> de_state e = Claiming c ->
  cl_channel_id c ∈ tt_pending_claims A -> cl_lease_seq c = next_lease_seq (de_committed e) ->
  is_Some (get_entry conn B) -> process_claim_req now (claim_of conn c) B = (Ok p, B1) ->
  is_Some (get_entry conn B1) ->
  ca_result (cp_response p) = ack_result_u8 reason -> reason <> AckSuccess -> ch2 <> cl_channel_id c ->
  exists A1 A2 req2 p2 B2,
    handle_claim_ack now (cp_response p) A = (Ok tt, A1) /\
    claim_begin r kind2 purpose2 ch2 nonce2 A1 = (Ok req2, A2) /\
    process_claim_req now req2 B1 = (Ok p2, B2) /\
    ca_result (cp_response p2) = ack_result_u8 AckProtocolError.
Proof.
  intros Hg Hconn Hs Hin Hseq HgB Hp HgB1 Hres Hne Hch.
  destruct (process_remembers now (claim_of conn c) B p B1 HgB Hp HgB1) as (resp & Hr & Hresp).
  assert (cp_response p = mkClaimAck (cl_channel_id c) conn (cl_lease_seq c) (ack_result_u8 reason)) as Hack.
  { rewrite Hresp in Hres |- *. unfold claim_response_cmd in *. simpl in *. by rewrite Hres. }
  destruct (refused_claim_reclaims now r e c conn reason ch2 nonce2 kind2 purpose2 A) as (A1 & A2 & H1 & H2); auto.
  destruct (remembers_refuse now B1 _ resp (mkClaimReq ch2 kind2 purpose2 conn (cl_lease_seq c) nonce2) Hr)
    as (B2 & H3 & _ & _); auto.
  rewrite Hack. eexists A1, A2, _, _, B2. split_and!; eauto.
Qed.

Lemma rejected_claim_blocks_retry_witness :
  exists A1 A2 req2 p2 B2 B1 p,
    process_claim_req 3 (claim_of 9 (mkClaiming 2 11 7 KindStream [1])) (demo_acceptor false) = (Ok p, B1) /\
    ca_result (cp_response p) = 1 /\
    handle_claim_ack 3 (cp_response p) (demo_tunnel true 1 2 FormActive 11 7) = (Ok tt, A1) /\
    claim_begin 0 KindStream [2] 13 8 A1 = (Ok req2, A2) /\
    process_claim_req 3 req2 B1 = (Ok p2, B2) /\ ca_result (cp_response p2) = 7.
Proof.
  destruct (process_claim_req 3 (claim_of 9 (mkClaiming 2 11 7 KindStream [1])) (demo_acceptor false))
    as [[p|err] B1] eqn:E; [|exfalso; vm_compute in E; discriminate].
  destruct (rejected_claim_blocks_retry 3 (demo_tunnel true 1 2 FormActive 11 7) (demo_acceptor false) 0
    (mkEntry 9 true true true 1 (Claiming (mkClaiming 2 11 7 KindStream [1])) false None None None)
    (mkClaiming 2 11 7 KindStream [1]) 9 p B1 AckVportNotFound 13 8 KindStream [2])
    as (A1 & A2 & req2 & p2 & B2 & H1 & H2 & H3 & H4); try done.
  - vm_compute in E. injection E as <- <-. eexists. reflexivity.
  - vm_compute in E. injection E as <- <-. reflexivity.
  - exists A1, A2, req2, p2, B2, B1, p. split_and!; auto. vm_compute in E. injection E as <- <-. reflexivity.
Defined.

(** ** Local identifiers *)
Lemma land_low31 z : Z.land z (u32_max - TCP_LOCAL_ID_HIGH_BIT) = z mod 2 ^ 31.
Proof. change (u32_max - TCP_LOCAL_ID_HIGH_BIT) with (Z.ones 31). by rewrite Z.land_ones. Qed.

Lemma lor_high z : 0 <= z < 2 ^ 31 -> Z.lor TCP_LOCAL_ID_HIGH_BIT z = 2 ^ 31 + z.
Proof.
  intros Hz. assert (Z.testbit z 31 = false) as Hb.
  { rewrite <-(Z.mod_small z (2 ^ 31)) by lia. apply Z.mod_pow2_bits_high. lia. }
  assert (Z.land (2 ^ 31) z = 0) as Hland.
  { apply Z.bits_inj'. intros i Hi. rewrite Z.land_spec, Z.bits_0, Z.pow2_bits_eqb by lia.
    destruct (Z.eqb_spec 31 i) as [<-|]; [by rewrite Hb|done]. }
  unfold TCP_LOCAL_ID_HIGH_BIT. by rewrite <-Z.lxor_lor, Z.add_nocarry_lxor.
Qed.

Definition local_id_of (form : TunnelForm) (seq : Z) : Z :=
  match form with FormPassive => 2 ^ 31 + seq | _ => seq end.

Lemma local_id_try_eq form counter :
  local_id_try form counter =
  if counter mod 2 ^ 31 =? 0 then None else Some (local_id_of form (counter mod 2 ^ 31)).
Proof.
  unfold local_id_try. rewrite land_low31. case_match; [done|].
  destruct form; simpl; auto. rewrite lor_high; [done|]. apply Z.mod_pos_bound. lia.
Qed.

(** The ids allocated by [n] calls from a counter. *)
Fixpoint local_ids (n : nat) (form : TunnelForm) (counter : Z) : list Z :=
  match n with
  | O => []
  | S n => match next_local_id_value form counter with
           | Some (id, c') => id :: local_ids n form c'
           | None => []
           end
  end.

(** The allocation loop ends after at most two turns, from any counter. *)
Lemma next_local_id_total form counter :
  exists id c', next_local_id_value form counter = Some (id, c') /\
    exists seq, 0 < seq < 2 ^ 31 /\ id = local_id_of form seq.
Proof.
  unfold next_local_id_value. simpl. rewrite !local_id_try_eq.
  assert (forall z, 0 <= z mod 2 ^ 31 < 2 ^ 31) as Hb by (intros; apply Z.mod_pos_bound; lia).
  destruct (counter mod 2 ^ 31 =? 0) eqn:E; bool_to_prop.
  - assert (wrapping_add_u32 counter 1 mod 2 ^ 31 = 1) as Hone.
    { unfold wrapping_add_u32. change (u32_max + 1) with (2 ^ 31 * 2).
      rewrite Z.mod_mod_divide by (by exists 2). rewrite Z.add_mod, E by lia. done. }
    rewrite Hone. simpl. eexists _, _. split; [reflexivity|]. exists 1. split; [lia|done].
  - eexists _, _. split; [reflexivity|]. exists (counter mod 2 ^ 31). split; [|done]. specialize (Hb counter). lia.
Qed.

Lemma local_ids_seq n form c :
  0 < c -> c + Z.of_nat n <= 2 ^ 31 ->
  local_ids n form c = (fun i => local_id_of form (c + Z.of_nat i)) <$> seq 0 n.
Proof.
  revert c. induction n as [|n IH]; intros c Hc Hn; [done|]. simpl local_ids.
  unfold next_local_id_value. cbn [next_local_id_loop]. rewrite local_id_try_eq, Z.mod_small by lia.
  destruct (c =? 0) eqn:E; bool_to_prop; [lia|].
  assert (wrapping_add_u32 c 1 = c + 1) as -> by (unfold wrapping_add_u32, u32_max; apply Z.mod_small; lia).
  rewrite IH by lia. simpl. f_equal; [f_equal; lia|]. rewrite <-seq_shift, <-list_fmap_compose.
  apply list_fmap_ext. intros i x _. simpl. f_equal. lia.
Qed.

(** The two ends of a tunnel number connections, channels and requests
    independently and never collide: the first 2^31 - 1 ids of an end are
    pairwise distinct and non-zero, no id of the passive end equals an id of the
    active end, and each allocation returns after at most two turns of its
    loop. *)
Theorem local_ids_disjoint n m f g :
  Z.of_nat n < 2 ^ 31 -> Z.of_nat m < 2 ^ 31 -> f <> FormPassive -> g = FormPassive ->
  length (local_ids n f 1) = n /\ length (local_ids m g 1) = m /\
  NoDup (local_ids n f 1 ++ local_ids m g 1) /\ 0 ∉ local_ids n f 1 ++ local_ids m g 1.
Proof.
  intros Hn Hm Hf ->. rewrite !local_ids_seq by lia. rewrite !length_fmap, !length_seq.
  split_and!; [done|done|..].
  - assert (forall k h, NoDup ((fun i => local_id_of h (1 + Z.of_nat i)) <$> seq 0 k)) as Hd.
    { intros k h. apply NoDup_fmap_2_strong; [|apply NoDup_seq]. intros i j _ _ Hij.
      destruct h; simpl in Hij; lia. }
    apply NoDup_app. split_and!; auto. intros x (i & -> & Hi)%list_elem_of_fmap (j & Hj & _)%list_elem_of_fmap.
    apply elem_of_seq in Hi. destruct f; simpl in Hj; try done; lia.
  - rewrite elem_of_app, !list_elem_of_fmap. intros [(i & Hi & _)|(i & Hi & _)]; destruct f; simpl in Hi; lia.
Qed.

Lemma local_ids_disjoint_witness :
  NoDup (local_ids 3 FormActive 1 ++ local_ids 2 FormPassive 1) /\
  local_ids 3 FormActive 1 ++ local_ids 2 FormPassive 1 = [1; 2; 3; 2147483649; 2147483650].
Proof.
  destruct (local_ids_disjoint 3 2 FormActive FormPassive) as (_ & _ & H & _); [done..|].
  split; [exact H|reflexivity].
Defined.

(** ** Shutdown settles everything *)

(** A channel could still be claimed on the entry. *)
Definition claimable (e : DataConnEntry) : bool :=
  match de_state e with FirstClaimPending | Idle | Claiming _ => true | _ => false end.

(** With no claim waiting, retiring an entry answers nobody and keeps the
    tables empty. *)
Definition tt_identity (t : TcpTunnel) : TunnelForm * P2pId * P2pId * Z :=
  (tt_form t, tt_local_id t, tt_remote_id t, tt_candidate_id t).

Record quiet (t t' : TcpTunnel) : Prop := {
  q_identity : tt_identity t' = tt_identity t;
  q_answers : tt_claim_answers t' = tt_claim_answers t;
  q_claims : tt_pending_claims t' = tt_pending_claims t;
  q_opens : tt_pending_open t' = tt_pending_open t;
  q_open_answers : tt_open_answers t' = tt_open_answers t;
  q_drains : tt_pending_drains t = ∅ -> tt_pending_drains t' = ∅;
  q_flags : tt_closed t' = tt_closed t /\ tt_phase t' = tt_phase t /\ tt_activity t' = tt_activity t;
  q_entries : forall r e', tt_entries t' !! r = Some e' ->
    claimable e' = true -> tt_entries t !! r = Some e';
}.

Lemma quiet_refl t : quiet t t.
Proof. by split. Qed.
Lemma quiet_trans t1 t2 t3 : quiet t1 t2 -> quiet t2 t3 -> quiet t1 t3.
Proof.
  intros [] []. split; try congruence; [auto|by destruct_and!; split_and!; congruence|].
  intros r e H Hc. eauto.
Qed.

(** No claim is waiting any more. *)
Lemma send_pending_nobody ch res t : tt_pending_claims t = ∅ -> send_pending_claim_result ch res t = t.
Proof. intros H. unfold send_pending_claim_result. rewrite bool_decide_false; [done|]. rewrite H. set_solver. Qed.

Lemma insert_quiet t r e :
  claimable e = false -> quiet t (set_entries <[r := e]> t).
Proof.
  intros Hc. split; try done. intros r' e' H Hc'. simpl in H.
  destruct (decide (r = r')) as [<-|]; [rewrite lookup_insert_eq in H; congruence|by rewrite lookup_insert_ne in H].
Qed.

Lemma remove_quiet t r conn : quiet t (remove_entry_if_same r conn t).
Proof. unfold remove_entry_if_same. case_bool_decide; by split. Qed.
Lemma remove_entry_quiet t conn : quiet t (remove_entry conn t).
Proof. by split. Qed.
Lemma clear_conn_quiet t conn : quiet t (clear_pending_drains_for_conn conn t).
Proof. split; try done. simpl. intros ->. by rewrite map_filter_empty. Qed.
Lemma clear_drain_quiet t conn seq : quiet t (clear_pending_drain_for_entry conn seq t).
Proof. split; try done. simpl. intros ->. by rewrite delete_empty. Qed.
#[local] Hint Resolve quiet_refl insert_quiet remove_quiet remove_entry_quiet clear_conn_quiet clear_drain_quiet : core.

Lemma retire_plain_quiet r reason t : tt_pending_claims t = ∅ -> quiet t (retire_plain_entry r reason t).
Proof.
  intros Hc. unfold retire_plain_entry. destruct (tt_entries t !! r) as [e|]; [|auto].
  set (t2 := remove_entry_if_same _ _ _).
  assert (quiet t t2) as Hq.
  { eapply quiet_trans; [eapply quiet_trans; [|apply clear_conn_quiet]|apply remove_quiet]. by apply insert_quiet. }
  destruct (de_state e); auto. rewrite send_pending_nobody; [done|]. by rewrite (q_claims _ _ Hq).
Qed.

Lemma retire_lease_quiet l reason t :
  tt_pending_claims t = ∅ -> quiet t (run_lease l (retire_lease_arc reason) t).
Proof.
  intros Hc. unfold run_lease, retire_lease_arc. destruct (tt_leases t !! l) as [x|]; [|auto].
  destruct (lx_retired x); simpl; [by split|]. unfold entry_of. simpl. rewrite lookup_insert_eq. simpl.
  destruct (tt_entries t !! _) as [e|]; simpl; [|by split].
  set (t1 := set_leases _ t). assert (quiet t t1) as H1 by by split.
  match goal with |- quiet t (send_pending_claim_result _ _ ?u) => assert (quiet t u) as Hq end.
  { do 3 (eapply quiet_trans; [|first [apply remove_entry_quiet|apply clear_drain_quiet|apply insert_quiet; done]]). done. }
  rewrite send_pending_nobody; [done|]. by rewrite (q_claims _ _ Hq).
Qed.

Lemma close_entry_quiet reason t r : tt_pending_claims t = ∅ -> quiet t (close_entry reason t r).
Proof.
  intros Hc. unfold close_entry. destruct (tt_entries t !! r) as [e|] eqn:He; [|auto].
  assert (forall l, (de_state e = Bound l \/ de_state e = Draining l) ->
    quiet t (set_leases (alter upd_no_reuse l) (set_entries <[r:=entry_no_reuse e]> t))) as Hl.
  { intros l Hs. eapply quiet_trans; [apply (insert_quiet t r (entry_no_reuse e))|by split].
    unfold claimable. simpl. by destruct Hs as [-> | ->]. }
  destruct (de_state e) eqn:Hs; try (apply insert_quiet; unfold claimable; simpl; by rewrite ?Hs).
  all: case_match; [|by auto]; case_match; [|by auto]; eapply quiet_trans; [by auto|apply retire_lease_quiet; done].
Qed.

(** The entry that was closed is not claimable any more. *)
Lemma close_entry_done reason t r e' :
  tt_pending_claims t = ∅ -> tt_entries (close_entry reason t r) !! r = Some e' -> claimable e' = false.
Proof.
  intros Hc He'. destruct (claimable e') eqn:E; [|done]. exfalso.
  pose proof (q_entries _ _ (close_entry_quiet reason t r Hc) _ _ He' E) as He.
  unfold close_entry in He'. rewrite He in He'. unfold claimable in E.
  destruct (de_state e') eqn:Hs; try done; simpl in He'; rewrite lookup_insert_eq in He';
    injection He' as He'; apply (f_equal de_state) in He'; simpl in He'; congruence.
Qed.

Lemma close_entries reason rs t :
  tt_pending_claims t = ∅ ->
  quiet t (foldl (close_entry reason) t rs) /\
  (forall r e', r ∈ rs -> tt_entries (foldl (close_entry reason) t rs) !! r = Some e' -> claimable e' = false).
Proof.
  revert t. induction rs as [|r rs IH]; intros t Hc; simpl; [split; [auto|set_solver]|].
  pose proof (close_entry_quiet reason t r Hc) as Hq.
  destruct (IH (close_entry reason t r)) as [Hq2 Hd]; [by rewrite (q_claims _ _ Hq)|].
  split; [by eapply quiet_trans|]. intros r' e' Hin He'.
  destruct (decide (r' ∈ rs)); [eauto|]. assert (r' = r) as -> by set_solver.
  destruct (claimable e') eqn:E; [|done]. pose proof (q_entries _ _ Hq2 _ _ He' E) as He.
  by rewrite (close_entry_done _ _ _ _ Hc He) in E.
Qed.

(** The requests for a connection are answered in turn. *)
Definition open_failures (reason : P2pErrorCode.t) (qs : list (Z * PendingOpenRequest)) : list (Z * P2pResult nat) :=
  omap (fun q => if pr_sender (snd q) then Some (fst q, Err reason) else None) qs.

(** [quiet] up to the answers to connection requests. *)
Lemma close_opens reason qs t :
  tt_pending_claims t = ∅ ->
  let t' := foldl (close_open_request reason) t qs in
  tt_open_answers t' = tt_open_answers t ++ open_failures reason qs /\
  tt_claim_answers t' = tt_claim_answers t /\ tt_pending_claims t' = ∅ /\
  tt_pending_open t' = tt_pending_open t /\ (tt_pending_drains t = ∅ -> tt_pending_drains t' = ∅) /\
  tt_closed t' = tt_closed t /\ tt_phase t' = tt_phase t /\ tt_activity t' = tt_activity t.
Proof.
  revert t. induction qs as [|[rid p] qs IH]; intros t Hc; simpl; [by rewrite app_nil_r|].
  set (t1 := close_open_request reason t (rid, p)).
  assert (tt_open_answers t1 = tt_open_answers t ++ open_failures reason [(rid, p)] /\
    tt_claim_answers t1 = tt_claim_answers t /\ tt_pending_claims t1 = tt_pending_claims t /\
    tt_pending_open t1 = tt_pending_open t /\ (tt_pending_drains t = ∅ -> tt_pending_drains t1 = ∅) /\
    tt_closed t1 = tt_closed t /\ tt_phase t1 = tt_phase t /\ tt_activity t1 = tt_activity t)
    as (Ha & Hb & Hcl & Hd & He & Hf & Hg & Hh).
  { unfold t1, close_open_request, retire_staged. simpl.
    assert (quiet t (match pr_staged p with Some r => retire_plain_entry r reason t | None => t end)) as [].
    { destruct (pr_staged p); [by apply retire_plain_quiet|auto]. }
    destruct_and!. destruct (pr_sender p); simpl; split_and!; rewrite ?app_nil_r; auto; congruence. }
  destruct (IH t1) as (IH1 & IH2 & IH3 & IH4 & IH5 & IH6 & IH7 & IH8); [congruence|].
  split_and!; try congruence; [|auto].
  rewrite IH1, Ha, <-app_assoc. f_equal. unfold open_failures. simpl. by destruct (pr_sender p).
Qed.

Lemma claim_answers_fold reason chs t :
  foldl (fun t ch => upd_out (tt_tasks t) (tt_claim_answers t ++ [(ch, Err reason)]) (tt_open_answers t) t) t chs
  = upd_out (tt_tasks t) (tt_claim_answers t ++ ((fun ch => (ch, Err reason)) <$> chs)) (tt_open_answers t) t.
Proof.
  revert t. induction chs as [|ch chs IH]; intros t; simpl; [rewrite app_nil_r; by destruct t|].
  rewrite IH. unfold upd_out. simpl. by rewrite <-app_assoc.
Qed.

Lemma retire_retired a : lifecycle a = ActRetired -> retire a = a.
Proof. intros H. destruct a. simpl in H. unfold retire. by subst. Qed.

(** Closing a tunnel settles everything that waits on it: every pending
    claim and every pending connection request that still has an owner is
    answered exactly once with the closing reason, the tables of claims,
    requests and drains are empty, no registered connection can be claimed any
    more, no work is admitted; and closing again does nothing. *)
Theorem close_local_settles phase reason t t' :
  close_local phase reason t = (true, t') ->
  tt_closed t' = true /\ tt_phase t' = phase /\ lifecycle (tt_activity t') = ActRetired /\
  tt_pending_claims t' = ∅ /\ tt_pending_open t' = ∅ /\ tt_pending_drains t' = ∅ /\
  tt_claim_answers t' = tt_claim_answers t ++ ((fun ch => (ch, Err reason)) <$> elements (tt_pending_claims t)) /\
  tt_open_answers t' = tt_open_answers t ++ open_failures reason (map_to_list (tt_pending_open t)) /\
  (forall conn r e, tt_data_conns t !! conn = Some r -> tt_entries t' !! r = Some e -> claimable e = false) /\
  (forall phase2 reason2, close_local phase2 reason2 t' = (false, t')).
Proof.
  unfold close_local. destruct (tt_closed t) eqn:Hcl; [done|]. intros [= <-].
  match goal with |- context [foldl (close_open_request reason) ?u _] => set (t1 := u) end.
  destruct (close_opens reason (map_to_list (tt_pending_open t)) t1) as (Ha & Hb & Hc & Hd & He & Hf & Hg & Hh); [done|].
  set (t2 := foldl _ t1 _) in *. rewrite claim_answers_fold. set (t3 := upd_out _ _ _ t2).
  destruct (close_entries reason (snd <$> map_to_list (tt_data_conns t)) t3) as [[] Hdone]; [done|].
  set (t4 := foldl _ t3 _) in *. destruct q_flags0 as (Q1 & Q2 & Q3).
  assert (tt_closed t4 = true) as Hclosed by (rewrite Q1; exact Hf).
  assert (tt_activity t4 = retire (tt_activity t)) as Hact by (rewrite Q3; exact Hh).
  assert (lifecycle (tt_activity t4) = ActRetired) as Hlife by by rewrite Hact.
  assert (tt_pending_drains t4 = ∅) as Hdr by (apply q_drains0; simpl; auto).
  split_and!; auto.
  - rewrite Q2. exact Hg.
  - rewrite q_claims0. simpl. done.
  - rewrite q_opens0. simpl. by rewrite Hd.
  - rewrite q_answers0. simpl. by rewrite Hb.
  - rewrite q_open_answers0. simpl. by rewrite Ha.
  - intros conn r e Hr. apply Hdone, list_elem_of_fmap. exists (conn, r).
    split; [done|by apply elem_of_map_to_list].
  - intros p2 r2. rewrite Hclosed, retire_retired by done. by destruct t4.
Qed.

Lemma close_local_settles_witness :
  let t := demo_tunnel true 1 2 FormActive 11 7 in
  exists t', close_local Closed P2pErrorCode.Interrupted t = (true, t') /\
    tt_claim_answers t' = [(11, Err P2pErrorCode.Interrupted)] /\
    forall e, tt_entries t' !! 0%nat = Some e -> claimable e = false.
Proof.
  intros t. destruct (close_local Closed P2pErrorCode.Interrupted t) as [b t'] eqn:E.
  assert (b = true) as -> by (vm_compute in E; congruence). exists t'. split; [done|].
  destruct (close_local_settles _ _ _ _ E) as (_ & _ & _ & _ & _ & _ & Ha & _ & Hd & _). split.
  - rewrite Ha. vm_compute. reflexivity.
  - intros e. by apply (Hd 9).
Defined.

(** ** The decision on a claim may be stale when it is carried out

    [process_claim_req] decides under the entry's lock, releases it, waits for
    the accept check (up to 300 ms when no listener is installed yet) and then
    acts on the decision.  A channel opened locally in between claims the same
    idle connection: the peer loses the arbitration and serves the local channel
    while this end goes on to serve the peer's. *)
Definition idle_end (me peer : Z) (form : TunnelForm) : TcpTunnel :=
  let e := mkEntry 9 true true true 1 Idle false None None None in
  mkTunnel form (mkP2pId [me]) (mkP2pId [peer]) 5 (from_secs 10)
    (mkListening (Some (fun _ => true)) None true false) (activity_new 0) Connected false
    {[9 := 0%nat]} ∅ ∅ ∅ {[0%nat := e]} ∅ 1 0 16 0 16 [] [] [].

Definition stale_race : option (Z * Z) * option (Z * Z) :=
  let A := idle_end 1 2 FormActive in
  let B := idle_end 2 1 FormPassive in
  match claim_begin 0 KindStream [1] 12 8 B with
  | (Ok reqB, B1) =>
      match get_entry 9 A with
      | Some (r, e) =>
          (* A decides on B's claim and waits *)
          let plan := claim_plan (tt_local_id A) (tt_remote_id A) e reqB in
          (* meanwhile a channel of A claims the connection *)
          match claim_begin 0 KindStream [1] 11 9 A with
          | (Ok reqA, A1) =>
              (* the wait ends: A carries out its decision *)
              match claim_commit 1 r reqB (claim_resolve plan (check_accept_target false KindStream [1] A1)) A1 with
              | (Ok _, A2) =>
                  match handle_claim_req 2 reqA B1 with
                  | (Ok ackA, B2) => (serving 9 (snd (handle_claim_ack 3 ackA A2)), serving 9 B2)
                  | _ => (None, None)
                  end
              | _ => (None, None)
              end
          | _ => (None, None)
          end
      | None => (None, None)
      end
  | _ => (None, None)
  end.

(** The two ends of connection 9 serve different channels in the same lease. *)
Lemma stale_claim_decision : stale_race = (Some (12, 2), Some (11, 2)).
Proof. vm_compute. reflexivity. Qed.
