(* ===== verification/TunnelManager.v ===== *)
(** * The tunnel manager's registry (tunnel/tunnel_manager.rs)

    The manager keeps, per remote peer, the tunnels it may hand out and, where
    only relayed tunnels are left, the schedule of attempts to replace them by a
    direct one.  Tunnels are shared objects behind the trait [Tunnel]; here the
    trait is the class [TunnelOps] over an object type, an [Arc] is the object's
    address in [tm_heap] and [Arc::ptr_eq] is equality of addresses.  The task
    that runs the schedule sleeps until the next attempt or until
    [proxy_upgrade_notify] is signalled.  What an operation does outside the
    manager (waiters it answers, subscribers it tells, tasks it aborts) is
    appended to [tm_log].  [None] stands for the panic when the counter of
    generations is exhausted. *)

From stdpp Require Import functions.
From S2P Require Import Prelude.
From S2P Require Import Errors.
From S2P Require Import Ids.
From S2P Require Import Endpoint.
From S2P Require Import TunnelActivity.

(** ** The trait of tunnels *)

Class TunnelOps (T : Type) := {
  tn_tunnel_id : T -> Z;
  tn_candidate_id : T -> Z;
  tn_form : T -> TunnelForm;
  tn_is_reverse : T -> bool;
  tn_remote_id : T -> P2pId;
  tn_state : T -> TunnelState;
  tn_is_closed : T -> bool;
  tn_business_at : T -> option Z;
  tn_try_retire : Z -> Duration -> T -> bool * T;
  tn_close : T -> P2pResult unit * T }.

(** What does not change during the life of a tunnel. *)
Definition tn_identity {T} `{TunnelOps T} (t : T) : Z * Z * TunnelForm * bool * P2pId :=
  (tn_tunnel_id t, tn_candidate_id t, tn_form t, tn_is_reverse t, tn_remote_id t).

(** Whether a channel is open or being opened on the tunnel; not a method of the
    trait but what [try_retire_idle] has to respect. *)
Class TunnelWork (T : Type) := tn_busy : T -> bool.

Class TunnelLaws (T : Type) `{TunnelOps T, TunnelWork T} : Prop := {
  retire_busy : forall now d t, tn_busy t = true -> tn_try_retire now d t = (false, t);
  retire_identity : forall now d t, tn_identity (snd (tn_try_retire now d t)) = tn_identity t;
  close_identity : forall t, tn_identity (snd (tn_close t)) = tn_identity t;
  close_closes : forall t, tn_is_closed (snd (tn_close t)) = true }.

Definition is_tunnel_available {T} `{TunnelOps T} (t : T) : bool :=
  negb (tn_is_closed t) && bool_decide (tn_state t = StConnected).

(** ** Data *)

Definition PROXY_UPGRADE_INITIAL_INTERVAL : Duration := from_secs 300.
Definition PROXY_UPGRADE_MAX_INTERVAL : Duration := from_secs (2 * 60 * 60).
Definition PROXY_UPGRADE_SHORT_INTERVALS : list Duration :=
  [from_secs 15; from_secs 30; from_secs 60; from_secs 120].
Definition DIRECT_CACHE_MAX_FAILURES : Z := 2.

Record TunnelEntry := mkTunnelEntry { te_tunnel : nat; te_updated_at : Z; te_published : bool }.

Record EndpointScore := mkScore { last_success_at : Z; fail_count : Z }.
Definition EndpointScoreKey : Type := Protocol * SocketAddr.
Definition score_key (ep : Endpoint) : EndpointScoreKey := (protocol ep, addr ep).

(** [(P2pId, TunnelId, bool)]. *)
Definition IncomingWaitKey : Type := P2pId * Z * bool.
Record IncomingWaiterEntry := mkIncomingWaiter { iw_token : nat; iw_waiter : nat }.

Record ProxyUpgradeState := mkUpgrade {
  pu_generation : Z;
  pu_next_attempt_at : Z;
  pu_retry_interval : Duration;
  pu_short_retry_index : nat;
  pu_in_progress : bool }.

Record RendezvousAttemptOwner := mkOwner {
  ro_seq : Z;
  ro_initiator_local : bool;
  ro_cancel : nat;
  ro_task : option nat;
  ro_expected_reverse : option bool;
  ro_tunnel_id : Z;
  ro_yielded : nat;
  ro_completions : list nat;
  ro_token : nat }.

Record ManagerState := mkManagerState {
  ms_scores : list (EndpointScoreKey * EndpointScore);
  ms_waiters : gmap IncomingWaitKey IncomingWaiterEntry;
  ms_upgrades : gmap P2pId ProxyUpgradeState;
  ms_next_generation : Z;
  ms_attempts : gmap P2pId RendezvousAttemptOwner }.

Definition set_scores (x : list (EndpointScoreKey * EndpointScore)) (s : ManagerState) : ManagerState :=
  mkManagerState x (ms_waiters s) (ms_upgrades s) (ms_next_generation s) (ms_attempts s).
Definition set_waiters (x : gmap IncomingWaitKey IncomingWaiterEntry) (s : ManagerState) : ManagerState :=
  mkManagerState (ms_scores s) x (ms_upgrades s) (ms_next_generation s) (ms_attempts s).
Definition set_upgrades (x : gmap P2pId ProxyUpgradeState) (s : ManagerState) : ManagerState :=
  mkManagerState (ms_scores s) (ms_waiters s) x (ms_next_generation s) (ms_attempts s).
Definition set_generation (x : Z) (s : ManagerState) : ManagerState :=
  mkManagerState (ms_scores s) (ms_waiters s) (ms_upgrades s) x (ms_attempts s).
Definition set_attempts (x : gmap P2pId RendezvousAttemptOwner) (s : ManagerState) : ManagerState :=
  mkManagerState (ms_scores s) (ms_waiters s) (ms_upgrades s) (ms_next_generation s) x.

(** What the manager does to others. *)
Inductive Event :=
| Completed (waiter : nat) (r : P2pResult nat)
| Notified (waiter : nat) (r : P2pResult nat)
| Cancelled (cancel : nat)
| Yielded (flag : nat)
| TaskStarted (task : nat)
| TaskAborted (task : nat)
| Told (tunnel : nat).

(** ** The schedule of proxy upgrades *)

Definition upgrade_new (generation now : Z) : ProxyUpgradeState :=
  let retry_interval := from_secs 15 in
  mkUpgrade generation (now + retry_interval) retry_interval 0 false.

(** [Duration::saturating_mul]. *)
Definition DURATION_MAX : Duration := (u64_max + 1) * 1000000000 - 1.
Definition duration_saturating_mul (d : Duration) (n : Z) : Duration := Z.min (d * n) DURATION_MAX.

Definition advance_proxy_upgrade_retry (initial_interval : Duration) (u : ProxyUpgradeState) : ProxyUpgradeState :=
  let i := pu_short_retry_index u in
  let n := length PROXY_UPGRADE_SHORT_INTERVALS in
  if (S i <? n)%nat then
    mkUpgrade (pu_generation u) (pu_next_attempt_at u) (nth (S i) PROXY_UPGRADE_SHORT_INTERVALS 0) (S i)
      (pu_in_progress u)
  else if (S i =? n)%nat then
    mkUpgrade (pu_generation u) (pu_next_attempt_at u) initial_interval (S i) (pu_in_progress u)
  else
    mkUpgrade (pu_generation u) (pu_next_attempt_at u)
      (Z.min (duration_saturating_mul (pu_retry_interval u) 2) PROXY_UPGRADE_MAX_INTERVAL) i
      (pu_in_progress u).

Definition allocate_proxy_upgrade_generation (s : ManagerState) : option (Z * ManagerState) :=
  let g := ms_next_generation s + 1 in
  if g <=? u64_max then Some (g, set_generation g s) else None.

Definition insert_proxy_upgrade (remote : P2pId) (now : Z) (s : ManagerState) : option ManagerState :=
  '(g, s) ← allocate_proxy_upgrade_generation s;
  Some (set_upgrades (<[remote := upgrade_new g now]> (ms_upgrades s)) s).

(** [proxy_upgrade_states.remove(remote_id).is_some()]. *)
Definition remove_upgrade (remote : P2pId) (s : ManagerState) : bool * ManagerState :=
  (bool_decide (is_Some (ms_upgrades s !! remote)), set_upgrades (delete remote (ms_upgrades s)) s).

(** [on_proxy_upgrade_failed_generation], up to the signal to the task. *)
Definition upgrade_failed_generation (initial_interval : Duration) (now : Z) (remote : P2pId)
    (generation : Z) (s : ManagerState) : option Duration * ManagerState :=
  match ms_upgrades s !! remote with
  | None => (None, s)
  | Some u =>
      if negb (pu_generation u =? generation) then (None, s)
      else
        let u := advance_proxy_upgrade_retry initial_interval u in
        let u := mkUpgrade (pu_generation u) (now + pu_retry_interval u) (pu_retry_interval u)
                   (pu_short_retry_index u) false in
        (Some (pu_retry_interval u), set_upgrades (<[remote := u]> (ms_upgrades s)) s)
  end.

Definition upgrade_due (now : Z) (u : ProxyUpgradeState) : bool :=
  negb (pu_in_progress u) && (pu_next_attempt_at u <=? now).
Definition upgrade_start (u : ProxyUpgradeState) : ProxyUpgradeState :=
  mkUpgrade (pu_generation u) (pu_next_attempt_at u) (pu_retry_interval u) (pu_short_retry_index u) true.

Definition due_upgrades (now : Z) (s : ManagerState) : list (P2pId * Z) :=
  (fun x => (fst x, pu_generation (snd x))) <$>
    filter (fun x => upgrade_due now (snd x)) (map_to_list (ms_upgrades s)).

(** The attempts to start, in the map's order. *)
Definition collect_due_proxy_upgrades (now : Z) (s : ManagerState) : list (P2pId * Z) * ManagerState :=
  (due_upgrades now s,
   set_upgrades ((fun u => if upgrade_due now u then upgrade_start u else u) <$> ms_upgrades s) s).

(** [None]: nothing to wait for but a signal. *)
Definition next_proxy_upgrade_wait (now : Z) (s : ManagerState) : option Duration :=
  foldr (fun x m =>
           let d := Z.max (pu_next_attempt_at (snd x) - now) 0 in
           Some (match m with Some m => Z.min d m | None => d end))
        None (filter (fun x => negb (pu_in_progress (snd x))) (map_to_list (ms_upgrades s))).

(** ** The registry *)

Section manager.
Context {T : Type} `{!TunnelOps T}.

Record TunnelManager := mkManager {
  tm_local_id : P2pId;
  tm_initial_interval : Duration;
  tm_tunnels : gmap P2pId (list TunnelEntry);
  tm_state : ManagerState;
  tm_heap : nat -> T;
  tm_signal : bool;
  tm_log : list Event }.

Definition set_tunnels (x : gmap P2pId (list TunnelEntry)) (m : TunnelManager) : TunnelManager :=
  mkManager (tm_local_id m) (tm_initial_interval m) x (tm_state m) (tm_heap m) (tm_signal m) (tm_log m).
Definition set_mstate (x : ManagerState) (m : TunnelManager) : TunnelManager :=
  mkManager (tm_local_id m) (tm_initial_interval m) (tm_tunnels m) x (tm_heap m) (tm_signal m) (tm_log m).
Definition set_heap (x : nat -> T) (m : TunnelManager) : TunnelManager :=
  mkManager (tm_local_id m) (tm_initial_interval m) (tm_tunnels m) (tm_state m) x (tm_signal m) (tm_log m).
Definition emit (e : Event) (m : TunnelManager) : TunnelManager :=
  mkManager (tm_local_id m) (tm_initial_interval m) (tm_tunnels m) (tm_state m) (tm_heap m) (tm_signal m)
    (tm_log m ++ [e]).
(** [proxy_upgrade_notify.notify_one()], where the operation asks for it; a
    [tokio::sync::Notify] stores one permit. *)
Definition notify_if (b : bool) (m : TunnelManager) : TunnelManager :=
  mkManager (tm_local_id m) (tm_initial_interval m) (tm_tunnels m) (tm_state m) (tm_heap m)
    (b || tm_signal m) (tm_log m).

Definition manager_new (local_id : P2pId) (initial : Duration) (heap : nat -> T) : TunnelManager :=
  mkManager local_id initial ∅ (mkManagerState [] ∅ ∅ 0 ∅) heap false [].

(** [tunnel.close()] on a shared tunnel. *)
Definition close_tunnel (r : nat) (m : TunnelManager) : P2pResult unit * TunnelManager :=
  let '(res, t) := tn_close (tm_heap m r) in (res, set_heap (<[r := t]> (tm_heap m)) m).
Definition close_all_tunnels (rs : list nat) (m : TunnelManager) : TunnelManager :=
  foldl (fun m r => snd (close_tunnel r m)) m rs.

Definition entry_available (h : nat -> T) (e : TunnelEntry) : bool := is_tunnel_available (h (te_tunnel e)).
Definition entry_proxy (h : nat -> T) (e : TunnelEntry) : bool :=
  bool_decide (tn_form (h (te_tunnel e)) = FormProxy).
Definition retain_available (h : nat -> T) (es : list TunnelEntry) : list TunnelEntry :=
  filter (entry_available h) es.

(** The loop of [reconcile_proxy_upgrade_state]: whether there is an available
    tunnel, whether one is not relayed (then the loop stops), whether all seen
    are published. *)
Fixpoint reconcile_scan (h : nat -> T) (es : list TunnelEntry) (has_available published_only : bool)
  : bool * bool * bool :=
  match es with
  | [] => (has_available, false, published_only)
  | e :: k => if negb (entry_proxy h e) then (true, true, published_only)
              else reconcile_scan h k true (published_only && te_published e)
  end.

Definition reconcile_proxy_upgrade_state (now : Z) (remote : P2pId) (h : nat -> T)
    (entries : option (list TunnelEntry)) (s : ManagerState) : option (bool * ManagerState) :=
  match entries with
  | None => Some (remove_upgrade remote s)
  | Some es =>
      let '(has_available, has_available_non_proxy, published_proxy_only) :=
        reconcile_scan h (retain_available h es) false true in
      if negb has_available || has_available_non_proxy then Some (remove_upgrade remote s)
      else if published_proxy_only && bool_decide (ms_upgrades s !! remote = None) then
        s ← insert_proxy_upgrade remote now s; Some (true, s)
      else Some (false, s)
  end.

(** Reconcile one peer with the table and signal the task. *)
Definition reconcile (now : Z) (remote : P2pId) (m : TunnelManager) : option TunnelManager :=
  '(b, s) ← reconcile_proxy_upgrade_state now remote (tm_heap m) (tm_tunnels m !! remote) (tm_state m);
  Some (notify_if b (set_mstate s m)).

(** [entries.retain(available)] and dropping an empty list. *)
Definition prune (remote : P2pId) (m : TunnelManager) : TunnelManager :=
  match tm_tunnels m !! remote with
  | None => m
  | Some es =>
      let es := retain_available (tm_heap m) es in
      set_tunnels (match es with [] => delete remote | _ => <[remote := es]> end (tm_tunnels m)) m
  end.

Definition entries_of (remote : P2pId) (m : TunnelManager) : list TunnelEntry :=
  default [] (tm_tunnels m !! remote).

Definition has_available_tunnel_id (now : Z) (remote : P2pId) (tunnel_id : Z) (m : TunnelManager)
  : option (bool * TunnelManager) :=
  let m1 := prune remote m in
  let exists_ := existsb (fun e => tn_tunnel_id (tm_heap m (te_tunnel e)) =? tunnel_id) (entries_of remote m1) in
  m2 ← reconcile now remote m1; Some (exists_, m2).

Definition preferred_tunnel_entry (h : nat -> T) (candidate current : TunnelEntry) : bool :=
  match tn_business_at (h (te_tunnel candidate)), tn_business_at (h (te_tunnel current)) with
  | Some a, Some b => b <? a
  | Some _, None => true
  | None, Some _ => false
  | None, None => te_updated_at current <? te_updated_at candidate
  end.

(** One slot of [select_preferred_tunnel_entry]. *)
Definition slot_take (h : nat -> T) (e : TunnelEntry) (slot : option TunnelEntry) : option TunnelEntry :=
  match slot with
  | Some latest => if preferred_tunnel_entry h e latest then Some e else slot
  | None => Some e
  end.

Definition select_step (h : nat -> T) (slots : option TunnelEntry * option TunnelEntry) (e : TunnelEntry)
  : option TunnelEntry * option TunnelEntry :=
  if entry_proxy h e then (fst slots, slot_take h e (snd slots)) else (slot_take h e (fst slots), snd slots).

Definition select_preferred_tunnel_entry (h : nat -> T) (es : list TunnelEntry) : option TunnelEntry :=
  let '(latest_non_proxy, latest_proxy) := foldl (select_step h) (None, None) es in
  match latest_non_proxy with Some e => Some e | None => latest_proxy end.

Definition get_tunnel_with_filter (now : Z) (remote : P2pId) (keep : TunnelEntry -> bool)
    (allow_hidden_fallback : bool) (m : TunnelManager) : option (option nat * TunnelManager) :=
  let m1 := prune remote m in
  let h := tm_heap m in
  let es := filter keep (entries_of remote m1) in
  let selected := match select_preferred_tunnel_entry h (filter te_published es) with
                  | Some e => Some e
                  | None => if negb allow_hidden_fallback then None else select_preferred_tunnel_entry h es
                  end in
  m2 ← reconcile now remote m1; Some (te_tunnel <$> selected, m2).

Definition get_tunnel (now : Z) (remote : P2pId) (m : TunnelManager) :=
  get_tunnel_with_filter now remote (fun _ => true) true m.
Definition get_non_proxy_tunnel (now : Z) (remote : P2pId) (m : TunnelManager) :=
  get_tunnel_with_filter now remote (fun e => negb (entry_proxy (tm_heap m) e)) false m.

(** [tunnel_id() == .. && candidate_id() == ..]. *)
Definition same_candidate (t : T) (h : nat -> T) (e : TunnelEntry) : bool :=
  (tn_tunnel_id (h (te_tunnel e)) =? tn_tunnel_id t) && (tn_candidate_id (h (te_tunnel e)) =? tn_candidate_id t).

Definition has_live_direct (h : nat -> T) (es : list TunnelEntry) : bool :=
  existsb (fun e => negb (entry_proxy h e) && entry_available h e) es.

Definition register_tunnel (now : Z) (r : nat) (m : TunnelManager) : option (P2pResult unit * TunnelManager) :=
  let h := tm_heap m in
  let t := h r in
  let remote := tn_remote_id t in
  if P2pId_is_default remote then Some (Ok tt, m)
  else
    let es := retain_available h (entries_of remote m) in
    match List.find (same_candidate t h) es with
    | Some e =>
        m1 ← reconcile now remote (set_tunnels (<[remote := es]> (tm_tunnels m)) m);
        let m2 := if (te_tunnel e =? r)%nat then m1 else snd (close_tunnel r m1) in
        Some (Err P2pErrorCode.AlreadyExists, m2)
    | None =>
        let es := es ++ [mkTunnelEntry r now false] in
        let m1 := set_tunnels (<[remote := es]> (tm_tunnels m)) m in
        m2 ← (if has_live_direct h es then
                let '(b, s) := remove_upgrade remote (tm_state m1) in Some (notify_if b (set_mstate s m1))
              else if bool_decide (tn_form t = FormProxy) && is_tunnel_available t then
                s ← insert_proxy_upgrade remote now (tm_state m1); Some (notify_if true (set_mstate s m1))
              else reconcile now remote m1);
        Some (Ok tt, m2)
    end.

Fixpoint publish_entry (t : T) (h : nat -> T) (now : Z) (es : list TunnelEntry)
  : option (bool * list TunnelEntry) :=
  match es with
  | [] => None
  | e :: k =>
      if same_candidate t h e then
        if te_published e then Some (false, es)
        else Some (true, mkTunnelEntry (te_tunnel e) now true :: k)
      else '(b, k) ← publish_entry t h now k; Some (b, e :: k)
  end.

(** [publish_registered_tunnel]; subscribers are told about a new publication. *)
Definition publish_registered_tunnel (now : Z) (r : nat) (m : TunnelManager) : P2pResult unit * TunnelManager :=
  let t := tm_heap m r in
  match publish_entry t (tm_heap m) now (entries_of (tn_remote_id t) m) with
  | None => (Err P2pErrorCode.NotFound, m)
  | Some (false, _) => (Ok tt, m)
  | Some (true, es) => (Ok tt, emit (Told r) (set_tunnels (<[tn_remote_id t := es]> (tm_tunnels m)) m))
  end.

Definition register_tunnel_and_publish (now : Z) (r : nat) (m : TunnelManager)
  : option (P2pResult unit * TunnelManager) :=
  '(res, m1) ← register_tunnel now r m;
  Some (match res with Ok _ => publish_registered_tunnel now r m1 | Err e => (Err e, m1) end).

Definition is_registered_tunnel_published (r : nat) (m : TunnelManager) : bool :=
  let t := tm_heap m r in
  match List.find (same_candidate t (tm_heap m)) (entries_of (tn_remote_id t) m) with
  | Some e => te_published e | None => false end.

(** Replacing relayed tunnels by the direct one an upgrade has opened. *)
Definition finalize_proxy_upgrade_success (now : Z) (remote : P2pId) (r : nat) (m : TunnelManager)
  : option (bool * TunnelManager) :=
  let h := tm_heap m in
  if bool_decide (tn_form (h r) = FormProxy) then Some (false, m)
  else
    let es := entries_of remote m in
    let returned_is_live :=
      existsb (fun e => (te_tunnel e =? r)%nat && negb (entry_proxy h e) && entry_available h e) es in
    if returned_is_live then
      let proxies := te_tunnel <$> filter (entry_proxy h) es in
      let m1 := set_tunnels (<[remote := filter (fun e => negb (entry_proxy h e)) es]> (tm_tunnels m)) m in
      let '(b, s) := remove_upgrade remote (tm_state m1) in
      Some (true, close_all_tunnels proxies (notify_if b (set_mstate s m1)))
    else m1 ← reconcile now remote m; Some (false, m1).

(** Housekeeping: one entry, one peer, all peers in the map's order. *)
Definition cleanup_entry (now : Z) (idle_timeout : Duration)
    (acc : (nat -> T) * list TunnelEntry * list nat) (e : TunnelEntry) : (nat -> T) * list TunnelEntry * list nat :=
  let '(h, kept, removed) := acc in
  if negb (entry_available h e) then (h, kept, removed ++ [te_tunnel e])
  else
    let '(retired, t) := tn_try_retire now idle_timeout (h (te_tunnel e)) in
    let h := <[te_tunnel e := t]> h in
    if retired then (h, kept, removed ++ [te_tunnel e]) else (h, kept ++ [e], removed).

Definition cleanup_peer (now : Z) (idle_timeout : Duration) (acc : option (list nat * TunnelManager))
    (remote : P2pId) : option (list nat * TunnelManager) :=
  '(removed, m) ← acc;
  let '(h, es, removed) := foldl (cleanup_entry now idle_timeout) (tm_heap m, [], removed) (entries_of remote m) in
  let m := set_heap h m in
  '(b, s) ← reconcile_proxy_upgrade_state now remote h (Some es) (tm_state m);
  Some (removed,
        set_tunnels (match es with [] => delete remote | _ => <[remote := es]> end (tm_tunnels m))
          (notify_if b (set_mstate s m))).

Definition cleanup_closed_tunnels (now : Z) (idle_timeout : Duration) (m : TunnelManager) : option TunnelManager :=
  '(removed, m) ← foldl (cleanup_peer now idle_timeout) (Some ([], m)) (elements (dom (tm_tunnels m)));
  Some (close_all_tunnels removed m).

(** ** Waiters for incoming tunnels *)

Definition add_incoming_waiter (remote : P2pId) (tunnel_id : Z) (expected_reverse : bool) (token waiter : nat)
    (s : ManagerState) : ManagerState :=
  set_waiters (<[(remote, tunnel_id, expected_reverse) := mkIncomingWaiter token waiter]> (ms_waiters s)) s.

Definition take_incoming_waiter (remote : P2pId) (tunnel_id : Z) (expected_reverse : bool) (s : ManagerState)
  : option nat * ManagerState :=
  let k := (remote, tunnel_id, expected_reverse) in
  (iw_waiter <$> ms_waiters s !! k, set_waiters (delete k (ms_waiters s)) s).

Definition remove_incoming_waiter (remote : P2pId) (tunnel_id : Z) (expected_reverse : bool) (token : nat)
    (s : ManagerState) : option nat * ManagerState :=
  let k := (remote, tunnel_id, expected_reverse) in
  match ms_waiters s !! k with
  | Some e => if (iw_token e =? token)%nat then (Some (iw_waiter e), set_waiters (delete k (ms_waiters s)) s)
              else (None, s)
  | None => (None, s)
  end.

Definition on_incoming_tunnel (now : Z) (r : nat) (m : TunnelManager) : option (P2pResult bool * TunnelManager) :=
  let t := tm_heap m r in
  let remote := tn_remote_id t in
  match take_incoming_waiter remote (tn_tunnel_id t) (tn_is_reverse t) (tm_state m) with
  | (Some w, s) => Some (Ok true, emit (Notified w (Ok r)) (set_mstate s m))
  | (None, _) =>
      if tn_is_reverse t then
        let '(res, m1) := close_tunnel r m in
        Some (match res with Ok _ => Ok false | Err e => Err e end, m1)
      else
        '(res, m1) ← register_tunnel_and_publish now r m;
        Some (match res with Ok _ => Ok true | Err e => Err e end, m1)
  end.

Definition on_proxy_upgrade_failed_generation (now : Z) (remote : P2pId) (generation : Z) (m : TunnelManager)
  : option Duration * TunnelManager :=
  let '(d, s) := upgrade_failed_generation (tm_initial_interval m) now remote generation (tm_state m) in
  (d, notify_if (bool_decide (is_Some d)) (set_mstate s m)).

(** [attempt_proxy_upgrade_generation] before and after the attempt itself. *)
Definition attempt_current (remote : P2pId) (generation : Z) (m : TunnelManager) : bool :=
  match ms_upgrades (tm_state m) !! remote with Some u => pu_generation u =? generation | None => false end.
Definition attempt_end (now : Z) (remote : P2pId) (generation : Z) (res : P2pResult nat) (m : TunnelManager)
  : option TunnelManager :=
  match res with
  | Ok r => '(_, m1) ← finalize_proxy_upgrade_success now remote r m; Some m1
  | Err _ => Some (snd (on_proxy_upgrade_failed_generation now remote generation m))
  end.
End manager.
Arguments TunnelManager : clear implicits.
Arguments reconcile_proxy_upgrade_state : simpl never.

Lemma list_filter_all {A} (P : A -> Prop) `{!forall x, Decision (P x)} (l : list A) :
  (forall x, P x) -> filter P l = l.
Proof. intros HP. induction l as [|x l IH]; [done|]. by rewrite filter_cons_True, IH. Qed.

Lemma list_filter_iff_in {A} (P Q : A -> Prop) `{!forall x, Decision (P x), !forall x, Decision (Q x)} (l : list A) :
  (forall x, x ∈ l -> P x <-> Q x) -> filter P l = filter Q l.
Proof.
  induction l as [|x l IH]; intros HPQ; [done|]. rewrite !filter_cons, IH by (intros; apply HPQ; by right).
  assert (P x <-> Q x) as Hx by (apply HPQ; by left). repeat case_decide; tauto.
Qed.

(** ** Selection *)
Section selection.
Context {T : Type} `{!TunnelOps T}.
Implicit Types (h : nat -> T) (e : TunnelEntry).

Lemma preferred_irrefl h e : preferred_tunnel_entry h e e = false.
Proof. unfold preferred_tunnel_entry. destruct (tn_business_at _); apply Z.ltb_irrefl. Qed.

(** Not being preferred is transitive: the preference is a strict weak order. *)
Lemma preferred_negtrans h a b c :
  preferred_tunnel_entry h a b = false -> preferred_tunnel_entry h b c = false ->
  preferred_tunnel_entry h a c = false.
Proof. unfold preferred_tunnel_entry. repeat case_match; try done; lia. Qed.

Lemma preferred_asym h a b : preferred_tunnel_entry h a b = true -> preferred_tunnel_entry h b a = false.
Proof. unfold preferred_tunnel_entry. repeat case_match; try done; lia. Qed.

(** What a slot holds after a list of entries went through it. *)
Definition best_of h (es : list TunnelEntry) (slot : option TunnelEntry) : Prop :=
  match slot with
  | Some e => e ∈ es /\ forall e', e' ∈ es -> preferred_tunnel_entry h e' e = false
  | None => es = []
  end.

Lemma slot_take_best h es slot e : best_of h es slot -> best_of h (es ++ [e]) (slot_take h e slot).
Proof.
  unfold slot_take. destruct slot as [l|]; simpl.
  - intros [Hl Hbest]. destruct (preferred_tunnel_entry h e l) eqn:E; simpl.
    + split; [set_solver|]. intros e' [He'| ->%list_elem_of_singleton]%elem_of_app; [|apply preferred_irrefl].
      apply (preferred_negtrans h _ l); [by apply Hbest|by apply preferred_asym].
    + split; [set_solver|]. intros e' [He'| ->%list_elem_of_singleton]%elem_of_app; [by apply Hbest|done].
  - intros ->. simpl. split; [set_solver|]. intros e' ->%list_elem_of_singleton. apply preferred_irrefl.
Qed.

Lemma select_fold_best h es :
  let '(np, p) := foldl (select_step h) (None, None) es in
  best_of h (filter (fun e => negb (entry_proxy h e)) es) np /\ best_of h (filter (entry_proxy h) es) p.
Proof.
  induction es as [|e es IH] using rev_ind; [done|]. rewrite foldl_app. simpl.
  destruct (foldl _ _ es) as [np p]. destruct IH as [IHn IHp]. rewrite !filter_app. unfold select_step. simpl.
  rewrite !filter_cons, !filter_nil. destruct (entry_proxy h e); simpl; rewrite ?app_nil_r;
    split; try done; by apply slot_take_best.
Qed.

(** The selected entry: a direct tunnel if there is one, and of its kind one
    no other is preferred to. *)
Lemma select_preferred_spec h es :
  match select_preferred_tunnel_entry h es with
  | Some e => e ∈ es /\ forall e', e' ∈ es ->
      (entry_proxy h e = true -> entry_proxy h e' = true) /\
      (entry_proxy h e' = entry_proxy h e -> preferred_tunnel_entry h e' e = false)
  | None => es = []
  end.
Proof.
  unfold select_preferred_tunnel_entry. pose proof (select_fold_best h es) as Hbest.
  destruct (foldl _ _ es) as [[e|] p]; destruct Hbest as [Hn Hp]; simpl in Hn.
  - destruct Hn as [[Hnp He]%list_elem_of_filter Hn]. apply Is_true_true, negb_true_iff in Hnp.
    split; [done|]. intros e' He'. split; [congruence|]. intros Hk. apply Hn, list_elem_of_filter.
    by rewrite Hk, Hnp.
  - assert (forall e', e' ∈ es -> entry_proxy h e' = true) as Hall.
    { intros e' He'. destruct (entry_proxy h e') eqn:E; [done|]. exfalso.
      assert (e' ∈ filter (fun e => negb (entry_proxy h e)) es) as Hin
        by (apply list_elem_of_filter; by rewrite E). rewrite Hn in Hin. set_solver. }
    destruct p as [e|]; simpl in Hp.
    + destruct Hp as [[_ He]%list_elem_of_filter Hp]. split; [done|]. intros e' He'. split; [auto|].
      intros _. apply Hp, list_elem_of_filter. by rewrite Hall.
    + destruct es as [|e es]; [done|]. exfalso. rewrite filter_cons_True in Hp; [done|].
      by rewrite Hall by set_solver.
Qed.
End selection.

(** ** Pruning and reconciling *)
Section reconciling.
Context {T : Type} `{!TunnelOps T}.
Implicit Types (h : nat -> T) (e : TunnelEntry) (m : TunnelManager T).

Lemma retain_available_elem h es e : e ∈ retain_available h es <-> entry_available h e = true /\ e ∈ es.
Proof. unfold retain_available. rewrite list_elem_of_filter. by rewrite Is_true_true. Qed.

Lemma retain_available_idemp h es : retain_available h (retain_available h es) = retain_available h es.
Proof. unfold retain_available. rewrite list_filter_filter_l; done. Qed.

Lemma entries_of_insert remote es m : entries_of remote (set_tunnels (<[remote := es]> (tm_tunnels m)) m) = es.
Proof. unfold entries_of, set_tunnels. simpl. by rewrite lookup_insert_eq. Qed.

Lemma prune_entries remote m : entries_of remote (prune remote m) = retain_available (tm_heap m) (entries_of remote m).
Proof.
  unfold prune, entries_of. destruct (tm_tunnels m !! remote) as [es|] eqn:E; simpl; [|by rewrite E].
  destruct (retain_available _ es) eqn:Er; simpl; [by rewrite lookup_delete_eq|by rewrite lookup_insert_eq].
Qed.

Lemma prune_other remote r m : r <> remote -> tm_tunnels (prune remote m) !! r = tm_tunnels m !! r.
Proof.
  intros Hr. unfold prune. destruct (tm_tunnels m !! remote); [|done]. simpl.
  case_match; by rewrite ?lookup_delete_ne, ?lookup_insert_ne.
Qed.

Lemma prune_keeps remote m :
  tm_heap (prune remote m) = tm_heap m /\ tm_state (prune remote m) = tm_state m /\
  tm_signal (prune remote m) = tm_signal m /\ tm_log (prune remote m) = tm_log m /\
  tm_initial_interval (prune remote m) = tm_initial_interval m /\ tm_local_id (prune remote m) = tm_local_id m.
Proof. unfold prune. by destruct (_ !! _). Qed.

(** The loop of the reconciliation in closed form. *)
Lemma reconcile_scan_spec h es ha pub :
  reconcile_scan h es ha pub =
    (ha || negb (bool_decide (es = [])),
     existsb (fun e => negb (entry_proxy h e)) es,
     snd (reconcile_scan h es ha pub)) /\
  (forallb (entry_proxy h) es = true -> snd (reconcile_scan h es ha pub) = pub && forallb te_published es).
Proof.
  revert ha pub. induction es as [|e es IH]; intros ha pub; simpl.
  - by rewrite orb_false_r, andb_true_r.
  - destruct (entry_proxy h e); simpl.
    + destruct (IH true (pub && te_published e)) as [IH1 IH2]. rewrite IH1. simpl.
      rewrite orb_true_r. split; [done|]. intros Hp. by rewrite IH2, andb_assoc.
    + by rewrite orb_true_r.
Qed.

(** The live tunnels of a peer and when its upgrades are to be scheduled. *)
Definition live_entries (remote : P2pId) m : list TunnelEntry := retain_available (tm_heap m) (entries_of remote m).
Definition only_relayed h (es : list TunnelEntry) : Prop := es <> [] /\ Forall (fun e => entry_proxy h e = true) es.

Definition upgrade_consistent (remote : P2pId) m : Prop :=
  (is_Some (ms_upgrades (tm_state m) !! remote) -> only_relayed (tm_heap m) (live_entries remote m)) /\
  (only_relayed (tm_heap m) (live_entries remote m) ->
   Forall (fun e => te_published e = true) (live_entries remote m) ->
   is_Some (ms_upgrades (tm_state m) !! remote)).

(** An upgrade state is removed, kept or new. *)
Inductive upgrade_change (remote : P2pId) (now : Z) (s : ManagerState) : bool -> ManagerState -> Prop :=
| ch_keep : upgrade_change remote now s false s
| ch_remove : upgrade_change remote now s (bool_decide (is_Some (ms_upgrades s !! remote)))
                (set_upgrades (delete remote (ms_upgrades s)) s)
| ch_insert :
    ms_next_generation s < u64_max ->
    upgrade_change remote now s true
      (set_generation (ms_next_generation s + 1)
         (set_upgrades (<[remote := upgrade_new (ms_next_generation s + 1) now]> (ms_upgrades s)) s)).

Lemma insert_proxy_upgrade_spec remote now s :
  insert_proxy_upgrade remote now s =
    if ms_next_generation s <? u64_max
    then Some (set_generation (ms_next_generation s + 1)
                 (set_upgrades (<[remote := upgrade_new (ms_next_generation s + 1) now]> (ms_upgrades s)) s))
    else None.
Proof.
  unfold insert_proxy_upgrade, allocate_proxy_upgrade_generation.
  destruct (Z.leb_spec (ms_next_generation s + 1) u64_max), (Z.ltb_spec (ms_next_generation s) u64_max);
    try lia; done.
Qed.

Lemma insert_proxy_upgrade_change remote now s s' :
  insert_proxy_upgrade remote now s = Some s' -> upgrade_change remote now s true s'.
Proof.
  rewrite insert_proxy_upgrade_spec. case_match eqn:E; [|done]. intros [= <-]. constructor. lia.
Qed.

Lemma reconcile_state_spec now remote h es s b s' :
  reconcile_proxy_upgrade_state now remote h es s = Some (b, s') ->
  let live := retain_available h (default [] es) in
  upgrade_change remote now s b s' /\
  (is_Some (ms_upgrades s' !! remote) -> only_relayed h live) /\
  (only_relayed h live -> Forall (fun e => te_published e = true) live -> is_Some (ms_upgrades s' !! remote)).
Proof.
  unfold reconcile_proxy_upgrade_state, only_relayed. destruct es as [es|]; simpl.
  2:{ intros [= <- <-]. split; [constructor|]. simpl. rewrite lookup_delete_eq.
      split; [by intros []|]. by intros []. }
  set (live := retain_available h es).
  destruct (reconcile_scan_spec h live false true) as [Hs Hpub]. rewrite Hs. simpl.
  destruct (bool_decide (live = [])) eqn:El; simpl.
  { bool_to_prop. intros [= <- <-]. split; [constructor|]. simpl. rewrite lookup_delete_eq, El.
    split; [by intros []|]. by intros [? _]. }
  bool_to_prop. destruct (existsb _ live) eqn:En; simpl.
  { intros [= <- <-]. split; [constructor|]. simpl. rewrite lookup_delete_eq. split; [by intros []|].
    intros [_ Hall] _. apply existsb_exists in En as (e & He & Hn). rewrite Forall_forall in Hall.
    apply list_elem_of_In in He. rewrite (Hall _ He) in Hn. done. }
  assert (forallb (entry_proxy h) live = true) as Hall.
  { apply forallb_forall. intros e He. destruct (entry_proxy h e) eqn:E; [done|]. exfalso.
    assert (existsb (fun e => negb (entry_proxy h e)) live = true) by (apply existsb_exists; exists e; by rewrite E).
    congruence. }
  assert (Forall (fun e => entry_proxy h e = true) live) as HallF.
  { apply Forall_forall. intros e He. rewrite forallb_forall in Hall. by apply Hall, list_elem_of_In. }
  rewrite Hpub by done. simpl. destruct (forallb te_published live && _) eqn:Ep.
  - destruct (insert_proxy_upgrade remote now s) as [s1|] eqn:Ei; simpl; [|done]. intros [= <- <-].
    split; [by apply insert_proxy_upgrade_change|]. split; [done|]. intros _ _.
    rewrite insert_proxy_upgrade_spec in Ei. case_match; simplify_eq. simpl. by rewrite lookup_insert_eq.
  - intros [= <- <-]. split; [constructor|]. split; [done|]. intros _ HF.
    destruct (ms_upgrades s !! remote) eqn:Eu; [done|]. exfalso.
    rewrite bool_decide_true, andb_true_r in Ep by done.
    assert (forallb te_published live = true); [|congruence].
    apply forallb_forall. intros e He. rewrite Forall_forall in HF. by apply HF, list_elem_of_In.
Qed.

Lemma reconcile_spec now remote m m' :
  reconcile now remote m = Some m' ->
  exists b s', m' = notify_if b (set_mstate s' m) /\ upgrade_change remote now (tm_state m) b s' /\
               upgrade_consistent remote m'.
Proof.
  unfold reconcile. destruct (reconcile_proxy_upgrade_state _ _ _ _ _) as [[b s]|] eqn:E; simpl; [|done].
  intros [= <-]. apply reconcile_state_spec in E as (Hch & H1 & H2). exists b, s. done.
Qed.

Lemma reconcile_total now remote m :
  ms_next_generation (tm_state m) < u64_max -> exists m', reconcile now remote m = Some m'.
Proof.
  intros Hg. unfold reconcile, reconcile_proxy_upgrade_state.
  destruct (tm_tunnels m !! remote) as [es|]; simpl; [|by eexists].
  destruct (reconcile_scan _ _ _ _) as [[ha np] pub]. destruct (negb ha || np); [by eexists|].
  destruct (pub && _); [|by eexists]. rewrite insert_proxy_upgrade_spec.
  destruct (Z.ltb_spec (ms_next_generation (tm_state m)) u64_max); [by eexists|lia].
Qed.
End reconciling.

(** C12: what callers get from the registry: [get_tunnel] always answers while
    generations last; it answers [None] only when the peer has no available
    tunnel; otherwise it hands out an available registered tunnel, a published
    one if any is published, then a direct one if any is direct, then one that
    no other of that kind is preferred to (recent business traffic first, else
    newest registration); afterwards the peer's list holds exactly the available
    tunnels and its upgrade schedule matches them. *)
Theorem get_tunnel_spec {T} `{!TunnelOps T} now remote (m : TunnelManager T) :
  ms_next_generation (tm_state m) < u64_max ->
  exists res m', get_tunnel now remote m = Some (res, m') /\
    entries_of remote m' = live_entries remote m /\ tm_heap m' = tm_heap m /\
    upgrade_consistent remote m' /\
    match res with
    | None => live_entries remote m = []
    | Some r => exists e, e ∈ live_entries remote m /\ te_tunnel e = r /\
        forall e', e' ∈ live_entries remote m ->
          (te_published e' = true -> te_published e = true) /\
          (te_published e' = te_published e ->
             (entry_proxy (tm_heap m) e = true -> entry_proxy (tm_heap m) e' = true) /\
             (entry_proxy (tm_heap m) e' = entry_proxy (tm_heap m) e ->
                preferred_tunnel_entry (tm_heap m) e' e = false))
    end.
Proof.
  intros Hg. unfold get_tunnel, get_tunnel_with_filter.
  destruct (prune_keeps remote m) as (Hh & Hst & _).
  destruct (reconcile_total now remote (prune remote m)) as [m' Hm']; [by rewrite Hst|].
  rewrite Hm'. simpl. eexists _, m'. split; [done|].
  apply reconcile_spec in Hm' as (b & s & -> & _ & Hcons).
  split; [apply prune_entries|]. split; [done|]. split; [done|].
  rewrite prune_entries. change (retain_available (tm_heap m) (entries_of remote m)) with (live_entries remote m).
  set (live := live_entries remote m).
  rewrite (list_filter_all _ live) by done. pose proof (select_preferred_spec (tm_heap m) (filter te_published live)) as Hpub.
  pose proof (select_preferred_spec (tm_heap m) live) as Hany.
  destruct (select_preferred_tunnel_entry (tm_heap m) (filter te_published live)) as [e|]; simpl.
  - destruct Hpub as [[Hp He]%list_elem_of_filter Hbest]. apply Is_true_true in Hp.
    exists e. split; [done|]. split; [done|]. intros e' He'. split; [done|]. rewrite Hp. intros Hp'.
    apply Hbest, list_elem_of_filter. by rewrite Hp'.
  - destruct (select_preferred_tunnel_entry (tm_heap m) live) as [e|]; simpl; [|done].
    destruct Hany as [He Hbest]. exists e. split; [done|]. split; [done|]. intros e' He'.
    split; [|intros _; by apply Hbest]. intros Hp'. exfalso.
    assert (e' ∈ filter te_published live) as Hin by (apply list_elem_of_filter; by rewrite Hp').
    rewrite Hpub in Hin. set_solver.
Qed.

(** ** The registry's invariant *)
Section invariant.
Context {T : Type} `{!TunnelOps T, !TunnelWork T, !TunnelLaws T}.
Implicit Types (h : nat -> T) (e : TunnelEntry) (m : TunnelManager T) (remote : P2pId).

Definition cand h e : Z * Z := (tn_tunnel_id (h (te_tunnel e)), tn_candidate_id (h (te_tunnel e))).

(** One peer's list: no candidate twice, only tunnels to that peer. *)
Record entries_ok h remote (es : list TunnelEntry) : Prop := {
  eo_peer : P2pId_is_default remote = false;
  eo_nodup : NoDup (cand h <$> es);
  eo_remote : forall e, e ∈ es -> tn_remote_id (h (te_tunnel e)) = remote }.

Definition table_ok m : Prop :=
  forall remote es, tm_tunnels m !! remote = Some es -> es <> [] /\ entries_ok (tm_heap m) remote es.

Definition generations_ok (s : ManagerState) : Prop :=
  0 <= ms_next_generation s /\
  forall remote u, ms_upgrades s !! remote = Some u -> 0 < pu_generation u <= ms_next_generation s.

Record registry_ok m : Prop := {
  ok_table : table_ok m;
  ok_generations : generations_ok (tm_state m);
  ok_known : forall remote, is_Some (ms_upgrades (tm_state m) !! remote) -> is_Some (tm_tunnels m !! remote) }.

Lemma entries_ok_sublist h remote es es' : es' `sublist_of` es -> entries_ok h remote es -> entries_ok h remote es'.
Proof.
  intros Hs [? Hn Hr]. split; [done| |].
  - eapply sublist_NoDup; [exact Hn|]. by apply fmap_sublist.
  - intros e He. apply Hr. eapply elem_of_submseteq; [exact He|]. by apply sublist_submseteq.
Qed.

Lemma entries_ok_heap h h' remote es :
  (forall e, e ∈ es -> tn_identity (h' (te_tunnel e)) = tn_identity (h (te_tunnel e))) ->
  entries_ok h remote es -> entries_ok h' remote es.
Proof.
  intros Hid [? Hn Hr]. split; [done| |].
  - erewrite list_fmap_ext; [exact Hn|]. intros i e He%list_elem_of_lookup_2. apply Hid in He.
    unfold tn_identity in He. unfold cand. congruence.
  - intros e He. rewrite <-(Hr e He). apply Hid in He. unfold tn_identity in He. congruence.
Qed.

(** Distinct entries are distinct objects, also across peers. *)
Lemma entries_ok_ref h remote es e e' :
  entries_ok h remote es -> e ∈ es -> e' ∈ es -> te_tunnel e = te_tunnel e' -> e = e'.
Proof.
  intros Hok He He' Heq. apply list_elem_of_lookup_1 in He as [i Hi], He' as [j Hj].
  assert (i = j) as ->; [|congruence].
  eapply (NoDup_lookup (cand h <$> es)); [apply Hok| |];
    rewrite list_lookup_fmap; [by rewrite Hi|rewrite Hj; simpl; unfold cand; by rewrite Heq].
Qed.

Lemma table_ok_ref m r1 r2 es1 es2 e1 e2 :
  table_ok m -> tm_tunnels m !! r1 = Some es1 -> tm_tunnels m !! r2 = Some es2 ->
  e1 ∈ es1 -> e2 ∈ es2 -> te_tunnel e1 = te_tunnel e2 -> r1 = r2 /\ e1 = e2.
Proof.
  intros Hok H1 H2 He1 He2 Heq. destruct (Hok _ _ H1) as [_ Ho1], (Hok _ _ H2) as [_ Ho2].
  assert (r1 = r2) as ->.
  { rewrite <-(eo_remote _ _ _ Ho1 e1 He1), <-(eo_remote _ _ _ Ho2 e2 He2). by rewrite Heq. }
  simplify_eq. split; [done|]. by apply (entries_ok_ref (tm_heap m) r2 es1).
Qed.

Lemma upgrade_change_lookup remote now s b s' r :
  upgrade_change remote now s b s' -> r <> remote -> ms_upgrades s' !! r = ms_upgrades s !! r.
Proof. intros [| |Hg] Hr; simpl; by rewrite ?lookup_delete_ne, ?lookup_insert_ne. Qed.

Lemma upgrade_change_generations remote now s b s' :
  upgrade_change remote now s b s' -> generations_ok s -> generations_ok s'.
Proof.
  intros Hc [H0 Hg]. destruct Hc as [| |Hlt]; [done| |]; split; simpl; [lia| |lia|].
  - intros r u Hu. apply lookup_delete_Some in Hu as [_ Hu]. by apply (Hg r).
  - intros r u [[-> <-]|[_ Hu]]%lookup_insert_Some; simpl; [lia|]. apply Hg in Hu. lia.
Qed.

Lemma only_relayed_known remote m :
  only_relayed (tm_heap m) (live_entries remote m) -> is_Some (tm_tunnels m !! remote).
Proof.
  unfold live_entries, entries_of. intros [Hne _]. by destruct (tm_tunnels m !! remote).
Qed.

(** Reconciling a peer re-establishes the invariant for it. *)
Lemma reconcile_ok now remote m m' :
  reconcile now remote m = Some m' -> table_ok m -> generations_ok (tm_state m) ->
  (forall r, r <> remote -> is_Some (ms_upgrades (tm_state m) !! r) -> is_Some (tm_tunnels m !! r)) ->
  registry_ok m'.
Proof.
  intros (b & s & -> & Hch & Hcons)%reconcile_spec Ht Hg Hk. split; [done| |]; simpl.
  - by eapply upgrade_change_generations.
  - intros r Hr. destruct (decide (r = remote)) as [->|Hne].
    + apply Hcons in Hr. by apply only_relayed_known in Hr.
    + rewrite (upgrade_change_lookup _ _ _ _ _ _ Hch Hne) in Hr. by apply Hk.
Qed.

Lemma prune_table_ok remote m : table_ok m -> table_ok (prune remote m).
Proof.
  intros Ht r es. destruct (prune_keeps remote m) as (-> & _).
  destruct (decide (r = remote)) as [->|Hne]; [|rewrite prune_other by done; apply Ht].
  unfold prune. destruct (tm_tunnels m !! remote) as [es0|] eqn:E; [|by rewrite E]. simpl.
  destruct (Ht _ _ E) as [_ Ho].
  assert (entries_ok (tm_heap m) remote (retain_available (tm_heap m) es0)) as Ho'
    by (eapply entries_ok_sublist; [apply sublist_filter|done]).
  destruct (retain_available _ es0) eqn:Er; simpl; [by rewrite lookup_delete_eq|].
  rewrite lookup_insert_eq. by intros [= <-].
Qed.

Lemma pruned_reconcile_ok now remote m m' :
  registry_ok m -> reconcile now remote (prune remote m) = Some m' -> registry_ok m'.
Proof.
  intros [Ht Hg Hk] Hr. destruct (prune_keeps remote m) as (_ & Hst & _).
  eapply reconcile_ok; [exact Hr|by apply prune_table_ok|by rewrite Hst|].
  intros r Hne. rewrite Hst, prune_other by done. apply Hk.
Qed.

Lemma same_candidate_cand h t e :
  same_candidate t h e = true <-> cand h e = (tn_tunnel_id t, tn_candidate_id t).
Proof.
  unfold same_candidate, cand. rewrite andb_true_iff, !Z.eqb_eq.
  split; [intros [-> ->]; done|intros H; by simplify_eq].
Qed.

(** Changing tunnels without changing their identity keeps the invariant. *)
Lemma registry_ok_heap m h' :
  (forall r es e, tm_tunnels m !! r = Some es -> e ∈ es ->
     tn_identity (h' (te_tunnel e)) = tn_identity (tm_heap m (te_tunnel e))) ->
  registry_ok m -> registry_ok (set_heap h' m).
Proof.
  intros Hid [Ht Hg Hk]. split; [|done|done]. intros remote es Hes. simpl in *.
  destruct (Ht _ _ Hes) as [? Ho]. split; [done|]. eapply entries_ok_heap; [|exact Ho]. eauto.
Qed.

Lemma insert_identity r (t : T) h k : tn_identity t = tn_identity (h r) -> tn_identity ((<[r := t]> h) k) = tn_identity (h k).
Proof.
  intros Ht. destruct (decide (k = r)) as [->|Hne]; [by rewrite fn_lookup_insert|by rewrite fn_lookup_insert_ne].
Qed.

Lemma close_tunnel_ok r m : registry_ok m -> registry_ok (snd (close_tunnel r m)).
Proof.
  unfold close_tunnel. destruct (tn_close (tm_heap m r)) as [res t] eqn:E. simpl. apply registry_ok_heap.
  intros r' es e _ _. apply insert_identity. rewrite <-(close_identity (tm_heap m r)). by rewrite E.
Qed.

Lemma close_all_ok rs m : registry_ok m -> registry_ok (close_all_tunnels rs m).
Proof. revert m. induction rs as [|r rs IH]; intros m Hm; [done|]. simpl. by apply IH, close_tunnel_ok. Qed.
End invariant.

Section operations.
Context {T : Type} `{!TunnelOps T, !TunnelWork T, !TunnelLaws T}.
Implicit Types (h : nat -> T) (e : TunnelEntry) (m : TunnelManager T) (remote : P2pId).

Lemma entries_of_ok remote m :
  table_ok m -> P2pId_is_default remote = false -> entries_ok (tm_heap m) remote (entries_of remote m).
Proof.
  intros Ht Hd. unfold entries_of. destruct (tm_tunnels m !! remote) eqn:E; simpl; [by apply (Ht _ _ E)|].
  split; [done|constructor|set_solver].
Qed.

Lemma set_entries_table_ok remote es m :
  table_ok m -> es <> [] -> entries_ok (tm_heap m) remote es ->
  table_ok (set_tunnels (<[remote := es]> (tm_tunnels m)) m).
Proof.
  intros Ht Hne Ho r es' H. simpl in H. apply lookup_insert_Some in H as [[<- <-]|[_ H]]; [done|by apply Ht].
Qed.

Lemma set_entries_known remote es m r :
  is_Some (tm_tunnels m !! r) -> is_Some (tm_tunnels (set_tunnels (<[remote := es]> (tm_tunnels m)) m) !! r).
Proof.
  intros Hr. simpl. destruct (decide (r = remote)) as [->|?]; [by rewrite lookup_insert_eq|].
  by rewrite lookup_insert_ne.
Qed.

Lemma find_none_cand t h es :
  List.find (same_candidate t h) es = None -> (tn_tunnel_id t, tn_candidate_id t) ∉ cand h <$> es.
Proof.
  intros Hf Hin. apply list_elem_of_fmap in Hin as (e & Hc & He).
  apply list_elem_of_In, (find_none _ _ Hf) in He.
  assert (same_candidate t h e = true) by by apply same_candidate_cand. congruence.
Qed.

(** The list a registration leaves behind. *)
Lemma register_entries_ok now r m :
  table_ok m -> P2pId_is_default (tn_remote_id (tm_heap m r)) = false ->
  let remote := tn_remote_id (tm_heap m r) in
  let es := retain_available (tm_heap m) (entries_of remote m) in
  entries_ok (tm_heap m) remote es /\
  (List.find (same_candidate (tm_heap m r) (tm_heap m)) es = None ->
   entries_ok (tm_heap m) remote (es ++ [mkTunnelEntry r now false])).
Proof.
  intros Ht Hd. simpl. set (remote := tn_remote_id _) in *. set (es := retain_available _ _).
  assert (entries_ok (tm_heap m) remote es) as Ho.
  { eapply entries_ok_sublist; [apply sublist_filter|]. by apply entries_of_ok. }
  split; [done|]. intros Hf%find_none_cand. split; [done| |].
  - rewrite fmap_app. apply NoDup_app. split; [apply Ho|]. split; [|apply NoDup_singleton].
    intros x Hx ->%list_elem_of_singleton. by apply Hf.
  - intros e [He| ->%list_elem_of_singleton]%elem_of_app; [by apply Ho|done].
Qed.

Lemma register_tunnel_ok now r m res m' :
  registry_ok m -> register_tunnel now r m = Some (res, m') -> registry_ok m'.
Proof.
  intros Hok. pose proof Hok as [Ht Hg Hk]. unfold register_tunnel.
  destruct (P2pId_is_default _) eqn:Hd; [by intros [= <- <-]|].
  destruct (register_entries_ok now r m Ht Hd) as [Ho Ho']. revert Ho Ho'. simpl.
  set (remote := tn_remote_id _). set (es := retain_available _ _). intros Ho Ho'.
  destruct (List.find _ es) as [e|] eqn:Hf.
  - destruct (reconcile _ _ _) as [m1|] eqn:Hr; simpl; [|done]. intros [= <- <-].
    assert (registry_ok m1) as Hm1; [|case_match; [done|by apply close_tunnel_ok]].
    eapply reconcile_ok; [exact Hr| |done|].
    + apply set_entries_table_ok; [done| |done]. intros He. by rewrite He in Hf.
    + intros x _ Hx. by apply set_entries_known, Hk.
  - specialize (Ho' eq_refl). set (es' := es ++ _) in *.
    assert (table_ok (set_tunnels (<[remote := es']> (tm_tunnels m)) m)) as Ht1
      by (apply set_entries_table_ok; [done|by destruct es|done]).
    set (m1 := set_tunnels _ m) in *.
    assert (forall x, is_Some (ms_upgrades (tm_state m1) !! x) -> is_Some (tm_tunnels m1 !! x)) as Hk1
      by (intros x Hx; by apply set_entries_known, Hk).
    assert (is_Some (tm_tunnels m1 !! remote)) as Hrem by (simpl; by rewrite lookup_insert_eq).
    destruct (has_live_direct _ es'); simpl.
    { intros [= <- <-]. split; [done| |].
      - by eapply (upgrade_change_generations remote now), Hg; constructor.
      - simpl. intros x [u [_ Hx]%lookup_delete_Some]. apply Hk1. by exists u. }
    case_match.
    + destruct (insert_proxy_upgrade _ _ _) as [s|] eqn:Hi; simpl; [|done]. intros [= <- <-].
      apply insert_proxy_upgrade_change in Hi. split; [done|by eapply upgrade_change_generations|].
      intros x Hx. simpl in Hx. destruct (decide (x = remote)) as [->|Hne]; [done|].
      rewrite (upgrade_change_lookup _ _ _ _ _ _ Hi Hne) in Hx. by apply Hk1.
    + destruct (reconcile _ _ _) as [m2|] eqn:Hr; simpl; [|done]. intros [= <- <-].
      eapply reconcile_ok; [exact Hr|done|done|]. intros x _. apply Hk1.
Qed.

Lemma publish_entry_spec t h now es b es' :
  publish_entry t h now es = Some (b, es') ->
  te_tunnel <$> es' = te_tunnel <$> es /\ (b = false -> es' = es) /\
  exists e, e ∈ es' /\ te_published e = true /\ same_candidate t h e = true.
Proof.
  revert es'. induction es as [|e es IH]; intros es'; [done|]. simpl.
  destruct (same_candidate t h e) eqn:Hs.
  - destruct (te_published e) eqn:Hp; intros [= <- <-]; simpl; (split; [done|split; [done|]]).
    + exists e. set_solver.
    + eexists. split; [by left|]. done.
  - destruct (publish_entry t h now es) as [[b' k]|]; simpl; [|done]. intros [= <- <-].
    destruct (IH k eq_refl) as (H1 & H2 & e' & ? & ?). rewrite !fmap_cons, H1. split; [done|].
    split; [intros ->; by rewrite H2|]. exists e'. set_solver.
Qed.

Lemma cand_tunnels h (es es' : list TunnelEntry) : te_tunnel <$> es' = te_tunnel <$> es -> cand h <$> es' = cand h <$> es.
Proof.
  intros H. change (cand h) with ((fun r => (tn_tunnel_id (h r), tn_candidate_id (h r))) ∘ te_tunnel).
  by rewrite !list_fmap_compose, H.
Qed.

Lemma entries_ok_tunnels h remote (es es' : list TunnelEntry) :
  te_tunnel <$> es' = te_tunnel <$> es -> entries_ok h remote es -> entries_ok h remote es'.
Proof.
  intros H [? Hn Hr]. split; [done|by rewrite (cand_tunnels h es)|].
  intros e He. assert (te_tunnel e ∈ te_tunnel <$> es) as Hin
    by (rewrite <-H; by apply list_elem_of_fmap_2).
  apply list_elem_of_fmap in Hin as (e0 & -> & He0). by apply Hr.
Qed.

Lemma publish_ok now r m res m' :
  registry_ok m -> publish_registered_tunnel now r m = (res, m') -> registry_ok m'.
Proof.
  intros Hok. unfold publish_registered_tunnel.
  destruct (publish_entry _ _ _ _) as [[[] es]|] eqn:E; intros [= <- <-]; [|done..].
  apply publish_entry_spec in E as (Hes & _ & e & He & _). pose proof Hok as [Ht Hg Hk].
  unfold entries_of in Hes. destruct (tm_tunnels m !! _) as [es0|] eqn:E0; simpl in Hes.
  - destruct (Ht _ _ E0) as [Hne Ho]. split; [|done|].
    + apply set_entries_table_ok; [done| |by eapply entries_ok_tunnels]. intros ->. simpl in Hes. by destruct es0.
    + intros x Hx. by apply set_entries_known, Hk.
  - destruct es; [set_solver|done].
Qed.
End operations.

(** ** Upgrades and housekeeping *)
Section housekeeping.
Context {T : Type} `{!TunnelOps T, !TunnelWork T, !TunnelLaws T}.
Implicit Types (h : nat -> T) (e : TunnelEntry) (m : TunnelManager T) (remote : P2pId).

Lemma close_all_frame rs m :
  tm_tunnels (close_all_tunnels rs m) = tm_tunnels m /\ tm_state (close_all_tunnels rs m) = tm_state m /\
  tm_signal (close_all_tunnels rs m) = tm_signal m /\
  tm_initial_interval (close_all_tunnels rs m) = tm_initial_interval m /\
  (forall r, tn_identity (tm_heap (close_all_tunnels rs m) r) = tn_identity (tm_heap m r)) /\
  (forall r, r ∉ rs -> tm_heap (close_all_tunnels rs m) r = tm_heap m r).
Proof.
  revert m. induction rs as [|r rs IH]; intros m; [done|]. simpl.
  destruct (IH (snd (close_tunnel r m))) as (-> & -> & -> & -> & Hid & Hout).
  unfold close_tunnel in *. destruct (tn_close (tm_heap m r)) as [res t] eqn:E. simpl in *.
  split_and!; [done..| |].
  - intros x. rewrite Hid. apply insert_identity. rewrite <-(close_identity (tm_heap m r)). by rewrite E.
  - intros x Hx. rewrite Hout by set_solver. apply fn_lookup_insert_ne. set_solver.
Qed.

Lemma close_tunnel_closes r m : tn_is_closed (tm_heap (snd (close_tunnel r m)) r) = true.
Proof.
  unfold close_tunnel. pose proof (close_closes (tm_heap m r)). destruct (tn_close _) as [res t]. simpl in *.
  by rewrite fn_lookup_insert.
Qed.

Lemma close_all_closes rs m r : r ∈ rs -> tn_is_closed (tm_heap (close_all_tunnels rs m) r) = true.
Proof.
  revert m. induction rs as [|x rs IH]; intros m Hr; [set_solver|]. simpl.
  destruct (decide (r ∈ rs)) as [?|Hn]; [by apply IH|]. assert (r = x) as -> by set_solver.
  destruct (close_all_frame rs (snd (close_tunnel x m))) as (_ & _ & _ & _ & _ & ->); [|done].
  apply close_tunnel_closes.
Qed.

Lemma entry_proxy_identity h h' e :
  tn_identity (h' (te_tunnel e)) = tn_identity (h (te_tunnel e)) -> entry_proxy h' e = entry_proxy h e.
Proof.
  unfold tn_identity, entry_proxy. intros H.
  by assert (tn_form (h' (te_tunnel e)) = tn_form (h (te_tunnel e))) as -> by congruence.
Qed.

(** Consistency of a peer depends on the tunnels in its list only. *)
Lemma upgrade_consistent_frame remote m m' :
  entries_of remote m' = entries_of remote m ->
  ms_upgrades (tm_state m') !! remote = ms_upgrades (tm_state m) !! remote ->
  (forall e, e ∈ entries_of remote m -> tm_heap m' (te_tunnel e) = tm_heap m (te_tunnel e)) ->
  upgrade_consistent remote m -> upgrade_consistent remote m'.
Proof.
  intros He Hu Hh. unfold upgrade_consistent.
  assert (live_entries remote m' = live_entries remote m) as Hl.
  { unfold live_entries, retain_available. rewrite He. apply list_filter_iff_in.
    intros e Hin. unfold entry_available. by rewrite Hh. }
  assert (only_relayed (tm_heap m') (live_entries remote m') <-> only_relayed (tm_heap m) (live_entries remote m)) as Ho.
  { rewrite Hl. unfold only_relayed. apply and_iff_compat_l. rewrite !Forall_forall. apply forall_proper. intros e.
    split; intros HF Hin; specialize (HF Hin); unfold live_entries in Hin; apply retain_available_elem in Hin as [_ Hin];
      unfold entry_proxy in *; by rewrite Hh in *. }
  rewrite Hu, Ho, Hl. done.
Qed.

Lemma finalize_ok now remote r m b m' :
  registry_ok m -> finalize_proxy_upgrade_success now remote r m = Some (b, m') -> registry_ok m'.
Proof.
  intros Hok. pose proof Hok as [Ht Hg Hk]. unfold finalize_proxy_upgrade_success.
  case_match; [by intros [= <- <-]|]. destruct (existsb _ _) eqn:El; simpl.
  - intros [= <- <-]. apply close_all_ok. apply existsb_exists in El as (e & He%list_elem_of_In & Hl).
    bool_to_prop.
    assert (is_Some (tm_tunnels m !! remote)) as [es0 E].
    { unfold entries_of in He. destruct (tm_tunnels m !! remote); [done|set_solver]. }
    unfold entries_of in *. rewrite E in *. simpl in He |- *. destruct (Ht _ _ E) as [_ Ho].
    set (es := filter _ es0).
    assert (e ∈ es) as Hin by (apply list_elem_of_filter; split; [by destruct (entry_proxy _ e)|done]).
    split.
    + apply set_entries_table_ok; [done| |eapply entries_ok_sublist; [apply sublist_filter|done]].
      intros Hes. rewrite Hes in Hin. set_solver.
    + by eapply (upgrade_change_generations remote now), Hg; constructor.
    + simpl. intros x [u [_ Hx]%lookup_delete_Some]. apply (set_entries_known remote es m x), Hk. by exists u.
  - destruct (reconcile _ _ _) as [m1|] eqn:Hr; simpl; [|done]. intros [= <- <-].
    eapply reconcile_ok; [exact Hr|done|done|]. intros x _. apply Hk.
Qed.

Lemma cleanup_entries_spec now d h removed es :
  NoDup (te_tunnel <$> es) ->
  let '(h', kept, removed') := foldl (cleanup_entry now d) (h, [], removed) es in
  kept `sublist_of` es /\ (forall r, tn_identity (h' r) = tn_identity (h r)) /\
  (forall r, r ∉ te_tunnel <$> es -> h' r = h r) /\
  (exists rem, removed' = removed ++ rem /\ (te_tunnel <$> kept) ++ rem ≡ₚ te_tunnel <$> es) /\
  (forall e, e ∈ es -> entry_available h e = true -> tn_busy (h (te_tunnel e)) = true ->
     e ∈ kept /\ h' (te_tunnel e) = h (te_tunnel e)).
Proof.
  induction es as [|e es IH] using rev_ind; intros Hnd; simpl.
  { split_and!; [done..|exists []; by rewrite app_nil_r|set_solver]. }
  rewrite fmap_app in Hnd. apply NoDup_app in Hnd as (Hnd & Hne & _). specialize (IH Hnd).
  rewrite foldl_app. simpl. destruct (foldl _ _ es) as [[h1 kept] removed1].
  destruct IH as (Hs & Hid & Hout & (rem & -> & Hperm) & Hbusy).
  assert (te_tunnel e ∉ te_tunnel <$> es) as He by set_solver.
  pose proof (Hout _ He) as Hhe.
  assert (forall h2 : nat -> T, (forall r, r <> te_tunnel e -> h2 r = h1 r) ->
            forall r, r ∉ te_tunnel <$> es ++ [e] -> h2 r = h r) as Hout'.
  { intros h2 H2 r Hr. rewrite fmap_app in Hr. rewrite H2 by set_solver. apply Hout. set_solver. }
  assert (forall h2 : nat -> T, (forall r, r <> te_tunnel e -> h2 r = h1 r) ->
            forall e0, e0 ∈ es -> h2 (te_tunnel e0) = h1 (te_tunnel e0)) as Hkeep.
  { intros h2 H2 e0 He0. apply H2. intros Heq. apply He. rewrite <-Heq. by apply list_elem_of_fmap_2. }
  unfold cleanup_entry. destruct (entry_available h1 e) eqn:Hav; simpl.
  - destruct (tn_try_retire now d (h1 (te_tunnel e))) as [ret t] eqn:Hr.
    assert (tn_identity t = tn_identity (h1 (te_tunnel e))) as Ht
      by (rewrite <-(retire_identity now d (h1 (te_tunnel e))), Hr; done).
    assert (forall r, r <> te_tunnel e -> (<[te_tunnel e := t]> h1) r = h1 r) as Hins
      by (intros; by apply fn_lookup_insert_ne).
    destruct ret; split_and!.
    + by apply sublist_inserts_r.
    + intros r. by rewrite insert_identity.
    + by apply Hout'.
    + exists (rem ++ [te_tunnel e]). rewrite !app_assoc, fmap_app, Hperm. done.
    + intros e0 [He0| ->%list_elem_of_singleton]%elem_of_app Ha Hb.
      * destruct (Hbusy _ He0 Ha Hb). by rewrite Hkeep.
      * rewrite Hhe in Hr. rewrite (retire_busy now d _ Hb) in Hr. done.
    + by apply sublist_app.
    + intros r. by rewrite insert_identity.
    + by apply Hout'.
    + exists rem. split; [done|]. rewrite !fmap_app, <-Hperm. simpl. solve_Permutation.
    + intros e0 [He0| ->%list_elem_of_singleton]%elem_of_app Ha Hb.
      * destruct (Hbusy _ He0 Ha Hb). rewrite Hkeep by done. set_solver.
      * rewrite Hhe in Hr. rewrite (retire_busy now d _ Hb) in Hr. simplify_eq.
        rewrite fn_lookup_insert. set_solver.
  - split_and!; [by apply sublist_inserts_r|done|by apply Hout'| |].
    + exists (rem ++ [te_tunnel e]). rewrite !app_assoc, fmap_app, Hperm. done.
    + intros e0 [He0| ->%list_elem_of_singleton]%elem_of_app Ha Hb; [by apply Hbusy|].
      unfold entry_available in Ha, Hav. rewrite <-Hhe in Ha. congruence.
Qed.
End housekeeping.

Section cleanup.
Context {T : Type} `{!TunnelOps T, !TunnelWork T, !TunnelLaws T}.
Implicit Types (h : nat -> T) (e : TunnelEntry) (m : TunnelManager T) (remote : P2pId).

Definition registered m remote e : Prop := e ∈ entries_of remote m.

Lemma registered_lookup m remote e :
  registered m remote e <-> exists es, tm_tunnels m !! remote = Some es /\ e ∈ es.
Proof.
  unfold registered, entries_of. destruct (tm_tunnels m !! remote) as [es|]; simpl; [|set_solver].
  split; [by eauto|]. by intros (es' & [= <-] & He).
Qed.

Lemma registered_ref m r1 r2 e1 e2 :
  table_ok m -> registered m r1 e1 -> registered m r2 e2 -> te_tunnel e1 = te_tunnel e2 -> r1 = r2 /\ e1 = e2.
Proof.
  intros Ht (es1 & ? & ?)%registered_lookup (es2 & ? & ?)%registered_lookup. by eapply table_ok_ref.
Qed.

Lemma entries_of_refs remote m : table_ok m -> NoDup (te_tunnel <$> entries_of remote m).
Proof.
  intros Ht. unfold entries_of. destruct (tm_tunnels m !! remote) as [es|] eqn:E; simpl; [|constructor].
  apply (NoDup_fmap_1 (fun r => (tn_tunnel_id (tm_heap m r), tn_candidate_id (tm_heap m r)))).
  rewrite <-list_fmap_compose. apply (Ht _ _ E).
Qed.

(** What housekeeping has done when it has visited the peers [ks]. *)
Record cleaned (m0 : TunnelManager T) (ks : list P2pId) (removed : list nat) m : Prop := {
  cl_ok : registry_ok m;
  cl_identity : forall r, tn_identity (tm_heap m r) = tn_identity (tm_heap m0 r);
  cl_other : forall k, k ∉ ks -> tm_tunnels m !! k = tm_tunnels m0 !! k;
  cl_heap : forall k e, k ∉ ks -> registered m0 k e -> tm_heap m (te_tunnel e) = tm_heap m0 (te_tunnel e);
  cl_consistent : forall k, k ∈ ks -> upgrade_consistent k m;
  cl_sub : forall k e, registered m k e -> registered m0 k e;
  cl_removed : forall k e, registered m k e -> te_tunnel e ∉ removed;
  cl_gone : forall k e, registered m0 k e -> registered m k e \/ te_tunnel e ∈ removed;
  cl_busy : forall k e, registered m0 k e -> entry_available (tm_heap m0) e = true ->
    tn_busy (tm_heap m0 (te_tunnel e)) = true ->
    registered m k e /\ tm_heap m (te_tunnel e) = tm_heap m0 (te_tunnel e) }.

Lemma cleaned_start m : registry_ok m -> cleaned m [] [] m.
Proof. intros Hm. split; try done; set_solver. Qed.

(** The table after one peer's list has been cut down to [es]. *)
Lemma entries_of_replace remote es m k :
  entries_of k (set_tunnels (match es with [] => delete remote | _ => <[remote := es]> end (tm_tunnels m)) m) =
    if decide (k = remote) then es else entries_of k m.
Proof.
  unfold entries_of, set_tunnels. simpl. case_decide as Hk.
  - subst. destruct es; [by rewrite lookup_delete_eq|by rewrite lookup_insert_eq].
  - destruct es; by rewrite ?lookup_delete_ne, ?lookup_insert_ne.
Qed.

Lemma table_ok_replace remote es m :
  table_ok m -> entries_ok (tm_heap m) remote es ->
  table_ok (set_tunnels (match es with [] => delete remote | _ => <[remote := es]> end (tm_tunnels m)) m).
Proof.
  intros Ht Ho k es' Hk. simpl in *. destruct es as [|e es].
  - apply lookup_delete_Some in Hk as [_ Hk]. by apply Ht.
  - apply lookup_insert_Some in Hk as [[<- <-]|[_ Hk]]; [done|by apply Ht].
Qed.

Lemma cleanup_peer_spec now d removed m remote removed' m' :
  registry_ok m -> is_Some (tm_tunnels m !! remote) ->
  cleanup_peer now d (Some (removed, m)) remote = Some (removed', m') ->
  registry_ok m' /\ upgrade_consistent remote m' /\
  (forall r, tn_identity (tm_heap m' r) = tn_identity (tm_heap m r)) /\
  (forall r, r ∉ te_tunnel <$> entries_of remote m -> tm_heap m' r = tm_heap m r) /\
  (forall k, k <> remote -> tm_tunnels m' !! k = tm_tunnels m !! k /\
                            ms_upgrades (tm_state m') !! k = ms_upgrades (tm_state m) !! k) /\
  entries_of remote m' `sublist_of` entries_of remote m /\
  (exists rem, removed' = removed ++ rem /\
     (te_tunnel <$> entries_of remote m') ++ rem ≡ₚ te_tunnel <$> entries_of remote m) /\
  (forall e, registered m remote e -> entry_available (tm_heap m) e = true ->
     tn_busy (tm_heap m (te_tunnel e)) = true ->
     registered m' remote e /\ tm_heap m' (te_tunnel e) = tm_heap m (te_tunnel e)).
Proof.
  intros [Ht Hg Hk] [es0 E0]. unfold cleanup_peer. simpl.
  pose proof (cleanup_entries_spec now d (tm_heap m) removed _ (entries_of_refs remote m Ht)) as Hs.
  destruct (foldl _ _ _) as [[h es] removed1]. destruct Hs as (Hsub & Hid & Hout & Hrem & Hbusy).
  destruct (reconcile_proxy_upgrade_state _ _ _ _ _) as [[b s]|] eqn:Hr; simpl; [|done]. intros [= <- <-].
  apply reconcile_state_spec in Hr as (Hch & Hc1 & Hc2). simpl in Hc1, Hc2.
  set (m1 := notify_if b (set_mstate s (set_heap h m))).
  assert (table_ok m1) as Ht1.
  { intros k es' Hes'. destruct (Ht _ _ Hes') as [? Ho]. split; [done|]. eapply entries_ok_heap; [|exact Ho].
    intros e _. apply Hid. }
  assert (entries_ok h remote es) as Ho.
  { eapply entries_ok_sublist; [exact Hsub|]. unfold entries_of. rewrite E0. apply (Ht1 _ _ E0). }
  assert (forall k, entries_of k (set_tunnels (match es with [] => delete remote | _ => <[remote:=es]> end
            (tm_tunnels m1)) m1) = if decide (k = remote) then es else entries_of k m) as Hent
    by (intros k; change (entries_of k m) with (entries_of k m1); apply entries_of_replace).
  assert (forall k, k <> remote -> tm_tunnels (set_tunnels (match es with [] => delete remote | _ => <[remote:=es]> end
            (tm_tunnels m1)) m1) !! k = tm_tunnels m !! k) as Hother
    by (intros k Hne; simpl; destruct es; by rewrite ?lookup_delete_ne, ?lookup_insert_ne).
  change (set_tunnels _ (notify_if b _)) with (set_tunnels (match es with [] => delete remote | _ => <[remote:=es]> end
            (tm_tunnels m1)) m1).
  set (m' := set_tunnels _ m1) in *.
  assert (upgrade_consistent remote m') as Hcons.
  { unfold upgrade_consistent, live_entries. rewrite Hent, decide_True by done. done. }
  assert (forall k, k <> remote -> ms_upgrades (tm_state m') !! k = ms_upgrades (tm_state m) !! k) as Hup
    by (intros k Hne; by apply (upgrade_change_lookup _ _ _ _ _ _ Hch)).
  split; [split|].
  - by apply table_ok_replace.
  - by eapply upgrade_change_generations.
  - intros k Hsome. destruct (decide (k = remote)) as [->|Hne].
    + apply Hcons in Hsome. by apply only_relayed_known in Hsome.
    + rewrite Hother by done. rewrite Hup in Hsome by done. by apply Hk.
  - unfold registered. rewrite !Hent, !decide_True by done. split_and!; try done.
    intros k Hne. split; [by apply Hother|by apply Hup].
Qed.

Lemma cleaned_peer now d m0 ks removed m remote removed' m' :
  cleaned m0 ks removed m -> remote ∉ ks -> is_Some (tm_tunnels m0 !! remote) ->
  cleanup_peer now d (Some (removed, m)) remote = Some (removed', m') ->
  cleaned m0 (ks ++ [remote]) removed' m'.
Proof.
  intros Hc Hks Hsome0 Hp. assert (is_Some (tm_tunnels m !! remote)) as Hsome by by rewrite (cl_other _ _ _ _ Hc).
  apply (cleanup_peer_spec _ _ _ _ _ _ _ (cl_ok _ _ _ _ Hc) Hsome) in Hp as
    (Hok & Hcons & Hid & Hout & Hother & Hsub & (rem & -> & Hperm) & Hbusy).
  pose proof (ok_table _ (cl_ok _ _ _ _ Hc)) as Ht.
  assert (forall k e, k <> remote -> registered m' k e <-> registered m k e) as Hreg.
  { intros k e Hne. unfold registered, entries_of. by rewrite (proj1 (Hother k Hne)). }
  assert (forall k e, registered m' k e -> registered m k e) as Hreg1.
  { intros k e He. destruct (decide (k = remote)) as [->|Hne]; [|by apply Hreg].
    eapply elem_of_submseteq; [exact He|]. by apply sublist_submseteq. }
  assert (forall k e, k <> remote -> registered m k e -> te_tunnel e ∉ te_tunnel <$> entries_of remote m) as Hdisj.
  { intros k e Hne He (e' & Heq & He')%list_elem_of_fmap. apply Hne. by eapply registered_ref. }
  assert (forall r, r ∈ rem -> exists e, registered m remote e /\ te_tunnel e = r) as Hrem.
  { intros r Hr. assert (r ∈ te_tunnel <$> entries_of remote m) as (e & -> & He)%list_elem_of_fmap
      by (rewrite <-Hperm; set_solver). by exists e. }
  split; [done|..].
  - intros r. by rewrite Hid, (cl_identity _ _ _ _ Hc).
  - intros k Hk. rewrite (proj1 (Hother k ltac:(set_solver))). apply (cl_other _ _ _ _ Hc). set_solver.
  - intros k e Hk He. assert (k <> remote /\ k ∉ ks) as [Hne Hk'] by set_solver.
    rewrite Hout; [by apply (cl_heap _ _ _ _ Hc k)|]. apply (Hdisj k); [done|].
    unfold registered, entries_of in *. by rewrite (cl_other _ _ _ _ Hc).
  - intros k [Hk| ->%list_elem_of_singleton]%elem_of_app; [|done].
    assert (k <> remote) as Hne by set_solver. destruct (Hother k Hne) as [Hk1 Hk2].
    apply (upgrade_consistent_frame k m); [unfold entries_of; by rewrite Hk1|done| |by apply (cl_consistent _ _ _ _ Hc)].
    intros e He. apply Hout. by apply (Hdisj k).
  - intros k e He. by apply (cl_sub _ _ _ _ Hc), Hreg1.
  - intros k e He [Hr|Hr]%elem_of_app; [by apply (cl_removed _ _ _ _ Hc k e (Hreg1 _ _ He))|].
    destruct (Hrem _ Hr) as (e' & He' & Heq).
    destruct (registered_ref m remote k e' e Ht He' (Hreg1 _ _ He) Heq) as [<- <-].
    assert (NoDup ((te_tunnel <$> entries_of remote m') ++ rem)) as (_ & Hn & _)%NoDup_app
      by (rewrite Hperm; by apply entries_of_refs).
    apply (Hn (te_tunnel e')); [by apply list_elem_of_fmap_2|done].
  - intros k e He0. destruct (cl_gone _ _ _ _ Hc k e He0) as [He|Hr]; [|set_solver].
    destruct (decide (k = remote)) as [->|Hne]; [|left; by apply Hreg].
    assert (te_tunnel e ∈ (te_tunnel <$> entries_of remote m') ++ rem) as [Hin|Hin]%elem_of_app
      by (rewrite Hperm; by apply list_elem_of_fmap_2); [|set_solver].
    left. apply list_elem_of_fmap in Hin as (e' & Heq & He').
    by destruct (registered_ref m remote remote e e' Ht He (Hreg1 _ _ He') Heq) as [_ ->].
  - intros k e He Ha Hb. destruct (cl_busy _ _ _ _ Hc k e He Ha Hb) as [He1 Hh].
    destruct (decide (k = remote)) as [->|Hne].
    + rewrite <-Hh. apply Hbusy; [done| |by rewrite Hh]. unfold entry_available in *. by rewrite Hh.
    + split; [by apply Hreg|]. rewrite Hout; [done|by apply (Hdisj k)].
Qed.

Lemma cleanup_fold_none now d ks : foldl (cleanup_peer (T := T) now d) None ks = None.
Proof. by induction ks. Qed.

Lemma cleaned_all now d m0 ks2 ks1 removed m removed' m' :
  cleaned m0 ks1 removed m -> NoDup (ks1 ++ ks2) -> (forall k, k ∈ ks2 -> is_Some (tm_tunnels m0 !! k)) ->
  foldl (cleanup_peer now d) (Some (removed, m)) ks2 = Some (removed', m') ->
  cleaned m0 (ks1 ++ ks2) removed' m'.
Proof.
  revert ks1 removed m. induction ks2 as [|k ks2 IH]; intros ks1 removed m Hc Hnd Hks.
  { intros [= <- <-]. by rewrite app_nil_r. }
  change (foldl ?f ?a (k :: ks2)) with (foldl f (f a k) ks2).
  destruct (cleanup_peer now d (Some (removed, m)) k) as [[removed1 m1]|] eqn:Hp; [|by rewrite cleanup_fold_none].
  intros Hf. replace (ks1 ++ k :: ks2) with ((ks1 ++ [k]) ++ ks2) in * by by rewrite <-app_assoc.
  eapply IH; [|done|set_solver|exact Hf]. eapply cleaned_peer; [done| | |done]; [|set_solver].
  apply NoDup_app in Hnd as [(_ & Hn & _)%NoDup_app _]. set_solver.
Qed.
End cleanup.

Lemma cleanup_registry_ok {T} `{!TunnelOps T, !TunnelWork T, !TunnelLaws T} now d (m m' : TunnelManager T) :
  registry_ok m -> cleanup_closed_tunnels now d m = Some m' -> registry_ok m'.
Proof.
  intros Hok. unfold cleanup_closed_tunnels.
  destruct (foldl _ _ _) as [[removed m1]|] eqn:Hf; simpl; [|done]. intros [= <-].
  eapply (cleaned_all _ _ m _ [] []) in Hf; [|by apply cleaned_start|apply NoDup_elements|];
    [|intros k Hk%elem_of_elements; by apply elem_of_dom].
  by apply close_all_ok, Hf.
Qed.

(** Housekeeping: when [cleanup_closed_tunnels] has run, the registry is
    well formed, every peer's upgrade schedule matches its available tunnels,
    every tunnel that left the registry is closed, and a tunnel on which a
    channel is open or being opened is neither closed nor removed nor touched. *)
Theorem cleanup_spares_work {T} `{!TunnelOps T, !TunnelWork T, !TunnelLaws T} now idle_timeout
    (m m' : TunnelManager T) :
  registry_ok m -> cleanup_closed_tunnels now idle_timeout m = Some m' ->
  registry_ok m' /\ (forall remote, upgrade_consistent remote m') /\
  (forall remote e, registered m remote e ->
     registered m' remote e \/ tn_is_closed (tm_heap m' (te_tunnel e)) = true) /\
  (forall remote e, registered m remote e -> entry_available (tm_heap m) e = true ->
     tn_busy (tm_heap m (te_tunnel e)) = true ->
     registered m' remote e /\ tm_heap m' (te_tunnel e) = tm_heap m (te_tunnel e)).
Proof.
  intros Hok. unfold cleanup_closed_tunnels.
  destruct (foldl _ _ _) as [[removed m1]|] eqn:Hf; simpl; [|done]. intros [= <-].
  eapply (cleaned_all _ _ m _ [] []) in Hf; [|by apply cleaned_start|apply NoDup_elements|];
    [|intros k Hk%elem_of_elements; by apply elem_of_dom].
  simpl in Hf. destruct (close_all_frame removed m1) as (Htun & Hst & _ & _ & _ & Hout).
  assert (forall k e, registered (close_all_tunnels removed m1) k e <-> registered m1 k e) as Hreg
    by (intros; unfold registered, entries_of; by rewrite Htun).
  split; [by apply close_all_ok, Hf|]. split; [|split].
  - intros k. apply (upgrade_consistent_frame k m1).
    + unfold entries_of. by rewrite Htun.
    + by rewrite Hst.
    + intros e He. by apply Hout, (cl_removed _ _ _ _ Hf k).
    + destruct (tm_tunnels m !! k) as [es|] eqn:E.
      * apply Hf, elem_of_elements, elem_of_dom. by rewrite E.
      * assert (tm_tunnels m1 !! k = None) as E1.
        { rewrite (cl_other _ _ _ _ Hf); [done|]. rewrite elem_of_elements. by apply not_elem_of_dom. }
        split; [|intros [? ?]%only_relayed_known; congruence].
        intros Hs. apply (ok_known _ (cl_ok _ _ _ _ Hf)) in Hs. rewrite E1 in Hs. by destruct Hs.
  - intros k e He. destruct (cl_gone _ _ _ _ Hf k e He); [left; by apply Hreg|right; by apply close_all_closes].
  - intros k e He Ha Hb. destruct (cl_busy _ _ _ _ Hf k e He Ha Hb) as [He1 Hh]. rewrite Hreg. split; [done|].
    rewrite Hout; [done|]. by apply (cl_removed _ _ _ _ Hf k).
Qed.

(** ** Registration and the end of an upgrade *)
Section registration.
Context {T : Type} `{!TunnelOps T, !TunnelWork T, !TunnelLaws T}.
Implicit Types (h : nat -> T) (e : TunnelEntry) (m : TunnelManager T) (remote : P2pId).

Lemma direct_not_relayed h es : has_live_direct h es = true -> ~ only_relayed h (retain_available h es).
Proof.
  intros (e & He%list_elem_of_In & Hd)%existsb_exists [_ HF]. bool_to_prop. rewrite Forall_forall in HF.
  assert (entry_proxy h e = true); [|congruence]. by apply HF, retain_available_elem.
Qed.

Lemma no_direct_relayed h es e :
  has_live_direct h es = false -> e ∈ retain_available h es -> entry_proxy h e = true.
Proof.
  intros Hn [Ha He]%retain_available_elem. destruct (entry_proxy h e) eqn:E; [done|]. exfalso.
  assert (has_live_direct h es = true); [|congruence].
  apply existsb_exists. exists e. rewrite E, Ha. split; [by apply list_elem_of_In|done].
Qed.

(** A peer without an upgrade state and with a live direct tunnel is consistent. *)
Lemma consistent_direct remote m :
  ms_upgrades (tm_state m) !! remote = None -> has_live_direct (tm_heap m) (entries_of remote m) = true ->
  upgrade_consistent remote m.
Proof.
  intros Hn Hd. split; [rewrite Hn; by intros []|]. intros Hr. by destruct (direct_not_relayed _ _ Hd Hr).
Qed.

Lemma register_consistent now r m res m' :
  registry_ok m -> P2pId_is_default (tn_remote_id (tm_heap m r)) = false ->
  register_tunnel now r m = Some (res, m') -> upgrade_consistent (tn_remote_id (tm_heap m r)) m'.
Proof.
  intros [Ht Hg Hk] Hd. unfold register_tunnel. rewrite Hd.
  set (remote := tn_remote_id _). set (es := retain_available _ _).
  destruct (List.find _ es) as [e|] eqn:Hf.
  - destruct (reconcile _ _ _) as [m1|] eqn:Hr; simpl; [|done]. intros [= <- <-].
    apply reconcile_spec in Hr as (b & s & -> & Hch & Hcons).
    destruct (Nat.eqb_spec (te_tunnel e) r) as [|Hne]; [done|].
    unfold close_tunnel. destruct (tn_close _) as [x t]. simpl.
    revert Hcons. apply upgrade_consistent_frame; [done|done|].
    intros e' He'. simpl. apply fn_lookup_insert_ne. intros Hr. apply Hne.
    assert (entries_of remote (notify_if b (set_mstate s (set_tunnels (<[remote:=es]> (tm_tunnels m)) m))) = es) as Hes
      by apply (entries_of_insert remote es m).
    rewrite Hes in He'. clear Hes. simpl in *.
    apply find_some in Hf as [He%list_elem_of_In Hs%same_candidate_cand].
    assert (cand (tm_heap m) e' = cand (tm_heap m) e) as Heq by (rewrite Hs; unfold cand; by rewrite Hr).
    assert (NoDup (cand (tm_heap m) <$> es)) as Hnd.
    { eapply sublist_NoDup; [|apply fmap_sublist, sublist_filter]. by apply (entries_of_ok remote m Ht). }
    apply list_elem_of_lookup_1 in He as [i Hi], He' as [j Hj].
    assert (i = j) as ->; [|congruence]. eapply (NoDup_lookup _ _ _ (cand (tm_heap m) e) Hnd);
      rewrite list_lookup_fmap; [by rewrite Hi|rewrite Hj; simpl; by rewrite Heq].
  - set (es' := es ++ _). set (m1 := set_tunnels _ m).
    assert (entries_of remote m1 = es') as Hes by apply entries_of_insert.
    destruct (has_live_direct _ es') eqn:Hl; simpl.
    { intros [= <- <-]. apply consistent_direct; simpl; [by rewrite lookup_delete_eq|].
      by change (entries_of remote _) with (entries_of remote m1); rewrite Hes. }
    case_match eqn:Hp.
    + destruct (insert_proxy_upgrade _ _ _) as [s|] eqn:Hi; simpl; [|done]. intros [= <- <-].
      rewrite insert_proxy_upgrade_spec in Hi. case_match; [|done]. injection Hi as <-.
      split; simpl; [|by rewrite lookup_insert_eq].
      intros _. unfold live_entries. simpl. change (entries_of remote _) with (entries_of remote m1). rewrite Hes.
      apply andb_true_iff in Hp as [_ Hp]. split.
      * intros Hnil. assert (mkTunnelEntry r now false ∈ retain_available (tm_heap m) es') as Hin
          by (apply retain_available_elem; set_solver). rewrite Hnil in Hin. set_solver.
      * apply Forall_forall. intros x. by apply no_direct_relayed.
    + destruct (reconcile _ _ _) as [m2|] eqn:Hr; simpl; [|done]. intros [= <- <-].
      by apply reconcile_spec in Hr as (b & s & -> & Hch & Hcons).
Qed.
End registration.

(** The end of a successful upgrade: when [finalize_proxy_upgrade_success]
    reports success, the peer has no relayed tunnel registered any more, all its
    relayed tunnels are closed, its direct tunnels and the one the attempt
    opened are still registered and untouched, and no upgrade stays scheduled. *)
Theorem finalize_replaces_proxies {T} `{!TunnelOps T, !TunnelWork T, !TunnelLaws T} now remote r
    (m m' : TunnelManager T) :
  registry_ok m -> finalize_proxy_upgrade_success now remote r m = Some (true, m') ->
  registry_ok m' /\ upgrade_consistent remote m' /\ ms_upgrades (tm_state m') !! remote = None /\
  (forall e, registered m' remote e <-> registered m remote e /\ entry_proxy (tm_heap m) e = false) /\
  (forall e, registered m remote e -> entry_proxy (tm_heap m) e = true ->
     tn_is_closed (tm_heap m' (te_tunnel e)) = true) /\
  (forall e, registered m' remote e -> tm_heap m' (te_tunnel e) = tm_heap m (te_tunnel e)) /\
  (exists e, registered m' remote e /\ te_tunnel e = r /\ is_tunnel_available (tm_heap m' r) = true).
Proof.
  intros Hok Hf. split; [by eapply finalize_ok|]. revert Hf. unfold finalize_proxy_upgrade_success.
  case_match; [done|]. destruct (existsb _ _) eqn:El; simpl; [|by destruct (reconcile _ _ _)].
  intros [= <-]. apply existsb_exists in El as (e & He%list_elem_of_In & Hl). bool_to_prop.
  set (es := filter (fun e => negb _) _). set (proxies := te_tunnel <$> _). set (m1 := notify_if _ _).
  destruct (close_all_frame proxies m1) as (Htun & Hst & _ & _ & Hid & Hout).
  assert (entries_of remote (close_all_tunnels proxies m1) = es) as Hes
    by (unfold entries_of; rewrite Htun; simpl; by rewrite lookup_insert_eq).
  assert (forall e, registered (close_all_tunnels proxies m1) remote e <->
                    registered m remote e /\ entry_proxy (tm_heap m) e = false) as Hreg.
  { intros x. unfold registered. rewrite Hes. unfold es. rewrite list_elem_of_filter, Is_true_true, negb_true_iff. tauto. }
  assert (forall x, registered (close_all_tunnels proxies m1) remote x ->
            tm_heap (close_all_tunnels proxies m1) (te_tunnel x) = tm_heap m (te_tunnel x)) as Hheap.
  { intros x [Hx Hp]%Hreg. rewrite Hout; [done|]. unfold proxies. intros (y & Heq & [Hy _]%list_elem_of_filter)%list_elem_of_fmap.
    apply Is_true_true in Hy. unfold entry_proxy in *. rewrite Heq in Hp. congruence. }
  assert (registered (close_all_tunnels proxies m1) remote e) as Hre by (apply Hreg; done).
  assert (te_tunnel e = r) as <- by by apply Nat.eqb_eq.
  assert (ms_upgrades (tm_state (close_all_tunnels proxies m1)) !! remote = None) as Hnone
    by (rewrite Hst; simpl; by rewrite lookup_delete_eq).
  split_and!; try done.
  - apply consistent_direct; [done|]. rewrite Hes. apply existsb_exists. exists e.
    split; [by rewrite <-Hes; apply list_elem_of_In|]. unfold entry_proxy, entry_available in *.
    rewrite Hheap by done. by rewrite andb_true_iff, negb_true_iff.
  - intros x Hx Hp. apply close_all_closes. apply list_elem_of_fmap_2, list_elem_of_filter. by rewrite Hp.
  - exists e. split; [done|]. split; [done|]. by rewrite Hheap.
Qed.

(** ** A concrete tunnel: identity, state and the ledger of its channels *)
Record PlainTunnel := mkPlain {
  pt_tunnel_id : Z; pt_candidate_id : Z; pt_form : TunnelForm; pt_reverse : bool; pt_remote_id : P2pId;
  pt_state : TunnelState; pt_closed : bool; pt_activity : TunnelActivityState }.

#[global] Instance PlainTunnel_ops : TunnelOps PlainTunnel := {
  tn_tunnel_id := pt_tunnel_id; tn_candidate_id := pt_candidate_id; tn_form := pt_form;
  tn_is_reverse := pt_reverse; tn_remote_id := pt_remote_id; tn_state := pt_state; tn_is_closed := pt_closed;
  tn_business_at t := latest_business_activity_at (pt_activity t);
  tn_try_retire now d t :=
    let '(b, a) := try_retire_idle now d (pt_activity t) in
    (b, mkPlain (pt_tunnel_id t) (pt_candidate_id t) (pt_form t) (pt_reverse t) (pt_remote_id t)
          (pt_state t) (pt_closed t) a);
  tn_close t :=
    (Ok tt, mkPlain (pt_tunnel_id t) (pt_candidate_id t) (pt_form t) (pt_reverse t) (pt_remote_id t)
              StClosed true (retire (pt_activity t))) }.

#[global] Instance PlainTunnel_work : TunnelWork PlainTunnel := fun t =>
  negb (pending_open_count (pt_activity t) =? 0) || negb (work_instance_num (pt_activity t) =? 0).

(** A ledger with work is never retired. *)
Lemma try_retire_busy now d a :
  negb (pending_open_count a =? 0) || negb (work_instance_num a =? 0) = true -> try_retire_idle now d a = (false, a).
Proof.
  unfold try_retire_idle. intros [->| ->]%orb_true_iff; by rewrite ?orb_true_r.
Qed.

#[global] Instance PlainTunnel_laws : TunnelLaws PlainTunnel.
Proof.
  split.
  - intros now d [] Hb. simpl in *. by rewrite try_retire_busy.
  - intros now d []. simpl. by destruct (try_retire_idle _ _ _).
  - by intros [].
  - by intros [].
Qed.

Definition demo_peer : P2pId := mkP2pId [7].
Definition demo_open (form : TunnelForm) (candidate : Z) (st : TunnelState) (work : Z) (used : option Z) : PlainTunnel :=
  mkPlain 1 candidate form false demo_peer st false (mkActivity ActLive 0 work 0 used).
Definition demo_heap (r : nat) : PlainTunnel :=
  match r with
  | 0%nat => demo_open FormProxy 1 StConnected 0 None
  | 1%nat => demo_open FormActive 2 StConnected 1 (Some 5)
  | 2%nat => demo_open FormPassive 3 StConnected 0 (Some 9)
  | 3%nat => demo_open FormActive 4 StClosed 0 None
  | _ => demo_open FormActive 5 StConnected 0 None
  end.
Definition demo_manager (es : list TunnelEntry) : TunnelManager PlainTunnel :=
  mkManager (mkP2pId [1]) PROXY_UPGRADE_INITIAL_INTERVAL {[demo_peer := es]} (mkManagerState [] ∅ ∅ 0 ∅) demo_heap false [].
Definition demo_entries : list TunnelEntry :=
  [mkTunnelEntry 0 1 true; mkTunnelEntry 1 2 true; mkTunnelEntry 2 3 true; mkTunnelEntry 4 9 false].

Lemma demo_manager_ok : registry_ok (demo_manager demo_entries).
Proof.
  split.
  - intros remote es Hes. simpl in Hes. apply lookup_singleton_Some in Hes as [<- <-]. split; [done|]. split; [done| |].
    + by apply (bool_decide_unpack _); vm_compute.
    + by apply (Forall_forall (fun e => tn_remote_id (demo_heap (te_tunnel e)) = demo_peer)); repeat constructor.
  - split; [done|]. intros r u Hu. simpl in Hu. by rewrite lookup_empty in Hu.
  - intros r [u Hu]. simpl in Hu. by rewrite lookup_empty in Hu.
Qed.

(** Of three published tunnels the direct one with the latest traffic. *)
Lemma get_tunnel_spec_witness :
  ms_next_generation (tm_state (demo_manager demo_entries)) < u64_max /\
  exists m', get_tunnel 10 demo_peer (demo_manager demo_entries) = Some (Some 2%nat, m') /\
    entries_of demo_peer m' = demo_entries.
Proof.
  split; [done|]. destruct (get_tunnel_spec 10 demo_peer (demo_manager demo_entries)) as (res & m' & Hg & He & _);
    [done|]. exists m'. vm_compute in Hg. injection Hg as <- <-. split; [by vm_compute|]. by vm_compute.
Defined.

Lemma cleanup_spares_work_witness :
  exists m', cleanup_closed_tunnels (from_secs 999) (from_secs 60) (demo_manager demo_entries) = Some m' /\
    entries_of demo_peer m' = [mkTunnelEntry 1 2 true] /\ tm_heap m' 1%nat = demo_heap 1.
Proof.
  destruct (cleanup_closed_tunnels (from_secs 999) (from_secs 60) (demo_manager demo_entries)) as [m'|] eqn:E;
    [|by vm_compute in E].
  exists m'. split; [done|].
  pose proof (cleanup_spares_work _ _ _ _ demo_manager_ok E) as (_ & _ & _ & Hb).
  destruct (Hb demo_peer (mkTunnelEntry 1 2 true)) as [_ Hh]; [set_solver|done|done|].
  split; [|exact Hh]. vm_compute in E. injection E as <-. by vm_compute.
Defined.

Lemma finalize_replaces_proxies_witness :
  exists m', finalize_proxy_upgrade_success 10 demo_peer 2 (demo_manager demo_entries) = Some (true, m') /\
    tn_is_closed (tm_heap m' 0%nat) = true.
Proof.
  destruct (finalize_proxy_upgrade_success 10 demo_peer 2 (demo_manager demo_entries)) as [[b m']|] eqn:E;
    [|by vm_compute in E]. destruct b; [|by vm_compute in E]. exists m'. split; [done|].
  pose proof (finalize_replaces_proxies _ _ _ _ _ demo_manager_ok E) as (_ & _ & _ & _ & Hc & _).
  apply (Hc (mkTunnelEntry 0 1 true)); [set_solver|done].
Defined.
