(* ===== verification/ProxyUpgrade.v ===== *)
(** * The task that replaces relayed tunnels (tunnel/tunnel_manager.rs)

    The manager's background task sleeps until the next scheduled upgrade or a
    signal, then starts an attempt for every upgrade that is due; attempts run
    concurrently with everything else and report back with the generation they
    were started for.  [world_step] interleaves the registry's operations, the
    task and the ends of attempts; the theorems show that an attempt is never
    started twice, that the task never sleeps past a scheduled attempt, and how
    far apart retries are. *)

From stdpp Require Import functions.
From S2P Require Import Prelude.
From S2P Require Import Errors.
From S2P Require Import Ids.
From S2P Require Import TunnelActivity.
From S2P Require Import TunnelManager.

(** ** How operations change the schedule *)
Section schedule.
Context {T : Type} `{!TunnelOps T, !TunnelWork T, !TunnelLaws T}.
Implicit Types (m : TunnelManager T) (remote : P2pId).

Definition view m : ManagerState * bool := (tm_state m, tm_signal m).

Definition upg_step (x y : ManagerState * bool) : Prop :=
  exists remote now b, upgrade_change remote now (fst x) b (fst y) /\ snd y = b || snd x.

(** The registry's operations, each one atomic. *)
Inductive op_step : TunnelManager T -> TunnelManager T -> Prop :=
| op_has now remote id m b m' : has_available_tunnel_id now remote id m = Some (b, m') -> op_step m m'
| op_get now remote keep hidden m r m' :
    get_tunnel_with_filter now remote keep hidden m = Some (r, m') -> op_step m m'
| op_register now r m res m' : register_tunnel now r m = Some (res, m') -> op_step m m'
| op_publish now r m res m' : publish_registered_tunnel now r m = (res, m') -> op_step m m'
| op_close r m : op_step m (snd (close_tunnel r m))
| op_cleanup now d m m' : cleanup_closed_tunnels now d m = Some m' -> op_step m m'.

Lemma upg_once remote now m b s m' :
  upgrade_change remote now (tm_state m) b s -> view m' = (s, b || tm_signal m) -> rtc upg_step (view m) (view m').
Proof. intros Hc ->. apply rtc_once. by exists remote, now, b. Qed.

Lemma reconcile_view now remote m m' : reconcile now remote m = Some m' -> rtc upg_step (view m) (view m').
Proof. intros (b & s & -> & Hch & _)%reconcile_spec. by eapply upg_once. Qed.

Lemma prune_view remote m : view (prune remote m) = view m.
Proof. unfold view. destruct (prune_keeps remote m) as (_ & -> & -> & _). done. Qed.

Lemma close_all_view rs m : view (close_all_tunnels rs m) = view m.
Proof. unfold view. by destruct (close_all_frame rs m) as (_ & -> & -> & _). Qed.

Lemma close_view r m : view (snd (close_tunnel r m)) = view m.
Proof. apply (close_all_view [r]). Qed.

Lemma register_view now r m res m' :
  register_tunnel now r m = Some (res, m') -> rtc upg_step (view m) (view m').
Proof.
  unfold register_tunnel. case_match; [by intros [= <- <-]|]. case_match.
  - destruct (reconcile _ _ _) as [m1|] eqn:Hr; simpl; [|done]. intros [= <- <-].
    apply reconcile_view in Hr. case_match; [done|]. by rewrite close_view.
  - case_match; simpl.
    + intros [= <- <-]. by eapply upg_once; [apply (ch_remove _ now)|].
    + case_match.
      * destruct (insert_proxy_upgrade _ _ _) as [s|] eqn:Hi; simpl; [|done]. intros [= <- <-].
        eapply upg_once; [by apply insert_proxy_upgrade_change|done].
      * destruct (reconcile _ _ _) as [m1|] eqn:Hr; simpl; [|done]. intros [= <- <-].
        by apply reconcile_view in Hr.
Qed.

Lemma finalize_view now remote r m b m' :
  finalize_proxy_upgrade_success now remote r m = Some (b, m') -> rtc upg_step (view m) (view m').
Proof.
  unfold finalize_proxy_upgrade_success. case_match; [by intros [= <- <-]|]. case_match; simpl.
  - intros [= <- <-]. rewrite close_all_view. by eapply upg_once; [apply (ch_remove remote now)|].
  - destruct (reconcile _ _ _) as [m1|] eqn:Hr; simpl; [|done]. intros [= <- <-]. by apply reconcile_view in Hr.
Qed.

Lemma cleanup_peers_view now d ks removed m removed' m' :
  foldl (cleanup_peer now d) (Some (removed, m)) ks = Some (removed', m') -> rtc upg_step (view m) (view m').
Proof.
  revert removed m. induction ks as [|k ks IH]; intros removed m; [by intros [= <- <-]|].
  change (foldl ?f ?a (k :: ks)) with (foldl f (f a k) ks). unfold cleanup_peer at 2. simpl.
  destruct (foldl (cleanup_entry now d) _ _) as [[h es] removed1].
  destruct (reconcile_proxy_upgrade_state _ _ _ _ _) as [[b s]|] eqn:Hr; simpl; [|by rewrite cleanup_fold_none].
  intros Hf%IH. etrans; [|exact Hf]. apply reconcile_state_spec in Hr as [Hch _]. by eapply upg_once.
Qed.

Lemma op_step_view m m' : op_step m m' -> rtc upg_step (view m) (view m').
Proof.
  destruct 1 as [now remote id m b m' H|now remote keep hidden m r m' H|now r m res m' H|now r m res m' H|r m|now d m m' H].
  - unfold has_available_tunnel_id in H. destruct (reconcile _ _ _) as [m1|] eqn:Hr; simpl in H; [|done].
    injection H as <- <-. apply reconcile_view in Hr. by rewrite prune_view in Hr.
  - unfold get_tunnel_with_filter in H. destruct (reconcile _ _ _) as [m1|] eqn:Hr; simpl in H; [|done].
    injection H as <- <-. apply reconcile_view in Hr. by rewrite prune_view in Hr.
  - by eapply register_view.
  - unfold publish_registered_tunnel in H. repeat case_match; by injection H as <- <-.
  - by rewrite close_view.
  - unfold cleanup_closed_tunnels in H. destruct (foldl _ _ _) as [[removed m1]|] eqn:Hf; simpl in H; [|done].
    injection H as <-. rewrite close_all_view. by eapply cleanup_peers_view.
Qed.

Lemma op_step_ok m m' : op_step m m' -> registry_ok m -> registry_ok m'.
Proof.
  destruct 1 as [now remote id m b m' H|now remote keep hidden m r m' H|now r m res m' H|now r m res m' H|r m|now d m m' H];
    intros Hok.
  - unfold has_available_tunnel_id in H. destruct (reconcile _ _ _) as [m1|] eqn:Hr; simpl in H; [|done].
    injection H as <- <-. by eapply pruned_reconcile_ok.
  - unfold get_tunnel_with_filter in H. destruct (reconcile _ _ _) as [m1|] eqn:Hr; simpl in H; [|done].
    injection H as <- <-. by eapply pruned_reconcile_ok.
  - by eapply register_tunnel_ok.
  - by eapply publish_ok.
  - by apply close_tunnel_ok.
  - by eapply cleanup_registry_ok.
Qed.
End schedule.

(** ** Attempts and the task *)
Section world.
Context {T : Type} `{!TunnelOps T, !TunnelWork T, !TunnelLaws T}.
Implicit Types (m : TunnelManager T) (remote : P2pId).

(** The task computes its wait, sleeps (until the deadline, if there is one, or
    a signal), and starts what is due. *)
Inductive TaskPhase := Awake | Asleep (since : Z) (until : option Z).

Record world := mkWorld { w_manager : TunnelManager T; w_running : list (P2pId * Z); w_task : TaskPhase }.

(** [process_proxy_upgrade_attempts]. *)
Definition process_proxy_upgrade_attempts (now : Z) m : list (P2pId * Z) * TunnelManager T :=
  let '(due, s) := collect_due_proxy_upgrades now (tm_state m) in (due, set_mstate s m).

Definition clear_signal m : TunnelManager T :=
  mkManager (tm_local_id m) (tm_initial_interval m) (tm_tunnels m) (tm_state m) (tm_heap m) false (tm_log m).

Definition finished (a : P2pId * Z) (running : list (P2pId * Z)) : list (P2pId * Z) :=
  filter (fun x => x <> a) running.

Inductive world_step : world -> world -> Prop :=
| ws_tunnels m h' running task :
    (** tunnels connect, carry traffic and close on their own *)
    (forall remote es e, tm_tunnels m !! remote = Some es -> e ∈ es ->
       tn_identity (h' (te_tunnel e)) = tn_identity (tm_heap m (te_tunnel e))) ->
    world_step (mkWorld m running task) (mkWorld (set_heap h' m) running task)
| ws_op m m' running task : op_step m m' -> world_step (mkWorld m running task) (mkWorld m' running task)
| ws_sleep now m running :
    world_step (mkWorld m running Awake)
      (mkWorld m running (Asleep now (Z.add now <$> next_proxy_upgrade_wait now (tm_state m))))
| ws_timer now since d m m' running due :
    d <= now -> process_proxy_upgrade_attempts now m = (due, m') ->
    world_step (mkWorld m running (Asleep since (Some d))) (mkWorld m' (running ++ due) Awake)
| ws_signal now since until m m' running due :
    tm_signal m = true -> process_proxy_upgrade_attempts now (clear_signal m) = (due, m') ->
    world_step (mkWorld m running (Asleep since until)) (mkWorld m' (running ++ due) Awake)
| ws_stale m running task remote g :
    (remote, g) ∈ running -> attempt_current remote g m = false ->
    world_step (mkWorld m running task) (mkWorld m (finished (remote, g) running) task)
| ws_end now m m' running task remote g res :
    (remote, g) ∈ running -> attempt_end now remote g res m = Some m' ->
    world_step (mkWorld m running task) (mkWorld m' (finished (remote, g) running) task).

Definition world_reachable (local_id : P2pId) (initial : Duration) (heap : nat -> T) : world -> Prop :=
  rtc world_step (mkWorld (manager_new local_id initial heap) [] Awake).

(** What holds of the schedule, the running attempts and the task. *)
Record sched_inv (x : ManagerState * bool) (running : list (P2pId * Z)) (task : TaskPhase) : Prop := {
  si_generations : generations_ok (fst x);
  si_nodup : NoDup running;
  si_bound : forall remote g, (remote, g) ∈ running -> g <= ms_next_generation (fst x);
  si_running : forall remote g u, (remote, g) ∈ running -> ms_upgrades (fst x) !! remote = Some u ->
    pu_generation u = g -> pu_in_progress u = true;
  si_awake : forall since until remote u, task = Asleep since until -> ms_upgrades (fst x) !! remote = Some u ->
    pu_in_progress u = false ->
    snd x = true \/ exists d, until = Some d /\ d <= Z.max since (pu_next_attempt_at u) }.

Lemma sched_upg_step x y running task : upg_step x y -> sched_inv x running task -> sched_inv y running task.
Proof.
  intros (remote & now & b & Hc & Hs) [Hg Hn Hb Hr Ha]. split.
  - by eapply upgrade_change_generations.
  - done.
  - intros r g Hin. apply Hb in Hin. destruct Hc; simpl; lia.
  - intros r g u Hin Hu Hgen. pose proof (Hb _ _ Hin) as Hle. destruct Hc as [| |Hlt]; simpl in *.
    + by eapply Hr.
    + apply lookup_delete_Some in Hu as [_ Hu]. by eapply Hr.
    + apply lookup_insert_Some in Hu as [[<- <-]|[_ Hu]]; simpl in *; [lia|by eapply Hr].
  - intros since dl r u -> Hu Hp. rewrite Hs. destruct Hc as [| |Hlt]; simpl in *.
    + by eapply Ha.
    + apply lookup_delete_Some in Hu as [_ Hu]. destruct (Ha _ _ _ _ eq_refl Hu Hp) as [->|?]; [left; apply orb_true_r|by right].
    + by left.
Qed.

Lemma sched_rtc x y running task : rtc upg_step x y -> sched_inv x running task -> sched_inv y running task.
Proof. intros Hr Hi. eapply (rtc_preserves upg_step (fun x => sched_inv x running task)); eauto using sched_upg_step. Qed.

Lemma sched_finish x running task a : sched_inv x running task -> sched_inv x (finished a running) task.
Proof.
  intros [Hg Hn Hb Hr Ha]. split; try done.
  - by apply NoDup_filter.
  - intros r g [_ Hin]%list_elem_of_filter. by eapply Hb.
  - intros r g u [_ Hin]%list_elem_of_filter. by eapply Hr.
Qed.

Lemma due_elem now s remote g :
  (remote, g) ∈ due_upgrades now s <->
  exists u, ms_upgrades s !! remote = Some u /\ upgrade_due now u = true /\ pu_generation u = g.
Proof.
  unfold due_upgrades. rewrite list_elem_of_fmap. split.
  - intros ([r u] & [= -> ->] & [Hd Hu%elem_of_map_to_list]%list_elem_of_filter). exists u.
    apply Is_true_true in Hd. done.
  - intros (u & Hu & Hd & <-). exists (remote, u). split; [done|]. apply list_elem_of_filter.
    rewrite elem_of_map_to_list. by rewrite Is_true_true.
Qed.

Lemma due_nodup now s : NoDup (due_upgrades now s).
Proof.
  unfold due_upgrades. apply NoDup_fmap_2_strong.
  - intros [r1 u1] [r2 u2] [_ H1%elem_of_map_to_list]%list_elem_of_filter [_ H2%elem_of_map_to_list]%list_elem_of_filter.
    intros [= -> _]. by simplify_eq.
  - apply NoDup_filter, NoDup_map_to_list.
Qed.

Lemma sched_collect now s sig sig' running task due s' :
  collect_due_proxy_upgrades now s = (due, s') -> sched_inv (s, sig) running task ->
  sched_inv (s', sig') (running ++ due) Awake.
Proof.
  intros [= <- <-] [[H0 Hg] Hn Hb Hr Ha]. simpl in *.
  assert (forall r u', ((fun u => if upgrade_due now u then upgrade_start u else u) <$> ms_upgrades s) !! r = Some u' ->
            exists u, ms_upgrades s !! r = Some u /\ pu_generation u' = pu_generation u /\
              (upgrade_due now u = true \/ pu_in_progress u = true -> pu_in_progress u' = true)) as Hl.
  { intros r u' Hu'. rewrite lookup_fmap in Hu'. destruct (ms_upgrades s !! r) as [u|]; simplify_eq/=. exists u.
    destruct (upgrade_due now u); naive_solver. }
  split; simpl.
  - split; [done|]. intros r u' (u & Hu & -> & _)%Hl. by apply (Hg r).
  - apply NoDup_app. split; [done|]. split; [|apply due_nodup]. intros [r g] Hin (u & Hu & Hd & Hgen)%due_elem.
    assert (pu_in_progress u = true) by by eapply Hr. unfold upgrade_due in Hd. bool_to_prop. congruence.
  - intros r g [Hin|(u & Hu & _ & <-)%due_elem]%elem_of_app; [by eapply Hb|]. by apply (Hg r).
  - intros r g u' Hin (u & Hu & Hgen & Hp)%Hl Hg'. apply Hp.
    apply elem_of_app in Hin as [Hin|(u2 & Hu2 & Hd & Hg2)%due_elem]; simplify_eq; [right; by eapply Hr|by left].
  - done.
Qed.

Lemma next_wait_le now s remote u :
  ms_upgrades s !! remote = Some u -> pu_in_progress u = false ->
  exists d, next_proxy_upgrade_wait now s = Some d /\ now + d <= Z.max now (pu_next_attempt_at u).
Proof.
  intros Hu%elem_of_map_to_list Hp. unfold next_proxy_upgrade_wait.
  assert ((remote, u) ∈ filter (fun x => negb (pu_in_progress (snd x))) (map_to_list (ms_upgrades s))) as Hin
    by (apply list_elem_of_filter; simpl; by rewrite Hp).
  revert Hin. generalize (filter (fun x => negb (pu_in_progress (snd x))) (map_to_list (ms_upgrades s))).
  intros l. induction l as [|[r v] l IH]; intros Hin; [set_solver|]. cbn [foldr snd].
  apply elem_of_cons in Hin as [[= <- <-]|Hin].
  - destruct (foldr _ None l); eexists; (split; [done|]); lia.
  - destruct (IH Hin) as (d & -> & Hd). eexists. split; [done|]. lia.
Qed.

Lemma sched_sleep now x running :
  sched_inv x running Awake ->
  sched_inv x running (Asleep now (Z.add now <$> next_proxy_upgrade_wait now (fst x))).
Proof.
  intros [Hg Hn Hb Hr _]. split; try done. intros since dl r u [= <- <-] Hu Hp. right.
  destruct (next_wait_le now _ _ _ Hu Hp) as (d & -> & Hd). by exists (now + d).
Qed.

Lemma sched_failed initial now remote g s sig running task d s' :
  upgrade_failed_generation initial now remote g s = (d, s') -> (remote, g) ∈ running ->
  sched_inv (s, sig) running task ->
  sched_inv (s', bool_decide (is_Some d) || sig) (finished (remote, g) running) task.
Proof.
  unfold upgrade_failed_generation. intros Hf Hin Hi.
  destruct (ms_upgrades s !! remote) as [u|] eqn:Hu; [|injection Hf as <- <-; by apply sched_finish].
  destruct (Z.eqb_spec (pu_generation u) g) as [Hgen|Hgen]; simpl in Hf;
    [|injection Hf as <- <-; by apply sched_finish].
  injection Hf as <- <-. rewrite bool_decide_true by done. apply (sched_finish _ _ _ (remote, g)) in Hi as Hi'.
  destruct Hi as [[H0 Hg] Hn Hb Hr Ha], Hi' as [_ Hn' Hb' Hr' _]. simpl in *.
  set (u' := mkUpgrade _ _ _ _ _).
  assert (pu_generation u' = g) as Hu' by (unfold u', advance_proxy_upgrade_retry; simpl; by repeat case_match).
  split; simpl; [|done|done| |by left].
  - split; [done|]. simpl. intros r v [[<- <-]|[_ Hv]]%lookup_insert_Some; [rewrite Hu', <-Hgen; by apply (Hg remote)|by apply (Hg r)].
  - intros r g' v Hin' [[<- <-]|[_ Hv]]%lookup_insert_Some Hgv; [|by eapply Hr'].
    apply list_elem_of_filter in Hin' as [Hne _]. congruence.
Qed.

Definition world_inv (w : world) : Prop :=
  registry_ok (w_manager w) /\ sched_inv (view (w_manager w)) (w_running w) (w_task w).

(** Nothing outside the schedule matters for the registry's invariant. *)
Lemma registry_ok_schedule m s sig :
  registry_ok m -> generations_ok s -> (forall r, is_Some (ms_upgrades s !! r) -> is_Some (ms_upgrades (tm_state m) !! r)) ->
  registry_ok (mkManager (tm_local_id m) (tm_initial_interval m) (tm_tunnels m) s (tm_heap m) sig (tm_log m)).
Proof. intros [Ht Hg Hk] Hg' Hs. split; [done|done|]. simpl. intros r Hr. by apply Hk, Hs. Qed.

Lemma collect_ok now m sig :
  registry_ok m -> registry_ok (mkManager (tm_local_id m) (tm_initial_interval m) (tm_tunnels m)
    (snd (collect_due_proxy_upgrades now (tm_state m))) (tm_heap m) sig (tm_log m)).
Proof.
  intros Hok. pose proof (ok_generations _ Hok) as [H0 Hg]. apply registry_ok_schedule; [done| |]; simpl.
  - split; [done|]. simpl. intros r u'. rewrite lookup_fmap. destruct (ms_upgrades _ !! r) as [u|] eqn:E; [|done].
    intros [= <-]. apply Hg in E. by case_match.
  - intros r. by rewrite lookup_fmap, fmap_is_Some.
Qed.

Lemma failed_ok now remote g m : registry_ok m -> registry_ok (snd (on_proxy_upgrade_failed_generation now remote g m)).
Proof.
  intros Hok. unfold on_proxy_upgrade_failed_generation, upgrade_failed_generation.
  pose proof (ok_generations _ Hok) as [H0 Hg].
  destruct (ms_upgrades (tm_state m) !! remote) as [u|] eqn:Hu; [|by destruct Hok; split].
  destruct (negb _); [by destruct Hok; split|]. simpl. apply (registry_ok_schedule m); [done| |]; simpl.
  - split; [done|]. simpl. intros r v [[<- <-]|[_ Hv]]%lookup_insert_Some; [|by apply (Hg r)].
    apply Hg in Hu. unfold advance_proxy_upgrade_retry. by repeat case_match.
  - intros r [v [[<- _]|[_ Hv]]%lookup_insert_Some]; [by rewrite Hu|by rewrite Hv].
Qed.

Lemma world_step_inv w w' : world_step w w' -> world_inv w -> world_inv w'.
Proof.
  destruct 1 as [m h' running task Hid|m m' running task Hop|now m running|now since d m m' running due Hd Hp
    |now since dl m m' running due Hsig Hp|m running task remote g Hin Hc|now m m' running task remote g res Hin He];
    intros [Hok Hi]; simpl in *.
  - split; [by apply registry_ok_heap|done].
  - split; [by eapply op_step_ok|]. simpl. eapply sched_rtc; [by apply op_step_view|done].
  - split; [done|]. by apply sched_sleep.
  - unfold process_proxy_upgrade_attempts in Hp. pose proof (collect_ok now m (tm_signal m) Hok) as Hc.
    injection Hp as <- <-. split; [done|]. eapply sched_collect; [reflexivity|exact Hi].
  - unfold process_proxy_upgrade_attempts in Hp. pose proof (collect_ok now m false Hok) as Hc.
    injection Hp as <- <-. split; [done|]. eapply sched_collect; [reflexivity|exact Hi].
  - split; [done|]. by apply sched_finish.
  - destruct res as [r|e]; simpl in He.
    + destruct (finalize_proxy_upgrade_success now remote r m) as [[b m1]|] eqn:Hf; simpl in He; [|done].
      injection He as <-. split; [by eapply finalize_ok|]. apply sched_finish. eapply sched_rtc; [|done].
      by eapply finalize_view.
    + injection He as <-. split; [by apply failed_ok|]. unfold on_proxy_upgrade_failed_generation, view. simpl.
      destruct (upgrade_failed_generation _ _ _ _ _) as [d s'] eqn:Hf. simpl. by eapply sched_failed.
Qed.

Lemma world_reachable_inv local_id initial heap w : world_reachable local_id initial heap w -> world_inv w.
Proof.
  intros Hr. eapply (rtc_preserves world_step world_inv); [apply world_step_inv|exact Hr|].
  split.
  - split.
    + intros r es Hes. simpl in Hes. by rewrite lookup_empty in Hes.
    + split; [done|]. intros r u Hu. simpl in Hu. by rewrite lookup_empty in Hu.
    + intros r [u Hu]. simpl in Hu. by rewrite lookup_empty in Hu.
  - split; simpl; [|constructor|set_solver|set_solver|done].
    split; [done|]. intros r u Hu. simpl in Hu. by rewrite lookup_empty in Hu.
Qed.
End world.
Arguments world : clear implicits.

(** Attempts: however registry operations, housekeeping, the task and the
    ends of attempts interleave, no attempt runs twice at a time, and while an
    attempt of a peer's current schedule runs the schedule never calls for it
    again. *)
Theorem upgrade_attempts_unique {T} `{!TunnelOps T, !TunnelWork T, !TunnelLaws T} local_id initial heap (w : world T) :
  world_reachable local_id initial heap w ->
  registry_ok (w_manager w) /\ NoDup (w_running w) /\
  forall remote g u now, (remote, g) ∈ w_running w ->
    ms_upgrades (tm_state (w_manager w)) !! remote = Some u -> pu_generation u = g ->
    (remote, g) ∉ due_upgrades now (tm_state (w_manager w)).
Proof.
  intros [Hok Hi]%world_reachable_inv. split; [done|]. split; [apply Hi|].
  intros remote g u now Hin Hu Hg (v & Hv & Hd & _)%due_elem.
  assert (v = u) as -> by congruence.
  assert (pu_in_progress u = true) by by eapply (si_running _ _ _ Hi). unfold upgrade_due in Hd. bool_to_prop. congruence.
Qed.

(** No lost wake-up: while the task sleeps, every scheduled attempt that
    is not running has its signal pending or lies at or after the task's
    deadline (an attempt already overdue when the task went to sleep at [since]
    is bounded by [since]: the task sleeps for no time at all). *)
Theorem upgrade_task_never_oversleeps {T} `{!TunnelOps T, !TunnelWork T, !TunnelLaws T} local_id initial heap
    (w : world T) since until remote u :
  world_reachable local_id initial heap w -> w_task w = Asleep since until ->
  ms_upgrades (tm_state (w_manager w)) !! remote = Some u -> pu_in_progress u = false ->
  tm_signal (w_manager w) = true \/ exists d, until = Some d /\ d <= Z.max since (pu_next_attempt_at u).
Proof. intros [Hok Hi]%world_reachable_inv Ht Hu Hp. by eapply (si_awake _ _ _ Hi). Qed.

(** ** Back-off *)
Definition fail_at (initial : Duration) (remote : P2pId) (g : Z) (s : ManagerState) (now : Z) : ManagerState :=
  snd (upgrade_failed_generation initial now remote g s).

(** The wait after [n] failures: the short intervals, the configured one, then
    doubling up to the maximum. *)
Definition backoff (initial : Duration) (n : nat) : Duration :=
  if (n <? 4)%nat then nth n PROXY_UPGRADE_SHORT_INTERVALS 0
  else if (n =? 4)%nat then initial
  else Z.min (initial * 2 ^ (Z.of_nat n - 4)) PROXY_UPGRADE_MAX_INTERVAL.

Lemma advance_backoff initial n u :
  0 <= initial -> pu_retry_interval u = backoff initial n -> pu_short_retry_index u = Nat.min n 4 ->
  pu_retry_interval (advance_proxy_upgrade_retry initial u) = backoff initial (S n) /\
  pu_short_retry_index (advance_proxy_upgrade_retry initial u) = Nat.min (S n) 4.
Proof.
  intros Hi Hb Hx. unfold advance_proxy_upgrade_retry. rewrite Hx.
  do 4 (destruct n as [|n]; [done|]). replace (Nat.min (S (S (S (S n)))) 4) with 4%nat by lia.
  replace (Nat.min (S (S (S (S (S n))))) 4) with 4%nat by lia.
  cbn [length PROXY_UPGRADE_SHORT_INTERVALS Nat.ltb Nat.leb Nat.eqb pu_retry_interval pu_short_retry_index].
  split; [|done]. rewrite Hb. unfold backoff, duration_saturating_mul, DURATION_MAX, PROXY_UPGRADE_MAX_INTERVAL, from_secs, u64_max.
  rewrite !(proj2 (Nat.ltb_ge _ 4)) by lia. rewrite (proj2 (Nat.eqb_neq (S (S (S (S (S n))))) 4)) by lia.
  replace (Z.of_nat (S (S (S (S (S n))))) - 4) with (Z.succ (Z.of_nat n)) by lia.
  rewrite Z.pow_succ_r by lia. destruct n as [|n]; [simpl; lia|].
  rewrite (proj2 (Nat.eqb_neq _ 4)) by lia. replace (Z.of_nat (S (S (S (S (S n))))) - 4) with (Z.of_nat (S n)) by lia.
  pose proof (Z.pow_nonneg 2 (Z.of_nat (S n)) ltac:(lia)).
  assert (0 <= initial * 2 ^ Z.of_nat (S n)) by nia. lia.
Qed.

(** Back-off: after [n] consecutive failures of an attempt the peer's next
    one is scheduled [backoff n] after the last failure: 30, 60 and 120 seconds,
    then the configured interval, which then doubles up to two hours. *)
Theorem upgrade_backoff initial remote g start s times :
  0 <= initial -> ms_upgrades s !! remote = Some (upgrade_new g start) ->
  exists u, ms_upgrades (foldl (fail_at initial remote g) s times) !! remote = Some u /\
    pu_generation u = g /\ pu_in_progress u = false /\
    pu_retry_interval u = backoff initial (length times) /\
    pu_next_attempt_at u = default start (last times) + backoff initial (length times).
Proof.
  intros Hi Hs.
  enough (exists u, ms_upgrades (foldl (fail_at initial remote g) s times) !! remote = Some u /\
    (pu_generation u = g /\ pu_in_progress u = false /\ pu_retry_interval u = backoff initial (length times) /\
     pu_next_attempt_at u = default start (last times) + backoff initial (length times)) /\
    pu_short_retry_index u = Nat.min (length times) 4) as (u & Hu & Hall & _) by (by exists u).
  induction times as [|t times IH] using rev_ind; [by exists (upgrade_new g start)|].
  rewrite foldl_app, length_app, last_snoc. simpl. destruct IH as (u & Hu & (Hg & Hp & Hb & _) & Hx).
  destruct (advance_backoff initial _ u Hi Hb Hx) as [Hb' Hx'].
  unfold fail_at at 1, upgrade_failed_generation. rewrite Hu, Hg, Z.eqb_refl. simpl.
  rewrite lookup_insert_eq. eexists. split; [done|]. simpl.
  replace (length times + 1)%nat with (S (length times)) by lia. rewrite Hb', Hx'. split; [|done].
  split; [|done]. unfold advance_proxy_upgrade_retry. by repeat case_match.
Qed.

Lemma upgrade_backoff_witness :
  exists u, ms_upgrades (foldl (fail_at (from_secs 300) demo_peer 1)
      (mkManagerState [] ∅ {[demo_peer := upgrade_new 1 0]} 1 ∅)
      (from_secs <$> [16; 50; 120; 250; 600; 1300])) !! demo_peer = Some u /\
    pu_next_attempt_at u = from_secs 1300 + from_secs 1200.
Proof.
  destruct (upgrade_backoff (from_secs 300) demo_peer 1 0 (mkManagerState [] ∅ {[demo_peer := upgrade_new 1 0]} 1 ∅)
    (from_secs <$> [16; 50; 120; 250; 600; 1300])) as (u & Hu & _ & _ & _ & Hn); [done|done|].
  exists u. split; [exact Hu|]. rewrite Hn. by vm_compute.
Defined.

(** ** Concrete runs *)
Definition demo_start : TunnelManager PlainTunnel := manager_new (mkP2pId [1]) PROXY_UPGRADE_INITIAL_INTERVAL demo_heap.
Definition demo_register (now : Z) (r : nat) (m : TunnelManager PlainTunnel) : TunnelManager PlainTunnel :=
  default m (snd <$> register_tunnel now r m).
Definition demo_reachable := world_reachable (mkP2pId [1]) PROXY_UPGRADE_INITIAL_INTERVAL demo_heap.

(** A relayed tunnel is registered and published and the task goes to sleep. *)
Definition demo_scheduled : TunnelManager PlainTunnel :=
  snd (publish_registered_tunnel 0 0 (demo_register 0 0 demo_start)).
Definition demo_sleep : world PlainTunnel :=
  mkWorld demo_scheduled [] (Asleep 1 (Some (from_secs 15))).

Lemma demo_sleep_reachable : demo_reachable demo_sleep.
Proof.
  eapply rtc_l; [eapply ws_op, (op_register 0 0); by vm_compute|].
  eapply rtc_l; [eapply ws_op, (op_publish 0 0); by vm_compute|].
  eapply rtc_l; [apply (ws_sleep 1)|]. apply reflexive_eq. by vm_compute.
Qed.

Lemma upgrade_task_never_oversleeps_witness :
  exists u, ms_upgrades (tm_state demo_scheduled) !! demo_peer = Some u /\ pu_in_progress u = false /\
    (tm_signal demo_scheduled = true \/ exists d, Some (from_secs 15) = Some d /\ d <= Z.max 1 (pu_next_attempt_at u)).
Proof.
  exists (upgrade_new 1 0). split; [by vm_compute|]. split; [done|].
  eapply (upgrade_task_never_oversleeps _ _ _ _ _ _ demo_peer _ demo_sleep_reachable); [done|by vm_compute|done].
Defined.

(** Fifteen seconds later the attempt runs. *)
Definition demo_attempt : world PlainTunnel :=
  mkWorld (snd (process_proxy_upgrade_attempts (from_secs 15) demo_scheduled))
    ([] ++ fst (process_proxy_upgrade_attempts (from_secs 15) demo_scheduled)) Awake.

Lemma demo_attempt_reachable : demo_reachable demo_attempt.
Proof.
  eapply rtc_r; [exact demo_sleep_reachable|].
  apply (ws_timer (from_secs 15) 1 (from_secs 15) demo_scheduled _ [] _); [done|]. by vm_compute.
Qed.

Lemma upgrade_attempts_unique_witness :
  w_running demo_attempt = [(demo_peer, 1)] /\ NoDup (w_running demo_attempt) /\
  (demo_peer, 1) ∉ due_upgrades (from_secs 99) (tm_state (w_manager demo_attempt)).
Proof.
  destruct (upgrade_attempts_unique _ _ _ _ demo_attempt_reachable) as (_ & Hn & Hd).
  split; [by vm_compute|]. split; [exact Hn|]. eapply Hd; [by vm_compute; left|by vm_compute|by vm_compute].
Defined.

(** A direct tunnel that is closed by its peer before it gets registered ends
    the attempt without success and without a failure: nothing runs any more,
    but the schedule still counts the attempt as running, so that it never
    calls for another one although only the relayed tunnel is left. *)
Definition demo_stuck : world PlainTunnel :=
  mkWorld (default demo_start (attempt_end (from_secs 17) demo_peer 1 (Ok 3%nat)
                                 (demo_register (from_secs 16) 3 (w_manager demo_attempt))))
    (finished (demo_peer, 1) (w_running demo_attempt)) Awake.

Lemma upgrade_stuck_reachable : demo_reachable demo_stuck.
Proof.
  apply (rtc_r _ (mkWorld (demo_register (from_secs 16) 3 (w_manager demo_attempt)) (w_running demo_attempt) Awake)).
  - eapply rtc_r; [exact demo_attempt_reachable|].
    apply (ws_op (w_manager demo_attempt)), (op_register (from_secs 16) 3 _ (Ok tt)). by vm_compute.
  - apply (ws_end (from_secs 17) _ _ _ _ demo_peer 1 (Ok 3%nat)); [by vm_compute; left|by vm_compute].
Qed.

Lemma upgrade_stuck :
  demo_reachable demo_stuck /\ w_running demo_stuck = [] /\
  only_relayed (tm_heap (w_manager demo_stuck)) (live_entries demo_peer (w_manager demo_stuck)) /\
  (forall now, due_upgrades now (tm_state (w_manager demo_stuck)) = []) /\
  (forall now, next_proxy_upgrade_wait now (tm_state (w_manager demo_stuck)) = None).
Proof.
  split; [exact upgrade_stuck_reachable|]. split; [by vm_compute|]. split; [|by split; intros now; vm_compute].
  split; [by vm_compute|]. by vm_compute; repeat constructor.
Qed.
