(* ===== verification/RendezvousOwner.v ===== *)
(** * Ownership of rendezvous attempts (tunnel/tunnel_manager.rs)

    For each remote peer a manager works on at most one rendezvous attempt, its
    own or the peer's.  When both peers start one at the same time, both must
    keep the same one; the callers that wait for the losing attempt then wait
    for the winner.  A caller waits on a oneshot channel ([ro_completions]); an
    attempt that expects the peer to connect publishes a waiter for the incoming
    tunnel under its token.  What happens to channels, tasks and flags is
    recorded in [tm_log]. *)

From S2P Require Import Prelude.
From S2P Require Import Errors.
From S2P Require Import Ids.
From S2P Require Import TunnelManager.

Section owners.
Context {T : Type} `{!TunnelOps T}.
Implicit Types (m : TunnelManager T) (remote : P2pId) (o : RendezvousAttemptOwner).

Definition emit_all (es : list Event) (m : TunnelManager T) : TunnelManager T :=
  mkManager (tm_local_id m) (tm_initial_interval m) (tm_tunnels m) (tm_state m) (tm_heap m) (tm_signal m)
    (tm_log m ++ es).

(** [RendezvousWinnerCompletion::cancelled]. *)
Definition cancelled : P2pResult nat := Err P2pErrorCode.UserCanceled.

Definition answer_completions (r : P2pResult nat) (ws : list nat) : list Event := (fun w => Completed w r) <$> ws.

Definition remove_owner_waiter (remote : P2pId) (o : RendezvousAttemptOwner) (s : ManagerState) : ManagerState :=
  match ro_expected_reverse o with
  | Some expected_reverse =>
      snd (remove_incoming_waiter remote (ro_tunnel_id o) expected_reverse (ro_token o) s)
  | None => s
  end.

Definition abort_rendezvous_owner (remote : P2pId) (o : RendezvousAttemptOwner) (m : TunnelManager T)
  : TunnelManager T :=
  emit_all ([Cancelled (ro_cancel o)] ++ (match ro_task o with Some t => [TaskAborted t] | None => [] end)
              ++ answer_completions cancelled (ro_completions o))
    (set_mstate (remove_owner_waiter remote o (tm_state m)) m).

Definition publish_rendezvous_waiter (remote : P2pId) (o : RendezvousAttemptOwner) (waiter : option nat)
    (s : ManagerState) : ManagerState :=
  match ro_expected_reverse o, waiter with
  | Some expected_reverse, Some w =>
      add_incoming_waiter remote (ro_tunnel_id o) expected_reverse (ro_token o) w s
  | _, _ => s
  end.

Definition same_attempt (a b : RendezvousAttemptOwner) : bool :=
  eqb (ro_initiator_local a) (ro_initiator_local b) && (ro_seq a =? ro_seq b) && (ro_tunnel_id a =? ro_tunnel_id b).

(** [local_identity.get_id().as_slice() < remote_id.as_slice()], and who wins. *)
Definition id_lt (a b : P2pId) : bool := match P2pId_cmp a b with Lt => true | _ => false end.
Definition new_attempt_wins (local_id remote : P2pId) (o : RendezvousAttemptOwner) : bool :=
  if ro_initiator_local o then id_lt local_id remote else negb (id_lt local_id remote).

Definition with_completions (ws : list nat) (o : RendezvousAttemptOwner) : RendezvousAttemptOwner :=
  mkOwner (ro_seq o) (ro_initiator_local o) (ro_cancel o) (ro_task o) (ro_expected_reverse o) (ro_tunnel_id o)
    (ro_yielded o) ws (ro_token o).

Definition put_attempt (remote : P2pId) (o : RendezvousAttemptOwner) (s : ManagerState) : ManagerState :=
  set_attempts (<[remote := o]> (ms_attempts s)) s.

Definition install_rendezvous_owner (remote : P2pId) (o : RendezvousAttemptOwner) (waiter : option nat)
    (m : TunnelManager T) : P2pResult unit * TunnelManager T :=
  let s := tm_state m in
  match ms_attempts s !! remote with
  | None => (Ok tt, set_mstate (put_attempt remote o (publish_rendezvous_waiter remote o waiter s)) m)
  | Some existing =>
      if same_attempt existing o then (Err P2pErrorCode.AlreadyExists, m)
      else if negb (new_attempt_wins (tm_local_id m) remote o) then
        if ro_initiator_local o && negb (ro_initiator_local existing) then
          let existing' := with_completions (ro_completions existing ++ ro_completions o) existing in
          (Ok tt, emit_all [Yielded (ro_yielded o); Cancelled (ro_cancel o)]
                    (set_mstate (put_attempt remote existing' s) m))
        else (Err P2pErrorCode.Conflict, m)
      else
        let yields := ro_initiator_local existing && negb (ro_initiator_local o) in
        let owner := if yields then with_completions (ro_completions o ++ ro_completions existing) o else o in
        let displaced := if yields then with_completions [] existing else existing in
        let s1 := remove_owner_waiter remote displaced s in
        let s2 := put_attempt remote owner (publish_rendezvous_waiter remote owner waiter s1) in
        let m1 := (if yields then emit_all [Yielded (ro_yielded existing)] else id) (set_mstate s2 m) in
        (Ok tt, abort_rendezvous_owner remote displaced m1)
  end.

Definition owner_is (seq tunnel_id : Z) (token : nat) (o : RendezvousAttemptOwner) : bool :=
  (ro_seq o =? seq) && (ro_tunnel_id o =? tunnel_id) && (ro_token o =? token)%nat.

Definition with_task (t : nat) (o : RendezvousAttemptOwner) : RendezvousAttemptOwner :=
  mkOwner (ro_seq o) (ro_initiator_local o) (ro_cancel o) (Some t) (ro_expected_reverse o) (ro_tunnel_id o)
    (ro_yielded o) (ro_completions o) (ro_token o).

Definition attach_rendezvous_task (remote : P2pId) (seq tunnel_id : Z) (token task start : nat)
    (m : TunnelManager T) : bool * TunnelManager T :=
  match ms_attempts (tm_state m) !! remote with
  | Some o =>
      if owner_is seq tunnel_id token o
      then (true, emit_all [TaskStarted start] (set_mstate (put_attempt remote (with_task task o) (tm_state m)) m))
      else (false, emit_all [TaskAborted task] m)
  | None => (false, emit_all [TaskAborted task] m)
  end.

(** The owner an attempt still is, taken out of its slot with its waiter. *)
Definition take_owner (remote : P2pId) (seq tunnel_id : Z) (token : nat) (s : ManagerState)
  : option RendezvousAttemptOwner * ManagerState :=
  match ms_attempts s !! remote with
  | Some o =>
      if owner_is seq tunnel_id token o
      then (Some o, remove_owner_waiter remote o (set_attempts (delete remote (ms_attempts s)) s))
      else (None, s)
  | None => (None, s)
  end.

Definition complete_rendezvous_owner (remote : P2pId) (seq tunnel_id : Z) (token : nat) (r : P2pResult nat)
    (m : TunnelManager T) : TunnelManager T :=
  match take_owner remote seq tunnel_id token (tm_state m) with
  | (Some o, s) => emit_all (answer_completions r (ro_completions o)) (set_mstate s m)
  | (None, s) => m
  end.

Definition cancel_rendezvous_owner (remote : P2pId) (seq tunnel_id : Z) (token : nat) (m : TunnelManager T)
  : TunnelManager T :=
  match take_owner remote seq tunnel_id token (tm_state m) with
  | (Some o, s) => abort_rendezvous_owner remote o (set_mstate s m)
  | (None, s) => m
  end.

(** [Drop for TunnelManager]: every attempt is aborted, every tunnel closed. *)
Definition drop_manager (m : TunnelManager T) : TunnelManager T :=
  let owners := map_to_list (ms_attempts (tm_state m)) in
  let tunnels := concat (map (fun x : P2pId * list TunnelEntry => map te_tunnel (snd x)) (map_to_list (tm_tunnels m))) in
  let m1 := set_tunnels ∅ (set_mstate (set_attempts ∅ (tm_state m)) m) in
  let m2 := foldl (fun m x => abort_rendezvous_owner (fst x) (snd x) m) m1 owners in
  close_all_tunnels tunnels m2.

(** ** Collisions *)

Definition attempt_of (remote : P2pId) m : option (Z * Z) :=
  (fun o => (ro_seq o, ro_tunnel_id o)) <$> ms_attempts (tm_state m) !! remote.
Definition waiting_on (remote : P2pId) m : list nat :=
  default [] (ro_completions <$> ms_attempts (tm_state m) !! remote).

(** Two attempts installed one after the other. *)
Definition install_both (remote : P2pId) o1 w1 o2 w2 m : TunnelManager T :=
  snd (install_rendezvous_owner remote o2 w2 (snd (install_rendezvous_owner remote o1 w1 m))).

Definition local_first (order : bool) (remote : P2pId) own w1 theirs w2 m : TunnelManager T :=
  if order then install_both remote own w1 theirs w2 m else install_both remote theirs w2 own w1 m.

Lemma put_attempt_lookup remote o s : ms_attempts (put_attempt remote o s) !! remote = Some o.
Proof. simpl. by rewrite lookup_insert_eq. Qed.

Lemma publish_attempts remote o w s : ms_attempts (publish_rendezvous_waiter remote o w s) = ms_attempts s.
Proof. unfold publish_rendezvous_waiter. by repeat case_match. Qed.

Lemma remove_owner_attempts remote o s : ms_attempts (remove_owner_waiter remote o s) = ms_attempts s.
Proof. unfold remove_owner_waiter, remove_incoming_waiter. by repeat case_match. Qed.

(** Which of an own and a peer's attempt a manager ends up with. *)
Ltac both_orders order Hn Hown Htheirs :=
  unfold local_first, install_both; destruct order; unfold install_rendezvous_owner at 2; rewrite Hn; simpl;
  unfold install_rendezvous_owner; simpl; rewrite lookup_insert_eq;
  unfold same_attempt, new_attempt_wins; rewrite Hown, Htheirs; simpl;
  destruct (id_lt _ _); simpl.

Lemma collision_slot order remote own w1 theirs w2 m :
  ms_attempts (tm_state m) !! remote = None -> ro_initiator_local own = true -> ro_initiator_local theirs = false ->
  let winner := if id_lt (tm_local_id m) remote then own else theirs in
  exists ws, ms_attempts (tm_state (local_first order remote own w1 theirs w2 m)) !! remote =
               Some (with_completions ws winner) /\
    forall w, w ∈ ro_completions own -> w ∈ ws.
Proof.
  intros Hn Hown Htheirs. both_orders order Hn Hown Htheirs;
    rewrite ?remove_owner_attempts; simpl; rewrite lookup_insert_eq;
    first [by eexists; split; [reflexivity|set_solver] | by exists (ro_completions own); destruct own].
Qed.

Lemma collision_yield order remote own w1 theirs w2 m :
  ms_attempts (tm_state m) !! remote = None -> ro_initiator_local own = true -> ro_initiator_local theirs = false ->
  id_lt (tm_local_id m) remote = false ->
  Yielded (ro_yielded own) ∈ tm_log (local_first order remote own w1 theirs w2 m).
Proof. intros Hn Hown Htheirs Hlt. both_orders order Hn Hown Htheirs; try done; set_solver. Qed.

Lemma id_lt_asym a b : a <> b -> id_lt b a = negb (id_lt a b).
Proof.
  intros Hne. unfold id_lt. rewrite (cmp_opp P2pId_cmp a b).
  destruct (P2pId_cmp a b) eqn:E; simpl; [|done|done]. by apply (cmp_eq P2pId_cmp) in E.
Qed.
End owners.

(** C11: collisions: two peers that start a rendezvous with each other at the
    same time, and each see the other's attempt before or after their own, end
    up working on the same attempt, the one started by the peer with the smaller
    identifier; callers waiting for the losing attempt are told that it yielded
    and wait for the winner instead. *)
Theorem rendezvous_collision_agrees {T} `{!TunnelOps T} (A B : TunnelManager T)
    (orderA orderB : bool) ownA theirsA ownB theirsB wA1 wA2 wB1 wB2 :
  let a := tm_local_id A in let b := tm_local_id B in
  a <> b ->
  ms_attempts (tm_state A) !! b = None -> ms_attempts (tm_state B) !! a = None ->
  ro_initiator_local ownA = true -> ro_initiator_local ownB = true ->
  ro_initiator_local theirsA = false -> ro_initiator_local theirsB = false ->
  (ro_seq theirsA, ro_tunnel_id theirsA) = (ro_seq ownB, ro_tunnel_id ownB) ->
  (ro_seq theirsB, ro_tunnel_id theirsB) = (ro_seq ownA, ro_tunnel_id ownA) ->
  let A' := local_first orderA b ownA wA1 theirsA wA2 A in
  let B' := local_first orderB a ownB wB1 theirsB wB2 B in
  attempt_of b A' = attempt_of a B' /\
  attempt_of b A' = Some (if id_lt a b then (ro_seq ownA, ro_tunnel_id ownA) else (ro_seq ownB, ro_tunnel_id ownB)) /\
  (forall w, w ∈ ro_completions ownA -> w ∈ waiting_on b A') /\
  (forall w, w ∈ ro_completions ownB -> w ∈ waiting_on a B') /\
  (if id_lt a b then Yielded (ro_yielded ownB) ∈ tm_log B' else Yielded (ro_yielded ownA) ∈ tm_log A').
Proof.
  intros a b Hne HA HB Ho1 Ho2 Ht1 Ht2 HsA HsB A' B'.
  destruct (collision_slot orderA b ownA wA1 theirsA wA2 A HA Ho1 Ht1) as (wsA & HA1 & HA2).
  destruct (collision_slot orderB a ownB wB1 theirsB wB2 B HB Ho2 Ht2) as (wsB & HB1 & HB2).
  pose proof (collision_yield orderA b ownA wA1 theirsA wA2 A HA Ho1 Ht1) as HA3.
  pose proof (collision_yield orderB a ownB wB1 theirsB wB2 B HB Ho2 Ht2) as HB3.
  fold A' in HA1, HA3. fold B' in HB1, HB3. fold a b in HA1, HB1, HA3, HB3.
  rewrite (id_lt_asym a b Hne) in HB1, HB3. unfold attempt_of, waiting_on. rewrite HA1, HB1. simpl.
  destruct (id_lt a b); simpl in *; (split; [congruence|]); (split; [congruence|]); auto.
Qed.

(** ** Who waits, who was answered *)
Section conservation.
Context {T : Type} `{!TunnelOps T}.
Implicit Types (m : TunnelManager T) (remote : P2pId) (o : RendezvousAttemptOwner) (s : ManagerState).

Definition waiting (a : gmap P2pId RendezvousAttemptOwner) : list nat :=
  flat_map (fun x => ro_completions (snd x)) (map_to_list a).
Definition answered (log : list Event) : list nat :=
  flat_map (fun e => match e with Completed w _ => [w] | _ => [] end) log.

Lemma answered_app l k : answered (l ++ k) = answered l ++ answered k.
Proof. apply flat_map_app. Qed.

Lemma answered_completions r ws : answered (answer_completions r ws) = ws.
Proof. induction ws as [|w ws IH]; [done|]. simpl. by f_equal. Qed.

Lemma waiting_insert a remote o :
  a !! remote = None -> waiting (<[remote := o]> a) ≡ₚ ro_completions o ++ waiting a.
Proof.
  intros Hn. unfold waiting. rewrite (Permutation_flat_map _ (map_to_list_insert a remote o Hn)). done.
Qed.

Lemma waiting_delete a remote o :
  a !! remote = Some o -> waiting a ≡ₚ ro_completions o ++ waiting (delete remote a).
Proof.
  intros Ho. rewrite <-(insert_delete_id a remote o Ho) at 1. apply waiting_insert, lookup_delete_eq.
Qed.

Lemma waiting_replace a remote o o' :
  a !! remote = Some o -> waiting (<[remote := o']> a) ≡ₚ ro_completions o' ++ waiting (delete remote a).
Proof. intros Ho. rewrite <-insert_delete_eq. apply waiting_insert, lookup_delete_eq. Qed.

(** Waiters published for an attempt belong to the attempt in the slot. *)
Definition waiters_owned (s : ManagerState) (tokens : list nat) : Prop :=
  forall remote id rev e, ms_waiters s !! (remote, id, rev) = Some e -> iw_token e ∈ tokens ->
    exists o, ms_attempts s !! remote = Some o /\ ro_token o = iw_token e /\ ro_tunnel_id o = id /\
      ro_expected_reverse o = Some rev.

Lemma remove_owner_lookup remote o s k e :
  ms_waiters (remove_owner_waiter remote o s) !! k = Some e ->
  ms_waiters s !! k = Some e /\
  (forall rev, ro_expected_reverse o = Some rev -> k = (remote, ro_tunnel_id o, rev) -> iw_token e <> ro_token o).
Proof.
  unfold remove_owner_waiter, remove_incoming_waiter.
  destruct (ro_expected_reverse o) as [rev|]; [|by intros ?; split].
  destruct (ms_waiters s !! (remote, ro_tunnel_id o, rev)) as [e0|] eqn:E; simpl.
  - destruct (Nat.eqb_spec (iw_token e0) (ro_token o)); simpl.
    + intros [Hne Hk]%lookup_delete_Some. split; [done|]. intros rev' [= <-] ->. done.
    + intros Hk. split; [done|]. intros rev' [= <-] ->. congruence.
  - intros Hk. split; [done|]. intros rev' [= <-] ->. congruence.
Qed.

(** Waiters after the slot of [remote] lost its owner. *)
Lemma owned_without remote o s tokens (a' : gmap P2pId RendezvousAttemptOwner) :
  ms_attempts s !! remote = Some o -> waiters_owned s tokens ->
  (forall r, r <> remote -> a' !! r = ms_attempts s !! r) ->
  forall r id rev e, ms_waiters (remove_owner_waiter remote o s) !! (r, id, rev) = Some e -> iw_token e ∈ tokens ->
    r <> remote /\ exists o', a' !! r = Some o' /\ ro_token o' = iw_token e /\ ro_tunnel_id o' = id /\
      ro_expected_reverse o' = Some rev.
Proof.
  intros Ho Hw Ha r id rev e [He Hn]%remove_owner_lookup Ht.
  destruct (Hw _ _ _ _ He Ht) as (o' & Ho' & Htok & Hid & Hrev).
  destruct (decide (r = remote)) as [->|Hne].
  - exfalso. assert (o' = o) as -> by congruence. apply (Hn rev Hrev); congruence.
  - split; [done|]. exists o'. by rewrite Ha.
Qed.

Lemma publish_lookup remote o w s k e :
  ms_waiters (publish_rendezvous_waiter remote o w s) !! k = Some e ->
  ms_waiters s !! k = Some e \/
  (iw_token e = ro_token o /\ exists rev, ro_expected_reverse o = Some rev /\ k = (remote, ro_tunnel_id o, rev)).
Proof.
  unfold publish_rendezvous_waiter. destruct (ro_expected_reverse o) as [rev|], w as [w|]; [|by left..].
  unfold add_incoming_waiter. simpl. intros [[<- <-]|[_ He]]%lookup_insert_Some; [right|by left]. simpl. eauto.
Qed.

(** The manager, the channels it accepted, the tokens of attempts so far. *)
Record rz_world := mkRzWorld { z_manager : TunnelManager T; z_accepted : list nat; z_tokens : list nat }.

Inductive rz_step : rz_world -> rz_world -> Prop :=
| rz_install remote o waiter m m' accepted tokens :
    ro_token o ∉ tokens -> (forall k e, ms_waiters (tm_state m) !! k = Some e -> iw_token e <> ro_token o) ->
    NoDup (accepted ++ ro_completions o) ->
    install_rendezvous_owner remote o waiter m = (Ok tt, m') ->
    rz_step (mkRzWorld m accepted tokens) (mkRzWorld m' (accepted ++ ro_completions o) (ro_token o :: tokens))
| rz_attach remote seq id token task start m accepted tokens :
    rz_step (mkRzWorld m accepted tokens)
      (mkRzWorld (snd (attach_rendezvous_task remote seq id token task start m)) accepted tokens)
| rz_complete remote seq id token r m accepted tokens :
    rz_step (mkRzWorld m accepted tokens)
      (mkRzWorld (complete_rendezvous_owner remote seq id token r m) accepted tokens)
| rz_cancel remote seq id token m accepted tokens :
    rz_step (mkRzWorld m accepted tokens)
      (mkRzWorld (cancel_rendezvous_owner remote seq id token m) accepted tokens)
| rz_add_waiter remote id rev token w m accepted tokens :
    token ∉ tokens ->
    rz_step (mkRzWorld m accepted tokens)
      (mkRzWorld (set_mstate (add_incoming_waiter remote id rev token w (tm_state m)) m) accepted tokens)
| rz_take_waiter remote id rev m accepted tokens :
    rz_step (mkRzWorld m accepted tokens)
      (mkRzWorld (set_mstate (snd (take_incoming_waiter remote id rev (tm_state m))) m) accepted tokens)
| rz_other m m' accepted tokens :
    (** operations on the registry, the schedule and the scores *)
    ms_attempts (tm_state m') = ms_attempts (tm_state m) -> ms_waiters (tm_state m') = ms_waiters (tm_state m) ->
    answered (tm_log m') = answered (tm_log m) ->
    rz_step (mkRzWorld m accepted tokens) (mkRzWorld m' accepted tokens).

Record rz_inv (w : rz_world) : Prop := {
  rz_nodup : NoDup (z_accepted w);
  rz_conserved : waiting (ms_attempts (tm_state (z_manager w))) ++ answered (tm_log (z_manager w)) ≡ₚ z_accepted w;
  rz_owned : waiters_owned (tm_state (z_manager w)) (z_tokens w) }.

(** A slot whose owner keeps token, tunnel and direction. *)
Lemma owned_update remote o o' s tokens :
  ms_attempts s !! remote = Some o -> ro_token o' = ro_token o -> ro_tunnel_id o' = ro_tunnel_id o ->
  ro_expected_reverse o' = ro_expected_reverse o ->
  waiters_owned s tokens -> waiters_owned (put_attempt remote o' s) tokens.
Proof.
  intros Ho Ht Hid Hrev Hw r id rev e He Htok. simpl in *. destruct (Hw _ _ _ _ He Htok) as (x & Hx & Hrest).
  destruct (decide (r = remote)) as [->|Hne]; [|exists x; by rewrite lookup_insert_ne].
  exists o'. rewrite lookup_insert_eq. assert (x = o) as -> by congruence. by rewrite Ht, Hid, Hrev.
Qed.

(** A slot that gets a new owner, its old one (if any) being gone. *)
Lemma owned_install remote o w s s1 tokens :
  ro_token o ∉ tokens -> (forall k e, ms_waiters s !! k = Some e -> iw_token e <> ro_token o) ->
  (forall k e, ms_waiters s1 !! k = Some e -> ms_waiters s !! k = Some e) ->
  (forall r id rev e, ms_waiters s1 !! (r, id, rev) = Some e -> iw_token e ∈ tokens ->
    r <> remote /\ exists o', ms_attempts s1 !! r = Some o' /\ ro_token o' = iw_token e /\ ro_tunnel_id o' = id /\
      ro_expected_reverse o' = Some rev) ->
  waiters_owned (put_attempt remote o (publish_rendezvous_waiter remote o w s1)) (ro_token o :: tokens).
Proof.
  intros Hfresh Hnew Hsub Hold r id rev e He Ht. simpl in *. rewrite publish_attempts.
  apply publish_lookup in He as [He|(Htok & rev' & Hrev & [= -> -> <-])].
  - apply elem_of_cons in Ht as [Ht|Ht]; [by apply Hsub, Hnew in He|].
    destruct (Hold _ _ _ _ He Ht) as [Hne (o' & Ho' & Hrest)]. exists o'. by rewrite lookup_insert_ne.
  - exists o. by rewrite lookup_insert_eq.
Qed.

Lemma emit_all_answered es m : answered (tm_log (emit_all es m)) = answered (tm_log m) ++ answered es.
Proof. apply answered_app. Qed.

Lemma abort_answered remote o m :
  answered (tm_log (abort_rendezvous_owner remote o m)) = answered (tm_log m) ++ ro_completions o.
Proof.
  unfold abort_rendezvous_owner. rewrite emit_all_answered, !answered_app, answered_completions.
  by destruct (ro_task o).
Qed.

Lemma abort_attempts remote o m :
  ms_attempts (tm_state (abort_rendezvous_owner remote o m)) = ms_attempts (tm_state m).
Proof. apply remove_owner_attempts. Qed.

Lemma abort_waiters remote o m k e :
  ms_waiters (tm_state (abort_rendezvous_owner remote o m)) !! k = Some e -> ms_waiters (tm_state m) !! k = Some e.
Proof. by intros [H _]%remove_owner_lookup. Qed.

Lemma owned_mono s s' tokens :
  ms_attempts s' = ms_attempts s -> (forall k e, ms_waiters s' !! k = Some e -> ms_waiters s !! k = Some e) ->
  waiters_owned s tokens -> waiters_owned s' tokens.
Proof. intros Ha Hw Ho r id rev e He Ht. rewrite Ha. by apply (Ho r id rev e); [apply Hw|]. Qed.

Lemma owned_tokens s t tokens :
  (forall k e, ms_waiters s !! k = Some e -> iw_token e <> t) -> waiters_owned s tokens -> waiters_owned s (t :: tokens).
Proof. intros Hf Ho r id rev e He [Ht|Ht]%elem_of_cons; [by apply Hf in He|by apply (Ho r id rev e)]. Qed.
End conservation.

Section steps.
Context {T : Type} `{!TunnelOps T}.
Implicit Types (m : TunnelManager T) (remote : P2pId) (o : RendezvousAttemptOwner) (s : ManagerState).

Lemma remove_with_completions remote ws o s :
  remove_owner_waiter remote (with_completions ws o) s = remove_owner_waiter remote o s.
Proof. done. Qed.

Lemma publish_with_completions remote ws o w s :
  publish_rendezvous_waiter remote (with_completions ws o) w s = publish_rendezvous_waiter remote o w s.
Proof. done. Qed.

(** What a successful installation leaves behind. *)
Lemma install_conserves remote o w m m' :
  install_rendezvous_owner remote o w m = (Ok tt, m') ->
  waiting (ms_attempts (tm_state m')) ++ answered (tm_log m') ≡ₚ
    (waiting (ms_attempts (tm_state m)) ++ answered (tm_log m)) ++ ro_completions o.
Proof.
  unfold install_rendezvous_owner. destruct (ms_attempts (tm_state m) !! remote) as [ex|] eqn:Hex.
  2:{ intros [= <-]. simpl. rewrite publish_attempts, waiting_insert by done. solve_Permutation. }
  case_match; [done|]. case_match.
  - case_match; [|done]. intros [= <-]. rewrite emit_all_answered. simpl.
    rewrite (waiting_replace _ _ ex) by done. rewrite (waiting_delete (ms_attempts (tm_state m)) remote ex) by done. simpl. solve_Permutation.
  - intros [= <-]. rewrite abort_answered, abort_attempts.
    destruct (ro_initiator_local ex && _); simpl; rewrite publish_attempts, remove_owner_attempts;
      rewrite (waiting_replace _ _ ex) by done; rewrite (waiting_delete (ms_attempts (tm_state m)) remote ex) by done;
      rewrite ?answered_app; simpl; solve_Permutation.
Qed.

Lemma install_owned remote o w m m' tokens :
  ro_token o ∉ tokens -> (forall k e, ms_waiters (tm_state m) !! k = Some e -> iw_token e <> ro_token o) ->
  waiters_owned (tm_state m) tokens -> install_rendezvous_owner remote o w m = (Ok tt, m') ->
  waiters_owned (tm_state m') (ro_token o :: tokens).
Proof.
  intros Hf Hnew Hw. unfold install_rendezvous_owner. destruct (ms_attempts (tm_state m) !! remote) as [ex|] eqn:Hex.
  2:{ intros [= <-]. eapply owned_install; [done|exact Hnew|done|]. intros r id rev e He Ht.
      destruct (Hw _ _ _ _ He Ht) as (o' & Ho' & Hrest). split; [congruence|by eauto]. }
  case_match; [done|]. case_match.
  - case_match; [|done]. intros [= <-]. apply owned_tokens; [done|]. by eapply owned_update.
  - intros [= <-].
    assert (forall x, ro_token x = ro_token o ->
      waiters_owned (put_attempt remote x (publish_rendezvous_waiter remote x w
        (remove_owner_waiter remote ex (tm_state m)))) (ro_token x :: tokens)) as Hinst.
    { intros x Hx. apply owned_install with (s := tm_state m); [by rewrite Hx|intros; rewrite Hx; eauto| |].
      - by intros k e [He _]%remove_owner_lookup.
      - eapply (owned_without _ ex); [done|done|]. intros r _. by rewrite remove_owner_attempts. }
    destruct (ro_initiator_local ex && _);
      (eapply owned_mono; [apply abort_attempts|apply abort_waiters|]); simpl;
      [exact (Hinst (with_completions _ o) eq_refl)|exact (Hinst o eq_refl)].
Qed.

Lemma remove_owner_set_attempts remote o a s :
  ms_waiters (remove_owner_waiter remote o (set_attempts a s)) = ms_waiters (remove_owner_waiter remote o s).
Proof. unfold remove_owner_waiter, remove_incoming_waiter. simpl. by repeat case_match. Qed.

Lemma take_owner_spec remote seq id token s o s' tokens :
  take_owner remote seq id token s = (Some o, s') ->
  waiting (ms_attempts s) ≡ₚ ro_completions o ++ waiting (ms_attempts s') /\
  (waiters_owned s tokens -> waiters_owned s' tokens).
Proof.
  unfold take_owner. destruct (ms_attempts s !! remote) as [x|] eqn:Hx; [|done]. case_match; [|done].
  intros [= <- <-]. split; [rewrite remove_owner_attempts; by apply waiting_delete|].
  intros Hw r i rev e He Ht. rewrite remove_owner_attempts. rewrite remove_owner_set_attempts in He. simpl.
  edestruct (owned_without remote x s tokens (delete remote (ms_attempts s)) Hx Hw) as [_ H'];
    [|exact He|exact Ht|exact H']. intros r' Hne. by rewrite lookup_delete_ne.
Qed.

Lemma rz_step_inv w w' : rz_step (T := T) w w' -> rz_inv w -> rz_inv w'.
Proof.
  destruct 1 as [remote o waiter m m' acc tk Hf Hnew Hnd Hi|remote seq id token task start m acc tk
    |remote seq id token r m acc tk|remote seq id token m acc tk|remote id rev token w m acc tk Hf
    |remote id rev m acc tk|m m' acc tk Ha Hwt Hl]; intros [Hn Hc Ho]; split; try done; simpl in *.
  - rewrite <-Hc. by apply (install_conserves remote _ waiter).
  - by eapply install_owned.
  - unfold attach_rendezvous_task. destruct (ms_attempts (tm_state m) !! remote) as [o|] eqn:Hx;
      [case_match|]; simpl; rewrite answered_app, app_nil_r; try done.
    rewrite (waiting_replace _ _ o) by done. rewrite <-Hc, (waiting_delete (ms_attempts (tm_state m)) remote o) by done. done.
  - unfold attach_rendezvous_task. destruct (ms_attempts (tm_state m) !! remote) as [o|] eqn:Hx; [case_match|]; try done.
    by eapply owned_update.
  - unfold complete_rendezvous_owner. destruct (take_owner _ _ _ _ _) as [[o|] s] eqn:Ht; [|done].
    destruct (take_owner_spec _ _ _ _ _ _ _ [] Ht) as [Hp _]. simpl. rewrite answered_app, answered_completions, <-Hc, Hp.
    solve_Permutation.
  - unfold complete_rendezvous_owner. destruct (take_owner _ _ _ _ _) as [[o|] s] eqn:Ht; [|done].
    by destruct (take_owner_spec _ _ _ _ _ _ _ tk Ht) as [_ Hw]; apply Hw.
  - unfold cancel_rendezvous_owner. destruct (take_owner _ _ _ _ _) as [[o|] s] eqn:Ht; [|done].
    destruct (take_owner_spec _ _ _ _ _ _ _ [] Ht) as [Hp _].
    rewrite abort_answered, abort_attempts, <-Hc. simpl. rewrite Hp. solve_Permutation.
  - unfold cancel_rendezvous_owner. destruct (take_owner _ _ _ _ _) as [[o|] s] eqn:Ht; [|done].
    destruct (take_owner_spec _ _ _ _ _ _ _ tk Ht) as [_ Hw].
    eapply owned_mono; [apply abort_attempts|apply abort_waiters|]. by apply Hw.
  - intros r i rv e He Ht. simpl in *.
    apply lookup_insert_Some in He as [[[= -> -> ->] <-]|[_ He]]; [done|by apply (Ho r i rv e)].
  - intros r i rv e He Ht. simpl in *. apply lookup_delete_Some in He as [_ He]. by apply (Ho r i rv e).
  - by rewrite Ha, Hl.
  - eapply owned_mono; [exact Ha| |exact Ho]. by rewrite Hwt.
Qed.

Lemma drop_owners_answered owners m :
  answered (tm_log (foldl (fun m x => abort_rendezvous_owner (fst x) (snd x) m) m owners)) =
    answered (tm_log m) ++ flat_map (fun x => ro_completions (snd x)) owners.
Proof.
  revert m. induction owners as [|[r o] l IH]; intros m; simpl; [by rewrite app_nil_r|].
  rewrite IH, abort_answered, <-app_assoc. done.
Qed.

Lemma drop_manager_answered `{!TunnelWork T, !TunnelLaws T} m :
  answered (tm_log (drop_manager m)) = answered (tm_log m) ++ waiting (ms_attempts (tm_state m)).
Proof.
  unfold drop_manager. generalize (concat (map (fun x : P2pId * list TunnelEntry => map te_tunnel (snd x))
    (map_to_list (tm_tunnels m)))). intros rs.
  assert (forall rs (m' : TunnelManager T), tm_log (close_all_tunnels rs m') = tm_log m') as Hlog.
  { clear. induction rs as [|r rs IH]; intros m'; simpl; [done|]. rewrite IH. unfold close_tunnel. by destruct (tn_close _). }
  rewrite Hlog, drop_owners_answered. done.
Qed.
End steps.

(** C35: no caller is lost: whatever attempts are installed, displaced, yielded,
    completed and cancelled, in any order, every channel a caller waits on is
    attached to exactly one live attempt or has been answered exactly once, the
    destruction of the manager answers all that are left, and no waiter for an
    incoming tunnel outlives its attempt. *)
Theorem rendezvous_callers_answered_once {T} `{!TunnelOps T, !TunnelWork T, !TunnelLaws T} m0 (w : rz_world (T := T)) :
  ms_attempts (tm_state m0) = ∅ -> ms_waiters (tm_state m0) = ∅ -> tm_log m0 = [] ->
  rtc rz_step (mkRzWorld m0 [] []) w ->
  let m := z_manager w in
  NoDup (waiting (ms_attempts (tm_state m)) ++ answered (tm_log m)) /\
  (forall c, c ∈ z_accepted w <-> c ∈ waiting (ms_attempts (tm_state m)) \/ c ∈ answered (tm_log m)) /\
  answered (tm_log (drop_manager m)) ≡ₚ z_accepted w /\
  waiters_owned (tm_state m) (z_tokens w).
Proof.
  intros Ha Hw Hl Hr m.
  assert (rz_inv w) as [Hn Hc Ho].
  { eapply (rtc_preserves rz_step rz_inv); [apply rz_step_inv|exact Hr|]. split; simpl; [constructor| |].
    - by rewrite Ha, Hl.
    - intros r id rev e He. simpl in He. by rewrite Hw, lookup_empty in He. }
  subst m. split_and!; [by rewrite Hc| |rewrite drop_manager_answered, <-Hc; solve_Permutation|done].
  intros c. rewrite <-Hc. apply elem_of_app.
Qed.

(** ** Concrete attempts *)
Definition demo_side (me : Z) : TunnelManager PlainTunnel :=
  manager_new (mkP2pId [me]) PROXY_UPGRADE_INITIAL_INTERVAL demo_heap.
(** An attempt of one side and how the other side sees it. *)
Definition demo_own (seq : Z) (completion : nat) (token : nat) : RendezvousAttemptOwner :=
  mkOwner seq true token None (Some true) (100 + seq) token [completion] token.
Definition demo_theirs (seq : Z) (token : nat) : RendezvousAttemptOwner :=
  mkOwner seq false token None (Some false) (100 + seq) token [] token.

Lemma rendezvous_collision_agrees_witness :
  let A' := local_first true (mkP2pId [2]) (demo_own 5 40 1) (Some 50%nat) (demo_theirs 6 2) (Some 51%nat) (demo_side 1) in
  let B' := local_first false (mkP2pId [1]) (demo_own 6 41 3) (Some 52%nat) (demo_theirs 5 4) (Some 53%nat) (demo_side 2) in
  attempt_of (mkP2pId [2]) A' = Some (5, 105) /\ attempt_of (mkP2pId [1]) B' = Some (5, 105) /\
  41%nat ∈ waiting_on (mkP2pId [1]) B'.
Proof.
  intros A' B'.
  destruct (rendezvous_collision_agrees (demo_side 1) (demo_side 2) true false
    (demo_own 5 40 1) (demo_theirs 6 2) (demo_own 6 41 3) (demo_theirs 5 4)
    (Some 50%nat) (Some 51%nat) (Some 52%nat) (Some 53%nat)) as (Heq & Hwin & _ & Hw & _); try done.
  split; [exact Hwin|]. split; [exact (eq_trans (eq_sym Heq) Hwin)|]. apply Hw. by left.
Defined.

(** The smaller peer's attempt arrives after the own one: the caller's channel
    40 moves to it and is answered when it completes. *)
Lemma rendezvous_callers_answered_once_witness :
  exists w, rtc rz_step (mkRzWorld (demo_side 2) [] []) w /\ z_accepted w = [40%nat] /\
    answered (tm_log (z_manager w)) = [40%nat] /\
    NoDup (waiting (ms_attempts (tm_state (z_manager w))) ++ answered (tm_log (z_manager w))).
Proof.
  set (m1 := snd (install_rendezvous_owner (mkP2pId [1]) (demo_own 5 40 1) (Some 50%nat) (demo_side 2))).
  set (m2 := snd (install_rendezvous_owner (mkP2pId [1]) (demo_theirs 6 2) (Some 51%nat) m1)).
  set (w := mkRzWorld (complete_rendezvous_owner (mkP2pId [1]) 6 106 2 (Ok 3%nat) m2) [40%nat] [2%nat; 1%nat]).
  assert (rtc rz_step (mkRzWorld (demo_side 2) [] []) w) as Hr.
  { eapply rtc_l; [apply (rz_install (mkP2pId [1]) (demo_own 5 40 1) (Some 50%nat) _ m1)|
      eapply rtc_l; [apply (rz_install (mkP2pId [1]) (demo_theirs 6 2) (Some 51%nat) m1 m2)|
      apply rtc_once; apply rz_complete]]; try done.
    - set_solver.
    - apply NoDup_singleton.
    - set_solver.
    - intros k e He.
      assert (ms_waiters (tm_state m1) = {[(mkP2pId [1], 105, true) := mkIncomingWaiter 1 50]}) as Hm by by vm_compute.
      rewrite Hm in He. by apply lookup_singleton_Some in He as [_ <-].
    - apply NoDup_singleton. }
  exists w. split; [exact Hr|]. split; [done|]. split; [by vm_compute|].
  by destruct (rendezvous_callers_answered_once (demo_side 2) w eq_refl eq_refl eq_refl Hr) as [Hn _].
Defined.
