(* ===== verification/OpenTunnel.v ===== *)
(** * Opening tunnels (tunnel/tunnel_manager.rs)

    How the manager chooses what to dial: the ranking of a peer's endpoints by
    past success, the candidates of NAT plans and rendezvous requests, the
    endpoints offered for connecting back, the race between the dialled
    candidates and the race between dialling and asking the peer to connect
    back.  The networks, the SN client and the cache of connections are other
    parts of the program; their answers are arguments. *)

From stdpp Require Import functions.
From S2P Require Import Prelude.
From S2P Require Import Errors.
From S2P Require Import Ids.
From S2P Require Import Endpoint.
From S2P Require Import NatType.
From S2P Require Import SnProtocol.
From S2P Require Import NatConnectPlan.
From S2P Require Import TunnelActivity.
From S2P Require Import TunnelManager.

(** ** Scores of endpoints *)

(** The map [endpoint_scores] as an association list without repeated keys. *)
Definition score_of (k : EndpointScoreKey) (l : list (EndpointScoreKey * EndpointScore)) : option EndpointScore :=
  snd <$> List.find (fun x => bool_decide (fst x = k)) l.
Definition score_put (k : EndpointScoreKey) (v : EndpointScore) (l : list (EndpointScoreKey * EndpointScore)) :=
  (k, v) :: filter (fun x => fst x <> k) l.

Definition u32_saturating_add (a b : Z) : Z := Z.min (a + b) u32_max.

Definition direct_cache_endpoint_degraded (ep : Endpoint) (s : ManagerState) : bool :=
  match score_of (score_key ep) (ms_scores s) with
  | Some stat => DIRECT_CACHE_MAX_FAILURES <=? fail_count stat
  | None => false
  end.

Definition on_direct_connect_result (now : Z) (ep : Endpoint) (success : bool) (s : ManagerState) : ManagerState :=
  let stat := default (mkScore 0 0) (score_of (score_key ep) (ms_scores s)) in
  let stat := if success then mkScore now 0
              else mkScore (last_success_at stat) (u32_saturating_add (fail_count stat) 1) in
  set_scores (score_put (score_key ep) stat (ms_scores s)) s.

Definition endpoint_score (preferred_ep : option Endpoint) (s : ManagerState) (ep : Endpoint) : Z :=
  let stat := score_of (score_key ep) (ms_scores s) in
  let degraded := match stat with Some st => DIRECT_CACHE_MAX_FAILURES <=? fail_count st | None => false end in
  (if negb degraded then
     (if match preferred_ep with Some p => ep_eqb p ep | None => false end then 10000 else 0)
     + (if match stat with Some st => 0 <? last_success_at st | None => false end then 2000 else 0)
   else 0)
  + (if is_static_wan ep then 500 else 0)
  - match stat with Some st => Z.min (fail_count st) 20 * 300 | None => 0 end.

Definition ranked_le (a b : Z * nat * Endpoint) : bool :=
  match then_with (fst (fst b) ?= fst (fst a)) (snd (fst a) ?= snd (fst b))%nat with Gt => false | _ => true end.

Definition preferred_direct_endpoints (preferred_ep : option Endpoint) (eps : list Endpoint) (s : ManagerState)
  : list Endpoint :=
  snd <$> sort_by ranked_le (imap (fun idx ep => (endpoint_score preferred_ep s ep, idx, ep)) eps).

(** ** Candidate endpoints *)

Definition MAX_NAT_PLAN_CANDIDATES : nat := 8.

Definition push_unique_endpoint (eps : list Endpoint) (ep : Endpoint) : list Endpoint :=
  if existsb (fun x => ep_eqb x ep) eps then eps else eps ++ [ep].

Definition nat_candidates (base_endpoints : list Endpoint) (mode : CandidateMode) : P2pResult (list Endpoint) :=
  match mode with
  | Base => Ok (take MAX_NAT_PLAN_CANDIDATES (foldl push_unique_endpoint [] base_endpoints))
  | Predicted => Err P2pErrorCode.NotFound
  end.

Definition has_static_wan_identity (cert_endpoints : list Endpoint) : bool := existsb is_static_wan cert_endpoints.

Definition is_ambiguous_rendezvous_failure (e : P2pErrorCode.t) : bool :=
  match e with P2pErrorCode.IoError | P2pErrorCode.Unmatch | P2pErrorCode.InvalidData => true | _ => false end.

Record TunnelConnectIntent := mkIntent {
  in_tunnel_id : Z; in_candidate_id : Z; in_is_reverse : bool; in_udp_punch_enabled : bool }.
Definition intent_active (tunnel_id candidate_id : Z) : TunnelConnectIntent := mkIntent tunnel_id candidate_id false false.
Definition intent_reverse (tunnel_id candidate_id : Z) : TunnelConnectIntent := mkIntent tunnel_id candidate_id true false.
Definition set_udp_punch_enabled (b : bool) (i : TunnelConnectIntent) : TunnelConnectIntent :=
  mkIntent (in_tunnel_id i) (in_candidate_id i) (in_is_reverse i) b.

Record TunnelListenerInfo := mkListenerInfo { li_local : Endpoint; li_mapping_port : option Z }.

Definition ip_is_unspecified (ip : IpAddr) : bool :=
  match ip with IpV4 ip => v4_is_unspecified ip | IpV6 ip => v6_is_unspecified ip end.

Section feature.
(** The cargo feature. *)
Context (test_real_socket_matrix : bool).

Definition base_usable (operation : SnTunnelRendezvousOperation) (ep : Endpoint) : bool :=
  rendezvous_eligible test_real_socket_matrix operation ep && negb (port_of (addr ep) =? 0).

Definition rendezvous_anchor (eps : list Endpoint) (operation : SnTunnelRendezvousOperation) : Protocol :=
  if punches operation then Quic
  else if existsb (fun ep => bool_decide (protocol ep = Quic) && base_usable operation ep) eps then Quic
  else Tcp.

(** The loop with its early exit at the limit. *)
Fixpoint base_loop (eps result : list Endpoint) : list Endpoint :=
  match eps with
  | [] => result
  | ep :: eps =>
      let result := push_unique_endpoint result ep in
      if (MAX_NAT_PLAN_CANDIDATES <=? length result)%nat then result else base_loop eps result
  end.

Definition rendezvous_base_endpoints (eps : list Endpoint) (operation : SnTunnelRendezvousOperation) : list Endpoint :=
  let anchor := rendezvous_anchor eps operation in
  base_loop (filter (fun ep => bool_decide (protocol ep = anchor) && base_usable operation ep) eps) [].

Definition udp_punch_enabled_for_candidate (ep : Endpoint) : bool :=
  bool_decide (protocol ep = Quic) && rendezvous_eligible_area test_real_socket_matrix ep
  && negb (port_of (addr ep) =? 0).

Definition intent_for_candidate (ep : Endpoint) (intent : TunnelConnectIntent) (sn_service_available : bool)
  : TunnelConnectIntent :=
  if sn_service_available && udp_punch_enabled_for_candidate ep then set_udp_punch_enabled true intent else intent.

Definition listener_step (wan_endpoints : list Endpoint) (p : Protocol)
    (acc : list Endpoint * list (Protocol * Z)) (l : TunnelListenerInfo) : list Endpoint * list (Protocol * Z) :=
  let loopback_covered_by_wan :=
    test_real_socket_matrix && existsb (fun wan => ep_eqb wan (li_local l)) wan_endpoints in
  let eps := if negb (ip_is_unspecified (ip_of (addr (li_local l)))) && negb loopback_covered_by_wan
             then push_unique_endpoint (fst acc) (li_local l) else fst acc in
  (eps, match li_mapping_port l with Some port => snd acc ++ [(p, port)] | None => snd acc end).

Definition wan_step (mapping_ports : list (Protocol * Z)) (eps : list Endpoint) (wan : Endpoint) : list Endpoint :=
  foldl (fun eps pp => push_unique_endpoint eps
                         (set_area Mapped (endpoint_from_ip (fst pp) (ip_of (addr wan)) (snd pp))))
    (push_unique_endpoint eps wan) mapping_ports.

Definition collect_reverse_endpoints_from_sources
    (listener_entries : list (Protocol * list TunnelListenerInfo)) (wan_endpoints : list Endpoint) : list Endpoint :=
  let '(eps, mapping_ports) :=
    foldl (fun acc x => foldl (listener_step wan_endpoints (fst x)) acc (snd x)) ([], []) listener_entries in
  foldl (wan_step mapping_ports) eps wan_endpoints.

(** The endpoints of the request [open_rendezvous_tunnel] sends for a plan, when
    no prediction is needed for it. *)
Definition rendezvous_request_endpoints (plan : RendezvousPlan) (local_endpoints : list Endpoint)
  : option (P2pResult (list Endpoint)) :=
  match rp_request_candidates plan with
  | None => Some (Ok [])
  | Some Base =>
      match rendezvous_base_endpoints local_endpoints (rp_operation plan) with
      | [] => Some (Err P2pErrorCode.NotFound)
      | eps => Some (Ok eps)
      end
  | Some Predicted => None
  end.
End feature.

(** ** Races *)

(** When a future completes, if ever, and with what. *)
Definition outcome (A : Type) : Type := option (Z * P2pResult A).

(** [select!] polls ready futures in random order: [tie] says who comes first
    when both are ready at the same time. *)
Definition race_with_delay {A} (tie : bool) (direct : outcome A) (reverse_delay : Duration) (reverse : outcome A)
  : option (Z * (P2pResult A * bool)) :=
  let delayed := (fun x => (reverse_delay + fst x, snd x)) <$> reverse in
  match direct, delayed with
  | None, None => None
  | Some (td, Ok v), None => Some (td, (Ok v, true))
  | Some (td, Err e), None => None
  | None, Some (tr, Ok v) => Some (tr, (Ok v, false))
  | None, Some (tr, Err e) => None
  | Some (td, rd), Some (tr, rr) =>
      if (td <? tr) || ((td =? tr) && tie) then
        match rd with
        | Ok v => Some (td, (Ok v, true))
        | Err e => Some (tr, match rr with Ok v => (Ok v, false) | Err _ => (Err e, false) end)
        end
      else
        match rr with
        | Ok v => Some (tr, (Ok v, false))
        | Err e => Some (td, match rd with Ok v => (Ok v, true) | Err _ => (Err e, true) end)
        end
  end.

Section paths.
Context {T : Type} `{!TunnelOps T}.

Definition note_connect (now : Z) (ep : Endpoint) (ok : bool) (m : TunnelManager T) : TunnelManager T :=
  set_mstate (on_direct_connect_result now ep ok (tm_state m)) m.

(** [spawn_abandoned_direct_candidate_cleanup]: the attempts still under way
    when the race is decided finish and what they produce is closed. *)
Definition abandon (now : Z) (m : TunnelManager T) (x : Endpoint * P2pResult nat) : TunnelManager T :=
  let m := note_connect now (fst x) (is_ok (snd x)) m in
  match snd x with Ok r => snd (close_tunnel r m) | Err _ => m end.

(** The loop of [open_direct_path] over the attempts in the order in which they
    complete; [None] is the panic of an exhausted generation counter. *)
Fixpoint direct_race (now : Z) (last_err : option P2pErrorCode.t) (results : list (Endpoint * P2pResult nat))
    (m : TunnelManager T) : option (P2pResult nat * TunnelManager T) :=
  match results with
  | [] => Some (Err (default P2pErrorCode.ConnectFailed last_err), m)
  | (ep, res) :: rest =>
      let m1 := note_connect now ep (is_ok res) m in
      match res with
      | Err e => direct_race now (Some e) rest m1
      | Ok r =>
          '(reg, m2) ← register_tunnel_and_publish now r m1;
          match reg with
          | Ok _ => Some (Ok r, foldl (abandon now) m2 rest)
          | Err e => direct_race now (Some e) rest (snd (close_tunnel r m2))
          end
      end
  end.
End paths.

(** ** The order of the paths *)
Inductive ConnectDirection := DirDirect | DirReverse | DirProxy.
Record P2pConnectionInfo := mkConnInfo { ci_direct : ConnectDirection; ci_local_ep : Endpoint; ci_remote_ep : Endpoint }.

Section open_known.
(** The rest of the program, over an arbitrary state: the registry's queries,
    the cache, the scores and the three paths with their race. *)
Context {M : Type} (existing : bool -> M -> option nat * M)
  (cache_get : M -> option P2pConnectionInfo) (cache_remove : M -> M)
  (degraded : Endpoint -> M -> bool) (prefer : list Endpoint -> M -> list Endpoint)
  (direct : list Endpoint -> M -> P2pResult nat * M) (hedged : list Endpoint -> M -> P2pResult nat * M)
  (reverse proxy : M -> P2pResult nat * M) (sn_service : bool).

(** Try a path; go on with its error. *)
Definition try_path (path : M -> P2pResult nat * M) (k : option P2pErrorCode.t -> M -> P2pResult nat * M) (m : M)
  : P2pResult nat * M :=
  match path m with (Ok r, m) => (Ok r, m) | (Err e, m) => k (Some e) m end.

(** The path the connection cache remembers. *)
Definition cached_path (remote_eps : list Endpoint) (allow_proxy_fallback : bool)
    (k : option P2pErrorCode.t -> M -> P2pResult nat * M) (m : M) : P2pResult nat * M :=
  match cache_get m with
  | None => k None m
  | Some info =>
      match ci_direct info with
      | DirDirect =>
          if degraded (ci_remote_ep info) m then k None (cache_remove m)
          else if existsb (fun ep => ep_eqb ep (ci_remote_ep info)) remote_eps then
            try_path (direct [ci_remote_ep info])
              (fun e m => k e (if degraded (ci_remote_ep info) m then cache_remove m else m)) m
          else k None m
      | DirReverse => try_path reverse k m
      | DirProxy => if allow_proxy_fallback then try_path proxy k m else k None m
      end
  end.

Definition open_known_tunnel_with_options (remote_eps : list Endpoint)
    (reuse_existing_proxy allow_proxy_fallback : bool) (m : M) : P2pResult nat * M :=
  if bool_decide (remote_eps = []) then (Err P2pErrorCode.InvalidParam, m)
  else
    match existing reuse_existing_proxy m with
    | (Some r, m) => (Ok r, m)
    | (None, m) =>
        let fail (e : option P2pErrorCode.t) (m : M) : P2pResult nat * M :=
          (Err (default P2pErrorCode.NotFound e), m) in
        let last_proxy (e : option P2pErrorCode.t) (m : M) :=
          if allow_proxy_fallback then try_path proxy fail m else fail e m in
        cached_path remote_eps allow_proxy_fallback
          (fun _ m =>
             let direct_eps := prefer remote_eps m in
             if negb (bool_decide (direct_eps = [])) && sn_service
             then try_path (hedged direct_eps) last_proxy m
             else try_path (direct direct_eps) (fun _ => try_path reverse last_proxy) m) m
    end.
End open_known.

(** ** Ranking *)

Definition scores_ok (s : ManagerState) : Prop := forall x, x ∈ ms_scores s -> 0 <= fail_count (snd x) <= u32_max.

Lemma score_of_elem k l v : score_of k l = Some v -> (k, v) ∈ l.
Proof.
  unfold score_of. destruct (List.find _ l) as [[k' v']|] eqn:E; [|done]. simpl. intros [= ->].
  apply find_some in E as [Hin%list_elem_of_In Hk]. apply bool_decide_eq_true in Hk. simpl in Hk. by subst.
Qed.

Lemma connect_result_scores_ok now ep ok s : scores_ok s -> scores_ok (on_direct_connect_result now ep ok s).
Proof.
  intros Hs x Hx. unfold on_direct_connect_result in Hx. simpl in Hx.
  apply elem_of_cons in Hx as [->|[_ Hx]%list_elem_of_filter]; [|by apply Hs]. simpl.
  destruct ok; simpl; [unfold u32_max; lia|].
  assert (0 <= fail_count (default (mkScore 0 0) (score_of (score_key ep) (ms_scores s))) <= u32_max) as Hf.
  { destruct (score_of _ _) as [v|] eqn:E; simpl; [|unfold u32_max; lia]. by apply score_of_elem, Hs in E. }
  unfold u32_saturating_add, u32_max in *. lia.
Qed.

Lemma ep_eqb_key a b : ep_eqb a b = true <-> score_key a = score_key b.
Proof.
  unfold ep_eqb, score_key. rewrite andb_true_iff, !bool_decide_eq_true.
  split; [intros [-> ->]; done|intros H; by simplify_eq].
Qed.

Lemma imap_fmap_snd {A} (f : nat -> Endpoint -> A) (eps : list Endpoint) :
  snd <$> imap (fun i ep => (f i ep, ep)) eps = eps.
Proof.
  revert f. induction eps as [|ep eps IH]; intros f; [done|]. rewrite imap_cons, fmap_cons. simpl. f_equal. apply IH.
Qed.

Lemma ranked_le_total a b : ranked_le a b = true \/ ranked_le b a = true.
Proof.
  unfold ranked_le. destruct a as [[sa ia] ea], b as [[sb ib] eb]. simpl.
  rewrite (Z.compare_antisym sb sa), (Nat.compare_antisym ib ia).
  destruct (sb ?= sa), (ib ?= ia)%nat; simpl; auto.
Qed.

Lemma ranked_le_spec a b :
  ranked_le a b = true <-> fst (fst b) < fst (fst a) \/ (fst (fst b) = fst (fst a) /\ (snd (fst a) <= snd (fst b))%nat).
Proof.
  unfold ranked_le. destruct a as [[sa ia] ea], b as [[sb ib] eb]. simpl.
  destruct (Z.compare_spec sb sa), (Nat.compare_spec ia ib); simpl; split; try done; lia.
Qed.

Lemma ranked_le_trans a b c : ranked_le a b = true -> ranked_le b c = true -> ranked_le a c = true.
Proof. rewrite !ranked_le_spec. lia. Qed.

Lemma ranked_elem preferred s eps x :
  x ∈ imap (fun idx ep => (endpoint_score preferred s ep, idx, ep)) eps ->
  fst (fst x) = endpoint_score preferred s (snd x).
Proof. rewrite elem_of_lookup_imap. by intros (i & ep & -> & _). Qed.

Lemma preferred_sorted preferred eps s :
  StronglySorted (fun a b => endpoint_score preferred s b <= endpoint_score preferred s a)
    (preferred_direct_endpoints preferred eps s).
Proof.
  unfold preferred_direct_endpoints.
  pose proof (sort_by_sorted ranked_le ranked_le_total ranked_le_trans
    (imap (fun idx ep => (endpoint_score preferred s ep, idx, ep)) eps)) as Hs.
  assert (Forall (fun x => fst (fst x) = endpoint_score preferred s (snd x))
    (sort_by ranked_le (imap (fun idx ep => (endpoint_score preferred s ep, idx, ep)) eps))) as HF.
  { apply Forall_forall. intros x Hx%sort_by_elem. by eapply ranked_elem. }
  induction Hs as [|x l Hl IH Hx]; [constructor|]. apply Forall_cons in HF as [Hx0 HF]. rewrite fmap_cons.
  constructor; [by apply IH|]. apply Forall_forall. intros y (z & -> & Hz)%list_elem_of_fmap.
  rewrite Forall_forall in Hx, HF. specialize (Hx _ Hz). specialize (HF _ Hz). apply ranked_le_spec in Hx. lia.
Qed.

(** The bonus of the remembered endpoint outweighs everything else. *)
Lemma endpoint_score_preferred p s ep :
  scores_ok s -> ep_eqb p ep = true -> direct_cache_endpoint_degraded p s = false ->
  9700 <= endpoint_score (Some p) s ep.
Proof.
  intros Hs Hp Hd. pose proof (proj1 (ep_eqb_key p ep) Hp) as Hk.
  unfold direct_cache_endpoint_degraded in Hd. unfold endpoint_score. rewrite Hk in Hd. rewrite Hp.
  destruct (score_of (score_key ep) (ms_scores s)) as [st|] eqn:E.
  - apply score_of_elem, Hs in E. simpl in E. rewrite Hd. simpl. unfold DIRECT_CACHE_MAX_FAILURES in Hd.
    repeat case_match; lia.
  - simpl. case_match; lia.
Qed.

Lemma endpoint_score_other p s ep : scores_ok s -> ep_eqb p ep = false -> endpoint_score (Some p) s ep <= 2500.
Proof.
  intros Hs Hp. unfold endpoint_score. rewrite Hp.
  destruct (score_of (score_key ep) (ms_scores s)) as [st|] eqn:E.
  - apply score_of_elem, Hs in E. simpl in E. repeat case_match; lia.
  - repeat case_match; lia.
Qed.

(** The order of dialling: every endpoint is tried exactly once, in the
    order of decreasing score, and the endpoint the last connection used comes
    first unless it failed twice in a row. *)
Theorem preferred_direct_order preferred eps s :
  scores_ok s ->
  let r := preferred_direct_endpoints preferred eps s in
  r ≡ₚ eps /\
  StronglySorted (fun a b => endpoint_score preferred s b <= endpoint_score preferred s a) r /\
  (forall p ep, preferred = Some p -> ep ∈ eps -> ep_eqb p ep = true -> direct_cache_endpoint_degraded p s = false ->
     exists e, head r = Some e /\ ep_eqb p e = true).
Proof.
  intros Hs r.
  assert (r ≡ₚ eps) as Hperm.
  { unfold r, preferred_direct_endpoints. rewrite (sort_by_perm ranked_le).
    by rewrite (imap_fmap_snd (fun i ep => (endpoint_score preferred s ep, i))). }
  split; [done|]. pose proof (preferred_sorted preferred eps s) as Hsort. fold r in Hsort. split; [done|].
  intros p ep -> Hin Hp Hd. destruct r as [|e l] eqn:Hr.
  { apply Permutation_nil_l in Hperm as <-. set_solver. }
  exists e. split; [done|]. destruct (ep_eqb p e) eqn:He; [done|]. exfalso.
  pose proof (endpoint_score_preferred p s ep Hs Hp Hd). pose proof (endpoint_score_other p s e Hs He).
  assert (ep ∈ e :: l) as Hin' by (by rewrite Hperm). apply elem_of_cons in Hin' as [->|Hl]; [lia|].
  inversion Hsort as [|? ? ? HF]; subst. rewrite Forall_forall in HF. specialize (HF _ Hl). simpl in HF. lia.
Qed.

Definition demo_ep (last : Z) (a : EndpointArea) (p : Protocol) : Endpoint := mkEndpoint a p (V4 (mkV4 203 0 113 last) 4000).

(** The remembered endpoint failed once, the static one never. *)
Lemma preferred_direct_order_witness :
  let s := on_direct_connect_result 9 (demo_ep 2 Lan Tcp) false (mkManagerState [] ∅ ∅ 0 ∅) in
  let eps := [demo_ep 1 Wan Quic; demo_ep 2 Lan Tcp] in
  exists e, head (preferred_direct_endpoints (Some (demo_ep 2 Lan Tcp)) eps s) = Some e /\ ep_eqb (demo_ep 2 Lan Tcp) e = true.
Proof.
  intros s eps. apply (preferred_direct_order (Some (demo_ep 2 Lan Tcp)) eps s) with (ep := demo_ep 2 Lan Tcp);
    [|done|by right; left|by vm_compute|by vm_compute].
  apply connect_result_scores_ok. intros x Hx. by apply not_elem_of_nil in Hx.
Defined.

(** ** Requests the super node accepts *)

Lemma ep_eqb_sym a b : ep_eqb a b = ep_eqb b a.
Proof. apply Bool.eq_iff_eq_true. by rewrite !ep_eqb_key. Qed.

Definition distinct_eps (eps : list Endpoint) : Prop := NoDup (score_key <$> eps).

Lemma push_unique_distinct eps ep : distinct_eps eps -> distinct_eps (push_unique_endpoint eps ep).
Proof.
  unfold distinct_eps, push_unique_endpoint. intros Hd. destruct (existsb _ eps) eqn:E; [done|].
  rewrite fmap_app. apply NoDup_app. split; [done|]. split; [|apply NoDup_singleton].
  intros k (x & -> & Hx)%list_elem_of_fmap Hk%list_elem_of_singleton.
  assert (existsb (fun x => ep_eqb x ep) eps = true); [|congruence].
  apply existsb_exists. exists x. split; [by apply list_elem_of_In|by apply ep_eqb_key].
Qed.

Lemma push_unique_Forall (P : Endpoint -> Prop) eps ep :
  Forall P eps -> P ep -> Forall P (push_unique_endpoint eps ep).
Proof. unfold push_unique_endpoint. intros HF Hp. case_match; [done|]. apply Forall_app. by repeat constructor. Qed.

Lemma push_unique_length eps ep : (length (push_unique_endpoint eps ep) <= S (length eps))%nat.
Proof. unfold push_unique_endpoint. case_match; rewrite ?length_app; simpl; lia. Qed.

Lemma base_loop_spec (P : Endpoint -> Prop) eps result :
  (length result < MAX_NAT_PLAN_CANDIDATES)%nat -> distinct_eps result -> Forall P result -> Forall P eps ->
  (length (base_loop eps result) <= MAX_NAT_PLAN_CANDIDATES)%nat /\ distinct_eps (base_loop eps result) /\
  Forall P (base_loop eps result).
Proof.
  revert result. induction eps as [|ep eps IH]; intros result Hl Hd HP HF; cbn [base_loop];
    [split; [unfold MAX_NAT_PLAN_CANDIDATES in *; lia|done]|].
  apply Forall_cons in HF as [Hp HF]. pose proof (push_unique_length result ep) as Hlen.
  destruct (Nat.leb_spec MAX_NAT_PLAN_CANDIDATES (length (push_unique_endpoint result ep))).
  - split; [unfold MAX_NAT_PLAN_CANDIDATES in *; lia|]. split; [by apply push_unique_distinct|by apply push_unique_Forall].
  - apply IH; [done|by apply push_unique_distinct|by apply push_unique_Forall|done].
Qed.

(** A list of distinct, eligible endpoints of one transport passes the loop. *)
Lemma validate_loop_ok feature probe op transport unique eps :
  (transport = Quic \/ transport = Tcp) ->
  Forall (fun ep => protocol ep = transport /\ base_usable feature op ep = true) eps ->
  distinct_eps (unique ++ eps) -> validate_loop feature probe op (Some transport) unique eps = Ok tt.
Proof.
  intros Ht. revert unique. induction eps as [|ep eps IH]; intros unique HF Hd; [done|].
  apply Forall_cons in HF as [[Hp Hu] HF]. unfold base_usable in Hu. apply andb_true_iff in Hu as [He Hport%negb_true_iff].
  simpl. rewrite bool_decide_true by congruence. rewrite He, Hport, Hp.
  assert (hashset_contains probe unique ep = false) as ->.
  { apply not_true_iff_false. intros (x & Hx%list_elem_of_In & Hxe)%existsb_exists.
    apply andb_true_iff in Hxe as [_ Hk%ep_eqb_key]. unfold distinct_eps in Hd. rewrite fmap_app, fmap_cons in Hd.
    apply NoDup_app in Hd as (_ & Hd & _). apply (Hd (score_key x)); [by apply list_elem_of_fmap_2|].
    rewrite Hk. by left. }
  replace (negb (match transport with Quic | Tcp => true | _ => false end)) with false by (by destruct Ht as [-> | ->]).
  simpl. apply IH; [done|]. unfold distinct_eps in *. rewrite fmap_app, fmap_cons in *. simpl in *.
  by rewrite Permutation_middle.
Qed.

Lemma base_endpoints_spec feature eps op :
  let r := rendezvous_base_endpoints feature eps op in
  (length r <= MAX_NAT_PLAN_CANDIDATES)%nat /\ distinct_eps r /\
  Forall (fun ep => protocol ep = rendezvous_anchor feature eps op /\ base_usable feature op ep = true) r.
Proof.
  apply base_loop_spec; [unfold MAX_NAT_PLAN_CANDIDATES; simpl; lia|constructor|constructor|].
  apply Forall_forall. intros ep [Hf _]%list_elem_of_filter. apply Is_true_true, andb_true_iff in Hf as [Hp Hu].
  by apply bool_decide_eq_true in Hp.
Qed.

(** The client and the super node agree: whatever local endpoints the
    client has, the request it builds for a plan of its own, when it builds one,
    passes the validation the super node and the other peer apply to it, with
    whatever layout their hash set has. *)
Theorem rendezvous_request_accepted feature probe context now caller_public callee_public plan local_eps eps
    seq tunnel_id to_peer predict :
  rendezvous_plan (select_connect_plan context now caller_public callee_public) = Some plan ->
  rendezvous_request_endpoints feature plan local_eps = Some (Ok eps) -> seq <> 0 ->
  rendezvous_validate feature probe (mkRendezvous seq tunnel_id to_peer (rp_operation plan) eps predict) = Ok tt.
Proof.
  intros Hplan Hreq Hseq.
  assert (requires_endpoints (rp_operation plan) = bool_decide (is_Some (rp_request_candidates plan))) as Hr.
  { revert Hplan. generalize (select_connect_plan context now caller_public callee_public). intros p.
    unfold rendezvous_plan. destruct (connector p) as [[]|]; [|destruct (peer_candidates p)|]; intros [= <-]; simpl;
      [by destruct (peer_candidates p)|done..]. }
  unfold rendezvous_validate. simpl. destruct (Z.eqb_spec seq 0); [done|].
  unfold validate_rendezvous_endpoints. rewrite Hr. unfold rendezvous_request_endpoints in Hreq.
  destruct (rp_request_candidates plan) as [[]|] eqn:Hc; [| |].
  - pose proof (base_endpoints_spec feature local_eps (rp_operation plan)) as (Hlen & Hd & HF).
    destruct (rendezvous_base_endpoints feature local_eps (rp_operation plan)) as [|e l] eqn:He; [done|].
    injection Hreq as <-. destruct (Nat.ltb_spec MAX_SN_TUNNEL_RENDEZVOUS_ENDPOINTS (length (e :: l))) as [Hlt|_].
    { unfold MAX_SN_TUNNEL_RENDEZVOUS_ENDPOINTS, MAX_NAT_PLAN_CANDIDATES in *. simpl in *. lia. }
    rewrite (bool_decide_false (e :: l = [])), bool_decide_true by done. cbn [negb Bool.eqb].
    change (protocol <$> head (e :: l)) with (Some (protocol e)).
    pose proof HF as [[Hp _] _]%Forall_cons. rewrite Hp.
    assert (punches (rp_operation plan) && negb (bool_decide (Some (rendezvous_anchor feature local_eps (rp_operation plan)) = Some Quic)) = false) as ->.
    { unfold rendezvous_anchor. destruct (punches _); [|done]. by rewrite bool_decide_true. }
    apply (validate_loop_ok _ _ _ _ []); [|done|done]. unfold rendezvous_anchor. repeat case_match; auto.
  - done.
  - injection Hreq as <-. simpl.
    assert (punches (rp_operation plan) = false) as ->; [|done].
    rewrite bool_decide_false in Hr by (intros []; done). by destruct (rp_operation plan).
Qed.

Lemma rendezvous_request_accepted_witness :
  let plan := mkRendezvousPlan PunchAndReverseConnect (Some Base) true (CallerPunchThenWait true) in
  let local_eps := [demo_ep 1 Lan Quic; demo_ep 2 ServerReflexive Quic; demo_ep 2 Wan Quic; demo_ep 3 Mapped Tcp] in
  rendezvous_validate false (fun _ _ => true)
    (mkRendezvous 5 6 (mkP2pId [2]) (rp_operation plan) [demo_ep 2 ServerReflexive Quic] true) = Ok tt.
Proof.
  intros plan local_eps.
  apply (rendezvous_request_accepted false (fun _ _ => true) sample_context 5000 false false plan local_eps);
    [by vm_compute|by vm_compute|done].
Defined.

(** An endpoint observed by the super node that equals the address a listener is
    bound to is dropped in favour of the listener's, whose area is [Lan]: a peer
    on a public address then has nothing to offer in a rendezvous. *)
Lemma public_listener_hides_observed :
  let listener := mkListenerInfo (demo_ep 9 Lan Quic) None in
  let observed := demo_ep 9 ServerReflexive Quic in
  let offered := collect_reverse_endpoints_from_sources false [(Quic, [listener])] [observed] in
  base_usable false PunchOnly observed = true /\ offered = [demo_ep 9 Lan Quic] /\
  rendezvous_base_endpoints false offered PunchOnly = [].
Proof. by vm_compute. Qed.

(** ** The hedged race *)

Definition succeeds {A} (o : outcome A) (t : Z) (v : A) : Prop := o = Some (t, Ok v).
Definition fails {A} (o : outcome A) (t : Z) (e : P2pErrorCode.t) : Prop := o = Some (t, Err e).

(** The race has the result of the first success; when both paths fail, the
    error of the one that failed first, once both have. *)
Lemma race_with_delay_spec {A} tie (direct : outcome A) delay reverse t r won :
  race_with_delay tie direct delay reverse = Some (t, (r, won)) ->
  match r with
  | Ok v => (won = true -> succeeds direct t v) /\ (won = false -> succeeds reverse (t - delay) v) /\
            (forall t' v', succeeds direct t' v' -> t <= t') /\
            (forall t' v', succeeds reverse t' v' -> t <= delay + t')
  | Err e => exists td ed tr er, fails direct td ed /\ fails reverse tr er /\ t = Z.max td (delay + tr) /\
            e = (if (td <? delay + tr) || ((td =? delay + tr) && tie) then ed else er)
  end.
Proof.
  unfold race_with_delay, succeeds, fails.
  destruct direct as [[td [vd|ed]]|], reverse as [[tr [vr|er]]|]; simpl; try done; intros H;
    try (destruct ((td <? delay + tr) || ((td =? delay + tr) && tie)) eqn:E);
    injection H as <- <- <-; try (split_and!; intros; simplify_eq; repeat f_equal; lia);
    eexists _, _, _, _; (split; [done|]); (split; [done|]); rewrite E; (split; [lia|done]).
Qed.

(** ** The race of the dialled candidates *)
Section race.
Context {T : Type} `{!TunnelOps T, !TunnelWork T, !TunnelLaws T}.
Implicit Types (m : TunnelManager T).

Definition produced (results : list (Endpoint * P2pResult nat)) : list nat :=
  omap (fun x => match snd x with Ok r => Some r | Err _ => None end) results.

Lemma note_connect_ok now ep ok m : registry_ok m -> registry_ok (note_connect now ep ok m).
Proof. by intros [Ht Hg Hk]; split. Qed.

Lemma reconcile_frame now remote m m' :
  reconcile now remote m = Some m' ->
  tm_tunnels m' = tm_tunnels m /\ tm_heap m' = tm_heap m /\ tm_log m' = tm_log m.
Proof. by intros (b & s & -> & _)%reconcile_spec. Qed.

(** What a registration does to tables, tunnels and subscribers. *)
Lemma register_effect now r m res m' :
  registry_ok m -> register_tunnel now r m = Some (res, m') ->
  let remote := tn_remote_id (tm_heap m r) in
  tm_log m' = tm_log m /\
  match res with
  | Ok _ => tm_heap m' = tm_heap m /\
      (if P2pId_is_default remote then m' = m
       else exists es, entries_of remote m' = es ++ [mkTunnelEntry r now false] /\
              List.find (same_candidate (tm_heap m r) (tm_heap m)) es = None)
  | Err _ => (forall x, x <> r -> tm_heap m' x = tm_heap m x) /\
      (forall k e, registered m' k e -> registered m k e)
  end.
Proof.
  intros Hok. unfold register_tunnel. destruct (P2pId_is_default _) eqn:Hd; [by intros [= <- <-]|].
  set (remote := tn_remote_id _). set (es := retain_available _ _).
  assert (forall k e, registered (set_tunnels (<[remote := es]> (tm_tunnels m)) m) k e -> registered m k e) as Hsub.
  { intros k e. unfold registered. destruct (decide (k = remote)) as [->|Hne].
    - rewrite entries_of_insert. by intros [_ ?]%retain_available_elem.
    - unfold entries_of. simpl. by rewrite lookup_insert_ne. }
  destruct (List.find _ es) as [e|] eqn:Hf.
  - destruct (reconcile _ _ _) as [m1|] eqn:Hr; simpl; [|done]. intros [= <- <-].
    apply reconcile_frame in Hr as (Htun & Hh & Hl). simpl in *.
    case_match; [rewrite Hh, Hl; split; [done|]; split; [done|]|].
    + intros k x Hx. apply Hsub. unfold registered, entries_of in *. simpl. by rewrite <-Htun.
    + unfold close_tunnel. destruct (tn_close _) as [? t]. simpl. rewrite Hl. split; [done|]. split.
      * intros x Hx. rewrite fn_lookup_insert_ne by done. by rewrite Hh.
      * intros k x Hx. apply Hsub. unfold registered, entries_of in *. simpl in *. by rewrite <-Htun.
  - set (es' := es ++ _). set (m1 := set_tunnels _ m).
    assert (entries_of remote m1 = es') as Hes by apply entries_of_insert.
    destruct (has_live_direct _ es'); simpl; [|case_match].
    + intros [= <- <-]. split; [done|]. split; [done|]. by exists es.
    + destruct (insert_proxy_upgrade _ _ _) as [s|]; simpl; [|done]. intros [= <- <-].
      split; [done|]. split; [done|]. by exists es.
    + destruct (reconcile _ _ _) as [m2|] eqn:Hr; simpl; [|done]. intros [= <- <-].
      apply reconcile_frame in Hr as (Htun & Hh & Hl). split; [done|]. split; [done|]. exists es.
      split; [|done]. unfold entries_of in *. by rewrite Htun.
Qed.

Lemma publish_entry_last t h now es e :
  List.find (same_candidate t h) es = None -> same_candidate t h e = true -> te_published e = false ->
  publish_entry t h now (es ++ [e]) = Some (true, es ++ [mkTunnelEntry (te_tunnel e) now true]).
Proof.
  intros Hf Hs Hp. induction es as [|x es IH]; simpl in *; [by rewrite Hs, Hp|].
  destruct (same_candidate t h x); [done|]. by rewrite IH.
Qed.

(** Registering and publishing: all or nothing. *)
Lemma register_publish_effect now r m res m' :
  registry_ok m -> register_tunnel_and_publish now r m = Some (res, m') ->
  registry_ok m' /\
  match res with
  | Ok _ => tm_heap m' = tm_heap m /\ registered m' (tn_remote_id (tm_heap m r)) (mkTunnelEntry r now true) /\
            tm_log m' = tm_log m ++ [Told r]
  | Err _ => (forall x, x <> r -> tm_heap m' x = tm_heap m x) /\
             (forall k e, registered m' k e -> registered m k e)
  end.
Proof.
  intros Hok. unfold register_tunnel_and_publish.
  destruct (register_tunnel now r m) as [[[u|e] m1]|] eqn:Hr; simpl; [| |done].
  - intros [= Hp]. assert (registry_ok m1) as Hok1 by by eapply register_tunnel_ok.
    apply (register_effect _ _ _ _ _ Hok) in Hr as (Hl & Hh & Hes).
    split; [by eapply publish_ok|]. unfold publish_registered_tunnel in Hp. rewrite Hh in Hp.
    destruct (P2pId_is_default (tn_remote_id (tm_heap m r))) eqn:Hd.
    + subst m1. assert (entries_of (tn_remote_id (tm_heap m r)) m = []) as He.
      { unfold entries_of. destruct (tm_tunnels m !! _) as [es|] eqn:E; [|done].
        destruct (ok_table _ Hok _ _ E) as [_ [Hd' _ _]]. congruence. }
      rewrite He in Hp. simpl in Hp. by injection Hp as <- <-.
    + destruct Hes as (es & He & Hf). rewrite He, publish_entry_last in Hp; [|done| |done].
      * injection Hp as <- <-. simpl. split; [done|]. split; [|by rewrite Hl].
        unfold registered, entries_of. simpl. rewrite lookup_insert_eq. set_solver.
      * by apply same_candidate_cand.
  - intros [= <- <-]. split; [by eapply register_tunnel_ok|].
    by apply (register_effect _ _ _ _ _ Hok) in Hr as (_ & Hh & Hsub).
Qed.

Lemma close_tunnel_frame r m x : x <> r -> tm_heap (snd (close_tunnel r m)) x = tm_heap m x.
Proof. unfold close_tunnel. intros Hx. destruct (tn_close _). simpl. by apply fn_lookup_insert_ne. Qed.

Lemma close_tunnel_tables r m :
  tm_tunnels (snd (close_tunnel r m)) = tm_tunnels m /\ tm_log (snd (close_tunnel r m)) = tm_log m.
Proof. unfold close_tunnel. by destruct (tn_close _). Qed.

Lemma abandon_spec now rest m :
  registry_ok m -> NoDup (produced rest) ->
  let m' := foldl (abandon now) m rest in
  registry_ok m' /\ tm_tunnels m' = tm_tunnels m /\ tm_log m' = tm_log m /\
  (forall r, r ∉ produced rest -> tm_heap m' r = tm_heap m r) /\
  (forall r, r ∈ produced rest -> tn_is_closed (tm_heap m' r) = true).
Proof.
  revert m. induction rest as [|[ep res] rest IH]; intros m Hok Hnd; [split_and!; try done; set_solver|].
  destruct res as [r|e]; simpl in *.
  - apply NoDup_cons in Hnd as [Hr Hnd]. unfold abandon at 1 3 5 7 9. simpl.
    destruct (IH (snd (close_tunnel r (note_connect now ep true m)))) as (H1 & H2 & H3 & H4 & H5);
      [by apply close_tunnel_ok, note_connect_ok|done|].
    destruct (close_tunnel_tables r (note_connect now ep true m)) as [Ht Hl].
    rewrite Ht in H2. rewrite Hl in H3. split_and!; [done|done|done| |].
    + intros x Hx. rewrite H4 by set_solver. rewrite close_tunnel_frame by set_solver. done.
    + intros x [->|Hx]%elem_of_cons; [|by apply H5]. rewrite H4 by done. apply close_tunnel_closes.
  - by apply (IH (note_connect now ep false m)); [apply note_connect_ok|].
Qed.

Definition fresh_tunnels m (rs : list nat) : Prop :=
  forall k e, registered m k e -> te_tunnel e ∉ rs.

Lemma direct_race_frame now results err m res m' :
  registry_ok m -> NoDup (produced results) -> fresh_tunnels m (produced results) ->
  direct_race now err results m = Some (res, m') ->
  registry_ok m' /\ (forall r, r ∉ produced results -> tm_heap m' r = tm_heap m r) /\
  (forall r, r ∈ produced results -> res = Ok r \/ tn_is_closed (tm_heap m' r) = true) /\
  (forall r, res = Ok r -> r ∈ produced results /\ tm_heap m' r = tm_heap m r /\ Told r ∈ tm_log m' /\
     exists e, registered m' (tn_remote_id (tm_heap m r)) e /\ te_tunnel e = r /\ te_published e = true).
Proof.
  revert err m. induction results as [|[ep [r|e]] rest IH]; intros err m Hok Hnd Hfresh; simpl.
  - intros [= <- <-]. split_and!; try done; set_solver.
  - simpl in Hnd, Hfresh. apply NoDup_cons in Hnd as [Hr Hnd].
    destruct (register_tunnel_and_publish now r (note_connect now ep true m)) as [[reg m2]|] eqn:Hreg; simpl; [|done].
    apply register_publish_effect in Hreg as [Hok2 Heff]; [|by apply note_connect_ok].
    destruct reg as [u|e].
    + intros [= <- <-]. destruct Heff as (Hh & Hreg & Hl).
      destruct (abandon_spec now rest m2 Hok2 Hnd) as (H1 & H2 & H3 & H4 & H5). split; [done|]. split; [|split].
      * intros x Hx. rewrite H4 by set_solver. by rewrite Hh.
      * intros x [->|Hx]%elem_of_cons; [by left|right; by apply H5].
      * intros x [= <-]. split; [by left|]. split; [rewrite H4 by done; by rewrite Hh|].
        split; [rewrite H3, Hl; set_solver|]. exists (mkTunnelEntry r now true).
        split; [|done]. unfold registered, entries_of. rewrite H2. exact Hreg.
    + destruct Heff as (Hh & Hsub). intros Hrace.
      destruct (close_tunnel_tables r m2) as [Ht _].
      apply IH in Hrace as (H1 & H2 & H3 & H4); [|by apply close_tunnel_ok|done|].
      2:{ intros k x Hx. unfold registered, entries_of in Hx. rewrite Ht in Hx. apply Hsub in Hx. apply Hfresh in Hx. set_solver. }
      split; [done|]. split; [|split].
      * intros x Hx. rewrite H2 by set_solver. rewrite close_tunnel_frame by set_solver. apply Hh. set_solver.
      * intros x [->|Hx]%elem_of_cons; [right|by apply H3]. rewrite H2 by done. apply close_tunnel_closes.
      * intros x Hx. destruct (H4 x Hx) as (Hin & Hheap & Htold & Hex).
        assert (x <> r) as Hne by set_solver. rewrite close_tunnel_frame in Hheap, Hex by done.
        rewrite (Hh x Hne) in Hheap, Hex. split; [by right|]. done.
  - intros Hrace. apply IH in Hrace; [done|by apply note_connect_ok|done|done].
Qed.
End race.

(** No dialled connection leaks: however many candidates of a direct path
    connect, in whatever order, one that got registered is handed out,
    published, announced once and left untouched, every other tunnel that was
    established is closed, and when none can be registered the path fails with
    all of them closed. *)
Theorem direct_race_no_leak {T} `{!TunnelOps T, !TunnelWork T, !TunnelLaws T} now results (m : TunnelManager T) res m' :
  registry_ok m -> NoDup (produced results) -> fresh_tunnels m (produced results) ->
  direct_race now None results m = Some (res, m') ->
  registry_ok m' /\
  (forall r, r ∈ produced results -> res = Ok r \/ tn_is_closed (tm_heap m' r) = true) /\
  (forall r, res = Ok r -> r ∈ produced results /\ tm_heap m' r = tm_heap m r /\ Told r ∈ tm_log m' /\
     exists e, registered m' (tn_remote_id (tm_heap m r)) e /\ te_tunnel e = r /\ te_published e = true) /\
  (forall r, r ∉ produced results -> tm_heap m' r = tm_heap m r).
Proof. intros Hok Hnd Hf Hr. by destruct (direct_race_frame _ _ _ _ _ _ Hok Hnd Hf Hr) as (? & ? & ? & ?). Qed.

(** Three candidates: one fails, the next wins, the last is too late. *)
Definition demo_results : list (Endpoint * P2pResult nat) :=
  [(demo_ep 1 Wan Tcp, Err P2pErrorCode.Timeout); (demo_ep 2 Wan Quic, Ok 4%nat); (demo_ep 3 Lan Tcp, Ok 1%nat)].

Lemma direct_race_no_leak_witness :
  exists m', direct_race 10 None demo_results (manager_new (mkP2pId [1]) 0 demo_heap) = Some (Ok 4%nat, m') /\
    tn_is_closed (tm_heap m' 1%nat) = true /\ Told 4 ∈ tm_log m'.
Proof.
  destruct (direct_race 10 None demo_results (manager_new (mkP2pId [1]) 0 demo_heap)) as [[res m']|] eqn:E;
    [|by vm_compute in E].
  assert (res = Ok 4%nat) as -> by (vm_compute in E; by injection E as <- _).
  assert (registry_ok (manager_new (mkP2pId [1]) 0 demo_heap)) as Hok.
  { split; [intros r es Hes|split; [done|intros r u Hu]|intros r [u Hu]]; simpl in *; by rewrite lookup_empty in *. }
  assert (NoDup (produced demo_results)) as Hnd by (apply (bool_decide_unpack _); by vm_compute).
  assert (fresh_tunnels (manager_new (mkP2pId [1]) 0 demo_heap) (produced demo_results)) as Hfresh.
  { intros k e He. unfold registered, entries_of in He. simpl in He. rewrite lookup_empty in He.
    by apply not_elem_of_nil in He. }
  destruct (direct_race_no_leak 10 demo_results _ _ _ Hok Hnd Hfresh E) as (_ & Hc & Hw & _).
  exists m'. split; [done|]. split; [|by apply Hw]. destruct (Hc 1%nat) as [?|?]; [by right; left|done|done].
Defined.

(** ** The order of the paths *)

(** Without the fallback, opening a tunnel never uses the relay: the background
    upgrade cannot replace a relayed tunnel by another one. *)
Lemma open_without_fallback_ignores_proxy {M} existing cache_get cache_remove degraded prefer direct hedged reverse
    (proxy proxy' : M -> P2pResult nat * M) sn eps reuse m :
  open_known_tunnel_with_options existing cache_get cache_remove degraded prefer direct hedged reverse proxy sn eps reuse false m =
  open_known_tunnel_with_options existing cache_get cache_remove degraded prefer direct hedged reverse proxy' sn eps reuse false m.
Proof. done. Qed.

(** With the fallback, failure means that the relay itself refused. *)
Lemma open_with_fallback_fails_last {M} existing cache_get cache_remove degraded prefer direct hedged reverse
    (proxy : M -> P2pResult nat * M) sn eps reuse m e m' :
  eps <> [] ->
  open_known_tunnel_with_options existing cache_get cache_remove degraded prefer direct hedged reverse proxy sn eps reuse true m
    = (Err e, m') ->
  exists m1, proxy m1 = (Err e, m').
Proof.
  intros Hne. unfold open_known_tunnel_with_options. rewrite bool_decide_false by done.
  destruct (existing reuse m) as [[r|] m0]; [done|].
  set (tail := fun (_ : option P2pErrorCode.t) (m : M) => _).
  assert (forall x y, tail x y = (Err e, m') -> exists m1, proxy m1 = (Err e, m')) as Htail.
  { intros x y. unfold tail, try_path. repeat case_match; naive_solver. }
  unfold cached_path, try_path. repeat case_match; try done; by apply Htail.
Qed.
