(* ===== verification/TcpTunnelObject.v ===== *)
(** * TCP tunnels as objects of the tunnel manager

    The tunnel of networks/tcp/tunnel.rs implements the trait [Tunnel] through
    which the manager handles it.  Here the model of the TCP tunnel becomes an
    instance of the class the manager's theorems are stated over, with its laws:
    what the manager relies on holds of TCP tunnels. *)

From stdpp Require Import functions.
From S2P Require Import Prelude.
From S2P Require Import Errors.
From S2P Require Import Ids.
From S2P Require Import TunnelActivity.
From S2P Require Import TcpTunnel.
From S2P Require Import TunnelManager.

(** The tunnel with the identity its constructor fixes. *)
Record TcpTunnelObject := mkTcpObject { tco_tunnel_id : Z; tco_is_reverse : bool; tco_tunnel : TcpTunnel }.

Definition with_tunnel (t : TcpTunnel) (o : TcpTunnelObject) : TcpTunnelObject :=
  mkTcpObject (tco_tunnel_id o) (tco_is_reverse o) t.

(** [impl Tunnel for TcpTunnel]. *)
#[global] Instance TcpTunnel_ops : TunnelOps TcpTunnelObject := {
  tn_tunnel_id := tco_tunnel_id;
  tn_candidate_id o := tt_candidate_id (tco_tunnel o);
  tn_form o := tt_form (tco_tunnel o);
  tn_is_reverse := tco_is_reverse;
  tn_remote_id o := tt_remote_id (tco_tunnel o);
  tn_state o := external_state (tt_phase (tco_tunnel o));
  tn_is_closed o := tt_closed (tco_tunnel o);
  tn_business_at o := latest_business_activity_at (tt_activity (tco_tunnel o));
  tn_try_retire now d o :=
    let '(b, a) := try_retire_idle now d (tt_activity (tco_tunnel o)) in
    (b, with_tunnel (set_activity a (tco_tunnel o)) o);
  tn_close o := (Ok tt, with_tunnel (snd (close_local Closed P2pErrorCode.Interrupted (tco_tunnel o))) o) }.

#[global] Instance TcpTunnel_work : TunnelWork TcpTunnelObject := fun o =>
  let a := tt_activity (tco_tunnel o) in negb (pending_open_count a =? 0) || negb (work_instance_num a =? 0).

Lemma close_opens_identity reason qs t :
  tt_pending_claims t = ∅ ->
  tt_identity (foldl (close_open_request reason) t qs) = tt_identity t.
Proof.
  revert t. induction qs as [|[rid p] qs IH]; intros t Hc; [done|]. simpl.
  assert (quiet t (retire_staged (pr_staged p) reason t)) as Hq.
  { unfold retire_staged. destruct (pr_staged p); [by apply retire_plain_quiet|apply quiet_refl]. }
  rewrite IH; unfold close_open_request; simpl; destruct (pr_sender p); simpl;
    first [by rewrite (q_claims _ _ Hq) | exact (q_identity _ _ Hq)].
Qed.

Lemma close_local_identity phase reason t : tt_identity (snd (close_local phase reason t)) = tt_identity t.
Proof.
  unfold close_local. destruct (tt_closed t); [done|]. simpl. rewrite claim_answers_fold.
  match goal with |- context [foldl (close_open_request reason) ?u _] => set (t1 := u) end.
  pose proof (close_opens_identity reason (map_to_list (tt_pending_open t)) t1 eq_refl) as Hid.
  destruct (close_opens reason (map_to_list (tt_pending_open t)) t1) as (_ & _ & Hc & _); [done|].
  set (t2 := foldl _ t1 _) in *.
  match goal with |- context [foldl (close_entry reason) ?u ?rs] => destruct (close_entries reason rs u) as [Hq _]; [exact Hc|] end.
  etrans; [exact (q_identity _ _ Hq)|]. exact Hid.
Qed.

Lemma close_local_closed phase reason t : tt_closed (snd (close_local phase reason t)) = true.
Proof.
  unfold close_local. destruct (tt_closed t) eqn:E; [done|]. simpl. rewrite claim_answers_fold.
  match goal with |- context [foldl (close_open_request reason) ?u _] => set (t1 := u) end.
  destruct (close_opens reason (map_to_list (tt_pending_open t)) t1) as (_ & _ & Hc & _ & _ & Hf & _); [done|].
  set (t2 := foldl _ t1 _) in *.
  match goal with |- context [foldl (close_entry reason) ?u ?rs] => destruct (close_entries reason rs u) as [Hq _]; [exact Hc|] end.
  destruct (q_flags _ _ Hq) as [-> _]. exact Hf.
Qed.

#[global] Instance TcpTunnel_laws : TunnelLaws TcpTunnelObject.
Proof.
  split.
  - intros now d [id rev t] Hb. unfold tn_busy, TcpTunnel_work in Hb. simpl in *. rewrite try_retire_busy by done.
    unfold with_tunnel, set_activity, upd_phase. by destruct t.
  - intros now d [id rev t]. simpl. by destruct (try_retire_idle _ _ _).
  - intros [id rev t]. pose proof (close_local_identity Closed P2pErrorCode.Interrupted t) as H.
    unfold tt_identity in H. injection H as H1 H2 H3 H4. unfold tn_identity. simpl. by rewrite H1, H3, H4.
  - intros [id rev t]. apply close_local_closed.
Qed.

(** What closing through the manager does to a TCP tunnel. *)
Lemma manager_close_settles r (m : TunnelManager TcpTunnelObject) :
  let t := tco_tunnel (tm_heap m r) in let t' := tco_tunnel (tm_heap (snd (close_tunnel r m)) r) in
  tt_closed t = false -> tt_pending_claims t' = ∅ /\ tt_pending_open t' = ∅ /\ lifecycle (tt_activity t') = ActRetired.
Proof.
  cbv zeta. intros Hc. unfold close_tunnel. simpl. rewrite fn_lookup_insert. simpl.
  unfold close_local. rewrite Hc. simpl. rewrite claim_answers_fold.
  match goal with |- context [foldl (close_open_request ?reason) ?u ?qs] =>
    set (t1 := u); destruct (close_opens reason qs t1) as (_ & _ & Hp & Ho & _ & _ & _ & Ha); [done|] end.
  set (t2 := foldl _ t1 _) in *.
  match goal with |- context [foldl (close_entry ?reason) ?u ?rs] => destruct (close_entries reason rs u) as [[] _]; [exact Hp|] end.
  destruct q_flags as (_ & _ & Q). rewrite q_claims, q_opens, Q. simpl. rewrite Hp, Ho, Ha. done.
Qed.
