(* ===== verification/PnTraffic.v ===== *)
(** * Traffic accounting of the proxy node (pn/service/pn_server.rs)

    A proxy node counts the bytes each user relays, limits their rate and
    forgets a user some time after its last session.  [PnTrafficManager] is the
    manager with its users, configured limits and cleanup deadlines; entries
    ([Arc<PnUserTrafficEntry>]) live in a list and are shared by index, so that
    [Arc::ptr_eq] is equality of indices.  The statistics and limiters of the
    crate sfo_io are the classes [SpeedStatOps] and [LimiterOps].  [tr_step]
    interleaves sessions, configuration, snapshots, the cleanup task and
    shutdown; the theorems show that the ledger of sessions is exact, that no
    user in use is forgotten, that the task never sleeps past a deadline, and
    that consumed snapshots partition the counted bytes. *)

From S2P Require Import Prelude.
From S2P Require Import Errors.
From S2P Require Import Ids.

(** ** Least elements of ordered collections

    [BTreeMap] and [BTreeSet] are [gmap] and [gset]; their first elements are
    least elements under the key's order. *)
Section least.
Context {A : Type} (cmp : A -> A -> comparison).

Definition least (l : list A) : option A :=
  foldr (fun x acc => match acc with
                      | Some y => if cmp_le cmp x y then Some x else Some y
                      | None => Some x
                      end) None l.

Lemma least_None l : least l = None <-> l = [].
Proof. destruct l as [|x l]; simpl; [done|]. destruct (least l); [|done]. by case_match. Qed.

Lemma least_Some `{!TotalCompare cmp} l x :
  least l = Some x -> x ∈ l /\ forall y, y ∈ l -> cmp_le cmp x y = true.
Proof.
  revert x. induction l as [|a l IH]; intros x; simpl; [done|].
  destruct (least l) as [y|] eqn:E.
  - destruct (IH y eq_refl) as [Hin Hle]. unfold cmp_le in *.
    destruct (cmp a y) eqn:Ec; intros [= <-]; (split; [set_solver|]); intros z [->|Hz]%elem_of_cons.
    + by rewrite cmp_refl.
    + apply (cmp_eq cmp) in Ec as ->. by apply Hle.
    + by rewrite cmp_refl.
    + specialize (Hle z Hz). destruct (cmp y z) eqn:Ez; [|by rewrite (cmp_lt_trans cmp a y z)|done].
      apply (cmp_eq cmp) in Ez as ->. by rewrite Ec.
    + apply cmp_Gt_Lt in Ec; [|done]. by rewrite Ec.
    + by apply Hle.
  - apply least_None in E as ->. intros [= <-]. split; [set_solver|].
    intros y ->%list_elem_of_singleton. unfold cmp_le. by rewrite cmp_refl.
Qed.
End least.

(** ** The interface of sfo_io *)
Class SpeedStatOps (S : Type) := {
  stat_new : S;
  get_read_sum_size : S -> Z;
  get_write_sum_size : S -> Z;
  get_read_speed : S -> Z;
  get_write_speed : S -> Z;
  add_read_data_size : Z -> S -> S;
  add_write_data_size : Z -> S -> S }.

Class SpeedStatLaws (S : Type) `{!SpeedStatOps S} : Prop := {
  stat_new_sums : get_read_sum_size stat_new = 0 /\ get_write_sum_size stat_new = 0;
  add_read_sums : forall n s, 0 <= n -> get_read_sum_size s + n <= u64_max ->
    get_read_sum_size (add_read_data_size n s) = get_read_sum_size s + n /\
    get_write_sum_size (add_read_data_size n s) = get_write_sum_size s;
  add_write_sums : forall n s, 0 <= n -> get_write_sum_size s + n <= u64_max ->
    get_write_sum_size (add_write_data_size n s) = get_write_sum_size s + n /\
    get_read_sum_size (add_write_data_size n s) = get_read_sum_size s }.

Class LimiterOps (L : Type) := {
  limiter_new : L;
  limiter_set : option Z -> option Z -> L -> L;
  limit_of : L -> option Z * option Z }.

Class LimiterLaws (L : Type) `{!LimiterOps L} : Prop := {
  limit_of_new : limit_of limiter_new = (None, None);
  limit_of_set : forall r w l, limit_of (limiter_set r w l) = (r, w) }.

Definition PN_TRAFFIC_CLEANUP_MAX_WAIT : Duration := from_secs (60 * 60).
Definition PN_TRAFFIC_CLEANUP_BATCH_SIZE : nat := 64.
Definition PN_TRAFFIC_RETENTION_MAX : Duration := from_secs 2592000.

Record PnTrafficLimitConfig := mkLimit {
  tx_rate : option Z; tx_weight : option Z; rx_rate : option Z; rx_weight : option Z }.
Record PnUserTrafficSnapshot := mkSnapshot {
  tx_bytes : Z; tx_speed : Z; rx_bytes : Z; rx_speed : Z; tx_delta_bytes : Z; rx_delta_bytes : Z }.
Record PnTrafficSnapshotBaseline := mkBaseline { base_tx : Z; base_rx : Z }.

(** ** One user's entry *)
Section entry.
Context {S L : Type} `{!SpeedStatOps S, !LimiterOps L}.

Record PnUserTrafficEntry := mkEntry {
  tx_limiter : L; rx_limiter : L; stat : S; snapshot_baseline : PnTrafficSnapshotBaseline }.

Definition traffic_entry_new : PnUserTrafficEntry := mkEntry limiter_new limiter_new stat_new (mkBaseline 0 0).

Definition entry_set_limit (c : PnTrafficLimitConfig) (e : PnUserTrafficEntry) : PnUserTrafficEntry :=
  mkEntry (limiter_set (tx_rate c) (tx_weight c) (tx_limiter e))
          (limiter_set (rx_rate c) (rx_weight c) (rx_limiter e)) (stat e) (snapshot_baseline e).

Definition read_snapshot (consume : bool) (e : PnUserTrafficEntry) : PnUserTrafficSnapshot * PnUserTrafficEntry :=
  let b := snapshot_baseline e in
  let tx := get_read_sum_size (stat e) in
  let rx := get_write_sum_size (stat e) in
  (mkSnapshot tx (get_read_speed (stat e)) rx (get_write_speed (stat e))
     (saturating_sub tx (base_tx b)) (saturating_sub rx (base_rx b)),
   if consume then mkEntry (tx_limiter e) (rx_limiter e) (stat e) (mkBaseline tx rx) else e).

Definition entry_snapshot := read_snapshot true.
Definition entry_peek_snapshot := read_snapshot false.

Definition map_stat (f : S -> S) (e : PnUserTrafficEntry) : PnUserTrafficEntry :=
  mkEntry (tx_limiter e) (rx_limiter e) (f (stat e)) (snapshot_baseline e).
End entry.
Arguments PnUserTrafficEntry : clear implicits.

(** ** The manager *)
Record PnTrafficUserState := mkUser { us_entry : nat; us_active : nat; us_deadline : option Z }.
Notation CleanupDeadline := (Z * P2pId)%type.

(** The derived [Ord] of [PnTrafficCleanupDeadline]: the deadline first. *)
Definition deadline_cmp (a b : CleanupDeadline) : comparison :=
  then_with (fst a ?= fst b) (P2pId_cmp (snd a) (snd b)).

Record PnTrafficManagerState := mkTraffic {
  users : gmap P2pId PnTrafficUserState;
  limit_configs : gmap P2pId PnTrafficLimitConfig;
  retention : Duration;
  cleanup_deadlines : gset CleanupDeadline;
  is_shutdown : bool }.

Definition traffic_default : PnTrafficManagerState := mkTraffic ∅ ∅ 0 ∅ false.

Definition set_users (f : gmap P2pId PnTrafficUserState -> gmap P2pId PnTrafficUserState) (s : PnTrafficManagerState) :=
  mkTraffic (f (users s)) (limit_configs s) (retention s) (cleanup_deadlines s) (is_shutdown s).
Definition set_deadlines (f : gset CleanupDeadline -> gset CleanupDeadline) (s : PnTrafficManagerState) :=
  mkTraffic (users s) (limit_configs s) (retention s) (f (cleanup_deadlines s)) (is_shutdown s).

Definition deadlines_first (s : PnTrafficManagerState) : option CleanupDeadline :=
  least deadline_cmp (elements (cleanup_deadlines s)).

Inductive PnTrafficCleanupAction :=
| ActShutdown | ActWaitForNotification | ActWaitForDeadline (wait : Duration) | ActYield.

Record PnTrafficSessionParticipant := mkPart { part_user : P2pId; part_entry : nat }.
#[global] Instance participant_eq_dec : EqDecision PnTrafficSessionParticipant.
Proof. solve_decision. Defined.

(** [traffic_manager] of a guard is a [Weak]: [true] when it was made from the
    manager, [false] for [Weak::new()]. *)
Record PnTrafficSessionGuard := mkGuard {
  guard_manager : bool; guard_source : PnTrafficSessionParticipant;
  guard_target : option PnTrafficSessionParticipant }.

(** A limit session or a tracker refers to a limiter or to the statistics of an
    entry, named by the entry. *)
Record PnTrafficSession := mkSession {
  source_read_limit : nat; source_write_limit : nat; source_tracker : nat; target_tracker : nat;
  lifecycle : PnTrafficSessionGuard }.

(** The body of the loop of [cleanup_action]; [n] is what is left of the batch. *)
Fixpoint cleanup_loop (n : nat) (now : Z) (s : PnTrafficManagerState) : PnTrafficManagerState :=
  match n with
  | O => s
  | S n =>
    match deadlines_first s with
    | None => s
    | Some next =>
      if fst next >? now then s else
      let s := set_deadlines (fun ds => ds ∖ {[next]}) s in
      let remove := match users s !! snd next with
                    | Some u => (us_active u =? 0)%nat && bool_decide (us_deadline u = Some (fst next))
                    | None => false
                    end in
      cleanup_loop n now (if remove then set_users (delete (snd next)) s else s)
    end
  end.

Definition cleanup_action (now : Z) (s : PnTrafficManagerState) : PnTrafficCleanupAction * PnTrafficManagerState :=
  if is_shutdown s then (ActShutdown, s) else
  let s := cleanup_loop PN_TRAFFIC_CLEANUP_BATCH_SIZE now s in
  match deadlines_first s with
  | None => (ActWaitForNotification, s)
  | Some next =>
    if fst next <=? now then (ActYield, s)
    else (ActWaitForDeadline (Z.min (Z.max (fst next - now) 0) PN_TRAFFIC_CLEANUP_MAX_WAIT), s)
  end.

Section manager.
Context {S L : Type} `{!SpeedStatOps S, !LimiterOps L}.

(** The manager with the heap of entries and the permit of [cleanup_wakeup]. *)
Record PnTrafficManager := mkTrafficManager {
  tr_state : PnTrafficManagerState; tr_heap : list (PnUserTrafficEntry S L); tr_wakeup : bool }.

Definition traffic_manager_new : PnTrafficManager := mkTrafficManager traffic_default [] false.

Definition notify_one (changed : bool) (m : PnTrafficManager) : PnTrafficManager :=
  mkTrafficManager (tr_state m) (tr_heap m) (changed || tr_wakeup m).

(** [Instant::checked_add]; [instant_max] is the platform's last instant. *)
Definition retention_deadline (instant_max now : Z) (r : Duration) : option Z :=
  if now + r <=? instant_max then Some (now + r) else None.

(** [range((Excluded(after), Unbounded))], or the whole map. *)
Definition key_after (after : option P2pId) (u : P2pId) : bool :=
  match after with
  | Some a => match P2pId_cmp a u with Lt => true | _ => false end
  | None => true
  end.

Definition next_entry (after : option P2pId) (s : PnTrafficManagerState) : option (P2pId * nat) :=
  user ← least P2pId_cmp
    (filter (fun u => key_after after u = true) (elements (dom (users s))));
  us ← users s !! user;
  Some (user, us_entry us).

(** The pair of an operation's result and the new state and heap. *)
Definition acquire_user (user : P2pId) (s : PnTrafficManagerState) (h : list (PnUserTrafficEntry S L))
    : nat * bool * PnTrafficManagerState * list (PnUserTrafficEntry S L) :=
  match users s !! user with
  | Some us =>
    let canceled := match us_deadline us with
                    | Some d => bool_decide ((d, user) ∈ cleanup_deadlines s)
                    | None => false
                    end in
    let s := set_users <[user := mkUser (us_entry us) (us_active us + 1) None]> s in
    let s := match us_deadline us with Some d => set_deadlines (fun ds => ds ∖ {[(d, user)]}) s | None => s end in
    (us_entry us, canceled, s, h)
  | None =>
    let e := match limit_configs s !! user with
             | Some c => entry_set_limit c traffic_entry_new
             | None => traffic_entry_new
             end in
    (length h, false, set_users <[user := mkUser (length h) 1 None]> s, h ++ [e])
  end.

Definition begin_session (source target : P2pId) (m : PnTrafficManager) : PnTrafficSession * PnTrafficManager :=
  let s := tr_state m in
  let h := tr_heap m in
  let '(se, te, changed, s, h) :=
    if is_shutdown s then
      if bool_decide (source = target) then (length h, length h, false, s, h ++ [traffic_entry_new])
      else (length h, length h + 1, false, s, h ++ [traffic_entry_new; traffic_entry_new])%nat
    else
      let '(se, c1, s, h) := acquire_user source s h in
      if bool_decide (source = target) then (se, se, c1 || false, s, h)
      else let '(te, c2, s, h) := acquire_user target s h in (se, te, c1 || c2, s, h) in
  let guard := mkGuard (negb (is_shutdown (tr_state m))) (mkPart source se)
                 (if bool_decide (source = target) then None else Some (mkPart target te)) in
  (mkSession se se se te guard, notify_one changed (mkTrafficManager s h (tr_wakeup m))).

Section timed.
Context (instant_max : Z).

Definition release_user (now : Z) (p : PnTrafficSessionParticipant) (s : PnTrafficManagerState)
    : bool * PnTrafficManagerState :=
  let '(became_idle, s) :=
    match users s !! part_user p with
    | Some us =>
      if bool_decide (us_entry us = part_entry p) then
        if (us_active us =? 0)%nat then (false, s)
        else ((us_active us - 1 =? 0)%nat,
              set_users <[part_user p := mkUser (us_entry us) (us_active us - 1) (us_deadline us)]> s)
      else (false, s)
    | None => (false, s)
    end in
  if negb became_idle then (false, s)
  else if is_zero (retention s) || is_shutdown s then (false, set_users (delete (part_user p)) s)
  else
    match retention_deadline instant_max now (retention s) with
    | None => (false, set_users (delete (part_user p)) s)
    | Some d =>
      match users s !! part_user p with
      | None => (false, s)
      | Some us =>
        let s := set_users <[part_user p := mkUser (us_entry us) (us_active us) (Some d)]> s in
        (bool_decide ((d, part_user p) ∉ cleanup_deadlines s),
         set_deadlines (fun ds => {[(d, part_user p)]} ∪ ds) s)
      end
    end.

Definition end_session (now : Z) (source : PnTrafficSessionParticipant) (target : option PnTrafficSessionParticipant)
    (m : PnTrafficManager) : PnTrafficManager :=
  let '(c1, s) := release_user now source (tr_state m) in
  let '(c2, s) := match target with Some t => release_user now t s | None => (false, s) end in
  notify_one (c1 || c2) (mkTrafficManager s (tr_heap m) (tr_wakeup m)).

(** [Drop for PnTrafficSessionGuard]. *)
Definition guard_drop (now : Z) (g : PnTrafficSessionGuard) (m : PnTrafficManager) : PnTrafficManager :=
  if guard_manager g then end_session now (guard_source g) (guard_target g) m else m.
End timed.

Definition set_retention (r : Duration) (m : PnTrafficManager) : PnTrafficManager :=
  let s := tr_state m in
  if is_shutdown s then m else
  mkTrafficManager (mkTraffic (users s) (limit_configs s) (Z.min r PN_TRAFFIC_RETENTION_MAX) (cleanup_deadlines s) (is_shutdown s))
    (tr_heap m) (tr_wakeup m).

Definition set_user_limit (user : P2pId) (c : PnTrafficLimitConfig) (m : PnTrafficManager) : PnTrafficManager :=
  let s := tr_state m in
  if is_shutdown s then m else
  mkTrafficManager
    (mkTraffic (users s) (<[user := c]> (limit_configs s)) (retention s) (cleanup_deadlines s) (is_shutdown s))
    (match users s !! user with Some us => alter (entry_set_limit c) (us_entry us) (tr_heap m) | None => tr_heap m end)
    (tr_wakeup m).

(** [snapshot] with [consume] and [peek_snapshot] without. *)
Definition snapshot_of (consume : bool) (user : P2pId) (m : PnTrafficManager)
    : option PnUserTrafficSnapshot * PnTrafficManager :=
  match us ← users (tr_state m) !! user; e ← tr_heap m !! us_entry us; Some (us, e) with
  | Some (us, e) =>
    let '(x, e') := read_snapshot consume e in
    (Some x, mkTrafficManager (tr_state m) (<[us_entry us := e']> (tr_heap m)) (tr_wakeup m))
  | None => (None, m)
  end.
Definition manager_snapshot := snapshot_of true.
Definition manager_peek_snapshot := snapshot_of false.

(** [PnUserTrafficSnapshotIter::next]: the cursor is [next_after]. *)
Definition iter_next (after : option P2pId) (m : PnTrafficManager)
    : option (P2pId * PnUserTrafficSnapshot) * option P2pId * PnTrafficManager :=
  match '(user, a) ← next_entry after (tr_state m); e ← tr_heap m !! a; Some (user, a, e) with
  | Some (user, a, e) =>
    let '(x, e') := entry_snapshot e in
    (Some (user, x), Some user, mkTrafficManager (tr_state m) (<[a := e']> (tr_heap m)) (tr_wakeup m))
  | None => (None, after, m)
  end.

Definition traffic_shutdown (m : PnTrafficManager) : PnTrafficManager :=
  notify_one true (mkTrafficManager (mkTraffic ∅ ∅ 0 ∅ true) (tr_heap m) (tr_wakeup m)).

(** Bytes pass through a session's streams: the trackers of its source and of
    its target count what is read from and written to their side. *)
Definition track (addr : nat) (f : S -> S) (m : PnTrafficManager) : PnTrafficManager :=
  mkTrafficManager (tr_state m) (alter (map_stat f) addr (tr_heap m)) (tr_wakeup m).
End manager.
Arguments PnTrafficManager : clear implicits.

(** ** Interleavings

    The cleanup task runs a pass, then sleeps until a deadline or a permit of
    [cleanup_wakeup], or yields. *)
Inductive TaskPhase := Unstarted | Awake | Asleep (since : Z) (until : option Z) | Finished.

Section world.
Context {S L : Type} `{!SpeedStatOps S, !LimiterOps L} (instant_max : Z).

Record traffic_world := mkTWorld {
  tw_manager : PnTrafficManager S L; tw_sessions : list PnTrafficSession; tw_task : TaskPhase }.

(** [start_cleanup_task]: spawns once, never after a shutdown. *)
Definition start_cleanup_task (m : PnTrafficManager S L) (task : TaskPhase) : TaskPhase :=
  match task with
  | Unstarted => if is_shutdown (tr_state m) then Unstarted else Awake
  | _ => task
  end.

(** One turn of the loop of [run_cleanup_task], up to its await. *)
Definition run_cleanup_turn (now : Z) (m : PnTrafficManager S L) : PnTrafficManager S L * TaskPhase :=
  let '(act, s) := cleanup_action now (tr_state m) in
  (mkTrafficManager s (tr_heap m) (tr_wakeup m),
   match act with
   | ActShutdown => Finished
   | ActWaitForNotification => Asleep now None
   | ActWaitForDeadline wait => Asleep now (Some (now + wait))
   | ActYield => Awake
   end).

Definition clear_wakeup (m : PnTrafficManager S L) : PnTrafficManager S L :=
  mkTrafficManager (tr_state m) (tr_heap m) false.

Definition session_entries (x : PnTrafficSession) : list nat := [source_tracker x; target_tracker x].

Inductive tr_step : traffic_world -> traffic_world -> Prop :=
| tr_begin m ss task source target x m' :
    begin_session source target m = (x, m') -> tr_step (mkTWorld m ss task) (mkTWorld m' (x :: ss) task)
| tr_end now m ss1 x ss2 task :
    tr_step (mkTWorld m (ss1 ++ x :: ss2) task)
            (mkTWorld (guard_drop instant_max now (lifecycle x) m) (ss1 ++ ss2) task)
| tr_retention r m ss task : tr_step (mkTWorld m ss task) (mkTWorld (set_retention r m) ss task)
| tr_limit u c m ss task : tr_step (mkTWorld m ss task) (mkTWorld (set_user_limit u c m) ss task)
| tr_snapshot consume u m ss task :
    tr_step (mkTWorld m ss task) (mkTWorld (snd (snapshot_of consume u m)) ss task)
| tr_iter after m ss task : tr_step (mkTWorld m ss task) (mkTWorld (snd (iter_next after m)) ss task)
| tr_track x a f m ss task :
    x ∈ ss -> a ∈ session_entries x -> tr_step (mkTWorld m ss task) (mkTWorld (track a f m) ss task)
| tr_start m ss task : tr_step (mkTWorld m ss task) (mkTWorld m ss (start_cleanup_task m task))
| tr_turn now m ss m' task' :
    run_cleanup_turn now m = (m', task') -> tr_step (mkTWorld m ss Awake) (mkTWorld m' ss task')
| tr_timer now since d m ss :
    d <= now -> tr_step (mkTWorld m ss (Asleep since (Some d))) (mkTWorld m ss Awake)
| tr_signal since until m ss :
    tr_wakeup m = true -> tr_step (mkTWorld m ss (Asleep since until)) (mkTWorld (clear_wakeup m) ss Awake)
| tr_shutdown m ss task : tr_step (mkTWorld m ss task) (mkTWorld (traffic_shutdown m) ss task).

Definition traffic_reachable : traffic_world -> Prop :=
  rtc tr_step (mkTWorld traffic_manager_new [] Unstarted).
End world.
Arguments traffic_world : clear implicits.

(** ** The ledger *)
Definition participants (x : PnTrafficSession) : list PnTrafficSessionParticipant :=
  let g := lifecycle x in
  if guard_manager g then guard_source g :: option_list (guard_target g) else [].

Definition sessions_of (u : P2pId) (ps : list PnTrafficSessionParticipant) : list PnTrafficSessionParticipant :=
  filter (fun p => part_user p = u) ps.

(** A user in the map is counted exactly and all its sessions use its current
    entry; it has a deadline exactly when nobody uses it, and that deadline is
    the only one scheduled for it.  Nothing refers to any other user. *)
Definition user_ok (s : PnTrafficManagerState) (ps : list PnTrafficSessionParticipant) (u : P2pId) : Prop :=
  match users s !! u with
  | Some us =>
    us_active us = length (sessions_of u ps) /\
    Forall (fun p => part_entry p = us_entry us) (sessions_of u ps) /\
    (us_active us = O <-> us_deadline us <> None) /\
    (forall d, (d, u) ∈ cleanup_deadlines s <-> us_deadline us = Some d)
  | None => sessions_of u ps = [] /\ forall d, (d, u) ∉ cleanup_deadlines s
  end.

Definition ledger_ok (s : PnTrafficManagerState) (ps : list PnTrafficSessionParticipant) : Prop :=
  forall u, user_ok s ps u.

Definition emptied (s : PnTrafficManagerState) : Prop := s = mkTraffic ∅ ∅ 0 ∅ true.

#[global] Instance deadline_cmp_total : TotalCompare deadline_cmp.
Proof.
  split; unfold deadline_cmp.
  - intros [d u] [d' u']; simpl. rewrite then_with_Eq, Z.compare_eq_iff, (cmp_eq P2pId_cmp). naive_solver.
  - intros [d u] [d' u']; simpl. by rewrite then_with_opp, <-(cmp_opp P2pId_cmp), <-Z.compare_antisym.
  - intros [d u] [d' u'] [d'' u'']; simpl. rewrite !then_with_Lt, !Z.compare_lt_iff, !Z.compare_eq_iff.
    intros [?|[-> ?]] [?|[-> ?]]; [left; lia..|]. right. split; [done|]. by eapply (cmp_lt_trans P2pId_cmp).
Qed.

Lemma deadlines_first_None s : deadlines_first s = None -> cleanup_deadlines s = ∅.
Proof. intros H%least_None. by apply elements_empty_iff, leibniz_equiv in H. Qed.

Lemma deadlines_first_Some s d u :
  deadlines_first s = Some (d, u) ->
  (d, u) ∈ cleanup_deadlines s /\ forall d' u', (d', u') ∈ cleanup_deadlines s -> d <= d'.
Proof.
  intros [Hin Hle]%least_Some; [|apply _]. split; [by apply elem_of_elements|].
  intros d' u' H%elem_of_elements%Hle. unfold cmp_le, deadline_cmp in H. simpl in H.
  destruct (Z.compare_spec d d'); simpl in H; [lia..|done].
Qed.

(** What one user's step must show: nothing changes for the others. *)
Lemma ledger_update u s s' ps ps' :
  (forall v, v <> u -> users s' !! v = users s !! v) ->
  (forall v d, v <> u -> (d, v) ∈ cleanup_deadlines s' <-> (d, v) ∈ cleanup_deadlines s) ->
  (forall v, v <> u -> sessions_of v ps' = sessions_of v ps) ->
  ledger_ok s ps -> user_ok s' ps' u -> ledger_ok s' ps'.
Proof.
  intros Hu Hd Hs Hok Hnew v. destruct (decide (v = u)) as [->|Hne]; [done|].
  specialize (Hok v). unfold user_ok in *. rewrite (Hu _ Hne), (Hs _ Hne).
  destruct (users s !! v); setoid_rewrite Hd; done.
Qed.

Lemma sessions_of_cons u p ps :
  sessions_of u (p :: ps) = if decide (part_user p = u) then p :: sessions_of u ps else sessions_of u ps.
Proof. unfold sessions_of. rewrite filter_cons. by repeat case_decide. Qed.

Lemma sessions_of_other u v e ps : v <> u -> sessions_of v (mkPart u e :: ps) = sessions_of v ps.
Proof. intros. rewrite sessions_of_cons, decide_False; [done|]. simpl. congruence. Qed.

#[global] Instance ledger_ok_proper s : Proper ((≡ₚ) ==> iff) (ledger_ok s).
Proof.
  assert (forall l k, l ≡ₚ k -> ledger_ok s l -> ledger_ok s k) as Hi.
  { intros l k H Hl u. specialize (Hl u). unfold user_ok in *.
    assert (sessions_of u l ≡ₚ sessions_of u k) as Hs by (unfold sessions_of; by rewrite H).
    destruct (users s !! u); [by rewrite <-Hs|]. destruct Hl as [Hl ?]. rewrite Hl in Hs.
    by apply Permutation_nil in Hs. }
  intros l k H. split; by apply Hi.
Qed.

Lemma ledger_acquire {S L} `{!SpeedStatOps S, !LimiterOps L} u s (h : list (PnUserTrafficEntry S L)) ps e c s' h' :
  ledger_ok s ps -> acquire_user u s h = (e, c, s', h') -> ledger_ok s' (mkPart u e :: ps).
Proof.
  intros Hok. pose proof (Hok u) as Hu. unfold user_ok in Hu. unfold acquire_user.
  destruct (users s !! u) as [us|] eqn:E; intros [= <- <- <- <-].
  - destruct Hu as (Hc & Hf & Hi & Hd). eapply (ledger_update u); [..|exact Hok|].
    + intros v Hv. by destruct (us_deadline us); simpl; rewrite lookup_insert_ne.
    + intros v d Hv. destruct (us_deadline us); simpl; set_solver.
    + intros v Hv. by apply sessions_of_other.
    + unfold user_ok. rewrite sessions_of_cons, decide_True by done.
      destruct (us_deadline us) as [d|]; simpl; rewrite lookup_insert_eq; simpl; split_and!;
        [lia|by constructor|split; [lia|done]| |lia|by constructor|split; [lia|done]|].
      * intros d'. split; [|done]. intros [[= ->]%Hd Hne]%elem_of_difference. set_solver.
      * intros d'. rewrite Hd. done.
  - destruct Hu as [Hs Hd]. eapply (ledger_update u); [..|exact Hok|].
    + intros v Hv. simpl. by rewrite lookup_insert_ne.
    + done.
    + intros v Hv. by apply sessions_of_other.
    + unfold user_ok. rewrite sessions_of_cons, decide_True by done. simpl. rewrite lookup_insert_eq, Hs. simpl.
      split; [done|]. split; [by apply Forall_singleton|]. split; [split; [lia|done]|].
      intros d. specialize (Hd d). naive_solver.
Qed.

Lemma ledger_release instant_max now p s ps c s' :
  ledger_ok s (p :: ps) -> release_user instant_max now p s = (c, s') ->
  ledger_ok s' ps /\ is_shutdown s' = is_shutdown s /\
  (forall d v, (d, v) ∈ cleanup_deadlines s' -> c = true \/ (d, v) ∈ cleanup_deadlines s).
Proof.
  intros Hok. pose proof (Hok (part_user p)) as Hu. unfold user_ok in Hu. unfold release_user.
  rewrite sessions_of_cons, decide_True in Hu by done.
  destruct (users s !! part_user p) as [us|] eqn:E; [|by destruct Hu].
  destruct Hu as (Hc & [Hp Hf]%Forall_cons & Hi & Hd). simpl in Hc.
  rewrite bool_decide_eq_true_2, (proj2 (Nat.eqb_neq _ _)) by (congruence || lia).
  assert (forall v, v <> part_user p -> sessions_of v ps = sessions_of v (p :: ps)) as Hsess.
  { intros v Hv. rewrite sessions_of_cons, decide_False; [done|congruence]. }
  assert (us_deadline us = None) as Hnone.
  { destruct (us_deadline us); [|done]. destruct Hi as [_ Hi]. specialize (Hi ltac:(done)). lia. }
  assert (forall s', users s' = delete (part_user p) (users s) -> cleanup_deadlines s' = cleanup_deadlines s ->
    sessions_of (part_user p) ps = [] -> ledger_ok s' ps) as Hdel.
  { intros t Ht Hdt Hs. eapply (ledger_update (part_user p)); [..|exact Hok|]; try done.
    - intros v Hv. by rewrite Ht, lookup_delete_ne.
    - intros v d _. by rewrite Hdt.
    - unfold user_ok. rewrite Ht, lookup_delete_eq, Hs, Hdt. split; [done|]. intros d. rewrite Hd, Hnone. done. }
  destruct (Nat.eqb_spec (us_active us - 1) 0) as [Hz|Hz]; simpl.
  - assert (sessions_of (part_user p) ps = []) as Hs by (apply length_zero_iff_nil; lia).
    case_match; simpl.
    { intros [= <- <-]. split_and!; [|done|by right]. apply Hdel; try done. simpl. apply delete_insert_eq. }
    destruct (retention_deadline _ _ _) as [d|]; simpl.
    2:{ intros [= <- <-]. split_and!; [|done|by right]. apply Hdel; try done. simpl. apply delete_insert_eq. }
    rewrite lookup_insert_eq. simpl. rewrite bool_decide_eq_true_2 by (rewrite Hd, Hnone; done).
    intros [= <- <-]. split_and!; [|done|by left].
    eapply (ledger_update (part_user p)); [..|exact Hok|]; simpl; try done.
    + intros v Hv. by rewrite !lookup_insert_ne.
    + intros v d' Hv. set_solver.
    + unfold user_ok. simpl. rewrite lookup_insert_eq, Hs. simpl. split_and!; [lia|done|split; [done|lia]|].
      intros d'. rewrite elem_of_union, elem_of_singleton, Hd, Hnone. naive_solver.
  - intros [= <- <-]. split_and!; [|done|by right].
    eapply (ledger_update (part_user p)); [..|exact Hok|]; simpl; try done.
    + intros v Hv. by rewrite lookup_insert_ne.
    + unfold user_ok. simpl. rewrite lookup_insert_eq. simpl.
      split_and!; [lia|done|rewrite Hnone; split; [lia|done]|done].
Qed.

(** *** The cleanup pass *)
Definition due (now : Z) (s : PnTrafficManagerState) : gset CleanupDeadline :=
  filter (fun x => fst x <= now) (cleanup_deadlines s).

(** What a pass does to one user whose deadline has come. *)
Definition forget (x : CleanupDeadline) (s : PnTrafficManagerState) : PnTrafficManagerState :=
  set_users (delete (snd x)) (set_deadlines (fun ds => ds ∖ {[x]}) s).

Lemma cleanup_loop_S n now s ps d u :
  ledger_ok s ps -> deadlines_first s = Some (d, u) -> d <= now ->
  cleanup_loop (S n) now s = cleanup_loop n now (forget (d, u) s) /\ ledger_ok (forget (d, u) s) ps /\
  exists us, users s !! u = Some us /\ us_active us = O /\ us_deadline us = Some d.
Proof.
  intros Hok Hf Hd. simpl. rewrite Hf. simpl. rewrite Z.gtb_ltb, (proj2 (Z.ltb_ge _ _)) by lia.
  apply deadlines_first_Some in Hf as [Hin _].
  pose proof (Hok u) as Hu. unfold user_ok in Hu. destruct (users s !! u) as [us|] eqn:E; [|naive_solver].
  destruct Hu as (Hc & Hs & Hi & Hdl). apply Hdl in Hin.
  assert (us_active us = O) as H0 by (apply Hi; congruence). rewrite H0, bool_decide_eq_true_2 by done. simpl.
  split; [done|]. split; [|eauto]. eapply (ledger_update u); [..|exact Hok|]; try done.
  - intros v Hv. unfold forget. simpl. by rewrite lookup_delete_ne.
  - intros v d' Hv. unfold forget. simpl. set_solver.
  - unfold user_ok, forget. simpl. rewrite lookup_delete_eq. split; [apply length_zero_iff_nil; lia|].
    intros d' [H%Hdl Hne]%elem_of_difference. set_solver.
Qed.

Lemma due_forget now d u s : (d, u) ∈ cleanup_deadlines s -> d <= now -> due now (forget (d, u) s) = due now s ∖ {[(d, u)]}.
Proof. intros. unfold due, forget. simpl. set_solver. Qed.

(** A pass over at most [n] deadlines: it forgets idle users whose deadline has
    come, and only those, and stops early only when none is left. *)
Lemma cleanup_loop_spec n now s ps s' :
  ledger_ok s ps -> cleanup_loop n now s = s' ->
  ledger_ok s' ps /\ is_shutdown s' = is_shutdown s /\ limit_configs s' = limit_configs s /\
  retention s' = retention s /\
  size (due now s') = (size (due now s) - n)%nat /\ cleanup_deadlines s' ⊆ cleanup_deadlines s /\
  (forall u us, users s' !! u = Some us -> users s !! u = Some us) /\
  (forall u us, users s !! u = Some us -> users s' !! u = None ->
     us_active us = O /\ exists d, us_deadline us = Some d /\ d <= now).
Proof.
  revert s s'. induction n as [|n IH]; intros s s' Hok <-; [simpl; split_and!; try done; [lia|congruence]|].
  assert (due now s = ∅ -> size (due now s) = (size (due now s) - S n)%nat) as Hz.
  { intros ->. by rewrite size_empty. }
  destruct (deadlines_first s) as [[d u]|] eqn:Hf.
  - destruct (decide (d <= now)) as [Hd|Hd].
    + destruct (cleanup_loop_S n now s ps d u Hok Hf Hd) as (-> & Hok' & us & Hu & H0 & Hdl).
      destruct (IH _ _ Hok' eq_refl) as (? & ? & ? & ? & Hsize & Hsub & Hback & Hgone).
      apply deadlines_first_Some in Hf as [Hin _]. split_and!; try done.
      * rewrite Hsize, due_forget, size_difference by (unfold due; set_solver).
        rewrite size_singleton. lia.
      * etrans; [exact Hsub|]. unfold forget. simpl. set_solver.
      * intros v vs Hv%Hback. unfold forget in Hv. simpl in Hv. by apply lookup_delete_Some in Hv as [_ ?].
      * intros v vs Hv Hn. destruct (decide (v = u)) as [->|Hne]; [simplify_eq; eauto|].
        eapply Hgone; [|done]. unfold forget. simpl. by rewrite lookup_delete_ne.
    + simpl. rewrite Hf. simpl. rewrite Z.gtb_ltb, (proj2 (Z.ltb_lt _ _)) by lia.
      split_and!; try done; [|congruence]. apply Hz. apply deadlines_first_Some in Hf as [_ Hle].
      apply set_eq. intros [d' u']. unfold due. rewrite elem_of_filter. simpl. split; [|set_solver].
      intros [? ?%Hle]. lia.
  - simpl. rewrite Hf. split_and!; try done; [|congruence]. apply Hz. unfold due.
    rewrite (deadlines_first_None _ Hf). set_solver.
Qed.

Lemma cleanup_action_spec now s ps act s' :
  ledger_ok s ps -> is_shutdown s = false -> cleanup_action now s = (act, s') ->
  s' = cleanup_loop PN_TRAFFIC_CLEANUP_BATCH_SIZE now s /\
  match act with
  | ActShutdown => False
  | ActWaitForNotification => cleanup_deadlines s' = ∅
  | ActWaitForDeadline w => forall d u, (d, u) ∈ cleanup_deadlines s' -> now < d /\ now + w <= d
  | ActYield => due now s' <> ∅
  end.
Proof.
  intros Hok Hsd. unfold cleanup_action. rewrite Hsd.
  generalize (cleanup_loop PN_TRAFFIC_CLEANUP_BATCH_SIZE now s). intros t.
  destruct (deadlines_first t) as [[d u]|] eqn:Hf; simpl.
  - apply deadlines_first_Some in Hf as [Hin Hle]. case_match eqn:E; intros [= <- <-]; (split; [done|]).
    + bool_to_prop. intros H. assert ((d, u) ∈ due now t) as Hdue by (unfold due; rewrite elem_of_filter; simpl; auto).
      rewrite H in Hdue. set_solver.
    + bool_to_prop. intros d' u' H%Hle. lia.
  - intros [= <- <-]. split; [done|]. by apply deadlines_first_None.
Qed.

(** *** The invariant of every reachable world *)
Section invariant.
Context {S L : Type} `{!SpeedStatOps S, !LimiterOps L} (instant_max : Z).
Implicit Types (m : PnTrafficManager S L) (w : traffic_world S L).

Definition state_ok (s : PnTrafficManagerState) (ps : list PnTrafficSessionParticipant) : Prop :=
  (is_shutdown s = false /\ ledger_ok s ps) \/ emptied s.

Definition task_ok m (task : TaskPhase) : Prop :=
  forall since until, task = Asleep since until ->
    tr_wakeup m = true \/
    (is_shutdown (tr_state m) = false /\
     forall d u, (d, u) ∈ cleanup_deadlines (tr_state m) -> exists t, until = Some t /\ t <= d).

Definition tw_ok w : Prop :=
  state_ok (tr_state (tw_manager w)) (tw_sessions w ≫= participants) /\ task_ok (tw_manager w) (tw_task w).

(** A change of the schedule leaves a sleeping task right when it only cancels
    deadlines or leaves a permit. *)
Lemma task_ok_change m m' task :
  task_ok m task -> (tr_wakeup m = true -> tr_wakeup m' = true) ->
  is_shutdown (tr_state m') = is_shutdown (tr_state m) ->
  (forall d u, (d, u) ∈ cleanup_deadlines (tr_state m') ->
     tr_wakeup m' = true \/ (d, u) ∈ cleanup_deadlines (tr_state m)) ->
  task_ok m' task.
Proof.
  intros Ht Hw Hs Hd since dl ->. destruct (Ht _ _ eq_refl) as [?|[Hsd Hsleep]]; [by left; auto|].
  destruct (tr_wakeup m') eqn:E; [by left|]. right. split; [congruence|].
  intros d u [?|?]%Hd; [done|]. eauto.
Qed.

Lemma acquire_frame u s (h : list (PnUserTrafficEntry S L)) e c s' h' :
  acquire_user u s h = (e, c, s', h') ->
  is_shutdown s' = is_shutdown s /\ limit_configs s' = limit_configs s /\ retention s' = retention s /\
  cleanup_deadlines s' ⊆ cleanup_deadlines s.
Proof.
  unfold acquire_user. destruct (users s !! u) as [us|].
  - destruct (us_deadline us); intros [= <- <- <- <-]; simpl; set_solver.
  - by intros [= <- <- <- <-].
Qed.

Lemma begin_session_ok source target m x m' ss task :
  begin_session source target m = (x, m') -> state_ok (tr_state m) (ss ≫= participants) -> task_ok m task ->
  state_ok (tr_state m') ((x :: ss) ≫= participants) /\ task_ok m' task.
Proof.
  unfold begin_session. destruct m as [s h wk]. simpl. intros Hb [[Hsd Hok]|He] Ht.
  - rewrite Hsd in Hb. destruct (acquire_user source s h) as [[[e1 c1] s1] h1] eqn:E1.
    pose proof (acquire_frame _ _ _ _ _ _ _ E1) as (Hf1 & _ & _ & Hsub1).
    pose proof (ledger_acquire _ _ _ _ _ _ _ _ Hok E1) as Hok1.
    case_bool_decide as Heq; [|destruct (acquire_user target s1 h1) as [[[e2 c2] s2] h2] eqn:E2;
      pose proof (acquire_frame _ _ _ _ _ _ _ E2) as (Hf2 & _ & _ & Hsub2);
      pose proof (ledger_acquire _ _ _ _ _ _ _ _ Hok1 E2) as Hok2];
      simpl in Hb; injection Hb as <- <-; simpl.
    + split; [left; split; [congruence|done]|].
      eapply task_ok_change; [exact Ht|..]; simpl; [by intros ->; apply orb_true_r|done|set_solver].
    + split; [left; split; [congruence|by rewrite perm_swap]|].
      eapply task_ok_change; [exact Ht|..]; simpl; [by intros ->; apply orb_true_r|congruence|set_solver].
  - rewrite He in Hb. simpl in Hb. split.
    + right. case_bool_decide; by injection Hb as <- <-.
    + eapply task_ok_change; [exact Ht|..]; case_bool_decide; injection Hb as <- <-; simpl; try done; by rewrite He.
Qed.

Lemma release_emptied now p s : emptied s -> release_user instant_max now p s = (false, s).
Proof. intros ->. done. Qed.

Lemma guard_drop_ok now x m ps task :
  state_ok (tr_state m) (participants x ++ ps) -> task_ok m task ->
  state_ok (tr_state (guard_drop instant_max now (lifecycle x) m)) ps /\
  task_ok (guard_drop instant_max now (lifecycle x) m) task.
Proof.
  intros Hok Ht. unfold guard_drop, participants in *. destruct (guard_manager (lifecycle x)); [|done].
  destruct m as [s h wk]. unfold end_session. simpl in *.
  destruct (release_user instant_max now (guard_source (lifecycle x)) s) as [c1 s1] eqn:E1.
  destruct Hok as [[Hsd Hok]|He].
  - destruct (ledger_release _ _ _ _ _ _ _ Hok E1) as (Hok1 & Hsd1 & Hd1).
    destruct (guard_target (lifecycle x)) as [t|]; simpl in *.
    + destruct (release_user instant_max now t s1) as [c2 s2] eqn:E2.
      destruct (ledger_release _ _ _ _ _ _ _ Hok1 E2) as (Hok2 & Hsd2 & Hd2).
      split; [left; split; [simpl; congruence|done]|].
      eapply task_ok_change; [exact Ht|..]; simpl; [by intros ->; apply orb_true_r|congruence|].
      intros d u [->|[->|?]%Hd1]%Hd2; [left; by rewrite orb_true_r|by left|by right].
    + split; [left; split; [simpl; congruence|done]|].
      eapply task_ok_change; [exact Ht|..]; simpl; [by intros ->; apply orb_true_r|congruence|].
      intros d u [->|?]%Hd1; [by left|by right].
  - rewrite (release_emptied _ _ _ He) in E1. injection E1 as <- <-.
    destruct (guard_target (lifecycle x)); [rewrite (release_emptied _ _ _ He)|]; simpl; (split; [by right|]);
      (eapply task_ok_change; [exact Ht|..]; simpl; auto).
Qed.

Lemma run_cleanup_turn_ok now m ps m' task' :
  run_cleanup_turn now m = (m', task') -> state_ok (tr_state m) ps -> state_ok (tr_state m') ps /\ task_ok m' task'.
Proof.
  unfold run_cleanup_turn. intros Hr [[Hsd Hok]|He].
  - destruct (cleanup_action now (tr_state m)) as [act s] eqn:Ea. injection Hr as <- <-.
    destruct (cleanup_action_spec _ _ _ _ _ Hok Hsd Ea) as [Hs Hact].
    destruct (cleanup_loop_spec PN_TRAFFIC_CLEANUP_BATCH_SIZE now _ _ s Hok (eq_sym Hs)) as (Hok' & Hsd' & _).
    clear Hs Ea. split; [left; split; [simpl; congruence|done]|]. intros since dl Heq.
    destruct act; simplify_eq; right; (split; [simpl; congruence|]); simpl.
    + rewrite Hact. set_solver.
    + intros d u Hin. eexists. split; [done|]. by apply (Hact _ _ Hin).
  - rewrite He in Hr. simpl in Hr. injection Hr as <- <-. split; [by right|]. done.
Qed.

Lemma state_ok_same s s' ps :
  users s' = users s -> cleanup_deadlines s' = cleanup_deadlines s -> is_shutdown s' = is_shutdown s ->
  is_shutdown s = false -> state_ok s ps -> state_ok s' ps.
Proof.
  intros Hu Hd Hs Hf [[_ Hok]|He]; [|rewrite He in Hf; done]. left. split; [congruence|].
  intros u. specialize (Hok u). unfold user_ok in *. by rewrite Hu, Hd.
Qed.

Lemma tr_step_ok w w' : tr_step instant_max w w' -> tw_ok w -> tw_ok w'.
Proof.
  unfold tw_ok. destruct 1 as [m ss task src tgt x m' Hb|now m ss1 x ss2 task|r m ss task|u c m ss task|c u m ss task
    |after m ss task|x a f m ss task _ _|m ss task|now m ss m' task' Hr|now since d m ss _|since dl m ss Hw|m ss task];
    simpl; intros [Hok Ht].
  - by eapply begin_session_ok.
  - apply guard_drop_ok; [|done]. rewrite !bind_app in *. simpl in Hok. destruct Hok as [[? Hl]|?]; [left|by right].
    split; [done|]. by rewrite app_assoc, (Permutation_app_comm (participants x)), <-app_assoc.
  - unfold set_retention. destruct (is_shutdown (tr_state m)) eqn:E; [done|].
    split; [by eapply state_ok_same; [..|exact Hok]|]. eapply task_ok_change; [exact Ht|..]; simpl; auto.
  - unfold set_user_limit. destruct (is_shutdown (tr_state m)) eqn:E; [done|].
    split; [by eapply state_ok_same; [..|exact Hok]|]. eapply task_ok_change; [exact Ht|..]; simpl; auto.
  - unfold snapshot_of. case_match; [|done]. by repeat case_match.
  - unfold iter_next. case_match; [|done]. by repeat case_match.
  - done.
  - split; [done|]. unfold start_cleanup_task. destruct task; try done. by case_match.
  - by eapply run_cleanup_turn_ok.
  - split; [done|]. done.
  - split; [done|]. done.
  - split; [by right|]. by left.
Qed.

Lemma traffic_reachable_ok w : traffic_reachable instant_max w -> tw_ok w.
Proof.
  intros Hr. eapply (rtc_preserves (tr_step instant_max) tw_ok); eauto using tr_step_ok.
  split; [left|done]. split; [done|]. intros u. unfold user_ok. simpl. rewrite lookup_empty. split; [done|set_solver].
Qed.
End invariant.

(** ** Properties of the manager *)
Section properties.
Context {S L : Type} `{!SpeedStatOps S, !LimiterOps L} (instant_max : Z).
Implicit Types (m : PnTrafficManager S L) (w : traffic_world S L).

(** C31: Whatever interleaving of sessions, configuration, snapshots, cleanup
    passes and shutdown occurred: as long as the manager runs, a user's
    [active_sessions] is the number of its live sessions, it has a cleanup
    deadline exactly when it has none, every scheduled deadline is that of such
    an idle user, and every live session's participants are in the map under
    the very entry the session counts on, so that no traffic is counted on a
    forgotten entry. *)
Theorem traffic_ledger_exact w :
  traffic_reachable instant_max w -> is_shutdown (tr_state (tw_manager w)) = false ->
  let s := tr_state (tw_manager w) in
  (forall u us, users s !! u = Some us ->
     us_active us = length (sessions_of u (tw_sessions w ≫= participants)) /\
     (us_active us = O <-> exists d, us_deadline us = Some d /\ (d, u) ∈ cleanup_deadlines s)) /\
  (forall d u, (d, u) ∈ cleanup_deadlines s -> exists us, users s !! u = Some us /\ us_deadline us = Some d) /\
  (forall x p, x ∈ tw_sessions w -> p ∈ participants x ->
     exists us, users s !! part_user p = Some us /\ us_entry us = part_entry p /\ us_active us <> O).
Proof.
  intros [[[_ Hok]|He] _]%traffic_reachable_ok Hsd; [|by rewrite He in Hsd]. simpl. split_and!.
  - intros u us Hu. specialize (Hok u). unfold user_ok in Hok. rewrite Hu in Hok.
    destruct Hok as (Hc & _ & Hi & Hd). split; [done|]. rewrite Hi. destruct (us_deadline us) as [d|]; [|naive_solver].
    split; [|done]. intros _. exists d. split; [done|]. by apply Hd.
  - intros d u Hin. specialize (Hok u). unfold user_ok in Hok.
    destruct (users _ !! u) as [us|] eqn:Hu; [|naive_solver]. destruct Hok as (_ & _ & _ & Hd). naive_solver.
  - intros x p Hx Hp. specialize (Hok (part_user p)). unfold user_ok in Hok.
    assert (p ∈ sessions_of (part_user p) (tw_sessions w ≫= participants)) as Hin.
    { apply list_elem_of_filter. split; [done|]. apply list_elem_of_bind. eauto. }
    destruct (users _ !! part_user p) as [us|]; [|destruct Hok as [Hok _]; rewrite Hok in Hin; set_solver].
    destruct Hok as (Hc & Hf & _). exists us. split_and!; [done|..].
    + rewrite Forall_forall in Hf. symmetry. by apply Hf.
    + rewrite Hc. destruct (sessions_of _ _); [set_solver|done].
Qed.

(** The cleanup task never sleeps past a deadline: whenever it sleeps, a
    permit is waiting for it, or the manager runs and it wakes no later than any
    scheduled deadline.  After a shutdown a sleeping task always has a permit,
    so that it ends. *)
Theorem traffic_cleanup_never_oversleeps w since till :
  traffic_reachable instant_max w -> tw_task w = Asleep since till ->
  tr_wakeup (tw_manager w) = true \/
  (is_shutdown (tr_state (tw_manager w)) = false /\
   forall d u, (d, u) ∈ cleanup_deadlines (tr_state (tw_manager w)) -> exists t, till = Some t /\ t <= d).
Proof. intros [_ Ht]%traffic_reachable_ok Htask. by apply (Ht since till). Qed.

(** [k] passes at the same time, as the task makes them while it yields. *)
Definition passes (k : nat) (now : Z) (s : PnTrafficManagerState) : PnTrafficManagerState :=
  Nat.iter k (fun s => snd (cleanup_action now s)) s.

Lemma cleanup_action_state now s ps :
  ledger_ok s ps -> is_shutdown s = false ->
  snd (cleanup_action now s) = cleanup_loop PN_TRAFFIC_CLEANUP_BATCH_SIZE now s.
Proof.
  intros Hok Hsd. destruct (cleanup_action now s) as [act s'] eqn:E.
  by destruct (cleanup_action_spec _ _ _ _ _ Hok Hsd E) as [? _].
Qed.

Lemma passes_spec k now s ps s' :
  ledger_ok s ps -> is_shutdown s = false -> passes k now s = s' ->
  ledger_ok s' ps /\ is_shutdown s' = false /\
  size (due now s') = (size (due now s) - k * PN_TRAFFIC_CLEANUP_BATCH_SIZE)%nat /\
  (forall u us, users s !! u = Some us -> users s' !! u = None ->
     us_active us = O /\ exists d, us_deadline us = Some d /\ d <= now) /\
  (forall u us, users s' !! u = Some us -> users s !! u = Some us).
Proof.
  intros Hok Hsd. revert s'. induction k as [|k IH]; intros s' <-; [simpl; split_and!; try done; [lia|congruence]|].
  destruct (IH _ eq_refl) as (Hok1 & Hsd1 & Hsz1 & Hgone1 & Hback1). clear IH.
  change (passes (Datatypes.S k) now s) with (snd (cleanup_action now (passes k now s))).
  rewrite (cleanup_action_state _ _ _ Hok1 Hsd1). generalize dependent (passes k now s). intros t Hok1 Hsd1 Hsz1 Hgone1 Hback1.
  destruct (cleanup_loop_spec PN_TRAFFIC_CLEANUP_BATCH_SIZE now t ps _ Hok1 eq_refl)
    as (Hok2 & Hsd2 & _ & _ & Hsz2 & _ & Hback2 & Hgone2).
  generalize dependent (cleanup_loop PN_TRAFFIC_CLEANUP_BATCH_SIZE now t). intros t2 Hok2 Hsd2 Hsz2 Hback2 Hgone2.
  split_and!; [done|congruence|rewrite Hsz2, Hsz1; unfold PN_TRAFFIC_CLEANUP_BATCH_SIZE; lia| |eauto].
  intros u us Hu Hn. destruct (users t !! u) as [us'|] eqn:Ht; [|by eapply Hgone1].
  pose proof (Hback1 _ _ Ht). simplify_eq. by eapply Hgone2.
Qed.

(** Cleanup terminates and forgets exactly what is due: from any reachable
    state with at most [64 * k] deadlines due, [k] passes leave the users whose
    deadline has not come (or who have sessions) untouched, forget precisely the
    others, and the task then does not yield again at that time. *)
Theorem traffic_cleanup_terminates w now k :
  traffic_reachable instant_max w -> is_shutdown (tr_state (tw_manager w)) = false ->
  (size (due now (tr_state (tw_manager w))) <= k * PN_TRAFFIC_CLEANUP_BATCH_SIZE)%nat ->
  let s := tr_state (tw_manager w) in
  let s' := passes k now s in
  fst (cleanup_action now s') <> ActYield /\
  forall u, users s' !! u =
    (us ← users s !! u;
     match us_deadline us with Some d => if d <=? now then None else Some us | None => Some us end).
Proof.
  intros [[[_ Hok]|He] _]%traffic_reachable_ok Hsd Hk; [|by rewrite He in Hsd]. simpl.
  destruct (passes_spec k now _ _ _ Hok Hsd eq_refl) as (Hok' & Hsd' & Hsz & Hgone & Hback).
  generalize dependent (passes k now (tr_state (tw_manager w))). intros s' Hok' Hsd' Hsz Hgone Hback.
  assert (due now s' = ∅) as Hdue by (apply leibniz_equiv, size_empty_iff; lia). split.
  - destruct (cleanup_action now s') as [act s2] eqn:E.
    destruct (cleanup_action_spec _ _ _ _ _ Hok' Hsd' E) as [Hs2 Hact]. simpl. intros ->. apply Hact.
    destruct (cleanup_loop_spec PN_TRAFFIC_CLEANUP_BATCH_SIZE now s' _ s2 Hok' (eq_sym Hs2)) as (_ & _ & _ & _ & _ & Hsub & _).
    unfold due in *. clear Hs2 E. set_solver.
  - intros u. destruct (users (tr_state (tw_manager w)) !! u) as [us|] eqn:Hu; simpl.
    + destruct (users s' !! u) as [us'|] eqn:Hu'.
      * pose proof (Hback _ _ Hu'). simplify_eq. destruct (us_deadline us) as [d|] eqn:Hd; [|done].
        destruct (Z.leb_spec d now); [|done]. exfalso. specialize (Hok' u). unfold user_ok in Hok'. rewrite Hu' in Hok'.
        destruct Hok' as (_ & _ & _ & Hdl). apply (not_elem_of_empty (C:=gset CleanupDeadline) (d, u)). rewrite <-Hdue.
        apply elem_of_filter. split; [done|]. by apply Hdl.
      * destruct (Hgone _ _ Hu Hu') as (_ & d & -> & Hle). by rewrite (proj2 (Z.leb_le _ _)).
    + destruct (users s' !! u) as [us'|] eqn:Hu'; [|done]. by rewrite (Hback _ _ Hu') in Hu.
Qed.
End properties.

(** ** Snapshots of one entry *)
Inductive entry_event := EvRead (n : Z) | EvWrite (n : Z) | EvSnapshot | EvPeek.

Section snapshots.
Context {S L : Type} `{!SpeedStatOps S, !SpeedStatLaws S, !LimiterOps L}.
Implicit Types e : PnUserTrafficEntry S L.

(** The entry after an event and the snapshots it consumed. *)
Definition entry_step (st : list PnUserTrafficSnapshot * PnUserTrafficEntry S L) (ev : entry_event) :=
  let '(out, e) := st in
  match ev with
  | EvRead n => (out, map_stat (add_read_data_size n) e)
  | EvWrite n => (out, map_stat (add_write_data_size n) e)
  | EvSnapshot => let '(x, e') := entry_snapshot e in (out ++ [x], e')
  | EvPeek => (out, snd (entry_peek_snapshot e))
  end.

Definition entry_run (evs : list entry_event) := foldl entry_step ([], traffic_entry_new) evs.

Definition sum (l : list Z) : Z := foldr Z.add 0 l.
Definition ev_read (ev : entry_event) : Z := match ev with EvRead n => n | _ => 0 end.
Definition ev_write (ev : entry_event) : Z := match ev with EvWrite n => n | _ => 0 end.

Lemma sum_snoc l n : sum (l ++ [n]) = sum l + n.
Proof. unfold sum. induction l as [|x l IH]; simpl; lia. Qed.

Lemma entry_run_inv evs out e :
  Forall (fun ev => 0 <= ev_read ev /\ 0 <= ev_write ev) evs ->
  sum (map ev_read evs) <= u64_max -> sum (map ev_write evs) <= u64_max -> entry_run evs = (out, e) ->
  get_read_sum_size (stat e) = sum (map ev_read evs) /\ get_write_sum_size (stat e) = sum (map ev_write evs) /\
  base_tx (snapshot_baseline e) = sum (map tx_delta_bytes out) /\
  base_rx (snapshot_baseline e) = sum (map rx_delta_bytes out) /\
  0 <= base_tx (snapshot_baseline e) <= get_read_sum_size (stat e) /\
  0 <= base_rx (snapshot_baseline e) <= get_write_sum_size (stat e).
Proof.
  revert out e. induction evs as [|ev evs IH] using rev_ind; intros out e Hf Hr Hw Hrun.
  { injection Hrun as <- <-. destruct stat_new_sums as [H1 H2]. simpl. rewrite H1, H2. simpl. lia. }
  apply Forall_app in Hf as [Hf [[Hn1 Hn2] _]%Forall_cons]. rewrite !map_app in *. simpl in *.
  rewrite !sum_snoc in *. unfold entry_run in Hrun. rewrite foldl_app in Hrun. simpl in Hrun.
  destruct (foldl entry_step ([], traffic_entry_new) evs) as [out0 e0] eqn:E0.
  destruct (IH out0 e0 Hf ltac:(lia) ltac:(lia) E0) as (R & W & B1 & B2 & Hb1 & Hb2).
  destruct ev as [n|n| |]; simpl in *; injection Hrun as <- <-; simpl.
  - destruct (add_read_sums n (stat e0)) as [-> ->]; lia.
  - destruct (add_write_sums n (stat e0)) as [-> ->]; lia.
  - rewrite !map_app. simpl. rewrite !sum_snoc. unfold saturating_sub. lia.
  - lia.
Qed.

(** Consumed snapshots partition the traffic: after any history of reads,
    writes, snapshots and peeks of an entry whose totals fit a [u64], the
    reported total is exactly the bytes relayed, and the deltas of all consumed
    snapshots together with the delta the next one will report add up to it, in
    both directions; peeking changes nothing. *)
Theorem snapshot_deltas_partition evs out e :
  Forall (fun ev => 0 <= ev_read ev /\ 0 <= ev_write ev) evs ->
  sum (map ev_read evs) <= u64_max -> sum (map ev_write evs) <= u64_max -> entry_run evs = (out, e) ->
  let x := fst (entry_peek_snapshot e) in
  tx_bytes x = sum (map ev_read evs) /\ rx_bytes x = sum (map ev_write evs) /\
  sum (map tx_delta_bytes out) + tx_delta_bytes x = sum (map ev_read evs) /\
  sum (map rx_delta_bytes out) + rx_delta_bytes x = sum (map ev_write evs) /\
  snd (entry_peek_snapshot e) = e.
Proof.
  intros Hf Hr Hw Hrun. destruct (entry_run_inv _ _ _ Hf Hr Hw Hrun) as (R & W & B1 & B2 & Hb1 & Hb2).
  simpl. unfold saturating_sub. split_and!; try done; lia.
Qed.
End snapshots.

(** ** The traversal of all users *)
Section traversal.
Context {S L : Type} `{!SpeedStatOps S, !LimiterOps L}.
Implicit Types m : PnTrafficManager S L.

(** Every user's entry is allocated. *)
Definition entries_allocated m : Prop :=
  forall u us, users (tr_state m) !! u = Some us -> (us_entry us < length (tr_heap m))%nat.

(** [PnUserTrafficSnapshotIter] consumed to its end, by a caller that allows
    [fuel] items. *)
Fixpoint iter_collect (fuel : nat) (after : option P2pId) m : list (P2pId * PnUserTrafficSnapshot) :=
  match fuel with
  | O => []
  | Datatypes.S fuel =>
    match iter_next after m with
    | (Some item, after, m) => item :: iter_collect fuel after m
    | (None, _, _) => []
    end
  end.

Definition remaining (after : option P2pId) (s : PnTrafficManagerState) : list P2pId :=
  filter (fun u => key_after after u = true) (elements (dom (users s))).

Lemma elem_of_remaining u after s : u ∈ remaining after s <-> key_after after u = true /\ is_Some (users s !! u).
Proof. unfold remaining. by rewrite list_elem_of_filter, elem_of_elements, elem_of_dom. Qed.

Lemma key_after_Some a u : key_after (Some a) u = true <-> P2pId_cmp a u = Lt.
Proof. simpl. by destruct (P2pId_cmp a u). Qed.

(** The item the iterator yields, and what is left after it. *)
Lemma remaining_split after s u :
  least P2pId_cmp (remaining after s) = Some u ->
  remaining after s ≡ₚ u :: remaining (Some u) s /\ Forall (fun v => P2pId_cmp u v = Lt) (remaining (Some u) s).
Proof.
  intros [Hin Hle]%least_Some; [|apply _]. apply elem_of_remaining in Hin as [Hk Hu]. split.
  - apply NoDup_Permutation; [apply NoDup_filter, NoDup_elements|constructor|].
    + rewrite elem_of_remaining, key_after_Some, cmp_refl by apply _. by intros [? _].
    + apply NoDup_filter, NoDup_elements.
    + intros v. rewrite elem_of_cons, !elem_of_remaining, key_after_Some. split.
      * intros [Hv Hs]. specialize (Hle v). rewrite elem_of_remaining in Hle. specialize (Hle (conj Hv Hs)).
        unfold cmp_le in Hle. destruct (P2pId_cmp u v) eqn:E; [|by right|done].
        left. symmetry. by apply (cmp_eq P2pId_cmp).
      * intros [->|[Hlt Hs]]; [done|]. split; [|done]. destruct after as [a|]; [|done].
        apply key_after_Some in Hk. apply key_after_Some. by eapply (cmp_lt_trans P2pId_cmp).
  - apply Forall_forall. intros v. rewrite elem_of_remaining, key_after_Some. by intros [? _].
Qed.

Lemma iter_next_spec after m :
  entries_allocated m ->
  match iter_next after m with
  | (Some (u, x), after', m') =>
    least P2pId_cmp (remaining after (tr_state m)) = Some u /\ after' = Some u /\ tr_state m' = tr_state m /\
    entries_allocated m'
  | (None, _, _) => remaining after (tr_state m) = []
  end.
Proof.
  intros Ha. unfold iter_next, next_entry. fold (remaining after (tr_state m)).
  destruct (least P2pId_cmp (remaining after (tr_state m))) as [u|] eqn:E; simpl; [|by apply least_None in E].
  pose proof E as [Hin _]%least_Some; [|apply _]. apply elem_of_remaining in Hin as [_ [us Hu]].
  rewrite Hu. simpl. destruct (lookup_lt_is_Some_2 (tr_heap m) (us_entry us) (Ha _ _ Hu)) as [e He].
  rewrite He. simpl. split_and!; try done. intros v vs Hv. simpl. rewrite length_insert. by apply (Ha v).
Qed.

Lemma iter_collect_spec fuel after m :
  entries_allocated m -> (length (remaining after (tr_state m)) < fuel)%nat ->
  (iter_collect fuel after m).*1 ≡ₚ remaining after (tr_state m) /\
  StronglySorted (fun u v => P2pId_cmp u v = Lt) (iter_collect fuel after m).*1.
Proof.
  revert after m. induction fuel as [|fuel IH]; intros after m Ha Hf; [lia|]. simpl.
  pose proof (iter_next_spec after m Ha) as Hn. destruct (iter_next after m) as [[[[u x]|] after'] m'].
  - destruct Hn as (Hl & -> & Hs & Ha'). destruct (remaining_split _ _ _ Hl) as [Hp Hlt].
    rewrite <-Hs in Hp, Hlt. rewrite <-Hs, Hp in Hf. simpl in Hf.
    destruct (IH (Some u) m' Ha' ltac:(rewrite Hs in *; lia)) as [IHp IHs]. rewrite fmap_cons. simpl. split.
    + rewrite <-Hs, Hp. by constructor.
    + constructor; [done|]. by rewrite IHp.
  - by rewrite Hn; split; [|constructor].
Qed.
End traversal.

(** ** Entries and their limits *)
Section heap.
Context {S L : Type} `{!SpeedStatOps S, !LimiterOps L, !LimiterLaws L} (instant_max : Z).
Implicit Types (m : PnTrafficManager S L) (w : traffic_world S L) (h : list (PnUserTrafficEntry S L)).

Definition configured (oc : option PnTrafficLimitConfig) (e : PnUserTrafficEntry S L) : Prop :=
  limit_of (tx_limiter e) = default (None, None) ((fun c => (tx_rate c, tx_weight c)) <$> oc) /\
  limit_of (rx_limiter e) = default (None, None) ((fun c => (rx_rate c, rx_weight c)) <$> oc).

(** Every user's entry is allocated, has the configured limits and belongs to no
    other user. *)
Definition heap_ok (s : PnTrafficManagerState) h : Prop :=
  (forall u us, users s !! u = Some us -> exists e, h !! us_entry us = Some e /\ configured (limit_configs s !! u) e) /\
  (forall u v us vs, users s !! u = Some us -> users s !! v = Some vs -> us_entry us = us_entry vs -> u = v).

Lemma heap_ok_shrink s s' h :
  limit_configs s' = limit_configs s ->
  (forall u us', users s' !! u = Some us' -> exists us, users s !! u = Some us /\ us_entry us = us_entry us') ->
  heap_ok s h -> heap_ok s' h.
Proof.
  intros Hl Hu [H1 H2]. split.
  - intros u us' (us & Hs & <-)%Hu. rewrite Hl. by apply H1.
  - intros u v us' vs' (us & Hs & He)%Hu (vs & Hs' & He')%Hu Heq. eapply H2; [done..|congruence].
Qed.

Lemma heap_ok_entries s h h' :
  (forall a e, h !! a = Some e -> exists e', h' !! a = Some e' /\ tx_limiter e' = tx_limiter e /\ rx_limiter e' = rx_limiter e) ->
  heap_ok s h -> heap_ok s h'.
Proof.
  intros Hh [H1 H2]. split; [|done]. intros u us (e & He & Hc)%H1. destruct (Hh _ _ He) as (e' & He' & Ht & Hr).
  exists e'. split; [done|]. unfold configured in *. by rewrite Ht, Hr.
Qed.

Lemma heap_ok_grow s h e : heap_ok s h -> heap_ok s (h ++ e).
Proof. apply heap_ok_entries. intros a x Ha. exists x. split; [|done]. by apply lookup_app_l_Some. Qed.

Lemma heap_ok_insert s h a e e' :
  h !! a = Some e -> tx_limiter e' = tx_limiter e -> rx_limiter e' = rx_limiter e ->
  heap_ok s h -> heap_ok s (<[a := e']> h).
Proof.
  intros Ha Ht Hr. apply heap_ok_entries. intros b x Hb. destruct (decide (a = b)) as [->|Hne].
  - simplify_eq. exists e'. split; [|done]. apply list_lookup_insert_eq. by eapply lookup_lt_Some.
  - exists x. by rewrite list_lookup_insert_ne.
Qed.

Lemma heap_ok_track s h a f : heap_ok s h -> heap_ok s (alter (map_stat f) a h).
Proof.
  apply heap_ok_entries. intros b e Hb. destruct (decide (a = b)) as [->|Hne].
  - exists (map_stat f e). by rewrite list_lookup_alter_eq, Hb.
  - exists e. by rewrite list_lookup_alter_ne.
Qed.

Lemma configured_new oc :
  configured oc (match oc with Some c => entry_set_limit c traffic_entry_new | None => traffic_entry_new end : PnUserTrafficEntry S L).
Proof using LimiterLaws0. destruct oc; split; simpl; by rewrite ?limit_of_set, ?limit_of_new. Qed.

Lemma heap_acquire u s h e c s' h' : acquire_user u s h = (e, c, s', h') -> heap_ok s h -> heap_ok s' h'.
Proof using LimiterLaws0.
  unfold acquire_user. destruct (users s !! u) as [us|] eqn:Hu; intros [= <- <- <- <-] Hok.
  - apply (heap_ok_shrink s); [by destruct (us_deadline us)| |done].
    intros v vs Hv. assert (<[u:=mkUser (us_entry us) (us_active us + 1) None]> (users s) !! v = Some vs) as H
      by (by destruct (us_deadline us)).
    apply lookup_insert_Some in H as [[<- <-]|[_ H]]; eauto.
  - pose proof (heap_ok_grow s h [match limit_configs s !! u with Some c => entry_set_limit c traffic_entry_new | None => traffic_entry_new end] Hok) as [H1 H2].
    destruct Hok as [Ho _]. assert (forall v vs, users s !! v = Some vs -> us_entry vs <> length h) as Hnew.
    { intros v vs (x & Hx%lookup_lt_Some & _)%Ho. lia. }
    split; simpl.
    + intros v vs [[<- <-]|[_ Hv]]%lookup_insert_Some; [|by apply H1]. simpl.
      eexists. split; [by apply list_lookup_middle|]. apply configured_new.
    + intros v v' vs vs' [[<- <-]|[_ Hv]]%lookup_insert_Some [[<- <-]|[_ Hv']]%lookup_insert_Some; simpl; try done.
      * intros Heq. by destruct (Hnew _ _ Hv').
      * intros Heq. by destruct (Hnew _ _ Hv).
      * by apply H2.
Qed.

Lemma heap_begin source target m x m' :
  begin_session source target m = (x, m') -> heap_ok (tr_state m) (tr_heap m) -> heap_ok (tr_state m') (tr_heap m').
Proof using LimiterLaws0.
  unfold begin_session. intros Hb Hok. destruct (is_shutdown (tr_state m)).
  - case_bool_decide; injection Hb as <- <-; simpl; by apply heap_ok_grow.
  - destruct (acquire_user source _ _) as [[[e1 c1] s1] h1] eqn:E1.
    pose proof (heap_acquire _ _ _ _ _ _ _ E1 Hok) as Hok1.
    case_bool_decide; [by injection Hb as <- <-|].
    destruct (acquire_user target s1 h1) as [[[e2 c2] s2] h2] eqn:E2.
    pose proof (heap_acquire _ _ _ _ _ _ _ E2 Hok1) as Hok2.
    by injection Hb as <- <-.
Qed.

Lemma heap_release now p s c s' h : release_user instant_max now p s = (c, s') -> heap_ok s h -> heap_ok s' h.
Proof.
  unfold release_user. destruct (users s !! part_user p) as [us|] eqn:Hu; [|by intros [= <- <-]].
  case_bool_decide; [|by intros [= <- <-]]. destruct (us_active us =? 0)%nat; [by intros [= <- <-]|].
  intros Hr. apply heap_ok_shrink.
  - simpl in Hr. repeat case_match; by injection Hr as <- <-.
  - intros v vs Hv. assert (part_user p = v /\ us_entry vs = us_entry us \/ users s !! v = Some vs) as [[<- ?]|?]; [|eauto..].
    simpl in Hr. rewrite lookup_insert_eq in Hr. repeat case_match; injection Hr as <- <-; simpl in Hv;
      repeat first [apply lookup_delete_Some in Hv as [? Hv] | apply lookup_insert_Some in Hv as [[<- <-]|[? Hv]]]; auto.
Qed.

Lemma heap_drop now g m :
  heap_ok (tr_state m) (tr_heap m) ->
  heap_ok (tr_state (guard_drop instant_max now g m)) (tr_heap (guard_drop instant_max now g m)).
Proof.
  intros Hok. unfold guard_drop. case_match; [|done]. unfold end_session.
  destruct (release_user _ _ (guard_source g) _) as [c1 s1] eqn:E1. apply (heap_release _ _ _ _ _ (tr_heap m)) in E1; [|done].
  destruct (guard_target g) as [t|]; [|done].
  destruct (release_user _ _ t s1) as [c2 s2] eqn:E2. by apply (heap_release _ _ _ _ _ (tr_heap m)) in E2.
Qed.

Lemma heap_limit u c m :
  heap_ok (tr_state m) (tr_heap m) -> heap_ok (tr_state (set_user_limit u c m)) (tr_heap (set_user_limit u c m)).
Proof using LimiterLaws0.
  intros [H1 H2]. unfold set_user_limit. case_match; [done|]. split; simpl; [|done].
  intros v vs Hv. destruct (H1 _ _ Hv) as (e & He & Hc). destruct (decide (u = v)) as [<-|Hne].
  - rewrite Hv, list_lookup_alter_eq, He, lookup_insert_eq. eexists. split; [done|].
    split; simpl; by rewrite limit_of_set.
  - rewrite lookup_insert_ne by done. exists e. split; [|done]. destruct (users _ !! u) as [us|] eqn:Hu; [|done].
    rewrite list_lookup_alter_ne; [done|]. intros Heq. by apply Hne, (H2 _ _ _ _ Hu Hv).
Qed.

Lemma heap_turn now m m' task' ps :
  run_cleanup_turn now m = (m', task') -> state_ok (tr_state m) ps ->
  heap_ok (tr_state m) (tr_heap m) -> heap_ok (tr_state m') (tr_heap m').
Proof.
  unfold run_cleanup_turn. intros Hr [[Hsd Hok]|He] Hh.
  - destruct (cleanup_action now (tr_state m)) as [act s] eqn:Ea. injection Hr as <- <-.
    destruct (cleanup_action_spec _ _ _ _ _ Hok Hsd Ea) as [Hs _].
    destruct (cleanup_loop_spec PN_TRAFFIC_CLEANUP_BATCH_SIZE now _ _ s Hok (eq_sym Hs)) as (_ & _ & Hl & _ & _ & _ & Hback & _).
    clear Hs Ea. simpl. eapply heap_ok_shrink; [done| |done]. eauto.
  - rewrite He in Hr. simpl in Hr. injection Hr as <- <-. by rewrite He in Hh.
Qed.

Lemma tr_step_heap w w' :
  tr_step instant_max w w' -> tw_ok w ->
  heap_ok (tr_state (tw_manager w)) (tr_heap (tw_manager w)) -> heap_ok (tr_state (tw_manager w')) (tr_heap (tw_manager w')).
Proof using LimiterLaws0.
  intros Hstep [Hst _] Hok. destruct Hstep; simpl in *; try done.
  - by eapply heap_begin.
  - by apply heap_drop.
  - unfold set_retention. by case_match.
  - by apply heap_limit.
  - unfold snapshot_of. destruct (users (tr_state m) !! u) as [us|]; simpl; [|done].
    destruct (tr_heap m !! us_entry us) as [e|] eqn:He; simpl; [|done].
    destruct consume; by apply (heap_ok_insert _ _ _ e).
  - unfold iter_next. destruct (next_entry _ _) as [[u a]|]; simpl; [|done].
    destruct (tr_heap m !! a) as [e|] eqn:He; simpl; [|done]. by apply (heap_ok_insert _ _ _ e).
  - by apply heap_ok_track.
  - by eapply heap_turn.
Qed.

Lemma traffic_reachable_heap w : traffic_reachable instant_max w -> heap_ok (tr_state (tw_manager w)) (tr_heap (tw_manager w)).
Proof using LimiterLaws0.
  intros Hr. assert (tw_ok w /\ heap_ok (tr_state (tw_manager w)) (tr_heap (tw_manager w))) as [_ ?]; [|done].
  eapply (rtc_preserves (tr_step instant_max) (fun w => tw_ok w /\ heap_ok (tr_state (tw_manager w)) (tr_heap (tw_manager w)))).
  - intros u v Hs [H1 H2]. split; [by eapply tr_step_ok|by eapply tr_step_heap].
  - exact Hr.
  - split; [apply (traffic_reachable_ok instant_max), rtc_refl|]. by split.
Qed.

(** The limits in force are the ones configured: in every reachable state
    every user in the map has its own entry, shared with no other user, whose
    two limiters carry exactly the rates and weights last set for that user
    (none, if none were set), whether the configuration came before or after the
    user's first session. *)
Theorem traffic_limits_applied w u us :
  traffic_reachable instant_max w -> users (tr_state (tw_manager w)) !! u = Some us ->
  (exists e, tr_heap (tw_manager w) !! us_entry us = Some e /\
             configured (limit_configs (tr_state (tw_manager w)) !! u) e) /\
  (forall v vs, users (tr_state (tw_manager w)) !! v = Some vs -> us_entry vs = us_entry us -> v = u).
Proof using LimiterLaws0.
  intros [H1 H2]%traffic_reachable_heap Hu. split; [by apply H1|]. intros v vs Hv He. by eapply H2.
Qed.

(** Traversal is complete: in any reachable state the snapshot iterator
    yields every user exactly once, in strictly increasing order of identifiers,
    and then ends. *)
Theorem traffic_iter_complete w fuel :
  traffic_reachable instant_max w -> (size (users (tr_state (tw_manager w))) < fuel)%nat ->
  (iter_collect fuel None (tw_manager w)).*1 ≡ₚ elements (dom (users (tr_state (tw_manager w)))) /\
  StronglySorted (fun u v => P2pId_cmp u v = Lt) (iter_collect fuel None (tw_manager w)).*1.
Proof using LimiterLaws0.
  intros [H1 _]%traffic_reachable_heap Hf.
  assert (remaining None (tr_state (tw_manager w)) = elements (dom (users (tr_state (tw_manager w))))) as Hr.
  { unfold remaining. induction (elements _) as [|x l IH]; [done|]. by rewrite filter_cons, decide_True, IH. }
  rewrite <-Hr. apply iter_collect_spec.
  - intros u us (e & He & _)%H1. by eapply lookup_lt_Some.
  - rewrite Hr. change (length (elements ?X)) with (size X). by rewrite size_dom.
Qed.
End heap.

(** ** Instances and a concrete run

    Counters that add, and limiters that remember what was set. *)
Record PlainStat := mkStat { ps_read : Z; ps_write : Z }.
#[global] Instance PlainStat_ops : SpeedStatOps PlainStat := {|
  stat_new := mkStat 0 0; get_read_sum_size := ps_read; get_write_sum_size := ps_write;
  get_read_speed _ := 0; get_write_speed _ := 0;
  add_read_data_size n s := mkStat (ps_read s + n) (ps_write s);
  add_write_data_size n s := mkStat (ps_read s) (ps_write s + n) |}.
#[global] Instance PlainStat_laws : SpeedStatLaws PlainStat.
Proof. split; done. Qed.

Notation PlainLimiter := (option Z * option Z)%type.
#[global] Instance PlainLimiter_ops : LimiterOps PlainLimiter := {|
  limiter_new := (None, None); limiter_set r w _ := (r, w); limit_of l := l |}.
#[global] Instance PlainLimiter_laws : LimiterLaws PlainLimiter.
Proof. split; done. Qed.

Module TrafficDemo.
Definition alice : P2pId := mkP2pId [1].
Definition bob : P2pId := mkP2pId [2].
Definition carol : P2pId := mkP2pId [3].
Definition cap : PnTrafficLimitConfig := mkLimit (Some 1000) None (Some 500) None.
Definition horizon : Z := from_secs 1000000.

Definition m1 : PnTrafficManager PlainStat PlainLimiter := set_retention (from_secs 10) traffic_manager_new.
Definition m2 := set_user_limit alice cap m1.
Definition b3 := begin_session alice bob m2.
Definition b4 := begin_session alice carol (snd b3).
(** Alice's second session ends at time 5: carol becomes idle. *)
Definition m5 := guard_drop horizon 5 (lifecycle (fst b4)) (snd b4).
Definition t6 := run_cleanup_turn 6 (clear_wakeup m5).

Definition world : traffic_world PlainStat PlainLimiter := mkTWorld (fst t6) [fst b3] (snd t6).

Lemma demo_traffic_reachable : traffic_reachable horizon world.
Proof.
  unfold traffic_reachable.
  eapply rtc_l; [apply (tr_start horizon)|]. eapply rtc_l; [by apply (tr_turn horizon 0)|].
  eapply rtc_l; [apply (tr_retention horizon (from_secs 10))|].
  eapply rtc_l; [apply (tr_limit horizon alice cap)|].
  eapply rtc_l; [by apply (tr_begin horizon _ _ _ alice bob (fst b3) (snd b3))|].
  eapply rtc_l; [by apply (tr_begin horizon _ _ _ alice carol (fst b4) (snd b4))|].
  eapply rtc_l; [apply (tr_end horizon 5 _ [] (fst b4) [fst b3])|].
  eapply rtc_l; [by apply (tr_signal horizon)|].
  eapply rtc_l; [|apply rtc_refl]. by apply (tr_turn horizon 6).
Qed.
End TrafficDemo.

Import TrafficDemo.

Lemma traffic_ledger_exact_witness :
  (exists us, users (tr_state (tw_manager world)) !! alice = Some us /\ us_active us = 1%nat) /\
  (5 + from_secs 10, carol) ∈ cleanup_deadlines (tr_state (tw_manager world)) /\
  exists us, users (tr_state (tw_manager world)) !! carol = Some us /\ us_deadline us = Some (5 + from_secs 10).
Proof.
  destruct (traffic_ledger_exact horizon world demo_traffic_reachable ltac:(vm_compute; reflexivity)) as (_ & Hd & _).
  assert ((5 + from_secs 10, carol) ∈ cleanup_deadlines (tr_state (tw_manager world))) as Hin.
  { apply (bool_decide_unpack _). vm_compute. exact I. }
  split; [eexists; split; vm_compute; reflexivity|]. split; [exact Hin|]. exact (Hd _ _ Hin).
Defined.

Lemma traffic_cleanup_never_oversleeps_witness :
  tw_task world = Asleep 6 (Some (5 + from_secs 10)) /\ tr_wakeup (tw_manager world) = false /\
  (tr_wakeup (tw_manager world) = true \/
   (is_shutdown (tr_state (tw_manager world)) = false /\
    forall d u, (d, u) ∈ cleanup_deadlines (tr_state (tw_manager world)) ->
    exists t, Some (5 + from_secs 10) = Some t /\ t <= d)).
Proof.
  split; [vm_compute; reflexivity|]. split; [vm_compute; reflexivity|].
  exact (traffic_cleanup_never_oversleeps horizon world 6 _ demo_traffic_reachable ltac:(vm_compute; reflexivity)).
Defined.

Lemma traffic_cleanup_terminates_witness :
  users (passes 1 (from_secs 20) (tr_state (tw_manager world))) !! carol = None /\
  fst (cleanup_action (from_secs 20) (passes 1 (from_secs 20) (tr_state (tw_manager world)))) <> ActYield.
Proof.
  destruct (traffic_cleanup_terminates horizon world (from_secs 20) 1 demo_traffic_reachable ltac:(vm_compute; reflexivity)
    ltac:(vm_compute; lia)) as [Hy Hu].
  split; [rewrite (Hu carol); vm_compute; reflexivity|exact Hy].
Defined.

Lemma snapshot_deltas_partition_witness :
  let run := entry_run (S:=PlainStat) (L:=PlainLimiter) [EvRead 5; EvSnapshot; EvRead 7; EvPeek; EvWrite 2] in
  map tx_delta_bytes (fst run) = [5] /\ tx_delta_bytes (fst (entry_peek_snapshot (snd run))) = 7 /\
  sum (map tx_delta_bytes (fst run)) + tx_delta_bytes (fst (entry_peek_snapshot (snd run))) = 12.
Proof.
  split; [vm_compute; reflexivity|]. split; [vm_compute; reflexivity|].
  refine (proj1 (proj2 (proj2 (snapshot_deltas_partition (S:=PlainStat) (L:=PlainLimiter)
    [EvRead 5; EvSnapshot; EvRead 7; EvPeek; EvWrite 2] _ _ _ _ _ eq_refl)))).
  - repeat constructor; simpl; lia.
  - vm_compute. discriminate.
  - vm_compute. discriminate.
Defined.

Lemma traffic_limits_applied_witness :
  exists us e, users (tr_state (tw_manager world)) !! alice = Some us /\
    tr_heap (tw_manager world) !! us_entry us = Some e /\
    configured (Some cap) e /\ limit_of (tx_limiter e) = (Some 1000, None).
Proof.
  assert (exists us, users (tr_state (tw_manager world)) !! alice = Some us) as [us Hu]
    by (eexists; vm_compute; reflexivity).
  destruct (traffic_limits_applied horizon world alice us demo_traffic_reachable Hu) as [(e & He & Hc) _].
  exists us, e. split; [exact Hu|]. split; [exact He|]. split; [exact Hc|]. exact (proj1 Hc).
Defined.

Lemma traffic_iter_complete_witness :
  (iter_collect 9 None (tw_manager world)).*1 = [alice; bob; carol] /\
  StronglySorted (fun u v => P2pId_cmp u v = Lt) (iter_collect 9 None (tw_manager world)).*1.
Proof.
  split; [vm_compute; reflexivity|].
  exact (proj2 (traffic_iter_complete horizon world 9 demo_traffic_reachable ltac:(vm_compute; lia))).
Defined.
