(* ===== verification/PnServer.v ===== *)
(** * The proxy node (pn/protocol.rs, pn/service/pn_server.rs)

    A proxy node accepts a connection from an authenticated peer, reads one open
    request, asks its validator, opens a stream to the target, forwards the
    request, answers the source with the target's result and then copies bytes
    until one side ends.  A tunnel whose data connection was established is
    remembered as a relay session; later data connections of the same tunnel, in
    either direction, skip the validator.  [server_step] interleaves any number of
    connections, split where the handlers await, with the traffic manager of
    [PnTraffic]. *)

From S2P Require Import Prelude.
From S2P Require Import Errors.
From S2P Require Import Ids.
From S2P Require Import Codec.
From S2P Require Import TunnelCommand.
From S2P Require Import ControlStream.
From S2P Require Import PnTraffic.

(** ** pn/protocol.rs *)
Definition PN_COMMAND_PROXY_OPEN_REQ : Z := 1.
Definition PN_COMMAND_PROXY_OPEN_RESP : Z := 2.
Definition PN_COMMAND_PROXY_CONTROL_OPEN_REQ : Z := 3.
Definition PN_COMMAND_PROXY_CONTROL_OPEN_RESP : Z := 4.
Definition PN_COMMAND_CONTROL_PING : Z := 5.
Definition PN_COMMAND_CONTROL_PONG : Z := 6.
Definition PN_COMMAND_CONTROL_CLOSE : Z := 7.
Definition PN_COMMAND_CONTROL_DATA : Z := 8.

Inductive PnChannelKind := PnStream | PnDatagram.
Record ProxyOpenReq := mkProxyOpenReq {
  pq_tunnel_id : TunnelId; pq_from : P2pId; pq_to : P2pId; pq_kind : PnChannelKind; pq_purpose : TunnelPurpose }.
Record ProxyOpenResp := mkProxyOpenResp { pr_tunnel_id : TunnelId; pr_result : Z }.
Record ProxyControlOpenReq := mkProxyControlOpenReq {
  cq_tunnel_id : TunnelId; cq_from : P2pId; cq_to : P2pId }.
Record ProxyControlOpenResp := mkProxyControlOpenResp { cr_tunnel_id : TunnelId; cr_result : Z }.

#[global] Instance ProxyOpenReq_id : CommandId ProxyOpenReq := {| COMMAND_ID := PN_COMMAND_PROXY_OPEN_REQ |}.
#[global] Instance ProxyOpenResp_id : CommandId ProxyOpenResp := {| COMMAND_ID := PN_COMMAND_PROXY_OPEN_RESP |}.
#[global] Instance ProxyControlOpenReq_id : CommandId ProxyControlOpenReq :=
  {| COMMAND_ID := PN_COMMAND_PROXY_CONTROL_OPEN_REQ |}.
#[global] Instance ProxyControlOpenResp_id : CommandId ProxyControlOpenResp :=
  {| COMMAND_ID := PN_COMMAND_PROXY_CONTROL_OPEN_RESP |}.

#[global] Instance PnChannelKind_eq_dec : EqDecision PnChannelKind.
Proof. solve_decision. Defined.

(** ** Validators *)
Inductive ValidateResult := Accept | Reject.

Record PnConnectionValidateContext := mkCtx {
  vc_from : P2pId; vc_to : P2pId; vc_tunnel_id : TunnelId; vc_kind : PnChannelKind; vc_purpose : TunnelPurpose;
  vc_is_control : bool }.

Definition allow_all_validate (_ : PnConnectionValidateContext) : P2pResult ValidateResult := Ok Accept.
Definition reject_all_validate (_ : PnConnectionValidateContext) : P2pResult ValidateResult := Ok Reject.

(** [AssignedTargetConnectionValidator::validate]; the policy is the caller's. *)
Definition assigned_target_validate (policy : P2pId -> P2pResult bool) (ctx : PnConnectionValidateContext)
    : P2pResult ValidateResult :=
  assigned <-? policy (vc_to ctx) ;; Ok (if assigned : bool then Accept else Reject).

Definition result_from_error (e : P2pErrorCode.t) : TunnelCommandResult :=
  match e with
  | P2pErrorCode.PortNotListen => ResPortNotListen
  | P2pErrorCode.Timeout => ResTimeout
  | P2pErrorCode.Interrupted | P2pErrorCode.NotFound => ResInterrupted
  | P2pErrorCode.InvalidParam | P2pErrorCode.PermissionDenied | P2pErrorCode.Reject => ResInvalidParam
  | P2pErrorCode.InvalidData => ResProtocolError
  | _ => ResInternalError
  end.

(** ** Frames *)
Section frames.
Context `{header_codec : !RawCodec TunnelCommandHeader}.

Definition write_proxy_command {T} `{!RawCodec T, !CommandId T} (b : T) : P2pResult (list Z) :=
  c <-? command_new b ;; write_tunnel_command c.

Definition read_proxy_command {T} `{!RawCodec T, !CommandId T} (s : list Z) : P2pResult (T * list Z) :=
  x <-? read_tunnel_command_header s ;;
  y <-? read_tunnel_command_body (T:=T) (fst x) (snd x) ;;
  Ok (body (fst y), snd y).
End frames.

(** ** Relay sessions *)
Notation PnRelaySessionKey := (TunnelId * P2pId * P2pId)%type.

Definition has_relay_session (id : TunnelId) (from to : P2pId) (sessions : gset PnRelaySessionKey) : bool :=
  bool_decide ((id, from, to) ∈ sessions) || bool_decide ((id, to, from) ∈ sessions).
Definition register_relay_session (id : TunnelId) (from to : P2pId) (sessions : gset PnRelaySessionKey)
    : gset PnRelaySessionKey := {[(id, from, to)]} ∪ sessions.
Definition unregister_relay_session (id : TunnelId) (from to : P2pId) (sessions : gset PnRelaySessionKey)
    : gset PnRelaySessionKey := sessions ∖ {[(id, from, to)]} ∖ {[(id, to, from)]}.

(** ** One connection's decisions *)
Inductive ProxyRequest := PrData (r : ProxyOpenReq) | PrControl (r : ProxyControlOpenReq).

Definition req_tunnel_id (r : ProxyRequest) : TunnelId :=
  match r with PrData r => pq_tunnel_id r | PrControl r => cq_tunnel_id r end.
Definition req_from (r : ProxyRequest) : P2pId := match r with PrData r => pq_from r | PrControl r => cq_from r end.
Definition req_to (r : ProxyRequest) : P2pId := match r with PrData r => pq_to r | PrControl r => cq_to r end.
Definition req_is_control (r : ProxyRequest) : bool := match r with PrData _ => false | PrControl _ => true end.

(** [req.from = from.clone()], the first statement of both handlers. *)
Definition set_from (from : P2pId) (r : ProxyRequest) : ProxyRequest :=
  match r with
  | PrData r => PrData (mkProxyOpenReq (pq_tunnel_id r) from (pq_to r) (pq_kind r) (pq_purpose r))
  | PrControl r => PrControl (mkProxyControlOpenReq (cq_tunnel_id r) from (cq_to r))
  end.

Section dispatch.
Context `{header_codec : !RawCodec TunnelCommandHeader, data_codec : !RawCodec ProxyOpenReq,
          control_codec : !RawCodec ProxyControlOpenReq}.

(** [handle_proxy_connection] up to the handler it calls; [None] when it
    returns without one. *)
Definition handle_proxy_connection (from : P2pId) (s : list Z) : option ProxyRequest :=
  match read_tunnel_command_header s with
  | Err _ => None
  | Ok (h, s) =>
    if hd_command_id h =? COMMAND_ID ProxyOpenReq then
      match read_tunnel_command_body (T:=ProxyOpenReq) h s with
      | Ok (c, _) => Some (set_from from (PrData (body c)))
      | Err _ => None
      end
    else if hd_command_id h =? COMMAND_ID ProxyControlOpenReq then
      match read_tunnel_command_body (T:=ProxyControlOpenReq) h s with
      | Ok (c, _) => Some (set_from from (PrControl (body c)))
      | Err _ => None
      end
    else None
  end.
End dispatch.

(** The context a validator is asked about; [proxy_purpose] is the encoding of
    [PROXY_SERVICE]. *)
Definition validate_context (proxy_purpose : TunnelPurpose) (r : ProxyRequest) : PnConnectionValidateContext :=
  match r with
  | PrData r => mkCtx (pq_from r) (pq_to r) (pq_tunnel_id r) (pq_kind r) (pq_purpose r) false
  | PrControl r => mkCtx (cq_from r) (cq_to r) (cq_tunnel_id r) PnStream proxy_purpose true
  end.

(** Only data requests of a known relay session skip the validator. *)
Definition skips_validation (r : ProxyRequest) (sessions : gset PnRelaySessionKey) : bool :=
  match r with
  | PrData r => has_relay_session (pq_tunnel_id r) (pq_from r) (pq_to r) sessions
  | PrControl _ => false
  end.

(** The tail of [validate_proxy_open_req] and [validate_proxy_control_open_req]. *)
Definition verdict_result (v : P2pResult ValidateResult) : P2pResult unit :=
  match v with
  | Err e => Err e
  | Ok Accept => Ok tt
  | Ok Reject => Err P2pErrorCode.PermissionDenied
  end.

(** What the target side did: whether its stream opened, whether the request
    could be written, and its response; [None] is the timeout. *)
Record target_outcome := mkOutcome {
  to_opened : option (P2pResult unit); to_written : P2pResult unit; to_response : option (P2pResult (TunnelId * Z)) }.

Definition with_timeout {A} (o : option (P2pResult A)) : P2pResult A :=
  match o with None => Err P2pErrorCode.Timeout | Some r => r end.

(** [bridge_ready]. *)
Definition bridge_ready (r : ProxyRequest) (o : target_outcome) : P2pResult TunnelCommandResult :=
  _ <-? to_written o ;;
  resp <-? with_timeout (to_response o) ;;
  if negb (fst resp =? req_tunnel_id r) then Err P2pErrorCode.InvalidData
  else match command_result_from_u8 (snd resp) with
       | Some result => Ok result
       | None => Err P2pErrorCode.InvalidData
       end.

(** The result byte answered to the source. *)
Definition answer_result (r : ProxyRequest) (o : target_outcome) : TunnelCommandResult :=
  match with_timeout (to_opened o) with
  | Err e => result_from_error e
  | Ok _ => match bridge_ready r o with Ok result => result | Err e => result_from_error e end
  end.

(** Whether the handler goes on to copy bytes. *)
Definition open_result (r : ProxyRequest) (o : target_outcome) : P2pResult unit :=
  _ <-? with_timeout (to_opened o) ;;
  result <-? bridge_ready r o ;;
  if bool_decide (result = ResSuccess) then Ok tt else Err (into_p2p_error result).

(** The connection ends in a bridge exactly when the source is told success. *)
Lemma open_result_answer r o : is_ok (open_result r o) = bool_decide (answer_result r o = ResSuccess).
Proof.
  unfold open_result, answer_result. destruct (with_timeout (to_opened o)) as [[]|e].
  - destruct (bridge_ready r o) as [res|e]; [by case_bool_decide|].
    symmetry. apply bool_decide_eq_false. by destruct e.
  - symmetry. apply bool_decide_eq_false. by destruct e.
Qed.

(** ** Interleaved connections *)
Inductive ConnPhase := Validating | Opening | Answered | Bridging (x : PnTrafficSession).
Record PnConn := mkConn { cn_id : nat; cn_req : ProxyRequest; cn_phase : ConnPhase }.

(** What happened, newest first. *)
Inductive server_event :=
| EvAccepted (ctx : PnConnectionValidateContext)
| EvForwarded (id : nat) (r : ProxyRequest)
| EvResponse (id : nat) (result : TunnelCommandResult).

Section server.
Context {S L : Type} `{!SpeedStatOps S, !LimiterOps L}.
Context `{header_codec : !RawCodec TunnelCommandHeader, data_codec : !RawCodec ProxyOpenReq,
          control_codec : !RawCodec ProxyControlOpenReq}.
Context (instant_max : Z) (proxy_purpose : TunnelPurpose).

Record server_world := mkServer {
  sv_relay : gset PnRelaySessionKey; sv_traffic : traffic_world S L; sv_conns : list PnConn; sv_next : nat;
  sv_log : list server_event }.

Definition with_manager (m : PnTrafficManager S L) (ss : list PnTrafficSession) (w : traffic_world S L)
    : traffic_world S L := mkTWorld m ss (tw_task w).

(** Registration of the relay session and the start of the bridge. *)
Definition relay_registered (r : ProxyRequest) (sessions : gset PnRelaySessionKey) : gset PnRelaySessionKey :=
  match r with
  | PrData _ => register_relay_session (req_tunnel_id r) (req_from r) (req_to r) sessions
  | PrControl _ => sessions
  end.
Definition relay_unregistered (r : ProxyRequest) (sessions : gset PnRelaySessionKey) : gset PnRelaySessionKey :=
  match r with
  | PrData _ => sessions
  | PrControl _ => unregister_relay_session (req_tunnel_id r) (req_from r) (req_to r) sessions
  end.

Inductive server_step : server_world -> server_world -> Prop :=
| sv_connection from bytes r relay tw cs next log :
    handle_proxy_connection from bytes = Some r ->
    server_step (mkServer relay tw cs next log)
      (mkServer relay tw (cs ++ [mkConn next r (if skips_validation r relay then Opening else Validating)])
         (Datatypes.S next) log)
| sv_accepted v c relay tw cs1 cs2 next log :
    cn_phase c = Validating -> verdict_result v = Ok tt ->
    server_step (mkServer relay tw (cs1 ++ c :: cs2) next log)
      (mkServer relay tw (cs1 ++ mkConn (cn_id c) (cn_req c) Opening :: cs2) next
         (EvAccepted (validate_context proxy_purpose (cn_req c)) :: log))
| sv_rejected v e c relay tw cs1 cs2 next log :
    cn_phase c = Validating -> verdict_result v = Err e ->
    server_step (mkServer relay tw (cs1 ++ c :: cs2) next log)
      (mkServer relay tw (cs1 ++ cs2) next (EvResponse (cn_id c) (result_from_error e) :: log))
| sv_target o c relay tw cs1 cs2 next log :
    cn_phase c = Opening ->
    server_step (mkServer relay tw (cs1 ++ c :: cs2) next log)
      (mkServer relay tw
         (cs1 ++ (if is_ok (open_result (cn_req c) o) then [mkConn (cn_id c) (cn_req c) Answered] else []) ++ cs2)
         next (EvResponse (cn_id c) (answer_result (cn_req c) o) ::
               (if is_ok (with_timeout (to_opened o)) then [EvForwarded (cn_id c) (cn_req c)] else []) ++ log))
| sv_bridge c relay tw cs1 cs2 next log x m :
    cn_phase c = Answered -> begin_session (req_from (cn_req c)) (req_to (cn_req c)) (tw_manager tw) = (x, m) ->
    server_step (mkServer relay tw (cs1 ++ c :: cs2) next log)
      (mkServer (relay_registered (cn_req c) relay) (with_manager m (x :: tw_sessions tw) tw)
         (cs1 ++ mkConn (cn_id c) (cn_req c) (Bridging x) :: cs2) next log)
| sv_end now c x relay tw cs1 cs2 next log ss1 ss2 :
    cn_phase c = Bridging x -> tw_sessions tw = ss1 ++ x :: ss2 ->
    server_step (mkServer relay tw (cs1 ++ c :: cs2) next log)
      (mkServer (relay_unregistered (cn_req c) relay)
         (with_manager (guard_drop instant_max now (lifecycle x) (tw_manager tw)) (ss1 ++ ss2) tw) (cs1 ++ cs2) next log)
| sv_traffic_step relay tw tw' cs next log :
    (** configuration, snapshots, counting, cleanup, shutdown *)
    tr_step instant_max tw tw' -> tw_sessions tw' = tw_sessions tw ->
    server_step (mkServer relay tw cs next log) (mkServer relay tw' cs next log).

Definition server_reachable : server_world -> Prop :=
  rtc server_step (mkServer ∅ (mkTWorld traffic_manager_new [] Unstarted) [] 0 []).
End server.
Arguments server_world : clear implicits.

(** ** Starting and stopping ([PnServer]) *)
Section lifecycle.
Context {S L : Type} `{!SpeedStatOps S, !LimiterOps L}.

Record PnServer := mkPnServer { ps_started : bool; ps_stopped : bool; ps_listening : bool; ps_traffic : traffic_world S L }.

Definition with_task (t : TaskPhase) (w : traffic_world S L) : traffic_world S L :=
  mkTWorld (tw_manager w) (tw_sessions w) t.

(** [spawn] is the executor's answer to spawning the cleanup task, which is
    needed only for the first start of a manager that is not shut down;
    [listen] is the answer of [listen_stream]. *)
Definition pn_start (spawn listen : P2pResult unit) (p : PnServer) : P2pResult unit * PnServer :=
  if ps_started p then (Ok tt, p) else
  let t := start_cleanup_task (tw_manager (ps_traffic p)) (tw_task (ps_traffic p)) in
  let spawning := match tw_task (ps_traffic p), t with Unstarted, Awake => true | _, _ => false end in
  match (if spawning then spawn else Ok tt) with
  | Err e => (Err e, mkPnServer false (ps_stopped p) (ps_listening p) (ps_traffic p))
  | Ok _ =>
    let tw := with_task t (ps_traffic p) in
    match listen with
    | Err e => (Err e, mkPnServer false (ps_stopped p) (ps_listening p) tw)
    | Ok _ => (Ok tt, mkPnServer true (ps_stopped p) true tw)
    end
  end.

(** [stop]; [Drop for PnServer] is the same without the flag. *)
Definition pn_stop (p : PnServer) : PnServer :=
  mkPnServer (ps_started p) true (ps_listening p)
    (mkTWorld (traffic_shutdown (tw_manager (ps_traffic p))) (tw_sessions (ps_traffic p)) (tw_task (ps_traffic p))).

(** The callback's guard: a stopped server handles no connection. *)
Definition accepts (p : PnServer) : bool := ps_listening p && negb (ps_stopped p).

(** A failed start leaves a server that can be started again; a successful one
    is idempotent and runs the cleanup task unless the server was stopped. *)
Lemma pn_start_spec spawn listen p r p' :
  pn_start spawn listen p = (r, p') -> ps_started p = false ->
  ps_started p' = is_ok r /\
  (is_ok r = true -> ps_listening p' = true /\ pn_start spawn listen p' = (Ok tt, p') /\
     (is_shutdown (tr_state (tw_manager (ps_traffic p))) = false -> tw_task (ps_traffic p') <> Unstarted)).
Proof.
  intros H Hs. unfold pn_start in H. rewrite Hs in H.
  destruct (if _ : bool then spawn else Ok tt) as [[]|e]; [|by injection H as <- <-].
  destruct listen as [[]|e]; injection H as <- <-; [|done]. split; [done|]. intros _. split_and!; try done.
  intros Hsd. unfold start_cleanup_task. destruct (tw_task (ps_traffic p)); simpl; by rewrite ?Hsd.
Qed.
End lifecycle.
Arguments PnServer : clear implicits.

(** ** Frames on the wire *)
Section wire.
Context `{hc : !RawCodec TunnelCommandHeader, !HeaderCodec hc}.

Lemma write_proxy_command_inv {T} `{!RawCodec T, !RawCodecLaws T, !CommandId T} (b : T) bytes :
  write_proxy_command b = Ok bytes ->
  exists hb bb, bytes = hb ++ bb /\ to_vec (frame_header (T:=T) (length bb)) = Ok hb /\ to_vec b = Ok bb.
Proof.
  unfold write_proxy_command, command_new, write_tunnel_command, command_validate, body_len.
  destruct (codec_measure b) as [n|] eqn:Hm; [|done]. cbn [codec_err header body hd_version hd_command_id hd_data_len].
  rewrite !Z.eqb_refl, Hm. cbn [negb codec_err]. rewrite Z.eqb_refl. cbn [negb].
  destruct (to_vec (mkHeader _ _ _)) as [hb|] eqn:Hh; [|done]. cbn [codec_err].
  destruct (to_vec b) as [bb|] eqn:Hb; [|done]. intros [= <-].
  apply measure_to_vec in Hb as Hm'. rewrite Hm' in Hm. injection Hm as <-. by exists hb, bb.
Qed.

Context `{!RawCodec ProxyOpenReq, !RawCodecLaws ProxyOpenReq, !RawCodec ProxyControlOpenReq,
          !RawCodecLaws ProxyControlOpenReq}.

Definition write_request (r : ProxyRequest) : P2pResult (list Z) :=
  match r with PrData r => write_proxy_command r | PrControl r => write_proxy_command r end.

(** A source cannot pretend to be somebody else: the proxy node reads back
    every open request a peer writes (with a body that fits a frame), data or
    control, and handles it with [from] replaced by the peer's authenticated
    identity, whatever the request said. *)
Theorem proxy_request_authenticated r peer bytes rest :
  write_request r = Ok bytes -> Z.of_nat (length bytes) <= u32_max ->
  handle_proxy_connection peer (bytes ++ rest) = Some (set_from peer r) /\ req_from (set_from peer r) = peer.
Proof using HeaderCodec0 RawCodecLaws0 RawCodecLaws1.
  intros Hw Hlen. split; [|by destruct r]. unfold handle_proxy_connection.
  destruct r as [r|r]; simpl in Hw; apply write_proxy_command_inv in Hw as (hb & bb & -> & Hh & Hb);
    rewrite length_app in Hlen; rewrite <-app_assoc, (read_header_encoded _ _ _ Hh);
    cbn -[read_tunnel_command_body]; by rewrite (read_body_encoded _ _ _ Hb) by lia.
Qed.
End wire.

(** ** Invariants of the server *)
Section server_facts.
Context {S L : Type} `{!SpeedStatOps S, !LimiterOps L}.
Context `{header_codec : !RawCodec TunnelCommandHeader, data_codec : !RawCodec ProxyOpenReq,
          control_codec : !RawCodec ProxyControlOpenReq}.
Context (instant_max : Z) (proxy_purpose : TunnelPurpose).
Implicit Types (w : server_world S L).

Notation step := (server_step (S:=S) (L:=L) instant_max proxy_purpose).
Notation reachable := (server_reachable (S:=S) (L:=L) instant_max proxy_purpose).

(** A validator accepted a data connection of this tunnel between these two
    peers, in one of the two directions. *)
Definition pair_accepted (id : TunnelId) (a b : P2pId) (log : list server_event) : Prop :=
  exists ctx, EvAccepted ctx ∈ log /\ vc_is_control ctx = false /\ vc_tunnel_id ctx = id /\
    ((vc_from ctx = a /\ vc_to ctx = b) \/ (vc_from ctx = b /\ vc_to ctx = a)).

Definition req_accepted (r : ProxyRequest) (log : list server_event) : Prop :=
  match r with
  | PrData _ => pair_accepted (req_tunnel_id r) (req_from r) (req_to r) log
  | PrControl _ => EvAccepted (validate_context proxy_purpose r) ∈ log
  end.

Record admission_ok w : Prop := {
  ao_relay : forall id a b, (id, a, b) ∈ sv_relay w -> pair_accepted id a b (sv_log w);
  ao_conn : forall c, c ∈ sv_conns w -> cn_phase c <> Validating -> req_accepted (cn_req c) (sv_log w) }.

Lemma pair_accepted_mono id a b l l' : l ⊆ l' -> pair_accepted id a b l -> pair_accepted id a b l'.
Proof. intros Hsub (ctx & ? & ?). exists ctx. split; [by apply Hsub|done]. Qed.

Lemma pair_accepted_sym id a b l : pair_accepted id a b l -> pair_accepted id b a l.
Proof. intros (ctx & ? & ? & ? & ?). exists ctx. naive_solver. Qed.

Lemma req_accepted_mono r l l' : l ⊆ l' -> req_accepted r l -> req_accepted r l'.
Proof. destruct r; simpl; [apply pair_accepted_mono|]. intros Hsub ?. by apply Hsub. Qed.

Lemma skips_accepted r relay log :
  (forall id a b, (id, a, b) ∈ relay -> pair_accepted id a b log) -> skips_validation r relay = true -> req_accepted r log.
Proof.
  intros Hr. destruct r as [r|r]; simpl; [|done]. unfold has_relay_session.
  intros [H%bool_decide_eq_true_1|H%bool_decide_eq_true_1]%orb_true_iff; [by apply Hr|by apply pair_accepted_sym, Hr].
Qed.

Lemma admission_step w w' : step w w' -> admission_ok w -> admission_ok w'.
Proof.
  destruct 1 as [from bytes r relay tw cs next log Hc|v c relay tw cs1 cs2 next log Hp Hv|v e c relay tw cs1 cs2 next log Hp Hv
    |o c relay tw cs1 cs2 next log Hp|c relay tw cs1 cs2 next log x m Hp Hb
    |now c x relay tw cs1 cs2 next log ss1 ss2 Hp Hs|relay tw tw' cs next log Hs Hss]; intros [Hr Hc']; split; simpl in *.
  - done.
  - intros c [Hin| ->%list_elem_of_singleton]%elem_of_app; [by apply Hc'|]. simpl.
    destruct (skips_validation r relay) eqn:E; [|done]. intros _. by eapply skips_accepted.
  - intros id a b Hin. eapply pair_accepted_mono; [|by apply Hr]. set_solver.
  - intros c' Hin Hph. rewrite elem_of_app, elem_of_cons in Hin. destruct Hin as [Hin|[->|Hin]].
    + eapply req_accepted_mono; [|apply Hc'; [set_solver|done]]. set_solver.
    + simpl. destruct (cn_req c) as [r|r] eqn:E; simpl; [|set_solver]. eexists. split; [apply list_elem_of_here|].
      simpl. naive_solver.
    + eapply req_accepted_mono; [|apply Hc'; [set_solver|done]]. set_solver.
  - intros id a b Hin. eapply pair_accepted_mono; [|by apply Hr]. set_solver.
  - intros c' Hin Hph. eapply req_accepted_mono; [|apply Hc'; [set_solver|done]]. set_solver.
  - intros id a b Hin. eapply pair_accepted_mono; [|by apply Hr]. set_solver.
  - intros c' Hin Hph. eapply req_accepted_mono; [|]; [|instantiate (1 := log)]; [set_solver|].
    rewrite !elem_of_app in Hin. destruct Hin as [Hin|[Hin|Hin]];
      [apply Hc'; [set_solver|done]| |apply Hc'; [set_solver|done]].
    case_match; [|set_solver]. apply list_elem_of_singleton in Hin as ->. simpl. apply Hc'; [set_solver|congruence].
  - intros id a b Hin. assert (req_accepted (cn_req c) log) as Ha by (apply Hc'; [set_solver|congruence]).
    destruct (cn_req c) as [r|r]; simpl in *; [|by apply Hr].
    unfold register_relay_session in Hin. apply elem_of_union in Hin as [[= -> -> ->]%elem_of_singleton|Hin]; [done|by apply Hr].
  - intros c' Hin Hph. rewrite elem_of_app, elem_of_cons in Hin. destruct Hin as [Hin|[->|Hin]]; simpl;
      (apply Hc'; [set_solver|congruence]).
  - intros id a b Hin. apply Hr. destruct (cn_req c); simpl in Hin; [done|]. unfold unregister_relay_session in Hin. set_solver.
  - intros c' Hin Hph. apply Hc'; [set_solver|done].
  - done.
  - done.
Qed.


(** *** Responses *)
Definition responses (id : nat) (log : list server_event) : list TunnelCommandResult :=
  log ≫= fun e => match e with EvResponse i r => if decide (i = id) then [r] else [] | _ => [] end.

(** The source of a connection waits until it is answered. *)
Definition waiting (c : PnConn) : bool :=
  match cn_phase c with Validating | Opening => true | Answered | Bridging _ => false end.

Definition conns_of (id : nat) (cs : list PnConn) : list PnConn := filter (fun c => cn_id c = id) cs.

(** A connection's bookkeeping: [conns] are the live connections with its number. *)
Definition answered_ok (conns : list PnConn) (rs : list TunnelCommandResult) : Prop :=
  (exists c, conns = [c] /\ waiting c = true /\ rs = []) \/
  (exists r, rs = [r] /\ (conns = [] \/ (exists c, conns = [c] /\ waiting c = false /\ r = ResSuccess))).

Record answers_ok w : Prop := {
  an_known : forall id, (id < sv_next w)%nat -> answered_ok (conns_of id (sv_conns w)) (responses id (sv_log w));
  an_fresh : forall id, (sv_next w <= id)%nat -> conns_of id (sv_conns w) = [] /\ responses id (sv_log w) = [] }.

Lemma conns_of_app id cs1 cs2 : conns_of id (cs1 ++ cs2) = conns_of id cs1 ++ conns_of id cs2.
Proof. apply filter_app. Qed.

Lemma conns_of_cons id c cs : conns_of id (c :: cs) = (if decide (cn_id c = id) then [c] else []) ++ conns_of id cs.
Proof. unfold conns_of. rewrite filter_cons. by repeat case_decide. Qed.

(** A live connection is the only one with its number. *)
Lemma answers_focus relay tw cs1 c cs2 next log :
  answers_ok (mkServer relay tw (cs1 ++ c :: cs2) next log) ->
  conns_of (cn_id c) cs1 = [] /\ conns_of (cn_id c) cs2 = [] /\ (cn_id c < next)%nat /\
  answered_ok [c] (responses (cn_id c) log).
Proof.
  intros [Hk Hf]. simpl in *. assert (cn_id c < next)%nat as Hlt.
  { destruct (decide (cn_id c < next)%nat) as [|Hge]; [done|]. destruct (Hf (cn_id c) ltac:(lia)) as [Hn _].
    rewrite conns_of_app, conns_of_cons, decide_True in Hn by done. by destruct (conns_of (cn_id c) cs1). }
  specialize (Hk _ Hlt) as Hok. rewrite conns_of_app, conns_of_cons, decide_True in Hok by done. simpl in Hok.
  assert (conns_of (cn_id c) cs1 = [] /\ conns_of (cn_id c) cs2 = []) as [E1 E2].
  { assert (length (conns_of (cn_id c) cs1 ++ c :: conns_of (cn_id c) cs2) <= 1)%nat as Hl
      by (destruct Hok as [(? & -> & _)|(? & _ & [->|(? & -> & _)])]; simpl; lia).
    rewrite length_app in Hl. simpl in Hl. split; apply length_zero_iff_nil; lia. }
  rewrite E1, E2 in Hok. done.
Qed.

(** Replacing one live connection by at most one, and extending the log with
    events of that connection only. *)
Lemma answers_replace relay tw relay' tw' cs1 c cs' cs2 next log log' :
  answers_ok (mkServer relay tw (cs1 ++ c :: cs2) next log) ->
  (forall id, id <> cn_id c -> conns_of id cs' = [] /\ responses id log' = responses id log) ->
  answered_ok (conns_of (cn_id c) cs') (responses (cn_id c) log') ->
  answers_ok (mkServer relay' tw' (cs1 ++ cs' ++ cs2) next log').
Proof.
  intros Hok Hother Hnew. destruct (answers_focus _ _ _ _ _ _ _ Hok) as (E1 & E2 & Hlt & _). destruct Hok as [Hk Hf].
  assert (forall id, id <> cn_id c -> conns_of id (cs1 ++ cs' ++ cs2) = conns_of id (cs1 ++ c :: cs2)) as Hsame.
  { intros id Hne. rewrite !conns_of_app, conns_of_cons, decide_False by done. by rewrite (proj1 (Hother _ Hne)). }
  split; simpl in *.
  - intros id Hid. destruct (decide (id = cn_id c)) as [->|Hne].
    + by rewrite !conns_of_app, E1, E2, app_nil_r.
    + rewrite (Hsame _ Hne), (proj2 (Hother _ Hne)). by apply Hk.
  - intros id Hid. assert (id <> cn_id c) as Hne by lia. rewrite (Hsame _ Hne), (proj2 (Hother _ Hne)). by apply Hf.
Qed.

Lemma responses_other id i r log : id <> i -> responses id (EvResponse i r :: log) = responses id log.
Proof. intros. unfold responses. simpl. by rewrite decide_False. Qed.

Lemma responses_here i r log : responses i (EvResponse i r :: log) = r :: responses i log.
Proof. unfold responses. simpl. by rewrite decide_True. Qed.

Lemma responses_skip id evs log :
  Forall (fun e => match e with EvResponse _ _ => False | _ => True end) evs -> responses id (evs ++ log) = responses id log.
Proof. unfold responses. induction 1 as [|e evs He _ IH]; [done|]. by destruct e. Qed.

Lemma waiting_unanswered c rs : answered_ok [c] rs -> waiting c = true -> rs = [].
Proof. intros [(? & [= <-] & _ & ->)|(r & _ & [?|(? & [= <-] & Hw & _)])] ?; congruence. Qed.

Lemma not_waiting_success c rs : answered_ok [c] rs -> waiting c = false -> rs = [ResSuccess].
Proof. intros [(? & [= <-] & ? & _)|(r & -> & [?|(? & [= <-] & _ & ->)])] ?; congruence. Qed.

Lemma conns_of_new id c : conns_of id [c] = if decide (cn_id c = id) then [c] else [].
Proof. rewrite conns_of_cons. unfold conns_of. by rewrite app_nil_r. Qed.

Lemma answers_step w w' : step w w' -> answers_ok w -> answers_ok w'.
Proof.
  destruct 1 as [from bytes r relay tw cs next log Hc|v c relay tw cs1 cs2 next log Hp Hv|v e c relay tw cs1 cs2 next log Hp Hv
    |o c relay tw cs1 cs2 next log Hp|c relay tw cs1 cs2 next log x m Hp Hb
    |now c x relay tw cs1 cs2 next log ss1 ss2 Hp Hs|relay tw tw' cs next log Hs Hss]; intros Hok.
  - destruct Hok as [Hk Hf]. split; simpl in *.
    + intros id Hid. rewrite conns_of_app, conns_of_new. simpl. case_decide as E.
      * subst. destruct (Hf id ltac:(lia)) as [-> ->]. left. eexists. split_and!; [done| |done].
        unfold waiting. simpl. by destruct (skips_validation r relay).
      * rewrite app_nil_r. apply Hk. lia.
    + intros id Hid. rewrite conns_of_app, conns_of_new, decide_False, app_nil_r by (simpl; lia). apply Hf. lia.
  - destruct (answers_focus _ _ _ _ _ _ _ Hok) as (_ & _ & _ & Hc).
    eapply (answers_replace _ _ _ _ _ _ [_]); [exact Hok|..].
    + intros id Hne. rewrite conns_of_new, decide_False by (simpl; congruence). done.
    + rewrite conns_of_new, decide_True by done. left. eexists. split_and!; [done..|]. eapply waiting_unanswered; [exact Hc|]. unfold waiting. by rewrite Hp.
  - destruct (answers_focus _ _ _ _ _ _ _ Hok) as (_ & _ & _ & Hc).
    eapply (answers_replace _ _ _ _ _ _ []); [exact Hok|..].
    + intros id Hne. split; [done|]. by rewrite responses_other.
    + rewrite responses_here. right. eexists. split; [|by left]. f_equal.
      eapply waiting_unanswered; [exact Hc|]. unfold waiting. by rewrite Hp.
  - destruct (answers_focus _ _ _ _ _ _ _ Hok) as (_ & _ & _ & Hc).
    eapply answers_replace; [exact Hok|..].
    + intros id Hne. split; [|rewrite responses_other, responses_skip by (done || case_match; by repeat constructor); done].
      case_match; [|done]. by rewrite conns_of_new, decide_False by (simpl; congruence).
    + rewrite responses_here, responses_skip by (case_match; by repeat constructor). right. eexists. split.
      { f_equal. eapply waiting_unanswered; [exact Hc|]. unfold waiting. by rewrite Hp. }
      pose proof (open_result_answer (cn_req c) o) as Ho. destruct (is_ok (open_result (cn_req c) o)); [|by left].
      right. rewrite conns_of_new, decide_True by done. eexists. split_and!; [done..|].
      symmetry in Ho. by apply bool_decide_eq_true_1 in Ho.
  - destruct (answers_focus _ _ _ _ _ _ _ Hok) as (_ & _ & _ & Hc).
    eapply (answers_replace _ _ _ _ _ _ [_]); [exact Hok|..].
    + intros id Hne. by rewrite conns_of_new, decide_False by (simpl; congruence).
    + rewrite conns_of_new, decide_True by done. apply not_waiting_success in Hc; [|unfold waiting; by rewrite Hp].
      right. eexists. split; [exact Hc|]. right. eexists. by split_and!.
  - destruct (answers_focus _ _ _ _ _ _ _ Hok) as (_ & _ & _ & Hc).
    eapply (answers_replace _ _ _ _ _ _ []); [exact Hok|done|].
    apply not_waiting_success in Hc; [|unfold waiting; by rewrite Hp]. right. eexists. split; [exact Hc|by left].
  - destruct Hok as [Hk Hf]. by split.
Qed.

(** Every open request is answered exactly once: a connection the server has
    taken on is either still being decided and unanswered, or it got exactly one
    response; a connection that relays (or is about to) was told success, and no
    other was. *)
Theorem pn_open_answered_once w id :
  reachable w -> (id < sv_next w)%nat -> answered_ok (conns_of id (sv_conns w)) (responses id (sv_log w)).
Proof.
  intros Hr Hid. assert (answers_ok w) as [Hk _]; [|by apply Hk].
  eapply (rtc_preserves step answers_ok); [apply answers_step|exact Hr|]. split; simpl; [lia|done].
Qed.

(** *** Bridges and traffic sessions *)
Definition bridge_sessions (cs : list PnConn) : list PnTrafficSession :=
  cs ≫= fun c => match cn_phase c with Bridging x => [x] | _ => [] end.

Definition relays_for (u : P2pId) (c : PnConn) : Prop :=
  match cn_phase c with Bridging _ => req_from (cn_req c) = u \/ req_to (cn_req c) = u | _ => False end.
#[global] Instance relays_for_dec u c : Decision (relays_for u c).
Proof. unfold relays_for. destruct (cn_phase c); apply _. Defined.

Definition session_for (r : ProxyRequest) (x : PnTrafficSession) : Prop :=
  part_user (guard_source (lifecycle x)) = req_from r /\
  part_user <$> guard_target (lifecycle x) = if bool_decide (req_from r = req_to r) then None else Some (req_to r).

Definition is_down w : bool := is_shutdown (tr_state (tw_manager (sv_traffic w))).

Record bridges_ok w : Prop := {
  bo_traffic : traffic_reachable instant_max (sv_traffic w);
  bo_perm : tw_sessions (sv_traffic w) ≡ₚ bridge_sessions (sv_conns w);
  bo_guard : forall c x, c ∈ sv_conns w -> cn_phase c = Bridging x ->
    session_for (cn_req c) x /\ (is_down w = false -> guard_manager (lifecycle x) = true) }.

Lemma begin_session_for r (m m' : PnTrafficManager S L) x :
  begin_session (req_from r) (req_to r) m = (x, m') ->
  session_for r x /\ guard_manager (lifecycle x) = negb (is_shutdown (tr_state m)) /\
  is_shutdown (tr_state m') = is_shutdown (tr_state m).
Proof.
  unfold begin_session, session_for. intros Hb. destruct (is_shutdown (tr_state m)) eqn:Hsd.
  - case_bool_decide; injection Hb as <- <-; by split_and!.
  - destruct (acquire_user (req_from r) _ _) as [[[e1 c1] s1] h1] eqn:E1. apply acquire_frame in E1 as [Hs1 _].
    case_bool_decide.
    + injection Hb as <- <-. simpl. split_and!; try done. congruence.
    + destruct (acquire_user (req_to r) s1 h1) as [[[e2 c2] s2] h2] eqn:E2. apply acquire_frame in E2 as [Hs2 _].
      injection Hb as <- <-. simpl. split_and!; try done. congruence.
Qed.

Lemma release_shutdown now p s : is_shutdown (snd (release_user instant_max now p s)) = is_shutdown s.
Proof. unfold release_user. by repeat case_match; simplify_eq/=. Qed.

Lemma guard_drop_shutdown now g (m : PnTrafficManager S L) :
  is_shutdown (tr_state (guard_drop instant_max now g m)) = is_shutdown (tr_state m).
Proof.
  unfold guard_drop, end_session. case_match; [|done].
  pose proof (release_shutdown now (guard_source g) (tr_state m)) as H1.
  destruct (release_user _ _ (guard_source g) _) as [c1 s1]. simpl in H1.
  destruct (guard_target g) as [t|]; [|done]. pose proof (release_shutdown now t s1) as H2.
  destruct (release_user _ _ t s1) as [c2 s2]. simpl in *. congruence.
Qed.

Lemma tr_step_shutdown (tw tw' : traffic_world S L) :
  tr_step instant_max tw tw' -> tw_ok tw -> is_shutdown (tr_state (tw_manager tw')) = false ->
  is_shutdown (tr_state (tw_manager tw)) = false.
Proof.
  intros Hs [[[? _]|He] _] Hd; [done|].
  assert (is_shutdown (tr_state (tw_manager tw)) = true) as Hm by (by rewrite He).
  enough (is_shutdown (tr_state (tw_manager tw')) = true) by congruence. clear Hd. destruct Hs; simpl in *; try done.
  - by apply (begin_session_for (PrControl (mkProxyControlOpenReq 0 source target))) in H as (_ & _ & ->).
  - by rewrite guard_drop_shutdown.
  - unfold set_retention. by rewrite Hm.
  - unfold set_user_limit. by rewrite Hm.
  - unfold snapshot_of. case_match; [|done]. by repeat case_match.
  - unfold iter_next. case_match; [|done]. by repeat case_match.
  - unfold run_cleanup_turn, cleanup_action in H. rewrite Hm in H. by injection H as <- <-.
Qed.

Lemma bridge_sessions_app cs1 cs2 : bridge_sessions (cs1 ++ cs2) = bridge_sessions cs1 ++ bridge_sessions cs2.
Proof. apply bind_app. Qed.

Lemma bridge_sessions_cons c cs :
  bridge_sessions (c :: cs) = match cn_phase c with Bridging x => [x] | _ => [] end ++ bridge_sessions cs.
Proof. done. Qed.

Lemma bridges_step w w' : step w w' -> bridges_ok w -> bridges_ok w'.
Proof.
  destruct 1 as [from bytes r relay tw cs next log Hc|v c relay tw cs1 cs2 next log Hp Hv|v e c relay tw cs1 cs2 next log Hp Hv
    |o c relay tw cs1 cs2 next log Hp|c relay tw cs1 cs2 next log x m Hp Hb
    |now c x relay tw cs1 cs2 next log ss1 ss2 Hp Hs|relay tw tw' cs next log Hs Hss]; intros [Ht Hperm Hg]; split; simpl in *;
    unfold is_down in *; simpl in *; rewrite ?bridge_sessions_app, ?bridge_sessions_cons in *; rewrite ?Hp in Hperm; simpl in *; try done.
  - rewrite Hperm. destruct (skips_validation r relay); simpl; by rewrite app_nil_r.
  - intros c x [Hin| ->%list_elem_of_singleton]%elem_of_app Hx; [by apply Hg|]. simpl in Hx. by case_match.
  - intros c' x. rewrite elem_of_app, elem_of_cons. intros [Hin|[->|Hin]] Hx; [apply Hg; [set_solver|done]|done|apply Hg; [set_solver|done]].
  - intros c' x Hin Hx. apply Hg; [set_solver|done].
  - rewrite Hperm. f_equiv. by destruct (is_ok _).
  - intros c' x Hin Hx. rewrite !elem_of_app in Hin. destruct Hin as [Hin|[Hin|Hin]]; [apply Hg; [set_solver|done]| |apply Hg; [set_solver|done]].
    case_match; [|set_solver]. by apply list_elem_of_singleton in Hin as ->.
  - eapply rtc_r; [exact Ht|]. destruct tw as [m0 ss0 task0]. by apply (tr_begin instant_max _ _ _ (req_from (cn_req c)) (req_to (cn_req c))).
  - rewrite Hperm. by rewrite Permutation_middle.
  - destruct (begin_session_for _ _ _ _ Hb) as (Hx & Hgm & Hsd). rewrite Hsd.
    intros c' y. rewrite elem_of_app, elem_of_cons.
    intros [Hin|[->|Hin]] Hy; [apply Hg; [set_solver|done]| |apply Hg; [set_solver|done]].
    simpl in Hy. injection Hy as <-. split; [done|]. intros Hd. by rewrite Hgm, Hd.
  - destruct tw as [m0 ss0 task0]. simpl in *. subst ss0. eapply rtc_r; [exact Ht|]. apply (tr_end instant_max).
  - rewrite Hs in Hperm. rewrite <-!Permutation_middle in Hperm. by apply Permutation_cons_inv in Hperm.
  - rewrite guard_drop_shutdown. intros c' y Hin Hy. apply Hg; [set_solver|done].
  - by eapply rtc_r.
  - by rewrite Hss.
  - intros c x Hin Hx. destruct (Hg _ _ Hin Hx) as [? Hm]. split; [done|]. intros Hd. apply Hm.
    by eapply tr_step_shutdown; [|apply (traffic_reachable_ok instant_max)|].
Qed.

Lemma server_bridges_ok w : reachable w -> bridges_ok w.
Proof.
  intros Hr. eapply (rtc_preserves step bridges_ok); [apply bridges_step|exact Hr|].
  split; simpl; [apply rtc_refl|done|set_solver].
Qed.

Lemma session_participants u r x :
  session_for r x -> guard_manager (lifecycle x) = true ->
  length (sessions_of u (participants x)) = if decide (req_from r = u \/ req_to r = u) then 1%nat else 0%nat.
Proof.
  intros [Hs Ht] Hm. unfold participants. rewrite Hm, sessions_of_cons. rewrite Hs.
  destruct (guard_target (lifecycle x)) as [t|]; simpl in *.
  - case_bool_decide as Hne; simplify_eq. rewrite sessions_of_cons, Ht.
    destruct (decide (req_from r = u)), (decide (req_to r = u)), (decide (_ \/ _)); simpl; naive_solver.
  - case_bool_decide as He; [|done]. rewrite <-He.
    destruct (decide (req_from r = u)), (decide (_ \/ _)); simpl; naive_solver.
Qed.

Lemma bridge_count u cs :
  (forall c x, c ∈ cs -> cn_phase c = Bridging x -> session_for (cn_req c) x /\ guard_manager (lifecycle x) = true) ->
  length (sessions_of u (bridge_sessions cs ≫= participants)) = length (filter (relays_for u) cs).
Proof.
  induction cs as [|c cs IH]; intros Hg; [done|].
  assert (IH' := IH ltac:(intros; apply Hg; [set_solver|done])). rewrite filter_cons, bridge_sessions_cons.
  destruct (cn_phase c) as [| | |x] eqn:Hp.
  1-3: assert (~ relays_for u c) by (unfold relays_for; rewrite Hp; tauto); rewrite decide_False by done; exact IH'.
  destruct (Hg c x ltac:(set_solver) Hp) as [Hs Hm].
  change (([x] ++ bridge_sessions cs) ≫= participants) with (participants x ++ (bridge_sessions cs ≫= participants)).
  unfold sessions_of in *. rewrite filter_app, length_app, IH'.
  pose proof (session_participants u _ _ Hs Hm) as Hx. unfold sessions_of in Hx. rewrite Hx.
  assert (relays_for u c <-> req_from (cn_req c) = u \/ req_to (cn_req c) = u) as Hiff by (unfold relays_for; by rewrite Hp).
  repeat case_decide; simpl; tauto || done.
Qed.

(** Traffic accounting follows the bridges: while the server runs, the
    traffic manager's count of a user's sessions is the number of connections
    currently relaying from or to that user, and a user it does not know has
    none. *)
Theorem pn_active_sessions_are_bridges w u :
  reachable w -> is_down w = false ->
  length (filter (relays_for u) (sv_conns w)) =
  match users (tr_state (tw_manager (sv_traffic w))) !! u with Some us => us_active us | None => O end.
Proof.
  intros [Ht Hp Hg]%server_bridges_ok Hd. apply traffic_reachable_ok in Ht as [[[_ Hok]|He] _];
    [|unfold is_down in Hd; by rewrite He in Hd].
  assert (ledger_ok (tr_state (tw_manager (sv_traffic w))) (bridge_sessions (sv_conns w) ≫= participants)) as Hl.
  { rewrite <-Hp. exact Hok. }
  rewrite <-bridge_count by (intros c x Hin Hx; destruct (Hg _ _ Hin Hx); auto).
  specialize (Hl u). unfold user_ok in Hl. destruct (users _ !! u) as [us|]; [by destruct Hl as [-> _]|].
  destruct Hl as [-> _]. done.
Qed.
End server_facts.

(** ** A concrete run

    One data connection from alice to bob, validated, answered, bridged and
    ended; no control connection. *)
#[global] Instance ProxyOpenReq_eq_dec : EqDecision ProxyOpenReq.
Proof. solve_decision. Defined.
#[global] Instance ProxyControlOpenReq_eq_dec : EqDecision ProxyControlOpenReq.
Proof. solve_decision. Defined.

Module ServerDemo.
Definition alice : P2pId := mkP2pId [1].
Definition bob : P2pId := mkP2pId [2].
Definition mallory : P2pId := mkP2pId [9].
Definition horizon : Z := from_secs 1000000.

(** The frame claims to come from mallory. *)
Definition claimed : ProxyOpenReq := mkProxyOpenReq 7 mallory bob PnStream [].
Definition request : ProxyRequest := set_from alice (PrData claimed).
#[export] Instance demo_header : RawCodec TunnelCommandHeader := header_be.
#[export] Instance demo_data : RawCodec ProxyOpenReq := single_codec claimed 11.
#[export] Instance demo_control : RawCodec ProxyControlOpenReq := single_codec (mkProxyControlOpenReq 7 alice bob) 12.
Definition bytes : list Z := match write_request (PrData claimed) with Ok b => b | Err _ => [] end.

Definition success : target_outcome := mkOutcome (Some (Ok tt)) (Ok tt) (Some (Ok (7, 0))).
Definition ctx := validate_context [] request.

Notation sworld := (server_world PlainStat PlainLimiter).
Notation sreachable := (server_reachable (S:=PlainStat) (L:=PlainLimiter) horizon []).

Definition tw0 : traffic_world PlainStat PlainLimiter := mkTWorld traffic_manager_new [] Unstarted.
Definition b1 := begin_session alice bob (tw_manager tw0).
Definition tw1 := with_manager (snd b1) [fst b1] tw0.
Definition log1 : list server_event := [EvResponse 0 ResSuccess; EvForwarded 0 request; EvAccepted ctx].
Definition relay1 : gset PnRelaySessionKey := register_relay_session 7 alice bob ∅.

Definition bridged : sworld := mkServer relay1 tw1 [mkConn 0 request (Bridging (fst b1))] 1 log1.

Lemma bridged_reachable : sreachable bridged.
Proof.
  unfold server_reachable.
  eapply rtc_l; [by apply (sv_connection horizon [] alice bytes request)|]. simpl.
  eapply rtc_l; [by apply (sv_accepted horizon [] (Ok Accept) (mkConn 0 request Validating) _ _ [] [])|]. simpl.
  eapply rtc_l; [by apply (sv_target horizon [] success (mkConn 0 request Opening) _ _ [] [])|]. simpl.
  eapply rtc_l; [by apply (sv_bridge horizon [] (mkConn 0 request Answered) _ _ [] [] _ _ (fst b1) (snd b1))|].
  apply rtc_refl.
Qed.

Definition tw2 := with_manager (guard_drop horizon 5 (lifecycle (fst b1)) (tw_manager tw1)) [] tw1.

(** Every connection has ended, yet the relay session remains, and the next data
    connection of that tunnel goes straight to its target: no validator is
    asked, whatever it would say by then. *)
Lemma relay_session_outlives_connections :
  sreachable (mkServer relay1 tw2 [] 1 log1) /\ relay1 <> ∅ /\
  sreachable (mkServer relay1 tw2 [mkConn 1 request Opening] 2 log1).
Proof.
  assert (sreachable (mkServer relay1 tw2 [] 1 log1)) as H.
  { eapply rtc_r; [apply bridged_reachable|].
    by apply (sv_end horizon [] 5 (mkConn 0 request (Bridging (fst b1))) (fst b1) _ _ [] [] _ _ [] []). }
  split; [exact H|]. split; [unfold relay1, register_relay_session; set_solver|].
  eapply rtc_r; [exact H|]. by apply (sv_connection horizon [] alice bytes request).
Qed.
End ServerDemo.

Import ServerDemo.

Lemma proxy_request_authenticated_witness :
  write_request (PrData claimed) = Ok bytes /\
  handle_proxy_connection alice (bytes ++ [1; 2]) = Some request /\ req_from request = alice.
Proof.
  split; [vm_compute; reflexivity|].
  refine (@proxy_request_authenticated header_be header_be_laws _ (single_codec_laws _ _) _ (single_codec_laws _ _)
    (PrData claimed) alice bytes [1; 2] _ _).
  - vm_compute. reflexivity.
  - vm_compute. discriminate.
Defined.


Lemma pn_open_answered_once_witness :
  responses 0 (sv_log bridged) = [ResSuccess] /\ answered_ok (conns_of 0 (sv_conns bridged)) (responses 0 (sv_log bridged)).
Proof.
  split; [vm_compute; reflexivity|].
  apply (pn_open_answered_once horizon [] bridged 0 bridged_reachable). vm_compute. lia.
Defined.

Lemma pn_active_sessions_are_bridges_witness :
  length (filter (relays_for bob) (sv_conns bridged)) = 1%nat /\
  length (filter (relays_for bob) (sv_conns bridged)) =
  match users (tr_state (tw_manager (sv_traffic bridged))) !! bob with Some us => us_active us | None => O end.
Proof.
  split; [vm_compute; reflexivity|].
  apply (pn_active_sessions_are_bridges horizon [] bridged bob bridged_reachable). vm_compute. reflexivity.
Defined.
