(* ===== verification/PnTunnel.v ===== *)
(** * Proxy tunnels (pn/client/pn_tunnel.rs)

    A proxy tunnel is a control connection through a proxy node plus any number of
    data channels.  [PnTunnelLifecycleState] counts channels by stage (queued,
    pending, active) and remembers since when there are none, so that an idle
    tunnel is closed; the heartbeat detects a dead control connection.
    [life_step] interleaves the operations with the idle timers; [hb_event] is
    what the heartbeat loop and the receive loop do to the ping bookkeeping. *)

From S2P Require Import Prelude.
From S2P Require Import Errors.
From S2P Require Import Ids.
From S2P Require Import ControlStream.
From S2P Require Import PnTraffic.
From S2P Require Import PnServer.

Definition DEFAULT_PN_TUNNEL_IDLE_TIMEOUT : Duration := from_secs (30 * 60).
Definition PN_CONTROL_HEARTBEAT_INTERVAL : Duration := from_secs 30.
Definition PN_CONTROL_HEARTBEAT_TIMEOUT : Duration := from_secs 90.

Inductive PnProxyStreamSecurityMode := SecDisabled | SecTlsRequired.
Definition security_to_atomic (m : PnProxyStreamSecurityMode) : Z :=
  match m with SecDisabled => 0 | SecTlsRequired => 1 end.
Definition security_from_atomic (v : Z) : PnProxyStreamSecurityMode :=
  if v =? 1 then SecTlsRequired else SecDisabled.

(** [#[repr(u8)]]: the discriminants are sent in [PnControlClose]. *)
Inductive PnTunnelCloseReason := CloseManual | CloseIdleTimeout | CloseRemoteControl | CloseControlError | CloseHeartbeatTimeout.
Definition close_reason_u8 (r : PnTunnelCloseReason) : Z :=
  match r with
  | CloseManual => 0 | CloseIdleTimeout => 1 | CloseRemoteControl => 2 | CloseControlError => 3
  | CloseHeartbeatTimeout => 4
  end.

Inductive PnTunnelLifecycleStatus := LsOpeningControl | LsOpen | LsRetired | LsClosing | LsClosed.
#[global] Instance lifecycle_status_eq_dec : EqDecision PnTunnelLifecycleStatus.
Proof. solve_decision. Defined.

Record PnTunnelLifecycleState := mkLife {
  lf_status : PnTunnelLifecycleStatus;
  active_channels : nat; pending_channels : nat; queued_channels : nat;
  zero_since : option Z; generation : Z; close_reason : option PnTunnelCloseReason }.

Definition life_new (now : Z) (queued : nat) (status : PnTunnelLifecycleStatus) : PnTunnelLifecycleState :=
  mkLife status 0 0 queued
    (if bool_decide (status = LsOpen) && (queued =? 0)%nat then Some now else None) 0 None.

Definition is_open (s : PnTunnelLifecycleState) : bool :=
  bool_decide (lf_status s = LsOpen) && bool_decide (close_reason s = None).
Definition total_channels (s : PnTunnelLifecycleState) : nat :=
  (active_channels s + pending_channels s + queued_channels s)%nat.

Definition set_status (st : PnTunnelLifecycleStatus) (s : PnTunnelLifecycleState) : PnTunnelLifecycleState :=
  mkLife st (active_channels s) (pending_channels s) (queued_channels s) (zero_since s) (generation s) (close_reason s).
Definition set_counts (a p q : nat) (s : PnTunnelLifecycleState) : PnTunnelLifecycleState :=
  mkLife (lf_status s) a p q (zero_since s) (generation s) (close_reason s).
Definition set_idle (z : option Z) (s : PnTunnelLifecycleState) : PnTunnelLifecycleState :=
  mkLife (lf_status s) (active_channels s) (pending_channels s) (queued_channels s) z
    (wrapping_add_u64 (generation s) 1) (close_reason s).

(** A refresh that starts an idle period returns its start and generation. *)
Definition refresh_idle_state (now : Z) (s : PnTunnelLifecycleState) : option (Z * Z) * PnTunnelLifecycleState :=
  if negb (is_open s) then (None, s)
  else if (total_channels s =? 0)%nat then
    match zero_since s with
    | None => let s := set_idle (Some now) s in (Some (now, generation s), s)
    | Some _ => (None, s)
    end
  else match zero_since s with
       | Some _ => (None, set_idle None s)
       | None => (None, s)
       end.

Definition life_mark_control_ready (now : Z) (s : PnTunnelLifecycleState) : option (Z * Z) * PnTunnelLifecycleState :=
  if bool_decide (lf_status s = LsOpeningControl) then refresh_idle_state now (set_status LsOpen s) else (None, s).

(** ** The tunnel: lifecycle, the closed flag and the idle timers it spawned *)
Record PnTunnelCore := mkCore {
  pc_life : PnTunnelLifecycleState; pc_closed : bool; pc_idle_timeout : option Duration;
  (** pending calls of [close_if_idle]: when they run and for which generation *)
  pc_timers : list (Z * Z) }.

Section core.
Context (instant_max : Z).
Implicit Types t : PnTunnelCore.

Definition with_life (s : PnTunnelLifecycleState) t : PnTunnelCore := mkCore s (pc_closed t) (pc_idle_timeout t) (pc_timers t).

(** The time at which the spawned check runs: the deadline, or at once when it
    has passed or cannot be represented. *)
Definition schedule_idle_check (now since : Z) (timeout : Duration) (g : Z) t : PnTunnelCore :=
  let at_ := if since + timeout <=? instant_max then Z.max now (since + timeout) else now in
  mkCore (pc_life t) (pc_closed t) (pc_idle_timeout t) ((at_, g) :: pc_timers t).

Definition schedule_from_refresh (now : Z) (r : option (Z * Z)) t : PnTunnelCore :=
  match r, pc_idle_timeout t with
  | Some (since, g), Some timeout => schedule_idle_check now since timeout g t
  | _, _ => t
  end.

Definition schedule_idle_check_if_needed (now : Z) t : PnTunnelCore :=
  match zero_since (pc_life t), pc_idle_timeout t with
  | Some since, Some timeout =>
    if is_open (pc_life t) then schedule_idle_check now since timeout (generation (pc_life t)) t else t
  | _, _ => t
  end.

(** The tail of every operation: store the state and schedule. *)
Definition refreshed (now : Z) (s : PnTunnelLifecycleState) t : PnTunnelCore :=
  let '(r, s) := refresh_idle_state now s in schedule_from_refresh now r (with_life s t).

Definition core_new (now : Z) (queued : nat) (status : PnTunnelLifecycleStatus) (timeout : option Duration) : PnTunnelCore :=
  schedule_idle_check_if_needed now (mkCore (life_new now queued status) false timeout []).

Definition mark_control_ready (now : Z) t : PnTunnelCore :=
  let '(r, s) := life_mark_control_ready now (pc_life t) in schedule_from_refresh now r (with_life s t).

Definition begin_pending_channel (now : Z) t : P2pResult unit * PnTunnelCore :=
  let s := pc_life t in
  if negb (is_open s) then (Err P2pErrorCode.ErrorState, t)
  else (Ok tt, with_life (snd (refresh_idle_state now
         (set_counts (active_channels s) (pending_channels s + 1) (queued_channels s) s))) t).

Definition pending_to_active_channel (now : Z) t : P2pResult unit * PnTunnelCore :=
  let s := pc_life t in
  if is_open s then
    (Ok tt, refreshed now (set_counts (active_channels s + 1) (pending_channels s - 1) (queued_channels s) s) t)
  else (Err P2pErrorCode.Interrupted,
        refreshed now (set_counts (active_channels s) (pending_channels s - 1) (queued_channels s) s) t).

Definition release_pending_channel (now : Z) t : PnTunnelCore :=
  let s := pc_life t in
  refreshed now (set_counts (active_channels s) (pending_channels s - 1) (queued_channels s) s) t.

Definition queued_to_pending_channel (now : Z) t : P2pResult unit * PnTunnelCore :=
  let s := pc_life t in
  if negb (is_open s) then (Err P2pErrorCode.Interrupted, t)
  else (Ok tt, refreshed now (set_counts (active_channels s) (pending_channels s + 1) (queued_channels s - 1) s) t).

Definition release_active_channel (now : Z) t : PnTunnelCore :=
  let s := pc_life t in
  refreshed now (set_counts (active_channels s - 1) (pending_channels s) (queued_channels s) s) t.

Definition push_passive_channel (now : Z) t : P2pResult unit * PnTunnelCore :=
  let s := pc_life t in
  if negb (is_open s) then (Err P2pErrorCode.ErrorState, t)
  else (Ok tt, with_life (snd (refresh_idle_state now
         (set_counts (active_channels s) (pending_channels s) (queued_channels s + 1) s))) t).

Definition close_lifecycle_locked (reason : PnTunnelCloseReason) t : bool * PnTunnelCore :=
  let s := pc_life t in
  match lf_status s with
  | LsClosing | LsClosed => (false, t)
  | _ => (true, mkCore (mkLife LsClosing (active_channels s) (pending_channels s) 0 None
                          (wrapping_add_u64 (generation s) 1) (Some reason)) true (pc_idle_timeout t) (pc_timers t))
  end.

(** [finish_close_local] and the end of [finish_close]. *)
Definition finish_close_status t : PnTunnelCore :=
  match lf_status (pc_life t) with LsClosing => with_life (set_status LsClosed (pc_life t)) t | _ => t end.

(** [close_with_reason] up to the control connection, and [close]. *)
Definition close_with_reason (reason : PnTunnelCloseReason) t : bool * PnTunnelCore :=
  let '(b, t) := close_lifecycle_locked reason t in (b, if b then finish_close_status t else t).

(** [close_if_idle]; [None] is the panic of [zero_since + timeout]. *)
Definition close_if_idle (now g : Z) t : option (bool * PnTunnelCore) :=
  match pc_idle_timeout t, zero_since (pc_life t) with
  | Some timeout, Some since =>
    if is_open (pc_life t) && (generation (pc_life t) =? g) && (total_channels (pc_life t) =? 0)%nat then
      if since + timeout <=? instant_max then
        Some (if since + timeout <=? now then close_with_reason CloseIdleTimeout t else (false, t))
      else None
    else Some (false, t)
  | _, _ => Some (false, t)
  end.

Definition pn_try_retire_idle (now : Z) (idle_timeout : Duration) t : bool * PnTunnelCore :=
  let s := pc_life t in
  let idle := bool_decide (lf_status s = LsOpen) && bool_decide (close_reason s = None) && (total_channels s =? 0)%nat &&
              match zero_since s with
              | Some since => (since <=? now) && (idle_timeout <? now - since)
              | None => false
              end in
  if idle then (true, with_life (set_status LsRetired (set_idle None s)) t) else (false, t).

Definition ensure_listener_registration_allowed t : P2pResult unit :=
  match lf_status (pc_life t) with
  | LsRetired | LsClosing | LsClosed => Err P2pErrorCode.Interrupted
  | _ => Ok tt
  end.
End core.

(** ** Channels and timers, interleaved

    [tokens] counts the channels in flight by stage: dispatch tasks of queued
    channels, [PnPendingChannel] guards and [PnChannelLease]s. *)
Record tokens := mkTokens { tk_queued : nat; tk_pending : nat; tk_active : nat }.

Section life_world.
Context (instant_max : Z).

Record life_world := mkLW { lw_now : Z; lw_core : PnTunnelCore; lw_tokens : tokens }.

Inductive life_step : life_world -> life_world -> Prop :=
| ls_tick now now' t k : now <= now' -> life_step (mkLW now t k) (mkLW now' t k)
| ls_ready now t k : life_step (mkLW now t k) (mkLW now (mark_control_ready instant_max now t) k)
| ls_begin now t t' q p a :
    begin_pending_channel now t = (Ok tt, t') ->
    life_step (mkLW now t (mkTokens q p a)) (mkLW now t' (mkTokens q (S p) a))
| ls_push now t t' q p a :
    push_passive_channel now t = (Ok tt, t') ->
    life_step (mkLW now t (mkTokens q p a)) (mkLW now t' (mkTokens (S q) p a))
| ls_dequeue now t t' q p a :
    queued_to_pending_channel instant_max now t = (Ok tt, t') ->
    life_step (mkLW now t (mkTokens (S q) p a)) (mkLW now t' (mkTokens q (S p) a))
| ls_dequeue_err now t t' e q p a :
    queued_to_pending_channel instant_max now t = (Err e, t') ->
    life_step (mkLW now t (mkTokens (S q) p a)) (mkLW now t' (mkTokens q p a))
| ls_abandon now t q p a :
    (** [accept_passive_channel] found the tunnel closed *)
    pc_closed t = true -> life_step (mkLW now t (mkTokens (S q) p a)) (mkLW now t (mkTokens q p a))
| ls_activate now t t' q p a :
    pending_to_active_channel instant_max now t = (Ok tt, t') ->
    life_step (mkLW now t (mkTokens q (S p) a)) (mkLW now t' (mkTokens q p (S a)))
| ls_activate_err now t t' e q p a :
    pending_to_active_channel instant_max now t = (Err e, t') ->
    life_step (mkLW now t (mkTokens q (S p) a)) (mkLW now t' (mkTokens q p a))
| ls_drop_pending now t q p a :
    life_step (mkLW now t (mkTokens q (S p) a)) (mkLW now (release_pending_channel instant_max now t) (mkTokens q p a))
| ls_drop_active now t q p a :
    life_step (mkLW now t (mkTokens q p (S a))) (mkLW now (release_active_channel instant_max now t) (mkTokens q p a))
| ls_close now reason t k : life_step (mkLW now t k) (mkLW now (snd (close_with_reason reason t)) k)
| ls_timer now at_ g t b t' ts1 ts2 k :
    at_ <= now -> pc_timers t = ts1 ++ (at_, g) :: ts2 ->
    close_if_idle instant_max now g (mkCore (pc_life t) (pc_closed t) (pc_idle_timeout t) (ts1 ++ ts2)) = Some (b, t') ->
    life_step (mkLW now t k) (mkLW now t' k)
| ls_retire now d t k : life_step (mkLW now t k) (mkLW now (snd (pn_try_retire_idle now d t)) k).

Definition life_reachable (timeout : option Duration) (w : life_world) : Prop :=
  exists now0 queued status,
    (status = LsOpeningControl /\ queued = O \/ status = LsOpen /\ queued = 1%nat) /\
    rtc life_step (mkLW now0 (core_new instant_max now0 queued status timeout) (mkTokens queued 0 0)) w.

(** What holds of a tunnel with the channels [k] in flight. *)
Record life_ok (now : Z) (t : PnTunnelCore) (k : tokens) : Prop := {
  lk_active : active_channels (pc_life t) = tk_active k;
  lk_pending : pending_channels (pc_life t) = tk_pending k;
  lk_queued : pc_closed t = false -> queued_channels (pc_life t) = tk_queued k;
  lk_closed : pc_closed t = true <-> lf_status (pc_life t) = LsClosing \/ lf_status (pc_life t) = LsClosed;
  lk_reason : close_reason (pc_life t) = None <-> pc_closed t = false;
  lk_quiet : pc_closed t = false -> is_open (pc_life t) = false -> total_channels (pc_life t) = O;
  lk_zero : zero_since (pc_life t) <> None <-> is_open (pc_life t) = true /\ total_channels (pc_life t) = O;
  lk_since : forall z, zero_since (pc_life t) = Some z -> z <= now;
  lk_timer : forall z d, zero_since (pc_life t) = Some z -> pc_idle_timeout t = Some d -> z + d <= instant_max ->
    (Z.max z (z + d), generation (pc_life t)) ∈ pc_timers t }.

(** A refresh establishes all of it from everything but the start of an idle
    period. *)
Record life_pre (now : Z) (s : PnTunnelLifecycleState) (t : PnTunnelCore) (k : tokens) : Prop := {
  lp_active : active_channels s = tk_active k;
  lp_pending : pending_channels s = tk_pending k;
  lp_queued : pc_closed t = false -> queued_channels s = tk_queued k;
  lp_closed : pc_closed t = true <-> lf_status s = LsClosing \/ lf_status s = LsClosed;
  lp_reason : close_reason s = None <-> pc_closed t = false;
  lp_quiet : pc_closed t = false -> is_open s = false -> total_channels s = O;
  lp_zero : zero_since s <> None -> is_open s = true;
  lp_since : forall z, zero_since s = Some z -> z <= now;
  lp_timer : forall z d, zero_since s = Some z -> pc_idle_timeout t = Some d -> z + d <= instant_max ->
    (Z.max z (z + d), generation s) ∈ pc_timers t }.

Lemma refreshed_pre now s t k : life_pre now s t k -> life_ok now (refreshed instant_max now s t) k.
Proof.
  intros [Ha Hp Hq Hc Hr Hn Hz Hs Ht]. unfold refreshed, refresh_idle_state.
  destruct (is_open s) eqn:Ho.
  - destruct (Nat.eqb_spec (total_channels s) 0) as [E|E]; simpl.
    + destruct (zero_since s) as [z|] eqn:Ez.
      * split; simpl; rewrite ?Ez; auto; try done.
      * unfold schedule_from_refresh. simpl. destruct (pc_idle_timeout t) as [d|] eqn:Ed; simpl; split; simpl; auto.
        -- by split.
        -- intros z [= <-]. lia.
        -- intros z d' [= <-] Hd Hle. simplify_eq. rewrite (proj2 (Z.leb_le _ _)) by lia. apply list_elem_of_here.
        -- by split.
        -- intros z [= <-]. lia.
        -- intros z d' [= <-] Hd. by rewrite Ed in Hd.
    + destruct (zero_since s) as [z|] eqn:Ez; simpl; split; simpl; rewrite ?Ez; auto; try done.
      all: first [split; [done|]; by intros [_ ?] | intros _ Hx; change (is_open s = false) in Hx; congruence].
  - assert (zero_since s = None) as Ez by (destruct (zero_since s); [by specialize (Hz ltac:(done))|done]).
    simpl. split; simpl; rewrite ?Ez; auto; try done. split; [done|]. intros [Ho' _]. congruence.
Qed.

(** Changing the counts and refreshing keeps all of it. *)
Lemma refreshed_ok now t k a p q k' :
  life_ok now t k -> a = tk_active k' -> p = tk_pending k' -> (pc_closed t = false -> q = tk_queued k') ->
  (is_open (pc_life t) = true \/ pc_closed t = true) ->
  life_ok now (refreshed instant_max now (set_counts a p q (pc_life t)) t) k'.
Proof.
  intros [Ha Hp Hq Hc Hr Hn Hz Hs Ht] Ha' Hp' Hq' Hor. apply refreshed_pre. split; simpl; auto.
  - intros Hcl Ho. change (is_open (pc_life t) = false) in Ho. destruct Hor; congruence.
  - intros Hne. by apply Hz.
Qed.

Lemma with_life_refreshed now s (t : PnTunnelCore) :
  total_channels s <> O -> with_life (snd (refresh_idle_state now s)) t = refreshed instant_max now s t.
Proof.
  intros Ht. unfold refreshed, refresh_idle_state. case_match; [done|].
  rewrite (proj2 (Nat.eqb_neq _ _)) by done. by destruct (zero_since s).
Qed.

Lemma life_ok_open now t k : life_ok now t k -> is_open (pc_life t) = true -> pc_closed t = false.
Proof.
  intros H Ho. destruct (pc_closed t) eqn:E; [|done]. destruct (proj1 (lk_closed _ _ _ H) E) as [Hs|Hs];
    unfold is_open in Ho; rewrite Hs in Ho; done.
Qed.

Lemma close_with_reason_ok now reason t k : life_ok now t k -> life_ok now (snd (close_with_reason reason t)) k.
Proof.
  intros [Ha Hp Hq Hc Hr Hn Hz Hs Ht]. unfold close_with_reason, close_lifecycle_locked.
  destruct (lf_status (pc_life t)) eqn:E; simpl; [| | |by split; rewrite ?E..]; split; simpl; auto; try done;
    naive_solver.
Qed.

Lemma life_ok_tick now now' t k : now <= now' -> life_ok now t k -> life_ok now' t k.
Proof. intros Hle [Ha Hp Hq Hc Hr Hn Hz Hs Ht]. split; auto. intros z Hz'. specialize (Hs z Hz'). lia. Qed.

Lemma mark_control_ready_ok now t k : life_ok now t k -> life_ok now (mark_control_ready instant_max now t) k.
Proof.
  intros Hok. unfold mark_control_ready, life_mark_control_ready. case_bool_decide as E; [|by destruct t].
  assert (zero_since (pc_life t) = None) as Ez.
  { destruct (zero_since (pc_life t)) eqn:Ez; [|done]. destruct (proj1 (lk_zero _ _ _ Hok) ltac:(congruence)) as [Ho _].
    unfold is_open in Ho. by rewrite E in Ho. }
  assert (pc_closed t = false) as Hnc.
  { destruct (pc_closed t) eqn:Hc; [|done]. destruct (proj1 (lk_closed _ _ _ Hok) Hc); congruence. }
  change (life_ok now (refreshed instant_max now (set_status LsOpen (pc_life t)) t) k).
  destruct Hok as [Ha Hp Hq Hc Hr Hn Hz Hs Ht]. apply refreshed_pre. split; simpl; auto; try by rewrite Ez.
  - rewrite Hnc. split; [done|]. by intros [?|?].
  - intros _ _. apply Hn; [done|]. unfold is_open. by rewrite E.
Qed.

Lemma retire_ok now d t k : life_ok now t k -> life_ok now (snd (pn_try_retire_idle now d t)) k.
Proof.
  intros Hok. unfold pn_try_retire_idle. case_match eqn:E; [|done]. bool_to_prop.
  destruct Hok as [Ha Hp Hq Hc Hr Hn Hz Hs Ht]. simpl. split; simpl; auto; try done.
  - rewrite Hc. split; [|by intros [?|?]]. intros [?|?]; congruence.
  - intros _ _. by apply Nat.eqb_eq.
  - split; [done|]. intros [Ho _]. by unfold is_open in Ho.
Qed.

Lemma close_if_idle_cases now g t b t' :
  close_if_idle instant_max now g t = Some (b, t') ->
  (b, t') = (false, t) \/ (b, t') = close_with_reason CloseIdleTimeout t.
Proof. unfold close_if_idle. intros H. repeat case_match; simplify_eq; auto. Qed.

Lemma timer_ok now at_ g t b t' ts1 ts2 k :
  life_ok now t k -> at_ <= now -> pc_timers t = ts1 ++ (at_, g) :: ts2 ->
  close_if_idle instant_max now g (mkCore (pc_life t) (pc_closed t) (pc_idle_timeout t) (ts1 ++ ts2)) = Some (b, t') ->
  life_ok now t' k.
Proof.
  intros Hok Hat Hts Hc. set (t1 := mkCore (pc_life t) (pc_closed t) (pc_idle_timeout t) (ts1 ++ ts2)) in *.
  assert (forall z d, zero_since (pc_life t) = Some z -> pc_idle_timeout t = Some d -> z + d <= instant_max ->
    generation (pc_life t) <> g \/ now < z + d -> (Z.max z (z + d), generation (pc_life t)) ∈ ts1 ++ ts2) as Hkeep.
  { intros z d Hz Hd Hle Hor. pose proof (lk_timer _ _ _ Hok z d Hz Hd Hle) as Hin. rewrite Hts in Hin.
    rewrite elem_of_app, elem_of_cons in Hin. destruct Hin as [?|[[= <- <-]|?]]; [set_solver| |set_solver].
    destruct Hor; [done|lia]. }
  assert (life_ok now t1 k \/ exists z d, zero_since (pc_life t) = Some z /\ pc_idle_timeout t = Some d /\
    generation (pc_life t) = g /\ z + d <= now) as [Hok1|(z & d & Hz & Hd & Hg & Hle)].
  { destruct (match zero_since (pc_life t), pc_idle_timeout t with
              | Some z, Some d => (generation (pc_life t) =? g) && (z + d <=? now) | _, _ => false end) eqn:E.
    - right. destruct (zero_since (pc_life t)) as [z|]; [|done]. destruct (pc_idle_timeout t) as [d|]; [|done].
      bool_to_prop. by exists z, d.
    - left. destruct Hok as [Ha Hp Hq Hcl Hr Hq' Hz Hs Ht]. split; simpl; auto. intros z d Hz' Hd Hle. apply Hkeep; auto.
      rewrite Hz', Hd in E. apply andb_false_iff in E as [?|?]; bool_to_prop; auto. }
  - destruct (close_if_idle_cases _ _ _ _ _ Hc) as [Heq|Heq]; [by injection Heq as -> ->|].
    change t' with (snd (b, t')). rewrite Heq. by apply close_with_reason_ok.
  - unfold close_if_idle in Hc. subst t1. simpl in Hc. rewrite Hd, Hz, Hg, Z.eqb_refl in Hc.
    destruct (proj1 (lk_zero _ _ _ Hok) ltac:(congruence)) as [Ho Ht]. rewrite Ho, Ht in Hc. simpl in Hc.
    case_match; [|done]. rewrite (proj2 (Z.leb_le _ _)) in Hc by lia. injection Hc as Hc.
    change t' with (snd (b, t')). rewrite <-Hc. clear Hkeep Hts.
    destruct Hok as [Ha Hp Hq Hcl Hr Hn Hz0 Hs Htm]. unfold close_with_reason, close_lifecycle_locked. simpl.
    unfold is_open in Ho. apply andb_true_iff in Ho as [Ho _]. apply bool_decide_eq_true_1 in Ho. rewrite Ho. simpl.
    split; simpl; auto; try done; naive_solver.
Qed.

(** A channel in any stage needs an open or a closed tunnel. *)
Lemma life_ok_busy now t k :
  life_ok now t k -> is_open (pc_life t) = false -> (tk_active k + tk_pending k + tk_queued k <> 0)%nat -> pc_closed t = true.
Proof.
  intros Hok Ho Hk. destruct (pc_closed t) eqn:Hc; [done|]. exfalso. apply Hk.
  pose proof (lk_quiet _ _ _ Hok Hc Ho) as Hz. unfold total_channels in Hz.
  rewrite (lk_active _ _ _ Hok), (lk_pending _ _ _ Hok), (lk_queued _ _ _ Hok Hc) in Hz. lia.
Qed.

Lemma life_ok_busy' now t k :
  life_ok now t k -> (tk_active k + tk_pending k + tk_queued k <> 0)%nat -> is_open (pc_life t) = true \/ pc_closed t = true.
Proof. intros Hok Hk. destruct (is_open (pc_life t)) eqn:Ho; [by left|right; by eapply life_ok_busy]. Qed.

Lemma life_ok_unqueue_closed now t q p a :
  life_ok now t (mkTokens (S q) p a) -> pc_closed t = true -> life_ok now t (mkTokens q p a).
Proof. intros [Ha Hp Hq Hc Hr Hn Hz Hs Ht] Hcl. split; auto. congruence. Qed.

Lemma life_ok_unqueue now t q p a :
  life_ok now t (mkTokens (S q) p a) -> is_open (pc_life t) = false -> life_ok now t (mkTokens q p a).
Proof. intros Hok Ho. apply life_ok_unqueue_closed; [done|]. eapply life_ok_busy; [exact Hok|done|simpl; lia]. Qed.

Lemma life_step_ok w w' :
  life_step w w' -> life_ok (lw_now w) (lw_core w) (lw_tokens w) -> life_ok (lw_now w') (lw_core w') (lw_tokens w').
Proof.
  destruct 1 as [now now' t k Hle|now t k|now t t' q p a H|now t t' q p a H|now t t' q p a H|now t t' e q p a H|now t q p a H
    |now t t' q p a H|now t t' e q p a H|now t q p a|now t q p a|now reason t k|now at_ g t b t' ts1 ts2 k Hat Hts Hc|now d t k];
    simpl; intros Hok.
  - by eapply life_ok_tick.
  - by apply mark_control_ready_ok.
  - unfold begin_pending_channel in H. case_match eqn:Ho; [done|]. injection H as <-. bool_to_prop.
    rewrite with_life_refreshed by (unfold total_channels; simpl; lia).
    eapply refreshed_ok; [exact Hok|..]; simpl; [..|by left]; destruct Hok as [Ha Hp Hq]; simpl in *; auto; lia.
  - unfold push_passive_channel in H. case_match eqn:Ho; [done|]. injection H as <-. bool_to_prop.
    rewrite with_life_refreshed by (unfold total_channels; simpl; lia).
    eapply refreshed_ok; [exact Hok|..]; simpl; [..|by left]; destruct Hok as [Ha Hp Hq]; simpl in *; auto.
    intros Hn. specialize (Hq Hn). lia.
  - unfold queued_to_pending_channel in H. case_match eqn:Ho; [done|]. injection H as <-. bool_to_prop.
    eapply refreshed_ok; [exact Hok|..]; simpl; [..|by left]; destruct Hok as [Ha Hp Hq]; simpl in *; auto; [lia|].
    intros Hn. specialize (Hq Hn). lia.
  - unfold queued_to_pending_channel in H. case_match eqn:Ho; [|done]. injection H as <- <-. bool_to_prop.
    by apply life_ok_unqueue.
  - by apply life_ok_unqueue_closed.
  - unfold pending_to_active_channel in H. case_match eqn:Ho; [|done]. injection H as <-.
    eapply refreshed_ok; [exact Hok|..]; simpl; [..|by left]; destruct Hok as [Ha Hp Hq]; simpl in *; auto; lia.
  - unfold pending_to_active_channel in H. case_match eqn:Ho; [done|]. injection H as <- <-.
    eapply refreshed_ok; [exact Hok|..]; simpl; [..|right; by eapply life_ok_busy; [exact Hok| |simpl; lia]];
      destruct Hok as [Ha Hp Hq]; simpl in *; auto; lia.
  - eapply refreshed_ok; [exact Hok|..]; simpl; [..|by eapply life_ok_busy'; [exact Hok|simpl; lia]];
      destruct Hok as [Ha Hp Hq]; simpl in *; auto; lia.
  - eapply refreshed_ok; [exact Hok|..]; simpl; [..|by eapply life_ok_busy'; [exact Hok|simpl; lia]];
      destruct Hok as [Ha Hp Hq]; simpl in *; auto; lia.
  - by apply close_with_reason_ok.
  - by eapply timer_ok.
  - by apply retire_ok.
Qed.

Lemma life_reachable_ok timeout w :
  life_reachable timeout w -> life_ok (lw_now w) (lw_core w) (lw_tokens w).
Proof.
  intros (now0 & q & st & Hst & Hr).
  eapply (rtc_preserves life_step (fun w => life_ok (lw_now w) (lw_core w) (lw_tokens w)));
    [apply life_step_ok|exact Hr|]. simpl.
  destruct Hst as [[-> ->]|[-> ->]]; split; simpl; try done; naive_solver.
Qed.
(** No channel exists when an idle period is recorded. *)
Lemma life_ok_idle now t k : life_ok now t k -> zero_since (pc_life t) <> None -> k = mkTokens 0 0 0.
Proof.
  intros Hok Hz. destruct (proj1 (lk_zero _ _ _ Hok) Hz) as [Ho Ht].
  pose proof (life_ok_open _ _ _ Hok Ho) as Hc. unfold total_channels in Ht.
  rewrite (lk_active _ _ _ Hok), (lk_pending _ _ _ Hok), (lk_queued _ _ _ Hok Hc) in Ht. destruct k. simpl in Ht. f_equal; lia.
Qed.

(** An idle period that a step leaves recorded was recorded before, or starts
    with the step. *)
Lemma refreshed_zero now s (t : PnTunnelCore) z :
  zero_since (pc_life (refreshed instant_max now s t)) = Some z -> zero_since s = Some z \/ z = now.
Proof.
  unfold refreshed, refresh_idle_state, schedule_from_refresh, schedule_idle_check. intros H.
  repeat (case_match; simplify_eq/=; auto).
Qed.

Lemma with_life_zero now s (t : PnTunnelCore) z :
  zero_since (pc_life (with_life (snd (refresh_idle_state now s)) t)) = Some z -> zero_since s = Some z \/ z = now.
Proof. unfold refresh_idle_state. intros H. repeat (case_match; simplify_eq/=; auto). Qed.

Lemma close_with_reason_zero reason (t : PnTunnelCore) z :
  zero_since (pc_life (snd (close_with_reason reason t))) = Some z -> zero_since (pc_life t) = Some z.
Proof.
  unfold close_with_reason, close_lifecycle_locked, finish_close_status. intros H.
  by repeat (case_match; simplify_eq/=).
Qed.

Lemma life_step_zero w w' z :
  life_step w w' -> zero_since (pc_life (lw_core w')) = Some z ->
  lw_now w <= lw_now w' /\ (zero_since (pc_life (lw_core w)) = Some z \/ z = lw_now w).
Proof.
  destruct 1 as [now now' t k Hle|now t k|now t t' q p a H|now t t' q p a H|now t t' q p a H|now t t' e q p a H|now t q p a H
    |now t t' q p a H|now t t' e q p a H|now t q p a|now t q p a|now reason t k|now at_ g t b t' ts1 ts2 k Hat Hts Hc|now d t k];
    simpl; intros Hz; (split; [lia|]); auto.
  - unfold mark_control_ready, life_mark_control_ready in Hz. case_bool_decide; [|by left].
    by apply (refreshed_zero now (set_status LsOpen (pc_life t)) t z).
  - unfold begin_pending_channel in H. case_match; simplify_eq. by apply with_life_zero in Hz.
  - unfold push_passive_channel in H. case_match; simplify_eq. by apply with_life_zero in Hz.
  - unfold queued_to_pending_channel in H. case_match; simplify_eq. by apply refreshed_zero in Hz.
  - unfold queued_to_pending_channel in H. case_match; simplify_eq. by left.
  - unfold pending_to_active_channel in H. case_match; simplify_eq. by apply refreshed_zero in Hz.
  - unfold pending_to_active_channel in H. case_match; simplify_eq. by apply refreshed_zero in Hz.
  - by apply refreshed_zero in Hz.
  - by apply refreshed_zero in Hz.
  - left. by eapply close_with_reason_zero.
  - left. apply close_if_idle_cases in Hc as [[= -> ->]|Hc]; [done|].
    change t' with (snd (b, t')) in Hz. rewrite Hc in Hz. by apply close_with_reason_zero in Hz.
  - unfold pn_try_retire_idle in Hz. case_match; [done|by left].
Qed.

(** A channel that existed at any moment of the run existed before the recorded
    idle period began. *)
Lemma busy_before_idle timeout v w z :
  life_reachable timeout v -> rtc life_step v w -> lw_tokens v <> mkTokens 0 0 0 ->
  zero_since (pc_life (lw_core w)) = Some z -> lw_now v <= z.
Proof.
  intros Hv Hrun Hbusy. assert (Hnow : forall w', rtc life_step v w' -> lw_now v <= lw_now w').
  { intros w'. clear. induction 1 as [|x y w' Hs _ IH]; [lia|].
    assert (lw_now x <= lw_now y) by (destruct Hs; simpl; lia). lia. }
  revert w Hrun z. apply (rtc_ind_r (fun w => forall z, zero_since (pc_life (lw_core w)) = Some z -> lw_now v <= z)).
  - intros z Hz. destruct Hbusy. eapply life_ok_idle; [by eapply life_reachable_ok|congruence].
  - intros w w' Hrun Hs IH z Hz. destruct (life_step_zero _ _ _ Hs Hz) as [_ [Hz'| ->]]; auto.
Qed.
End life_world.

Section life_theorems.
Context (instant_max : Z).

(** No channel exists, and every moment of the run that had one lies before
    the idle period recorded since [z]. *)
Definition unused_since (timeout : option Duration) (w : life_world) (z : Z) : Prop :=
  lw_tokens w = mkTokens 0 0 0 /\ zero_since (pc_life (lw_core w)) = Some z /\
  forall v, life_reachable instant_max timeout v -> rtc (life_step instant_max) v w ->
    lw_tokens v <> mkTokens 0 0 0 -> lw_now v <= z.

Lemma zero_unused_since timeout w z :
  life_reachable instant_max timeout w -> zero_since (pc_life (lw_core w)) = Some z -> unused_since timeout w z.
Proof.
  intros Hw Hz. split_and!; [eapply life_ok_idle; [by eapply life_reachable_ok|congruence]|done|].
  intros v Hv Hrun Hbusy. by eapply busy_before_idle.
Qed.

(** C36: Idleness is never misjudged: in every reachable state the manager
    retires the tunnel, and the idle timer closes it, only when no channel exists
    in any stage (queued, being opened, or in use) and none has existed for the
    whole idle time: every moment of the run at which there was a channel lies
    before the start of the recorded idle period, and that start is more than
    the manager's idle time back, or at least the tunnel's own idle timeout. *)
Theorem pn_idle_close_safe timeout w now d g t' :
  life_reachable instant_max timeout w ->
  (pn_try_retire_idle now d (lw_core w) = (true, t') ->
     exists z, unused_since timeout w z /\ z + d < now)
  /\ (close_if_idle instant_max now g (lw_core w) = Some (true, t') ->
     exists z idle, unused_since timeout w z /\ pc_idle_timeout (lw_core w) = Some idle /\ z + idle <= now).
Proof.
  intros Hreach. split; intros H.
  - unfold pn_try_retire_idle in H. case_match eqn:E; [|done]. apply andb_true_iff in E as [_ E].
    destruct (zero_since _) as [z|] eqn:Hz; [|done]. exists z. split; [by apply zero_unused_since|]. bool_to_prop. lia.
  - unfold close_if_idle in H. destruct (pc_idle_timeout _) as [idle|]; [|done].
    destruct (zero_since _) as [z|] eqn:Hz; [|done]. exists z, idle. split; [by apply zero_unused_since|]. split; [done|].
    case_match; [|done]. case_match; [|done]. case_match eqn:E; [|done]. by bool_to_prop.
Qed.

(** An idle tunnel is not forgotten: whenever an open tunnel with an idle
    timeout has no channel, a check is pending for exactly the current idle
    period, due when the timeout has passed, and running it at any time after
    that closes the tunnel. *)
Theorem pn_idle_close_scheduled timeout w d now' :
  life_reachable instant_max timeout w -> is_open (pc_life (lw_core w)) = true ->
  lw_tokens w = mkTokens 0 0 0 -> pc_idle_timeout (lw_core w) = Some d ->
  exists z, zero_since (pc_life (lw_core w)) = Some z /\ z <= lw_now w /\
    (z + d <= instant_max ->
       (Z.max z (z + d), generation (pc_life (lw_core w))) ∈ pc_timers (lw_core w) /\
       (z + d <= now' -> exists t', close_if_idle instant_max now' (generation (pc_life (lw_core w))) (lw_core w) = Some (true, t')
                                    /\ pc_closed t' = true)).
Proof.
  intros Hok%life_reachable_ok Ho Hk Hd. destruct w as [wn t k]. simpl in *. subst k.
  pose proof (life_ok_open _ _ _ _ Hok Ho) as Hc.
  assert (total_channels (pc_life t) = O) as Ht.
  { unfold total_channels. by rewrite (lk_active _ _ _ _ Hok), (lk_pending _ _ _ _ Hok), (lk_queued _ _ _ _ Hok Hc). }
  destruct (zero_since (pc_life t)) as [z|] eqn:Hz;
    [|exfalso; by apply (proj2 (lk_zero _ _ _ _ Hok) (conj Ho Ht))].
  exists z. split; [done|]. split; [by apply (lk_since _ _ _ _ Hok)|]. intros Hmax.
  split; [by apply (lk_timer _ _ _ _ Hok)|]. intros Hle. unfold close_if_idle.
  rewrite Hd, Hz, Ho, Z.eqb_refl, Ht. simpl. rewrite (proj2 (Z.leb_le _ _)), (proj2 (Z.leb_le _ _)) by lia.
  unfold close_with_reason, close_lifecycle_locked. unfold is_open in Ho. bool_to_prop. rewrite H. simpl. by eexists.
Qed.

(** A closed tunnel stays closed and gives out nothing: every operation that
    would start or promote a channel fails. *)
Lemma pn_closed_rejects timeout w now :
  life_reachable instant_max timeout w -> pc_closed (lw_core w) = true ->
  is_err (fst (begin_pending_channel now (lw_core w))) = true /\ is_err (fst (push_passive_channel now (lw_core w))) = true /\
  is_err (fst (queued_to_pending_channel instant_max now (lw_core w))) = true /\
  is_err (fst (pending_to_active_channel instant_max now (lw_core w))) = true /\
  is_err (ensure_listener_registration_allowed (lw_core w)) = true.
Proof.
  intros Hok%life_reachable_ok Hc. assert (is_open (pc_life (lw_core w)) = false) as Ho.
  { destruct (is_open _) eqn:Ho; [|done]. by rewrite (life_ok_open _ _ _ _ Hok Ho) in Hc. }
  unfold begin_pending_channel, push_passive_channel, queued_to_pending_channel, pending_to_active_channel,
    ensure_listener_registration_allowed.
  rewrite Ho. split_and!; try done. by destruct (proj1 (lk_closed _ _ _ _ Hok) Hc) as [-> | ->].
Qed.

(** An idle timeout that reaches beyond the last representable instant does
    not mean "never": the check is spawned to run at once, and for every state of
    an open, idle tunnel it panics, inside the critical section of the lifecycle
    mutex. *)
Theorem pn_idle_timeout_overflow_panics now d :
  instant_max < now + d ->
  let t := mark_control_ready instant_max now (core_new instant_max now 0 LsOpeningControl (Some d)) in
  is_open (pc_life t) = true /\ pc_timers t = [(now, 1)] /\ forall now', close_if_idle instant_max now' 1 t = None.
Proof.
  intros Hmax. simpl. unfold close_if_idle, schedule_idle_check. simpl.
  rewrite (proj2 (Z.leb_gt _ _)) by lia. done.
Qed.
End life_theorems.

(** ** The heartbeat of the control connection *)
Record HeartbeatState := mkHb {
  hb_last_seen : Z; hb_pending_ping : option (Z * Z); hb_seq : Z; hb_closed : option PnTunnelCloseReason }.

Section heartbeat.
Context (interval timeout : Duration).

Definition hb_new (now : Z) : HeartbeatState := mkHb now None 0 None.

Definition mark_control_seen (now : Z) (h : HeartbeatState) : HeartbeatState :=
  mkHb now (hb_pending_ping h) (hb_seq h) (hb_closed h).
Definition mark_control_ping_sent (now seq : Z) (h : HeartbeatState) : HeartbeatState :=
  mkHb now (Some (seq, now)) (hb_seq h) (hb_closed h).
Definition mark_control_pong (seq : Z) (h : HeartbeatState) : HeartbeatState :=
  match hb_pending_ping h with
  | Some (s, _) => if s =? seq then mkHb (hb_last_seen h) None (hb_seq h) (hb_closed h) else h
  | None => h
  end.
Definition hb_close (r : PnTunnelCloseReason) (h : HeartbeatState) : HeartbeatState :=
  mkHb (hb_last_seen h) (hb_pending_ping h) (hb_seq h) (match hb_closed h with Some r => Some r | None => Some r end).

(** One turn of [control_heartbeat_loop] after its sleep, up to sending the ping
    it returns.  [elapsed] saturates. *)
Definition control_heartbeat_turn (now : Z) (h : HeartbeatState) : option Z * HeartbeatState :=
  match hb_closed h with
  | Some _ => (None, h)
  | None =>
    let timed_out := match hb_pending_ping h with Some (_, sent) => timeout <=? Z.max 0 (now - sent) | None => false end in
    if timed_out || (timeout <=? Z.max 0 (now - hb_last_seen h)) then (None, hb_close CloseHeartbeatTimeout h)
    else if (Z.max 0 (now - hb_last_seen h) <? interval) || bool_decide (hb_pending_ping h <> None) then (None, h)
    else let seq := wrapping_add_u64 (hb_seq h) 1 in
         (Some seq, mkHb (hb_last_seen h) (hb_pending_ping h) seq (hb_closed h))
  end.

(** The rest of the turn, after [send_control] returned. *)
Definition control_heartbeat_sent (now seq : Z) (sent : P2pResult unit) (h : HeartbeatState) : HeartbeatState :=
  match sent with
  | Ok _ => mark_control_ping_sent now seq h
  | Err _ => hb_close CloseControlError h
  end.

(** A frame handled by [control_recv_loop]: what it does to the bookkeeping; a
    ping is answered with the same sequence number. *)
Inductive PnControlCmd := CcPing (seq : Z) | CcPong (seq : Z) | CcClose | CcData.
Definition control_recv (now : Z) (c : PnControlCmd) (h : HeartbeatState) : option Z * HeartbeatState :=
  let h := mark_control_seen now h in
  match c with
  | CcPing seq => (Some seq, h)
  | CcPong seq => (None, mark_control_pong seq h)
  | CcClose => (None, hb_close CloseRemoteControl h)
  | CcData => (None, h)
  end.

(** A whole turn with a send that succeeds at once. *)
Definition quiet_turn (h : HeartbeatState) (now : Z) : HeartbeatState :=
  let '(ping, h) := control_heartbeat_turn now h in
  match ping with Some seq => control_heartbeat_sent now seq (Ok tt) h | None => h end.

Lemma hb_closed_stays ts h : hb_closed h <> None -> hb_closed (foldl quiet_turn h ts) <> None.
Proof.
  revert h. induction ts as [|t ts IH]; intros h Hc; [done|]. simpl. apply IH.
  unfold quiet_turn, control_heartbeat_turn. destruct (hb_closed h) eqn:E; [simpl; congruence|done].
Qed.

(** A turn without news closes, waits for an earlier ping, or is young. *)
Lemma quiet_turn_cases h now :
  hb_closed h = None ->
  hb_closed (quiet_turn h now) <> None \/
  (hb_pending_ping h <> None /\ quiet_turn h now = h /\ forall s p, hb_pending_ping h = Some (s, p) -> Z.max 0 (now - p) < timeout) \/
  (hb_pending_ping h = None /\ quiet_turn h now = h /\ Z.max 0 (now - hb_last_seen h) < interval) \/
  (hb_pending_ping h = None /\ exists s, hb_pending_ping (quiet_turn h now) = Some (s, now)).
Proof.
  intros Hc. unfold quiet_turn, control_heartbeat_turn. rewrite Hc.
  destruct (match hb_pending_ping h with Some (_, sent) => timeout <=? Z.max 0 (now - sent) | None => false end) eqn:Et.
  { left. simpl. by rewrite Hc. }
  simpl. destruct (Z.leb_spec timeout (Z.max 0 (now - hb_last_seen h))); [left; simpl; by rewrite Hc|].
  destruct (hb_pending_ping h) as [[s p]|] eqn:Ep.
  - rewrite bool_decide_eq_true_2, orb_true_r by done. right. left. split_and!; [done..|].
    intros s' p' [= <- <-]. by bool_to_prop.
  - assert (bool_decide (hb_pending_ping h <> None) = false) as Hb by (apply bool_decide_eq_false; rewrite Ep; tauto).
    rewrite Ep in Hb. rewrite Hb, orb_false_r. destruct (Z.ltb_spec (Z.max 0 (now - hb_last_seen h)) interval).
    + right. right. left. done.
    + right. right. right. simpl. eauto.
Qed.

(** A ping in flight since [p] at the latest. *)
Definition pinged_by (p : Z) (h : HeartbeatState) : Prop :=
  hb_closed h <> None \/ exists s q, hb_pending_ping h = Some (s, q) /\ q <= p.

Lemma quiet_turn_pinged p h now : now <= p \/ hb_pending_ping h <> None -> pinged_by p h -> pinged_by p (quiet_turn h now).
Proof.
  intros Hnow [Hc|(s & q & Hp & Hq)]; [left; by apply (hb_closed_stays [now])|].
  destruct (hb_closed h) eqn:Hcl; [left; apply (hb_closed_stays [now]); congruence|].
  destruct (quiet_turn_cases h now Hcl) as [?|[(_ & -> & _)|[(? & _)|(? & _)]]]; [by left|right; eauto|congruence..].
Qed.

(** A dead control connection is detected: if nothing arrives after [t0],
    then, whenever the heartbeat loop ran at some [t1] at least an interval
    later and runs again at some [t2] at least a timeout after that, the tunnel
    is closed, whatever the other turns of the loop were. *)
Theorem pn_dead_peer_detected h t0 l1 t1 l2 t2 :
  hb_pending_ping h = None -> hb_last_seen h = t0 -> Forall (fun t => t <= t1) l1 ->
  t0 + interval <= t1 -> 0 <= interval -> 0 < timeout -> t1 + timeout <= t2 ->
  hb_closed (foldl quiet_turn h (l1 ++ t1 :: l2 ++ [t2])) <> None.
Proof.
  intros Hp Hs Hl1 Ht1 Hi Hto Ht2.
  assert (forall l h, Forall (fun t => t <= t1) l -> (hb_pending_ping h = None /\ hb_last_seen h = t0) \/ pinged_by t1 h ->
    (hb_pending_ping (foldl quiet_turn h l) = None /\ hb_last_seen (foldl quiet_turn h l) = t0) \/ pinged_by t1 (foldl quiet_turn h l)) as Hpre.
  { induction l as [|t l IH]; intros h0 Hf H0; [done|]. apply Forall_cons in Hf as [Ht Hf]. simpl. apply IH; [done|].
    destruct H0 as [[Hp0 Hs0]|H0]; [|right; apply quiet_turn_pinged; auto].
    destruct (hb_closed h0) eqn:Hc; [right; left; apply (hb_closed_stays [t]); congruence|].
    destruct (quiet_turn_cases h0 t Hc) as [?|[(? & _)|[(_ & -> & _)|(_ & s & ?)]]]; [right; by left|done|by left|right; right; eauto]. }
  rewrite foldl_app. simpl. rewrite foldl_app. simpl.
  assert (pinged_by t1 (quiet_turn (foldl quiet_turn h l1) t1)) as H1.
  { destruct (Hpre l1 h Hl1 ltac:(auto)) as [[Hp0 Hs0]|H0]; [|apply quiet_turn_pinged; auto; left; lia].
    destruct (hb_closed (foldl quiet_turn h l1)) eqn:Hc; [left; apply (hb_closed_stays [t1]); congruence|].
    destruct (quiet_turn_cases _ t1 Hc) as [?|[(? & _)|[(_ & _ & Hy)|(_ & s & ?)]]]; [by left|done|lia|].
    right. exists s, t1. split; [done|lia]. }
  generalize dependent (quiet_turn (foldl quiet_turn h l1) t1). clear Hpre. intros h1 H1.
  assert (pinged_by t1 (foldl quiet_turn h1 l2)) as H2.
  { revert h1 H1. induction l2 as [|t l2 IH]; intros h1 H1; [done|]. simpl. apply IH.
    destruct H1 as [Hc|(s & q & Hq & Hle)]; [left; by apply (hb_closed_stays [t])|].
    apply quiet_turn_pinged; [right; congruence|right; eauto]. }
  destruct H2 as [Hc|(s & q & Hq & Hle)]; [by apply (hb_closed_stays [t2])|].
  destruct (hb_closed (foldl quiet_turn h1 l2)) eqn:Hc; [apply (hb_closed_stays [t2]); congruence|].
  destruct (quiet_turn_cases _ t2 Hc) as [?|[(_ & _ & Hy)|[(? & _)|(? & _)]]]; [done| |congruence..].
  specialize (Hy _ _ Hq). lia.
Qed.

(** What may happen between two turns that concern us. *)
Inductive hb_event := HbRecv (now : Z) (c : PnControlCmd) | HbTurn (now : Z).
Definition hb_apply (h : HeartbeatState) (e : hb_event) : HeartbeatState :=
  match e with HbRecv now c => snd (control_recv now c h) | HbTurn now => quiet_turn h now end.

(** A pong that overtakes the bookkeeping of its ping kills the tunnel: if
    the answer to a ping is processed before the heartbeat loop, back from
    sending it, records it as outstanding, then no traffic whatsoever, however
    regular, keeps the tunnel from being closed by the first turn of the loop
    after the timeout. *)
Theorem pn_early_pong_closes h t seq h1 tp tm evs now :
  control_heartbeat_turn t h = (Some seq, h1) ->
  Forall (fun e => match e with HbRecv _ (CcPong s) => s <> seq | _ => True end) evs ->
  tm + timeout <= now -> 0 < timeout ->
  let h2 := control_heartbeat_sent tm seq (Ok tt) (snd (control_recv tp (CcPong seq) h1)) in
  hb_closed (quiet_turn (foldl hb_apply h2 evs) now) <> None.
Proof.
  intros Ht Hf Hnow Hto. simpl.
  assert (forall evs h0, Forall (fun e => match e with HbRecv _ (CcPong s) => s <> seq | _ => True end) evs ->
    hb_closed h0 <> None \/ hb_pending_ping h0 = Some (seq, tm) ->
    hb_closed (foldl hb_apply h0 evs) <> None \/ hb_pending_ping (foldl hb_apply h0 evs) = Some (seq, tm)) as Hinv.
  { induction evs0 as [|e l IH]; intros h0 Hl H0; [done|]. apply Forall_cons in Hl as [He Hl]. simpl. apply IH; [done|].
    destruct e as [n c|n]; simpl.
    - destruct c as [s|s| |]; simpl; try done.
      + unfold mark_control_pong. simpl. destruct H0 as [Hc|Hp]; [left; repeat case_match; simpl; done|right].
        rewrite Hp. by rewrite (proj2 (Z.eqb_neq _ _)) by done.
      + left. by destruct (hb_closed h0).
    - destruct H0 as [Hc|Hp]; [left; by apply (hb_closed_stays [n])|].
      destruct (hb_closed h0) eqn:Hc; [left; apply (hb_closed_stays [n]); congruence|].
      destruct (quiet_turn_cases h0 n Hc) as [?|[(_ & -> & _)|[(? & _)|(? & _)]]]; [by left|by right|congruence..]. }
  pose proof (Hinv evs (mark_control_ping_sent tm seq (mark_control_pong seq (mark_control_seen tp h1))) Hf ltac:(by right)) as H2.
  generalize dependent (foldl hb_apply (mark_control_ping_sent tm seq (mark_control_pong seq (mark_control_seen tp h1))) evs).
  intros h2 [Hc|Hp]; [by apply (hb_closed_stays [now])|].
  destruct (hb_closed h2) eqn:Hc; [apply (hb_closed_stays [now]); congruence|].
  destruct (quiet_turn_cases _ now Hc) as [?|[(_ & _ & Hy)|[(? & _)|(? & _)]]]; [done| |congruence..].
  specialize (Hy _ _ Hp). lia.
Qed.
End heartbeat.

(** ** Concrete runs *)
Module TunnelDemo.
Definition horizon : Z := from_secs 1000000.
Definition idle : Duration := from_secs 10.
Definition t1 : PnTunnelCore := mark_control_ready horizon 5 (core_new horizon 0 0 LsOpeningControl (Some idle)).
(** A tunnel ready at 5 that has had no channel when the clock shows 20s. *)
Definition idle_world : life_world := mkLW (from_secs 20) t1 (mkTokens 0 0 0).

Lemma idle_world_reachable : life_reachable horizon (Some idle) idle_world.
Proof.
  exists 0, O, LsOpeningControl. split; [by left|].
  eapply rtc_l; [apply (ls_tick horizon 0 5); lia|]. eapply rtc_l; [apply ls_ready|].
  eapply rtc_l; [apply (ls_tick horizon 5 (from_secs 20)); vm_compute; discriminate|]. apply rtc_refl.
Qed.

(** The same tunnel with a channel being opened at 6s that is dropped at 7s. *)
Definition busy_world : life_world :=
  mkLW (from_secs 6) (snd (begin_pending_channel (from_secs 6) t1)) (mkTokens 0 1 0).
Definition freed_world : life_world :=
  mkLW (from_secs 20) (release_pending_channel horizon (from_secs 7) (lw_core busy_world)) (mkTokens 0 0 0).

Lemma busy_world_reachable : life_reachable horizon (Some idle) busy_world.
Proof.
  exists 0, O, LsOpeningControl. split; [by left|].
  eapply rtc_l; [apply (ls_tick horizon 0 5); lia|]. eapply rtc_l; [apply ls_ready|].
  eapply rtc_l; [apply (ls_tick horizon 5 (from_secs 6)); vm_compute; discriminate|].
  eapply rtc_l; [by apply ls_begin|]. apply rtc_refl.
Qed.

Lemma busy_then_freed : rtc (life_step horizon) busy_world freed_world.
Proof.
  eapply rtc_l; [apply (ls_tick horizon (from_secs 6) (from_secs 7)); vm_compute; discriminate|].
  eapply rtc_l; [apply ls_drop_pending|].
  eapply rtc_l; [apply (ls_tick horizon (from_secs 7) (from_secs 20)); vm_compute; discriminate|]. apply rtc_refl.
Qed.
End TunnelDemo.

Import TunnelDemo.

Lemma pn_idle_close_safe_witness :
  fst (pn_try_retire_idle (from_secs 20) (from_secs 3) (lw_core freed_world)) = true /\
  exists z, zero_since (pc_life (lw_core freed_world)) = Some z /\ lw_now busy_world <= z /\ z + from_secs 3 < from_secs 20.
Proof.
  split; [vm_compute; reflexivity|].
  assert (Hreach : life_reachable horizon (Some idle) freed_world).
  { destruct busy_world_reachable as (n0 & q & st & Hst & Hr). exists n0, q, st. split; [done|].
    etrans; [exact Hr|apply busy_then_freed]. }
  destruct (proj1 (pn_idle_close_safe horizon (Some idle) freed_world (from_secs 20) (from_secs 3) 1
           (snd (pn_try_retire_idle (from_secs 20) (from_secs 3) (lw_core freed_world))) Hreach))
    as (z & (_ & Hz & Hb) & Hd); [vm_compute; reflexivity|].
  exists z. split_and!; [done| |done]. by apply (Hb busy_world busy_world_reachable busy_then_freed).
Defined.

Lemma pn_idle_close_scheduled_witness :
  exists z, zero_since (pc_life (lw_core idle_world)) = Some z /\ z <= from_secs 20 /\
    (z + idle <= horizon ->
      (Z.max z (z + idle), generation (pc_life (lw_core idle_world))) ∈ pc_timers (lw_core idle_world) /\
      (z + idle <= from_secs 20 ->
        exists t', close_if_idle horizon (from_secs 20) (generation (pc_life (lw_core idle_world))) (lw_core idle_world) = Some (true, t')
                   /\ pc_closed t' = true)).
Proof.
  apply (pn_idle_close_scheduled horizon (Some idle) idle_world idle (from_secs 20) idle_world_reachable); vm_compute; reflexivity.
Defined.

Lemma pn_idle_timeout_overflow_panics_witness :
  let t := mark_control_ready horizon 5 (core_new horizon 5 0 LsOpeningControl (Some (2 * horizon))) in
  is_open (pc_life t) = true /\ pc_timers t = [(5, 1)] /\ forall now', close_if_idle horizon now' 1 t = None.
Proof. apply (pn_idle_timeout_overflow_panics horizon 5 (2 * horizon)). vm_compute. reflexivity. Defined.

Lemma pn_dead_peer_detected_witness :
  hb_closed (foldl (quiet_turn 30 90) (hb_new 0) ([10] ++ 31 :: [61; 91] ++ [121])) = Some CloseHeartbeatTimeout /\
  hb_closed (foldl (quiet_turn 30 90) (hb_new 0) ([10] ++ 31 :: [61; 91] ++ [121])) <> None.
Proof.
  split; [vm_compute; reflexivity|].
  apply (pn_dead_peer_detected 30 90 (hb_new 0) 0 [10] 31 [61; 91] 121); try reflexivity; try lia.
  repeat constructor. lia.
Defined.

(** Data arrives every second, every later ping would be answered at once. *)
Lemma pn_early_pong_closes_witness :
  fst (control_heartbeat_turn 30 90 31 (hb_new 0)) = Some 1 /\
  hb_closed (quiet_turn 30 90
    (foldl (hb_apply 30 90)
       (control_heartbeat_sent 32 1 (Ok tt) (snd (control_recv 32 (CcPong 1) (snd (control_heartbeat_turn 30 90 31 (hb_new 0))))))
       [HbRecv 60 CcData; HbTurn 61; HbRecv 90 CcData; HbTurn 91; HbRecv 120 CcData; HbTurn 121; HbRecv 122 CcData]) 123) <> None.
Proof.
  split; [vm_compute; reflexivity|].
  apply (pn_early_pong_closes 30 90 (hb_new 0) 31 1 (snd (control_heartbeat_turn 30 90 31 (hb_new 0))) 32 32); try lia.
  - vm_compute. reflexivity.
  - repeat constructor.
Defined.
