(* ===== verification/PnClient.v ===== *)
(** * The proxy client (pn/client/pn_tunnel.rs, pn_client.rs, pn_listener.rs)

    How channels are accepted and opened on a proxy tunnel, the client's registry
    of tunnels by remote peer and tunnel identifier, and the proxy tunnel as an
    instance of the tunnel manager's interface [TunnelOps].  Registry entries are
    weak references: an address, of a tunnel that may have been dropped. *)

From stdpp Require Import functions.
From S2P Require Import Prelude.
From S2P Require Import Errors.
From S2P Require Import Ids.
From S2P Require Import ControlStream.
From S2P Require Import TunnelActivity.
From S2P Require Import TunnelManager.
From S2P Require Import PnTraffic.
From S2P Require Import PnServer.
From S2P Require Import PnTunnel.

(** ** Accepting a channel *)

(** The decision of [accept_passive_channel]: the result to answer and the error
    to report; [vports] is what is listened to once the first-listen wait is
    over. *)
Definition accept_decision (local : P2pId) (mode : PnProxyStreamSecurityMode) (has_tls : bool)
    (vports : option (TunnelPurpose -> bool)) (r : ProxyOpenReq) : TunnelCommandResult * option P2pErrorCode.t :=
  let tls_required := bool_decide (pq_kind r = PnStream) && match mode with SecTlsRequired => true | SecDisabled => false end in
  if negb (bool_decide (pq_to r = local)) then (ResInvalidParam, Some P2pErrorCode.InvalidParam)
  else if tls_required && negb has_tls then (ResInternalError, Some P2pErrorCode.NotSupport)
  else match vports with
       | Some is_listen =>
         if is_listen (pq_purpose r) then (ResSuccess, None)
         else (ResPortNotListen, Some (into_p2p_error ResPortNotListen))
       | None => (ResListenerClosed, Some P2pErrorCode.Interrupted)
       end.

Section accept.
Context (instant_max : Z).

(** The rest of [accept_passive_channel], run without interruption: the response
    written (if any), the result, and the lifecycle.  [written] is the result of
    writing the response, [wrapped] that of the TLS handshake, if there is one. *)
Definition accept_passive_channel (now : Z) (decision : TunnelCommandResult * option P2pErrorCode.t)
    (written wrapped : P2pResult unit) (t : PnTunnelCore) : option TunnelCommandResult * P2pResult unit * PnTunnelCore :=
  if pc_closed t then (Some ResInterrupted, Err P2pErrorCode.Interrupted, t)
  else
    match queued_to_pending_channel instant_max now t with
    | (Err e, t) => (None, Err e, t)
    | (Ok _, t) =>
      match written with
      | Err e => (None, Err e, release_pending_channel instant_max now t)
      | Ok _ =>
        match snd decision, wrapped with
        | Some e, _ => (Some (fst decision), Err e, release_pending_channel instant_max now t)
        | None, Err e => (Some (fst decision), Err e, release_pending_channel instant_max now t)
        | None, Ok _ => let '(r, t) := pending_to_active_channel instant_max now t in (Some (fst decision), r, t)
        end
      end
    end.

(** What the tunnel's user hears of a finished accept. *)
Inductive accept_notice := NoticeChannel | NoticeError (e : P2pErrorCode.t) | NoticeNone.
Definition should_continue_dispatch (e : P2pErrorCode.t) : bool :=
  match e with P2pErrorCode.PortNotListen => true | _ => false end.
Definition dispatch_notice (closed has_callback : bool) (accepted : P2pResult unit) : accept_notice :=
  match accepted with
  | Ok _ => if closed then NoticeNone else if has_callback then NoticeChannel else NoticeNone
  | Err e => if should_continue_dispatch e then (if has_callback then NoticeError e else NoticeNone) else NoticeNone
  end.

(** [open_stream], [open_datagram] and [open_control_stream], run without
    interruption: [relay] is what the tunnel's role provides, [opened] the result
    of opening the channel, [wrapped] that of securing it. *)
Definition open_pn_channel (now : Z) (relay : bool) (opened wrapped : P2pResult unit) (t : PnTunnelCore)
    : P2pResult unit * PnTunnelCore :=
  match begin_pending_channel now t with
  | (Err e, t) => (Err e, t)
  | (Ok _, t) =>
    match (if relay then _ <-? opened ;; wrapped else Err P2pErrorCode.NotSupport) with
    | Err e => (Err e, release_pending_channel instant_max now t)
    | Ok _ => pending_to_active_channel instant_max now t
    end
  end.

(** [open_channel] and [open_control_channel] of the client: what the response
    means; [None] is the timeout. *)
Definition open_response (id : TunnelId) (resp : option (P2pResult (TunnelId * Z))) : P2pResult unit :=
  r <-? with_timeout resp ;;
  if negb (fst r =? id) then Err P2pErrorCode.InvalidData
  else match command_result_from_u8 (snd r) with
       | None => Err P2pErrorCode.InvalidData
       | Some ResSuccess => Ok tt
       | Some res => Err (into_p2p_error res)
       end.

(** What a refresh leaves alone. *)
Definition counts (t : PnTunnelCore) : nat * nat * nat * bool * bool :=
  let s := pc_life t in (active_channels s, pending_channels s, queued_channels s, is_open s, pc_closed t).

Lemma refresh_counts now s t :
  counts (with_life (snd (refresh_idle_state now s)) t) = counts (with_life s t).
Proof. unfold refresh_idle_state. by repeat case_match. Qed.

Lemma refreshed_counts now s t : counts (refreshed instant_max now s t) = counts (with_life s t).
Proof.
  rewrite <-(refresh_counts now). unfold refreshed. destruct (refresh_idle_state now s) as [r s']. simpl.
  unfold schedule_from_refresh, schedule_idle_check. by repeat case_match.
Qed.

Lemma begin_counts now t : is_open (pc_life t) = true ->
  exists t', begin_pending_channel now t = (Ok tt, t') /\
    counts t' = (active_channels (pc_life t), pending_channels (pc_life t) + 1, queued_channels (pc_life t), true, pc_closed t)%nat.
Proof.
  intros Ho. unfold begin_pending_channel. rewrite Ho. eexists. split; [done|]. rewrite refresh_counts. unfold counts. simpl.
  by rewrite <-Ho.
Qed.

Lemma dequeue_counts now t : is_open (pc_life t) = true ->
  exists t', queued_to_pending_channel instant_max now t = (Ok tt, t') /\
    counts t' = (active_channels (pc_life t), pending_channels (pc_life t) + 1, queued_channels (pc_life t) - 1, true, pc_closed t)%nat.
Proof.
  intros Ho. unfold queued_to_pending_channel. rewrite Ho. eexists. split; [done|]. rewrite refreshed_counts. unfold counts. simpl.
  by rewrite <-Ho.
Qed.

Lemma release_counts now t :
  counts (release_pending_channel instant_max now t) =
  (active_channels (pc_life t), pending_channels (pc_life t) - 1, queued_channels (pc_life t), is_open (pc_life t), pc_closed t)%nat.
Proof. unfold release_pending_channel. by rewrite refreshed_counts. Qed.

Lemma activate_counts now t : is_open (pc_life t) = true ->
  exists t', pending_to_active_channel instant_max now t = (Ok tt, t') /\
    counts t' = (active_channels (pc_life t) + 1, pending_channels (pc_life t) - 1, queued_channels (pc_life t), true, pc_closed t)%nat.
Proof.
  intros Ho. unfold pending_to_active_channel. rewrite Ho. eexists. split; [done|]. rewrite refreshed_counts. unfold counts. simpl.
  by rewrite <-Ho.
Qed.

(** The two ways a pending channel ends, from counts [a], [p + 1] and [q]. *)
Lemma pending_ends now t a p q c :
  counts t = (a, p + 1, q, true, c)%nat ->
  counts (release_pending_channel instant_max now t) = (a, p, q, true, c) /\
  exists t', pending_to_active_channel instant_max now t = (Ok tt, t') /\ counts t' = (a + 1, p, q, true, c)%nat.
Proof.
  intros H. unfold counts in H. injection H as Ha Hp Hq Ho Hc. split.
  - rewrite release_counts, Ha, Hp, Hq, Ho, Hc. repeat f_equal. lia.
  - destruct (activate_counts now t Ho) as (t' & E & E2). exists t'. split; [done|]. rewrite E2, Ha, Hp, Hq, Hc. repeat f_equal. lia.
Qed.

(** Opening or accepting a channel changes the lifecycle only if it yields
    one: whatever fails (the tunnel not open, no relay, the remote's refusal, a
    timeout, the TLS handshake), the counts are those before; on success exactly
    one more channel is active.  Accepting consumes the queued channel either
    way while the tunnel is open. *)
Theorem pn_channel_accounting now relay opened wrapped decision written t r t' :
  let opened_one (b : bool) := ((if b then active_channels (pc_life t) + 1 else active_channels (pc_life t)),
                                pending_channels (pc_life t))%nat in
  let now_has (s : PnTunnelCore) := (active_channels (pc_life s), pending_channels (pc_life s)) in
  (open_pn_channel now relay opened wrapped t = (r, t') -> now_has t' = opened_one (is_ok r)) /\
  (forall resp, accept_passive_channel now decision written wrapped t = (resp, r, t') ->
     now_has t' = opened_one (is_ok r) /\
     (is_open (pc_life t) = true -> pc_closed t = false ->
        queued_channels (pc_life t') = (queued_channels (pc_life t) - 1)%nat /\
        (resp = None <-> is_err written = true))).
Proof.
  simpl. split.
  - unfold open_pn_channel. destruct (is_open (pc_life t)) eqn:Ho.
    + destruct (begin_counts now t Ho) as (t1 & -> & H1). destruct (pending_ends now t1 _ _ _ _ H1) as (Hrel & t2 & Hact & H2).
      case_match; [rewrite Hact|]; intros [= <- <-]; simpl; [unfold counts in H2|unfold counts in Hrel]; congruence.
    + unfold begin_pending_channel. rewrite Ho. by intros [= <- <-].
  - unfold accept_passive_channel. intros resp. destruct (pc_closed t) eqn:Hc; [by intros [= <- <- <-]|].
    destruct (is_open (pc_life t)) eqn:Ho.
    + destruct (dequeue_counts now t Ho) as (t1 & -> & H1). destruct (pending_ends now t1 _ _ _ _ H1) as (Hrel & t2 & Hact & H2).
      unfold counts in Hrel, H2. injection Hrel as R1 R2 R3 _ _. injection H2 as A1 A2 A3 _ _.
      destruct written as [[]|e]; [destruct (snd decision); [|destruct wrapped as [[]|]; [rewrite Hact|]]|];
        intros [= <- <- <-]; simpl; rewrite ?R1, ?R2, ?R3, ?A1, ?A2, ?A3; (split; [done|]); intros _ _; (split; [done|]); by split.
    + unfold queued_to_pending_channel. rewrite Ho. by intros [= <- <- <-].
Qed.
End accept.

(** ** The registry of tunnels ([PnShared]) *)
Notation PnTunnelKey := (P2pId * TunnelId)%type.

(** The tunnels of the process: [tn_alive a] when the tunnel at [a] has not been
    dropped ([Weak::upgrade] succeeds), [tn_flag a] its closed flag. *)
Record PnShared := mkShared { sh_tunnels : gmap PnTunnelKey nat; tn_alive : nat -> bool; tn_flag : nat -> bool }.

Definition upgrade (s : PnShared) (a : nat) : option nat := if tn_alive s a then Some a else None.
Definition set_tunnels (m : gmap PnTunnelKey nat) (s : PnShared) : PnShared := mkShared m (tn_alive s) (tn_flag s).

(** [tunnels.get(key).and_then(Weak::upgrade)]. *)
Definition current (key : PnTunnelKey) (s : PnShared) : option nat := sh_tunnels s !! key ≫= upgrade s.

Definition pn_get_tunnel (key : PnTunnelKey) (s : PnShared) : option nat * PnShared :=
  match current key s with
  | Some a => if negb (tn_flag s a) then (Some a, s) else (None, set_tunnels (delete key (sh_tunnels s)) s)
  | None => (None, set_tunnels (delete key (sh_tunnels s)) s)
  end.

Definition unregister_tunnel (key : PnTunnelKey) (a : nat) (s : PnShared) : PnShared :=
  let should_remove := match current key s with Some c => bool_decide (c = a) | None => true end in
  if should_remove then set_tunnels (delete key (sh_tunnels s)) s else s.

Definition register_control_tunnel_if_absent (key : PnTunnelKey) (a : nat) (s : PnShared) : P2pResult unit * PnShared :=
  if tn_flag s a then (Err P2pErrorCode.Interrupted, s)
  else match current key s with
       | Some c =>
         if negb (tn_flag s c) then (Err P2pErrorCode.AlreadyExists, s)
         else (Ok tt, set_tunnels (<[key := a]> (sh_tunnels s)) s)
       | None => (Ok tt, set_tunnels (<[key := a]> (sh_tunnels s)) s)
       end.

(** [register_passive_control_tunnel]; [a] is the tunnel it creates. *)
Definition register_passive_control_tunnel (key : PnTunnelKey) (a : nat) (s : PnShared) : P2pResult unit * PnShared :=
  match current key s with
  | Some c =>
    if negb (tn_flag s c) then (Err P2pErrorCode.AlreadyExists, s)
    else (Ok tt, set_tunnels (<[key := a]> (delete key (sh_tunnels s))) s)
  | None => (Ok tt, set_tunnels (<[key := a]> (delete key (sh_tunnels s))) s)
  end.

(** [dispatch_passive_channel]: the tunnel a data connection goes to, or its
    rejection; [pushed] is the answer of [push_passive_channel]. *)
Definition dispatch_passive_channel (key : PnTunnelKey) (pushed : P2pResult unit) (s : PnShared)
    : Result P2pErrorCode.t nat * PnShared :=
  match pn_get_tunnel key s with
  | (Some a, s) =>
    match pushed with
    | Ok _ => (Ok a, s)
    | Err e => (Err e, if tn_flag s a then unregister_tunnel key a s else s)
    end
  | (None, s) => (Err P2pErrorCode.ErrorState, s)
  end.

(** [PnListener::handle_stream]: the result byte answered at once, if any. *)
Definition listener_answer (r : ProxyRequest) (registered : P2pResult unit) (dispatched : Result P2pErrorCode.t nat)
    : option TunnelCommandResult :=
  match r with
  | PrControl _ => Some (match registered with Ok _ => ResSuccess | Err _ => ResInternalError end)
  | PrData _ => match dispatched with Ok _ => None | Err _ => Some ResInvalidParam end
  end.

(** [create_tunnel_via_relay_with_options]: identifiers of a new tunnel. *)
Definition new_tunnel_ids (generated intent_tunnel intent_candidate : Z) : Z * Z :=
  let id := if intent_tunnel =? 0 then generated else intent_tunnel in
  (id, if intent_candidate =? 0 then id else intent_candidate).

(** *** Tunnels come and go *)
Section registry.
Context (key_of : nat -> PnTunnelKey).

Record reg_world := mkReg { rg_shared : PnShared; rg_registered : gset nat }.

Inductive reg_step : reg_world -> reg_world -> Prop :=
| rg_active a s s' r :
    tn_alive s a = true -> register_control_tunnel_if_absent (key_of a) a s = (Ok tt, s') ->
    reg_step (mkReg s r) (mkReg s' ({[a]} ∪ r))
| rg_passive a s s' r :
    tn_alive s a = true -> register_passive_control_tunnel (key_of a) a s = (Ok tt, s') ->
    reg_step (mkReg s r) (mkReg s' ({[a]} ∪ r))
| rg_get k s r : reg_step (mkReg s r) (mkReg (snd (pn_get_tunnel k s)) r)
| rg_dispatch k pushed s r : reg_step (mkReg s r) (mkReg (snd (dispatch_passive_channel k pushed s)) r)
| rg_close a s r :
    (** the flag of [close_lifecycle_locked] *)
    reg_step (mkReg s r) (mkReg (mkShared (sh_tunnels s) (tn_alive s) (<[a := true]> (tn_flag s))) r)
| rg_finish a s r :
    (** [finish_close_local] *)
    tn_flag s a = true -> reg_step (mkReg s r) (mkReg (unregister_tunnel (key_of a) a s) r)
| rg_drop a s r :
    reg_step (mkReg s r) (mkReg (mkShared (sh_tunnels s) (<[a := false]> (tn_alive s)) (tn_flag s)) r).

Definition tunnel_live (s : PnShared) (a : nat) : Prop := tn_alive s a = true /\ tn_flag s a = false.

Definition reg_ok (w : reg_world) : Prop :=
  forall a, a ∈ rg_registered w -> tunnel_live (rg_shared w) a -> sh_tunnels (rg_shared w) !! key_of a = Some a.

Lemma current_live key s a : sh_tunnels s !! key = Some a -> tunnel_live s a -> current key s = Some a.
Proof. intros H [Ha _]. unfold current, upgrade. rewrite H. simpl. by rewrite Ha. Qed.

(** Only entries of tunnels that are not live disappear or are replaced. *)
Definition entries_kept (s s' : PnShared) : Prop :=
  tn_alive s' = tn_alive s /\ tn_flag s' = tn_flag s /\
  forall key a, sh_tunnels s !! key = Some a -> tunnel_live s a -> sh_tunnels s' !! key = Some a.

Lemma delete_dead key s :
  (forall a, sh_tunnels s !! key = Some a -> tunnel_live s a -> False) ->
  entries_kept s (set_tunnels (delete key (sh_tunnels s)) s).
Proof.
  intros Hd. split_and!; [done..|]. intros k a Hk Hl. simpl. destruct (decide (key = k)) as [->|].
  - exfalso. by eapply Hd.
  - by rewrite lookup_delete_ne.
Qed.

Lemma replace_dead key b s :
  (forall a, sh_tunnels s !! key = Some a -> tunnel_live s a -> False) ->
  entries_kept s (set_tunnels (<[key := b]> (sh_tunnels s)) s) /\
  entries_kept s (set_tunnels (<[key := b]> (delete key (sh_tunnels s))) s).
Proof.
  intros Hd. split; (split_and!; [done..|]); intros k a Hk Hl; simpl; (destruct (decide (key = k)) as [->|Hne];
    [exfalso; by eapply Hd|]); rewrite lookup_insert_ne by done; [done|by rewrite lookup_delete_ne].
Qed.

Lemma not_live_current key s :
  match current key s with Some c => tn_flag s c = true | None => True end ->
  forall a, sh_tunnels s !! key = Some a -> tunnel_live s a -> False.
Proof. intros Hc a Ha Hl. rewrite (current_live _ _ _ Ha Hl) in Hc. destruct Hl. congruence. Qed.

Lemma entries_kept_refl s : entries_kept s s.
Proof. by split_and!. Qed.

Lemma get_tunnel_kept key s : entries_kept s (snd (pn_get_tunnel key s)).
Proof.
  unfold pn_get_tunnel. pose proof (not_live_current key s) as Hd.
  destruct (current key s) as [c|]; [|by apply delete_dead, Hd].
  destruct (tn_flag s c) eqn:Hf; [by apply delete_dead, Hd|apply entries_kept_refl].
Qed.

Lemma unregister_kept key a s : tn_flag s a = true -> entries_kept s (unregister_tunnel key a s).
Proof.
  intros Hf. unfold unregister_tunnel. pose proof (not_live_current key s) as Hd.
  destruct (current key s) as [c|]; [|by apply delete_dead, Hd].
  case_bool_decide as E; [subst; by apply delete_dead, Hd|apply entries_kept_refl].
Qed.

Lemma dispatch_kept key pushed s : entries_kept s (snd (dispatch_passive_channel key pushed s)).
Proof.
  unfold dispatch_passive_channel. pose proof (get_tunnel_kept key s) as Hg.
  destruct (pn_get_tunnel key s) as [[a|] s1]; [|done]. destruct pushed; [done|].
  simpl in *. destruct (tn_flag s1 a) eqn:Hf; [|done].
  destruct Hg as (Ha & Hfl & Hk), (unregister_kept key a s1 Hf) as (Ha' & Hfl' & Hk').
  split_and!; [congruence..|]. intros k b Hb Hl. apply Hk'; [by apply Hk|]. unfold tunnel_live. rewrite Ha, Hfl. exact Hl.
Qed.

Lemma register_kept a s s' :
  register_control_tunnel_if_absent (key_of a) a s = (Ok tt, s') \/ register_passive_control_tunnel (key_of a) a s = (Ok tt, s') ->
  entries_kept s s' /\ sh_tunnels s' !! key_of a = Some a.
Proof.
  pose proof (not_live_current (key_of a) s) as Hd.
  unfold register_control_tunnel_if_absent, register_passive_control_tunnel.
  destruct (current (key_of a) s) as [c|].
  - destruct (tn_flag s c) eqn:Hf; simpl; [|intros [H|H]; [by case_match|done]].
    destruct (replace_dead (key_of a) a s (Hd eq_refl)) as [H1 H2].
    intros [H|H]; [case_match; [done|]|]; injection H as <-; (split; [done|]); simpl; apply lookup_insert_eq.
  - destruct (replace_dead (key_of a) a s (Hd I)) as [H1 H2].
    intros [H|H]; [case_match; [done|]|]; injection H as <-; (split; [done|]); simpl; apply lookup_insert_eq.
Qed.

Lemma reg_ok_kept s s' r : entries_kept s s' -> reg_ok (mkReg s r) -> reg_ok (mkReg s' r).
Proof.
  intros (Ha & Hf & Hk) Hok a Hin Hl. simpl in *. assert (tunnel_live s a) as Hl' by (unfold tunnel_live in *; by rewrite <-Ha, <-Hf).
  apply Hk; [|done]. by apply (Hok a).
Qed.

Lemma reg_step_ok w w' : reg_step w w' -> reg_ok w -> reg_ok w'.
Proof.
  destruct 1 as [a s s' r Hal Hreg|a s s' r Hal Hreg|k s r|k pushed s r|a s r|a s r Hf|a s r]; intros Hok.
  - destruct (register_kept a s s' (or_introl Hreg)) as [Hk Hn]. pose proof (reg_ok_kept _ _ _ Hk Hok) as Hok'.
    intros b [->%elem_of_singleton|Hb]%elem_of_union Hl; [done|by apply Hok'].
  - destruct (register_kept a s s' (or_intror Hreg)) as [Hk Hn]. pose proof (reg_ok_kept _ _ _ Hk Hok) as Hok'.
    intros b [->%elem_of_singleton|Hb]%elem_of_union Hl; [done|by apply Hok'].
  - by eapply reg_ok_kept; [apply get_tunnel_kept|].
  - by eapply reg_ok_kept; [apply dispatch_kept|].
  - intros b Hb [Hl1 Hl2]. simpl in *. apply (Hok b Hb). split; [done|].
    destruct (decide (a = b)) as [->|]; [by rewrite fn_lookup_insert in Hl2|by rewrite fn_lookup_insert_ne in Hl2].
  - by eapply reg_ok_kept; [apply unregister_kept|].
  - intros b Hb [Hl1 Hl2]. simpl in *. apply (Hok b Hb). split; [|done].
    destruct (decide (a = b)) as [->|]; [by rewrite fn_lookup_insert in Hl1|by rewrite fn_lookup_insert_ne in Hl1].
Qed.

(** Registered proxy tunnels neither get lost nor compete: whatever
    registrations, lookups, closings (of any tunnel, also of an old one with the
    same key) and drops interleave, a registered tunnel that is alive and not
    closed is the one found under its key, so at most one live tunnel is
    registered per remote peer and tunnel identifier. *)
Theorem pn_registry_exact s0 w a b :
  rtc reg_step (mkReg (mkShared ∅ (tn_alive s0) (tn_flag s0)) ∅) w ->
  a ∈ rg_registered w -> tunnel_live (rg_shared w) a ->
  fst (pn_get_tunnel (key_of a) (rg_shared w)) = Some a /\
  (b ∈ rg_registered w -> tunnel_live (rg_shared w) b -> key_of b = key_of a -> b = a).
Proof.
  intros Hr Ha Hl. assert (reg_ok w) as Hok.
  { eapply (rtc_preserves reg_step reg_ok); [apply reg_step_ok|exact Hr|]. intros x Hx. simpl in Hx. set_solver. }
  pose proof (Hok a Ha Hl) as Hsa. split.
  - unfold pn_get_tunnel. rewrite (current_live _ _ _ Hsa Hl). destruct Hl as [_ Hf]. by rewrite Hf.
  - intros Hb Hlb Hk. pose proof (Hok b Hb Hlb) as Hsb. rewrite Hk in Hsb. congruence.
Qed.
End registry.

(** ** The proxy tunnel as a tunnel of the manager

    An object is a tunnel whose closed flag agrees with its status, which every
    operation keeps. *)
Definition closing (st : PnTunnelLifecycleStatus) : bool :=
  match st with LsClosing | LsClosed => true | _ => false end.
Definition flag_ok (t : PnTunnelCore) : bool := Bool.eqb (pc_closed t) (closing (lf_status (pc_life t))).

Record PnTunnelObject := mkPnObject {
  pno_tunnel_id : Z; pno_candidate_id : Z; pno_remote_id : P2pId; pno_core : PnTunnelCore; pno_ok : flag_ok pno_core = true }.

Definition pn_state (st : PnTunnelLifecycleStatus) : TunnelState :=
  match st with
  | LsOpeningControl => StConnecting
  | LsOpen => StConnected
  | LsRetired | LsClosing | LsClosed => StClosed
  end.

Lemma retire_flag_ok now d t : flag_ok t = true -> flag_ok (snd (pn_try_retire_idle now d t)) = true.
Proof.
  unfold pn_try_retire_idle, flag_ok. intros H. case_match eqn:E; [|done]. bool_to_prop. simpl.
  rewrite H0 in H. simpl in H. exact H.
Qed.

Lemma close_flag_ok r t : flag_ok t = true -> flag_ok (snd (close_with_reason r t)) = true.
Proof. unfold close_with_reason, close_lifecycle_locked. by destruct (lf_status (pc_life t)). Qed.

(** [impl Tunnel for PnTunnel]. *)
#[global] Instance PnTunnel_ops : TunnelOps PnTunnelObject := {
  tn_tunnel_id := pno_tunnel_id;
  tn_candidate_id := pno_candidate_id;
  tn_form _ := FormProxy;
  tn_is_reverse _ := false;
  tn_remote_id := pno_remote_id;
  tn_state o := pn_state (lf_status (pc_life (pno_core o)));
  tn_is_closed o := pc_closed (pno_core o);
  tn_business_at _ := None;
  tn_try_retire now d o :=
    (fst (pn_try_retire_idle now d (pno_core o)),
     mkPnObject (pno_tunnel_id o) (pno_candidate_id o) (pno_remote_id o) (snd (pn_try_retire_idle now d (pno_core o)))
       (retire_flag_ok now d (pno_core o) (pno_ok o)));
  tn_close o :=
    (Ok tt, mkPnObject (pno_tunnel_id o) (pno_candidate_id o) (pno_remote_id o) (snd (close_with_reason CloseManual (pno_core o)))
              (close_flag_ok CloseManual (pno_core o) (pno_ok o))) }.

(** A channel in any stage is work. *)
#[global] Instance PnTunnel_work : TunnelWork PnTunnelObject := fun o =>
  negb (total_channels (pc_life (pno_core o)) =? 0)%nat.

Lemma pn_object_eq o o' :
  pno_tunnel_id o = pno_tunnel_id o' -> pno_candidate_id o = pno_candidate_id o' -> pno_remote_id o = pno_remote_id o' ->
  pno_core o = pno_core o' -> o = o'.
Proof. destruct o, o'. simpl. intros -> -> -> ->. f_equal. apply eq_pi. apply _. Qed.

#[global] Instance PnTunnel_laws : TunnelLaws PnTunnelObject.
Proof.
  split.
  - intros now d o Hb. unfold tn_busy, PnTunnel_work in Hb. bool_to_prop.
    assert (pn_try_retire_idle now d (pno_core o) = (false, pno_core o)) as H.
    { unfold pn_try_retire_idle. rewrite Hb. by rewrite andb_false_r. }
    unfold tn_try_retire. simpl. f_equal; [by rewrite H|]. apply pn_object_eq; try done. simpl. by rewrite H.
  - done.
  - done.
  - intros o. simpl. pose proof (pno_ok o) as H. unfold flag_ok, close_with_reason, close_lifecycle_locked in *.
    destruct (lf_status (pc_life (pno_core o))) eqn:E; simpl in *; try done; by apply Bool.eqb_prop in H.
Qed.

(** ** Concrete runs *)
Lemma pn_channel_accounting_witness :
  let t := mark_control_ready 1000 5 (core_new 1000 5 0 LsOpeningControl (Some 10)) in
  let t' := snd (open_pn_channel 1000 6 true (Ok tt) (Ok tt) t) in
  (active_channels (pc_life t'), pending_channels (pc_life t')) = (1%nat, O).
Proof.
  pose proof (pn_channel_accounting 1000 6 true (Ok tt) (Ok tt) (ResSuccess, None) (Ok tt)
    (mark_control_ready 1000 5 (core_new 1000 5 0 LsOpeningControl (Some 10))) (Ok tt)
    (snd (open_pn_channel 1000 6 true (Ok tt) (Ok tt) (mark_control_ready 1000 5 (core_new 1000 5 0 LsOpeningControl (Some 10))))))
    as [H _].
  exact (H ltac:(vm_compute; reflexivity)).
Defined.

Module RegistryDemo.
Definition key : PnTunnelKey := (mkP2pId [4], 7).
Definition s0 : PnShared := mkShared ∅ (fun _ => true) (fun _ => false).
(** Tunnel 1 is registered and closed; tunnel 2 takes its place before the
    cleanup of tunnel 1 runs. *)
Definition s1 := snd (register_control_tunnel_if_absent key 1 s0).
Definition s2 := mkShared (sh_tunnels s1) (tn_alive s1) (<[1%nat := true]> (tn_flag s1)).
Definition s3 := snd (register_passive_control_tunnel key 2 s2).
Definition s4 := unregister_tunnel key 1 s3.
Definition world : reg_world := mkReg s4 ({[2%nat]} ∪ ({[1%nat]} ∪ ∅)).

Lemma demo_registry_reachable : rtc (reg_step (fun _ => key)) (mkReg s0 ∅) world.
Proof.
  eapply rtc_l; [by apply (rg_active (fun _ => key) 1 s0 s1)|].
  eapply rtc_l; [apply (rg_close (fun _ => key) 1)|].
  eapply rtc_l; [by apply (rg_passive (fun _ => key) 2 s2 s3)|].
  eapply rtc_l; [by apply (rg_finish (fun _ => key) 1 s3)|]. apply rtc_refl.
Qed.
End RegistryDemo.

Lemma pn_registry_exact_witness :
  fst (pn_get_tunnel RegistryDemo.key (rg_shared RegistryDemo.world)) = Some 2%nat /\
  (1%nat ∈ rg_registered RegistryDemo.world -> tunnel_live (rg_shared RegistryDemo.world) 1 ->
   RegistryDemo.key = RegistryDemo.key -> 1%nat = 2%nat).
Proof.
  apply (pn_registry_exact (fun _ => RegistryDemo.key) RegistryDemo.s0 RegistryDemo.world 2 1 RegistryDemo.demo_registry_reachable).
  - apply (bool_decide_unpack _). vm_compute. exact I.
  - split; vm_compute; reflexivity.
Defined.
