(* ===== verification/SnEndpoints.v ===== *)
(** * The endpoints an SN hands out, its call dedup and its probe configuration
      (src/p2p-frame/src/sn/service/service.rs, call_stub.rs)

    Lists of endpoints without repetition, the check of the endpoints a client
    reports, the candidates derived from the addresses an SN observes, the
    table that suppresses repeated calls, and the check of the probe ports.
    The equality of endpoints ignores their area. *)

From S2P Require Import Prelude.
From S2P Require Import Errors.
From S2P Require Import Ids.
From S2P Require Import Endpoint.
From S2P Require Import NatType.
From S2P Require Import SnProtocol.
From S2P Require Import NatProbeScheduler.

Definition MAX_REPORTED_LOCAL_ENDPOINTS : nat := 32.

(** ** Lists without repetition *)

(** [endpoints.contains(&endpoint)]. *)
Definition contains_endpoint (endpoints : list Endpoint) (ep : Endpoint) : bool :=
  existsb (fun e => ep_eqb e ep) endpoints.

Definition push_unique_endpoint (endpoints : list Endpoint) (ep : Endpoint) : list Endpoint :=
  if contains_endpoint endpoints ep then endpoints else endpoints ++ [ep].
Definition extend_unique_endpoints (endpoints extras : list Endpoint) : list Endpoint :=
  foldl push_unique_endpoint endpoints extras.
Definition dedup_endpoints (endpoints : list Endpoint) : list Endpoint :=
  foldl push_unique_endpoint [] endpoints.

(** ** What a client reports *)

(** The area an SN gives to a reported address, [None] when it drops it. *)
Definition reported_area (observed_ip : option IpAddr) (ep : Endpoint) : option EndpointArea :=
  if match addr ep with V4 ip _ => v4_is_private ip || v4_is_link_local ip | _ => false end then Some Lan
  else if bool_decide (classify_reported_ipv6_area (addr ep) = Some Lan) then Some Lan
  else if bool_decide (classify_reported_ipv6_area (addr ep) = Some Wan) then Some Wan
  else if is_non_lan_ipv4_addr (addr ep) && bool_decide (observed_ip = Some (ip_of (addr ep)))
  then Some Wan
  else None.

Definition dialable (ep : Endpoint) : bool :=
  match protocol ep with Tcp | Quic => true | Ext _ => false end && negb (port_of (addr ep) =? 0).

Definition sanitize_step (observed_ip : option IpAddr) (sanitized : list Endpoint) (ep : Endpoint)
    : list Endpoint :=
  if negb (dialable ep) then sanitized
  else match reported_area observed_ip ep with
       | Some a => push_unique_endpoint sanitized (set_area a ep)
       | None => sanitized
       end.

Definition sanitize_reported_endpoints (endpoints : list Endpoint) (observed_tunnel : option Endpoint)
    : P2pResult (list Endpoint) :=
  if (MAX_REPORTED_LOCAL_ENDPOINTS <? length endpoints)%nat then Err P2pErrorCode.OutOfLimit
  else Ok (foldl (sanitize_step ((fun ep => ip_of (addr ep)) <$> observed_tunnel)) [] endpoints).

(** ** What an SN observes *)

Definition classify_observed_endpoint (reported_eps : list Endpoint) (ep : Endpoint) : Endpoint :=
  if existsb (fun r => bool_decide (protocol r = protocol ep) && bool_decide (addr r = addr ep)) reported_eps
  then set_area Wan ep else set_area ServerReflexive ep.

Definition mapped_endpoint_from_observed (ep : Endpoint) (p : Protocol) (port : Z) : Endpoint :=
  set_area Mapped (endpoint_from_ip p (ip_of (addr ep)) port).

Definition is_direct_observed_candidate (ep : Endpoint) : bool := negb (bool_decide (protocol ep = Tcp)).

(** The mapped endpoints of all observed addresses, in the order of the two
    nested loops. *)
Definition mapped_step (remote_ep : list Endpoint) (map_eps : list Endpoint) (map_ep : Endpoint)
    : list Endpoint :=
  if contains_endpoint remote_ep map_ep || contains_endpoint map_eps map_ep then map_eps
  else map_eps ++ [map_ep].
Definition mapped_pairs (observed_ep : list Endpoint) (map_ports : list (Protocol * Z)) : list Endpoint :=
  ep ← observed_ep; (fun '(p, port) => mapped_endpoint_from_observed ep p port) <$> map_ports.

Definition observed_endpoint_candidates (observed_ep : list Endpoint) (map_ports : list (Protocol * Z))
    (reported_eps : list Endpoint) : list Endpoint :=
  let remote_ep := classify_observed_endpoint reported_eps <$>
    List.filter is_direct_observed_candidate observed_ep in
  let map_eps := foldl (mapped_step remote_ep) [] (mapped_pairs observed_ep map_ports) in
  extend_unique_endpoints remote_ep map_eps.

(** ** Repeated calls (call_stub.rs) *)

Record CallStub := mkStub { last_recycle : Timestamp; stubs : gmap (P2pId * TunnelId) Timestamp }.

Definition call_stub_new (now : Timestamp) : CallStub := mkStub now ∅.

(** [true] when the pair was not there. *)
Definition call_stub_insert (remote : P2pId) (seq : TunnelId) (now : Timestamp) (s : CallStub)
    : bool * CallStub :=
  (negb (bool_decide (is_Some (stubs s !! (remote, seq)))),
   mkStub (last_recycle s) (<[(remote, seq) := now]> (stubs s))).

Definition older_than_minute (now when : Timestamp) : bool :=
  (when <? now) && (from_secs 60 <? from_micros (now - when)).

(** [after] is the clock read at the end. *)
Definition call_stub_recycle (now after : Timestamp) (s : CallStub) : CallStub :=
  if older_than_minute now (last_recycle s)
  then mkStub after (filter (fun x => older_than_minute now (snd x) = false) (stubs s))
  else s.

(** ** Probe ports *)

(** Some port is 0 or fails to enter the set of ports seen before it. *)
Fixpoint bad_port (unique : gset Z) (ports : list Z) : bool :=
  match ports with
  | [] => false
  | p :: ports => if (p =? 0) || bool_decide (p ∈ unique) then true else bad_port ({[p]} ∪ unique) ports
  end.

Definition validate_nat_probe_config (ports : list Z) : P2pResult unit :=
  if bool_decide (ports = []) then Ok tt
  else if (length ports <? 2)%nat || (MAX_NAT_PROBE_ENDPOINTS <? length ports)%nat
  then Err P2pErrorCode.InvalidParam
  else if bad_port ∅ ports then Err P2pErrorCode.InvalidParam
  else Ok tt.

(** ** Facts about lists of endpoints *)

(** What the equality of endpoints compares. *)
Definition ep_key (ep : Endpoint) : Protocol * SocketAddr := (protocol ep, addr ep).

Lemma contains_endpoint_key l ep : contains_endpoint l ep = true <-> ep_key ep ∈ ep_key <$> l.
Proof.
  unfold contains_endpoint, ep_eqb. rewrite existsb_exists, list_elem_of_fmap. split.
  - intros (e & He & Hk). bool_to_prop. exists e. rewrite list_elem_of_In. split; [|done].
    unfold ep_key. congruence.
  - intros (e & Hk & He). exists e. rewrite list_elem_of_In in He. split; [done|].
    unfold ep_key in Hk. simplify_eq. apply andb_true_iff. split; by apply bool_decide_eq_true_2.
Qed.

Lemma push_unique_keys l ep :
  ep_key <$> push_unique_endpoint l ep
  = if decide (ep_key ep ∈ ep_key <$> l) then ep_key <$> l else (ep_key <$> l) ++ [ep_key ep].
Proof.
  unfold push_unique_endpoint. destruct (contains_endpoint l ep) eqn:E.
  - apply contains_endpoint_key in E. by rewrite decide_True.
  - rewrite decide_False; [by rewrite fmap_app|]. rewrite <-contains_endpoint_key. congruence.
Qed.

Lemma push_unique_prefix l ep : l `prefix_of` push_unique_endpoint l ep.
Proof. unfold push_unique_endpoint. case_match; [done|]. by apply prefix_app_r. Qed.

Lemma push_unique_elem l ep e : e ∈ push_unique_endpoint l ep -> e ∈ l \/ e = ep.
Proof. unfold push_unique_endpoint. case_match; [auto|]. set_solver. Qed.

Lemma push_unique_NoDup l ep : NoDup (ep_key <$> l) -> NoDup (ep_key <$> push_unique_endpoint l ep).
Proof.
  intros Hl. rewrite push_unique_keys. case_decide; [done|]. apply NoDup_app. split; [done|].
  split; [|apply NoDup_singleton]. by intros k Hk ->%list_elem_of_singleton.
Qed.

Lemma push_unique_has l ep k :
  k ∈ ep_key <$> push_unique_endpoint l ep <-> k ∈ ep_key <$> l \/ k = ep_key ep.
Proof.
  rewrite push_unique_keys. generalize (ep_key <$> l) (ep_key ep). intros ks k'.
  case_decide; set_solver.
Qed.

(** Extending keeps the list as a prefix, adds each new endpoint once and
    nothing else. *)
Lemma extend_unique_spec l xs :
  l `prefix_of` extend_unique_endpoints l xs
  /\ (NoDup (ep_key <$> l) -> NoDup (ep_key <$> extend_unique_endpoints l xs))
  /\ (forall k, k ∈ ep_key <$> extend_unique_endpoints l xs <-> k ∈ ep_key <$> l \/ k ∈ ep_key <$> xs)
  /\ (forall e, e ∈ extend_unique_endpoints l xs -> e ∈ l \/ e ∈ xs).
Proof.
  unfold extend_unique_endpoints. revert l. induction xs as [|x xs IH]; intros l; simpl.
  - split_and!; [done|done|by intros k; rewrite elem_of_nil; naive_solver|auto].
  - destruct (IH (push_unique_endpoint l x)) as (Hp & Hn & Hk & He). split_and!.
    + etrans; [apply push_unique_prefix|done].
    + intros Hl. apply Hn. by apply push_unique_NoDup.
    + intros k. rewrite Hk, push_unique_has, elem_of_cons. naive_solver.
    + intros e Hin. apply He in Hin as [Hin%push_unique_elem|Hin]; set_solver.
Qed.

(** ** Reported endpoints *)

(** The area depends on the address alone. *)
Lemma reported_area_set_area ip a ep : reported_area ip (set_area a ep) = reported_area ip ep.
Proof. done. Qed.

Lemma reported_area_v4 oip ep v4 port :
  addr ep = V4 v4 port ->
  reported_area oip ep
  = if v4_is_private v4 || v4_is_link_local v4 then Some Lan
    else if is_non_lan_ipv4_addr (addr ep) && bool_decide (oip = Some (IpV4 v4)) then Some Wan else None.
Proof. intros He. unfold reported_area. rewrite He. done. Qed.

Lemma sanitize_loop_spec ip eps acc :
  (forall e, e ∈ acc -> dialable e = true /\ reported_area ip e = Some (area e)) ->
  NoDup (ep_key <$> acc) ->
  let out := foldl (sanitize_step ip) acc eps in
  NoDup (ep_key <$> out)
  /\ (length out <= length acc + length eps)%nat
  /\ (forall e, e ∈ out -> dialable e = true /\ reported_area ip e = Some (area e))
  /\ (forall k, k ∈ ep_key <$> out <->
        k ∈ ep_key <$> acc
        \/ exists r, r ∈ eps /\ ep_key r = k /\ dialable r = true /\ is_Some (reported_area ip r)).
Proof.
  revert acc. induction eps as [|r eps IH]; intros acc Hacc Hn; simpl.
  - split_and!; [done|lia|done|]. intros k. split; [by left|]. intros [?|(r & ?%elem_of_nil & _)]; done.
  - assert (Hstep : let acc' := sanitize_step ip acc r in
      (forall e, e ∈ acc' -> dialable e = true /\ reported_area ip e = Some (area e))
      /\ NoDup (ep_key <$> acc') /\ (length acc' <= S (length acc))%nat
      /\ forall k, k ∈ ep_key <$> acc' <->
           k ∈ ep_key <$> acc \/ (ep_key r = k /\ dialable r = true /\ is_Some (reported_area ip r))).
    { unfold sanitize_step. destruct (dialable r) eqn:Hd; simpl; [|naive_solver lia].
      destruct (reported_area ip r) as [a|] eqn:Ha; [|split_and!; [done|done|lia|]; intros k;
        split; [by left|]; intros [?|(_ & _ & [])]; done].
      split_and!; [|by apply push_unique_NoDup| |].
      - intros e [He| ->]%push_unique_elem; [by apply Hacc|]. rewrite reported_area_set_area. done.
      - unfold push_unique_endpoint. case_match; [lia|]. rewrite length_app. simpl. lia.
      - intros k. rewrite push_unique_has. change (ep_key (set_area a r)) with (ep_key r).
        split; intros [?|?]; [by left|right; by eauto|by left|right; by destruct H]. }
    destruct Hstep as (H1 & H2 & H3 & H4). destruct (IH _ H1 H2) as (G1 & G2 & G3 & G4).
    split_and!; [done|lia|done|]. intros k. rewrite G4, H4. setoid_rewrite elem_of_cons. naive_solver.
Qed.

(** An SN keeps from a client's report only what it may hand to other
    peers: more than 32 endpoints are an error; otherwise the result has no
    repetition and consists exactly of the reported endpoints with a dialable
    protocol and port whose address has an area, which replaces the area the
    client claimed.  A public IPv4 address is kept only when the SN saw the
    client behind that very address. *)
Theorem sanitized_endpoints_sound eps observed :
  match sanitize_reported_endpoints eps observed with
  | Err e => e = P2pErrorCode.OutOfLimit /\ (MAX_REPORTED_LOCAL_ENDPOINTS < length eps)%nat
  | Ok out =>
      (length out <= MAX_REPORTED_LOCAL_ENDPOINTS)%nat
      /\ NoDup (ep_key <$> out)
      /\ (forall e, e ∈ out ->
            (protocol e = Tcp \/ protocol e = Quic) /\ port_of (addr e) <> 0
            /\ (area e = Lan \/ area e = Wan)
            /\ (forall ip port, addr e = V4 ip port -> area e = Wan ->
                  exists o, observed = Some o /\ ip_of (addr o) = IpV4 ip
                    /\ is_non_lan_ipv4_addr (addr e) = true)
            /\ (forall ip port, addr e = V4 ip port -> area e = Lan ->
                  v4_is_private ip = true \/ v4_is_link_local ip = true))
      /\ (forall k, k ∈ ep_key <$> out <->
            exists r, r ∈ eps /\ ep_key r = k /\ dialable r = true
              /\ is_Some (reported_area ((fun o => ip_of (addr o)) <$> observed) r))
  end.
Proof.
  unfold sanitize_reported_endpoints. destruct (_ <? _)%nat eqn:E.
  { apply Nat.ltb_lt in E. done. }
  apply Nat.ltb_ge in E. set (ip := _ <$> observed).
  destruct (sanitize_loop_spec ip eps []) as (H1 & H2 & H3 & H4); [by intros e ?%elem_of_nil|constructor|].
  simpl in H2. split_and!; [lia|done| |].
  - intros e He. destruct (H3 e He) as [Hd Ha]. clear H1 H2 H3 H4 He.
    unfold dialable in Hd. apply andb_true_iff in Hd as [Hp Hport]. bool_to_prop. split_and!.
    + destruct (protocol e); naive_solver.
    + done.
    + unfold reported_area in Ha. repeat case_match; simplify_eq; auto.
    + intros v4 port He Hw. rewrite (reported_area_v4 _ _ _ _ He), Hw in Ha.
      destruct (_ || _); [done|]. destruct (_ && _) eqn:Ew; [|done]. apply andb_true_iff in Ew as [Hnl Ho].
      bool_to_prop. unfold ip in Ho. destruct observed as [o|]; simplify_eq/=. eauto.
    + intros v4 port He Hl. rewrite (reported_area_v4 _ _ _ _ He), Hl in Ha.
      destruct (_ || _) eqn:Ep; [by apply orb_true_iff|]. by destruct (_ && _).
  - intros k. rewrite H4. split; [|auto]. intros [?%elem_of_nil|?]; done.
Qed.

(** ** Observed candidates *)

Lemma mapped_fold_keys remote eps acc k :
  k ∈ ep_key <$> foldl (mapped_step remote) acc eps \/ k ∈ ep_key <$> remote <->
  (k ∈ ep_key <$> acc \/ k ∈ ep_key <$> eps) \/ k ∈ ep_key <$> remote.
Proof.
  revert acc. induction eps as [|x eps IH]; intros acc; simpl; [rewrite elem_of_nil; tauto|].
  rewrite IH, elem_of_cons. unfold mapped_step. destruct (_ || _) eqn:E.
  - apply orb_true_iff in E as [E|E]; apply contains_endpoint_key in E; naive_solver.
  - rewrite fmap_app, elem_of_app. simpl. rewrite list_elem_of_singleton. tauto.
Qed.

Lemma mapped_fold_elem remote eps acc e :
  e ∈ foldl (mapped_step remote) acc eps -> e ∈ acc \/ e ∈ eps.
Proof.
  revert acc. induction eps as [|x eps IH]; intros acc; simpl; [auto|]. intros [H|H]%IH.
  - revert H. unfold mapped_step. case_match; set_solver.
  - set_solver.
Qed.

Lemma classify_key reported o : ep_key (classify_observed_endpoint reported o) = ep_key o.
Proof. unfold classify_observed_endpoint. by case_match. Qed.

Lemma classify_area reported o :
  area (classify_observed_endpoint reported o)
  = if decide (ep_key o ∈ ep_key <$> reported) then Wan else ServerReflexive.
Proof.
  unfold classify_observed_endpoint. destruct (existsb _ reported) eqn:E; simpl.
  - rewrite decide_True; [done|]. apply (proj1 (contains_endpoint_key _ _)).
    apply existsb_exists in E as (r & Hr & E). apply existsb_exists. eauto.
  - rewrite decide_False; [done|]. rewrite <-contains_endpoint_key. unfold contains_endpoint.
    intros (r & Hr & Ek)%existsb_exists. apply not_true_iff_false in E.
    apply E, existsb_exists. eauto.
Qed.

Lemma direct_elem observed o :
  o ∈ List.filter is_direct_observed_candidate observed <-> o ∈ observed /\ protocol o <> Tcp.
Proof.
  rewrite !list_elem_of_In, filter_In. unfold is_direct_observed_candidate.
  by rewrite negb_true_iff, bool_decide_eq_false.
Qed.

Lemma classified_keys reported observed :
  ep_key <$> (classify_observed_endpoint reported <$> List.filter is_direct_observed_candidate observed)
  = ep_key <$> List.filter is_direct_observed_candidate observed.
Proof. rewrite <-list_fmap_compose. apply list_fmap_ext. intros i o _. apply classify_key. Qed.

Lemma direct_keys_NoDup observed :
  NoDup (ep_key <$> observed) -> NoDup (ep_key <$> List.filter is_direct_observed_candidate observed).
Proof.
  induction observed as [|o os IH]; simpl; [done|]. intros [Ho Hos]%NoDup_cons.
  case_match; [|by apply IH]. simpl. apply NoDup_cons. split; [|by apply IH].
  intros (e & Hk & [He _]%direct_elem)%list_elem_of_fmap. apply Ho. rewrite Hk.
  apply list_elem_of_fmap. eauto.
Qed.

Lemma mapped_pairs_elem observed map_ports e :
  e ∈ mapped_pairs observed map_ports <->
  exists o p port, o ∈ observed /\ (p, port) ∈ map_ports /\ e = mapped_endpoint_from_observed o p port.
Proof.
  unfold mapped_pairs. rewrite list_elem_of_bind. split.
  - intros (o & He & Ho). apply list_elem_of_fmap in He as ([p port] & -> & Hp). eauto 10.
  - intros (o & p & port & Ho & Hp & ->). exists o. split; [|done]. apply list_elem_of_fmap.
    by exists (p, port).
Qed.

(** The candidates of an observed peer are its observed addresses, other
    than those of TCP connections, and the mapped ports on every observed IP,
    each once; a mapped port is marked as such unless it is one of the
    observed addresses, and an observed address counts as reachable exactly
    when the peer reported it. *)
Theorem observed_candidates_spec observed map_ports reported :
  NoDup (ep_key <$> observed) ->
  let out := observed_endpoint_candidates observed map_ports reported in
  NoDup (ep_key <$> out)
  /\ (forall k, k ∈ ep_key <$> out <->
        (exists o, o ∈ observed /\ protocol o <> Tcp /\ k = ep_key o)
        \/ (exists o p port, o ∈ observed /\ (p, port) ∈ map_ports
              /\ k = ep_key (mapped_endpoint_from_observed o p port)))
  /\ (forall e, e ∈ out ->
        (area e = Mapped /\ exists o, o ∈ observed /\ ip_of (addr e) = ip_of (addr o))
        \/ (protocol e <> Tcp /\ ep_key e ∈ ep_key <$> observed
            /\ area e = if decide (ep_key e ∈ ep_key <$> reported) then Wan else ServerReflexive)).
Proof.
  intros Hn. unfold observed_endpoint_candidates. set (remote := _ <$> List.filter _ _).
  set (maps := foldl _ _ _). destruct (extend_unique_spec remote maps) as (_ & H1 & H2 & H3). split_and!.
  - apply H1. unfold remote. rewrite classified_keys. by apply direct_keys_NoDup.
  - intros k. rewrite H2, Logic.or_comm. unfold maps. rewrite mapped_fold_keys.
    unfold remote. rewrite classified_keys. simpl. rewrite elem_of_nil, !list_elem_of_fmap.
    setoid_rewrite direct_elem. setoid_rewrite mapped_pairs_elem. naive_solver.
  - intros e [He|He]%H3.
    + right. apply list_elem_of_fmap in He as (o & -> & [Ho Hp]%direct_elem).
      rewrite classify_key, classify_area. split_and!; [|apply list_elem_of_fmap; eauto|done].
      unfold classify_observed_endpoint. by case_match.
    + apply mapped_fold_elem in He as [?%elem_of_nil|He]; [done|]. left.
      apply mapped_pairs_elem in He as (o & p & port & Ho & _ & ->). split; [done|]. exists o.
      split; [done|]. unfold mapped_endpoint_from_observed. simpl. by destruct (ip_of (addr o)).
Qed.

(** ** Repeated calls *)

(** A call is delivered once per caller and tunnel id until the entry is
    recycled, which takes more than a minute without a repetition. *)
Lemma call_stub_first r q now s :
  fst (call_stub_insert r q now s) = true <-> stubs s !! (r, q) = None.
Proof. simpl. rewrite negb_true_iff, bool_decide_eq_false. by rewrite eq_None_not_Some. Qed.

Lemma call_stub_repeat r q now now' s : fst (call_stub_insert r q now' (snd (call_stub_insert r q now s))) = false.
Proof. simpl. rewrite lookup_insert_eq. by rewrite bool_decide_eq_true_2 by eauto. Qed.

Lemma recycle_keeps_recent now after s k when :
  stubs s !! k = Some when -> now <= when + 60 * 1000000 ->
  stubs (call_stub_recycle now after s) !! k = Some when.
Proof.
  intros Hk Hw. unfold call_stub_recycle. case_match; [|done]. simpl. apply map_lookup_filter_Some.
  split; [done|]. unfold older_than_minute, from_secs, from_micros. simpl.
  apply andb_false_iff. destruct (Z_lt_le_dec when now); [right|left]; apply Z.ltb_ge; lia.
Qed.

(** ** Probe ports *)

Lemma bad_port_spec unique ports :
  bad_port unique ports = false <->
  Forall (fun p => p <> 0) ports /\ NoDup ports /\ forall p, p ∈ ports -> p ∉ unique.
Proof.
  revert unique. induction ports as [|p ports IH]; intros unique; simpl.
  - split; [intros _|done]. split_and!; [constructor..|]. by intros p ?%elem_of_nil.
  - rewrite Forall_cons, NoDup_cons. destruct (_ || _) eqn:E.
    + split; [done|]. intros ((Hp & _) & _ & Hu). apply orb_true_iff in E as [E|E]; bool_to_prop; [done|].
      exfalso. apply (Hu p); [left|done].
    + apply orb_false_iff in E as [E1 E2]. bool_to_prop. rewrite IH. set_solver.
Qed.

Lemma NoDup_adjacent_distinct l : NoDup l -> adjacent_distinct l = true.
Proof.
  induction l as [|x [|y l] IH]; [done..|]. intros [Hx Hl]%NoDup_cons. simpl. apply andb_true_iff.
  split; [|by apply IH]. apply negb_true_iff, Z.eqb_neq. intros ->. apply Hx. left.
Qed.

Lemma ports_valid_sorted ports :
  ports_valid (sort_by Z.leb ports) = true <->
  (2 <= length ports <= MAX_NAT_PROBE_ENDPOINTS)%nat /\ bad_port ∅ ports = false.
Proof.
  assert (Hp : sort_by Z.leb ports ≡ₚ ports) by apply sort_by_perm.
  unfold ports_valid. rewrite bad_port_spec, !andb_true_iff, !Nat.leb_le, forallb_forall, Forall_forall.
  rewrite (Permutation_length Hp). split.
  - intros ((Hlen & Hz) & Ha). split; [done|]. split_and!.
    + intros p Hin. rewrite <-Hp, list_elem_of_In in Hin. apply Hz in Hin. by bool_to_prop.
    + rewrite <-Hp. apply adjacent_distinct_NoDup; [|done].
      apply sort_by_sorted; intros; rewrite ?Z.leb_le in *; lia.
    + set_solver.
  - intros (Hlen & Hz & Hn & _). split_and!; [lia|lia| |].
    + intros p Hin. apply negb_true_iff, Z.eqb_neq, Hz. by rewrite <-Hp, list_elem_of_In.
    + apply NoDup_adjacent_distinct. by rewrite Hp.
Qed.

(** The check of the configured probe ports agrees with the scheduler
    that uses them: a configuration is accepted exactly when the scheduler,
    whatever its state, installs all its ports; every other one is refused
    with [InvalidParam], where the scheduler would silently switch probing
    off. *)
Theorem nat_probe_config_equiv {T : Type} ports (s : NatProbeScheduler T) :
  validate_nat_probe_config ports
  = if decide (sch_ports (snd (set_ports ports s)) = sort_by Z.leb ports)
    then Ok tt else Err P2pErrorCode.InvalidParam.
Proof.
  assert (Hs : sch_ports (snd (set_ports ports s))
    = if ports_valid (sort_by Z.leb ports) then sort_by Z.leb ports else []).
  { unfold set_ports. case_bool_decide as E; simpl; [by rewrite <-E|done]. }
  rewrite Hs. unfold validate_nat_probe_config. case_bool_decide as E; [by subst|].
  assert (Hne : sort_by Z.leb ports <> []).
  { intros H. apply E, length_zero_iff_nil. by rewrite <-(sort_by_length Z.leb), H. }
  pose proof (ports_valid_sorted ports) as Hv. destruct (ports_valid _).
  - rewrite decide_True by done. destruct Hv as [[Hl Hb] _]; [done|]. rewrite Hb.
    destruct (_ || _) eqn:Eo; [|done]. apply orb_true_iff in Eo as [Eo|Eo]; apply Nat.ltb_lt in Eo; lia.
  - rewrite decide_False by done. destruct (_ || _) eqn:Eo; [done|]. apply orb_false_iff in Eo as [E1 E2].
    apply Nat.ltb_ge in E1, E2. destruct (bad_port ∅ ports); [done|]. exfalso. by assert (false = true) by (apply Hv; auto).
Qed.
