(* ===== verification/SnService.v ===== *)
(** * The SN service (src/p2p-frame/src/sn/service/service.rs)

    The handlers of a super node: reports, queries, calls and rendezvous
    requests of clients, the commands of other SNs, and the maintenance of NAT
    probing.  They compose the peer cache ([PeerManager]), the probe scheduler,
    the rendezvous table, the call dedup and the endpoint lists.

    A handler awaits between its locked regions.  What it reads there is an
    argument of its definition: the command streams of a peer with their remote
    endpoints (a separate argument for every reading), the clock, the answers of
    the owner directory and of other SNs.  Certificates, validators and the
    command server are parameters.  The identifier [PeerId] of the command
    server holds the bytes of the [P2pId].  [None] is a panic. *)

From S2P Require Import PnServer.
From S2P Require Import Prelude.
From S2P Require Import Errors.
From S2P Require Import Ids.
From S2P Require Import Endpoint.
From S2P Require Import NatType.
From S2P Require Import SnProtocol.
From S2P Require Import Rendezvous.
From S2P Require Import Membership.
From S2P Require Import NatProbeScheduler.
From S2P Require Import SnExtension.
From S2P Require Import PeerManager.
From S2P Require Import SnEndpoints.

(** ** Interfaces *)

(** The traits [P2pIdentityCertFactory] and [P2pIdentityCert]. *)
Class CertOps (Cert : Type) := {
  cert_create : list Z -> P2pResult Cert;
  cert_get_id : Cert -> P2pId;
  cert_endpoints : Cert -> list Endpoint;
  cert_encoded : Cert -> P2pResult (list Z);
}.

(** sn/inter_sn/mod.rs *)
Inductive InterSnCommand :=
| CmdHeartbeat | CmdPublishLease | CmdQueryLease | CmdQueryDetail | CmdRelayCall | CmdRelayRendezvous.

Record ServingPeerDetail := mkServingDetail {
  de_peer_info : list Z;
  de_endpoints : list Endpoint;
  de_net_profile : option NatProfile;
  de_target_protocol_version : option Z;
}.
Record RelayCallOutcome := mkOutcome { oc_accepted : bool; oc_to_peer_info : option (list Z) }.

(** sn/protocol/v0.rs and sn.rs *)
Record SnCallResp := mkCallResp {
  cr_seq : Sequence; cr_sn_peer_id : P2pId; cr_result : Z; cr_to_peer_info : option (list Z) }.
Record SnCalled := mkCalled {
  cd_seq : Sequence;
  cd_sn_peer_id : P2pId;
  cd_to_peer_id : P2pId;
  cd_reverse_endpoint_array : list Endpoint;
  cd_active_pn_list : list P2pId;
  cd_peer_info : list Z;
  cd_tunnel_id : TunnelId;
  cd_call_send_time : Timestamp;
  cd_call_type : TunnelType;
  cd_payload : list Z;
  cd_nat_context : option NatTraversalContext;
}.
Record SnQuery := mkQuery {
  qu_protocol_version : Z; qu_stack_version : Z; qu_seq : Sequence; qu_query_id : P2pId }.
Record SnQueryResp := mkQueryResp {
  qr_seq : Sequence;
  qr_peer_info : option (list Z);
  qr_end_point_array : list Endpoint;
  qr_net_profile : option NatProfile;
  qr_target_protocol_version : option Z;
}.

(** [SnInterClient]: the other SNs. *)
Record SnInterClient := mkInterClient {
  ic_query_detail : P2pId -> P2pId -> P2pResult (option ServingPeerDetail);
  ic_relay_call : P2pId -> SnCall -> P2pResult RelayCallOutcome;
  ic_relay_rendezvous : P2pId -> P2pId -> SnTunnelRendezvousNotify -> P2pResult SnTunnelRendezvousResp;
}.

(** The default method of the trait. *)
Definition default_relay_rendezvous (_ _ : P2pId) (_ : SnTunnelRendezvousNotify)
    : P2pResult SnTunnelRendezvousResp := Err P2pErrorCode.NotSupport.

Record SnConnectionValidateContext := mkSnCtx { sx_client_id : P2pId; sx_client_cert : list Z }.

Definition allow_all_sn_validate (_ : SnConnectionValidateContext) : P2pResult ValidateResult := Ok Accept.

Record RemotePeerDetails := mkRemoteDetails {
  rd_details : list ServingPeerDetail; rd_target_protocol_version : option Z }.

(** ** State *)

Section service.
Context {CmdTunnelId : Type} `{!EqDecision CmdTunnelId} {Cert : Type} `{!CertOps Cert}.

Notation PeerTable := (gmap P2pId (CachedPeerInfo (Cert:=Cert))).
(** The command streams of a peer with their remote endpoints. *)
Notation Streams := (list (CmdTunnelId * Endpoint)).

Record SnService := mkService {
  sv_seq_generator : Z;
  sv_peer_mgr : PeerTable;
  sv_call_stub : CallStub;
  sv_scheduler : NatProbeScheduler CmdTunnelId;
  sv_rendezvous : RendezvousState;
  sv_cursor : Z;
}.

Definition set_seq_generator (g : Z) (s : SnService) : SnService :=
  mkService g (sv_peer_mgr s) (sv_call_stub s) (sv_scheduler s) (sv_rendezvous s) (sv_cursor s).
Definition set_peer_mgr (m : PeerTable) (s : SnService) : SnService :=
  mkService (sv_seq_generator s) m (sv_call_stub s) (sv_scheduler s) (sv_rendezvous s) (sv_cursor s).
Definition set_call_stub (c : CallStub) (s : SnService) : SnService :=
  mkService (sv_seq_generator s) (sv_peer_mgr s) c (sv_scheduler s) (sv_rendezvous s) (sv_cursor s).
Definition set_scheduler (d : NatProbeScheduler CmdTunnelId) (s : SnService) : SnService :=
  mkService (sv_seq_generator s) (sv_peer_mgr s) (sv_call_stub s) d (sv_rendezvous s) (sv_cursor s).
Definition set_rendezvous (r : RendezvousState) (s : SnService) : SnService :=
  mkService (sv_seq_generator s) (sv_peer_mgr s) (sv_call_stub s) (sv_scheduler s) r (sv_cursor s).
Definition set_cursor (c : Z) (s : SnService) : SnService :=
  mkService (sv_seq_generator s) (sv_peer_mgr s) (sv_call_stub s) (sv_scheduler s) (sv_rendezvous s) c.

(** What the service is created with. *)
Context (local_sn_id : option P2pId)
  (connection_validator : SnConnectionValidateContext -> P2pResult ValidateResult)
  (inter_connection_validator : P2pId -> P2pResult ValidateResult)
  (inter_command_validator : P2pId -> InterSnCommand -> P2pId -> P2pResult ValidateResult).
(** The cargo feature and the hash probing of [SnProtocol]. *)
Context (test_real_socket_matrix : bool) (probe : Endpoint -> Endpoint -> bool).

Definition service_new (seq0 : Z) (now : Timestamp) : SnService :=
  mkService seq0 ∅ (call_stub_new now)
    (scheduler_new (default P2pId_default local_sn_id)) rendezvous_state_new 0.

Definition effective_local_sn_id (local_id : P2pId) : P2pId := default local_id local_sn_id.

(** ** Checks *)

Definition validate_connection (ctx : SnConnectionValidateContext) : P2pResult unit :=
  verdict_result (connection_validator ctx).
Definition validate_inter_connection (remote : P2pId) : P2pResult unit :=
  verdict_result (inter_connection_validator remote).
Definition validate_inter_command (remote : P2pId) (c : InterSnCommand) (peer : P2pId) : P2pResult unit :=
  verdict_result (inter_command_validator remote c peer).

Definition validate_context_from_cert (client : P2pId) (client_cert : list Z)
    : P2pResult SnConnectionValidateContext :=
  parsed <-? cert_create client_cert ;;
  if bool_decide (cert_get_id parsed = client) then Ok (mkSnCtx client client_cert)
  else Err P2pErrorCode.PermissionDenied.

Definition client_cert_from_request_or_cache (client : P2pId) (request_cert : option (list Z))
    (s : SnService) : P2pResult (list Z) :=
  match request_cert with
  | Some c => Ok c
  | None => match find_peer client (sv_peer_mgr s) with
            | Some cached => cert_encoded (pi_desc cached)
            | None => Err P2pErrorCode.PermissionDenied
            end
  end.

(** ** What the SN sees of a peer *)

Definition get_peer_observed_ep (streams : Streams) : list Endpoint :=
  foldl (fun remotes remote =>
           if negb test_real_socket_matrix && is_loopback remote then remotes
           else push_unique_endpoint remotes remote) [] (snd <$> streams).

Definition get_peer_wan_ep (streams : Streams) : list Endpoint :=
  set_area Wan <$> List.filter is_direct_observed_candidate (get_peer_observed_ep streams).
Definition get_peer_wan_classied_ep (streams : Streams) (reported_eps : list Endpoint) : list Endpoint :=
  classify_observed_endpoint reported_eps <$> get_peer_wan_ep streams.
Definition get_peer_wan_ep_with_map_port (streams : Streams) (map_ports : list (Protocol * Z))
    (reported_eps : list Endpoint) : list Endpoint :=
  observed_endpoint_candidates (get_peer_observed_ep streams) map_ports reported_eps.

Fixpoint get_peer_tunnel_remote (streams : Streams) (t : CmdTunnelId) : option Endpoint :=
  match streams with
  | [] => None
  | (id, remote) :: streams => if decide (id = t) then Some remote else get_peer_tunnel_remote streams t
  end.

Definition reported_endpoints_for_peer (p : CachedPeerInfo (Cert:=Cert)) : list Endpoint :=
  extend_unique_endpoints (cert_endpoints (pi_desc p)) (pi_local_eps p).

(** The certificate that cannot be encoded hides the peer. *)
Definition local_peer_detail (peer : P2pId) (now : Timestamp) (s : SnService) : option ServingPeerDetail :=
  let net_profile := current_profile peer now (sv_scheduler s) in
  match find_peer peer (sv_peer_mgr s) with
  | Some p =>
      match cert_encoded (pi_desc p) with
      | Ok info => Some (mkServingDetail info (dedup_endpoints (reported_endpoints_for_peer p))
                           net_profile (pi_protocol_version p))
      | Err _ => None
      end
  | None => None
  end.

(** ** NAT probing *)

(** The loop over the peer's streams stops at the first that carries the
    registration. *)
Definition authority_path_present (streams : Streams) (authority : CmdTunnelId)
    (observed : option Endpoint) : bool :=
  existsb (fun '(id, remote) =>
             bool_decide (id = authority)
             || match observed with Some o => same_observed_path o remote | None => false end) streams.

Definition finish_nat_probe_authority_reconcile (peer : P2pId) (authority : CmdTunnelId) (generation : Z)
    (present : bool) (s : SnService) : SnService :=
  if present then s
  else
    let '(removed, d) := remove_peer_if_authority peer authority generation (sv_scheduler s) in
    if removed then set_peer_mgr (snd (invalidate_net_profile peer (sv_peer_mgr s))) (set_scheduler d s)
    else set_scheduler d s.

(** The snapshot and its application with nothing in between. *)
Definition reconcile_nat_probe_authority (peer : P2pId) (streams : Streams) (s : SnService) : SnService :=
  match authority_registration peer (sv_scheduler s) with
  | None => s
  | Some (authority, generation) =>
      finish_nat_probe_authority_reconcile peer authority generation
        (authority_path_present streams authority (authority_observed_endpoint peer (sv_scheduler s))) s
  end.

Definition apply_nat_probe_transition (peer : P2pId) (tr : ProbeTransition) (s : SnService)
    : option NatProbeDirective * SnService :=
  (directive tr,
   match profile_update tr with
   | Some (Some q) => set_peer_mgr (snd (set_net_profile peer q (sv_peer_mgr s))) s
   | Some None => set_peer_mgr (snd (invalidate_net_profile peer (sv_peer_mgr s))) s
   | None => s
   end).

(** The locked region of [observe_nat_probe_control]. *)
Definition observe_control_locked (local_id peer : P2pId) (t : CmdTunnelId) (remote : Endpoint)
    (now : Timestamp) (s : SnService) : ProbeTransition * SnService :=
  let '(tr, d) := observe_control peer t remote now (set_sn_peer_id local_id (sv_scheduler s)) in
  (tr, set_scheduler d s).

Definition observe_nat_probe_control (local_id peer : P2pId) (t : CmdTunnelId) (st1 st2 : Streams)
    (now : Timestamp) (s : SnService) : SnService :=
  let s := reconcile_nat_probe_authority peer st1 s in
  match get_peer_tunnel_remote st2 t with
  | None => s
  | Some remote =>
      let '(tr, s) := observe_control_locked local_id peer t remote now s in
      snd (apply_nat_probe_transition peer tr s)
  end.

(** Invalidating a set of peers; the order does not matter. *)
Definition invalidate_all (affected : gset P2pId) (m : PeerTable) : PeerTable :=
  foldr (fun peer m => snd (invalidate_net_profile peer m)) m (elements affected).

Definition maintain_nat_probe_state (streams_of : P2pId -> Streams) (now : Timestamp) (s : SnService)
    : SnService :=
  let s := foldl (fun s '(peer, _) => reconcile_nat_probe_authority peer (streams_of peer) s) s
             (authorities (sv_scheduler s)) in
  let '(invalidated, d) := expire_due now (sv_scheduler s) in
  set_peer_mgr (invalidate_all invalidated (sv_peer_mgr s)) (set_scheduler d s).

Definition set_nat_probe_ports (ports : list Z) (s : SnService) : SnService :=
  let '(affected, d) := set_ports ports (sv_scheduler s) in
  set_peer_mgr (invalidate_all affected (sv_peer_mgr s)) (set_scheduler d s).

(** [CmdServerEventListener::on_peer_disconnected]; the answers go to the
    waiters of the peer's rendezvous attempts. *)
Definition on_peer_disconnected (peer : P2pId) (s : SnService) : list Answer * SnService :=
  let d := snd (scheduler_remove_peer peer (sv_scheduler s)) in
  let '(out, r) := Rendezvous.remove_peer peer (sv_rendezvous s) in
  (out, set_peer_mgr (remove_peer_info peer (sv_peer_mgr s)) (set_rendezvous r (set_scheduler d s))).

(** ** Reports *)

(** The locked region of [handle_report_sn]: the report itself, then the
    profile the client measured on its own. *)
Definition report_locked {R} (local_id peer : P2pId) (t : CmdTunnelId) (observed : option Endpoint)
    (report : ReportSn R) (now : Timestamp) (d : NatProbeScheduler CmdTunnelId)
    : option ProbeTransition * NatProbeScheduler CmdTunnelId :=
  let '(transition, d) :=
    match observed with
    | Some o =>
        let '(tr, d) := observe_capable_report peer t o (re_nat_probe_control_version report)
          (re_nat_probe_result report) now (set_sn_peer_id local_id d) in
        (Some tr, d)
    | None => (None, d)
    end in
  match re_net_profile report with
  | None => (transition, d)
  | Some q =>
      let '(ptr, d) :=
        match observed with
        | Some o => observe_reported_profile peer t o q now d
        | None => (no_transition, d)
        end in
      if bool_decide (is_Some (profile_update ptr)) then
        (Some match transition with
              | Some tr => mkTransition (directive tr) (profile_update ptr)
              | None => ptr
              end, d)
      else (transition, d)
  end.

(** The tests before anything changes; their result is the address of the
    reporting stream and the endpoints kept.  [local_identity] is the encoded
    certificate of the SN. *)
Definition check_report {R} (local_identity : option (P2pResult (list Z))) (peer : P2pId)
    (t : CmdTunnelId) (report : ReportSn R) (st1 : Streams)
    : P2pResult (list Z * option Endpoint * list Endpoint) :=
  info <-? (match re_peer_info report with Some c => Ok c | None => Err P2pErrorCode.PermissionDenied end) ;;
  ctx <-? validate_context_from_cert peer info ;;
  _ <-? validate_connection ctx ;;
  _ <-? (match re_from_peer_id report with
         | Some from => if bool_decide (from = peer) then Ok tt else Err P2pErrorCode.PermissionDenied
         | None => Ok tt
         end) ;;
  identity <-? (match local_identity with Some i => i | None => Err P2pErrorCode.ErrorState end) ;;
  let observed := get_peer_tunnel_remote st1 t in
  eps <-? sanitize_reported_endpoints (re_local_eps report) observed ;;
  Ok (identity, observed, eps).

(** [option_map] over the certificate with the [unwrap] of its parsing:
    the outer [None] is the panic. *)
Definition create_unwrap (info : option (list Z)) : option (option Cert) :=
  match info with
  | None => Some None
  | Some c => match cert_create c with Ok d => Some (Some d) | Err _ => None end
  end.

Definition handle_report_sn {R Rc} (local_identity : option (P2pResult (list Z))) (local_id peer : P2pId)
    (t : CmdTunnelId) (report : ReportSn R) (st1 st2 st3 : Streams) (t1 now : Timestamp) (s : SnService)
    : option (P2pResult (ReportSnResp Rc) * SnService) :=
  match check_report local_identity peer t report st1 with
  | Err e => Some (Err e, s)
  | Ok (identity, observed, reported_eps) =>
      let remote_ep := get_peer_wan_classied_ep st2 reported_eps in
      device ← create_unwrap (re_peer_info report);
      let s := set_peer_mgr (add_or_update_peer cert_endpoints peer device (re_protocol_version report)
                 (re_map_ports report) reported_eps t1 (sv_peer_mgr s)) s in
      let s := reconcile_nat_probe_authority peer st3 s in
      let '(transition, d) := report_locked local_id peer t observed report now (sv_scheduler s) in
      let s := set_scheduler d s in
      let '(dir, s) :=
        match transition with
        | Some tr => apply_nat_probe_transition peer tr s
        | None => (None, s)
        end in
      Some (Ok (mkReportResp (re_seq report) local_id (P2pErrorCode.as_u8 P2pErrorCode.Ok) (Some identity)
                  remote_ep None (sch_ports d) dir), s)
  end.

(** ** Queries *)

(** A lease that does not yield a version makes the version incomplete. *)
Record DetailAcc := mkAcc {
  ac_details : list ServingPeerDetail; ac_version : option Z; ac_complete : bool }.

Definition detail_step (client : option SnInterClient) (local peer : P2pId) (acc : DetailAcc)
    (lease : ServingLease) : DetailAcc :=
  let incomplete := mkAcc (ac_details acc) (ac_version acc) false in
  if bool_decide (sl_serving_sn_id lease = local) then incomplete
  else match client with
       | None => incomplete
       | Some c =>
           match ic_query_detail c (sl_serving_sn_id lease) peer with
           | Ok (Some detail) =>
               let details := ac_details acc ++ [detail] in
               match de_target_protocol_version detail with
               | None => mkAcc details (ac_version acc) false
               | Some v =>
                   match ac_version acc with
                   | None => mkAcc details (Some v) (ac_complete acc)
                   | Some expected => mkAcc details (Some expected) (ac_complete acc && (expected =? v))
                   end
               end
           | Ok None | Err _ => incomplete
           end
       end.

Definition query_serving_leases (owner : P2pResult (list ServingLease)) : list ServingLease :=
  match owner with Ok leases => leases | Err _ => [] end.

(** [owner] is the answer of the owner directory. *)
Definition query_remote_details (owner : P2pResult (list ServingLease)) (client : option SnInterClient)
    (local peer : P2pId) : RemotePeerDetails :=
  let leases := query_serving_leases owner in
  let acc := foldl (detail_step client local peer) (mkAcc [] None (negb (bool_decide (leases = [])))) leases in
  mkRemoteDetails (ac_details acc) (if ac_complete acc then ac_version acc else None).

Definition extend_with_details (eps : list Endpoint) (details : list ServingPeerDetail) : list Endpoint :=
  foldl (fun eps d => extend_unique_endpoints eps (de_endpoints d)) eps details.

Definition handle_query_sn (owner : P2pResult (list ServingLease)) (client : option SnInterClient)
    (local_id peer : P2pId) (t : CmdTunnelId) (q : SnQuery) (st1 st2 st3 st4 : Streams)
    (t1 now : Timestamp) (s : SnService) : option (SnQueryResp * SnService) :=
  let s := observe_nat_probe_control local_id peer t st1 st2 t1 s in
  let s := reconcile_nat_probe_authority (qu_query_id q) st3 s in
  let local_net_profile := current_profile (qu_query_id q) now (sv_scheduler s) in
  let remote := query_remote_details owner client (effective_local_sn_id local_id) (qu_query_id q) in
  match find_peer (qu_query_id q) (sv_peer_mgr s) with
  | Some device =>
      let eps := get_peer_wan_ep_with_map_port st4 (pi_map_ports device) (reported_endpoints_for_peer device) in
      let eps := extend_unique_endpoints eps (pi_local_eps device) in
      let eps := extend_with_details eps (rd_details remote) in
      match cert_encoded (pi_desc device) with
      | Ok info => Some (mkQueryResp (qu_seq q) (Some info) eps local_net_profile
                           (pi_protocol_version device), s)
      | Err _ => None
      end
  | None =>
      match rd_details remote with
      | first :: _ =>
          Some (mkQueryResp (qu_seq q) (Some (de_peer_info first)) (extend_with_details [] (rd_details remote))
                  (de_net_profile first) (rd_target_protocol_version remote), s)
      | [] => Some (mkQueryResp (qu_seq q) None [] None None, s)
      end
  end.

(** ** Calls *)

(** Sending to all streams of a peer, and the encoding of the message before
    it: the command server and the codec are outside the model. *)
Context (called_to_vec : SnCalled -> option (list Z)) (send_called : P2pId -> list Z -> bool).

Notation Sent := (list (P2pId * SnCalled)).

Definition send_called_req (to : P2pId) (called : SnCalled) : P2pResult Sent :=
  match called_to_vec called with
  | None => Err P2pErrorCode.RawCodecError
  | Some bytes => if send_called to bytes then Ok [(to, called)] else Err P2pErrorCode.IoError
  end.

(** The message for the callee; [extra] are the endpoints the SN adds. *)
Definition called_of (call : SnCall) (seq : Sequence) (sn : P2pId) (info : list Z) (extra : list Endpoint)
    : SnCalled :=
  mkCalled seq sn (sc_to_peer_id call)
    (extend_unique_endpoints (dedup_endpoints (default [] (sc_reverse_endpoint_array call))) extra)
    (default [] (sc_active_pn_list call)) info (sc_tunnel_id call) (sc_send_time call) (sc_call_type call)
    (sc_payload call) (sc_nat_context call).

(** A call that was relayed by another SN. *)
Definition deliver_called_to_local_peer (call : SnCall) (local_sn : P2pId) (now : Timestamp) (s : SnService)
    : P2pResult RelayCallOutcome * Sent * SnService :=
  match find_peer (sc_to_peer_id call) (sv_peer_mgr s) with
  | None => (Ok (mkOutcome false None), [], s)
  | Some to_peer =>
      let to_info := cert_encoded (pi_desc to_peer) in
      match sc_peer_info call with
      | None => (info <-? to_info ;; Ok (mkOutcome false (Some info)), [], s)
      | Some from_info =>
          match cert_create from_info with
          | Err e => (Err e, [], s)
          | Ok from_desc =>
              let '(first, stub) := call_stub_insert (sc_from_peer_id call) (sc_tunnel_id call) now
                (sv_call_stub s) in
              let s := set_call_stub stub s in
              if first && (sc_is_always_call call || negb (pi_is_wan to_peer)) then
                let '(seq, g) := SequenceGenerator_generate (sv_seq_generator s) in
                let s := set_seq_generator g s in
                match cert_encoded from_desc with
                | Err e => (Err e, [], s)
                | Ok info =>
                    match send_called_req (sc_to_peer_id call) (called_of call seq local_sn info []) with
                    | Err e => (Err e, [], s)
                    | Ok sent => (info <-? to_info ;; Ok (mkOutcome true (Some info)), sent, s)
                    end
                end
              else (info <-? to_info ;; Ok (mkOutcome true (Some info)), [], s)
          end
      end
  end.

Fixpoint relay_call_loop (client : option SnInterClient) (local : P2pId) (call : SnCall)
    (leases : list ServingLease) : option SnCallResp :=
  match leases with
  | [] => None
  | lease :: leases =>
      let next := relay_call_loop client local call leases in
      if bool_decide (sl_serving_sn_id lease = local) then next
      else match client with
           | None => next
           | Some c =>
               match ic_relay_call c (sl_serving_sn_id lease) call with
               | Ok outcome =>
                   if oc_accepted outcome then
                     Some (mkCallResp (sc_seq call) local (P2pErrorCode.as_u8 P2pErrorCode.Ok)
                             (oc_to_peer_info outcome))
                   else next
               | Err _ => next
               end
           end
  end.
Definition relay_call_to_serving_sn (owner : P2pResult (list ServingLease)) (client : option SnInterClient)
    (local : P2pId) (call : SnCall) : option SnCallResp :=
  relay_call_loop client local call (query_serving_leases owner).

Definition not_found_resp (call : SnCall) (local_id : P2pId) : SnCallResp :=
  mkCallResp (sc_seq call) local_id (P2pErrorCode.as_u8 P2pErrorCode.NotFound) None.

(** The branch in which caller and callee are known. *)
Definition call_local_peer (local_id : P2pId) (call : SnCall) (from_peer to_peer : CachedPeerInfo (Cert:=Cert))
    (st : Streams) (now : Timestamp) (s : SnService) : option (P2pResult SnCallResp * Sent * SnService) :=
  from_desc ← (match sc_peer_info call with
               | None => Some (Some (pi_desc from_peer))
               | Some _ => create_unwrap (sc_peer_info call)
               end);
  let reverse_eps := extend_unique_endpoints
    (get_peer_wan_ep_with_map_port st (pi_map_ports from_peer) (reported_endpoints_for_peer from_peer))
    (pi_local_eps from_peer) in
  match from_desc with
  | None => Some (Ok (not_found_resp call local_id), [], s)
  | Some from_desc =>
      let '(first, stub) := call_stub_insert (sc_from_peer_id call) (sc_tunnel_id call) now (sv_call_stub s) in
      let s := set_call_stub stub s in
      let answer (sent : P2pResult Sent) (s : SnService) :=
        match sent with
        | Err e => Some (Err e, [], s)
        | Ok sent =>
            match cert_encoded (pi_desc to_peer) with
            | Ok info => Some (Ok (mkCallResp (sc_seq call) local_id (P2pErrorCode.as_u8 P2pErrorCode.Ok)
                                     (Some info)), sent, s)
            | Err _ => None
            end
        end in
      if first && (sc_is_always_call call || negb (pi_is_wan to_peer)) then
        let '(seq, g) := SequenceGenerator_generate (sv_seq_generator s) in
        let s := set_seq_generator g s in
        match cert_encoded from_desc with
        | Err _ => None
        | Ok info => answer (send_called_req (sc_to_peer_id call) (called_of call seq local_id info reverse_eps)) s
        end
      else answer (Ok []) s
  end.

Definition handle_call (owner : P2pResult (list ServingLease)) (client : option SnInterClient)
    (local_id peer : P2pId) (t : CmdTunnelId) (call : SnCall) (st1 st2 st3 st4 : Streams)
    (t1 now : Timestamp) (s : SnService) : option (P2pResult SnCallResp * Sent * SnService) :=
  match
    cert <-? client_cert_from_request_or_cache peer (sc_peer_info call) s ;;
    ctx <-? validate_context_from_cert peer cert ;;
    validate_connection ctx
  with
  | Err e => Some (Err e, [], s)
  | Ok _ =>
      let s := observe_nat_probe_control local_id peer t st1 st2 t1 s in
      let local_sn := effective_local_sn_id local_id in
      let s := reconcile_nat_probe_authority (sc_to_peer_id call) st3 s in
      match find_peer (sc_from_peer_id call) (sv_peer_mgr s) with
      | None => Some (Ok (not_found_resp call local_id), [], s)
      | Some from_peer =>
          match find_peer (sc_to_peer_id call) (sv_peer_mgr s) with
          | Some to_peer => call_local_peer local_id call from_peer to_peer st4 now s
          | None =>
              Some (Ok (default (not_found_resp call local_id)
                          (relay_call_to_serving_sn owner client local_sn call)), [], s)
          end
      end
  end.

(** ** Rendezvous *)

Definition rendezvous_endpoints_owned_by (streams : Streams) (t : CmdTunnelId) (eps : list Endpoint) : bool :=
  if bool_decide (eps = []) then true
  else match get_peer_tunnel_remote streams t with
       | None => false
       | Some o => forallb (fun ep => bool_decide (ip_of (addr ep) = ip_of (addr o))) eps
       end.

Definition validate_rendezvous_response_owner (streams : Streams) (r : SnTunnelRendezvousResp) : P2pResult unit :=
  if bool_decide (rs_predicted_endpoint_array r = []) then Ok tt
  else
    let observed_ips := (fun ep => ip_of (addr ep)) <$> get_peer_observed_ep streams in
    if bool_decide (observed_ips = [])
       || existsb (fun ep => negb (bool_decide (ip_of (addr ep) ∈ observed_ips))) (rs_predicted_endpoint_array r)
    then Err P2pErrorCode.PermissionDenied
    else Ok tt.

(** What asking the target over one stream yields. *)
Inductive QaOutcome :=
| QaResp (r : SnTunnelRendezvousResp) (* an answer that decodes *)
| QaUnreadable (* reading the body failed *)
| QaMalformed (* the body does not decode *)
| QaFailed (* the command server reports an error *)
| QaAborted (* the task died *).

(** Asking over the streams in turn; the streams that failed are shut down. *)
Fixpoint deliver_loop (qa : CmdTunnelId -> QaOutcome) (st : Streams) (notify : SnTunnelRendezvousNotify)
    (order : list CmdTunnelId) (last_err : option P2pErrorCode.t)
    : P2pResult SnTunnelRendezvousResp * list CmdTunnelId :=
  match order with
  | [] => (Err (default P2pErrorCode.NotConnected last_err), [])
  | conn :: order =>
      match qa conn with
      | QaAborted => (Err P2pErrorCode.Aborted, [conn])
      | QaUnreadable => (Err P2pErrorCode.IoError, [])
      | QaMalformed => (Err P2pErrorCode.RawCodecError, [])
      | QaResp r =>
          (_ <-? resp_validate test_real_socket_matrix probe r (nt_seq notify) (nt_need_predict_endpoint notify) ;;
           _ <-? validate_rendezvous_response_owner st r ;;
           Ok r, [])
      | QaFailed =>
          let '(res, closed) := deliver_loop qa st notify order (Some P2pErrorCode.IoError) in
          (res, conn :: closed)
      end
  end.

(** [streams[(start + offset) % streams.len()]] for all offsets. *)
Definition delivery_order (conns : list CmdTunnelId) (start : nat) : list CmdTunnelId :=
  omap (fun offset => conns !! ((start + offset) mod length conns)%nat) (seq 0 (length conns)).

(** [encoded] says whether the notification can be encoded; [st1] are the
    target's streams before, [st2] after the answer. *)
Definition deliver_rendezvous_to_local_peer (encoded : bool) (qa : CmdTunnelId -> QaOutcome) (st1 st2 : Streams)
    (target : P2pId) (notify : SnTunnelRendezvousNotify) (s : SnService)
    : P2pResult SnTunnelRendezvousResp * list CmdTunnelId * SnService :=
  match find_peer target (sv_peer_mgr s) with
  | None => (Err P2pErrorCode.TargetNotFound, [], s)
  | Some _ =>
      if negb encoded then (Err P2pErrorCode.RawCodecError, [], s)
      else
        let conns := fst <$> st1 in
        if bool_decide (conns = []) then (Err P2pErrorCode.NotConnected, [], s)
        else
          let start := Z.to_nat (sv_cursor s mod Z.of_nat (length conns)) in
          let s := set_cursor (wrapping_add_u64 (sv_cursor s) 1) s in
          (deliver_loop qa st2 notify (delivery_order conns start) None, s)
  end.

Fixpoint relay_rendezvous_loop (client : option SnInterClient) (local target : P2pId)
    (notify : SnTunnelRendezvousNotify) (leases : list ServingLease) : P2pResult SnTunnelRendezvousResp :=
  match leases with
  | [] => Err P2pErrorCode.NotFound
  | lease :: leases =>
      let next := relay_rendezvous_loop client local target notify leases in
      if bool_decide (sl_serving_sn_id lease = local) then next
      else match client with
           | None => next
           | Some c =>
               match ic_relay_rendezvous c (sl_serving_sn_id lease) target notify with
               | Ok r =>
                   _ <-? resp_validate test_real_socket_matrix probe r (nt_seq notify)
                           (nt_need_predict_endpoint notify) ;;
                   Ok r
               | Err _ => next
               end
           end
  end.
Definition relay_rendezvous_to_serving_sn (owner : P2pResult (list ServingLease)) (client : option SnInterClient)
    (local target : P2pId) (notify : SnTunnelRendezvousNotify) : P2pResult SnTunnelRendezvousResp :=
  relay_rendezvous_loop client local target notify (query_serving_leases owner).

(** What the leader of an attempt obtains; the whole is under a timeout of
    ten seconds, whose expiry is [None]. *)
Definition leader_outcome (local_result : P2pResult SnTunnelRendezvousResp)
    (relay : P2pResult SnTunnelRendezvousResp) : P2pResult SnTunnelRendezvousResp :=
  match local_result with
  | Err P2pErrorCode.TargetNotFound => relay
  | r => r
  end.

(** [process_rendezvous_request] up to the first await: an answer at once, a
    channel to wait on, or the duty to lead. *)
Inductive Begun := BegunAnswer (r : SnTunnelRendezvousResp) | BegunWait (c : Chan) | BegunLead.

Definition process_begin (initiator : P2pId) (request : SnTunnelRendezvous) (now : Timestamp)
    (z : RendezvousState) : Begun * list Answer * RendezvousState :=
  let '(res, out, z) := begin initiator request now z in
  (match res with
   | Ok (BeginCached r) => BegunAnswer r
   | Ok (BeginInFlight c) => BegunWait c
   | Ok BeginNew => BegunLead
   | Err _ => BegunAnswer (resp_failure (rq_seq request))
   end, out, z).

(** The end of the leader.  Dropping the armed [RendezvousLeaderGuard] fails
    what is unanswered; so does cancelling the leader ([None]).  When the answer
    cannot be cached, the guard takes the lock once more; what may happen in
    between is a step of its own below ([rw_not_cached]). *)
Definition process_finish (initiator : P2pId) (request : SnTunnelRendezvous)
    (outcome : option (P2pResult SnTunnelRendezvousResp)) (now : Timestamp) (z : RendezvousState)
    : SnTunnelRendezvousResp * list Answer * RendezvousState :=
  match outcome with
  | Some (Ok response) =>
      let '(res, out, z) := cache_response test_real_socket_matrix probe initiator request response now z in
      if is_ok res then (response, out, z)
      else
        let '(out', z) := fail_unanswered initiator request z in
        (resp_failure (rq_seq request), out ++ out', z)
  | Some (Err _) | None =>
      let '(out, z) := fail_unanswered initiator request z in
      (resp_failure (rq_seq request), out, z)
  end.

(** [await_inflight_rendezvous]; [None] is the timeout or a dropped sender. *)
Definition await_inflight_rendezvous (seq : Sequence) (answer : option (P2pResult SnTunnelRendezvousResp))
    : SnTunnelRendezvousResp :=
  match answer with
  | Some (Ok r) => r
  | _ => resp_failure seq
  end.

(** [handle_rendezvous] up to the notification it delivers; [None] is the
    failure response.  The scheduler observes the stream only after the
    client is authenticated. *)
Definition prepare_rendezvous (local_id peer : P2pId) (t : CmdTunnelId) (request : SnTunnelRendezvous)
    (st1 st2 st3 : Streams) (t1 : Timestamp) (s : SnService) : option SnTunnelRendezvousNotify * SnService :=
  match
    _ <-? rendezvous_validate test_real_socket_matrix probe request ;;
    _ <-? (if bool_decide (peer = rq_to_peer_id request) then Err P2pErrorCode.InvalidParam else Ok tt) ;;
    cert <-? client_cert_from_request_or_cache peer None s ;;
    ctx <-? validate_context_from_cert peer cert ;;
    _ <-? validate_connection ctx ;;
    Ok cert
  with
  | Err _ => (None, s)
  | Ok cert =>
      let s := observe_nat_probe_control local_id peer t st1 st2 t1 s in
      if negb (rendezvous_endpoints_owned_by st3 t (rq_end_point_array request)) then (None, s)
      else
        let notify := mkNotify (rq_seq request) (rq_tunnel_id request) cert (rq_operation request)
                        (rq_end_point_array request) (rq_need_predict_endpoint request) in
        if is_err (notify_validate test_real_socket_matrix probe notify) then (None, s)
        else (Some notify, s)
  end.

(** ** Commands of other SNs ([InterSnPeer for SnService]) *)

Definition query_detail_from_sn (remote peer : P2pId) (st : Streams) (now : Timestamp) (s : SnService)
    : P2pResult (option ServingPeerDetail) * SnService :=
  match _ <-? validate_inter_connection remote ;; validate_inter_command remote CmdQueryDetail peer with
  | Err e => (Err e, s)
  | Ok _ =>
      let s := reconcile_nat_probe_authority peer st s in
      (Ok (local_peer_detail peer now s), s)
  end.

Definition relay_call_from_sn (remote : P2pId) (call : SnCall) (now : Timestamp) (s : SnService)
    : P2pResult RelayCallOutcome * Sent * SnService :=
  match _ <-? validate_inter_connection remote ;;
        validate_inter_command remote CmdRelayCall (sc_to_peer_id call) with
  | Err e => (Err e, [], s)
  | Ok _ => deliver_called_to_local_peer call (default (sc_sn_peer_id call) local_sn_id) now s
  end.

Definition relay_rendezvous_from_sn (remote target : P2pId) (notify : SnTunnelRendezvousNotify) (encoded : bool)
    (qa : CmdTunnelId -> QaOutcome) (st1 st2 : Streams) (s : SnService)
    : P2pResult SnTunnelRendezvousResp * list CmdTunnelId * SnService :=
  match
    _ <-? validate_inter_connection remote ;;
    _ <-? validate_inter_command remote CmdRelayRendezvous target ;;
    _ <-? notify_validate test_real_socket_matrix probe notify ;;
    initiator <-? cert_create (nt_peer_info notify) ;;
    if bool_decide (cert_get_id initiator = target) then Err P2pErrorCode.PermissionDenied else Ok tt
  with
  | Err e => (Err e, [], s)
  | Ok _ => deliver_rendezvous_to_local_peer encoded qa st1 st2 target notify s
  end.
End service.

Arguments SnService : clear implicits.

(** ** Leaders and waiters

    The rendezvous requests an SN processes at the same time: a request either
    is answered, waits, or leads its attempt until it finishes, fails, times out
    or is cancelled. *)

Section leaders.
Context (test : bool) (probe : Endpoint -> Endpoint -> bool).

Record rz_world := mkRzWorld {
  rw_state : RendezvousState; rw_leaders : list (P2pId * SnTunnelRendezvous) }.

Inductive rw_step : rz_world -> list Answer -> rz_world -> Prop :=
| rw_request i r now z b out z' L :
    process_begin i r now z = (b, out, z') ->
    rw_step (mkRzWorld z L) out (mkRzWorld z' (match b with BegunLead => (i, r) :: L | _ => L end))
| rw_finish i r o now z resp out z' L1 L2 :
    process_finish test probe i r o now z = (resp, out, z') ->
    rw_step (mkRzWorld z (L1 ++ (i, r) :: L2)) out (mkRzWorld z' (L1 ++ L2))
(** the answer could not be cached; the leader's guard, still armed, is dropped
    later, under the lock again *)
| rw_not_cached i r rs now z e out z' L :
    (i, r) ∈ L -> cache_response test probe i r rs now z = (Err e, out, z') ->
    rw_step (mkRzWorld z L) out (mkRzWorld z' L)
| rw_disconnect p z out z' L :
    Rendezvous.remove_peer p z = (out, z') -> rw_step (mkRzWorld z L) out (mkRzWorld z' L).

Inductive rw_run : rz_world -> list Answer -> Prop :=
| rw_start : rw_run (mkRzWorld rendezvous_state_new []) []
| rw_next w out w' out' : rw_run w out -> rw_step w out' w' -> rw_run w' (out ++ out').

(** An attempt without a response is led. *)
Definition led (w : rz_world) : Prop :=
  forall k e, entries (rw_state w) !! k = Some e -> e_response e = None ->
  exists i r, (i, r) ∈ rw_leaders w /\ key_new i r = k /\ rendezvous_eqb (e_request e) r = true.

(** Every step of the processing is a sequence of operations on the table. *)
Lemma process_begin_run i r now z b out z' out0 :
  rz_run test probe z out0 -> process_begin i r now z = (b, out, z') -> rz_run test probe z' (out0 ++ out).
Proof.
  intros Hr H. unfold process_begin in H. destruct (begin i r now z) as [[res out1] z1] eqn:E. simplify_eq.
  eapply rz_next; [done|]. by eapply rz_begin.
Qed.

Lemma fail_unanswered_run i r z out z' out0 :
  rz_run test probe z out0 -> fail_unanswered i r z = (out, z') -> rz_run test probe z' (out0 ++ out).
Proof. intros Hr H. eapply rz_next; [done|]. by eapply rz_fail. Qed.

Lemma process_finish_run i r o now z resp out z' out0 :
  rz_run test probe z out0 -> process_finish test probe i r o now z = (resp, out, z') ->
  rz_run test probe z' (out0 ++ out).
Proof.
  intros Hr H. unfold process_finish in H. destruct o as [[rs|e]|].
  - destruct (cache_response _ _ _ _ _ _ _) as [[res out1] z1] eqn:E1.
    assert (H1 : rz_run test probe z1 (out0 ++ out1)) by (eapply rz_next; [done|by eapply rz_cache]).
    destruct (is_ok res); [by simplify_eq|]. destruct (fail_unanswered i r z1) as [out2 z2] eqn:E2.
    simplify_eq. rewrite app_assoc. by eapply fail_unanswered_run.
  - destruct (fail_unanswered i r z) eqn:E. simplify_eq. by eapply fail_unanswered_run.
  - destruct (fail_unanswered i r z) eqn:E. simplify_eq. by eapply fail_unanswered_run.
Qed.

Lemma rw_run_rz w out : rw_run w out -> rz_run test probe (rw_state w) out.
Proof.
  induction 1 as [|w out w' out' _ IH Hs]; [constructor|]. destruct Hs; simpl in *.
  - by eapply process_begin_run.
  - by eapply process_finish_run.
  - eapply rz_next; [done|]. by eapply rz_cache.
  - eapply rz_next; [done|]. by eapply rz_remove.
Qed.

(** What a step leaves unanswered was so before, or is a new attempt. *)
Lemma begin_unanswered i r now z b out z' k e :
  process_begin i r now z = (b, out, z') -> entries z' !! k = Some e -> e_response e = None ->
  (exists e0, entries z !! k = Some e0 /\ e_response e0 = None /\ e_request e0 = e_request e)
  \/ (b = BegunLead /\ k = key_new i r /\ e_request e = r).
Proof.
  unfold process_begin, begin. destruct (cleanup now z) as [out1 z1] eqn:Ec.
  assert (Hc : entries z1 = filter (live now) (entries z)) by (unfold cleanup in Ec; by simplify_eq).
  assert (Hold : forall z2, entries z2 = entries z1 -> entries z2 !! k = Some e -> e_response e = None ->
    exists e0, entries z !! k = Some e0 /\ e_response e0 = None /\ e_request e0 = e_request e).
  { intros z2 -> Hk Hn. rewrite Hc in Hk. apply map_lookup_filter_Some in Hk as [Hk _]. eauto. }
  intros H Hk Hn. destruct (entries z1 !! key_new i r) as [en|] eqn:Ek.
  - destruct (negb (rendezvous_eqb _ _)); [simplify_eq; left; by eapply Hold|].
    destruct (e_response en) eqn:Er; [simplify_eq; left; by eapply Hold|].
    destruct (_ <=? length _)%nat; simplify_eq; [left; by eapply Hold|]. cbn [entries] in Hk. left.
    destruct (decide (k = key_new i r)) as [->|Hne].
    + rewrite lookup_insert_eq in Hk. simplify_eq. exists en. rewrite Hc in Ek.
      apply map_lookup_filter_Some in Ek as [Ek _]. done.
    + rewrite lookup_insert_ne in Hk by done. by apply (Hold z1).
  - destruct (_ || _); [simplify_eq; left; by eapply Hold|].
    destruct (_ <=? length _)%nat; simplify_eq; [left; by eapply Hold|]. cbn [entries] in Hk.
    destruct (decide (k = key_new i r)) as [->|Hne].
    + rewrite lookup_insert_eq in Hk. simplify_eq. by right.
    + rewrite lookup_insert_ne in Hk by done. left. by apply (Hold z1).
Qed.

Lemma fail_unanswered_settles i r z out z' k e :
  fail_unanswered i r z = (out, z') -> entries z' !! k = Some e -> e_response e = None ->
  entries z !! k = Some e /\ ~ (k = key_new i r /\ rendezvous_eqb (e_request e) r = true).
Proof.
  unfold fail_unanswered. intros H Hk Hn. destruct (entries z !! key_new i r) as [e0|] eqn:E.
  - destruct (_ || _) eqn:Eo; simplify_eq/=.
    + split; [done|]. intros [-> Heq]. rewrite Hk in E. simplify_eq. rewrite Heq, Hn in Eo. done.
    + apply lookup_delete_Some in Hk as [Hne Hk]. split; [done|]. by intros [-> _].
  - simplify_eq. split; [done|]. intros [-> _]. congruence.
Qed.

Lemma cache_response_entries i r rs now z res out z' :
  cache_response test probe i r rs now z = (res, out, z') ->
  match res with
  | Ok _ => exists e, entries z' = <[key_new i r := e]> (entries z) /\ is_Some (e_response e)
  | Err _ => entries z' ⊆ entries z
  end.
Proof.
  unfold cache_response. intros H. destruct (entries z !! key_new i r) as [e|]; [|by simplify_eq].
  destruct (_ <=? now); [simplify_eq; apply delete_subseteq|].
  destruct (negb _); [by simplify_eq|]. destruct (resp_validate _ _ _ _ _); simplify_eq; [|done].
  simpl. eauto.
Qed.

Lemma finish_settles i r o now z resp out z' k e :
  process_finish test probe i r o now z = (resp, out, z') ->
  entries z' !! k = Some e -> e_response e = None ->
  entries z !! k = Some e /\ ~ (k = key_new i r /\ rendezvous_eqb (e_request e) r = true).
Proof.
  unfold process_finish. intros H Hk Hn. destruct o as [[rs|er]|].
  - destruct (cache_response _ _ _ _ _ _ _) as [[res out1] z1] eqn:Ec.
    destruct (is_ok res) eqn:Eok; simplify_eq.
    + apply cache_response_entries in Ec. destruct res as [u|]; [|done]. destruct Ec as (e1 & Hz & He1).
      rewrite Hz in Hk. destruct (decide (k = key_new i r)) as [->|Hne].
      * rewrite lookup_insert_eq in Hk. simplify_eq. rewrite Hn in He1. by destruct He1.
      * rewrite lookup_insert_ne in Hk by done. split; [done|]. by intros [-> _].
    + destruct (fail_unanswered i r z1) as [out2 z2] eqn:Ef. simplify_eq.
      destruct (fail_unanswered_settles _ _ _ _ _ _ _ Ef Hk Hn) as [Hk1 Hne]. split; [|done].
      apply cache_response_entries in Ec. destruct res; [done|]. by eapply lookup_weaken.
  - destruct (fail_unanswered i r z) eqn:E. simplify_eq. by eapply fail_unanswered_settles.
  - destruct (fail_unanswered i r z) eqn:E. simplify_eq. by eapply fail_unanswered_settles.
Qed.

Lemma rw_run_led w out : rw_run w out -> led w.
Proof.
  induction 1 as [|w out w' out' _ IH Hs]; [done|]. intros k e Hk Hn. destruct Hs; simpl in *.
  - destruct (begin_unanswered _ _ _ _ _ _ _ _ _ H Hk Hn) as [(e0 & Hk0 & Hn0 & Hq)|(-> & -> & <-)].
    + destruct (IH k e0 Hk0 Hn0) as (i' & r' & Hin & Hkey & Heq). exists i', r'. rewrite <-Hq.
      split_and!; [|done..]. simpl in *. destruct b; [done|done|by right].
    + exists i, (e_request e). split_and!; [by left|done|apply rendezvous_eqb_refl].
  - destruct (finish_settles _ _ _ _ _ _ _ _ _ _ H Hk Hn) as [Hk0 Hne].
    destruct (IH k e Hk0 Hn) as (i' & r' & Hin & Hkey & Heq). exists i', r'. split_and!; [|done..].
    simpl in Hin. apply elem_of_app in Hin as [Hin|[Hx|Hin]%elem_of_cons]; [set_solver| |set_solver].
    simplify_eq. destruct Hne. done.
  - apply IH; [|done]. apply cache_response_entries in H0. by eapply lookup_weaken.
  - unfold Rendezvous.remove_peer in H. simplify_eq/=. apply map_lookup_filter_Some in Hk as [Hk _]. by apply IH.
Qed.
End leaders.

Lemma pending_none m : map_Forall (fun _ e => e_waiters e = []) m -> pending_of m = [].
Proof.
  intros Hm. unfold pending_of. apply map_Forall_to_list in Hm. revert Hm.
  generalize (map_to_list m). induction 1 as [|[k e] l He _ IH]; [done|]. simpl in *. rewrite He. apply IH.
Qed.

(** C2: no caller of a rendezvous is forgotten: whatever requests, answers,
    errors, timeouts, cancellations and disconnections happen in whatever order,
    an attempt without a response has a leader that works on that very request,
    and once all leaders are done nobody waits: every duplicate request that was
    told to wait has been answered, exactly once. *)
Theorem rendezvous_waiters_led test probe w out :
  rw_run test probe w out ->
  led w
  /\ (rw_leaders w = [] ->
      pending_of (entries (rw_state w)) = [] /\ (fst <$> out) ≡ₚ seq 0 (next_chan (rw_state w))).
Proof.
  intros Hrun. pose proof (rw_run_led _ _ _ _ Hrun) as Hled. split; [done|]. intros HL.
  apply rw_run_rz in Hrun. assert (Hp : pending_of (entries (rw_state w)) = []).
  { apply pending_none. intros k e Hk. apply (eo_answered k e).
    - by apply (ri_entries _ (rz_run_inv _ _ _ _ Hrun)).
    - destruct (e_response e) eqn:Hn; [eauto|]. destruct (Hled k e Hk Hn) as (i & r & Hin & _).
      rewrite HL in Hin. by apply elem_of_nil in Hin. }
  split; [done|]. apply rz_run_conserves in Hrun as [_ Hc]. rewrite Hp in Hc. simpl in Hc.
  by rewrite Nat.sub_0_r in Hc.
Qed.

(** A second request waits while the first leads; the leader times out and
    the waiter is told. *)
Lemma rendezvous_waiters_led_witness :
  exists w out, rw_run false (fun _ _ => true) w out /\ rw_leaders w = [] /\ length out = 1%nat
    /\ pending_of (entries (rw_state w)) = [].
Proof.
  pose (z1 := snd (process_begin (mkP2pId [1]) sample_request 1000 rendezvous_state_new)).
  pose (z2 := snd (process_begin (mkP2pId [1]) sample_request 2000 z1)).
  pose (p3 := process_finish false (fun _ _ => true) (mkP2pId [1]) sample_request None 3000 z2).
  assert (H1 : rw_run false (fun _ _ => true) (mkRzWorld z1 [(mkP2pId [1], sample_request)]) []).
  { apply (rw_next _ _ _ [] _ [] (rw_start _ _)).
    apply (rw_request _ _ (mkP2pId [1]) sample_request 1000 rendezvous_state_new BegunLead). by vm_compute. }
  assert (H2 : rw_run false (fun _ _ => true) (mkRzWorld z2 [(mkP2pId [1], sample_request)]) []).
  { apply (rw_next _ _ _ [] _ [] H1).
    apply (rw_request _ _ (mkP2pId [1]) sample_request 2000 z1 (BegunWait O)). by vm_compute. }
  assert (H3 : rw_run false (fun _ _ => true) (mkRzWorld (snd p3) []) (snd (fst p3))).
  { apply (rw_next _ _ _ [] _ _ H2).
    apply (rw_finish _ _ (mkP2pId [1]) sample_request None 3000 z2 (fst (fst p3)) _ _ [] []). by vm_compute. }
  destruct (rendezvous_waiters_led _ _ _ _ H3) as [_ Hw]. destruct Hw as [Hp _]; [done|].
  eexists _, _. split; [exact H3|]. split; [done|]. split; [by vm_compute|exact Hp].
Defined.

(** ** What an SN answers and whom it disturbs *)

(** A check that fails sends no notification. *)
Ltac no_notify :=
  split; [done|]; intros (? & ? & ? & ? & ? & ? & ? & ? & ? & ? & ? & ?); simplify_eq; congruence.

(** The requests the SN goes on with: the request is well formed, its target is
    another peer, the client's certificate is cached, proves the client's identity
    and is accepted by the validator, and all offered endpoints lie on the address
    of the very stream the request came over; the notification carries that
    certificate and the request unchanged. *)
Lemma prepare_rendezvous_spec {T} `{!EqDecision T} {Cert} `{!CertOps Cert}
    validator test probe local_id peer (t : T) request st1 st2 st3 t1 (s : SnService T Cert) notify :
  fst (prepare_rendezvous validator test probe local_id peer t request st1 st2 st3 t1 s) = Some notify <->
  exists p parsed cert,
    rendezvous_validate test probe request = Ok tt
    /\ peer <> rq_to_peer_id request
    /\ sv_peer_mgr s !! peer = Some p /\ cert_encoded (pi_desc p) = Ok cert
    /\ cert_create cert = Ok parsed /\ cert_get_id parsed = peer
    /\ validator (mkSnCtx peer cert) = Ok Accept
    /\ (rq_end_point_array request = []
        \/ exists o, get_peer_tunnel_remote st3 t = Some o
             /\ forall ep, ep ∈ rq_end_point_array request -> ip_of (addr ep) = ip_of (addr o))
    /\ notify = mkNotify (rq_seq request) (rq_tunnel_id request) cert (rq_operation request)
                  (rq_end_point_array request) (rq_need_predict_endpoint request).
Proof.
  unfold prepare_rendezvous, client_cert_from_request_or_cache, validate_context_from_cert,
    validate_connection, verdict_result, find_peer.
  assert (Hown : rendezvous_endpoints_owned_by st3 t (rq_end_point_array request) = true <->
    rq_end_point_array request = []
    \/ exists o, get_peer_tunnel_remote st3 t = Some o
         /\ forall ep, ep ∈ rq_end_point_array request -> ip_of (addr ep) = ip_of (addr o)).
  { unfold rendezvous_endpoints_owned_by. case_bool_decide as E; [by split; auto|].
    destruct (get_peer_tunnel_remote st3 t) as [o|]; [|naive_solver].
    rewrite forallb_forall. setoid_rewrite <-list_elem_of_In. setoid_rewrite bool_decide_eq_true. naive_solver. }
  setoid_rewrite <-Hown. clear Hown. assert (Hnv : forall cert, notify_validate test probe
      (mkNotify (rq_seq request) (rq_tunnel_id request) cert (rq_operation request)
         (rq_end_point_array request) (rq_need_predict_endpoint request))
    = rendezvous_validate test probe request) by done.
  destruct (rendezvous_validate test probe request) as [[]|e] eqn:Ev; [|naive_solver].
  case_bool_decide as Hne; [no_notify|].
  destruct (sv_peer_mgr s !! peer) as [p|]; [|no_notify].
  destruct (cert_encoded (pi_desc p)) as [cert|] eqn:Ec; [|no_notify].
  destruct (cert_create cert) as [parsed|] eqn:Ep; [|no_notify].
  case_bool_decide as Hid; [|no_notify].
  destruct (validator (mkSnCtx peer cert)) as [[]|] eqn:Ea; [|no_notify..].
  destruct (rendezvous_endpoints_owned_by st3 t _) eqn:Eo; simpl; [|no_notify].
  rewrite Hnv. simpl. split.
  - intros [= <-]. by exists p, parsed, cert.
  - intros (? & ? & ? & ? & ? & ? & ? & ? & ? & ? & ? & ->). simplify_eq. congruence.
Qed.

(** The leader returns the answer of the target only when it is valid for
    this request, and a failure of the same sequence otherwise. *)
Lemma process_finish_answer test probe i r o now z resp out z' :
  process_finish test probe i r o now z = (resp, out, z') ->
  resp = resp_failure (rq_seq r)
  \/ (o = Some (Ok resp) /\ resp_validate test probe resp (rq_seq r) (rq_need_predict_endpoint r) = Ok tt).
Proof.
  unfold process_finish. intros H. destruct o as [[rs|e]|].
  - destruct (cache_response _ _ _ _ _ _ _) as [[res out1] z1] eqn:E. destruct res as [u|]; simpl in H.
    + simplify_eq. right. split; [done|]. unfold cache_response in E.
      destruct (entries z !! _) as [en|]; [|done]. destruct (_ <=? now); [done|]. destruct (negb _); [done|].
      by destruct (resp_validate test probe resp _ _) as [[]|].
    + destruct (fail_unanswered i r z1). simplify_eq. by left.
  - destruct (fail_unanswered i r z). simplify_eq. by left.
  - destruct (fail_unanswered i r z). simplify_eq. by left.
Qed.

(** ** Remote details *)

(** A lease whose serving SN is another one and reports version [v]. *)
Definition lease_reports (client : option SnInterClient) (local peer : P2pId) (v : Z) (l : ServingLease) : Prop :=
  sl_serving_sn_id l <> local
  /\ exists c detail, client = Some c /\ ic_query_detail c (sl_serving_sn_id l) peer = Ok (Some detail)
       /\ de_target_protocol_version detail = Some v.

Lemma detail_step_version client local peer acc l v :
  (ac_complete (detail_step client local peer acc l) = true
   /\ ac_version (detail_step client local peer acc l) = Some v) <->
  (ac_complete acc = true /\ (ac_version acc = None \/ ac_version acc = Some v)
   /\ lease_reports client local peer v l).
Proof.
  unfold detail_step, lease_reports. case_bool_decide as Hl; [naive_solver|].
  destruct client as [c|]; [|naive_solver].
  destruct (ic_query_detail c (sl_serving_sn_id l) peer) as [[detail|]|e] eqn:Eq;
    [|split; [by intros [? ?]|intros (_ & _ & _ & ? & ? & ? & ? & ?); simplify_eq; congruence]..].
  destruct (de_target_protocol_version detail) as [w|] eqn:Ew;
    [|split; [by intros [? ?]|intros (_ & _ & _ & ? & ? & ? & ? & ?); simplify_eq; congruence]].
  destruct (ac_version acc) as [x|] eqn:Ex; simpl.
  - rewrite andb_true_iff, Z.eqb_eq. split.
    + intros [[? ?] ?]. simplify_eq. eauto 10.
    + intros (? & ? & _ & ? & ? & ? & ? & ?). simplify_eq. assert (w = v) as -> by congruence. naive_solver.
  - split.
    + intros [? ?]. simplify_eq. eauto 10.
    + intros (? & ? & _ & ? & ? & ? & ? & ?). simplify_eq. split; congruence.
Qed.

Lemma detail_fold_version client local peer leases acc v :
  (ac_complete (foldl (detail_step client local peer) acc leases) = true
   /\ ac_version (foldl (detail_step client local peer) acc leases) = Some v) <->
  (ac_complete acc = true
   /\ (ac_version acc = Some v \/ (ac_version acc = None /\ leases <> []))
   /\ Forall (lease_reports client local peer v) leases).
Proof.
  revert acc. induction leases as [|l leases IH]; intros acc; simpl.
  - rewrite Forall_nil. naive_solver.
  - rewrite IH, Forall_cons. split.
    + intros (Hc & Hv & Hf). destruct (decide (leases = [])) as [->|Hne].
      * destruct Hv as [Hv|[_ ?]]; [|done]. destruct (detail_step_version client local peer acc l v) as [H _].
        destruct H as (? & ? & ?); naive_solver.
      * destruct Hv as [Hv|[Hv _]].
        -- destruct (detail_step_version client local peer acc l v) as [H _].
           destruct H as (? & ? & ?); naive_solver.
        -- exfalso. revert Hc Hv. unfold detail_step. repeat (case_match; simpl; try done).
    + intros (Hc & Hv & Hl & Hf). destruct (detail_step_version client local peer acc l v) as [_ H].
      destruct H as [H1 H2]; [naive_solver|]. naive_solver.
Qed.

(** The protocol version an SN reports for a peer served elsewhere is
    beyond doubt: it is [v] exactly when the owner directory knows a serving SN,
    none of them is this SN, and every one of them answered with version [v];
    any error, absence, disagreement or missing transport yields no version. *)
Theorem query_version_agreed owner client local peer v :
  rd_target_protocol_version (query_remote_details owner client local peer) = Some v <->
  query_serving_leases owner <> []
  /\ forall l, l ∈ query_serving_leases owner -> lease_reports client local peer v l.
Proof.
  unfold query_remote_details. set (leases := query_serving_leases owner). cbn zeta.
  set (acc0 := mkAcc [] None (negb (bool_decide (leases = [])))).
  pose proof (detail_fold_version client local peer leases acc0 v) as Hv. rewrite Forall_forall in Hv.
  simpl in Hv. rewrite negb_true_iff, bool_decide_eq_false in Hv. split.
  - destruct (ac_complete _) eqn:Ec; [|done]. simpl. intros Hver. destruct Hv as [Hv _].
    destruct Hv as (Hne & _ & Hl); auto.
  - intros [Hne Hl]. destruct Hv as [_ Hv]. destruct Hv as [Hc Hver]; [by auto|]. simpl. by rewrite Hc.
Qed.

(** ** Delivery over the streams of the target *)

Lemma omap_lookup_seq {A} (l : list A) (f : nat -> nat) a k b :
  (forall i, (a <= i < a + k)%nat -> f i = (b + (i - a))%nat) -> (b + k <= length l)%nat ->
  omap (fun i => l !! f i) (seq a k) = take k (drop b l).
Proof.
  revert a b. induction k as [|k IH]; intros a b Hf Hl; [done|]. simpl. rewrite (Hf a) by lia.
  replace (b + (a - a))%nat with b by lia. destruct (lookup_lt_is_Some_2 l b) as [x Hx]; [lia|].
  rewrite Hx, (drop_S _ _ _ Hx). simpl. f_equal. apply IH; [|lia]. intros i Hi. rewrite Hf by lia. lia.
Qed.

(** The streams are tried in their order, beginning at [start] and around. *)
Lemma delivery_order_rotates {T} (conns : list T) start :
  (start < length conns)%nat -> delivery_order conns start = drop start conns ++ take start conns.
Proof.
  intros Hs. unfold delivery_order.
  replace (seq 0 (length conns)) with (seq 0 (length conns - start) ++ seq (length conns - start) start).
  2:{ rewrite <-(Nat.add_0_l (length conns - start)) at 2. rewrite <-seq_app. f_equal. lia. }
  rewrite omap_app. f_equal.
  - rewrite (omap_lookup_seq conns (fun off => (start + off) mod length conns)%nat 0 _ start).
    + apply take_ge. rewrite length_drop. lia.
    + intros i Hi. rewrite Nat.mod_small; lia.
    + lia.
  - rewrite (omap_lookup_seq conns (fun off => (start + off) mod length conns)%nat _ _ 0).
    + by rewrite drop_0.
    + intros i Hi. replace (start + i)%nat with (i + start - length conns + 1 * length conns)%nat by lia.
      rewrite Nat.Div0.mod_add, Nat.mod_small; lia.
    + lia.
Qed.

Section delivery.
Context {T : Type} (test : bool) (probe : Endpoint -> Endpoint -> bool).

(** What the stream that is not simply broken decides. *)
Definition decisive (st : list (T * Endpoint)) (notify : SnTunnelRendezvousNotify) (o : QaOutcome)
    : P2pResult SnTunnelRendezvousResp :=
  match o with
  | QaResp r =>
      _ <-? resp_validate test probe r (nt_seq notify) (nt_need_predict_endpoint notify) ;;
      _ <-? validate_rendezvous_response_owner test st r ;; Ok r
  | QaUnreadable => Err P2pErrorCode.IoError
  | QaMalformed => Err P2pErrorCode.RawCodecError
  | QaAborted => Err P2pErrorCode.Aborted
  | QaFailed => Err P2pErrorCode.IoError
  end.

Lemma deliver_loop_spec qa (st : list (T * Endpoint)) notify order last :
  let '(res, closed) := deliver_loop test probe qa st notify order last in
  (Forall (fun c => qa c = QaFailed) order
   /\ res = Err (match order with [] => default P2pErrorCode.NotConnected last | _ => P2pErrorCode.IoError end)
   /\ closed = order)
  \/ exists l1 c l2, order = l1 ++ c :: l2 /\ Forall (fun c => qa c = QaFailed) l1 /\ qa c <> QaFailed
       /\ res = decisive st notify (qa c)
       /\ closed = l1 ++ (match qa c with QaAborted => [c] | _ => [] end).
Proof.
  revert last. induction order as [|c order IH]; intros last; simpl; [left; done|].
  destruct (qa c) eqn:E; try (right; exists [], c, order; rewrite E; done).
  specialize (IH (Some P2pErrorCode.IoError)). destruct (deliver_loop _ _ _ _ _ _ _) as [res closed].
  destruct IH as [(Hf & -> & ->)|(l1 & c' & l2 & -> & Hf & Hne & -> & ->)].
  - left. split_and!; [by constructor|by destruct order|done].
  - right. exists (c :: l1), c', l2. split_and!; [done|by constructor|done..].
Qed.

Lemma owner_check st r :
  validate_rendezvous_response_owner (CmdTunnelId := T) test st r = Ok tt <->
  forall ep, ep ∈ rs_predicted_endpoint_array r ->
    exists o, o ∈ get_peer_observed_ep test st /\ ip_of (addr o) = ip_of (addr ep).
Proof using Type.
  clear probe. unfold validate_rendezvous_response_owner. case_bool_decide as E.
  { rewrite E. split; [|done]. by intros _ ep ?%elem_of_nil. }
  set (ips := (fun ep => ip_of (addr ep)) <$> get_peer_observed_ep test st).
  assert (Hin : forall ip, ip ∈ ips <-> exists o, o ∈ get_peer_observed_ep test st /\ ip_of (addr o) = ip).
  { intros ip. unfold ips. rewrite list_elem_of_fmap. naive_solver. }
  destruct (existsb _ _) eqn:Ee.
  - rewrite orb_true_r. split; [done|]. intros H. exfalso. apply existsb_exists in Ee as (ep & Hep & Hb).
    bool_to_prop. apply Hb, Hin, H. by apply list_elem_of_In.
  - rewrite orb_false_r. assert (Hall : forall ep, ep ∈ rs_predicted_endpoint_array r -> ip_of (addr ep) ∈ ips).
    { intros ep Hep. destruct (decide (ip_of (addr ep) ∈ ips)); [done|]. exfalso. rewrite <-not_true_iff_false in Ee.
      apply Ee, existsb_exists. exists ep. rewrite <-list_elem_of_In. split; [done|].
      by rewrite bool_decide_eq_false_2. }
    rewrite bool_decide_eq_false_2.
    + split; [|done]. intros _ ep Hep. by apply Hin, Hall.
    + intros Hn. destruct (rs_predicted_endpoint_array r) as [|ep l]; [done|].
      specialize (Hall ep (list_elem_of_here _ _)). rewrite Hn in Hall. by apply elem_of_nil in Hall.
Qed.
End delivery.

(** A rendezvous reaches the target over whatever stream of it works:
    with a known target and at least one stream, every stream is tried at most
    once, in their order beginning at the cursor, each broken one is shut down,
    and the first that is not broken decides; only when all are broken is the
    result an error of the transport.  An answer is passed on only when it is
    valid for the request and predicts only addresses at which the SN sees the
    target. *)
Theorem rendezvous_delivery_complete {T} `{!EqDecision T} {Cert} test probe qa (st1 st2 : list (T * Endpoint))
    target notify (s : SnService T Cert) :
  is_Some (sv_peer_mgr s !! target) -> st1 <> [] ->
  exists k order,
    let '(res, closed, s') := deliver_rendezvous_to_local_peer test probe true qa st1 st2 target notify s in
    k = Z.to_nat (sv_cursor s mod Z.of_nat (length st1))
    /\ order = drop k st1.*1 ++ take k st1.*1 /\ order ≡ₚ st1.*1
    /\ sv_cursor s' = wrapping_add_u64 (sv_cursor s) 1
    /\ ((Forall (fun c => qa c = QaFailed) order /\ res = Err P2pErrorCode.IoError /\ closed = order)
        \/ exists l1 c l2, order = l1 ++ c :: l2 /\ Forall (fun c => qa c = QaFailed) l1 /\ qa c <> QaFailed
             /\ closed = l1 ++ (match qa c with QaAborted => [c] | _ => [] end)
             /\ forall r, res = Ok r <->
                  qa c = QaResp r
                  /\ resp_validate test probe r (nt_seq notify) (nt_need_predict_endpoint notify) = Ok tt
                  /\ forall ep, ep ∈ rs_predicted_endpoint_array r ->
                       exists o, o ∈ get_peer_observed_ep test st2 /\ ip_of (addr o) = ip_of (addr ep)).
Proof.
  intros [p Hp] Hst. unfold deliver_rendezvous_to_local_peer, find_peer. rewrite Hp. cbn [negb].
  assert (Hne : st1.*1 <> []) by (by destruct st1). rewrite bool_decide_eq_false_2 by done.
  assert (Hlen : length st1.*1 = length st1) by apply length_fmap.
  set (k := Z.to_nat (sv_cursor s mod Z.of_nat (length st1))).
  assert (Hk : (k < length st1.*1)%nat).
  { assert (0 < length st1)%nat by (destruct st1; simpl; [done|lia]). rewrite Hlen. unfold k.
    pose proof (Z.mod_pos_bound (sv_cursor s) (Z.of_nat (length st1)) ltac:(lia)). lia. }
  rewrite Hlen. fold k. rewrite (delivery_order_rotates _ _ Hk).
  set (order := drop k st1.*1 ++ take k st1.*1). assert (Hperm : order ≡ₚ st1.*1).
  { unfold order. rewrite Permutation_app_comm. by rewrite take_drop. }
  pose proof (deliver_loop_spec test probe qa st2 notify order None) as Hd.
  destruct (deliver_loop _ _ _ _ _ _ _) as [res closed]. exists k, order. split_and!; [done..|].
  destruct Hd as [(Hf & -> & ->)|(l1 & c & l2 & Ho & Hf & Hc & -> & ->)].
  - left. split_and!; [done| |done]. destruct order eqn:Eo; [|done]. apply Permutation_nil in Hperm. done.
  - right. exists l1, c, l2. split_and!; [done..|]. intros r. rewrite <-owner_check. unfold decisive.
    destruct (qa c) as [r'| | | |]; try (split; [done|by intros (? & _)]).
    destruct (resp_validate _ _ r' _ _) as [[]|] eqn:Ev; simpl;
      [|split; [done|intros ([= <-] & Hv & _); congruence]].
    destruct (validate_rendezvous_response_owner _ _ r') as [[]|] eqn:Eo; simpl;
      [|split; [done|intros ([= <-] & _ & Hv); congruence]].
    split; [intros [= <-]; done|]. by intros ([= <-] & _).
Qed.

(** ** Concrete runs *)

Module SnDemo.

(** A certificate is the identifier it proves. *)
#[export] Instance demo_certs : CertOps P2pId := {|
  cert_create b := Ok (mkP2pId b); cert_get_id c := c; cert_endpoints _ := [];
  cert_encoded c := Ok (p2pid_bytes c) |}.

Definition sn1 : P2pId := mkP2pId [1].
Definition peer5 : P2pId := mkP2pId [5].
Definition peer6 : P2pId := mkP2pId [6].
Definition peer9 : P2pId := mkP2pId [9].
Definition path : Endpoint := mkEndpoint ServerReflexive Quic (V4 (mkV4 203 0 113 7) 3456).
Definition streams7 : list (Z * Endpoint) := [(7, path); (8, path)].

Definition s0 : SnService Z P2pId := service_new (Some sn1) 1 100.
Definition knows (ids : list P2pId) : SnService Z P2pId :=
  set_peer_mgr (foldr (fun i => add_peer_info cert_endpoints i i 100) ∅ ids) s0.

Definition notify5 : SnTunnelRendezvousNotify := mkNotify 3 4 [5] WaitIncoming [] false.
(** Stream 7 is broken, stream 8 answers. *)
Definition qa8 (c : Z) : QaOutcome := if c =? 7 then QaFailed else QaResp (resp_success 3 []).

Lemma rendezvous_delivery_complete_witness :
  deliver_rendezvous_to_local_peer false (fun _ _ => true) true qa8 streams7 streams7 peer6 notify5 (knows [peer6])
  = (Ok (resp_success 3 []), [7], set_cursor 1 (knows [peer6]))
  /\ exists order : list Z, order ≡ₚ streams7.*1.
Proof.
  split; [by vm_compute|].
  destruct (rendezvous_delivery_complete false (fun _ _ => true) qa8 streams7 streams7 peer6 notify5
    (knows [peer6])) as (k & order & H); [by vm_compute; eauto|done|]. exists order.
  destruct (deliver_rendezvous_to_local_peer _ _ _ _ _ _ _ _ _) as [[res closed] s']. apply H.
Defined.

(** A call names its caller itself, and the name is not compared with the
    client that sent it: [peer5] calls [peer6] in the name of [peer9], and the
    callee is told to connect to the addresses that [peer5] chose, with the
    certificate of [peer9] as the caller's. *)
Definition forged_endpoint : Endpoint := mkEndpoint Wan Quic (V4 (mkV4 198 51 100 1) 9000).
Definition forged_call : SnCall :=
  mkCall 0 0 11 12 sn1 peer6 peer9 (Some [forged_endpoint]) None None 1000 TunnelStream [] true None.

Lemma call_in_anothers_name :
  exists res s',
    handle_call (Some sn1) allow_all_sn_validate false (fun _ => Some []) (fun _ _ => true) (Ok []) None
      sn1 peer5 7 forged_call streams7 streams7 streams7 [] 1000 1000 (knows [peer5; peer6; peer9])
    = Some (Ok res,
            [(peer6, mkCalled 1 sn1 peer6 [forged_endpoint] [] [9] 12 1000 TunnelStream [] None)], s').
Proof. eexists _, _. vm_compute. reflexivity. Qed.
End SnDemo.
