(* ===== verification/SnProfiles.v ===== *)
(** * The two copies of a NAT profile
      (src/p2p-frame/src/sn/service/service.rs, nat_probe_scheduler.rs, peer_manager.rs)

    The scheduler keeps a peer's published profile, and the peer cache holds a
    copy that the handlers update from the scheduler's transitions.  The copies
    agree as long as no handler is interrupted between computing a transition
    and applying it; the last lemma shows what an interruption can do. *)

From S2P Require Import PnServer.
From S2P Require Import Prelude.
From S2P Require Import Errors.
From S2P Require Import Ids.
From S2P Require Import Endpoint.
From S2P Require Import NatType.
From S2P Require Import SnProtocol.
From S2P Require Import Rendezvous.
From S2P Require Import Membership.
From S2P Require Import NatProbeScheduler.
From S2P Require Import SnExtension.
From S2P Require Import PeerManager.
From S2P Require Import SnEndpoints.
From S2P Require Import SnService.

(** ** Transitions describe what the scheduler did *)

Section effects.
Context {T : Type} `{!EqDecision T}.
Implicit Types d : NatProbeScheduler T.

Definition profile_of (id : P2pId) d : option NatProfile := peers d !! id ≫= profile.

(** The profile of [peer] changed as [tr] says, no other did. *)
Definition describes (peer : P2pId) (tr : ProbeTransition) d d' : Prop :=
  sn_peer_id d' = sn_peer_id d
  /\ profile_of peer d' = default (profile_of peer d) (profile_update tr)
  /\ forall id, id <> peer -> profile_of id d' = profile_of id d.

Lemma describes_refl peer d : describes peer no_transition d d.
Proof. done. Qed.

Lemma describes_insert peer p u dir d d' :
  sn_peer_id d' = sn_peer_id d -> peers d' = <[peer := p]> (peers d) ->
  profile p = default (profile_of peer d) u -> describes peer (mkTransition dir u) d d'.
Proof.
  intros Hs Hp Hu. unfold describes, profile_of. rewrite Hp, lookup_insert_eq. split_and!; [done|done|].
  intros id Hne. by rewrite lookup_insert_ne.
Qed.

(** One more change of the same peer: [upd] is the later word. *)
Lemma describes_then peer tr d0 d p d' u dir :
  describes peer tr d0 d -> sn_peer_id d' = sn_peer_id d -> peers d' = <[peer := p]> (peers d) ->
  profile p = default (profile_of peer d) u ->
  describes peer (mkTransition dir (match u with Some x => Some x | None => profile_update tr end)) d0 d'.
Proof.
  intros (Hs & Hp & Ho) Hs' Hp' Hu. unfold describes, profile_of. rewrite Hp', lookup_insert_eq.
  split_and!; [congruence| |].
  - simpl. rewrite Hu. destruct u; [done|]. exact Hp.
  - intros id Hne. rewrite lookup_insert_ne by done. by apply Ho.
Qed.

Lemma ineligible_describes peer t d tr d' :
  observe_ineligible_report peer t d = (tr, d') -> describes peer tr d d'.
Proof.
  unfold observe_ineligible_report. intros H. destruct (peers d !! peer) as [p|] eqn:E; [|by simplify_eq].
  case_bool_decide; simplify_eq; [|done]. unfold describes, profile_of. simpl. rewrite lookup_delete_eq.
  split_and!; [done|done|]. intros id Hne. by rewrite lookup_delete_ne.
Qed.

Lemma register_describes peer t ep b now d tr d' :
  register peer t ep b now d = (tr, d') -> describes peer tr d d'.
Proof.
  unfold register. intros H. simplify_eq. eapply describes_insert; [done|done|]. simpl.
  unfold profile_of. by destruct (peers d !! peer).
Qed.

Lemma refresh_describes peer t ep b now d tr d' :
  refresh_registration peer t ep b now d = (tr, d') -> describes peer tr d d'.
Proof.
  unfold refresh_registration, update_capability. intros H.
  destruct (peers d !! peer) as [p|] eqn:E; [|by eapply register_describes].
  case_bool_decide; [|by eapply register_describes].
  destruct (_ && _); simplify_eq; (eapply describes_insert; [done|done|]); [done|].
  unfold profile_of. by rewrite E.
Qed.

Lemma finish_expired_describes peer now tr d0 d tr' d' :
  describes peer tr d0 d -> finish_expired peer now tr d = (tr', d') -> describes peer tr' d0 d'.
Proof.
  unfold finish_expired. intros Hd H. destruct (peers d !! peer) as [p|]; [|by simplify_eq].
  destruct (in_flight p); [|by simplify_eq]. destruct (_ <? now); simplify_eq; [|done].
  by eapply (describes_then peer tr d0 d _ _ (Some None) _ Hd).
Qed.

Lemma accept_optional_describes peer r now tr d0 d tr' d' :
  describes peer tr d0 d -> accept_optional peer r now tr d = (tr', d') -> describes peer tr' d0 d'.
Proof.
  unfold accept_optional, accept_result. intros Hd H. destruct r as [r|]; [|by simplify_eq].
  destruct (peers d !! peer) as [p|]; [|by simplify_eq]. destruct (rejection _ _ _ _ _); simplify_eq; [done|].
  by eapply (describes_then peer tr d0 d _ _ (Some _) _ Hd).
Qed.

Lemma issue_describes peer now tr d0 d dir d' :
  describes peer tr d0 d -> issue_if_due peer now d = (dir, d') ->
  describes peer (mkTransition dir (profile_update tr)) d0 d'.
Proof.
  unfold issue_if_due. intros Hd H. destruct (peers d !! peer) as [p|] eqn:E; [|by simplify_eq].
  destruct (pending_trigger p); [|by simplify_eq]. destruct (_ || _); [by simplify_eq|].
  injection H as <- <-. eapply (describes_then peer tr d0 d _ _ None _ Hd); [done|done|].
  unfold profile_of. by rewrite E.
Qed.

Lemma capable_report_describes peer t ep v r now d tr d' :
  observe_capable_report peer t ep v r now d = (tr, d') -> describes peer tr d d'.
Proof.
  unfold observe_capable_report. intros H. destruct (negb _); [by eapply ineligible_describes|].
  destruct (ignored _ _ _ _); [by simplify_eq|].
  destruct (refresh_registration _ _ _ _ _ _) as [tr1 d1] eqn:E1. apply refresh_describes in E1.
  destruct (finish_expired _ _ _ _) as [tr2 d2] eqn:E2. apply (finish_expired_describes _ _ _ _ _ _ _ E1) in E2.
  destruct (accept_optional _ _ _ _ _) as [tr3 d3] eqn:E3. apply (accept_optional_describes _ _ _ _ _ _ _ _ E2) in E3.
  destruct (issue_if_due _ _ _) as [dir d4] eqn:E4. simplify_eq. by apply (issue_describes _ _ _ _ _ _ _ E3) in E4.
Qed.

Lemma reported_profile_describes peer t ep q now d tr d' :
  observe_reported_profile peer t ep q now d = (tr, d') -> describes peer tr d d'.
Proof.
  unfold observe_reported_profile. intros H. destruct (peers d !! peer) as [p|]; [|by simplify_eq].
  destruct (_ || _ || _); [by simplify_eq|]. destruct (older_than_current _ _ _); simplify_eq; [done|].
  by eapply describes_insert.
Qed.

Lemma control_describes peer t ep now d tr d' :
  observe_control peer t ep now d = (tr, d') -> describes peer tr d d'.
Proof.
  unfold observe_control. intros H. destruct (negb _); [by eapply ineligible_describes|].
  destruct (ignored _ _ _ _); [by simplify_eq|]. revert H.
  match goal with |- (let '(_, _) := ?x in _) = _ -> _ => destruct x as [tr1 d1] eqn:E end. intros H.
  eapply finish_expired_describes; [|exact H].
  destruct (peers d !! peer); [|by eapply register_describes].
  case_bool_decide; [by simplify_eq|by eapply register_describes].
Qed.

(** A peer that is not registered has no profile, and removing one takes it. *)
Lemma remove_profile peer d removed d' :
  scheduler_remove_peer peer d = (removed, d') ->
  sn_peer_id d' = sn_peer_id d
  /\ forall id, profile_of id d' = if decide (id = peer) then None else profile_of id d.
Proof.
  unfold scheduler_remove_peer, profile_of. intros H. destruct (peers d !! peer) eqn:E; simplify_eq; (split; [done|]);
    intros id; case_decide as Hd; subst; simpl; rewrite ?lookup_delete_eq, ?lookup_delete_ne by done; try done.
  by rewrite E.
Qed.

Lemma expire_step_profiles now acc peer inv' d' :
  expire_step now acc peer = (inv', d') ->
  fst acc ⊆ inv' /\ sn_peer_id d' = sn_peer_id (snd acc)
  /\ forall id, (id ∈ inv' -> id ∉ fst acc -> profile_of id d' = None)
     /\ (id ∉ inv' -> profile_of id d' = profile_of id (snd acc))
     /\ (profile_of id (snd acc) = None -> profile_of id d' = None).
Proof.
  unfold expire_step. destruct (finish_expired peer now no_transition (snd acc)) as [tr d1] eqn:E.
  assert (Hu : profile_update tr = None \/ profile_update tr = Some None).
  { revert E. unfold finish_expired. intros E. repeat (case_match; simplify_eq; simpl; auto). }
  apply (finish_expired_describes _ _ _ _ _ _ _ (describes_refl peer (snd acc))) in E as (Hs & Hp & Ho).
  destruct Hu as [Hu|Hu]; rewrite Hu in Hp; simpl in Hp.
  - rewrite bool_decide_eq_false_2 by (rewrite Hu; by intros []). intros [= <- <-].
    assert (Hsame : forall id, profile_of id d1 = profile_of id (snd acc)).
    { intros id. destruct (decide (id = peer)) as [->|]; [done|by apply Ho]. }
    split_and!; [done|done|]. intros id. rewrite Hsame. done.
  - rewrite bool_decide_eq_true_2 by (rewrite Hu; eauto). intros [= <- <-]. split_and!; [set_solver|done|].
    intros id. destruct (decide (id = peer)) as [->|Hne]; [split_and!; [done|set_solver|done]|].
    rewrite (Ho id Hne). split_and!; [set_solver|done|done].
Qed.

(** Expiry withdraws exactly the profiles of the peers it returns. *)
Lemma expire_profiles now d inv' d' :
  expire_due now d = (inv', d') ->
  sn_peer_id d' = sn_peer_id d
  /\ forall id, profile_of id d' = if decide (id ∈ inv') then None else profile_of id d.
Proof.
  unfold expire_due. generalize (map_to_list (peers d)).*1. intros l.
  assert (Hg : forall acc, foldl (expire_step now) acc l = (inv', d') ->
    fst acc ⊆ inv' /\ sn_peer_id d' = sn_peer_id (snd acc)
    /\ forall id, (id ∈ inv' -> id ∉ fst acc -> profile_of id d' = None)
       /\ (id ∉ inv' -> profile_of id d' = profile_of id (snd acc))
       /\ (profile_of id (snd acc) = None -> profile_of id d' = None)).
  { induction l as [|x l IH]; intros acc H; simpl in H; [subst; simpl; split_and!; [done..|]; naive_solver|].
    destruct (expire_step now acc x) as [i1 d1] eqn:E. apply expire_step_profiles in E as (Hi1 & Hs1 & H1).
    destruct (IH _ H) as (Hi2 & Hs2 & H2). simpl in *. split_and!; [set_solver|congruence|].
    intros id. destruct (H1 id) as (A1 & A2 & A3), (H2 id) as (B1 & B2 & B3). split_and!.
    - intros Hin Hnin. destruct (decide (id ∈ i1)); [apply B3; auto|auto].
    - intros Hnin. rewrite B2, A2; [done| |done]. set_solver.
    - auto. }
  intros H. destruct (Hg _ H) as (_ & Hs & Hid). simpl in *. split; [done|]. intros id.
  destruct (Hid id) as (A1 & A2 & _). case_decide; [apply A1; set_solver|by apply A2].
Qed.

Lemma set_ports_profiles ports d affected d' :
  set_ports ports d = (affected, d') ->
  sn_peer_id d' = sn_peer_id d
  /\ forall id, profile_of id d' = if decide (id ∈ affected) then None else profile_of id d.
Proof.
  unfold set_ports. case_bool_decide; intros [= <- <-]; (split; [done|]); intros id.
  - by rewrite decide_False by set_solver.
  - unfold profile_of. simpl. rewrite lookup_fmap. case_decide as Hd.
    + by destruct (peers d !! id).
    + apply not_elem_of_dom in Hd. by rewrite Hd.
Qed.
End effects.

Lemma describes_trans {T} peer tr1 tr2 dir (d d1 d2 : NatProbeScheduler T) :
  describes peer tr1 d d1 -> describes peer tr2 d1 d2 ->
  describes peer (mkTransition dir (match profile_update tr2 with Some x => Some x | None => profile_update tr1 end))
    d d2.
Proof.
  intros (Hs1 & Hp1 & Ho1) (Hs2 & Hp2 & Ho2). split_and!; [congruence| |].
  - rewrite Hp2. simpl. by destruct (profile_update tr2).
  - intros id Hne. by rewrite Ho2, Ho1.
Qed.

(** ** The copies agree *)

Section views.
Context {T : Type} `{!EqDecision T} {Cert : Type} `{!CertOps Cert}.
Notation PeerTable := (gmap P2pId (CachedPeerInfo (Cert:=Cert))).
Implicit Types (d : NatProbeScheduler T) (m : PeerTable) (s : SnService T Cert).

(** A cached peer has the scheduler's profile or, without one, the unknown
    profile; a peer that is not cached has none in the scheduler. *)
Definition agrees m d : Prop :=
  forall id, match cached_profile id m with
             | Some q => q = default profile_unknown (profile_of id d)
             | None => profile_of id d = None
             end.

Record views_agree (sn : P2pId) s : Prop := {
  va_sn : sn_peer_id (sv_scheduler s) = sn;
  va_agrees : agrees (sv_peer_mgr s) (sv_scheduler s);
}.

Lemma cached_set id q m j :
  cached_profile j (snd (set_net_profile id q m))
  = if decide (j = id) then const q <$> cached_profile j m else cached_profile j m.
Proof.
  unfold set_net_profile, cached_profile. case_decide as Hd; subst.
  - destruct (m !! id) as [p|] eqn:E; simpl; [by rewrite lookup_insert_eq|by rewrite E].
  - destruct (m !! id) as [p|] eqn:E; simpl; [by rewrite lookup_insert_ne|done].
Qed.

Lemma cached_invalidate_all A m j :
  cached_profile j (invalidate_all A m)
  = if decide (j ∈ A) then const profile_unknown <$> cached_profile j m else cached_profile j m.
Proof.
  unfold invalidate_all, invalidate_net_profile.
  assert (Hl : forall l, cached_profile j (foldr (fun peer m => snd (set_net_profile peer profile_unknown m)) m l)
    = if decide (j ∈ l) then const profile_unknown <$> cached_profile j m else cached_profile j m).
  { induction l as [|x l IH]; cbn [foldr]; [by rewrite decide_False by (by intros ?%elem_of_nil)|].
    rewrite cached_set, IH. destruct (decide (j = x)) as [->|Hne].
    - rewrite (decide_True (P := x ∈ x :: l)) by left. case_decide; [|done]. by destruct (cached_profile x m).
    - destruct (decide (j ∈ l)); [rewrite decide_True by (by right)|rewrite decide_False by (set_solver)]; done. }
  rewrite Hl. destruct (decide (j ∈ A)); [rewrite decide_True by set_solver|rewrite decide_False by set_solver]; done.
Qed.

Lemma cached_report id c v ports eps now m j :
  cached_profile j (add_or_update_peer cert_endpoints id (Some c) v ports eps now m)
  = if decide (j = id) then Some (default profile_unknown (cached_profile j m)) else cached_profile j m.
Proof.
  unfold add_or_update_peer, cached_profile. case_decide as Hd; subst; destruct (m !! id) as [p|] eqn:E; simpl;
    by rewrite ?lookup_insert_eq, ?lookup_insert_ne.
Qed.

(** Withdrawing the same peers on both sides. *)
Lemma agrees_withdraw A m d d' :
  agrees m d ->
  (forall id, profile_of id d' = if decide (id ∈ A) then None else profile_of id d) ->
  agrees (invalidate_all A m) d'.
Proof.
  intros Ha Hd id. rewrite cached_invalidate_all, Hd. specialize (Ha id).
  case_decide; [|done]. by destruct (cached_profile id m).
Qed.

Lemma invalidate_single peer m : snd (invalidate_net_profile peer m) = invalidate_all {[peer]} m.
Proof. unfold invalidate_all. by rewrite elements_singleton. Qed.

Lemma apply_transition_agrees sn peer tr d' s :
  views_agree sn s -> describes peer tr (sv_scheduler s) d' ->
  (is_Some (cached_profile peer (sv_peer_mgr s)) \/ forall q, profile_update tr <> Some (Some q)) ->
  views_agree sn (snd (apply_nat_probe_transition peer tr (set_scheduler d' s))).
Proof.
  intros [Hsn Ha] (Hs & Hp & Ho) Hq. split.
  { unfold apply_nat_probe_transition. destruct (profile_update tr) as [[]|]; simpl; congruence. }
  assert (Hm : forall q, agrees (snd (set_net_profile peer q (sv_peer_mgr s))) d' <->
    match cached_profile peer (sv_peer_mgr s) with
    | Some _ => q = default profile_unknown (profile_of peer d')
    | None => profile_of peer d' = None
    end).
  { intros q. split.
    - intros H. specialize (H peer). rewrite cached_set, decide_True in H by done.
      by destruct (cached_profile peer (sv_peer_mgr s)).
    - intros H id. rewrite cached_set. case_decide as Hd; [subst; by destruct (cached_profile _ _)|].
      rewrite Ho by done. apply Ha. }
  specialize (Ha peer) as Hpeer. unfold apply_nat_probe_transition, invalidate_net_profile.
  destruct (profile_update tr) as [[q|]|] eqn:E; simpl in *.
  - apply Hm. rewrite Hp. destruct Hq as [[? ->]|Hq]; [done|]. by destruct (Hq q).
  - apply Hm. rewrite Hp. by destruct (cached_profile _ _).
  - intros id. destruct (decide (id = peer)) as [->|Hne]; [by rewrite Hp|]. rewrite Ho by done. apply Ha.
Qed.

Lemma views_same sn s s' :
  sv_scheduler s' = sv_scheduler s -> sv_peer_mgr s' = sv_peer_mgr s -> views_agree sn s -> views_agree sn s'.
Proof. intros Hd Hm [? ?]. split; rewrite ?Hd, ?Hm; done. Qed.

Lemma reconcile_agrees sn peer st s :
  views_agree sn s -> views_agree sn (reconcile_nat_probe_authority peer st s).
Proof.
  intros Hv. unfold reconcile_nat_probe_authority. destruct (authority_registration _ _) as [[a g]|]; [|done].
  unfold finish_nat_probe_authority_reconcile. destruct (authority_path_present _ _ _); [done|].
  unfold remove_peer_if_authority. destruct (peers _ !! peer) as [p|] eqn:E; [|by apply (views_same _ s)].
  destruct (_ && _); [|by apply (views_same _ s)].
  destruct (scheduler_remove_peer peer (sv_scheduler s)) as [b d'] eqn:Er.
  assert (b = true) as -> by (unfold scheduler_remove_peer in Er; rewrite E in Er; by simplify_eq).
  apply remove_profile in Er as [Hs Hd]. destruct Hv as [Hsn Ha].
  split; simpl; [congruence|]. rewrite invalidate_single. eapply agrees_withdraw; [done|]. intros id. rewrite Hd.
  destruct (decide (id = peer)); [rewrite decide_True by set_solver|rewrite decide_False by set_solver]; done.
Qed.

Lemma reconcile_cached peer st s id :
  is_Some (cached_profile id (sv_peer_mgr s)) ->
  is_Some (cached_profile id (sv_peer_mgr (reconcile_nat_probe_authority peer st s))).
Proof.
  unfold reconcile_nat_probe_authority, finish_nat_probe_authority_reconcile, invalidate_net_profile. intros H.
  destruct (authority_registration _ _) as [[a g]|]; [|done]. destruct (authority_path_present _ _ _); [done|].
  destruct (remove_peer_if_authority _ _ _ _) as [[] d]; simpl; [|done]. rewrite cached_set.
  case_decide; [|done]. by apply fmap_is_Some.
Qed.

Lemma set_sn_same sn d : sn_peer_id d = sn -> set_sn_peer_id sn d = d.
Proof. intros H. unfold set_sn_peer_id. by rewrite bool_decide_eq_true_2. Qed.

Lemma observe_control_no_profile peer t ep now d tr d' q :
  observe_control peer t ep now d = (tr, d') -> profile_update tr <> Some (Some q).
Proof.
  unfold observe_control, observe_ineligible_report, finish_expired, register.
  intros H. repeat (case_match; simplify_eq; simpl); done.
Qed.

Lemma observe_agrees sn peer t st1 st2 now s :
  views_agree sn s -> views_agree sn (observe_nat_probe_control sn peer t st1 st2 now s).
Proof.
  intros Hv. unfold observe_nat_probe_control. apply (reconcile_agrees _ peer st1) in Hv.
  destruct (get_peer_tunnel_remote st2 t) as [o|]; [|done]. unfold observe_control_locked.
  rewrite (set_sn_same sn) by apply Hv. destruct (observe_control _ _ _ _ _) as [tr d'] eqn:E.
  eapply apply_transition_agrees; [done|by eapply control_describes|]. right. intros q.
  by eapply observe_control_no_profile.
Qed.

Lemma report_locked_describes {R} sn peer t o (report : ReportSn R) now d otr d' :
  sn_peer_id d = sn -> report_locked sn peer t o report now d = (otr, d') ->
  describes peer (default no_transition otr) d d'.
Proof.
  intros Hsn. unfold report_locked. destruct o as [o|].
  - rewrite (set_sn_same sn) by done. destruct (observe_capable_report _ _ _ _ _ _ _) as [tr1 d1] eqn:E1.
    apply capable_report_describes in E1. destruct (re_net_profile report) as [q|]; [|by intros [= <- <-]].
    destruct (observe_reported_profile _ _ _ _ _ _) as [tr2 d2] eqn:E2. apply reported_profile_describes in E2.
    pose proof (describes_trans _ _ _ (directive tr1) _ _ _ E1 E2) as Hd. case_bool_decide as Hu; intros [= <- <-]; simpl.
    + destruct Hu as [u Hu]. by rewrite Hu in Hd |- *.
    + destruct (profile_update tr2); [by destruct Hu|]. by destruct tr1.
  - destruct (re_net_profile report) as [q|]; [|by intros [= <- <-]]. rewrite bool_decide_eq_false_2.
    + by intros [= <- <-].
    + by intros [].
Qed.

Lemma report_agrees {R Rc} validator test identity sn peer t (report : ReportSn R) st1 st2 st3 t1 now s res s' :
  views_agree sn s ->
  handle_report_sn (Rc := Rc) validator test identity sn peer t report st1 st2 st3 t1 now s = Some (res, s') ->
  views_agree sn s'.
Proof.
  intros Hv. unfold handle_report_sn. destruct (check_report _ _ _ _ _ _) as [[[i o] eps]|e] eqn:Ec;
    [|by intros [= <- <-]].
  assert (Hinfo : exists info, re_peer_info report = Some info).
  { unfold check_report in Ec. destruct (re_peer_info report); [eauto|done]. }
  destruct Hinfo as [info Hinfo]. unfold create_unwrap. rewrite Hinfo. destruct (cert_create info) as [c|]; [|done].
  simpl. set (s1 := set_peer_mgr _ _). assert (Hv1 : views_agree sn s1).
  { split; [apply Hv|]. intros id. simpl. rewrite cached_report. pose proof (va_agrees _ _ Hv id) as H.
    case_decide; [|done]. destruct (cached_profile id (sv_peer_mgr s)); simpl; [done|]. by rewrite H. }
  assert (Hc1 : is_Some (cached_profile peer (sv_peer_mgr s1))).
  { simpl. rewrite cached_report, decide_True by done. eauto. }
  apply (reconcile_cached peer st3) in Hc1. apply (reconcile_agrees _ peer st3) in Hv1.
  destruct (report_locked _ _ _ _ _ _ _) as [otr d'] eqn:El.
  apply report_locked_describes in El; [|apply Hv1]. destruct otr as [tr|]; simpl in El.
  - destruct (apply_nat_probe_transition _ _ _) as [dir s2] eqn:Ea. intros [= <- <-].
    change s2 with (snd (dir, s2)). rewrite <-Ea. apply apply_transition_agrees; auto.
  - intros [= <- <-]. change (set_scheduler d' ?s0) with (snd (apply_nat_probe_transition peer no_transition
      (set_scheduler d' s0))). apply apply_transition_agrees; auto.
Qed.

Lemma maintain_agrees sn streams_of now s :
  views_agree sn s -> views_agree sn (maintain_nat_probe_state streams_of now s).
Proof.
  intros Hv. unfold maintain_nat_probe_state. set (s1 := foldl _ _ _). assert (Hv1 : views_agree sn s1).
  { unfold s1. generalize (authorities (sv_scheduler s)). clear s1. intros l. revert s Hv.
    induction l as [|[p t] l IH]; intros s Hv; simpl; [done|]. apply IH. by apply reconcile_agrees. }
  destruct (expire_due now (sv_scheduler s1)) as [inv' d'] eqn:E. apply expire_profiles in E as [Hs Hd].
  destruct Hv1 as [Hsn Ha]. split; simpl; [congruence|]. by eapply agrees_withdraw.
Qed.

Lemma ports_agree sn ports s : views_agree sn s -> views_agree sn (set_nat_probe_ports ports s).
Proof.
  intros [Hsn Ha]. unfold set_nat_probe_ports. destruct (set_ports ports (sv_scheduler s)) as [A d'] eqn:E.
  apply set_ports_profiles in E as [Hs Hd]. split; simpl; [congruence|]. by eapply agrees_withdraw.
Qed.

Lemma disconnect_agrees sn peer s : views_agree sn s -> views_agree sn (snd (on_peer_disconnected peer s)).
Proof.
  intros [Hsn Ha]. unfold on_peer_disconnected. destruct (Rendezvous.remove_peer _ _) as [out r]. simpl.
  destruct (scheduler_remove_peer peer (sv_scheduler s)) as [b d'] eqn:E. apply remove_profile in E as [Hs Hd].
  split; simpl; [congruence|]. intros id. rewrite Hd. unfold remove_peer_info, cached_profile.
  case_decide as Hi; [subst; by rewrite lookup_delete_eq|]. rewrite lookup_delete_ne by done. apply Ha.
Qed.
End views.

(** ** The handlers as steps

    Each rule is one handler run to its end; [sn] is the SN's own identity, to
    which all commands are addressed. *)

Section runs.
Context {T : Type} `{!EqDecision T} {Cert : Type} `{!CertOps Cert} {R Rc : Type}.
Context (sn : P2pId) (validator : SnConnectionValidateContext -> P2pResult ValidateResult)
  (inter_connection : P2pId -> P2pResult ValidateResult)
  (inter_command : P2pId -> InterSnCommand -> P2pId -> P2pResult ValidateResult)
  (test : bool) (probe : Endpoint -> Endpoint -> bool)
  (called_to_vec : SnCalled -> option (list Z)) (send_called : P2pId -> list Z -> bool).
Notation Service := (SnService T Cert).
Implicit Types s : Service.

(** What a step says about calls: a call with its pair of caller and tunnel id,
    the time it was looked at, and whether it was delivered to the callee; a
    recycling of the remembered calls; or nothing. *)
Inductive sn_event : Type :=
| EvCall (pair : P2pId * TunnelId) (now : Timestamp) (delivered : bool)
| EvRecycle (now : Timestamp)
| EvOther.

Definition call_pair (call : SnCall) : P2pId * TunnelId := (sc_from_peer_id call, sc_tunnel_id call).
Definition was_sent (sent : list (P2pId * SnCalled)) : bool := match sent with [] => false | _ => true end.

Inductive sn_step : Service -> sn_event -> Service -> Prop :=
| sn_report identity peer t (report : ReportSn R) st1 st2 st3 t1 now s res s' :
    handle_report_sn (Rc := Rc) validator test identity sn peer t report st1 st2 st3 t1 now s = Some (res, s') ->
    sn_step s EvOther s'
| sn_query owner client peer t q st1 st2 st3 st4 t1 now s res s' :
    handle_query_sn (Some sn) test owner client sn peer t q st1 st2 st3 st4 t1 now s = Some (res, s') ->
    sn_step s EvOther s'
| sn_call owner client peer t call st1 st2 st3 st4 t1 now s res sent s' :
    handle_call (Some sn) validator test called_to_vec send_called owner client sn peer t call st1 st2 st3 st4
      t1 now s = Some (res, sent, s') ->
    sn_step s (EvCall (call_pair call) now (was_sent sent)) s'
| sn_called_resp peer t st1 st2 now s : sn_step s EvOther (observe_nat_probe_control sn peer t st1 st2 now s)
| sn_prepare peer t request st1 st2 st3 t1 s :
    sn_step s EvOther (snd (prepare_rendezvous validator test probe sn peer t request st1 st2 st3 t1 s))
| sn_deliver encoded qa st1 st2 target notify s :
    sn_step s EvOther (snd (deliver_rendezvous_to_local_peer test probe encoded qa st1 st2 target notify s))
| sn_rendezvous z s : sn_step s EvOther (set_rendezvous z s)
| sn_query_detail remote peer st now s :
    sn_step s EvOther (snd (query_detail_from_sn inter_connection inter_command remote peer st now s))
| sn_relay_call remote call now s res sent s' :
    relay_call_from_sn (Some sn) inter_connection inter_command called_to_vec send_called remote call now s
      = (res, sent, s') ->
    sn_step s (EvCall (call_pair call) now (was_sent sent)) s'
| sn_relay_rendezvous remote target notify encoded qa st1 st2 s :
    sn_step s EvOther (snd (relay_rendezvous_from_sn inter_connection inter_command test probe remote target notify
      encoded qa st1 st2 s))
| sn_maintain streams_of now s : sn_step s EvOther (maintain_nat_probe_state streams_of now s)
| sn_ports ports s : sn_step s EvOther (set_nat_probe_ports ports s)
| sn_disconnected peer s : sn_step s EvOther (snd (on_peer_disconnected peer s)).

Inductive sn_reachable : Service -> Prop :=
| sn_init seq0 now : sn_reachable (service_new (Some sn) seq0 now)
| sn_more s ev s' : sn_reachable s -> sn_step s ev s' -> sn_reachable s'.

(** Neither copy changes. *)
Definition same_profiles s s' : Prop := sv_scheduler s' = sv_scheduler s /\ sv_peer_mgr s' = sv_peer_mgr s.

Lemma deliver_called_same call local now s :
  same_profiles s (snd (deliver_called_to_local_peer called_to_vec send_called call local now s)).
Proof.
  unfold deliver_called_to_local_peer. destruct (find_peer _ _); [|done]. destruct (sc_peer_info call); [|done].
  destruct (cert_create _); [|done]. destruct (call_stub_insert _ _ _ _). destruct (_ && _); [|done].
  destruct (SequenceGenerator_generate _). destruct (cert_encoded _); [|done]. by destruct (send_called_req _ _ _ _).
Qed.

Lemma call_local_same local_id call p q st now s res sent s' :
  call_local_peer test called_to_vec send_called local_id call p q st now s = Some (res, sent, s') ->
  same_profiles s s'.
Proof.
  unfold call_local_peer. intros H.
  match type of H with ?x ≫= _ = _ => destruct x as [[d|]|]; simpl in H; [|by simplify_eq|done] end.
  destruct (_ && _); [|destruct (cert_encoded _); by simplify_eq]. destruct (SequenceGenerator_generate _).
  destruct (cert_encoded d); [|done]. destruct (send_called_req _ _ _ _); [|by simplify_eq].
  destruct (cert_encoded _); by simplify_eq.
Qed.

Lemma deliver_rendezvous_same encoded qa st1 st2 target notify s :
  same_profiles s (snd (deliver_rendezvous_to_local_peer test probe encoded qa st1 st2 target notify s)).
Proof.
  unfold deliver_rendezvous_to_local_peer. destruct (find_peer _ _); [|done]. destruct (negb encoded); [done|].
  by case_bool_decide.
Qed.

Lemma views_same_profiles s s' : same_profiles s s' -> views_agree sn s -> views_agree sn s'.
Proof. intros [? ?]. by apply views_same. Qed.

Lemma sn_step_agrees s ev s' : views_agree sn s -> sn_step s ev s' -> views_agree sn s'.
Proof.
  intros Hv Hs. destruct Hs as [? ? ? ? ? ? ? ? ? ? ? ? H|? ? ? ? ? ? ? ? ? ? ? ? ? ? H
    |? ? ? ? ? ? ? ? ? ? ? ? ? ? ? H| | | | | |? ? ? ? ? ? ? H| | | |].
  - by eapply report_agrees.
  - unfold handle_query_sn in H. repeat (case_match; simplify_eq); apply reconcile_agrees, observe_agrees; done.
  - unfold handle_call in H. case_match; [|by simplify_eq].
    set (s1 := reconcile_nat_probe_authority _ _ _) in H.
    assert (Hv1 : views_agree sn s1) by by apply reconcile_agrees, observe_agrees.
    destruct (find_peer (sc_from_peer_id _) _); [|by simplify_eq]. destruct (find_peer _ _); [|by simplify_eq].
    by eapply views_same_profiles, Hv1; eapply call_local_same.
  - by apply observe_agrees.
  - unfold prepare_rendezvous. case_match; [|done]. destruct (negb _); [by apply observe_agrees|].
    destruct (is_err _); by apply observe_agrees.
  - by eapply views_same_profiles, Hv; apply deliver_rendezvous_same.
  - by eapply views_same_profiles, Hv.
  - unfold query_detail_from_sn. case_match; [|done]. by apply reconcile_agrees.
  - unfold relay_call_from_sn in H. case_match; [|by simplify_eq].
    change s' with (snd (res, sent, s')). rewrite <-H. by eapply views_same_profiles, Hv; apply deliver_called_same.
  - unfold relay_rendezvous_from_sn. case_match; [|done].
    by eapply views_same_profiles, Hv; apply deliver_rendezvous_same.
  - by apply maintain_agrees.
  - by apply ports_agree.
  - by apply disconnect_agrees.
Qed.

Lemma sn_reachable_agrees s : sn_reachable s -> views_agree sn s.
Proof.
  induction 1 as [seq0 now|s ev s' _ IH Hs]; [|by eapply sn_step_agrees]. split; [done|]. intros id. simpl.
  unfold cached_profile, profile_of. simpl. by rewrite !lookup_empty.
Qed.

Lemma reconcile_stub peer st s : sv_call_stub (reconcile_nat_probe_authority peer st s) = sv_call_stub s.
Proof.
  unfold reconcile_nat_probe_authority, finish_nat_probe_authority_reconcile.
  destruct (authority_registration _ _) as [[a g]|]; [|done]. destruct (authority_path_present _ _ _); [done|].
  by destruct (remove_peer_if_authority _ _ _ _) as [[] d].
Qed.

Lemma observe_stub id peer t st1 st2 now s :
  sv_call_stub (observe_nat_probe_control id peer t st1 st2 now s) = sv_call_stub s.
Proof.
  unfold observe_nat_probe_control, observe_control_locked. case_match; [|apply reconcile_stub].
  destruct (observe_control _ _ _ _ _). simpl. destruct (profile_update _) as [[]|]; apply reconcile_stub.
Qed.

Lemma report_stub identity peer t (report : ReportSn R) st1 st2 st3 t1 now s res s' :
  handle_report_sn (Rc := Rc) validator test identity sn peer t report st1 st2 st3 t1 now s = Some (res, s') ->
  sv_call_stub s' = sv_call_stub s.
Proof.
  unfold handle_report_sn. destruct (check_report _ _ _ _ _ _) as [[[i o] eps]|e]; [|by intros [= <- <-]].
  destruct (create_unwrap _); [|done]. simpl. destruct (report_locked _ _ _ _ _ _ _) as [[tr|] d].
  - destruct (apply_nat_probe_transition _ _ _) as [dir s1] eqn:E. intros [= _ <-].
    unfold apply_nat_probe_transition in E. injection E as _ <-.
    destruct (profile_update tr) as [[]|]; simpl; by rewrite reconcile_stub.
  - intros [= _ <-]. simpl. by rewrite reconcile_stub.
Qed.

Lemma maintain_stub streams_of now s : sv_call_stub (maintain_nat_probe_state streams_of now s) = sv_call_stub s.
Proof.
  unfold maintain_nat_probe_state. destruct (expire_due _ _). simpl. generalize (authorities (sv_scheduler s)).
  intros l. revert s. induction l as [|[p t] l IH]; intros s; simpl; [done|]. rewrite IH. apply reconcile_stub.
Qed.

(** What a step does to the remembered calls: nothing and nothing is delivered,
    or the pair is marked with the time, and delivered only if it was new. *)
Definition stub_effect (m : gmap (P2pId * TunnelId) Timestamp) (k : P2pId * TunnelId) (now : Timestamp)
    (delivered : bool) (m' : gmap (P2pId * TunnelId) Timestamp) : Prop :=
  (m' = m /\ delivered = false) \/ (m' = <[k := now]> m /\ (delivered = true -> m !! k = None)).

Lemma call_local_stub local_id call p q st now s res sent s' :
  call_local_peer test called_to_vec send_called local_id call p q st now s = Some (res, sent, s') ->
  stub_effect (stubs (sv_call_stub s)) (call_pair call) now (was_sent sent) (stubs (sv_call_stub s')).
Proof.
  unfold call_local_peer, call_pair. intros H.
  match type of H with ?x ≫= _ = _ => destruct x as [[d|]|]; simpl in H; [|left; by simplify_eq|done] end.
  destruct (_ && _) eqn:E; [|destruct (cert_encoded _); simplify_eq; right; by simpl].
  apply andb_true_iff in E as [E _]. apply negb_true_iff, bool_decide_eq_false_1, eq_None_not_Some in E.
  destruct (SequenceGenerator_generate _). destruct (cert_encoded d); [|done].
  destruct (send_called_req _ _ _ _); [destruct (cert_encoded _)|]; simplify_eq; right; by simpl.
Qed.

Lemma deliver_called_stub call local now s res sent s' :
  deliver_called_to_local_peer called_to_vec send_called call local now s = (res, sent, s') ->
  stub_effect (stubs (sv_call_stub s)) (call_pair call) now (was_sent sent) (stubs (sv_call_stub s')).
Proof.
  unfold deliver_called_to_local_peer, call_pair. intros H. destruct (find_peer _ _); [|left; by simplify_eq].
  destruct (sc_peer_info call); [|left; by simplify_eq]. destruct (cert_create _); [|left; by simplify_eq]. simpl in H.
  destruct (_ && _) eqn:E; [|simplify_eq; right; by simpl].
  apply andb_true_iff in E as [E _]. apply negb_true_iff, bool_decide_eq_false_1, eq_None_not_Some in E.
  destruct (SequenceGenerator_generate _). destruct (cert_encoded _); [|simplify_eq; right; by simpl].
  destruct (send_called_req _ _ _ _); simplify_eq; right; by simpl.
Qed.

Lemma deliver_rendezvous_stub encoded qa st1 st2 target notify s :
  sv_call_stub (snd (deliver_rendezvous_to_local_peer test probe encoded qa st1 st2 target notify s))
  = sv_call_stub s.
Proof.
  unfold deliver_rendezvous_to_local_peer. destruct (find_peer _ _); [|done]. destruct (negb encoded); [done|].
  by case_bool_decide.
Qed.

Lemma handle_call_stub owner client peer t call st1 st2 st3 st4 t1 now s res sent s' :
  handle_call (Some sn) validator test called_to_vec send_called owner client sn peer t call st1 st2 st3 st4
    t1 now s = Some (res, sent, s') ->
  stub_effect (stubs (sv_call_stub s)) (call_pair call) now (was_sent sent) (stubs (sv_call_stub s')).
Proof.
  unfold handle_call. intros H. case_match; [|left; by simplify_eq].
  set (s1 := reconcile_nat_probe_authority _ _ _) in H.
  assert (Hs1 : sv_call_stub s1 = sv_call_stub s) by (unfold s1; by rewrite reconcile_stub, observe_stub).
  destruct (find_peer (sc_from_peer_id _) _); [|left; simplify_eq; by rewrite Hs1].
  destruct (find_peer _ _); [|left; simplify_eq; by rewrite Hs1].
  apply call_local_stub in H. by rewrite Hs1 in H.
Qed.

Lemma sn_step_stub s ev s' :
  sn_step s ev s' ->
  match ev with
  | EvCall k now d => stub_effect (stubs (sv_call_stub s)) k now d (stubs (sv_call_stub s'))
  | EvRecycle _ => False
  | EvOther => sv_call_stub s' = sv_call_stub s
  end.
Proof.
  intros Hs. destruct Hs as [? ? ? ? ? ? ? ? ? ? ? ? H|? ? ? ? ? ? ? ? ? ? ? ? ? ? H
    |? ? ? ? ? ? ? ? ? ? ? ? ? ? ? H| | | | | |? ? ? ? ? ? ? H| | | |].
  - by rewrite (report_stub _ _ _ _ _ _ _ _ _ _ _ _ H).
  - unfold handle_query_sn in H. repeat (case_match; simplify_eq); by rewrite reconcile_stub, observe_stub.
  - by eapply handle_call_stub.
  - by rewrite observe_stub.
  - unfold prepare_rendezvous. case_match; [|done]. destruct (negb _); simpl; [by rewrite observe_stub|].
    destruct (is_err _); simpl; by rewrite observe_stub.
  - by rewrite deliver_rendezvous_stub.
  - done.
  - unfold query_detail_from_sn. case_match; [|done]. simpl. by rewrite reconcile_stub.
  - unfold relay_call_from_sn in H. case_match; [by eapply deliver_called_stub|left; by simplify_eq].
  - unfold relay_rendezvous_from_sn. case_match; [|done]. by rewrite deliver_rendezvous_stub.
  - by rewrite maintain_stub.
  - unfold set_nat_probe_ports. by destruct (set_ports _ _).
  - unfold on_peer_disconnected. by destruct (Rendezvous.remove_peer _ _).
Qed.

(** The service with a caller of [CallStub::recycle] beside it. *)
Inductive stub_step : Service -> sn_event -> Service -> Prop :=
| st_serve s ev s' : sn_step s ev s' -> stub_step s ev s'
| st_recycle now after s :
    stub_step s (EvRecycle now) (set_call_stub (call_stub_recycle now after (sv_call_stub s)) s).

Inductive stub_run : Service -> list sn_event -> Service -> Prop :=
| sr_nil s : stub_run s [] s
| sr_cons s ev s1 evs s' : stub_step s ev s1 -> stub_run s1 evs s' -> stub_run s (ev :: evs) s'.

(** A recycling forgets a pair only when its mark is more than a minute old. *)
Lemma recycle_forgets now after k w st :
  stubs st !! k = Some w -> stubs (call_stub_recycle now after st) !! k = Some w \/ older_than_minute now w = true.
Proof.
  intros Hk. unfold call_stub_recycle. destruct (older_than_minute now (last_recycle st)); [|by left].
  destruct (older_than_minute now w) eqn:E; [by right|left]. simpl. by apply map_lookup_filter_Some_2.
Qed.

Lemma older_than_minute_before now w t : t <= w -> older_than_minute now w = true -> older_than_minute now t = true.
Proof. unfold older_than_minute, from_secs, from_micros. intros Hle H. bool_to_prop. apply andb_true_iff. lia. Qed.

(** While a pair is marked no call of it is delivered, so a delivery takes a
    recycling that forgot the mark. *)
Lemma marked_then_delivered k t w s evs t2 s' :
  t <= w -> stubs (sv_call_stub s) !! k = Some w ->
  (forall t' d, EvCall k t' d ∈ evs -> t <= t') ->
  stub_run s (evs ++ [EvCall k t2 true]) s' ->
  exists r, EvRecycle r ∈ evs /\ older_than_minute r t = true.
Proof.
  revert w s. induction evs as [|ev evs IH]; intros w s Hw Hk Hmono Hrun; inversion Hrun as [|? ? s1 ? ? Hs Hrest]; subst.
  - exfalso. inversion Hs as [? ? ? Hstep|]; subst. apply sn_step_stub in Hstep as [[_ ?]|[_ Hn]]; [done|].
    rewrite Hn in Hk; done.
  - assert (Hmono' : forall t' d, EvCall k t' d ∈ evs -> t <= t') by (intros t' d Hin; eapply Hmono; by right).
    assert (Hgo : forall w', t <= w' -> stubs (sv_call_stub s1) !! k = Some w' ->
              exists r, EvRecycle r ∈ ev :: evs /\ older_than_minute r t = true).
    { intros w' Hw' Hk'. destruct (IH w' s1) as (r & Hr & Ho); [done..|]. exists r. split; [by right|done]. }
    inversion Hs as [? ? ? Hstep|r after ?]; subst.
    + pose proof (sn_step_stub _ _ _ Hstep) as He. destruct ev as [k' t' d|r|].
      * destruct He as [[He _]|[He _]]; [by apply (Hgo w); [|rewrite He]|].
        destruct (decide (k' = k)) as [->|Hne].
        -- apply (Hgo t'); [eapply Hmono; by left|]. rewrite He. apply lookup_insert_eq.
        -- apply (Hgo w); [done|]. rewrite He. by rewrite lookup_insert_ne.
      * done.
      * apply (Hgo w); [done|]. by rewrite He.
    + destruct (recycle_forgets r after k w (sv_call_stub s) Hk) as [Hk'|Ho]; [by apply (Hgo w)|].
      exists r. split; [by left|]. by eapply older_than_minute_before.
Qed.

(** C26: calls are delivered once per recycling: in any run of the service - its
    own calls, calls relayed by other SNs, and everything else it does, with
    anybody recycling the remembered calls in between - two deliveries of calls
    of the same caller with the same tunnel id have a recycling between them,
    made more than a minute after the first delivery (provided the clock did
    not go back in between).  So within a minute, and for as long as nobody
    recycles, a call is delivered at most once. *)
Theorem call_delivered_once k t1 t2 s evs s' :
  stub_run s (EvCall k t1 true :: evs ++ [EvCall k t2 true]) s' ->
  (forall t d, EvCall k t d ∈ evs -> t1 <= t) ->
  exists r, EvRecycle r ∈ evs /\ t1 < r /\ from_secs 60 < from_micros (r - t1).
Proof.
  intros Hrun Hmono. inversion Hrun as [|? ? s1 ? ? Hs Hrest]; subst.
  inversion Hs as [? ? ? Hstep|]; subst. apply sn_step_stub in Hstep as [[_ ?]|[He _]]; [done|].
  destruct (marked_then_delivered k t1 t1 s1 evs t2 s') as (r & Hr & Ho); [lia|rewrite He; apply lookup_insert_eq|done|done|].
  exists r. split; [done|]. unfold older_than_minute in Ho. bool_to_prop. lia.
Qed.

(** A fresh profile has a mapping. *)
Lemma fresh_offers (p : CachedPeerInfo (Cert:=Cert)) now :
  fresh_net_profile p now = if is_fresh (pi_net_profile p) now then Some (pi_net_profile p) else None.
Proof.
  unfold fresh_net_profile, mapping_at. destruct (is_fresh (pi_net_profile p) now) eqn:E; [|done].
  unfold is_fresh in E. bool_to_prop. by rewrite bool_decide_eq_false_2.
Qed.

(** C19: the two copies of a NAT profile agree: after any sequence of reports,
    queries, calls, rendezvous, inter-SN commands, expiries, reconfigurations
    and disconnections, each handler running to its end, the peer cache offers
    for every cached peer and at every time exactly the profile the scheduler
    offers, and the scheduler has no profile for a peer that is not cached. *)
Theorem profile_views_agree s id now :
  sn_reachable s ->
  match sv_peer_mgr s !! id with
  | Some p => fresh_net_profile p now = current_profile id now (sv_scheduler s)
  | None => current_profile id now (sv_scheduler s) = None
  end.
Proof.
  intros Hr. pose proof (va_agrees _ _ (sn_reachable_agrees _ Hr) id) as Ha.
  unfold cached_profile in Ha. unfold current_profile. change (peers (sv_scheduler s) !! id ≫= profile)
    with (profile_of id (sv_scheduler s)). destruct (sv_peer_mgr s !! id) as [p|]; simpl in Ha; [|by rewrite Ha].
  rewrite fresh_offers, Ha. by destruct (profile_of id (sv_scheduler s)).
Qed.
End runs.

(** ** A report, and the race *)

Module ProfileDemo.

Import SnDemo.

Definition q : NatProfile := mkProfile 1 NonSymmetricLike 900 9000 None.
Definition report : ReportSn unit :=
  mkReport 0 0 3 sn1 (Some peer5) (Some [5]) 1000 None None [] [] (Some q) (Some 1) None.

Definition report_on (s : SnService Z P2pId) : SnService Z P2pId :=
  match handle_report_sn (Rc := unit) allow_all_sn_validate false (Some (Ok [1])) sn1 peer5 7 report
          streams7 streams7 streams7 1000 1000 s with
  | Some (_, s') => s'
  | None => s
  end.

(** A report publishes the client's profile in both places. *)
Lemma report_publishes :
  current_profile peer5 2000 (sv_scheduler (report_on s0)) = Some q
  /\ (fun p => fresh_net_profile p 2000) <$> sv_peer_mgr (report_on s0) !! peer5 = Some (Some q).
Proof. by vm_compute. Qed.

Definition never_encoded (_ : SnCalled) : option (list Z) := None.
Definition never_sent (_ : P2pId) (_ : list Z) : bool := false.
Definition accept_inter (_ : P2pId) : P2pResult ValidateResult := Ok Accept.
Definition accept_command (_ : P2pId) (_ : InterSnCommand) (_ : P2pId) : P2pResult ValidateResult := Ok Accept.

Lemma profile_views_agree_witness :
  (fun p => fresh_net_profile p 2000) <$> sv_peer_mgr (report_on s0) !! peer5 = Some (Some q).
Proof.
  assert (Hr : sn_reachable (R := unit) (Rc := unit) sn1 allow_all_sn_validate accept_inter accept_command false
                 (fun _ _ => true) never_encoded never_sent (report_on s0)).
  { apply (sn_more _ _ _ _ _ _ _ _ s0 EvOther); [apply sn_init|].
    eapply (sn_report _ _ _ _ _ _ _ _ (Some (Ok [1])) peer5 7 report streams7 streams7 streams7 1000 1000).
    by vm_compute. }
  pose proof (profile_views_agree _ _ _ _ _ _ _ _ _ peer5 2000 Hr) as H.
  destruct (sv_peer_mgr (report_on s0) !! peer5) as [p|] eqn:E; [|by vm_compute in E].
  simpl. by rewrite H.
Defined.

Definition honest_call : SnCall :=
  mkCall 0 0 11 12 sn1 peer6 peer5 None None None 1000 TunnelStream [] true None.
Definition call_on (s : SnService Z P2pId) :=
  handle_call (Some sn1) allow_all_sn_validate false (fun _ => Some []) (fun _ _ => true) (Ok []) None
    sn1 peer5 7 honest_call streams7 streams7 streams7 streams7 1000 1000 s.
Definition after_call (s : SnService Z P2pId) : SnService Z P2pId :=
  match call_on s with Some (_, _, s') => s' | None => s end.

(** The call again after a recycling 61 s later: delivered twice, with the
    recycling in between. *)
Definition recycled_at : Timestamp := 61001000.
Definition call_later (s : SnService Z P2pId) :=
  handle_call (Some sn1) allow_all_sn_validate false (fun _ => Some []) (fun _ _ => true) (Ok []) None
    sn1 peer5 7 honest_call streams7 streams7 streams7 streams7 1000 recycled_at s.

Lemma call_delivered_once_witness :
  exists s2 s3 res sent,
    s2 = set_call_stub (call_stub_recycle recycled_at recycled_at (sv_call_stub (after_call (knows [peer5; peer6]))))
           (after_call (knows [peer5; peer6]))
    /\ call_later s2 = Some (res, sent, s3) /\ was_sent sent = true
    /\ exists r, EvRecycle r ∈ [EvRecycle recycled_at] /\ from_secs 60 < from_micros (r - 1000).
Proof.
  eexists _, _, _, _. split; [reflexivity|]. split; [by vm_compute|]. split; [by vm_compute|].
  destruct (call_delivered_once (R := unit) (Rc := unit) sn1 allow_all_sn_validate accept_inter accept_command
    false (fun _ _ => true) (fun _ => Some []) (fun _ _ => true) (call_pair honest_call) 1000 recycled_at
    (knows [peer5; peer6]) [EvRecycle recycled_at]
    (match call_later (set_call_stub (call_stub_recycle recycled_at recycled_at
        (sv_call_stub (after_call (knows [peer5; peer6])))) (after_call (knows [peer5; peer6]))) with
     | Some (_, _, s3) => s3 | None => knows [] end)) as (r & Hr & _ & Ho).
  - eapply (sr_cons _ _ _ _ _ _ _ _ _ (EvCall _ _ true) (after_call (knows [peer5; peer6]))).
    { apply st_serve. eapply (sn_call _ _ _ _ _ _ _ _ (Ok []) None peer5 7 honest_call streams7 streams7 streams7 streams7 1000
        1000 _ _ [_]). by vm_compute. }
    simpl. eapply sr_cons; [apply st_recycle|]. eapply sr_cons; [|apply sr_nil].
    apply st_serve. eapply (sn_call _ _ _ _ _ _ _ _ (Ok []) None peer5 7 honest_call streams7 streams7 streams7 streams7 1000
        recycled_at _ _ [_]). by vm_compute.
  - intros t d Hin. by apply list_elem_of_singleton in Hin.
  - by exists r.
Defined.

(** A control command of the same client, interrupted between its two locked
    regions by the report: the transition of its registration is applied late
    and erases the profile that was published in between. *)
Lemma stale_transition_erases_profile :
  exists tr s1 s3,
    observe_control_locked sn1 peer5 7 path 900 s0 = (tr, s1)
    /\ snd (apply_nat_probe_transition peer5 tr (report_on s1)) = s3
    /\ current_profile peer5 2000 (sv_scheduler s3) = Some q
    /\ (fun p => fresh_net_profile p 2000) <$> sv_peer_mgr s3 !! peer5 = Some None.
Proof. eexists _, _, _. split; [reflexivity|]. split; [reflexivity|]. by vm_compute. Qed.
End ProfileDemo.
