(* ===== verification/RendezvousNet.v ===== *)
(** * Rendezvous notifications across SNs
      (src/p2p-frame/src/sn/service/service.rs)

    Several SNs, each with its own service: a client asks its SN for a
    rendezvous, the SN authenticates the request and leads the attempt, asks the
    target if it serves it, or else relays the notification to an SN that does,
    which checks the relaying SN and asks the target.  The theorem follows a
    notification back from the target to the request that caused it. *)

From S2P Require Import PnServer.
From S2P Require Import Prelude.
From S2P Require Import Errors.
From S2P Require Import Ids.
From S2P Require Import Endpoint.
From S2P Require Import NatType.
From S2P Require Import SnProtocol.
From S2P Require Import Rendezvous.
From S2P Require Import PeerManager.
From S2P Require Import SnEndpoints.
From S2P Require Import SnService.

(** ** The streams that are asked *)

Section asked.
Context {T : Type} (test : bool) (probe : Endpoint -> Endpoint -> bool).

(** A stream that fails passes the question on to the next one. *)
Fixpoint asked_in_turn (qa : T -> QaOutcome) (order : list T) : list T :=
  match order with
  | [] => []
  | conn :: order => conn :: match qa conn with QaFailed => asked_in_turn qa order | _ => [] end
  end.

(** The streams over which [deliver_rendezvous_to_local_peer] sends. *)
Definition asked_streams {Cert} (encoded : bool) (qa : T -> QaOutcome) (st : list (T * Endpoint)) (target : P2pId)
    (s : SnService T Cert) : list T :=
  match find_peer target (sv_peer_mgr s) with
  | None => []
  | Some _ =>
      if negb encoded then []
      else asked_in_turn qa (delivery_order st.*1 (Z.to_nat (sv_cursor s mod Z.of_nat (length st.*1))))
  end.

(** Nothing else is asked: the outcome depends on what these streams give. *)
Lemma asked_decide {Cert} encoded qa qa' (st1 st2 : list (T * Endpoint)) target notify (s : SnService T Cert) :
  (forall c, c ∈ asked_streams encoded qa st1 target s -> qa c = qa' c) ->
  deliver_rendezvous_to_local_peer test probe encoded qa st1 st2 target notify s
  = deliver_rendezvous_to_local_peer test probe encoded qa' st1 st2 target notify s.
Proof.
  unfold asked_streams, deliver_rendezvous_to_local_peer. destruct (find_peer _ _); [|done].
  destruct (negb encoded); [done|]. case_bool_decide; [done|]. intros Heq. f_equal.
  generalize (@None P2pErrorCode.t) as last. revert Heq.
  induction (delivery_order _ _) as [|conn order IH]; intros Heq last; simpl in *; [done|].
  rewrite <-(Heq conn) by (by left). destruct (qa conn); try done. rewrite IH; [done|].
  intros conn' Hc'. apply Heq. by right.
Qed.
End asked.

(** ** The network *)

Section net.
Context {T : Type} `{!EqDecision T} {Cert : Type} `{!CertOps Cert}.
(** The validators each SN was created with. *)
Context (validator : P2pId -> SnConnectionValidateContext -> P2pResult ValidateResult)
  (inter_connection : P2pId -> P2pId -> P2pResult ValidateResult)
  (inter_command : P2pId -> P2pId -> InterSnCommand -> P2pId -> P2pResult ValidateResult)
  (test : bool) (probe : Endpoint -> Endpoint -> bool).
Notation Streams := (list (T * Endpoint)).

(** A request the SN [ap_sn] went on with, over stream [ap_stream] of the
    client: the service and the client's streams as they were. *)
Record approval := mkApproval {
  ap_sn : P2pId; ap_service : SnService T Cert; ap_client : P2pId; ap_stream : T; ap_streams : Streams;
  ap_request : SnTunnelRendezvous; ap_notify : SnTunnelRendezvousNotify }.

(** A question put to a target: by which SN, on behalf of which, over which stream. *)
Record delivery := mkDelivery {
  dl_sn : P2pId; dl_from : P2pId; dl_target : P2pId; dl_stream : T; dl_notify : SnTunnelRendezvousNotify }.

Record net := mkRzNet {
  rn_services : gmap P2pId (SnService T Cert);
  rn_approved : list approval;
  rn_leads : list approval;          (* attempts led *)
  rn_unserved : list approval;       (* led, and the target is not served here *)
  rn_relayed : list (P2pId * P2pId * P2pId * SnTunnelRendezvousNotify); (* from, to, target *)
  rn_delivered : list delivery }.

Definition set_service (x : P2pId) (s : SnService T Cert) (w : net) : net :=
  mkRzNet (<[x := s]> (rn_services w)) (rn_approved w) (rn_leads w) (rn_unserved w) (rn_relayed w) (rn_delivered w).
Definition note_delivery (y from target : P2pId) (notify : SnTunnelRendezvousNotify) (conns : list T) (w : net) : net :=
  mkRzNet (rn_services w) (rn_approved w) (rn_leads w) (rn_unserved w) (rn_relayed w)
    (((fun c => mkDelivery y from target c notify) <$> conns) ++ rn_delivered w).

(** Each SN interleaves its requests, deliveries, relays and everything else it
    does, which may change its state in any way. *)
Inductive rznet_step : net -> net -> Prop :=
| ns_other x s w : rznet_step w (set_service x s w)
(* [handle_rendezvous] up to the notification *)
| ns_prepare x s client t request st1 st2 st3 t1 notify s' w :
    rn_services w !! x = Some s ->
    prepare_rendezvous (validator x) test probe x client t request st1 st2 st3 t1 s = (Some notify, s') ->
    rznet_step w
      (mkRzNet (<[x := s']> (rn_services w)) (mkApproval x s client t st3 request notify :: rn_approved w)
         (rn_leads w) (rn_unserved w) (rn_relayed w) (rn_delivered w))
(* [process_rendezvous_request]: an attempt to lead *)
| ns_begin a s now out z w :
    a ∈ rn_approved w -> rn_services w !! ap_sn a = Some s ->
    process_begin (ap_client a) (ap_request a) now (sv_rendezvous s) = (BegunLead, out, z) ->
    rznet_step w
      (mkRzNet (<[ap_sn a := set_rendezvous z s]> (rn_services w)) (rn_approved w) (a :: rn_leads w)
         (rn_unserved w) (rn_relayed w) (rn_delivered w))
(* the leader asks the target; a target not served here is left to the relay *)
| ns_deliver a s encoded qa st1 st2 res closed s' w :
    a ∈ rn_leads w -> rn_services w !! ap_sn a = Some s ->
    deliver_rendezvous_to_local_peer test probe encoded qa st1 st2 (rq_to_peer_id (ap_request a)) (ap_notify a) s
      = (res, closed, s') ->
    rznet_step w
      (note_delivery (ap_sn a) (ap_sn a) (rq_to_peer_id (ap_request a)) (ap_notify a)
         (asked_streams encoded qa st1 (rq_to_peer_id (ap_request a)) s)
         (mkRzNet (<[ap_sn a := s']> (rn_services w)) (rn_approved w) (rn_leads w)
            (match res with Err P2pErrorCode.TargetNotFound => a :: rn_unserved w | _ => rn_unserved w end)
            (rn_relayed w) (rn_delivered w)))
(* the relay to an SN with a lease *)
| ns_relay a y w :
    a ∈ rn_unserved w -> y <> ap_sn a ->
    rznet_step w
      (mkRzNet (rn_services w) (rn_approved w) (rn_leads w) (rn_unserved w)
         ((ap_sn a, y, rq_to_peer_id (ap_request a), ap_notify a) :: rn_relayed w) (rn_delivered w))
(* [relay_rendezvous_from_sn] at that SN *)
| ns_arrive x y target notify s encoded qa st1 st2 res closed s' w :
    (x, y, target, notify) ∈ rn_relayed w -> rn_services w !! y = Some s ->
    relay_rendezvous_from_sn (inter_connection y) (inter_command y) test probe x target notify encoded qa st1 st2 s
      = (res, closed, s') ->
    rznet_step w
      (note_delivery y x target notify
         (match _ <-? validate_inter_connection (inter_connection y) x ;;
                _ <-? validate_inter_command (inter_command y) x CmdRelayRendezvous target ;;
                _ <-? notify_validate test probe notify ;;
                initiator <-? cert_create (nt_peer_info notify) ;;
                if bool_decide (cert_get_id initiator = target) then Err P2pErrorCode.PermissionDenied else Ok tt with
          | Ok _ => asked_streams encoded qa st1 target s
          | Err _ => []
          end)
         (set_service y s' w))
(* the end of the leader *)
| ns_finish a s o now resp out z w l1 l2 :
    rn_leads w = l1 ++ a :: l2 -> rn_services w !! ap_sn a = Some s ->
    process_finish test probe (ap_client a) (ap_request a) o now (sv_rendezvous s) = (resp, out, z) ->
    rznet_step w
      (mkRzNet (<[ap_sn a := set_rendezvous z s]> (rn_services w)) (rn_approved w) (l1 ++ l2)
         (rn_unserved w) (rn_relayed w) (rn_delivered w)).

Definition net_empty : net := mkRzNet ∅ [] [] [] [] [].

(** ** What a notification stands for *)

(** The client was authenticated by its SN and offered its own address. *)
Definition authenticated (a : approval) : Prop :=
  exists p parsed cert,
    rendezvous_validate test probe (ap_request a) = Ok tt
    /\ ap_client a <> rq_to_peer_id (ap_request a)
    /\ sv_peer_mgr (ap_service a) !! ap_client a = Some p /\ cert_encoded (pi_desc p) = Ok cert
    /\ cert_create cert = Ok parsed /\ cert_get_id parsed = ap_client a
    /\ validator (ap_sn a) (mkSnCtx (ap_client a) cert) = Ok Accept
    /\ (rq_end_point_array (ap_request a) = []
        \/ exists o, get_peer_tunnel_remote (ap_streams a) (ap_stream a) = Some o
             /\ forall ep, ep ∈ rq_end_point_array (ap_request a) -> ip_of (addr ep) = ip_of (addr o))
    /\ ap_notify a = mkNotify (rq_seq (ap_request a)) (rq_tunnel_id (ap_request a)) cert (rq_operation (ap_request a))
                       (rq_end_point_array (ap_request a)) (rq_need_predict_endpoint (ap_request a)).

(** The SN that relayed was accepted by the one that delivers. *)
Definition relay_accepted (y x target : P2pId) : Prop :=
  inter_connection y x = Ok Accept /\ inter_command y x CmdRelayRendezvous target = Ok Accept.

Record net_ok (w : net) : Prop := {
  no_approved : Forall authenticated (rn_approved w);
  no_leads : forall a, a ∈ rn_leads w -> a ∈ rn_approved w;
  no_unserved : forall a, a ∈ rn_unserved w -> a ∈ rn_approved w;
  no_relayed : forall x y target notify, (x, y, target, notify) ∈ rn_relayed w ->
    y <> x /\ exists a, a ∈ rn_approved w /\ ap_sn a = x /\ rq_to_peer_id (ap_request a) = target /\ ap_notify a = notify;
  no_delivered : forall d, d ∈ rn_delivered w ->
    (exists a, a ∈ rn_approved w /\ ap_sn a = dl_from d /\ rq_to_peer_id (ap_request a) = dl_target d
       /\ ap_notify a = dl_notify d)
    /\ (dl_sn d = dl_from d \/ dl_sn d <> dl_from d /\ relay_accepted (dl_sn d) (dl_from d) (dl_target d));
}.

Lemma note_delivery_ok y from target notify conns w :
  net_ok w ->
  (conns <> [] ->
     (exists a, a ∈ rn_approved w /\ ap_sn a = from /\ rq_to_peer_id (ap_request a) = target /\ ap_notify a = notify)
     /\ (y = from \/ y <> from /\ relay_accepted y from target)) ->
  net_ok (note_delivery y from target notify conns w).
Proof.
  intros [Ha Hl Hu Hr Hd] Hnew. split; simpl; auto. intros d [Hin|Hin]%elem_of_app; [|auto].
  apply list_elem_of_fmap in Hin as (c & -> & Hc). simpl. apply Hnew. by intros ->; apply elem_of_nil in Hc.
Qed.

Lemma relay_checks_accept {A} y x target (v : A) r :
  (_ <-? validate_inter_connection (inter_connection y) x ;;
   _ <-? validate_inter_command (inter_command y) x CmdRelayRendezvous target ;; r) = Ok v ->
  relay_accepted y x target.
Proof.
  unfold validate_inter_connection, validate_inter_command, verdict_result, relay_accepted.
  destruct (inter_connection y x) as [[]|]; [|done..]. simpl. by destruct (inter_command y x _ _) as [[]|].
Qed.

Lemma net_step_ok w w' : rznet_step w w' -> net_ok w -> net_ok w'.
Proof.
  intros Hs Hok. destruct Hs as [x s w|x s client t request st1 st2 st3 t1 notify s' w Hx Hp|a s now out z w Ha Hx Hb
    |a s encoded qa st1 st2 res closed s' w Ha Hx Hd|a y w Ha Hy|x y target notify s encoded qa st1 st2 res closed s' w Hin Hx Hd
    |a s o now resp out z w l1 l2 Hl Hx Hf].
  - by destruct Hok.
  - destruct Hok as [Ha Hl Hu Hr Hd]. split; simpl.
    + constructor; [|done]. apply (prepare_rendezvous_spec (validator x) test probe x client t request st1 st2 st3 t1 s notify).
      by rewrite Hp.
    + intros a Hin. right. auto.
    + intros a Hin. right. auto.
    + intros x0 y target n Hin. destruct (Hr _ _ _ _ Hin) as (Hne & a & ? & ?). split; [done|]. exists a. split; [by right|done].
    + intros d Hin. destruct (Hd d Hin) as [(a & ? & ?) Hor]. split; [|done]. exists a. split; [by right|done].
  - destruct Hok as [Ha' Hl Hu Hr Hd]. split; simpl; auto. by intros b [->|?]%elem_of_cons; auto.
  - apply note_delivery_ok.
    + destruct Hok as [Ha' Hl Hu Hr Hdl]. split; simpl; auto. intros b Hb.
      assert (b = a \/ b ∈ rn_unserved w) as [->|?] by (repeat case_match; set_solver); auto.
    + intros _. split; [|by left]. exists a. split; [by apply Hok|done].
  - destruct Hok as [Ha' Hl Hu Hr Hd]. split; simpl; auto.
    intros x0 y0 target n [Heq|Hin]%elem_of_cons; [|auto]. simplify_eq. split; [done|]. exists a. auto.
  - destruct (no_relayed _ Hok _ _ _ _ Hin) as [Hne Happ]. apply note_delivery_ok; [by destruct Hok|]. intros Hc.
    split; [exact Happ|]. right. split; [done|]. case_match eqn:E; [|done]. by eapply relay_checks_accept.
  - destruct Hok as [Ha' Hl' Hu Hr Hd]. split; simpl; auto. intros b Hb. apply Hl'. rewrite Hl. set_solver.
Qed.

Lemma net_run_ok w : rtc rznet_step net_empty w -> net_ok w.
Proof.
  intros Hr. eapply (rtc_preserves rznet_step net_ok); [intros ? ?; apply net_step_ok|exact Hr|].
  split; simpl; [constructor|..]; intros; by match goal with H : _ ∈ [] |- _ => apply elem_of_nil in H end.
Qed.

End net.

(** ** A request that is relayed *)

Module NetDemo.
Import SnDemo.

Definition sn2 : P2pId := mkP2pId [2].
Definition request : SnTunnelRendezvous := mkRendezvous 3 4 peer6 WaitIncoming [] false.
Definition any_sn (_ : P2pId) (_ : SnConnectionValidateContext) : P2pResult ValidateResult := Ok Accept.
Definition any_inter (_ _ : P2pId) : P2pResult ValidateResult := Ok Accept.
Definition any_command (_ _ : P2pId) (_ : InterSnCommand) (_ : P2pId) : P2pResult ValidateResult := Ok Accept.
Notation step := (rznet_step any_sn any_inter any_command false (fun _ _ => true)).

(** Client 5 is known to SN 1, its target 6 to SN 2 only; there stream 7 of the
    target is broken and stream 8 answers. *)
Definition asking : approval (T:=Z) (Cert:=P2pId) := mkApproval sn1 (knows [peer5]) peer5 7 streams7 request notify5.

Lemma relayed_run :
  exists w, rtc step net_empty w /\ rn_delivered w = [mkDelivery sn2 sn1 peer6 7 notify5; mkDelivery sn2 sn1 peer6 8 notify5].
Proof.
  eexists. split.
  - eapply rtc_l; [apply (ns_other _ _ _ _ _ sn1 (knows [peer5]))|].
    eapply rtc_l; [apply (ns_other _ _ _ _ _ sn2 (knows [peer6]))|].
    eapply rtc_l.
    { apply (ns_prepare _ _ _ _ _ sn1 (knows [peer5]) peer5 7 request streams7 streams7 streams7 1000 notify5); by vm_compute. }
    eapply rtc_l.
    { eapply (ns_begin _ _ _ _ _ asking _ 1000); [by left|by vm_compute|by vm_compute]. }
    eapply rtc_l.
    { eapply (ns_deliver _ _ _ _ _ asking _ true qa8 streams7 streams7); [by left|by vm_compute|by vm_compute]. }
    eapply rtc_l; [apply (ns_relay _ _ _ _ _ asking sn2); [by left|done]|].
    eapply rtc_l; [|apply rtc_refl].
    eapply (ns_arrive _ _ _ _ _ sn1 sn2 peer6 notify5 (knows [peer6]) true qa8 streams7 streams7);
      [by left|by vm_compute|by vm_compute].
  - by vm_compute.
Qed.

End NetDemo.
