(* ===== verification/SnServer.v ===== *)
(** * The SN server (src/p2p-frame/src/sn/service/service.rs)

    The command handlers an SN registers, which decode a command, run the
    handler and encode its answer; the streams it accepts; and its life cycle
    with the background tasks it spawns and aborts.  Codecs, sockets and the
    executor are parameters: what an operation of theirs returned is an
    argument. *)

From S2P Require Import PnServer.
From S2P Require Import Prelude.
From S2P Require Import Errors.
From S2P Require Import Ids.
From S2P Require Import Endpoint.
From S2P Require Import NatType.
From S2P Require Import SnProtocol.
From S2P Require Import Rendezvous.
From S2P Require Import Membership.
From S2P Require Import NatProbeScheduler.
From S2P Require Import SnExtension.
From S2P Require Import PeerManager.
From S2P Require Import SnEndpoints.
From S2P Require Import SnService.

(** ** Commands *)

(** The error codes of the command server that the handlers use. *)
Inductive CmdErrorCode := CmdInvalidParam | CmdRawCodecError | CmdFailed | CmdReadError.

Definition SN_TUNNEL_RENDEZVOUS_CMD_VERSION : Z := 1.

(** sn/protocol/common.rs *)
Inductive PackageCmdCode :=
| PkSnCall | PkSnCallResp | PkSnCalled | PkSnCalledResp | PkReportSn | PkReportSnResp | PkSnQuery
| PkSnQueryResp | PkSnTunnelRendezvous | PkSnTunnelRendezvousNotify.

Definition cmd_code_as_u8 (c : PackageCmdCode) : Z :=
  match c with
  | PkSnCall => 0x20 | PkSnCallResp => 0x21 | PkSnCalled => 0x22 | PkSnCalledResp => 0x23
  | PkReportSn => 0x24 | PkReportSnResp => 0x25 | PkSnQuery => 0x26 | PkSnQueryResp => 0x27
  | PkSnTunnelRendezvous => 0x2c | PkSnTunnelRendezvousNotify => 0x2d
  end.

Definition cmd_code_try_from (v : Z) : P2pResult PackageCmdCode :=
  if v =? 0x20 then Ok PkSnCall else if v =? 0x21 then Ok PkSnCallResp
  else if v =? 0x22 then Ok PkSnCalled else if v =? 0x23 then Ok PkSnCalledResp
  else if v =? 0x24 then Ok PkReportSn else if v =? 0x25 then Ok PkReportSnResp
  else if v =? 0x26 then Ok PkSnQuery else if v =? 0x27 then Ok PkSnQueryResp
  else if v =? 0x2c then Ok PkSnTunnelRendezvous else if v =? 0x2d then Ok PkSnTunnelRendezvousNotify
  else Err P2pErrorCode.InvalidParam.

(** [is_sn] compares with the derived order, which is that of the codes. *)
Definition cmd_code_is_sn (c : PackageCmdCode) : bool :=
  (cmd_code_as_u8 PkSnCall <=? cmd_code_as_u8 c) && (cmd_code_as_u8 c <=? cmd_code_as_u8 PkSnTunnelRendezvousNotify).

Lemma cmd_code_roundtrip c : cmd_code_try_from (cmd_code_as_u8 c) = Ok c /\ cmd_code_is_sn c = true.
Proof. by destruct c. Qed.

Lemma cmd_code_try_from_inv v c : cmd_code_try_from v = Ok c -> cmd_code_as_u8 c = v.
Proof. unfold cmd_code_try_from. intros H. repeat (case_match; simplify_eq); bool_to_prop; simpl; congruence. Qed.

Section commands.
Context {CmdTunnelId : Type} `{!EqDecision CmdTunnelId} {Cert : Type} `{!CertOps Cert} {R Rc : Type}.
Context (local_sn_id : option P2pId) (connection_validator : SnConnectionValidateContext -> P2pResult ValidateResult)
  (test : bool) (probe : Endpoint -> Endpoint -> bool)
  (called_to_vec : SnCalled -> option (list Z)) (send_called : P2pId -> list Z -> bool).
(** The codecs of the messages; [None] is a codec error. *)
Context (call_from : list Z -> option SnCall) (call_resp_to_vec : SnCallResp -> option (list Z))
  (called_resp_from : list Z -> option unit)
  (report_from : list Z -> option (ReportSn R)) (report_resp_to_vec : ReportSnResp Rc -> option (list Z))
  (query_from : list Z -> option SnQuery) (query_resp_to_vec : SnQueryResp -> option (list Z))
  (rendezvous_from : list Z -> option SnTunnelRendezvous)
  (rendezvous_resp_to_vec : SnTunnelRendezvousResp -> option (list Z)).

Notation Service := (SnService CmdTunnelId Cert).
Notation Streams := (list (CmdTunnelId * Endpoint)).
Notation Sent := (list (P2pId * SnCalled)).
(** The body of a command as the command server delivers it. *)
Notation Body := (option (list Z)).
Notation Reply := (Result CmdErrorCode (option (list Z))).

Definition decoded {A} (from : list Z -> option A) (body : Body) : Result CmdErrorCode A :=
  match body with
  | None => Err CmdReadError
  | Some bytes => match from bytes with Some m => Ok m | None => Err CmdRawCodecError end
  end.
Definition encoded_reply (bytes : option (list Z)) : Reply :=
  match bytes with Some b => Ok (Some b) | None => Err CmdRawCodecError end.

Definition on_sn_call owner client (local_id peer : P2pId) (t : CmdTunnelId) (body : Body)
    (st1 st2 st3 st4 : Streams) (t1 now : Timestamp) (s : Service) : option (Reply * Sent * Service) :=
  match decoded call_from body with
  | Err e => Some (Err e, [], s)
  | Ok call =>
      '(res, sent, s) ← handle_call local_sn_id connection_validator test called_to_vec send_called owner client
                          local_id peer t call st1 st2 st3 st4 t1 now s;
      Some (match res with Ok resp => encoded_reply (call_resp_to_vec resp) | Err _ => Err CmdFailed end, sent, s)
  end.

(** The stream is observed before the body is read; the response itself is
    only logged. *)
Definition on_called_resp (local_id peer : P2pId) (t : CmdTunnelId) (body : Body) (st1 st2 : Streams)
    (t1 : Timestamp) (s : Service) : Reply * Service :=
  let s := observe_nat_probe_control local_id peer t st1 st2 t1 s in
  (match decoded called_resp_from body with Ok _ => Ok None | Err e => Err e end, s).

Definition on_report_sn identity (local_id peer : P2pId) (t : CmdTunnelId) (body : Body)
    (st1 st2 st3 : Streams) (t1 now : Timestamp) (s : Service) : option (Reply * Service) :=
  match decoded report_from body with
  | Err e => Some (Err e, s)
  | Ok report =>
      '(res, s) ← handle_report_sn (Rc := Rc) connection_validator test identity local_id peer t report
                    st1 st2 st3 t1 now s;
      Some (match res with Ok resp => encoded_reply (report_resp_to_vec resp) | Err _ => Err CmdFailed end, s)
  end.

Definition on_sn_query owner client (local_id peer : P2pId) (t : CmdTunnelId) (body : Body)
    (st1 st2 st3 st4 : Streams) (t1 now : Timestamp) (s : Service) : option (Reply * Service) :=
  match decoded query_from body with
  | Err e => Some (Err e, s)
  | Ok q =>
      '(resp, s) ← handle_query_sn local_sn_id test owner client local_id peer t q st1 st2 st3 st4 t1 now s;
      Some (encoded_reply (query_resp_to_vec resp), s)
  end.

(** A rendezvous up to the notification; [Ok None] is the failure answer that
    needs no leader. *)
Definition on_rendezvous (version : Z) (local_id peer : P2pId) (t : CmdTunnelId) (body : Body)
    (st1 st2 st3 : Streams) (t1 : Timestamp) (s : Service)
    : Result CmdErrorCode (SnTunnelRendezvous * option SnTunnelRendezvousNotify) * Service :=
  if negb (version =? SN_TUNNEL_RENDEZVOUS_CMD_VERSION) then (Err CmdInvalidParam, s)
  else match decoded rendezvous_from body with
       | Err e => (Err e, s)
       | Ok request =>
           let '(notify, s) := prepare_rendezvous connection_validator test probe local_id peer t request
                                 st1 st2 st3 t1 s in
           (Ok (request, notify), s)
       end.

(** A command that cannot be read or decoded, or a rendezvous of another
    version, is refused and leaves no trace. *)
Lemma bad_command_inert owner client identity local_id peer t version body st1 st2 st3 st4 t1 now s :
  (decoded call_from body = Err CmdReadError \/ decoded call_from body = Err CmdRawCodecError ->
   exists e, on_sn_call owner client local_id peer t body st1 st2 st3 st4 t1 now s = Some (Err e, [], s))
  /\ (is_err (decoded report_from body) = true ->
      exists e, on_report_sn identity local_id peer t body st1 st2 st3 t1 now s = Some (Err e, s))
  /\ (is_err (decoded query_from body) = true ->
      exists e, on_sn_query owner client local_id peer t body st1 st2 st3 st4 t1 now s = Some (Err e, s))
  /\ (version <> SN_TUNNEL_RENDEZVOUS_CMD_VERSION \/ is_err (decoded rendezvous_from body) = true ->
      exists e, on_rendezvous version local_id peer t body st1 st2 st3 t1 s = (Err e, s)).
Proof.
  unfold on_sn_call, on_report_sn, on_sn_query, on_rendezvous. split_and!.
  - intros [-> | ->]; eauto.
  - destruct (decoded report_from body); [done|]. eauto.
  - destruct (decoded query_from body); [done|]. eauto.
  - destruct (Z.eqb_spec version SN_TUNNEL_RENDEZVOUS_CMD_VERSION) as [->|]; simpl; [|eauto].
    destruct (decoded rendezvous_from body); [naive_solver|]. eauto.
Qed.
End commands.

(** ** Accepted streams *)

(** The endpoints of an accepted stream, as far as the transport knows them. *)
Record TtpStreamMeta := mkMeta {
  tm_local_ep : option Endpoint; tm_remote_ep : option Endpoint; tm_local_id : P2pId; tm_remote_id : P2pId }.

(** The fields of [SnTunnelRead] and [SnTunnelWrite]. *)
Record CmdTunnelEnds := mkEnds { ce_local : Endpoint; ce_remote : Endpoint; ce_local_id : P2pId; ce_remote_id : P2pId }.

Definition into_cmd_tunnel (m : TtpStreamMeta) : CmdTunnelEnds :=
  mkEnds (default endpoint_default (tm_local_ep m)) (default endpoint_default (tm_remote_ep m))
    (tm_local_id m) (tm_remote_id m).

Definition handle_accepted_cmd_stream (accepted : P2pResult TtpStreamMeta) : option CmdTunnelEnds :=
  match accepted with Ok m => Some (into_cmd_tunnel m) | Err _ => None end.

(** ** Life cycle *)

Notation Task := nat (only parsing).

Record SnServer := mkServer {
  ss_started : bool;
  ss_stopped : bool;
  ss_cmd_accept_task : option Task;
  ss_nat_probe_ports : list Z;
  ss_nat_probe_tasks : list Task;
  ss_running : gset Task; (* the tasks the executor runs *)
  ss_next_task : Task;
}.

Definition server_new (ports : list Z) : SnServer := mkServer false false None ports [] ∅ 0%nat.

Definition set_started (b : bool) (v : SnServer) : SnServer :=
  mkServer b (ss_stopped v) (ss_cmd_accept_task v) (ss_nat_probe_ports v) (ss_nat_probe_tasks v)
    (ss_running v) (ss_next_task v).

(** [Executor::spawn_with_handle] and the push of its handle; [false] when
    the executor refuses. *)
Definition spawn_probe_task (ok : bool) (v : SnServer) : P2pResult unit * SnServer :=
  if ok then
    (Ok tt, mkServer (ss_started v) (ss_stopped v) (ss_cmd_accept_task v) (ss_nat_probe_ports v)
              (ss_nat_probe_tasks v ++ [ss_next_task v]) ({[ss_next_task v]} ∪ ss_running v) (S (ss_next_task v)))
  else (Err P2pErrorCode.Failed, v).

Definition abort_accept_tasks (v : SnServer) : SnServer :=
  mkServer (ss_started v) (ss_stopped v) None (ss_nat_probe_ports v) []
    (ss_running v ∖ (list_to_set (ss_nat_probe_tasks v) ∪ list_to_set (option_list (ss_cmd_accept_task v))))
    (ss_next_task v).

(** What the outside of a start returns: listening, the signing context, the
    bound probe sockets, the spawns of their tasks and of the maintenance, and
    the listener for command streams. *)
Record StartEnv := mkStartEnv {
  en_listen : P2pResult unit;
  en_signing : P2pResult unit;
  en_bind : list (P2pResult unit);
  en_spawn : list bool;
  en_maintenance : bool;
  en_cmd_listen : P2pResult unit;
}.

(** All sockets are bound before the first task is spawned. *)
Fixpoint bind_all (binds : list (P2pResult unit)) : P2pResult unit :=
  match binds with
  | [] => Ok tt
  | b :: binds => _ <-? b ;; bind_all binds
  end.
Fixpoint spawn_all (spawns : list bool) (v : SnServer) : P2pResult unit * SnServer :=
  match spawns with
  | [] => (Ok tt, v)
  | ok :: spawns =>
      let '(r, v) := spawn_probe_task ok v in
      match r with Ok _ => spawn_all spawns v | Err e => (Err e, v) end
  end.

Definition start_nat_probe_reflectors (e : StartEnv) (v : SnServer) : P2pResult unit * SnServer :=
  if bool_decide (ss_nat_probe_ports v = []) then (Ok tt, v)
  else match _ <-? en_signing e ;; bind_all (take (length (ss_nat_probe_ports v)) (en_bind e)) with
       | Err er => (Err er, v)
       | Ok _ => spawn_all (take (length (ss_nat_probe_ports v)) (en_spawn e)) v
       end.

Definition start_inner (e : StartEnv) (v : SnServer) : P2pResult unit * SnServer :=
  match en_listen e with
  | Err er => (Err er, v)
  | Ok _ =>
      let '(r, v) := start_nat_probe_reflectors e v in
      match r with
      | Err er => (Err er, v)
      | Ok _ =>
          let '(r, v) := spawn_probe_task (en_maintenance e) v in
          match r with
          | Err er => (Err er, v)
          | Ok _ => (en_cmd_listen e, v)
          end
      end
  end.

Definition server_start (e : StartEnv) (v : SnServer) : P2pResult unit * SnServer :=
  if ss_started v then (Ok tt, v)
  else
    let '(r, v) := start_inner e (set_started true v) in
    match r with
    | Ok _ => (Ok tt, v)
    | Err er => (Err er, set_started false (abort_accept_tasks v))
    end.

(** [stop], and [drop] without the flag. *)
Definition server_stop (v : SnServer) : SnServer :=
  let v := mkServer (ss_started v) true (ss_cmd_accept_task v) (ss_nat_probe_ports v) (ss_nat_probe_tasks v)
             (ss_running v) (ss_next_task v) in
  abort_accept_tasks v.

Inductive server_run : SnServer -> Prop :=
| sr_new ports : server_run (server_new ports)
| sr_start e v : server_run v -> server_run (snd (server_start e v))
| sr_stop v : server_run v -> server_run (server_stop v).

(** Every running task has a handle in the server. *)
Record server_ok (v : SnServer) : Prop := {
  so_running : ss_running v = list_to_set (ss_nat_probe_tasks v);
  so_accept : ss_cmd_accept_task v = None;
  so_idle : ss_started v = false -> ss_nat_probe_tasks v = [];
}.

Definition tasks_ok (v : SnServer) : Prop :=
  ss_running v = list_to_set (ss_nat_probe_tasks v) /\ ss_cmd_accept_task v = None.

Lemma spawn_tasks_ok ok v : tasks_ok v -> tasks_ok (snd (spawn_probe_task ok v)).
Proof.
  intros [Hr Ha]. unfold spawn_probe_task. destruct ok; [|done]. split; [|done]. simpl. rewrite Hr.
  apply leibniz_equiv. rewrite list_to_set_app. set_solver.
Qed.

Lemma spawn_all_tasks_ok l v : tasks_ok v -> tasks_ok (snd (spawn_all l v)).
Proof.
  revert v. induction l as [|ok l IH]; intros v Hv; simpl; [done|]. pose proof (spawn_tasks_ok ok v Hv) as H.
  destruct (spawn_probe_task ok v) as [[u|er] v1]; [by apply IH|done].
Qed.

Lemma start_inner_tasks_ok e v : tasks_ok v -> tasks_ok (snd (start_inner e v)).
Proof.
  intros Hv. unfold start_inner. destruct (en_listen e); [|done].
  assert (H1 : tasks_ok (snd (start_nat_probe_reflectors e v))).
  { unfold start_nat_probe_reflectors. case_bool_decide; [done|].
    destruct (match en_signing e with Ok _ => _ | Err _ => _ end); [by apply spawn_all_tasks_ok|done]. }
  destruct (start_nat_probe_reflectors e v) as [[u|er] v1]; [|done].
  simpl in H1. apply (spawn_tasks_ok (en_maintenance e)) in H1. by destruct (spawn_probe_task _ v1) as [[u'|er] v2].
Qed.

Lemma abort_clears v : tasks_ok v -> ss_running (abort_accept_tasks v) = ∅.
Proof. intros [Hr Ha]. simpl. rewrite Hr, Ha. apply leibniz_equiv. set_solver. Qed.

Lemma start_inner_started e v : ss_started (snd (start_inner e v)) = ss_started v.
Proof.
  assert (Hs : forall l w, ss_started (snd (spawn_all l w)) = ss_started w).
  { induction l as [|ok l IH]; intros w; [done|]. destruct ok; simpl; [|done]. by rewrite IH. }
  unfold start_inner, start_nat_probe_reflectors. destruct (en_listen e); [|done]. case_bool_decide.
  - by destruct (en_maintenance e).
  - destruct (match en_signing e with Ok _ => _ | Err _ => _ end); [|done].
    match goal with |- context [spawn_all ?l v] => specialize (Hs l v) end.
    destruct (spawn_all _ v) as [[u|er] v1]; [|done]. simpl in Hs. by destruct (en_maintenance e).
Qed.

Lemma server_run_ok v : server_run v -> server_ok v.
Proof.
  induction 1 as [ports|e v _ IH|v _ IH].
  - by split.
  - unfold server_start. destruct (ss_started v) eqn:Es; [done|].
    pose proof (start_inner_tasks_ok e (set_started true v)) as Ht. pose proof (start_inner_started e (set_started true v)) as Hst.
    destruct (start_inner e (set_started true v)) as [[u|er] v1]; simpl in *.
    + destruct Ht as [Hr Ha]; [split; [apply (so_running _ IH)|apply (so_accept _ IH)]|]. split; [done|done|]. congruence.
    + split; [|done|done]. apply abort_clears, Ht. split; [apply (so_running _ IH)|apply (so_accept _ IH)].
  - assert (tasks_ok v) as Hv by (destruct IH; by split). split; [|done|done].
    unfold server_stop. by rewrite abort_clears.
Qed.

(** Starting an SN server is all or nothing and leaks no task: over any
    sequence of starts and stops, a task runs exactly when the server holds its
    handle; a start that fails, wherever it fails, leaves no task running and
    the server ready for another attempt, and stopping ends every task. *)
Theorem sn_server_start_atomic v e :
  server_run v ->
  ss_running v = list_to_set (ss_nat_probe_tasks v)
  /\ ss_running (server_stop v) = ∅
  /\ (is_err (fst (server_start e v)) = true ->
      ss_running (snd (server_start e v)) = ∅ /\ ss_started (snd (server_start e v)) = false).
Proof.
  intros Hv. pose proof (server_run_ok _ Hv) as Hok. split_and!; [apply Hok| |].
  - apply abort_clears. destruct Hok. by split.
  - intros He. unfold server_start in *. destruct (ss_started v) eqn:Es; [done|].
    pose proof (start_inner_tasks_ok e (set_started true v)) as Ht.
    destruct (start_inner e (set_started true v)) as [[u|er] v1]; [done|]. split; [|done]. simpl in Ht.
    apply abort_clears, Ht. destruct Hok. by split.
Qed.

(** The maintenance task starts, then the listener for commands fails. *)
Definition late_failure : StartEnv :=
  mkStartEnv (Ok tt) (Ok tt) [Ok tt; Ok tt] [true; true] true (Err P2pErrorCode.AddrInUse).

Lemma sn_server_start_atomic_witness :
  fst (server_start late_failure (server_new [5000; 5001])) = Err P2pErrorCode.AddrInUse
  /\ ss_next_task (snd (server_start late_failure (server_new [5000; 5001]))) = 3%nat
  /\ ss_running (snd (server_start late_failure (server_new [5000; 5001]))) = ∅.
Proof.
  split; [done|]. split; [done|].
  by apply (sn_server_start_atomic (server_new [5000; 5001]) late_failure (sr_new _)).
Defined.

(** A stopped server counts as started: starting it again reports success
    and does nothing. *)
Lemma restart_does_nothing e v : ss_started v = true -> server_start e (server_stop v) = (Ok tt, server_stop v).
Proof. intros H. unfold server_start. simpl. by rewrite H. Qed.
