(* ===== verification/InterSn.v ===== *)
(** * The protocol between super nodes (src/p2p-frame/src/sn/inter_sn/mod.rs)

    Requests and responses with their command codes, the dispatcher that calls
    the methods of an [InterSnPeer], and the client that turns a method call into
    a request and back.  The trait is a record of state-passing functions; a
    method whose result is [None] panics.  The derived codecs of the two message
    types and the command transport are parameters. *)

From stdpp Require Import strings.
From S2P Require Import PnServer.
From S2P Require Import Prelude.
From S2P Require Import Errors.
From S2P Require Import Ids.
From S2P Require Import Endpoint.
From S2P Require Import NatType.
From S2P Require Import SnProtocol.
From S2P Require Import Codec.
From S2P Require Import Membership.
From S2P Require Import ControlPlane.
From S2P Require Import Election.
From S2P Require Import SnExtension.
From S2P Require Import SnService.
From S2P Require Import SnServer.

(** ** Command codes (sn/protocol/sn.rs) *)

Inductive InterSnCommandCode :=
| IcHeartbeat | IcPublishLease | IcQueryLease | IcQueryDetail | IcRelayCall | IcRelayRendezvousV2.
#[global] Instance InterSnCommandCode_eq_dec : EqDecision InterSnCommandCode.
Proof. solve_decision. Defined.

Definition inter_code_as_u8 (c : InterSnCommandCode) : Z :=
  match c with
  | IcHeartbeat => 0x80 | IcPublishLease => 0x81 | IcQueryLease => 0x82 | IcQueryDetail => 0x83
  | IcRelayCall => 0x84 | IcRelayRendezvousV2 => 0x86
  end.
Definition inter_code_try_from (v : Z) : P2pResult InterSnCommandCode :=
  if v =? 0x80 then Ok IcHeartbeat else if v =? 0x81 then Ok IcPublishLease
  else if v =? 0x82 then Ok IcQueryLease else if v =? 0x83 then Ok IcQueryDetail
  else if v =? 0x84 then Ok IcRelayCall else if v =? 0x86 then Ok IcRelayRendezvousV2
  else Err P2pErrorCode.InvalidParam.

(** [raw_encode] into a buffer: the buffer afterwards and its unused tail. *)
Definition inter_code_encode (c : InterSnCommandCode) (buf : list Z) : CodecResult (list Z * list Z) :=
  match buf with
  | [] => Err CodecOutOfLimit
  | _ :: rest => Ok (inter_code_as_u8 c :: rest, rest)
  end.
Definition inter_code_decode (buf : list Z) : CodecResult (InterSnCommandCode * list Z) :=
  match buf with
  | [] => Err CodecOutOfLimit
  | b :: rest => match inter_code_try_from b with
                 | Ok c => Ok (c, rest)
                 | Err _ => Err CodecFailed
                 end
  end.

Lemma inter_code_roundtrip c buf buf' rest :
  inter_code_encode c buf = Ok (buf', rest) -> inter_code_decode buf' = Ok (c, rest).
Proof. destruct buf; simpl; intros [= <- <-]. by destruct c. Qed.

Definition INTER_SN_CMD_VERSION : Z := 0.

(** ** Messages *)

Record SnPublishLease := mkPublish {
  pl_peer_id : P2pId; pl_serving_sn_id : P2pId; pl_sequence : Z; pl_expires_at : Timestamp }.
Definition publish_of_lease (l : ServingLease) : SnPublishLease :=
  mkPublish (sl_peer_id l) (sl_serving_sn_id l) (sl_sequence l) (sl_expires_at l).
Definition lease_of_publish (p : SnPublishLease) : ServingLease :=
  mkLease (pl_peer_id p) (pl_serving_sn_id p) (pl_sequence p) (pl_expires_at p).

Lemma lease_publish l : lease_of_publish (publish_of_lease l) = l.
Proof. by destruct l. Qed.
Lemma leases_publish (ls : list ServingLease) : lease_of_publish <$> (publish_of_lease <$> ls) = ls.
Proof. induction ls as [|l ls IH]; [done|]. rewrite !fmap_cons, IH, lease_publish. done. Qed.

Record RelayCallResponse := mkRelayResponse { rc_accepted : bool; rc_to_peer_info : option (list Z) }.

Inductive InterSnRequest :=
| RqHeartbeat (member_sn_id : P2pId)
| RqOwnerVote (q : OwnerVoteRequest)
| RqOwnerControlHeartbeat (q : OwnerHeartbeatRequest)
| RqOwnerSessionReplication (q : OwnerSessionReplication)
| RqOwnerSessionForward (q : OwnerSessionForward)
| RqPublishLease (l : SnPublishLease)
| RqQueryLease (peer_id : P2pId)
| RqQueryDetail (peer_id : P2pId)
| RqRelayCall (call : SnCall)
| RqRelayRendezvous (target : P2pId) (notify : SnTunnelRendezvousNotify).

Inductive InterSnResponse :=
| RsHeartbeat (b : bool)
| RsOwnerVote (r : OwnerVoteResponse)
| RsOwnerControlHeartbeat (r : OwnerHeartbeatResponse)
| RsOwnerSessionReplication (r : OwnerSessionReplicationResponse)
| RsOwnerSessionForward (r : OwnerSessionForwardResponse)
| RsPublished (b : bool)
| RsLeases (leases : list SnPublishLease)
| RsDetail (d : SnDetailResp)
| RsRelay (r : RelayCallResponse)
| RsRendezvous (r : SnTunnelRendezvousResp)
| RsError (code : P2pErrorCode.t).

Definition inter_sn_command_code (r : InterSnRequest) : InterSnCommandCode :=
  match r with
  | RqHeartbeat _ | RqOwnerVote _ | RqOwnerControlHeartbeat _ | RqOwnerSessionReplication _
  | RqOwnerSessionForward _ => IcHeartbeat
  | RqPublishLease _ => IcPublishLease
  | RqQueryLease _ => IcQueryLease
  | RqQueryDetail _ => IcQueryDetail
  | RqRelayCall _ => IcRelayCall
  | RqRelayRendezvous _ _ => IcRelayRendezvousV2
  end.

(** The version a command is sent with and expected in. *)
Definition command_version (c : InterSnCommandCode) : Z :=
  if bool_decide (c = IcRelayRendezvousV2) then SN_TUNNEL_RENDEZVOUS_CMD_VERSION else INTER_SN_CMD_VERSION.

(** ** The peer *)

Definition Method (S A : Type) : Type := S -> option (P2pResult A * S).

Record InterSnPeer (S : Type) := mkInterPeer {
  ip_sn_id : S -> option P2pId;
  ip_publish_lease : P2pId -> ServingLease -> Method S bool;
  ip_heartbeat : P2pId -> P2pId -> Method S bool;
  ip_owner_vote : P2pId -> OwnerVoteRequest -> Method S OwnerVoteResponse;
  ip_owner_control_heartbeat : P2pId -> OwnerHeartbeatRequest -> Method S OwnerHeartbeatResponse;
  ip_owner_session_replication : P2pId -> OwnerSessionReplication -> Method S OwnerSessionReplicationResponse;
  ip_owner_session_forward : P2pId -> OwnerSessionForward -> Method S OwnerSessionForwardResponse;
  ip_query_leases : P2pId -> P2pId -> Method S (list ServingLease);
  ip_query_detail : P2pId -> P2pId -> Method S (option ServingPeerDetail);
  ip_relay_call : P2pId -> SnCall -> Method S RelayCallOutcome;
  ip_relay_rendezvous : P2pId -> P2pId -> SnTunnelRendezvousNotify -> Method S SnTunnelRendezvousResp;
}.
Arguments mkInterPeer {S}.
Arguments ip_sn_id {S}.
Arguments ip_publish_lease {S}.
Arguments ip_heartbeat {S}.
Arguments ip_owner_vote {S}.
Arguments ip_owner_control_heartbeat {S}.
Arguments ip_owner_session_replication {S}.
Arguments ip_owner_session_forward {S}.
Arguments ip_query_leases {S}.
Arguments ip_query_detail {S}.
Arguments ip_relay_call {S}.
Arguments ip_relay_rendezvous {S}.

(** The default methods of the trait. *)
Definition not_supported {S A} : Method S A := fun s => Some (Err P2pErrorCode.NotSupport, s).

Section dispatch.
Context {S : Type} (peer : InterSnPeer S).

Definition respond {A} (f : A -> InterSnResponse) (m : Method S A) (s : S) : option (InterSnResponse * S) :=
  match m s with
  | None => None
  | Some (Ok a, s) => Some (f a, s)
  | Some (Err e, s) => Some (RsError e, s)
  end.

Definition detail_response (d : option ServingPeerDetail) : InterSnResponse :=
  RsDetail match d with
           | Some d => mkDetail (Some (de_peer_info d)) (de_endpoints d) (de_net_profile d)
                         (de_target_protocol_version d)
           | None => mkDetail None [] None None
           end.

Definition dispatch_owner_cmd (remote : P2pId) (command : InterSnCommandCode) (request : InterSnRequest) (s : S)
    : option (InterSnResponse * S) :=
  match command, request with
  | IcHeartbeat, RqHeartbeat id => respond RsHeartbeat (ip_heartbeat peer remote id) s
  | IcHeartbeat, RqOwnerVote q => respond RsOwnerVote (ip_owner_vote peer remote q) s
  | IcHeartbeat, RqOwnerControlHeartbeat q =>
      respond RsOwnerControlHeartbeat (ip_owner_control_heartbeat peer remote q) s
  | IcHeartbeat, RqOwnerSessionReplication q =>
      respond RsOwnerSessionReplication (ip_owner_session_replication peer remote q) s
  | IcHeartbeat, RqOwnerSessionForward q =>
      respond RsOwnerSessionForward (ip_owner_session_forward peer remote q) s
  | IcPublishLease, RqPublishLease l => respond RsPublished (ip_publish_lease peer remote (lease_of_publish l)) s
  | IcQueryLease, RqQueryLease id =>
      respond (fun ls => RsLeases (publish_of_lease <$> ls)) (ip_query_leases peer remote id) s
  | IcQueryDetail, RqQueryDetail id => respond detail_response (ip_query_detail peer remote id) s
  | IcRelayCall, RqRelayCall call =>
      respond (fun o => RsRelay (mkRelayResponse (oc_accepted o) (oc_to_peer_info o)))
        (ip_relay_call peer remote call) s
  | IcRelayRendezvousV2, RqRelayRendezvous target notify =>
      respond RsRendezvous (ip_relay_rendezvous peer remote target notify) s
  | _, _ => Some (RsError P2pErrorCode.InvalidData, s)
  end.

Context `{!RawCodec InterSnRequest, !RawCodec InterSnResponse}.

(** A command with its header's code and version; the result is the answer's
    body or an error of the command server. *)
Definition handle_owner_cmd (remote : P2pId) (command : InterSnCommandCode) (version : Z) (body : option (list Z))
    (s : S) : option (Result CmdErrorCode (list Z) * S) :=
  if negb (version =? command_version command) then Some (Err CmdInvalidParam, s)
  else match body with
       | None => Some (Err CmdFailed, s)
       | Some bytes =>
           match codec_decode (T := InterSnRequest) bytes with
           | Err _ => Some (Err CmdFailed, s)
           | Ok (request, remainder) =>
               if negb (bool_decide (remainder = [])) then Some (Err CmdInvalidParam, s)
               else
                 '(response, s) ← dispatch_owner_cmd remote command request s;
                 Some (match to_vec response with Ok b => Ok b | Err _ => Err CmdFailed end, s)
           end
       end.
End dispatch.

(** ** The client *)

Record TtpTarget := mkTarget {
  tt_local_ep : option Endpoint; tt_remote_ep : Endpoint; tt_remote_id : P2pId; tt_remote_name : option string }.

Definition owner_targets (m : OwnerMembership) : gmap P2pId TtpTarget :=
  foldl (fun targets mem =>
           match om_endpoints mem with
           | ep :: _ => <[sn_id mem := mkTarget None ep (sn_id mem) (om_name mem)]> targets
           | [] => targets
           end) ∅ (members m).

(** [OwnerTunnelFactory::create_tunnel]: the control stream opened to the
    target of the peer. *)
Definition create_tunnel (open_control_stream : TtpTarget -> P2pResult TtpStreamMeta)
    (targets : gmap P2pId TtpTarget) (remote : P2pId) : Result CmdErrorCode CmdTunnelEnds :=
  match targets !! remote with
  | None => Err CmdFailed
  | Some t => match open_control_stream t with
              | Ok m => Ok (into_cmd_tunnel m)
              | Err _ => Err CmdFailed
              end
  end.

Section client.
Context `{!RawCodec InterSnRequest, !RawCodec InterSnResponse}.
(** The world behind the transport. *)
Context {W : Type} (send_with_resp : P2pId -> InterSnCommandCode -> Z -> list Z ->
                       W -> option (Result CmdErrorCode (list Z) * W)).
Context (targets : gmap P2pId TtpTarget) (local_sn_id : option P2pId).

Definition target (id : P2pId) : P2pResult TtpTarget :=
  match targets !! id with Some t => Ok t | None => Err P2pErrorCode.NotFound end.

Definition inter_request (remote : P2pId) (request : InterSnRequest) (w : W)
    : option (P2pResult InterSnResponse * W) :=
  match target remote with
  | Err e => Some (Err e, w)
  | Ok _ =>
      let command := inter_sn_command_code request in
      match to_vec request with
      | Err _ => Some (Err P2pErrorCode.RawCodecError, w)
      | Ok bytes =>
          '(res, w) ← send_with_resp remote command (command_version command) bytes w;
          Some (match res with
                | Err _ => Err P2pErrorCode.Failed
                | Ok bytes =>
                    match codec_decode (T := InterSnResponse) bytes with
                    | Err _ => Err P2pErrorCode.RawCodecError
                    | Ok (response, remainder) =>
                        if negb (bool_decide (remainder = [])) then Err P2pErrorCode.InvalidData else Ok response
                    end
                end, w)
      end
  end.

(** What a method makes of the response: [pick] recognizes its own kind. *)
Definition method_result {A} (pick : InterSnResponse -> option A) (r : P2pResult InterSnResponse) : P2pResult A :=
  match r with
  | Err e => Err e
  | Ok resp => match pick resp with
               | Some a => Ok a
               | None => match resp with RsError e => Err e | _ => Err P2pErrorCode.InvalidData end
               end
  end.
Definition call_method {A} (pick : InterSnResponse -> option A) (remote : P2pId) (request : InterSnRequest)
    : Method W A :=
  fun w => '(r, w) ← inter_request remote request w; Some (method_result pick r, w).

Definition heartbeat_to_sn (remote : P2pId) : Method W bool :=
  match local_sn_id with
  | None => fun w => Some (Err P2pErrorCode.InvalidParam, w)
  | Some id => call_method (fun r => match r with RsHeartbeat b => Some b | _ => None end) remote (RqHeartbeat id)
  end.
Definition request_owner_vote_to_sn (remote : P2pId) (q : OwnerVoteRequest) : Method W OwnerVoteResponse :=
  call_method (fun r => match r with RsOwnerVote x => Some x | _ => None end) remote (RqOwnerVote q).
Definition send_owner_control_heartbeat_to_sn (remote : P2pId) (q : OwnerHeartbeatRequest)
    : Method W OwnerHeartbeatResponse :=
  call_method (fun r => match r with RsOwnerControlHeartbeat x => Some x | _ => None end) remote
    (RqOwnerControlHeartbeat q).
Definition replicate_owner_session_to_sn (remote : P2pId) (q : OwnerSessionReplication)
    : Method W OwnerSessionReplicationResponse :=
  call_method (fun r => match r with RsOwnerSessionReplication x => Some x | _ => None end) remote
    (RqOwnerSessionReplication q).
Definition forward_owner_session_to_sn (remote : P2pId) (q : OwnerSessionForward)
    : Method W OwnerSessionForwardResponse :=
  call_method (fun r => match r with RsOwnerSessionForward x => Some x | _ => None end) remote
    (RqOwnerSessionForward q).
Definition publish_lease_to_sn (remote : P2pId) (l : ServingLease) : Method W bool :=
  call_method (fun r => match r with RsPublished b => Some b | _ => None end) remote
    (RqPublishLease (publish_of_lease l)).
Definition query_leases_from_remote (remote peer : P2pId) : Method W (list ServingLease) :=
  call_method (fun r => match r with RsLeases ls => Some (lease_of_publish <$> ls) | _ => None end) remote
    (RqQueryLease peer).
Definition query_detail_from_remote (remote peer : P2pId) : Method W (option ServingPeerDetail) :=
  call_method (fun r => match r with
                        | RsDetail d => Some ((fun info => mkServingDetail info (sd_end_point_array d)
                                                 (sd_net_profile d) (sd_target_protocol_version d))
                                               <$> sd_peer_info d)
                        | _ => None
                        end) remote (RqQueryDetail peer).
Definition relay_call_to_sn (remote : P2pId) (call : SnCall) : Method W RelayCallOutcome :=
  call_method (fun r => match r with RsRelay o => Some (mkOutcome (rc_accepted o) (rc_to_peer_info o)) | _ => None end)
    remote (RqRelayCall call).
Definition relay_rendezvous_to_sn (remote target : P2pId) (notify : SnTunnelRendezvousNotify)
    : Method W SnTunnelRendezvousResp :=
  call_method (fun r => match r with RsRendezvous x => Some x | _ => None end) remote
    (RqRelayRendezvous target notify).
End client.

(** ** The registry of the peers of this process

    A registered peer is weakly referenced; [alive] says whether a reference
    still upgrades. *)
Section registry.
Context {Ref : Type} (alive : Ref -> bool) (sn_id_of : Ref -> option P2pId).

Definition registry_register (peer : Ref) (peers : gmap P2pId Ref) : gmap P2pId Ref :=
  match sn_id_of peer with Some id => <[id := peer]> peers | None => peers end.
Definition registry_get (id : P2pId) (peers : gmap P2pId Ref) : option Ref * gmap P2pId Ref :=
  match peers !! id with
  | Some peer => if alive peer then (Some peer, peers) else (None, delete id peers)
  | None => (None, delete id peers)
  end.

(** A reference the registry hands out is live and registered; a lookup forgets
    nothing that is. *)
Lemma registry_get_spec id peers r peers' :
  registry_get id peers = (r, peers') ->
  (forall p, r = Some p <-> peers !! id = Some p /\ alive p = true)
  /\ forall k p, peers !! k = Some p -> alive p = true -> peers' !! k = Some p.
Proof.
  unfold registry_get. intros H.
  assert (forall k p, peers !! k = Some p -> delete id peers !! k = Some p \/ k = id) as Hd.
  { intros k p Hk. destruct (decide (k = id)); [by right|left; by rewrite lookup_delete_ne]. }
  destruct (peers !! id) as [q|] eqn:E; [destruct (alive q) eqn:A|]; simplify_eq;
    (split; [naive_solver congruence|]); auto;
    intros k p Hk Hp; destruct (Hd k p Hk) as [?|Ek]; subst; auto; congruence.
Qed.
End registry.

(** ** A super node as a peer ([InterSnPeer for SnService]) *)

Section service_peer.
Context {T : Type} `{!EqDecision T} {Cert : Type} `{!CertOps Cert}.
Context (local_sn_id : option P2pId)
  (inter_connection_validator : P2pId -> P2pResult ValidateResult)
  (inter_command_validator : P2pId -> InterSnCommand -> P2pId -> P2pResult ValidateResult)
  (test : bool) (probe : Endpoint -> Endpoint -> bool)
  (called_to_vec : SnCalled -> option (list Z)) (send_called : P2pId -> list Z -> bool).
(** The environment of a call: the clock, the command streams at the two
    snapshots, whether the notification encodes, the answer of each stream. *)
Context (now : Timestamp) (st1 st2 : list (T * Endpoint)) (encoded : bool) (qa : T -> QaOutcome).

(** The service, the messages delivered and the streams tried so far. *)
Record ServicePeer := mkServicePeer {
  sp_service : SnService T Cert; sp_sent : list (P2pId * SnCalled); sp_tried : list T }.

Definition service_peer : InterSnPeer ServicePeer := {|
  ip_sn_id := fun _ => local_sn_id;
  ip_publish_lease := fun _ _ => not_supported;
  ip_heartbeat := fun _ _ => not_supported;
  ip_owner_vote := fun _ _ => not_supported;
  ip_owner_control_heartbeat := fun _ _ => not_supported;
  ip_owner_session_replication := fun _ _ => not_supported;
  ip_owner_session_forward := fun _ _ => not_supported;
  ip_query_leases := fun _ _ => not_supported;
  ip_query_detail := fun remote peer s =>
    let '(r, sv) := query_detail_from_sn inter_connection_validator inter_command_validator remote peer st1 now
                      (sp_service s) in
    Some (r, mkServicePeer sv (sp_sent s) (sp_tried s));
  ip_relay_call := fun remote call s =>
    let '(r, sent, sv) := relay_call_from_sn local_sn_id inter_connection_validator inter_command_validator
                            called_to_vec send_called remote call now (sp_service s) in
    Some (r, mkServicePeer sv (sp_sent s ++ sent) (sp_tried s));
  ip_relay_rendezvous := fun remote target notify s =>
    let '(r, tried, sv) := relay_rendezvous_from_sn inter_connection_validator inter_command_validator test probe
                             remote target notify encoded qa st1 st2 (sp_service s) in
    Some (r, mkServicePeer sv (sp_sent s) (sp_tried s ++ tried));
|}.
End service_peer.
Arguments ServicePeer : clear implicits.

(** ** A request runs the peer's method

    [carried x]: the codec encodes [x], and decodes the bytes to it. *)
Definition carried {A} `{!RawCodec A} (x : A) : Prop :=
  exists b, to_vec x = Ok b /\ codec_decode b = Ok (x, []).

(** A request whose payload is not the one its command code announces reaches no
    method. *)
Lemma dispatch_mismatch {S} (peer : InterSnPeer S) remote c rq s :
  c <> inter_sn_command_code rq ->
  dispatch_owner_cmd peer remote c rq s = Some (RsError P2pErrorCode.InvalidData, s).
Proof. destruct c, rq; simpl; done. Qed.

Section remote_call.
Context `{!RawCodec InterSnRequest, !RawCodec InterSnResponse}.
Context {S : Type} (peer : InterSnPeer S) (targets : gmap P2pId TtpTarget) (local : P2pId).

(** The transport that runs the command on the peer. *)
Definition wire (_ : P2pId) (c : InterSnCommandCode) (version : Z) (bytes : list Z) (s : S)
    : option (Result CmdErrorCode (list Z) * S) :=
  handle_owner_cmd peer local c version (Some bytes) s.

(** The request and the response it gets in [s] survive their codecs. *)
Definition carries (rq : InterSnRequest) (s : S) : Prop :=
  carried rq
  /\ forall resp s', dispatch_owner_cmd peer local (inter_sn_command_code rq) rq s = Some (resp, s') -> carried resp.

Lemma inter_request_dispatch remote rq s :
  is_Some (targets !! remote) -> carries rq s ->
  inter_request wire targets remote rq s
  = '(resp, s') ← dispatch_owner_cmd peer local (inter_sn_command_code rq) rq s; Some (Ok resp, s').
Proof.
  intros [t Ht] [(b & E & D) R]. unfold inter_request, target, wire, handle_owner_cmd. rewrite Ht, E.
  rewrite Z.eqb_refl. cbn [negb]. rewrite D. rewrite bool_decide_true by done. cbn [negb].
  destruct (dispatch_owner_cmd peer local (inter_sn_command_code rq) rq s) as [[resp s']|] eqn:Ed; [|done].
  destruct (R _ _ eq_refl) as (b' & E' & D'). simpl. rewrite E', D'. by rewrite bool_decide_true.
Qed.

(** A method whose request dispatches to [m], with the response [pick] undoes. *)
Lemma call_method_runs {A} pick (wrap : A -> InterSnResponse) (m : Method S A) remote rq s :
  is_Some (targets !! remote) -> carries rq s ->
  dispatch_owner_cmd peer local (inter_sn_command_code rq) rq s = respond wrap m s ->
  (forall a, pick (wrap a) = Some a) -> (forall e, pick (RsError e) = None) ->
  call_method wire targets pick remote rq s = m s.
Proof.
  intros Ht Hc Hd Hp He. unfold call_method. rewrite inter_request_dispatch by done. rewrite Hd. unfold respond.
  destruct (m s) as [[[a|e] s']|]; simpl; [by rewrite Hp|by rewrite He|done].
Qed.
End remote_call.

(** C33: the client's methods are the peer's methods run over the wire: when
    the transport delivers a command to [peer] as coming from [local], and the
    request and the response it gets survive their codecs, each of the ten
    methods of the client returns the very result (value or error code) of the
    peer's method called with the same arguments, and leaves the peer in the
    same state. *)
Theorem inter_sn_calls_faithful `{!RawCodec InterSnRequest, !RawCodec InterSnResponse} {S} (peer : InterSnPeer S)
    (targets : gmap P2pId TtpTarget) (local remote : P2pId) (s : S) :
  is_Some (targets !! remote) ->
  let via := wire peer local in
  let carries rq := carries peer local rq s in
  (forall id, carries (RqHeartbeat id) ->
     heartbeat_to_sn via targets (Some id) remote s = ip_heartbeat peer local id s)
  /\ (forall q, carries (RqOwnerVote q) ->
        request_owner_vote_to_sn via targets remote q s = ip_owner_vote peer local q s)
  /\ (forall q, carries (RqOwnerControlHeartbeat q) ->
        send_owner_control_heartbeat_to_sn via targets remote q s = ip_owner_control_heartbeat peer local q s)
  /\ (forall q, carries (RqOwnerSessionReplication q) ->
        replicate_owner_session_to_sn via targets remote q s = ip_owner_session_replication peer local q s)
  /\ (forall q, carries (RqOwnerSessionForward q) ->
        forward_owner_session_to_sn via targets remote q s = ip_owner_session_forward peer local q s)
  /\ (forall l, carries (RqPublishLease (publish_of_lease l)) ->
        publish_lease_to_sn via targets remote l s = ip_publish_lease peer local l s)
  /\ (forall id, carries (RqQueryLease id) ->
        query_leases_from_remote via targets remote id s = ip_query_leases peer local id s)
  /\ (forall id, carries (RqQueryDetail id) ->
        query_detail_from_remote via targets remote id s = ip_query_detail peer local id s)
  /\ (forall call, carries (RqRelayCall call) ->
        relay_call_to_sn via targets remote call s = ip_relay_call peer local call s)
  /\ (forall target notify, carries (RqRelayRendezvous target notify) ->
        relay_rendezvous_to_sn via targets remote target notify s
        = ip_relay_rendezvous peer local target notify s).
Proof.
  intros Ht. simpl. repeat split; intros;
    (eapply call_method_runs; [done|done|first [reflexivity | simpl; rewrite lease_publish; reflexivity]| |done]);
    try done; simpl.
  - intros ls. by rewrite leases_publish.
  - intros [[]|]; done.
  - intros []; done.
Qed.

(** Between two super nodes: the detail of a peer the remote one serves. *)
Module InterDemo.
Import SnDemo.

#[export] Instance demo_requests : RawCodec InterSnRequest := {|
  codec_measure := fun r => match r with RqQueryDetail id => Ok (length (p2pid_bytes id)) | _ => Err CodecFailed end;
  to_vec := fun r => match r with RqQueryDetail id => Ok (p2pid_bytes id) | _ => Err CodecFailed end;
  codec_decode := fun b => Ok (RqQueryDetail (mkP2pId b), []);
  clone_from_slice := fun b => Ok (RqQueryDetail (mkP2pId b)) |}.
#[export] Instance demo_responses : RawCodec InterSnResponse := {|
  codec_measure := fun r => match r with
                            | RsDetail d => match sd_peer_info d with Some i => Ok (length i) | None => Err CodecFailed end
                            | _ => Err CodecFailed end;
  to_vec := fun r => match r with
                     | RsDetail d => match sd_peer_info d with Some i => Ok i | None => Err CodecFailed end
                     | _ => Err CodecFailed end;
  codec_decode := fun b => Ok (RsDetail (mkDetail (Some b) [] None None), []);
  clone_from_slice := fun b => Ok (RsDetail (mkDetail (Some b) [] None None)) |}.

Definition sn2 : P2pId := mkP2pId [2].
Definition peer1 : InterSnPeer (ServicePeer Z P2pId) :=
  service_peer (Some sn1) (fun _ => Ok Accept) (fun _ _ _ => Ok Accept) false (fun _ _ => true)
    (fun _ => Some []) (fun _ _ => true) 1000 [] [] true qa8.
Definition at_sn1 : ServicePeer Z P2pId := mkServicePeer (knows [peer6]) [] [].
Definition to_sn1 : gmap P2pId TtpTarget := {[ sn1 := mkTarget None path sn1 None ]}.

Lemma inter_sn_calls_faithful_witness :
  query_detail_from_remote (wire peer1 sn2) to_sn1 sn1 peer6 at_sn1 = ip_query_detail peer1 sn2 peer6 at_sn1
  /\ fst <$> ip_query_detail peer1 sn2 peer6 at_sn1 = Some (Ok (Some (mkServingDetail [6] [] None None))).
Proof.
  split; [|by vm_compute].
  apply (inter_sn_calls_faithful peer1 to_sn1 sn2 sn1 at_sn1); [by vm_compute; eauto|].
  split; [by exists [6]|]. vm_compute. intros resp s' [= <- <-]. by exists [6].
Defined.
End InterDemo.
