(* ===== verification/OwnerDirectory.v ===== *)
(** * The owner directory on the network (src/p2p-frame/src/sn/directory/server.rs, client.rs)

    [OwnerDirectoryService] joins the directory of an owner SN with its election
    node; serving SNs publish and query leases through two commands, other owner
    SNs through the inter-SN protocol.  [StaticOwnerDirectoryClient] is the
    serving SN's side: it publishes to the owner set of a peer and merges what
    the owners answer.  The control plane is shared by the election node and the
    store, so the model keeps it once, in the node. *)

From S2P Require Import PnServer.
From S2P Require Import Prelude.
From S2P Require Import Errors.
From S2P Require Import Ids.
From S2P Require Import Endpoint.
From S2P Require Import Codec.
From S2P Require Import Membership.
From S2P Require Import ControlPlane.
From S2P Require Import RouteStore.
From S2P Require Import Election.
From S2P Require Import SnService.
From S2P Require Import SnServer.
From S2P Require Import InterSn.

(** ** The service of an owner SN *)

Record OwnerDirectoryService := mkOwner {
  od_resolver : option OwnerMembership;
  od_member_health : OwnerMemberHealth;
  od_routes : PeerRouteStore;
  od_election_node : OwnerElectionNode;
}.

Definition owner_directory (s : OwnerDirectoryService) : LocalSnDirectory :=
  mkDirectory (od_resolver s) (od_member_health s)
    (mkStore (en_control_plane (od_election_node s)) (od_routes s)).

(** Run an operation of the directory, or of the election node, on its part. *)
Definition on_directory {A} (f : LocalSnDirectory -> A * LocalSnDirectory) (s : OwnerDirectoryService)
    : A * OwnerDirectoryService :=
  let '(a, d) := f (owner_directory s) in
  (a, mkOwner (ld_resolver d) (ld_member_health d) (st_routes (ld_store d))
        (set_plane (od_election_node s) (st_control_plane (ld_store d)))).
Definition on_node {A} (f : OwnerElectionNode -> A * OwnerElectionNode) (s : OwnerDirectoryService)
    : A * OwnerDirectoryService :=
  let '(a, n) := f (od_election_node s) in
  (a, mkOwner (od_resolver s) (od_member_health s) (od_routes s) n).
Definition on_node_opt {A} (f : OwnerElectionNode -> option (A * OwnerElectionNode)) (s : OwnerDirectoryService)
    : option (A * OwnerDirectoryService) :=
  '(a, n) ← f (od_election_node s); Some (a, mkOwner (od_resolver s) (od_member_health s) (od_routes s) n).

Definition owner_service_new (local : P2pId) (m : OwnerMembership) (t1 t2 : Timestamp)
    : option OwnerDirectoryService :=
  d ← directory_new (Some m) t1;
  Some (mkOwner (ld_resolver d) (ld_member_health d) (st_routes (ld_store d))
          (node_new local m (st_control_plane (ld_store d)) t2)).

Section owner.
Context (connection_validator : P2pId -> P2pResult ValidateResult)
  (command_validator : P2pId -> InterSnCommand -> P2pId -> P2pResult ValidateResult).

Definition owner_validate_connection (remote : P2pId) : P2pResult unit :=
  verdict_result (connection_validator remote).
Definition owner_validate_command (remote : P2pId) (c : InterSnCommand) (peer : P2pId) : P2pResult unit :=
  verdict_result (command_validator remote c peer).

(** [LocalOwnerDirectory::publish_serving_lease] and [query_serving_leases]. *)
Definition publish_serving_lease (l : ServingLease) (now : Timestamp) :
    OwnerDirectoryService -> bool * OwnerDirectoryService := on_directory (directory_put_lease_route l now).
Definition query_serving_leases (peer : P2pId) (now : Timestamp) :
    OwnerDirectoryService -> list ServingLease * OwnerDirectoryService := on_directory (directory_query peer now).
Definition refresh_member_heartbeat (id : P2pId) (now : Timestamp) :
    OwnerDirectoryService -> bool * OwnerDirectoryService := on_directory (refresh_owner_member id now).

(** *** Commands of other owner SNs *)

Definition publish_lease_from_sn (remote : P2pId) (l : ServingLease) (t1 t2 : Timestamp) (s : OwnerDirectoryService)
    : P2pResult bool * OwnerDirectoryService :=
  match _ <-? owner_validate_connection remote ;;
        owner_validate_command remote CmdPublishLease (sl_peer_id l) with
  | Err e => (Err e, s)
  | Ok _ =>
      let '(_, s) := refresh_member_heartbeat remote t1 s in
      let '(b, s) := publish_serving_lease l t2 s in (Ok b, s)
  end.

Definition query_leases_from_sn (remote peer : P2pId) (t1 t2 : Timestamp) (s : OwnerDirectoryService)
    : P2pResult (list ServingLease) * OwnerDirectoryService :=
  match _ <-? owner_validate_connection remote ;; owner_validate_command remote CmdQueryLease peer with
  | Err e => (Err e, s)
  | Ok _ =>
      let '(_, s) := refresh_member_heartbeat remote t1 s in
      let '(l, s) := query_serving_leases peer t2 s in (Ok l, s)
  end.

Definition heartbeat_from_sn (remote member : P2pId) (now : Timestamp) (s : OwnerDirectoryService)
    : P2pResult bool * OwnerDirectoryService :=
  match
    _ <-? owner_validate_connection remote ;;
    _ <-? (if bool_decide (remote = member) then Ok tt else Err P2pErrorCode.PermissionDenied) ;;
    owner_validate_command remote CmdHeartbeat member
  with
  | Err e => (Err e, s)
  | Ok _ => let '(b, s) := refresh_member_heartbeat member now s in (Ok b, s)
  end.

Definition receive_owner_vote (remote : P2pId) (q : OwnerVoteRequest) (now : Timestamp) :=
  on_node (receive_vote_request remote q now).
Definition receive_owner_control_heartbeat (remote : P2pId) (q : OwnerHeartbeatRequest) (now : Timestamp) :=
  on_node (receive_heartbeat remote q now).
Definition receive_owner_session_replication (remote : P2pId) (q : OwnerSessionReplication) (now : Timestamp) :=
  on_node (receive_session_replication remote q now).
Definition receive_owner_session_forward (peer_client : option OwnerPeerControlClient) (remote : P2pId)
    (q : OwnerSessionForward) :=
  on_node_opt (receive_session_forward peer_client remote q).

(** *** Commands of serving SNs *)

Definition publish_lease_from_serving_sn (serving : P2pId) (l : ServingLease) (now : Timestamp)
    (s : OwnerDirectoryService) : P2pResult bool * OwnerDirectoryService :=
  match
    _ <-? owner_validate_connection serving ;;
    _ <-? (if bool_decide (sl_serving_sn_id l = serving) then Ok tt else Err P2pErrorCode.PermissionDenied) ;;
    owner_validate_command serving CmdPublishLease (sl_peer_id l)
  with
  | Err e => (Err e, s)
  | Ok _ => let '(b, s) := publish_serving_lease l now s in (Ok b, s)
  end.

Definition query_leases_from_serving_sn (serving peer : P2pId) (now : Timestamp) (s : OwnerDirectoryService)
    : P2pResult (list ServingLease) * OwnerDirectoryService :=
  match _ <-? owner_validate_connection serving ;; owner_validate_command serving CmdQueryLease peer with
  | Err e => (Err e, s)
  | Ok _ => let '(l, s) := query_serving_leases peer now s in (Ok l, s)
  end.

(** [InterSnPeer for OwnerDirectoryServer], with the clock of the call. *)
Definition owner_peer (local : P2pId) (peer_client : option OwnerPeerControlClient) (now : Timestamp)
    : InterSnPeer OwnerDirectoryService := {|
  ip_sn_id := fun _ => Some local;
  ip_publish_lease := fun remote l s => Some (publish_lease_from_sn remote l now now s);
  ip_heartbeat := fun remote m s => Some (heartbeat_from_sn remote m now s);
  ip_owner_vote := fun remote q s => let '(r, s) := receive_owner_vote remote q now s in Some (Ok r, s);
  ip_owner_control_heartbeat := fun remote q s =>
    let '(r, s) := receive_owner_control_heartbeat remote q now s in Some (Ok r, s);
  ip_owner_session_replication := fun remote q s =>
    let '(r, s) := receive_owner_session_replication remote q now s in Some (Ok r, s);
  ip_owner_session_forward := fun remote q s =>
    '(r, s) ← receive_owner_session_forward peer_client remote q s; Some (Ok r, s);
  ip_query_leases := fun remote peer s => Some (query_leases_from_sn remote peer now now s);
  ip_query_detail := fun _ _ => not_supported;
  ip_relay_call := fun _ _ => not_supported;
  ip_relay_rendezvous := fun _ _ _ => not_supported;
|}.

(** ** The commands of serving SNs on the wire *)

Inductive OwnerServingCommandCode := OcPublishLease | OcQueryLease.

Definition serving_code_as_u8 (c : OwnerServingCommandCode) : Z :=
  match c with OcPublishLease => 0x90 | OcQueryLease => 0x91 end.
Definition serving_code_try_from (v : Z) : P2pResult OwnerServingCommandCode :=
  if v =? 0x90 then Ok OcPublishLease else if v =? 0x91 then Ok OcQueryLease else Err P2pErrorCode.InvalidParam.
Definition serving_code_encode (c : OwnerServingCommandCode) (buf : list Z) : CodecResult (list Z * list Z) :=
  match buf with
  | [] => Err CodecOutOfLimit
  | _ :: rest => Ok (serving_code_as_u8 c :: rest, rest)
  end.
Definition serving_code_decode (buf : list Z) : CodecResult (OwnerServingCommandCode * list Z) :=
  match buf with
  | [] => Err CodecOutOfLimit
  | b :: rest => match serving_code_try_from b with Ok c => Ok (c, rest) | Err _ => Err CodecFailed end
  end.

Record SnQueryLease := mkQueryLease { ql_peer_id : P2pId }.

Inductive OwnerServingResponse :=
| OrPublished (written : bool) | OrLeases (leases : list SnPublishLease) | OrError (code : P2pErrorCode.t).

Context `{!RawCodec SnPublishLease, !RawCodec SnQueryLease, !RawCodec OwnerServingResponse}.

Definition owner_respond {A} (f : A -> OwnerServingResponse) (r : P2pResult A * OwnerDirectoryService)
    : OwnerServingResponse * OwnerDirectoryService :=
  (match fst r with Ok a => f a | Err e => OrError e end, snd r).

(** [body] is what [read_all] returns. *)
Definition dispatch_owner_serving_cmd (remote : P2pId) (c : OwnerServingCommandCode) (body : option (list Z))
    (now : Timestamp) (s : OwnerDirectoryService) : OwnerServingResponse * OwnerDirectoryService :=
  match body with
  | None => (OrError P2pErrorCode.Failed, s)
  | Some bytes =>
      match c with
      | OcPublishLease =>
          match clone_from_slice (T := SnPublishLease) bytes with
          | Ok l => owner_respond OrPublished (publish_lease_from_serving_sn remote (lease_of_publish l) now s)
          | Err _ => (OrError P2pErrorCode.RawCodecError, s)
          end
      | OcQueryLease =>
          match clone_from_slice (T := SnQueryLease) bytes with
          | Ok q => owner_respond (fun ls => OrLeases (publish_of_lease <$> ls))
                      (query_leases_from_serving_sn remote (ql_peer_id q) now s)
          | Err _ => (OrError P2pErrorCode.RawCodecError, s)
          end
      end
  end.

Definition handle_owner_serving_cmd (remote : P2pId) (c : OwnerServingCommandCode) (body : option (list Z))
    (now : Timestamp) (s : OwnerDirectoryService) : Result CmdErrorCode (list Z) * OwnerDirectoryService :=
  let '(r, s) := dispatch_owner_serving_cmd remote c body now s in
  (match to_vec r with Ok b => Ok b | Err _ => Err CmdFailed end, s).
End owner.

(** ** The serving SN's client *)

Definition OWNER_SERVING_CMD_VERSION : Z := 0.

(** [oc_targets]: the owners a command client exists for, when there is a
    connector. *)
Record StaticOwnerDirectoryClient := mkOwnerClient {
  oc_directory : LocalSnDirectory; oc_targets : option (gmap P2pId TtpTarget) }.

Definition owner_client_new (m : OwnerMembership) (has_connector : bool) (now : Timestamp)
    : option StaticOwnerDirectoryClient :=
  d ← directory_new (Some m) now;
  Some (mkOwnerClient d (if has_connector then Some (owner_targets m) else None)).

(** Newest first, then by serving SN. *)
Definition lease_cmp (l r : ServingLease) : comparison :=
  then_with (sl_sequence r ?= sl_sequence l) (P2pId_cmp (sl_serving_sn_id l) (sl_serving_sn_id r)).
Definition same_serving (l r : ServingLease) : bool := bool_decide (sl_serving_sn_id l = sl_serving_sn_id r).
Definition merge_leases (leases : list ServingLease) : list ServingLease :=
  dedup_by same_serving (sort_by (cmp_le lease_cmp) leases).

Section owner_client.
Context `{!RawCodec SnPublishLease, !RawCodec SnQueryLease, !RawCodec OwnerServingResponse}.
(** The owners behind the transport, and the hash of rendezvous hashing. *)
Context {W : Type}
  (send_with_resp : P2pId -> OwnerServingCommandCode -> Z -> list Z -> W -> Result CmdErrorCode (list Z) * W)
  (score : P2pId -> P2pId -> Z).

Definition send_owner_serving_request (owner : P2pId) (c : OwnerServingCommandCode) (body : list Z) (w : W)
    : P2pResult OwnerServingResponse * W :=
  let '(r, w) := send_with_resp owner c OWNER_SERVING_CMD_VERSION body w in
  (match r with
   | Err _ => Err P2pErrorCode.Failed
   | Ok bytes => match clone_from_slice bytes with Ok x => Ok x | Err _ => Err P2pErrorCode.RawCodecError end
   end, w).

Definition serving_result {A} (pick : OwnerServingResponse -> option A) (r : P2pResult OwnerServingResponse)
    : P2pResult A :=
  match r with
  | Err e => Err e
  | Ok x => match pick x with
            | Some a => Ok a
            | None => match x with OrError e => Err e | _ => Err P2pErrorCode.InvalidData end
            end
  end.

Definition send_owner_serving_publish (owner : P2pId) (l : ServingLease) (w : W) : P2pResult bool * W :=
  match to_vec (publish_of_lease l) with
  | Err _ => (Err P2pErrorCode.RawCodecError, w)
  | Ok body =>
      let '(r, w) := send_owner_serving_request owner OcPublishLease body w in
      (serving_result (fun x => match x with OrPublished b => Some b | _ => None end) r, w)
  end.
Definition send_owner_serving_query (owner peer : P2pId) (w : W) : P2pResult (list ServingLease) * W :=
  match to_vec (mkQueryLease peer) with
  | Err _ => (Err P2pErrorCode.RawCodecError, w)
  | Ok body =>
      let '(r, w) := send_owner_serving_request owner OcQueryLease body w in
      (serving_result (fun x => match x with OrLeases ls => Some (lease_of_publish <$> ls) | _ => None end) r, w)
  end.

Definition with_target {A} (c : StaticOwnerDirectoryClient) (owner : P2pId) (f : W -> P2pResult A * W) (w : W)
    : P2pResult A * W :=
  match oc_targets c with
  | Some ts => match ts !! owner with Some _ => f w | None => (Err P2pErrorCode.NotFound, w) end
  | None => (Err P2pErrorCode.NotFound, w)
  end.
Definition publish_to_owner (c : StaticOwnerDirectoryClient) (owner : P2pId) (l : ServingLease) (w : W)
    : P2pResult bool * W := with_target c owner (send_owner_serving_publish owner l) w.
Definition query_owner (c : StaticOwnerDirectoryClient) (owner peer : P2pId) (w : W)
    : P2pResult (list ServingLease) * W := with_target c owner (send_owner_serving_query owner peer) w.

Definition client_refresh (owner : P2pId) (now : Timestamp) (c : StaticOwnerDirectoryClient)
    : StaticOwnerDirectoryClient :=
  mkOwnerClient (snd (refresh_owner_member owner now (oc_directory c))) (oc_targets c).

(** [at_ o]: the time at which the owner [o] has answered. *)
Fixpoint publish_loop (at_ : P2pId -> Timestamp) (l : ServingLease) (owners : list P2pId) (accepted : bool)
    (c : StaticOwnerDirectoryClient) (w : W) : bool * StaticOwnerDirectoryClient * W :=
  match owners with
  | [] => (accepted, c, w)
  | o :: owners =>
      let '(r, w) := publish_to_owner c o l w in
      match r with
      | Ok written => publish_loop at_ l owners (accepted || written) (client_refresh o (at_ o) c) w
      | Err _ => publish_loop at_ l owners accepted c w
      end
  end.

Definition client_publish_serving_lease (local peer : P2pId) (sequence : Z) (t1 t2 : Timestamp)
    (at_ : P2pId -> Timestamp) (c : StaticOwnerDirectoryClient) (w : W)
    : P2pResult unit * StaticOwnerDirectoryClient * W :=
  let l := directory_new_lease (oc_directory c) peer local sequence t1 in
  let '(accepted, c, w) :=
    publish_loop at_ l (directory_owner_set score (oc_directory c) peer local t2) false c w in
  (if accepted then Ok tt else Err P2pErrorCode.NotFound, c, w).

Fixpoint query_loop (at_ : P2pId -> Timestamp) (peer : P2pId) (owners : list P2pId) (leases : list ServingLease)
    (c : StaticOwnerDirectoryClient) (w : W) : list ServingLease * StaticOwnerDirectoryClient * W :=
  match owners with
  | [] => (leases, c, w)
  | o :: owners =>
      let '(r, w) := query_owner c o peer w in
      match r with
      | Ok ls => query_loop at_ peer owners (leases ++ ls) (client_refresh o (at_ o) c) w
      | Err _ => query_loop at_ peer owners leases c w
      end
  end.

Definition client_query_serving_leases (local peer : P2pId) (now : Timestamp) (at_ : P2pId -> Timestamp)
    (c : StaticOwnerDirectoryClient) (w : W) : P2pResult (list ServingLease) * StaticOwnerDirectoryClient * W :=
  let '(leases, c, w) :=
    query_loop at_ peer (directory_owner_set score (oc_directory c) peer local now) [] c w in
  (Ok (merge_leases leases), c, w).
End owner_client.

(** ** Merging the owners' answers *)

Definition lease_pair (l : ServingLease) : Z * P2pId := (sl_sequence l, sl_serving_sn_id l).
Lemma lease_le_total a b : cmp_le lease_cmp a b = true \/ cmp_le lease_cmp b a = true.
Proof. apply (cmp_le_total scored_cmp (lease_pair a) (lease_pair b)). Qed.
Lemma lease_le_trans a b c :
  cmp_le lease_cmp a b = true -> cmp_le lease_cmp b c = true -> cmp_le lease_cmp a c = true.
Proof. apply (cmp_le_trans scored_cmp (lease_pair a) (lease_pair b) (lease_pair c)). Qed.
Lemma lease_le_sequence a b : cmp_le lease_cmp a b = true -> sl_sequence b <= sl_sequence a.
Proof. unfold cmp_le, lease_cmp, then_with. destruct (Z.compare_spec (sl_sequence b) (sl_sequence a)); try done; lia. Qed.

(** The merged list consists of leases that some owner answered, newest first,
    and for every lease an owner answered it has one of the same serving SN
    that is at least as new. *)
Lemma merge_leases_spec ls :
  StronglySorted (fun a b => cmp_le lease_cmp a b = true) (merge_leases ls)
  /\ (forall l, l ∈ merge_leases ls -> l ∈ ls)
  /\ forall l, l ∈ ls -> exists l', l' ∈ merge_leases ls /\ sl_serving_sn_id l' = sl_serving_sn_id l
       /\ sl_sequence l <= sl_sequence l'.
Proof.
  unfold merge_leases. pose proof (sort_by_sorted _ lease_le_total lease_le_trans ls) as Hs. split_and!.
  - by apply dedup_by_sorted.
  - intros l Hl. apply (sort_by_elem (cmp_le lease_cmp)). eapply elem_of_sublist; [done|]. apply dedup_by_sublist.
  - intros l Hl. destruct (dedup_by_covers sl_serving_sn_id same_serving _ (fun x y H => bool_decide_eq_true_1 _ H)
      _ l Hs) as (y & Hy & Hk & Hle); [by apply sort_by_elem|].
    exists y. split_and!; [done..|]. destruct Hle as [->|Hle%lease_le_sequence]; lia.
Qed.

(** ** Executions of an owner SN

    The operations on the route table, and any change of the election node
    (votes, heartbeats, replication, sessions).  A successful publication is
    recorded with the SN that sent it. *)

Inductive Publication := PubServing (serving : P2pId) (l : ServingLease) | PubOwner (remote : P2pId) (l : ServingLease).
Definition pub_lease (e : Publication) : ServingLease := match e with PubServing _ l | PubOwner _ l => l end.

Notation plane_of s := (en_control_plane (od_election_node s)).

Section executions.
Context (connection_validator : P2pId -> P2pResult ValidateResult)
  (command_validator : P2pId -> InterSnCommand -> P2pId -> P2pResult ValidateResult).
Notation publish_serving := (publish_lease_from_serving_sn connection_validator command_validator).
Notation publish_owner := (publish_lease_from_sn connection_validator command_validator).
Notation query_serving := (query_leases_from_serving_sn connection_validator command_validator).
Notation query_owner_sn := (query_leases_from_sn connection_validator command_validator).

Inductive od_step : OwnerDirectoryService -> Timestamp -> list Publication -> OwnerDirectoryService -> Prop :=
| od_publish_serving serving l now s r s' :
    publish_serving serving l now s = (r, s') ->
    od_step s now (match r with Ok true => [PubServing serving l] | _ => [] end) s'
| od_publish_owner remote l t1 now s r s' :
    publish_owner remote l t1 now s = (r, s') ->
    od_step s now (match r with Ok true => [PubOwner remote l] | _ => [] end) s'
| od_query_serving serving peer now s : od_step s now [] (snd (query_serving serving peer now s))
| od_query_owner remote peer t1 now s : od_step s now [] (snd (query_owner_sn remote peer t1 now s))
| od_local_query peer now s : od_step s now [] (snd (query_serving_leases peer now s))
| od_refresh id now s : od_step s now [] (snd (refresh_member_heartbeat id now s))
| od_node n now s : od_step s now [] (mkOwner (od_resolver s) (od_member_health s) (od_routes s) n).

Inductive od_run (s0 : OwnerDirectoryService) : list Publication -> OwnerDirectoryService -> Prop :=
| od_start : od_run s0 [] s0
| od_next h s now e s' : od_run s0 h s -> od_step s now e s' -> od_run s0 (h ++ e) s'.

(** A publication passed both validators, and on the serving side its sender is
    the serving SN of the lease. *)
Definition authorised (e : Publication) : Prop :=
  match e with
  | PubServing serving l =>
      sl_serving_sn_id l = serving
      /\ connection_validator serving = Ok Accept
      /\ command_validator serving CmdPublishLease (sl_peer_id l) = Ok Accept
  | PubOwner remote l =>
      connection_validator remote = Ok Accept /\ command_validator remote CmdPublishLease (sl_peer_id l) = Ok Accept
  end.

(** What an operation does to the route table. *)
Lemma refresh_member_effect id now s :
  od_routes (snd (refresh_member_heartbeat id now s)) = od_routes s
  /\ plane_of (snd (refresh_member_heartbeat id now s)) = plane_of s.
Proof.
  unfold refresh_member_heartbeat, on_directory, refresh_owner_member. by destruct (has_member _ _).
Qed.

Lemma publish_serving_lease_effect l now s b s' :
  publish_serving_lease l now s = (b, s') ->
  plane_of s' = plane_of s
  /\ ((b = false /\ od_routes s' = od_routes s)
      \/ (is_serving_online (plane_of s) (sl_serving_sn_id l) now = true
          /\ put_route (from_lease l) (od_routes s) = (b, od_routes s'))).
Proof.
  unfold publish_serving_lease, on_directory, directory_put_lease_route, on_store, store_put_route. simpl.
  destruct (is_serving_online _ _ _) eqn:E; simpl; [|intros [= <- <-]; auto].
  destruct (put_route _ _) as [b' r'] eqn:Ep. intros [= <- <-]. simpl. auto.
Qed.

Lemma query_serving_leases_effect peer now s :
  let '(ls, s') := query_serving_leases peer now s in
  ls = fst (store_query peer now (mkStore (plane_of s) (od_routes s)))
  /\ od_routes s' = snd (query_route_store peer (plane_of s) now (od_routes s)) /\ plane_of s' = plane_of s.
Proof.
  unfold query_serving_leases, on_directory, directory_query, on_store. simpl. unfold store_query, query_routes. simpl.
  by destruct (query_route_store _ _ _ _).
Qed.

Lemma verdict_accept (v : P2pResult ValidateResult) : verdict_result v = Ok tt -> v = Ok Accept.
Proof. by destruct v as [[]|]. Qed.

Lemma publish_serving_inv serving l now s r s' :
  publish_serving serving l now s = (r, s') ->
  (is_err r = true /\ s' = s)
  \/ exists b, r = Ok b /\ authorised (PubServing serving l) /\ publish_serving_lease l now s = (b, s').
Proof.
  unfold publish_lease_from_serving_sn, owner_validate_connection, owner_validate_command.
  destruct (verdict_result (connection_validator serving)) as [[]|] eqn:E1; simpl; [|intros [= <- <-]; auto].
  case_bool_decide as E2; simpl; [|intros [= <- <-]; auto].
  destruct (verdict_result (command_validator _ _ _)) as [[]|] eqn:E3; simpl; [|intros [= <- <-]; auto].
  destruct (publish_serving_lease l now s) as [b s1] eqn:E4. intros [= <- <-]. right. exists b.
  split_and!; auto using verdict_accept.
Qed.

Lemma publish_owner_inv remote l t1 now s r s' :
  publish_owner remote l t1 now s = (r, s') ->
  (is_err r = true /\ s' = s)
  \/ exists b, r = Ok b /\ authorised (PubOwner remote l)
       /\ publish_serving_lease l now (snd (refresh_member_heartbeat remote t1 s)) = (b, s').
Proof.
  unfold publish_lease_from_sn, owner_validate_connection, owner_validate_command.
  destruct (verdict_result (connection_validator remote)) as [[]|] eqn:E1; simpl; [|intros [= <- <-]; auto].
  destruct (verdict_result (command_validator _ _ _)) as [[]|] eqn:E3; simpl; [|intros [= <- <-]; auto].
  destruct (refresh_member_heartbeat remote t1 s) as [fr s0]. simpl.
  destruct (publish_serving_lease l now s0) as [b s1] eqn:E4. intros [= <- <-]. right. exists b.
  split_and!; auto using verdict_accept.
Qed.

(** Every step publishes one authorised route, forgets routes of an offline
    serving SN, or leaves the table alone. *)
Variant route_change (s : OwnerDirectoryService) (now : Timestamp) (e : list Publication)
    (s' : OwnerDirectoryService) : Prop :=
| rc_same : e = [] -> od_routes s' = od_routes s -> route_change s now e s'
| rc_put p : e = [p] -> authorised p -> put_route (from_lease (pub_lease p)) (od_routes s) = (true, od_routes s') ->
    route_change s now e s'
| rc_refused r : e = [] -> put_route r (od_routes s) = (false, od_routes s') -> route_change s now e s'
| rc_query peer : e = [] -> od_routes s' = snd (query_route_store peer (plane_of s) now (od_routes s)) ->
    route_change s now e s'.

Lemma publish_change p s s0 now b s' :
  authorised p -> od_routes s0 = od_routes s -> publish_serving_lease (pub_lease p) now s0 = (b, s') ->
  route_change s now (if b then [p] else []) s'.
Proof.
  intros Ha H0 [_ [[-> Hr]|[_ Hp]]]%publish_serving_lease_effect; [apply rc_same; congruence|].
  rewrite H0 in Hp. destruct b; [by eapply rc_put|by eapply rc_refused].
Qed.

Lemma query_change peer now s s0 :
  od_routes s0 = od_routes s -> plane_of s0 = plane_of s ->
  route_change s now [] (snd (query_serving_leases peer now s0)).
Proof.
  intros Hr Hp. pose proof (query_serving_leases_effect peer now s0) as Hq.
  destruct (query_serving_leases peer now s0) as [ls s1]. destruct Hq as (_ & Hq & _).
  apply (rc_query _ _ _ _ peer); [done|]. simpl. by rewrite Hq, Hr, Hp.
Qed.

Lemma od_step_change s now e s' : od_step s now e s' -> route_change s now e s'.
Proof.
  destruct 1 as [serving l now s r s' H|remote l t1 now s r s' H|serving peer now s|remote peer t1 now s|peer now s|id now s|n now s].
  - apply publish_serving_inv in H as [[? ->]|(b & -> & Ha & Hp)].
    + destruct r; [done|]. by apply rc_same.
    + pose proof (publish_change (PubServing serving l) s s now b s' Ha eq_refl Hp) as Hc. by destruct b.
  - apply publish_owner_inv in H as [[? ->]|(b & -> & Ha & Hp)].
    + destruct r; [done|]. by apply rc_same.
    + pose proof (publish_change (PubOwner remote l) s _ now b s' Ha (proj1 (refresh_member_effect _ _ _)) Hp) as Hc.
      by destruct b.
  - unfold query_leases_from_serving_sn.
    destruct (owner_validate_connection _ _); simpl; [|by apply rc_same].
    destruct (owner_validate_command _ _ _ _); simpl; [|by apply rc_same].
    pose proof (query_change peer now s s eq_refl eq_refl) as Hc. by destruct (query_serving_leases _ _ _).
  - unfold query_leases_from_sn.
    destruct (owner_validate_connection _ _); simpl; [|by apply rc_same].
    destruct (owner_validate_command _ _ _ _); simpl; [|by apply rc_same].
    destruct (refresh_member_effect remote t1 s) as [Hr Hp]. destruct (refresh_member_heartbeat _ _ _) as [fr s0].
    pose proof (query_change peer now s s0 Hr Hp) as Hc. by destruct (query_serving_leases _ _ _).
  - by apply query_change.
  - apply rc_same; [done|]. apply refresh_member_effect.
  - by apply rc_same.
Qed.

Lemma route_change_ok s now e s' : route_change s now e s' -> routes_ok (od_routes s) -> routes_ok (od_routes s').
Proof.
  intros Hc Hok. destruct Hc as [_ Hr|p _ _ Hr|r _ Hr|peer _ Hr]; [by rewrite Hr|by eapply put_route_ok..|].
  rewrite Hr. pose proof (query_route_store_spec peer (plane_of s) now _ Hok) as Hq.
  destruct (query_route_store _ _ _ _). apply Hq.
Qed.

(** Every stored route was published. *)
Definition routes_published (h : list Publication) (s : OwnerDirectoryService) : Prop :=
  routes_ok (od_routes s)
  /\ forall p sn r, route_of (od_routes s) p sn = Some r ->
       exists e, e ∈ h /\ authorised e /\ from_lease (pub_lease e) = r.

Lemma route_change_published s now e s' h :
  route_change s now e s' -> routes_published h s -> routes_published (h ++ e) s'.
Proof.
  intros Hc [Hok Hp]. destruct Hc as [-> Hr|p -> Ha Hr|r -> Hr|peer -> Hr].
  - rewrite app_nil_r. unfold routes_published. by rewrite Hr.
  - split; [by eapply put_route_ok|]. intros q sn r. rewrite (put_route_lookup _ _ _ _ q sn Hr).
    destruct (true && _) eqn:E.
    + intros [= <-]. exists p. split_and!; [|done|done]. apply elem_of_app. right. left.
    + intros (x & Hx & ?)%Hp. exists x. split; [apply elem_of_app; by left|done].
  - rewrite app_nil_r. split; [by eapply put_route_ok|]. intros q sn x.
    rewrite (put_route_lookup _ _ _ _ q sn Hr). apply Hp.
  - rewrite app_nil_r. unfold routes_published. rewrite Hr.
    pose proof (query_route_store_spec peer (plane_of s) now (od_routes s) Hok) as Hq.
    destruct (query_route_store _ _ _ _) as [l routes']. destruct Hq as (_ & _ & _ & Hl & Hok'). simpl.
    split; [done|]. intros q sn r. rewrite Hl. case_match; [done|apply Hp].
Qed.

Lemma od_run_published s0 h s : od_routes s0 = ∅ -> od_run s0 h s -> routes_published h s.
Proof.
  intros H0. induction 1 as [|h s now e s' Hr IH Hs].
  - split; [rewrite H0; apply routes_ok_empty|]. intros p sn r. rewrite H0. by unfold route_of.
  - eapply route_change_published; [by eapply od_step_change|done].
Qed.

Lemma query_serving_leases_elem peer now s l :
  routes_ok (od_routes s) ->
  l ∈ fst (query_serving_leases peer now s) <->
  exists r e, route_of (od_routes s) peer (ro_serving_sn_id r) = Some r
    /\ serving_online_expires_at (plane_of s) (ro_serving_sn_id r) now = Some e /\ l = to_lease r e.
Proof.
  intros Hok. pose proof (query_serving_leases_effect peer now s) as Hq.
  destruct (query_serving_leases peer now s) as [ls s1]. destruct Hq as (-> & _). simpl.
  by rewrite store_query_elem.
Qed.

(** A route with at least this sequence is stored. *)
Definition has_route (p sn : P2pId) (n : Z) (s : OwnerDirectoryService) : Prop :=
  routes_ok (od_routes s) /\ exists r, route_of (od_routes s) p sn = Some r /\ n <= ro_sequence r.

Lemma route_change_keeps p sn n s now e s' :
  route_change s now e s' -> is_serving_online (plane_of s) sn now = true ->
  has_route p sn n s -> has_route p sn n s'.
Proof.
  intros Hc Ho [Hok (r & Hr & Hn)].
  assert (forall x b routes', put_route x (od_routes s) = (b, routes') ->
    routes_ok routes' /\ exists r, route_of routes' p sn = Some r /\ n <= ro_sequence r) as Hput.
  { intros x b routes' Hp. split; [by eapply put_route_ok|]. pose proof (put_route_monotone x (od_routes s)) as Hm.
    rewrite Hp in Hm. destruct Hm as (_ & _ & _ & Hm). destruct (Hm _ _ _ Hr) as (y & ? & ?). exists y. split; [done|lia]. }
  unfold has_route. destruct Hc as [-> Hx|x -> Ha Hx|x -> Hx|peer -> Hx].
  - rewrite Hx. eauto.
  - by eapply Hput.
  - by eapply Hput.
  - rewrite Hx. pose proof (query_route_store_spec peer (plane_of s) now (od_routes s) Hok) as Hq.
    destruct (query_route_store _ _ _ _) as [l routes']. destruct Hq as (_ & _ & _ & Hl & Hok'). simpl.
    split; [done|]. exists r. split; [|done]. rewrite Hl. simpl. rewrite Ho. by rewrite andb_false_r.
Qed.

(** A publication takes nothing away, online or not. *)
Lemma publish_serving_keeps p sn n serving l now s r s' :
  publish_serving serving l now s = (r, s') -> has_route p sn n s -> has_route p sn n s'.
Proof.
  intros H [Hok (x & Hx & Hn)]. split.
  { eapply route_change_ok; [eapply od_step_change, od_publish_serving; exact H|done]. }
  apply publish_serving_inv in H as [[_ ->]|(b & _ & _ & Hp)]; [eauto|].
  apply publish_serving_lease_effect in Hp as [_ [[_ Er]|[_ Er]]]; [rewrite Er; eauto|].
  pose proof (put_route_monotone (from_lease l) (od_routes s)) as Hm. rewrite Er in Hm.
  destruct Hm as (_ & _ & _ & Hm). destruct (Hm _ _ _ Hx) as (y & ? & ?). exists y. split; [done|lia].
Qed.

(** Steps taken while the session of [sn] is online. *)
Inductive online_run (sn : P2pId) : OwnerDirectoryService -> OwnerDirectoryService -> Prop :=
| or_refl s : online_run sn s s
| or_step s now e s' s'' :
    is_serving_online (plane_of s) sn now = true -> od_step s now e s' -> online_run sn s' s'' -> online_run sn s s''.

Lemma online_run_keeps p sn n s s' : online_run sn s s' -> has_route p sn n s -> has_route p sn n s'.
Proof. induction 1 as [|s now e s' s'' Ho Hs _ IH]; [done|]. eauto using route_change_keeps, od_step_change. Qed.

Lemma has_route_answered p sn n now s :
  has_route p sn n s -> is_serving_online (plane_of s) sn now = true ->
  exists l, l ∈ fst (query_serving_leases p now s) /\ sl_peer_id l = p /\ sl_serving_sn_id l = sn /\ n <= sl_sequence l.
Proof.
  intros [Hok (r & Hr & Hn)] Ho. destruct (proj1 (routes_ok_alt _) Hok _ _ _ Hr) as [Hp Hsn].
  change (online (plane_of s) sn now = true) in Ho. destruct (proj1 (online_until_spec (plane_of s) sn now) Ho) as (e & He & _).
  exists (to_lease r e). split_and!; [|done..]. apply query_serving_leases_elem; [done|].
  exists r, e. rewrite Hsn. auto.
Qed.

Lemma publish_serving_has_route sn l now s s' :
  routes_ok (od_routes s) -> publish_serving sn l now s = (Ok true, s') ->
  has_route (sl_peer_id l) sn (sl_sequence l) s'.
Proof.
  intros Hok [[? ?]|(b & [= <-] & Ha & Hp)]%publish_serving_inv; [done|].
  destruct Ha as (<- & _). apply publish_serving_lease_effect in Hp as [_ [[? _]|[_ Hp]]]; [done|].
  split; [by eapply put_route_ok|]. exists (from_lease l). split; [|done].
  rewrite (put_route_lookup _ _ _ _ _ _ Hp). by rewrite bool_decide_true.
Qed.
End executions.

(** An owner SN answers a query with published leases only: in every
    state reached from an empty route table, a lease it answers for a peer comes
    from a publication of that peer, serving SN and sequence that both
    validators accepted, which either the serving SN of the lease sent itself or
    another owner SN passed on; and the serving SN's session is online, with the
    expiry that the lease gives. *)
Theorem answered_leases_authentic conn cmd s0 h s peer now l :
  od_routes s0 = ∅ -> od_run conn cmd s0 h s -> l ∈ fst (query_serving_leases peer now s) ->
  sl_peer_id l = peer
  /\ serving_online_expires_at (en_control_plane (od_election_node s)) (sl_serving_sn_id l) now = Some (sl_expires_at l)
  /\ exists e, e ∈ h /\ authorised conn cmd e
       /\ sl_peer_id (pub_lease e) = peer /\ sl_serving_sn_id (pub_lease e) = sl_serving_sn_id l
       /\ sl_sequence (pub_lease e) = sl_sequence l.
Proof.
  intros H0 Hr Hl. destruct (od_run_published _ _ _ _ _ H0 Hr) as [Hok Hp].
  apply query_serving_leases_elem in Hl as (r & e & Hr1 & He & ->); [|done].
  destruct (proj1 (routes_ok_alt _) Hok _ _ _ Hr1) as [Hpeer _]. destruct (Hp _ _ _ Hr1) as (x & Hx & Ha & Hf).
  simpl. split_and!; [done|done|]. exists x. rewrite <-Hf in *. simpl in *. by split_and!.
Qed.

(** ** From a serving SN to the owners and back *)

(** The codec encodes [x] and reads it back. *)
Definition legible {A} `{!RawCodec A} (x : A) : Prop := exists b, to_vec x = Ok b /\ clone_from_slice b = Ok x.

Section end_to_end.
Context (connection_validator : P2pId -> P2pResult ValidateResult)
  (command_validator : P2pId -> InterSnCommand -> P2pId -> P2pResult ValidateResult)
  (score : P2pId -> P2pId -> Z).
Context `{!RawCodec SnPublishLease, !RawCodec SnQueryLease, !RawCodec OwnerServingResponse}.

Notation Owners := (gmap P2pId OwnerDirectoryService).
Notation publish_serving := (publish_lease_from_serving_sn connection_validator command_validator).
Notation query_serving := (query_leases_from_serving_sn connection_validator command_validator).

(** The transport of the SN [caller] to the owners, whose clocks show [now]. *)
Definition serving_wire (caller : P2pId) (now : Timestamp) (owner : P2pId) (c : OwnerServingCommandCode)
    (_ : Z) (body : list Z) (w : Owners) : Result CmdErrorCode (list Z) * Owners :=
  match w !! owner with
  | None => (Err CmdFailed, w)
  | Some s =>
      let '(r, s) := handle_owner_serving_cmd connection_validator command_validator caller c (Some body) now s in
      (r, <[owner := s]> w)
  end.

(** Verdicts on a publication and errors are legible. *)
Definition verdicts_legible : Prop :=
  (forall b, legible (OrPublished b)) /\ forall e, legible (OrError e).

Lemma send_publish_runs caller now owner l w s :
  verdicts_legible -> legible (publish_of_lease l) -> w !! owner = Some s ->
  send_owner_serving_publish (serving_wire caller now) owner l w
  = let '(r, s') := publish_serving caller l now s in (r, <[owner := s']> w).
Proof.
  intros [Hb He] (b & E & D) Hw. unfold send_owner_serving_publish, send_owner_serving_request, serving_wire,
    handle_owner_serving_cmd, dispatch_owner_serving_cmd, owner_respond. rewrite E, Hw, D, lease_publish.
  destruct (publish_serving caller l now s) as [[x|e] s']; simpl.
  - destruct (Hb x) as (b' & -> & D'). by rewrite D'.
  - destruct (He e) as (b' & -> & D'). by rewrite D'.
Qed.

Lemma send_query_runs caller now owner peer w s ls s' :
  legible (mkQueryLease peer) -> legible (OrLeases (publish_of_lease <$> ls)) -> w !! owner = Some s ->
  query_serving caller peer now s = (Ok ls, s') ->
  send_owner_serving_query (serving_wire caller now) owner peer w = (Ok ls, <[owner := s']> w).
Proof.
  intros (b & E & D) (b' & E' & D') Hw Hq. unfold send_owner_serving_query, send_owner_serving_request, serving_wire,
    handle_owner_serving_cmd, dispatch_owner_serving_cmd, owner_respond.
  rewrite E, Hw, D. simpl. rewrite Hq. simpl. rewrite E'. simpl. rewrite D'. simpl. by rewrite leases_publish.
Qed.

(** *** Publishing *)

(** An owner that holds the route [sn] published for [p]. *)
Definition holds (w : Owners) (owner p sn : P2pId) (n : Z) : Prop :=
  exists s, w !! owner = Some s /\ has_route p sn n s.

Definition owners_ok (w : Owners) : Prop := forall o s, w !! o = Some s -> routes_ok (od_routes s).

(** What one command to an owner leaves behind. *)
Lemma publish_to_owner_spec caller now c o l w r w' :
  verdicts_legible -> legible (publish_of_lease l) -> owners_ok w ->
  publish_to_owner (serving_wire caller now) c o l w = (r, w') ->
  owners_ok w' /\ (r = Ok true -> holds w' o (sl_peer_id l) caller (sl_sequence l))
  /\ forall o' p sn n, holds w o' p sn n -> holds w' o' p sn n.
Proof.
  intros Hv Hl Hok. unfold publish_to_owner, with_target.
  destruct (oc_targets c) as [ts|]; [|intros [= <- <-]; done]. destruct (ts !! o); [|intros [= <- <-]; done].
  destruct (w !! o) as [s|] eqn:Ew.
  - rewrite (send_publish_runs _ _ _ _ _ s) by done. destruct (publish_serving caller l now s) as [r0 s'] eqn:Ep.
    intros [= <- <-].
    assert (routes_ok (od_routes s')) as Hs'.
    { eapply route_change_ok; [eapply od_step_change, od_publish_serving; exact Ep|eauto]. }
    split_and!.
    + intros o' s0 [[<- <-]|[_ ?]]%lookup_insert_Some; eauto.
    + intros ->. exists s'. rewrite lookup_insert_eq. split; [done|]. eapply publish_serving_has_route; [|exact Ep]. eauto.
    + intros o' p sn n (s0 & Hs0 & Hr). unfold holds. destruct (decide (o' = o)) as [->|].
      * rewrite lookup_insert_eq. simplify_eq. eauto using publish_serving_keeps.
      * rewrite lookup_insert_ne by done. eauto.
  - unfold send_owner_serving_publish, send_owner_serving_request, serving_wire. rewrite Ew.
    destruct (to_vec (publish_of_lease l)); simpl; intros [= <- <-]; done.
Qed.

Lemma publish_loop_spec caller now at_ l owners acc c w acc' c' w' :
  verdicts_legible -> legible (publish_of_lease l) -> owners_ok w ->
  publish_loop (serving_wire caller now) at_ l owners acc c w = (acc', c', w') ->
  (acc' = true -> acc = true \/ exists o, o ∈ owners /\ holds w' o (sl_peer_id l) caller (sl_sequence l))
  /\ forall o' p sn n, holds w o' p sn n -> holds w' o' p sn n.
Proof.
  intros Hv Hl. revert acc c w. induction owners as [|o owners IH]; intros acc c w Hok H; simpl in H.
  { simplify_eq. auto. }
  destruct (publish_to_owner _ _ _ _ _) as [r w1] eqn:E.
  apply publish_to_owner_spec in E as (Hok1 & Hr & Hk); [|done..].
  assert (exists acc1 c1, publish_loop (serving_wire caller now) at_ l owners acc1 c1 w1 = (acc', c', w')
            /\ (acc1 = true -> acc = true \/ r = Ok true)) as (acc1 & c1 & H1 & Hacc).
  { destruct r as [[]|]; eexists _, _; (split; [exact H|]); destruct acc; auto. }
  destruct (IH _ _ _ Hok1 H1) as [Ha Hk']. split; [|auto]. intros Ht.
  destruct (Ha Ht) as [Hb|(x & Hx & Hh)]; [|right; exists x; split; [by right|done]].
  destruct (Hacc Hb) as [|Hw]; [by left|]. right. exists o. split; [left|auto].
Qed.

(** *** Querying *)

Lemma owner_set_NoDup d peer local now :
  (forall m, ld_resolver d = Some m -> membership_wf m) -> NoDup (directory_owner_set score d peer local now).
Proof.
  intros Hwf. unfold directory_owner_set, owner_set_at. destruct (ld_resolver d) as [m|]; [|apply NoDup_singleton].
  apply NoDup_filter. unfold static_owner_set. eapply sublist_NoDup; [|apply sublist_take].
  rewrite ranking_perm. by apply sorted_NoDup, Hwf.
Qed.

(** The querying SN [b] reaches the owner [o] for [peer]. *)
Record reaches (c : StaticOwnerDirectoryClient) (b peer o : P2pId) (now : Timestamp) (s : OwnerDirectoryService)
    : Prop := {
  re_target : exists ts, oc_targets c = Some ts /\ is_Some (ts !! o);
  re_connection : connection_validator b = Ok Accept;
  re_command : command_validator b CmdQueryLease peer = Ok Accept;
  re_query : legible (mkQueryLease peer);
  re_answer : legible (OrLeases (publish_of_lease <$> fst (query_serving_leases peer now s)));
}.

Lemma query_owner_reaches c b peer o now w s :
  w !! o = Some s -> reaches c b peer o now s ->
  exists w', query_owner (serving_wire b now) c o peer w = (Ok (fst (query_serving_leases peer now s)), w').
Proof.
  intros Hw [(ts & Hts & [t Ht]) Hc Hm Hq Ha]. unfold query_owner, with_target. rewrite Hts, Ht.
  destruct (query_serving_leases peer now s) as [ls s'] eqn:E. simpl in *. eexists.
  apply (send_query_runs _ _ _ _ _ s); [done..|].
  unfold query_leases_from_serving_sn, owner_validate_connection, owner_validate_command. rewrite Hc, Hm. simpl.
  by rewrite E.
Qed.

Lemma query_owner_frame c b peer o now w r w' o' :
  query_owner (serving_wire b now) c o peer w = (r, w') -> o' <> o -> w' !! o' = w !! o'.
Proof.
  unfold query_owner, with_target, send_owner_serving_query, send_owner_serving_request, serving_wire. intros H Hne.
  repeat (case_match; simplify_eq/=; try done); by rewrite lookup_insert_ne.
Qed.

Lemma query_loop_accumulates caller now at_ peer owners ls c w :
  exists more c' w', query_loop (serving_wire caller now) at_ peer owners ls c w = (ls ++ more, c', w').
Proof.
  revert ls c w. induction owners as [|o owners IH]; intros ls c w; simpl.
  { exists [], c, w. by rewrite app_nil_r. }
  destruct (query_owner _ _ _ _ _) as [[x|e] w1]; [|apply IH].
  destruct (IH (ls ++ x) (client_refresh o (at_ o) c) w1) as (more & c' & w' & ->).
  exists (x ++ more), c', w'. by rewrite app_assoc.
Qed.

Lemma query_loop_finds b now at_ peer o s owners ls c w :
  NoDup owners -> o ∈ owners -> w !! o = Some s -> reaches c b peer o now s ->
  exists res c' w', query_loop (serving_wire b now) at_ peer owners ls c w = (res, c', w')
    /\ forall l, l ∈ fst (query_serving_leases peer now s) -> l ∈ res.
Proof.
  revert ls c w. induction owners as [|x owners IH]; intros ls c w Hnd Ho Hw Hr; [by apply elem_of_nil in Ho|].
  apply NoDup_cons in Hnd as [Hx Hnd]. simpl. destruct (decide (x = o)) as [->|Hne].
  - destruct (query_owner_reaches _ _ _ _ _ _ _ Hw Hr) as [w' ->].
    destruct (query_loop_accumulates b now at_ peer owners (ls ++ fst (query_serving_leases peer now s))
      (client_refresh o (at_ o) c) w') as (more & c' & w'' & ->).
    eexists _, _, _. split; [done|]. set_solver.
  - apply elem_of_cons in Ho as [->|Ho]; [done|].
    destruct (query_owner _ _ _ _ _) as [r w1] eqn:E. apply query_owner_frame with (o' := o) in E; [|done].
    rewrite Hw in E. destruct r as [x'|e]; apply IH; try done.
    destruct Hr. by split.
Qed.
End end_to_end.

(** C17: what one SN publishes another SN finds: when the client of [a] reports
    that its lease for [peer] was accepted, some owner in its owner set holds
    it.  Whatever that owner does afterwards while the session of [a] is online
    there, a client of any SN [b] whose owner set contains that owner, that has
    a target for it, passes its validators and can read the answer, gets a lease
    of [peer] served by [a] with at least the published sequence, however the
    other owners answer. *)
Theorem directory_end_to_end conn cmd score
    `{!RawCodec SnPublishLease, !RawCodec SnQueryLease, !RawCodec OwnerServingResponse}
    (a peer : P2pId) (n : Z) (tp t1 t2 : Timestamp) at_ (ca ca' : StaticOwnerDirectoryClient) w w1 :
  owners_ok w -> verdicts_legible ->
  legible (publish_of_lease (directory_new_lease (oc_directory ca) peer a n t1)) ->
  client_publish_serving_lease (serving_wire conn cmd a tp) score a peer n t1 t2 at_ ca w = (Ok tt, ca', w1) ->
  exists o s1, o ∈ directory_owner_set score (oc_directory ca) peer a t2 /\ w1 !! o = Some s1 /\
    forall (b : P2pId) (cb : StaticOwnerDirectoryClient) (tq now : Timestamp) at_' w2 s2,
      w2 !! o = Some s2 -> online_run conn cmd a s1 s2 ->
      is_serving_online (en_control_plane (od_election_node s2)) a tq = true ->
      (forall m, ld_resolver (oc_directory cb) = Some m -> membership_wf m) ->
      o ∈ directory_owner_set score (oc_directory cb) peer b now -> reaches conn cmd cb b peer o tq s2 ->
      exists leases cb' w3,
        client_query_serving_leases (serving_wire conn cmd b tq) score b peer now at_' cb w2 = (Ok leases, cb', w3)
        /\ exists l, l ∈ leases /\ sl_serving_sn_id l = a /\ n <= sl_sequence l.
Proof.
  intros Hok Hv Hl. unfold client_publish_serving_lease.
  destruct (publish_loop _ _ _ _ _ _ _) as [[acc c'] w'] eqn:E. destruct acc; intros [= <- <-].
  apply publish_loop_spec in E as [Hacc _]; [|done..]. destruct (Hacc eq_refl) as [|(o & Ho & s1 & Hs1 & Hr)]; [done|].
  exists o, s1. split_and!; [done..|]. intros b cb tq now at_' w2 s2 Hs2 Hrun Hon Hwf Hin Hre.
  apply (online_run_keeps _ _ _ _ _ _ _ Hrun) in Hr.
  destruct (has_route_answered _ _ _ _ _ Hr Hon) as (l & Hlin & _ & Hsv & Hseq).
  unfold client_query_serving_leases.
  destruct (query_loop_finds conn cmd score b tq at_' peer o s2 (directory_owner_set score (oc_directory cb) peer b now)
    [] cb w2) as (res & c'' & w3 & -> & Hfind); [by apply owner_set_NoDup|done..|].
  eexists _, _, _. split; [done|]. destruct (merge_leases_spec res) as (_ & _ & Hm).
  destruct (Hm l (Hfind _ Hlin)) as (l' & ? & ? & ?). exists l'. split_and!; [done|congruence|]. simpl in Hseq. lia.
Qed.

(** ** An owner that was silent for a while is never asked again *)

Section stale.
Context {W : Type} (score : P2pId -> P2pId -> Z).
Context `{!RawCodec SnPublishLease, !RawCodec SnQueryLease, !RawCodec OwnerServingResponse}.

(** Calls of the client, with any transport. *)
Inductive oc_step (local : P2pId) (T : Timestamp) : StaticOwnerDirectoryClient -> StaticOwnerDirectoryClient -> Prop :=
| oc_publish send peer n t1 t2 at_ c (w : W) r c' w' :
    T <= t2 -> client_publish_serving_lease send score local peer n t1 t2 at_ c w = (r, c', w') -> oc_step local T c c'
| oc_query send peer now at_ c (w : W) r c' w' :
    T <= now -> client_query_serving_leases send score local peer now at_ c w = (r, c', w') -> oc_step local T c c'.

(** From [T] on the owner is not fresh. *)
Definition silent_since (T : Timestamp) (o : P2pId) (c : StaticOwnerDirectoryClient) : Prop :=
  match fresh_until (ld_member_health (oc_directory c)) !! o with Some e => e <= T | None => True end.

Lemma silent_not_owner T o c peer local now :
  ld_resolver (oc_directory c) <> None -> silent_since T o c -> T <= now -> o <> local ->
  o ∉ directory_owner_set score (oc_directory c) peer local now.
Proof.
  unfold silent_since, directory_owner_set, owner_set_at. intros Hm Hs Ht Hne. destruct (ld_resolver _); [|done].
  rewrite list_elem_of_filter. intros [Hb _]. rewrite bool_decide_false in Hb by done. unfold health_is_fresh in Hb.
  destruct (fresh_until _ !! o); [|done]. simpl in Hb. apply Is_true_eq_true, Z.ltb_lt in Hb. lia.
Qed.

Definition abandoned (T : Timestamp) (o : P2pId) (c : StaticOwnerDirectoryClient) : Prop :=
  ld_resolver (oc_directory c) <> None /\ silent_since T o c.

Lemma client_refresh_other T o x now c : x <> o -> abandoned T o c -> abandoned T o (client_refresh x now c).
Proof.
  unfold abandoned, silent_since, client_refresh, refresh_owner_member. intros Hne [Hm Hs].
  destruct (has_member _ _); simpl; [|done]. split; [done|]. unfold refresh_at. simpl. by rewrite lookup_insert_ne.
Qed.

Lemma publish_loop_abandoned T o send at_ l owners acc c (w : W) acc' c' w' :
  o ∉ owners -> publish_loop send at_ l owners acc c w = (acc', c', w') -> abandoned T o c -> abandoned T o c'.
Proof.
  revert acc c w. induction owners as [|x owners IH]; intros acc c w Ho H Ha; simpl in H; [by simplify_eq|].
  apply not_elem_of_cons in Ho as [Hx Ho]. destruct (publish_to_owner _ _ _ _ _) as [[b|e] w1].
  - eapply IH; [done|exact H|]. by apply client_refresh_other.
  - by eapply IH.
Qed.

Lemma query_loop_abandoned T o send at_ peer owners ls c (w : W) ls' c' w' :
  o ∉ owners -> query_loop send at_ peer owners ls c w = (ls', c', w') -> abandoned T o c -> abandoned T o c'.
Proof.
  revert ls c w. induction owners as [|x owners IH]; intros ls c w Ho H Ha; simpl in H; [by simplify_eq|].
  apply not_elem_of_cons in Ho as [Hx Ho]. destruct (query_owner _ _ _ _ _) as [[b|e] w1].
  - eapply IH; [done|exact H|]. by apply client_refresh_other.
  - by eapply IH.
Qed.

Lemma oc_step_abandoned local T o c c' : o <> local -> oc_step local T c c' -> abandoned T o c -> abandoned T o c'.
Proof.
  intros Hne [send peer n t1 t2 at_ c0 w r c1 w' Ht H|send peer now at_ c0 w r c1 w' Ht H] Ha;
    (assert (forall p t, T <= t -> o ∉ directory_owner_set score (oc_directory c0) p local t) as Hno
       by (intros; destruct Ha; by eapply silent_not_owner)).
  - unfold client_publish_serving_lease in H. destruct (publish_loop _ _ _ _ _ _ _) as [[acc c2] w2] eqn:E.
    simplify_eq. eapply publish_loop_abandoned; eauto.
  - unfold client_query_serving_leases in H. destruct (query_loop _ _ _ _ _ _ _) as [[acc c2] w2] eqn:E.
    simplify_eq. eapply query_loop_abandoned; eauto.
Qed.
End stale.

(** An owner SN that the client has not heard from when its health entry
    runs out at [T] is never asked again, whatever calls are made and however
    well the owner answers: the owner set leaves it out, and only owners in the
    owner set are refreshed. *)
Theorem stale_owner_abandoned {W} score
    `{!RawCodec SnPublishLease, !RawCodec SnQueryLease, !RawCodec OwnerServingResponse}
    (local o : P2pId) (T : Timestamp) (c c' : StaticOwnerDirectoryClient) :
  o <> local -> ld_resolver (oc_directory c) <> None -> silent_since T o c ->
  rtc (oc_step (W := W) score local T) c c' ->
  forall peer now, T <= now -> o ∉ directory_owner_set score (oc_directory c') peer local now.
Proof.
  intros Hne Hm Hs Hr peer now Ht.
  destruct (rtc_preserves _ (abandoned T o) c c' (fun u v => oc_step_abandoned score local T o u v Hne) Hr (conj Hm Hs))
    as [Hm' Hs']. by eapply silent_not_owner.
Qed.

(** ** Concrete SNs: one owner, the serving SNs 70 and 71, a peer *)

Module DirectoryDemo.

Definition encode_lease (l : SnPublishLease) : list Z :=
  [pl_sequence l; pl_expires_at l; Z.of_nat (length (p2pid_bytes (pl_peer_id l)))]
  ++ p2pid_bytes (pl_peer_id l) ++ p2pid_bytes (pl_serving_sn_id l).
Definition decode_lease (b : list Z) : option SnPublishLease :=
  match b with
  | q :: e :: k :: rest =>
      Some (mkPublish (mkP2pId (take (Z.to_nat k) rest)) (mkP2pId (drop (Z.to_nat k) rest)) q e)
  | _ => None
  end.
Definition from_bytes {A} (d : list Z -> option A) (b : list Z) : CodecResult A :=
  match d b with Some a => Ok a | None => Err CodecFailed end.

Definition demo_codec {A} (e : A -> list Z) (d : list Z -> option A) : RawCodec A := {|
  codec_measure := fun a => Ok (length (e a)); to_vec := fun a => Ok (e a);
  codec_decode := fun b => match d b with Some a => Ok (a, []) | None => Err CodecFailed end;
  clone_from_slice := from_bytes d |}.

#[export] Instance demo_leases : RawCodec SnPublishLease := demo_codec encode_lease decode_lease.
#[export] Instance demo_queries : RawCodec SnQueryLease :=
  demo_codec (fun q => p2pid_bytes (ql_peer_id q)) (fun b => Some (mkQueryLease (mkP2pId b))).
(** A list of leases is encoded when it has one element. *)
#[export] Instance demo_answers : RawCodec OwnerServingResponse := demo_codec
  (fun r => match r with
            | OrPublished b => [0; if b then 1 else 0]
            | OrError e => [1; P2pErrorCode.as_u16 e]
            | OrLeases [l] => 2 :: encode_lease l
            | OrLeases _ => []
            end)
  (fun b => match b with
            | [0; x] => Some (OrPublished (x =? 1))
            | [1; e] => OrError <$> P2pErrorCode.from_u16 e
            | 2 :: l => (fun l => OrLeases [l]) <$> decode_lease l
            | _ => None
            end).

Lemma demo_verdicts : verdicts_legible.
Proof.
  split.
  - intros []; by eexists.
  - intros e. eexists. split; [done|]. simpl. unfold from_bytes. by rewrite P2pErrorCode.from_as_u16.
Qed.

Definition accept_connection (_ : P2pId) : P2pResult ValidateResult := Ok Accept.
Definition accept_any_command (_ : P2pId) (_ : InterSnCommand) (_ : P2pId) : P2pResult ValidateResult := Ok Accept.
Definition owner1 : P2pId := mkP2pId [1].
Definition sn70 : P2pId := mkP2pId [70].
Definition sn71 : P2pId := mkP2pId [71].
Definition peer9 : P2pId := mkP2pId [9].
Definition lan : Endpoint := mkEndpoint Wan Tcp (V4 (mkV4 192 0 2 1) 9000).
Definition one_owner : OwnerMembership :=
  mkMembership [member_with_endpoint owner1 lan] 1 (from_secs 300) (from_secs 60).

Definition owner_state : OwnerDirectoryService :=
  mkOwner (Some one_owner) (health_with_members (members one_owner) (from_secs 60) 1000) ∅
    (match node_renew_serving_session None sn70 0 (from_secs 60) 1000 (node_new owner1 one_owner (plane_new one_owner) 1000) with
     | Some (_, n) => n
     | None => node_new owner1 one_owner (plane_new one_owner) 1000
     end).
Definition client70 : StaticOwnerDirectoryClient :=
  default (mkOwnerClient (owner_directory owner_state) None) (owner_client_new one_owner true 1000).
Definition owners : gmap P2pId OwnerDirectoryService := {[ owner1 := owner_state ]}.
Definition after_publish := client_publish_serving_lease (serving_wire accept_connection accept_any_command sn70 2000)
  score_sum sn70 peer9 5 1500 1600 (fun _ => 2100) client70 owners.

Lemma one_owner_wf : membership_wf one_owner.
Proof. split; simpl; [repeat constructor|done|done|done]. Qed.

Lemma directory_end_to_end_witness :
  fst (fst after_publish) = Ok tt
  /\ exists leases cb' w3,
       client_query_serving_leases (serving_wire accept_connection accept_any_command sn71 3000) score_sum sn71 peer9
         3000 (fun _ => 3100) client70 (snd after_publish) = (Ok leases, cb', w3)
       /\ exists l, l ∈ leases /\ sl_serving_sn_id l = sn70 /\ 5 <= sl_sequence l.
Proof.
  split; [by vm_compute|].
  destruct (directory_end_to_end accept_connection accept_any_command score_sum sn70 peer9 5 2000 1500 1600
    (fun _ => 2100) client70 (snd (fst after_publish)) owners (snd after_publish)) as (o & s1 & Ho & Hs1 & H).
  - intros o s Hs. unfold owners in Hs. apply lookup_singleton_Some in Hs as [_ <-]. apply routes_ok_empty.
  - apply demo_verdicts.
  - eexists. split; by vm_compute.
  - by vm_compute.
  - assert (o = owner1) as ->.
    { vm_compute in Ho. apply list_elem_of_singleton in Ho. done. }
    vm_compute in Hs1. injection Hs1 as <-.
    eapply H; [by vm_compute|apply or_refl|by vm_compute| |by vm_compute; left|].
    + intros m. vm_compute. intros [= <-]. apply one_owner_wf.
    + split; [eexists; split; [by vm_compute|by vm_compute; eauto]|done|done|eexists; split; by vm_compute|].
      eexists. split; by vm_compute.
Defined.

(** The owner has not been heard of for a minute. *)
Lemma stale_owner_abandoned_witness :
  silent_since 60001000 owner1 client70
  /\ owner1 ∉ directory_owner_set score_sum (oc_directory client70) peer9 sn70 70000000.
Proof.
  assert (silent_since 60001000 owner1 client70) as Hs by (by vm_compute).
  split; [done|]. apply (stale_owner_abandoned (W := unit) score_sum sn70 owner1 60001000 client70 client70);
    [done|by vm_compute|done|apply rtc_refl|lia].
Defined.

Lemma answered_leases_authentic_witness :
  exists e, e ∈ [PubServing sn70 (mkLease peer9 sn70 5 300001500)] /\ sl_peer_id (pub_lease e) = peer9.
Proof.
  destruct (answered_leases_authentic accept_connection accept_any_command owner_state
    ([] ++ [PubServing sn70 (mkLease peer9 sn70 5 300001500)])
    (snd (publish_lease_from_serving_sn accept_connection accept_any_command sn70 (mkLease peer9 sn70 5 300001500)
       2000 owner_state)) peer9 3000 (mkLease peer9 sn70 5 60001000)) as (_ & _ & e & He & _ & Hp & _).
  - done.
  - eapply od_next; [apply od_start|]. apply (od_publish_serving _ _ sn70 (mkLease peer9 sn70 5 300001500) 2000 _ (Ok true)).
    by vm_compute.
  - vm_compute. left.
  - by exists e.
Defined.

(** Sorting by sequence separates the leases of one serving SN, and the
    deduplication of neighbours then leaves both. *)
Lemma merged_leases_repeat_sn :
  exists l1 l2 l3, sl_serving_sn_id l1 = sl_serving_sn_id l3
    /\ merge_leases [l1; l2; l3] = [l1; l2; l3].
Proof.
  exists (mkLease peer9 sn70 7 100), (mkLease peer9 sn71 6 100), (mkLease peer9 sn70 5 100). by vm_compute.
Qed.
End DirectoryDemo.
