(* ===== verification/OwnerServer.v ===== *)
(** * The control loop of an owner SN (src/p2p-frame/src/sn/directory/server.rs)

    [OwnerDirectoryServer] starts the listeners of an owner SN and a task that
    every five seconds sends heartbeats as leader, or runs an election when no
    leader is known or the known one is silent. *)

From S2P Require Import Prelude.
From S2P Require Import Errors.
From S2P Require Import Ids.
From S2P Require Import NatType.
From S2P Require Import Membership.
From S2P Require Import ControlPlane.
From S2P Require Import Election.

Definition OWNER_CONTROL_LOOP_INTERVAL : Duration := from_secs 5.

(** One turn of [run_owner_control_loop] up to its sleep; the result is only
    logged.  [None] is the panic of a missing client. *)
Definition control_turn (client : option OwnerPeerControlClient) (now : Timestamp) (n : OwnerElectionNode)
    : option (P2pResult unit * OwnerElectionNode) :=
  let ignore {A} (r : P2pResult A) : P2pResult unit := match r with Ok _ => Ok tt | Err e => Err e end in
  if bool_decide (en_role n = Leader) then '(r, n) ← send_heartbeat client now n; Some (ignore r, n)
  else if bool_decide (en_leader_id n = None) then '(r, n) ← start_election client now n; Some (ignore r, n)
  else '(r, n) ← tick client now n; Some (ignore r, n).

(** ** Progress of the loop *)

(** No answer names a term above [term]. *)
Definition no_newer {R} (rterm : R -> Z) (ask : P2pId -> P2pResult R) (term : Z) (l : list P2pId) : Prop :=
  forall j r, j ∈ l -> ask j = Ok r -> rterm r <= term.

Lemma vote_loop_runs ask term todo votes highest :
  no_newer vr_term ask term todo ->
  exists h, vote_loop ask term todo votes highest = inr ((votes + count_yes vr_granted ask todo)%nat, h).
Proof.
  intros Hn. destruct (vote_loop ask term todo votes highest) as [[t l]|[v h]] eqn:E.
  - exfalso. revert votes highest E. induction todo as [|j todo IH]; intros votes highest E; simpl in E; [done|].
    assert (no_newer vr_term ask term todo) as Hn' by (intros i r Hi; apply Hn; by right).
    destruct (ask j) as [r|e] eqn:Ej; [|by eapply IH]. specialize (Hn j r (ltac:(left)) Ej).
    destruct (Z.ltb_spec term (vr_term r)); [lia|]. by eapply IH.
  - exists h. by rewrite (vote_loop_count _ _ _ _ _ _ _ E).
Qed.

Lemma accept_loop_runs {R} (ask : P2pId -> P2pResult R) rterm racc rlead term todo a0 :
  no_newer rterm ask term todo -> exists a, accept_loop ask rterm racc rlead term todo a0 = inr a.
Proof.
  revert a0. induction todo as [|j todo IH]; intros a0 Hn; simpl; [by eexists|].
  assert (no_newer rterm ask term todo) as Hn' by (intros i r Hi; apply Hn; by right).
  destruct (ask j) as [r|e] eqn:Ej; [|by apply IH]. specialize (Hn j r (ltac:(left)) Ej).
  destruct (Z.ltb_spec term (rterm r)); [lia|]. by apply IH.
Qed.

(** The peers grant the next election: a majority with this node says yes, and
    nobody answers with a newer term, to the vote or to the heartbeat after. *)
Record peers_agree (c : OwnerPeerControlClient) (n : OwnerElectionNode) : Prop := {
  pa_votes : let term := Z.max (saturating_add (en_current_term n) 1) 1 in
    let ask j := request_vote c j (mkVoteRequest term (en_local_owner_id n)) in
    no_newer vr_term ask term (remote_members n)
    /\ (node_quorum_size n <= 1 + count_yes vr_granted ask (remote_members n))%nat;
  pa_heartbeat : forall q, no_newer hr_term (fun j => client_heartbeat c j q) (hq_term q) (remote_members n);
  pa_member : is_Some (member (cp_membership (en_control_plane n)) (en_local_owner_id n));
}.

Lemma no_client_needed c n : needs_client (Some c) n = false.
Proof. unfold needs_client. rewrite (bool_decide_false (Some c = None)) by done. apply andb_false_r. Qed.

Lemma leader_heartbeat_stays c now n :
  en_role n = Leader ->
  (forall q, no_newer hr_term (fun j => client_heartbeat c j q) (hq_term q) (remote_members n)) ->
  exists a, send_heartbeat (Some c) now n = Some (Ok a, n).
Proof.
  intros Hl Hh. unfold send_heartbeat, require_leader. rewrite bool_decide_true by done. simpl.
  rewrite no_client_needed.
  set (q := mkHeartbeat (en_current_term n) (en_local_owner_id n) (cp_committed_index (en_control_plane n))).
  destruct (accept_loop_runs (fun j => client_heartbeat c j q) hr_term hr_accepted hr_leader_id (en_current_term n)
    (remote_members n) 1 (Hh q)) as [a ->]. by exists a.
Qed.

Lemma election_won c now n :
  peers_agree c n ->
  exists n', start_election (Some c) now n = Some (Ok (en_local_owner_id n), n')
    /\ en_role n' = Leader /\ en_leader_id n' = Some (en_local_owner_id n)
    /\ en_current_term n' = Z.max (saturating_add (en_current_term n) 1) 1.
Proof.
  intros [[Hv Hq] Hh [mb Hmb]]. unfold start_election. cbn [election_begin]. rewrite no_client_needed.
  set (term := Z.max (saturating_add (en_current_term n) 1) 1) in *.
  set (n1 := set_state n Candidate term (Some (en_local_owner_id n)) None now).
  change (remote_members n1) with (remote_members n).
  change (en_local_owner_id n1) with (en_local_owner_id n) in *.
  destruct (vote_loop_runs (fun j => request_vote c j (mkVoteRequest term (en_local_owner_id n))) term
    (remote_members n) 1 term Hv) as [h ->].
  change (node_quorum_size n1) with (node_quorum_size n). rewrite (proj2 (Nat.leb_le _ _)) by exact Hq.
  unfold become_leader, set_known_leader. simpl. rewrite Hmb. simpl.
  match goal with |- context [send_heartbeat (Some c) now ?x] => set (nl := x) end.
  destruct (leader_heartbeat_stays c now nl eq_refl Hh) as [a ->]. exists nl. done.
Qed.

(** The control loop elects a leader as soon as it can: a node
    that does not lead, and knows no leader or has not heard from it for fifteen
    seconds, leads after one turn when its peers agree; and a leader whose peers
    know no newer term leads after every turn. *)
Theorem control_turn_elects c now n :
  peers_agree c n ->
  en_role n = Leader \/ en_leader_id n = None
    \/ duration_to_bucky_time DEFAULT_HEARTBEAT_TIMEOUT < saturating_sub now (en_last_heartbeat_at n) ->
  exists n', control_turn (Some c) now n = Some (Ok tt, n') /\ en_role n' = Leader
    /\ (en_role n <> Leader -> en_leader_id n' = Some (en_local_owner_id n)).
Proof.
  intros Hp Hc. unfold control_turn. case_bool_decide as Hl.
  - destruct (leader_heartbeat_stays c now n Hl (pa_heartbeat _ _ Hp)) as [a ->]. by exists n.
  - destruct (election_won c now n Hp) as (n' & He & Hr & Hid & _).
    case_bool_decide as Hn; [rewrite He; by exists n'|].
    unfold tick. rewrite bool_decide_false by done. simpl. destruct Hc as [?|[?|Hc]]; [done|done|].
    rewrite (proj2 (Z.ltb_lt _ _)) by exact Hc. rewrite He. by exists n'.
Qed.

(** ** Life cycle *)

Record OwnerDirectoryServer := mkOwnerServer {
  ow_started : bool;
  ow_stopped : bool;
  ow_owner_control_task : option nat;
  ow_peer_transport : bool; (* attached *)
  ow_serving_cmd_service : bool;
  ow_networks : bool;
  ow_running : gset nat; (* the tasks the executor runs *)
  ow_next_task : nat;
}.

Definition owner_server_new : OwnerDirectoryServer := mkOwnerServer false false None false false false ∅ 0.
Definition set_flags (started stopped : bool) (v : OwnerDirectoryServer) : OwnerDirectoryServer :=
  mkOwnerServer started stopped (ow_owner_control_task v) (ow_peer_transport v) (ow_serving_cmd_service v)
    (ow_networks v) (ow_running v) (ow_next_task v).
Definition set_attached (peer serving networks : bool) (v : OwnerDirectoryServer) : OwnerDirectoryServer :=
  mkOwnerServer (ow_started v) (ow_stopped v) (ow_owner_control_task v) peer serving networks (ow_running v)
    (ow_next_task v).

(** [spawned]: whether the executor takes the task. *)
Definition start_owner_control_loop (spawned : P2pResult unit) (v : OwnerDirectoryServer)
    : P2pResult unit * OwnerDirectoryServer :=
  match ow_owner_control_task v with
  | Some _ => (Ok tt, v)
  | None =>
      let v := set_flags (ow_started v) false v in
      match spawned with
      | Err e => (Err e, v)
      | Ok _ => (Ok tt, mkOwnerServer (ow_started v) (ow_stopped v) (Some (ow_next_task v)) (ow_peer_transport v)
                          (ow_serving_cmd_service v) (ow_networks v) ({[ow_next_task v]} ∪ ow_running v)
                          (S (ow_next_task v)))
      end
  end.

Definition stop_owner_control_loop (v : OwnerDirectoryServer) : OwnerDirectoryServer :=
  mkOwnerServer false true None (ow_peer_transport v) (ow_serving_cmd_service v) (ow_networks v)
    (ow_running v ∖ list_to_set (option_list (ow_owner_control_task v))) (ow_next_task v).

(** What the outside of a start returns: whether the configuration is complete,
    the two networks and nodes, the attachments, the listeners and the spawn. *)
Record OwnerStartEnv := mkOwnerEnv {
  oe_configured : bool;
  oe_networks : P2pResult unit;
  oe_attach_peer : P2pResult unit;
  oe_attach_serving : P2pResult unit;
  oe_listen : P2pResult unit;
  oe_spawn : P2pResult unit;
}.

Definition owner_start_inner (e : OwnerStartEnv) (v : OwnerDirectoryServer) : P2pResult unit * OwnerDirectoryServer :=
  if negb (oe_configured e) then (Err P2pErrorCode.InvalidParam, v)
  else match oe_networks e with
  | Err er => (Err er, v)
  | Ok _ =>
      match oe_attach_peer e with
      | Err er => (Err er, v)
      | Ok _ =>
          let v := set_attached true (ow_serving_cmd_service v) (ow_networks v) v in
          match oe_attach_serving e with
          | Err er => (Err er, v)
          | Ok _ =>
              let v := set_attached true true (ow_networks v) v in
              match oe_listen e with
              | Err er => (Err er, v)
              | Ok _ => start_owner_control_loop (oe_spawn e) (set_attached true true true v)
              end
          end
      end
  end.

Definition owner_server_start (e : OwnerStartEnv) (v : OwnerDirectoryServer)
    : P2pResult unit * OwnerDirectoryServer :=
  if ow_started v then (Ok tt, v)
  else
    let '(r, v) := owner_start_inner e (set_flags true (ow_stopped v) v) in
    match r with
    | Ok _ => (Ok tt, v)
    | Err er => (Err er, stop_owner_control_loop (set_flags false (ow_stopped v) v))
    end.

Inductive owner_server_run : OwnerDirectoryServer -> Prop :=
| osr_new : owner_server_run owner_server_new
| osr_start e v : owner_server_run v -> owner_server_run (snd (owner_server_start e v))
| osr_loop r v : owner_server_run v -> owner_server_run (snd (start_owner_control_loop r v))
| osr_stop v : owner_server_run v -> owner_server_run (stop_owner_control_loop v).

(** The tasks that run are the one the server holds; it does not run while the
    loop is told to stop. *)
Record loop_ok (v : OwnerDirectoryServer) : Prop := {
  lo_running : ow_running v = list_to_set (option_list (ow_owner_control_task v));
  lo_stopped : ow_stopped v = true -> ow_owner_control_task v = None;
}.

Lemma loop_ok_same v v' :
  ow_running v' = ow_running v -> ow_owner_control_task v' = ow_owner_control_task v -> ow_stopped v' = ow_stopped v ->
  loop_ok v -> loop_ok v'.
Proof. intros H1 H2 H3 [A B]. split; rewrite ?H1, ?H2, ?H3; done. Qed.

Lemma start_loop_ok r v : loop_ok v -> loop_ok (snd (start_owner_control_loop r v)).
Proof.
  intros Hv. unfold start_owner_control_loop. destruct (ow_owner_control_task v) eqn:E; [done|].
  destruct r; simpl; [|split; simpl; [rewrite (lo_running _ Hv)|]; by rewrite ?E].
  split; simpl; [|done]. rewrite (lo_running _ Hv), E. apply leibniz_equiv. set_solver.
Qed.

Lemma stop_loop_ok v : loop_ok v -> loop_ok (stop_owner_control_loop v) /\ ow_running (stop_owner_control_loop v) = ∅.
Proof.
  intros [Hr _]. assert (ow_running (stop_owner_control_loop v) = ∅) as He.
  { simpl. rewrite Hr. apply leibniz_equiv. set_solver. }
  split; [|done]. by split.
Qed.

Lemma start_inner_loop_ok e v : loop_ok v -> loop_ok (snd (owner_start_inner e v)).
Proof.
  intros Hv. unfold owner_start_inner. repeat (case_match; try done); try (by eapply loop_ok_same, Hv).
  apply start_loop_ok. by eapply loop_ok_same, Hv.
Qed.

Lemma owner_server_run_ok v : owner_server_run v -> loop_ok v.
Proof.
  induction 1 as [|e v _ IH|r v _ IH|v _ IH]; [by split| |by apply start_loop_ok|by apply stop_loop_ok].
  unfold owner_server_start. destruct (ow_started v); [done|].
  pose proof (start_inner_loop_ok e (set_flags true (ow_stopped v) v)) as H.
  destruct (owner_start_inner _ _) as [[u|er] v1]; simpl in *; [apply H; by eapply loop_ok_same, IH|].
  apply stop_loop_ok. eapply loop_ok_same; [..|apply H; by eapply loop_ok_same, IH]; done.
Qed.

(** An owner SN runs at most one control loop: over any
    sequence of starts and stops the tasks running are exactly the one the
    server holds; a start that succeeds leaves it running, one that fails leaves
    none, and after a stop the server can be started again. *)
Theorem owner_server_single_loop v :
  owner_server_run v ->
  ow_running v = list_to_set (option_list (ow_owner_control_task v))
  /\ (forall e er, fst (owner_server_start e v) = Err er -> ow_running (snd (owner_server_start e v)) = ∅)
  /\ (forall e, fst (owner_server_start e (stop_owner_control_loop v)) = Ok tt ->
        exists t, ow_owner_control_task (snd (owner_server_start e (stop_owner_control_loop v))) = Some t
          /\ ow_running (snd (owner_server_start e (stop_owner_control_loop v))) = {[t]}).
Proof.
  intros Hv%owner_server_run_ok. split_and!; [apply Hv| |].
  - intros e er. unfold owner_server_start. destruct (ow_started v); [done|].
    pose proof (start_inner_loop_ok e (set_flags true (ow_stopped v) v)) as H.
    destruct (owner_start_inner _ _) as [[u|er'] v1]; [done|]. intros _. apply stop_loop_ok.
    eapply loop_ok_same; [..|apply H; by eapply loop_ok_same, Hv]; done.
  - intros e. unfold owner_server_start. cbn [ow_started stop_owner_control_loop].
    unfold owner_start_inner. destruct (oe_configured e), (oe_networks e), (oe_attach_peer e), (oe_attach_serving e),
      (oe_listen e); try done. unfold start_owner_control_loop. simpl. destruct (oe_spawn e); [|done].
    intros _. eexists. split; [done|].
    simpl. rewrite (lo_running _ Hv). apply leibniz_equiv. set_solver.
Qed.

(** Two of three owners answer; the third is unreachable. *)
Module OwnerDemo.

Definition two_of_three : OwnerPeerControlClient :=
  mkPeerClient
    (fun j q => if bool_decide (j = owner_b) then Ok (mkVoteResponse (vq_term q) true None) else Err P2pErrorCode.Failed)
    (fun j q => if bool_decide (j = owner_b) then Ok (mkHeartbeatResponse (hq_term q) true None) else Err P2pErrorCode.Failed)
    (fun _ _ => Err P2pErrorCode.Failed) (fun _ _ => Err P2pErrorCode.Failed).

Lemma two_of_three_agree : peers_agree two_of_three (fresh_node owner_a).
Proof.
  split.
  - split; [|by vm_compute; lia]. intros j r _. simpl. case_bool_decide; [|done]. intros [= <-]. done.
  - intros q j r _. simpl. case_bool_decide; [|done]. intros [= <-]. simpl. lia.
  - by vm_compute; eauto.
Qed.

Lemma control_turn_elects_witness :
  exists n', control_turn (Some two_of_three) 1000 (fresh_node owner_a) = Some (Ok tt, n') /\ en_role n' = Leader.
Proof.
  destruct (control_turn_elects two_of_three 1000 (fresh_node owner_a) two_of_three_agree) as (n' & H & Hr & _);
    [right; left; by vm_compute|]. by exists n'.
Defined.

Definition all_well : OwnerStartEnv := mkOwnerEnv true (Ok tt) (Ok tt) (Ok tt) (Ok tt) (Ok tt).
Lemma owner_server_single_loop_witness :
  ow_running (snd (owner_server_start all_well (stop_owner_control_loop (snd (owner_server_start all_well owner_server_new)))))
  = {[1%nat]}.
Proof.
  destruct (owner_server_single_loop (snd (owner_server_start all_well owner_server_new))) as (_ & _ & H);
    [apply osr_start, osr_new|].
  destruct (H all_well eq_refl) as (t & Ht & ->). vm_compute in Ht. by injection Ht as <-.
Defined.
End OwnerDemo.
