(* ===== verification/SnClient.v ===== *)
(** * The client of super nodes (src/p2p-frame/src/sn/client/sn_service.rs)

    [SNClientService] keeps the list of active SNs: it registers at the SNs of
    its configuration, reports to the active ones, executes the NAT probe
    directives they answer with, and evicts an SN whose command stream cannot be
    had twice in a row.  Calls, queries and rendezvous requests go through an
    active SN; calls and rendezvous notifications of an SN are answered.

    Command streams, probing sockets and clocks are inputs: [Acquired] is the
    peer at the other end of the stream that was obtained, an answer is the
    decoded body or the error that its reading or decoding gives, and a
    procedure that reads the clock several times takes a function from the
    position of the reading to the time. *)

From S2P Require Import PnServer.
From S2P Require Import Prelude.
From S2P Require Import Errors.
From S2P Require Import Ids.
From S2P Require Import Endpoint.
From S2P Require Import NatType.
From S2P Require Import SnProtocol.
From S2P Require Import NatProbeScheduler.
From S2P Require Import SnExtension.
From S2P Require Import OpenTunnel.
From S2P Require Import SnEndpoints.
From S2P Require Import SnService.

(** ** Which transports are tried *)

Definition sn_client_protocol_priority (p : Protocol) : Z :=
  match p with Quic => 0 | Tcp => 1 | Ext _ => 2 end.

Definition priority_le {A} (x y : Protocol * A) : bool :=
  sn_client_protocol_priority (fst x) <=? sn_client_protocol_priority (fst y).

Definition sort_sn_client_listener_entries (entries : list (Protocol * list TunnelListenerInfo))
    : list (Protocol * list TunnelListenerInfo) := sort_by priority_le entries.

(** A TCP connection leaves from any port of the listener's address. *)
Definition sn_client_local_ep_for_protocol (p : Protocol) (local_ep : Endpoint) : option Endpoint :=
  if negb (bool_decide (p = Tcp)) then Some local_ep
  else if ip_is_unspecified (ip_of (addr local_ep)) then None
  else Some (mkEndpoint (area local_ep) (protocol local_ep) (set_port (addr local_ep) 0)).

Definition listener_candidate (e : Protocol * list TunnelListenerInfo) : Protocol * list (option Endpoint) :=
  let '(p, listeners) := e in
  let local_eps := (fun l => sn_client_local_ep_for_protocol p (li_local l)) <$> listeners in
  (p, if bool_decide (local_eps = []) then [None] else local_eps).

Definition add_supported (candidates : list (Protocol * list (option Endpoint))) (p : Protocol)
    : list (Protocol * list (option Endpoint)) :=
  if existsb (fun c => bool_decide (fst c = p)) candidates then candidates else candidates ++ [(p, [None])].

Definition sn_client_protocol_candidates (entries : list (Protocol * list TunnelListenerInfo))
    (supported : list Protocol) : list (Protocol * list (option Endpoint)) :=
  sort_by priority_le (foldl add_supported (listener_candidate <$> entries) supported).

(** The key of a command stream (sn/types.rs). *)
Record SnTunnelClassification := mkClass { cl_local_ep : option Endpoint; cl_remote_ep : Endpoint }.
(** [eq]: without a local endpoint on the right any stream to the remote one
    fits. *)
Definition classification_eqb (a b : SnTunnelClassification) : bool :=
  match cl_local_ep b with
  | Some eb => match cl_local_ep a with Some ea => ep_eqb ea eb | None => false end
  | None => true
  end && ep_eqb (cl_remote_ep a) (cl_remote_ep b).

(** ** Directives *)

Inductive NatProbeDirectiveRejectReason :=
| TransportNotUdp | ActiveEndpointProtocol | ActiveEndpointIpv4 | ActiveEndpointAddress | VersionUnsupported
| SnMismatch | PeerMismatch | DeadlineExpired | Replay | PortCount | PortZero | PortDuplicate.

Notation Checked := (Result NatProbeDirectiveRejectReason).

Definition validate_nat_probe_target (active_protocol : Protocol) (sn_endpoint : Endpoint) : Checked IpAddr :=
  if bool_decide (active_protocol = Tcp) then Err TransportNotUdp
  else if negb (bool_decide (protocol sn_endpoint = active_protocol)) then Err ActiveEndpointProtocol
  else match ip_of (addr sn_endpoint) with
       | IpV6 _ => Err ActiveEndpointIpv4
       | IpV4 ip => if v4_is_unspecified ip || v4_is_multicast ip || v4_is_broadcast ip then Err ActiveEndpointAddress
                    else Ok (IpV4 ip)
       end.

Fixpoint check_ports (unique : gset Z) (ports : list Z) : Checked unit :=
  match ports with
  | [] => Ok tt
  | p :: ports =>
      if p =? 0 then Err PortZero
      else if bool_decide (p ∈ unique) then Err PortDuplicate
      else check_ports ({[p]} ∪ unique) ports
  end.
Definition validate_nat_probe_ports (ports : list Z) : Checked unit :=
  if (length ports <? 2)%nat || (MAX_NAT_PROBE_ENDPOINTS <? length ports)%nat then Err PortCount
  else check_ports ∅ ports.

Definition build_nat_probe_endpoints (active_protocol : Protocol) (sn_endpoint : Endpoint) (ports : list Z)
    : Checked (list Endpoint) :=
  ip <-? validate_nat_probe_target active_protocol sn_endpoint ;;
  _ <-? validate_nat_probe_ports ports ;;
  Ok ((fun port => set_area Wan (endpoint_from_ip active_protocol ip port)) <$> ports).

Definition directive_replayed (last_generation last_request : Z) (d : NatProbeDirective) : bool :=
  (dr_registration_generation d <? last_generation)
  || ((dr_registration_generation d =? last_generation) && (dr_request_id d <=? last_request)).

Definition validate_probe_directive (active_sn_id local_peer_id : P2pId) (active_protocol : Protocol)
    (active_sn_endpoint : Endpoint) (last_generation last_request : Z) (now : Timestamp) (d : NatProbeDirective)
    : Checked (list Endpoint) :=
  if bool_decide (active_protocol = Tcp) then Err TransportNotUdp
  else if negb (dr_version d =? NAT_PROBE_CONTROL_VERSION) then Err VersionUnsupported
  else if negb (bool_decide (dr_sn_peer_id d = active_sn_id)) then Err SnMismatch
  else if negb (bool_decide (dr_peer_id d = local_peer_id)) then Err PeerMismatch
  else if dr_expires_at d <? now then Err DeadlineExpired
  else if directive_replayed last_generation last_request d then Err Replay
  else build_nat_probe_endpoints active_protocol active_sn_endpoint (dr_ports d).

Definition ok_or_nil {E A} (r : Result E (list A)) : list A := match r with Ok l => l | Err _ => [] end.

(** ** State *)

Definition NAT_CLIENT_PROBE_PERIOD : Z := 2 * 60 * 60 * 1000 * 1000.
Definition SN_ACTIVE_REPORT_REFRESH_INTERVAL : Z := 600 * 1000 * 1000.
Definition SN_REPORT_STREAM_FAILURE_EVICT_THRESHOLD : Z := 2.
Definition MAX_LOCAL_IP_COUNT : nat := 32.
Definition SN_PROTOCOL_VERSION : Z := 1.

Section client.
Context {Cert : Type} `{!CertOps Cert}.
(** [cert.verify_cert(cert.get_name())] *)
Context (cert_self_verified : Cert -> bool).

Record ActiveSN := mkActive {
  as_sn_peer_id : P2pId;
  as_latest_time : Timestamp;
  as_protocol : Protocol;
  as_sn_endpoint : Endpoint;
  as_wan_ep_list : list Endpoint;
  as_nat_probe_endpoints : list Endpoint;
  as_nat_probe_signer : option Cert;
  as_net_profile : NatProfile;
  as_registration_generation : Z;
  as_last_request_id : Z;
  as_next_probe_at : Timestamp;
}.

Definition set_latest_time (t : Timestamp) (a : ActiveSN) : ActiveSN :=
  mkActive (as_sn_peer_id a) t (as_protocol a) (as_sn_endpoint a) (as_wan_ep_list a) (as_nat_probe_endpoints a)
    (as_nat_probe_signer a) (as_net_profile a) (as_registration_generation a) (as_last_request_id a)
    (as_next_probe_at a).

Definition publish_active_sn (l : list ActiveSN) (a : ActiveSN) : bool * list ActiveSN :=
  if existsb (fun x => bool_decide (as_sn_peer_id x = as_sn_peer_id a)) l then (false, l) else (true, l ++ [a]).

(** The first entry of the SN. *)
Fixpoint update_active_sn (sn : P2pId) (f : ActiveSN -> ActiveSN) (l : list ActiveSN) : bool * list ActiveSN :=
  match l with
  | [] => (false, [])
  | a :: l => if bool_decide (as_sn_peer_id a = sn) then (true, f a :: l)
              else let '(b, l) := update_active_sn sn f l in (b, a :: l)
  end.

Definition active_sn_due_report (force : bool) (latest_time now : Timestamp) : bool :=
  force || (SN_ACTIVE_REPORT_REFRESH_INTERVAL <? saturating_sub now latest_time).

(** The due entries, stamped, and the whole list with them stamped. *)
Definition collect_due_active_sns (force : bool) (now : Timestamp) (l : list ActiveSN) : list ActiveSN * list ActiveSN :=
  let due a := active_sn_due_report force (as_latest_time a) now in
  (set_latest_time now <$> filter (fun a => due a = true) l, (fun a => if due a then set_latest_time now a else a) <$> l).

Record SNServiceState := mkClient {
  cs_gen_seq : Z;
  cs_pinging_handle : option nat;
  cs_active : list ActiveSN;
  cs_latest_sn_interval : Z;
  cs_first_report_pending : bool;
  cs_report_stream_failures : gmap P2pId Z;
}.

Definition client_new (seq0 : Z) : SNServiceState := mkClient seq0 None [] 0 false ∅.
Definition set_gen_seq (g : Z) (s : SNServiceState) : SNServiceState :=
  mkClient g (cs_pinging_handle s) (cs_active s) (cs_latest_sn_interval s) (cs_first_report_pending s)
    (cs_report_stream_failures s).
Definition set_active (l : list ActiveSN) (s : SNServiceState) : SNServiceState :=
  mkClient (cs_gen_seq s) (cs_pinging_handle s) l (cs_latest_sn_interval s) (cs_first_report_pending s)
    (cs_report_stream_failures s).
Definition set_failures (m : gmap P2pId Z) (s : SNServiceState) : SNServiceState :=
  mkClient (cs_gen_seq s) (cs_pinging_handle s) (cs_active s) (cs_latest_sn_interval s) (cs_first_report_pending s) m.

Definition active_sn_matches (sn : P2pId) (s : SNServiceState) : bool :=
  existsb (fun a => bool_decide (as_sn_peer_id a = sn)) (cs_active s).
Definition find_active (sn : P2pId) (s : SNServiceState) : option ActiveSN :=
  head (filter (fun a => as_sn_peer_id a = sn) (cs_active s)).

Definition remove_active_sn (sn : P2pId) (s : SNServiceState) : SNServiceState :=
  set_failures (delete sn (cs_report_stream_failures s))
    (set_active (filter (fun a => as_sn_peer_id a <> sn) (cs_active s)) s).

Definition record_report_stream_failure (sn : P2pId) (now : Timestamp) (s : SNServiceState) : SNServiceState :=
  let failures := Z.min (default 0 (cs_report_stream_failures s !! sn) + 1) u32_max in
  let s := set_failures (<[sn := failures]> (cs_report_stream_failures s)) s in
  if SN_REPORT_STREAM_FAILURE_EVICT_THRESHOLD <=? failures then remove_active_sn sn s
  else set_active (snd (update_active_sn sn
         (set_latest_time (saturating_sub now (SN_ACTIVE_REPORT_REFRESH_INTERVAL + 1))) (cs_active s))) s.

Definition clear_report_stream_failure (sn : P2pId) (s : SNServiceState) : SNServiceState :=
  set_failures (delete sn (cs_report_stream_failures s)) s.

(** ** What the SNs observed *)

Definition get_wan_ip_list (s : SNServiceState) : list Endpoint := a ← cs_active s; as_wan_ep_list a.
Definition get_wan_ip_list_for_sn (sn : P2pId) (s : SNServiceState) : list Endpoint :=
  default [] (as_wan_ep_list <$> find_active sn s).
Definition get_nat_probe_snapshot_for_sn (sn : P2pId) (s : SNServiceState) : option (list Endpoint * Cert) :=
  a ← find_active sn s; c ← as_nat_probe_signer a; Some (as_nat_probe_endpoints a, c).
Definition is_same_lan (reverse_list : list Endpoint) (s : SNServiceState) : bool :=
  existsb (fun ep => existsb (fun wan => is_same_ip_addr ep wan) (get_wan_ip_list s)) reverse_list.

Definition validate_nat_probe_signer (expected_sn : P2pId) (peer_info : option (list Z)) : option Cert :=
  match peer_info with
  | None => None
  | Some info =>
      match cert_create info with
      | Err _ => None
      | Ok c => if negb (bool_decide (cert_get_id c = expected_sn)) then None
                else if negb (cert_self_verified c) then None
                else Some c
      end
  end.

(** ** Probing *)

(** The UDP network's [probe_nat_profile]; an error also when there is no such
    network for the protocol of the endpoints. *)
Context (probe_nat_profile : list Endpoint -> Cert -> P2pResult NatProfile).

Definition nat_probe_network_protocol (endpoints : list Endpoint) : Protocol :=
  match endpoints with ep :: _ => protocol ep | [] => Quic end.

(** [probe_endpoints] and [probe_local] differ in their log lines. *)
Definition probe_local (endpoints : list Endpoint) (signer : option Cert) : NatProfile :=
  match signer with
  | None => profile_unknown
  | Some c => match probe_nat_profile endpoints c with Ok p => p | Err _ => profile_unknown end
  end.

Definition apply_completed_probe (sn : P2pId) (ids : option (Z * Z)) (p : NatProfile) (now : Timestamp)
    (s : SNServiceState) : SNServiceState :=
  set_active (snd (update_active_sn sn (fun a =>
    mkActive (as_sn_peer_id a) (as_latest_time a) (as_protocol a) (as_sn_endpoint a) (as_wan_ep_list a)
      (as_nat_probe_endpoints a) (as_nat_probe_signer a) p
      (match ids with Some (g, _) => g | None => as_registration_generation a end)
      (match ids with Some (_, r) => r | None => as_last_request_id a end)
      (now + NAT_CLIENT_PROBE_PERIOD)) (cs_active s))) s.

Definition probe_local_if_due (a : ActiveSN) (t1 t2 : Timestamp) (s : SNServiceState)
    : option NatProfile * SNServiceState :=
  if t1 <? as_next_probe_at a then (None, s)
  else
    let p := probe_local (as_nat_probe_endpoints a) (as_nat_probe_signer a) in
    (Some p, apply_completed_probe (as_sn_peer_id a) None p t2 s).

Definition execute_probe_directive (local sn : P2pId) (active_protocol : Protocol) (sn_endpoint : Endpoint)
    (last_generation last_request : Z) (signer : option Cert) (d : option NatProbeDirective) (now : Timestamp)
    : option NatProbeResult :=
  match d with
  | None => None
  | Some d =>
      match validate_probe_directive sn local active_protocol sn_endpoint last_generation last_request now d with
      | Err _ => None
      | Ok endpoints => Some (result_from_directive d (probe_local endpoints signer))
      end
  end.

(** ** Reporting *)

(** The host: its identifier and encoded certificate, the listeners, the
    protocols of its networks and its local addresses. *)
Record ClientHost := mkHost {
  ch_local : P2pId;
  ch_cert : P2pResult (list Z);
  ch_entries : list (Protocol * list TunnelListenerInfo);
  ch_supported : list Protocol;
  ch_local_ips : list IpAddr;
}.

Context {R Rc : Type}.

(** What a report meets: the stream obtained for a classification and the
    answer to the request. *)
Record ReportNet := mkNet {
  rn_acquire : SnTunnelClassification -> option P2pId;
  rn_qa : ReportSn R -> P2pResult (ReportSnResp Rc);
}.

Definition acquire_sn_send (got : option P2pId) (sn : P2pId) : P2pResult unit :=
  match got with
  | None => Err P2pErrorCode.ConnectFailed
  | Some remote => if negb (bool_decide (remote = sn)) then Err P2pErrorCode.InvalidData else Ok tt
  end.

Definition listener_endpoints (local_ips : list IpAddr) (p : Protocol) (l : TunnelListenerInfo) : list Endpoint :=
  if ip_is_unspecified (ip_of (addr (li_local l)))
  then (fun ip => endpoint_from_ip p ip (port_of (addr (li_local l)))) <$> local_ips
  else [li_local l].
Definition report_local_eps (h : ClientHost) : list Endpoint :=
  take MAX_LOCAL_IP_COUNT ('(p, ls) ← ch_entries h; l ← ls; listener_endpoints (ch_local_ips h) p l).
Definition report_map_ports (h : ClientHost) : list (Protocol * Z) :=
  '(p, ls) ← ch_entries h; l ← ls; option_list ((fun port => (p, port)) <$> li_mapping_port l).

Definition build_report (h : ClientHost) (seq : Sequence) (sn : P2pId) (cert : list Z) (send_time : Timestamp)
    (p : option NatProfile) (r : option NatProbeResult) : ReportSn R :=
  mkReport SN_PROTOCOL_VERSION 0 seq sn (Some (ch_local h)) (Some cert) send_time None None (report_map_ports h)
    (report_local_eps h) p (Some NAT_PROBE_CONTROL_VERSION) r.

Definition report_on_send (h : ClientHost) (net : ReportNet) (sn : P2pId) (p : option NatProfile)
    (r : option NatProbeResult) (now : Timestamp) (s : SNServiceState) : P2pResult (ReportSnResp Rc) * SNServiceState :=
  let '(seq, g) := SequenceGenerator_generate (cs_gen_seq s) in
  let s := set_gen_seq g s in
  (cert <-? ch_cert h ;;
   resp <-? rn_qa net (build_report h seq sn cert now p r) ;;
   (if negb (pp_seq resp =? seq) || negb (bool_decide (pp_sn_peer_id resp = sn)) then Err P2pErrorCode.InvalidData
    else Ok resp), s).

Definition report (h : ClientHost) (net : ReportNet) (cl : SnTunnelClassification) (sn : P2pId)
    (p : option NatProfile) (r : option NatProbeResult) (t_fail now : Timestamp) (s : SNServiceState)
    : P2pResult (ReportSnResp Rc) * SNServiceState :=
  match acquire_sn_send (rn_acquire net cl) sn with
  | Err e => (Err e, record_report_stream_failure sn t_fail s)
  | Ok _ => report_on_send h net sn p r now (clear_report_stream_failure sn s)
  end.

(** ** The ping loop *)

(** The fields the answer to a report renews. *)
Definition renew_active (sn : P2pId) (eps : list Endpoint) (signer : option Cert) (wan : list Endpoint)
    (s : SNServiceState) : SNServiceState :=
  set_active (snd (update_active_sn sn (fun a =>
    mkActive (as_sn_peer_id a) (as_latest_time a) (as_protocol a) (as_sn_endpoint a) wan eps signer (as_net_profile a)
      (as_registration_generation a) (as_last_request_id a) (as_next_probe_at a)) (cs_active s))) s.

(** One active SN in a round of the loop; [net1] and [net2] serve the report
    and the one with the result of a directive. *)
Definition ping_one (h : ClientHost) (net1 net2 : ReportNet) (clock : nat -> Timestamp) (a : ActiveSN)
    (s : SNServiceState) : SNServiceState :=
  let sn := as_sn_peer_id a in
  let cl := mkClass None (as_sn_endpoint a) in
  let '(probed, s) := probe_local_if_due a (clock 0%nat) (clock 1%nat) s in
  let '(r, s) := report h net1 cl sn (Some (default (as_net_profile a) probed)) None (clock 2%nat) (clock 3%nat) s in
  match r with
  | Err _ => s
  | Ok resp =>
      let signer := validate_nat_probe_signer sn (pp_peer_info resp) in
      let '(resp, signer, s) :=
        match execute_probe_directive (ch_local h) sn (as_protocol a) (as_sn_endpoint a)
                (as_registration_generation a) (as_last_request_id a) signer (pp_nat_probe_directive resp)
                (clock 4%nat) with
        | None => (resp, signer, s)
        | Some result =>
            let s := apply_completed_probe sn (Some (pr_registration_generation result, pr_request_id result))
                       (pr_profile result) (clock 5%nat) s in
            let '(r2, s) := report h net2 cl sn (Some (pr_profile result)) (Some result) (clock 6%nat) (clock 7%nat) s in
            match r2 with
            | Ok follow_up => (follow_up, validate_nat_probe_signer sn (pp_peer_info follow_up), s)
            | Err _ => (resp, signer, s)
            end
        end in
      renew_active sn
        (ok_or_nil (build_nat_probe_endpoints (as_protocol a) (as_sn_endpoint a) (pp_nat_probe_ports resp)))
        signer (pp_end_point_array resp) s
  end.

Definition ping_active (h : ClientHost) (net1 net2 : P2pId -> ReportNet) (clock : P2pId -> nat -> Timestamp)
    (force : bool) (now : Timestamp) (s : SNServiceState) : SNServiceState :=
  let '(due, l) := collect_due_active_sns force now (cs_active s) in
  foldl (fun s a => ping_one h (net1 (as_sn_peer_id a)) (net2 (as_sn_peer_id a)) (clock (as_sn_peer_id a)) a s)
    (set_active l s) due.

(** An SN of the configuration. *)
Record P2pSn := mkSn { sn_id_of : P2pId; sn_endpoints : list Endpoint }.

(** The candidates of an SN in the order of the three nested loops. *)
Definition attempts (candidates : list (Protocol * list (option Endpoint))) (sn : P2pSn)
    : list (Protocol * Endpoint * option Endpoint) :=
  '(p, local_eps) ← candidates;
  sn_ep ← filter (fun ep => protocol ep = p) (sn_endpoints sn);
  local_ep ← local_eps; [(p, sn_ep, local_ep)].

Definition register_answered (h : ClientHost) (net2 : ReportNet) (clock : nat -> Timestamp) (sn : P2pId)
    (p : Protocol) (sn_ep : Endpoint) (local_ep : option Endpoint) (resp : ReportSnResp Rc) (s : SNServiceState)
    : SNServiceState :=
  let signer := validate_nat_probe_signer sn (pp_peer_info resp) in
  let eps := ok_or_nil (build_nat_probe_endpoints p sn_ep (pp_nat_probe_ports resp)) in
  let s := set_active (snd (publish_active_sn (cs_active s)
             (mkActive sn (clock 2%nat) p sn_ep (pp_end_point_array resp) eps signer profile_unknown 0 0 (clock 3%nat)))) s in
  match execute_probe_directive (ch_local h) sn p sn_ep 0 0 signer (pp_nat_probe_directive resp) (clock 4%nat) with
  | Some result =>
      let s := apply_completed_probe sn (Some (pr_registration_generation result, pr_request_id result))
                 (pr_profile result) (clock 5%nat) s in
      let '(r2, s) := report h net2 (mkClass local_ep sn_ep) sn (Some (pr_profile result)) (Some result)
                        (clock 6%nat) (clock 7%nat) s in
      match r2 with
      | Ok resp => renew_active sn (ok_or_nil (build_nat_probe_endpoints p sn_ep (pp_nat_probe_ports resp)))
                     (validate_nat_probe_signer sn (pp_peer_info resp)) (pp_end_point_array resp) s
      | Err _ => s
      end
  | None => apply_completed_probe sn None (probe_local eps signer) (clock 5%nat) s
  end.

Fixpoint register_sn (h : ClientHost) (net1 net2 : ReportNet) (clock : SnTunnelClassification -> nat -> Timestamp)
    (sn : P2pId) (todo : list (Protocol * Endpoint * option Endpoint)) (s : SNServiceState) : SNServiceState :=
  match todo with
  | [] => s
  | (p, sn_ep, local_ep) :: todo =>
      let cl := mkClass local_ep sn_ep in
      let '(r, s) := report h net1 cl sn None None (clock cl 0%nat) (clock cl 1%nat) s in
      match r with
      | Err _ => register_sn h net1 net2 clock sn todo s
      | Ok resp => register_answered h net2 (clock cl) sn p sn_ep local_ep resp s
      end
  end.

Definition register_all (h : ClientHost) (net1 net2 : P2pId -> ReportNet)
    (clock : P2pId -> SnTunnelClassification -> nat -> Timestamp) (sns : list P2pSn) (s : SNServiceState)
    : SNServiceState :=
  let candidates := sn_client_protocol_candidates (ch_entries h) (ch_supported h) in
  foldl (fun s sn => register_sn h (net1 (sn_id_of sn)) (net2 (sn_id_of sn)) (clock (sn_id_of sn)) (sn_id_of sn)
                       (attempts candidates sn) s) s sns.

(** The head of the loop: the number of active SNs, whether to force a report,
    and the seconds to sleep, if any. *)
Definition ping_head (s : SNServiceState) : nat * bool * option Z * SNServiceState :=
  let force := cs_first_report_pending s in
  let n := length (cs_active s) in
  let finish latest := mkClient (cs_gen_seq s) (cs_pinging_handle s) (cs_active s) latest false
                         (cs_report_stream_failures s) in
  if (0 <? n)%nat then (n, force, Some (if force then 0 else 10), finish 10)
  else
    let old := cs_latest_sn_interval s in
    let next := if (old =? 0) || (old =? 10) then 1 else old * 2 in
    let next := Z.min next 600 in
    (n, force, if old =? 0 then None else Some next, finish next).

(** What follows the sleep. *)
Definition ping_body (h : ClientHost) (net1 net2 : P2pId -> ReportNet) (clock : P2pId -> nat -> Timestamp)
    (clock' : P2pId -> SnTunnelClassification -> nat -> Timestamp) (sns : list P2pSn) (n : nat) (force : bool)
    (now : Timestamp) (s : SNServiceState) : SNServiceState :=
  if (0 <? n)%nat then ping_active h net1 net2 clock force now s else register_all h net1 net2 clock' sns s.

(** ** Life cycle *)

(** [task]: the handle of the spawned loop, unless the executor refuses. *)
Definition client_start (task : option nat) (s : SNServiceState) : P2pResult unit * SNServiceState :=
  let s := mkClient (cs_gen_seq s) (cs_pinging_handle s) (cs_active s) (cs_latest_sn_interval s) true
             (cs_report_stream_failures s) in
  match task with
  | None => (Err P2pErrorCode.Failed, s)
  | Some t => (Ok tt, mkClient (cs_gen_seq s) (Some t) (cs_active s) (cs_latest_sn_interval s) true
                        (cs_report_stream_failures s))
  end.
(** The handle returned is aborted. *)
Definition client_stop (s : SNServiceState) : option nat * SNServiceState :=
  (cs_pinging_handle s,
   mkClient (cs_gen_seq s) None [] (cs_latest_sn_interval s) (cs_first_report_pending s) ∅).
(** [reset_sn], which also replaces the list of SNs and drops the streams. *)
Definition client_reset (task : option nat) (s : SNServiceState) : P2pResult unit * SNServiceState :=
  client_start task (snd (client_stop s)).

(** ** Rendezvous *)

(** The cargo feature and the probing of the [HashSet], as in the validation
    of rendezvous messages. *)
Context (test_real_socket_matrix : bool) (hash_probe : Endpoint -> Endpoint -> bool).

Record SnTunnelRendezvousActionAck := mkAck {
  ak_predicted_endpoints : list Endpoint; ak_socket_binding_generation : Z; ak_valid_until : Timestamp }.
Definition without_prediction : SnTunnelRendezvousActionAck := mkAck [] 0 0.

(** [SNRendezvousEvent] *)
Definition SNRendezvousEvent : Type := SnTunnelRendezvousNotify -> P2pId -> P2pResult SnTunnelRendezvousActionAck.

Definition ack_fits (need_predict : bool) (now : Timestamp) (ack : SnTunnelRendezvousActionAck) : bool :=
  if need_predict then negb (ak_socket_binding_generation ack =? 0) && (now <=? ak_valid_until ack)
  else bool_decide (ak_predicted_endpoints ack = []) && (ak_socket_binding_generation ack =? 0)
       && (ak_valid_until ack =? 0).

(** [None] is each early return, where the answer is a failure. *)
Definition rendezvous_ack (local : P2pId) (listener : option SNRendezvousEvent) (sn : P2pId)
    (notify : SnTunnelRendezvousNotify) (now : Timestamp) (s : SNServiceState) : option SnTunnelRendezvousResp :=
  if negb (active_sn_matches sn s) then None
  else match notify_validate test_real_socket_matrix hash_probe notify, cert_create (nt_peer_info notify), listener with
       | Ok _, Ok c, Some on_rendezvous =>
           if bool_decide (cert_get_id c = local) then None
           else match on_rendezvous notify sn with
                | Err _ => None
                | Ok ack =>
                    if negb (ack_fits (nt_need_predict_endpoint notify) now ack) then None
                    else
                      let response := resp_success (nt_seq notify) (ak_predicted_endpoints ack) in
                      match resp_validate test_real_socket_matrix hash_probe response (nt_seq notify)
                              (nt_need_predict_endpoint notify) with
                      | Err _ => None
                      | Ok _ => Some response
                      end
                end
       | _, _, _ => None
       end.
Definition on_rendezvous_notify (local : P2pId) (listener : option SNRendezvousEvent) (sn : P2pId)
    (notify : SnTunnelRendezvousNotify) (now : Timestamp) (s : SNServiceState) : SnTunnelRendezvousResp :=
  default (resp_failure (nt_seq notify)) (rendezvous_ack local listener sn notify now s).

(** The loop around the generator, with the number of its turns. *)
Fixpoint nonzero_seq (fuel : nat) (cur : Z) : option (Sequence * Z) :=
  match fuel with
  | O => None
  | S fuel => let '(seq, cur) := SequenceGenerator_generate cur in
              if negb (seq =? 0) then Some (seq, cur) else nonzero_seq fuel cur
  end.

Definition new_rendezvous_request (tunnel_id : TunnelId) (to : P2pId) (op : SnTunnelRendezvousOperation)
    (eps : list Endpoint) (need_predict : bool) (s : SNServiceState)
    : option (P2pResult SnTunnelRendezvous * SNServiceState) :=
  '(seq, g) ← nonzero_seq 1 (cs_gen_seq s);
  let request := mkRendezvous seq tunnel_id to op eps need_predict in
  Some (_ <-? rendezvous_validate test_real_socket_matrix hash_probe request ;; Ok request, set_gen_seq g s).

(** [send_sn_qa]: [qa] is the decoded answer on the stream. *)
Definition rendezvous_via_sn (acquire : SnTunnelClassification -> option P2pId) (to_vec : SnTunnelRendezvous -> option (list Z))
    (qa : list Z -> P2pResult (P2pResult SnTunnelRendezvousResp)) (sn : P2pId) (request : SnTunnelRendezvous)
    (s : SNServiceState) : P2pResult SnTunnelRendezvousResp :=
  _ <-? rendezvous_validate test_real_socket_matrix hash_probe request ;;
  match find_active sn s with
  | None => Err P2pErrorCode.NotFound
  | Some a =>
      match to_vec request with
      | None => Err P2pErrorCode.RawCodecError
      | Some bytes =>
          match _ <-? acquire_sn_send (acquire (mkClass None (as_sn_endpoint a))) sn ;; qa bytes with
          | Err _ => Err P2pErrorCode.IoError
          | Ok (Err _) => Err P2pErrorCode.RawCodecError
          | Ok (Ok response) =>
              _ <-? resp_validate test_real_socket_matrix hash_probe response (rq_seq request)
                      (rq_need_predict_endpoint request) ;;
              (if negb (resp_is_success response) then Err P2pErrorCode.Failed else Ok response)
          end
      end
  end.

(** ** Calls and queries *)

Record SnCalledResp := mkCalledResp { cdr_seq : Sequence; cdr_sn_peer_id : P2pId; cdr_result : Z }.

(** The answer sent back on the stream of the notification. *)
Definition called_resp (local : P2pId) (listener : option (SnCalled -> P2pResult unit)) (c : SnCalled) : SnCalledResp :=
  mkCalledResp (cd_seq c) (cd_sn_peer_id c)
    (if bool_decide (cd_to_peer_id c = local) then
       match listener with
       | Some on_called => match on_called c with Ok _ => 0 | Err e => P2pErrorCode.as_u8 e end
       | None => 0
       end
     else P2pErrorCode.as_u8 P2pErrorCode.TargetNotFound).
Definition on_called (local : P2pId) (listener : option (SnCalled -> P2pResult unit)) (c : SnCalled)
    (to_vec : SnCalledResp -> option (list Z)) (send : list Z -> bool) : P2pResult (list Z) :=
  match to_vec (called_resp local listener c) with
  | None => Err P2pErrorCode.RawCodecError
  | Some bytes => if send bytes then Ok bytes else Err P2pErrorCode.IoError
  end.

(** How requests reach an active SN. *)
Record SnNet (Req Resp : Type) := mkSnNet {
  nn_acquire : SnTunnelClassification -> option P2pId;
  nn_to_vec : Req -> option (list Z);
  nn_qa : P2pId -> list Z -> P2pResult Resp;
}.

(** The loop over the active SNs that calls and queries share: [build] makes
    the request with the next sequence, [accept] checks the answer. *)
Fixpoint ask_active {Req Resp A} (net : SnNet Req Resp) (build : ActiveSN -> Sequence -> P2pResult Req)
    (accept : ActiveSN -> Sequence -> Resp -> option A) (l : list ActiveSN) (g : Z) : P2pResult A * Z :=
  match l with
  | [] => (Err P2pErrorCode.ConnectFailed, g)
  | a :: l =>
      let '(seq, g) := SequenceGenerator_generate g in
      match build a seq with
      | Err e => (Err e, g)
      | Ok req =>
          match nn_to_vec _ _ net req with
          | None => (Err P2pErrorCode.RawCodecError, g)
          | Some bytes =>
              match _ <-? acquire_sn_send (nn_acquire _ _ net (mkClass None (as_sn_endpoint a))) (as_sn_peer_id a) ;;
                    nn_qa _ _ net (as_sn_peer_id a) bytes with
              | Err _ => ask_active net build accept l g
              | Ok resp => match accept a seq resp with
                           | Some x => (Ok x, g)
                           | None => ask_active net build accept l g
                           end
              end
          end
      end
  end.

Definition build_call (h : ClientHost) (tunnel_id : TunnelId) (reverse : option (list Endpoint)) (remote : P2pId)
    (call_type : TunnelType) (payload : list Z) (ctx : option NatTraversalContext) (clock : P2pId -> Timestamp)
    (a : ActiveSN) (seq : Sequence) : P2pResult SnCall :=
  cert <-? ch_cert h ;;
  Ok (mkCall SN_PROTOCOL_VERSION 0 seq tunnel_id (as_sn_peer_id a) remote (ch_local h) reverse None (Some cert)
        (clock (as_sn_peer_id a)) call_type payload false ctx).
Definition accept_call (a : ActiveSN) (seq : Sequence) (resp : SnCallResp) : option SnCallResp :=
  if negb (cr_seq resp =? seq) || negb (bool_decide (cr_sn_peer_id resp = as_sn_peer_id a)) then None else Some resp.
Definition call_inner (h : ClientHost) (net : SnNet SnCall SnCallResp) (preferred : option P2pId) (tunnel_id : TunnelId)
    (reverse : option (list Endpoint)) (remote : P2pId) (call_type : TunnelType) (payload : list Z)
    (ctx : option NatTraversalContext) (clock : P2pId -> Timestamp) (s : SNServiceState)
    : P2pResult SnCallResp * SNServiceState :=
  let l := filter (fun a => bool_decide (default (as_sn_peer_id a) preferred = as_sn_peer_id a) = true) (cs_active s) in
  let '(r, g) := ask_active net (build_call h tunnel_id reverse remote call_type payload ctx clock) accept_call l
                   (cs_gen_seq s) in
  (r, set_gen_seq g s).
Definition client_call (h : ClientHost) (net : SnNet SnCall SnCallResp) (tunnel_id : TunnelId)
    (reverse : option (list Endpoint)) (remote : P2pId) (call_type : TunnelType) (payload : list Z)
    (clock : P2pId -> Timestamp) (s : SNServiceState) :=
  call_inner h net None tunnel_id reverse remote call_type payload None clock s.
Definition client_call_via_sn (h : ClientHost) (net : SnNet SnCall SnCallResp) (sn : P2pId) (tunnel_id : TunnelId)
    (reverse : option (list Endpoint)) (remote : P2pId) (call_type : TunnelType) (payload : list Z)
    (ctx : option NatTraversalContext) (clock : P2pId -> Timestamp) (s : SNServiceState) :=
  call_inner h net (Some sn) tunnel_id reverse remote call_type payload ctx clock s.

Record SnQueryResult := mkQueryResult {
  qx_sn_peer_id : P2pId; qx_local_net_profile : NatProfile; qx_response : SnQueryResp }.
Definition build_query (device : P2pId) (a : ActiveSN) (seq : Sequence) : P2pResult SnQuery :=
  Ok (mkQuery SN_PROTOCOL_VERSION 0 seq device).
Definition accept_query (a : ActiveSN) (seq : Sequence) (resp : SnQueryResp) : option SnQueryResult :=
  if negb (qr_seq resp =? seq) then None else Some (mkQueryResult (as_sn_peer_id a) (as_net_profile a) resp).
Definition query_with_context (net : SnNet SnQuery SnQueryResp) (device : P2pId) (s : SNServiceState)
    : P2pResult SnQueryResult * SNServiceState :=
  let '(r, g) := ask_active net (build_query device) accept_query (cs_active s) (cs_gen_seq s) in
  (r, set_gen_seq g s).
Definition client_query (net : SnNet SnQuery SnQueryResp) (device : P2pId) (s : SNServiceState)
    : P2pResult SnQueryResp * SNServiceState :=
  let '(r, s) := query_with_context net device s in (x <-? r ;; Ok (qx_response x), s).

(** ** Opening command streams *)

(** [open_cmd_tunnel] is the dial: [Some remote] when the stream opens. *)
Definition open_cmd_tunnel_to_sn (dial : option Endpoint -> Endpoint -> P2pId -> option P2pId) (sns : list P2pSn)
    (local_ep : option Endpoint) (remote_ep : Endpoint) : option P2pId :=
  match head (filter (fun '(sn_ep, _) => protocol sn_ep = protocol remote_ep /\ ep_eqb sn_ep remote_ep = true)
                (sn ← sns; (fun ep => (ep, sn_id_of sn)) <$> sn_endpoints sn)) with
  | Some (sn_ep, id) => dial local_ep sn_ep id
  | None => None
  end.
Fixpoint first_open {A} (dial : A -> option P2pId) (l : list A) : option P2pId :=
  match l with [] => None | x :: l => match dial x with Some r => Some r | None => first_open dial l end end.
Definition create_cmd_tunnel (h : ClientHost) (dial : option Endpoint -> Endpoint -> P2pId -> option P2pId)
    (sns : list P2pSn) (cl : option SnTunnelClassification) : option P2pId :=
  match cl with
  | Some c => open_cmd_tunnel_to_sn dial sns (cl_local_ep c) (cl_remote_ep c)
  | None =>
      first_open (fun '(local_ep, sn_ep, id) => dial local_ep sn_ep id)
        ('(p, local_eps) ← sn_client_protocol_candidates (ch_entries h) (ch_supported h);
         sn ← sns; sn_ep ← filter (fun ep => protocol ep = p) (sn_endpoints sn);
         local_ep ← local_eps; [(local_ep, sn_ep, sn_id_of sn)])
  end.

(** One turn of [wait_online]: [None] is another second of sleep. *)
Definition wait_online_turn (expire : option Timestamp) (now : Timestamp) (s : SNServiceState) : option (P2pResult unit) :=
  if match expire with Some e => e <? now | None => false end then Some (Err P2pErrorCode.Timeout)
  else if (0 <? length (cs_active s))%nat then Some (Ok tt) else None.
End client.
Arguments ActiveSN : clear implicits.
Arguments SNServiceState : clear implicits.
Arguments ReportNet : clear implicits.
Arguments SnNet : clear implicits.
Arguments mkSnNet {Req Resp}.

(** ** Interleavings

    The regions the ping loop runs under the lock of the state; other tasks run
    between them. *)

Section steps.
Context {Cert : Type}.
Implicit Types s : SNServiceState Cert.
Implicit Types a : ActiveSN Cert.

Inductive ping_step : SNServiceState Cert -> SNServiceState Cert -> Prop :=
| PS_seq s : ping_step s (set_gen_seq (snd (SequenceGenerator_generate (cs_gen_seq s))) s)
| PS_fail sn now s : ping_step s (record_report_stream_failure sn now s)
| PS_clear sn s : ping_step s (clear_report_stream_failure sn s)
| PS_due force now s : ping_step s (set_active (snd (collect_due_active_sns force now (cs_active s))) s)
| PS_probe sn ids p now s : ping_step s (apply_completed_probe sn ids p now s)
| PS_renew sn eps signer wan s : ping_step s (renew_active sn eps signer wan s)
| PS_head s : ping_step s (snd (ping_head s)).

Inductive client_step : SNServiceState Cert -> SNServiceState Cert -> Prop :=
| CS_ping s s' : ping_step s s' -> client_step s s'
| CS_publish a s : client_step s (set_active (snd (publish_active_sn (cs_active s) a)) s)
| CS_start task s : client_step s (snd (client_start task s))
| CS_stop s : client_step s (snd (client_stop s)).

Definition active_ids s : list P2pId := as_sn_peer_id <$> cs_active s.

Record client_inv s : Prop := {
  ci_ids : NoDup (active_ids s);
  ci_failures : map_Forall (fun _ n => n = 1) (cs_report_stream_failures s);
  ci_interval : 0 <= cs_latest_sn_interval s <= 600;
}.

Lemma update_active_ids sn (f : ActiveSN Cert -> ActiveSN Cert) l :
  (forall a, as_sn_peer_id (f a) = as_sn_peer_id a) ->
  as_sn_peer_id <$> snd (update_active_sn sn f l) = as_sn_peer_id <$> l.
Proof.
  intros Hf. induction l as [|a l IH]; simpl; [done|]. case_bool_decide; csimpl; [by rewrite Hf|].
  destruct (update_active_sn sn f l). csimpl in *. by rewrite IH.
Qed.

Lemma due_ids force now (l : list (ActiveSN Cert)) :
  as_sn_peer_id <$> snd (collect_due_active_sns force now l) = as_sn_peer_id <$> l.
Proof. simpl. rewrite <- list_fmap_compose. apply list_fmap_ext. intros i a _. simpl. by case_match. Qed.

Lemma filter_ids_sublist (P : ActiveSN Cert -> Prop) `{!forall a, Decision (P a)} l :
  as_sn_peer_id <$> filter P l `sublist_of` as_sn_peer_id <$> l.
Proof. apply fmap_sublist, sublist_filter. Qed.

(** The ping loop's steps never add an SN. *)
Lemma ping_step_ids s s' : ping_step s s' -> active_ids s' `sublist_of` active_ids s.
Proof.
  intros H. unfold active_ids. destruct H; try done; unfold apply_completed_probe, renew_active; cbn [cs_active set_active].
  - unfold record_report_stream_failure. case_match; [apply filter_ids_sublist|].
    cbn [cs_active set_active set_failures]. by rewrite update_active_ids.
  - by rewrite (due_ids force now).
  - by rewrite update_active_ids.
  - by rewrite update_active_ids.
  - unfold ping_head. by case_match.
Qed.

Lemma ping_steps_ids s s' : rtc ping_step s s' -> active_ids s' `sublist_of` active_ids s.
Proof. induction 1 as [|s s1 s2 H _ IH]; [done|]. etrans; [exact IH|by apply ping_step_ids]. Qed.

(** The first failure makes the SN due at once, the second evicts it. *)
Lemma record_failure_eq sn now s :
  map_Forall (fun _ n => n = 1) (cs_report_stream_failures s) ->
  record_report_stream_failure sn now s =
  match cs_report_stream_failures s !! sn with
  | Some _ => remove_active_sn sn s
  | None => set_active (snd (update_active_sn sn
              (set_latest_time (saturating_sub now (SN_ACTIVE_REPORT_REFRESH_INTERVAL + 1))) (cs_active s)))
              (set_failures (<[sn := 1]> (cs_report_stream_failures s)) s)
  end.
Proof.
  intros Hf. unfold record_report_stream_failure.
  destruct (cs_report_stream_failures s !! sn) as [n|] eqn:E; simpl; [|done].
  rewrite (Hf _ _ E). vm_compute Z.min. simpl. unfold remove_active_sn, set_failures. simpl. by rewrite delete_insert_eq.
Qed.

Lemma client_step_inv s s' : client_step s s' -> client_inv s -> client_inv s'.
Proof.
  intros H [Hn Hf Hi]. destruct H as [s s' H|a s|task s|s].
  - split; [by eapply sublist_NoDup; [|apply ping_step_ids]| |]; destruct H; simpl; try done.
    + rewrite record_failure_eq by done. case_match; simpl; [by apply map_Forall_delete|by apply map_Forall_insert_2].
    + by apply map_Forall_delete.
    + unfold ping_head. by case_match.
    + rewrite record_failure_eq by done. by case_match.
    + unfold ping_head. repeat case_match; simpl; lia.
  - split; [|done|done]. unfold active_ids, publish_active_sn. simpl. case_match eqn:E; [done|].
    simpl. rewrite fmap_app. apply NoDup_app. split; [done|]. split; [|by apply NoDup_singleton].
    intros x (b & -> & Hb)%list_elem_of_fmap Hx%list_elem_of_singleton.
    apply not_true_iff_false in E. apply E, existsb_exists. exists b. rewrite <- list_elem_of_In.
    split; [done|by apply bool_decide_eq_true].
  - destruct task; by split.
  - split; simpl; [constructor|apply map_Forall_empty|done].
Qed.
End steps.

(** The procedures of the loop are sequences of those steps. *)
Section rounds.
Context {Cert : Type} `{!CertOps Cert} (verified : Cert -> bool)
  (probe : list Endpoint -> Cert -> P2pResult NatProfile) {R Rc : Type}.
Implicit Types s : SNServiceState Cert.
Implicit Types a : ActiveSN Cert.

Lemma report_steps h (net : ReportNet R Rc) cl sn p r t1 t2 s res s' :
  report h net cl sn p r t1 t2 s = (res, s') -> rtc ping_step s s'.
Proof.
  unfold report. case_match; intros; simplify_eq; [|by apply rtc_once; constructor].
  unfold report_on_send in *. case_match eqn:E. simplify_eq.
  eapply rtc_l; [apply PS_clear|]. apply rtc_once.
  pose proof (PS_seq (clear_report_stream_failure sn s)) as Hq. by rewrite E in Hq.
Qed.

Lemma ping_one_steps h (net1 net2 : ReportNet R Rc) clock a s : rtc ping_step s (ping_one verified probe h net1 net2 clock a s).
Proof.
  unfold ping_one.
  destruct (probe_local_if_due probe a (clock 0%nat) (clock 1%nat) s) as [probed s1] eqn:E1.
  assert (H1 : rtc ping_step s s1).
  { unfold probe_local_if_due in E1. case_match; simplify_eq; [done|by apply rtc_once; constructor]. }
  destruct (report h net1 _ _ _ _ _ _ s1) as [r s2] eqn:E2. apply report_steps in E2.
  etrans; [exact H1|]. etrans; [exact E2|]. destruct r as [resp|e]; [|done].
  destruct (execute_probe_directive _ _ _ _ _ _ _ _ _ _) as [result|]; [|by apply rtc_once; constructor].
  destruct (report h net2 _ _ _ _ _ _ _) as [r2 s4] eqn:E4. apply report_steps in E4.
  eapply rtc_l; [apply PS_probe|]. etrans; [exact E4|]. destruct r2; apply rtc_once; constructor.
Qed.

Lemma ping_active_steps h (net1 net2 : P2pId -> ReportNet R Rc) clock force now s :
  rtc ping_step s (ping_active verified probe h net1 net2 clock force now s).
Proof.
  unfold ping_active. destruct (collect_due_active_sns force now (cs_active s)) as [due l] eqn:E.
  pose proof (PS_due force now s) as H. rewrite E in H. cbn [snd] in H. eapply rtc_l; [exact H|]. clear.
  generalize (set_active l s). induction due as [|a due IH]; intros t; simpl; [apply rtc_refl|].
  etrans; [apply ping_one_steps|apply IH].
Qed.

Lemma ping_steps_client s s' : rtc ping_step s s' -> rtc client_step s s'.
Proof. induction 1; [done|]. eapply rtc_l; [by constructor|done]. Qed.

Lemma register_answered_steps h (net2 : ReportNet R Rc) clock sn p sn_ep local_ep resp s :
  rtc client_step s (register_answered verified probe h net2 clock sn p sn_ep local_ep resp s).
Proof.
  unfold register_answered. eapply rtc_l; [apply CS_publish|].
  destruct (execute_probe_directive _ _ _ _ _ _ _ _ _ _) as [result|]; apply ping_steps_client;
    [|by apply rtc_once; constructor].
  destruct (report h net2 _ _ _ _ _ _ _) as [r2 s4] eqn:E4. apply report_steps in E4.
  eapply rtc_l; [apply PS_probe|]. etrans; [exact E4|]. destruct r2; [|done]. apply rtc_once; constructor.
Qed.

Lemma register_sn_steps h (net1 net2 : ReportNet R Rc) clock sn todo s :
  rtc client_step s (register_sn verified probe h net1 net2 clock sn todo s).
Proof.
  revert s. induction todo as [|[[p sn_ep] local_ep] todo IH]; intros s; simpl; [apply rtc_refl|].
  destruct (report h net1 _ _ _ _ _ _ s) as [r s1] eqn:E. apply report_steps, ping_steps_client in E.
  etrans; [exact E|]. destruct r; [apply register_answered_steps|apply IH].
Qed.

Lemma ping_body_steps h (net1 net2 : P2pId -> ReportNet R Rc) clock clock' sns n force now s :
  rtc client_step s (ping_body verified probe h net1 net2 clock clock' sns n force now s).
Proof.
  unfold ping_body. case_match; [apply ping_steps_client, ping_active_steps|]. unfold register_all.
  revert s. induction sns as [|sn sns IH]; intros s; simpl; [done|]. etrans; [apply register_sn_steps|apply IH].
Qed.
End rounds.

(** What the client's tasks do, in any interleaving of the regions that run
    under the lock; whole rounds of the ping loop are among the sequences. *)
Inductive client_reachable {Cert} (seq0 : Z) : SNServiceState Cert -> Prop :=
| CR_new : client_reachable seq0 (client_new seq0)
| CR_step s s' : client_reachable seq0 s -> client_step s s' -> client_reachable seq0 s'.

Lemma client_reachable_inv {Cert} seq0 (s : SNServiceState Cert) : client_reachable seq0 s -> client_inv s.
Proof.
  induction 1 as [|s s' _ IH H]; [|by eapply client_step_inv].
  split; [constructor|apply map_Forall_empty|simpl; lia].
Qed.

(** ** Eviction *)

Section eviction.
Context {Cert R Rc : Type} (h : ClientHost).
Implicit Types s : SNServiceState Cert.

(** A report of the history: its SN, the streams it meets and the time. *)
Notation Event := (P2pId * (ReportNet R Rc * SnTunnelClassification) * Timestamp)%type.

Definition acquired (e : Event) : bool :=
  let '(sn, (net, cl), _) := e in match acquire_sn_send (rn_acquire net cl) sn with Ok _ => true | Err _ => false end.
Definition run_reports (es : list Event) s : SNServiceState Cert :=
  foldl (fun s '(sn, (net, cl), t) => snd (report h net cl sn None None t t s)) s es.
(** Whether the streams for [sn] were had, in order. *)
Definition outcomes (sn : P2pId) (es : list Event) : list bool :=
  acquired <$> filter (fun e => fst (fst e) = sn) es.
Fixpoint two_in_a_row (failed : bool) (l : list bool) : bool :=
  match l with
  | [] => false
  | true :: l => two_in_a_row false l
  | false :: l => failed || two_in_a_row true l
  end.

Lemma report_other (net : ReportNet R Rc) cl sn sn' t s :
  client_inv s -> sn <> sn' ->
  let s' := snd (report h net cl sn' None None t t s) in
  cs_report_stream_failures s' !! sn = cs_report_stream_failures s !! sn
  /\ (sn ∈ active_ids s' <-> sn ∈ active_ids s).
Proof.
  intros [_ Hf _] Hne. unfold report. case_match.
  - unfold report_on_send. case_match. simpl. by rewrite lookup_delete_ne.
  - simpl. rewrite record_failure_eq by done. unfold active_ids. case_match; simpl.
    + rewrite lookup_delete_ne by done. split; [done|]. rewrite !list_elem_of_fmap.
      setoid_rewrite list_elem_of_filter. naive_solver.
    + by rewrite lookup_insert_ne, update_active_ids.
Qed.

Lemma report_same (net : ReportNet R Rc) cl sn t s :
  client_inv s ->
  let s' := snd (report h net cl sn None None t t s) in
  if acquired (sn, (net, cl), t) then
    cs_report_stream_failures s' !! sn = None /\ (sn ∈ active_ids s' <-> sn ∈ active_ids s)
  else match cs_report_stream_failures s !! sn with
       | None => cs_report_stream_failures s' !! sn = Some 1 /\ (sn ∈ active_ids s' <-> sn ∈ active_ids s)
       | Some _ => sn ∉ active_ids s'
       end.
Proof.
  intros [_ Hf _]. unfold report, acquired. destruct (acquire_sn_send (rn_acquire net cl) sn).
  - unfold report_on_send. case_match. simpl. by rewrite lookup_delete_eq.
  - simpl. rewrite record_failure_eq by done. unfold active_ids. case_match; simpl.
    + intros (x & -> & [? _]%list_elem_of_filter)%list_elem_of_fmap. done.
    + by rewrite lookup_insert_eq, update_active_ids.
Qed.

Lemma run_reports_steps es s : rtc ping_step s (run_reports es s).
Proof.
  revert s. induction es as [|[[sn [net cl]] t] es IH]; intros s; [done|].
  change (rtc ping_step s (run_reports es (snd (report h net cl sn None None t t s)))).
  destruct (report h net cl sn None None t t s) as [r s1] eqn:E. etrans; [by eapply report_steps|apply IH].
Qed.

Lemma steps_inv s s' : rtc client_step s s' -> client_inv s -> client_inv s'.
Proof. induction 1; eauto using client_step_inv. Qed.

Lemma run_reports_spec sn failed es s :
  client_inv s -> sn ∈ active_ids s ->
  cs_report_stream_failures s !! sn = (if failed : bool then Some 1 else None) ->
  sn ∈ active_ids (run_reports es s) <-> two_in_a_row failed (outcomes sn es) = false.
Proof.
  revert failed s. induction es as [|e es IH]; intros failed s Hi Ha Hc; [done|].
  destruct e as [[sn' [net cl]] t].
  change (run_reports ((sn', (net, cl), t) :: es) s) with (run_reports es (snd (report h net cl sn' None None t t s))).
  assert (Hi' : client_inv (snd (report h net cl sn' None None t t s))).
  { destruct (report h net cl sn' None None t t s) as [r s1] eqn:E. eapply steps_inv; [|exact Hi].
    by eapply ping_steps_client, report_steps. }
  unfold outcomes. rewrite filter_cons. cbn [fst].
  destruct (decide (sn' = sn)) as [->|Hne].
  - pose proof (report_same net cl sn t s Hi) as H. cbn zeta in H. rewrite fmap_cons. simpl.
    change (acquired <$> filter (fun e => fst (fst e) = sn) es) with (outcomes sn es).
    unfold acquired in H |- *. destruct (acquire_sn_send (rn_acquire net cl) sn).
    + destruct H as [? H]. apply (IH false); [done|by apply H|done].
    + rewrite Hc in H. destruct failed; simpl.
      * split; [|done]. intros Hin. contradict H. eapply sublist_subseteq; [|exact Hin].
        apply ping_steps_ids, run_reports_steps.
      * destruct H as [? H]. apply (IH true); [done|by apply H|done].
  - destruct (report_other net cl sn sn' t s Hi (not_eq_sym Hne)) as [Hc' Ha'].
    apply IH; [done|by apply Ha'|]. by rewrite Hc'.
Qed.
End eviction.


(** ** Directives are executed once *)

Section replay.
Context {Cert : Type} `{!CertOps Cert} (verified : Cert -> bool)
  (probe : list Endpoint -> Cert -> P2pResult NatProfile) {R Rc : Type} (h : ClientHost).
Implicit Types s : SNServiceState Cert.
Implicit Types a : ActiveSN Cert.

(** The last directive executed for a registration. *)
Definition probe_ids a : Z * Z := (as_registration_generation a, as_last_request_id a).
Definition ids_lt (x y : Z * Z) : Prop := fst x < fst y \/ fst x = fst y /\ snd x < snd y.
Definition ids_le (x y : Z * Z) : Prop := x = y \/ ids_lt x y.

#[local] Instance ids_le_trans : Transitive ids_le.
Proof. intros [] [] [] [] []; unfold ids_le, ids_lt in *; simplify_eq; simpl in *; first [by left|right; lia]. Qed.

Lemma find_update sn (f : ActiveSN Cert -> ActiveSN Cert) s sn' :
  (forall a, as_sn_peer_id (f a) = as_sn_peer_id a) ->
  find_active sn (set_active (snd (update_active_sn sn' f (cs_active s))) s)
  = (if decide (sn = sn') then f <$> find_active sn s else find_active sn s).
Proof.
  intros Hf. unfold find_active. cbn [cs_active set_active]. generalize (cs_active s) as l. intros l.
  induction l as [|a l IH]; simpl; [by case_decide|]. case_bool_decide as Ha; simpl.
  - rewrite !filter_cons, Hf. repeat case_decide; simplify_eq; done.
  - destruct (update_active_sn sn' f l) as [b l']. simpl in *. rewrite !filter_cons.
    repeat case_decide; simplify_eq; done.
Qed.

(** Entries of [s'] are entries of [s] with the same directive. *)
Definition ids_kept sn s s' : Prop :=
  forall a', find_active sn s' = Some a' -> exists a, find_active sn s = Some a /\ probe_ids a' = probe_ids a.

#[local] Instance ids_kept_trans sn : Transitive (ids_kept sn).
Proof. intros s1 s2 s3 H1 H2 a' (a & H & E)%H2. apply H1 in H as (b & ? & ?). exists b. split; congruence. Qed.

Lemma ids_kept_update sn sn' f s :
  (forall a, as_sn_peer_id (f a) = as_sn_peer_id a) -> (sn = sn' -> forall a, probe_ids (f a) = probe_ids a) ->
  ids_kept sn s (set_active (snd (update_active_sn sn' f (cs_active s))) s).
Proof.
  intros Hf Hp a'. rewrite find_update by done. case_decide as E; [|eauto].
  intros (b & Hb & ->)%fmap_Some. eauto.
Qed.

Lemma find_remove sn sn' s a :
  find_active sn (remove_active_sn sn' s) = Some a -> find_active sn s = Some a.
Proof.
  unfold find_active. simpl. rewrite list_filter_filter. destruct (decide (sn = sn')) as [->|Hne]; intros H.
  - apply head_Some_elem_of, list_elem_of_filter in H. naive_solver.
  - rewrite <- H. f_equal. apply list_filter_iff. naive_solver.
Qed.

Lemma report_kept (net : ReportNet R Rc) cl sn' p r t1 t2 s res s' sn :
  report h net cl sn' p r t1 t2 s = (res, s') -> ids_kept sn s s'.
Proof.
  unfold report. case_match; intros; simplify_eq.
  - unfold report_on_send in *. case_match. simplify_eq. intros a' ?. by exists a'.
  - unfold record_report_stream_failure. case_match; [intros a' Ha%find_remove; by exists a'|].
    by apply (ids_kept_update sn sn' _ (set_failures _ s)).
Qed.

Lemma probe_kept sn sn' ids p now s :
  sn <> sn' \/ ids = None -> ids_kept sn s (apply_completed_probe sn' ids p now s).
Proof. intros H. apply ids_kept_update; [done|]. intros ->. by destruct H as [?| ->]. Qed.

Lemma renew_kept sn sn' eps signer wan s : ids_kept sn s (renew_active sn' eps signer wan s).
Proof. by apply ids_kept_update. Qed.

(** A directive that the validation of [a] takes. *)
Definition takes a (d : NatProbeDirective) : Prop :=
  exists now eps, validate_probe_directive (as_sn_peer_id a) (ch_local h) (as_protocol a) (as_sn_endpoint a)
    (as_registration_generation a) (as_last_request_id a) now d = Ok eps.

Lemma accepts_newer a d : takes a d -> ids_lt (probe_ids a) (dr_registration_generation d, dr_request_id d).
Proof.
  intros (now & eps & H). unfold validate_probe_directive, directive_replayed in H. unfold ids_lt. simpl.
  repeat (case_match; try done). bool_to_prop. lia.
Qed.

Lemma ping_one_kept (net1 net2 : ReportNet R Rc) clock a s sn :
  sn <> as_sn_peer_id a -> ids_kept sn s (ping_one verified probe h net1 net2 clock a s).
Proof.
  intros Hne. unfold ping_one.
  destruct (probe_local_if_due probe a (clock 0%nat) (clock 1%nat) s) as [probed s1] eqn:E1.
  assert (H1 : ids_kept sn s s1).
  { unfold probe_local_if_due in E1. case_match; simplify_eq; [by intros b ?; exists b|]. apply probe_kept. by right. }
  destruct (report h net1 _ _ _ _ _ _ s1) as [r s2] eqn:E2. apply (report_kept _ _ _ _ _ _ _ _ _ _ sn) in E2.
  etrans; [exact H1|]. destruct r as [resp|e]; [|done]. etrans; [exact E2|].
  destruct (execute_probe_directive _ _ _ _ _ _ _ _ _ _) as [result|]; [|apply renew_kept].
  destruct (report h net2 _ _ _ _ _ _ _) as [r2 s4] eqn:E4. apply (report_kept _ _ _ _ _ _ _ _ _ _ sn) in E4.
  etrans; [apply probe_kept; by left|]. etrans; [exact E4|]. destruct r2; apply renew_kept.
Qed.

Lemma ping_one_advances (net1 net2 : ReportNet R Rc) clock a s b a' :
  find_active (as_sn_peer_id a) s = Some b -> probe_ids b = probe_ids a ->
  find_active (as_sn_peer_id a) (ping_one verified probe h net1 net2 clock a s) = Some a' ->
  probe_ids a' = probe_ids a
  \/ exists d, takes a d /\ probe_ids a' = (dr_registration_generation d, dr_request_id d).
Proof.
  intros Hb Hids. unfold ping_one.
  destruct (probe_local_if_due probe a (clock 0%nat) (clock 1%nat) s) as [probed s1] eqn:E1.
  assert (H1 : ids_kept (as_sn_peer_id a) s s1).
  { unfold probe_local_if_due in E1. case_match; simplify_eq; [by intros c ?; exists c|]. apply probe_kept. by right. }
  destruct (report h net1 _ _ _ _ _ _ s1) as [r s2] eqn:E2.
  apply (report_kept _ _ _ _ _ _ _ _ _ _ (as_sn_peer_id a)) in E2.
  assert (H2 : ids_kept (as_sn_peer_id a) s s2) by (etrans; done). clear H1 E2.
  assert (Hk : forall t, ids_kept (as_sn_peer_id a) s t -> find_active (as_sn_peer_id a) t = Some a' ->
    probe_ids a' = probe_ids a).
  { intros t Ht (c & ? & ?)%Ht. congruence. }
  destruct r as [resp|e]; [|eauto].
  destruct (execute_probe_directive _ _ _ _ _ _ _ _ _ _) as [result|] eqn:Ex.
  2:{ intros H. left. eapply Hk; [|exact H]. etrans; [exact H2|apply renew_kept]. }
  destruct (report h net2 _ _ _ _ _ _ _) as [r2 s4] eqn:E4.
  apply (report_kept _ _ _ _ _ _ _ _ _ _ (as_sn_peer_id a)) in E4. intros H. right.
  unfold execute_probe_directive in Ex. destruct (pp_nat_probe_directive resp) as [d|]; [|done].
  destruct (validate_probe_directive _ _ _ _ _ _ _ _) as [eps|] eqn:Ev; simplify_eq.
  exists d. split; [by eexists _, _|].
  assert (Hf : exists c, find_active (as_sn_peer_id a) s4 = Some c /\ probe_ids a' = probe_ids c)
    by (destruct r2; apply renew_kept in H; exact H).
  destruct Hf as (c & Hc & ->). apply E4 in Hc as (e & He & ->). unfold apply_completed_probe in He.
  rewrite find_update in He by done. rewrite decide_True in He by done. apply fmap_Some in He as (x & _ & ->). done.
Qed.
Lemma find_active_ids sn s : is_Some (find_active sn s) <-> sn ∈ active_ids s.
Proof.
  unfold find_active, active_ids. rewrite list_elem_of_fmap. split.
  - intros [a Ha]. apply head_Some_elem_of, list_elem_of_filter in Ha as [<- ?]. eauto.
  - intros (a & -> & Ha). assert (H : a ∈ filter (fun b => as_sn_peer_id b = as_sn_peer_id a) (cs_active s))
      by by apply list_elem_of_filter.
    destruct (filter _ _); [by apply elem_of_nil in H|eauto].
Qed.

(** What a round may do to the directive of an SN. *)
Definition advanced sn (b a' : ActiveSN Cert) : Prop :=
  probe_ids a' = probe_ids b
  \/ exists d, dr_sn_peer_id d = sn /\ dr_peer_id d = ch_local h
       /\ ids_lt (probe_ids b) (dr_registration_generation d, dr_request_id d)
       /\ probe_ids a' = (dr_registration_generation d, dr_request_id d).

Lemma accepts_addressed a d : takes a d -> dr_sn_peer_id d = as_sn_peer_id a /\ dr_peer_id d = ch_local h.
Proof.
  intros (now & eps & H). unfold validate_probe_directive in H.
  repeat (case_match; try done). repeat match goal with
    | E : negb (bool_decide _) = false |- _ => apply negb_false_iff, bool_decide_eq_true_1 in E end. done.
Qed.

Lemma rounds_advance (net1 net2 : P2pId -> ReportNet R Rc) clock due s sn a' :
  NoDup (as_sn_peer_id <$> due) ->
  (forall a b, a ∈ due -> find_active (as_sn_peer_id a) s = Some b -> probe_ids b = probe_ids a) ->
  find_active sn (foldl (fun s a => ping_one verified probe h (net1 (as_sn_peer_id a)) (net2 (as_sn_peer_id a))
                           (clock (as_sn_peer_id a)) a s) s due) = Some a' ->
  exists b, find_active sn s = Some b /\ advanced sn b a'.
Proof.
  revert s. induction due as [|a due IH]; intros s Hn Hd H; simpl in H.
  { exists a'. split; [done|by left]. }
  apply NoDup_cons in Hn as [Hx Hn]. set (s1 := ping_one _ _ _ _ _ _ a s) in H.
  apply IH in H as (c & Hc & Hadv); [|done|].
  - destruct (decide (sn = as_sn_peer_id a)) as [->|Hne].
    + assert (Hb : is_Some (find_active (as_sn_peer_id a) s)).
      { apply find_active_ids. eapply sublist_subseteq; [eapply ping_steps_ids, ping_one_steps|].
        apply find_active_ids. by exists c. }
      destruct Hb as [b Hb]. exists b. split; [done|]. pose proof (Hd a b ltac:(left) Hb) as Hids.
      destruct (ping_one_advances _ _ _ _ _ _ _ Hb Hids Hc) as [E|(d & Ha & E)].
      * unfold advanced in *. by rewrite E, <- Hids in Hadv.
      * pose proof (accepts_newer _ _ Ha) as Hlt. destruct (accepts_addressed _ _ Ha) as [Hs Hp].
        rewrite <- Hids in Hlt. right. destruct Hadv as [E'|(d' & ? & ? & Hlt' & E')]; [exists d; by rewrite E', E|].
        exists d'. rewrite E in Hlt'. repeat split; [done|done| |done]. unfold ids_lt in *. simpl in *. lia.
    + apply ping_one_kept in Hc as (b & Hb & E); [|done]. exists b. split; [done|].
      unfold advanced in *. by rewrite E in Hadv.
  - intros x b Hin Hb. apply ping_one_kept in Hb as (c & Hc & ->).
    + by apply Hd; [right|].
    + intros Heq. apply Hx. rewrite <- Heq. by apply list_elem_of_fmap_2.
Qed.

Lemma find_unique s a : NoDup (active_ids s) -> a ∈ cs_active s -> find_active (as_sn_peer_id a) s = Some a.
Proof.
  unfold active_ids, find_active. generalize (cs_active s) as l. intros l. induction l as [|b l IH]; intros Hn Ha.
  { by apply elem_of_nil in Ha. }
  rewrite fmap_cons in Hn. apply NoDup_cons in Hn as [Hb Hn]. rewrite filter_cons.
  apply elem_of_cons in Ha as [->|Ha]; [by rewrite decide_True|].
  rewrite decide_False; [by apply IH|]. intros E. apply Hb. rewrite E. by apply list_elem_of_fmap_2.
Qed.

Lemma ping_active_advances (net1 net2 : P2pId -> ReportNet R Rc) clock force now s sn a' :
  client_inv s ->
  find_active sn (ping_active verified probe h net1 net2 clock force now s) = Some a' ->
  exists b, find_active sn s = Some b /\ advanced sn b a'.
Proof.
  intros [Hn _ _]. unfold ping_active, collect_due_active_sns.
  set (stamp := fun a => if active_sn_due_report force (as_latest_time a) now then set_latest_time now a else a).
  assert (Hs : forall x, as_sn_peer_id (stamp x) = as_sn_peer_id x /\ probe_ids (stamp x) = probe_ids x)
    by (intros x; unfold stamp; by case_match).
  assert (Hf : forall x b, find_active x (set_active (stamp <$> cs_active s) s) = Some b ->
    exists c, find_active x s = Some c /\ probe_ids b = probe_ids c).
  { intros x b. unfold find_active. cbn [cs_active set_active]. generalize (cs_active s) as l. intros l.
    induction l as [|c l IH]; simpl; [done|]. rewrite !filter_cons. destruct (Hs c) as [E1 E2]. rewrite E1.
    case_decide; [|exact IH]. intros [= <-]. by exists c. }
  intros H. apply rounds_advance in H as (b & Hb & Hadv).
  - apply Hf in Hb as (c & Hc & E). exists c. split; [done|]. unfold advanced in *. by rewrite E in Hadv.
  - rewrite <- list_fmap_compose. eapply sublist_NoDup; [exact Hn|].
    apply (filter_ids_sublist (fun a => active_sn_due_report force (as_latest_time a) now = true)).
  - intros a b (x & -> & [_ Hx]%list_elem_of_filter)%list_elem_of_fmap (c & Hc & ->)%Hf.
    cbn [as_sn_peer_id set_latest_time] in Hc. rewrite (find_unique s x Hn Hx) in Hc. by simplify_eq.
Qed.

(** The ping loop and what may be done to the client between its turns: a whole
    turn, with the list of SNs of the moment, whichever of its two branches it
    takes, and starting, stopping and resetting the client. *)
Inductive loop_step : SNServiceState Cert -> SNServiceState Cert -> Prop :=
| LS_turn (net1 net2 : P2pId -> ReportNet R Rc) clock clock' sns now s n force sleep s0 :
    ping_head s = (n, force, sleep, s0) ->
    loop_step s (ping_body verified probe h net1 net2 clock clock' sns n force now s0)
| LS_start task s : loop_step s (snd (client_start task s))
| LS_stop s : loop_step s (snd (client_stop s))
| LS_reset task s : loop_step s (snd (client_reset task s)).

(** Steps over which [sn] stays active. *)
Definition kept_step (sn : P2pId) s s' : Prop := loop_step s s' /\ sn ∈ active_ids s /\ sn ∈ active_ids s'.

Lemma ping_head_eq s n force sleep s0 :
  ping_head s = (n, force, sleep, s0) -> n = length (cs_active s) /\ cs_active s0 = cs_active s /\ rtc client_step s s0.
Proof.
  intros H. assert (E : rtc client_step s (snd (ping_head s))) by (apply rtc_once, CS_ping, PS_head).
  rewrite H in E. split_and!; [..|exact E]; unfold ping_head in H; by case_match; simplify_eq.
Qed.

Lemma loop_step_client s s' : loop_step s s' -> rtc client_step s s'.
Proof.
  destruct 1 as [net1 net2 clock clock' sns now s n force sleep s0 H|task s|s|task s].
  - apply ping_head_eq in H as (_ & _ & H). etrans; [exact H|apply ping_body_steps].
  - apply rtc_once, CS_start.
  - apply rtc_once, CS_stop.
  - eapply rtc_l; [apply CS_stop|]. apply rtc_once, CS_start.
Qed.

Lemma find_same_active sn s s' : cs_active s' = cs_active s -> find_active sn s' = find_active sn s.
Proof. unfold find_active. by intros ->. Qed.

Lemma kept_step_advances s s' sn a' :
  client_inv s -> kept_step sn s s' -> find_active sn s' = Some a' ->
  exists b, find_active sn s = Some b /\ advanced sn b a'.
Proof.
  intros Hi (Hs & Hin & Hin') Ha. destruct Hs as [net1 net2 clock clock' sns now s n force sleep s0 H|task s|s|task s].
  - apply ping_head_eq in H as (-> & Hact & Hst). unfold ping_body in Ha.
    destruct (Nat.ltb_spec 0 (length (cs_active s))) as [_|Hz].
    + apply ping_active_advances in Ha as (b & Hb & Hadv); [|by eapply steps_inv].
      exists b. by rewrite <-(find_same_active sn s s0).
    + assert (Hnil : cs_active s = []) by (apply nil_length_inv; lia). unfold active_ids in Hin.
      rewrite Hnil in Hin. by apply elem_of_nil in Hin.
  - exists a'. split; [|by left]. by rewrite <-Ha; destruct task.
  - by apply elem_of_nil in Hin'.
  - destruct task; by apply elem_of_nil in Hin'.
Qed.

Lemma advanced_trans sn a b c : advanced sn a b -> advanced sn b c -> advanced sn a c.
Proof.
  unfold advanced. intros [E|(d & Hs & Hp & Hlt & E)] Hadv; rewrite E in Hadv; [done|right].
  destruct Hadv as [E'|(d' & ? & ? & Hlt' & E')]; [by exists d; rewrite E'|].
  exists d'. repeat split; [done|done| |done]. unfold ids_lt in *. simpl in *. lia.
Qed.

Lemma kept_steps_advance s s' sn a' :
  client_inv s -> rtc (kept_step sn) s s' -> find_active sn s' = Some a' ->
  exists b, find_active sn s = Some b /\ advanced sn b a'.
Proof.
  intros Hi Hr. revert Hi a'. induction Hr as [s|s s1 s' H1 _ IH]; intros Hi a' Ha; [exists a'; split; [done|by left]|].
  apply IH in Ha as (c & Hc & Hadv); [|by eapply steps_inv; [apply loop_step_client, H1|]].
  apply (kept_step_advances _ _ _ _ Hi H1) in Hc as (b & Hb & Hadv'). exists b. split; [done|by eapply advanced_trans].
Qed.

(** *** Registering *)

(** The entry of a registration: nothing executed yet, or a directive that the
    SN sent to this host with its answer. *)
Definition starts_over (sn : P2pId) a' : Prop :=
  probe_ids a' = (0, 0)
  \/ exists d, dr_sn_peer_id d = sn /\ dr_peer_id d = ch_local h
       /\ ids_lt (0, 0) (dr_registration_generation d, dr_request_id d)
       /\ probe_ids a' = (dr_registration_generation d, dr_request_id d).
Definition all_start_over s : Prop := forall sn a', find_active sn s = Some a' -> starts_over sn a'.

Lemma start_over_kept s s' : (forall sn, ids_kept sn s s') -> all_start_over s -> all_start_over s'.
Proof. intros Hk Hs sn a' Ha. apply Hk in Ha as (a & Ha & E). unfold starts_over. rewrite E. by apply Hs. Qed.

Lemma publish_start_over sn t p ep wan eps signer prof nx s :
  all_start_over s ->
  all_start_over (set_active (snd (publish_active_sn (cs_active s) (mkActive sn t p ep wan eps signer prof 0 0 nx))) s).
Proof.
  intros Hs sn' a'. unfold publish_active_sn. case_match; [by apply Hs|]. unfold find_active. simpl.
  rewrite filter_app, head_app. destruct (filter _ (cs_active s)) as [|x l] eqn:E.
  - simpl. rewrite filter_cons. case_decide; [|done]. intros [= <-]. by left.
  - intros [= <-]. apply Hs. unfold find_active. by rewrite E.
Qed.

Lemma executed_start_over sn p ep signer d now result s now' :
  execute_probe_directive probe (ch_local h) sn p ep 0 0 signer d now = Some result ->
  all_start_over s ->
  all_start_over (apply_completed_probe sn (Some (pr_registration_generation result, pr_request_id result))
                    (pr_profile result) now' s).
Proof.
  intros Ex Hs sn' a' Ha. unfold apply_completed_probe in Ha. rewrite find_update in Ha by done.
  case_decide as E; [|by apply Hs]. subst sn'. apply fmap_Some in Ha as (x & _ & ->). right.
  unfold execute_probe_directive in Ex. destruct d as [d|]; [|done].
  destruct (validate_probe_directive _ _ _ _ _ _ _ _) as [es|] eqn:Ev; simplify_eq. exists d.
  unfold validate_probe_directive in Ev. repeat (case_match; try done).
  repeat match goal with E : negb (bool_decide _) = false |- _ => apply negb_false_iff, bool_decide_eq_true_1 in E end.
  split_and!; [done|done| |done]. match goal with E : directive_replayed _ _ _ = false |- _ => rename E into Er end.
  unfold directive_replayed in Er. bool_to_prop. unfold ids_lt. simpl. lia.
Qed.

Lemma register_answered_start_over (net2 : ReportNet R Rc) clock sn p sn_ep local_ep resp s :
  all_start_over s -> all_start_over (register_answered verified probe h net2 clock sn p sn_ep local_ep resp s).
Proof.
  intros Hs. unfold register_answered. set (s1 := set_active _ s).
  assert (H1 : all_start_over s1) by by apply publish_start_over.
  destruct (execute_probe_directive _ _ _ _ _ _ _ _ _ _) as [result|] eqn:Ex.
  - pose proof (executed_start_over _ _ _ _ _ _ _ s1 (clock 5%nat) Ex H1) as H2.
    destruct (report h net2 _ _ _ _ _ _ _) as [r2 s4] eqn:E4.
    assert (H4 : all_start_over s4) by (eapply start_over_kept, H2; intros x; by eapply report_kept).
    destruct r2; [|done]. eapply start_over_kept, H4. intros x. apply renew_kept.
  - eapply start_over_kept, H1. intros x. apply probe_kept. by right.
Qed.

Lemma register_sn_start_over (net1 net2 : ReportNet R Rc) clock sn todo s :
  all_start_over s -> all_start_over (register_sn verified probe h net1 net2 clock sn todo s).
Proof.
  revert s. induction todo as [|[[p sn_ep] local_ep] todo IH]; intros s Hs; simpl; [done|].
  destruct (report h net1 _ _ _ _ _ _ s) as [r s1] eqn:E.
  assert (H1 : all_start_over s1) by (eapply start_over_kept, Hs; intros x; by eapply report_kept).
  destruct r; [by apply register_answered_start_over|by apply IH].
Qed.

(** An SN becomes active only in a turn of the loop, and then starts over. *)
Lemma new_entry_starts_over s s' sn a' :
  loop_step s s' -> sn ∉ active_ids s -> find_active sn s' = Some a' -> starts_over sn a'.
Proof.
  intros Hs Hn Ha. assert (Hin : sn ∈ active_ids s') by (apply find_active_ids; by exists a').
  destruct Hs as [net1 net2 clock clock' sns now s n force sleep s0 H|task s|s|task s].
  - apply ping_head_eq in H as (-> & Hact & _). unfold ping_body in *.
    destruct (Nat.ltb_spec 0 (length (cs_active s))) as [_|Hz].
    + destruct Hn. assert (Hsub := sublist_subseteq _ _ (ping_steps_ids _ _ (ping_active_steps verified probe h net1 net2
        clock force now s0)) _ Hin). unfold active_ids in *. by rewrite Hact in Hsub.
    + assert (Hnil : cs_active s0 = []) by (rewrite Hact; apply nil_length_inv; lia).
      assert (H0 : all_start_over s0) by (intros x b; unfold find_active; by rewrite Hnil). revert Ha. unfold register_all.
      clear Hin. revert sn a' Hn. enough (all_start_over (foldl (fun s sn => register_sn verified probe h (net1 (sn_id_of sn))
        (net2 (sn_id_of sn)) (clock' (sn_id_of sn)) (sn_id_of sn)
        (attempts (sn_client_protocol_candidates (ch_entries h) (ch_supported h)) sn) s) s0 sns)) as Hall
        by (intros; by apply Hall).
      clear Hnil Hact. revert s0 H0. induction sns as [|x sns IH]; intros s0 H0; simpl; [done|].
      by apply IH, register_sn_start_over.
  - destruct Hn. by destruct task.
  - by apply elem_of_nil in Hin.
  - destruct task; by apply elem_of_nil in Hin.
Qed.
End replay.

Lemma replayed_refused {Cert} (probe : list Endpoint -> Cert -> P2pResult NatProfile) local sn p ep g q signer d now :
  directive_replayed g q d = true -> execute_probe_directive probe local sn p ep g q signer (Some d) now = None.
Proof. intros H. unfold execute_probe_directive, validate_probe_directive. rewrite H. by repeat case_match. Qed.

(** A directive that is not after the last executed one is refused. *)
Lemma older_refused {Cert} (probe : list Endpoint -> Cert -> P2pResult NatProfile) h sn (a a' : ActiveSN Cert) d signer now :
  advanced h sn a a' -> ids_le (dr_registration_generation d, dr_request_id d) (probe_ids a) ->
  execute_probe_directive probe (ch_local h) sn (as_protocol a') (as_sn_endpoint a')
    (as_registration_generation a') (as_last_request_id a') signer (Some d) now = None.
Proof.
  intros Hadv Hle. apply replayed_refused. unfold directive_replayed.
  apply orb_true_iff. rewrite Z.ltb_lt, andb_true_iff, Z.eqb_eq, Z.leb_le.
  destruct Hadv as [E'|(d' & _ & _ & Hlt' & E')]; unfold probe_ids in *; simplify_eq; destruct Hle as [Hle|Hle];
    unfold ids_lt in *; simplify_eq; simpl in *; lia.
Qed.

