(* ===== verification/SnReporting.v ===== *)
(** * A client and its SN (sn/client/sn_service.rs with sn/service/service.rs)

    The two ends of a report composed: the report the client builds passes the
    checks of the SN, the answer passes those of the client, and a directive in
    it is one the client executes.  The same for rendezvous notifications, and
    for the calls and queries a client makes over its active SNs. *)

From S2P Require Import PnServer.
From S2P Require Import Prelude.
From S2P Require Import Errors.
From S2P Require Import Ids.
From S2P Require Import Endpoint.
From S2P Require Import NatType.
From S2P Require Import SnProtocol.
From S2P Require Import NatProbeScheduler.
From S2P Require Import SnExtension.
From S2P Require Import OpenTunnel.
From S2P Require Import SnEndpoints.
From S2P Require Import SnService.
From S2P Require Import SnClient.

(** ** Ports *)

Lemma check_ports_spec unique ports :
  check_ports unique ports = Ok tt <-> Forall (fun p => p <> 0 /\ p ∉ unique) ports /\ NoDup ports.
Proof.
  revert unique. induction ports as [|p ports IH]; intros unique; simpl; [split; [by repeat constructor|done]|].
  rewrite Forall_cons, NoDup_cons. destruct (Z.eqb_spec p 0); [naive_solver|].
  case_bool_decide; [naive_solver|]. rewrite IH, !Forall_forall. setoid_rewrite not_elem_of_union.
  setoid_rewrite not_elem_of_singleton. naive_solver.
Qed.

Lemma full_size_NoDup {A} `{Countable A} (l : list A) : size (list_to_set l : gset A) = length l -> NoDup l.
Proof.
  induction l as [|x l IH]; intros Hl; [constructor|]. rewrite list_to_set_cons in Hl. simpl in Hl.
  pose proof (size_list_to_set_le l) as Hle. constructor.
  - intros Hx. rewrite subseteq_union_1_L in Hl by set_solver. lia.
  - apply IH. rewrite size_union_alt, size_singleton in Hl.
    assert ((list_to_set l : gset A) ∖ {[x]} ⊆ list_to_set l) as Hs%subseteq_size by set_solver. lia.
Qed.

Lemma supported_ports_valid ports :
  supported_nat_probe_ports ports = true -> validate_nat_probe_ports ports = Ok tt.
Proof.
  unfold supported_nat_probe_ports, validate_nat_probe_ports. intros H.
  apply andb_true_iff in H as [[[H1 H2]%andb_true_iff H3]%andb_true_iff H4].
  apply Nat.leb_le in H1, H2. apply Nat.eqb_eq, full_size_NoDup in H4.
  destruct (Nat.ltb_spec (length ports) 2); [lia|]. destruct (Nat.ltb_spec MAX_NAT_PROBE_ENDPOINTS (length ports)); [lia|].
  simpl. apply check_ports_spec. split; [|done].
  rewrite Forall_forall. intros p Hp. split; [|apply not_elem_of_empty].
  rewrite forallb_forall in H3. apply list_elem_of_In, H3 in Hp. by bool_to_prop.
Qed.

(** ** The directive in the answer to a report *)

(** What an SN puts into a directive. *)
Record directive_from (sn peer : P2pId) (now : Timestamp) (d : NatProbeDirective) : Prop := {
  df_version : dr_version d = NAT_PROBE_CONTROL_VERSION;
  df_sn : dr_sn_peer_id d = sn;
  df_peer : dr_peer_id d = peer;
  df_expires : dr_expires_at d = saturating_add now (duration_to_bucky_time NAT_PROBE_DIRECTIVE_TIMEOUT);
  df_ports : supported_nat_probe_ports (dr_ports d) = true;
}.

Section scheduler.
Context {T : Type} `{!EqDecision T}.
Implicit Types s : NatProbeScheduler T.

Lemma issue_directive peer now s d s' :
  sched_inv s -> issue_if_due peer now s = (Some d, s') -> directive_from (sn_peer_id s) peer now d.
Proof.
  intros Hs. unfold issue_if_due. intros H. repeat (case_match; try done). simplify_eq. bool_to_prop.
  split; try done. by destruct (si_ports _ Hs).
Qed.

Lemma refresh_sn peer t ep b now s tr s' :
  refresh_registration peer t ep b now s = (tr, s') -> sn_peer_id s' = sn_peer_id s.
Proof. unfold refresh_registration, update_capability, register. intros. repeat case_match; by simplify_eq. Qed.
Lemma finish_sn peer now tr s tr' s' : finish_expired peer now tr s = (tr', s') -> sn_peer_id s' = sn_peer_id s.
Proof. unfold finish_expired. intros. repeat case_match; by simplify_eq. Qed.
Lemma accept_sn peer r now tr s tr' s' : accept_optional peer r now tr s = (tr', s') -> sn_peer_id s' = sn_peer_id s.
Proof. unfold accept_optional, accept_result. intros. repeat case_match; by simplify_eq. Qed.

Lemma refresh_inv peer t ep b now s :
  is_udp ep = true -> sched_inv s -> sched_inv (snd (refresh_registration peer t ep b now s)).
Proof.
  intros Hu Hs. unfold refresh_registration. destruct (peers s !! peer) eqn:E; [case_bool_decide|];
    auto using update_capability_inv, register_inv.
Qed.

Lemma capable_directive peer t ep cv r now s tr s' d :
  sched_inv s -> observe_capable_report peer t ep cv r now s = (tr, s') -> directive tr = Some d ->
  directive_from (sn_peer_id s) peer now d.
Proof.
  intros Hs. unfold observe_capable_report. destruct (is_udp ep) eqn:Hu; simpl.
  2:{ unfold observe_ineligible_report. intros. repeat case_match; by simplify_eq. }
  destruct (ignored _ _ _ _); [intros; by simplify_eq|].
  destruct (refresh_registration _ _ _ _ _ _) as [tr1 s1] eqn:E1.
  pose proof (refresh_inv peer t ep (supports_control cv) now s Hu Hs) as H1. rewrite E1 in H1. cbn [snd] in H1.
  destruct (finish_expired peer now tr1 s1) as [tr2 s2] eqn:E2.
  pose proof (finish_expired_inv peer now tr1 s1 H1) as H2. rewrite E2 in H2. cbn [snd] in H2.
  destruct (accept_optional _ _ _ _ _) as [tr3 s3] eqn:E3.
  assert (H3 : sched_inv s3).
  { destruct r; simpl in E3; [|by simplify_eq]. pose proof (accept_result_inv peer n now tr2 s2 H2) as H.
    by rewrite E3 in H. }
  destruct (issue_if_due peer now s3) as [d' s4] eqn:E4. intros [= <- <-] [= ->].
  rewrite <- (refresh_sn _ _ _ _ _ _ _ _ E1), <- (finish_sn _ _ _ _ _ _ E2), <- (accept_sn _ _ _ _ _ _ _ E3).
  by eapply issue_directive.
Qed.
End scheduler.

Section served.
Context {T : Type} `{!EqDecision T} {Cert : Type} `{!CertOps Cert} {R Rc : Type}.
Context (validator : SnConnectionValidateContext -> P2pResult ValidateResult) (test : bool).
Implicit Types s : SnService T Cert.

Lemma set_sn_name id (s : NatProbeScheduler T) : sn_peer_id (set_sn_peer_id id s) = id.
Proof. unfold set_sn_peer_id. by case_bool_decide. Qed.

Lemma reconcile_inv peer st s : sched_inv (sv_scheduler s) -> sched_inv (sv_scheduler (reconcile_nat_probe_authority peer st s)).
Proof.
  intros Hs. unfold reconcile_nat_probe_authority. destruct (authority_registration _ _) as [[t g]|]; [|done].
  unfold finish_nat_probe_authority_reconcile. destruct (authority_path_present _ _ _); [done|].
  pose proof (remove_if_inv peer t g _ Hs) as H. destruct (remove_peer_if_authority _ _ _ _) as [[] d]; exact H.
Qed.

Lemma report_locked_directive sn peer t observed (report : ReportSn R) now (s s' : NatProbeScheduler T) tr d :
  sched_inv s -> report_locked sn peer t observed report now s = (Some tr, s') -> directive tr = Some d ->
  directive_from sn peer now d.
Proof.
  intros Hs. unfold report_locked. destruct observed as [o|].
  - destruct (observe_capable_report _ _ _ _ _ _ _) as [tr1 s1] eqn:E.
    assert (Hd : directive tr1 = Some d -> directive_from sn peer now d).
    { intros Hd. pose proof (capable_directive _ _ _ _ _ _ _ _ _ _ (set_sn_inv sn s Hs) E Hd) as H.
      cbn [snd] in H. by rewrite set_sn_name in H. }
    destruct (re_net_profile report); [|intros; by simplify_eq; apply Hd].
    destruct (observe_reported_profile _ _ _ _ _ _) as [ptr s2].
    destruct (bool_decide _); intros; simplify_eq; by apply Hd.
  - by destruct (re_net_profile report).
Qed.

Lemma handle_report_directive ident sn peer t (report : ReportSn R) st1 st2 st3 t1 now s (resp : ReportSnResp Rc) s' d :
  sched_inv (sv_scheduler s) ->
  handle_report_sn validator test ident sn peer t report st1 st2 st3 t1 now s = Some (Ok resp, s') ->
  pp_nat_probe_directive resp = Some d -> directive_from sn peer now d.
Proof.
  intros Hs. unfold handle_report_sn. destruct (check_report _ _ _ _ _ _) as [[[identity observed] eps]|]; [|done].
  intros H. apply bind_Some in H as (device & _ & H).
  set (s1 := reconcile_nat_probe_authority _ _ _) in H.
  assert (Hs1 : sched_inv (sv_scheduler s1)) by by apply reconcile_inv.
  destruct (report_locked _ _ _ _ _ _ _) as [[tr|] d1] eqn:E; simpl in H; simplify_eq; simpl; [|done].
  intros Hd. by eapply report_locked_directive.
Qed.

(** The client's end accepts what the SN's end makes. *)
Lemma directive_accepted sn peer now d p sn_ep ip g r now' :
  directive_from sn peer now d -> validate_nat_probe_target p sn_ep = Ok ip ->
  ids_lt (g, r) (dr_registration_generation d, dr_request_id d) -> now' <= dr_expires_at d ->
  validate_probe_directive sn peer p sn_ep g r now' d
  = Ok ((fun port => set_area Wan (endpoint_from_ip p ip port)) <$> dr_ports d).
Proof.
  intros [Hv Hsn Hp _ Hports] Ht Hlt Hnow. unfold validate_probe_directive, build_nat_probe_endpoints.
  assert (Hnt : p <> Tcp) by (intros ->; by unfold validate_nat_probe_target in Ht).
  rewrite bool_decide_false by done. rewrite Hv, Z.eqb_refl, Hsn, Hp, !bool_decide_true by done. simpl negb. cbn iota.
  destruct (Z.ltb_spec (dr_expires_at d) now'); [lia|].
  assert (Hr : directive_replayed g r d = false).
  { unfold directive_replayed. unfold ids_lt in Hlt. simpl in Hlt. apply orb_false_iff.
    rewrite Z.ltb_ge, andb_false_iff, Z.eqb_neq, Z.leb_gt. lia. }
  by rewrite Hr, Ht, (supported_ports_valid _ Hports).
Qed.

Lemma local_eps_within h : (length (report_local_eps h) <= MAX_REPORTED_LOCAL_ENDPOINTS)%nat.
Proof. unfold report_local_eps. rewrite length_take. unfold MAX_LOCAL_IP_COUNT, MAX_REPORTED_LOCAL_ENDPOINTS. lia. Qed.

(** A client's report passes the checks of an SN that admits it. *)
Lemma built_report_served h seq sn cert c identity send_time p r t st1 st2 st3 t1 now s :
  cert_create cert = Ok c -> cert_get_id c = ch_local h ->
  verdict_result (validator (mkSnCtx (ch_local h) cert)) = Ok tt ->
  exists resp s', handle_report_sn (Rc:=Rc) validator test (Some (Ok identity)) sn (ch_local h) t
    (build_report (R:=R) h seq sn cert send_time p r) st1 st2 st3 t1 now s = Some (Ok resp, s')
  /\ pp_seq resp = seq /\ pp_sn_peer_id resp = sn /\ pp_peer_info resp = Some identity.
Proof.
  intros Hc Hid Hv. unfold handle_report_sn, check_report, build_report, validate_context_from_cert, validate_connection.
  cbn [re_peer_info re_from_peer_id re_local_eps re_seq]. rewrite Hc. rewrite (bool_decide_true _ Hid).
  rewrite Hv. rewrite bool_decide_true by done. unfold sanitize_reported_endpoints.
  destruct (Nat.ltb_spec MAX_REPORTED_LOCAL_ENDPOINTS (length (report_local_eps h))) as [Hl|_].
  { pose proof (local_eps_within h). lia. }
  unfold create_unwrap. rewrite Hc. simpl.
  destruct (report_locked _ _ _ _ _ _ _) as [[tr|] d]; simpl; eauto 10.
Qed.
End served.

(** C20: : a client and an SN that admits it understand each other's reports.
    Whatever the client reports, the SN serves it without a panic or an error,
    and the client accepts the answer and forgets its failures to reach the SN;
    a probe directive in the answer, received within its thirty seconds and
    newer than the last one executed, is executed on the SN's address and its
    own ports, whenever the client is connected over a UDP transport to an IPv4
    unicast address. *)
Theorem client_report_served {T} `{!EqDecision T} {Cert} `{!CertOps Cert} {R Rc : Type} validator test h sn identity cert c
    cl p r t_fail now (cs : SNServiceState Cert) t st1 st2 st3 t1 (s : SnService T Cert) :
  sched_inv (sv_scheduler s) ->
  ch_cert h = Ok cert -> cert_create cert = Ok c -> cert_get_id c = ch_local h ->
  verdict_result (validator (mkSnCtx (ch_local h) cert)) = Ok tt ->
  let serve (m : ReportSn R) : P2pResult (ReportSnResp Rc) :=
    default (Err P2pErrorCode.Failed)
      (fst <$> handle_report_sn validator test (Some (Ok identity)) sn (ch_local h) t m st1 st2 st3 t1 now s) in
  exists resp cs', report h (mkNet (fun _ => Some sn) serve) cl sn p r t_fail now cs = (Ok resp, cs')
  /\ cs_report_stream_failures cs' !! sn = None /\ pp_peer_info resp = Some identity
  /\ forall d sn_p sn_ep ip g q (probe : list Endpoint -> Cert -> P2pResult NatProfile) signer now', pp_nat_probe_directive resp = Some d ->
       validate_nat_probe_target sn_p sn_ep = Ok ip ->
       ids_lt (g, q) (dr_registration_generation d, dr_request_id d) ->
       now' <= saturating_add now (duration_to_bucky_time NAT_PROBE_DIRECTIVE_TIMEOUT) ->
       execute_probe_directive probe (ch_local h) sn sn_p sn_ep g q signer (Some d) now'
       = Some (result_from_directive d (probe_local probe
           ((fun port => set_area Wan (endpoint_from_ip sn_p ip port)) <$> dr_ports d) signer)).
Proof.
  intros Hs Hcert Hc Hid Hv serve. unfold report. simpl rn_acquire. unfold acquire_sn_send.
  rewrite bool_decide_true by done. cbn [negb]. unfold report_on_send.
  destruct (SequenceGenerator_generate _) as [seq g']. rewrite Hcert.
  destruct (built_report_served (R:=R) (Rc:=Rc) validator test h seq sn cert c identity now p r t st1 st2 st3 t1 now s
    Hc Hid Hv) as (resp & s' & Hh & Hseq & Hsn & Hinfo).
  exists resp, (set_gen_seq g' (clear_report_stream_failure sn cs)). split.
  { f_equal. unfold serve. simpl. rewrite Hh. simpl. by rewrite Hseq, Z.eqb_refl, Hsn, bool_decide_true. }
  split; [apply lookup_delete_eq|]. split; [done|].
  intros d sn_p sn_ep ip g q probe signer now' Hd Ht Hlt Hnow.
  pose proof (handle_report_directive _ _ _ _ _ _ _ _ _ _ _ _ _ _ _ _ Hs Hh Hd) as Hdf. unfold execute_probe_directive.
  rewrite (directive_accepted sn (ch_local h) now d sn_p sn_ep ip g q now' Hdf Ht Hlt); [done|].
  by rewrite (df_expires _ _ _ _ Hdf).
Qed.

(** ** Calls and queries over the active SNs *)

(** The sequences of [n] attempts. *)
Fixpoint sequences (n : nat) (g : Z) : list Sequence :=
  match n with O => [] | S n => let '(q, g) := SequenceGenerator_generate g in q :: sequences n g end.

Lemma sequences_run g0 n k out cur :
  is_u32 cur -> gen_run g0 k (mkGen cur 0) out ->
  exists k', gen_run g0 k' (mkGen (Nat.iter n (fun g => snd (generate g)) cur) 0) (rev (sequences n cur) ++ out)
  /\ (k' <= k + 2 * n)%nat.
Proof.
  revert cur k out. induction n as [|n IH]; intros cur k out Hu Hr; [exists k; split; [done|lia]|].
  destruct (generate_is_run _ _ _ _ Hr eq_refl Hu) as (m & Hr' & Hm). simpl in Hr'.
  destruct (generate_nonzero cur Hu) as (_ & _ & Hu'). apply IH in Hr' as (k' & Hk & Hle); [|done].
  exists k'. rewrite Nat.iter_succ_r. simpl sequences. unfold SequenceGenerator_generate.
  destruct (generate cur) as [q g]. simpl in *. rewrite <- app_assoc. split; [done|lia].
Qed.

Lemma sequences_distinct n g :
  is_u32 g -> Z.of_nat n <= 2147483648 -> NoDup (sequences n g) /\ 0 ∉ sequences n g.
Proof.
  intros Hg Hn. destruct (sequences_run g n 0 [] g Hg (gen_run_start g)) as (k & Hr & Hk).
  apply generate_concurrent_unique in Hr as [H1 H2]; [|done|lia]. rewrite app_nil_r in *.
  by rewrite <- (Permutation_rev (sequences n g)) in H1, H2.
Qed.

Section asks.
Context {Cert Req Resp A : Type} (net : SnNet Req Resp) (build : ActiveSN Cert -> Sequence -> P2pResult Req)
  (accept : ActiveSN Cert -> Sequence -> Resp -> option A).

(** What one attempt gives, when the request can be built and encoded. *)
Definition attempt (x : ActiveSN Cert * Sequence) : option A :=
  let '(a, seq) := x in
  match build a seq with
  | Err _ => None
  | Ok req =>
      bytes ← nn_to_vec _ _ net req;
      remote ← nn_acquire _ _ net (mkClass None (as_sn_endpoint a));
      if bool_decide (remote = as_sn_peer_id a) then
        match nn_qa _ _ net (as_sn_peer_id a) bytes with Ok resp => accept a seq resp | Err _ => None end
      else None
  end.

Lemma ask_active_first l g :
  (forall a seq, exists req, build a seq = Ok req /\ is_Some (nn_to_vec _ _ net req)) ->
  fst (ask_active net build accept l g)
  = from_option Ok (Err P2pErrorCode.ConnectFailed) (head (omap attempt (zip l (sequences (length l) g)))).
Proof.
  intros Hb. revert g. induction l as [|a l IH]; intros g; simpl; [done|].
  destruct (SequenceGenerator_generate g) as [q g']. simpl. destruct (Hb a q) as (req & E & [bytes Hv]).
  rewrite E, Hv. simpl. unfold acquire_sn_send.
  destruct (nn_acquire _ _ net _) as [remote|]; simpl; [|apply IH].
  case_bool_decide; simpl; [|apply IH]. destruct (nn_qa _ _ net _ bytes); [|apply IH].
  destruct (accept a q a0); [done|apply IH].
Qed.
End asks.

(** The SNs a call may go through. *)
Definition call_route {Cert} (preferred : option P2pId) (s : SNServiceState Cert) : list (ActiveSN Cert) :=
  filter (fun a => bool_decide (default (as_sn_peer_id a) preferred = as_sn_peer_id a) = true) (cs_active s).

(** : a call is answered by the first active SN that answers it.  The SNs
    are asked in order, only the preferred one if there is one, each with a
    request of its own sequence number, no two the same and none zero; the
    result is the first answer that carries the sequence asked and the
    identifier of the SN asked, and [ConnectFailed] when there is none. *)
Theorem call_first_answer {Cert} h net preferred tunnel_id reverse remote call_type payload ctx clock
    (s : SNServiceState Cert) cert :
  ch_cert h = Ok cert -> (forall m, is_Some (nn_to_vec _ _ net m)) ->
  is_u32 (cs_gen_seq s) -> Z.of_nat (length (cs_active s)) <= 2147483648 ->
  let asked := zip (call_route preferred s) (sequences (length (call_route preferred s)) (cs_gen_seq s)) in
  fst (call_inner h net preferred tunnel_id reverse remote call_type payload ctx clock s)
  = from_option Ok (Err P2pErrorCode.ConnectFailed)
      (head (omap (attempt net (build_call h tunnel_id reverse remote call_type payload ctx clock) accept_call) asked))
  /\ NoDup (snd <$> asked) /\ 0 ∉ snd <$> asked
  /\ forall (a : ActiveSN Cert) seq resp, attempt net (build_call h tunnel_id reverse remote call_type payload ctx clock) accept_call (a, seq)
       = Some resp -> cr_seq resp = seq /\ cr_sn_peer_id resp = as_sn_peer_id a.
Proof.
  intros Hc Hv Hu Hn asked.
  assert (Hlen : forall n g, length (sequences n g) = n).
  { induction n as [|n IH]; intros g; [done|]. simpl. destruct (SequenceGenerator_generate g). simpl. by rewrite IH. }
  split.
  { unfold call_inner. fold (call_route preferred s).
    destruct (ask_active net _ accept_call _ _) as [r g] eqn:E.
    unfold asked. rewrite <- ask_active_first, E; [done|]. intros a seq. unfold build_call. rewrite Hc. eauto. }
  assert (Hs : snd <$> asked = sequences (length (call_route preferred s)) (cs_gen_seq s))
    by (apply snd_zip; by rewrite Hlen).
  rewrite Hs.
  destruct (sequences_distinct (length (call_route preferred s)) (cs_gen_seq s)) as [H1 H2]; [done| |].
  { unfold call_route. etrans; [apply inj_le, length_filter|done]. }
  split; [done|]. split; [done|]. intros a seq resp. simpl. unfold build_call. rewrite Hc.
  intros (bytes & _ & (rem & _ & H)%bind_Some)%bind_Some. case_bool_decide; [|done].
  destruct (nn_qa _ _ net _ bytes) as [x|]; [|done]. unfold accept_call in H. case_match eqn:E; [done|]. simplify_eq.
  apply orb_false_iff in E as [E1 E2]. by bool_to_prop.
Qed.

(** ** Rendezvous notifications *)

(** : the answer of a client to a rendezvous notification is always one
    the SN takes: it carries the sequence notified and predicted endpoints
    exactly when they were asked for.  It is a success only for a valid
    notification over an SN that is active, about another host, that the
    listener accepted; and then the endpoints are those of the listener's
    socket, bound and not yet expired. *)
Theorem rendezvous_answer_valid {Cert} `{!CertOps Cert} test probe local listener sn notify now
    (s : SNServiceState Cert) :
  let answer := on_rendezvous_notify test probe local listener sn notify now s in
  resp_validate test probe answer (nt_seq notify) (nt_need_predict_endpoint notify) = Ok tt
  /\ (resp_is_success answer = true ->
      sn ∈ active_ids s /\ notify_validate test probe notify = Ok tt
      /\ exists c on_rendezvous ack, cert_create (nt_peer_info notify) = Ok c /\ cert_get_id c <> local
         /\ listener = Some on_rendezvous /\ on_rendezvous notify sn = Ok ack
         /\ rs_predicted_endpoint_array answer = ak_predicted_endpoints ack
         /\ if nt_need_predict_endpoint notify
            then ak_socket_binding_generation ack <> 0 /\ now <= ak_valid_until ack
            else ack = without_prediction).
Proof.
  unfold on_rendezvous_notify. cbv zeta. destruct (rendezvous_ack _ _ _ _ _ _ _ _) as [r|] eqn:E; simpl.
  - unfold rendezvous_ack in E. destruct (active_sn_matches sn s) eqn:Ha; [|done]. simpl in E.
    destruct (notify_validate test probe notify) as [[]|] eqn:Hn; [|done].
    destruct (cert_create (nt_peer_info notify)) as [c|] eqn:Hc; [|done].
    destruct listener as [f|]; [|done]. case_bool_decide as Hl; [done|].
    destruct (f notify sn) as [ack|] eqn:Hf; [|done]. destruct (ack_fits _ _ ack) eqn:Hfit; [|done]. simpl in E.
    destruct (resp_validate _ _ _ _ _) as [[]|] eqn:Hv; [|done]. simplify_eq. split; [done|]. intros _. split.
    { apply existsb_exists in Ha as (a & Hin & <-%bool_decide_eq_true_1). apply list_elem_of_fmap_2.
      by apply list_elem_of_In. }
    split; [done|]. exists c, f, ack. split_and!; try done. unfold ack_fits in Hfit.
    destruct (nt_need_predict_endpoint notify); bool_to_prop; [done|].
    destruct ack; simpl in *; by subst.
  - split; [|done]. unfold resp_validate. simpl. by rewrite Z.eqb_refl.
Qed.

(** ** What the two ends disagree on *)

(** The loop registers only when no SN is active: while one other is, an
    evicted SN stays out, also when it is reachable again. *)
Lemma evicted_stays_out {Cert} `{!CertOps Cert} verified probe {R Rc} h (net1 net2 : P2pId -> ReportNet R Rc) clock clock'
    sns n force now (s : SNServiceState Cert) sn :
  (0 < n)%nat -> sn ∉ active_ids s ->
  sn ∉ active_ids (ping_body verified probe h net1 net2 clock clock' sns n force now s).
Proof.
  intros Hn Hs Hin. apply Hs. unfold ping_body in Hin. destruct (Nat.ltb_spec 0 n); [|lia].
  eapply sublist_subseteq; [eapply ping_steps_ids, ping_active_steps|exact Hin].
Qed.

(** The scheduler of an SN that has just started, with its ports. *)
Definition started_scheduler {T} (sn : P2pId) (ports : list Z) : NatProbeScheduler T :=
  snd (set_ports ports (scheduler_new sn)).

(** The first directive of a new scheduler. *)
Lemma first_directive {T} `{!EqDecision T} (sn peer : P2pId) (t : T) ep ports now :
  is_udp ep = true -> ports_valid (sort_by Z.leb ports) = true ->
  exists d, directive (fst (observe_capable_report peer t ep (Some NAT_PROBE_CONTROL_VERSION) None now
                              (started_scheduler sn ports))) = Some d
  /\ dr_registration_generation d = 1 /\ dr_request_id d = 1.
Proof.
  intros Hu Hp. unfold started_scheduler, set_ports. rewrite Hp.
  assert (Hne : sort_by Z.leb ports <> []) by (intros E; by rewrite E in Hp).
  rewrite bool_decide_false by done. cbn [snd scheduler_new peers sn_peer_id sch_config_generation
    next_registration_generation next_request_id]. unfold observe_capable_report. rewrite Hu. cbn [negb].
  unfold ignored, refresh_registration. cbn [peers]. rewrite fmap_empty, lookup_empty.
  unfold register. cbn [peers]. rewrite lookup_empty. cbn [fst snd]. unfold finish_expired. cbn [peers].
  rewrite lookup_insert_eq. cbn [in_flight]. unfold accept_optional, issue_if_due. cbn [peers].
  rewrite lookup_insert_eq. cbn [pending_trigger sch_ports control_supported in_flight].
  rewrite bool_decide_false by done. rewrite (bool_decide_false (is_Some None)) by (by intros []).
  unfold supports_control. rewrite bool_decide_true by done. cbn [negb orb].
  match goal with |- context [(MAX_CONCURRENT_NAT_PROBES <=? in_flight_count ?x)%nat] =>
    destruct (Nat.leb_spec MAX_CONCURRENT_NAT_PROBES (in_flight_count x)) as [Hc|_];
      [exfalso; pose proof (map_filter_size_le has_in_flight (peers x)) as Hle|] end.
  { unfold in_flight_count in Hc. pose proof (map_size_insert_le (K:=P2pId) (V:=PeerProbeState T) ∅ peer) as Hi.
    rewrite map_size_empty in Hi. cbn [peers] in Hc, Hle. unfold MAX_CONCURRENT_NAT_PROBES in Hc.
    assert (H := Nat.le_trans _ _ _ (Nat.le_trans _ _ _ Hc Hle) (Hi _)). lia. }
  eexists. split; [reflexivity|]. done.
Qed.


(** ** A host with one SN *)

Module ClientDemo.
Import SnDemo.

Definition sn_ep : Endpoint := mkEndpoint Wan Quic (V4 (mkV4 198 51 100 9) 3000).
Definition host5 : ClientHost :=
  mkHost peer5 (Ok [5]) [(Quic, [])] [Quic] [IpV4 (mkV4 192 168 1 5)].
Definition demo_probe (eps : list Endpoint) (signer : P2pId) : P2pResult NatProfile :=
  Ok (mkProfile 1 NonSymmetricLike 2500 9000 None).

(** The SN of [SnService] with two probing ports, serving the host. *)
Definition serving : SnService Z P2pId := set_nat_probe_ports [5001; 5000] s0.
Definition serve (now : Timestamp) (m : ReportSn unit) : P2pResult (ReportSnResp unit) :=
  default (Err P2pErrorCode.Failed)
    (fst <$> handle_report_sn allow_all_sn_validate false (Some (Ok [1])) sn1 peer5 7 m streams7 streams7 streams7 now now
               serving).
Definition demo_net (up : bool) : ReportNet unit unit := mkNet (fun _ => if up then Some sn1 else None) (serve 1000).

Definition entry : ActiveSN P2pId :=
  mkActive sn1 900 Quic sn_ep [] [] None profile_unknown 0 0 900.
Definition c0 : SNServiceState P2pId := client_new 1.
Definition c1 : SNServiceState P2pId := set_active (snd (publish_active_sn (cs_active c0) entry)) c0.
Lemma c1_reachable : client_reachable 1 c1.
Proof. apply (CR_step _ c0); [constructor|apply CS_publish]. Qed.

Definition demo_report (up : bool) (t : Timestamp) : P2pId * (ReportNet unit unit * SnTunnelClassification) * Timestamp :=
  (sn1, (demo_net up, mkClass None sn_ep), t).


(** A turn in which the SN's directive is executed. *)
Definition demo_sn : P2pSn := mkSn sn1 [sn_ep].
Definition demo_turn (s : SNServiceState P2pId) : SNServiceState P2pId :=
  let '(n, force, _, s) := ping_head s in
  ping_body (fun _ => true) demo_probe host5 (fun _ => demo_net true) (fun _ => demo_net true)
    (fun _ n => 1000 + Z.of_nat n) (fun _ _ n => 1000 + Z.of_nat n) [demo_sn] n force 1000 s.
Definition c2 : SNServiceState P2pId := demo_turn (snd (client_start (Some 1%nat) c1)).

Lemma demo_turn_step s : loop_step (R:=unit) (Rc:=unit) (fun _ => true) demo_probe host5 s (demo_turn s).
Proof. unfold demo_turn. destruct (ping_head s) as [[[n force] sleep] s0] eqn:E. by eapply LS_turn. Qed.

Lemma c1_c2_kept : rtc (kept_step (R:=unit) (Rc:=unit) (fun _ => true) demo_probe host5 sn1) c1 c2.
Proof.
  eapply rtc_l; [split; [apply (LS_start _ _ _ (Some 1%nat))|split; by left]|].
  apply rtc_once. split; [apply demo_turn_step|]. split; [by left|]. apply (bool_decide_unpack _). by vm_compute.
Qed.

Lemma client_steps_reachable seq0 (x y : SNServiceState P2pId) :
  client_reachable seq0 x -> rtc client_step x y -> client_reachable seq0 y.
Proof. intros Hx H. revert Hx. induction H as [|x y z Hs _ IH]; [done|]. intros Hx. apply IH. by eapply CR_step. Qed.

Lemma c2_reachable : client_reachable 1 c2.
Proof.
  eapply client_steps_reachable; [exact c1_reachable|].
  eapply rtc_l; [apply (CS_start (Some 1%nat))|]. eapply loop_step_client, demo_turn_step.
Qed.


Lemma serving_inv : sched_inv (sv_scheduler serving).
Proof.
  unfold serving, set_nat_probe_ports.
  pose proof (set_ports_inv [5001; 5000] (sv_scheduler s0) (sched_reachable_inv sn1 _ (sr_new sn1))) as H.
  by destruct (set_ports [5001; 5000] (sv_scheduler s0)).
Qed.

Lemma client_report_served_witness :
  exists resp c, report host5 (demo_net true) (mkClass None sn_ep) sn1 None None 1000 1000 c1 = (Ok resp, c)
  /\ pp_peer_info resp = Some [1] /\ is_Some (pp_nat_probe_directive resp).
Proof.
  destruct (client_report_served (Cert:=P2pId) (CertOps0:=demo_certs) (R:=unit) (Rc:=unit) allow_all_sn_validate false host5 sn1 [1] [5] peer5
    (mkClass None sn_ep) None None 1000 1000 c1 7 streams7 streams7 streams7 1000 serving serving_inv eq_refl eq_refl eq_refl eq_refl)
    as (resp & c & Hr & _ & Hi & _).
  exists resp, c. split; [exact Hr|]. split; [exact Hi|]. clear Hi. vm_compute in Hr. injection Hr as <- <-. vm_compute. eauto.
Defined.

Definition call_net : SnNet SnCall SnCallResp :=
  mkSnNet (fun _ => Some sn1) (fun _ => Some []) (fun _ _ => Ok (mkCallResp 1 sn1 0 None)).

Lemma call_first_answer_witness :
  fst (call_inner host5 call_net None 3 None peer6 TunnelStream [] None (fun _ => 5) c1) = Ok (mkCallResp 1 sn1 0 None)
  /\ NoDup (sequences 1 1).
Proof.
  destruct (call_first_answer host5 call_net None 3 None peer6 TunnelStream [] None (fun _ => 5) c1 [5])
    as (H1 & H2 & _); [done|eauto|unfold is_u32; vm_compute; intuition discriminate|vm_compute; discriminate|].
  split; [by rewrite H1|exact H2].
Defined.
End ClientDemo.
