(* ===== verification/NatProbe.v ===== *)
(** * NAT probing (src/p2p-frame/src/sn/nat_probe.rs)

    The datagrams of a probe, the reflector of an SN and its signing budget.  A
    request and its response have the same fixed size; a response carries the
    address the reflector saw, signed by the SN.

    Packets are lists of bytes.  The identity's signing function and the
    certificate's verification are parameters; [Instant::now()] is an argument
    in nanoseconds. *)

From S2P Require Import Prelude.
From S2P Require Import Errors.
From S2P Require Import Ids.
From S2P Require Import Endpoint.
From S2P Require Import NatType.
From S2P Require Import SnProtocol.

(** ** Layout *)

Definition NAT_PROBE_MAGIC : list Z := [80; 78; 65; 84].  (* PNAT *)
Definition NAT_PROBE_REQUEST : Z := 1.
Definition NAT_PROBE_RESPONSE : Z := 2.
Definition NAT_PROBE_TOKEN_OFFSET : nat := 8.
Definition NAT_PROBE_TOKEN_LEN : nat := 16.
Definition NAT_PROBE_IPV4_OFFSET : nat := 24.
Definition NAT_PROBE_PORT_OFFSET : nat := 28.
Definition NAT_PROBE_SIGNATURE_LEN_OFFSET : nat := 30.
Definition NAT_PROBE_SIGNATURE_OFFSET : nat := 32.
Definition NAT_PROBE_SIGNED_FIELDS_LEN : nat := NAT_PROBE_SIGNATURE_OFFSET.
Definition NAT_PROBE_PROTOCOL_VERSION : Z := 2.
Definition NAT_PROBE_PACKET_LEN : nat := 1200.
Definition MAX_NAT_PROBE_SIGNATURE_LEN : nat := NAT_PROBE_PACKET_LEN - NAT_PROBE_SIGNATURE_OFFSET.
Definition MAX_NAT_PROBE_RESPONSES_PER_SECOND : nat := 128.
Definition MAX_NAT_PROBE_IN_FLIGHT_SIGNATURES : nat := 4.

(** CYFS-P2P/PNAT/RESPONSE/V2 and CYFS-P2P/PNAT/SIGNATURE-LENGTH/V2, each with
    a final zero. *)
Definition NAT_PROBE_SIGNATURE_DOMAIN : list Z :=
  [67; 89; 70; 83; 45; 80; 50; 80; 47; 80; 78; 65; 84; 47; 82; 69; 83; 80; 79; 78; 83; 69; 47; 86; 50; 0].
Definition NAT_PROBE_SIGNATURE_CALIBRATION_DOMAIN : list Z :=
  [67; 89; 70; 83; 45; 80; 50; 80; 47; 80; 78; 65; 84; 47; 83; 73; 71; 78; 65; 84; 85; 82; 69; 45; 76; 69; 78; 71; 84; 72;
   47; 86; 50; 0].

(** [to_be_bytes] and [from_be_bytes] of a [u16]. *)
Definition be16 (n : Z) : list Z := [n / 256; n mod 256].
Definition of_be16 (hi lo : Z) : Z := 256 * hi + lo.

(** [packet[off..off + bytes.len()].copy_from_slice(bytes)] and
    [&packet[off..off + n]], within the packet. *)
Definition copy_at (off : nat) (bytes packet : list Z) : list Z :=
  take off packet ++ bytes ++ drop (off + length bytes) packet.
Definition slice (off n : nat) (packet : list Z) : list Z := take n (drop off packet).
Definition byte_at (off : nat) (packet : list Z) : Z := nth off packet 0.

Definition valid_header (packet : list Z) (kind : Z) : bool :=
  (length packet =? NAT_PROBE_PACKET_LEN)%nat && bool_decide (take 4 packet = NAT_PROBE_MAGIC)
  && (byte_at 4 packet =? NAT_PROBE_PROTOCOL_VERSION) && (byte_at 5 packet =? kind)
  && (byte_at 6 packet =? 0) && (byte_at 7 packet =? 0).

Definition packet_header (kind : Z) (token : list Z) : list Z :=
  copy_at NAT_PROBE_TOKEN_OFFSET token
    (copy_at 5 [kind] (copy_at 4 [NAT_PROBE_PROTOCOL_VERSION]
       (copy_at 0 NAT_PROBE_MAGIC (replicate NAT_PROBE_PACKET_LEN 0)))).

(** ** Requests *)

Definition encode_request (token : list Z) : list Z := packet_header NAT_PROBE_REQUEST token.
Definition decode_request (packet : list Z) : option (list Z) :=
  if negb (valid_header packet NAT_PROBE_REQUEST) || existsb (fun b => negb (b =? 0)) (drop 24 packet) then None
  else Some (slice NAT_PROBE_TOKEN_OFFSET NAT_PROBE_TOKEN_LEN packet).

(** ** Responses *)

Definition validate_signature_len (signature_len : nat) : P2pResult unit :=
  if (signature_len =? 0)%nat then Err P2pErrorCode.InvalidSignature
  else if (MAX_NAT_PROBE_SIGNATURE_LEN <? signature_len)%nat then Err P2pErrorCode.OutOfLimit
  else Ok tt.

Definition encode_response_fields (token : list Z) (observed : SocketAddr) (signature_len : nat)
    : P2pResult (list Z) :=
  _ <-? validate_signature_len signature_len ;;
  match observed with
  | V6 _ _ _ _ => Err P2pErrorCode.InvalidParam
  | V4 ip port =>
      if v4_is_unspecified ip || (port =? 0) then Err P2pErrorCode.InvalidParam
      else Ok (copy_at NAT_PROBE_SIGNATURE_LEN_OFFSET (be16 (Z.of_nat signature_len))
                 (copy_at NAT_PROBE_PORT_OFFSET (be16 port)
                    (copy_at NAT_PROBE_IPV4_OFFSET [v4_a ip; v4_b ip; v4_c ip; v4_d ip]
                       (packet_header NAT_PROBE_RESPONSE token))))
  end.

Record DecodedNatProbeResponse := mkDecoded {
  dn_token : list Z; dn_observed : SocketAddr; dn_signature : list Z; dn_signed_fields : list Z }.

Definition decode_response_datagram (packet : list Z) : option DecodedNatProbeResponse :=
  if negb (valid_header packet NAT_PROBE_RESPONSE) then None
  else
    let token := slice NAT_PROBE_TOKEN_OFFSET NAT_PROBE_TOKEN_LEN packet in
    let at_ip i := byte_at (NAT_PROBE_IPV4_OFFSET + i) packet in
    let ip := mkV4 (at_ip 0%nat) (at_ip 1%nat) (at_ip 2%nat) (at_ip 3%nat) in
    let port := of_be16 (byte_at NAT_PROBE_PORT_OFFSET packet) (byte_at (NAT_PROBE_PORT_OFFSET + 1) packet) in
    if v4_is_unspecified ip || (port =? 0) then None
    else
      let signature_len := Z.to_nat (of_be16 (byte_at NAT_PROBE_SIGNATURE_LEN_OFFSET packet)
                                       (byte_at (NAT_PROBE_SIGNATURE_LEN_OFFSET + 1) packet)) in
      if (signature_len =? 0)%nat || (MAX_NAT_PROBE_SIGNATURE_LEN <? signature_len)%nat then None
      else
        let signature_end := (NAT_PROBE_SIGNATURE_OFFSET + signature_len)%nat in
        if existsb (fun b => negb (b =? 0)) (drop signature_end packet) then None
        else Some (mkDecoded token (V4 ip port) (slice NAT_PROBE_SIGNATURE_OFFSET signature_len packet)
                     (take NAT_PROBE_SIGNED_FIELDS_LEN packet)).

(** [u16::try_from(len)] *)
Definition id_len_u16 (id : P2pId) : P2pResult (list Z) :=
  let n := Z.of_nat (length (p2pid_bytes id)) in
  if u16_max <? n then Err P2pErrorCode.OutOfLimit else Ok (be16 n).
Definition response_signature_preimage (signer : P2pId) (signed_fields : list Z) : P2pResult (list Z) :=
  if negb (length signed_fields =? NAT_PROBE_SIGNED_FIELDS_LEN)%nat then Err P2pErrorCode.InvalidParam
  else
    len <-? id_len_u16 signer ;;
    Ok (NAT_PROBE_SIGNATURE_DOMAIN ++ len ++ p2pid_bytes signer ++ signed_fields).
Definition signature_calibration_preimage (signer : P2pId) : P2pResult (list Z) :=
  len <-? id_len_u16 signer ;; Ok (NAT_PROBE_SIGNATURE_CALIBRATION_DOMAIN ++ len ++ p2pid_bytes signer).

(** [verify]: [get_id] and [check] are those of the expected signer's
    certificate. *)
Definition response_verify (get_id : P2pId) (check : list Z -> list Z -> bool) (r : DecodedNatProbeResponse) : bool :=
  match response_signature_preimage get_id (dn_signed_fields r) with
  | Err _ => false
  | Ok preimage => check preimage (dn_signature r)
  end.

(** ** The signing budget *)

Record NatProbeSigningBudget := mkBudget { bg_admitted : list Z; bg_in_flight : nat }.
Definition budget_new : NatProbeSigningBudget := mkBudget [] 0.

Fixpoint pop_second (now : Z) (admitted : list Z) : list Z :=
  match admitted with
  | t :: rest => if 1000000000 <=? saturating_sub now t then pop_second now rest else admitted
  | [] => []
  end.
Definition try_acquire (now : Z) (b : NatProbeSigningBudget) : bool * NatProbeSigningBudget :=
  let admitted := pop_second now (bg_admitted b) in
  if (MAX_NAT_PROBE_RESPONSES_PER_SECOND <=? length admitted)%nat then (false, mkBudget admitted (bg_in_flight b))
  else if (MAX_NAT_PROBE_IN_FLIGHT_SIGNATURES <=? bg_in_flight b)%nat then (false, mkBudget admitted (bg_in_flight b))
  else (true, mkBudget (admitted ++ [now]) (S (bg_in_flight b))).
(** [Drop for NatProbeSigningPermit] *)
Definition permit_drop (b : NatProbeSigningBudget) : NatProbeSigningBudget :=
  mkBudget (bg_admitted b) (Nat.pred (bg_in_flight b)).

(** ** The reflector *)

Record NatProbeSigningContext := mkSigning { sg_signer_id : P2pId; sg_signature_len : nat }.

(** [NatProbeSigningContext::new]: [sign] is the identity's, run once. *)
Definition signing_context_new (sign : list Z -> P2pResult (list Z)) (signer : P2pId) : P2pResult NatProbeSigningContext :=
  preimage <-? signature_calibration_preimage signer ;;
  signature <-? sign preimage ;;
  _ <-? validate_signature_len (length signature) ;;
  Ok (mkSigning signer (length signature)).

(** The closure on the blocking pool, while it holds the permit. *)
Definition sign_response (sign : list Z -> P2pResult (list Z)) (c : NatProbeSigningContext) (packet preimage : list Z)
    : P2pResult (list Z) :=
  signature <-? sign preimage ;;
  _ <-? validate_signature_len (length signature) ;;
  if negb (length signature =? sg_signature_len c)%nat then Err P2pErrorCode.InvalidSignature
  else Ok (copy_at NAT_PROBE_SIGNATURE_OFFSET signature packet).

(** Up to the admission: the packet and its preimage, with the permit held. *)
Definition encode_response_begin (c : NatProbeSigningContext) (token : list Z) (observed : SocketAddr) (now : Z)
    (b : NatProbeSigningBudget) : P2pResult (option (list Z * list Z)) * NatProbeSigningBudget :=
  match
    packet <-? encode_response_fields token observed (sg_signature_len c) ;;
    preimage <-? response_signature_preimage (sg_signer_id c) (take NAT_PROBE_SIGNED_FIELDS_LEN packet) ;;
    Ok (packet, preimage)
  with
  | Err e => (Err e, b)
  | Ok x => let '(admitted, b) := try_acquire now b in (Ok (if admitted then Some x else None), b)
  end.
(** The whole of it, with nothing of other reflectors in between. *)
Definition encode_response (sign : list Z -> P2pResult (list Z)) (c : NatProbeSigningContext) (token : list Z)
    (observed : SocketAddr) (now : Z) (b : NatProbeSigningBudget) : P2pResult (option (list Z)) * NatProbeSigningBudget :=
  let '(r, b) := encode_response_begin c token observed now b in
  match r with
  | Err e => (Err e, b)
  | Ok None => (Ok None, b)
  | Ok (Some (packet, preimage)) =>
      (response <-? sign_response sign c packet preimage ;; Ok (Some response), permit_drop b)
  end.

(** A turn of [run]: the datagram received, at most [NAT_PROBE_PACKET_LEN + 1]
    bytes of it, and the datagram sent back to its source. *)
Definition reflect (sign : list Z -> P2pResult (list Z)) (c : NatProbeSigningContext) (datagram : list Z)
    (source : SocketAddr) (now : Z) (b : NatProbeSigningBudget) : option (list Z) * NatProbeSigningBudget :=
  let packet := take (S NAT_PROBE_PACKET_LEN) datagram in
  if negb (length packet =? NAT_PROBE_PACKET_LEN)%nat || negb (is_ipv4 source) then (None, b)
  else match decode_request packet with
       | None => (None, b)
       | Some token =>
           match encode_response sign c token source now b with
           | (Ok (Some response), b) => (Some response, b)
           | (_, b) => (None, b)
           end
       end.

Definition validate_reflector_addr (a : SocketAddr) : P2pResult unit :=
  if negb (is_ipv4 a) then Err P2pErrorCode.InvalidParam else Ok tt.

(** ** Layout of the packets *)

Ltac probe_consts :=
  unfold MAX_NAT_PROBE_SIGNATURE_LEN, NAT_PROBE_SIGNED_FIELDS_LEN, NAT_PROBE_SIGNATURE_OFFSET, NAT_PROBE_PACKET_LEN,
    NAT_PROBE_SIGNATURE_LEN_OFFSET, NAT_PROBE_PORT_OFFSET, NAT_PROBE_IPV4_OFFSET, NAT_PROBE_TOKEN_OFFSET,
    NAT_PROBE_TOKEN_LEN in *.

Lemma copy_at_app (a bs rest : list Z) off :
  length a = off -> copy_at off bs (a ++ rest) = (a ++ bs) ++ drop (length bs) rest.
Proof. intros <-. unfold copy_at. by rewrite take_app_length, drop_app_add, app_assoc. Qed.

Lemma copy_at_length off bs p : (off + length bs <= length p)%nat -> length (copy_at off bs p) = length p.
Proof. intros H. unfold copy_at. rewrite !length_app, length_take, length_drop. lia. Qed.

Lemma header_layout kind token :
  length token = NAT_PROBE_TOKEN_LEN ->
  packet_header kind token = (NAT_PROBE_MAGIC ++ [NAT_PROBE_PROTOCOL_VERSION; kind; 0; 0] ++ token) ++ replicate 1176 0.
Proof.
  intros Ht. unfold packet_header. change (replicate NAT_PROBE_PACKET_LEN 0) with ([] ++ replicate NAT_PROBE_PACKET_LEN 0).
  rewrite copy_at_app by done. cbn [app]. rewrite drop_replicate.
  rewrite copy_at_app by done. rewrite drop_replicate. rewrite copy_at_app by done. rewrite drop_replicate.
  change (replicate (NAT_PROBE_PACKET_LEN - length NAT_PROBE_MAGIC - length [NAT_PROBE_PROTOCOL_VERSION] - length [kind]) 0)
    with ([0; 0] ++ replicate 1192 0). rewrite app_assoc. rewrite copy_at_app by done.
  rewrite Ht, drop_replicate. by rewrite <- !app_assoc.
Qed.

(** The thirty-two signed bytes of a response. *)
Definition response_fields (token ip port len : list Z) : list Z :=
  (NAT_PROBE_MAGIC ++ [NAT_PROBE_PROTOCOL_VERSION; NAT_PROBE_RESPONSE; 0; 0] ++ token) ++ ip ++ port ++ len.

Lemma fields_layout token ip port n :
  length token = NAT_PROBE_TOKEN_LEN -> length ip = 4%nat ->
  copy_at NAT_PROBE_SIGNATURE_LEN_OFFSET (be16 n)
    (copy_at NAT_PROBE_PORT_OFFSET (be16 port)
       (copy_at NAT_PROBE_IPV4_OFFSET ip (packet_header NAT_PROBE_RESPONSE token)))
  = response_fields token ip (be16 port) (be16 n) ++ replicate MAX_NAT_PROBE_SIGNATURE_LEN 0.
Proof.
  intros Ht Hi. rewrite header_layout by done.
  rewrite copy_at_app by (rewrite !length_app, Ht; done). rewrite Hi, drop_replicate.
  rewrite copy_at_app by (rewrite !length_app, Ht, Hi; done). rewrite drop_replicate.
  rewrite copy_at_app by (rewrite !length_app, Ht, Hi; done). rewrite drop_replicate.
  unfold response_fields. rewrite <- !app_assoc. done.
Qed.

Lemma response_fields_length token ip port len :
  length token = NAT_PROBE_TOKEN_LEN -> length ip = 4%nat -> length port = 2%nat -> length len = 2%nat ->
  length (response_fields token ip port len) = NAT_PROBE_SIGNED_FIELDS_LEN.
Proof. intros Ht Hi Hp Hl. unfold response_fields. rewrite !length_app, Ht, Hi, Hp, Hl. done. Qed.

Lemma of_be16_be16 n : 0 <= n -> of_be16 (nth 0 (be16 n) 0) (nth 1 (be16 n) 0) = n.
Proof. intros Hn. unfold of_be16, be16. simpl. pose proof (Z.div_mod n 256). lia. Qed.

Lemma replicate_zero n : existsb (fun b => negb (b =? 0)) (replicate n 0) = false.
Proof. induction n; simpl; auto. Qed.

Lemma token_cases (token : list Z) :
  length token = NAT_PROBE_TOKEN_LEN ->
  exists a b c d e f g h i j k l m n o p, token = [a; b; c; d; e; f; g; h; i; j; k; l; m; n; o; p].
Proof. intros H. do 16 (destruct token as [|? token]; [done|]). destruct token; [|done]. by do 16 eexists. Qed.

Lemma decode_encode_request token :
  length token = NAT_PROBE_TOKEN_LEN -> decode_request (encode_request token) = Some token.
Proof.
  intros Ht. unfold encode_request. rewrite header_layout by done.
  destruct (token_cases token Ht) as (a & b & c & d & e & f & g & h & i & j & k & l & m & n & o & p & ->).
  by vm_compute.
Qed.

Lemma encode_request_length token :
  length token = NAT_PROBE_TOKEN_LEN -> length (encode_request token) = NAT_PROBE_PACKET_LEN.
Proof. intros Ht. unfold encode_request. rewrite header_layout by done. rewrite !length_app, Ht. done. Qed.

(** A packet of the response layout is decoded to what was put into it. *)
Lemma decode_response_layout token ip port signature :
  length token = NAT_PROBE_TOKEN_LEN -> v4_is_unspecified ip = false -> 0 < port ->
  (0 < length signature <= MAX_NAT_PROBE_SIGNATURE_LEN)%nat ->
  let fields := response_fields token [v4_a ip; v4_b ip; v4_c ip; v4_d ip] (be16 port) (be16 (Z.of_nat (length signature))) in
  decode_response_datagram (fields ++ signature ++ replicate (MAX_NAT_PROBE_SIGNATURE_LEN - length signature) 0)
  = Some (mkDecoded token (V4 ip port) signature fields).
Proof.
  intros Ht Hip Hp Hs fields.
  assert (Hlen : length fields = NAT_PROBE_SIGNED_FIELDS_LEN) by by apply response_fields_length.
  set (packet := fields ++ signature ++ _).
  assert (Hn : forall i, (i < 32)%nat -> nth i packet 0 = nth i fields 0).
  { intros i Hi. unfold packet. rewrite app_nth1; [done|]. by rewrite Hlen. }
  assert (Htot : length packet = NAT_PROBE_PACKET_LEN).
  { unfold packet. rewrite !length_app, length_replicate, Hlen. probe_consts. lia. }
  assert (Htake : forall k, (k <= 32)%nat -> take k packet = take k fields).
  { intros k Hk. unfold packet. by rewrite take_app_le by (rewrite Hlen; done). }
  assert (Hslice : forall o k, (o + k <= 32)%nat -> slice o k packet = slice o k fields).
  { intros o k Hk. unfold slice. rewrite !take_drop_commute. by rewrite Htake. }
  destruct (token_cases token Ht) as (a & b & c & d & e & f & g & h & i & j & k & l & m & n & o & p & ->).
  assert (Hh : valid_header packet NAT_PROBE_RESPONSE = true).
  { unfold valid_header, byte_at. rewrite Htot, (Htake 4%nat), !Hn by lia. reflexivity. }
  unfold decode_response_datagram, byte_at. rewrite Hh. cbn [negb].
  rewrite (Htake NAT_PROBE_SIGNED_FIELDS_LEN), (Hslice NAT_PROBE_TOKEN_OFFSET NAT_PROBE_TOKEN_LEN)
    by (probe_consts; lia).
  rewrite !Hn by (probe_consts; lia).
  rewrite (take_ge fields NAT_PROBE_SIGNED_FIELDS_LEN) by (by rewrite Hlen).
  change (nth (NAT_PROBE_IPV4_OFFSET + 0) fields 0) with (v4_a ip).
  change (nth (NAT_PROBE_IPV4_OFFSET + 1) fields 0) with (v4_b ip).
  change (nth (NAT_PROBE_IPV4_OFFSET + 2) fields 0) with (v4_c ip).
  change (nth (NAT_PROBE_IPV4_OFFSET + 3) fields 0) with (v4_d ip).
  change (nth NAT_PROBE_PORT_OFFSET fields 0) with (nth 0 (be16 port) 0).
  change (nth (NAT_PROBE_PORT_OFFSET + 1) fields 0) with (nth 1 (be16 port) 0).
  change (nth NAT_PROBE_SIGNATURE_LEN_OFFSET fields 0) with (nth 0 (be16 (Z.of_nat (length signature))) 0).
  change (nth (NAT_PROBE_SIGNATURE_LEN_OFFSET + 1) fields 0) with (nth 1 (be16 (Z.of_nat (length signature))) 0).
  rewrite !of_be16_be16, Nat2Z.id by lia.
  replace (mkV4 (v4_a ip) (v4_b ip) (v4_c ip) (v4_d ip)) with ip by by destruct ip. rewrite Hip.
  destruct (Z.eqb_spec port 0); [lia|]. destruct (Nat.eqb_spec (length signature) 0); [lia|].
  destruct (Nat.ltb_spec MAX_NAT_PROBE_SIGNATURE_LEN (length signature)); [lia|].
  cbn [orb].
  assert (Hd : drop NAT_PROBE_SIGNATURE_OFFSET packet = signature ++ replicate (MAX_NAT_PROBE_SIGNATURE_LEN - length signature) 0)
    by (change NAT_PROBE_SIGNATURE_OFFSET with NAT_PROBE_SIGNED_FIELDS_LEN; unfold packet; rewrite <- Hlen; apply drop_app_length).
  rewrite <- drop_drop, Hd, drop_app_length, replicate_zero. unfold slice. by rewrite Hd, take_app_length.
Qed.

Lemma copy_signature fields signature :
  length fields = NAT_PROBE_SIGNED_FIELDS_LEN ->
  copy_at NAT_PROBE_SIGNATURE_OFFSET signature (fields ++ replicate MAX_NAT_PROBE_SIGNATURE_LEN 0)
  = fields ++ signature ++ replicate (MAX_NAT_PROBE_SIGNATURE_LEN - length signature) 0.
Proof. intros Hf. by rewrite copy_at_app, drop_replicate, <- app_assoc. Qed.

Lemma encode_fields_ok token ip port n packet :
  length token = NAT_PROBE_TOKEN_LEN -> encode_response_fields token (V4 ip port) n = Ok packet ->
  packet = response_fields token [v4_a ip; v4_b ip; v4_c ip; v4_d ip] (be16 port) (be16 (Z.of_nat n))
           ++ replicate MAX_NAT_PROBE_SIGNATURE_LEN 0
  /\ v4_is_unspecified ip = false /\ port <> 0 /\ (0 < n <= MAX_NAT_PROBE_SIGNATURE_LEN)%nat.
Proof.
  intros Ht. unfold encode_response_fields, validate_signature_len.
  destruct (Nat.eqb_spec n 0); [done|]. destruct (Nat.ltb_spec MAX_NAT_PROBE_SIGNATURE_LEN n); [done|].
  destruct (v4_is_unspecified ip) eqn:Hu; [done|]. destruct (Z.eqb_spec port 0); [done|]. intros [= <-].
  split; [by apply fields_layout|]. split; [done|]. split; [done|lia].
Qed.

Lemma preimage_ok signer token ip port n :
  is_ok (id_len_u16 signer) = true -> length token = NAT_PROBE_TOKEN_LEN -> length ip = 4%nat ->
  exists preimage, response_signature_preimage signer (response_fields token ip (be16 port) (be16 n)) = Ok preimage.
Proof.
  intros Hid Ht Hi. unfold response_signature_preimage. rewrite response_fields_length by done. simpl.
  destruct (id_len_u16 signer); [eauto|done].
Qed.

(** : a probe finds the address it comes from.  The request of a client
    whose datagrams reach the reflector from an IPv4 address is answered, when
    the signing budget admits it, by a response of the same length that decodes
    to the client's token and that very address and passes the verification with
    the SN's certificate, for an identity whose signatures verify and have one
    length. *)
Theorem probe_roundtrip sign check signer c token ip port now b :
  signing_context_new sign signer = Ok c ->
  (forall m, exists sig, sign m = Ok sig /\ length sig = sg_signature_len c /\ check m sig = true) ->
  length token = NAT_PROBE_TOKEN_LEN -> v4_is_unspecified ip = false -> 0 < port -> fst (try_acquire now b) = true ->
  exists response r, fst (reflect sign c (encode_request token) (V4 ip port) now b) = Some response
  /\ length response = length (encode_request token)
  /\ decode_response_datagram response = Some r /\ dn_token r = token /\ dn_observed r = V4 ip port
  /\ response_verify signer check r = true.
Proof.
  intros Hc Hsign Ht Hip Hp Hadm.
  unfold signing_context_new, signature_calibration_preimage in Hc.
  destruct (id_len_u16 signer) as [len|] eqn:Hid; [|done]. simpl in Hc. destruct (sign _) as [sig0|]; [|done].
  destruct (validate_signature_len (length sig0)) as [[]|] eqn:Hv; [|done]. injection Hc as <-.
  set (n := length sig0) in *. cbn [sg_signature_len sg_signer_id] in *.
  set (fields := response_fields token [v4_a ip; v4_b ip; v4_c ip; v4_d ip] (be16 port) (be16 (Z.of_nat n))).
  destruct (preimage_ok signer token [v4_a ip; v4_b ip; v4_c ip; v4_d ip] port (Z.of_nat n)) as [preimage Hpre];
    [by rewrite Hid|done..|]. fold fields in Hpre.
  destruct (Hsign preimage) as (sig & Hs & Hl & Hck).
  assert (Hlen : length fields = NAT_PROBE_SIGNED_FIELDS_LEN) by by apply response_fields_length.
  assert (Hn : (0 < n <= MAX_NAT_PROBE_SIGNATURE_LEN)%nat).
  { unfold validate_signature_len in Hv. destruct (Nat.eqb_spec n 0); [done|].
    destruct (Nat.ltb_spec MAX_NAT_PROBE_SIGNATURE_LEN n); [done|lia]. }
  assert (He : encode_response_fields token (V4 ip port) n = Ok (fields ++ replicate MAX_NAT_PROBE_SIGNATURE_LEN 0)).
  { unfold encode_response_fields. rewrite Hv, Hip. destruct (Z.eqb_spec port 0); [lia|]. simpl. by rewrite fields_layout. }
  assert (Hresp : fst (encode_response sign (mkSigning signer n) token (V4 ip port) now b)
    = Ok (Some (fields ++ sig ++ replicate (MAX_NAT_PROBE_SIGNATURE_LEN - length sig) 0))).
  { unfold encode_response, encode_response_begin. cbn [sg_signature_len sg_signer_id]. rewrite He.
    rewrite <- Hlen at 1. rewrite take_app_length, Hpre. destruct (try_acquire now b) as [[] b']; [|done].
    unfold sign_response. rewrite Hs, Hl. cbn [sg_signature_len]. rewrite Hv, Nat.eqb_refl. cbn [negb fst].
    by rewrite copy_signature, Hl. }
  exists (fields ++ sig ++ replicate (MAX_NAT_PROBE_SIGNATURE_LEN - length sig) 0), (mkDecoded token (V4 ip port) sig fields).
  split_and!; try done.
  - unfold reflect. rewrite take_ge by (rewrite encode_request_length by done; lia).
    rewrite encode_request_length, decode_encode_request by done. cbn [negb orb is_ipv4]. rewrite Nat.eqb_refl. simpl.
    destruct (encode_response _ _ _ _ _ _) as [res b']. simpl in Hresp. by rewrite Hresp.
  - rewrite encode_request_length, !length_app, length_replicate, Hlen, Hl by done. probe_consts. lia.
  - unfold fields. rewrite <- Hl. rewrite <- Hl in Hn. by apply decode_response_layout.
  - unfold response_verify. cbn [dn_signed_fields dn_signature]. by rewrite Hpre.
Qed.

(** Everything a decoded response says is in the bytes that are signed. *)
Lemma decoded_from_fields packet r :
  decode_response_datagram packet = Some r ->
  let f := dn_signed_fields r in
  length f = NAT_PROBE_SIGNED_FIELDS_LEN /\ dn_token r = slice NAT_PROBE_TOKEN_OFFSET NAT_PROBE_TOKEN_LEN f
  /\ dn_observed r = V4 (mkV4 (byte_at 24 f) (byte_at 25 f) (byte_at 26 f) (byte_at 27 f)) (of_be16 (byte_at 28 f) (byte_at 29 f)).
Proof.
  unfold decode_response_datagram. destruct (valid_header packet NAT_PROBE_RESPONSE) eqn:Hh; [|done]. cbn [negb].
  apply andb_true_iff in Hh as [Hh _]. repeat (apply andb_true_iff in Hh as [Hh _]). apply Nat.eqb_eq in Hh.
  repeat case_match; try done. intros [= <-]. cbn [dn_signed_fields dn_token dn_observed].
  split; [rewrite length_take, Hh; done|].
  assert (Hn : forall i, (i < 32)%nat -> byte_at i (take NAT_PROBE_SIGNED_FIELDS_LEN packet) = byte_at i packet).
  { intros i Hi. unfold byte_at. rewrite <- (take_drop NAT_PROBE_SIGNED_FIELDS_LEN packet) at 2. rewrite app_nth1; [done|].
    rewrite length_take, Hh. probe_consts. lia. }
  rewrite !Hn by lia. split; [|done]. unfold slice. rewrite !take_drop_commute, take_take. f_equal.
Qed.

Lemma domains_differ a b : NAT_PROBE_SIGNATURE_DOMAIN ++ a <> NAT_PROBE_SIGNATURE_CALIBRATION_DOMAIN ++ b.
Proof. intros [=]. Qed.

(** C22: : a verified response is authentic.  If the SN's key has signed only
    the calibration message and the fields of responses to requests it
    answered, then whatever datagram decodes to a response that passes the
    verification, its token and observed address are those of one of these
    requests: no third party can make a client believe another address, and the
    calibration signature cannot be passed off as a response. *)
Theorem probe_response_authentic signer check n (answered : list (list Z * SocketAddr)) packet r :
  Forall (fun x => length (fst x) = NAT_PROBE_TOKEN_LEN /\ 0 <= port_of (snd x)) answered ->
  (forall m sig, check m sig = true ->
     signature_calibration_preimage signer = Ok m
     \/ exists token observed fields, (token, observed) ∈ answered
        /\ encode_response_fields token observed n = Ok fields
        /\ response_signature_preimage signer (take NAT_PROBE_SIGNED_FIELDS_LEN fields) = Ok m) ->
  decode_response_datagram packet = Some r -> response_verify signer check r = true ->
  (dn_token r, dn_observed r) ∈ answered.
Proof.
  intros Hwf Hsigned Hd Hv. destruct (decoded_from_fields packet r Hd) as (Hlen & -> & ->).
  unfold response_verify, response_signature_preimage in Hv. rewrite Hlen, Nat.eqb_refl in Hv. cbn [negb] in Hv.
  destruct (id_len_u16 signer) as [len|] eqn:Hid; [|done].
  destruct (Hsigned _ _ Hv) as [Hc|(token & observed & fields & Hin & He & Hp)].
  { unfold signature_calibration_preimage in Hc. rewrite Hid in Hc.
    assert (E : NAT_PROBE_SIGNATURE_CALIBRATION_DOMAIN ++ len ++ p2pid_bytes signer
      = NAT_PROBE_SIGNATURE_DOMAIN ++ len ++ p2pid_bytes signer ++ dn_signed_fields r) by congruence.
    by apply eq_sym, domains_differ in E. }
  rewrite Forall_forall in Hwf. destruct (Hwf _ Hin) as [Ht Hport]. cbn [fst snd] in Ht, Hport.
  destruct observed as [ip port|]; [|unfold encode_response_fields in He; by destruct (validate_signature_len n)].
  destruct (encode_fields_ok _ _ _ _ _ Ht He) as (-> & _ & _ & _).
  set (fs := response_fields _ _ _ _) in Hp.
  assert (Hfs : length fs = NAT_PROBE_SIGNED_FIELDS_LEN) by by apply response_fields_length.
  rewrite <- Hfs in Hp at 1. rewrite take_app_length in Hp. unfold response_signature_preimage in Hp.
  rewrite Hfs, Hid in Hp. cbn [negb Nat.eqb] in Hp. rewrite Nat.eqb_refl in Hp.
  apply (f_equal (fun x => match x with Ok y => y | Err _ => [] end)) in Hp. do 3 apply app_inv_head in Hp. rewrite <- Hp. unfold fs.
  destruct (token_cases token Ht) as (a & b & c & d & e & f & g & h & i & j & k & l & m & n' & o & p & ->).
  change (slice _ _ _) with [a; b; c; d; e; f; g; h; i; j; k; l; m; n'; o; p].
  change (of_be16 _ _) with (of_be16 (nth 0 (be16 port) 0) (nth 1 (be16 port) 0)).
  rewrite of_be16_be16 by exact Hport. by destruct ip.
Qed.

(** ** The budget over time

    [budget_run now ts k b]: after some admissions and releases up to the time
    [now], in any order of the reflectors' tasks, the admissions were at the
    times [ts] and [k] signatures are running. *)

Inductive budget_run : Z -> list Z -> nat -> NatProbeSigningBudget -> Prop :=
| BR_new now : budget_run now [] 0 budget_new
| BR_acquire now ts k b now' ok b' :
    budget_run now ts k b -> now <= now' -> try_acquire now' b = (ok, b') ->
    budget_run now' (if ok : bool then ts ++ [now'] else ts) (if ok then S k else k) b'
| BR_drop now ts k b : budget_run now ts (S k) b -> budget_run now ts k (permit_drop b).

Record budget_inv (now : Z) (ts : list Z) (k : nat) (b : NatProbeSigningBudget) : Prop := {
  bi_in_flight : bg_in_flight b = k;
  bi_max : (k <= MAX_NAT_PROBE_IN_FLIGHT_SIGNATURES)%nat;
  bi_window : exists old, ts = old ++ bg_admitted b /\ Forall (fun t => t + 1000000000 <= now) old;
  bi_admitted : (length (bg_admitted b) <= MAX_NAT_PROBE_RESPONSES_PER_SECOND)%nat;
  bi_spaced : forall i t u, ts !! i = Some t -> ts !! (i + MAX_NAT_PROBE_RESPONSES_PER_SECOND)%nat = Some u ->
    t + 1000000000 <= u;
}.

Lemma pop_second_split now l :
  exists old, l = old ++ pop_second now l /\ Forall (fun t => t + 1000000000 <= now) old.
Proof.
  induction l as [|t l (old & IH & Ho)]; simpl; [by exists []|]. case_match eqn:E; [|by exists []].
  exists (t :: old). split; [by rewrite IH at 1|]. constructor; [|done]. unfold saturating_sub in E. bool_to_prop. lia.
Qed.

Lemma try_acquire_inv now ts k b now' ok b' :
  budget_inv now ts k b -> now <= now' -> try_acquire now' b = (ok, b') ->
  budget_inv now' (if ok : bool then ts ++ [now'] else ts) (if ok then S k else k) b'.
Proof.
  intros [Hf Hm (old & -> & Ho) Ha Hs] Hle. unfold try_acquire.
  destruct (pop_second_split now' (bg_admitted b)) as (old' & Hsplit & Ho').
  set (l := pop_second now' (bg_admitted b)) in *.
  assert (Hold : Forall (fun t => t + 1000000000 <= now') (old ++ old')).
  { apply Forall_app. split; [|done]. eapply Forall_impl; [exact Ho|]. simpl. lia. }
  assert (Hts : old ++ bg_admitted b = (old ++ old') ++ l) by (by rewrite Hsplit at 1; rewrite app_assoc).
  assert (Hl : (length l <= length (bg_admitted b))%nat) by (rewrite Hsplit at 1; rewrite length_app; lia).
  destruct (Nat.leb_spec MAX_NAT_PROBE_RESPONSES_PER_SECOND (length l)) as [Hlen|Hlen]; [intros; simplify_eq; split; eauto; simpl; lia|].
  destruct (Nat.leb_spec MAX_NAT_PROBE_IN_FLIGHT_SIGNATURES (bg_in_flight b)); [intros; simplify_eq; split; eauto; simpl; lia|].
  intros [= <- <-]. rewrite Hts in *. split; simpl.
  - by rewrite Hf.
  - lia.
  - exists (old ++ old'). by rewrite app_assoc.
  - rewrite length_app. simpl. lia.
  - intros i t u Ht Hu. rewrite lookup_snoc_Some in Hu. destruct Hu as [[Hlt Hu]|[Hi <-]].
    + rewrite lookup_app_l in Ht by lia. eauto.
    + assert (Hi' : (i < length (old ++ old'))%nat) by (rewrite length_app in Hi |- *; rewrite !length_app in Hi; lia).
      rewrite <- app_assoc, lookup_app_l in Ht by done. rewrite Forall_lookup in Hold. by apply Hold in Ht.
Qed.

Lemma budget_run_inv now ts k b : budget_run now ts k b -> budget_inv now ts k b.
Proof.
  induction 1 as [now|now ts k b now' ok b' _ IH Hle Ht|now ts k b _ [Hf Hm Hw Ha Hs]].
  - split; simpl; [done|lia|by exists []|lia|done].
  - by eapply try_acquire_inv.
  - split; simpl; [by rewrite Hf|lia|done|done|done].
Qed.

Lemma reflect_length sign c datagram source now b response b' :
  reflect sign c datagram source now b = (Some response, b') ->
  length datagram = NAT_PROBE_PACKET_LEN /\ length response = NAT_PROBE_PACKET_LEN.
Proof.
  unfold reflect. rewrite length_take. destruct (Nat.eqb_spec (S NAT_PROBE_PACKET_LEN `min` length datagram) NAT_PROBE_PACKET_LEN)
    as [Hl|]; [|done]. destruct (is_ipv4 source); [|done]. cbn [negb orb].
  destruct (decode_request _) as [token|] eqn:Hd; [|done].
  assert (Ht : length token = NAT_PROBE_TOKEN_LEN).
  { unfold decode_request in Hd. case_match; [done|]. simplify_eq. unfold slice.
    rewrite length_take, length_drop, length_take. probe_consts. lia. }
  destruct (encode_response sign c token source now b) as [[[x|]|] b1] eqn:He; intros; simplify_eq. split; [probe_consts; lia|].
  unfold encode_response, encode_response_begin in He.
  destruct (encode_response_fields token source (sg_signature_len c)) as [packet|] eqn:Hf; [|done].
  destruct (response_signature_preimage _ _) as [preimage|]; [|done].
  destruct (try_acquire now b) as [[] b2]; [|done]. unfold sign_response in He.
  destruct (sign preimage) as [sig|]; [|done]. destruct (validate_signature_len (length sig)) as [[]|]; [|done].
  destruct (Nat.eqb_spec (length sig) (sg_signature_len c)) as [Hs|]; [|done]. cbn [negb] in He. simplify_eq.
  destruct source as [ip port|]; [|unfold encode_response_fields in Hf; by destruct (validate_signature_len _)].
  destruct (encode_fields_ok _ _ _ _ _ Ht Hf) as (-> & _ & _ & Hn).
  rewrite copy_at_length; rewrite !length_app, length_replicate, response_fields_length by done; probe_consts; lia.
Qed.

(** : the reflector cannot be turned against others or itself.  Every
    datagram it sends is exactly as long as the one that caused it; at any time
    at most four signatures are running, and any 129 consecutive admissions, of
    all its sockets together, take more than a second: within one second at most
    128 responses are signed. *)
Theorem reflector_bounded sign c datagram source now ts k b :
  budget_run now ts k b ->
  (forall response b', reflect sign c datagram source now b = (Some response, b') -> length response = length datagram)
  /\ bg_in_flight b = k /\ (k <= MAX_NAT_PROBE_IN_FLIGHT_SIGNATURES)%nat
  /\ forall i t u, ts !! i = Some t -> ts !! (i + MAX_NAT_PROBE_RESPONSES_PER_SECOND)%nat = Some u -> t + 1000000000 <= u.
Proof.
  intros [Hf Hm _ _ Hs]%budget_run_inv. split; [|done].
  intros response b' H. destruct (reflect_length _ _ _ _ _ _ _ _ H). congruence.
Qed.

Module ProbeDemo.
(** An identity that signs with the sum of the bytes. *)
Definition demo_sign (m : list Z) : P2pResult (list Z) := Ok [foldr Z.add 0 m; 7].
Definition demo_check (m sig : list Z) : bool := bool_decide (sig = [foldr Z.add 0 m; 7]).
Definition demo_signer : P2pId := mkP2pId [1].
Definition demo_context : NatProbeSigningContext := mkSigning demo_signer 2.
Definition demo_token : list Z := [1; 2; 3; 4; 5; 6; 7; 8; 9; 10; 11; 12; 13; 14; 15; 16].
Definition demo_source : Ipv4Addr := mkV4 203 0 113 7.

Lemma probe_roundtrip_witness :
  exists response r, fst (reflect demo_sign demo_context (encode_request demo_token) (V4 demo_source 3456) 0 budget_new) = Some response
  /\ decode_response_datagram response = Some r /\ dn_observed r = V4 demo_source 3456.
Proof.
  destruct (probe_roundtrip demo_sign demo_check demo_signer demo_context demo_token demo_source 3456 0 budget_new)
    as (response & r & H1 & _ & H2 & _ & H3 & _); [done| |done|done|lia|done|eauto].
  intros m. eexists. split; [done|]. split; [done|]. by apply bool_decide_eq_true.
Defined.

(** One request was answered, and its response signed. *)
Definition demo_fields : list Z :=
  match encode_response_fields demo_token (V4 demo_source 3456) 2 with Ok p => take NAT_PROBE_SIGNED_FIELDS_LEN p | Err _ => [] end.
Definition demo_preimage : list Z :=
  match response_signature_preimage demo_signer demo_fields with Ok m => m | Err _ => [] end.
Definition demo_check_once (m sig : list Z) : bool := bool_decide (m = demo_preimage).
Definition demo_response : list Z :=
  default [] (fst (reflect demo_sign demo_context (encode_request demo_token) (V4 demo_source 3456) 0 budget_new)).

Lemma probe_response_authentic_witness :
  exists r, decode_response_datagram demo_response = Some r
  /\ (dn_token r, dn_observed r) ∈ [(demo_token, V4 demo_source 3456)].
Proof.
  assert (Hs : is_Some (decode_response_datagram demo_response)) by (vm_compute; eauto).
  destruct Hs as [r Hr]. exists r. split; [done|].
  apply (probe_response_authentic demo_signer demo_check_once 2 [(demo_token, V4 demo_source 3456)] demo_response r).
  - constructor; [|constructor]. split; [done|]. simpl. lia.
  - intros m sig H%bool_decide_eq_true_1. right. exists demo_token, (V4 demo_source 3456).
    destruct (encode_response_fields demo_token (V4 demo_source 3456) 2) as [fields|] eqn:E; [|by vm_compute in E].
    exists fields. split; [by left|]. split; [done|]. rewrite H. unfold demo_preimage, demo_fields. rewrite E.
    destruct (response_signature_preimage _ _) eqn:E2; [done|]. vm_compute in E. injection E as <-. by vm_compute in E2.
  - exact Hr.
  - vm_compute in Hr. injection Hr as <-. by vm_compute.
Defined.

Definition demo_budget : NatProbeSigningBudget := snd (try_acquire 5 budget_new).
Lemma reflector_bounded_witness : budget_run 5 [5] 1 demo_budget /\ bg_in_flight demo_budget = 1%nat.
Proof.
  assert (H : budget_run 5 [5] 1 demo_budget)
    by (apply (BR_acquire 0 [] 0 budget_new 5 true demo_budget); [constructor|lia|done]).
  split; [done|].
  by destruct (reflector_bounded demo_sign demo_context [] (V4 demo_source 3456) 5 [5] 1 demo_budget H) as (_ & ? & _).
Defined.
End ProbeDemo.
