(* ===== verification/QuicListener.v ===== *)
(** * The QUIC listener (src/p2p-frame/src/networks/quic/listener.rs)

    The parts of the listener around its sockets: which datagrams go to the QUIC
    stack, how responses to NAT probes find their waiters, the classification of
    the NAT and the endpoints predicted for a rendezvous, the schedule of UDP
    punches, the server names of connections, and the life cycle.

    Sockets, quinn and rustls are inputs: a poll of the socket is the result it
    gives, a probe of a target is its outcome, worker endpoints are the numbers
    of their workers. *)

From S2P Require Import Prelude.
From S2P Require Import Errors.
From S2P Require Import Ids.
From S2P Require Import Endpoint.
From S2P Require Import NatType.
From S2P Require Import SnProtocol.
From S2P Require Import NatProbe.
From S2P Require Import OpenTunnel.
From S2P Require Import PnServer.
From S2P Require Import SnService.
From S2P Require Import SnClient.

(** ** Datagrams *)

Definition UDP_PUNCH_PAYLOAD_MIN_LEN : nat := 5.
Definition UDP_PUNCH_PAYLOAD_MAX_LEN : nat := 30.
Definition UDP_PUNCH_MAGIC : list Z := [0; 35; 64; 36; 81; 85; 73; 67].  (* \0#@$QUIC *)
Definition MAX_AUXILIARY_DATAGRAMS_PER_POLL : nat := 4.

Fixpoint starts_with (prefix l : list Z) : bool :=
  match prefix, l with
  | [], _ => true
  | p :: prefix, x :: l => (p =? x) && starts_with prefix l
  | _ :: _, [] => false
  end.
Definition is_udp_punch_payload (packet : list Z) : bool := starts_with UDP_PUNCH_MAGIC packet.

(** The first two bytes of the destination connection id, where the packet has
    one chosen by this side. *)
Definition quic_packet_worker_index_prefix (packet : list Z) : option Z :=
  match packet with
  | [] => None
  | first :: _ =>
      dcid ← (if negb (Z.land first 0x80 =? 0) then
                if (Z.land first 0x30 =? 0) || (Z.land first 0x30 =? 0x10) then None
                else
                  dcid_len ← packet !! 5%nat;
                  if dcid_len =? 0 then None
                  else if (length packet <? 6 + Z.to_nat dcid_len)%nat then None
                       else Some (take (Z.to_nat dcid_len) (drop 6 packet))
              else Some (drop 1 packet));
      high ← dcid !! 0%nat;
      low ← dcid !! 1%nat;
      Some (Z.lor (Z.shiftl high 8) low)
  end.
Definition quic_packet_worker_index (packet : list Z) (worker_count : Z) : option Z :=
  if worker_count =? 0 then None
  else (fun i => i mod worker_count) <$> quic_packet_worker_index_prefix packet.

(** The loop over the buffers, [remaining] bytes still to copy. *)
Fixpoint copy_bufs (bufs : list (list Z)) (remaining : nat) (out : list Z) : list Z :=
  match bufs with
  | [] => out
  | buf :: bufs =>
      if (remaining =? 0)%nat then out
      else let copy_len := Nat.min remaining (length buf) in
           copy_bufs bufs (remaining - copy_len) (out ++ take copy_len buf)
  end.
Definition quic_packet_prefix (bufs : list (list Z)) (len : nat) : list Z :=
  match bufs with
  | first :: _ => if (len <=? length first)%nat then take len first else copy_bufs bufs len []
  | [] => copy_bufs bufs len []
  end.

(** [poll_recv_from_vectored]: the buffers filled, the length and the source. *)
Inductive SocketPoll := SockReady (bufs : list (list Z)) (len : nat) (source : SocketAddr) | SockErr | SockPending.
(** [Poll] of [poll_recv]; [woken]: the task has woken itself; [RecvPanic]: the
    [assert_eq] failed. *)
Inductive RecvPoll := RecvReady (packet : list Z) (source : SocketAddr) | RecvErr | RecvPending (woken : bool) | RecvPanic.

(** [polls] is what the socket answers, one after the other; when the script is
    exhausted the socket is pending.  The result has what is left of the script
    and the responses dispatched. *)
Fixpoint poll_recv (worker_id worker_count : Z) (auxiliary : nat) (polls : list SocketPoll)
    (out : list (DecodedNatProbeResponse * SocketAddr))
    : RecvPoll * list SocketPoll * list (DecodedNatProbeResponse * SocketAddr) :=
  match polls with
  | [] => (RecvPending false, [], out)
  | SockPending :: polls => (RecvPending false, polls, out)
  | SockErr :: polls => (RecvErr, polls, out)
  | SockReady bufs len source :: polls =>
      let packet := quic_packet_prefix bufs len in
      match decode_response_datagram packet with
      | Some response =>
          if (S auxiliary =? MAX_AUXILIARY_DATAGRAMS_PER_POLL)%nat
          then (RecvPending true, polls, out ++ [(response, source)])
          else poll_recv worker_id worker_count (S auxiliary) polls (out ++ [(response, source)])
      | None =>
          if is_udp_punch_payload packet then
            if (S auxiliary =? MAX_AUXILIARY_DATAGRAMS_PER_POLL)%nat then (RecvPending true, polls, out)
            else poll_recv worker_id worker_count (S auxiliary) polls out
          else match quic_packet_worker_index packet worker_count with
               | Some i => if i =? worker_id then (RecvReady packet source, polls, out) else (RecvPanic, polls, out)
               | None => (RecvReady packet source, polls, out)
               end
      end
  end.

(** ** Waiters for probe responses *)

Section waiters.
Context {Cert : Type}.

(** [owner] is the address of the registration's [Arc], which also names its
    oneshot channel. *)
Record PendingNatProbeResponse := mkPendingProbe {
  np_expected_source : SocketAddr; np_expected_signer : Cert; np_owner : nat }.
Notation NatProbeResponseWaiters := (gmap (list Z) PendingNatProbeResponse).

Definition waiters_register (token : list Z) (source : SocketAddr) (signer : Cert) (owner : nat)
    (w : NatProbeResponseWaiters) : P2pResult nat * NatProbeResponseWaiters :=
  match w !! token with
  | Some _ => (Err P2pErrorCode.AlreadyExists, w)
  | None => (Ok owner, <[token := mkPendingProbe source signer owner]> w)
  end.
(** The first lock of [dispatch]. *)
Definition dispatch_lookup (r : DecodedNatProbeResponse) (source : SocketAddr) (w : NatProbeResponseWaiters)
    : option (Cert * nat) :=
  p ← w !! dn_token r;
  if bool_decide (source = np_expected_source p) then Some (np_expected_signer p, np_owner p) else None.
(** The second, after the verification: the channel to send on. *)
Definition dispatch_take (r : DecodedNatProbeResponse) (owner : nat) (w : NatProbeResponseWaiters)
    : option nat * NatProbeResponseWaiters :=
  match w !! dn_token r with
  | Some p => if (np_owner p =? owner)%nat then (Some owner, delete (dn_token r) w) else (None, w)
  | None => (None, w)
  end.
(** [Drop for NatProbeResponseRegistration] *)
Definition registration_drop (token : list Z) (owner : nat) (w : NatProbeResponseWaiters) : NatProbeResponseWaiters :=
  match w !! token with
  | Some p => if (np_owner p =? owner)%nat then delete token w else w
  | None => w
  end.
Definition waiters_clear (w : NatProbeResponseWaiters) : NatProbeResponseWaiters := ∅.
End waiters.
Arguments PendingNatProbeResponse : clear implicits.

(** ** The listener *)

Record QuicTunnelListenerState := mkListener {
  ql_local : option Endpoint;
  ql_outer : option Endpoint;
  ql_endpoints : list Z;
  ql_server : bool;
  ql_punch_socket : option Z;
  ql_mapping_port : option Z;
  ql_reuse_address : bool;
}.
(** The listener with the atomics beside the state. *)
Record QuicTunnelListener := mkQuicListener {
  qt_state : QuicTunnelListenerState; qt_closed : bool; qt_worker_count : Z; qt_socket_binding_generation : Z }.

(** [rand::random::<u64>().max(1)] *)
Definition quic_listener_new (random : Z) : QuicTunnelListener :=
  mkQuicListener (mkListener None None [] false None None false) false 0 (Z.max random 1).

Definition set_listener_state (s : QuicTunnelListenerState) (l : QuicTunnelListener) : QuicTunnelListener :=
  mkQuicListener s (qt_closed l) (qt_worker_count l) (qt_socket_binding_generation l).

Definition ensure_worker_endpoints_available (closed endpoints_empty : bool) : P2pResult unit :=
  if closed then Err P2pErrorCode.Interrupted
  else if endpoints_empty then Err P2pErrorCode.ErrorState else Ok tt.
Definition endpoints_available (l : QuicTunnelListener) : P2pResult unit :=
  ensure_worker_endpoints_available (qt_closed l) (bool_decide (ql_endpoints (qt_state l) = [])).

Definition listener_bind (local : Endpoint) (out : option Endpoint) (mapping_port : option Z) (reuse_address : bool)
    (l : QuicTunnelListener) : QuicTunnelListener :=
  let s := qt_state l in
  set_listener_state (mkListener (Some local) out (ql_endpoints s) (ql_server s) (ql_punch_socket s) mapping_port
                        reuse_address) l.
(** The checks of [start]. *)
Definition listener_start_check (l : QuicTunnelListener) : P2pResult (Endpoint * bool) :=
  if qt_closed l then Err P2pErrorCode.ErrorState
  else if ql_server (qt_state l) then Err P2pErrorCode.AlreadyExists
  else match ql_local (qt_state l) with
       | None => Err P2pErrorCode.InvalidParam
       | Some local => Ok (local, ql_reuse_address (qt_state l))
       end.
Definition set_server (l : QuicTunnelListener) : QuicTunnelListener :=
  let s := qt_state l in
  set_listener_state (mkListener (ql_local s) (ql_outer s) (ql_endpoints s) true (ql_punch_socket s) (ql_mapping_port s)
                        (ql_reuse_address s)) l.
(** Both [close] and a [start] that gives up empty the state; the endpoints
    taken are closed. *)
Definition take_endpoints (l : QuicTunnelListener) : list Z * QuicTunnelListener :=
  let s := qt_state l in
  (ql_endpoints s,
   set_listener_state (mkListener (ql_local s) (ql_outer s) [] false None (ql_mapping_port s) (ql_reuse_address s)) l).
(** After the wait for the first endpoint, which ended with [notified] or not. *)
Definition start_ready (notified : bool) (l : QuicTunnelListener) : P2pResult unit * list Z * QuicTunnelListener :=
  if notified || negb (bool_decide (ql_endpoints (qt_state l) = [])) then (Ok tt, [], l)
  else let '(closing, l) := take_endpoints l in (Err P2pErrorCode.QuicError, closing, l).

(** A worker: [run_worker_endpoint] up to the creation of its endpoint, then
    [register_worker_endpoint], whose test precedes the lock. *)
Definition worker_begin (worker_id : Z) (l : QuicTunnelListener) : bool * QuicTunnelListener :=
  if qt_closed l then (false, l)
  else (true, mkQuicListener (qt_state l) (qt_closed l) (Z.max (qt_worker_count l) (worker_id + 1))
                (qt_socket_binding_generation l)).
Definition register_test (l : QuicTunnelListener) : bool := negb (qt_closed l).
Definition register_push (worker_id : Z) (l : QuicTunnelListener) : QuicTunnelListener :=
  let s := qt_state l in
  set_listener_state (mkListener (ql_local s) (ql_outer s) (ql_endpoints s ++ [worker_id]) (ql_server s)
                        (match ql_punch_socket s with None => Some worker_id | p => p end) (ql_mapping_port s)
                        (ql_reuse_address s)) l.
Definition register_worker_endpoint (worker_id : Z) (l : QuicTunnelListener) : bool * QuicTunnelListener :=
  if register_test l then (true, register_push worker_id l) else (false, l).

(** [close]: the endpoints closed; [None] when it was closed before. *)
Definition listener_close (l : QuicTunnelListener) : option (list Z) * QuicTunnelListener :=
  if qt_closed l then (None, l)
  else let '(closing, l) := take_endpoints (mkQuicListener (qt_state l) true (qt_worker_count l)
                                             (qt_socket_binding_generation l)) in
       (Some closing, l).

(** ** Probing and prediction *)

(** networks/network.rs *)
Record TraversalEndpointPrediction := mkPrediction {
  tp_endpoints : list Endpoint; tp_socket_binding_generation : Z; tp_valid_until : Timestamp; tp_profile : NatProfile }.

Definition validate_traversal_prediction (p : TraversalEndpointPrediction) (now : Timestamp) (l : QuicTunnelListener)
    : P2pResult unit :=
  if negb (tp_socket_binding_generation p =? qt_socket_binding_generation l) then Err P2pErrorCode.Expired
  else if tp_valid_until p <? now then Err P2pErrorCode.Expired
  else
    _ <-? endpoints_available l ;;
    match ql_punch_socket (qt_state l) with None => Err P2pErrorCode.ErrorState | Some _ => Ok tt end.

Definition probe_targets_ok (first_ip : IpAddr) : list SocketAddr -> list Endpoint -> bool :=
  fix go seen targets :=
    match targets with
    | [] => true
    | t :: targets =>
        negb (negb (bool_decide (protocol t = Quic)) || negb (is_ipv4 (addr t))
              || negb (bool_decide (ip_of (addr t) = first_ip)) || (port_of (addr t) =? 0)
              || bool_decide (addr t ∈ seen))
        && go (addr t :: seen) targets
    end.

(** What happens to one target: the listener is found closed, its token is in
    use, sending fails, the channel is closed, time runs out, or an address is
    observed. *)
Inductive ProbeOutcome := PoClosed | PoDuplicate | PoSendFailed | PoDropped | PoTimeout | PoObserved (observed : SocketAddr).

Definition probe_target (o : ProbeOutcome) : P2pResult Endpoint :=
  match o with
  | PoClosed => Err P2pErrorCode.Interrupted
  | PoDuplicate => Err P2pErrorCode.AlreadyExists
  | PoSendFailed => Err P2pErrorCode.IoError
  | PoDropped => Err P2pErrorCode.Interrupted
  | PoTimeout => Err P2pErrorCode.Timeout
  | PoObserved a => if negb (is_ipv4 a) then Err P2pErrorCode.InvalidData
                    else Ok (set_area ServerReflexive (endpoint_from Quic a))
  end.
Fixpoint probe_loop (outcome : Endpoint -> ProbeOutcome) (targets : list Endpoint) : P2pResult (list Endpoint) :=
  match targets with
  | [] => Ok []
  | t :: targets =>
      ep <-? probe_target (outcome t) ;;
      rest <-? probe_loop outcome targets ;;
      Ok (ep :: rest)
  end.

(** [closed_at_end]: the listener is found closed after the last target. *)
Definition probe_nat_profile_with_base (targets : list Endpoint) (timeout ttl : Duration) (outcome : Endpoint -> ProbeOutcome)
    (closed_at_end : bool) (observed_at : Timestamp) (l : QuicTunnelListener) : P2pResult (NatProfile * Endpoint) :=
  if (length targets <? 2)%nat || (MAX_NAT_PREDICTION_PORTS <? Z.of_nat (length targets)) || is_zero timeout || is_zero ttl
  then Err P2pErrorCode.InvalidParam
  else match targets with
       | [] => Err P2pErrorCode.InvalidParam
       | first :: _ =>
           if negb (probe_targets_ok (ip_of (addr first)) [] targets) then Err P2pErrorCode.InvalidParam
           else
             _ <-? endpoints_available l ;;
             match ql_punch_socket (qt_state l) with
             | None => Err P2pErrorCode.ErrorState
             | Some _ =>
                 observations <-? probe_loop outcome targets ;;
                 if closed_at_end then Err P2pErrorCode.Interrupted
                 else match last observations with
                      | None => Err P2pErrorCode.NotFound
                      | Some base => Ok (profile_from_observations observations observed_at ttl, base)
                      end
             end
       end.

Definition listener_probe_nat_profile (targets : list Endpoint) (timeout ttl : Duration) (outcome : Endpoint -> ProbeOutcome)
    (closed_at_end : bool) (observed_at : Timestamp) (l : QuicTunnelListener) : P2pResult NatProfile :=
  x <-? probe_nat_profile_with_base targets timeout ttl outcome closed_at_end observed_at l ;; Ok (fst x).

Definition predicted_step (base : Endpoint) (endpoints : list Endpoint) (p : Z) : list Endpoint :=
  OpenTunnel.push_unique_endpoint endpoints (set_area ServerReflexive (endpoint_from_ip Quic (ip_of (addr base)) p)).
Definition predict_traversal_endpoints (targets : list Endpoint) (timeout ttl : Duration)
    (outcome : Endpoint -> ProbeOutcome) (closed_at_end : bool) (observed_at : Timestamp) (l : QuicTunnelListener)
    : P2pResult TraversalEndpointPrediction :=
  x <-? probe_nat_profile_with_base targets timeout ttl outcome closed_at_end observed_at l ;;
  let '(prof, last_observed_ep) := x in
  endpoints <-? (match observation prof with
                 | NonSymmetricLike => Ok [last_observed_ep]
                 | SymmetricLike =>
                     match prediction_hint prof with
                     | None => Err P2pErrorCode.NotFound
                     | Some hint =>
                         let base := last_observed hint in
                         Ok (foldl (predicted_step base) [] (predicted_ports hint base MAX_NAT_PREDICTION_PORTS))
                     end
                 | ObsUnknown => Ok []
                 end) ;;
  if bool_decide (endpoints = []) then Err P2pErrorCode.NotFound
  else Ok (mkPrediction (take (Z.to_nat MAX_NAT_PREDICTION_PORTS) endpoints) (qt_socket_binding_generation l)
             (valid_until prof) prof).

(** ** Punching *)

Definition UDP_PUNCH_INTERVAL : Duration := from_millis 50.
Definition UDP_PUNCH_ACTIVE_START_OFFSET : Duration := from_millis 250.
Definition UDP_PUNCH_REVERSE_START_OFFSET : Duration := 0.
Definition UDP_PUNCH_EARLY_ERROR_WINDOW : Duration := from_secs 1.
(** [Duration::MAX]; [checked_add], [checked_mul] and so on. *)
Definition DURATION_MAX : Duration := u64_max * 1000000000 + 999999999.
Definition checked_duration (d : Z) : option Duration := if (0 <=? d) && (d <=? DURATION_MAX) then Some d else None.

Definition udp_punch_enabled_for_endpoint (test_real_socket_matrix : bool) (remote : Endpoint) : bool :=
  bool_decide (protocol remote = Quic) && rendezvous_eligible_area test_real_socket_matrix remote
  && negb (port_of (addr remote) =? 0).

(** [random_len] is drawn from the range of lengths, [random] are thirty bytes. *)
Definition udp_punch_payload (random_len : nat) (random : list Z) : list Z :=
  take random_len (UDP_PUNCH_MAGIC ++ drop (length UDP_PUNCH_MAGIC) random).

Definition udp_punch_start_offset (i : TunnelConnectIntent) : Duration :=
  if in_is_reverse i then UDP_PUNCH_REVERSE_START_OFFSET else UDP_PUNCH_ACTIVE_START_OFFSET.

Definition udp_punch_next_offset (current_offset elapsed max_duration : Duration) : option Duration :=
  regular_next ← checked_duration (current_offset + UDP_PUNCH_INTERVAL);
  next_offset ←
    (if elapsed <? regular_next then Some regular_next
     else
       earliest_next ← checked_duration (elapsed + UDP_PUNCH_INTERVAL);
       overdue ← checked_duration (earliest_next - regular_next);
       let intervals_to_skip := 1 + (overdue - 1) / UDP_PUNCH_INTERVAL in
       if u32_max <? intervals_to_skip then None
       else
         skip ← checked_duration (UDP_PUNCH_INTERVAL * intervals_to_skip);
         checked_duration (regular_next + skip));
  if next_offset <=? max_duration then Some next_offset else None.

Definition udp_punch_burst_window (i : TunnelConnectIntent) : Duration := UDP_PUNCH_EARLY_ERROR_WINDOW.

(** The loop of [udp_punch_offsets_for_deadline], [fuel] turns of it. *)
Fixpoint punch_offsets (fuel : nat) (offset deadline : Duration) : list Duration :=
  match fuel with
  | O => []
  | S fuel =>
      offset :: match checked_duration (offset + UDP_PUNCH_INTERVAL) with
                | Some next => if deadline <? next then [] else punch_offsets fuel next deadline
                | None => []
                end
  end.
Definition udp_punch_offsets_for_deadline (i : TunnelConnectIntent) (max_duration : Duration) : list Duration :=
  let start := udp_punch_start_offset i in
  if max_duration <? start then []
  else punch_offsets (S (Z.to_nat ((max_duration - start) / UDP_PUNCH_INTERVAL))) start max_duration.

(** A turn of the burst: the time elapsed at its top, after the wait and after
    the sending; [pt_stopped]: the listener was closed meanwhile. *)
Record PunchTurn := mkTurn { pt_top : Duration; pt_stopped : bool; pt_woken : Duration; pt_sent : Duration }.

(** The times of the packets sent, and whether the burst has ended. *)
Fixpoint punch_burst (max_duration next_offset : Duration) (turns : list PunchTurn) : list Duration * bool :=
  match turns with
  | [] => ([], false)
  | t :: turns =>
      if max_duration <? pt_top t then ([], true)
      else if pt_stopped t then ([], true)
      else if max_duration <? pt_woken t then ([], true)
      else match udp_punch_next_offset next_offset (pt_sent t) max_duration with
           | None => ([pt_woken t], true)
           | Some offset => let '(sent, ended) := punch_burst max_duration offset turns in (pt_woken t :: sent, ended)
           end
  end.
Definition run_udp_punch_burst (test_real_socket_matrix : bool) (remote : Endpoint) (i : TunnelConnectIntent)
    (max_duration : Duration) (turns : list PunchTurn) (l : QuicTunnelListener) : list Duration * bool :=
  if negb (udp_punch_enabled_for_endpoint test_real_socket_matrix remote) then ([], true)
  else if max_duration <? udp_punch_start_offset i then ([], true)
  else match ql_punch_socket (qt_state l) with
       | None => ([], true)
       | Some _ => punch_burst max_duration (udp_punch_start_offset i) turns
       end.

(** ** Server names *)

Definition P2P_PREFIX : list Z := [112; 50; 112; 46].  (* p2p. *)
Definition COM_SUFFIX : list Z := [46; 99; 111; 109].  (* .com *)
Definition ends_with (suffix l : list Z) : bool := starts_with (rev suffix) (rev l).
(** [trim_start_matches] removes the prefix as often as it occurs; each removal
    shortens the name. *)
Fixpoint trim_start (fuel : nat) (prefix l : list Z) : list Z :=
  match fuel with
  | O => l
  | S fuel => if starts_with prefix l then trim_start fuel prefix (drop (length prefix) l) else l
  end.
Definition trim_start_matches (prefix l : list Z) : list Z := trim_start (length l) prefix l.
Definition trim_end_matches (suffix l : list Z) : list Z := rev (trim_start_matches (rev suffix) (rev l)).

(** [valid]: rustls accepts the text as a server name. *)
Definition validate_server_name (valid : list Z -> bool) (name : list Z) : list Z :=
  if valid name then name else P2P_PREFIX ++ name ++ COM_SUFFIX.
Definition parse_server_name (name : list Z) : list Z :=
  if starts_with P2P_PREFIX name && ends_with COM_SUFFIX name
  then trim_end_matches COM_SUFFIX (trim_start_matches P2P_PREFIX name) else name.

(** ** Every datagram goes to one place *)

Lemma copy_bufs_spec bufs n out : copy_bufs bufs n out = out ++ take n (concat bufs).
Proof.
  revert n out. induction bufs as [|b bufs IH]; intros n out; simpl; [by rewrite take_nil, app_nil_r|].
  destruct (Nat.eqb_spec n 0) as [->|]; [by rewrite app_nil_r|]. rewrite IH, take_app, <- app_assoc. do 2 f_equal.
  - destruct (Nat.le_ge_cases n (length b)); [by rewrite Nat.min_l|].
    by rewrite Nat.min_r, firstn_all, take_ge by done.
  - f_equal. lia.
Qed.

(** The packet is the first [len] bytes of the buffers. *)
Lemma quic_packet_prefix_spec bufs len : quic_packet_prefix bufs len = take len (concat bufs).
Proof.
  unfold quic_packet_prefix. destruct bufs as [|b bufs]; [by rewrite copy_bufs_spec|].
  destruct (Nat.leb_spec len (length b)); [|by rewrite copy_bufs_spec]. simpl. by rewrite take_app_le.
Qed.

(** Where a datagram belongs. *)
Definition probe_of (p : SocketPoll) : option (DecodedNatProbeResponse * SocketAddr) :=
  match p with
  | SockReady bufs len source => (fun r => (r, source)) <$> decode_response_datagram (take len (concat bufs))
  | _ => None
  end.
Definition quic_of (p : SocketPoll) : option (list Z * SocketAddr) :=
  match p with
  | SockReady bufs len source =>
      let packet := take len (concat bufs) in
      match decode_response_datagram packet with
      | Some _ => None
      | None => if is_udp_punch_payload packet then None else Some (packet, source)
      end
  | _ => None
  end.
Definition auxiliary_poll (p : SocketPoll) : Prop :=
  match p with SockReady _ _ _ => quic_of p = None | _ => False end.

(** What ended a poll after the auxiliary datagrams [pre]. *)
Definition poll_ended (w c : Z) (k : nat) (pre polls : list SocketPoll) (res : RecvPoll) (rest : list SocketPoll) : Prop :=
  match res with
  | RecvReady packet source => exists p, polls = pre ++ p :: rest /\ quic_of p = Some (packet, source) /\ probe_of p = None
  | RecvErr => polls = pre ++ SockErr :: rest
  | RecvPending true => polls = pre ++ rest /\ (k + length pre = MAX_AUXILIARY_DATAGRAMS_PER_POLL)%nat
  | RecvPending false => polls = pre /\ rest = [] \/ polls = pre ++ SockPending :: rest
  | RecvPanic => exists p packet source i, polls = pre ++ p :: rest /\ quic_of p = Some (packet, source) /\ probe_of p = None
                 /\ quic_packet_worker_index packet c = Some i /\ i <> w
  end.

Lemma poll_ended_cons w c k p pre polls res rest :
  poll_ended w c (S k) pre polls res rest -> poll_ended w c k (p :: pre) (p :: polls) res rest.
Proof.
  unfold poll_ended. destruct res as [pk src| |[]|]; simpl app.
  - intros (x & -> & ?). by exists x.
  - by intros ->.
  - intros [-> ?]. split; [done|simpl; lia].
  - intros [[-> ->] | ->]; [by left|by right].
  - intros (x & ? & ? & ? & -> & ?). by eexists _, _, _, _.
Qed.

Lemma poll_recv_spec w c k polls out res rest out' :
  (k < MAX_AUXILIARY_DATAGRAMS_PER_POLL)%nat -> poll_recv w c k polls out = (res, rest, out') ->
  exists pre, Forall auxiliary_poll pre /\ out' = out ++ omap probe_of pre
  /\ (k + length pre <= MAX_AUXILIARY_DATAGRAMS_PER_POLL)%nat /\ poll_ended w c k pre polls res rest.
Proof.
  revert k out. induction polls as [|p polls IH]; intros k out Hk H; cbn [poll_recv] in H.
  { simplify_eq. exists []. rewrite app_nil_r. split_and!; [done|done|simpl; lia|by left]. }
  assert (Hnil : out' = out -> poll_ended w c k [] (p :: polls) res rest -> exists pre, Forall auxiliary_poll pre
    /\ out' = out ++ omap probe_of pre /\ (k + length pre <= MAX_AUXILIARY_DATAGRAMS_PER_POLL)%nat
    /\ poll_ended w c k pre (p :: polls) res rest).
  { intros -> He. exists []. rewrite app_nil_r. split_and!; [done|done|simpl; lia|done]. }
  destruct p as [bufs len source| |]; [|simplify_eq; by apply Hnil|simplify_eq; apply Hnil; [done|by right]].
  rewrite quic_packet_prefix_spec in H. set (packet := take len (concat bufs)) in *.
  set (p := SockReady bufs len source) in *.
  (* An auxiliary datagram, the fourth or an earlier one. *)
  assert (Haux : forall out1, auxiliary_poll p -> out1 = out ++ option_list (probe_of p) ->
    (if (S k =? MAX_AUXILIARY_DATAGRAMS_PER_POLL)%nat then (RecvPending true, polls, out1)
     else poll_recv w c (S k) polls out1) = (res, rest, out') ->
    exists pre, Forall auxiliary_poll pre /\ out' = out ++ omap probe_of pre
    /\ (k + length pre <= MAX_AUXILIARY_DATAGRAMS_PER_POLL)%nat /\ poll_ended w c k pre (p :: polls) res rest).
  { intros out1 Ha -> H1. destruct (Nat.eqb_spec (S k) MAX_AUXILIARY_DATAGRAMS_PER_POLL) as [Hk4|Hk4].
    - simplify_eq. exists [p]. split_and!; [by repeat constructor| |simpl; lia|split; [done|simpl; lia]].
      cbn [omap list_omap]. by destruct (probe_of p).
    - apply IH in H1 as (pre & HF & -> & Hl & He); [|lia]. exists (p :: pre).
      split_and!; [by constructor| |simpl; lia|by apply poll_ended_cons].
      rewrite <- app_assoc. cbn [omap list_omap]. by destruct (probe_of p). }
  assert (Hpr : probe_of p = (fun r => (r, source)) <$> decode_response_datagram packet) by done.
  destruct (decode_response_datagram packet) as [r|] eqn:Hd.
  { apply (Haux (out ++ [(r, source)])); [simpl; fold packet; by rewrite Hd|by rewrite Hpr|done]. }
  destruct (is_udp_punch_payload packet) eqn:Hpu.
  { apply (Haux out); [simpl; fold packet; by rewrite Hd, Hpu|by rewrite Hpr, app_nil_r|done]. }
  assert (Hq : quic_of p = Some (packet, source)) by (simpl; fold packet; by rewrite Hd, Hpu).
  destruct (quic_packet_worker_index packet c) as [i|] eqn:Hi; [destruct (Z.eqb_spec i w)|]; simplify_eq;
    (apply Hnil; [done|]); simpl; eauto 12.
Qed.

(** Polls until the script is exhausted: the packets handed to the QUIC stack
    and the probe responses dispatched. *)
Inductive recv_run (w c : Z) : list SocketPoll -> list (list Z * SocketAddr) -> list (DecodedNatProbeResponse * SocketAddr) -> Prop :=
| RR_done : recv_run w c [] [] []
| RR_poll polls res rest out delivered dispatched :
    polls <> [] -> poll_recv w c 0 polls [] = (res, rest, out) -> res <> RecvPanic -> recv_run w c rest delivered dispatched ->
    recv_run w c polls (match res with RecvReady packet source => [(packet, source)] | _ => [] end ++ delivered)
      (out ++ dispatched).

Lemma omap_length_le {A B} (f : A -> option B) l : (length (omap f l) <= length l)%nat.
Proof. induction l as [|x l IH]; [done|]. cbn [omap list_omap]. destruct (f x); simpl; lia. Qed.

Lemma aux_no_quic pre : Forall auxiliary_poll pre -> omap quic_of pre = [].
Proof.
  induction 1 as [|p pre Hp HF IH]; [done|]. assert (E : quic_of p = None) by (destruct p; [exact Hp|done|done]).
  cbn [omap list_omap]. rewrite E. exact IH.
Qed.

(** : the socket of the listener sorts datagrams without losing any.
    However the polls of the QUIC stack cut the sequence of datagrams, the stack
    is handed exactly those that are neither a well-formed probe response nor a
    punch, in the order they came, and exactly the probe responses are
    dispatched, in order; a single poll reads at most four auxiliary datagrams,
    and it leaves the task asleep only when the socket itself was pending. *)
Theorem datagrams_sorted w c polls delivered dispatched :
  recv_run w c polls delivered dispatched ->
  delivered = omap quic_of polls /\ dispatched = omap probe_of polls
  /\ forall res rest out, poll_recv w c 0 polls [] = (res, rest, out) ->
       (length out <= MAX_AUXILIARY_DATAGRAMS_PER_POLL)%nat
       /\ (res = RecvPending false -> rest = [] \/ exists pre, polls = pre ++ SockPending :: rest).
Proof.
  intros H. split; [|split].
  1,2: induction H as [|polls res rest out delivered dispatched _ Hp Hnp _ IH]; [done|];
    apply poll_recv_spec in Hp as (pre & HF & -> & _ & He); [|unfold MAX_AUXILIARY_DATAGRAMS_PER_POLL; lia];
    rewrite IH; unfold poll_ended in He; destruct res as [pk src| |[]|]; [| | | |done].
  - destruct He as (x & -> & Hq & _). rewrite omap_app, (aux_no_quic pre HF). simpl. by rewrite Hq.
  - rewrite He, omap_app, (aux_no_quic pre HF). done.
  - destruct He as [-> _]. by rewrite omap_app, (aux_no_quic pre HF).
  - destruct He as [[-> ->] | ->]; rewrite ?omap_app, (aux_no_quic pre HF); done.
  - destruct He as (x & -> & _ & Hq). rewrite omap_app. simpl. by rewrite Hq.
  - by rewrite He, omap_app.
  - destruct He as [-> _]. by rewrite omap_app.
  - destruct He as [[-> ->] | ->]; rewrite ?omap_app; simpl; by rewrite ?app_nil_r.
  - intros res rest out Hp. apply poll_recv_spec in Hp as (pre & HF & -> & Hl & He);
      [|unfold MAX_AUXILIARY_DATAGRAMS_PER_POLL; lia]. split.
    + simpl in *. etrans; [apply omap_length_le|lia].
    + intros ->. simpl in He. destruct He as [[_ ->]|]; [by left|right; eauto].
Qed.

(** While the workers start, the divisor is the number seen so far: a packet
    for worker 0 of four fails the assertion when three have started. *)
Lemma growing_count_panics source :
  quic_packet_worker_index [0x40; 0; 4] 4 = Some 0
  /\ poll_recv 0 3 0 [SockReady [[0x40; 0; 4]] 3 source] [] = (RecvPanic, [], []).
Proof. by split. Qed.

(** ** Waiters

    Registrations, dispatches split at their verification, drops and [clear] in
    any order.  [wt_regs] are the registrations made, [wt_checked] the responses
    that passed the verification, with the source of their datagram, [wt_sent] what was
    sent on the channels. *)

Section waiting.
Context {Cert : Type} (get_id : Cert -> P2pId) (check : Cert -> list Z -> list Z -> bool).

Record waiting := mkWaiting {
  wt_pending : gmap (list Z) (PendingNatProbeResponse Cert);
  wt_next : nat;
  wt_regs : list (nat * (list Z * (SocketAddr * Cert)));
  wt_checked : list (DecodedNatProbeResponse * SocketAddr * nat);
  wt_sent : list (nat * SocketAddr);
}.

Inductive wait_step : waiting -> waiting -> Prop :=
| WS_register token source signer o w :
    fst (waiters_register token source signer (wt_next o) (wt_pending o)) = Ok (wt_next o) ->
    w = mkWaiting (snd (waiters_register token source signer (wt_next o) (wt_pending o))) (S (wt_next o))
          ((wt_next o, (token, (source, signer))) :: wt_regs o) (wt_checked o) (wt_sent o) ->
    wait_step o w
| WS_lookup r source signer owner o :
    dispatch_lookup r source (wt_pending o) = Some (signer, owner) ->
    response_verify (get_id signer) (check signer) r = true ->
    wait_step o (mkWaiting (wt_pending o) (wt_next o) (wt_regs o) ((r, source, owner) :: wt_checked o) (wt_sent o))
| WS_take r source owner sent pending o :
    (r, source, owner) ∈ wt_checked o -> dispatch_take r owner (wt_pending o) = (sent, pending) ->
    wait_step o (mkWaiting pending (wt_next o) (wt_regs o) (wt_checked o)
      (match sent with Some c => (c, dn_observed r) :: wt_sent o | None => wt_sent o end))
| WS_drop token owner o :
    wait_step o (mkWaiting (registration_drop token owner (wt_pending o)) (wt_next o) (wt_regs o) (wt_checked o) (wt_sent o))
| WS_clear o : wait_step o (mkWaiting (waiters_clear (wt_pending o)) (wt_next o) (wt_regs o) (wt_checked o) (wt_sent o)).

Definition waiting_new : waiting := mkWaiting ∅ 0 [] [] [].

(** The response answers the registration. *)
Definition answers (r : DecodedNatProbeResponse) (source : SocketAddr) (owner : nat) (o : waiting) : Prop :=
  exists signer, (owner, (dn_token r, (source, signer))) ∈ wt_regs o
  /\ response_verify (get_id signer) (check signer) r = true.

Record waiting_inv (o : waiting) : Prop := {
  wi_pending : map_Forall (fun token p =>
    (np_owner p, (token, (np_expected_source p, np_expected_signer p))) ∈ wt_regs o /\ (np_owner p < wt_next o)%nat
    /\ np_owner p ∉ fst <$> wt_sent o) (wt_pending o);
  wi_owner : forall k1 k2 p1 p2, wt_pending o !! k1 = Some p1 -> wt_pending o !! k2 = Some p2 ->
    np_owner p1 = np_owner p2 -> k1 = k2;
  wi_regs : NoDup (fst <$> wt_regs o);
  wi_next : Forall (fun x => (fst x < wt_next o)%nat) (wt_regs o) /\ Forall (fun x => (fst x < wt_next o)%nat) (wt_sent o);
  wi_checked : forall r source owner, (r, source, owner) ∈ wt_checked o -> answers r source owner o;
  wi_sent_once : NoDup (fst <$> wt_sent o);
  wi_sent : forall owner observed, (owner, observed) ∈ wt_sent o ->
    exists r source, (r, source, owner) ∈ wt_checked o /\ observed = dn_observed r;
}.

Lemma answers_mono r source owner o o' : wt_regs o ⊆ wt_regs o' -> answers r source owner o -> answers r source owner o'.
Proof. intros Hs (signer & Hin & Hv). exists signer. eauto. Qed.

Lemma waiting_shrink o pending :
  pending ⊆ wt_pending o -> waiting_inv o ->
  waiting_inv (mkWaiting pending (wt_next o) (wt_regs o) (wt_checked o) (wt_sent o)).
Proof.
  intros Hs [Hp Ho Hr Hn Hc Hso Hse]. split; try done; simpl.
  - intros k p Hk. by apply (Hp k p), (lookup_weaken _ _ _ _ Hk).
  - intros k1 k2 p1 p2 H1 H2. eapply Ho; by eapply lookup_weaken.
Qed.

Lemma wait_step_inv o o' : wait_step o o' -> waiting_inv o -> waiting_inv o'.
Proof.
  intros H Hi. destruct H as [token source signer o w Hreg ->|r source signer owner o Hl Hv|r source owner sent pending o Hin Ht
    |token owner o|o].
  - unfold waiters_register in *. destruct (wt_pending o !! token) eqn:E; [done|]. simpl in *.
    destruct Hi as [Hp Ho Hr [Hn1 Hn2] Hc Hso Hse]. split; simpl.
    + apply map_Forall_insert_2; simpl.
      * split; [by left|]. split; [lia|]. intros (x & Hx & Hin)%list_elem_of_fmap. rewrite Forall_forall in Hn2.
        apply Hn2 in Hin. lia.
      * eapply map_Forall_impl; [exact Hp|]. intros k p (? & ? & ?). split; [by right|]. split; [lia|done].
    + intros k1 k2 p1 p2. rewrite !lookup_insert_Some. intros [[<- <-]|[? H1]] [[<- <-]|[? H2]] He; simpl in *; try done.
      * apply Hp in H2. lia.
      * apply Hp in H1. lia.
      * by eapply Ho.
    + constructor; [|done]. intros (x & Hx & Hin)%list_elem_of_fmap. rewrite Forall_forall in Hn1. apply Hn1 in Hin. lia.
    + split; [constructor; [simpl; lia|]|]; [eapply Forall_impl; [exact Hn1|]|eapply Forall_impl; [exact Hn2|]]; simpl; lia.
    + intros r src owner Hin. eapply answers_mono, Hc, Hin. simpl. set_solver.
    + done.
    + done.
  - destruct Hi as [Hp Ho Hr Hn Hc Hso Hse]. split; try done; simpl.
    2:{ intros ow ob (r' & s' & ? & ?)%Hse. exists r', s'. split; [by right|done]. }
    intros r0 s0 o0 [[= -> -> ->]|Hin]%elem_of_cons; [|eapply answers_mono, Hc, Hin; done].
    unfold dispatch_lookup in Hl. apply bind_Some in Hl as (p & Hk & Hl). case_bool_decide; [|done]. simplify_eq.
    exists (np_expected_signer p). split; [by apply (Hp _ _ Hk)|done].
  - unfold dispatch_take in Ht. destruct (wt_pending o !! dn_token r) as [p|] eqn:Hk; [|simplify_eq; by destruct o].
    destruct (Nat.eqb_spec (np_owner p) owner) as [<-|]; simplify_eq; [|by destruct o].
    pose proof (waiting_shrink o _ (delete_subseteq (wt_pending o) (dn_token r)) Hi) as [Hp Ho Hr Hn Hc Hso Hse].
    destruct (wi_pending _ Hi _ _ Hk) as (Hreg & Hlt & Hns). simpl in *. split; try done; simpl.
    + intros k q Hq. destruct (Hp k q Hq) as (? & ? & Hn'). split; [done|]. split; [done|].
      intros [He|]%elem_of_cons; [|done]. apply lookup_delete_Some in Hq as [Hne Hq]. apply Hne.
      symmetry. by eapply (wi_owner _ Hi).
    + split; [apply Hn|]. constructor; [simpl; lia|apply Hn].
    + by constructor.
    + intros ow ob [[= -> ->]|Hs]%elem_of_cons; [by exists r, source|by apply Hse].
  - apply waiting_shrink; [|done]. unfold registration_drop. repeat case_match; try done. apply delete_subseteq.
  - apply waiting_shrink; [|done]. apply map_empty_subseteq.
Qed.

(** : a probe response reaches the waiter it answers, once.  Whatever the
    order of registrations, dispatches, timeouts and closing, an address sent on
    the channel of a registration was taken from a response with the token of
    that registration, that came from the address it expects and that its own
    signer had signed; and no channel is sent on twice. *)
Theorem probe_responses_routed o :
  rtc wait_step waiting_new o ->
  NoDup (fst <$> wt_sent o) /\ NoDup (fst <$> wt_regs o)
  /\ forall owner observed, (owner, observed) ∈ wt_sent o ->
       exists r source, (r, source, owner) ∈ wt_checked o /\ answers r source owner o /\ observed = dn_observed r.
Proof.
  intros Hr. assert (Hi : waiting_inv o).
  { eapply (rtc_preserves wait_step waiting_inv); [|exact Hr|].
    - intros u v Huv Hu. by eapply wait_step_inv.
    - split; simpl; [apply map_Forall_empty|done|constructor|by split; constructor|by intros ??? ?%elem_of_nil|constructor|by intros ?? ?%elem_of_nil]. }
  split; [apply wi_sent_once, Hi|]. split; [apply wi_regs, Hi|]. intros owner observed Hin.
  apply (wi_sent _ Hi) in Hin as (r & source & Hin & ->). exists r, source. split; [done|]. split; [|done].
  by apply (wi_checked _ Hi).
Qed.
End waiting.

(** ** Predictions *)

(** An address the NAT of a host may show: public, with a port. *)
Definition public_addr (a : SocketAddr) : Prop := is_non_lan_ipv4_addr a = true /\ 1 <= port_of a <= u16_max.
(** An endpoint that may stand in a rendezvous answer. *)
Definition punchable (ep : Endpoint) : Prop := protocol ep = Quic /\ area ep = ServerReflexive /\ public_addr (addr ep).

Lemma punchable_usable test ep : punchable ep -> protocol ep = Quic /\ base_usable test PunchOnly ep = true.
Proof.
  intros (Hp & Ha & Hn & Hport). split; [done|]. unfold base_usable, rendezvous_eligible. cbn [reverse_connects].
  unfold rendezvous_eligible_area, rendezvous_ipv4_eligible. rewrite Hn, Ha, bool_decide_true by done. cbn [negb].
  destruct (Z.eqb_spec (port ep) 0); [lia|done].
Qed.

Lemma probe_loop_spec outcome targets obs :
  (forall t a, t ∈ targets -> outcome t = PoObserved a -> public_addr a) ->
  probe_loop outcome targets = Ok obs -> length obs = length targets /\ Forall punchable obs.
Proof.
  revert obs. induction targets as [|t targets IH]; intros obs Hpub H; simpl in H; [by simplify_eq|].
  destruct (probe_target (outcome t)) as [ep|] eqn:Ht; [|done].
  destruct (probe_loop outcome targets) as [rest|] eqn:Hl; [|done]. simplify_eq.
  destruct (IH rest) as [IHl IHf]; [|done|]. { intros u a Hu. apply Hpub. by right. }
  split; [simpl; by rewrite IHl|]. constructor; [|done]. unfold probe_target in Ht.
  destruct (outcome t) as [| | | | |a] eqn:Ho; try done. destruct (is_ipv4 a); [|done]. injection Ht as <-.
  split; [done|]. split; [done|]. simpl. apply (Hpub t); [by left|done].
Qed.

Lemma public_other_port a p : public_addr a -> 1 <= p <= u16_max ->
  public_addr (addr (endpoint_from_ip Quic (ip_of a) p)).
Proof. intros [Hn _] Hp. destruct a as [ip q|]; [|done]. by split. Qed.

Lemma predicted_list base ports acc :
  public_addr (addr base) -> Forall port_ok ports -> Forall punchable acc -> distinct_eps acc ->
  Forall punchable (foldl (predicted_step base) acc ports) /\ distinct_eps (foldl (predicted_step base) acc ports).
Proof.
  intros Hb. revert acc. induction ports as [|p ports IH]; intros acc Hp Ha Hd; [done|]. apply Forall_cons in Hp as [Hp1 Hp].
  simpl. apply IH; [done| |by apply push_unique_distinct].
  apply push_unique_Forall; [done|]. split; [done|]. split; [done|]. by apply public_other_port.
Qed.

Lemma punchable_ports obs : Forall punchable obs -> Forall (fun ep => is_u16 (port ep)) obs.
Proof. intros H. eapply Forall_impl; [exact H|]. intros ep (_ & _ & _ & ?). unfold is_u16, u16_max in *. lia. Qed.

Lemma hint_fields obs h :
  Forall punchable obs -> hint_from_observations obs = Some h ->
  last_observed h ∈ obs /\ i32_min <= port_delta h <= i32_max.
Proof.
  intros Hf H. destruct obs as [|first [|second obs]]; [done..|]. cbn [hint_from_observations] in H.
  repeat (case_match; [done|]). simplify_eq. cbn [last_observed port_delta].
  split; [apply (last_elem_of first (second :: obs))|].
  apply punchable_ports in Hf. do 2 (apply Forall_cons in Hf as [? Hf]). unfold is_u16, u16_max, i32_min, i32_max in *. lia.
Qed.

Lemma with_base_inv targets timeout ttl outcome closed at_ l prof base :
  probe_nat_profile_with_base targets timeout ttl outcome closed at_ l = Ok (prof, base) ->
  exists obs, probe_loop outcome targets = Ok obs /\ prof = profile_from_observations obs at_ ttl /\ last obs = Some base
  /\ (2 <= length targets)%nat /\ Z.of_nat (length targets) <= MAX_NAT_PREDICTION_PORTS
  /\ endpoints_available l = Ok tt /\ is_Some (ql_punch_socket (qt_state l)).
Proof.
  unfold probe_nat_profile_with_base. destruct (_ || _ || _ || _) eqn:Hc; [done|]. intros H.
  repeat (apply orb_false_iff in Hc as [Hc ?]). apply Nat.ltb_ge in Hc. bool_to_prop.
  destruct targets as [|first targets]; [done|]. case_match; [done|].
  destruct (endpoints_available l) as [[]|]; [|done]. destruct (ql_punch_socket (qt_state l)); [|done].
  destruct (probe_loop outcome (first :: targets)) as [obs|]; [|done]. destruct closed; [done|].
  destruct (last obs) as [b|] eqn:Hl; [|done]. simplify_eq. exists obs. eauto 10.
Qed.

Lemma predicted_endpoints_ok outcome targets obs at_ ttl endpoints :
  probe_loop outcome targets = Ok obs -> (forall t a, t ∈ targets -> outcome t = PoObserved a -> public_addr a) ->
  Z.of_nat (length targets) <= MAX_NAT_PREDICTION_PORTS -> 
  (forall base, last obs = Some base -> let prof := profile_from_observations obs at_ ttl in
   (match observation prof with
    | NonSymmetricLike => Ok [base]
    | SymmetricLike =>
        match prediction_hint prof with
        | None => Err P2pErrorCode.NotFound
        | Some hint => Ok (foldl (predicted_step (last_observed hint)) []
                             (predicted_ports hint (last_observed hint) MAX_NAT_PREDICTION_PORTS))
        end
    | ObsUnknown => Ok []
    end) = Ok endpoints -> Forall punchable endpoints /\ distinct_eps endpoints).
Proof.
  intros Ho Hpub Hlen base Hl. cbn zeta. apply probe_loop_spec in Ho as [Hn Hf]; [|done].
  destruct (observation _) eqn:Hobs; [intros [= <-]; by split; constructor| |].
  - intros [= <-]. split; [|apply NoDup_singleton]. constructor; [|constructor].
    rewrite Forall_forall in Hf. by apply Hf, last_Some_elem_of.
  - destruct (prediction_hint _) as [hint|] eqn:Hh; [|done]. intros [= <-].
    assert (Hhint : hint_from_observations obs = Some hint).
    { destruct obs as [|first obs]; [done|]. cbn [profile_from_observations] in Hobs, Hh.
      repeat case_match; simplify_eq; try done. }
    destruct (hint_fields obs hint Hf Hhint) as [Hin Hdelta]. pose proof Hf as Hf'. rewrite Forall_forall in Hf'.
    destruct (Hf' _ Hin) as (_ & _ & Hbase).
    apply predicted_list; [done| |constructor|constructor].
    destruct (predicted_ports_spec hint (last_observed hint) MAX_NAT_PREDICTION_PORTS) as (k & _ & _ & _ & Hok & _).
    + apply (hint_from_observations_usable obs); [unfold MAX_NAT_PREDICTION_PORTS, u16_max in *; lia| |done| |done].
      * by apply punchable_ports.
      * by apply (hint_from_observations_ipv4 obs).
    + done.
    + destruct Hbase as [_ ?]. unfold is_u16, u16_max in *. lia.
    + done.
    + done.
Qed.

Lemma punchable_validated test probe eps :
  Forall punchable eps -> distinct_eps eps -> eps <> [] -> (length eps <= MAX_SN_TUNNEL_RENDEZVOUS_ENDPOINTS)%nat ->
  validate_rendezvous_endpoints test probe eps PunchOnly = Ok tt.
Proof.
  intros Hf Hd Hne Hl. unfold validate_rendezvous_endpoints.
  destruct (Nat.ltb_spec MAX_SN_TUNNEL_RENDEZVOUS_ENDPOINTS (length eps)); [lia|]. rewrite bool_decide_false by done.
  cbn [requires_endpoints punches negb Bool.eqb andb]. destruct eps as [|e eps]; [done|].
  change (protocol <$> head (e :: eps)) with (Some (protocol e)).
  pose proof Hf as [(Hp & _) _]%Forall_cons. rewrite Hp, bool_decide_true by done. cbn [negb].
  apply (validate_loop_ok _ _ _ _ []); [by left| |done]. eapply Forall_impl; [exact Hf|]. intros ep. apply punchable_usable.
Qed.

(** C18: : a prediction serves the rendezvous it was made for.  When the NAT of
    a host shows public addresses, the endpoints a listener predicts are between
    one and eight distinct punchable QUIC endpoints; as long as they are valid
    and the listener is open, the listener vouches for them, they pass the check
    the client makes before it answers a rendezvous notification with them, and
    the answer passes the checks of the SN and of the initiator. *)
Theorem prediction_serves_rendezvous test probe targets timeout ttl outcome closed at_ l pr seq now :
  (forall t a, t ∈ targets -> outcome t = PoObserved a -> public_addr a) ->
  1 <= qt_socket_binding_generation l ->
  predict_traversal_endpoints targets timeout ttl outcome closed at_ l = Ok pr -> now <= tp_valid_until pr ->
  tp_endpoints pr <> [] /\ (length (tp_endpoints pr) <= 8)%nat /\ distinct_eps (tp_endpoints pr)
  /\ Forall punchable (tp_endpoints pr)
  /\ validate_traversal_prediction pr now l = Ok tt
  /\ ack_fits true now (mkAck (tp_endpoints pr) (tp_socket_binding_generation pr) (tp_valid_until pr)) = true
  /\ resp_validate test probe (resp_success seq (tp_endpoints pr)) seq true = Ok tt.
Proof.
  intros Hpub Hgen H Hnow. unfold predict_traversal_endpoints in H.
  destruct (probe_nat_profile_with_base _ _ _ _ _ _ _) as [[prof base]|] eqn:Hb; [|done].
  apply with_base_inv in Hb as (obs & Ho & -> & Hl & Hn2 & Hn8 & Hav & Hps).
  match type of H with context [match ?m with Ok _ => _ | Err _ => _ end] => destruct m as [endpoints|] eqn:He end; [|done].
  case_bool_decide as Hne; [done|]. simplify_eq. cbn [tp_endpoints tp_valid_until tp_socket_binding_generation] in *.
  destruct (predicted_endpoints_ok outcome targets obs at_ ttl endpoints Ho Hpub Hn8 base Hl He) as [Hf Hd].
  set (eps := take (Z.to_nat MAX_NAT_PREDICTION_PORTS) endpoints).
  assert (Hne' : eps <> []) by (destruct endpoints; [done|discriminate]).
  assert (Hl8 : (length eps <= 8)%nat) by (unfold eps; rewrite length_take; unfold MAX_NAT_PREDICTION_PORTS; lia).
  assert (Hd' : distinct_eps eps).
  { eapply sublist_NoDup; [exact Hd|]. apply fmap_sublist, sublist_take. }
  assert (Hf' : Forall punchable eps) by by apply Forall_take.
  split_and!; try done.
  - unfold validate_traversal_prediction. cbn [tp_socket_binding_generation tp_valid_until]. rewrite Z.eqb_refl. cbn [negb].
    destruct (Z.ltb_spec (valid_until (profile_from_observations obs at_ ttl)) now); [lia|]. rewrite Hav.
    by destruct Hps as [? ->].
  - unfold ack_fits. simpl. apply andb_true_iff. rewrite negb_true_iff, Z.eqb_neq, Z.leb_le. lia.
  - unfold resp_validate. cbn [rs_seq rs_result resp_success]. rewrite Z.eqb_refl. cbn [negb].
    unfold resp_is_success. cbn [rs_result rs_predicted_endpoint_array resp_success]. rewrite Z.eqb_refl. cbn [orb negb].
    rewrite bool_decide_false by done. cbn [negb Bool.eqb]. by apply punchable_validated.
Qed.

(** ** The schedule of punches *)

Lemma checked_duration_Some d x : checked_duration d = Some x -> x = d /\ 0 <= d <= DURATION_MAX.
Proof. unfold checked_duration. case_match eqn:E; [|done]. intros [= <-]. bool_to_prop. lia. Qed.

(** The next slot lies on the grid of the interval and in the future: the very
    next one, or when that has passed, the first at least an interval away. *)
Lemma next_offset_spec cur elapsed max o :
  0 <= cur -> udp_punch_next_offset cur elapsed max = Some o ->
  o <= max /\ elapsed < o /\ (exists k, 1 <= k /\ o = cur + k * UDP_PUNCH_INTERVAL)
  /\ (elapsed < cur + UDP_PUNCH_INTERVAL -> o = cur + UDP_PUNCH_INTERVAL)
  /\ (cur + UDP_PUNCH_INTERVAL <= elapsed -> elapsed + UDP_PUNCH_INTERVAL <= o < elapsed + 2 * UDP_PUNCH_INTERVAL).
Proof.
  intros Hc H. unfold udp_punch_next_offset in H. apply bind_Some in H as (r & [-> _]%checked_duration_Some & H).
  apply bind_Some in H as (o' & H & Hm). case_match eqn:Hle; [|done]. simplify_eq. apply Z.leb_le in Hle.
  change UDP_PUNCH_INTERVAL with 50000000 in *.
  destruct (Z.ltb_spec elapsed (cur + 50000000)).
  - simplify_eq. split_and!; try lia. exists 1. lia.
  - apply bind_Some in H as (e & [-> _]%checked_duration_Some & H).
    apply bind_Some in H as (d & [-> _]%checked_duration_Some & H). case_match; [done|].
    apply bind_Some in H as (sk & [-> _]%checked_duration_Some & [-> _]%checked_duration_Some).
    set (q := (elapsed + 50000000 - (cur + 50000000) - 1) / 50000000).
    pose proof (Z.div_mod (elapsed + 50000000 - (cur + 50000000) - 1) 50000000 ltac:(lia)) as Hq. fold q in Hq.
    pose proof (Z.mod_pos_bound (elapsed + 50000000 - (cur + 50000000) - 1) 50000000 ltac:(lia)).
    split_and!; try lia. exists (2 + q). lia.
Qed.

(** The slots of the packets that are sent. *)
Fixpoint punch_slots (max_duration next_offset : Duration) (turns : list PunchTurn) : list Duration :=
  match turns with
  | [] => []
  | t :: turns =>
      if (max_duration <? pt_top t) || pt_stopped t || (max_duration <? pt_woken t) then []
      else next_offset :: match udp_punch_next_offset next_offset (pt_sent t) max_duration with
                          | None => []
                          | Some offset => punch_slots max_duration offset turns
                          end
  end.

(** Clocks go forward and a wait lasts at least until the slot. *)
Fixpoint clock_ok (max_duration next_offset now : Duration) (turns : list PunchTurn) : Prop :=
  match turns with
  | [] => True
  | t :: turns =>
      now <= pt_top t /\ pt_top t <= pt_woken t /\ next_offset <= pt_woken t /\ pt_woken t <= pt_sent t
      /\ match udp_punch_next_offset next_offset (pt_sent t) max_duration with
         | None => True
         | Some offset => clock_ok max_duration offset (pt_sent t) turns
         end
  end.

Lemma punch_burst_slots max next now turns :
  0 <= next <= max -> clock_ok max next now turns ->
  let '(sent, ended) := punch_burst max next turns in
  Forall2 (fun slot w => slot <= w <= max) (punch_slots max next turns) sent
  /\ StronglySorted Z.lt (punch_slots max next turns)
  /\ Forall (fun slot => next <= slot <= max /\ exists k, 0 <= k /\ slot = next + k * UDP_PUNCH_INTERVAL) (punch_slots max next turns)
  /\ Z.of_nat (length sent) <= (max - next) / UDP_PUNCH_INTERVAL + 1
  /\ ((max - next) / UDP_PUNCH_INTERVAL + 1 < Z.of_nat (length turns) -> ended = true).
Proof.
  revert next now. induction turns as [|t turns IH]; intros next now Hn Hc.
  { simpl. split_and!; try constructor; change UDP_PUNCH_INTERVAL with 50000000;
      pose proof (Z.div_pos (max - next) 50000000); simpl; lia. }
  cbn [punch_burst punch_slots clock_ok] in *. destruct Hc as (Ht1 & Ht2 & Ht3 & Ht4 & Hc).
  assert (Hpos : 0 <= (max - next) / UDP_PUNCH_INTERVAL)
    by (change UDP_PUNCH_INTERVAL with 50000000; apply Z.div_pos; lia).
  assert (Hnil : Forall2 (fun slot w => slot <= w <= max) [] [] /\ StronglySorted Z.lt []
    /\ Forall (fun slot => next <= slot <= max /\ exists k, 0 <= k /\ slot = next + k * UDP_PUNCH_INTERVAL) []
    /\ Z.of_nat (length (@nil Duration)) <= (max - next) / UDP_PUNCH_INTERVAL + 1
    /\ ((max - next) / UDP_PUNCH_INTERVAL + 1 < Z.of_nat (length (t :: turns)) -> true = true))
    by (split_and!; try constructor; simpl; lia || done).
  destruct (max <? pt_top t); [exact Hnil|]. destruct (pt_stopped t); [exact Hnil|].
  destruct (Z.ltb_spec max (pt_woken t)); [exact Hnil|]. cbn [orb]. clear Hnil.
  assert (Hself : next <= next <= max /\ exists k, 0 <= k /\ next = next + k * UDP_PUNCH_INTERVAL)
    by (split; [lia|exists 0; lia]).
  destruct (udp_punch_next_offset next (pt_sent t) max) as [o|] eqn:Ho.
  2:{ split; [by apply Forall2_cons|]. split; [by repeat constructor|]. split; [by apply Forall_singleton|].
      split; [simpl; lia|done]. }
  destruct (next_offset_spec _ _ _ _ (proj1 Hn) Ho) as (Hom & _ & (k & Hk & Hok) & _).
  change UDP_PUNCH_INTERVAL with 50000000 in *.
  assert (Hdiv : (max - o) / 50000000 + 1 <= (max - next) / 50000000).
  { replace (max - next) with (max - o + k * 50000000) by lia. rewrite Z.div_add by lia. lia. }
  specialize (IH o (pt_sent t) ltac:(lia) Hc). destruct (punch_burst max o turns) as [sent ended].
  destruct IH as (H2 & Hs & Hf & Hl & He). split_and!.
  - constructor; [lia|done].
  - constructor; [done|]. eapply Forall_impl; [exact Hf|]. simpl. lia.
  - constructor; [done|]. eapply Forall_impl; [exact Hf|]. simpl. intros x (? & j & ? & ->). split; [lia|]. exists (k + j). lia.
  - simpl length. lia.
  - simpl length. intros. apply He. lia.
Qed.

(** : a burst of punches is bounded and ends.  Whatever the clock does,
    every packet is sent before the deadline, each in a slot of its own on the
    fifty-millisecond grid, never before its slot; so at most as many packets go
    out as there are slots, and after that many turns the loop has ended. *)
Theorem punch_burst_bounded test remote i max turns l now :
  clock_ok max (udp_punch_start_offset i) now turns ->
  let '(sent, ended) := run_udp_punch_burst test remote i max turns l in
  Forall (fun w => udp_punch_start_offset i <= w <= max) sent
  /\ Z.of_nat (length sent) <= Z.max 0 ((max - udp_punch_start_offset i) / UDP_PUNCH_INTERVAL + 1)
  /\ (Z.max 0 ((max - udp_punch_start_offset i) / UDP_PUNCH_INTERVAL + 1) < Z.of_nat (length turns) -> ended = true)
  /\ exists slots, Forall2 Z.le slots sent /\ StronglySorted Z.lt slots
     /\ Forall (fun slot => slot <= max /\ exists k, 0 <= k /\ slot = udp_punch_start_offset i + k * UDP_PUNCH_INTERVAL) slots.
Proof.
  intros Hc. unfold run_udp_punch_burst.
  assert (Hnil : Forall (fun w => udp_punch_start_offset i <= w <= max) []
    /\ Z.of_nat (length (@nil Duration)) <= Z.max 0 ((max - udp_punch_start_offset i) / UDP_PUNCH_INTERVAL + 1)
    /\ (Z.max 0 ((max - udp_punch_start_offset i) / UDP_PUNCH_INTERVAL + 1) < Z.of_nat (length turns) -> true = true)
    /\ exists slots, Forall2 Z.le slots [] /\ StronglySorted Z.lt slots
       /\ Forall (fun slot => slot <= max /\ exists k, 0 <= k /\ slot = udp_punch_start_offset i + k * UDP_PUNCH_INTERVAL) slots).
  { split; [constructor|]. split; [simpl; lia|]. split; [done|]. exists []. split_and!; constructor. }
  destruct (udp_punch_enabled_for_endpoint test remote); [|exact Hnil]. cbn [negb].
  destruct (Z.ltb_spec max (udp_punch_start_offset i)) as [|Hle]; [exact Hnil|].
  destruct (ql_punch_socket (qt_state l)); [|exact Hnil]. clear Hnil.
  assert (H0 : 0 <= udp_punch_start_offset i) by (unfold udp_punch_start_offset; case_match; vm_compute; discriminate).
  pose proof (punch_burst_slots max _ now turns (conj H0 Hle) Hc) as H.
  destruct (punch_burst max (udp_punch_start_offset i) turns) as [sent ended]. destruct H as (H2 & Hs & Hf & Hl & He).
  split_and!; [|lia|intros; apply He; lia|].
  - clear Hl He Hs. induction H2 as [|x y xs ys Hxy _ IH]; [constructor|]. apply Forall_cons in Hf as [Hx Hf].
    constructor; [lia|by apply IH].
  - exists (punch_slots max (udp_punch_start_offset i) turns). split_and!; [|done|].
    + eapply Forall2_impl; [exact H2|]. simpl. lia.
    + eapply Forall_impl; [exact Hf|]. simpl. intros x [? ?]. split; [lia|done].
Qed.

(** ** Server names *)

Lemma starts_with_app p l : starts_with p (p ++ l) = true.
Proof. induction p as [|x p IH]; simpl; [done|]. by rewrite Z.eqb_refl. Qed.
Lemma starts_with_mono p l k : starts_with p l = true -> starts_with p (l ++ k) = true.
Proof.
  revert l. induction p as [|x p IH]; intros l; [done|]. destruct l as [|y l]; [done|]. simpl.
  rewrite !andb_true_iff. intros [-> H]. split; [done|by apply IH].
Qed.
Lemma trim_start_stop n p l : starts_with p l = false -> trim_start n p l = l.
Proof. intros H. destruct n; simpl; [done|]. by rewrite H. Qed.
Lemma trim_start_once p l : p <> [] -> starts_with p l = false -> trim_start_matches p (p ++ l) = l.
Proof.
  intros Hp H. unfold trim_start_matches. destruct p as [|x p]; [done|]. rewrite length_app. simpl length. cbn [Nat.add trim_start].
  rewrite starts_with_app. rewrite drop_app_length. by apply trim_start_stop.
Qed.

(** : a connection is served by the identity it was dialled for: the server
    reads from the TLS server name the name the client put into it, whichever
    names rustls accepts, when the name does not begin like the wrapping prefix
    nor end like the wrapping suffix. *)
Theorem server_name_roundtrip valid name :
  starts_with P2P_PREFIX (name ++ COM_SUFFIX) = false -> ends_with COM_SUFFIX name = false ->
  parse_server_name (validate_server_name valid name) = name.
Proof.
  intros Hs He. unfold validate_server_name, parse_server_name. destruct (valid name).
  - destruct (starts_with P2P_PREFIX name) eqn:E; [|done]. by rewrite (starts_with_mono _ _ _ E) in Hs.
  - rewrite starts_with_app. unfold ends_with. rewrite !rev_app_distr, <- app_assoc, starts_with_app. cbn [andb].
    rewrite trim_start_once by done. unfold trim_end_matches. rewrite rev_app_distr.
    rewrite trim_start_once; [apply rev_involutive|done|done].
Qed.

(** Other names are confused: [p2p.a] is read as [a] when wrapped, and a name of
    the form [p2p.a.com] even when rustls takes it as it is. *)
Lemma server_names_confused :
  parse_server_name (validate_server_name (fun _ => false) (P2P_PREFIX ++ [97])) = [97]
  /\ parse_server_name (validate_server_name (fun _ => true) (P2P_PREFIX ++ [97] ++ COM_SUFFIX)) = [97].
Proof. by split. Qed.

(** ** Life cycle *)

(** The steps of [bind], [start], the workers and [close]; a worker's test and
    its registration are two steps.  [ls_tested] are the workers between them. *)
Inductive ql_step : QuicTunnelListener * list Z -> QuicTunnelListener * list Z -> Prop :=
| QS_bind local out m r l ws : ql_step (l, ws) (listener_bind local out m r l, ws)
| QS_serve l ws x : listener_start_check l = Ok x -> ql_step (l, ws) (set_server l, ws)
| QS_ready notified l ws res closing l' : start_ready notified l = (res, closing, l') -> ql_step (l, ws) (l', ws)
| QS_worker w l ws l' : 0 <= w -> worker_begin w l = (true, l') -> ql_step (l, ws) (l', ws)
| QS_test w l ws : 0 <= w < qt_worker_count l -> register_test l = true -> ql_step (l, ws) (l, w :: ws)
| QS_push w l ws : w ∈ ws -> ql_step (l, ws) (register_push w l, ws)
| QS_close l ws closing l' : listener_close l = (closing, l') -> ql_step (l, ws) (l', ws).

Record ql_inv (x : QuicTunnelListener * list Z) : Prop := {
  qi_socket : ql_punch_socket (qt_state (fst x)) = head (ql_endpoints (qt_state (fst x)));
  qi_workers : Forall (fun w => 0 <= w < qt_worker_count (fst x)) (ql_endpoints (qt_state (fst x)) ++ snd x);
  qi_generation : 1 <= qt_socket_binding_generation (fst x);
}.

Lemma ql_step_inv x y : ql_step x y -> ql_inv x -> ql_inv y.
Proof.
  intros H [Hs Hw Hg]. destruct H as [| |notified l ws res closing l' H|w l ws l' Hw0 H|w l ws Hw0 _|w l ws Hin|l ws closing l' H];
    simpl in *; try by split.
  - unfold start_ready, take_endpoints in H. case_match; simplify_eq; [by split|]. split; simpl; [done| |done].
    by apply Forall_app in Hw as [_ ?].
  - unfold worker_begin in H. case_match; simplify_eq. split; simpl; [done| |done].
    eapply Forall_impl; [exact Hw|]. simpl. lia.
  - split; simpl; [done| |done]. apply Forall_app in Hw as [? ?]. apply Forall_app. split; [done|by constructor].
  - split; simpl; [|apply Forall_app in Hw as [? Hws]; repeat (apply Forall_app; split); try done|done].
    + rewrite Hs. by destruct (ql_endpoints (qt_state l)).
    + constructor; [|constructor]. rewrite Forall_forall in Hws. by apply Hws.
  - unfold listener_close, take_endpoints in H. destruct (qt_closed l); simplify_eq; [by split|]. split; simpl; [done| |done].
    by apply Forall_app in Hw as [_ ?].
Qed.

(** In every state of a listener there is a punching socket exactly when a
    worker is registered, and the workers are below the count the packets are
    distributed by. *)
Lemma ql_reachable_inv random l ws :
  rtc ql_step (quic_listener_new random, []) (l, ws) ->
  (ql_punch_socket (qt_state l) = None <-> ql_endpoints (qt_state l) = [])
  /\ Forall (fun w => 0 <= w < qt_worker_count l) (ql_endpoints (qt_state l)) /\ 1 <= qt_socket_binding_generation l.
Proof.
  intros Hr. assert (Hi : ql_inv (l, ws)).
  { eapply (rtc_preserves ql_step ql_inv); [|exact Hr|]; [intros u v; apply ql_step_inv|]. split; simpl; [done|constructor|lia]. }
  destruct Hi as [Hs Hw Hg]. simpl in *. split_and!; [|by apply Forall_app in Hw as [? _]|done].
  rewrite Hs. by destruct (ql_endpoints (qt_state l)).
Qed.

(** The test precedes the lock: a worker that passed it registers its endpoint
    in the listener that was closed meanwhile, and nothing closes it any more. *)
Lemma endpoint_registered_after_close :
  exists l ws, rtc ql_step (quic_listener_new 5, []) (l, ws) /\ qt_closed l = true /\ ql_endpoints (qt_state l) = [0]
  /\ fst (listener_close l) = None.
Proof.
  eexists _, [0]. split.
  - eapply rtc_l; [by eapply (QS_worker 0)|]. eapply rtc_l; [by apply (QS_test 0)|].
    eapply rtc_l; [by eapply QS_close|]. eapply rtc_l; [by apply (QS_push 0); left|]. apply rtc_refl.
  - done.
Qed.

Module ListenerDemo.
Import ProbeDemo.

Definition source : SocketAddr := V4 (mkV4 198 51 100 9) 5000.
Definition quic_packet : list Z := [0x40; 0; 0; 9].
Definition punch_packet : list Z := udp_punch_payload 8 (replicate 30 1).
Definition script : list SocketPoll :=
  [SockReady [punch_packet] 8 source; SockReady [demo_response] 1200 source; SockReady [take 2 quic_packet; drop 2 quic_packet] 4 source].

Lemma datagrams_sorted_witness :
  recv_run 0 1 script [(quic_packet, source)] (omap probe_of script) /\ length (omap probe_of script) = 1%nat.
Proof.
  assert (H : recv_run 0 1 script [(quic_packet, source)]
    (snd (poll_recv 0 1 0 script []) ++ [])).
  { refine (RR_poll 0 1 script (RecvReady quic_packet source) [] _ [] [] _ _ _ (RR_done 0 1)); [done| |done].
    by vm_compute. }
  destruct (datagrams_sorted 0 1 script _ _ H) as (_ & Hd & _). rewrite Hd in H. split; [exact H|]. by vm_compute.
Defined.

Definition demo_get_id (c : P2pId) : P2pId := c.
Definition demo_cert_check (_ : P2pId) (m sig : list Z) : bool := demo_check m sig.
Definition waiting1 : waiting (Cert:=P2pId) :=
  mkWaiting {[ demo_token := mkPendingProbe source demo_signer 0 ]} 1 [(0%nat, (demo_token, (source, demo_signer)))] [] [].

Lemma probe_responses_routed_witness :
  exists o : waiting (Cert:=P2pId), rtc (wait_step demo_get_id demo_cert_check) waiting_new o
  /\ wt_sent o = [(0%nat, V4 demo_source 3456)] /\ NoDup (fst <$> wt_sent o).
Proof.
  assert (Hs : is_Some (decode_response_datagram demo_response)) by (vm_compute; eauto). destruct Hs as [r Hr].
  vm_compute in Hr. injection Hr as Hr.
  assert (Hrun : rtc (wait_step demo_get_id demo_cert_check) waiting_new
    (mkWaiting (Cert:=P2pId) ∅ 1 [(0%nat, (demo_token, (source, demo_signer)))] [(r, source, 0%nat)] [(0%nat, dn_observed r)])).
  { eapply rtc_l; [by apply (WS_register _ _ demo_token source demo_signer waiting_new waiting1)|].
    eapply rtc_l; [apply (WS_lookup _ _ r source demo_signer 0 waiting1); subst r; by vm_compute|].
    eapply rtc_l; [apply (WS_take _ _ r source 0 (Some 0%nat) ∅); [by left|subst r; by vm_compute]|]. apply rtc_refl. }
  eexists. split; [exact Hrun|]. split; [by subst r|].
  by destruct (probe_responses_routed demo_get_id demo_cert_check _ Hrun).
Defined.

(** A listener with one worker, and a NAT that adds one to the port for every
    target. *)
Definition listening : QuicTunnelListener :=
  mkQuicListener (mkListener None None [0] true (Some 0) None false) false 1 77.
Definition target_at (p : Z) : Endpoint := mkEndpoint Wan Quic (V4 (mkV4 198 51 100 9) p).
Definition outcome (t : Endpoint) : ProbeOutcome := PoObserved (V4 (mkV4 203 0 113 7) (port t - 2000)).

Lemma prediction_serves_rendezvous_witness :
  exists pr, predict_traversal_endpoints [target_at 5000; target_at 5001] (from_secs 1) (from_secs 60) outcome false 1000 listening = Ok pr
  /\ length (tp_endpoints pr) = 8%nat
  /\ resp_validate false (fun _ _ => true) (resp_success 9 (tp_endpoints pr)) 9 true = Ok tt.
Proof.
  assert (H : exists pr, predict_traversal_endpoints [target_at 5000; target_at 5001] (from_secs 1) (from_secs 60) outcome false 1000
    listening = Ok pr /\ length (tp_endpoints pr) = 8%nat /\ 1000 <= tp_valid_until pr)
    by (eexists; split; [by vm_compute|]; split; [done|vm_compute; discriminate]).
  destruct H as (pr & Hp & Hl & Hv). exists pr. split; [done|]. split; [done|].
  eapply (prediction_serves_rendezvous false (fun _ _ => true) [target_at 5000; target_at 5001] (from_secs 1) (from_secs 60) outcome
    false 1000 listening pr 9 1000); [|vm_compute; discriminate|exact Hp|exact Hv].
  intros t a Ht [= <-]. apply elem_of_cons in Ht as [->|Ht]; [split; [done|simpl; unfold u16_max; lia]|].
  apply list_elem_of_singleton in Ht as ->. split; [done|simpl; unfold u16_max; lia].
Defined.

(** A burst of 300 ms whose second packet is late. *)
Definition reverse_intent : TunnelConnectIntent := intent_reverse 1 1.
Definition burst : list PunchTurn :=
  [mkTurn 0 false 0 (from_millis 1); mkTurn (from_millis 1) false (from_millis 170) (from_millis 171);
   mkTurn (from_millis 171) false (from_millis 250) (from_millis 251);
   mkTurn (from_millis 251) false (from_millis 300) (from_millis 301)].
Definition punch_remote : Endpoint := mkEndpoint ServerReflexive Quic (V4 (mkV4 203 0 113 7) 3456).

Lemma punch_burst_bounded_witness :
  run_udp_punch_burst false punch_remote reverse_intent (from_millis 300) burst listening
  = ([0; from_millis 170; from_millis 250; from_millis 300], true)
  /\ Forall (fun w => 0 <= w <= from_millis 300) [0; from_millis 170; from_millis 250; from_millis 300].
Proof.
  assert (H : run_udp_punch_burst false punch_remote reverse_intent (from_millis 300) burst listening
    = ([0; from_millis 170; from_millis 250; from_millis 300], true)) by by vm_compute.
  split; [done|]. assert (Hc : clock_ok (from_millis 300) 0 0 burst) by (vm_compute; intuition discriminate).
  pose proof (punch_burst_bounded false punch_remote reverse_intent (from_millis 300) burst listening 0 Hc) as Hb.
  rewrite H in Hb. by destruct Hb as [Hb _].
Defined.

Lemma server_name_roundtrip_witness :
  parse_server_name (validate_server_name (fun _ => false) [97; 98]) = [97; 98].
Proof. by apply (server_name_roundtrip (fun _ => false) [97; 98]). Defined.
End ListenerDemo.
