(* ===== verification/NetManager.v ===== *)
(** * The network manager (src/p2p-frame/src/networks/net_manager.rs)

    One manager listens with the networks of several protocols and hands every
    incoming tunnel to the subscriber of its local id.

    A network is an object of the class [TunnelNetwork]; tunnels are numbers
    with what the trait [Tunnel] says of them; a subscriber is the number of its
    owner ([Arc<IncomingTunnelSubscriptionOwner>], compared by [Arc::ptr_eq])
    with the kind of its callback.  The validator and the callbacks are inputs:
    their answers arrive in steps of their own. *)

From S2P Require Import Prelude.
From S2P Require Import Errors.
From S2P Require Import Ids.
From S2P Require Import Endpoint.
From S2P Require Import OpenTunnel.
From S2P Require Import PnServer.

(** ** Networks (networks/network.rs) *)

Inductive IncomingTunnelAcceptance := Accepted | Rejected.
#[global] Instance IncomingTunnelAcceptance_eq_dec : EqDecision IncomingTunnelAcceptance.
Proof. solve_decision. Defined.

(** What the manager calls of a network: [listen_with_acceptance] and
    [listener_infos].  A listening that succeeds adds one listener, of that
    endpoint and mapped port, and one that fails adds none. *)
Class TunnelNetwork (N : Type) := {
  network_listen : Endpoint -> option Endpoint -> option Z -> N -> P2pResult unit * N;
  listeners_of : N -> list (Endpoint * option Endpoint * option Z);
  network_listen_spec local out port n r n' :
    network_listen local out port n = (r, n') ->
    listeners_of n' = match r with Ok _ => listeners_of n ++ [(local, out, port)] | Err _ => listeners_of n end;
}.

(** ** Listening *)

(** [HashMap<Protocol, TunnelNetworkRef>]; the protocols have no [Countable]
    instance, and a lookup is all the manager does with the map. *)
Section listening.
Context {N : Type} `{!TunnelNetwork N}.

Definition get_network (p : Protocol) (ns : list (Protocol * N)) : option N :=
  snd <$> List.find (fun x => bool_decide (fst x = p)) ns.
Fixpoint set_network (p : Protocol) (n : N) (ns : list (Protocol * N)) : list (Protocol * N) :=
  match ns with
  | [] => []
  | x :: ns => if bool_decide (fst x = p) then (p, n) :: ns else x :: set_network p n ns
  end.

(** [collect] of the networks by protocol: a later one of a protocol replaces
    the earlier. *)
Fixpoint insert_network (p : Protocol) (n : N) (ns : list (Protocol * N)) : list (Protocol * N) :=
  match ns with
  | [] => [(p, n)]
  | x :: ns => if bool_decide (fst x = p) then (p, n) :: ns else x :: insert_network p n ns
  end.

Definition take_mapping_port (src : Endpoint) : list (Endpoint * Z) -> option Z * list (Endpoint * Z) :=
  fix go m :=
    match m with
    | [] => (None, [])
    | x :: m => if ep_eqb (fst x) src then (Some (snd x), m)
                else let '(port, m) := go m in (port, x :: m)
    end.

(** The endpoint pair at the head of the list: with its local endpoint when it
    is a mapped one; [rest] is what the loop goes on with. *)
Definition listen_pair (ep : Endpoint) (rest : list Endpoint)
    : P2pResult (Endpoint * option Endpoint) * list Endpoint :=
  if is_mapped_wan ep then
    match rest with
    | [] => (Err P2pErrorCode.InvalidParam, [])
    | local_ep :: rest =>
        (if negb (is_same_ip_version local_ep ep && bool_decide (protocol local_ep = protocol ep)
                  && negb (is_static_wan local_ep))
         then Err P2pErrorCode.InvalidParam else Ok (local_ep, Some ep), rest)
    end
  else (Ok (ep, None), rest).

(** The loop of [listen]; each turn takes one endpoint or two. *)
Fixpoint listen_loop (fuel : nat) (endpoints : list Endpoint) (mapping : list (Endpoint * Z)) (ns : list (Protocol * N))
    : P2pResult unit * list (Protocol * N) :=
  match endpoints, fuel with
  | [], _ | _, O => (Ok tt, ns)
  | ep :: rest, S fuel =>
      let '(ends, rest) := listen_pair ep rest in
      match ends with
      | Err e => (Err e, ns)
      | Ok (local, out) =>
          let '(port, mapping) := take_mapping_port ep mapping in
          match get_network (protocol local) ns with
          | None => (Err P2pErrorCode.NotFound, ns)
          | Some n =>
              let '(r, n) := network_listen local out port n in
              let ns := set_network (protocol local) n ns in
              match r with Err e => (Err e, ns) | Ok _ => listen_loop fuel rest mapping ns end
          end
      end
  end.

(** The manager without its subscriptions. *)
Record NetListening := mkNetListening {
  nl_networks : list (Protocol * N);
  nl_listener_meta : list (Protocol * list (Endpoint * option Endpoint * option Z));
  nl_is_listening : bool;
}.

Definition refresh_listener_meta (m : NetListening) : NetListening :=
  mkNetListening (nl_networks m) (map (fun x => (fst x, listeners_of (snd x))) (nl_networks m)) (nl_is_listening m).

Definition net_listen (endpoints : list Endpoint) (port_mapping : option (list (Endpoint * Z))) (m : NetListening)
    : P2pResult unit * NetListening :=
  if nl_is_listening m then (Ok tt, refresh_listener_meta m)
  else match endpoints with
       | [] => (Err P2pErrorCode.InvalidParam, m)
       | _ =>
           let '(r, ns) := listen_loop (length endpoints) endpoints (default [] port_mapping) (nl_networks m) in
           match r with
           | Err e => (Err e, mkNetListening ns (nl_listener_meta m) (nl_is_listening m))
           | Ok _ => let m := refresh_listener_meta (mkNetListening ns (nl_listener_meta m) (nl_is_listening m)) in
                     (Ok tt, mkNetListening (nl_networks m) (nl_listener_meta m) true)
           end
       end.

Definition get_listener_info (p : Protocol) (m : NetListening) : list (Endpoint * option Endpoint * option Z) :=
  default [] (snd <$> List.find (fun x => bool_decide (fst x = p)) (nl_listener_meta m)).
End listening.
Arguments NetListening : clear implicits.

(** ** Subscriptions *)

Inductive SubscriptionKind := Legacy | Acceptance.
Record IncomingTunnelSubscriptionEntry := mkEntry { se_owner : nat; se_kind : SubscriptionKind }.
Notation Subscriptions := (gmap P2pId IncomingTunnelSubscriptionEntry).

Definition register_incoming_tunnel_subscription (local_id : P2pId) (kind : SubscriptionKind) (owner : nat)
    (s : Subscriptions) : P2pResult nat * Subscriptions :=
  match s !! local_id with
  | Some _ => (Err P2pErrorCode.AlreadyExists, s)
  | None => (Ok owner, <[local_id := mkEntry owner kind]> s)
  end.

(** The removal of the entry that still has the owner: the drop of the guard,
    and a legacy subscriber that reports itself closed. *)
Definition unregister_owned (local_id : P2pId) (owner : nat) (s : Subscriptions) : Subscriptions :=
  match s !! local_id with
  | Some current => if (se_owner current =? owner)%nat then delete local_id s else s
  | None => s
  end.

(** ** Dispatching *)

(** networks/validator.rs *)
Record IncomingTunnelValidateContext := mkTunnelContext {
  vc_local_id : P2pId; vc_remote_id : P2pId; vc_protocol : Protocol; vc_tunnel_id : TunnelId;
  vc_candidate_id : TunnelCandidateId; vc_is_reverse : bool; vc_local_ep : option Endpoint; vc_remote_ep : option Endpoint }.

Inductive Dispatch :=
| DispatchClose                               (* the tunnel is closed, [Rejected] *)
| DispatchPublish (e : IncomingTunnelSubscriptionEntry).  (* its callback is called *)

(** [dispatch_tunnel] and [publish_tunnel] up to the call of the subscriber. *)
Definition dispatch_tunnel (verdict : P2pResult ValidateResult) (ctx : IncomingTunnelValidateContext) (s : Subscriptions)
    : Dispatch :=
  match verdict with
  | Ok Accept => match s !! vc_local_id ctx with None => DispatchClose | Some e => DispatchPublish e end
  | Ok Reject | Err _ => DispatchClose
  end.
(** [publish_tunnel] from there: what the callback answered ([true] and
    [false] of a legacy one are [Accepted] and [Rejected]), and whether the
    tunnel is closed. *)
Definition publish_answered (local_id : P2pId) (e : IncomingTunnelSubscriptionEntry) (answer : IncomingTunnelAcceptance)
    (s : Subscriptions) : IncomingTunnelAcceptance * bool * Subscriptions :=
  let s := match se_kind e, answer with
           | Legacy, Rejected => unregister_owned local_id (se_owner e) s
           | _, _ => s
           end in
  (answer, bool_decide (answer = Rejected), s).
(** [dispatch_tunnel_result] of a failed accept. *)
Definition dispatch_failed_accept : IncomingTunnelAcceptance := Rejected.

(** ** Listening pairs the endpoints *)

Section listen_facts.
Context {N : Type} `{!TunnelNetwork N}.

(** What [listen] is asked for: each endpoint that is not mapped, each mapped one
    with the local endpoint that follows it, and the port mapped to it. *)
Notation request := (Endpoint * option Endpoint * option Z)%type.
Fixpoint listen_plan (endpoints : list Endpoint) (mapping : list (Endpoint * Z)) : list (P2pResult request) :=
  match endpoints with
  | [] => []
  | ep :: rest =>
      let '(port, mapping) := take_mapping_port ep mapping in
      if negb (is_mapped_wan ep) then Ok (ep, None, port) :: listen_plan rest mapping
      else match rest with
           | local_ep :: rest =>
               if is_same_ip_version local_ep ep && bool_decide (protocol local_ep = protocol ep)
                  && negb (is_static_wan local_ep)
               then Ok (local_ep, Some ep, port) :: listen_plan rest mapping
               else [Err P2pErrorCode.InvalidParam]
           | [] => [Err P2pErrorCode.InvalidParam]
           end
  end.

Definition of_protocol (p : Protocol) (x : request) : bool := bool_decide (protocol (fst (fst x)) = p).
(** The listeners of the network of a protocol. *)
Definition protocol_listeners (p : Protocol) (ns : list (Protocol * N)) : list request :=
  match get_network p ns with Some n => listeners_of n | None => [] end.

Lemma get_set_network p q n n0 (ns : list (Protocol * N)) :
  get_network p ns = Some n0 ->
  get_network q (set_network p n ns) = if bool_decide (p = q) then Some n else get_network q ns.
Proof.
  unfold get_network. induction ns as [|[q0 m] ns IH]; [done|]. cbn [List.find set_network fst]. intros H.
  destruct (bool_decide_reflect (q0 = p)) as [->|Hne]; cbn [List.find fst].
  - by case_bool_decide.
  - destruct (bool_decide_reflect (q0 = q)) as [->|]; [|by apply IH]. by rewrite bool_decide_eq_false_2 by congruence.
Qed.

(** What the requests [served] add to the networks. *)
Definition served_by (ns : list (Protocol * N)) (served : list request) (ns' : list (Protocol * N)) : Prop :=
  forall p, protocol_listeners p ns' = protocol_listeners p ns ++ List.filter (of_protocol p) served.

Lemma served_cons local out port n n' ns served ns' :
  get_network (protocol local) ns = Some n -> network_listen local out port n = (Ok tt, n') ->
  served_by (set_network (protocol local) n' ns) served ns' ->
  served_by ns ((local, out, port) :: served) ns'.
Proof.
  intros Hg Hl H p. rewrite H. unfold protocol_listeners. rewrite (get_set_network _ _ _ _ _ Hg).
  cbn [List.filter of_protocol fst]. unfold of_protocol at 2. cbn [fst]. apply network_listen_spec in Hl. case_bool_decide; [|done].
  subst p. by rewrite Hg, Hl, <- app_assoc.
Qed.

Lemma served_failed local out port e n n' ns :
  get_network (protocol local) ns = Some n -> network_listen local out port n = (Err e, n') ->
  served_by ns [] (set_network (protocol local) n' ns).
Proof.
  intros Hg Hl p. unfold protocol_listeners. rewrite (get_set_network _ _ _ _ _ Hg), app_nil_r.
  apply network_listen_spec in Hl. case_bool_decide; [|done]. subst p. by rewrite Hg.
Qed.

(** The requests served are a prefix of the plan, all of it on success. *)
Definition listened (plan : list (P2pResult request)) (ns : list (Protocol * N)) (r : P2pResult unit)
    (ns' : list (Protocol * N)) : Prop :=
  exists served todo, plan = map Ok served ++ todo /\ served_by ns served ns' /\ (r = Ok tt <-> todo = []).

Lemma listened_err e ns : listened [Err e] ns (Err e) ns.
Proof. exists [], [Err e]. split_and!; [done|intros p; by rewrite app_nil_r|done]. Qed.

Lemma listened_turn local out port plan ns r ns' (go : list (Protocol * N) -> P2pResult unit * list (Protocol * N)) :
  (forall ns r ns', go ns = (r, ns') -> listened plan ns r ns') ->
  (match get_network (protocol local) ns with
   | None => (Err P2pErrorCode.NotFound, ns)
   | Some n => let '(r, n) := network_listen local out port n in
               let ns := set_network (protocol local) n ns in
               match r with Err e => (Err e, ns) | Ok _ => go ns end
   end) = (r, ns') ->
  listened (Ok (local, out, port) :: plan) ns r ns'.
Proof.
  intros Hgo. destruct (get_network (protocol local) ns) as [n|] eqn:Hg.
  - destruct (network_listen local out port n) as [[[]|e] n'] eqn:Hl; intros H.
    + destruct (Hgo _ _ _ H) as (served & todo & -> & Hs & Hr). exists ((local, out, port) :: served), todo.
      split_and!; [done|by eapply served_cons|done].
    + cbv zeta in H. injection H as <- <-. exists [], (Ok (local, out, port) :: plan).
      split_and!; [done|by eapply served_failed|done].
  - intros H. simplify_eq. exists [], (Ok (local, out, port) :: plan).
    split_and!; [done|intros p; by rewrite app_nil_r|done].
Qed.

Lemma listen_loop_spec fuel endpoints mapping ns r ns' :
  (length endpoints <= fuel)%nat -> listen_loop fuel endpoints mapping ns = (r, ns') ->
  listened (listen_plan endpoints mapping) ns r ns'.
Proof.
  revert endpoints mapping ns r ns'. induction fuel as [|fuel IH]; intros [|ep rest] mapping ns r ns' Hf; simpl in Hf; try lia.
  1-2: intros [= <- <-]; exists [], []; split_and!; [done|intros p; by rewrite app_nil_r|done].
  cbn [listen_loop listen_plan]. unfold listen_pair. destruct (take_mapping_port ep mapping) as [port mapping'].
  destruct (is_mapped_wan ep); cbn [negb].
  - destruct rest as [|local_ep rest]; [intros [= <- <-]; apply listened_err|].
    destruct (_ && _); cbn [negb]; [|intros [= <- <-]; apply listened_err].
    apply listened_turn. intros ???. apply IH. simpl in *. lia.
  - apply listened_turn. intros ???. apply IH. lia.
Qed.

Definition sound_request (x : request) : Prop :=
  match snd (fst x) with
  | None => is_mapped_wan (fst (fst x)) = false
  | Some out => is_mapped_wan out = true /\ is_same_ip_version (fst (fst x)) out = true
                /\ protocol (fst (fst x)) = protocol out
  end.

Lemma plan_sound endpoints mapping :
  Forall (fun x => match x with Ok x => sound_request x | Err _ => True end) (listen_plan endpoints mapping).
Proof.
  remember (length endpoints) as n eqn:Hn. assert (Hle : (length endpoints <= n)%nat) by lia. clear Hn.
  revert endpoints mapping Hle. induction n as [|n IH]; intros [|ep rest] mapping Hle; simpl in Hle; try lia; [constructor..|].
  cbn [listen_plan]. destruct (take_mapping_port ep mapping) as [port mapping'].
  destruct (is_mapped_wan ep) eqn:Hm; cbn [negb].
  - destruct rest as [|local_ep rest]; [by repeat constructor|].
    destruct (_ && _) eqn:Hc; [|by repeat constructor]. apply andb_prop in Hc as [[Hv Hp%bool_decide_eq_true]%andb_prop _].
    constructor; [done|]. apply IH. simpl in Hle. lia.
  - constructor; [done|]. apply IH. lia.
Qed.

Lemma meta_matches p (ns : list (Protocol * N)) l b :
  get_listener_info p (refresh_listener_meta (mkNetListening ns l b)) = protocol_listeners p ns.
Proof.
  unfold get_listener_info, protocol_listeners, get_network. simpl. induction ns as [|x ns IH]; [done|].
  cbn [map List.find fst]. case_bool_decide; [done|apply IH].
Qed.

(** Listening serves the plan of the endpoints and nothing else: on success
    each endpoint that is not mapped, and each mapped one paired with the local
    endpoint that follows it, has one new listener in the network of its
    protocol, in order, with the port mapped to it, and the listener table shows
    all of them; on an error the listeners are those of the requests before the
    failing one and the manager is not listening. *)
Theorem net_listen_serves_plan endpoints pm m r m' :
  nl_is_listening m = false -> endpoints <> [] -> net_listen endpoints pm m = (r, m') ->
  exists served todo,
    listen_plan endpoints (default [] pm) = map Ok served ++ todo
    /\ (forall p, protocol_listeners p (nl_networks m') = protocol_listeners p (nl_networks m) ++ List.filter (of_protocol p) served)
    /\ Forall sound_request served
    /\ match r with
       | Ok _ => todo = [] /\ nl_is_listening m' = true
                 /\ forall p, get_listener_info p m' = protocol_listeners p (nl_networks m')
       | Err _ => todo <> [] /\ nl_is_listening m' = false /\ nl_listener_meta m' = nl_listener_meta m
       end.
Proof.
  intros Hn He H. unfold net_listen in H. rewrite Hn in H. destruct endpoints as [|ep eps]; [done|].
  destruct (listen_loop _ _ _ _) as [r0 ns] eqn:Hl. apply listen_loop_spec in Hl as (served & todo & Hp & Hs & Hr); [|done].
  exists served, todo. assert (Hv := plan_sound (ep :: eps) (default [] pm)). rewrite Hp in Hv.
  apply Forall_app in Hv as [Hv _]. rewrite Forall_map in Hv. split_and!; [done| | |].
  - destruct r0; simplify_eq; apply Hs.
  - eapply Forall_impl; [exact Hv|done].
  - destruct r0 as [[]|]; simplify_eq; simpl.
    + split_and!; [by apply Hr|done|]. intros p. exact (meta_matches p ns [] true).
    + split_and!; [|done|done]. intros Ht. by discriminate (proj2 Hr Ht).
Qed.
End listen_facts.

(** ** Every tunnel has one fate *)

(** The manager in service, with its history.  [ns_owners] are the ids the
    owners have registered for, [ns_guards] the guards not yet dropped,
    [ns_pending] the tunnels whose callback is running, [ns_failed] the legacy
    owners that have reported themselves closed, [ns_delivered] the calls of the
    callbacks (tunnel, local id, owner), [ns_fates] what [dispatch_tunnel]
    returned. *)
Record NetService := mkService {
  ns_subs : Subscriptions;
  ns_owners : gmap nat P2pId;
  ns_guards : list nat;
  ns_failed : list nat;
  ns_seen : list nat;
  ns_pending : list (nat * P2pId * IncomingTunnelSubscriptionEntry);
  ns_delivered : list (nat * P2pId * nat);
  ns_closed : list nat;
  ns_fates : list (nat * IncomingTunnelAcceptance);
}.
Definition net_service_new : NetService := mkService ∅ ∅ [] [] [] [] [] [] [].

Definition service_closes (t : nat) (s : NetService) : NetService :=
  mkService (ns_subs s) (ns_owners s) (ns_guards s) (ns_failed s) (t :: ns_seen s) (ns_pending s) (ns_delivered s)
    (t :: ns_closed s) ((t, Rejected) :: ns_fates s).
Definition service_publishes (t : nat) (local_id : P2pId) (e : IncomingTunnelSubscriptionEntry) (s : NetService) : NetService :=
  mkService (ns_subs s) (ns_owners s) (ns_guards s) (ns_failed s) (t :: ns_seen s) ((t, local_id, e) :: ns_pending s)
    ((t, local_id, se_owner e) :: ns_delivered s) (ns_closed s) (ns_fates s).

Inductive net_step : NetService -> NetService -> Prop :=
| NS_register local_id kind owner s subs :
    ns_owners s !! owner = None ->
    register_incoming_tunnel_subscription local_id kind owner (ns_subs s) = (Ok owner, subs) ->
    net_step s (mkService subs (<[owner := local_id]> (ns_owners s)) (owner :: ns_guards s) (ns_failed s) (ns_seen s)
                  (ns_pending s) (ns_delivered s) (ns_closed s) (ns_fates s))
| NS_guard_drop owner local_id s pre post :
    ns_guards s = pre ++ owner :: post -> ns_owners s !! owner = Some local_id ->
    net_step s (mkService (unregister_owned local_id owner (ns_subs s)) (ns_owners s) (pre ++ post)
                  (ns_failed s) (ns_seen s) (ns_pending s) (ns_delivered s) (ns_closed s) (ns_fates s))
| NS_dispatch_close t verdict ctx s :
    t ∉ ns_seen s -> dispatch_tunnel verdict ctx (ns_subs s) = DispatchClose -> net_step s (service_closes t s)
| NS_dispatch_publish t verdict ctx e s :
    t ∉ ns_seen s -> dispatch_tunnel verdict ctx (ns_subs s) = DispatchPublish e ->
    net_step s (service_publishes t (vc_local_id ctx) e s)
| NS_answered t local_id e answer s pre post acceptance close subs :
    ns_pending s = pre ++ (t, local_id, e) :: post ->
    publish_answered local_id e answer (ns_subs s) = (acceptance, close, subs) ->
    net_step s (mkService subs (ns_owners s) (ns_guards s)
                  (match se_kind e, answer with Legacy, Rejected => se_owner e :: ns_failed s | _, _ => ns_failed s end)
                  (ns_seen s) (pre ++ post) (ns_delivered s)
                  (if close then t :: ns_closed s else ns_closed s) ((t, acceptance) :: ns_fates s)).

Lemma unregister_owned_lookup i owner (s : Subscriptions) j e :
  unregister_owned i owner s !! j = Some e <-> s !! j = Some e /\ (i = j -> se_owner e <> owner).
Proof.
  unfold unregister_owned. destruct (s !! i) as [c|] eqn:Hi.
  - destruct (Nat.eqb_spec (se_owner c) owner) as [Hc|Hc].
    + destruct (decide (i = j)) as [<-|]; [rewrite lookup_delete_eq|rewrite lookup_delete_ne by done]; naive_solver.
    + split; [|naive_solver]. intros Hj. split; [done|]. intros <-. naive_solver.
  - split; [|naive_solver]. intros Hj. split; [done|]. intros <-. congruence.
Qed.

(** *** Who is subscribed *)

Record subs_inv (s : NetService) : Prop := {
  si_owner i e : ns_subs s !! i = Some e -> ns_owners s !! se_owner e = Some i /\ se_owner e ∈ ns_guards s;
  si_guard o : o ∈ ns_guards s -> exists i, ns_owners s !! o = Some i
    /\ (o ∈ ns_failed s \/ exists kind, ns_subs s !! i = Some (mkEntry o kind));
  si_guards : NoDup (ns_guards s);
  si_delivered t i o : (t, i, o) ∈ ns_delivered s -> ns_owners s !! o = Some i;
}.

Lemma subs_inv_frame s s' :
  ns_subs s' = ns_subs s -> ns_owners s' = ns_owners s -> ns_guards s' = ns_guards s -> ns_failed s' = ns_failed s ->
  (forall t i o, (t, i, o) ∈ ns_delivered s' -> (t, i, o) ∈ ns_delivered s \/ ns_owners s !! o = Some i) ->
  subs_inv s -> subs_inv s'.
Proof.
  intros E1 E2 E3 E4 Hd [H1 H2 H3 H4]. split; rewrite ?E1, ?E2, ?E3, ?E4; [done|done|done|].
  intros t i o H. destruct (Hd _ _ _ H); [by eapply H4|done].
Qed.

Lemma subscription_registered_inv local_id kind owner s subs :
  ns_owners s !! owner = None ->
  register_incoming_tunnel_subscription local_id kind owner (ns_subs s) = (Ok owner, subs) ->
  subs_inv s ->
  subs_inv (mkService subs (<[owner := local_id]> (ns_owners s)) (owner :: ns_guards s) (ns_failed s) (ns_seen s)
              (ns_pending s) (ns_delivered s) (ns_closed s) (ns_fates s)).
Proof.
  intros Hn Hr [H1 H2 H3 H4]. unfold register_incoming_tunnel_subscription in Hr.
  destruct (ns_subs s !! local_id) eqn:Hl; simplify_eq.
  assert (Hne : forall o i, ns_owners s !! o = Some i -> <[owner := local_id]> (ns_owners s) !! o = Some i)
    by (intros o i Ho; rewrite lookup_insert_ne by congruence; done).
  split; simpl.
  - intros i e He. destruct (decide (local_id = i)) as [<-|Hi].
    + rewrite lookup_insert_eq in He. simplify_eq. simpl. rewrite lookup_insert_eq. split; [done|left].
    + rewrite lookup_insert_ne in He by done. destruct (H1 _ _ He). split; [by apply Hne|by right].
  - intros o Ho. inversion Ho; subst.
    + exists local_id. rewrite !lookup_insert_eq. eauto.
    + destruct (H2 o) as (i & Hi & Hs); [done|]. exists i. split; [by apply Hne|]. destruct Hs as [?|[k Hk]]; [by left|].
      right. exists k. rewrite lookup_insert_ne; [done|]. intros <-. congruence.
  - constructor; [|done]. intros Ho. destruct (H2 _ Ho) as (i & Hi & _). congruence.
  - intros t i o Ho. by eapply Hne, H4.
Qed.

Lemma guard_drop_inv owner local_id s pre post :
  ns_guards s = pre ++ owner :: post -> ns_owners s !! owner = Some local_id ->
  subs_inv s ->
  subs_inv (mkService (unregister_owned local_id owner (ns_subs s)) (ns_owners s) (pre ++ post)
              (ns_failed s) (ns_seen s) (ns_pending s) (ns_delivered s) (ns_closed s) (ns_fates s)).
Proof.
  intros Hg Ho [H1 H2 H3 H4]. rewrite Hg in *. apply NoDup_app in H3 as H3'. destruct H3' as (_ & _ & H3').
  assert (Hnot : owner ∉ pre ++ post) by (rewrite <- Permutation_middle in H3; by inversion H3).
  split; simpl; [|intros o Hin|rewrite <- Permutation_middle in H3; by inversion H3|done].
  - intros i e He%unregister_owned_lookup. destruct He as [He Hne]. destruct (H1 _ _ He) as [Hi Hin]. split; [done|].
    rewrite <- Permutation_middle in Hin. inversion Hin; subst; [|done]. by destruct Hne; [congruence|].
  - destruct (H2 o) as (i & Hi & Hs); [rewrite <- Permutation_middle; by right|]. exists i. split; [done|].
    destruct Hs as [?|[k Hk]]; [by left|right]. exists k. apply unregister_owned_lookup. split; [done|].
    simpl. intros _ ->. done.
Qed.

Lemma answered_subs_inv local_id e answer s acceptance close subs pending closed fates :
  publish_answered local_id e answer (ns_subs s) = (acceptance, close, subs) -> subs_inv s ->
  subs_inv (mkService subs (ns_owners s) (ns_guards s)
              (match se_kind e, answer with Legacy, Rejected => se_owner e :: ns_failed s | _, _ => ns_failed s end)
              (ns_seen s) pending (ns_delivered s) closed fates).
Proof.
  intros Hp [H1 H2 H3 H4]. unfold publish_answered in Hp. injection Hp as _ _ <-.
  destruct (se_kind e), answer; try by split.
  split; simpl; [|intros o Hin|done|done].
  - intros i e' [He _]%unregister_owned_lookup. by apply H1.
  - destruct (H2 o Hin) as (i & Hi & Hs). exists i. split; [done|]. destruct Hs as [?|[k Hk]]; [by left; right|].
    destruct (decide (o = se_owner e)) as [->|Hne]; [by left; left|]. right. exists k. by apply unregister_owned_lookup.
Qed.

Lemma net_step_subs s s' : net_step s s' -> subs_inv s -> subs_inv s'.
Proof.
  intros H Hi. destruct H.
  - by eapply subscription_registered_inv.
  - by eapply guard_drop_inv.
  - eapply subs_inv_frame; [..|exact Hi]; try done. by left.
  - eapply subs_inv_frame; [..|exact Hi]; try done. simpl. intros t' i o Hin. inversion Hin; subst; [|by left].
    right. unfold dispatch_tunnel in H0. repeat case_match; simplify_eq. by apply Hi.
  - by eapply answered_subs_inv.
Qed.

(** *** What becomes of the tunnels *)

Record fate_inv (s : NetService) : Prop := {
  fi_nodup : NoDup (ns_seen s);
  fi_seen : ns_seen s ≡ₚ map (fun x => fst (fst x)) (ns_pending s) ++ map fst (ns_fates s);
  fi_closed : ns_closed s = map fst (List.filter (fun f => bool_decide (snd f = Rejected)) (ns_fates s));
  fi_once : NoDup (map (fun x => fst (fst x)) (ns_delivered s));
  fi_delivered : map (fun x => fst (fst x)) (ns_delivered s) ⊆ ns_seen s;
  fi_pending t i e : (t, i, e) ∈ ns_pending s -> (t, i, se_owner e) ∈ ns_delivered s;
  fi_accepted t : (t, Accepted) ∈ ns_fates s -> exists i o, (t, i, o) ∈ ns_delivered s;
}.

Lemma net_step_fate s s' : net_step s s' -> fate_inv s -> fate_inv s'.
Proof.
  intros H [F1 F2 F3 F4 F5 F6 F7]. destruct H as [| |t verdict ctx s Ht Hd|t verdict ctx e s Ht Hd|t i e answer s pre post acc close subs Hp Ha];
    try by split.
  - split; simpl; [by constructor|rewrite F2; apply Permutation_middle|by rewrite F3|done|set_solver|done|].
    intros t' Hin. inversion Hin; subst. by apply F7.
  - split; simpl; [by constructor|by rewrite F2|done|constructor; [set_solver|done]|set_solver| |].
    + intros t' i' e' Hin. inversion Hin; subst; [left|right; by apply F6].
    + intros t' Hin. destruct (F7 _ Hin) as (i & o & ?). exists i, o. by right.
  - rewrite Hp in *. unfold publish_answered in Ha. simplify_eq. split; simpl; [done| | |done|done| |].
    + rewrite F2, !map_app. simpl. rewrite <- !app_assoc. apply Permutation_app_head. simpl. apply Permutation_middle.
    + rewrite F3. by destruct acc.
    + intros t' i' e' Hin. apply F6. rewrite <- Permutation_middle. by right.
    + intros t' Hin. inversion Hin; subst; [|by apply F7]. exists i, (se_owner e). apply F6.
      rewrite <- Permutation_middle. left.
Qed.

Lemma elem_of_List_filter {A} (f : A -> bool) x l : x ∈ List.filter f l <-> x ∈ l /\ f x = true.
Proof. rewrite !list_elem_of_In. apply filter_In. Qed.
Lemma NoDup_map_filter {A B} (g : A -> B) (f : A -> bool) l : NoDup (map g l) -> NoDup (map g (List.filter f l)).
Proof.
  induction l as [|x l IH]; [done|]. simpl. intros [Hx Hl]%NoDup_cons. destruct (f x); [|by apply IH].
  simpl. apply NoDup_cons. split; [|by apply IH]. intros (y & Hy & [Hin _]%elem_of_List_filter)%list_elem_of_fmap.
  apply Hx. rewrite Hy. by apply list_elem_of_fmap_2.
Qed.

(** C13: In every interleaving of registrations, dropped guards, validations and
    answers of callbacks: a tunnel that was dispatched is waiting for the answer
    of one callback or has one fate, the tunnels closed are the rejected ones,
    each once, and an accepted one went to exactly one callback, that of a
    subscriber of its local id; a subscriber stays registered until its own guard
    is dropped or its own callback reports it closed, whatever older subscribers
    of the id do, and no subscriber outlives its guard. *)
Theorem incoming_tunnels_settled_once s :
  rtc net_step net_service_new s ->
  NoDup (map (fun x => fst (fst x)) (ns_pending s) ++ map fst (ns_fates s))
  /\ (forall t, t ∈ ns_seen s <-> t ∈ map (fun x => fst (fst x)) (ns_pending s) \/ t ∈ map fst (ns_fates s))
  /\ NoDup (ns_closed s) /\ (forall t, t ∈ ns_closed s <-> (t, Rejected) ∈ ns_fates s)
  /\ NoDup (map (fun x => fst (fst x)) (ns_delivered s))
  /\ (forall t, (t, Accepted) ∈ ns_fates s -> exists i o, (t, i, o) ∈ ns_delivered s /\ ns_owners s !! o = Some i)
  /\ (forall o, o ∈ ns_guards s -> o ∈ ns_failed s
        \/ exists i kind, ns_owners s !! o = Some i /\ ns_subs s !! i = Some (mkEntry o kind))
  /\ (forall i e, ns_subs s !! i = Some e -> se_owner e ∈ ns_guards s).
Proof.
  intros Hr. assert (Hs : subs_inv s).
  { eapply (rtc_preserves net_step subs_inv); [intros ??; apply net_step_subs|exact Hr|].
    split; simpl; [done|intros ? H; inversion H|constructor|intros ??? H; inversion H]. }
  assert (Hf : fate_inv s).
  { eapply (rtc_preserves net_step fate_inv); [intros ??; apply net_step_fate|exact Hr|].
    split; simpl; try done; try constructor; intros; by match goal with H : _ ∈ [] |- _ => inversion H end. }
  destruct Hf as [F1 F2 F3 F4 F5 F6 F7]. split_and!.
  - by rewrite <- F2.
  - intros t. rewrite F2. apply elem_of_app.
  - rewrite F3. rewrite F2 in F1. apply NoDup_app in F1 as (_ & _ & F1). by apply NoDup_map_filter.
  - intros t. rewrite F3. split.
    + intros ([t' a] & -> & [Hin Ha%bool_decide_eq_true]%elem_of_List_filter)%list_elem_of_fmap. simpl in *. by subst.
    + intros Hin. apply list_elem_of_fmap. exists (t, Rejected). split; [done|]. by apply elem_of_List_filter.
  - done.
  - intros t Ht. destruct (F7 _ Ht) as (i & o & Hd). exists i, o. split; [done|]. by eapply (si_delivered s Hs).
  - intros o Ho. destruct (si_guard s Hs _ Ho) as (i & Hi & [?|[k Hk]]); [by left|]. right. by exists i, k.
  - intros i e He. by apply (si_owner s Hs) in He as [_ ?].
Qed.
