(* ===== verification/TcpNetwork.v ===== *)
(** * The TCP network (src/p2p-frame/src/networks/tcp/{network,listener}.rs)

    Tunnel ids, the handshake of a control connection on both sides, the
    registry that leads data connections to their tunnel, the listener and the
    network as the manager uses it.

    Sockets and TLS are inputs: a connection is the pair of ids TLS has
    authenticated and the hello it has carried; writing and reading a frame is
    its result.  Tunnels are numbers; whether [Weak::upgrade] finds one that is
    not closed is an argument. *)

From S2P Require Import Prelude.
From S2P Require Import Errors.
From S2P Require Import Ids.
From S2P Require Import Endpoint.
From S2P Require Import OpenTunnel.
From S2P Require Import PnServer.
From S2P Require Import NetManager.
From S2P Require Import TunnelCommand.

(** ** Tunnel ids *)

Definition TUNNEL_ID_HIGH_BIT : Z := Z.shiftl 1 31.
Definition creator_high_bit (local_id remote_id : P2pId) : Z :=
  match list_compare (p2pid_bytes local_id) (p2pid_bytes remote_id) with Gt => TUNNEL_ID_HIGH_BIT | _ => 0 end.

(** The loop; the result has the counter left.  [None]: [turns] were not enough. *)
Fixpoint next_tunnel_id (turns : nat) (local_id remote_id : P2pId) (cur : Z) : option (Z * Z) :=
  match turns with
  | O => None
  | S turns =>
      let '(v, cur) := TunnelIdGenerator_generate cur in
      let seq := Z.land v (u32_max - TUNNEL_ID_HIGH_BIT) in
      if negb (seq =? 0) then Some (Z.lor (creator_high_bit local_id remote_id) seq, cur)
      else next_tunnel_id turns local_id remote_id cur
  end.

(** ** The registry *)

Notation TunnelKey := (P2pId * P2pId * Z * Z)%type.
Notation TcpTunnelRegistry := (gmap TunnelKey nat).

Definition tcp_registry_register (key : TunnelKey) (t : nat) (m : TcpTunnelRegistry) : TcpTunnelRegistry := <[key := t]> m.

(** [live t]: the weak reference upgrades and the tunnel is not closed. *)
Definition find_tunnel (live : nat -> bool) (key : TunnelKey) (m : TcpTunnelRegistry) : option nat * TcpTunnelRegistry :=
  match m !! key with
  | Some t => if live t then (Some t, m) else (None, delete key m)
  | None => (None, m)
  end.
Definition cleanup_stale (live : nat -> bool) (m : TcpTunnelRegistry) : nat * TcpTunnelRegistry :=
  let m' := filter (fun x => live (snd x) = true) m in ((size m - size m')%nat, m').

(** ** Opening *)

(** [open_tunnel_inner] up to the connection: the hello, and the counter. *)
Definition open_hello (local_id remote_id : P2pId) (intent : TunnelConnectIntent) (cur : Z)
    : option (TcpConnectionHello * Z) :=
  x ← (if in_tunnel_id intent =? 0 then next_tunnel_id 2 local_id remote_id cur else Some (in_tunnel_id intent, cur));
  let '(tunnel_id, cur) := x in
  let candidate_id := if in_candidate_id intent =? 0 then tunnel_id else in_candidate_id intent in
  Some (mkHello RoleControl tunnel_id candidate_id (in_is_reverse intent) None None, cur).

(** The rest of [open_tunnel_inner]; [connected] has the remote id TLS found,
    [ready] the frame read or the error, [None] when time ran out.  The key is
    the one the tunnel is registered under. *)
Definition open_finish (local_id : P2pId) (hello : TcpConnectionHello) (connected : P2pResult P2pId)
    (ready : option (P2pResult ControlConnReady)) : P2pResult TunnelKey :=
  remote_id <-? connected ;;
  ready <-? (match ready with None => Err P2pErrorCode.Timeout | Some r => r end) ;;
  if negb (cr_tunnel_id ready =? he_tunnel_id hello) || negb (cr_candidate_id ready =? he_candidate_id hello)
  then Err P2pErrorCode.InvalidData
  else match cr_result ready with
       | CtrlSuccess => Ok (local_id, remote_id, he_tunnel_id hello, he_candidate_id hello)
       | _ => Err P2pErrorCode.Reject
       end.

(** ** Accepting *)

Inductive TcpIncomingControlDecision := CtlAccept | CtlProtocolError | CtlTunnelConflictLost.

Definition validate_control_hello (h : TcpConnectionHello) : TcpIncomingControlDecision :=
  match he_role h, he_conn_id h, he_open_request_id h with
  | RoleControl, None, None => CtlAccept
  | _, _, _ => CtlProtocolError
  end.

(** tcp/tunnel.rs: the frame written, and the outcome when writing it gave
    [written]: whether a tunnel is made. *)
Definition control_ready (d : TcpIncomingControlDecision) (h : TcpConnectionHello) : ControlConnReady :=
  mkControlReady (he_tunnel_id h) (he_candidate_id h)
    (match d with CtlAccept => CtrlSuccess | CtlProtocolError => CtrlProtocolError
                | CtlTunnelConflictLost => CtrlTunnelConflictLost end).
Definition accept_control_connection (d : TcpIncomingControlDecision) (h : TcpConnectionHello) (written : P2pResult unit)
    : P2pResult bool :=
  _ <-? written ;;
  Ok (match cr_result (control_ready d h) with CtrlSuccess => true | _ => false end).

(** [identity]: the resolver knows the local name. *)
Definition on_control_connection (identity : bool) (h : TcpConnectionHello) (written : P2pResult unit) : P2pResult bool :=
  if negb identity then Err P2pErrorCode.CertError
  else accept_control_connection (validate_control_hello h) h written.

(** The tunnel a data connection goes to, or the frame that refuses it. *)
Definition on_data_connection (live : nat -> bool) (local_id remote_id : P2pId) (h : TcpConnectionHello)
    (m : TcpTunnelRegistry) : nat + DataConnReady :=
  match fst (find_tunnel live (local_id, remote_id, he_tunnel_id h, he_candidate_id h) m) with
  | Some t => inl t
  | None => inr (mkDataReady (default 0 (he_conn_id h)) (he_candidate_id h) DataTunnelNotFound)
  end.

(** [handle_accepted_stream] after the manager has answered. *)
Definition register_accepted (listener_closed : bool) (live : nat -> bool) (acceptance : IncomingTunnelAcceptance)
    (key : TunnelKey) (t : nat) (m : TcpTunnelRegistry) : TcpTunnelRegistry :=
  if bool_decide (acceptance = Accepted) && negb listener_closed && live t then tcp_registry_register key t m else m.

(** ** The listeners of the network *)

Record TcpTunnelListenerState := mkTcpListener {
  tl_local : Endpoint; tl_outer : option Endpoint; tl_bound_local : Endpoint; tl_mapping_port : option Z; tl_closed : bool }.

(** [bound]: what binding to port 0 gives; [serves]: the server starts. *)
Definition resolve_tcp_bind_endpoint (bound : P2pResult SocketAddr) (local : Endpoint) : P2pResult Endpoint :=
  if negb (port_of (addr local) =? 0) then Ok local
  else a <-? bound ;; Ok (endpoint_from Tcp a).
Definition tcp_listen (bound : P2pResult SocketAddr) (serves : bool) (local : Endpoint) (out : option Endpoint)
    (mapping_port : option Z) (ls : list TcpTunnelListenerState) : P2pResult unit * list TcpTunnelListenerState :=
  match resolve_tcp_bind_endpoint bound local with
  | Err e => (Err e, ls)
  | Ok bind_local =>
      if serves then (Ok tt, ls ++ [mkTcpListener local out bind_local mapping_port false])
      else (Err P2pErrorCode.AlreadyExists, ls)
  end.
Definition tcp_listener_infos (ls : list TcpTunnelListenerState) : list TunnelListenerInfo :=
  map (fun l => mkListenerInfo (tl_bound_local l) (tl_mapping_port l)) ls.
(** The listeners closed, and those left. *)
Definition tcp_close_all_listener (ls : list TcpTunnelListenerState)
    : list TcpTunnelListenerState * list TcpTunnelListenerState :=
  (map (fun l => mkTcpListener (tl_local l) (tl_outer l) (tl_bound_local l) (tl_mapping_port l) true) ls, []).

(** The TCP network of the manager, [bound] and [serves] being the answers of
    the system. *)
#[local] Program Instance tcp_network (bound : P2pResult SocketAddr) (serves : Endpoint -> bool)
    : TunnelNetwork (list TcpTunnelListenerState) := {|
  network_listen local out port ls := tcp_listen bound (serves local) local out port ls;
  listeners_of ls := map (fun l => (tl_local l, tl_outer l, tl_mapping_port l)) ls;
|}.
Next Obligation.
  intros bound serves local out port ls r ls'. unfold tcp_listen.
  repeat case_match; intros; simplify_eq; [|done..]. by rewrite map_app.
Qed.

(** ** The ids of the two ends are apart *)

Lemma land_low v : Z.land v (u32_max - TUNNEL_ID_HIGH_BIT) = v mod 2 ^ 31.
Proof. change (u32_max - TUNNEL_ID_HIGH_BIT) with (Z.ones 31). by rewrite Z.land_ones. Qed.

(** The low bits a call takes: those of the counter, 1 in place of 0. *)
Definition low_id (cur : Z) : Z := let s := cur mod 2 ^ 31 in if s =? 0 then 1 else s.

Lemma low_id_range cur : 1 <= low_id cur < 2 ^ 31.
Proof.
  unfold low_id. pose proof (Z.mod_pos_bound cur (2 ^ 31) ltac:(done)). destruct (Z.eqb_spec (cur mod 2 ^ 31) 0); lia.
Qed.

Lemma wrap_u32 v : wrapping_add_u32 v 1 = (v + 1) mod 2 ^ 32.
Proof. reflexivity. Qed.

(** Two turns are enough from any counter. *)
Lemma next_tunnel_id_spec a b cur :
  is_u32 cur ->
  exists cur', next_tunnel_id 2 a b cur = Some (Z.lor (creator_high_bit a b) (low_id cur), cur')
    /\ is_u32 cur' /\ cur' mod 2 ^ 31 = (low_id cur + 1) mod 2 ^ 31.
Proof.
  unfold is_u32, u32_max. intros Hc. unfold next_tunnel_id, TunnelIdGenerator_generate, generate, fetch_add, low_id.
  rewrite !wrap_u32. destruct (decide (cur = 0)) as [->|H0].
  { exists 2. repeat split; try done. }
  rewrite (proj2 (Z.eqb_neq cur 0) H0), land_low. destruct (Z.eqb_spec (cur mod 2 ^ 31) 0) as [Hz|Hz]; cbn [negb].
  - assert (cur = 2 ^ 31) as -> by (pose proof (Z.div_mod cur (2 ^ 31) ltac:(done)); lia).
    exists (2 ^ 31 + 2). repeat split; try done.
  - eexists. split; [done|]. pose proof (Z.mod_pos_bound (cur + 1) (2 ^ 32) ltac:(done)). split; [lia|].
    rewrite Z.add_mod_idemp_l by done. apply Z.mod_mod_divide. by exists 2.
Qed.

Lemma high_bit_lor a b s : 0 <= s < 2 ^ 31 -> Z.lor (creator_high_bit a b) s = creator_high_bit a b + s.
Proof.
  intros Hs. rewrite Z.add_nocarry_lxor; [symmetry; apply Z.lxor_lor|]; unfold creator_high_bit; repeat case_match; try done.
  all: change TUNNEL_ID_HIGH_BIT with (2 ^ 31); apply Z.bits_inj'; intros n Hn; rewrite Z.land_spec, Z.bits_0.
  all: destruct (decide (n = 31)) as [->|Hne];
    [rewrite <- (Z.mod_small s (2 ^ 31)), Z.mod_pow2_bits_high by lia; apply andb_false_r|
     rewrite Z.pow2_bits_false by lia; done].
Qed.

Fixpoint next_tunnel_ids (n : nat) (a b : P2pId) (cur : Z) : option (list Z) :=
  match n with
  | O => Some []
  | S n => x ← next_tunnel_id 2 a b cur; rest ← next_tunnel_ids n a b (snd x); Some (fst x :: rest)
  end.

Lemma next_ids_spec n a b cur :
  is_u32 cur ->
  next_tunnel_ids n a b cur
  = Some (map (fun k => creator_high_bit a b + (1 + (low_id cur - 1 + Z.of_nat k) mod (2 ^ 31 - 1))) (seq 0 n)).
Proof.
  revert cur. induction n as [|n IH]; intros cur Hc; [done|]. cbn [next_tunnel_ids].
  destruct (next_tunnel_id_spec a b cur Hc) as (cur' & -> & Hc' & Hm). simpl. rewrite (IH _ Hc'). simpl.
  pose proof (low_id_range cur) as Hl. rewrite high_bit_lor by lia. f_equal. f_equal.
  - rewrite Z.mod_small; lia.
  - rewrite <- seq_shift, map_map. apply map_ext. intros k. do 2 f_equal.
    unfold low_id at 1. rewrite Hm. destruct (decide (low_id cur = 2 ^ 31 - 1)) as [->|Hne].
    + change ((2 ^ 31 - 1 + 1) mod 2 ^ 31 =? 0) with true. cbn iota.
      replace (2 ^ 31 - 1 - 1 + Z.of_nat (S k)) with (Z.of_nat k + 1 * (2 ^ 31 - 1)) by lia. by rewrite Z.mod_add by done.
    + rewrite (Z.mod_small (low_id cur + 1)) by lia. rewrite (proj2 (Z.eqb_neq (low_id cur + 1) 0)) by lia. f_equal. lia.
Qed.

Lemma high_bits_differ a b : a <> b -> creator_high_bit a b <> creator_high_bit b a.
Proof.
  intros Hne. unfold creator_high_bit. pose proof (cmp_opp P2pId_cmp a b) as Ho. unfold P2pId_cmp in Ho.
  destruct (list_compare (p2pid_bytes a) (p2pid_bytes b)) eqn:E; rewrite Ho; simpl; try done.
  apply (cmp_eq list_compare) in E. destruct a, b. simpl in E. congruence.
Qed.

Lemma id_low s k : 1 <= 1 + (s - 1 + Z.of_nat k) mod (2 ^ 31 - 1) < 2 ^ 31.
Proof. pose proof (Z.mod_pos_bound (s - 1 + Z.of_nat k) (2 ^ 31 - 1) ltac:(done)). lia. Qed.
Lemma high_bit_cases a b : creator_high_bit a b = 0 \/ creator_high_bit a b = 2 ^ 31.
Proof. unfold creator_high_bit. repeat case_match; auto. Qed.
Lemma high_part a b c d x y :
  1 <= x < 2 ^ 31 -> 1 <= y < 2 ^ 31 -> creator_high_bit a b + x = creator_high_bit c d + y ->
  creator_high_bit a b = creator_high_bit c d.
Proof. intros Hx Hy E. destruct (high_bit_cases a b), (high_bit_cases c d); lia. Qed.
Lemma id_range a b s k : 0 < creator_high_bit a b + (1 + (s - 1 + Z.of_nat k) mod (2 ^ 31 - 1)) <= u32_max.
Proof. pose proof (id_low s k). unfold u32_max. destruct (high_bit_cases a b); lia. Qed.

Lemma ids_nodup h s n :
  Z.of_nat n < 2 ^ 31 -> NoDup (map (fun k => h + (1 + (s - 1 + Z.of_nat k) mod (2 ^ 31 - 1))) (seq 0 n)).
Proof.
  intros Hn. apply NoDup_fmap_2_strong; [|apply NoDup_seq]. intros x y Hx%elem_of_seq Hy%elem_of_seq E.
  assert (E' : (s - 1 + Z.of_nat x) mod (2 ^ 31 - 1) = (s - 1 + Z.of_nat y) mod (2 ^ 31 - 1)) by lia.
  pose proof (Z.div_mod (s - 1 + Z.of_nat x) (2 ^ 31 - 1) ltac:(done)).
  pose proof (Z.div_mod (s - 1 + Z.of_nat y) (2 ^ 31 - 1) ltac:(done)). nia.
Qed.

(** C27: Tunnel ids are apart: from any state of the two counters each end gets
    as many ids as it asks for (the loop ends, within two turns), all of them
    nonzero and of 32 bits; an end repeats none among fewer than 2^31 calls, and
    no id of one end for the other is one the other takes for it, since the high
    bit says which of the two has the greater identity. *)
Theorem tunnel_ids_apart a b m n cur_a cur_b :
  a <> b -> is_u32 cur_a -> is_u32 cur_b -> Z.of_nat m < 2 ^ 31 -> Z.of_nat n < 2 ^ 31 ->
  exists ids_a ids_b,
    next_tunnel_ids m a b cur_a = Some ids_a /\ next_tunnel_ids n b a cur_b = Some ids_b
    /\ length ids_a = m /\ length ids_b = n
    /\ Forall (fun id => 0 < id <= u32_max) (ids_a ++ ids_b) /\ NoDup (ids_a ++ ids_b).
Proof.
  intros Hne Ha Hb Hm Hn. rewrite (next_ids_spec m a b _ Ha), (next_ids_spec n b a _ Hb). eexists _, _.
  split_and!; [done|done|by rewrite length_map, length_seq..| |].
  - apply Forall_app. split; apply Forall_map, Forall_true; intros k; apply id_range.
  - apply NoDup_app. split_and!; [by apply ids_nodup| |by apply ids_nodup].
    intros x (k & -> & _)%list_elem_of_fmap (k' & E & _)%list_elem_of_fmap. apply (high_bits_differ a b Hne).
    exact (high_part a b b a _ _ (id_low (low_id cur_a) k) (id_low (low_id cur_b) k') E).
Qed.

(** ** Data connections reach the tunnel that was accepted *)

(** The TCP network beside the manager.  [ts_keys]: the ids under which the
    control connection of a tunnel was authenticated; [ts_opened]: the tunnels
    opened from here; [ts_dead]: those closed or dropped since, by anyone. *)
Record TcpService := mkTcpService {
  ts_manager : NetService;
  ts_registry : TcpTunnelRegistry;
  ts_listener_closed : bool;
  ts_keys : gmap nat TunnelKey;
  ts_opened : list nat;
  ts_dead : list nat;
}.
Definition tcp_service_new : TcpService := mkTcpService net_service_new ∅ false ∅ [] [].
Definition ts_live (s : TcpService) (t : nat) : bool := bool_decide (t ∉ ts_dead s).

Definition hello_key (local_id remote_id : P2pId) (h : TcpConnectionHello) : TunnelKey :=
  (local_id, remote_id, he_tunnel_id h, he_candidate_id h).

Inductive tcp_step : TcpService -> TcpService -> Prop :=
(** A control connection is accepted and handed to the manager; the listener
    closes the tunnel itself when it is closed. *)
| TS_control_closed t identity local_id remote_id h written s :
    ts_keys s !! t = None -> t ∉ ns_seen (ts_manager s) -> on_control_connection identity h written = Ok true ->
    ts_listener_closed s = true ->
    tcp_step s (mkTcpService (ts_manager s) (ts_registry s) true (<[t := hello_key local_id remote_id h]> (ts_keys s))
                  (ts_opened s) (t :: ts_dead s))
| TS_control_dispatch t identity local_id remote_id h written verdict ctx s :
    ts_keys s !! t = None -> t ∉ ns_seen (ts_manager s) -> on_control_connection identity h written = Ok true ->
    ts_listener_closed s = false ->
    vc_local_id ctx = local_id -> vc_remote_id ctx = remote_id ->
    tcp_step s (mkTcpService (match dispatch_tunnel verdict ctx (ns_subs (ts_manager s)) with
                              | DispatchClose => service_closes t (ts_manager s)
                              | DispatchPublish e => service_publishes t local_id e (ts_manager s)
                              end)
                  (ts_registry s) false (<[t := hello_key local_id remote_id h]> (ts_keys s)) (ts_opened s)
                  (match dispatch_tunnel verdict ctx (ns_subs (ts_manager s)) with
                   | DispatchClose => t :: ts_dead s | DispatchPublish _ => ts_dead s end))
(** The manager goes on: subscribers, answers, the tunnels of other networks. *)
| TS_manager m s :
    net_step (ts_manager s) m -> (forall t, t ∈ ns_seen m -> t ∈ ns_seen (ts_manager s) \/ ts_keys s !! t = None) ->
    tcp_step s (mkTcpService m (ts_registry s) (ts_listener_closed s) (ts_keys s) (ts_opened s)
                  (ns_closed m ++ ts_dead s))
| TS_answered t key acceptance s :
    (t, acceptance) ∈ ns_fates (ts_manager s) -> ts_keys s !! t = Some key ->
    tcp_step s (mkTcpService (ts_manager s)
                  (register_accepted (ts_listener_closed s) (ts_live s) acceptance key t (ts_registry s))
                  (ts_listener_closed s) (ts_keys s) (ts_opened s) (ts_dead s))
| TS_open t local_id h connected ready key s :
    ts_keys s !! t = None -> t ∉ ns_seen (ts_manager s) -> open_finish local_id h connected ready = Ok key ->
    tcp_step s (mkTcpService (ts_manager s) (tcp_registry_register key t (ts_registry s)) (ts_listener_closed s)
                  (<[t := key]> (ts_keys s)) (t :: ts_opened s) (ts_dead s))
| TS_dies t s : tcp_step s (mkTcpService (ts_manager s) (ts_registry s) (ts_listener_closed s) (ts_keys s) (ts_opened s)
                              (t :: ts_dead s))
| TS_close s : tcp_step s (mkTcpService (ts_manager s) (ts_registry s) true (ts_keys s) (ts_opened s) (ts_dead s))
| TS_cleanup s :
    tcp_step s (mkTcpService (ts_manager s) (snd (cleanup_stale (ts_live s) (ts_registry s))) (ts_listener_closed s)
                  (ts_keys s) (ts_opened s) (ts_dead s))
| TS_data_refused local_id remote_id h ready s :
    on_data_connection (ts_live s) local_id remote_id h (ts_registry s) = inr ready ->
    tcp_step s (mkTcpService (ts_manager s) (snd (find_tunnel (ts_live s) (hello_key local_id remote_id h) (ts_registry s)))
                  (ts_listener_closed s) (ts_keys s) (ts_opened s) (ts_dead s)).

(** The tunnel may have data connections under the key. *)
Definition entitled (s : TcpService) (key : TunnelKey) (t : nat) : Prop :=
  ts_keys s !! t = Some key /\ (t ∈ ts_opened s \/ (t, Accepted) ∈ ns_fates (ts_manager s)).

Record tcp_inv (s : TcpService) : Prop := {
  ti_subs : subs_inv (ts_manager s);
  ti_fates : fate_inv (ts_manager s);
  ti_registry key t : ts_registry s !! key = Some t -> entitled s key t;
  ti_opened t : t ∈ ts_opened s -> t ∉ ns_seen (ts_manager s) /\ is_Some (ts_keys s !! t);
  ti_delivered t i o key :
    (t, i, o) ∈ ns_delivered (ts_manager s) -> ts_keys s !! t = Some key -> fst (fst (fst key)) = i;
}.

Lemma net_step_mono s s' :
  net_step s s' -> ns_seen s ⊆ ns_seen s' /\ ns_fates s ⊆ ns_fates s'
  /\ (forall t i o, (t, i, o) ∈ ns_delivered s' -> (t, i, o) ∈ ns_delivered s \/ t ∉ ns_seen s).
Proof. intros []; simpl; split_and!; set_solver. Qed.

Lemma dispatch_is_step t verdict ctx s :
  t ∉ ns_seen s ->
  net_step s (match dispatch_tunnel verdict ctx (ns_subs s) with
              | DispatchClose => service_closes t s
              | DispatchPublish e => service_publishes t (vc_local_id ctx) e s
              end).
Proof. intros Ht. destruct (dispatch_tunnel _ _ _) eqn:E; [by eapply NS_dispatch_close|by eapply NS_dispatch_publish]. Qed.

(** What the manager does keeps the invariant. *)
Lemma manager_inv m s closed dead :
  net_step (ts_manager s) m ->
  (forall t, t ∈ ns_seen m -> t ∈ ns_seen (ts_manager s) \/ t ∉ ts_opened s) ->
  (forall t i o key, (t, i, o) ∈ ns_delivered m -> t ∉ ns_seen (ts_manager s) -> ts_keys s !! t = Some key ->
     fst (fst (fst key)) = i) ->
  tcp_inv s -> tcp_inv (mkTcpService m (ts_registry s) closed (ts_keys s) (ts_opened s) dead).
Proof.
  intros Hs Hn Hd [I1 I2 I3 I4 I5]. destruct (net_step_mono _ _ Hs) as (M1 & M2 & M3).
  split; simpl; [by eapply net_step_subs|by eapply net_step_fate| | |].
  - intros key t [Hk Ha]%I3. split; [done|]. destruct Ha; [by left|right; by apply M2].
  - intros t Ht. destruct (I4 _ Ht). split; [|done]. intros Hin. by destruct (Hn _ Hin).
  - intros t i o key Hin Hk. destruct (M3 _ _ _ Hin); [by eapply I5|by eapply Hd].
Qed.

(** A tunnel that neither the manager nor the network has seen gets its key. *)
Lemma fresh_key_inv t key s closed opened dead :
  ts_keys s !! t = None -> t ∉ ns_seen (ts_manager s) -> (opened = ts_opened s \/ opened = t :: ts_opened s) ->
  tcp_inv s -> tcp_inv (mkTcpService (ts_manager s) (ts_registry s) closed (<[t := key]> (ts_keys s)) opened dead).
Proof.
  intros Hk Ht Ho [I1 I2 I3 I4 I5]. assert (Hsub : ts_opened s ⊆ opened) by (destruct Ho as [-> | ->]; set_solver).
  split; simpl; [done|done| | |].
  - intros k t' [Hk' Ha]%I3. split; [simpl; rewrite lookup_insert_ne by congruence; done|].
    simpl. destruct Ha; [left; by apply Hsub|by right].
  - intros t' Hin. destruct (decide (t = t')) as [<-|Hne]; [rewrite lookup_insert_eq; eauto|].
    rewrite lookup_insert_ne by done. apply I4. destruct Ho as [-> | ->]; [done|]. by inversion Hin.
  - intros t' i o k Hin Hk'. rewrite lookup_insert_ne in Hk'; [by eapply I5|]. intros <-.
    apply Ht, (fi_delivered _ I2), list_elem_of_fmap. by exists (t, i, o).
Qed.

Lemma registry_inv r s :
  (forall key t, r !! key = Some t -> ts_registry s !! key = Some t \/ entitled s key t) ->
  tcp_inv s -> tcp_inv (mkTcpService (ts_manager s) r (ts_listener_closed s) (ts_keys s) (ts_opened s) (ts_dead s)).
Proof. intros Hr [I1 I2 I3 I4 I5]. split; simpl; try done. intros key t Hk. by destruct (Hr _ _ Hk) as [?%I3|]. Qed.

Lemma tcp_step_inv s s' : tcp_step s s' -> tcp_inv s -> tcp_inv s'.
Proof.
  intros H Hi. destruct H as [t id l r h w s Hk Ht _ _|t id l r h w v ctx s Hk Ht _ _ <- <-|m s Hm Hn|t key a s Ha Hk|
    t l h c rd key s Hk Ht _|t s|s|s|l r h rd s _].
  - apply fresh_key_inv; auto.
  - assert (Ho : t ∉ ts_opened s) by (intros [_ [k Hk']]%(ti_opened _ Hi); congruence).
    pose proof (dispatch_is_step t v ctx _ Ht) as Hd.
    eapply (fresh_key_inv t (hello_key (vc_local_id ctx) (vc_remote_id ctx) h) s false (ts_opened s) (ts_dead s)) in Hi;
      [|done|done|by left].
    eapply (manager_inv _ _ false) in Hi; [exact Hi|exact Hd| |]; simpl.
    + intros t' Hin. destruct (dispatch_tunnel _ _ _); simpl in Hin; inversion Hin; subst; auto.
    + intros t' i o key Hin Hns Hkey. destruct (net_step_mono _ _ Hd) as (_ & _ & _).
      destruct (decide (t' = t)) as [->|Hne].
      * rewrite lookup_insert_eq in Hkey. injection Hkey as <-. simpl.
        destruct (dispatch_tunnel _ _ _); simpl in Hin; [|inversion Hin; subst; [done|]];
          destruct Hns; apply (fi_delivered _ (ti_fates _ Hi)), list_elem_of_fmap; by exists (t, i, o).
      * destruct Hns. destruct (dispatch_tunnel _ _ _); simpl in Hin; [|inversion Hin; subst; [done|]];
          apply (fi_delivered _ (ti_fates _ Hi)), list_elem_of_fmap; by exists (t', i, o).
  - apply manager_inv; [done| | |done].
    + intros t Ht. destruct (Hn _ Ht) as [|Hk]; [by left|right]. intros [_ [k Hk']]%(ti_opened _ Hi). congruence.
    + intros t i o key Hin Hns Hkey. exfalso.
      assert (Hs : t ∈ ns_seen m).
      { apply (fi_delivered _ (net_step_fate _ _ Hm (ti_fates _ Hi))), list_elem_of_fmap. by exists (t, i, o). }
      destruct (Hn _ Hs); [done|congruence].
  - apply registry_inv; [|done]. intros key' t'. unfold register_accepted, tcp_registry_register.
    case_bool_decide as E; cbn [andb]; [subst a|by left]. destruct (_ && _); [|by left].
    intros [[<- <-]|[_ ?]]%lookup_insert_Some; [right|by left]. split; [done|by right].
  - eapply (fresh_key_inv t key s (ts_listener_closed s) (t :: ts_opened s) (ts_dead s)) in Hi; [|done|done|by right].
    eapply (registry_inv (tcp_registry_register key t (ts_registry s))) in Hi; [exact Hi|]. intros key' t'. unfold tcp_registry_register.
    simpl. intros [[<- <-]|[_ ?]]%lookup_insert_Some; [right|by left]. split; simpl; [by rewrite lookup_insert_eq|left; left].
  - destruct Hi; by split.
  - destruct Hi; by split.
  - apply registry_inv; [|done]. intros key t. simpl. intros [? _]%map_lookup_filter_Some. by left.
  - apply registry_inv; [|done]. intros key t. unfold find_tunnel. repeat case_match; simpl; try by left.
    intros [_ ?]%lookup_delete_Some. by left.
Qed.

Lemma tcp_reachable_inv s : rtc tcp_step tcp_service_new s -> tcp_inv s.
Proof.
  intros Hr. eapply (rtc_preserves tcp_step tcp_inv); [intros ??; apply tcp_step_inv|exact Hr|].
  split; simpl; [..|done|intros ? H; inversion H|intros ???? H; inversion H].
  - split; simpl; [done|intros ? H; inversion H|constructor|intros ??? H; inversion H].
  - split; simpl; try done; try constructor; intros; by match goal with H : _ ∈ [] |- _ => inversion H end.
Qed.

(** C8: Data connections reach only their tunnel: in every interleaving of
    control connections, the manager, tunnels opened here, deaths, clean-ups and
    the closing of the listener, a data connection is given to a tunnel that is
    live and whose control connection was authenticated between the same two
    identities with the same tunnel and candidate id, and which was opened here
    or accepted by a subscriber of the local identity, never rejected; an
    accepted tunnel that is live when it is entered is found. *)
Theorem data_connections_reach_accepted s local_id remote_id h t :
  rtc tcp_step tcp_service_new s ->
  on_data_connection (ts_live s) local_id remote_id h (ts_registry s) = inl t ->
  ts_live s t = true /\ ts_keys s !! t = Some (hello_key local_id remote_id h)
  /\ (t ∈ ts_opened s
      \/ (t, Accepted) ∈ ns_fates (ts_manager s) /\ (t, Rejected) ∉ ns_fates (ts_manager s)
         /\ exists o, (t, local_id, o) ∈ ns_delivered (ts_manager s) /\ ns_owners (ts_manager s) !! o = Some local_id)
  /\ forall t', ts_live s t' = true ->
       on_data_connection (ts_live s) local_id remote_id h
         (register_accepted false (ts_live s) Accepted (hello_key local_id remote_id h) t' (ts_registry s)) = inl t'.
Proof.
  intros Hi%tcp_reachable_inv H. unfold on_data_connection, find_tunnel in H.
  destruct (ts_registry s !! _) as [t0|] eqn:Hr; [|done]. destruct (ts_live s t0) eqn:Hl; simplify_eq/=.
  destruct (ti_registry _ Hi _ _ Hr) as [Hk Ha]. split_and!; [done|done| |].
  - destruct Ha as [?|Ha]; [by left|right]. destruct (ti_fates _ Hi) as [F1 F2 _ _ _ _ F7]. split_and!; [done| |].
    + intros Hrej. rewrite F2 in F1. apply NoDup_app in F1 as (_ & _ & F1).
      by discriminate (NoDup_fst_inj _ _ _ _ F1 Ha Hrej).
    + destruct (F7 _ Ha) as (i & o & Hd). pose proof (ti_delivered _ Hi _ _ _ _ Hd Hk) as Ei. simpl in Ei. subst i.
      exists o. split; [done|]. by eapply (si_delivered _ (ti_subs _ Hi)).
  - intros t' Hl'. unfold on_data_connection, find_tunnel, register_accepted, tcp_registry_register. rewrite Hl'. simpl.
    unfold hello_key. by rewrite lookup_insert_eq, Hl'.
Qed.

(** The two sides of the handshake: a listener that knows the name accepts the
    hello of the opener, its frame passes the opener's test, and both sides hold
    the tunnel under the same ids, each with its own identity first. *)
Lemma control_handshake_agrees local_id remote_id intent cur h cur' :
  open_hello local_id remote_id intent cur = Some (h, cur') ->
  on_control_connection true h (Ok tt) = Ok true
  /\ open_finish local_id h (Ok remote_id) (Some (Ok (control_ready (validate_control_hello h) h)))
     = Ok (hello_key local_id remote_id h)
  /\ forall live t m data, live t = true -> he_tunnel_id data = he_tunnel_id h -> he_candidate_id data = he_candidate_id h ->
       on_data_connection live remote_id local_id data (tcp_registry_register (hello_key remote_id local_id h) t m) = inl t.
Proof.
  unfold open_hello. intros Ho. destruct (if in_tunnel_id intent =? 0 then _ else _) as [[tid c]|]; simplify_eq/=.
  split_and!; [done|unfold open_finish; simpl; by rewrite !Z.eqb_refl|].
  intros live t m data Hl Ht Hc. unfold on_data_connection, find_tunnel, tcp_registry_register, hello_key. simpl in *.
  by rewrite Ht, Hc, lookup_insert_eq, Hl.
Qed.

(** A mapped endpoint that fails leaves the listeners before it: the manager is
    not listening, and asking again binds the first endpoint once more. *)
Lemma failed_listen_leaves_listeners :
  let ep p := mkEndpoint Lan Tcp (V4 (mkV4 0 0 0 0) p) in
  let mapped := mkEndpoint Mapped Tcp (V4 (mkV4 203 0 113 7) 80) in
  let m := mkNetListening [(Tcp, [])] [] false in
  let '(r, m') := net_listen (TunnelNetwork0 := tcp_network (Err P2pErrorCode.IoError) (fun _ => true)) [ep 4000; mapped] None m in
  r = Err P2pErrorCode.InvalidParam /\ nl_is_listening m' = false
  /\ nl_networks m' = [(Tcp, [mkTcpListener (ep 4000) None (ep 4000) None false])].
Proof. vm_compute. auto. Qed.

(** ** The properties at work *)

Module NetDemo.

Definition alice : P2pId := mkP2pId [1].
Definition bob : P2pId := mkP2pId [2].
Definition ep (p : Z) : Endpoint := mkEndpoint Lan Tcp (V4 (mkV4 0 0 0 0) p).
Definition mapped : Endpoint := mkEndpoint Mapped Tcp (V4 (mkV4 203 0 113 7) 80).
#[local] Instance demo_network : TunnelNetwork (list TcpTunnelListenerState) :=
  tcp_network (Err P2pErrorCode.IoError) (fun _ => true).
Definition idle : NetListening (list TcpTunnelListenerState) := mkNetListening [(Tcp, [])] [] false.

Lemma net_listen_serves_plan_witness :
  exists served todo,
    listen_plan [ep 4000; mapped; ep 4001] [(mapped, 81)] = map Ok served ++ todo /\ todo = []
    /\ served = [(ep 4000, None, None); (ep 4001, Some mapped, Some 81)].
Proof.
  destruct (net_listen_serves_plan [ep 4000; mapped; ep 4001] (Some [(mapped, 81)]) idle (Ok tt)
              (snd (net_listen [ep 4000; mapped; ep 4001] (Some [(mapped, 81)]) idle)))
    as (served & todo & Hp & Hs & _ & Ht & _); [reflexivity|done|reflexivity|].
  exists served, todo. split_and!; [exact Hp|exact Ht|]. specialize (Hs Tcp). subst todo. rewrite app_nil_r in Hp.
  apply (f_equal (omap (fun r => match r with Ok x => Some x | Err _ => None end))) in Hp. vm_compute in Hp.
  clear Hs. revert Hp. generalize served. clear. intros l. destruct l as [|a [|b [|]]]; vm_compute; congruence.
Defined.

Definition published : NetService :=
  mkService {[ alice := mkEntry 0 Legacy ]} {[ 0%nat := alice ]} [0%nat] [] [7%nat] [(7%nat, alice, mkEntry 0 Legacy)]
    [(7%nat, alice, 0%nat)] [] [].
Definition answered : NetService :=
  mkService {[ alice := mkEntry 0 Legacy ]} {[ 0%nat := alice ]} [0%nat] [] [7%nat] [] [(7%nat, alice, 0%nat)] [] [(7%nat, Accepted)].
Definition demo_ctx : IncomingTunnelValidateContext := mkTunnelContext alice bob Tcp 5 5 false None None.

Lemma registered_step : net_step net_service_new
  (mkService {[ alice := mkEntry 0 Legacy ]} {[ 0%nat := alice ]} [0%nat] [] [] [] [] [] []).
Proof. exact (NS_register alice Legacy 0 net_service_new {[ alice := mkEntry 0 Legacy ]} eq_refl eq_refl). Qed.
Lemma answered_step : net_step published answered.
Proof. exact (NS_answered 7 alice (mkEntry 0 Legacy) Accepted published [] [] Accepted false {[ alice := mkEntry 0 Legacy ]} eq_refl eq_refl). Qed.

Lemma incoming_tunnels_settled_once_witness :
  rtc net_step net_service_new answered /\ NoDup (ns_closed answered)
  /\ exists i o, (7%nat, i, o) ∈ ns_delivered answered /\ ns_owners answered !! o = Some i.
Proof.
  assert (Hr : rtc net_step net_service_new answered).
  { eapply rtc_l; [exact registered_step|]. eapply rtc_l; [|eapply rtc_l; [exact answered_step|apply rtc_refl]].
    apply (NS_dispatch_publish 7 (Ok Accept) demo_ctx (mkEntry 0 Legacy)); [by intros H; inversion H|done]. }
  split; [exact Hr|]. destruct (incoming_tunnels_settled_once answered Hr) as (_ & _ & Hc & _ & _ & Ha & _).
  split; [exact Hc|]. apply Ha. left.
Defined.

Lemma tunnel_ids_apart_witness :
  exists a b, next_tunnel_ids 2 alice bob u32_max = Some a /\ next_tunnel_ids 2 bob alice u32_max = Some b /\ NoDup (a ++ b).
Proof.
  destruct (tunnel_ids_apart alice bob 2 2 u32_max u32_max) as (a & b & Ha & Hb & _ & _ & _ & Hn);
    [done|unfold is_u32, u32_max; lia|unfold is_u32, u32_max; lia|done|done|]. by exists a, b.
Defined.

Definition demo_hello : TcpConnectionHello := mkHello RoleControl 5 5 false None None.
Definition serving : TcpService :=
  mkTcpService answered {[ (alice, bob, 5, 5) := 7%nat ]} false {[ 7%nat := (alice, bob, 5, 5) ]} [] [].

Lemma data_connections_reach_accepted_witness :
  rtc tcp_step tcp_service_new serving
  /\ on_data_connection (ts_live serving) alice bob (mkHello RoleData 5 5 false (Some 9) None) (ts_registry serving) = inl 7%nat
  /\ ts_keys serving !! 7%nat = Some (alice, bob, 5, 5).
Proof.
  assert (Hr : rtc tcp_step tcp_service_new serving).
  { eapply rtc_l; [eapply (TS_manager _ tcp_service_new); [exact registered_step|intros t H; inversion H]|].
    eapply rtc_l; [apply (TS_control_dispatch 7 true alice bob demo_hello (Ok tt) (Ok Accept) demo_ctx);
                   [done|by intros H; inversion H|done..]|].
    eapply rtc_l; [eapply (TS_manager answered); [exact answered_step|intros t; by left]|].
    eapply rtc_l; [apply (TS_answered 7 (alice, bob, 5, 5) Accepted); [left|done]|]. apply rtc_refl. }
  split; [exact Hr|]. split; [reflexivity|].
  by apply (data_connections_reach_accepted serving alice bob (mkHello RoleData 5 5 false (Some 9) None) 7 Hr).
Defined.
End NetDemo.
