(* ===== verification/QuicNetwork.v ===== *)
(** * The QUIC network (src/p2p-frame/src/networks/quic/network.rs)

    The listeners of the network and which of them serves a request: opening a
    tunnel, punching, probing, predicting and validating a prediction; the loop
    that retries a connection while punches open the way; the ids of a tunnel.

    Connections are inputs: an attempt is its result with the times at which the
    loop was at its top and saw the failure.  [local_addr] is the address of a
    worker's socket.  [Endpoint::local] unwraps the bound endpoint: [None] of a
    search of the listeners is its panic. *)

From S2P Require Import Prelude.
From S2P Require Import Errors.
From S2P Require Import Ids.
From S2P Require Import Endpoint.
From S2P Require Import NatType.
From S2P Require Import OpenTunnel.
From S2P Require Import SnService.
From S2P Require Import NetManager.
From S2P Require Import TcpNetwork.
From S2P Require Import QuicListener.

(** ** Retrying a connection *)

Definition UDP_PUNCH_CONNECT_RETRY_INTERVAL : Duration := from_millis 50.

Definition connect_timeout_for_intent (base_timeout : Duration) (i : TunnelConnectIntent) : Duration :=
  if in_udp_punch_enabled i then Z.max base_timeout (udp_punch_burst_window i) else base_timeout.

Definition udp_punch_retry_delay_after_error (elapsed connect_timeout : Duration) (i : TunnelConnectIntent) : option Duration :=
  if negb (in_udp_punch_enabled i) then None
  else let min_failure_window := Z.min (udp_punch_burst_window i) connect_timeout in
       if min_failure_window <=? elapsed then None
       else Some (Z.min (min_failure_window - elapsed) UDP_PUNCH_CONNECT_RETRY_INTERVAL).

(** One turn of the loop: the time elapsed at its top, what the connection gave,
    and the time elapsed then. *)
Record ConnectTurn (C : Type) := mkConnectTurn { ct_top : Duration; ct_result : P2pResult C; ct_failed : Duration }.
Arguments mkConnectTurn {C}.
Arguments ct_top {C}.
Arguments ct_result {C}.
Arguments ct_failed {C}.

(** The times granted to the attempts, and the result when the loop has ended. *)
Fixpoint connect_loop {C} (connect_timeout : Duration) (i : TunnelConnectIntent) (turns : list (ConnectTurn C))
    : list Duration * option (P2pResult C) :=
  match turns with
  | [] => ([], None)
  | t :: turns =>
      if connect_timeout <? ct_top t then ([], Some (Err P2pErrorCode.ConnectFailed))
      else let attempt_timeout := connect_timeout - ct_top t in
           if is_zero attempt_timeout then ([], Some (Err P2pErrorCode.ConnectFailed))
           else match ct_result t with
                | Ok socket => ([attempt_timeout], Some (Ok socket))
                | Err e =>
                    match udp_punch_retry_delay_after_error (ct_failed t) connect_timeout i with
                    | Some _ => let '(granted, r) := connect_loop connect_timeout i turns in
                                (attempt_timeout :: granted, r)
                    | None => ([attempt_timeout], Some (Err e))
                    end
                end
  end.

(** ** Ids of a tunnel *)

(** [resolve_remote_identity]: [peer] is the identity of the peer's certificate. *)
Definition resolve_remote_identity (remote_id : P2pId) (peer : P2pResult P2pId) : P2pResult P2pId :=
  if P2pId_is_default remote_id then peer else Ok remote_id.
(** The ids [finish_connect] gives the tunnel, and the counter. *)
Definition finish_connect (local_id remote_id : P2pId) (peer : P2pResult P2pId) (i : TunnelConnectIntent) (cur : Z)
    : option (P2pResult (P2pId * Z * Z) * Z) :=
  match resolve_remote_identity remote_id peer with
  | Err e => Some (Err e, cur)
  | Ok resolved =>
      x ← (if in_tunnel_id i =? 0 then next_tunnel_id 2 local_id resolved cur else Some (in_tunnel_id i, cur));
      let '(tunnel_id, cur) := x in
      Some (Ok (resolved, tunnel_id, if in_candidate_id i =? 0 then tunnel_id else in_candidate_id i), cur)
  end.

(** ** The network *)

(** The client endpoints, by a number of theirs. *)
Record QuicClientEndpoints := mkClients { qc_ipv4 : option nat; qc_ipv6 : option nat }.
Record QuicTunnelNetwork := mkQuicNet {
  qn_listeners : list QuicTunnelListener;
  qn_client_endpoints : QuicClientEndpoints;
  qn_reuse_address : bool;
}.
Definition quic_network_new : QuicTunnelNetwork := mkQuicNet [] (mkClients None None) false.

(** [created]: the socket bound to [default_udp]. *)
Definition client_endpoint (remote : Endpoint) (created : P2pResult nat) (c : QuicClientEndpoints)
    : P2pResult nat * QuicClientEndpoints :=
  match (if is_ipv4 (addr remote) then qc_ipv4 c else qc_ipv6 c) with
  | Some e => (Ok e, c)
  | None =>
      match created with
      | Err _ => (Err P2pErrorCode.ConnectFailed, c)
      | Ok e => (Ok e, if is_ipv4 (addr remote) then mkClients (Some e) (qc_ipv6 c) else mkClients (qc_ipv4 c) (Some e))
      end
  end.

Definition run_worker_endpoint (l : QuicTunnelListener) (worker : Z) : QuicTunnelListener :=
  let '(go, l) := worker_begin worker l in if go then snd (register_worker_endpoint worker l) else l.

(** [listen]: [served] are the workers that came up while the listener waited
    for the first, or the error of the server; [notified] whether the wait saw
    one come. *)
Definition quic_listen (random : Z) (served : P2pResult (list Z)) (notified : bool) (local : Endpoint) (out : option Endpoint)
    (mapping_port : option Z) (n : QuicTunnelNetwork) : P2pResult unit * QuicTunnelNetwork :=
  let l := listener_bind local out mapping_port (qn_reuse_address n) (quic_listener_new random) in
  match listener_start_check l, served with
  | Err e, _ | _, Err e => (Err e, n)
  | Ok _, Ok workers =>
      let '(r, _, l) := start_ready notified (foldl run_worker_endpoint (set_server l) workers) in
      match r with
      | Err e => (Err e, n)
      | Ok _ => (Ok tt, mkQuicNet (qn_listeners n ++ [l]) (qn_client_endpoints n) (qn_reuse_address n))
      end
  end.
(** The listeners, closed, and the network. *)
Definition quic_close_all_listener (n : QuicTunnelNetwork) : list QuicTunnelListener * QuicTunnelNetwork :=
  (map (fun l => snd (listener_close l)) (qn_listeners n), mkQuicNet [] (qn_client_endpoints n) (qn_reuse_address n)).

Section requests.
Context (local_addr : QuicTunnelListener -> P2pResult SocketAddr).

Definition bound_local (l : QuicTunnelListener) : P2pResult Endpoint :=
  _ <-? endpoints_available l ;; a <-? local_addr l ;; Ok (endpoint_from Quic a).

Definition quic_listener_infos (n : QuicTunnelNetwork) : list TunnelListenerInfo :=
  omap (fun l => match bound_local l with
                 | Ok local => Some (mkListenerInfo local (ql_mapping_port (qt_state l)))
                 | Err _ => None
                 end) (qn_listeners n).

(** [listener.local().is_same_ip_version(remote)]; [None]: not bound. *)
Definition same_version (remote : Endpoint) (l : QuicTunnelListener) : option bool :=
  (fun local => is_same_ip_version local remote) <$> ql_local (qt_state l).
(** [find] with it. *)
Fixpoint find_listener (remote : Endpoint) (ls : list QuicTunnelListener) : option (option QuicTunnelListener) :=
  match ls with
  | [] => Some None
  | l :: ls => same ← same_version remote l; if (same : bool) then Some (Some l) else find_listener remote ls
  end.

(** [open]: [open_or_connect] with the listener. *)
Context {T : Type}.
Fixpoint create_loop (open : QuicTunnelListener -> P2pResult T) (open_client : P2pResult T) (remote : Endpoint)
    (ls : list QuicTunnelListener) (last_err : option P2pErrorCode.t) : option (P2pResult T) :=
  match ls with
  | [] => Some (match last_err with Some e => Err e | None => open_client end)
  | l :: ls =>
      same ← same_version remote l;
      if negb (same : bool) then create_loop open open_client remote ls last_err
      else match open l with
           | Ok t => Some (Ok t)
           | Err e => create_loop open open_client remote ls (Some e)
           end
  end.
Definition create_tunnel_with_intent (open : QuicTunnelListener -> P2pResult T) (open_client : P2pResult T)
    (remote : Endpoint) (n : QuicTunnelNetwork) : option (P2pResult T) :=
  create_loop open open_client remote (qn_listeners n) None.

Fixpoint create_with_local_ep (open : QuicTunnelListener -> P2pResult T) (local_ep remote : Endpoint)
    (ls : list QuicTunnelListener) : option (P2pResult T) :=
  match ls with
  | [] => Some (Err P2pErrorCode.NotFound)
  | l :: ls =>
      configured_local ← ql_local (qt_state l);
      if negb (is_same_ip_version configured_local remote) then create_with_local_ep open local_ep remote ls
      else if ep_eqb configured_local local_ep then Some (open l)
      else match bound_local l with
           | Err e => Some (Err e)
           | Ok bound => if ep_eqb bound local_ep then Some (open l) else create_with_local_ep open local_ep remote ls
           end
  end.
Definition create_tunnel_with_local_ep_and_intent (open : QuicTunnelListener -> P2pResult T) (local_ep remote : Endpoint)
    (n : QuicTunnelNetwork) : option (P2pResult T) :=
  create_with_local_ep open local_ep remote (qn_listeners n).

(** [open_or_connect] up to the socket: the punches run beside the loop and do
    not change its result ([connect_with_owned_udp_punch]). *)
Definition open_or_connect {C} (timeout : Duration) (i : TunnelConnectIntent) (turns : list (ConnectTurn C))
    (l : QuicTunnelListener) : option (P2pResult (Endpoint * C)) :=
  match bound_local l with
  | Err e => Some (Err e)
  | Ok bound => r ← snd (connect_loop (connect_timeout_for_intent timeout i) i turns);
                Some (match r with Ok c => Ok (bound, c) | Err e => Err e end)
  end.
End requests.

(** *** UDP requests *)

Definition punch_only (test_real_socket_matrix : bool) (remote : Endpoint) (i : TunnelConnectIntent) (max_duration : Duration)
    (turns : list PunchTurn) (n : QuicTunnelNetwork) : option (P2pResult (list Duration * bool)) :=
  if is_zero max_duration then Some (Err P2pErrorCode.InvalidParam)
  else if negb (udp_punch_enabled_for_endpoint test_real_socket_matrix remote) then Some (Err P2pErrorCode.NotSupport)
  else found ← find_listener remote (qn_listeners n);
       Some (match found with
             | None => Err P2pErrorCode.NotFound
             | Some l => Ok (run_udp_punch_burst test_real_socket_matrix remote i max_duration turns l)
             end).

(** The listener for a list of targets: that of the first. *)
Definition probe_listener (targets : list Endpoint) (n : QuicTunnelNetwork) : option (option QuicTunnelListener) :=
  match targets with
  | [] => Some None
  | first :: _ => find_listener first (qn_listeners n)
  end.
Definition quic_probe_nat_profile (targets : list Endpoint) (timeout ttl : Duration) (outcome : Endpoint -> ProbeOutcome)
    (closed_at_end : bool) (observed_at : Timestamp) (n : QuicTunnelNetwork) : option (P2pResult NatProfile) :=
  found ← probe_listener targets n;
  Some (match found with
        | None => Err P2pErrorCode.NotFound
        | Some l => listener_probe_nat_profile targets timeout ttl outcome closed_at_end observed_at l
        end).
Definition quic_predict_traversal_endpoints (targets : list Endpoint) (timeout ttl : Duration)
    (outcome : Endpoint -> ProbeOutcome) (closed_at_end : bool) (observed_at : Timestamp) (n : QuicTunnelNetwork)
    : option (P2pResult TraversalEndpointPrediction) :=
  found ← probe_listener targets n;
  Some (match found with
        | None => Err P2pErrorCode.NotFound
        | Some l => predict_traversal_endpoints targets timeout ttl outcome closed_at_end observed_at l
        end).
Definition quic_validate_traversal_prediction (p : TraversalEndpointPrediction) (now : Timestamp) (n : QuicTunnelNetwork)
    : P2pResult unit :=
  match List.find (fun l => qt_socket_binding_generation l =? tp_socket_binding_generation p) (qn_listeners n) with
  | None => Err P2pErrorCode.Expired
  | Some l => validate_traversal_prediction p now l
  end.

(** What a listener was bound with. *)
Definition configured (l : QuicTunnelListener) : option Endpoint * option Endpoint * option Z :=
  (ql_local (qt_state l), ql_outer (qt_state l), ql_mapping_port (qt_state l)).
Lemma run_worker_configured l w : configured (run_worker_endpoint l w) = configured l.
Proof.
  unfold run_worker_endpoint, worker_begin, register_worker_endpoint. destruct (qt_closed l); [done|].
  by case_match.
Qed.
Lemma run_workers_configured ws l : configured (foldl run_worker_endpoint l ws) = configured l.
Proof. revert l. induction ws as [|w ws IH]; [done|]. intros l. simpl. rewrite IH. apply run_worker_configured. Qed.
Lemma start_ready_configured notified l r closing l' : start_ready notified l = (r, closing, l') -> configured l' = configured l.
Proof. unfold start_ready, take_endpoints. case_match; intros; by simplify_eq. Qed.

(** The QUIC network of the manager; the answers of the system are arguments. *)
#[local] Program Instance quic_network (random : Z) (served : Endpoint -> P2pResult (list Z)) (notified : bool)
    : TunnelNetwork QuicTunnelNetwork := {|
  network_listen local out port n := quic_listen random (served local) notified local out port n;
  listeners_of n := omap (fun l => (fun local => (local, ql_outer (qt_state l), ql_mapping_port (qt_state l)))
                                     <$> ql_local (qt_state l)) (qn_listeners n);
|}.
Next Obligation.
  intros random served notified local out port n r n'. unfold quic_listen.
  destruct (listener_start_check _) eqn:Hc; [|by intros [= <- <-]]. destruct (served local) as [workers|]; [|by intros [= <- <-]].
  destruct (start_ready notified _) as [[[u|e] closing] l'] eqn:Hs; intros [= <- <-]; [|done].
  apply start_ready_configured in Hs. rewrite run_workers_configured in Hs. simpl. rewrite omap_app. simpl.
  injection Hs as -> -> ->. done.
Qed.

(** ** The retries of a connection end *)

(** The clock: the top of a turn is not before the end of the sleep that led to
    it, and a failure is not seen before the top of its turn. *)
Fixpoint turns_fit {C} (timeout : Duration) (i : TunnelConnectIntent) (now : Duration) (turns : list (ConnectTurn C)) : Prop :=
  match turns with
  | [] => True
  | t :: turns =>
      now <= ct_top t <= ct_failed t
      /\ match udp_punch_retry_delay_after_error (ct_failed t) timeout i with
         | Some delay => turns_fit timeout i (ct_failed t + delay) turns
         | None => True
         end
  end.

Lemma retry_delay timeout i elapsed d :
  udp_punch_retry_delay_after_error elapsed timeout i = Some d ->
  in_udp_punch_enabled i = true /\ elapsed < Z.min UDP_PUNCH_EARLY_ERROR_WINDOW timeout
  /\ d = Z.min (Z.min UDP_PUNCH_EARLY_ERROR_WINDOW timeout - elapsed) UDP_PUNCH_CONNECT_RETRY_INTERVAL.
Proof.
  unfold udp_punch_retry_delay_after_error, udp_punch_burst_window. destruct (in_udp_punch_enabled i); [|done]. simpl.
  destruct (Z.leb_spec (Z.min UDP_PUNCH_EARLY_ERROR_WINDOW timeout) elapsed); [done|]. by intros [= <-].
Qed.

(** With [k] retry intervals left of the window there are [k] retries at most. *)
Lemma connect_loop_bounded {C} timeout i k now (turns : list (ConnectTurn C)) :
  Z.min UDP_PUNCH_EARLY_ERROR_WINDOW timeout - now <= Z.of_nat k * UDP_PUNCH_CONNECT_RETRY_INTERVAL ->
  turns_fit timeout i now turns ->
  (length (fst (connect_loop timeout i turns)) <= S k)%nat
  /\ ((S k <= length turns)%nat -> is_Some (snd (connect_loop timeout i turns))).
Proof.
  revert now turns. induction k as [|k IH]; intros now [|t turns] Hk; simpl; try (intros; split; [lia|by inversion 1]); try lia;
    intros [Ht Hn].
  all: destruct (timeout <? ct_top t); [split; [simpl; lia|eauto]|]. all: destruct (is_zero _); [split; [simpl; lia|eauto]|].
  all: destruct (ct_result t); [split; [simpl; lia|eauto]|].
  all: destruct (udp_punch_retry_delay_after_error _ _ _) as [d|] eqn:Hd; [|split; [simpl; lia|eauto]].
  - apply retry_delay in Hd as (_ & Hd & _). lia.
  - apply retry_delay in Hd as (_ & Hd & ->). apply IH in Hn as [H1 H2].
    + destruct (connect_loop timeout i turns) as [granted r]. simpl in *. split; [lia|]. intros Hl. apply H2. lia.
    + assert (0 < UDP_PUNCH_CONNECT_RETRY_INTERVAL) by done. rewrite Nat2Z.inj_succ, Z.mul_succ_l in Hk.
      assert (0 <= Z.of_nat k * UDP_PUNCH_CONNECT_RETRY_INTERVAL) by lia. lia.
Qed.

(** Each attempt is granted the time left, a success is that of an attempt, and
    a failure is not reported before the window has passed. *)
Lemma connect_loop_outcome {C} timeout i now (turns : list (ConnectTurn C)) granted r :
  connect_loop timeout i turns = (granted, r) -> turns_fit timeout i now turns ->
  granted = map (fun t => timeout - ct_top t) (take (length granted) turns)
  /\ Forall (fun g => 0 < g) granted
  /\ (forall c, r = Some (Ok c) -> exists t, t ∈ turns /\ ct_result t = Ok c)
  /\ (forall e, r = Some (Err e) -> in_udp_punch_enabled i = true ->
        exists t, t ∈ turns /\ Z.min UDP_PUNCH_EARLY_ERROR_WINDOW timeout <= ct_failed t).
Proof.
  revert now granted r. induction turns as [|t turns IH]; intros now granted r; simpl; [by intros [= <- <-]|].
  intros H [Ht Hn]. destruct (Z.ltb_spec timeout (ct_top t)) as [Hlt|Hge].
  { simplify_eq. split_and!; [done|constructor|done|]. intros e _ _. exists t. split; [left|lia]. }
  unfold is_zero in H. destruct (Z.eqb_spec (timeout - ct_top t) 0) as [Hz|Hz].
  { simplify_eq. split_and!; [done|constructor|done|]. intros e _ _. exists t. split; [left|lia]. }
  destruct (ct_result t) as [c|e] eqn:Hr.
  { simplify_eq. split_and!; [done|repeat constructor; lia| |done]. intros c' [= <-]. exists t. split; [left|done]. }
  destruct (udp_punch_retry_delay_after_error _ _ _) as [d|] eqn:Hd.
  - destruct (connect_loop timeout i turns) as [g r'] eqn:Hl. injection H as <- <-.
    destruct (IH _ _ _ eq_refl Hn) as (I1 & I2 & I3 & I4). split_and!.
    + simpl. by f_equal.
    + constructor; [lia|done].
    + intros c Hc. destruct (I3 _ Hc) as (t' & ? & ?). exists t'. split; [by right|done].
    + intros e' He Hen. destruct (I4 _ He Hen) as (t' & ? & ?). exists t'. split; [by right|done].
  - simplify_eq. split_and!; [done|repeat constructor; lia|done|]. intros e' _ Hen. exists t. split; [left|].
    unfold udp_punch_retry_delay_after_error, udp_punch_burst_window in Hd. rewrite Hen in Hd. simpl in Hd.
    destruct (Z.leb_spec (Z.min UDP_PUNCH_EARLY_ERROR_WINDOW timeout) (ct_failed t)); [done|discriminate].
Qed.

(** How the loop stands after the attempts it was granted: it goes on when all
    turns failed early, it gives what its last attempt gave, or it gives up by
    itself at the top of a turn when no time is left. *)
Definition loop_result {C} (timeout : Duration) (i : TunnelConnectIntent) (turns : list (ConnectTurn C)) (attempts : nat)
    (r : option (P2pResult C)) : Prop :=
  match r with
  | None => attempts = length turns
  | Some (Ok c) => exists t, last (take attempts turns) = Some t /\ ct_result t = Ok c
  | Some (Err e) =>
      (exists t, last (take attempts turns) = Some t /\ ct_result t = Err e
                 /\ udp_punch_retry_delay_after_error (ct_failed t) timeout i = None)
      \/ (e = P2pErrorCode.ConnectFailed /\ exists t, turns !! attempts = Some t /\ timeout <= ct_top t)
  end.

Lemma loop_result_cons {C} timeout i (t : ConnectTurn C) turns n r :
  loop_result timeout i turns n r -> loop_result timeout i (t :: turns) (S n) r.
Proof.
  unfold loop_result. assert (Hlast : forall x, last (take n turns) = Some x -> last (take (S n) (t :: turns)) = Some x).
  { intros x. simpl. destruct (take n turns); [done|]. by rewrite last_cons_cons. }
  destruct r as [[c|e]|]; [|intros [H|H]; [left|by right]|by intros ->]; naive_solver.
Qed.

Lemma connect_loop_result {C} timeout i (turns : list (ConnectTurn C)) granted r :
  connect_loop timeout i turns = (granted, r) -> loop_result timeout i turns (length granted) r.
Proof.
  revert granted r. induction turns as [|t turns IH]; intros granted r; simpl; [by intros [= <- <-]|].
  destruct (Z.ltb_spec timeout (ct_top t)) as [Hlt|Hge].
  { intros [= <- <-]. right. split; [done|]. exists t. split; [done|lia]. }
  unfold is_zero. destruct (Z.eqb_spec (timeout - ct_top t) 0) as [Hz|Hz].
  { intros [= <- <-]. right. split; [done|]. exists t. split; [done|lia]. }
  destruct (ct_result t) as [c|e] eqn:Hr; [intros [= <- <-]; by exists t|].
  destruct (udp_punch_retry_delay_after_error _ _ _) eqn:Hd; [|intros [= <- <-]; left; by exists t].
  destruct (connect_loop timeout i turns) as [g r'] eqn:Hl. intros [= <- <-]. by apply loop_result_cons, IH.
Qed.

(** C32: Retrying a QUIC connection ends: whatever its attempts give, it is made
    of at most 21 attempts (one when no punches accompany it), each granted the
    time that is left, and has a result after the last.  A success is that of
    the last attempt; a failure is that of the last attempt, no longer to be
    retried, or the loop's own ConnectFailed when it finds no time left for
    another attempt.  With punches a failure is reported only after the first
    second, in which a punch of the other side may still open the way. *)
Theorem quic_connect_bounded {C} timeout i (turns : list (ConnectTurn C)) granted r :
  let T := connect_timeout_for_intent timeout i in
  connect_loop T i turns = (granted, r) -> turns_fit T i 0 turns ->
  (length granted <= if in_udp_punch_enabled i then 21 else 1)%nat
  /\ ((21 <= length turns)%nat -> is_Some r)
  /\ granted = map (fun t => T - ct_top t) (take (length granted) turns) /\ Forall (fun g => 0 < g) granted
  /\ loop_result T i turns (length granted) r
  /\ (forall c, r = Some (Ok c) -> exists t, t ∈ turns /\ ct_result t = Ok c)
  /\ (forall e, r = Some (Err e) -> in_udp_punch_enabled i = true -> exists t, t ∈ turns /\ from_secs 1 <= ct_failed t).
Proof.
  intros T Hl Hf. destruct (connect_loop_outcome _ _ _ _ _ _ Hl Hf) as (O1 & O2 & O3 & O4).
  assert (Hw : in_udp_punch_enabled i = true -> Z.min UDP_PUNCH_EARLY_ERROR_WINDOW T = from_secs 1).
  { intros He. unfold T, connect_timeout_for_intent, udp_punch_burst_window. rewrite He.
    unfold UDP_PUNCH_EARLY_ERROR_WINDOW. lia. }
  destruct (connect_loop_bounded T i 20 0 turns) as [B1 B2]; [|done|].
  { pose proof (Z.le_min_l UDP_PUNCH_EARLY_ERROR_WINDOW T).
    change (Z.of_nat 20 * UDP_PUNCH_CONNECT_RETRY_INTERVAL) with UDP_PUNCH_EARLY_ERROR_WINDOW. lia. }
  rewrite Hl in B1, B2. simpl in B1, B2. split_and!; [|done|done|done|by apply connect_loop_result|done|].
  - destruct (in_udp_punch_enabled i) eqn:He; [done|]. destruct turns as [|t turns]; simpl in Hl; [by simplify_eq/=; lia|].
    unfold udp_punch_retry_delay_after_error in Hl. rewrite He in Hl. simpl in Hl. repeat case_match; simplify_eq/=; lia.
  - intros e Hr He. rewrite <- (Hw He). by eapply O4.
Qed.

(** ** Which listener serves *)

(** The network and its listeners go on: a listener changes by its own steps. *)
Inductive quic_net_step : QuicTunnelNetwork -> QuicTunnelNetwork -> Prop :=
| QN_listen random served notified local out port n r n' :
    quic_listen random served notified local out port n = (r, n') -> quic_net_step n n'
| QN_close_all n : quic_net_step n (snd (quic_close_all_listener n))
| QN_listener pre l l' ws ws' post c reuse :
    ql_step (l, ws) (l', ws') -> quic_net_step (mkQuicNet (pre ++ l :: post) c reuse) (mkQuicNet (pre ++ l' :: post) c reuse)
| QN_client remote created n r c :
    client_endpoint remote created (qn_client_endpoints n) = (r, c) ->
    quic_net_step n (mkQuicNet (qn_listeners n) c (qn_reuse_address n))
| QN_reuse b n : quic_net_step n (mkQuicNet (qn_listeners n) (qn_client_endpoints n) b).

(** Every listener of the network is bound. *)
Definition all_bound (n : QuicTunnelNetwork) : Prop := Forall (fun l => is_Some (ql_local (qt_state l))) (qn_listeners n).

Lemma ql_step_bound l ws l' ws' : ql_step (l, ws) (l', ws') -> is_Some (ql_local (qt_state l)) -> is_Some (ql_local (qt_state l')).
Proof.
  intros H Hb. inversion H; subst; simpl; try done; try (by eexists).
  - match goal with H : start_ready _ _ = _ |- _ => apply start_ready_configured in H as E; injection E as -> _ _ end. done.
  - match goal with H : worker_begin _ _ = _ |- _ => unfold worker_begin in H; by case_match; simplify_eq end.
  - match goal with H : listener_close _ = _ |- _ => unfold listener_close, take_endpoints in H; by case_match; simplify_eq end.
Qed.

Lemma quic_listen_bound random served notified local out port n r n' :
  quic_listen random served notified local out port n = (r, n') -> all_bound n -> all_bound n'.
Proof.
  unfold quic_listen, all_bound. intros H Hb. repeat case_match; simplify_eq; try done.
  match goal with H : start_ready _ _ = _ |- _ => apply start_ready_configured in H as E end.
  rewrite run_workers_configured in E. injection E as E _ _.
  apply Forall_app. split; [done|]. constructor; [|done]. rewrite E. by eexists.
Qed.

Lemma quic_reachable_bound n : rtc quic_net_step quic_network_new n -> all_bound n.
Proof.
  intros Hr. eapply (rtc_preserves quic_net_step all_bound); [|exact Hr|constructor].
  intros x y H Hb. destruct H; [by eapply quic_listen_bound|constructor| |done|done].
  unfold all_bound in *. simpl in *. apply Forall_app in Hb as [? Hb]. apply Forall_cons in Hb as [? ?].
  apply Forall_app. split; [done|]. constructor; [by eapply ql_step_bound|done].
Qed.

(** The listeners of the remote's IP version. *)
Definition suitable (remote : Endpoint) (l : QuicTunnelListener) : bool :=
  match ql_local (qt_state l) with Some local => is_same_ip_version local remote | None => false end.

Lemma find_listener_spec remote ls :
  Forall (fun l => is_Some (ql_local (qt_state l))) ls -> find_listener remote ls = Some (List.find (suitable remote) ls).
Proof.
  induction 1 as [|l ls [local Hl] _ IH]; [done|]. simpl. unfold same_version, suitable at 1. rewrite Hl. simpl.
  destruct (is_same_ip_version local remote); [done|apply IH].
Qed.

Section opening.
Context {T : Type} (open : QuicTunnelListener -> P2pResult T) (open_client : P2pResult T).

Definition opened (l : QuicTunnelListener) : option T := match open l with Ok t => Some t | Err _ => None end.
Definition open_error (l : QuicTunnelListener) : option P2pErrorCode.t := match open l with Ok _ => None | Err e => Some e end.

(** What opening a tunnel means: the first success among the suitable listeners,
    else the last error, and the client endpoint when there is none of them. *)
Definition open_reference (remote : Endpoint) (ls : list QuicTunnelListener) : P2pResult T :=
  let ls := List.filter (suitable remote) ls in
  match head (omap opened ls), last (omap open_error ls) with
  | Some t, _ => Ok t
  | None, Some e => Err e
  | None, None => open_client
  end.

Lemma create_loop_spec remote ls last_err :
  Forall (fun l => is_Some (ql_local (qt_state l))) ls ->
  create_loop open open_client remote ls last_err
  = Some (match head (omap opened (List.filter (suitable remote) ls)),
                last (from_option (fun e => [e]) [] last_err ++ omap open_error (List.filter (suitable remote) ls)) with
          | Some t, _ => Ok t
          | None, Some e => Err e
          | None, None => open_client
          end).
Proof.
  intros Hb. revert last_err. induction Hb as [|l ls [local Hl] _ IH]; intros last_err.
  { simpl. by destruct last_err. }
  cbn [create_loop List.filter]. assert (Hs : suitable remote l = is_same_ip_version local remote) by (unfold suitable; by rewrite Hl).
  rewrite Hs. unfold same_version. rewrite Hl. simpl.
  destruct (is_same_ip_version local remote); simpl; [|apply IH]. unfold opened at 1, open_error at 1.
  destruct (open l) as [t|e] eqn:Ho; [done|]. rewrite IH. simpl. destruct (head _); [done|].
  rewrite last_app. by destruct (last (e :: _)) eqn:El; [|apply last_None in El].
Qed.
End opening.

(** Opening a QUIC tunnel asks the listeners of the remote's IP version in
    order: it gives the first tunnel one of them opens, the error of the last
    when none does, and goes through the client endpoint only when there is no
    such listener; it never meets a listener that is not bound, nor do the
    searches for a listener to punch, probe or predict with, which take the first
    of the version. *)
Theorem quic_open_refines {T} (open : QuicTunnelListener -> P2pResult T) open_client remote n :
  rtc quic_net_step quic_network_new n ->
  create_tunnel_with_intent open open_client remote n = Some (open_reference open open_client remote (qn_listeners n))
  /\ find_listener remote (qn_listeners n) = Some (List.find (suitable remote) (qn_listeners n)).
Proof.
  intros Hb%quic_reachable_bound. split; [|by apply find_listener_spec].
  unfold create_tunnel_with_intent. by rewrite create_loop_spec.
Qed.

(** ** Predictions are validated by their listener *)

Lemma predict_inv targets timeout ttl outcome closed at_ l pr :
  predict_traversal_endpoints targets timeout ttl outcome closed at_ l = Ok pr ->
  tp_socket_binding_generation pr = qt_socket_binding_generation l /\ tp_valid_until pr = valid_until (tp_profile pr)
  /\ endpoints_available l = Ok tt /\ is_Some (ql_punch_socket (qt_state l)).
Proof.
  unfold predict_traversal_endpoints. intros H. destruct (probe_nat_profile_with_base _ _ _ _ _ _ _) as [[prof base]|] eqn:Hb; [|done].
  apply with_base_inv in Hb as (obs & _ & _ & _ & _ & _ & ? & ?). simpl in H. repeat case_match; simplify_eq; try done.
Qed.

Lemma find_by_generation ls l :
  NoDup (map qt_socket_binding_generation ls) -> l ∈ ls ->
  List.find (fun x => qt_socket_binding_generation x =? qt_socket_binding_generation l) ls = Some l.
Proof.
  induction ls as [|x ls IH]; [intros _ H; inversion H|]. simpl. intros [Hx Hn]%NoDup_cons Hin.
  inversion Hin; subst; [by rewrite Z.eqb_refl|]. destruct (Z.eqb_spec (qt_socket_binding_generation x) (qt_socket_binding_generation l)) as [E|];
    [|by apply IH]. destruct Hx. rewrite E. by apply list_elem_of_fmap_2.
Qed.

(** A prediction is validated by the listener that made it: while the
    network keeps the listener, whose generation no other listener has, the
    prediction is good until it expires and refused as expired after; once the
    listeners are closed it is refused, also by the listeners that replace them
    with generations of their own. *)
Theorem prediction_bound_to_listener targets timeout ttl outcome closed at_ n pr now :
  rtc quic_net_step quic_network_new n -> NoDup (map qt_socket_binding_generation (qn_listeners n)) ->
  quic_predict_traversal_endpoints targets timeout ttl outcome closed at_ n = Some (Ok pr) ->
  quic_validate_traversal_prediction pr now n
  = (if tp_valid_until pr <? now then Err P2pErrorCode.Expired else Ok tt)
  /\ (forall ls, Forall (fun l => qt_socket_binding_generation l <> tp_socket_binding_generation pr) ls ->
       quic_validate_traversal_prediction pr now
         (mkQuicNet ls (qn_client_endpoints n) (qn_reuse_address n)) = Err P2pErrorCode.Expired).
Proof.
  intros Hr Hn Hp. apply quic_reachable_bound in Hr. unfold quic_predict_traversal_endpoints, probe_listener in Hp.
  destruct targets as [|first targets]; [done|]. rewrite find_listener_spec in Hp by done. simpl in Hp.
  destruct (List.find _ _) as [l|] eqn:Hl; [|done]. injection Hp as Hp. apply predict_inv in Hp as (Hg & _ & He & [sock Hs]).
  apply find_some in Hl as [Hin%list_elem_of_In _]. split.
  - unfold quic_validate_traversal_prediction. rewrite Hg, find_by_generation by done.
    unfold validate_traversal_prediction. rewrite Hg, Z.eqb_refl. simpl. rewrite He, Hs. by case_match.
  - intros ls Hls. unfold quic_validate_traversal_prediction. simpl. destruct (List.find _ ls) as [x|] eqn:Hx; [|done].
    apply find_some in Hx as [Hin' Hx%Z.eqb_eq]. rewrite Forall_forall in Hls. by destruct (Hls x); [apply list_elem_of_In|].
Qed.

(** ** The properties at work *)

Module QuicNetDemo.
Import ListenerDemo.

Definition punched : TunnelConnectIntent := mkIntent 3 3 false true.
Definition demo_turns : list (ConnectTurn nat) :=
  [mkConnectTurn 0 (Err P2pErrorCode.ConnectFailed) (from_millis 10); mkConnectTurn (from_millis 60) (Ok 5%nat) (from_millis 70)].

(** A success at the second attempt; and an attempt that fails 960 ms after the
    start, whose retry finds the second used up: the loop's own failure. *)
Definition late_turns : list (ConnectTurn nat) :=
  [mkConnectTurn 0 (Err P2pErrorCode.Timeout) (from_millis 960); mkConnectTurn (from_secs 1) (Ok 5%nat) (from_secs 1)].
Lemma quic_connect_bounded_witness :
  loop_result (from_secs 1) punched demo_turns 2 (Some (Ok 5%nat))
  /\ loop_result (from_secs 1) punched late_turns 1 (Some (Err P2pErrorCode.ConnectFailed)).
Proof.
  split.
  - apply (quic_connect_bounded (from_millis 500) punched demo_turns [from_secs 1; from_millis 940] (Some (Ok 5%nat)));
      [reflexivity|vm_compute; intuition discriminate].
  - apply (quic_connect_bounded (from_millis 500) punched late_turns [from_secs 1] (Some (Err P2pErrorCode.ConnectFailed)));
      [reflexivity|vm_compute; intuition discriminate].
Defined.

Definition listened : P2pResult unit * QuicTunnelNetwork :=
  quic_listen 7 (Ok [0; 1]) true (mkEndpoint Lan Quic (V4 (mkV4 0 0 0 0) 4000)) None None quic_network_new.
Lemma listened_reachable : rtc quic_net_step quic_network_new (snd listened).
Proof. eapply rtc_l; [by eapply (QN_listen 7 (Ok [0; 1]) true)|apply rtc_refl]. Qed.

Lemma quic_open_refines_witness :
  create_tunnel_with_intent (T:=nat) (fun _ => Err P2pErrorCode.Timeout) (Ok 1%nat) punch_remote (snd listened)
  = Some (Err P2pErrorCode.Timeout).
Proof. rewrite (proj1 (quic_open_refines _ _ _ _ listened_reachable)). vm_compute. reflexivity. Defined.

Lemma prediction_bound_to_listener_witness :
  exists pr, quic_predict_traversal_endpoints [target_at 5000; target_at 5001] (from_secs 1) (from_secs 60) outcome false 1000
               (snd listened) = Some (Ok pr)
  /\ quic_validate_traversal_prediction pr (tp_valid_until pr) (snd listened) = Ok tt
  /\ quic_validate_traversal_prediction pr (tp_valid_until pr + 1) (snd listened) = Err P2pErrorCode.Expired.
Proof.
  assert (H : exists pr, quic_predict_traversal_endpoints [target_at 5000; target_at 5001] (from_secs 1) (from_secs 60) outcome
               false 1000 (snd listened) = Some (Ok pr)) by (eexists; vm_compute; reflexivity).
  destruct H as [pr Hp]. exists pr. split; [exact Hp|].
  assert (Hn : NoDup (map qt_socket_binding_generation (qn_listeners (snd listened)))) by (vm_compute; repeat constructor; intros H; inversion H).
  split.
  - rewrite (proj1 (prediction_bound_to_listener _ _ _ _ _ _ _ _ _ listened_reachable Hn Hp)).
    by rewrite (proj2 (Z.ltb_ge _ _) (Z.le_refl _)).
  - rewrite (proj1 (prediction_bound_to_listener _ _ _ _ _ _ _ _ _ listened_reachable Hn Hp)).
    rewrite (proj2 (Z.ltb_lt _ _)); [done|lia].
Defined.
End QuicNetDemo.
