(* ===== verification/Ttp.v ===== *)
(** * TTP (src/p2p-frame/src/ttp)

    Streams, control streams and datagrams by purpose over tunnels that are
    opened on demand: the registries of listeners, the attaching of tunnels, the
    cache of a runtime that also accepts tunnels ([TtpServer], [TtpNode]) and the
    client with its leases, idle tunnels and maintained servers.

    Tunnels are numbers; what does not change of one is [info], [avail] says
    which are connected and not closed.  Callbacks are numbers.  A [HashMap] that
    is searched for a match may find any: the argument [choice] picks it.  The
    two levels of a cache (remote id, then endpoints) are one map here: a remote
    id without entries and one that is absent are never told apart.  Its keys
    are compared as they are hashed, with their area. *)

From S2P Require Import Prelude.
From S2P Require Import Errors.
From S2P Require Import Ids.
From S2P Require Import Endpoint.
From S2P Require Import PnServer.
From S2P Require Import NetManager.

(** ** Keys *)

(** Endpoints as lists of numbers, so that they can be keys of a [gmap]. *)
Definition area_code (a : EndpointArea) : Z := match a with Lan => 0 | Wan => 1 | ServerReflexive => 2 | Mapped => 3 end.
Definition code_area (n : Z) : EndpointArea := if n =? 0 then Lan else if n =? 1 then Wan else if n =? 2 then ServerReflexive else Mapped.
Definition protocol_code (p : Protocol) : Z * Z := match p with Ext n => (0, n) | Tcp => (1, 0) | Quic => (2, 0) end.
Definition code_protocol (t n : Z) : Protocol := if t =? 0 then Ext n else if t =? 1 then Tcp else Quic.
Definition endpoint_code (e : Endpoint) : list Z :=
  area_code (area e) :: fst (protocol_code (protocol e)) :: snd (protocol_code (protocol e)) ::
  match addr e with
  | V4 (mkV4 a b c d) p => [a; b; c; d; p]
  | V6 (mkV6 a b c d e f g h) p fl sc => [a; b; c; d; e; f; g; h; p; fl; sc]
  end.
Definition code_endpoint (l : list Z) : option Endpoint :=
  match l with
  | ar :: t :: n :: rest =>
      match rest with
      | [a; b; c; d; p] => Some (mkEndpoint (code_area ar) (code_protocol t n) (V4 (mkV4 a b c d) p))
      | [a; b; c; d; e; f; g; h; p; fl; sc] =>
          Some (mkEndpoint (code_area ar) (code_protocol t n) (V6 (mkV6 a b c d e f g h) p fl sc))
      | _ => None
      end
  | _ => None
  end.
#[global] Instance Endpoint_countable : Countable Endpoint.
Proof. by apply (inj_countable endpoint_code code_endpoint); intros [[] [] [[] ?|[] ? ? ?]]. Defined.

(** ** Data (types.rs) *)

Record TunnelInfo := mkTunnelInfo {
  tf_local_id : P2pId; tf_remote_id : P2pId; tf_local_ep : option Endpoint; tf_remote_ep : option Endpoint }.

Section names.
(** The text of a name. *)
Context {Name : Type}.
Record TtpTarget := mkTarget {
  tt_local_ep : option Endpoint; tt_remote_ep : Endpoint; tt_remote_id : P2pId; tt_remote_name : option Name }.
(** [TtpStreamMeta] and [TtpDatagramMeta] have the same fields. *)
Record TtpMeta := mkMeta {
  me_local_ep : option Endpoint; me_remote_ep : option Endpoint; me_local_id : P2pId; me_remote_id : P2pId;
  me_remote_name : option Name; me_purpose : list Z }.
End names.
Arguments TtpTarget : clear implicits.
Arguments TtpMeta : clear implicits.

Definition match_target {Name} (t : TunnelInfo) (target : TtpTarget Name) : bool :=
  if negb (bool_decide (tf_remote_id t = tt_remote_id target)) then false
  else if (match tt_local_ep target with
           | Some local_ep =>
               match tf_local_ep t with
               | Some ep => if port_of (addr local_ep) =? 0
                            then negb (bool_decide (protocol ep = protocol local_ep))
                                 || negb (bool_decide (ip_of (addr ep) = ip_of (addr local_ep)))
                            else negb (ep_eqb ep local_ep)
               | None => false
               end
           | None => false
           end) then false
  else ep_eqb (tt_remote_ep target) endpoint_default
       || match tf_remote_ep t with Some ep => ep_eqb ep (tt_remote_ep target) | None => true end.

(** ** Listeners by purpose (registry.rs) *)

Notation TtpQueueRegistry := (gmap (list Z) nat).
Definition ttp_register (purpose : list Z) (callback : nat) (r : TtpQueueRegistry) : P2pResult unit * TtpQueueRegistry :=
  match r !! purpose with
  | Some _ => (Err P2pErrorCode.AlreadyExists, r)
  | None => (Ok tt, <[purpose := callback]> r)
  end.
Definition ttp_remove (purpose : list Z) (r : TtpQueueRegistry) : TtpQueueRegistry := delete purpose r.
(** The callback that is spawned with the item. *)
Definition ttp_deliver (purpose : list Z) (r : TtpQueueRegistry) : P2pResult nat :=
  match r !! purpose with Some callback => Ok callback | None => Err P2pErrorCode.NotFound end.
Definition ttp_is_listen (purpose : list Z) (r : TtpQueueRegistry) : bool := bool_decide (is_Some (r !! purpose)).

(** ** Attaching tunnels (runtime/dispatch.rs) *)

Inductive ChannelKind := KStream | KControlStream | KDatagram.
#[global] Instance ChannelKind_eq_dec : EqDecision ChannelKind.
Proof. solve_decision. Defined.

Record TtpDispatchRuntime := mkDispatch {
  dr_stream_registry : TtpQueueRegistry;
  dr_control_stream_registry : TtpQueueRegistry;
  dr_datagram_registry : TtpQueueRegistry;
  dr_attached_tunnels : list nat;
}.
Definition dispatch_new : TtpDispatchRuntime := mkDispatch ∅ ∅ ∅ [].
Definition registry_of (k : ChannelKind) (d : TtpDispatchRuntime) : TtpQueueRegistry :=
  match k with
  | KStream => dr_stream_registry d
  | KControlStream => dr_control_stream_registry d
  | KDatagram => dr_datagram_registry d
  end.
Definition set_registry (k : ChannelKind) (r : TtpQueueRegistry) (d : TtpDispatchRuntime) : TtpDispatchRuntime :=
  match k with
  | KStream => mkDispatch r (dr_control_stream_registry d) (dr_datagram_registry d) (dr_attached_tunnels d)
  | KControlStream => mkDispatch (dr_stream_registry d) r (dr_datagram_registry d) (dr_attached_tunnels d)
  | KDatagram => mkDispatch (dr_stream_registry d) (dr_control_stream_registry d) r (dr_attached_tunnels d)
  end.
(** [listen_stream], [listen_control_stream], [listen_datagram] and their
    opposites. *)
Definition dispatch_listen (k : ChannelKind) (purpose : list Z) (callback : nat) (d : TtpDispatchRuntime)
    : P2pResult unit * TtpDispatchRuntime :=
  let '(r, reg) := ttp_register purpose callback (registry_of k d) in (r, set_registry k reg d).
Definition dispatch_unlisten (k : ChannelKind) (purpose : list Z) (d : TtpDispatchRuntime) : TtpDispatchRuntime :=
  set_registry k (ttp_remove purpose (registry_of k d)) d.

(** [alive]: the weak reference still upgrades. *)
Definition try_mark_attached (alive : nat -> bool) (t : nat) (d : TtpDispatchRuntime) : bool * TtpDispatchRuntime :=
  let attached := List.filter alive (dr_attached_tunnels d) in
  let set l := mkDispatch (dr_stream_registry d) (dr_control_stream_registry d) (dr_datagram_registry d) l in
  if bool_decide (t ∈ attached) then (false, set attached) else (true, set (attached ++ [t])).

(** The three listens after the mark; a kind the tunnel does not support is
    skipped, another error closes the tunnel. *)
Definition attach_listens (listen : ChannelKind -> P2pResult unit) : P2pResult unit :=
  let step k rest := match listen k with
                     | Ok _ | Err P2pErrorCode.NotSupport => rest
                     | Err e => Err e
                     end in
  step KStream (step KControlStream (step KDatagram (Ok tt))).
(** The result, and whether the tunnel was closed. *)
Definition attach_tunnel (alive : nat -> bool) (listen : ChannelKind -> P2pResult unit) (t : nat) (d : TtpDispatchRuntime)
    : P2pResult unit * bool * TtpDispatchRuntime :=
  let '(fresh, d) := try_mark_attached alive t d in
  if negb fresh then (Ok tt, false, d)
  else match attach_listens listen with
       | Ok _ => (Ok tt, false, d)
       | Err e => (Err e, true, d)
       end.

(** A channel arrives on an attached tunnel: the callback and what it is told. *)
Definition channel_arrived {Name} (info : nat -> TunnelInfo) (t : nat) (k : ChannelKind) (accepted : P2pResult (list Z))
    (d : TtpDispatchRuntime) : option (nat * TtpMeta Name) :=
  match accepted with
  | Err _ => None
  | Ok purpose =>
      match ttp_deliver purpose (registry_of k d) with
      | Err _ => None
      | Ok callback =>
          Some (callback, mkMeta (tf_local_ep (info t)) (tf_remote_ep (info t)) (tf_local_id (info t))
                            (tf_remote_id (info t)) None purpose)
      end
  end.

(** ** The cache of a runtime (client.rs, runtime/handle.rs) *)

Notation TunnelKeyEps := (option Endpoint * option Endpoint)%type.
Notation CacheKey := (P2pId * TunnelKeyEps)%type.
Definition cache_key (t : TunnelInfo) : CacheKey := (tf_remote_id t, (tf_local_ep t, tf_remote_ep t)).

(** The element a search finds, [choice] deciding the order. *)
Definition pick {A} (choice : nat) (l : list A) : option A := l !! (choice mod length l)%nat.

Section runtime.
Context {Name : Type} (info : nat -> TunnelInfo).

Notation TtpTunnelCache := (gmap CacheKey nat).
Definition retain_available (avail : nat -> bool) (m : TtpTunnelCache) : TtpTunnelCache :=
  filter (fun x => avail (snd x) = true) m.
Definition remember_tunnel_in_multi (avail : nat -> bool) (t : nat) (m : TtpTunnelCache) : TtpTunnelCache :=
  <[cache_key (info t) := t]> (retain_available avail m).
Definition find_existing_tunnel_in_multi (choice : nat) (avail : nat -> bool) (target : TtpTarget Name) (m : TtpTunnelCache)
    : option nat * TtpTunnelCache :=
  let m := retain_available avail m in
  (pick choice (List.filter (fun t => match_target (info t) target)
                  (map snd (map_to_list (filter (fun x => fst (fst x) = tt_remote_id target) m)))), m).

Record RuntimeCore := mkCore { rc_dispatch : TtpDispatchRuntime; rc_tunnels : TtpTunnelCache }.
Definition core_new : RuntimeCore := mkCore dispatch_new ∅.

(** What becomes of an incoming tunnel. *)
Inductive IncomingFate := FateRejected | FateAttachFailed | FateRemembered.
Definition accept_incoming_tunnel (verdict : P2pResult ValidateResult) (alive avail : nat -> bool)
    (listen : ChannelKind -> P2pResult unit) (t : nat) (c : RuntimeCore) : IncomingFate * bool * RuntimeCore :=
  match verdict with
  | Ok Reject | Err _ => (FateRejected, true, c)
  | Ok Accept =>
      let '(r, closed, d) := attach_tunnel alive listen t (rc_dispatch c) in
      match r with
      | Err _ => (FateAttachFailed, closed, mkCore d (rc_tunnels c))
      | Ok _ => (FateRemembered, closed, mkCore d (remember_tunnel_in_multi avail t (rc_tunnels c)))
      end
  end.
(** The subscriber of the network manager: [core] is gone when the runtime is
    dropped. *)
Definition incoming_answer (core_alive : bool) : IncomingTunnelAcceptance := if core_alive then Accepted else Rejected.

Definition get_existing_tunnel (choice : nat) (avail : nat -> bool) (target : TtpTarget Name) (c : RuntimeCore)
    : P2pResult nat * RuntimeCore :=
  let '(found, m) := find_existing_tunnel_in_multi choice avail target (rc_tunnels c) in
  (match found with Some t => Ok t | None => Err P2pErrorCode.NotFound end, mkCore (rc_dispatch c) m).
(** [get_or_create_tunnel_for_multi] after the search has failed: [created] is
    what the network gave. *)
Definition remember_created (alive avail : nat -> bool) (listen : ChannelKind -> P2pResult unit) (created : P2pResult nat)
    (c : RuntimeCore) : P2pResult nat * RuntimeCore :=
  match created with
  | Err e => (Err e, c)
  | Ok t =>
      let '(r, _, d) := attach_tunnel alive listen t (rc_dispatch c) in
      match r with
      | Err e => (Err e, mkCore d (rc_tunnels c))
      | Ok _ => (Ok t, mkCore d (remember_tunnel_in_multi avail t (rc_tunnels c)))
      end
  end.

(** What a caller is told of the channel it opened: [TtpServer], and with the
    target's local endpoint in reserve [TtpNode] and [TtpClient]. *)
Definition server_meta (t : TunnelInfo) (target : TtpTarget Name) (purpose : list Z) : TtpMeta Name :=
  mkMeta (tf_local_ep t) (match tf_remote_ep t with Some ep => Some ep | None => Some (tt_remote_ep target) end)
    (tf_local_id t) (tf_remote_id t) (tt_remote_name target) purpose.
Definition node_meta (t : TunnelInfo) (target : TtpTarget Name) (purpose : list Z) : TtpMeta Name :=
  mkMeta (match tf_local_ep t with Some ep => Some ep | None => tt_local_ep target end)
    (match tf_remote_ep t with Some ep => Some ep | None => Some (tt_remote_ep target) end)
    (tf_local_id t) (tf_remote_id t) (tt_remote_name target) purpose.
End runtime.
Arguments RuntimeCore : clear implicits.

(** ** The client (client.rs) *)

Definition DEFAULT_TTP_CLIENT_IDLE_TIMEOUT : Duration := from_secs (5 * 60).
Record TtpClientTunnelEntry := mkClientEntry {
  ce_tunnel : nat; ce_maintained : bool; ce_last_used : Duration; ce_leases : nat }.

Section client.
Context {Name : Type} (info : nat -> TunnelInfo) (idle_timeout : Duration).
Notation Target := (TtpTarget Name).
Notation ClientCache := (gmap CacheKey TtpClientTunnelEntry).

Definition maintained_by (targets : list Target) (t : nat) : bool := existsb (match_target (info t)) targets.
Definition with_maintained (targets : list Target) (e : TtpClientTunnelEntry) : TtpClientTunnelEntry :=
  mkClientEntry (ce_tunnel e) (maintained_by targets (ce_tunnel e)) (ce_last_used e) (ce_leases e).
Definition used_at (now : Duration) (e : TtpClientTunnelEntry) : TtpClientTunnelEntry :=
  mkClientEntry (ce_tunnel e) (ce_maintained e) now (ce_leases e).

(** [Instant::duration_since] is zero for an instant in the future. *)
Definition entry_kept (avail : nat -> bool) (now : Duration) (e : TtpClientTunnelEntry) : bool :=
  avail (ce_tunnel e)
  && (ce_maintained e || (0 <? ce_leases e)%nat || (Z.max 0 (now - ce_last_used e) <? idle_timeout)).
Definition release_idle_tunnels_locked (avail : nat -> bool) (now : Duration) (targets : list Target) (m : ClientCache)
    : ClientCache :=
  filter (fun x => entry_kept avail now (snd x) = true) (with_maintained targets <$> m).

Record TtpClient := mkTtpClient { cl_tunnels : ClientCache; cl_maintained_targets : list Target }.
Definition ttp_client_new : TtpClient := mkTtpClient ∅ [].
Definition set_tunnels (m : ClientCache) (c : TtpClient) : TtpClient := mkTtpClient m (cl_maintained_targets c).

(** The entries a search may find. *)
Definition matching (target : Target) (m : ClientCache) : list (CacheKey * TtpClientTunnelEntry) :=
  List.filter (fun x => bool_decide (fst (fst x) = tt_remote_id target) && match_target (info (ce_tunnel (snd x))) target)
    (map_to_list m).

Definition find_existing_tunnel (choice : nat) (avail : nat -> bool) (now : Duration) (target : Target) (c : TtpClient)
    : option nat * TtpClient :=
  let m := release_idle_tunnels_locked avail now (cl_maintained_targets c) (cl_tunnels c) in
  match pick choice (matching target m) with
  | None => (None, set_tunnels m c)
  | Some (k, e) => (Some (ce_tunnel e), set_tunnels (<[k := used_at now e]> m) c)
  end.
Definition remember_tunnel_entry (avail : nat -> bool) (now : Duration) (t : nat) (c : TtpClient) : TtpClient :=
  let m := release_idle_tunnels_locked avail now (cl_maintained_targets c) (cl_tunnels c) in
  set_tunnels (<[cache_key (info t) := mkClientEntry t (maintained_by (cl_maintained_targets c) t) now 0]> m) c.
Definition refresh_maintained_cache_state (now : Duration) (remote_id : P2pId) (c : TtpClient) : TtpClient :=
  set_tunnels (map_imap (fun k e => Some (if bool_decide (fst k = remote_id)
                                          then used_at now (with_maintained (cl_maintained_targets c) e) else e))
                 (cl_tunnels c)) c.
Definition acquire_lease (choice : nat) (now : Duration) (target : Target) (c : TtpClient) : option CacheKey * TtpClient :=
  match pick choice (matching target (cl_tunnels c)) with
  | None => (None, c)
  | Some (k, e) =>
      (Some k, set_tunnels (<[k := mkClientEntry (ce_tunnel e) (ce_maintained e) now (S (ce_leases e))]> (cl_tunnels c)) c)
  end.
(** [Drop for TtpClientTunnelLeaseInner] *)
Definition lease_drop (now : Duration) (k : CacheKey) (c : TtpClient) : TtpClient :=
  match cl_tunnels c !! k with
  | Some e => set_tunnels (<[k := mkClientEntry (ce_tunnel e) (ce_maintained e) now (pred (ce_leases e))]> (cl_tunnels c)) c
  | None => c
  end.

Definition remove_server (now : Duration) (target : Target) (c : TtpClient) : TtpClient :=
  refresh_maintained_cache_state now (tt_remote_id target)
    (mkTtpClient (cl_tunnels c)
       (List.filter (fun t => negb (bool_decide (tt_remote_id t = tt_remote_id target))
                              || negb (ep_eqb (tt_remote_ep t) (tt_remote_ep target))) (cl_maintained_targets c))).
(** [connect_server] after the tunnel was obtained. *)
Definition add_server (now : Duration) (target : Target) (c : TtpClient) : TtpClient :=
  refresh_maintained_cache_state now (tt_remote_id target)
    (mkTtpClient (cl_tunnels c)
       (if existsb (fun t => ep_eqb (tt_remote_ep t) (tt_remote_ep target)
                             && bool_decide (tt_remote_id t = tt_remote_id target)) (cl_maintained_targets c)
        then cl_maintained_targets c else cl_maintained_targets c ++ [target])).
Definition configured_server_id (c : TtpClient) : P2pResult (option P2pId) :=
  match cl_maintained_targets c with
  | [] => Ok None
  | first :: _ =>
      if existsb (fun t => negb (bool_decide (tt_remote_id t = tt_remote_id first))) (cl_maintained_targets c)
      then Err P2pErrorCode.InvalidParam else Ok (Some (tt_remote_id first))
  end.
(** The loop that releases idle tunnels sleeps for this. *)
Definition idle_interval : Duration := Z.min idle_timeout (from_secs 60).
Definition idle_turn (avail : nat -> bool) (now : Duration) (c : TtpClient) : TtpClient :=
  set_tunnels (release_idle_tunnels_locked avail now (cl_maintained_targets c) (cl_tunnels c)) c.
(** [open_stream] and its kin once there is a tunnel: the lease, and the channel
    when the tunnel has opened it. *)
Definition open_channel_leased (choice : nat) (now later : Duration) (target : Target) (t : nat) (purpose : list Z)
    (opened : P2pResult unit) (c : TtpClient) : P2pResult (TtpMeta Name * CacheKey) * TtpClient :=
  match acquire_lease choice now target c with
  | (None, c) => (Err P2pErrorCode.ErrorState, c)
  | (Some k, c) =>
      match opened with
      | Err e => (Err e, lease_drop later k c)
      | Ok _ => (Ok (node_meta (info t) target purpose, k), c)
      end
  end.
End client.
Arguments TtpClient : clear implicits.

(** ** Leases and idle tunnels *)

Section leases.
Context {Name : Type} (info : nat -> TunnelInfo) (idle_timeout : Duration).

(** The client among its callers: [lw_leases] are the leases held, with the
    tunnel that was in the cache when each was taken; [lw_dead] the tunnels that
    are closed or not connected any more. *)
Record LeaseWorld := mkLeases {
  lw_client : TtpClient Name; lw_now : Duration; lw_leases : list (CacheKey * nat); lw_dead : list nat }.
Definition lw_avail (w : LeaseWorld) (t : nat) : bool := bool_decide (t ∉ lw_dead w).
Definition leases_new : LeaseWorld := mkLeases ttp_client_new 0 [] [].
Definition with_client (c : TtpClient Name) (w : LeaseWorld) : LeaseWorld := mkLeases c (lw_now w) (lw_leases w) (lw_dead w).

Definition lease_count (k : CacheKey) (l : list (CacheKey * nat)) : nat :=
  length (List.filter (fun x => bool_decide (fst x = k)) l).

(** Everything the client does.  With [strict] a tunnel is remembered only under
    a key on which no lease is held. *)
Inductive lease_step (strict : bool) : LeaseWorld -> LeaseWorld -> Prop :=
| LW_time d w : 0 <= d -> lease_step strict w (mkLeases (lw_client w) (lw_now w + d) (lw_leases w) (lw_dead w))
| LW_dies t w : lease_step strict w (mkLeases (lw_client w) (lw_now w) (lw_leases w) (t :: lw_dead w))
| LW_find choice target w r c :
    find_existing_tunnel info idle_timeout choice (lw_avail w) (lw_now w) target (lw_client w) = (r, c) ->
    lease_step strict w (with_client c w)
| LW_remember t w :
    (strict = true -> lease_count (cache_key (info t)) (lw_leases w) = 0%nat) ->
    lease_step strict w (with_client (remember_tunnel_entry info idle_timeout (lw_avail w) (lw_now w) t (lw_client w)) w)
| LW_idle w : lease_step strict w (with_client (idle_turn info idle_timeout (lw_avail w) (lw_now w) (lw_client w)) w)
| LW_add target w : lease_step strict w (with_client (add_server info (lw_now w) target (lw_client w)) w)
| LW_remove target w : lease_step strict w (with_client (remove_server info (lw_now w) target (lw_client w)) w)
| LW_acquire choice target w k e c :
    acquire_lease info choice (lw_now w) target (lw_client w) = (Some k, c) -> cl_tunnels (lw_client w) !! k = Some e ->
    lease_step strict w (mkLeases c (lw_now w) ((k, ce_tunnel e) :: lw_leases w) (lw_dead w))
| LW_drop k t w pre post :
    lw_leases w = pre ++ (k, t) :: post ->
    lease_step strict w (mkLeases (lease_drop (lw_now w) k (lw_client w)) (lw_now w) (pre ++ post) (lw_dead w)).

(** A change of the cache that touches neither tunnels nor leases and loses no
    entry that is available and leased. *)
Record cache_frame (avail : nat -> bool) (m m' : gmap CacheKey TtpClientTunnelEntry) : Prop := {
  cf_old k e' : m' !! k = Some e' -> exists e, m !! k = Some e /\ ce_tunnel e' = ce_tunnel e /\ ce_leases e' = ce_leases e;
  cf_kept k e : m !! k = Some e -> avail (ce_tunnel e) = true -> ce_leases e <> 0%nat -> is_Some (m' !! k);
}.
Lemma cache_frame_trans avail m1 m2 m3 : cache_frame avail m1 m2 -> cache_frame avail m2 m3 -> cache_frame avail m1 m3.
Proof.
  intros [H1 H2] [H3 H4]. split.
  - intros k e3 (e2 & He2 & ? & ?)%H3. destruct (H1 _ _ He2) as (e1 & ? & ? & ?). exists e1. split_and!; congruence.
  - intros k e He Ha Hl. destruct (H2 _ _ He Ha Hl) as [e2 He2]. destruct (H1 _ _ He2) as (e1 & ? & ? & ?).
    apply (H4 k e2); congruence.
Qed.

Lemma release_lookup avail now targets m k e' :
  release_idle_tunnels_locked info idle_timeout avail now targets m !! k = Some e' <->
  exists e, m !! k = Some e /\ e' = with_maintained (Name:=Name) info targets e /\ entry_kept idle_timeout avail now e' = true.
Proof.
  unfold release_idle_tunnels_locked. rewrite map_lookup_filter_Some, lookup_fmap_Some. simpl. split.
  - intros [(e & <- & He) Hk]. by exists e.
  - intros (e & He & -> & Hk). split; [by exists e|done].
Qed.

Lemma release_frame avail now (targets : list (TtpTarget Name)) m :
  cache_frame avail m (release_idle_tunnels_locked info idle_timeout avail now targets m).
Proof.
  split.
  - intros k e' (e & He & -> & _)%release_lookup. by exists e.
  - intros k e He Ha Hl. exists (with_maintained info targets e). apply release_lookup. exists e. split_and!; [done|done|].
    unfold entry_kept. simpl. rewrite Ha. destruct (Nat.ltb_spec 0 (ce_leases e)); [|lia].
    rewrite orb_true_r. done.
Qed.

Lemma same_entry_frame avail m k (e e' : TtpClientTunnelEntry) :
  m !! k = Some e -> ce_tunnel e' = ce_tunnel e -> ce_leases e' = ce_leases e -> cache_frame avail m (<[k := e']> m).
Proof.
  intros He Ht Hl. split.
  - intros j x [[<- <-]|[_ Hj]]%lookup_insert_Some; [by exists e|by exists x].
  - intros j x Hj _ _. destruct (decide (k = j)) as [<-|]; [by rewrite lookup_insert_eq|by rewrite lookup_insert_ne].
Qed.

Lemma matching_lookup (target : TtpTarget Name) m choice k e :
  pick choice (matching info target m) = Some (k, e) -> m !! k = Some e /\ match_target (info (ce_tunnel e)) target = true.
Proof.
  unfold pick. intros H%list_elem_of_lookup_2. apply list_elem_of_In, filter_In in H as [H%list_elem_of_In Hm].
  apply andb_prop in Hm as [_ Hm]. split; [by apply elem_of_map_to_list|done].
Qed.

Lemma find_frame choice avail now target (c : TtpClient Name) r c' :
  find_existing_tunnel info idle_timeout choice avail now target c = (r, c') ->
  cache_frame avail (cl_tunnels c) (cl_tunnels c').
Proof.
  unfold find_existing_tunnel. intros H. eapply cache_frame_trans; [apply (release_frame avail now (cl_maintained_targets c))|].
  destruct (pick _ _) as [[k e]|] eqn:Hp; simplify_eq; simpl.
  - apply matching_lookup in Hp as [Hk _]. by eapply same_entry_frame.
  - split; [intros k e' He; by exists e'|eauto].
Qed.

Lemma refresh_frame avail now remote (c : TtpClient Name) :
  cache_frame avail (cl_tunnels c) (cl_tunnels (refresh_maintained_cache_state info now remote c)).
Proof.
  split; simpl.
  - intros k e'. rewrite map_lookup_imap. destruct (cl_tunnels c !! k) as [e|]; [|done]. simpl. intros [= <-]. exists e.
    by case_bool_decide.
  - intros k e He _ _. rewrite map_lookup_imap, He. by eexists.
Qed.

Record lease_inv (strict : bool) (w : LeaseWorld) : Prop := {
  lv_count k e : cl_tunnels (lw_client w) !! k = Some e ->
    (ce_leases e <= lease_count k (lw_leases w))%nat
    /\ (strict = true -> ce_leases e = lease_count k (lw_leases w) /\ forall t, (k, t) ∈ lw_leases w -> t = ce_tunnel e);
  lv_kept k t : strict = true -> (k, t) ∈ lw_leases w -> lw_avail w t = true -> is_Some (cl_tunnels (lw_client w) !! k);
}.

Lemma lease_count_in k t l : (k, t) ∈ l -> lease_count k l <> 0%nat.
Proof.
  unfold lease_count. intros Hin. destruct (List.filter _ l) eqn:E; [|done].
  assert (H : (k, t) ∈ List.filter (fun x => bool_decide (fst x = k)) l).
  { apply elem_of_List_filter. split; [done|]. by apply bool_decide_eq_true. }
  rewrite E in H. inversion H.
Qed.
Lemma lease_count_middle k j t pre post :
  lease_count k (pre ++ (j, t) :: post) = ((if bool_decide (j = k) then 1 else 0) + lease_count k (pre ++ post))%nat.
Proof.
  unfold lease_count. rewrite !List.filter_app, !length_app. simpl. case_bool_decide; simpl; lia.
Qed.

Lemma frame_inv strict c w :
  cache_frame (lw_avail w) (cl_tunnels (lw_client w)) (cl_tunnels c) -> lease_inv strict w -> lease_inv strict (with_client c w).
Proof.
  intros [F1 F2] [I1 I2]. split; simpl.
  - intros k e' (e & He & -> & ->)%F1. by apply I1.
  - intros k t Hs Hin Ha. destruct (I2 _ _ Hs Hin Ha) as [e He]. destruct (I1 _ _ He) as [_ [Hc Ht]]; [done|].
    eapply F2; [exact He| |]; [by rewrite <- (Ht _ Hin)|]. rewrite Hc. by eapply lease_count_in.
Qed.

Lemma remember_inv strict t w :
  (strict = true -> lease_count (cache_key (info t)) (lw_leases w) = 0%nat) -> lease_inv strict w ->
  lease_inv strict (with_client (remember_tunnel_entry info idle_timeout (lw_avail w) (lw_now w) t (lw_client w)) w).
Proof.
  intros Hc Hi. pose proof (release_frame (lw_avail w) (lw_now w) (cl_maintained_targets (lw_client w)) (cl_tunnels (lw_client w))) as Hf.
  apply (frame_inv strict (set_tunnels _ (lw_client w)) w Hf) in Hi as [I1 I2]. split; simpl in *.
  - intros k e [[<- <-]|[_ Hk]]%lookup_insert_Some; [|by apply I1]. simpl. split; [lia|]. intros Hs. rewrite (Hc Hs).
    split; [done|]. intros t' Hin%lease_count_in. by rewrite (Hc Hs) in Hin.
  - intros k t' Hs Hin Ha. destruct (decide (cache_key (info t) = k)) as [<-|]; [by rewrite lookup_insert_eq|].
    rewrite lookup_insert_ne by done. by eapply I2.
Qed.

Lemma acquire_inv strict choice target w k e c :
  acquire_lease info choice (lw_now w) target (lw_client w) = (Some k, c) -> cl_tunnels (lw_client w) !! k = Some e ->
  lease_inv strict w -> lease_inv strict (mkLeases c (lw_now w) ((k, ce_tunnel e) :: lw_leases w) (lw_dead w)).
Proof.
  unfold acquire_lease. intros Ha He [I1 I2]. destruct (pick _ _) as [[k' e']|] eqn:Hp; [|done].
  apply matching_lookup in Hp as [Hk _]. injection Ha as -> <-. assert (e' = e) as -> by congruence. split; simpl.
  - intros j x Hx. pose proof (lease_count_middle j k (ce_tunnel e) [] (lw_leases w)) as Em. simpl in Em. rewrite Em. clear Em.
    apply lookup_insert_Some in Hx as [[<- <-]|[Hj Hx]].
    + rewrite bool_decide_eq_true_2 by done. simpl. destruct (I1 _ _ Hk) as [H1 H2]. split; [lia|]. intros Hs.
      destruct (H2 Hs) as [-> Ht]. split; [done|]. intros t Hin. inversion Hin; subst; [done|by apply Ht].
    + rewrite bool_decide_eq_false_2 by done. destruct (I1 _ _ Hx) as [H1 H2]. split; [simpl; lia|]. intros Hs.
      destruct (H2 Hs) as [-> Ht]. split; [done|]. intros t Hin. inversion Hin; subst; [done|by apply Ht].
  - intros j t Hs Hin Hv. destruct (decide (k = j)) as [<-|Hne]; [by rewrite lookup_insert_eq|].
    rewrite lookup_insert_ne by done. inversion Hin; subst; [done|]. by eapply I2.
Qed.

Lemma drop_inv strict k t w pre post :
  lw_leases w = pre ++ (k, t) :: post -> lease_inv strict w ->
  lease_inv strict (mkLeases (lease_drop (lw_now w) k (lw_client w)) (lw_now w) (pre ++ post) (lw_dead w)).
Proof.
  intros Hl [I1 I2]. rewrite Hl in *.
  assert (Hsub : forall x, x ∈ pre ++ post -> x ∈ pre ++ (k, t) :: post) by set_solver.
  split; simpl.
  - intros j x Hx. unfold lease_drop in Hx. destruct (cl_tunnels (lw_client w) !! k) as [e|] eqn:Hk; simpl in Hx.
    + apply lookup_insert_Some in Hx as [[<- <-]|[Hj Hx]].
      * destruct (I1 _ _ Hk) as [H1 H2]. rewrite lease_count_middle, bool_decide_eq_true_2 in H1, H2 by done. simpl.
        split; [lia|]. intros Hs. destruct (H2 Hs) as [Hc Ht]. split; [lia|]. intros t' Hin. by apply Ht, Hsub.
      * destruct (I1 _ _ Hx) as [H1 H2]. rewrite lease_count_middle, bool_decide_eq_false_2 in H1, H2 by done.
        split; [done|]. intros Hs. destruct (H2 Hs) as [Hc Ht]. split; [done|]. intros t' Hin. by apply Ht, Hsub.
    + destruct (decide (k = j)) as [<-|Hne]; [congruence|]. destruct (I1 _ _ Hx) as [H1 H2].
      rewrite lease_count_middle, bool_decide_eq_false_2 in H1, H2 by done.
      split; [done|]. intros Hs. destruct (H2 Hs) as [Hc Ht]. split; [done|]. intros t' Hin. by apply Ht, Hsub.
  - intros j t' Hs Hin Ha. destruct (I2 j t' Hs (Hsub _ Hin) Ha) as [e He]. unfold lease_drop.
    destruct (cl_tunnels (lw_client w) !! k) as [e0|] eqn:Hk; simpl; [|by eexists].
    destruct (decide (k = j)) as [<-|]; [by rewrite lookup_insert_eq|by rewrite lookup_insert_ne].
Qed.

Lemma lease_step_inv strict w w' : lease_step strict w w' -> lease_inv strict w -> lease_inv strict w'.
Proof.
  intros H Hi. destruct H.
  - destruct Hi. by split.
  - destruct Hi as [I1 I2]. split; simpl; [done|]. intros k t' Hs Hin Ha. eapply I2; [done|exact Hin|].
    unfold lw_avail in *. simpl in *. rewrite bool_decide_eq_true in *. set_solver.
  - eapply frame_inv; [by eapply find_frame|done].
  - by apply remember_inv.
  - apply frame_inv; [apply release_frame|done].
  - apply frame_inv; [|done]. unfold add_server.
    match goal with |- cache_frame _ _ (cl_tunnels (refresh_maintained_cache_state _ _ _ ?c)) => exact (refresh_frame _ _ _ c) end.
  - apply frame_inv; [|done]. unfold remove_server.
    match goal with |- cache_frame _ _ (cl_tunnels (refresh_maintained_cache_state _ _ _ ?c)) => exact (refresh_frame _ _ _ c) end.
  - by eapply acquire_inv.
  - by eapply drop_inv.
Qed.

Lemma leases_reachable strict w : rtc (lease_step strict) leases_new w -> lease_inv strict w.
Proof.
  intros Hr. eapply (rtc_preserves (lease_step strict) (lease_inv strict)); [intros ??; apply lease_step_inv|exact Hr|].
  split; simpl; [done|intros ??? H; inversion H].
Qed.

(** C34: A leased tunnel stays: as long as no tunnel is remembered under a key on
    which a lease is held, the tunnel of every lease is in the cache or is closed,
    and the passes that release idle tunnels keep it however long it was not
    used. *)
Theorem leased_tunnels_kept w k t now :
  rtc (lease_step true) leases_new w -> (k, t) ∈ lw_leases w -> lw_avail w t = true ->
  exists e, cl_tunnels (lw_client w) !! k = Some e /\ ce_tunnel e = t
  /\ exists e', cl_tunnels (idle_turn info idle_timeout (lw_avail w) now (lw_client w)) !! k = Some e' /\ ce_tunnel e' = t.
Proof.
  intros [I1 I2]%leases_reachable Hin Ha. destruct (I2 _ _ eq_refl Hin Ha) as [e He]. destruct (I1 _ _ He) as [_ [Hc Ht]]; [done|].
  pose proof (Ht _ Hin) as Et. subst t. exists e. split_and!; [done|done|].
  destruct (release_frame (lw_avail w) now (cl_maintained_targets (lw_client w)) (cl_tunnels (lw_client w))) as [F1 F2].
  destruct (F2 k e He Ha) as [e' He']; [rewrite Hc; by eapply lease_count_in|]. destruct (F1 _ _ He') as (e0 & He0 & Et & _).
  exists e'. split; [done|]. rewrite Et. congruence.
Qed.

(** An idle tunnel goes: whatever happens, leases are never counted too
    often, so a tunnel on whose key no lease is held and which no maintained
    server matches is released by the first pass once it was idle for the
    timeout, and a pass comes at least every minute; a tunnel that is not
    available is released by every pass. *)
Theorem idle_tunnels_released w k e now :
  rtc (lease_step false) leases_new w -> cl_tunnels (lw_client w) !! k = Some e ->
  (lw_avail w (ce_tunnel e) = false
   \/ lease_count k (lw_leases w) = 0%nat /\ maintained_by info (cl_maintained_targets (lw_client w)) (ce_tunnel e) = false
      /\ 0 <= idle_timeout <= now - ce_last_used e) ->
  cl_tunnels (idle_turn info idle_timeout (lw_avail w) now (lw_client w)) !! k = None /\ idle_interval idle_timeout <= from_secs 60.
Proof.
  intros [I1 _]%leases_reachable He Hc. split; [|unfold idle_interval; lia]. destruct (I1 _ _ He) as [Hle _]. simpl.
  destruct (release_idle_tunnels_locked _ _ _ _ _ _ !! k) as [e'|] eqn:Hk; [|done].
  apply release_lookup in Hk as (e0 & He0 & -> & Hkept). simplify_eq. unfold entry_kept in Hkept. simpl in Hkept.
  destruct Hc as [Ha|(Hn & Hm & Ht)]; [by rewrite Ha in Hkept|].
  rewrite Hm in Hkept. destruct (Nat.ltb_spec 0 (ce_leases e)); [lia|]. simpl in Hkept.
  apply andb_prop in Hkept as [_ Hk%Z.ltb_lt]. lia.
Qed.
End leases.

(** ** Tunnels of a runtime are admitted *)

Section admission.
Context {Name : Type} (info : nat -> TunnelInfo).

(** A runtime with what has happened to its tunnels: [aw_admitted] those the
    validator accepted, [aw_created] those the network opened for it, [aw_closed]
    those it closed, [aw_listening] a tunnel for each time the listens of an
    attachment have been made. *)
Record AdmissionWorld := mkAdmission {
  aw_core : RuntimeCore; aw_admitted : list nat; aw_created : list nat; aw_closed : list nat; aw_listening : list nat;
  aw_gone : list nat }.
Definition admission_new : AdmissionWorld := mkAdmission core_new [] [] [] [] [].
(** A tunnel a holder has not dropped; attaching keeps it alive while it runs. *)
Definition aw_alive (w : AdmissionWorld) (t : nat) : bool := bool_decide (t ∉ aw_gone w).

Inductive admission_step : AdmissionWorld -> AdmissionWorld -> Prop :=
| AW_incoming verdict avail listen t w fate closed c :
    t ∉ aw_gone w ->
    accept_incoming_tunnel info verdict (aw_alive w) avail listen t (aw_core w) = (fate, closed, c) ->
    admission_step w (mkAdmission c (match verdict with Ok Accept => t :: aw_admitted w | _ => aw_admitted w end)
                        (aw_created w) (if closed then t :: aw_closed w else aw_closed w)
                        (if fst (try_mark_attached (aw_alive w) t (rc_dispatch (aw_core w)))
                         then match verdict with Ok Accept => t :: aw_listening w | _ => aw_listening w end
                         else aw_listening w) (aw_gone w))
| AW_created avail listen t w r c :
    t ∉ aw_gone w -> remember_created info (aw_alive w) avail listen (Ok t) (aw_core w) = (r, c) ->
    admission_step w (mkAdmission c (aw_admitted w) (t :: aw_created w) (aw_closed w)
                        (if fst (try_mark_attached (aw_alive w) t (rc_dispatch (aw_core w)))
                         then t :: aw_listening w else aw_listening w) (aw_gone w))
| AW_existing choice avail (target : TtpTarget Name) w r c :
    get_existing_tunnel info choice avail target (aw_core w) = (r, c) ->
    admission_step w (mkAdmission c (aw_admitted w) (aw_created w) (aw_closed w) (aw_listening w) (aw_gone w))
| AW_listen k purpose callback w :
    admission_step w (mkAdmission (mkCore (snd (dispatch_listen k purpose callback (rc_dispatch (aw_core w)))) (rc_tunnels (aw_core w)))
                        (aw_admitted w) (aw_created w) (aw_closed w) (aw_listening w) (aw_gone w))
| AW_unlisten k purpose w :
    admission_step w (mkAdmission (mkCore (dispatch_unlisten k purpose (rc_dispatch (aw_core w))) (rc_tunnels (aw_core w)))
                        (aw_admitted w) (aw_created w) (aw_closed w) (aw_listening w) (aw_gone w))
| AW_gone t w :
    t ∉ map snd (map_to_list (rc_tunnels (aw_core w))) ->
    admission_step w (mkAdmission (aw_core w) (aw_admitted w) (aw_created w) (aw_closed w) (aw_listening w) (t :: aw_gone w)).

Record admission_inv (w : AdmissionWorld) : Prop := {
  ai_cached k t : rc_tunnels (aw_core w) !! k = Some t ->
    (t ∈ aw_admitted w \/ t ∈ aw_created w) /\ k = cache_key (info t);
  ai_marked t : t ∈ aw_listening w -> t ∉ aw_gone w -> t ∈ dr_attached_tunnels (rc_dispatch (aw_core w));
  ai_once : NoDup (aw_listening w);
  ai_attached t : t ∈ dr_attached_tunnels (rc_dispatch (aw_core w)) -> t ∈ aw_listening w;
}.

Lemma mark_attached alive t d fresh d' :
  try_mark_attached alive t d = (fresh, d') ->
  (fresh = true <-> ~ (t ∈ dr_attached_tunnels d /\ alive t = true))
  /\ forall x, x ∈ dr_attached_tunnels d' <-> (x ∈ dr_attached_tunnels d /\ alive x = true) \/ (fresh = true /\ x = t).
Proof.
  unfold try_mark_attached. case_bool_decide as Hin; intros; simplify_eq; simpl; rewrite elem_of_List_filter in Hin.
  - split; [naive_solver|]. intros x. rewrite elem_of_List_filter. split; [auto|]. by intros [?|[? ?]].
  - split; [naive_solver|]. intros x. rewrite elem_of_app, elem_of_List_filter, list_elem_of_singleton. naive_solver.
Qed.

(** One attachment: the marks afterwards, and the tunnel listened to anew. *)
Lemma marks_step w t d' admitted created closed c' :
  admission_inv w -> t ∉ aw_gone w ->
  snd (try_mark_attached (aw_alive w) t (rc_dispatch (aw_core w))) = d' -> rc_dispatch c' = d' ->
  (forall k x, rc_tunnels c' !! k = Some x ->
     rc_tunnels (aw_core w) !! k = Some x \/ (x ∈ admitted \/ x ∈ created) /\ k = cache_key (info x)) ->
  aw_admitted w ⊆ admitted -> aw_created w ⊆ created ->
  admission_inv (mkAdmission c' admitted created closed
    (if fst (try_mark_attached (aw_alive w) t (rc_dispatch (aw_core w))) then t :: aw_listening w else aw_listening w) (aw_gone w)).
Proof.
  intros [A1 A2 A3 A4] Hg Hd Hc Ht Ha Hcr. destruct (try_mark_attached _ _ _) as [fresh d] eqn:Hm. simpl in *. subst d.
  apply mark_attached in Hm as [Hf Hx]. assert (Hal : aw_alive w t = true) by by apply bool_decide_eq_true.
  split; simpl; rewrite ?Hc.
  - intros k x Hk. destruct (Ht _ _ Hk) as [[[?|?] ?]%A1|?]; [split; [left; by apply Ha|done]|split; [right; by apply Hcr|done]|done].
  - intros x Hin Hx'. apply Hx. destruct fresh; [apply elem_of_cons in Hin as [->|Hin]; [by right|]|].
    all: left; split; [by apply A2|by apply bool_decide_eq_true].
  - destruct fresh; [|done]. constructor; [|done]. intros Hin. apply Hf; [done|]. split; [by apply A2|done].
  - intros x [[Hin _]|[-> ->]]%Hx; [|left]. destruct fresh; [right|]; by apply A4.
Qed.

Lemma remember_multi_lookup avail t m k x :
  remember_tunnel_in_multi info avail t m !! k = Some x -> m !! k = Some x \/ x = t /\ k = cache_key (info t).
Proof.
  unfold remember_tunnel_in_multi, retain_available.
  intros [[<- <-]|[_ [Hk _]%map_lookup_filter_Some]]%lookup_insert_Some; [by right|by left].
Qed.

Lemma attach_tunnel_dispatch alive listen t d r closed d' :
  attach_tunnel alive listen t d = (r, closed, d') -> d' = snd (try_mark_attached alive t d).
Proof. unfold attach_tunnel. destruct (try_mark_attached alive t d). intros. repeat case_match; by simplify_eq. Qed.

Lemma registries_inv d' w :
  dr_attached_tunnels d' = dr_attached_tunnels (rc_dispatch (aw_core w)) -> admission_inv w ->
  admission_inv (mkAdmission (mkCore d' (rc_tunnels (aw_core w))) (aw_admitted w) (aw_created w) (aw_closed w) (aw_listening w)
                   (aw_gone w)).
Proof. intros E [A1 A2 A3 A4]. split; simpl; rewrite ?E; done. Qed.

Lemma admission_step_inv w w' : admission_step w w' -> admission_inv w -> admission_inv w'.
Proof.
  intros H Hi. destruct H as [verdict avail listen t w fate closed c Hg Ha|avail listen t w r c Hg Ha|choice avail target w r c Hf|
    k purpose callback w|k purpose w|t w Ht].
  - destruct verdict as [[]|e]; simpl in Ha; simplify_eq; try by (destruct (fst _); destruct Hi; split).
    destruct (attach_tunnel _ _ _ _) as [[r cl] d] eqn:Hat. apply attach_tunnel_dispatch in Hat.
    eapply (marks_step w t d); [done|done|done| | |set_solver|done].
    + destruct r; by simplify_eq.
    + intros k x. destruct r; simplify_eq; simpl; [|by left].
      intros [?|[-> ->]]%remember_multi_lookup; [by left|right]. split; [left; left|done].
  - unfold remember_created in Ha. destruct (attach_tunnel _ _ _ _) as [[r0 cl] d] eqn:Hat. apply attach_tunnel_dispatch in Hat.
    eapply (marks_step w t d); [done|done|done| | |done|set_solver].
    + destruct r0; by simplify_eq.
    + intros k x. destruct r0; simplify_eq; simpl; [|by left].
      intros [?|[-> ->]]%remember_multi_lookup; [by left|right]. split; [right; left|done].
  - unfold get_existing_tunnel, find_existing_tunnel_in_multi in Hf. simplify_eq. destruct Hi as [A1 A2 A3 A4]. split; simpl; try done.
    intros k t [Hk _]%map_lookup_filter_Some. by apply A1.
  - apply registries_inv; [|done]. unfold dispatch_listen. destruct (ttp_register _ _ _). by destruct k.
  - apply registries_inv; [|done]. by destruct k.
  - destruct Hi as [A1 A2 A3 A4]. split; simpl; try done. intros x Hin Hx. apply A2; [done|set_solver].
Qed.

Lemma find_multi_spec choice avail (target : TtpTarget Name) m t m' :
  find_existing_tunnel_in_multi info choice avail target m = (Some t, m') ->
  exists k, m !! k = Some t /\ avail t = true /\ match_target (info t) target = true.
Proof.
  unfold find_existing_tunnel_in_multi, pick. intros [= H%list_elem_of_lookup_2 _].
  apply elem_of_List_filter in H as [([k x] & -> & H)%list_elem_of_fmap Hm]. exists k. apply elem_of_map_to_list in H.
  apply map_lookup_filter_Some in H as [[Hk Ha]%map_lookup_filter_Some _]. done.
Qed.

(** The tunnels of a TTP runtime are admitted: a tunnel over which it opens
    a channel is connected, matches the target, and came in and was accepted by
    the validator or was opened for it; each tunnel is listened to at most once,
    so every channel that arrives is handed on once, to the listener of its
    purpose and kind, with the identities of that tunnel. *)
Theorem ttp_tunnels_admitted w choice avail (target : TtpTarget Name) t c :
  rtc admission_step admission_new w -> get_existing_tunnel info choice avail target (aw_core w) = (Ok t, c) ->
  avail t = true /\ match_target (info t) target = true /\ (t ∈ aw_admitted w \/ t ∈ aw_created w)
  /\ NoDup (aw_listening w)
  /\ forall k purpose callback (meta : TtpMeta Name),
       channel_arrived info t k (Ok purpose) (rc_dispatch (aw_core w)) = Some (callback, meta) ->
       registry_of k (rc_dispatch (aw_core w)) !! purpose = Some callback
       /\ me_purpose meta = purpose /\ me_remote_id meta = tt_remote_id target.
Proof.
  intros Hr Hf. assert (Hi : admission_inv w).
  { eapply (rtc_preserves admission_step admission_inv); [intros ??; apply admission_step_inv|exact Hr|].
    split; simpl; [done|intros ? H; inversion H|constructor|intros ? H; inversion H]. }
  destruct Hi as [A1 _ A3 _]. unfold get_existing_tunnel in Hf.
  destruct (find_existing_tunnel_in_multi _ _ _ _ _) as [[t0|] m] eqn:Hm; simplify_eq. apply find_multi_spec in Hm as (k & Hk & Ha & Hmt).
  split_and!; [done|done|by apply A1 in Hk as [? _]|done|]. intros k' purpose callback meta. unfold channel_arrived, ttp_deliver.
  destruct (registry_of k' _ !! purpose) as [cb|]; [|done]. intros [= <- <-]. split_and!; [done|done|]. simpl.
  unfold match_target in Hmt. case_bool_decide; [done|discriminate].
Qed.
End admission.

(** ** Properties at work *)

Module TtpDemo.
Definition me : P2pId := mkP2pId [1].
Definition sn : P2pId := mkP2pId [9].
Definition at_port (p : Z) : Endpoint := endpoint_from Quic (V4 (mkV4 10 0 0 1) p).
(** Tunnels over one QUIC listener: all of them have the same endpoints. *)
Definition demo_info (t : nat) : TunnelInfo := mkTunnelInfo me sn (Some (at_port 4000)) (Some (at_port 5000)).
Definition demo_target : TtpTarget unit := mkTarget None (at_port 5000) sn None.
Definition demo_key : CacheKey := cache_key (demo_info 0).
Notation step strict := (lease_step (Name:=unit) demo_info (from_secs 300) strict).

Definition entry (t leases : nat) : TtpClientTunnelEntry := mkClientEntry t false 0 leases.
Definition one_lease : LeaseWorld (Name:=unit) :=
  mkLeases (mkTtpClient {[ demo_key := entry 0 1 ]} []) 0 [(demo_key, 0%nat)] [].

Definition no_lease : LeaseWorld (Name:=unit) := mkLeases (mkTtpClient {[ demo_key := entry 0 0 ]} []) 0 [] [].

Lemma remembers strict t w c :
  (strict = true -> lw_leases w = []) ->
  remember_tunnel_entry demo_info (from_secs 300) (lw_avail w) (lw_now w) t (lw_client w) = c -> step strict w (with_client c w).
Proof. intros Hs <-. apply LW_remember. intros E. by rewrite (Hs E). Qed.
Lemma no_lease_reachable strict : rtc (step strict) leases_new no_lease.
Proof. eapply rtc_l; [|apply rtc_refl]. apply (remembers strict 0 leases_new (lw_client no_lease)); [done|vm_compute; reflexivity]. Qed.
Lemma one_lease_reachable strict : rtc (step strict) leases_new one_lease.
Proof.
  eapply rtc_r; [apply no_lease_reachable|].
  apply (LW_acquire demo_info (from_secs 300) strict 0 demo_target no_lease demo_key (entry 0 0) (lw_client one_lease));
    vm_compute; reflexivity.
Qed.

Lemma leased_tunnels_kept_witness :
  exists e', cl_tunnels (idle_turn demo_info (from_secs 300) (lw_avail one_lease) (from_secs 1000) (lw_client one_lease)) !! demo_key = Some e'
  /\ ce_tunnel e' = 0%nat.
Proof.
  destruct (leased_tunnels_kept demo_info (from_secs 300) one_lease demo_key 0 (from_secs 1000) (one_lease_reachable true))
    as (e & _ & _ & H); [left|reflexivity|exact H].
Defined.

(** The tunnel of the first lease dies, its successor takes its place under the
    same key, and the first lease is dropped only then: it takes away the lease
    of the successor, which is released as idle while its channel is in use. *)
Definition successor : LeaseWorld (Name:=unit) :=
  mkLeases (mkTtpClient {[ demo_key := entry 1 0 ]} []) 0 [(demo_key, 0%nat)] [0%nat].
Definition second_lease : LeaseWorld (Name:=unit) :=
  mkLeases (mkTtpClient {[ demo_key := entry 1 1 ]} []) 0 [(demo_key, 1%nat); (demo_key, 0%nat)] [0%nat].
Definition lease_lost : LeaseWorld (Name:=unit) :=
  mkLeases (mkTtpClient {[ demo_key := entry 1 0 ]} []) 0 [(demo_key, 1%nat)] [0%nat].

Lemma drops strict k t w pre post c :
  lw_leases w = pre ++ (k, t) :: post -> lease_drop (lw_now w) k (lw_client w) = c ->
  step strict w (mkLeases c (lw_now w) (pre ++ post) (lw_dead w)).
Proof. intros Hl <-. by eapply LW_drop. Qed.

Lemma lease_of_successor_lost :
  exists w, rtc (step false) leases_new w /\ (demo_key, 1%nat) ∈ lw_leases w /\ lw_avail w 1 = true
  /\ cl_tunnels (idle_turn demo_info (from_secs 300) (lw_avail w) (lw_now w) (lw_client w)) !! demo_key = None.
Proof.
  exists (mkLeases (lw_client lease_lost) (from_secs 300) (lw_leases lease_lost) (lw_dead lease_lost)). split_and!.
  - etrans; [apply one_lease_reachable|]. eapply rtc_l; [apply (LW_dies _ _ _ 0)|].
    eapply (rtc_l _ _ successor).
    { apply (remembers false 1 (mkLeases (lw_client one_lease) 0 [(demo_key, 0%nat)] [0%nat]) (lw_client successor));
        [done|vm_compute; reflexivity]. }
    eapply (rtc_l _ _ second_lease).
    { apply (LW_acquire demo_info (from_secs 300) false 0 demo_target successor demo_key (entry 1 0) (lw_client second_lease));
        vm_compute; reflexivity. }
    eapply (rtc_l _ _ lease_lost).
    { apply (drops false demo_key 0 second_lease [(demo_key, 1%nat)] [] (lw_client lease_lost)); [done|vm_compute; reflexivity]. }
    eapply rtc_l; [|apply rtc_refl]. by apply (LW_time _ _ _ (from_secs 300) lease_lost).
  - left.
  - reflexivity.
  - vm_compute. reflexivity.
Qed.

Lemma idle_tunnels_released_witness :
  cl_tunnels (idle_turn demo_info (from_secs 300) (lw_avail no_lease) (from_secs 300) (lw_client no_lease)) !! demo_key = None.
Proof.
  apply (idle_tunnels_released demo_info (from_secs 300) no_lease demo_key (entry 0 0) (from_secs 300)).
  - apply no_lease_reachable.
  - vm_compute. reflexivity.
  - right. split_and!; [reflexivity|reflexivity|done|vm_compute; discriminate].
Defined.

Definition demo_admitted : AdmissionWorld :=
  mkAdmission (mkCore (mkDispatch {[ [7] := 3%nat ]} ∅ ∅ [0%nat]) {[ demo_key := 0%nat ]}) [0%nat] [] [] [0%nat] [].
Definition demo_listening : AdmissionWorld :=
  mkAdmission (mkCore (mkDispatch {[ [7] := 3%nat ]} ∅ ∅ []) ∅) [] [] [] [] [].

Lemma listens k purpose callback w d :
  snd (dispatch_listen k purpose callback (rc_dispatch (aw_core w))) = d ->
  admission_step (Name:=unit) demo_info w
    (mkAdmission (mkCore d (rc_tunnels (aw_core w))) (aw_admitted w) (aw_created w) (aw_closed w) (aw_listening w) (aw_gone w)).
Proof. intros <-. apply AW_listen. Qed.
Lemma admits t w c :
  t ∉ aw_gone w -> accept_incoming_tunnel demo_info (Ok Accept) (aw_alive w) (fun _ => true) (fun _ => Ok tt) t (aw_core w) = (FateRemembered, false, c) ->
  fst (try_mark_attached (aw_alive w) t (rc_dispatch (aw_core w))) = true ->
  admission_step (Name:=unit) demo_info w
    (mkAdmission c (t :: aw_admitted w) (aw_created w) (aw_closed w) (t :: aw_listening w) (aw_gone w)).
Proof.
  intros Hg Ha Hm. pose proof (AW_incoming (Name:=unit) demo_info (Ok Accept) (fun _ => true) (fun _ => Ok tt) t w _ _ _ Hg Ha) as H.
  by rewrite Hm in H.
Qed.
Lemma demo_admitted_reachable : rtc (admission_step (Name:=unit) demo_info) admission_new demo_admitted.
Proof.
  eapply (rtc_l _ _ demo_listening).
  - apply (listens KStream [7] 3 admission_new (rc_dispatch (aw_core demo_listening))). vm_compute. reflexivity.
  - eapply rtc_l; [|apply rtc_refl].
    apply (admits 0 demo_listening (aw_core demo_admitted)); [by intros H; inversion H|vm_compute; reflexivity..].
Qed.

Lemma ttp_tunnels_admitted_witness :
  get_existing_tunnel demo_info 0 (fun _ => true) demo_target (aw_core demo_admitted) = (Ok 0%nat, aw_core demo_admitted)
  /\ match_target (demo_info 0) demo_target = true.
Proof.
  assert (Hg : get_existing_tunnel demo_info 0 (fun _ => true) demo_target (aw_core demo_admitted) = (Ok 0%nat, aw_core demo_admitted))
    by (vm_compute; reflexivity).
  split; [exact Hg|].
  apply (ttp_tunnels_admitted demo_info demo_admitted 0 (fun _ => true) demo_target 0 (aw_core demo_admitted) demo_admitted_reachable Hg).
Defined.
End TtpDemo.
