(* ===== verification/Listeners.v ===== *)
(** * Stream and datagram managers (src/p2p-frame/src/stream/stream_manager.rs and
      src/p2p-frame/src/datagram/datagram_manager.rs)

    Both managers keep tables of listeners by purpose: streams, control streams
    and datagrams are handed to the listener of their purpose through a bounded
    channel, and a guard stops its listener.  The code of the three tables is the
    same but for the type of the items, so it is written once here, over the
    items, and the two managers are built from it.

    A listener is shared between the guard (the receiver) and the table and the
    callbacks that run (the senders): it is an object of a heap.  The channel is
    a queue; it is closed for the receiver when no sender is left. *)

From S2P Require Import Prelude.
From S2P Require Import Errors.
From S2P Require Import Ids.
From S2P Require Import Endpoint.
From S2P Require Import Ttp.

Definition LISTENER_CHANNEL_CAPACITY : nat := 1024.

Section table.
Context {Item : Type}.

(** [StreamListener] with its sender and what they share. *)
Record Listener := mkListener { ln_purpose : list Z; ln_queue : list Item; ln_is_stop : bool; ln_rx_closed : bool }.
Definition listener_channel (purpose : list Z) : Listener := mkListener purpose [] false false.

(** [StreamListenerShared::stop], by the sender; the receiver's [stop] closes the
    channel too. *)
Definition sender_stop (l : Listener) : Listener := mkListener (ln_purpose l) (ln_queue l) true (ln_rx_closed l).
Definition listener_stop (l : Listener) : Listener := mkListener (ln_purpose l) (ln_queue l) true true.

Definition push_accepted (item : Item) (l : Listener) : P2pResult unit * Listener :=
  if ln_is_stop l then (Err P2pErrorCode.UserCanceled, l)
  else if ln_rx_closed l then (Err P2pErrorCode.Interrupted, l)
  else if (LISTENER_CHANNEL_CAPACITY <=? length (ln_queue l))%nat then (Err P2pErrorCode.OutOfLimit, l)
  else (Ok tt, mkListener (ln_purpose l) (ln_queue l ++ [item]) (ln_is_stop l) (ln_rx_closed l)).

(** A poll of [accept]: [entry] at its first, where it tests [is_stop]; the
    branches of [select!] are both ready at times, [prefer_stop] says which is
    taken.  [None] is pending. *)
Definition accept_poll (entry notified prefer_stop senders_left : bool) (l : Listener)
    : option (P2pResult Item) * Listener :=
  if entry && ln_is_stop l then (Some (Err P2pErrorCode.UserCanceled), l)
  else if notified && prefer_stop then (Some (Err P2pErrorCode.UserCanceled), l)
  else match ln_queue l with
       | item :: queue =>
           (Some (if ln_is_stop l then Err P2pErrorCode.UserCanceled else Ok item),
            mkListener (ln_purpose l) queue (ln_is_stop l) (ln_rx_closed l))
       | [] =>
           if negb senders_left || ln_rx_closed l
           then (Some (if ln_is_stop l then Err P2pErrorCode.UserCanceled else Err P2pErrorCode.Interrupted), l)
           else if notified then (Some (Err P2pErrorCode.UserCanceled), l)
           else (None, l)
       end.

(** The table: [ListenPurposeRegistry] over the heap of listeners. *)
Record Table := mkTable { tb_registry : gmap (list Z) nat; tb_heap : gmap nat Listener }.
Definition table_new : Table := mkTable ∅ ∅.
Definition set_listener (n : nat) (l : Listener) (t : Table) : Table := mkTable (tb_registry t) (<[n := l]> (tb_heap t)).

(** [listen]: the test, and the insertion after it ([n] is a new listener). *)
Definition listen_test (already : P2pErrorCode.t) (purpose : list Z) (t : Table) : P2pResult unit :=
  match tb_registry t !! purpose with Some _ => Err already | None => Ok tt end.
Definition listen_insert (purpose : list Z) (n : nat) (t : Table) : Table :=
  mkTable (<[purpose := n]> (tb_registry t)) (<[n := listener_channel purpose]> (tb_heap t)).

Definition remove_listener (purpose : list Z) (t : Table) : Table :=
  match tb_registry t !! purpose with
  | None => t
  | Some n => mkTable (delete purpose (tb_registry t)) (alter sender_stop n (tb_heap t))
  end.
(** [Drop for StreamListenerGuard] *)
Definition guard_dropped (n : nat) (t : Table) : Table :=
  match tb_heap t !! n with
  | None => t
  | Some l => remove_listener (ln_purpose l) (set_listener n (listener_stop l) t)
  end.

(** The callback of a tunnel: the sender it finds, and the push. *)
Definition sender_for (purpose : list Z) (t : Table) : option nat := tb_registry t !! purpose.
Definition push_to (n : nat) (item : Item) (t : Table) : P2pResult unit * Table :=
  match tb_heap t !! n with
  | None => (Err P2pErrorCode.Interrupted, t)
  | Some l => let '(r, l) := push_accepted item l in (r, set_listener n l t)
  end.
End table.
Arguments Listener : clear implicits.
Arguments Table : clear implicits.

(** ** The managers *)

(** What [wrap_opened_stream] puts into both halves of a stream. *)
Record StreamInfo := mkStreamInfo {
  si_tunnel : nat; si_session_id : SessionId; si_purpose : list Z; si_remote : Endpoint; si_local : Endpoint;
  si_remote_id : P2pId; si_local_id : P2pId }.
Definition wrap_opened_stream (info : nat -> TunnelInfo) (tunnel : nat) (session_id : SessionId) (purpose : list Z) : StreamInfo :=
  mkStreamInfo tunnel session_id purpose
    (default endpoint_default (tf_remote_ep (info tunnel))) (default endpoint_default (tf_local_ep (info tunnel)))
    (tf_remote_id (info tunnel)) (tf_local_id (info tunnel)).
(** [is_closed] of a half: the tunnel is closed or gone. *)
Definition half_is_closed (upgrade : nat -> option bool) (s : StreamInfo) : bool := default true (upgrade (si_tunnel s)).

Record DatagramInfo := mkDatagramInfo { di_tunnel : nat; di_session_id : SessionId; di_purpose : list Z }.

Record StreamManager := mkStreams {
  sm_session_gen : Z; sm_listeners : Table StreamInfo; sm_control_listeners : Table StreamInfo }.
Record DatagramManager := mkDatagrams { dm_session_gen : Z; dm_listeners : Table DatagramInfo }.

Section managers.
Context (overflow_checks : bool) (info : nat -> TunnelInfo).

(** [connect] and its variants: [tunnel] is what the tunnel manager gave,
    [opened] the result of opening the channel.  [None]: the generator panicked. *)
Definition stream_connect (tunnel : P2pResult nat) (opened : P2pResult unit) (purpose : list Z) (m : StreamManager)
    : option (P2pResult StreamInfo * StreamManager) :=
  match tunnel with
  | Err e => Some (Err e, m)
  | Ok t =>
      let '(session, gen) := SessionIdGenerator_generate overflow_checks (sm_session_gen m) in
      session_id ← session;
      Some (match opened with Err e => Err e | Ok _ => Ok (wrap_opened_stream info t session_id purpose) end,
            mkStreams gen (sm_listeners m) (sm_control_listeners m))
  end.
Definition datagram_connect (tunnel : P2pResult nat) (opened : P2pResult unit) (purpose : list Z) (m : DatagramManager)
    : option (P2pResult DatagramInfo * DatagramManager) :=
  match tunnel with
  | Err e => Some (Err e, m)
  | Ok t =>
      let '(session, gen) := SessionIdGenerator_generate overflow_checks (dm_session_gen m) in
      session_id ← session;
      Some (match opened with Err e => Err e | Ok _ => Ok (mkDatagramInfo t session_id purpose) end,
            mkDatagrams gen (dm_listeners m))
  end.

(** A stream arrives on a tunnel, [control] saying on which of the two ways; the
    result has what its listener was offered. *)
Definition stream_arrived (control : bool) (tunnel : nat) (accepted : P2pResult (list Z)) (m : StreamManager)
    : option (option (nat * StreamInfo * P2pResult unit) * StreamManager) :=
  match accepted with
  | Err _ => Some (None, m)
  | Ok purpose =>
      let table := if control then sm_control_listeners m else sm_listeners m in
      match sender_for purpose table with
      | None => Some (None, m)
      | Some n =>
          let '(session, gen) := SessionIdGenerator_generate overflow_checks (sm_session_gen m) in
          session_id ← session;
          let item := wrap_opened_stream info tunnel session_id purpose in
          let '(r, table) := push_to n item table in
          Some (Some (n, item, r),
                if control then mkStreams gen (sm_listeners m) table else mkStreams gen table (sm_control_listeners m))
      end
  end.
Definition datagram_arrived (tunnel : nat) (accepted : P2pResult (list Z)) (m : DatagramManager)
    : option (option (nat * DatagramInfo * P2pResult unit) * DatagramManager) :=
  match accepted with
  | Err _ => Some (None, m)
  | Ok purpose =>
      match sender_for purpose (dm_listeners m) with
      | None => Some (None, m)
      | Some n =>
          let '(session, gen) := SessionIdGenerator_generate overflow_checks (dm_session_gen m) in
          session_id ← session;
          let item := mkDatagramInfo tunnel session_id purpose in
          let '(r, table) := push_to n item (dm_listeners m) in
          Some (Some (n, item, r), mkDatagrams gen table)
      end
  end.
End managers.

(** ** Listeners among their callers *)

Section world.
Context {Item : Type}.
Notation Offer := (nat * list Z * Item)%type.

(** The table with what is going on around it: the guards, the calls of [listen]
    between test and insertion, the callbacks that hold a sender and are about to
    push, and what was pushed and accepted, in order. *)
Record TableWorld := mkWorld {
  tw_table : Table Item;
  tw_guards : list nat;
  tw_testing : list (list Z);
  tw_pushing : list Offer;
  tw_seen : list Item;
  tw_pushed : list Offer;
  tw_accepted : list (nat * Item);
}.
Definition world_new : TableWorld := mkWorld table_new [] [] [] [] [] [].

(** With [strict] a listener is inserted only where there is none. *)
Inductive table_step (strict : bool) : TableWorld -> TableWorld -> Prop :=
| TW_test already p w :
    listen_test already p (tw_table w) = Ok tt ->
    table_step strict w (mkWorld (tw_table w) (tw_guards w) (p :: tw_testing w) (tw_pushing w) (tw_seen w) (tw_pushed w) (tw_accepted w))
| TW_insert p n w pre post :
    tw_testing w = pre ++ p :: post -> tb_heap (tw_table w) !! n = None ->
    (strict = true -> tb_registry (tw_table w) !! p = None) ->
    table_step strict w (mkWorld (listen_insert p n (tw_table w)) (n :: tw_guards w) (pre ++ post) (tw_pushing w) (tw_seen w)
                           (tw_pushed w) (tw_accepted w))
| TW_drop n w pre post :
    tw_guards w = pre ++ n :: post ->
    table_step strict w (mkWorld (guard_dropped n (tw_table w)) (pre ++ post) (tw_testing w) (tw_pushing w) (tw_seen w)
                           (tw_pushed w) (tw_accepted w))
| TW_find p item n w :
    item ∉ tw_seen w -> sender_for p (tw_table w) = Some n ->
    table_step strict w (mkWorld (tw_table w) (tw_guards w) (tw_testing w) ((n, p, item) :: tw_pushing w) (item :: tw_seen w)
                           (tw_pushed w) (tw_accepted w))
| TW_push n p item w pre post r t :
    tw_pushing w = pre ++ (n, p, item) :: post -> push_to n item (tw_table w) = (r, t) ->
    table_step strict w (mkWorld t (tw_guards w) (tw_testing w) (pre ++ post) (tw_seen w)
                           (match r with Ok _ => tw_pushed w ++ [(n, p, item)] | Err _ => tw_pushed w end) (tw_accepted w))
| TW_accept n entry notified prefer_stop senders_left w l r l' :
    n ∈ tw_guards w -> tb_heap (tw_table w) !! n = Some l ->
    accept_poll entry notified prefer_stop senders_left l = (r, l') ->
    table_step strict w (mkWorld (set_listener n l' (tw_table w)) (tw_guards w) (tw_testing w) (tw_pushing w) (tw_seen w) (tw_pushed w)
                           (match r with Some (Ok item) => tw_accepted w ++ [(n, item)] | _ => tw_accepted w end)).

Definition pushed_to (n : nat) (l : list Offer) : list Item :=
  map snd (List.filter (fun x => bool_decide (fst (fst x) = n)) l).
Definition accepted_by (n : nat) (l : list (nat * Item)) : list Item :=
  map snd (List.filter (fun x => bool_decide (fst x = n)) l).

Lemma pushed_to_app n l l' : pushed_to n (l ++ l') = pushed_to n l ++ pushed_to n l'.
Proof. unfold pushed_to. by rewrite List.filter_app, map_app. Qed.
Lemma accepted_by_app n l l' : accepted_by n (l ++ l') = accepted_by n l ++ accepted_by n l'.
Proof. unfold accepted_by. by rewrite List.filter_app, map_app. Qed.

(** *** In order *)

(** One listener: what was pushed is what was accepted, then what was dropped
    after the stop, then what is still queued. *)
Definition listener_ok (w : TableWorld) (n : nat) (l : Listener Item) : Prop :=
  (length (ln_queue l) <= LISTENER_CHANNEL_CAPACITY)%nat
  /\ exists lost, pushed_to n (tw_pushed w) = accepted_by n (tw_accepted w) ++ lost ++ ln_queue l
     /\ (ln_is_stop l = false -> lost = []).

Record order_inv (w : TableWorld) : Prop := {
  oi_listener n l : tb_heap (tw_table w) !! n = Some l -> listener_ok w n l;
  oi_absent n : tb_heap (tw_table w) !! n = None -> pushed_to n (tw_pushed w) = [] /\ accepted_by n (tw_accepted w) = [];
  oi_registry p n : tb_registry (tw_table w) !! p = Some n -> exists l, tb_heap (tw_table w) !! n = Some l /\ ln_purpose l = p;
  oi_offers n p item : (n, p, item) ∈ tw_pushing w ++ tw_pushed w ->
    exists l, tb_heap (tw_table w) !! n = Some l /\ ln_purpose l = p;
  oi_once : NoDup (map snd (tw_pushing w ++ tw_pushed w));
  oi_seen : map snd (tw_pushing w ++ tw_pushed w) ⊆ tw_seen w;
}.

(** A change of the heap that keeps every listener, its purpose and its queue,
    and can only stop it. *)
Definition heap_frame (h h' : gmap nat (Listener Item)) : Prop :=
  forall n, match h !! n, h' !! n with
            | Some l, Some l' => ln_purpose l' = ln_purpose l /\ ln_queue l' = ln_queue l
                                 /\ (ln_is_stop l = true -> ln_is_stop l' = true)
            | None, None => True
            | _, _ => False
            end.

Lemma order_frame w t' guards testing :
  heap_frame (tb_heap (tw_table w)) (tb_heap t') ->
  (forall p n, tb_registry t' !! p = Some n -> tb_registry (tw_table w) !! p = Some n) -> order_inv w ->
  order_inv (mkWorld t' guards testing (tw_pushing w) (tw_seen w) (tw_pushed w) (tw_accepted w)).
Proof.
  intros Hf Hr [O1 O2 O3 O4 O5 O6].
  assert (Hp : forall n p, (exists l, tb_heap (tw_table w) !! n = Some l /\ ln_purpose l = p) ->
                           exists l, tb_heap t' !! n = Some l /\ ln_purpose l = p).
  { intros n p (l & Hl & <-). specialize (Hf n). rewrite Hl in Hf. destruct (tb_heap t' !! n) as [l'|]; [|done].
    exists l'. split; [done|apply Hf]. }
  split; simpl; [| | |intros n p item Hin; by eapply Hp, O4|done|done].
  - intros n l' Hl'. specialize (Hf n). rewrite Hl' in Hf. destruct (tb_heap (tw_table w) !! n) as [l|] eqn:Hl; [|done].
    destruct Hf as (_ & Hq & Hs). destruct (O1 _ _ Hl) as [Hlen (lost & Hpu & Hlost)]. unfold listener_ok. simpl. rewrite Hq.
    split; [done|]. exists lost. split; [done|]. intros Hn. apply Hlost. destruct (ln_is_stop l); [|done]. by rewrite Hs in Hn.
  - intros n Hn. apply O2. specialize (Hf n). rewrite Hn in Hf. by destruct (tb_heap (tw_table w) !! n).
  - intros p n H. by eapply Hp, O3, Hr.
Qed.

Lemma heap_frame_stop h n (l l' : Listener Item) :
  h !! n = Some l -> ln_purpose l' = ln_purpose l -> ln_queue l' = ln_queue l -> (ln_is_stop l = true -> ln_is_stop l' = true) ->
  heap_frame h (<[n := l']> h).
Proof.
  intros Hl Hp Hq Hs m. destruct (decide (n = m)) as [<-|].
  - rewrite Hl, lookup_insert_eq. done.
  - rewrite lookup_insert_ne by done. by destruct (h !! m).
Qed.
Lemma heap_frame_trans h1 h2 h3 : heap_frame h1 h2 -> heap_frame h2 h3 -> heap_frame h1 h3.
Proof.
  intros H1 H2 n. specialize (H1 n). specialize (H2 n). destruct (h1 !! n), (h2 !! n), (h3 !! n); try done.
  destruct H1 as (? & ? & ?), H2 as (? & ? & ?). split_and!; [congruence|congruence|auto].
Qed.
Lemma heap_frame_alter h n : heap_frame h (alter (@sender_stop Item) n h).
Proof.
  intros m. destruct (decide (n = m)) as [<-|]; [rewrite lookup_alter_eq|rewrite lookup_alter_ne by done]; by destruct (h !! _).
Qed.

Lemma guard_dropped_frame n t :
  heap_frame (tb_heap t) (tb_heap (guard_dropped (Item:=Item) n t))
  /\ forall p m, tb_registry (guard_dropped n t) !! p = Some m -> tb_registry t !! p = Some m.
Proof.
  unfold guard_dropped. destruct (tb_heap t !! n) as [l|] eqn:Hl.
  - unfold remove_listener. simpl. destruct (tb_registry t !! ln_purpose l) as [m|]; simpl.
    + split; [|intros p x [_ ?]%lookup_delete_Some; done].
      apply (heap_frame_trans _ (<[n := listener_stop l]> (tb_heap t))); [by eapply heap_frame_stop|apply heap_frame_alter].
    + split; [by eapply heap_frame_stop|done].
  - split; [intros m; by destruct (tb_heap t !! m)|done].
Qed.

Lemma order_insert p n w pre post :
  tb_heap (tw_table w) !! n = None -> order_inv w ->
  order_inv (mkWorld (listen_insert p n (tw_table w)) (n :: tw_guards w) (pre ++ post) (tw_pushing w) (tw_seen w)
               (tw_pushed w) (tw_accepted w)).
Proof.
  intros Hn [O1 O2 O3 O4 O5 O6].
  assert (Hp : forall m q, (exists l, tb_heap (tw_table w) !! m = Some l /\ ln_purpose l = q) ->
                           exists l, <[n := listener_channel p]> (tb_heap (tw_table w)) !! m = Some l /\ ln_purpose l = q).
  { intros m q (l & Hl & Hq). exists l. rewrite lookup_insert_ne by congruence. done. }
  destruct (O2 _ Hn) as [Hpu Hac]. split; simpl; [| | |intros m q item Hin; by eapply Hp, O4|done|done].
  - intros m l [[<- <-]|[_ Hl]]%lookup_insert_Some; [|by apply O1]. split; [simpl; lia|]. exists []. simpl. by rewrite Hpu, Hac.
  - intros m [Hm _]%lookup_insert_None. by apply O2.
  - intros q m [[<- <-]|[_ Hq]]%lookup_insert_Some; [|by apply Hp, O3]. exists (listener_channel p). by rewrite lookup_insert_eq.
Qed.

(** A step that changes one listener, what was pushed to it and accepted by it. *)
Lemma order_one n l l' w t' pushing pushed accepted :
  tb_heap (tw_table w) !! n = Some l -> t' = set_listener n l' (tw_table w) -> ln_purpose l' = ln_purpose l ->
  (forall m, m <> n -> pushed_to m pushed = pushed_to m (tw_pushed w) /\ accepted_by m accepted = accepted_by m (tw_accepted w)) ->
  (forall x, x ∈ pushing ++ pushed -> x ∈ tw_pushing w ++ tw_pushed w) -> NoDup (map snd (pushing ++ pushed)) ->
  listener_ok (mkWorld t' (tw_guards w) (tw_testing w) pushing (tw_seen w) pushed accepted) n l' -> order_inv w ->
  order_inv (mkWorld t' (tw_guards w) (tw_testing w) pushing (tw_seen w) pushed accepted).
Proof.
  intros Hl -> Hp Hm Hsub Hnd Hok [O1 O2 O3 O4 O5 O6].
  assert (Hpu : forall m q, (exists x, tb_heap (tw_table w) !! m = Some x /\ ln_purpose x = q) ->
                           exists x, <[n := l']> (tb_heap (tw_table w)) !! m = Some x /\ ln_purpose x = q).
  { intros m q (x & Hx & Hq). destruct (decide (n = m)) as [<-|]; [exists l'; rewrite lookup_insert_eq|exists x; by rewrite lookup_insert_ne].
    split; [done|]. congruence. }
  split; simpl; [| |intros q m H; by apply Hpu, O3|intros m q item Hin; eapply Hpu, O4, Hsub, Hin|done|].
  - intros m x [[<- <-]|[Hne Hx]]%lookup_insert_Some; [done|]. destruct (O1 _ _ Hx) as [? (lost & ? & ?)].
    split; [done|]. exists lost. simpl. destruct (Hm m) as [-> ->]; done.
  - intros m [Hx Hne]%lookup_insert_None. destruct (Hm m) as [-> ->]; [done|]. by apply O2.
  - intros x (o & -> & Ho)%list_elem_of_fmap. apply O6. apply list_elem_of_fmap. exists o. split; [done|]. by apply Hsub.
Qed.

Lemma order_push n p item w pre post r t :
  tw_pushing w = pre ++ (n, p, item) :: post -> push_to n item (tw_table w) = (r, t) -> order_inv w ->
  order_inv (mkWorld t (tw_guards w) (tw_testing w) (pre ++ post) (tw_seen w)
               (match r with Ok _ => tw_pushed w ++ [(n, p, item)] | Err _ => tw_pushed w end) (tw_accepted w)).
Proof.
  intros Hpre Hpu Hi. destruct (oi_offers _ Hi n p item) as (l & Hl & _).
  { rewrite Hpre. set_solver. }
  unfold push_to in Hpu. rewrite Hl in Hpu. destruct (push_accepted item l) as [r' l'] eqn:Hpa. injection Hpu as -> <-.
  destruct (oi_listener _ Hi _ _ Hl) as [Hlen (lost & Hfifo & Hlost)]. pose proof (oi_once _ Hi) as Hnd. rewrite Hpre in Hnd.
  assert (Herr : r <> Ok tt -> l' = l -> order_inv (mkWorld (set_listener n l' (tw_table w)) (tw_guards w) (tw_testing w)
                   (pre ++ post) (tw_seen w) (tw_pushed w) (tw_accepted w))).
  { intros _ ->. eapply order_one; [exact Hl|done|done|done| | | |done].
    - intros x. rewrite Hpre. set_solver.
    - rewrite <- app_assoc in Hnd |- *. rewrite map_app in Hnd |- *. simpl in Hnd. apply NoDup_app in Hnd as (N1 & N2 & N3).
      apply NoDup_cons in N3 as [_ N3]. apply NoDup_app. split_and!; [done| |done]. intros x Hx. specialize (N2 x Hx). set_solver.
    - split; [done|]. by exists lost. }
  unfold push_accepted in Hpa. destruct (ln_is_stop l) eqn:Hs; [injection Hpa as <- <-; by apply Herr|].
  destruct (ln_rx_closed l); [injection Hpa as <- <-; by apply Herr|].
  destruct (Nat.leb_spec LISTENER_CHANNEL_CAPACITY (length (ln_queue l))); [injection Hpa as <- <-; by apply Herr|].
  injection Hpa as <- <-. eapply order_one; [exact Hl|done|done| | | | |done].
  - intros m Hm. rewrite pushed_to_app. split; [|done]. unfold pushed_to at 2. simpl.
    rewrite bool_decide_eq_false_2 by done. apply app_nil_r.
  - intros x. rewrite Hpre. set_solver.
  - eapply NoDup_Permutation_proper; [|exact Hnd]. apply Permutation_map.
    rewrite <- !app_assoc. apply Permutation_app_head. simpl. rewrite app_assoc, Permutation_app_comm. done.
  - split; [simpl; rewrite length_app; simpl; lia|]. rewrite (Hlost eq_refl) in Hfifo. exists []. split; [|done]. simpl.
    rewrite pushed_to_app, Hfifo. unfold pushed_to. simpl. rewrite bool_decide_eq_true_2 by done. simpl. by rewrite app_assoc.
Qed.

Lemma order_accept n entry notified prefer_stop senders_left w l r l' :
  tb_heap (tw_table w) !! n = Some l -> accept_poll entry notified prefer_stop senders_left l = (r, l') -> order_inv w ->
  order_inv (mkWorld (set_listener n l' (tw_table w)) (tw_guards w) (tw_testing w) (tw_pushing w) (tw_seen w) (tw_pushed w)
               (match r with Some (Ok item) => tw_accepted w ++ [(n, item)] | _ => tw_accepted w end)).
Proof.
  intros Hl Ha Hi. destruct (oi_listener _ Hi _ _ Hl) as [Hlen (lost & Hfifo & Hlost)].
  assert (Hp : ln_purpose l' = ln_purpose l).
  { unfold accept_poll in Ha. repeat case_match; simplify_eq; done. }
  eapply order_one; [exact Hl|done|done| |done|apply Hi| |done].
  - intros m Hm. split; [done|]. destruct r as [[item|]|]; try done. rewrite accepted_by_app. unfold accepted_by at 2. simpl.
    rewrite bool_decide_eq_false_2 by done. apply app_nil_r.
  - unfold listener_ok. simpl. unfold accept_poll in Ha.
    destruct (entry && ln_is_stop l); [simplify_eq; split; [done|by exists lost]|].
    destruct (notified && prefer_stop); [simplify_eq; split; [done|by exists lost]|].
    destruct (ln_queue l) as [|item queue] eqn:Hq.
    { assert (El : l' = l /\ forall item, r <> Some (Ok item)) by (repeat case_match; by simplify_eq).
      destruct El as [-> Hne]. rewrite Hq. split; [done|]. exists lost. split; [|done].
      destruct r as [[item|]|]; [by destruct (Hne item)|done..]. }
    simplify_eq. simpl in *. split; [lia|]. destruct (ln_is_stop l).
    + exists (lost ++ [item]). split; [|done]. rewrite Hfifo. by rewrite <- !app_assoc.
    + exists []. split; [|done]. rewrite accepted_by_app, Hfifo, (Hlost eq_refl). unfold accepted_by at 3. simpl.
      rewrite bool_decide_eq_true_2 by done. simpl. by rewrite <- app_assoc.
Qed.

Lemma table_step_order strict w w' : table_step strict w w' -> order_inv w -> order_inv w'.
Proof.
  intros H Hi. destruct H.
  - destruct Hi. by split.
  - by apply order_insert.
  - destruct (guard_dropped_frame n (tw_table w)). by apply order_frame.
  - destruct Hi as [O1 O2 O3 O4 O5 O6]. split; simpl; [done|done|done| | |set_solver].
    + intros n' p' item' Hin. apply elem_of_cons in Hin as [E|Hin]; [|by eapply O4]. simplify_eq. by apply O3.
    + constructor; [|done]. intros Hin. by apply H, O6.
  - by eapply order_push.
  - by eapply order_accept.
Qed.

(** Streams are accepted in order: whatever calls of [listen], dropped
    guards, arriving streams and accepts are interleaved, each stream is offered
    to one listener, of its purpose; while a listener is not stopped, what it has
    accepted is a prefix of what was pushed to it, in order, and the rest is in
    its queue, which never exceeds its capacity; nothing is accepted after a
    loss. *)
Theorem streams_accepted_in_order strict w n l :
  rtc (table_step strict) world_new w -> tb_heap (tw_table w) !! n = Some l ->
  (length (ln_queue l) <= LISTENER_CHANNEL_CAPACITY)%nat
  /\ accepted_by n (tw_accepted w) `prefix_of` pushed_to n (tw_pushed w)
  /\ (ln_is_stop l = false -> pushed_to n (tw_pushed w) = accepted_by n (tw_accepted w) ++ ln_queue l)
  /\ NoDup (map snd (tw_pushed w))
  /\ (forall p item, (n, p, item) ∈ tw_pushed w -> p = ln_purpose l).
Proof.
  intros Hr Hl. assert (Hi : order_inv w).
  { eapply (rtc_preserves (table_step strict) order_inv); [intros ??; apply table_step_order|exact Hr|].
    split; simpl; [done|done|done|intros ??? H; inversion H|constructor|set_solver]. }
  destruct (oi_listener _ Hi _ _ Hl) as [Hlen (lost & Hfifo & Hlost)]. split_and!; [done| | | |].
  - rewrite Hfifo. by eexists.
  - intros Hs. by rewrite Hfifo, (Hlost Hs).
  - pose proof (oi_once _ Hi) as Hn. rewrite map_app in Hn. by apply NoDup_app in Hn as (_ & _ & ?).
  - intros p item Hin. destruct (oi_offers _ Hi n p item) as (l' & Hl' & <-); [set_solver|]. congruence.
Qed.

(** *** A listener lives with its guard *)

Record guard_inv (w : TableWorld) : Prop := {
  gi_live n : n ∈ tw_guards w -> exists l, tb_heap (tw_table w) !! n = Some l /\ ln_is_stop l = false /\ ln_rx_closed l = false
    /\ tb_registry (tw_table w) !! ln_purpose l = Some n;
  gi_registered p n : tb_registry (tw_table w) !! p = Some n ->
    n ∈ tw_guards w /\ exists l, tb_heap (tw_table w) !! n = Some l /\ ln_purpose l = p;
  gi_once : NoDup (tw_guards w);
}.

(** Steps that leave the registry and the state of the listeners alone. *)
Lemma guard_frame w w' :
  tw_guards w' = tw_guards w -> tb_registry (tw_table w') = tb_registry (tw_table w) ->
  (forall n l, tb_heap (tw_table w) !! n = Some l -> exists l', tb_heap (tw_table w') !! n = Some l' /\ ln_purpose l' = ln_purpose l
     /\ ln_is_stop l' = ln_is_stop l /\ ln_rx_closed l' = ln_rx_closed l) ->
  guard_inv w -> guard_inv w'.
Proof.
  intros Eg Er Hh [G1 G2 G3]. split; rewrite ?Eg, ?Er; [| |done].
  1: intros n (l & Hl & Hs & Hc & Hp)%G1; destruct (Hh _ _ Hl) as (l' & Hl' & Ep & Es & Ec); exists l'.
  { split_and!; [done|congruence|congruence|]. by rewrite Ep. }
  intros p n (Hn & l & Hl & <-)%G2. split; [done|]. destruct (Hh _ _ Hl) as (l' & Hl' & Ep & _). by exists l'.
Qed.

Lemma one_listener_frame n l l' (t : Table Item) :
  tb_heap t !! n = Some l -> ln_purpose l' = ln_purpose l -> ln_is_stop l' = ln_is_stop l -> ln_rx_closed l' = ln_rx_closed l ->
  forall m x, tb_heap t !! m = Some x -> exists x', tb_heap (set_listener n l' t) !! m = Some x' /\ ln_purpose x' = ln_purpose x
     /\ ln_is_stop x' = ln_is_stop x /\ ln_rx_closed x' = ln_rx_closed x.
Proof.
  intros Hl Hp Hs Hc m x Hx. simpl. destruct (decide (n = m)) as [<-|].
  - exists l'. rewrite lookup_insert_eq. split_and!; [done|congruence..].
  - exists x. by rewrite lookup_insert_ne.
Qed.

Lemma guard_insert p n w pre post :
  tb_heap (tw_table w) !! n = None -> tb_registry (tw_table w) !! p = None -> guard_inv w ->
  guard_inv (mkWorld (listen_insert p n (tw_table w)) (n :: tw_guards w) (pre ++ post) (tw_pushing w) (tw_seen w)
               (tw_pushed w) (tw_accepted w)).
Proof.
  intros Hn Hp [G1 G2 G3].
  assert (Hne : n ∉ tw_guards w) by (intros (l & Hl & _)%G1; congruence). split; simpl.
  - intros m [->|Hm]%elem_of_cons.
    + exists (listener_channel p). rewrite !lookup_insert_eq. done.
    + destruct (G1 _ Hm) as (l & Hl & Hs & Hc & Hr). exists l. rewrite lookup_insert_ne by congruence.
      split_and!; [done|done|done|]. rewrite lookup_insert_ne; [done|]. intros ->. congruence.
  - intros q m [[<- <-]|[_ Hq]]%lookup_insert_Some.
    + split; [left|]. exists (listener_channel p). by rewrite lookup_insert_eq.
    + destruct (G2 _ _ Hq) as (Hm & l & Hl & El). split; [by right|]. exists l. rewrite lookup_insert_ne by congruence. done.
  - by constructor.
Qed.

Lemma guard_drop_own n w pre post :
  tw_guards w = pre ++ n :: post -> guard_inv w ->
  guard_inv (mkWorld (guard_dropped n (tw_table w)) (pre ++ post) (tw_testing w) (tw_pushing w) (tw_seen w)
               (tw_pushed w) (tw_accepted w)).
Proof.
  intros Hg [G1 G2 G3]. rewrite Hg in *. destruct (G1 n) as (l & Hl & Hs & Hc & Hr); [set_solver|].
  rewrite <- Permutation_middle in G3. apply NoDup_cons in G3 as [Hne G3].
  unfold guard_dropped. rewrite Hl. unfold remove_listener. simpl. rewrite Hr. split; simpl; [| |done].
  - intros m Hm. assert (m <> n) by (intros ->; done). destruct (G1 m) as (x & Hx & Hs' & Hc' & Hr'); [set_solver|].
    exists x. rewrite lookup_alter_ne, lookup_insert_ne by done. split_and!; [done|done|done|].
    rewrite lookup_delete_ne; [done|]. intros E. rewrite <- E in Hr'. congruence.
  - intros q m [Hq Hm]%lookup_delete_Some. destruct (G2 _ _ Hm) as (Hin & x & Hx & Ex).
    assert (m <> n) by (intros ->; congruence). rewrite <- Permutation_middle in Hin.
    apply elem_of_cons in Hin as [->|Hin]; [done|]. split; [done|]. exists x. by rewrite lookup_alter_ne, lookup_insert_ne.
Qed.

Lemma table_step_guard w w' : table_step true w w' -> guard_inv w -> guard_inv w'.
Proof.
  intros H Hi. destruct H as [already p w Ht|p n w pre post Ht Hn Hs|n w pre post Hg|p item n w Hseen Hf|n p item w pre post r t Hp Ht|
    n entry notified prefer_stop senders_left w l r l' Hin Hl Ha].
  - destruct Hi. by split.
  - apply guard_insert; [done|by apply Hs|done].
  - by apply guard_drop_own.
  - destruct Hi. by split.
  - unfold push_to in Ht. destruct (tb_heap (tw_table w) !! n) as [l|] eqn:Hl; [|injection Ht as <- <-; destruct Hi; by split].
    destruct (push_accepted item l) as [r' l'] eqn:Hpa. injection Ht as <- <-.
    eapply (guard_frame w); [done|done| |done]. eapply one_listener_frame; [exact Hl|..];
      unfold push_accepted in Hpa; repeat case_match; simplify_eq; done.
  - eapply (guard_frame w); [done|done| |done]. eapply one_listener_frame; [exact Hl|..];
      unfold accept_poll in Ha; repeat case_match; simplify_eq; done.
Qed.

(** A listener lives with its guard: when test and insertion of [listen] are
    not interleaved with another [listen] for the purpose, exactly the listeners
    whose guard is held are registered, each under its own purpose, and none of
    them is stopped, so every stream of the purpose is offered to it, and a
    dropped guard takes only its own listener away. *)
Theorem listener_lives_with_guard w :
  rtc (table_step true) world_new w ->
  NoDup (tw_guards w)
  /\ (forall n, n ∈ tw_guards w -> exists l, tb_heap (tw_table w) !! n = Some l /\ ln_is_stop l = false
        /\ sender_for (ln_purpose l) (tw_table w) = Some n
        /\ forall item, (length (ln_queue l) < LISTENER_CHANNEL_CAPACITY)%nat -> fst (push_to n item (tw_table w)) = Ok tt)
  /\ forall p n, sender_for p (tw_table w) = Some n -> n ∈ tw_guards w.
Proof.
  intros Hr. assert (Hi : guard_inv w).
  { eapply (rtc_preserves (table_step true) guard_inv); [intros ??; apply table_step_guard|exact Hr|].
    split; simpl; [intros ? H; inversion H|done|constructor]. }
  destruct Hi as [G1 G2 G3]. split_and!; [done| |intros p n Hp; by apply G2 in Hp as [? _]].
  intros n (l & Hl & Hs & Hc & Hp)%G1. exists l. split_and!; [done|done|done|]. intros item Hq. unfold push_to, push_accepted.
  rewrite Hl, Hs, Hc. destruct (Nat.leb_spec LISTENER_CHANNEL_CAPACITY (length (ln_queue l))); [lia|done].
Qed.
End world.

(** ** The properties at work *)

Module ListenDemo.
Notation step strict := (table_step (Item:=Z) strict).
Definition at_purpose (queue : list Z) (stop closed : bool) : Listener Z := mkListener [7] queue stop closed.

Definition listening : TableWorld (Item:=Z) :=
  mkWorld (mkTable {[ [7] := 0%nat ]} {[ 0%nat := at_purpose [] false false ]}) [0%nat] [] [] [] [] [].
Lemma listening_reachable strict : rtc (step strict) world_new listening.
Proof.
  eapply rtc_l; [apply (TW_test _ P2pErrorCode.StreamPortAlreadyListen [7] world_new); reflexivity|].
  eapply rtc_l; [|apply rtc_refl].
  apply (TW_insert strict [7] 0 (mkWorld table_new [] [[7]] [] [] [] []) [] []); [reflexivity|reflexivity|intros; reflexivity].
Qed.

Definition queued : TableWorld (Item:=Z) :=
  mkWorld (mkTable {[ [7] := 0%nat ]} {[ 0%nat := at_purpose [42] false false ]}) [0%nat] [] [] [42] [(0%nat, [7], 42)] [].
Lemma queued_reachable strict : rtc (step strict) world_new queued.
Proof.
  eapply rtc_r; [eapply rtc_r; [apply (listening_reachable strict)|]|].
  - apply (TW_find strict [7] 42 0 listening); [by intros H; inversion H|reflexivity].
  - apply (TW_push strict 0 [7] 42 (mkWorld (tw_table listening) [0%nat] [] [(0%nat, [7], 42)] [42] [] []) [] [] (Ok tt) (tw_table queued));
      reflexivity.
Qed.

Lemma streams_accepted_in_order_witness :
  rtc (step false) world_new queued /\ pushed_to 0 (tw_pushed queued) = accepted_by 0 (tw_accepted queued) ++ [42].
Proof.
  split; [apply queued_reachable|].
  apply (streams_accepted_in_order false queued 0 (at_purpose [42] false false) (queued_reachable false)); reflexivity.
Defined.

Lemma listener_lives_with_guard_witness :
  rtc (step true) world_new listening /\ 0%nat ∈ tw_guards listening.
Proof.
  split; [apply listening_reachable|].
  apply (proj2 (proj2 (listener_lives_with_guard listening (listening_reachable true))) [7]). reflexivity.
Defined.

(** Two calls of [listen] for one purpose pass the test together: the second
    replaces the first, and when the guard of the first is dropped it stops the
    listener of the second. *)
Definition replaced : TableWorld (Item:=Z) :=
  mkWorld (mkTable {[ [7] := 1%nat ]} (<[1%nat := at_purpose [] false false]> {[ 0%nat := at_purpose [] false false ]}))
    [1%nat; 0%nat] [] [] [] [] [].
Lemma listen_race_stops_successor :
  exists w l, rtc (step false) world_new w /\ tw_guards w = [1%nat] /\ tb_heap (tw_table w) !! 1%nat = Some l
  /\ ln_is_stop l = true /\ sender_for [7] (tw_table w) = None.
Proof.
  exists (mkWorld (guard_dropped 0 (tw_table replaced)) [1%nat] [] [] [] [] []), (at_purpose [] true false). split_and!; [|done..].
  eapply rtc_l; [apply (TW_test _ P2pErrorCode.StreamPortAlreadyListen [7] world_new); reflexivity|].
  eapply rtc_l; [apply (TW_test _ P2pErrorCode.StreamPortAlreadyListen [7] (mkWorld table_new [] [[7]] [] [] [] [])); reflexivity|].
  eapply rtc_l; [apply (TW_insert false [7] 0 (mkWorld table_new [] [[7]; [7]] [] [] [] []) [] [[7]]); done|].
  eapply (rtc_l _ _ replaced).
  { apply (TW_insert false [7] 1 (mkWorld (tw_table listening) [0%nat] [[7]] [] [] [] []) [] []); done. }
  eapply rtc_l; [|apply rtc_refl]. by apply (TW_drop false 0 replaced [1%nat] []).
Qed.
End ListenDemo.
