(* ===== verification/QuicTunnel.v ===== *)
(** * The QUIC tunnel (src/p2p-frame/src/networks/quic/tunnel.rs)

    A tunnel over one QUIC connection: a command stream with heartbeats and the
    frames of control streams, a bidirectional stream per stream channel, a
    unidirectional one per datagram channel.

    The connection is what the tunnel asks of it: whether it has a close reason
    ([qt_socket_closed]) and the results of opening, accepting, reading and
    writing, which are inputs.  A procedure is split where it awaits.  A oneshot
    channel, a registry of purposes and a callback are numbers; what a registry
    says is looked up when the code asks it. *)

From S2P Require Import Prelude.
From S2P Require Import Errors.
From S2P Require Import Ids.
From S2P Require Import Endpoint.
From S2P Require Import Codec.
From S2P Require Import Mpsc.
From S2P Require Import TunnelCommand.
From S2P Require Import ControlStream.
From S2P Require Import TunnelActivity.
From S2P Require Import TunnelManager.

Definition COMMAND_REQUEST_TIMEOUT : Duration := from_secs 10.
Definition COMMAND_HEARTBEAT_INTERVAL : Duration := from_secs 5.
Definition COMMAND_HEARTBEAT_TIMEOUT : Duration := from_secs 30.

(** ** Messages *)

Inductive TunnelChannelKind := ChanStream | ChanDatagram.
#[global] Instance TunnelChannelKind_eq_dec : EqDecision TunnelChannelKind.
Proof. solve_decision. Defined.

Inductive QuicTunnelCommandId :=
| QidHello | QidHelloResp | QidPing | QidPong | QidOpenChannelReq | QidOpenChannelResp | QidData.
#[global] Instance QuicTunnelCommandId_eq_dec : EqDecision QuicTunnelCommandId.
Proof. solve_decision. Defined.

Definition quic_id_u8 (c : QuicTunnelCommandId) : Z :=
  match c with
  | QidHello => 1 | QidHelloResp => 2 | QidPing => 3 | QidPong => 4
  | QidOpenChannelReq => 5 | QidOpenChannelResp => 6 | QidData => 7
  end.
Definition quic_id_from_u8 (v : Z) : option QuicTunnelCommandId :=
  if v =? quic_id_u8 QidHello then Some QidHello
  else if v =? quic_id_u8 QidHelloResp then Some QidHelloResp
  else if v =? quic_id_u8 QidPing then Some QidPing
  else if v =? quic_id_u8 QidPong then Some QidPong
  else if v =? quic_id_u8 QidOpenChannelReq then Some QidOpenChannelReq
  else if v =? quic_id_u8 QidOpenChannelResp then Some QidOpenChannelResp
  else if v =? quic_id_u8 QidData then Some QidData
  else None.

Record TunnelHello := mkTunnelHello { th_tunnel_id : TunnelId; th_candidate_id : TunnelCandidateId; th_is_reverse : bool }.
Record TunnelHelloResp := mkTunnelHelloResp { hr_tunnel_id : TunnelId; hr_candidate_id : TunnelCandidateId }.
Record TunnelPing := mkTunnelPing { tp_seq : Z; tp_send_time : Timestamp }.
Record TunnelPong := mkTunnelPong { tpo_seq : Z; tpo_send_time : Timestamp }.
Record TunnelOpenChannelReq := mkChannelReq { rq_request_id : Z; rq_kind : TunnelChannelKind; rq_purpose : list Z }.
Record TunnelOpenChannelResp := mkChannelResp { rs_request_id : Z; rs_result : TunnelCommandResult }.
Record TunnelControlData := mkTunnelControlData { tcd_payload : list Z }.

#[global] Instance TunnelHello_id : CommandId TunnelHello := {| COMMAND_ID := quic_id_u8 QidHello |}.
#[global] Instance TunnelHelloResp_id : CommandId TunnelHelloResp := {| COMMAND_ID := quic_id_u8 QidHelloResp |}.
#[global] Instance TunnelPing_id : CommandId TunnelPing := {| COMMAND_ID := quic_id_u8 QidPing |}.
#[global] Instance TunnelPong_id : CommandId TunnelPong := {| COMMAND_ID := quic_id_u8 QidPong |}.
#[global] Instance ChannelReq_id : CommandId TunnelOpenChannelReq := {| COMMAND_ID := quic_id_u8 QidOpenChannelReq |}.
#[global] Instance ChannelResp_id : CommandId TunnelOpenChannelResp := {| COMMAND_ID := quic_id_u8 QidOpenChannelResp |}.
#[global] Instance TunnelControlData_id : CommandId TunnelControlData := {| COMMAND_ID := quic_id_u8 QidData |}.

Section wire.
Context `{header_codec : !RawCodec TunnelCommandHeader}.

Definition write_command {T} `{!RawCodec T, !CommandId T} (b : T) : P2pResult (list Z) :=
  c <-? command_new b ;; write_tunnel_command c.

(** [read_command], of the handshake: any failure to read the header is invalid
    data. *)
Definition read_command {T} `{!RawCodec T, !CommandId T} (expected : QuicTunnelCommandId) (s : list Z) : P2pResult (T * list Z) :=
  match read_tunnel_command_header s with
  | Err _ => Err P2pErrorCode.InvalidData
  | Ok (h, s) =>
      if negb (hd_command_id h =? quic_id_u8 expected) then Err P2pErrorCode.InvalidData
      else x <-? read_tunnel_command_body (T:=T) h s ;; Ok (body (fst x), snd x)
  end.

Definition read_channel_command {T} `{!RawCodec T, !CommandId T} (expected : QuicTunnelCommandId) (s : list Z)
    : P2pResult (T * list Z) :=
  x <-? read_tunnel_command_header s ;;
  let '(h, s) := x in
  match quic_id_from_u8 (hd_command_id h) with
  | None => Err P2pErrorCode.InvalidData
  | Some id =>
      if negb (bool_decide (id = expected)) then Err P2pErrorCode.InvalidData
      else x <-? read_tunnel_command_body (T:=T) h s ;; Ok (body (fst x), snd x)
  end.
End wire.

(** The commands of the command stream, and how reading one can fail. *)
Inductive QuicMessage :=
| MsgPing (p : TunnelPing) | MsgPong (p : TunnelPong) | MsgOpenResp (r : TunnelOpenChannelResp) | MsgData (d : TunnelControlData).
Inductive RecvError := RecvUnknownId | RecvForbidden | RecvDecode (code : P2pErrorCode.t).

Section messages.
Context `{header_codec : !RawCodec TunnelCommandHeader, !RawCodec TunnelPing, !RawCodec TunnelPong,
          !RawCodec TunnelOpenChannelResp, !RawCodec TunnelControlData}.

Definition message_as {T} `{!RawCodec T, !CommandId T} (ctor : T -> QuicMessage) (h : TunnelCommandHeader) (s : list Z)
    : Result RecvError (QuicMessage * list Z) :=
  match read_tunnel_command_body (T:=T) h s with
  | Ok (c, s) => Ok (ctor (body c), s)
  | Err e => Err (RecvDecode e)
  end.

(** [command_recv_loop] after the header: what the command is. *)
Definition recv_message (h : TunnelCommandHeader) (s : list Z) : Result RecvError (QuicMessage * list Z) :=
  match quic_id_from_u8 (hd_command_id h) with
  | None => Err RecvUnknownId
  | Some QidHello | Some QidHelloResp | Some QidOpenChannelReq => Err RecvForbidden
  | Some QidPing => message_as MsgPing h s
  | Some QidPong => message_as MsgPong h s
  | Some QidOpenChannelResp => message_as MsgOpenResp h s
  | Some QidData => message_as MsgData h s
  end.

Definition write_message (m : QuicMessage) : P2pResult (list Z) :=
  match m with
  | MsgPing b => write_command b
  | MsgPong b => write_command b
  | MsgOpenResp b => write_command b
  | MsgData b => write_command b
  end.
End messages.

(** ** The tunnel *)

Inductive QuicEvent :=
| QAnswer (tx : nat) (r : P2pResult unit)        (* [tx.send(r)] *)
| QControl (e : ControlStream.Event)                           (* of the control streams *)
| QSocketClose (code : P2pErrorCode.t)
| QNotifyClosed
| QSpawnBi | QSpawnUni                           (* the accept loops *)
| QCommand (m : QuicMessage).                    (* handed to the command stream *)

(** Whether a loop goes on. *)
Inductive Turn := Continue | Break.

Section tunnel.
Context `{mp : !Mpsc InboundItem} `{fc : !RawCodec ControlStreamFrame}.

Record QuicTunnel := mkQuicTunnel {
  qt_tunnel_id : TunnelId;
  qt_candidate_id : TunnelCandidateId;
  qt_form : TunnelForm;
  qt_is_reverse : bool;
  qt_local_id : P2pId;
  qt_remote_id : P2pId;
  qt_local_ep : Endpoint;
  qt_remote_ep : Endpoint;
  qt_socket_closed : bool;
  qt_last_cmd_recv_at : Z;
  qt_last_pong_at : Z;
  qt_pending_open_requests : gmap Z nat;
  qt_activity : TunnelActivityState;
  qt_closed : bool;
  qt_next_request_id : Z;
  qt_next_ping_seq : Z;
  qt_bi_accept_started : bool;
  qt_uni_accept_started : bool;
  qt_stream_vports : option nat;
  qt_datagram_vports : option nat;
  qt_stream_callback : option nat;
  qt_datagram_callback : option nat;
  qt_control_streams : Runtime;
}.

Definition new_inner (now : Z) (tunnel_id : TunnelId) (candidate_id : TunnelCandidateId) (form : TunnelForm) (is_reverse : bool)
    (local_id remote_id : P2pId) (local_ep remote_ep : Endpoint) : QuicTunnel :=
  mkQuicTunnel tunnel_id candidate_id form is_reverse local_id remote_id local_ep remote_ep false now now ∅ (activity_new now)
    false 1 1 false false None None None None
    (runtime_new (match form with FormActive | FormProxy => true | FormPassive => false end)).

Definition set_socket_closed (t : QuicTunnel) : QuicTunnel :=
  mkQuicTunnel (qt_tunnel_id t) (qt_candidate_id t) (qt_form t) (qt_is_reverse t) (qt_local_id t) (qt_remote_id t)
    (qt_local_ep t) (qt_remote_ep t) true (qt_last_cmd_recv_at t) (qt_last_pong_at t) (qt_pending_open_requests t)
    (qt_activity t) (qt_closed t) (qt_next_request_id t) (qt_next_ping_seq t) (qt_bi_accept_started t) (qt_uni_accept_started t)
    (qt_stream_vports t) (qt_datagram_vports t) (qt_stream_callback t) (qt_datagram_callback t) (qt_control_streams t).
Definition set_times (cmd pong : Z) (t : QuicTunnel) : QuicTunnel :=
  mkQuicTunnel (qt_tunnel_id t) (qt_candidate_id t) (qt_form t) (qt_is_reverse t) (qt_local_id t) (qt_remote_id t)
    (qt_local_ep t) (qt_remote_ep t) (qt_socket_closed t) cmd pong (qt_pending_open_requests t)
    (qt_activity t) (qt_closed t) (qt_next_request_id t) (qt_next_ping_seq t) (qt_bi_accept_started t) (qt_uni_accept_started t)
    (qt_stream_vports t) (qt_datagram_vports t) (qt_stream_callback t) (qt_datagram_callback t) (qt_control_streams t).
Definition set_requests (f : gmap Z nat -> gmap Z nat) (t : QuicTunnel) : QuicTunnel :=
  mkQuicTunnel (qt_tunnel_id t) (qt_candidate_id t) (qt_form t) (qt_is_reverse t) (qt_local_id t) (qt_remote_id t)
    (qt_local_ep t) (qt_remote_ep t) (qt_socket_closed t) (qt_last_cmd_recv_at t) (qt_last_pong_at t)
    (f (qt_pending_open_requests t))
    (qt_activity t) (qt_closed t) (qt_next_request_id t) (qt_next_ping_seq t) (qt_bi_accept_started t) (qt_uni_accept_started t)
    (qt_stream_vports t) (qt_datagram_vports t) (qt_stream_callback t) (qt_datagram_callback t) (qt_control_streams t).
Definition set_qactivity (a : TunnelActivityState) (t : QuicTunnel) : QuicTunnel :=
  mkQuicTunnel (qt_tunnel_id t) (qt_candidate_id t) (qt_form t) (qt_is_reverse t) (qt_local_id t) (qt_remote_id t)
    (qt_local_ep t) (qt_remote_ep t) (qt_socket_closed t) (qt_last_cmd_recv_at t) (qt_last_pong_at t) (qt_pending_open_requests t)
    a (qt_closed t) (qt_next_request_id t) (qt_next_ping_seq t) (qt_bi_accept_started t) (qt_uni_accept_started t)
    (qt_stream_vports t) (qt_datagram_vports t) (qt_stream_callback t) (qt_datagram_callback t) (qt_control_streams t).
(** [closed] set, the callbacks taken. *)
Definition set_qclosed (t : QuicTunnel) : QuicTunnel :=
  mkQuicTunnel (qt_tunnel_id t) (qt_candidate_id t) (qt_form t) (qt_is_reverse t) (qt_local_id t) (qt_remote_id t)
    (qt_local_ep t) (qt_remote_ep t) (qt_socket_closed t) (qt_last_cmd_recv_at t) (qt_last_pong_at t) (qt_pending_open_requests t)
    (qt_activity t) true (qt_next_request_id t) (qt_next_ping_seq t) (qt_bi_accept_started t) (qt_uni_accept_started t)
    (qt_stream_vports t) (qt_datagram_vports t) None None (qt_control_streams t).
Definition set_counters (request ping : Z) (t : QuicTunnel) : QuicTunnel :=
  mkQuicTunnel (qt_tunnel_id t) (qt_candidate_id t) (qt_form t) (qt_is_reverse t) (qt_local_id t) (qt_remote_id t)
    (qt_local_ep t) (qt_remote_ep t) (qt_socket_closed t) (qt_last_cmd_recv_at t) (qt_last_pong_at t) (qt_pending_open_requests t)
    (qt_activity t) (qt_closed t) request ping (qt_bi_accept_started t) (qt_uni_accept_started t)
    (qt_stream_vports t) (qt_datagram_vports t) (qt_stream_callback t) (qt_datagram_callback t) (qt_control_streams t).
Definition set_stream_listener (vports callback : nat) (t : QuicTunnel) : QuicTunnel :=
  mkQuicTunnel (qt_tunnel_id t) (qt_candidate_id t) (qt_form t) (qt_is_reverse t) (qt_local_id t) (qt_remote_id t)
    (qt_local_ep t) (qt_remote_ep t) (qt_socket_closed t) (qt_last_cmd_recv_at t) (qt_last_pong_at t) (qt_pending_open_requests t)
    (qt_activity t) (qt_closed t) (qt_next_request_id t) (qt_next_ping_seq t) true (qt_uni_accept_started t)
    (Some vports) (qt_datagram_vports t) (Some callback) (qt_datagram_callback t) (qt_control_streams t).
Definition set_datagram_listener (vports callback : nat) (t : QuicTunnel) : QuicTunnel :=
  mkQuicTunnel (qt_tunnel_id t) (qt_candidate_id t) (qt_form t) (qt_is_reverse t) (qt_local_id t) (qt_remote_id t)
    (qt_local_ep t) (qt_remote_ep t) (qt_socket_closed t) (qt_last_cmd_recv_at t) (qt_last_pong_at t) (qt_pending_open_requests t)
    (qt_activity t) (qt_closed t) (qt_next_request_id t) (qt_next_ping_seq t) (qt_bi_accept_started t) true
    (qt_stream_vports t) (Some vports) (qt_stream_callback t) (Some callback) (qt_control_streams t).
Definition set_control (rt : Runtime) (t : QuicTunnel) : QuicTunnel :=
  mkQuicTunnel (qt_tunnel_id t) (qt_candidate_id t) (qt_form t) (qt_is_reverse t) (qt_local_id t) (qt_remote_id t)
    (qt_local_ep t) (qt_remote_ep t) (qt_socket_closed t) (qt_last_cmd_recv_at t) (qt_last_pong_at t) (qt_pending_open_requests t)
    (qt_activity t) (qt_closed t) (qt_next_request_id t) (qt_next_ping_seq t) (qt_bi_accept_started t) (qt_uni_accept_started t)
    (qt_stream_vports t) (qt_datagram_vports t) (qt_stream_callback t) (qt_datagram_callback t) rt.

(** *** Life cycle *)

Definition quic_is_closed (t : QuicTunnel) : bool := qt_closed t || qt_socket_closed t.
Definition quic_state (t : QuicTunnel) : TunnelState := if quic_is_closed t then StClosed else StConnected.

Definition close_with_error (code : P2pErrorCode.t) (t : QuicTunnel) : list QuicEvent * QuicTunnel :=
  let t := set_qactivity (retire (qt_activity t)) t in
  if qt_closed t then ([], t)
  else
    let t := set_qclosed t in
    let '(ev, rt) := close_all code (qt_control_streams t) in
    let t := set_socket_closed (set_control rt t) in
    let pending := map_to_list (qt_pending_open_requests t) in
    (map QControl ev ++ QSocketClose code :: map (fun x => QAnswer (snd x) (Err code)) pending ++ [QNotifyClosed],
     set_requests (fun _ => ∅) t).

(** [written]: what writing to the command stream gives. *)
Definition send_command (written : P2pResult unit) (m : QuicMessage) (t : QuicTunnel) : P2pResult unit * list QuicEvent :=
  if quic_is_closed t then (Err P2pErrorCode.Interrupted, [])
  else (written, match written with Ok _ => [QCommand m] | Err _ => [] end).

(** *** The command stream *)

Definition recv_head (t : QuicTunnel) : Turn := if quic_is_closed t then Break else Continue.

Definition record_command_recv (now : Z) (t : QuicTunnel) : QuicTunnel := set_times now (qt_last_pong_at t) t.
Definition record_pong (now : Z) (t : QuicTunnel) : QuicTunnel := set_times (qt_last_cmd_recv_at t) now t.

(** The header was read, or not. *)
Definition recv_header (now : Z) (header : P2pResult unit) (t : QuicTunnel) : Turn * list QuicEvent * QuicTunnel :=
  match header with
  | Err _ => let '(ev, t) := close_with_error P2pErrorCode.Interrupted t in (Break, ev, t)
  | Ok _ => (Continue, [], record_command_recv now t)
  end.

Definition open_resp_result (r : TunnelCommandResult) : P2pResult unit :=
  if bool_decide (r = ResSuccess) then Ok tt else Err (into_p2p_error r).

(** The [prepare] hook of the listener is [track_stream_result]: it succeeds as
    long as the ledger is live, and counts both halves of the stream. *)
Definition with_prepare (live : P2pResult unit) (rt : Runtime) : Runtime :=
  match listener rt with
  | Some l => set_listener (Some (mkListener (is_listen l) (Some (fun _ => live)))) rt
  | None => rt
  end.
Definition handed_over (ev : list ControlStream.Event) : nat :=
  length (List.filter (fun e => match e with EvCallback (Ok _) => true | _ => false end) ev).
Definition control_data (now : Z) (control_send : list Z -> P2pResult unit) (payload : list Z) (t : QuicTunnel)
    : P2pResult unit * list QuicEvent * QuicTunnel :=
  let '(r, ev, rt) := on_data control_send payload (with_prepare (ensure_live (qt_activity t)) (qt_control_streams t)) in
  let a := if (handed_over ev =? 0)%nat then qt_activity t else snd (track_stream_result now (Ok tt) (qt_activity t)) in
  (r, map QControl ev, set_qactivity a (set_control rt t)).

(** A turn of [command_recv_loop] after the header. *)
Definition recv_body (now : Z) (control_send : list Z -> P2pResult unit) (written : P2pResult unit)
    (m : Result RecvError QuicMessage) (t : QuicTunnel) : Turn * list QuicEvent * QuicTunnel :=
  match m with
  | Err _ => let '(ev, t) := close_with_error P2pErrorCode.InvalidData t in (Break, ev, t)
  | Ok (MsgPing p) =>
      let '(_, ev) := send_command written (MsgPong (mkTunnelPong (tp_seq p) (tp_send_time p))) t in (Continue, ev, t)
  | Ok (MsgPong _) => (Continue, [], record_pong now t)
  | Ok (MsgOpenResp resp) =>
      match qt_pending_open_requests t !! rs_request_id resp with
      | Some tx => (Continue, [QAnswer tx (open_resp_result (rs_result resp))], set_requests (delete (rs_request_id resp)) t)
      | None => (Continue, [], t)
      end
  | Ok (MsgData d) =>
      let '(r, ev, t) := control_data now control_send (tcd_payload d) t in
      match r with
      | Ok _ => (Continue, ev, t)
      | Err _ => let '(ev', t) := close_with_error P2pErrorCode.InvalidData t in (Break, ev ++ ev', t)
      end
  end.

(** *** Heartbeats *)

(** [Instant::duration_since] is zero for an instant in the future. *)
Definition since (now at_ : Z) : Duration := Z.max 0 (now - at_).

(** A turn of [heartbeat_loop] after its sleep.  [fetch_add] wraps. *)
Definition quic_heartbeat_turn (now : Z) (written : P2pResult unit) (t : QuicTunnel) : Turn * list QuicEvent * QuicTunnel :=
  if quic_is_closed t then (Break, [], t)
  else if (COMMAND_HEARTBEAT_TIMEOUT <? since now (qt_last_cmd_recv_at t))
       && (COMMAND_HEARTBEAT_TIMEOUT <? since now (qt_last_pong_at t))
  then let '(ev, t) := close_with_error P2pErrorCode.Interrupted t in (Break, ev, t)
  else if COMMAND_HEARTBEAT_INTERVAL <=? since now (qt_last_cmd_recv_at t)
  then
    let seq := qt_next_ping_seq t in
    let t := set_counters (qt_next_request_id t) (wrapping_add_u64 seq 1) t in
    let '(r, ev) := send_command written (MsgPing (mkTunnelPing seq 0)) t in
    match r with
    | Ok _ => (Continue, ev, t)
    | Err _ => (Break, ev, t)
    end
  else (Continue, [], t).

(** *** Incoming channels *)

(** A turn of [bi_accept_loop] and [uni_accept_loop]. *)
Definition accept_turn (accepted : P2pResult unit) (t : QuicTunnel) : Turn * list QuicEvent * QuicTunnel :=
  if quic_is_closed t then (Break, [], t)
  else match accepted with
       | Ok _ => (Continue, [], t)
       | Err _ => let '(ev, t) := close_with_error P2pErrorCode.Interrupted t in (Break, ev, t)
       end.

Definition listen_vports (k : TunnelChannelKind) (t : QuicTunnel) : option nat :=
  match k with ChanStream => qt_stream_vports t | ChanDatagram => qt_datagram_vports t end.
Definition current_callback (k : TunnelChannelKind) (t : QuicTunnel) : option nat :=
  match k with ChanStream => qt_stream_callback t | ChanDatagram => qt_datagram_callback t end.

Definition incoming_open_result (listening : nat -> list Z -> bool) (k : TunnelChannelKind) (purpose : list Z) (t : QuicTunnel)
    : TunnelCommandResult :=
  match listen_vports k t with
  | None => ResListenerClosed
  | Some vports => if negb (listening vports purpose) then ResPortNotListen else ResSuccess
  end.

(** The handler of an incoming channel up to its answer: the request could not be
    read and the tunnel is closed, or a refusal with the handler's own error, or
    the acceptance with the callback and a pending open taken. *)
Inductive IncomingDecision :=
| IncomingUnread (code : P2pErrorCode.t)
| IncomingRefused (request_id : Z) (result : TunnelCommandResult) (code : P2pErrorCode.t)
| IncomingAccepted (request_id : Z) (purpose : list Z) (callback : nat).

Definition incoming_decide (now : Z) (listening : nat -> list Z -> bool) (k : TunnelChannelKind)
    (req : P2pResult TunnelOpenChannelReq) (t : QuicTunnel) : IncomingDecision * list QuicEvent * QuicTunnel :=
  match req with
  | Err e => let '(ev, t) := close_with_error P2pErrorCode.InvalidData t in (IncomingUnread e, ev, t)
  | Ok req =>
      let id := rq_request_id req in
      let result := if negb (bool_decide (rq_kind req = k)) then ResInvalidParam
                    else incoming_open_result listening (rq_kind req) (rq_purpose req) t in
      if negb (bool_decide (result = ResSuccess)) then (IncomingRefused id result P2pErrorCode.InvalidParam, [], t)
      else if quic_is_closed t then (IncomingRefused id ResListenerClosed P2pErrorCode.Interrupted, [], t)
      else match current_callback k t with
           | None => (IncomingRefused id ResListenerClosed P2pErrorCode.Interrupted, [], t)
           | Some callback =>
               match begin_pending now (qt_activity t) with
               | (Err e, a) => (IncomingRefused id ResRetired e, [], set_qactivity a t)
               | (Ok _, a) => (IncomingAccepted id (rq_purpose req) callback, [], set_qactivity a t)
               end
           end
  end.

Definition answer_of (d : IncomingDecision) : option TunnelOpenChannelResp :=
  match d with
  | IncomingUnread _ => None
  | IncomingRefused id result _ => Some (mkChannelResp id result)
  | IncomingAccepted id _ _ => Some (mkChannelResp id ResSuccess)
  end.

(** The rest of an accepted stream, once its answer was written or not: the
    result, and what the callback is called with. *)
Definition incoming_stream_finish (now : Z) (written : P2pResult unit) (purpose : list Z) (callback : nat) (t : QuicTunnel)
    : P2pResult (nat * list Z) * QuicTunnel :=
  match written with
  | Err _ => (Err P2pErrorCode.Interrupted, set_qactivity (drop_pending now (qt_activity t)) t)
  | Ok _ => let '(r, a) := promote_stream now (qt_activity t) in
            (match r with Ok _ => Ok (callback, purpose) | Err e => Err e end, set_qactivity a t)
  end.
(** The same of a datagram channel, whose answer goes over the command stream. *)
Definition incoming_datagram_finish (now : Z) (sent : P2pResult unit) (purpose : list Z) (callback : nat) (t : QuicTunnel)
    : P2pResult (nat * list Z) * QuicTunnel :=
  match sent with
  | Err e => (Err e, set_qactivity (drop_pending now (qt_activity t)) t)
  | Ok _ => let '(r, a) := promote_datagram now (qt_activity t) in
            (match r with Ok _ => Ok (callback, purpose) | Err e => Err e end, set_qactivity a t)
  end.

(** *** Opening channels *)

(** [begin_pending()?], the first thing an open does. *)
Definition open_channel_start (now : Z) (t : QuicTunnel) : P2pResult unit * QuicTunnel :=
  let '(r, a) := begin_pending now (qt_activity t) in (r, set_qactivity a t).
Definition abandon_open (now : Z) (t : QuicTunnel) : QuicTunnel := set_qactivity (drop_pending now (qt_activity t)) t.

Definition take_request_id (t : QuicTunnel) : Z * QuicTunnel :=
  let id := qt_next_request_id t in (id, set_counters (wrapping_add_u64 id 1) (qt_next_ping_seq t) t).

(** [open_stream] after [open_bi]: the request to write. *)
Definition open_stream_request (now : Z) (opened : P2pResult unit) (purpose : list Z) (t : QuicTunnel)
    : P2pResult TunnelOpenChannelReq * QuicTunnel :=
  match opened with
  | Err _ => (Err P2pErrorCode.ConnectFailed, abandon_open now t)
  | Ok _ => let '(id, t) := take_request_id t in (Ok (mkChannelReq id ChanStream purpose), t)
  end.
(** What the wait for the answer gives; [None] is the timeout. *)
Definition open_stream_end (now : Z) (request_id : Z) (answer : option (P2pResult TunnelOpenChannelResp)) (t : QuicTunnel)
    : P2pResult unit * list QuicEvent * QuicTunnel :=
  match answer with
  | None => let '(ev, t) := close_with_error P2pErrorCode.Timeout t in (Err P2pErrorCode.Timeout, ev, abandon_open now t)
  | Some (Err e) => (Err e, [], abandon_open now t)
  | Some (Ok resp) =>
      if negb (rs_request_id resp =? request_id) then (Err P2pErrorCode.InvalidData, [], abandon_open now t)
      else match open_resp_result (rs_result resp) with
           | Err e => (Err e, [], abandon_open now t)
           | Ok _ => let '(r, a) := promote_stream now (qt_activity t) in (r, [], set_qactivity a t)
           end
  end.

(** [open_datagram] after [open_uni]: [begin_open_channel] enters the oneshot [tx]. *)
Definition begin_open_channel (tx : nat) (t : QuicTunnel) : Z * QuicTunnel :=
  let '(id, t) := take_request_id t in (id, set_requests <[id := tx]> t).
Definition open_datagram_request (now : Z) (opened : P2pResult unit) (tx : nat) (purpose : list Z) (t : QuicTunnel)
    : P2pResult TunnelOpenChannelReq * QuicTunnel :=
  match opened with
  | Err _ => (Err P2pErrorCode.ConnectFailed, abandon_open now t)
  | Ok _ => let '(id, t) := begin_open_channel tx t in (Ok (mkChannelReq id ChanDatagram purpose), t)
  end.
Definition open_datagram_unwritten (now : Z) (request_id : Z) (t : QuicTunnel) : QuicTunnel :=
  abandon_open now (set_requests (delete request_id) t).

(** [wait_open_channel]; the entry is already gone when the answer was an error. *)
Definition wait_open_channel (request_id : Z) (w : OpenWake) (t : QuicTunnel) : P2pResult unit * list QuicEvent * QuicTunnel :=
  match w with
  | WokenBy (Err e) => (Err e, [], t)
  | WokenBy (Ok _) => (Ok tt, [], set_requests (delete request_id) t)
  | Canceled => (Err P2pErrorCode.Interrupted, [], set_requests (delete request_id) t)
  | TimedOut =>
      let '(ev, t) := close_with_error P2pErrorCode.Timeout (set_requests (delete request_id) t) in
      (Err P2pErrorCode.Timeout, ev, t)
  end.
Definition open_datagram_end (now : Z) (request_id : Z) (w : OpenWake) (t : QuicTunnel)
    : P2pResult unit * list QuicEvent * QuicTunnel :=
  let '(r, ev, t) := wait_open_channel request_id w t in
  match r with
  | Err e => (Err e, ev, abandon_open now t)
  | Ok _ => let '(r, a) := promote_datagram now (qt_activity t) in (r, ev, set_qactivity a t)
  end.

(** [open_control_stream]: its pending open, then the runtime's two halves. *)
Definition open_control_start (now : Z) (control_send : list Z -> P2pResult unit) (purpose : list Z) (t : QuicTunnel)
    : option (P2pResult (Z * nat) * list QuicEvent * QuicTunnel) :=
  match open_channel_start now t with
  | (Err e, t) => Some (Err e, [], t)
  | (Ok _, t) =>
      if quic_is_closed t then Some (Err P2pErrorCode.Interrupted, [], abandon_open now t)
      else match open_begin control_send purpose (qt_control_streams t) with
           | None => None
           | Some (r, ev, rt) =>
               let t := set_control rt t in
               Some (r, map QControl ev, match r with Ok _ => t | Err _ => abandon_open now t end)
           end
  end.
Definition open_control_end (now : Z) (id : Z) (h : nat) (w : OpenWake) (t : QuicTunnel) : P2pResult unit * QuicTunnel :=
  let '(r, rt) := open_end id h w (qt_control_streams t) in
  let t := set_control rt t in
  match r with
  | Err e => (Err e, abandon_open now t)
  | Ok _ => let '(r, a) := promote_stream now (qt_activity t) in (r, set_qactivity a t)
  end.

(** *** Listening *)

Definition listen_guard (t : QuicTunnel) : P2pResult unit :=
  _ <-? ensure_live (qt_activity t) ;; if quic_is_closed t then Err P2pErrorCode.Interrupted else Ok tt.
Definition quic_listen_stream (vports callback : nat) (t : QuicTunnel) : P2pResult unit * list QuicEvent * QuicTunnel :=
  match listen_guard t with
  | Err e => (Err e, [], t)
  | Ok _ => (Ok tt, if qt_bi_accept_started t then [] else [QSpawnBi], set_stream_listener vports callback t)
  end.
Definition quic_listen_datagram (vports callback : nat) (t : QuicTunnel) : P2pResult unit * list QuicEvent * QuicTunnel :=
  match listen_guard t with
  | Err e => (Err e, [], t)
  | Ok _ => (Ok tt, if qt_uni_accept_started t then [] else [QSpawnUni], set_datagram_listener vports callback t)
  end.
Definition quic_listen_control_stream (purposes : list Z -> bool) (t : QuicTunnel) : P2pResult unit * QuicTunnel :=
  match listen_guard t with
  | Err e => (Err e, t)
  | Ok _ => let '(r, rt) := listen_with_prepare (mkListener purposes (Some (fun _ => ensure_live (qt_activity t))))
                              (qt_control_streams t) in
            (r, set_control rt t)
  end.
End tunnel.
Arguments QuicTunnel {_}.

(** ** The handshake *)

Section handshake.
Context `{mp : !Mpsc InboundItem}.
Context `{header_codec : !RawCodec TunnelCommandHeader, hello_codec : !RawCodec TunnelHello, resp_codec : !RawCodec TunnelHelloResp}.

Section ends.
Context (now : Z) (local_id remote_id : P2pId) (local_ep remote_ep : Endpoint).

(** [connect] up to the answer: the bytes written on the new command stream. *)
Definition connect_hello (opened : P2pResult unit) (tunnel_id : TunnelId) (candidate_id : TunnelCandidateId) (is_reverse : bool)
    : P2pResult (list Z) :=
  match opened with
  | Err _ => Err P2pErrorCode.ConnectFailed
  | Ok _ => write_command (mkTunnelHello tunnel_id candidate_id is_reverse)
  end.
(** The rest: [s] are the bytes that come, of which the tunnel reads the rest. *)
Definition connect_finish (tunnel_id : TunnelId) (candidate_id : TunnelCandidateId) (is_reverse : bool) (s : list Z)
    : P2pResult (QuicTunnel * list Z) :=
  x <-? read_command (T:=TunnelHelloResp) QidHelloResp s ;;
  let '(resp, s) := x in
  if negb (hr_tunnel_id resp =? tunnel_id) || negb (hr_candidate_id resp =? candidate_id) then Err P2pErrorCode.InvalidData
  else Ok (new_inner now tunnel_id candidate_id FormActive is_reverse local_id remote_id local_ep remote_ep, s).

(** [accept]: the tunnel, the bytes written and the bytes left. *)
Definition quic_accept (accepted : P2pResult unit) (s : list Z) : P2pResult (QuicTunnel * list Z * list Z) :=
  match accepted with
  | Err _ => Err P2pErrorCode.IoError
  | Ok _ =>
      x <-? read_command (T:=TunnelHello) QidHello s ;;
      let '(hello, s) := x in
      out <-? write_command (mkTunnelHelloResp (th_tunnel_id hello) (th_candidate_id hello)) ;;
      Ok (new_inner now (th_tunnel_id hello) (th_candidate_id hello) FormPassive (th_is_reverse hello)
            local_id remote_id local_ep remote_ep, out, s)
  end.
End ends.
End handshake.

(** ** The wire *)

(** [write_tunnel_command] of a new command writes the frame. *)
Section wire_facts.
Context `{hc : !RawCodec TunnelCommandHeader, !HeaderCodec hc}.
Context {T : Type} `{!RawCodec T, !RawCodecLaws T, !CommandId T}.

Lemma write_command_frame (b : T) bytes :
  write_command b = Ok bytes ->
  exists hb bb, bytes = hb ++ bb /\ to_vec (frame_header (T:=T) (length bb)) = Ok hb /\ to_vec b = Ok bb.
Proof using RawCodecLaws0.
  unfold write_command. destruct (command_new b) as [c|] eqn:Hc; [|done]. intros Hw.
  assert (encode_tunnel_command_bytes b = Ok bytes) as He.
  { unfold encode_tunnel_command_bytes. rewrite Hc. revert Hw. unfold write_tunnel_command. by destruct (command_validate c). }
  by apply encode_frame_inv.
Qed.

(** A frame that was written is read back by the reader of its type, whatever
    follows it. *)
Lemma written_read (b : T) bytes s :
  write_command b = Ok bytes -> (forall bb, to_vec b = Ok bb -> Z.of_nat (length bb) <= u32_max) ->
  exists h s', read_tunnel_command_header (bytes ++ s) = Ok (h, s') /\ hd_command_id h = COMMAND_ID T /\
    read_tunnel_command_body h s' = Ok (mkCommand h b, s).
Proof using HeaderCodec0 RawCodecLaws0.
  intros (hb & bb & -> & Hh & Hb)%write_command_frame Hl. exists (frame_header (T:=T) (length bb)), (bb ++ s).
  rewrite <-app_assoc, (read_header_encoded _ _ _ Hh). split_and!; [done|done|]. by apply read_body_encoded, Hl.
Qed.

Lemma read_command_written id (b : T) bytes s :
  COMMAND_ID T = quic_id_u8 id ->
  write_command b = Ok bytes -> (forall bb, to_vec b = Ok bb -> Z.of_nat (length bb) <= u32_max) ->
  read_command (T:=T) id (bytes ++ s) = Ok (b, s).
Proof using HeaderCodec0 RawCodecLaws0.
  intros Hid Hw Hl. destruct (written_read b bytes s Hw Hl) as (h & s' & Hr & Hi & Hb).
  unfold read_command. rewrite Hr, Hi, Hid, Z.eqb_refl. simpl. by rewrite Hb.
Qed.
Lemma read_channel_command_written id (b : T) bytes s :
  COMMAND_ID T = quic_id_u8 id ->
  write_command b = Ok bytes -> (forall bb, to_vec b = Ok bb -> Z.of_nat (length bb) <= u32_max) ->
  read_channel_command (T:=T) id (bytes ++ s) = Ok (b, s).
Proof using HeaderCodec0 RawCodecLaws0.
  intros Hid Hw Hl. destruct (written_read b bytes s Hw Hl) as (h & s' & Hr & Hi & Hb).
  unfold read_channel_command. rewrite Hr. simpl. rewrite Hi, Hid.
  assert (quic_id_from_u8 (quic_id_u8 id) = Some id) as -> by (by destruct id).
  rewrite bool_decide_true by done. simpl. by rewrite Hb.
Qed.
End wire_facts.

(** A command of the command stream survives the wire. *)
Section message_facts.
Context `{hc : !RawCodec TunnelCommandHeader, !HeaderCodec hc, !RawCodec TunnelPing, !RawCodec TunnelPong,
          !RawCodec TunnelOpenChannelResp, !RawCodec TunnelControlData}.
Context `{!RawCodecLaws TunnelPing, !RawCodecLaws TunnelPong, !RawCodecLaws TunnelOpenChannelResp, !RawCodecLaws TunnelControlData}.

Definition body_fits (m : QuicMessage) : Prop :=
  let fits {T} `{!RawCodec T} (b : T) := forall bb, to_vec b = Ok bb -> Z.of_nat (length bb) <= u32_max in
  match m with MsgPing b => fits b | MsgPong b => fits b | MsgOpenResp b => fits b | MsgData b => fits b end.

Lemma message_roundtrip m bytes s :
  write_message m = Ok bytes -> body_fits m ->
  exists h s', read_tunnel_command_header (bytes ++ s) = Ok (h, s') /\ recv_message h s' = Ok (m, s).
Proof using All.
  intros Hw Hf. destruct m as [b|b|b|b]; simpl in *;
    destruct (written_read b bytes s Hw Hf) as (h & s' & Hr & Hi & Hb); exists h, s'; (split; [done|]);
    unfold recv_message; rewrite Hi; simpl; unfold message_as; by rewrite Hb.
Qed.
End message_facts.

Section handshake_facts.
Context `{mp : !Mpsc InboundItem}.
Context `{hc : !RawCodec TunnelCommandHeader, !HeaderCodec hc, hello_codec : !RawCodec TunnelHello, !RawCodecLaws TunnelHello,
          resp_codec : !RawCodec TunnelHelloResp, !RawCodecLaws TunnelHelloResp}.

Definition small_bodies (T : Type) `{!RawCodec T} : Prop :=
  forall (b : T) bb, to_vec b = Ok bb -> Z.of_nat (length bb) <= u32_max.

(** The QUIC handshake: when the bytes each end writes reach the other, both
    ends have the same tunnel id, candidate id and direction; one end is active
    and the other passive, so that the streams they number on the control
    connection have different parities; neither end has read a byte that does not
    belong to the handshake. *)
Theorem quic_handshake_agrees now now' a b ea eb ea' eb' id candidate reverse hello rest answer t' left rest' :
  small_bodies TunnelHello -> small_bodies TunnelHelloResp ->
  connect_hello (Ok tt) id candidate reverse = Ok hello ->
  quic_accept now' b a eb' ea' (Ok tt) (hello ++ rest) = Ok (t', answer, left) ->
  exists t, connect_finish now a b ea eb id candidate reverse (answer ++ rest') = Ok (t, rest') /\ left = rest /\
    (qt_tunnel_id t, qt_candidate_id t, qt_is_reverse t) = (id, candidate, reverse) /\
    (qt_tunnel_id t', qt_candidate_id t', qt_is_reverse t') = (id, candidate, reverse) /\
    (qt_local_id t, qt_remote_id t) = (qt_remote_id t', qt_local_id t') /\
    (qt_form t, qt_form t') = (FormActive, FormPassive) /\
    (forall n, is_peer_stream_id (qt_control_streams t) n = true -> is_peer_stream_id (qt_control_streams t') n = false) /\
    quic_is_closed t = false /\ quic_is_closed t' = false.
Proof using All.
  intros Hs Hs' Hh Ha. unfold connect_hello in Hh. unfold quic_accept in Ha.
  rewrite (read_command_written (T:=TunnelHello) QidHello (mkTunnelHello id candidate reverse)) in Ha by (done || apply Hs).
  simpl in Ha.
  destruct (write_command (mkTunnelHelloResp _ _)) as [out|] eqn:Hw; [|done]. simpl in Ha. injection Ha as <- <- <-.
  exists (new_inner now id candidate FormActive reverse a b ea eb).
  unfold connect_finish. rewrite (read_command_written (T:=TunnelHelloResp) QidHelloResp (mkTunnelHelloResp id candidate)) by (done || apply Hs').
  simpl.
  rewrite !Z.eqb_refl. simpl. split_and!; try done.
  intros n. unfold is_peer_stream_id. simpl. destruct (n =? 0); [done|]. simpl. rewrite land_1_mod.
  intros H%negb_true_iff%Z.eqb_neq. apply negb_false_iff, Z.eqb_eq. pose proof (Z.mod_pos_bound n 2). 
  change (Z.land 2 1) with 0. change (Z.land 1 1) with 1 in H. lia.
Qed.
End handshake_facts.

(** ** Closing *)

Section tunnel_facts.
Context `{mp : !Mpsc InboundItem} `{fc : !RawCodec ControlStreamFrame}.
Implicit Types t : QuicTunnel.

Lemma close_with_error_closes code t :
  let t' := snd (close_with_error code t) in
  qt_closed t' = true /\ lifecycle (qt_activity t') = ActRetired.
Proof. unfold close_with_error. simpl. destruct (qt_closed t) eqn:E; [done|]. by destruct (close_all code _). Qed.

Lemma close_all_closed code (rt : Runtime) : closed (snd (close_all code rt)) = true.
Proof. unfold close_all. destruct (closed rt) eqn:E; [done|]. by rewrite !fold_reset. Qed.

(** The first close settles everything: no open waits any more, the control
    streams are closed, the socket is closed. *)
Lemma close_with_error_settles code t ev t' :
  close_with_error code t = (ev, t') -> qt_closed t = false ->
  qt_pending_open_requests t' = ∅ /\ closed (qt_control_streams t') = true /\ qt_socket_closed t' = true /\
  current_callback ChanStream t' = None /\ current_callback ChanDatagram t' = None /\
  (forall r tx, qt_pending_open_requests t !! r = Some tx -> QAnswer tx (Err code) ∈ ev).
Proof.
  unfold close_with_error. simpl. intros H Hc. rewrite Hc in H.
  pose proof (close_all_closed code (qt_control_streams t)) as Hcl. destruct (close_all _ _) as [cev rt]. simplify_eq.
  split_and!; try done. intros r tx Hr. apply elem_of_app. right. apply elem_of_cons. right. apply elem_of_app. left.
  apply list_elem_of_In, in_map_iff. exists (r, tx). split; [done|]. apply list_elem_of_In. by apply elem_of_map_to_list.
Qed.

(** *** The tunnel as an object of the tunnel manager *)

#[global] Instance QuicTunnel_ops : TunnelOps QuicTunnel := {
  tn_tunnel_id := qt_tunnel_id;
  tn_candidate_id := qt_candidate_id;
  tn_form := qt_form;
  tn_is_reverse := qt_is_reverse;
  tn_remote_id := qt_remote_id;
  tn_state := quic_state;
  tn_is_closed := quic_is_closed;
  tn_business_at t := latest_business_activity_at (qt_activity t);
  tn_try_retire now d t := let '(b, a) := try_retire_idle now d (qt_activity t) in (b, set_qactivity a t);
  tn_close t := (Ok tt, snd (close_with_error P2pErrorCode.Interrupted t)) }.
#[global] Instance QuicTunnel_work : TunnelWork QuicTunnel := fun t =>
  negb (pending_open_count (qt_activity t) =? 0) || negb (work_instance_num (qt_activity t) =? 0).

#[global] Instance QuicTunnel_laws : TunnelLaws QuicTunnel.
Proof.
  split.
  - intros now d t Hb. unfold tn_busy, QuicTunnel_work in Hb. simpl. rewrite try_retire_busy by done. by destruct t.
  - intros now d t. simpl. by destruct (try_retire_idle _ _ _).
  - intros t. unfold tn_identity. simpl. unfold close_with_error. simpl. destruct (qt_closed t); [done|]. by destruct (close_all _ _).
  - intros t. simpl. unfold quic_is_closed.
    by destruct (close_with_error_closes P2pErrorCode.Interrupted t) as [-> _].
Qed.

(** *** Heartbeats *)

(** Turns of [heartbeat_loop] during which nothing arrives. *)
Fixpoint silent_turns (turns : list (Z * P2pResult unit)) t : Turn * QuicTunnel :=
  match turns with
  | [] => (Continue, t)
  | (now, written) :: turns =>
      match quic_heartbeat_turn now written t with
      | (Continue, _, t) => silent_turns turns t
      | (Break, _, t) => (Break, t)
      end
  end.

Definition last_heard t : Z := Z.max (qt_last_cmd_recv_at t) (qt_last_pong_at t).

Lemma heartbeat_early now t :
  quic_is_closed t = false -> now <= last_heard t + COMMAND_HEARTBEAT_TIMEOUT ->
  exists ev t', quic_heartbeat_turn now (Ok tt) t = (Continue, ev, t') /\ quic_is_closed t' = false /\
    qt_last_cmd_recv_at t' = qt_last_cmd_recv_at t /\ qt_last_pong_at t' = qt_last_pong_at t.
Proof.
  intros Hc Hn. unfold quic_heartbeat_turn. rewrite Hc. unfold last_heard in Hn.
  destruct (_ && _) eqn:E.
  { bool_to_prop. unfold since, COMMAND_HEARTBEAT_TIMEOUT, from_secs in *. lia. }
  destruct (_ <=? _); [|eauto 6]. unfold send_command.
  assert (quic_is_closed (set_counters (qt_next_request_id t) (wrapping_add_u64 (qt_next_ping_seq t) 1) t) = false) as Hq by done.
  rewrite Hq. eauto 10.
Qed.

(** A silent peer is given up at the first turn later than thirty seconds after
    it was last heard, not before. *)
Lemma silent_peer_closed t turns now written :
  quic_is_closed t = false ->
  Forall (fun x => x.1 <= last_heard t + COMMAND_HEARTBEAT_TIMEOUT /\ x.2 = Ok tt) turns ->
  last_heard t + COMMAND_HEARTBEAT_TIMEOUT < now ->
  fst (silent_turns turns t) = Continue /\ quic_is_closed (snd (silent_turns turns t)) = false /\
  fst (silent_turns (turns ++ [(now, written)]) t) = Break /\ qt_closed (snd (silent_turns (turns ++ [(now, written)]) t)) = true.
Proof.
  intros Hc Ht Hn. revert t Hc Ht Hn. induction turns as [|[n w] turns IH]; intros t Hc Ht Hn.
  - split_and!; [done|done| |]; simpl; unfold quic_heartbeat_turn; rewrite Hc; unfold last_heard in *;
      rewrite !(proj2 (Z.ltb_lt _ _)) by (unfold since, COMMAND_HEARTBEAT_TIMEOUT, from_secs in *; lia); simpl;
      destruct (close_with_error_closes P2pErrorCode.Interrupted t) as [Hq _]; by destruct (close_with_error _ _).
  - apply Forall_cons in Ht as [[Hle Hw] Ht]. simpl in Hle, Hw. subst w. simpl.
    destruct (heartbeat_early n t Hc Hle) as (ev & t' & -> & Hc' & H1 & H2).
    assert (last_heard t' = last_heard t) as Hl by (unfold last_heard; congruence).
    apply IH; [done|by rewrite Hl|by rewrite Hl].
Qed.
End tunnel_facts.

(** ** Concrete tunnels *)

#[global] Instance TunnelHello_eq_dec : EqDecision TunnelHello.
Proof. solve_decision. Defined.
#[global] Instance TunnelHelloResp_eq_dec : EqDecision TunnelHelloResp.
Proof. solve_decision. Defined.

Module QuicDemo.
Definition alice : P2pId := mkP2pId [1].
Definition bob : P2pId := mkP2pId [2].
Definition port (p : Z) : Endpoint := endpoint_from Quic (V4 (mkV4 10 0 0 1) p).

Definition hello_codec : RawCodec TunnelHello := single_codec (mkTunnelHello 5 6 true) 7.
Definition resp_codec : RawCodec TunnelHelloResp := single_codec (mkTunnelHelloResp 5 6) 8.

Lemma quic_handshake_agrees_witness :
  exists t t', @connect_finish items header_be resp_codec 0 alice bob (port 1) (port 2) 5 6 true ([1; 2; 0; 0; 0; 1; 8] ++ [99])
    = Ok (t, [99]) /\ qt_tunnel_id t = qt_tunnel_id t' /\
    @quic_accept items header_be hello_codec resp_codec 3 bob alice (port 2) (port 1) (Ok tt) ([1; 1; 0; 0; 0; 1; 7] ++ [77])
    = Ok (t', [1; 2; 0; 0; 0; 1; 8], [77]).
Proof.
  destruct (@quic_accept items header_be hello_codec resp_codec 3 bob alice (port 2) (port 1) (Ok tt) ([1; 1; 0; 0; 0; 1; 7] ++ [77]))
    as [[[t' answer] left]|] eqn:E; [|by vm_compute in E].
  assert (answer = [1; 2; 0; 0; 0; 1; 8]) as Ha by (vm_compute in E; by injection E).
  destruct (@quic_handshake_agrees items header_be header_be_laws hello_codec (single_codec_laws _ _) resp_codec (single_codec_laws _ _)
              0 3 alice bob (port 1) (port 2) (port 1) (port 2) 5 6 true [1; 1; 0; 0; 0; 1; 7] [77] answer t' left [99])
    as (t & H1 & -> & H2 & H3 & _).
  - intros b bb. simpl. destruct (decide _); intros [= <-]. simpl. unfold u32_max. lia.
  - intros b bb. simpl. destruct (decide _); intros [= <-]. simpl. unfold u32_max. lia.
  - by vm_compute.
  - exact E.
  - subst answer. exists t, t'. split_and!; [exact H1|congruence|done].
Defined.

(** A tunnel with a listener for control streams, on which the peer opens one. *)
Definition fresh : @QuicTunnel items := new_inner 0 5 6 FormPassive false bob alice (port 2) (port 1).
Definition listening : @QuicTunnel items := snd (quic_listen_control_stream (fun _ => true) fresh).
Definition opened : Turn * list QuicEvent * @QuicTunnel items :=
  @recv_body items frame_codec 1 always (Ok tt) (Ok (MsgData (mkTunnelControlData [0; 1; 42]))) listening.

(** The peer closes the connection while the loop handles a command: the head of
    the loop sees the closed connection and leaves, as do the heartbeat and the
    accept loops, and none of them calls [close_with_error].  The ledger stays
    live, the control streams stay open and the reader of the stream opened
    waits for ever. *)
Lemma lost_connection_left_open :
  let t := set_socket_closed (snd opened) in
  fst (fst opened) = Continue /\ recv_head t = Break /\
  (forall now w, quic_heartbeat_turn now w t = (Break, [], t)) /\ (forall a, accept_turn a t = (Break, [], t)) /\
  qt_closed t = false /\ lifecycle (qt_activity t) = ActLive /\ closed (qt_control_streams t) = false /\
  fst (fst (poll_read 10 (read_new 0) (qt_control_streams t))) = ReadPending.
Proof. cbv zeta. split_and!; [by vm_compute|by vm_compute| | |by vm_compute..]; [intros now w|intros a]; done. Qed.
End QuicDemo.
