(* ===== verification/QuicChannels.v ===== *)
(** * Datagram channels between two QUIC tunnels
      (src/p2p-frame/src/networks/quic/tunnel.rs)

    The two ends of a QUIC connection open datagram channels to each other: a
    request goes over a new stream, its answer over the command stream.  The
    handlers of [QuicTunnel] become the steps of a system of two ends, in which
    anything may be lost to a closed connection, and everything else the tunnels
    do (streams, control streams, heartbeats, listening, closing) happens in
    between. *)

From stdpp Require Import functions.
From S2P Require Import Prelude.
From S2P Require Import Errors.
From S2P Require Import Ids.
From S2P Require Import Endpoint.
From S2P Require Import Codec.
From S2P Require Import Mpsc.
From S2P Require Import ControlStream.
From S2P Require Import TunnelActivity.
From S2P Require Import QuicTunnel.

(** ** What an event does to others *)

Definition answers_of (ev : list QuicEvent) : list (nat * P2pResult unit) :=
  omap (fun e => match e with QAnswer tx r => Some (tx, r) | _ => None end) ev.
Definition commands_of (ev : list QuicEvent) : list QuicMessage :=
  omap (fun e => match e with QCommand m => Some m | _ => None end) ev.

Section system.
Context `{mp : !Mpsc InboundItem} `{fc : !RawCodec ControlStreamFrame}.
Implicit Types t : QuicTunnel.

(** ** Everything but datagram channels *)

(** What happens on a tunnel besides opening and accepting datagram channels and
    reading its command stream.  Request ids do not wrap: an id is taken while
    fewer than [u64_max] were. *)
Inductive local_step : QuicTunnel -> list QuicEvent -> QuicTunnel -> Prop :=
| LS_close code t ev t' : close_with_error code t = (ev, t') -> local_step t ev t'
| LS_lost t : local_step t [] (set_socket_closed t)
| LS_header now r t turn ev t' : recv_header now r t = (turn, ev, t') -> local_step t ev t'
| LS_heartbeat now w t turn ev t' : quic_heartbeat_turn now w t = (turn, ev, t') -> local_step t ev t'
| LS_accept a t turn ev t' : accept_turn a t = (turn, ev, t') -> local_step t ev t'
| LS_listen_stream v c t r ev t' : quic_listen_stream v c t = (r, ev, t') -> local_step t ev t'
| LS_listen_datagram v c t r ev t' : quic_listen_datagram v c t = (r, ev, t') -> local_step t ev t'
| LS_listen_control p t r t' : quic_listen_control_stream p t = (r, t') -> local_step t [] t'
| LS_retire now d t b t' : TunnelManager.tn_try_retire now d t = (b, t') -> local_step t [] t'
| LS_drop_work now t : local_step t [] (set_qactivity (drop_work now (qt_activity t)) t)
| LS_stream_start now t r t' : open_channel_start now t = (r, t') -> local_step t [] t'
| LS_stream_request now o p t r t' :
    0 <= qt_next_request_id t < u64_max -> open_stream_request now o p t = (r, t') -> local_step t [] t'
| LS_stream_unwritten now t : local_step t [] (abandon_open now t)
| LS_stream_end now id a t r ev t' : open_stream_end now id a t = (r, ev, t') -> local_step t ev t'
| LS_stream_incoming now l req t d ev t' : incoming_decide now l ChanStream req t = (d, ev, t') -> local_step t ev t'
| LS_stream_finish now w p c t r t' : incoming_stream_finish now w p c t = (r, t') -> local_step t [] t'
| LS_control_start now send p t r ev t' : open_control_start now send p t = Some (r, ev, t') -> local_step t ev t'
| LS_control_end now id h w t r t' : open_control_end now id h w t = (r, t') -> local_step t [] t'.

(** What all of these have in common. *)
Record local_frame (t : QuicTunnel) (ev : list QuicEvent) (t' : QuicTunnel) : Prop := {
  lf_id : qt_next_request_id t <= qt_next_request_id t' <= Z.max (qt_next_request_id t) u64_max;
  lf_pending : (qt_pending_open_requests t' = qt_pending_open_requests t /\ answers_of ev = [] /\ qt_closed t' = qt_closed t) \/
    (qt_pending_open_requests t' = ∅ /\ qt_closed t' = true /\
     exists e, answers_of ev = map (fun x => (snd x, Err e)) (map_to_list (qt_pending_open_requests t)));
  lf_socket : qt_socket_closed t = true \/ qt_closed t' = true /\ qt_closed t = false -> qt_socket_closed t' = true;
  lf_retired : lifecycle (qt_activity t) = ActRetired -> lifecycle (qt_activity t') = ActRetired;
  lf_commands m : m ∈ commands_of ev -> match m with MsgOpenResp _ => False | _ => True end;
}.

(** The step shows neither in the requests nor in the flags. *)
Record unchanged (t t' : QuicTunnel) : Prop := {
  uc_id : qt_next_request_id t' = qt_next_request_id t;
  uc_pending : qt_pending_open_requests t' = qt_pending_open_requests t;
  uc_closed : qt_closed t' = qt_closed t;
  uc_socket : qt_socket_closed t' = qt_socket_closed t;
  uc_retired : lifecycle (qt_activity t) = ActRetired -> lifecycle (qt_activity t') = ActRetired;
}.
Lemma unchanged_frame t ev t' :
  unchanged t t' -> answers_of ev = [] -> Forall (fun m => match m with MsgOpenResp _ => False | _ => True end) (commands_of ev) ->
  local_frame t ev t'.
Proof.
  intros [H1 H2 H3 H4 H5] Ha Hm. split; rewrite ?H1, ?H4; [lia|by left| |done|by apply Forall_forall].
  intros [?|[? ?]]; [done|congruence].
Qed.

Lemma answers_of_control ev : answers_of (map QControl ev) = [].
Proof. by induction ev. Qed.
Lemma commands_of_control ev : commands_of (map QControl ev) = [].
Proof. by induction ev. Qed.
Lemma answers_of_app ev ev' : answers_of (ev ++ ev') = answers_of ev ++ answers_of ev'.
Proof. apply omap_app. Qed.
Lemma commands_of_app ev ev' : commands_of (ev ++ ev') = commands_of ev ++ commands_of ev'.
Proof. apply omap_app. Qed.
Lemma answers_of_drained (l : list (Z * nat)) e :
  answers_of (map (fun x => QAnswer (snd x) (Err e)) l) = map (fun x => (snd x, Err e)) l /\
  commands_of (map (fun x => QAnswer (snd x) (Err e)) l) = [].
Proof. induction l as [|x l [IH1 IH2]]; [done|]. split; [|done]. by simpl; rewrite IH1. Qed.

Lemma close_frame code t ev t' : close_with_error code t = (ev, t') -> local_frame t ev t'.
Proof.
  unfold close_with_error. simpl. destruct (qt_closed t) eqn:Hc.
  - intros [= <- <-]. by apply unchanged_frame.
  - destruct (close_all _ _) as [cev rt]. intros [= <- <-].
    destruct (answers_of_drained (map_to_list (qt_pending_open_requests t)) code) as [Ha Hm].
    split; simpl.
    + lia.
    + right. split_and!; [done|done|]. exists code. rewrite answers_of_app, answers_of_control. simpl.
      by rewrite answers_of_app, Ha, app_nil_r.
    + done.
    + done.
    + intros m. rewrite commands_of_app, commands_of_control. simpl. rewrite commands_of_app, Hm. set_solver.
Qed.

(** A step after which something else happens that shows nowhere. *)
Lemma local_frame_then t ev t1 t2 : local_frame t ev t1 -> unchanged t1 t2 -> local_frame t ev t2.
Proof. intros [F1 F2 F3 F4 F5] [H1 H2 H3 H4 H5]. split; rewrite ?H1, ?H2, ?H3, ?H4; auto. Qed.

Lemma begin_pending_retired now a : lifecycle a = ActRetired -> lifecycle (snd (begin_pending now a)) = ActRetired.
Proof. unfold begin_pending. intros H. by rewrite H. Qed.
Lemma promote_retired n now a : lifecycle a = ActRetired -> lifecycle (snd (promote n now a)) = ActRetired.
Proof. unfold promote. by intros ->. Qed.
Lemma try_retire_retired now d a : lifecycle a = ActRetired -> lifecycle (snd (try_retire_idle now d a)) = ActRetired.
Proof. unfold try_retire_idle. intros H. by case_match. Qed.

Lemma set_qactivity_unchanged a t :
  (lifecycle (qt_activity t) = ActRetired -> lifecycle a = ActRetired) -> unchanged t (set_qactivity a t).
Proof. by split. Qed.

Lemma open_channel_start_unchanged now t r t' : open_channel_start now t = (r, t') -> unchanged t t'.
Proof.
  unfold open_channel_start. destruct (begin_pending _ _) as [x a] eqn:E. intros [= <- <-]. apply set_qactivity_unchanged.
  intros H%(begin_pending_retired now). by rewrite E in H.
Qed.
Lemma abandon_open_unchanged now t : unchanged t (abandon_open now t).
Proof. by split. Qed.
Lemma promote_unchanged n now t r a : promote n now (qt_activity t) = (r, a) -> unchanged t (set_qactivity a t).
Proof. intros E. apply set_qactivity_unchanged. intros H%(promote_retired n now). by rewrite E in H. Qed.

Lemma incoming_decide_frame now l k req t d ev t' : incoming_decide now l k req t = (d, ev, t') -> local_frame t ev t'.
Proof.
  unfold incoming_decide. destruct req as [req|e].
  2: { destruct (close_with_error _ _) eqn:E. intros [= <- <- <-]. by eapply close_frame. }
  destruct (negb (bool_decide (_ = ResSuccess))); [intros [= <- <- <-]; by apply unchanged_frame|].
  destruct (quic_is_closed t); [intros [= <- <- <-]; by apply unchanged_frame|].
  destruct (current_callback k t); [|intros [= <- <- <-]; by apply unchanged_frame].
  destruct (begin_pending _ _) as [[x|x] a] eqn:E; intros [= <- <- <-]; (apply unchanged_frame; [|done|done]);
    apply set_qactivity_unchanged; intros H%(begin_pending_retired now); by rewrite E in H.
Qed.

Ltac quiet := apply unchanged_frame; [|done|by repeat constructor].
Ltac closing H :=
  match type of H with
  | context [close_with_error ?c ?t] =>
      let E := fresh in destruct (close_with_error c t) eqn:E; simplify_eq; by eapply close_frame
  end.

Lemma heartbeat_frame now w t turn ev t' : quic_heartbeat_turn now w t = (turn, ev, t') -> local_frame t ev t'.
Proof.
  unfold quic_heartbeat_turn. intros H. destruct (quic_is_closed t); [simplify_eq; by quiet|].
  destruct (_ && _); [closing H|]. destruct (_ <=? _); [|simplify_eq; by quiet]. unfold send_command in H.
  destruct (quic_is_closed (set_counters _ _ _)); [simplify_eq; by quiet|]. destruct w; simplify_eq; by quiet.
Qed.

Lemma open_stream_frame now id a t r ev t' : open_stream_end now id a t = (r, ev, t') -> local_frame t ev t'.
Proof.
  unfold open_stream_end. intros H. destruct a as [[resp|e]|].
  - destruct (negb _); [simplify_eq; quiet; apply abandon_open_unchanged|].
    destruct (open_resp_result _); [|simplify_eq; quiet; apply abandon_open_unchanged].
    destruct (promote_stream _ _) eqn:E; simplify_eq. quiet. by eapply promote_unchanged.
  - simplify_eq. quiet. apply abandon_open_unchanged.
  - destruct (close_with_error _ _) eqn:E; simplify_eq. eapply local_frame_then; [by eapply close_frame|]. apply abandon_open_unchanged.
Qed.

Lemma open_control_frame now send p t r ev t' : open_control_start now send p t = Some (r, ev, t') -> local_frame t ev t'.
Proof.
  unfold open_control_start. destruct (open_channel_start now t) as [[x|e] t1] eqn:Es; apply open_channel_start_unchanged in Es.
  2: { intros [= <- <- <-]. by quiet. }
  destruct (quic_is_closed t1).
  - intros [= <- <- <-]. quiet. by destruct Es; split.
  - destruct (open_begin _ _ _) as [[[r' ev'] rt]|]; [|done]. intros [= <- <- <-]. apply unchanged_frame.
    + destruct Es. destruct r'; by split.
    + apply answers_of_control.
    + by rewrite commands_of_control.
Qed.

Lemma next_id_step n : 0 <= n < u64_max -> wrapping_add_u64 n 1 = n + 1.
Proof. intros H. unfold wrapping_add_u64. apply Z.mod_small. lia. Qed.

(** Every local step has the frame. *)
Lemma local_step_frame t ev t' : local_step t ev t' -> local_frame t ev t'.
Proof.
  destruct 1 as [code t ev t' H|t|now r t turn ev t' H|now w t turn ev t' H|a t turn ev t' H|v c t r ev t' H|v c t r ev t' H
    |p t r t' H|now d t b t' H|now t|now t r t' H|now o p t r t' Hid H|now t|now id a t r ev t' H|now l req t d ev t' H|now w p c t r t' H
    |now send p t r ev t' H|now id h w t r t' H].
  - by eapply close_frame.
  - split; simpl; [lia|by left|done|done|set_solver].
  - unfold recv_header in H. destruct r; [simplify_eq; by quiet|closing H].
  - by eapply heartbeat_frame.
  - unfold accept_turn in H. destruct (quic_is_closed t); [simplify_eq; by quiet|]. destruct a; [simplify_eq; by quiet|closing H].
  - unfold quic_listen_stream in H. destruct (listen_guard t); simplify_eq; [|by quiet]. destruct (qt_bi_accept_started t); by quiet.
  - unfold quic_listen_datagram in H. destruct (listen_guard t); simplify_eq; [|by quiet]. destruct (qt_uni_accept_started t); by quiet.
  - unfold quic_listen_control_stream in H. destruct (listen_guard t); simplify_eq; [|by quiet].
    destruct (listen_with_prepare _ _); simplify_eq. by quiet.
  - simpl in H. destruct (try_retire_idle _ _ _) eqn:E; simplify_eq. quiet. apply set_qactivity_unchanged.
    intros H%(try_retire_retired now d). by rewrite E in H.
  - by quiet.
  - quiet. by eapply open_channel_start_unchanged.
  - unfold open_stream_request, take_request_id in H. destruct o; simplify_eq; [|by quiet].
    split; simpl; [|by left| |done|set_solver].
    + rewrite next_id_step by (unfold u64_max in *; lia). lia.
    + intros [?|[? ?]]; [done|congruence].
  - by quiet.
  - by eapply open_stream_frame.
  - by eapply incoming_decide_frame.
  - unfold incoming_stream_finish in H. destruct w; [|simplify_eq; by quiet].
    destruct (promote_stream _ _) eqn:E; simplify_eq. quiet. by eapply promote_unchanged.
  - by eapply open_control_frame.
  - unfold open_control_end in H. destruct (open_end _ _ _ _) as [[x|e] rt]; [|simplify_eq; by quiet].
    destruct (promote_stream _ _) eqn:E; simplify_eq. quiet.
    destruct (promote_unchanged _ _ _ _ _ E). by split.
Qed.

(** ** Two ends *)

(** An [open_datagram] that has its request id: whether the request went out and
    whether its answer is awaited. *)
Record DatagramOpen := mkOpen { do_purpose : list Z; do_sent : bool; do_waiting : bool }.
(** A handler that has accepted: what sending its answer gave, once it has. *)
Record Handling := mkHandling { hn_id : Z; hn_purpose : list Z; hn_callback : nat; hn_sent : option (P2pResult unit) }.

(** One end as opener: [op_unis] are its requests under way, [op_commands] the
    commands under way to it, [op_answers] what was sent on the oneshots (a
    oneshot has the name of its request), [op_begun] and [op_done] the calls with
    a request id and what they returned. *)
Record Opener := mkOpener {
  op_starting : list (list Z);
  op_opens : gmap Z DatagramOpen;
  op_begun : gmap Z (list Z);
  op_unis : list TunnelOpenChannelReq;
  op_commands : list QuicMessage;
  op_answers : list (nat * P2pResult unit);
  op_done : list (Z * P2pResult unit);
}.
(** The same end as acceptor: the requests accepted, those whose acceptance was
    sent, and the calls of callbacks. *)
Record Acceptor := mkAcceptor {
  ac_handling : list Handling;
  ac_accepted : list (Z * list Z);
  ac_answered : list Z;
  ac_delivered : list (Z * list Z);
}.
Record QEnd := mkEnd { en_tunnel : QuicTunnel; en_op : Opener; en_ac : Acceptor }.
(** The active end and the passive one. *)
Record ChannelSystem := mkSystem { sy_active : QEnd; sy_passive : QEnd }.
Definition end_of (sys : ChannelSystem) (b : bool) : QEnd := if b then sy_active sys else sy_passive sys.
Coercion end_of : ChannelSystem >-> Funclass.
Implicit Types sys : ChannelSystem.

Definition opener_new : Opener := mkOpener [] ∅ ∅ [] [] [] [].
Definition acceptor_new : Acceptor := mkAcceptor [] [] [] [].
Definition end_new (t : QuicTunnel) : QEnd := mkEnd t opener_new acceptor_new.

Definition oneshot (id : Z) : nat := Z.to_nat id.

Definition op_answer (l : list (nat * P2pResult unit)) (o : Opener) : Opener :=
  mkOpener (op_starting o) (op_opens o) (op_begun o) (op_unis o) (op_commands o) (op_answers o ++ l) (op_done o).
Definition op_command (l : list QuicMessage) (o : Opener) : Opener :=
  mkOpener (op_starting o) (op_opens o) (op_begun o) (op_unis o) (op_commands o ++ l) (op_answers o) (op_done o).
Definition op_receive (l : list QuicMessage) (o : Opener) : Opener :=
  mkOpener (op_starting o) (op_opens o) (op_begun o) (op_unis o) l (op_answers o) (op_done o).
Definition op_uni (l : list TunnelOpenChannelReq) (o : Opener) : Opener :=
  mkOpener (op_starting o) (op_opens o) (op_begun o) l (op_commands o) (op_answers o) (op_done o).
Definition op_start (l : list (list Z)) (o : Opener) : Opener :=
  mkOpener l (op_opens o) (op_begun o) (op_unis o) (op_commands o) (op_answers o) (op_done o).
Definition op_request (id : Z) (purpose : list Z) (sent : bool) (o : Opener) : Opener :=
  mkOpener (op_starting o) (<[id := mkOpen purpose sent false]> (op_opens o)) (<[id := purpose]> (op_begun o))
    (if sent then mkChannelReq id ChanDatagram purpose :: op_unis o else op_unis o) (op_commands o) (op_answers o) (op_done o).
Definition op_written (id : Z) (o : Opener) : Opener :=
  mkOpener (op_starting o) (alter (fun x => mkOpen (do_purpose x) (do_sent x) true) id (op_opens o)) (op_begun o) (op_unis o)
    (op_commands o) (op_answers o) (op_done o).
Definition op_return (id : Z) (r : P2pResult unit) (o : Opener) : Opener :=
  mkOpener (op_starting o) (delete id (op_opens o)) (op_begun o) (op_unis o) (op_commands o) (op_answers o) ((id, r) :: op_done o).

Definition ac_accept (id : Z) (purpose : list Z) (callback : nat) (a : Acceptor) : Acceptor :=
  mkAcceptor (mkHandling id purpose callback None :: ac_handling a) ((id, purpose) :: ac_accepted a) (ac_answered a) (ac_delivered a).
Definition ac_send (pre post : list Handling) (h : Handling) (r : P2pResult unit) (a : Acceptor) : Acceptor :=
  mkAcceptor (pre ++ mkHandling (hn_id h) (hn_purpose h) (hn_callback h) (Some r) :: post) (ac_accepted a)
    (match r with Ok _ => hn_id h :: ac_answered a | Err _ => ac_answered a end) (ac_delivered a).
Definition ac_finish (pre post : list Handling) (h : Handling) (r : P2pResult (nat * list Z)) (a : Acceptor) : Acceptor :=
  mkAcceptor (pre ++ post) (ac_accepted a) (ac_answered a)
    (match r with Ok (_, p) => (hn_id h, p) :: ac_delivered a | Err _ => ac_delivered a end).

(** The events of one end: answers for its own calls, commands for the other. *)
Definition set_end (s : bool) (e : QEnd) (sys : ChannelSystem) : ChannelSystem :=
  if s then mkSystem e (sy_passive sys) else mkSystem (sy_active sys) e.
Definition answer_end (ev : list QuicEvent) (e : QEnd) : QEnd :=
  mkEnd (en_tunnel e) (op_answer (answers_of ev) (en_op e)) (en_ac e).
Definition command_end (ev : list QuicEvent) (e : QEnd) : QEnd :=
  mkEnd (en_tunnel e) (op_command (commands_of ev) (en_op e)) (en_ac e).
Definition spread (s : bool) (ev : list QuicEvent) (sys : ChannelSystem) : ChannelSystem :=
  if s then mkSystem (answer_end ev (sy_active sys)) (command_end ev (sy_passive sys))
  else mkSystem (command_end ev (sy_active sys)) (answer_end ev (sy_passive sys)).
Definition set_op (o : Opener) (e : QEnd) : QEnd := mkEnd (en_tunnel e) o (en_ac e).
Definition set_tunnel (t : QuicTunnel) (e : QEnd) : QEnd := mkEnd t (en_op e) (en_ac e).
Definition set_ac (a : Acceptor) (e : QEnd) : QEnd := mkEnd (en_tunnel e) (en_op e) a.

(** What may wake a waiting open. *)
Definition may_wake (id : Z) (w : OpenWake) (e : QEnd) : Prop :=
  match w with
  | WokenBy r => (oneshot id, r) ∈ op_answers (en_op e)
  | TimedOut => True
  | Canceled => qt_pending_open_requests (en_tunnel e) !! id = None /\ oneshot id ∉ (op_answers (en_op e)).*1
  end.

Inductive channel_step : ChannelSystem -> ChannelSystem -> Prop :=
| SY_local s ev t' sys :
    local_step (en_tunnel (sys s)) ev t' ->
    channel_step sys (spread s ev (set_end s (set_tunnel t' (sys s)) sys))
| SY_start s now purpose t' sys :
    open_channel_start now (en_tunnel (sys s)) = (Ok tt, t') ->
    channel_step sys (set_end s (set_op (op_start (purpose :: op_starting (en_op (sys s))) (en_op (sys s))) (set_tunnel t' (sys s))) sys)
| SY_not_opened s now e purpose r t' pre post sys :
    op_starting (en_op (sys s)) = pre ++ purpose :: post ->
    open_datagram_request now (Err e) 0 purpose (en_tunnel (sys s)) = (r, t') ->
    channel_step sys (set_end s (set_op (op_start (pre ++ post) (en_op (sys s))) (set_tunnel t' (sys s))) sys)
| SY_request s now sent purpose req t' pre post sys :
    op_starting (en_op (sys s)) = pre ++ purpose :: post ->
    0 <= qt_next_request_id (en_tunnel (sys s)) < u64_max ->
    (sent = true -> qt_socket_closed (en_tunnel (sys s)) = false) ->
    open_datagram_request now (Ok tt) (oneshot (qt_next_request_id (en_tunnel (sys s)))) purpose (en_tunnel (sys s)) = (Ok req, t') ->
    channel_step sys (set_end s (set_op (op_request (rq_request_id req) purpose sent (op_start (pre ++ post) (en_op (sys s))))
                               (set_tunnel t' (sys s))) sys)
| SY_written s id o sys :
    op_opens (en_op (sys s)) !! id = Some o -> do_sent o = true ->
    channel_step sys (set_end s (set_op (op_written id (en_op (sys s))) (sys s)) sys)
| SY_unwritten s now id o e sys :
    op_opens (en_op (sys s)) !! id = Some o -> do_waiting o = false ->
    channel_step sys (set_end s (set_op (op_return id (Err e) (en_op (sys s)))
                               (set_tunnel (open_datagram_unwritten now id (en_tunnel (sys s))) (sys s))) sys)
| SY_wake s now id o w r ev t' sys :
    op_opens (en_op (sys s)) !! id = Some o -> do_waiting o = true -> may_wake id w (sys s) ->
    open_datagram_end now id w (en_tunnel (sys s)) = (r, ev, t') ->
    channel_step sys (spread s ev (set_end s (set_op (op_return id r (en_op (sys s))) (set_tunnel t' (sys s))) sys))
| SY_command s now send written m rest turn ev t' sys :
    op_commands (en_op (sys s)) = m :: rest ->
    recv_body now send written (Ok m) (record_command_recv now (en_tunnel (sys s))) = (turn, ev, t') ->
    channel_step sys (spread s ev (set_end s (set_op (op_receive rest (en_op (sys s))) (set_tunnel t' (sys s))) sys))
| SY_unread s now listening req e d ev t' pre post sys :
    op_unis (en_op (sys (negb s))) = pre ++ req :: post ->
    incoming_decide now listening ChanDatagram (Err e) (en_tunnel (sys s)) = (d, ev, t') ->
    channel_step sys (spread s ev (set_end s (set_tunnel t' (sys s))
      (set_end (negb s) (set_op (op_uni (pre ++ post) (en_op (sys (negb s)))) (sys (negb s))) sys)))
| SY_refused s now listening req id result code ev t' written r ev' pre post sys :
    op_unis (en_op (sys (negb s))) = pre ++ req :: post ->
    incoming_decide now listening ChanDatagram (Ok req) (en_tunnel (sys s)) = (IncomingRefused id result code, ev, t') ->
    send_command written (MsgOpenResp (mkChannelResp id result)) t' = (r, ev') ->
    channel_step sys (spread s (ev ++ ev') (set_end s (set_tunnel t' (sys s))
      (set_end (negb s) (set_op (op_uni (pre ++ post) (en_op (sys (negb s)))) (sys (negb s))) sys)))
| SY_accepted s now listening req id purpose callback ev t' pre post sys :
    op_unis (en_op (sys (negb s))) = pre ++ req :: post ->
    incoming_decide now listening ChanDatagram (Ok req) (en_tunnel (sys s)) = (IncomingAccepted id purpose callback, ev, t') ->
    channel_step sys (spread s ev (set_end s (set_ac (ac_accept id purpose callback (en_ac (sys s))) (set_tunnel t' (sys s)))
      (set_end (negb s) (set_op (op_uni (pre ++ post) (en_op (sys (negb s)))) (sys (negb s))) sys)))
| SY_answered s h pre post written r ev sys :
    ac_handling (en_ac (sys s)) = pre ++ h :: post -> hn_sent h = None ->
    send_command written (MsgOpenResp (mkChannelResp (hn_id h) ResSuccess)) (en_tunnel (sys s)) = (r, ev) ->
    channel_step sys (spread s ev (set_end s (set_ac (ac_send pre post h r (en_ac (sys s))) (sys s)) sys))
| SY_finished s now h sent pre post r t' sys :
    ac_handling (en_ac (sys s)) = pre ++ h :: post -> hn_sent h = Some sent ->
    incoming_datagram_finish now sent (hn_purpose h) (hn_callback h) (en_tunnel (sys s)) = (r, t') ->
    channel_step sys (set_end s (set_ac (ac_finish pre post h r (en_ac (sys s))) (set_tunnel t' (sys s))) sys).

(** ** Invariants *)

(** Of one end: every call with a request id has its oneshot either entered in
    the tunnel or answered once, never both and never neither; once the tunnel is
    closed only calls whose request did not go out are entered. *)
Record own_inv (t : QuicTunnel) (o : Opener) : Prop := {
  ow_id : 1 <= qt_next_request_id t <= u64_max;
  ow_begun r : is_Some (op_begun o !! r) -> 1 <= r < qt_next_request_id t;
  ow_pending r tx : qt_pending_open_requests t !! r = Some tx -> tx = oneshot r /\ is_Some (op_opens o !! r);
  ow_opens r x : op_opens o !! r = Some x -> op_begun o !! r = Some (do_purpose x) /\ (do_waiting x = true -> do_sent x = true);
  ow_waits r x : op_opens o !! r = Some x ->
    (qt_pending_open_requests t !! r = Some (oneshot r) /\ oneshot r ∉ (op_answers o).*1) \/
    (qt_pending_open_requests t !! r = None /\ oneshot r ∈ (op_answers o).*1);
  ow_answers : NoDup (op_answers o).*1;
  ow_named n : n ∈ (op_answers o).*1 -> exists r, n = oneshot r /\ is_Some (op_begun o !! r);
  ow_done r : r ∈ (op_done o).*1 -> is_Some (op_begun o !! r) /\ op_opens o !! r = None;
  ow_once : NoDup (op_done o).*1;
  ow_closed : qt_closed t = true -> qt_socket_closed t = true;
  ow_drained r tx x : qt_closed t = true -> qt_pending_open_requests t !! r = Some tx -> op_opens o !! r = Some x -> do_sent x = false;
}.

(** Between an opener and the acceptor at the other end, whose ledger has the
    life cycle [lc]. *)
Record link_inv (o : Opener) (a : Acceptor) (lc : TunnelActivityLifecycle) : Prop := {
  lk_uni req : req ∈ op_unis o -> op_begun o !! rq_request_id req = Some (rq_purpose req) /\ rq_request_id req ∉ (ac_accepted a).*1;
  lk_unis : NoDup (rq_request_id <$> op_unis o);
  lk_accepted id p : (id, p) ∈ ac_accepted a -> op_begun o !! id = Some p;
  lk_accepted_once : NoDup (ac_accepted a).*1;
  lk_command id : MsgOpenResp (mkChannelResp id ResSuccess) ∈ op_commands o -> id ∈ ac_answered a;
  lk_answer r : is_Some (op_begun o !! r) -> (oneshot r, Ok tt) ∈ op_answers o -> r ∈ ac_answered a;
  lk_done r : (r, Ok tt) ∈ op_done o -> r ∈ ac_answered a;
  lk_handling h : h ∈ ac_handling a -> (hn_id h, hn_purpose h) ∈ ac_accepted a /\ hn_id h ∉ (ac_delivered a).*1 /\
    (hn_sent h <> Some (Ok tt) -> hn_id h ∉ ac_answered a);
  lk_handlings : NoDup (hn_id <$> ac_handling a);
  lk_delivered id p : (id, p) ∈ ac_delivered a -> (id, p) ∈ ac_accepted a;
  lk_delivered_once : NoDup (ac_delivered a).*1;
  lk_fate id : id ∈ ac_answered a -> id ∈ (ac_accepted a).*1 /\
    (id ∈ (ac_delivered a).*1 \/ (exists h, h ∈ ac_handling a /\ hn_id h = id /\ hn_sent h = Some (Ok tt)) \/ lc = ActRetired);
}.

Definition channels_inv (sys : ChannelSystem) : Prop := forall b,
  own_inv (en_tunnel (sys b)) (en_op (sys b)) /\
  link_inv (en_op (sys b)) (en_ac (sys (negb b))) (lifecycle (qt_activity (en_tunnel (sys (negb b))))).

Lemma oneshot_inj r r' : 1 <= r -> 1 <= r' -> oneshot r = oneshot r' -> r = r'.
Proof. unfold oneshot. lia. Qed.

(** *** One end *)

(** Only the calls and the answers matter. *)
Lemma own_irrel t o o' :
  own_inv t o -> op_opens o' = op_opens o -> op_begun o' = op_begun o -> op_answers o' = op_answers o -> op_done o' = op_done o ->
  own_inv t o'.
Proof. intros [] H1 H2 H3 H4. split; rewrite ?H1, ?H2, ?H3, ?H4; eauto. Qed.

Lemma own_unchanged t t' o : own_inv t o -> unchanged t t' -> own_inv t' o.
Proof. intros [] []. split; rewrite ?uc_id0, ?uc_pending0, ?uc_closed0, ?uc_socket0; eauto. Qed.

Lemma own_oneshot_inj t o r r' :
  own_inv t o -> is_Some (op_begun o !! r) -> is_Some (op_begun o !! r') -> oneshot r = oneshot r' -> r = r'.
Proof. intros Hw Hr Hr'. pose proof (ow_begun _ _ Hw r Hr). pose proof (ow_begun _ _ Hw r' Hr'). apply oneshot_inj; lia. Qed.

Lemma own_open_begun t o r : own_inv t o -> is_Some (op_opens o !! r) -> is_Some (op_begun o !! r).
Proof. intros Hw [x Hx]. destruct (ow_opens _ _ Hw r x Hx) as [-> _]. eauto. Qed.

Lemma drained_names (l : list (Z * nat)) e : (map (fun x : Z * nat => (snd x, Err e : P2pResult unit)) l).*1 = l.*2.
Proof. induction l as [|x l IH]; [done|]. by cbn; f_equal. Qed.

(** The drained oneshots are distinct and were not answered before. *)
Lemma drained_fresh t o e l :
  own_inv t o -> l = map (fun x : Z * nat => (snd x, Err e : P2pResult unit)) (map_to_list (qt_pending_open_requests t)) ->
  NoDup l.*1 /\ (forall n, n ∈ l.*1 -> n ∉ (op_answers o).*1 /\ exists r, n = oneshot r /\ qt_pending_open_requests t !! r = Some n).
Proof.
  intros Hw ->.
  assert (forall n, n ∈ (map (fun x : Z * nat => (snd x, Err e : P2pResult unit)) (map_to_list (qt_pending_open_requests t))).*1 ->
          exists r, n = oneshot r /\ qt_pending_open_requests t !! r = Some n) as Hin.
  { intros n Hn. apply list_elem_of_fmap in Hn as ([n' v] & -> & Hn). apply list_elem_of_In, in_map_iff in Hn as ([r tx] & [= <- <-] & Hr).
    apply list_elem_of_In, elem_of_map_to_list in Hr. destruct (ow_pending _ _ Hw _ _ Hr) as [-> _]. simpl. by exists r. }
  split.
  - rewrite drained_names.
    apply (NoDup_fmap_2_strong snd); [|apply NoDup_map_to_list].
    intros [r tx] [r' tx'] Hr Hr' Heq. apply elem_of_map_to_list in Hr, Hr'. simpl in Heq. subst tx'.
    destruct (ow_pending _ _ Hw _ _ Hr) as [E1 O1]. destruct (ow_pending _ _ Hw _ _ Hr') as [E2 O2].
    f_equal. eapply own_oneshot_inj; [exact Hw|by eapply own_open_begun..|congruence].
  - intros n Hn. destruct (Hin n Hn) as (r & -> & Hr). split; [|by exists r].
    destruct (ow_pending _ _ Hw _ _ Hr) as [_ [x Hx]]. by destruct (ow_waits _ _ Hw _ _ Hx) as [[_ ?]|[? _]]; [|congruence].
Qed.

Lemma own_local t ev t' o : own_inv t o -> local_frame t ev t' -> own_inv t' (op_answer (answers_of ev) o).
Proof.
  intros Hw [Hid Hp Hs _ _]. destruct Hp as [(Hp & Ha & Hc)|(Hp & Hc & e & Ha)].
  - apply (own_irrel t' o); [|done|done| |done].
    2: { simpl. by rewrite Ha, app_nil_r. }
    destruct Hw. split; rewrite ?Hp, ?Hc; auto; try lia.
    + intros r Hr. apply ow_begun0 in Hr. lia.
  - destruct (drained_fresh t o e _ Hw Ha) as [Hnd Hfresh]. pose proof Hw as Hw'. destruct Hw. split; simpl; rewrite ?Hp; try done.
    + lia.
    + intros r Hr. apply ow_begun0 in Hr. lia.
    + intros r x Hx. right. split; [done|]. rewrite fmap_app, elem_of_app.
      destruct (ow_waits0 r x Hx) as [[Hr _]|[_ ?]]; [|by left]. right. rewrite Ha, drained_names.
      apply list_elem_of_fmap. exists (r, oneshot r). split; [done|]. by apply elem_of_map_to_list.
    + rewrite fmap_app. apply NoDup_app. split_and!; [done| |done]. intros n Hn Hl. by apply (proj1 (Hfresh n Hl)).
    + intros n. rewrite fmap_app, elem_of_app. intros [Hn|Hn]; [by apply ow_named0|].
      destruct (proj2 (Hfresh n Hn)) as (r & -> & Hr). exists r. split; [done|]. eapply own_open_begun; [done|].
      by destruct (ow_pending0 _ _ Hr).
    + intros _. destruct (qt_closed t) eqn:E; naive_solver.
Qed.

Lemma own_request t o now purpose req t' sent :
  own_inv t o -> 0 <= qt_next_request_id t < u64_max -> (sent = true -> qt_socket_closed t = false) ->
  open_datagram_request now (Ok tt) (oneshot (qt_next_request_id t)) purpose t = (Ok req, t') ->
  own_inv t' (op_request (rq_request_id req) purpose sent o) /\ rq_request_id req = qt_next_request_id t /\
  op_begun o !! qt_next_request_id t = None.
Proof.
  intros Hw Hid Hsent [= <- <-]. simpl.
  assert (op_begun o !! qt_next_request_id t = None) as Hnew.
  { apply eq_None_not_Some. intros Hs%(ow_begun _ _ Hw). lia. }
  assert (op_opens o !! qt_next_request_id t = None) as Hnew'.
  { apply eq_None_not_Some. intros Hs%(own_open_begun _ _ _ Hw). rewrite Hnew in Hs. by destruct Hs. }
  assert (oneshot (qt_next_request_id t) ∉ (op_answers o).*1) as Hna.
  { intros (r & Hr & Hb)%(ow_named _ _ Hw). apply (ow_begun _ _ Hw) in Hb. unfold oneshot in Hr. lia. }
  split; [|done]. destruct Hw. split; simpl; rewrite ?next_id_step by lia; try done.
  - lia.
  - intros r. rewrite lookup_insert_is_Some. intros [<-|[_ Hr]]; [lia|]. apply ow_begun0 in Hr. lia.
  - intros r tx. rewrite lookup_insert_Some, lookup_insert_is_Some. intros [[<- <-]|[Hne Hr]]; [by auto|].
    destruct (ow_pending0 _ _ Hr). auto.
  - intros r x. rewrite lookup_insert_Some. intros [[<- <-]|[Hne Hr]]; [by rewrite lookup_insert_eq|].
    rewrite lookup_insert_ne by done. auto.
  - intros r x. rewrite lookup_insert_Some. intros [[<- <-]|[Hne Hr]]; [rewrite lookup_insert_eq; auto|].
    rewrite lookup_insert_ne by done. eauto.
  - intros n (r & -> & Hr)%ow_named0. exists r. rewrite lookup_insert_is_Some'. auto.
  - intros r [Hr Ho]%ow_done0. rewrite lookup_insert_is_Some'. split; [by right|]. rewrite lookup_insert_ne; [done|].
    intros <-. rewrite Hnew in Hr. by destruct Hr.
  - intros r tx x Hc. rewrite !lookup_insert_Some. intros [[<- <-]|[Hne Hr]] [[? <-]|[? Hx]]; simplify_eq; eauto.
    simpl. destruct sent; [|done]. apply ow_closed0 in Hc. rewrite Hsent in Hc; done.
Qed.

Lemma own_written t o id x : own_inv t o -> op_opens o !! id = Some x -> do_sent x = true -> own_inv t (op_written id o).
Proof.
  intros [] Hx Hs. split; simpl; try done.
  - intros r tx Hr. rewrite lookup_alter_is_Some. eauto.
  - intros r y. rewrite lookup_alter_Some. intros [(<- & z & Hz & ->)|[_ Hy]]; [|eauto]. simplify_eq. simpl.
    split; [by apply ow_opens0|done].
  - intros r y. rewrite lookup_alter_Some. intros [(<- & z & Hz & ->)|[_ Hy]]; eauto.
  - intros r [Hr Ho]%ow_done0. split; [done|]. by apply lookup_alter_None.
  - intros r tx y Hc Hr. rewrite lookup_alter_Some. intros [(<- & z & Hz & ->)|[_ Hy]]; [|eauto]. simpl. eauto.
Qed.

(** A call returns and its entry, if any, is gone. *)
Lemma own_return t t' o id x v :
  own_inv t o -> op_opens o !! id = Some x ->
  qt_pending_open_requests t' = delete id (qt_pending_open_requests t) -> qt_next_request_id t' = qt_next_request_id t ->
  qt_closed t' = qt_closed t -> qt_socket_closed t' = qt_socket_closed t -> own_inv t' (op_return id v o).
Proof.
  intros [] Hx Hp Hi Hc Hs. split; simpl; rewrite ?Hp, ?Hi, ?Hc, ?Hs; try done.
  - intros r tx [Hne Hr]%lookup_delete_Some. rewrite lookup_delete_ne by done. auto.
  - intros r y [Hne Hy]%lookup_delete_Some. eauto.
  - intros r y [Hne Hy]%lookup_delete_Some. rewrite lookup_delete_ne by done. eauto.
  - intros r. rewrite elem_of_cons. intros [->|Hr].
    + split; [|by rewrite lookup_delete_eq]. destruct (ow_opens0 _ _ Hx) as [-> _]. eauto.
    + destruct (ow_done0 _ Hr) as [? Ho]. split; [done|]. by rewrite lookup_delete_None; right.
  - apply NoDup_cons. split; [|done]. intros [_ Ho]%ow_done0. congruence.
  - intros r tx y Hc' [Hne Hr]%lookup_delete_Some [_ Hy]%lookup_delete_Some. eauto.
Qed.

(** The answer of a request is passed on. *)
Lemma own_resp t o id tx v :
  own_inv t o -> qt_pending_open_requests t !! id = Some tx ->
  own_inv (set_requests (delete id) t) (op_answer [(tx, v)] o) /\ tx = oneshot id /\ is_Some (op_begun o !! id).
Proof.
  intros Hw Hr. destruct (ow_pending _ _ Hw _ _ Hr) as [-> [x Hx]].
  assert (is_Some (op_begun o !! id)) as Hb by (eapply own_open_begun; eauto).
  assert (oneshot id ∉ (op_answers o).*1) as Hna by (destruct (ow_waits _ _ Hw _ _ Hx) as [[_ ?]|[? _]]; congruence).
  split; [|done]. pose proof Hw as Hw'. destruct Hw. split; simpl; rewrite ?fmap_app; simpl; try done.
  - intros r tx [Hne Hr']%lookup_delete_Some. auto.
  - intros r y Hy. rewrite elem_of_app, list_elem_of_singleton.
    destruct (decide (r = id)) as [->|Hne]; [right; rewrite lookup_delete_eq; auto|]. rewrite lookup_delete_ne by done.
    destruct (ow_waits0 r y Hy) as [[? Hn]|[? ?]]; [left|right; auto]. split; [done|]. intros [?|Heq]; [done|].
    apply Hne. eapply own_oneshot_inj; [done| |done|done]. eapply own_open_begun; eauto.
  - apply NoDup_app. split_and!; [done| |apply NoDup_singleton]. intros n Hn Hs. apply list_elem_of_singleton in Hs as ->. done.
  - intros n. rewrite elem_of_app, list_elem_of_singleton. intros [Hn| ->]; [by apply ow_named0|eauto].
  - intros r tx y Hc [_ Hr']%lookup_delete_Some. eauto.
Qed.

(** *** An opener and the acceptor at the other end *)

Lemma link_answers o a lc l :
  link_inv o a lc -> (forall r, is_Some (op_begun o !! r) -> (oneshot r, Ok tt) ∈ l -> r ∈ ac_answered a) ->
  link_inv (op_answer l o) a lc.
Proof. intros [] Hl. split; simpl; try done. intros r Hr. rewrite elem_of_app. naive_solver. Qed.

Lemma link_commands o a lc l :
  link_inv o a lc -> (forall id, MsgOpenResp (mkChannelResp id ResSuccess) ∈ l -> id ∈ ac_answered a) ->
  link_inv (op_command l o) a lc.
Proof. intros [] Hl. split; simpl; try done. intros id. rewrite elem_of_app. naive_solver. Qed.

Lemma link_receive o a lc m rest : link_inv o a lc -> op_commands o = m :: rest -> link_inv (op_receive rest o) a lc.
Proof. intros [] Hc. split; simpl; try done. intros id Hid. apply lk_command0. rewrite Hc. set_solver. Qed.

Lemma link_started o a lc l : link_inv o a lc -> link_inv (op_start l o) a lc.
Proof. by intros []. Qed.
Lemma link_written o a lc id : link_inv o a lc -> link_inv (op_written id o) a lc.
Proof. by intros []. Qed.

Lemma link_lc o a lc lc' : link_inv o a lc -> (lc = ActRetired -> lc' = ActRetired) -> link_inv o a lc'.
Proof.
  intros [] Hlc. split; try done. intros id Hid. destruct (lk_fate0 id Hid) as [? [?|[?|?]]]; (split; [done|]); [left|right; left|right; right]; auto.
Qed.

Lemma link_uni_removed o a lc pre req post :
  link_inv o a lc -> op_unis o = pre ++ req :: post ->
  link_inv (op_uni (pre ++ post) o) a lc /\ rq_request_id req ∉ rq_request_id <$> (pre ++ post).
Proof.
  intros [] Hu. rewrite Hu, fmap_app, fmap_cons in lk_unis0.
  assert (NoDup (rq_request_id req :: (rq_request_id <$> pre ++ post))) as Hnd.
  { rewrite fmap_app. rewrite <-(Permutation_middle (rq_request_id <$> pre)) in lk_unis0. done. }
  apply NoDup_cons in Hnd as [Hn Hnd]. split; [|done]. split; simpl; try done.
  intros r Hr. apply lk_uni0. rewrite Hu. set_solver.
Qed.

Lemma link_request o a lc id purpose sent :
  link_inv o a lc -> op_begun o !! id = None -> oneshot id ∉ (op_answers o).*1 -> link_inv (op_request id purpose sent o) a lc.
Proof.
  intros [] Hnew Hna.
  assert (forall req, req ∈ op_unis o -> <[id:=purpose]> (op_begun o) !! rq_request_id req = Some (rq_purpose req) /\
            rq_request_id req ∉ (ac_accepted a).*1 /\ rq_request_id req <> id) as Hold.
  { intros req Hin. destruct (lk_uni0 req Hin) as [Hb ?]. rewrite lookup_insert_ne by congruence. split_and!; [done|done|congruence]. }
  split; simpl; try done.
  - intros req Hreq. destruct sent; [apply elem_of_cons in Hreq as [->|Hreq]|]; [|naive_solver..]. simpl.
    rewrite lookup_insert_eq. split; [done|]. intros Hi.
    apply list_elem_of_fmap in Hi as ([id' p'] & -> & Hi). apply lk_accepted0 in Hi. simpl in Hnew. congruence.
  - destruct sent; [|done]. rewrite fmap_cons. apply NoDup_cons. split; [|done]. simpl. intros Hi.
    apply list_elem_of_fmap in Hi as (req & Heq & Hi). by destruct (Hold _ Hi) as (_ & _ & ?).
  - intros i p' Hi%lk_accepted0. rewrite lookup_insert_ne by congruence. done.
  - intros r Hr Ha. apply lk_answer0; [|done]. apply lookup_insert_is_Some in Hr as [<-|[_ Hr]]; [|done].
    destruct Hna. apply list_elem_of_fmap. by exists (oneshot id, Ok tt).
Qed.

Lemma link_return o a lc id v : link_inv o a lc -> (v = Ok tt -> id ∈ ac_answered a) -> link_inv (op_return id v o) a lc.
Proof. intros [] Hv. split; simpl; try done. intros r. rewrite elem_of_cons. intros [[= -> <-]|?]; auto. Qed.

Lemma link_accept o a lc lc' pre req post callback :
  link_inv o a lc -> op_unis o = pre ++ req :: post -> (lc = ActRetired -> lc' = ActRetired) ->
  link_inv (op_uni (pre ++ post) o) (ac_accept (rq_request_id req) (rq_purpose req) callback a) lc'.
Proof.
  intros Hl Hu Hlc. destruct (link_uni_removed _ _ _ _ _ _ Hl Hu) as [Hr Hn]. pose proof (lk_uni _ _ _ Hl req) as Hreq.
  destruct Hreq as [Hb Hna]; [rewrite Hu; set_solver|]. apply (link_lc _ _ _ lc') in Hr; [|done]. clear Hl Hlc lc.
  assert (rq_request_id req ∉ ac_answered a) as Hnans by (intros Hi; by destruct (lk_fate _ _ _ Hr _ Hi) as [? _]).
  destruct Hr. simpl in *. split; simpl; try done.
  - intros r Hin. destruct (lk_uni0 r Hin). split; [done|]. rewrite not_elem_of_cons. split; [|done].
    intros Heq. apply Hn. rewrite <-Heq. apply list_elem_of_fmap. by exists r.
  - intros id p. rewrite elem_of_cons. intros [[= -> ->]|?]; auto.
  - by apply NoDup_cons.
  - intros h. rewrite elem_of_cons. intros [->|Hh].
    + simpl. split_and!; [set_solver| |done]. intros Hd. apply list_elem_of_fmap in Hd as ([i p] & Heq & Hd). apply lk_delivered0 in Hd.
      apply Hna. rewrite Heq. apply list_elem_of_fmap. by exists (i, p).
    + destruct (lk_handling0 h Hh) as (? & ? & ?). split_and!; [set_solver|done|done].
  - apply NoDup_cons. split; [|done]. simpl. intros Hi. apply list_elem_of_fmap in Hi as (h & Heq & Hh).
    destruct (lk_handling0 h Hh) as (? & _). apply Hna. rewrite Heq. apply list_elem_of_fmap. by exists (hn_id h, hn_purpose h).
  - intros id p Hd%lk_delivered0. set_solver.
  - intros id Hid. destruct (lk_fate0 id Hid) as [? [?|[(h & ? & ?)|?]]]; (split; [set_solver|]); [by left|right; left|by right; right].
    exists h. set_solver.
Qed.

(** The handlers other than [h] have other ids. *)
Lemma other_handlings o a lc pre h post :
  link_inv o a lc -> ac_handling a = pre ++ h :: post ->
  NoDup (hn_id <$> pre ++ post) /\ forall h', h' ∈ pre ++ post -> hn_id h' <> hn_id h.
Proof.
  intros [] Hh. rewrite Hh, fmap_app, fmap_cons in lk_handlings0.
  rewrite <-(Permutation_middle (hn_id <$> pre)) in lk_handlings0. rewrite <-fmap_app in lk_handlings0.
  apply NoDup_cons in lk_handlings0 as [Hn Hnd]. split; [done|]. intros h' Hin Heq. apply Hn. rewrite <-Heq.
  apply list_elem_of_fmap. by exists h'.
Qed.

Lemma link_send o a lc pre h post r :
  link_inv o a lc -> ac_handling a = pre ++ h :: post -> hn_sent h = None -> link_inv o (ac_send pre post h r a) lc.
Proof.
  intros Hl Hh Hs. destruct (other_handlings _ _ _ _ _ _ Hl Hh) as [_ Hne].
  assert (forall h', h' ∈ pre ++ post -> h' ∈ ac_handling a) as Hsub by (intros h' Hin; rewrite Hh; set_solver).
  destruct Hl. destruct (lk_handling0 h) as (Hacc & Hnd & Hna); [rewrite Hh; set_solver|].
  rewrite Hs in Hna. specialize (Hna ltac:(done)).
  assert (forall id, id ∈ ac_answered a -> id ∈ (match r with Ok _ => hn_id h :: ac_answered a | Err _ => ac_answered a end)) as Hmono
    by (destruct r; set_solver).
  split; simpl; auto.
  - intros h' Hin. assert (h' = mkHandling (hn_id h) (hn_purpose h) (hn_callback h) (Some r) \/ h' ∈ pre ++ post) as [->|Hin'] by set_solver; simpl.
    + split_and!; [done|done|]. destruct r as [[]|]; [by intros []|done].
    + destruct (lk_handling0 h' (Hsub _ Hin')) as (? & ? & ?). split_and!; [done|done|]. intros Hs'.
      destruct r; [rewrite not_elem_of_cons|]; auto.
  - rewrite Hh in lk_handlings0. rewrite fmap_app, fmap_cons in *. done.
  - intros id Hid. assert (id = hn_id h /\ r = Ok tt \/ id ∈ ac_answered a) as [[-> ->]|Hold]
      by (destruct r as [[]|]; [apply elem_of_cons in Hid as [->|?]|]; auto).
    + split; [apply list_elem_of_fmap; by exists (hn_id h, hn_purpose h)|]. right. left.
      eexists. split; [apply elem_of_app; right; apply elem_of_cons; by left|done].
    + destruct (lk_fate0 id Hold) as [? [?|[(h' & Hin & Hi & Ho)|?]]]; (split; [done|]); [by left|right; left|by right; right].
      exists h'. split; [|done]. rewrite Hh in Hin. assert (h' = h \/ h' ∈ pre ++ post) as [->|?] by set_solver; [congruence|set_solver].
Qed.

Lemma link_finish o a now sent pre h post r t t' :
  link_inv o a (lifecycle (qt_activity t)) -> ac_handling a = pre ++ h :: post -> hn_sent h = Some sent ->
  incoming_datagram_finish now sent (hn_purpose h) (hn_callback h) t = (r, t') ->
  link_inv o (ac_finish pre post h r a) (lifecycle (qt_activity t')) /\ unchanged t t'.
Proof.
  intros Hl Hh Hs Hf. destruct (other_handlings _ _ _ _ _ _ Hl Hh) as [Hnd Hne].
  assert (forall h', h' ∈ pre ++ post -> h' ∈ ac_handling a) as Hsub by (intros h' Hin; rewrite Hh; set_solver).
  destruct Hl. destruct (lk_handling0 h) as (Hacc & Hndl & Hna); [rewrite Hh; set_solver|].
  assert (unchanged t t' /\ ((sent = Ok tt /\ r = Ok (hn_callback h, hn_purpose h)) \/
      ((exists e, r = Err e) /\ (lifecycle (qt_activity t') = ActRetired \/ sent <> Ok tt)))) as [Hu Hcase].
  { unfold incoming_datagram_finish in Hf. destruct sent as [[]|e].
    - destruct (promote_datagram now (qt_activity t)) as [x a'] eqn:E. simplify_eq.
      split; [by eapply promote_unchanged|]. unfold promote_datagram, promote in E. destruct (lifecycle (qt_activity t)); simplify_eq; [by left|].
      right. split; [eauto|by left].
    - simplify_eq. split; [apply abandon_open_unchanged|]. right. split; [eauto|by right]. }
  split; [|done]. pose proof (uc_retired _ _ Hu) as Hret. clear Hf Hu.
  assert (forall id p, (id, p) ∈ (match r with Ok (_, p) => (hn_id h, p) :: ac_delivered a | Err _ => ac_delivered a end) ->
            (id, p) = (hn_id h, hn_purpose h) /\ sent = Ok tt \/ (id, p) ∈ ac_delivered a) as Hdel.
  { intros id p Hin. destruct Hcase as [[-> ->]|[[e ->] _]]; [apply elem_of_cons in Hin as [?|?]|]; auto. }
  split; simpl; auto.
  - intros h' Hin. destruct (lk_handling0 h' (Hsub _ Hin)) as (? & Hnd' & ?). split_and!; [done| |done]. intros Hd.
    apply list_elem_of_fmap in Hd as ([i p] & Heq & [[[= -> ->] _]|Hd]%Hdel); [by destruct (Hne h' Hin)|]. apply Hnd'. rewrite Heq.
    apply list_elem_of_fmap. by exists (i, p).
  - intros id p [[[= -> ->] _]|Hd]%Hdel; auto.
  - destruct Hcase as [[-> ->]|[[e ->] _]]; [|done]. simpl. by apply NoDup_cons.
  - intros id Hid. destruct (lk_fate0 id Hid) as [Ha [Hd|[(h' & Hin & Hi & Ho)|Hr]]]; (split; [done|]).
    + left. destruct r as [[? ?]|]; [|done]. simpl. set_solver.
    + rewrite Hh in Hin. assert (h' = h \/ h' ∈ pre ++ post) as [->|?] by set_solver; [|right; left; by exists h'].
      rewrite Ho in Hs. simplify_eq. destruct Hcase as [[_ ->]|[_ [?|?]]]; [left; set_solver|by right; right|done].
    + right. right. auto.
Qed.

(** *** Both ends *)

Lemma set_end_eq s e (sys : ChannelSystem) : set_end s e sys s = e.
Proof. by destruct s. Qed.
Lemma set_end_other s e (sys : ChannelSystem) : set_end s e sys (negb s) = sys (negb s).
Proof. by destruct s. Qed.
Lemma set_end_other' s e (sys : ChannelSystem) : set_end (negb s) e sys s = sys s.
Proof. by destruct s. Qed.
Lemma spread_eq s ev (sys : ChannelSystem) :
  spread s ev sys s = mkEnd (en_tunnel (sys s)) (op_answer (answers_of ev) (en_op (sys s))) (en_ac (sys s)).
Proof. by destruct s. Qed.
Lemma spread_other s ev (sys : ChannelSystem) :
  spread s ev sys (negb s) = mkEnd (en_tunnel (sys (negb s))) (op_command (commands_of ev) (en_op (sys (negb s)))) (en_ac (sys (negb s))).
Proof. by destruct s. Qed.

Lemma inv_two s (sys : ChannelSystem) e n :
  sys s = e -> sys (negb s) = n ->
  own_inv (en_tunnel e) (en_op e) -> own_inv (en_tunnel n) (en_op n) ->
  link_inv (en_op e) (en_ac n) (lifecycle (qt_activity (en_tunnel n))) ->
  link_inv (en_op n) (en_ac e) (lifecycle (qt_activity (en_tunnel e))) -> channels_inv sys.
Proof. intros <- <- H1 H2 H3 H4 b. destruct s, b; simpl in *; done. Qed.

Lemma frame_no_ok t ev t' r : local_frame t ev t' -> (oneshot r, Ok tt) ∈ answers_of ev -> False.
Proof.
  intros [_ Hp _ _ _]. destruct Hp as [(_ & -> & _)|(_ & _ & e & ->)]; [set_solver|].
  intros Hin. apply list_elem_of_In, in_map_iff in Hin as (x & Heq & _). by simplify_eq.
Qed.
Lemma frame_no_resp t ev t' resp : local_frame t ev t' -> MsgOpenResp resp ∈ commands_of ev -> False.
Proof. intros Hf Hin. by apply (lf_commands _ _ _ Hf) in Hin. Qed.

(** What follows for both ends when one does something local. *)
Lemma inv_local s sys ev t' :
  channels_inv sys -> local_frame (en_tunnel (sys s)) ev t' -> channels_inv (spread s ev (set_end s (set_tunnel t' (sys s)) sys)).
Proof.
  intros Hi Hf. destruct (Hi s) as [Hw Hl]. destruct (Hi (negb s)) as [Hw' Hl']. rewrite negb_involutive in Hl'.
  eapply (inv_two s); [apply spread_eq|apply spread_other|..]; rewrite ?set_end_eq, ?set_end_other; simpl.
  - by eapply own_local.
  - by eapply own_irrel.
  - apply link_answers; [done|]. intros r _ Hr. by eapply frame_no_ok in Hr.
  - apply link_commands; [|intros id Hr; by eapply frame_no_resp in Hr]. eapply link_lc; [done|]. by apply (lf_retired _ _ _ Hf).
Qed.

(** One end changes its own side without telling the other. *)
Lemma inv_quiet s sys t' o' :
  channels_inv sys -> own_inv t' o' ->
  (lifecycle (qt_activity (en_tunnel (sys s))) = ActRetired -> lifecycle (qt_activity t') = ActRetired) ->
  link_inv o' (en_ac (sys (negb s))) (lifecycle (qt_activity (en_tunnel (sys (negb s))))) ->
  channels_inv (set_end s (set_op o' (set_tunnel t' (sys s))) sys).
Proof.
  intros Hi Ho Hr Hl. destruct (Hi (negb s)) as [Hw' Hl']. rewrite negb_involutive in Hl'.
  eapply (inv_two s); [apply set_end_eq|apply set_end_other|..]; simpl; [done|done|done|]. by eapply link_lc.
Qed.

(** The answer of an open is passed on; the other commands are local. *)
Lemma recv_body_frame now send written m t turn ev t' :
  recv_body now send written (Ok m) t = (turn, ev, t') -> (forall resp, m <> MsgOpenResp resp) -> local_frame t ev t'.
Proof.
  intros H Hm. destruct m as [p|p|resp|d]; simpl in H.
  - unfold send_command in H. destruct (quic_is_closed t); [simplify_eq; by quiet|]. destruct written; simplify_eq; by quiet.
  - simplify_eq. by quiet.
  - by destruct (Hm resp).
  - unfold control_data in H. destruct (on_data _ _ _) as [[r cev] rt].
    set (a := if (handed_over cev =? 0)%nat then _ else _) in H.
    assert (unchanged t (set_qactivity a (set_control rt t))) as Hu.
    { split; try done. simpl. intros Hr. subst a. destruct (_ =? _)%nat; [done|].
      unfold track_stream_result, track_result, acquire_work_instances. by rewrite Hr. }
    assert (local_frame t (map QControl cev) (set_qactivity a (set_control rt t))) as Hf.
    { apply unchanged_frame; [done|apply answers_of_control|by rewrite commands_of_control]. }
    destruct r; [by simplify_eq|]. destruct (close_with_error _ _) as [ev' t2] eqn:E. simplify_eq. apply close_frame in E.
    destruct Hu. destruct E as [F1 F2 F3 F4 F5]. rewrite uc_id0, ?uc_pending0, ?uc_closed0, ?uc_socket0 in *.
    split; rewrite ?answers_of_app, ?commands_of_app, ?answers_of_control, ?commands_of_control; auto.
Qed.

Lemma inv_ext (sys sys' : ChannelSystem) : (forall b, sys b = sys' b) -> channels_inv sys -> channels_inv sys'.
Proof. intros He Hi b. rewrite <-!He. apply Hi. Qed.

Lemma inv_command s sys now send written m rest turn ev t' :
  channels_inv sys -> op_commands (en_op (sys s)) = m :: rest ->
  recv_body now send written (Ok m) (record_command_recv now (en_tunnel (sys s))) = (turn, ev, t') ->
  channels_inv (spread s ev (set_end s (set_op (op_receive rest (en_op (sys s))) (set_tunnel t' (sys s))) sys)).
Proof.
  intros Hi Hc Hr. set (o := op_receive rest (en_op (sys s))). set (t0 := record_command_recv now (en_tunnel (sys s))) in *.
  destruct (Hi s) as [Hw Hl]. assert (unchanged (en_tunnel (sys s)) t0) as Hu by done.
  assert (own_inv t0 o) as Ho by (eapply own_irrel; [by eapply own_unchanged|done..]).
  assert (channels_inv (set_end s (set_op o (set_tunnel t0 (sys s))) sys)) as Hi0.
  { apply inv_quiet; [done|done|done|by eapply link_receive]. }
  assert ((forall resp, m <> MsgOpenResp resp) \/ exists resp, m = MsgOpenResp resp) as [Hm|[resp ->]] by (destruct m; eauto; by left).
  - eapply inv_ext, (inv_local s _ ev t' Hi0); [by intros b; destruct b, s|]. rewrite set_end_eq. by eapply recv_body_frame.
  - simpl in Hr. destruct (qt_pending_open_requests _ !! rs_request_id resp) as [tx|] eqn:E; simplify_eq; simpl.
    2: { eapply inv_ext, (inv_local s _ [] _ Hi0); [by intros b; destruct b, s|]. rewrite set_end_eq. by quiet. }
    destruct (own_resp t0 o _ tx (open_resp_result (rs_result resp)) Ho E) as (Ho' & -> & Hb).
    assert (channels_inv (set_end s (set_op (op_answer [(oneshot (rs_request_id resp), open_resp_result (rs_result resp))] o)
              (set_tunnel (set_requests (delete (rs_request_id resp)) t0) (sys s))) sys)) as Hi1.
    { apply inv_quiet; [done|done|done|]. apply link_answers; [by eapply link_receive|]. intros r Hr Hin.
      apply list_elem_of_singleton in Hin. injection Hin as Heq Hok.
      apply (own_oneshot_inj t0 o) in Heq as ->; [|done|done|done].
      apply (lk_command _ _ _ Hl). rewrite Hc. apply elem_of_cons. left. unfold open_resp_result in Hok.
      destruct (bool_decide (rs_result resp = ResSuccess)) eqn:Hs; [|done]. apply bool_decide_eq_true_1 in Hs.
      destruct resp as [i res]. simpl in *. by subst. }
    eapply inv_ext, (inv_local s _ [] _ Hi1).
    2: { rewrite set_end_eq. apply unchanged_frame; [|done|done]. by split. }
    intros b. destruct b, s; simpl; unfold answer_end, command_end, op_answer, op_command; simpl; by rewrite ?app_nil_r.
Qed.

Record removed (id : Z) (t t' : QuicTunnel) : Prop := {
  rm_pending : qt_pending_open_requests t' = delete id (qt_pending_open_requests t);
  rm_id : qt_next_request_id t' = qt_next_request_id t;
  rm_closed : qt_closed t' = qt_closed t;
  rm_socket : qt_socket_closed t' = qt_socket_closed t;
  rm_activity : qt_activity t' = qt_activity t;
}.

Lemma wake_shape now id w t r ev t' :
  open_datagram_end now id w t = (r, ev, t') -> (forall v, w = WokenBy v -> qt_pending_open_requests t !! id = None) ->
  exists t1, removed id t t1 /\ local_frame t1 ev t' /\ (r = Ok tt -> w = WokenBy (Ok tt)).
Proof.
  intros H Hn. unfold open_datagram_end in H. destruct w as [[[]|e]| |]; simpl in H.
  - exists (set_requests (delete id) t). destruct (promote_datagram _ _) as [x a] eqn:E. simplify_eq. split_and!; [done| |done].
    quiet. apply (promote_unchanged _ _ (set_requests (delete id) t) _ _ E).
  - exists t. simplify_eq. split_and!; [|quiet; apply abandon_open_unchanged|done].
    split; try done. rewrite delete_id; [done|]. by eapply Hn.
  - exists (set_requests (delete id) t). simplify_eq. split_and!; [done|quiet; apply abandon_open_unchanged|done].
  - exists (set_requests (delete id) t). destruct (close_with_error _ _) as [ev' t2] eqn:E. simplify_eq. split_and!; [done| |done].
    eapply local_frame_then; [by eapply close_frame|apply abandon_open_unchanged].
Qed.

Lemma inv_wake s sys now id o w r ev t' :
  channels_inv sys -> op_opens (en_op (sys s)) !! id = Some o -> may_wake id w (sys s) ->
  open_datagram_end now id w (en_tunnel (sys s)) = (r, ev, t') ->
  channels_inv (spread s ev (set_end s (set_op (op_return id r (en_op (sys s))) (set_tunnel t' (sys s))) sys)).
Proof.
  intros Hi Ho Hm He. destruct (Hi s) as [Hw Hl].
  assert (forall v, w = WokenBy v -> qt_pending_open_requests (en_tunnel (sys s)) !! id = None) as Hnone.
  { intros v ->. simpl in Hm. destruct (ow_waits _ _ Hw _ _ Ho) as [[_ Hn]|[? _]]; [|done]. destruct Hn.
    apply list_elem_of_fmap. by exists (oneshot id, v). }
  destruct (wake_shape _ _ _ _ _ _ _ He Hnone) as (t1 & [R1 R2 R3 R4 R5] & Hf & Hok).
  assert (channels_inv (set_end s (set_op (op_return id r (en_op (sys s))) (set_tunnel t1 (sys s))) sys)) as Hi1.
  { apply inv_quiet; [done|by eapply own_return|by rewrite R5|]. apply link_return; [done|]. intros Hr.
    rewrite (Hok Hr) in Hm. simpl in Hm. apply (lk_answer _ _ _ Hl); [|done]. eapply own_open_begun; eauto. }
  eapply inv_ext, (inv_local s _ ev t' Hi1); [by intros b; destruct b, s|]. by rewrite set_end_eq.
Qed.

(** Both sides of taking a request off its stream. *)
Lemma inv_incoming s sys ev a' t' o' :
  channels_inv sys -> local_frame (en_tunnel (sys s)) ev t' ->
  own_inv (en_tunnel (sys (negb s))) o' -> link_inv o' a' (lifecycle (qt_activity t')) ->
  channels_inv (spread s ev (set_end s (set_ac a' (set_tunnel t' (sys s))) (set_end (negb s) (set_op o' (sys (negb s))) sys))).
Proof.
  intros Hi Hf Ho Hl'. destruct (Hi s) as [Hw Hl].
  eapply (inv_two s); [apply spread_eq|apply spread_other|..]; rewrite ?set_end_eq, ?set_end_other, ?set_end_eq; simpl.
  - by eapply own_local.
  - by eapply own_irrel.
  - apply link_answers; [done|]. intros r _ Hr. by eapply frame_no_ok in Hr.
  - apply link_commands; [done|]. intros id Hr. by eapply frame_no_resp in Hr.
Qed.

Lemma incoming_decide_request now listening k req t d ev t' :
  incoming_decide now listening k (Ok req) t = (d, ev, t') ->
  match d with
  | IncomingAccepted id purpose callback =>
      id = rq_request_id req /\ purpose = rq_purpose req /\ rq_kind req = k /\ current_callback k t = Some callback /\
      exists vports, listen_vports k t = Some vports /\ listening vports purpose = true
  | IncomingRefused id result _ => id = rq_request_id req /\ result <> ResSuccess
  | IncomingUnread _ => False
  end.
Proof.
  unfold incoming_decide. intros H. destruct (negb (bool_decide (rq_kind req = k))) eqn:Ek.
  { rewrite bool_decide_false in H by done. simpl in H. by simplify_eq. }
  apply negb_false_iff, bool_decide_eq_true_1 in Ek.
  destruct (bool_decide (incoming_open_result listening (rq_kind req) (rq_purpose req) t = ResSuccess)) eqn:Er; simpl in H.
  2: { simplify_eq. split; [done|]. by apply bool_decide_eq_false_1 in Er. }
  apply bool_decide_eq_true_1 in Er. unfold incoming_open_result in Er. subst k.
  destruct (listen_vports (rq_kind req) t) as [v|] eqn:Ev; [|done]. destruct (negb (listening v (rq_purpose req))) eqn:El; [done|].
  destruct (quic_is_closed t); [by simplify_eq|]. destruct (current_callback (rq_kind req) t) eqn:Ec; [|by simplify_eq].
  destruct (begin_pending _ _) as [[x|x] a]; simplify_eq; [|done]. split_and!; try done. exists v. split; [done|]. by apply negb_false_iff.
Qed.

Lemma send_command_events written m t r ev :
  send_command written m t = (r, ev) -> answers_of ev = [] /\ (forall m', m' ∈ commands_of ev -> m' = m /\ r = Ok tt).
Proof.
  unfold send_command. destruct (quic_is_closed t); [intros [= <- <-]; split; [done|set_solver]|].
  destruct written as [[]|]; intros [= <- <-]; (split; [done|]); [|set_solver]. intros m' Hm. by apply list_elem_of_singleton in Hm.
Qed.

Lemma inv_answered s sys h pre post written r ev :
  channels_inv sys -> ac_handling (en_ac (sys s)) = pre ++ h :: post -> hn_sent h = None ->
  send_command written (MsgOpenResp (mkChannelResp (hn_id h) ResSuccess)) (en_tunnel (sys s)) = (r, ev) ->
  channels_inv (spread s ev (set_end s (set_ac (ac_send pre post h r (en_ac (sys s))) (sys s)) sys)).
Proof.
  intros Hi Hh Hs He. destruct (Hi s) as [Hw Hl]. destruct (Hi (negb s)) as [Hw' Hl']. rewrite negb_involutive in Hl'.
  destruct (send_command_events _ _ _ _ _ He) as [Ha Hc].
  eapply (inv_two s); [apply spread_eq|apply spread_other|..]; rewrite ?set_end_eq, ?set_end_other; simpl.
  - eapply own_irrel; [done|done|done| |done]. simpl. by rewrite Ha, app_nil_r.
  - by eapply own_irrel.
  - apply link_answers; [done|]. rewrite Ha. set_solver.
  - apply link_commands; [by apply link_send|]. intros id Hid. destruct (Hc _ Hid) as [[= ->] ->]. simpl. set_solver.
Qed.

Lemma inv_finished s sys now h sent pre post r t' :
  channels_inv sys -> ac_handling (en_ac (sys s)) = pre ++ h :: post -> hn_sent h = Some sent ->
  incoming_datagram_finish now sent (hn_purpose h) (hn_callback h) (en_tunnel (sys s)) = (r, t') ->
  channels_inv (set_end s (set_ac (ac_finish pre post h r (en_ac (sys s))) (set_tunnel t' (sys s))) sys).
Proof.
  intros Hi Hh Hs Hf. destruct (Hi s) as [Hw Hl]. destruct (Hi (negb s)) as [Hw' Hl']. rewrite negb_involutive in Hl'.
  destruct (link_finish _ _ _ _ _ _ _ _ _ _ Hl' Hh Hs Hf) as [Hl2 Hu].
  eapply (inv_two s); [apply set_end_eq|apply set_end_other|..]; simpl; [by eapply own_unchanged|done..].
Qed.

Lemma inv_refused s sys now listening req id result code ev t' written r ev' pre post :
  channels_inv sys -> op_unis (en_op (sys (negb s))) = pre ++ req :: post ->
  incoming_decide now listening ChanDatagram (Ok req) (en_tunnel (sys s)) = (IncomingRefused id result code, ev, t') ->
  send_command written (MsgOpenResp (mkChannelResp id result)) t' = (r, ev') ->
  channels_inv (spread s (ev ++ ev') (set_end s (set_tunnel t' (sys s))
    (set_end (negb s) (set_op (op_uni (pre ++ post) (en_op (sys (negb s)))) (sys (negb s))) sys))).
Proof.
  intros Hi Hu Hd He. destruct (Hi (negb s)) as [Hw' Hl']. rewrite negb_involutive in Hl'.
  destruct (link_uni_removed _ _ _ _ _ _ Hl' Hu) as [Hl2 _]. destruct (send_command_events _ _ _ _ _ He) as [Ha Hc].
  apply incoming_decide_request in Hd as Hreq. destruct Hreq as [_ Hres]. apply incoming_decide_frame in Hd as Hf.
  pose proof (inv_incoming s sys ev (en_ac (sys s)) t' (op_uni (pre ++ post) (en_op (sys (negb s)))) Hi Hf) as Hi1.
  assert (link_inv (op_uni (pre ++ post) (en_op (sys (negb s)))) (en_ac (sys s)) (lifecycle (qt_activity t'))) as Hl3
    by (eapply link_lc; [done|]; apply (lf_retired _ _ _ Hf)).
  specialize (Hi1 ltac:(by eapply own_irrel) Hl3). destruct (Hi1 s) as [W1 L1]. destruct (Hi1 (negb s)) as [W2 L2].
  rewrite negb_involutive in L2. rewrite ?spread_eq, ?spread_other, ?set_end_eq, ?set_end_other, ?set_end_eq in *. simpl in *.
  eapply (inv_two s); [apply spread_eq|apply spread_other|..]; rewrite ?set_end_eq, ?set_end_other, ?set_end_eq; simpl;
    rewrite ?answers_of_app, ?commands_of_app, ?Ha, ?app_nil_r.
  - done.
  - by eapply own_irrel.
  - done.
  - replace (op_command (commands_of ev ++ commands_of ev') _) with (op_command (commands_of ev') (op_command (commands_of ev)
      (op_uni (pre ++ post) (en_op (sys (negb s)))))) by (unfold op_command; simpl; by rewrite app_assoc).
    apply link_commands; [done|]. intros i Hin. destruct (Hc _ Hin) as [[= -> Heq] _]. by destruct Hres.
Qed.

Lemma channel_step_inv sys sys' : channel_step sys sys' -> channels_inv sys -> channels_inv sys'.
Proof.
  destruct 1 as [s ev t' sys H|s now p t' sys H|s now e p r t' pre post sys Hs H|s now sent p req t' pre post sys Hs Hid Hsent H
    |s id o sys Ho Hs|s now id o e sys Ho Hwt|s now id o w r ev t' sys Ho Hwt Hm H|s now send wr m rest turn ev t' sys Hc H
    |s now l req e d ev t' pre post sys Hu H|s now l req id result code ev t' wr r ev' pre post sys Hu H Hsend
    |s now l req id p cb ev t' pre post sys Hu H|s h pre post wr r ev sys Hh Hs H|s now h sent pre post r t' sys Hh Hs H];
    intros Hi; destruct (Hi s) as [Hw Hl]; destruct (Hi (negb s)) as [Hw' Hl']; rewrite negb_involutive in Hl'.
  - apply inv_local; [done|]. by apply local_step_frame.
  - apply open_channel_start_unchanged in H. apply inv_quiet; [done| |apply (uc_retired _ _ H)|by apply link_started].
    apply (own_irrel _ (en_op (sys s))); [exact (own_unchanged _ _ _ Hw H)|done..].
  - unfold open_datagram_request in H. simplify_eq. apply inv_quiet; [done| |done|by apply link_started].
    apply (own_irrel _ (en_op (sys s))); [exact (own_unchanged _ _ _ Hw (abandon_open_unchanged _ _))|done..].
  - assert (own_inv (en_tunnel (sys s)) (op_start (pre ++ post) (en_op (sys s)))) as Hw0
      by (by apply (own_irrel _ (en_op (sys s)))).
    destruct (own_request _ _ _ _ _ _ _ Hw0 Hid Hsent H) as (Hw2 & Hr & Hb).
    apply inv_quiet; [done|done|by injection H as <- <-|]. rewrite Hr. apply link_request; [by apply link_started|done|].
    intros (r & Hr' & Hbr)%(ow_named _ _ Hw). apply (ow_begun _ _ Hw) in Hbr. unfold oneshot in Hr'. lia.
  - eapply (inv_ext (set_end s (set_op (op_written id (en_op (sys s))) (set_tunnel (en_tunnel (sys s)) (sys s))) sys)); [done|].
    apply inv_quiet; [done|by eapply own_written|done|by apply link_written].
  - apply inv_quiet; [done| |done|by apply link_return]. by eapply own_return.
  - by eapply inv_wake.
  - by eapply inv_command.
  - destruct (link_uni_removed _ _ _ _ _ _ Hl' Hu) as [Hl2 _]. apply incoming_decide_frame in H.
    eapply inv_ext, (inv_incoming s sys ev (en_ac (sys s)) t'); [by intros b; destruct b, s|done|done|by apply (own_irrel _ (en_op (sys (negb s))))|].
    eapply link_lc; [done|]. apply (lf_retired _ _ _ H).
  - by eapply inv_refused.
  - apply incoming_decide_frame in H as Hf. apply incoming_decide_request in H as (-> & -> & _).
    apply inv_incoming; [done|done|by apply (own_irrel _ (en_op (sys (negb s))))|]. eapply link_accept; [done|done|]. apply (lf_retired _ _ _ Hf).
  - by eapply inv_answered.
  - by eapply inv_finished.
Qed.

Definition channels_new (now id candidate : Z) (reverse : bool) (who : bool -> P2pId) (at_ : bool -> Endpoint) : ChannelSystem :=
  let new (b : bool) := end_new (new_inner now id candidate (if b then FormActive else FormPassive) reverse (who b) (who (negb b)) (at_ b) (at_ (negb b))) in
  mkSystem (new true) (new false).

Lemma channels_reachable now id candidate reverse who at_ sys :
  rtc channel_step (channels_new now id candidate reverse who at_) sys -> channels_inv sys.
Proof.
  intros H. cut (channels_inv (channels_new now id candidate reverse who at_)).
  { induction H as [|x y z Hxy _ IH]; intros Hi; [done|]. by apply IH, (channel_step_inv x). }
  intros b. destruct b; split; split; simpl; try done; try (unfold u64_max; lia); try (by apply NoDup_nil_2);
    intros *; rewrite ?lookup_empty; try (by intros [? ?]); try set_solver.
Qed.

(** C15: Datagram channels are matched: in whatever order the two ends of a QUIC
    connection open, accept, answer, time out and close, an [open_datagram] that
    succeeded names a request that the other end accepted for the same purpose.
    That end has called its callback for it, exactly once, or its handler is just
    about to, or its tunnel is retired. *)
Theorem quic_channels_matched now id candidate reverse who at_ sys s r :
  rtc channel_step (channels_new now id candidate reverse who at_) sys ->
  (r, Ok tt) ∈ op_done (en_op (sys s)) ->
  let other := sys (negb s) in
  exists purpose, op_begun (en_op (sys s)) !! r = Some purpose /\ (r, purpose) ∈ ac_accepted (en_ac other) /\
    NoDup (ac_delivered (en_ac other)).*1 /\
    ((r, purpose) ∈ ac_delivered (en_ac other) \/
     (exists h, h ∈ ac_handling (en_ac other) /\ hn_id h = r /\ hn_purpose h = purpose /\ hn_sent h = Some (Ok tt)) \/
     lifecycle (qt_activity (en_tunnel other)) = ActRetired).
Proof.
  intros Hi%channels_reachable Hd other. destruct (Hi s) as [_ Hl]. fold other in Hl.
  destruct (lk_fate _ _ _ Hl r (lk_done _ _ _ Hl r Hd)) as [Ha Hf].
  apply list_elem_of_fmap in Ha as ([r' p] & Hr & Ha). simpl in Hr. subst r'.
  pose proof (lk_accepted _ _ _ Hl _ _ Ha) as Hb. exists p. split_and!; [done|done|apply (lk_delivered_once _ _ _ Hl)|].
  destruct Hf as [Hf|[(h & Hh & <- & Hs)|?]]; [left|right; left|by right; right].
  - apply list_elem_of_fmap in Hf as ([r' p'] & Hr & Hf). simpl in Hr. subst r'.
    apply (lk_delivered _ _ _ Hl) in Hf as Hf'. apply (lk_accepted _ _ _ Hl) in Hf'. congruence.
  - exists h. split_and!; try done. destruct (lk_handling _ _ _ Hl h Hh) as [Hh' _]. apply (lk_accepted _ _ _ Hl) in Hh'. congruence.
Qed.

(** C16: No opener of a datagram channel is lost: a call that waits has its
    oneshot entered in the tunnel, which is not closed, or its oneshot was
    answered, exactly once; closing the tunnel answers every waiting call.  The
    oneshot is never dropped unanswered, and no call returns twice. *)
Theorem quic_opens_settled now id candidate reverse who at_ sys s r o :
  rtc channel_step (channels_new now id candidate reverse who at_) sys ->
  op_opens (en_op (sys s)) !! r = Some o -> do_waiting o = true ->
  let e := sys s in
  ((qt_pending_open_requests (en_tunnel e) !! r = Some (oneshot r) /\ qt_closed (en_tunnel e) = false /\
    oneshot r ∉ (op_answers (en_op e)).*1) \/
   (qt_pending_open_requests (en_tunnel e) !! r = None /\
    exists v, (oneshot r, v) ∈ op_answers (en_op e) /\ (forall v', (oneshot r, v') ∈ op_answers (en_op e) -> v' = v))) /\
  ~ may_wake r Canceled e /\ NoDup (op_done (en_op e)).*1 /\ r ∉ (op_done (en_op e)).*1.
Proof.
  intros Hi%channels_reachable Ho Hw e. destruct (Hi s) as [Hown _]. fold e in Hown, Ho.
  split; [|split_and!].
  - destruct (ow_waits _ _ Hown _ _ Ho) as [[Hp Hn]|[Hp Ha]]; [left|right].
    + split_and!; [done| |done]. apply not_true_is_false. intros Hc. pose proof (ow_drained _ _ Hown _ _ _ Hc Hp Ho) as Hs.
      destruct (ow_opens _ _ Hown _ _ Ho) as [_ Hsent]. rewrite (Hsent Hw) in Hs. done.
    + split; [done|]. apply list_elem_of_fmap in Ha as ([n v] & Hn & Ha). simpl in Hn. subst n. exists v. split; [done|].
      intros v' Ha'. eapply NoDup_fst_inj; [apply (ow_answers _ _ Hown)|done|done].
  - simpl. intros [Hn Ha]. destruct (ow_waits _ _ Hown _ _ Ho) as [[? _]|[_ ?]]; [congruence|done].
  - apply (ow_once _ _ Hown).
  - intros Hd%(ow_done _ _ Hown). destruct Hd. congruence.
Qed.
End system.

Module ChannelDemo.
#[local] Existing Instance items.
#[local] Existing Instance frame_codec.
Definition who (b : bool) : P2pId := if b then QuicDemo.alice else QuicDemo.bob.
Definition at_ (b : bool) : Endpoint := QuicDemo.port (if b then 1 else 2).
Definition start : @ChannelSystem items := channels_new 0 5 6 false who at_.
Notation step := (@channel_step items frame_codec).
Definition listening (v : nat) (p : list Z) : bool := true.

(** Bob listens, Alice opens a datagram channel, Bob accepts it: the states, each
    computed from the one before. *)
Definition bob_listens : ChannelSystem :=
  Eval vm_compute in set_end false (set_tunnel (snd (quic_listen_datagram 0 0 (en_tunnel (start false)))) (start false)) start.
Definition alice_opens : ChannelSystem :=
  Eval vm_compute in
  let e := bob_listens true in
  let t := snd (open_datagram_request 1 (Ok tt) 1 [42] (snd (open_channel_start 1 (en_tunnel e)))) in
  set_end true (set_op (op_written 1 (op_request 1 [42] true (en_op e))) (set_tunnel t e)) bob_listens.
Definition bob_accepts : ChannelSystem :=
  Eval vm_compute in
  let e := alice_opens false in
  let t := snd (incoming_decide 2 listening ChanDatagram (Ok (mkChannelReq 1 ChanDatagram [42])) (en_tunnel e)) in
  set_end false (set_ac (ac_accept 1 [42] 0 (en_ac e)) (set_tunnel t e))
    (set_end true (set_op (op_uni [] (en_op (alice_opens true))) (alice_opens true)) alice_opens).
Definition bob_answers : ChannelSystem :=
  Eval vm_compute in
  let h := mkHandling 1 [42] 0 None in
  spread false [QCommand (MsgOpenResp (mkChannelResp 1 ResSuccess))]
    (set_end false (set_ac (ac_send [] [] h (Ok tt) (en_ac (bob_accepts false))) (bob_accepts false)) bob_accepts).
Definition alice_hears : ChannelSystem :=
  Eval vm_compute in
  let e := bob_answers true in
  let t := snd (recv_body 3 always (Ok tt) (Ok (MsgOpenResp (mkChannelResp 1 ResSuccess))) (record_command_recv 3 (en_tunnel e))) in
  spread true [QAnswer 1 (Ok tt)] (set_end true (set_op (op_receive [] (en_op e)) (set_tunnel t e)) bob_answers).
Definition alice_returns : ChannelSystem :=
  Eval vm_compute in
  let e := alice_hears true in
  let t := snd (open_datagram_end 4 1 (WokenBy (Ok tt)) (en_tunnel e)) in
  set_end true (set_op (op_return 1 (Ok tt) (en_op e)) (set_tunnel t e)) alice_hears.

Lemma step_to sys sys1 sys2 : step sys sys1 -> sys1 = sys2 -> step sys sys2.
Proof. by intros ? <-. Qed.

Lemma waiting_reachable : rtc step start alice_opens.
Proof.
  eapply (rtc_l _ _ bob_listens).
  { eapply step_to; [eapply (SY_local false), (LS_listen_datagram 0 0); reflexivity|reflexivity]. }
  eapply rtc_l; [eapply (SY_start true 1 [42]); reflexivity|].
  eapply rtc_l; [eapply (SY_request true 1 true [42] _ _ [] []);
    [reflexivity|change (0 <= 1 < u64_max); unfold u64_max; lia|reflexivity|reflexivity]|].
  eapply rtc_l; [eapply step_to; [eapply (SY_written true 1); reflexivity|reflexivity]|]. apply rtc_refl.
Qed.
Lemma opened_reachable : rtc step start alice_returns.
Proof.
  etrans; [apply waiting_reachable|].
  eapply (rtc_l _ _ bob_accepts).
  { eapply step_to; [eapply (SY_accepted false 2 listening (mkChannelReq 1 ChanDatagram [42]) 1 [42] 0 [] _ [] []); reflexivity|reflexivity]. }
  eapply (rtc_l _ _ bob_answers).
  { eapply step_to; [eapply (SY_answered false (mkHandling 1 [42] 0 None) [] [] (Ok tt)); reflexivity|reflexivity]. }
  eapply (rtc_l _ _ alice_hears).
  { eapply step_to; [eapply (SY_command true 3 always (Ok tt) (MsgOpenResp (mkChannelResp 1 ResSuccess))); reflexivity|reflexivity]. }
  eapply (rtc_l _ _ alice_returns); [|apply rtc_refl].
  eapply step_to; [eapply (SY_wake true 4 1 _ (WokenBy (Ok tt))); [reflexivity|reflexivity| |reflexivity]|reflexivity].
  by apply list_elem_of_singleton.
Qed.

Lemma quic_channels_matched_witness : exists purpose, (1, purpose) ∈ ac_accepted (en_ac (alice_returns false)).
Proof.
  destruct (quic_channels_matched 0 5 6 false who at_ alice_returns true 1 opened_reachable) as (p & _ & Ha & _).
  - apply elem_of_cons. by left.
  - by exists p.
Defined.
Lemma quic_opens_settled_witness : ~ may_wake 1 Canceled (alice_opens true).
Proof.
  apply (quic_opens_settled 0 5 6 false who at_ alice_opens true 1 (mkOpen [42] true true) waiting_reachable); reflexivity.
Defined.
End ChannelDemo.
