(* ===== verification/Async.v ===== *)
(** * Futures that can be dropped

    What the tunnel manager uses of Rust's [async]: code between two [await]s
    runs without interruption, a future can be dropped while it waits, and the
    guards it holds then run their [Drop].  A future is a tree of what it does
    next; [fstep] runs it, [held] lists the guards it holds, [drop_fut] is what
    dropping it does.  [tokio::select!] is [Race], [runtime::timeout] is
    [Timeout] (the moment is not determined), [Executor::spawn] is [Spawn].
    [ok] is a logic for such programs against assertions that other tasks
    cannot invalidate, and [pool_inv] its soundness: however tasks are started,
    interleaved, dropped and disturbed, every guard's promise is kept. *)

From S2P Require Import Prelude.

(** Which of two futures of a [select!] finished, and the other one too when it
    was awaited afterwards. *)
Inductive finish (B C : Type) : Type :=
| First (b : B)
| Second (c : C)
| FirstThen (b : B) (c : C)
| SecondThen (c : C) (b : B).
Arguments First {B C}. Arguments Second {B C}. Arguments FirstThen {B C}. Arguments SecondThen {B C}.

Section syntax.
(** The shared state, what is awaited with the type of its answer, the guards
    and the ways to let go of one. *)
Context (W : Type) (Ask : Type -> Type) (G R : Type).

Inductive fut (A : Type) : Type :=
| Ret (a : A)
(** code without an await; [None] when it cannot run (a panic) *)
| Sync {B : Type} (f : W -> option (B * W)) (k : B -> fut A)
| Await {B : Type} (q : Ask B) (k : B -> fut A)
| Bind {B : Type} (x : fut B) (k : B -> fut A)
| Timeout {B : Type} (x : fut B) (k : option B -> fut A)
(** when the first one finished, [wait_y] and [wait_x] tell whether the other is
    awaited as well or dropped *)
| Race {B C : Type} (x : fut B) (y : fut C) (wait_y : B -> bool) (wait_x : C -> bool) (k : finish B C -> fut A)
(** code that ends with a result, or with a guard for the scope [body] *)
| Enter {B : Type} (f : W -> option ((B + G) * W)) (body : G -> fut (R * B)) (k : B -> fut A)
| Held {B : Type} (g : G) (body : fut (R * B)) (k : B -> fut A)
| Spawn (child : fut unit) (k : fut A)
(** code that spawns a task which holds a guard *)
| Fork {B : Type} (f : W -> option (B * option G * W)) (child : G -> fut (R * unit)) (k : B -> fut A).
End syntax.
Arguments Ret {W Ask G R A}. Arguments Sync {W Ask G R A B}. Arguments Await {W Ask G R A B}.
Arguments Bind {W Ask G R A B}. Arguments Timeout {W Ask G R A B}. Arguments Race {W Ask G R A B C}.
Arguments Enter {W Ask G R A B}. Arguments Held {W Ask G R A B}. Arguments Spawn {W Ask G R A}.
Arguments Fork {W Ask G R A B}.

(** What the program supplies: letting go of guards, who may answer what; and
    for proofs the invariant over all guards held, the order in which the state
    evolves and when a guard may be let go of. *)
Class Runtime (W : Type) (Ask : Type -> Type) (G R : Type) := {
  release : R -> G -> W -> W;
  dropped : R;
  answers : forall {B}, Ask B -> B -> W -> Prop }.

Class Discipline (W : Type) (Ask : Type -> Type) (G R : Type) `{!Runtime W Ask G R} := {
  inv : list G -> W -> Prop;
  evolves : W -> W -> Prop;
  may_release : R -> G -> W -> Prop }.

Infix "≼" := evolves (at level 70) : async_scope.
Open Scope async_scope.

Class DisciplineLaws (W : Type) (Ask : Type -> Type) (G R : Type) `{Discipline W Ask G R} : Prop := {
  evolves_preorder :: PreOrder evolves;
  inv_perm :: Proper ((≡ₚ) ==> eq ==> iff) inv;
  may_release_evolves : forall r g w w', w ≼ w' -> may_release r g w -> may_release r g w';
  release_inv : forall r g gs w, inv (g :: gs) w -> may_release r g w ->
    inv gs (release r g w) /\ w ≼ release r g w }.

Section semantics.
Context {W : Type} {Ask : Type -> Type} {G R : Type} `{Hrt : !Runtime W Ask G R}.
Notation fut := (fut W Ask G R).

Fixpoint held {A} (f : fut A) : list G :=
  match f with
  | Bind x _ | Timeout x _ => held x
  | Race x y _ _ _ => held x ++ held y
  | Held g body _ => g :: held body
  | _ => []
  end.

Fixpoint drop_fut {A} (f : fut A) (w : W) : W :=
  match f with
  | Bind x _ | Timeout x _ => drop_fut x w
  | Race x y _ _ _ => drop_fut x (drop_fut y w)
  | Held g body _ => release dropped g (drop_fut body w)
  | _ => w
  end.

(** One step of a future, with the tasks it spawns. *)
Inductive fstep : forall {A}, fut A -> W -> fut A -> W -> list (fut unit) -> Prop :=
| fs_sync A B f (k : B -> fut A) w b w' : f w = Some (b, w') -> fstep (Sync f k) w (k b) w' []
| fs_await A B (q : Ask B) (k : B -> fut A) b w : answers q b w -> fstep (Await q k) w (k b) w []
| fs_bind A B (x : fut B) (k : B -> fut A) w x' w' sp :
    fstep x w x' w' sp -> fstep (Bind x k) w (Bind x' k) w' sp
| fs_bind_ret A B b (k : B -> fut A) w : fstep (Bind (Ret b) k) w (k b) w []
| fs_timeout A B (x : fut B) (k : option B -> fut A) w x' w' sp :
    fstep x w x' w' sp -> fstep (Timeout x k) w (Timeout x' k) w' sp
| fs_timeout_ret A B b (k : option B -> fut A) w : fstep (Timeout (Ret b) k) w (k (Some b)) w []
| fs_timeout_elapsed A B (x : fut B) (k : option B -> fut A) w : fstep (Timeout x k) w (k None) (drop_fut x w) []
| fs_race_x A B C (x : fut B) (y : fut C) wy wx (k : finish B C -> fut A) w x' w' sp :
    fstep x w x' w' sp -> fstep (Race x y wy wx k) w (Race x' y wy wx k) w' sp
| fs_race_y A B C (x : fut B) (y : fut C) wy wx (k : finish B C -> fut A) w y' w' sp :
    fstep y w y' w' sp -> fstep (Race x y wy wx k) w (Race x y' wy wx k) w' sp
| fs_race_first A B C b (y : fut C) wy wx (k : finish B C -> fut A) w :
    wy b = false -> fstep (Race (Ret b) y wy wx k) w (k (First b)) (drop_fut y w) []
| fs_race_first_then A B C b (y : fut C) wy wx (k : finish B C -> fut A) w :
    wy b = true -> fstep (Race (Ret b) y wy wx k) w (Bind y (fun c => k (FirstThen b c))) w []
| fs_race_second A B C (x : fut B) c wy wx (k : finish B C -> fut A) w :
    wx c = false -> fstep (Race x (Ret c) wy wx k) w (k (Second c)) (drop_fut x w) []
| fs_race_second_then A B C (x : fut B) c wy wx (k : finish B C -> fut A) w :
    wx c = true -> fstep (Race x (Ret c) wy wx k) w (Bind x (fun b => k (SecondThen c b))) w []
| fs_enter_result A B f body (k : B -> fut A) w b w' :
    f w = Some (inl b, w') -> fstep (Enter f body k) w (k b) w' []
| fs_enter A B f body (k : B -> fut A) w g w' :
    f w = Some (inr g, w') -> fstep (Enter f body k) w (Held g (body g) k) w' []
| fs_held A B g body (k : B -> fut A) w body' w' sp :
    fstep body w body' w' sp -> fstep (Held g body k) w (Held g body' k) w' sp
| fs_held_ret A B g r b (k : B -> fut A) w : fstep (Held g (Ret (r, b)) k) w (k b) (release r g w) []
| fs_spawn A child (k : fut A) w : fstep (Spawn child k) w k w [child]
| fs_fork_none A B f child (k : B -> fut A) w b w' :
    f w = Some (b, None, w') -> fstep (Fork f child k) w (k b) w' []
| fs_fork A B f child (k : B -> fut A) w b g w' :
    f w = Some (b, Some g, w') -> fstep (Fork f child k) w (k b) w' [Held g (child g) Ret].
End semantics.

(** ** The logic *)

Section logic.
Context {W : Type} {Ask : Type -> Type} {G R : Type}
  `{Hrt : !Runtime W Ask G R, Hd : !Discipline W Ask G R, Hlaws : !DisciplineLaws W Ask G R}.
Notation fut := (fut W Ask G R).
Implicit Types (w : W) (g : G) (gs : list G).

(** A guard that may be dropped at any moment. *)
Definition free g : Prop := forall w, may_release dropped g w.

(** [ok f Q w]: run from [w] or any later state, together with anything that
    respects the invariant, [f] respects it too and ends with [Q].  Code that
    has not started holds no guards. *)
Fixpoint ok {A} (f : fut A) (Q : A -> W -> Prop) (w : W) {struct f} : Prop :=
  match f with
  | Ret a => forall w', w ≼ w' -> Q a w'
  | Sync f k => forall gs w' b w'', w ≼ w' -> inv gs w' -> f w' = Some (b, w'') ->
      inv gs w'' /\ w' ≼ w'' /\ held (k b) = [] /\ ok (k b) Q w''
  | Await q k => forall gs w' b, w ≼ w' -> inv gs w' -> answers q b w' -> held (k b) = [] /\ ok (k b) Q w'
  | Bind x k => ok x (fun b w => held (k b) = [] /\ ok (k b) Q w) w
  | Timeout x k =>
      Forall free (held x) /\
      ok x (fun b w => held (k (Some b)) = [] /\ ok (k (Some b)) Q w) w /\
      forall w', w ≼ w' -> held (k None) = [] /\ ok (k None) Q w'
  | Race x y wy wx k =>
      Forall free (held x) /\ Forall free (held y) /\ exists P P',
        ok x P w /\ ok y P' w /\
        (forall b w', w ≼ w' -> P b w' ->
           if wy b then forall c w'', w' ≼ w'' -> P' c w'' -> held (k (FirstThen b c)) = [] /\ ok (k (FirstThen b c)) Q w''
           else held (k (First b)) = [] /\ ok (k (First b)) Q w') /\
        (forall c w', w ≼ w' -> P' c w' ->
           if wx c then forall b w'', w' ≼ w'' -> P b w'' -> held (k (SecondThen c b)) = [] /\ ok (k (SecondThen c b)) Q w''
           else held (k (Second c)) = [] /\ ok (k (Second c)) Q w')
  | Enter f body k => forall gs w' w'', w ≼ w' -> inv gs w' ->
      (forall b, f w' = Some (inl b, w'') -> inv gs w'' /\ w' ≼ w'' /\ held (k b) = [] /\ ok (k b) Q w'') /\
      (forall g, f w' = Some (inr g, w'') ->
         inv (g :: gs) w'' /\ w' ≼ w'' /\ free g /\ held (body g) = [] /\
         ok (body g) (fun rb w => may_release (fst rb) g w /\ held (k (snd rb)) = [] /\ ok (k (snd rb)) Q w) w'')
  | Held g body k =>
      ok body (fun rb w => may_release (fst rb) g w /\ held (k (snd rb)) = [] /\ ok (k (snd rb)) Q w) w
  | Spawn child k =>
      held child = [] /\ ok child (fun _ _ => True) w /\ held k = [] /\ ok k Q w
  | Fork f child k => forall gs w' b og w'', w ≼ w' -> inv gs w' -> f w' = Some (b, og, w'') ->
      inv (option_list og ++ gs) w'' /\ w' ≼ w'' /\ held (k b) = [] /\ ok (k b) Q w'' /\
      forall g, og = Some g -> held (child g) = [] /\ ok (child g) (fun rb w => may_release (fst rb) g w) w''
  end.

Lemma ok_mono A (f : fut A) Q Q' w w' :
  ok f Q w -> w ≼ w' -> (forall a w1, w' ≼ w1 -> Q a w1 -> Q' a w1) -> ok f Q' w'.
Proof.
  revert Q Q' w w'.
  induction f as [A a|A B f k IH|A B q k IH|A B x IHx k IH|A B x IHx k IH|A B C x IHx y IHy wy wx k IH
    |A B f body IHb k IH|A B g body IHb k IH|A child IHc k IH|A B f child IHc k IH]; intros Q Q' w w' Hok Hw HQ; simpl in *.
  - intros w1 Hw1. apply HQ; [done|]. apply Hok. by etrans.
  - intros gs w1 b w2 Hw1 Hi Hf. destruct (Hok gs w1 b w2) as (Hi2 & Hw2 & Hh & Hk); [by etrans|done|done|].
    do 3 (split; [done|]). eapply IH; [exact Hk|done|]. intros a w3 Hw3. apply HQ. do 2 (etrans; [eassumption|]). done.
  - intros gs w1 b Hw1 Hi Ha. destruct (Hok gs w1 b) as [Hh Hk]; [by etrans|done|done|]. split; [done|].
    eapply IH; [exact Hk|done|]. intros a w3 Hw3. apply HQ. by etrans.
  - eapply IHx; [exact Hok|done|]. intros b w1 Hw1 [Hh Hk]. split; [done|]. eapply IH; [exact Hk|done|].
    intros a w3 Hw3. apply HQ. by etrans.
  - destruct Hok as (Hfree & Hx & Hnone). split; [done|]. split.
    + eapply IHx; [exact Hx|done|]. intros b w1 Hw1 [Hh Hk]. split; [done|]. eapply IH; [exact Hk|done|].
      intros a w3 Hw3. apply HQ. by etrans.
    + intros w1 Hw1. destruct (Hnone w1) as [Hh Hk]; [by etrans|]. split; [done|]. eapply IH; [exact Hk|done|].
      intros a w3 Hw3. apply HQ. by etrans.
  - destruct Hok as (Hf1 & Hf2 & P & P' & Hx & Hy & H1 & H2). do 2 (split; [done|]). exists P, P'.
    split; [by eapply IHx; [exact Hx|done|]|]. split; [by eapply IHy; [exact Hy|done|]|]. split.
    + intros b w1 Hw1 Hb. assert (w ≼ w1) as Hww1 by (by etrans). specialize (H1 b w1 Hww1 Hb). destruct (wy b).
      * intros c w2 Hw2 Hc. destruct (H1 c w2 Hw2 Hc) as [Hh Hk]. split; [done|]. eapply IH; [exact Hk|done|].
        intros a w3 Hw3. apply HQ. do 2 (etrans; [eassumption|]). done.
      * destruct H1 as [Hh Hk]. split; [done|]. eapply IH; [exact Hk|done|]. intros a w3 Hw3. apply HQ. by etrans.
    + intros c w1 Hw1 Hc. assert (w ≼ w1) as Hww1 by (by etrans). specialize (H2 c w1 Hww1 Hc). destruct (wx c).
      * intros b w2 Hw2 Hb. destruct (H2 b w2 Hw2 Hb) as [Hh Hk]. split; [done|]. eapply IH; [exact Hk|done|].
        intros a w3 Hw3. apply HQ. do 2 (etrans; [eassumption|]). done.
      * destruct H2 as [Hh Hk]. split; [done|]. eapply IH; [exact Hk|done|]. intros a w3 Hw3. apply HQ. by etrans.
  - intros gs w1 w2 Hw1 Hi. destruct (Hok gs w1 w2) as [Hl Hr]; [by etrans|done|]. split.
    + intros b Hf. destruct (Hl b Hf) as (Hi2 & Hw2 & Hh & Hk). do 3 (split; [done|]). eapply IH; [exact Hk|done|].
      intros a w3 Hw3. apply HQ. do 2 (etrans; [eassumption|]). done.
    + intros g Hf. destruct (Hr g Hf) as (Hi2 & Hw2 & Hfr & Hh & Hk). do 4 (split; [done|]).
      eapply IHb; [exact Hk|done|]. intros rb w3 Hw3 (Hm & Hh3 & Hk3). do 2 (split; [done|]).
      eapply IH; [exact Hk3|done|]. intros a w4 Hw4. apply HQ. do 3 (etrans; [eassumption|]). done.
  - eapply IHb; [exact Hok|done|]. intros rb w3 Hw3 (Hm & Hh3 & Hk3). do 2 (split; [done|]).
    eapply IH; [exact Hk3|done|]. intros a w4 Hw4. apply HQ. by etrans.
  - destruct Hok as (Hh & Hc & Hhk & Hk). split; [done|]. split; [by eapply IHc; [exact Hc|done|]|]. split; [done|].
    eapply IH; [exact Hk|done|]. done.
  - intros gs w1 b og w2 Hw1 Hi Hf. destruct (Hok gs w1 b og w2) as (Hi2 & Hw2 & Hh & Hk & Hg); [by etrans|done|done|].
    do 3 (split; [done|]). split; [|done]. eapply IH; [exact Hk|done|].
    intros a w3 Hw3. apply HQ. do 2 (etrans; [eassumption|]). done.
Qed.

Lemma ok_evolves A (f : fut A) Q w w' : ok f Q w -> w ≼ w' -> ok f Q w'.
Proof. intros Hok Hw. eapply ok_mono; eauto. Qed.

Lemma ok_weaken A (f : fut A) Q Q' w : ok f Q w -> (forall a w', w ≼ w' -> Q a w' -> Q' a w') -> ok f Q' w.
Proof. intros Hok HQ. by eapply ok_mono; [exact Hok|reflexivity|]. Qed.

(** ** Rules for code that has not started *)

Definition code {A} (f : fut A) (Q : A -> W -> Prop) (w : W) : Prop := held f = [] /\ ok f Q w.

Lemma code_ret A (a : A) (Q : A -> W -> Prop) w : (forall w', w ≼ w' -> Q a w') -> code (Ret a) Q w.
Proof. done. Qed.

Lemma code_mono A (f : fut A) (Q Q' : A -> W -> Prop) w :
  code f Q w -> (forall a w', w ≼ w' -> Q a w' -> Q' a w') -> code f Q' w.
Proof. intros [Hh Hok] HQ. split; [done|]. by eapply ok_weaken. Qed.

Lemma code_sync A B f (k : B -> fut A) Q w :
  (forall gs w' b w'', w ≼ w' -> inv gs w' -> f w' = Some (b, w'') -> inv gs w'' /\ w' ≼ w'' /\ code (k b) Q w'') ->
  code (Sync f k) Q w.
Proof. intros H. split; [done|]. intros gs w' b w'' Hw Hi Hf. by destruct (H gs w' b w'' Hw Hi Hf) as (? & ? & ? & ?). Qed.

Lemma code_await A B (q : Ask B) (k : B -> fut A) Q w :
  (forall gs w' b, w ≼ w' -> inv gs w' -> answers q b w' -> code (k b) Q w') -> code (Await q k) Q w.
Proof. done. Qed.

Lemma code_bind A B (x : fut B) (k : B -> fut A) P Q w :
  code x P w -> (forall b w', w ≼ w' -> P b w' -> code (k b) Q w') -> code (Bind x k) Q w.
Proof. intros [Hh Hx] Hk. split; [done|]. simpl. by eapply ok_weaken. Qed.

Lemma code_timeout A B (x : fut B) (k : option B -> fut A) P Q w :
  code x P w -> (forall b w', w ≼ w' -> P b w' -> code (k (Some b)) Q w') ->
  (forall w', w ≼ w' -> code (k None) Q w') -> code (Timeout x k) Q w.
Proof.
  intros [Hh Hx] Hk Hn. split; [done|]. simpl. rewrite Hh. split; [constructor|]. split; [by eapply ok_weaken|done].
Qed.

Lemma code_race A B C (x : fut B) (y : fut C) wy wx (k : finish B C -> fut A) P P' Q w :
  code x P w -> code y P' w ->
  (forall b w', w ≼ w' -> P b w' -> wy b = false -> code (k (First b)) Q w') ->
  (forall c w', w ≼ w' -> P' c w' -> wx c = false -> code (k (Second c)) Q w') ->
  (forall b c w' w'', w ≼ w' -> w' ≼ w'' -> P b w' -> wy b = true -> P' c w'' -> code (k (FirstThen b c)) Q w'') ->
  (forall c b w' w'', w ≼ w' -> w' ≼ w'' -> P' c w' -> wx c = true -> P b w'' -> code (k (SecondThen c b)) Q w'') ->
  code (Race x y wy wx k) Q w.
Proof.
  intros [Hh1 Hx] [Hh2 Hy] K1 K2 K3 K4. split; [simpl; by rewrite Hh1, Hh2|]. simpl. rewrite Hh1, Hh2.
  split; [constructor|]. split; [constructor|]. exists P, P'. split; [done|]. split; [done|]. split.
  - intros b w' Hw Hb. destruct (wy b) eqn:E; [intros c w'' Hw' Hc; by eapply K3|by apply K1].
  - intros c w' Hw Hc. destruct (wx c) eqn:E; [intros b w'' Hw' Hb; by eapply K4|by apply K2].
Qed.

Lemma code_enter A B f body (k : B -> fut A) P Q w :
  (forall gs w' b w'', w ≼ w' -> inv gs w' -> f w' = Some (inl b, w'') -> inv gs w'' /\ w' ≼ w'' /\ code (k b) Q w'') ->
  (forall gs w' g w'', w ≼ w' -> inv gs w' -> f w' = Some (inr g, w'') ->
     inv (g :: gs) w'' /\ w' ≼ w'' /\ free g /\
     code (body g) (fun rb w => may_release (fst rb) g w /\ P (snd rb) w) w'') ->
  (forall b w', w ≼ w' -> P b w' -> code (k b) Q w') -> code (Enter f body k) Q w.
Proof.
  intros Hl Hr Hk. split; [done|]. intros gs w' w'' Hw Hi. split.
  - intros b Hf. by destruct (Hl gs w' b w'' Hw Hi Hf) as (? & ? & ? & ?).
  - intros g Hf. destruct (Hr gs w' g w'' Hw Hi Hf) as (? & Hw' & ? & Hh & Hb). do 4 (split; [done|]).
    eapply ok_weaken; [exact Hb|]. intros rb w1 Hw1 [Hm HP]. split; [done|]. apply Hk; [|done].
    do 2 (etrans; [eassumption|]). done.
Qed.

Lemma code_spawn A child (k : fut A) Q w : code child (fun _ _ => True) w -> code k Q w -> code (Spawn child k) Q w.
Proof. intros [? ?] [? ?]. done. Qed.

Lemma code_fork A B f child (k : B -> fut A) Q w :
  (forall gs w' b og w'', w ≼ w' -> inv gs w' -> f w' = Some (b, og, w'') ->
     inv (option_list og ++ gs) w'' /\ w' ≼ w'' /\ code (k b) Q w'' /\
     forall g, og = Some g -> code (child g) (fun rb w => may_release (fst rb) g w) w'') -> code (Fork f child k) Q w.
Proof.
  intros H. split; [done|]. intros gs w' b og w'' Hw Hi Hf.
  by destruct (H gs w' b og w'' Hw Hi Hf) as (? & ? & [? ?] & ?).
Qed.

Lemma code_evolves A (f : fut A) Q w w' : code f Q w -> w ≼ w' -> code f Q w'.
Proof. intros [? ?] ?. split; [done|]. by eapply ok_evolves. Qed.

(** Dropping a future lets go of all it holds. *)
Lemma drop_fut_inv A (f : fut A) gs w :
  inv (held f ++ gs) w -> Forall (fun g => may_release dropped g w) (held f) ->
  inv gs (drop_fut f w) /\ w ≼ drop_fut f w.
Proof.
  revert gs w. induction f as [| | |A B x IHx k IH|A B x IHx k IH|A B C x IHx y IHy wy wx k IH| |A B g body IHb k IH| |];
    intros gs w Hi Hm; simpl in *; try (by split; [|reflexivity]); eauto.
  - apply Forall_app in Hm as [Hm1 Hm2]. rewrite (Permutation_app_comm (held x)), <-app_assoc in Hi.
    destruct (IHy _ _ Hi Hm2) as [Hi2 Hw2]. destruct (IHx gs (drop_fut y w) Hi2) as [Hi3 Hw3].
    { eapply Forall_impl; [exact Hm1|]. intros g. by apply may_release_evolves. }
    split; [done|]. by etrans.
  - apply Forall_cons in Hm as [Hg Hm]. destruct (IHb (g :: gs) w) as [Hi2 Hw2]; [|done|].
    { eapply inv_perm; [|reflexivity|exact Hi]. by rewrite <-Permutation_middle. }
    destruct (release_inv dropped g gs (drop_fut body w) Hi2) as [Hi3 Hw3]; [by eapply may_release_evolves|].
    split; [done|]. by etrans.
Qed.

Lemma drop_free A (f : fut A) gs w :
  inv (held f ++ gs) w -> Forall free (held f) -> inv gs (drop_fut f w) /\ w ≼ drop_fut f w.
Proof. intros Hi Hf. apply drop_fut_inv; [done|]. eapply Forall_impl; [exact Hf|]. intros g Hg. apply Hg. Qed.

(** What a step keeps. *)
Record kept {A} (f' : fut A) (sp : list (fut unit)) gs w w' (Q : A -> W -> Prop) : Prop := {
  kp_inv : inv (held f' ++ concat (held <$> sp) ++ gs) w';
  kp_evolves : w ≼ w';
  kp_ok : ok f' Q w';
  kp_spawned : Forall (fun c => ok c (fun _ _ => True) w') sp }.

Lemma kept_simple A (f' : fut A) gs w w' Q :
  inv gs w' -> w ≼ w' -> held f' = [] -> ok f' Q w' -> kept f' [] gs w w' Q.
Proof. intros Hi Hw Hh Hk. split; [|done|done|constructor]. by rewrite Hh. Qed.

Lemma step_free A (f : fut A) w f' w' sp :
  fstep f w f' w' sp -> forall Q gs, inv (held f ++ gs) w -> ok f Q w -> Forall free (held f) -> Forall free (held f').
Proof.
  induction 1 as [A B f k w b w' Hf|A B q k b w Ha|A B x k w x' w' sp Hx IH|A B b k w|A B x k w x' w' sp Hx IH|A B b k w
    |A B x k w|A B C x y wy wx k w x' w' sp Hx IH|A B C x y wy wx k w y' w' sp Hy IH|A B C b y wy wx k w Hb
    |A B C b y wy wx k w Hb|A B C x c wy wx k w Hc|A B C x c wy wx k w Hc|A B f body k w b w' Hf|A B f body k w g w' Hf
    |A B g body k w body' w' sp Hb IH|A B g r b k w|A child k w|A B f child k w b w' Hf|A B f child k w b g w' Hf];
    intros Q gs Hi Hok Hfree; simpl in *.
  - destruct (Hok gs w b w') as (_ & _ & -> & _); [reflexivity|done|done|constructor].
  - destruct (Hok gs w b) as [-> _]; [reflexivity|done|done|constructor].
  - by eapply IH.
  - destruct (Hok w) as [-> _]; [reflexivity|constructor].
  - eapply IH; [exact Hi|apply Hok|done].
  - destruct Hok as (_ & Hok & _). destruct (Hok w) as [-> _]; [reflexivity|constructor].
  - destruct Hok as (_ & _ & Hok). destruct (Hok w) as [-> _]; [reflexivity|constructor].
  - destruct Hok as (_ & _ & P & P' & Hx' & _). apply Forall_app in Hfree as [Hf1 Hf2].
    apply Forall_app. split; [|done]. rewrite <-app_assoc in Hi. by eapply IH.
  - destruct Hok as (_ & _ & P & P' & _ & Hy' & _). apply Forall_app in Hfree as [Hf1 Hf2].
    apply Forall_app. split; [done|]. rewrite (Permutation_app_comm (held x)), <-app_assoc in Hi. by eapply IH.
  - destruct Hok as (_ & _ & P & P' & Hx' & _ & H1 & _). specialize (Hx' w ltac:(reflexivity)).
    specialize (H1 b w ltac:(reflexivity) Hx'). rewrite Hb in H1. destruct H1 as [-> _]. constructor.
  - done.
  - destruct Hok as (_ & _ & P & P' & _ & Hy' & _ & H1). specialize (Hy' w ltac:(reflexivity)).
    specialize (H1 c w ltac:(reflexivity) Hy'). rewrite Hc in H1. destruct H1 as [-> _]. constructor.
  - by rewrite app_nil_r in Hfree.
  - destruct (Hok gs w w') as [Hl _]; [reflexivity|done|]. destruct (Hl b Hf) as (_ & _ & -> & _). constructor.
  - destruct (Hok gs w w') as [_ Hr]; [reflexivity|done|]. destruct (Hr g Hf) as (_ & _ & Hg & -> & _). by constructor.
  - apply Forall_cons in Hfree as [Hg Hfree]. constructor; [done|]. eapply (IH _ (g :: gs)); [|exact Hok|done].
    eapply inv_perm; [|reflexivity|exact Hi]. by rewrite <-Permutation_middle.
  - destruct (Hok w) as (_ & -> & _); [reflexivity|constructor].
  - destruct Hok as (_ & _ & -> & _). constructor.
  - destruct (Hok gs w b None w') as (_ & _ & -> & _); [reflexivity|done|done|constructor].
  - destruct (Hok gs w b (Some g) w') as (_ & _ & -> & _); [reflexivity|done|done|constructor].
Qed.

(** A step of a future in good order keeps everything in good order. *)
Lemma step_kept A (f : fut A) w f' w' sp :
  fstep f w f' w' sp -> forall Q gs, inv (held f ++ gs) w -> ok f Q w -> kept f' sp gs w w' Q.
Proof.
  induction 1 as [A B f k w b w' Hf|A B q k b w Ha|A B x k w x' w' sp Hx IH|A B b k w|A B x k w x' w' sp Hx IH|A B b k w
    |A B x k w|A B C x y wy wx k w x' w' sp Hx IH|A B C x y wy wx k w y' w' sp Hy IH|A B C b y wy wx k w Hb
    |A B C b y wy wx k w Hb|A B C x c wy wx k w Hc|A B C x c wy wx k w Hc|A B f body k w b w' Hf|A B f body k w g w' Hf
    |A B g body k w body' w' sp Hb IH|A B g r b k w|A child k w|A B f child k w b w' Hf|A B f child k w b g w' Hf];
    intros Q gs Hi Hok; simpl in *.
  - destruct (Hok gs w b w') as (Hi2 & Hw2 & Hh & Hk); [reflexivity|done|done|]. by apply kept_simple.
  - destruct (Hok gs w b) as [Hh Hk]; [reflexivity|done|done|]. by apply kept_simple.
  - destruct (IH _ _ Hi Hok) as [Hi2 Hw2 Hk Hsp]. by split.
  - destruct (Hok w) as [Hh Hk]; [reflexivity|]. by apply kept_simple.
  - destruct Hok as (Hfree & Hx' & Hnone). destruct (IH _ _ Hi Hx') as [Hi2 Hw2 Hk Hsp]. split; [done|done| |done].
    simpl. split; [by eapply step_free|]. split; [done|]. intros w1 Hw1. apply Hnone. by etrans.
  - destruct Hok as (_ & Hok & _). destruct (Hok w) as [Hh Hk]; [reflexivity|]. by apply kept_simple.
  - destruct Hok as (Hfree & _ & Hok). destruct (drop_free _ x gs w Hi Hfree) as [Hi2 Hw2].
    destruct (Hok _ Hw2) as [Hh Hk]. by apply kept_simple.
  - destruct Hok as (Hf1 & Hf2 & P & P' & Hx' & Hy' & H1 & H2). rewrite <-app_assoc in Hi.
    destruct (IH _ _ Hi Hx') as [Hi2 Hw2 Hk Hsp]. split; [|done| |done].
    + simpl. eapply inv_perm; [|reflexivity|exact Hi2]. rewrite <-!app_assoc. f_equiv. apply Permutation_app_swap_app.
    + simpl. split; [by eapply step_free|]. split; [done|]. exists P, P'. split; [done|].
      split; [by eapply ok_evolves|]. split; [intros b w1 Hw1; apply H1|intros c w1 Hw1; apply H2]; by etrans.
  - destruct Hok as (Hf1 & Hf2 & P & P' & Hx' & Hy' & H1 & H2).
    assert (inv (held y ++ held x ++ gs) w) as Hi'.
    { eapply inv_perm; [|reflexivity|exact Hi]. rewrite <-app_assoc. apply Permutation_app_swap_app. }
    destruct (IH _ _ Hi' Hy') as [Hi2 Hw2 Hk Hsp]. split; [|done| |done].
    + simpl. eapply inv_perm; [|reflexivity|exact Hi2]. rewrite <-!app_assoc.
      rewrite (Permutation_app_swap_app (held x)). f_equiv. rewrite (Permutation_app_swap_app (held x)). done.
    + simpl. split; [done|]. split; [by eapply step_free|]. exists P, P'. split; [by eapply ok_evolves|].
      split; [done|]. split; [intros b w1 Hw1; apply H1|intros c w1 Hw1; apply H2]; by etrans.
  - destruct Hok as (Hf1 & Hf2 & P & P' & Hx' & Hy' & H1 & H2). destruct (drop_free _ y gs w Hi Hf2) as [Hi2 Hw2].
    specialize (H1 b _ Hw2 (Hx' _ Hw2)). rewrite Hb in H1. destruct H1 as [Hh Hk]. by apply kept_simple.
  - destruct Hok as (Hf1 & Hf2 & P & P' & Hx' & Hy' & H1 & H2).
    specialize (H1 b w ltac:(reflexivity) (Hx' w ltac:(reflexivity))). rewrite Hb in H1.
    split; [by simpl|reflexivity| |constructor]. simpl. eapply ok_weaken; [exact Hy'|]. intros c w1 Hw1. by apply H1.
  - destruct Hok as (Hf1 & Hf2 & P & P' & Hx' & Hy' & H1 & H2). rewrite app_nil_r in Hi.
    destruct (drop_free _ x gs w Hi Hf1) as [Hi2 Hw2].
    specialize (H2 c _ Hw2 (Hy' _ Hw2)). rewrite Hc in H2. destruct H2 as [Hh Hk]. by apply kept_simple.
  - destruct Hok as (Hf1 & Hf2 & P & P' & Hx' & Hy' & H1 & H2). rewrite app_nil_r in Hi.
    specialize (H2 c w ltac:(reflexivity) (Hy' w ltac:(reflexivity))). rewrite Hc in H2.
    split; [by simpl|reflexivity| |constructor]. simpl. eapply ok_weaken; [exact Hx'|]. intros b w1 Hw1. by apply H2.
  - destruct (Hok gs w w') as [Hl _]; [reflexivity|done|]. destruct (Hl b Hf) as (Hi2 & Hw2 & Hh & Hk).
    by apply kept_simple.
  - destruct (Hok gs w w') as [_ Hr]; [reflexivity|done|]. destruct (Hr g Hf) as (Hi2 & Hw2 & Hg & Hh & Hk).
    split; [|done|done|constructor]. simpl. by rewrite Hh.
  - assert (inv (held body ++ g :: gs) w) as Hi'.
    { eapply inv_perm; [|reflexivity|exact Hi]. by rewrite <-Permutation_middle. }
    destruct (IH _ _ Hi' Hok) as [Hi2 Hw2 Hk Hsp].
    split; [|done|done|done]. simpl. eapply inv_perm; [|reflexivity|exact Hi2].
    by rewrite !(app_assoc (held body')), <-Permutation_middle.
  - destruct (Hok w) as (Hm & Hh & Hk); [reflexivity|]. destruct (release_inv r g gs w Hi Hm) as [Hi2 Hw2].
    apply kept_simple; [done|done|done|]. by eapply ok_evolves.
  - destruct Hok as (Hh & Hc & Hhk & Hk). split; [|reflexivity|done|by constructor]. simpl. by rewrite Hhk, Hh.
  - destruct (Hok gs w b None w') as (Hi2 & Hw2 & Hh & Hk & _); [reflexivity|done|done|]. by apply kept_simple.
  - destruct (Hok gs w b (Some g) w') as (Hi2 & Hw2 & Hh & Hk & Hg); [reflexivity|done|done|].
    destruct (Hg g eq_refl) as [Hhc Hkc]. split; [|done|done|].
    + simpl. by rewrite Hh, Hhc.
    + constructor; [|constructor]. simpl. eapply ok_weaken; [exact Hkc|]. intros [r []] w1 Hw1 Hm. by split_and!.
Qed.
End logic.

(** ** Pools of tasks *)

(** The tasks a program starts, with what each returns and promises. *)
Class Tasks (W : Type) (Ask : Type -> Type) (G R L : Type) := {
  result : L -> Type;
  promise : forall l, result l -> W -> Prop;
  starts : forall l, fut W Ask G R (result l) -> Prop;
  disturbs : W -> W -> Prop }.

Section pools.
Context {W : Type} {Ask : Type -> Type} {G R L : Type}
  `{Hrt : !Runtime W Ask G R, Hd : !Discipline W Ask G R, Hlaws : !DisciplineLaws W Ask G R, Ht : !Tasks W Ask G R L}.
Notation fut := (fut W Ask G R).

(** A task started by name, or a spawned one. *)
Inductive task := Named (l : L) (f : fut (result l)) | Anonymous (f : fut unit).
Definition task_held (t : task) : list G := match t with Named _ f => held f | Anonymous f => held f end.
Definition task_ok (w : W) (t : task) : Prop :=
  match t with Named l f => ok f (promise l) w | Anonymous f => ok f (fun _ _ => True) w end.

Inductive pool_step : list task * W -> list task * W -> Prop :=
| ps_named ts1 l f ts2 w f' w' sp :
    fstep f w f' w' sp ->
    pool_step (ts1 ++ Named l f :: ts2, w) (ts1 ++ Named l f' :: (Anonymous <$> sp) ++ ts2, w')
| ps_anonymous ts1 f ts2 w f' w' sp :
    fstep f w f' w' sp ->
    pool_step (ts1 ++ Anonymous f :: ts2, w) (ts1 ++ Anonymous f' :: (Anonymous <$> sp) ++ ts2, w')
| ps_drop_named ts1 l f ts2 w :
    Forall (fun g => may_release dropped g w) (held f) ->
    pool_step (ts1 ++ Named l f :: ts2, w) (ts1 ++ ts2, drop_fut f w)
| ps_drop_anonymous ts1 f ts2 w :
    Forall (fun g => may_release dropped g w) (held f) ->
    pool_step (ts1 ++ Anonymous f :: ts2, w) (ts1 ++ ts2, drop_fut f w)
| ps_start l f ts w : starts l f -> pool_step (ts, w) (Named l f :: ts, w)
| ps_disturb ts w w' : disturbs w w' -> pool_step (ts, w) (ts, w').

Definition all_held (ts : list task) : list G := concat (task_held <$> ts).

Record pool_ok (p : list task * W) : Prop := {
  po_inv : inv (all_held (fst p)) (snd p);
  po_tasks : Forall (task_ok (snd p)) (fst p) }.

Lemma task_ok_evolves w w' t : w ≼ w' -> task_ok w t -> task_ok w' t.
Proof. intros Hw. destruct t; intros Hok; simpl in *; by eapply ok_evolves. Qed.

Lemma all_held_app ts1 ts2 : all_held (ts1 ++ ts2) = all_held ts1 ++ all_held ts2.
Proof. unfold all_held. by rewrite fmap_app, concat_app. Qed.

Lemma all_held_anonymous sp : all_held (Anonymous <$> sp) = concat (held <$> sp).
Proof. unfold all_held. by rewrite <-list_fmap_compose. Qed.

Lemma all_held_middle ts1 t ts2 : all_held (ts1 ++ t :: ts2) ≡ₚ task_held t ++ all_held (ts1 ++ ts2).
Proof. rewrite !all_held_app. unfold all_held at 2. simpl. apply Permutation_app_swap_app. Qed.

Lemma tasks_middle_ok w w' ts1 t t' sp ts2 :
  w ≼ w' -> Forall (task_ok w) (ts1 ++ t :: ts2) -> task_ok w' t' -> Forall (fun c => ok c (fun _ _ => True) w') sp ->
  Forall (task_ok w') (ts1 ++ t' :: (Anonymous <$> sp) ++ ts2).
Proof.
  intros Hw [H1 [_ H2]%Forall_cons]%Forall_app Ht' Hsp.
  apply Forall_app; split; [by eapply Forall_impl; [exact H1|]; intros; eapply task_ok_evolves|].
  constructor; [done|]. apply Forall_app; split; [by apply Forall_fmap|].
  by eapply Forall_impl; [exact H2|]; intros; eapply task_ok_evolves.
Qed.

Lemma pool_stepped A (f : fut A) Q w f' w' sp ts1 t t' ts2 :
  task_held t = held f -> task_held t' = held f' ->
  pool_ok (ts1 ++ t :: ts2, w) -> ok f Q w -> fstep f w f' w' sp -> (ok f' Q w' -> task_ok w' t') ->
  pool_ok (ts1 ++ t' :: (Anonymous <$> sp) ++ ts2, w').
Proof.
  intros Hh1 Hh2 [Hi Hall] Hok Hs Hnew. simpl in *. rewrite all_held_middle, Hh1 in Hi.
  destruct (step_kept _ _ _ _ _ _ Hs Q _ Hi Hok) as [Hi2 Hw2 Hk Hsp]. split; simpl.
  - rewrite all_held_middle, Hh2. eapply inv_perm; [|reflexivity|exact Hi2]. f_equiv.
    rewrite !all_held_app, all_held_anonymous. apply Permutation_app_swap_app.
  - eapply tasks_middle_ok; eauto.
Qed.

Lemma pool_dropped A (f : fut A) w ts1 t ts2 :
  task_held t = held f -> pool_ok (ts1 ++ t :: ts2, w) -> Forall (fun g => may_release dropped g w) (held f) ->
  pool_ok (ts1 ++ ts2, drop_fut f w).
Proof.
  intros Hh1 [Hi Hall] Hm. simpl in *. rewrite all_held_middle, Hh1 in Hi.
  destruct (drop_fut_inv _ _ _ _ Hi Hm) as [Hi2 Hw2]. split; [done|]. simpl.
  apply Forall_app in Hall as [H1 [_ H2]%Forall_cons]. apply Forall_app.
  split; (eapply Forall_impl; [eassumption|]); intros; by eapply task_ok_evolves.
Qed.

(** Started tasks are in good order and hold nothing; disturbances respect the
    invariant. *)
Context (starts_ok : forall l f w, starts l f -> held f = [] /\ ok f (promise l) w)
  (disturbs_ok : forall gs w w', disturbs w w' -> inv gs w -> inv gs w' /\ w ≼ w').

Lemma pool_step_ok p p' : pool_step p p' -> pool_ok p -> pool_ok p'.
Proof.
  intros Hs Hp. destruct Hs as [ts1 l f ts2 w f' w' sp Hf|ts1 f ts2 w f' w' sp Hf|ts1 l f ts2 w Hm|ts1 f ts2 w Hm|l f ts w Hst|ts w w' Hd'].
  - apply (pool_stepped _ f (promise l) w f' w' sp ts1 (Named l f) (Named l f')); try done.
    destruct Hp as [_ [_ [Hf0 _]%Forall_cons]%Forall_app]. exact Hf0.
  - apply (pool_stepped _ f (fun _ _ => True) w f' w' sp ts1 (Anonymous f) (Anonymous f')); try done.
    destruct Hp as [_ [_ [Hf0 _]%Forall_cons]%Forall_app]. exact Hf0.
  - by apply (pool_dropped _ f w ts1 (Named l f) ts2).
  - by apply (pool_dropped _ f w ts1 (Anonymous f) ts2).
  - destruct Hp as [Hi Hall]. destruct (starts_ok l f w Hst) as [Hh Hok]. split; simpl in *; [|by constructor].
    unfold all_held. simpl. by rewrite Hh.
  - destruct Hp as [Hi Hall]. destruct (disturbs_ok _ _ _ Hd' Hi) as [Hi2 Hw2]. split; [done|]. simpl in *.
    eapply Forall_impl; [exact Hall|]. intros; by eapply task_ok_evolves.
Qed.

Lemma pool_inv p p' : rtc pool_step p p' -> pool_ok p -> pool_ok p'.
Proof. induction 1 as [|p p1 p2 Hs _ IH]; [done|]. intros Hp. apply IH. by eapply pool_step_ok. Qed.

(** What a finished task promised holds. *)
Lemma pool_promise ts w l a : pool_ok (ts, w) -> Named l (Ret a) ∈ ts -> promise l a w.
Proof.
  intros [_ Hall] Hin. rewrite Forall_forall in Hall. specialize (Hall _ Hin). simpl in Hall. apply Hall. reflexivity.
Qed.
End pools.
