(* ===== verification/DeviceFinder.v ===== *)
(** * Looking up devices (tunnel/device_finder.rs, finder/device_cache.rs)

    How an identifier becomes a certificate with endpoints: the memory cache of
    certificates with its static and its evictable half and the cache behind it,
    and the finder that asks the super nodes, adds the endpoints they observed
    and remembers for a while which devices nobody knew.  The caches of
    [mini_moka] forget entries on their own; [cache_evict] and [query_expire]
    are those moments.  The answer of the super nodes is an argument. *)

From S2P Require Import Prelude.
From S2P Require Import Errors.
From S2P Require Import Ids.
From S2P Require Import Endpoint.
From S2P Require Import NatType.
From S2P Require Import SnService.
From S2P Require Import SnClient.

(** [P2pIdentityCert::update_endpoints]. *)
Class CertUpdate (Cert : Type) := cert_update_endpoints : Cert -> list Endpoint -> Cert.

Class CertUpdateLaws (Cert : Type) `{CertOps Cert, CertUpdate Cert} : Prop := {
  update_get_id : forall c eps, cert_get_id (cert_update_endpoints c eps) = cert_get_id c;
  update_endpoints : forall c eps, cert_endpoints (cert_update_endpoints c eps) = eps }.

Record PeerLookupInfo (Cert : Type) := mkLookup {
  lk_identity_cert : Cert;
  lk_sn_peer_id : option P2pId;
  lk_local_net_profile : option NatProfile;
  lk_remote_net_profile : option NatProfile }.
Arguments mkLookup {Cert}. Arguments lk_identity_cert {Cert}. Arguments lk_sn_peer_id {Cert}.
Arguments lk_local_net_profile {Cert}. Arguments lk_remote_net_profile {Cert}.

(** ** The cache of certificates *)

Record MemCaches (Cert : Type) := mkMemCaches { lru_caches : gmap P2pId Cert; static_caches : gmap P2pId Cert }.
Arguments mkMemCaches {Cert}. Arguments lru_caches {Cert}. Arguments static_caches {Cert}.

(** The cache with what it has sent to the outer one, if there is an outer one. *)
Record DeviceCache (Cert : Type) := mkDeviceCache { dv_cache : MemCaches Cert; dv_outer : option (list (P2pId * Cert)) }.
Arguments mkDeviceCache {Cert}. Arguments dv_cache {Cert}. Arguments dv_outer {Cert}.

Section cache.
Context {Cert : Type} `{!CertOps Cert}.
(** [OuterDeviceCache::get] of the program that uses the library. *)
Context (outer_get : P2pId -> option Cert).

Definition mem_new : MemCaches Cert := mkMemCaches ∅ ∅.
Definition mem_remove (remote : P2pId) (c : MemCaches Cert) : MemCaches Cert :=
  mkMemCaches (delete remote (lru_caches c)) (delete remote (static_caches c)).
Definition mem_get (remote : P2pId) (c : MemCaches Cert) : option Cert :=
  match lru_caches c !! remote with Some d => Some d | None => static_caches c !! remote end.

Definition cache_new (outer : bool) : DeviceCache Cert := mkDeviceCache mem_new (if outer then Some [] else None).

Definition outer_add (id : P2pId) (device : Cert) (o : option (list (P2pId * Cert))) : option (list (P2pId * Cert)) :=
  match o with Some l => Some (l ++ [(id, device)]) | None => None end.

Definition cache_add_static (id : P2pId) (device : Cert) (c : DeviceCache Cert) : DeviceCache Cert :=
  if negb (bool_decide (id = cert_get_id device)) then c
  else mkDeviceCache (mkMemCaches (lru_caches (dv_cache c)) (<[id := device]> (static_caches (dv_cache c))))
         (outer_add id device (dv_outer c)).

Definition cache_add (id : P2pId) (device : Cert) (c : DeviceCache Cert) : DeviceCache Cert :=
  if negb (bool_decide (id = cert_get_id device)) then c
  else mkDeviceCache (mkMemCaches (<[id := device]> (lru_caches (dv_cache c))) (static_caches (dv_cache c)))
         (outer_add id device (dv_outer c)).

Definition get_inner (id : P2pId) (c : DeviceCache Cert) : option Cert := mem_get id (dv_cache c).
Definition cache_get (id : P2pId) (c : DeviceCache Cert) : option Cert :=
  match get_inner id c with
  | Some d => Some d
  | None => match dv_outer c with Some _ => outer_get id | None => None end
  end.
Definition remove_inner (id : P2pId) (c : DeviceCache Cert) : DeviceCache Cert :=
  mkDeviceCache (mem_remove id (dv_cache c)) (dv_outer c).
Definition cache_evict (id : P2pId) (c : DeviceCache Cert) : DeviceCache Cert :=
  mkDeviceCache (mkMemCaches (delete id (lru_caches (dv_cache c))) (static_caches (dv_cache c))) (dv_outer c).

(** ** The finder *)

Record DefaultDeviceFinder := mkFinder { df_cert_cache : DeviceCache Cert; df_query_cache : gset P2pId }.

Context `{!CertUpdate Cert}.

Definition finder_new (c : DeviceCache Cert) : DefaultDeviceFinder := mkFinder c ∅.
Definition query_expire (id : P2pId) (f : DefaultDeviceFinder) : DefaultDeviceFinder :=
  mkFinder (df_cert_cache f) (df_query_cache f ∖ {[id]}).
Definition finder_evict (id : P2pId) (f : DefaultDeviceFinder) : DefaultDeviceFinder :=
  mkFinder (cache_evict id (df_cert_cache f)) (df_query_cache f).

(** The endpoints the super node observed, after the certificate's own. *)
Definition same_place (a b : Endpoint) : bool := bool_decide (protocol a = protocol b) && bool_decide (addr a = addr b).
Definition merge_endpoint (eps : list Endpoint) (ep : Endpoint) : list Endpoint :=
  if existsb (fun x => same_place x ep) eps then eps else eps ++ [ep].
Definition with_observed (device : Cert) (observed : list Endpoint) : Cert :=
  match observed with
  | [] => device
  | _ => cert_update_endpoints device (foldl merge_endpoint (cert_endpoints device) observed)
  end.

(** [query] is what [sn_service.query] returns, when it is asked. *)
Definition get_identity_cert (device_id : P2pId) (query : P2pResult SnQueryResp) (f : DefaultDeviceFinder)
  : P2pResult Cert * DefaultDeviceFinder :=
  match cache_get device_id (df_cert_cache f) with
  | Some device => (Ok device, f)
  | None =>
      if bool_decide (device_id ∈ df_query_cache f) then (Err P2pErrorCode.NotFound, f)
      else
        match query with
        | Err e => (Err e, f)
        | Ok resp =>
            match qr_peer_info resp with
            | None => (Err P2pErrorCode.NotFound, f)
            | Some peer_info =>
                match cert_create peer_info with
                | Err e => (Err e, f)
                | Ok device =>
                    let device := with_observed device (qr_end_point_array resp) in
                    (Ok device, mkFinder (cache_add device_id device (df_cert_cache f)) (df_query_cache f))
                end
            end
        end
  end.

Definition cached_lookup (cached : option Cert) : P2pResult (PeerLookupInfo Cert) :=
  match cached with Some c => Ok (mkLookup c None None None) | None => Err P2pErrorCode.NotFound end.

Definition get_peer_info (device_id : P2pId) (query : P2pResult SnQueryResult) (f : DefaultDeviceFinder)
  : P2pResult (PeerLookupInfo Cert) * DefaultDeviceFinder :=
  let cached := cache_get device_id (df_cert_cache f) in
  if bool_decide (device_id ∈ df_query_cache f) then (cached_lookup cached, f)
  else
    match query with
    | Err e => (match cached with Some c => Ok (mkLookup c None None None) | None => Err e end, f)
    | Ok q =>
        match qr_peer_info (qx_response q) with
        | None => (cached_lookup cached, mkFinder (df_cert_cache f) ({[device_id]} ∪ df_query_cache f))
        | Some peer_info =>
            match cert_create peer_info with
            | Err e => (Err e, f)
            | Ok cert =>
                let cert := with_observed cert (qr_end_point_array (qx_response q)) in
                (Ok (mkLookup cert (Some (qx_sn_peer_id q)) (Some (qx_local_net_profile q)) (qr_net_profile (qx_response q))),
                 mkFinder (cache_add device_id cert (df_cert_cache f)) (df_query_cache f))
            end
        end
    end.

(** ** What the cache keeps *)

(** Every certificate is filed under its own identifier. *)
Definition authentic (m : gmap P2pId Cert) : Prop := forall id d, m !! id = Some d -> cert_get_id d = id.
Definition cache_ok (c : DeviceCache Cert) : Prop :=
  authentic (lru_caches (dv_cache c)) /\ authentic (static_caches (dv_cache c)) /\
  forall l id d, dv_outer c = Some l -> (id, d) ∈ l -> cert_get_id d = id.

Inductive finder_step : DefaultDeviceFinder -> DefaultDeviceFinder -> Prop :=
| fi_identity id q f : finder_step f (snd (get_identity_cert id q f))
| fi_peer id q f : finder_step f (snd (get_peer_info id q f))
| fi_add id d f : finder_step f (mkFinder (cache_add id d (df_cert_cache f)) (df_query_cache f))
| fi_add_static id d f : finder_step f (mkFinder (cache_add_static id d (df_cert_cache f)) (df_query_cache f))
| fi_remove id f : finder_step f (mkFinder (remove_inner id (df_cert_cache f)) (df_query_cache f))
| fi_evict id f : finder_step f (finder_evict id f)
| fi_expire id f : finder_step f (query_expire id f).

Lemma authentic_insert id d m : authentic m -> cert_get_id d = id -> authentic (<[id := d]> m).
Proof. intros Hm Hd id' d' [[<- <-]|[_ H]]%lookup_insert_Some; [done|by apply Hm]. Qed.

Lemma authentic_delete id m : authentic m -> authentic (delete id m).
Proof. intros Hm id' d' [_ H]%lookup_delete_Some. by apply Hm. Qed.

Lemma outer_add_ok id d (o : option (list (P2pId * Cert))) :
  cert_get_id d = id -> (forall l id d, o = Some l -> (id, d) ∈ l -> cert_get_id d = id) ->
  forall l id' d', outer_add id d o = Some l -> (id', d') ∈ l -> cert_get_id d' = id'.
Proof.
  intros Hd Ho l id' d'. destruct o as [l0|]; simpl; [|done]. intros [= <-] [Hin|Hin]%elem_of_app; [by eapply Ho|].
  apply list_elem_of_singleton in Hin. by simplify_eq.
Qed.

Lemma cache_add_ok id d c : cache_ok c -> cache_ok (cache_add id d c).
Proof.
  intros (Hl & Hs & Ho). unfold cache_add. case_bool_decide as Hid; simpl; [|done].
  split; [by apply authentic_insert|]. split; [done|]. simpl. by apply outer_add_ok.
Qed.

Lemma cache_add_static_ok id d c : cache_ok c -> cache_ok (cache_add_static id d c).
Proof.
  intros (Hl & Hs & Ho). unfold cache_add_static. case_bool_decide as Hid; simpl; [|done].
  split; [done|]. split; [by apply authentic_insert|]. simpl. by apply outer_add_ok.
Qed.

Lemma finder_step_ok f f' : finder_step f f' -> cache_ok (df_cert_cache f) -> cache_ok (df_cert_cache f').
Proof.
  intros Hs Hok. destruct Hs as [id q f|id q f|id d f|id d f|id f|id f|id f]; simpl.
  - unfold get_identity_cert. repeat case_match; simpl; try done; by apply cache_add_ok.
  - unfold get_peer_info. repeat case_match; simpl; try done; by apply cache_add_ok.
  - by apply cache_add_ok.
  - by apply cache_add_static_ok.
  - destruct Hok as (Hl & Hs & Ho). split; [by apply authentic_delete|]. split; [by apply authentic_delete|done].
  - destruct Hok as (Hl & Hs & Ho). split; [by apply authentic_delete|done].
  - done.
Qed.

Lemma finder_ok outer f : rtc finder_step (finder_new (cache_new outer)) f -> cache_ok (df_cert_cache f).
Proof.
  assert (cache_ok (df_cert_cache (finder_new (cache_new outer)))) as H0.
  { split; [intros id d H; simpl in H; by rewrite lookup_empty in H|].
    split; [intros id d H; simpl in H; by rewrite lookup_empty in H|].
    intros l id d. simpl. destruct outer; intros [= <-] Hin. by apply not_elem_of_nil in Hin. }
  induction 1 as [|f f1 f2 Hs _ IH] in H0 |- *; [done|]. apply IH. by eapply finder_step_ok.
Qed.

Lemma cache_get_ok id c d :
  cache_ok c -> (forall id d, outer_get id = Some d -> cert_get_id d = id) -> cache_get id c = Some d -> cert_get_id d = id.
Proof.
  intros (Hl & Hs & _) Ho. unfold cache_get, get_inner, mem_get.
  destruct (lru_caches _ !! id) as [x|] eqn:E1; [intros [= <-]; by apply Hl|].
  destruct (static_caches _ !! id) as [x|] eqn:E2; [intros [= <-]; by apply Hs|].
  destruct (dv_outer c); [apply Ho|done].
Qed.

(** ** Endpoints *)

Lemma merge_spec eps ep x : x ∈ merge_endpoint eps ep <-> x ∈ eps \/ (x = ep /\ existsb (fun x => same_place x ep) eps = false).
Proof.
  unfold merge_endpoint. destruct (existsb _ eps) eqn:E; [naive_solver|]. rewrite elem_of_app, list_elem_of_singleton. naive_solver.
Qed.

Lemma merge_prefix observed eps : exists more, foldl merge_endpoint eps observed = eps ++ more /\ forall x, x ∈ more -> x ∈ observed.
Proof.
  revert eps. induction observed as [|ep l IH]; intros eps; simpl.
  - exists []. rewrite app_nil_r. split; [done|]. intros x Hx. by apply not_elem_of_nil in Hx.
  - destruct (IH (merge_endpoint eps ep)) as (more & -> & Hmore). unfold merge_endpoint.
    destruct (existsb _ eps); [exists more; split; [done|]; intros x Hx; right; by apply Hmore|].
    exists (ep :: more). rewrite <-app_assoc. split; [done|]. intros x [->|Hx]%elem_of_cons; [by left|right; by apply Hmore].
Qed.

Lemma same_place_refl ep : same_place ep ep = true.
Proof. unfold same_place. by rewrite !bool_decide_true. Qed.

(** Every observed endpoint has its place in the list. *)
Lemma merge_covers observed eps ep :
  ep ∈ observed -> exists x, x ∈ foldl merge_endpoint eps observed /\ same_place x ep = true.
Proof.
  revert eps. induction observed as [|o l IH]; intros eps; [by intros ?%not_elem_of_nil|].
  intros [->|Hin]%elem_of_cons; simpl; [|by apply IH].
  assert (exists x, x ∈ merge_endpoint eps o /\ same_place x o = true) as (x & Hx & Hs).
  { unfold merge_endpoint. destruct (existsb _ eps) eqn:E.
    - apply existsb_exists in E as (x & Hx%list_elem_of_In & Hs). by exists x.
    - exists o. split; [set_solver|apply same_place_refl]. }
  exists x. split; [|done]. destruct (merge_prefix l (merge_endpoint eps o)) as (more & -> & _). set_solver.
Qed.
End cache.
Arguments DefaultDeviceFinder : clear implicits.

Lemma with_observed_id {Cert} `{!CertOps Cert, !CertUpdate Cert, !CertUpdateLaws Cert} (c : Cert) observed :
  cert_get_id (with_observed c observed) = cert_get_id c.
Proof. unfold with_observed. case_match; [done|apply update_get_id]. Qed.

(** C23: lookup_answers: a lookup on a finder in any reachable state, whose outer
    cache, if it has one, holds certificates under their own identifiers.  A device
    nobody knew lately is not asked for again and answered from the cache; if
    the super nodes know nothing or cannot be asked, the cached certificate is
    the answer; a fresh answer carries the super node it came from, the
    certificate's own endpoints first, then only observed ones, each observed
    endpoint having its place, and when it is the certificate asked for it is
    cached and its identifier is the one asked for, as is that of every answer
    from the cache. *)
Theorem lookup_answers {Cert} `{!CertOps Cert, !CertUpdate Cert, !CertUpdateLaws Cert} outer outer_get
    (f : DefaultDeviceFinder Cert) id query res f' :
  rtc (finder_step outer_get) (finder_new (cache_new outer)) f ->
  (forall id d, outer_get id = Some d -> cert_get_id d = id) ->
  get_peer_info outer_get id query f = (res, f') ->
  let cached := cache_get outer_get id (df_cert_cache f) in
  (id ∈ df_query_cache f -> res = cached_lookup cached /\ f' = f) /\
  (id ∉ df_query_cache f -> forall e, query = Err e ->
     f' = f /\ res = match cached with Some c => Ok (mkLookup c None None None) | None => Err e end) /\
  (id ∉ df_query_cache f -> forall q, query = Ok q -> qr_peer_info (qx_response q) = None ->
     res = cached_lookup cached /\ id ∈ df_query_cache f') /\
  (id ∉ df_query_cache f -> forall q bytes cert, query = Ok q -> qr_peer_info (qx_response q) = Some bytes ->
     cert_create bytes = Ok cert -> exists info more, res = Ok info /\
       cert_get_id (lk_identity_cert info) = cert_get_id cert /\ lk_sn_peer_id info = Some (qx_sn_peer_id q) /\
       cert_endpoints (lk_identity_cert info) = cert_endpoints cert ++ more /\
       (forall ep, ep ∈ more -> ep ∈ qr_end_point_array (qx_response q)) /\
       (forall ep, ep ∈ qr_end_point_array (qx_response q) ->
          exists x, x ∈ cert_endpoints (lk_identity_cert info) /\ same_place x ep = true) /\
       (cert_get_id cert = id -> cache_get outer_get id (df_cert_cache f') = Some (lk_identity_cert info))) /\
  (forall info, res = Ok info -> lk_sn_peer_id info = None -> cert_get_id (lk_identity_cert info) = id).
Proof.
  intros Hr Houter Hget cached. apply finder_ok in Hr.
  assert (forall c, cached = Some c -> cert_get_id c = id) as Hc by (intros c; by apply cache_get_ok).
  unfold get_peer_info in Hget. fold cached in Hget. case_bool_decide as Hq.
  { injection Hget as <- <-. split; [done|]. do 3 (split; [done|]). unfold cached_lookup.
    intros info Hi _. destruct cached as [c|]; [|done]. simplify_eq. by apply Hc. }
  split; [done|]. destruct query as [q|e].
  2:{ injection Hget as <- <-. split; [by intros _ e' [= <-]|]. do 2 (split; [done|]).
      intros info Hi _. destruct cached as [c|]; [|done]. simplify_eq. by apply Hc. }
  split; [done|]. destruct (qr_peer_info (qx_response q)) as [bytes|] eqn:Hp.
  2:{ injection Hget as <- <-. split; [intros _ q' [= <-] _; split; [done|]; simpl; set_solver|].
      split; [intros _ q' ? ? [= <-]; congruence|]. unfold cached_lookup.
      intros info Hi _. destruct cached as [c|]; [|done]. simplify_eq. by apply Hc. }
  split; [intros _ q' [= <-]; congruence|].
  destruct (cert_create bytes) as [cert|e] eqn:Hcr.
  2:{ injection Hget as <- <-. split; [intros _ q' b c [= <-] Hb Hcc; rewrite Hp in Hb; injection Hb as <-; congruence|done]. }
  injection Hget as <- <-. split; [|by intros info [= <-]].
  intros _ q' b c [= <-] Hb Hcc. rewrite Hp in Hb. injection Hb as <-. assert (cert = c) as -> by congruence.
  destruct (merge_prefix (qr_end_point_array (qx_response q)) (cert_endpoints c)) as (more & Hm & Hmore).
  set (new := with_observed c (qr_end_point_array (qx_response q))).
  assert (cert_get_id new = cert_get_id c) as Hid by apply with_observed_id.
  assert (cert_endpoints new = cert_endpoints c ++ more) as Heps.
  { rewrite <-Hm. unfold new, with_observed. by destruct (qr_end_point_array (qx_response q)); rewrite ?update_endpoints. }
  eexists _, more. split; [done|]. split; [exact Hid|]. split; [done|]. split; [exact Heps|]. split; [done|]. split.
  - intros ep Hep. change (exists x, x ∈ cert_endpoints new /\ same_place x ep = true). rewrite Heps, <-Hm. by apply merge_covers.
  - intros Hcid. unfold cache_add. rewrite bool_decide_true by congruence. simpl.
    unfold cache_get, get_inner, mem_get. simpl. by rewrite lookup_insert_eq.
Qed.

(** The interface the tunnel manager relies on: when the super nodes answer with
    the device asked for, so does the finder. *)
Lemma honest_lookup {Cert} `{!CertOps Cert, !CertUpdate Cert, !CertUpdateLaws Cert} outer outer_get
    (f : DefaultDeviceFinder Cert) id query info f' :
  rtc (finder_step outer_get) (finder_new (cache_new outer)) f ->
  (forall id d, outer_get id = Some d -> cert_get_id d = id) ->
  (forall q bytes cert, query = Ok q -> qr_peer_info (qx_response q) = Some bytes -> cert_create bytes = Ok cert ->
     cert_get_id cert = id) ->
  get_peer_info outer_get id query f = (Ok info, f') -> cert_get_id (lk_identity_cert info) = id.
Proof.
  intros Hr Ho Hq. apply finder_ok in Hr. unfold get_peer_info.
  pose proof (fun c => cache_get_ok outer_get id (df_cert_cache f) c Hr Ho) as Hc. unfold cached_lookup.
  destruct (cache_get outer_get id (df_cert_cache f)) as [d|].
  - specialize (Hc d eq_refl). case_bool_decide; [by intros [= <- _]|]. destruct query as [q|e]; [|by intros [= <- _]].
    destruct (qr_peer_info _) as [bytes|] eqn:Hp; [|by intros [= <- _]].
    destruct (cert_create bytes) as [c|] eqn:Hcr; [|done]. intros [= <- _].
    rewrite <-(Hq q bytes c eq_refl Hp Hcr). simpl. apply with_observed_id.
  - case_bool_decide; [done|]. destruct query as [q|e]; [|done]. destruct (qr_peer_info _) as [bytes|] eqn:Hp; [|done].
    destruct (cert_create bytes) as [c|] eqn:Hcr; [|done]. intros [= <- _].
    rewrite <-(Hq q bytes c eq_refl Hp Hcr). simpl. apply with_observed_id.
Qed.

(** ** A concrete lookup *)

Module FinderDemo.
Record DemoCert := mkDemoCert { dc_id : P2pId; dc_endpoints : list Endpoint }.
(** A certificate's encoding is the one byte of its identifier. *)
#[global] Instance DemoCert_ops : CertOps DemoCert :=
  {| cert_create := fun b => Ok (mkDemoCert (mkP2pId b) []); cert_get_id := dc_id; cert_endpoints := dc_endpoints;
     cert_encoded := fun c => Ok (p2pid_bytes (dc_id c)) |}.
#[global] Instance DemoCert_update : CertUpdate DemoCert := fun c eps => mkDemoCert (dc_id c) eps.
#[global] Instance DemoCert_laws : CertUpdateLaws DemoCert.
Proof. by split. Qed.

Definition no_outer (_ : P2pId) : option DemoCert := None.
Definition observed : Endpoint := mkEndpoint Wan Quic (V4 (mkV4 203 0 113 9) 4000).
Definition answer (bytes : option (list Z)) : SnQueryResult :=
  mkQueryResult (mkP2pId [3]) profile_unknown (mkQueryResp 1 bytes [observed; observed] None None).
Definition empty_finder : DefaultDeviceFinder DemoCert := finder_new (cache_new false).

Definition found_endpoints (r : P2pResult (PeerLookupInfo DemoCert)) : option (list Endpoint) :=
  match r with Ok info => Some (dc_endpoints (lk_identity_cert info)) | Err _ => None end.
Definition found_id (r : P2pResult (PeerLookupInfo DemoCert)) : option P2pId :=
  match r with Ok info => Some (dc_id (lk_identity_cert info)) | Err _ => None end.

(** Unknown, then known: the first answer stops the second question. *)
Example unknown_is_remembered :
  let '(r1, f1) := get_peer_info no_outer (mkP2pId [7]) (Ok (answer None)) empty_finder in
  let '(r2, f2) := get_peer_info no_outer (mkP2pId [7]) (Ok (answer (Some [7]))) f1 in
  let '(r3, f3) := get_peer_info no_outer (mkP2pId [7]) (Ok (answer (Some [7]))) (query_expire (mkP2pId [7]) f2) in
  r1 = Err P2pErrorCode.NotFound /\ r2 = Err P2pErrorCode.NotFound /\
  found_endpoints r3 = Some [observed].
Proof. vm_compute. done. Qed.

(** [get_identity_cert] does not remember: it asks every time. *)
Example identity_not_remembered :
  snd (get_identity_cert no_outer (mkP2pId [7]) (Ok (qx_response (answer None))) empty_finder) = empty_finder.
Proof. done. Qed.

(** Asked for one device, given another: nothing compares the two. *)
Example other_device_accepted :
  let '(res, f) := get_peer_info no_outer (mkP2pId [7]) (Ok (answer (Some [8]))) empty_finder in
  found_id res = Some (mkP2pId [8]) /\ df_cert_cache f = df_cert_cache empty_finder.
Proof. vm_compute. done. Qed.

Lemma lookup_answers_witness :
  let res := fst (get_peer_info no_outer (mkP2pId [7]) (Ok (answer (Some [7]))) empty_finder) in
  exists info, res = Ok info /\ cert_get_id (lk_identity_cert info) = mkP2pId [7].
Proof.
  intros res. destruct (get_peer_info no_outer (mkP2pId [7]) (Ok (answer (Some [7]))) empty_finder) as [r f'] eqn:E.
  destruct (lookup_answers false no_outer empty_finder (mkP2pId [7]) (Ok (answer (Some [7]))) r f') as (_ & _ & _ & H & _);
    [reflexivity|done|done|].
  destruct (H (not_elem_of_empty _) (answer (Some [7])) [7] (mkDemoCert (mkP2pId [7]) []) eq_refl eq_refl eq_refl)
    as (info & more & -> & Hid & _). by exists info.
Defined.
End FinderDemo.
