(* ===== verification/Opening.v ===== *)
(** * The procedures that open tunnels (tunnel/tunnel_manager.rs)

    The asynchronous procedures of the manager as futures of [Async]: dialling
    the candidates, asking the peer to connect back, the proxy, the order of
    these paths with the hedged race, NAT-aware opening by rendezvous with its
    fallbacks, the handlers of the super node's calls and rendezvous, and the
    upgrade of proxy tunnels.  What the other parts answer is awaited ([Ask]);
    the manager itself is [w_manager].  The named lock of [async_named_locker]
    is [w_locks].  A number that an operation takes from [w_next] stands for the
    [Arc], the channel, the flag or the task it creates there; [w_keys] and
    [w_owners] record what for and are never read by the code. *)

From stdpp Require Import functions.
From S2P Require Import Prelude.
From S2P Require Import Errors.
From S2P Require Import Ids.
From S2P Require Import Endpoint.
From S2P Require Import NatType.
From S2P Require Import SnProtocol.
From S2P Require Import NatConnectPlan.
From S2P Require Import TunnelActivity.
From S2P Require Import TunnelManager.
From S2P Require Import RendezvousOwner.
From S2P Require Import OpenTunnel.
From S2P Require Import SnService.
From S2P Require Import SnClient.
From S2P Require Import QuicListener.
From S2P Require Import DeviceFinder.
From S2P Require Import Async.

#[global] Instance Event_eq_dec : EqDecision Event.
Proof. solve_decision. Defined.

(** ** What surrounds the manager *)

(** [SNClientService] as the manager sees it. *)
Record SnView := mkSnView {
  sv_wan_ip_list : list Endpoint;
  sv_wan_ip_list_for_sn : P2pId -> list Endpoint;
  sv_nat_probe_snapshot : P2pId -> option (list Endpoint);
  sv_active_sn_list : list P2pId;
  sv_is_same_lan : list Endpoint -> bool }.

(** [NetManager]: the network of a protocol with whether it traverses NATs over
    UDP, the listeners, and the check of a prediction. *)
Record NetView := mkNetView {
  nv_get_network : Protocol -> P2pResult bool;
  nv_listener_info_entries : list (Protocol * list TunnelListenerInfo);
  nv_validate_prediction : TraversalEndpointPrediction -> Timestamp -> P2pResult unit }.

(** What is awaited. *)
Inductive Ask (Cert : Type) : Type -> Type :=
| CacheGet (remote : P2pId) : Ask Cert (option P2pConnectionInfo)
(** the entry holds the endpoints of the tunnel, or the one dialled *)
| CacheAdd (remote : P2pId) (direct : ConnectDirection) (tunnel : nat) (remote_ep : option Endpoint) : Ask Cert unit
| CacheRemove (remote : P2pId) : Ask Cert unit
| RegisterLock : Ask Cert unit
| Sleep (d : Duration) : Ask Cert unit
(** the first of the dialled candidates to complete *)
| NextAttempt (remote : P2pId) (pending : list (Endpoint * TunnelConnectIntent)) : Ask Cert (nat * P2pResult nat)
| ProxyConnect (remote : P2pId) (intent : TunnelConnectIntent) : Ask Cert (P2pResult nat)
| Punch (candidates : list (Endpoint * TunnelConnectIntent)) : Ask Cert unit
| SnCallAny (tunnel_id : Z) (reverse_endpoints : option (list Endpoint)) (remote : P2pId) : Ask Cert (P2pResult unit)
| SnCallVia (sn : P2pId) (tunnel_id : Z) (reverse_endpoints : option (list Endpoint)) (remote : P2pId)
    (context : NatTraversalContext) : Ask Cert (P2pResult unit)
| SnRendezvousVia (sn : P2pId) (request : SnTunnelRendezvous) : Ask Cert (P2pResult SnTunnelRendezvousResp)
| PredictEndpoints (endpoints : list Endpoint) : Ask Cert (P2pResult TraversalEndpointPrediction)
| FindPeer (remote : P2pId) : Ask Cert (P2pResult (PeerLookupInfo Cert))
| FindCert (remote : P2pId) : Ask Cert (P2pResult Cert)
| WaitTunnel (waiter : nat) : Ask Cert (P2pResult nat)
| WaitCompletion (waiter : nat) : Ask Cert (P2pResult nat)
| WaitCancel (cancel : nat) : Ask Cert unit
| WaitStart (start : nat) : Ask Cert unit.
Arguments CacheGet {Cert}. Arguments CacheAdd {Cert}. Arguments CacheRemove {Cert}. Arguments RegisterLock {Cert}.
Arguments Sleep {Cert}. Arguments NextAttempt {Cert}. Arguments ProxyConnect {Cert}. Arguments Punch {Cert}.
Arguments SnCallAny {Cert}. Arguments SnCallVia {Cert}. Arguments SnRendezvousVia {Cert}.
Arguments PredictEndpoints {Cert}. Arguments FindPeer {Cert}. Arguments FindCert {Cert}. Arguments WaitTunnel {Cert}.
Arguments WaitCompletion {Cert}. Arguments WaitCancel {Cert}. Arguments WaitStart {Cert}.

(** The guards: [ReverseWaitRegistration] and [IncomingPlanWaitRegistration] by
    the key and the token of their entry, [RendezvousOwnerRegistration], the
    task of a rendezvous the peer started, and the peer's lock. *)
Inductive Guard :=
| GWaiter (key : IncomingWaitKey) (token : nat)
| GOwner (remote : P2pId) (seq tunnel_id : Z) (token : nat)
| GTarget (remote : P2pId) (seq tunnel_id : Z) (token : nat)
| GLock (remote : P2pId).

Inductive Release := RDrop | RDismiss | RComplete (completion : P2pResult nat).

Section opening.
Context {T : Type} `{!TunnelOps T} {Cert : Type} `{!CertOps Cert}.

Record World := mkWorld {
  w_manager : TunnelManager T;
  w_now : Z;
  w_time : Timestamp;
  w_ids : Z;
  w_seqs : Z;
  w_next : nat;
  w_locks : list P2pId;
  w_sn : option SnView;
  w_pn : bool;
  w_finder : bool;
  w_net : NetView;
  w_local_endpoints : P2pResult (list Endpoint);
  w_spawn : P2pResult unit;
  w_keys : gmap nat IncomingWaitKey;
  w_owners : gmap nat (P2pId * Z * Z) }.

Definition set_manager (m : TunnelManager T) (w : World) : World :=
  mkWorld m (w_now w) (w_time w) (w_ids w) (w_seqs w) (w_next w) (w_locks w) (w_sn w) (w_pn w) (w_finder w) (w_net w)
    (w_local_endpoints w) (w_spawn w) (w_keys w) (w_owners w).
Definition set_ids (i : Z) (w : World) : World :=
  mkWorld (w_manager w) (w_now w) (w_time w) i (w_seqs w) (w_next w) (w_locks w) (w_sn w) (w_pn w) (w_finder w) (w_net w)
    (w_local_endpoints w) (w_spawn w) (w_keys w) (w_owners w).
Definition set_seqs (i : Z) (w : World) : World :=
  mkWorld (w_manager w) (w_now w) (w_time w) (w_ids w) i (w_next w) (w_locks w) (w_sn w) (w_pn w) (w_finder w) (w_net w)
    (w_local_endpoints w) (w_spawn w) (w_keys w) (w_owners w).
Definition set_locks (l : list P2pId) (w : World) : World :=
  mkWorld (w_manager w) (w_now w) (w_time w) (w_ids w) (w_seqs w) (w_next w) l (w_sn w) (w_pn w) (w_finder w) (w_net w)
    (w_local_endpoints w) (w_spawn w) (w_keys w) (w_owners w).
(** The next number, for a channel under a key or for an attempt. *)
Definition take_number (key : option IncomingWaitKey) (owner : option (P2pId * Z * Z)) (w : World) : World :=
  mkWorld (w_manager w) (w_now w) (w_time w) (w_ids w) (w_seqs w) (S (w_next w)) (w_locks w) (w_sn w) (w_pn w)
    (w_finder w) (w_net w) (w_local_endpoints w) (w_spawn w)
    (match key with Some k => <[w_next w := k]> (w_keys w) | None => w_keys w end)
    (match owner with Some o => <[w_next w := o]> (w_owners w) | None => w_owners w end).

Definition release_guard (r : Release) (g : Guard) (w : World) : World :=
  match r, g with
  | RDrop, GWaiter (remote, tunnel_id, rev) token =>
      set_manager (set_mstate (snd (remove_incoming_waiter remote tunnel_id rev token (tm_state (w_manager w))))
        (w_manager w)) w
  | RDrop, GOwner remote seq tunnel_id token =>
      set_manager (cancel_rendezvous_owner remote seq tunnel_id token (w_manager w)) w
  | RComplete c, GOwner remote seq tunnel_id token | RComplete c, GTarget remote seq tunnel_id token =>
      set_manager (complete_rendezvous_owner remote seq tunnel_id token c (w_manager w)) w
  | RDrop, GLock remote => set_locks (filter (fun r => r <> remote) (w_locks w)) w
  | _, _ => w
  end.

(** Who may answer what: the connections a network returns are with the peer
    asked for, a waiting future gets what was sent to it; [find_answer] is what
    the device finder may return.  Everything else may answer anything. *)
Context (find_answer : P2pId -> PeerLookupInfo Cert -> Prop).

Definition remote_of (w : World) (r : nat) : P2pId := tn_remote_id (tm_heap (w_manager w) r).
Definition opens (w : World) (remote : P2pId) (res : P2pResult nat) : Prop :=
  match res with Ok r => remote_of w r = remote | Err _ => True end.
Definition logged (w : World) (e : Event) : Prop := e ∈ tm_log (w_manager w).

Definition answer {B} (q : Ask Cert B) : B -> World -> Prop :=
  match q in Ask _ B return B -> World -> Prop with
  | NextAttempt remote pending => fun a w => (fst a < length pending)%nat /\ opens w remote (snd a)
  | ProxyConnect remote _ => fun a w => opens w remote a
  | FindPeer remote => fun a _ => match a with Ok info => find_answer remote info | Err _ => True end
  | WaitTunnel n => fun a w => logged w (Notified n a)
  | WaitCompletion n => fun a w => logged w (Completed n a) \/ a = Err P2pErrorCode.UserCanceled
  | WaitCancel n => fun _ w => logged w (Cancelled n)
  | WaitStart n => fun _ w => logged w (TaskStarted n)
  | _ => fun _ _ => True
  end.

Definition opening_runtime : Runtime World (Ask Cert) Guard Release :=
  {| release := release_guard; dropped := RDrop; answers := @answer |}.

Notation fut := (fut World (Ask Cert) Guard Release).

(** ** Steps of the manager *)

Definition read {B} (f : World -> B) (w : World) : option (B * World) := Some (f w, w).
Definition on_manager {B} (f : World -> TunnelManager T -> option (B * TunnelManager T)) (w : World)
  : option (B * World) :=
  '(b, m) ← f w (w_manager w); Some (b, set_manager m w).

Definition get_tunnel_step (remote : P2pId) := on_manager (fun w => get_tunnel (w_now w) remote).
Definition existing_step (reuse_existing_proxy : bool) (remote : P2pId) :=
  on_manager (fun w => (if reuse_existing_proxy then get_tunnel else get_non_proxy_tunnel) (w_now w) remote).
Definition register_step (r : nat) := on_manager (fun w => register_tunnel_and_publish (w_now w) r).
Definition register_or_close_step (r : nat) :=
  on_manager (fun w m =>
    '(res, m) ← register_tunnel_and_publish (w_now w) r m;
    Some (res, match res with Ok _ => m | Err _ => snd (close_tunnel r m) end)).
Definition generate_step (w : World) : option (Z * World) :=
  let '(id, cur) := TunnelIdGenerator_generate (w_ids w) in Some (id, set_ids cur w).

(** [Locker::get_locker]; not ready while another task holds the lock. *)
Definition lock_step {B} (remote : P2pId) (w : World) : option ((B + Guard) * World) :=
  if bool_decide (remote ∈ w_locks w) then None else Some (inr (GLock remote), set_locks (remote :: w_locks w) w).
Definition with_lock {B} (remote : P2pId) (body : fut B) : fut B :=
  Enter (lock_step remote) (fun _ => Bind body (fun b => Ret (RDrop, b))) Ret.

(** [ReverseWaitRegistration::register], [IncomingPlanWaitRegistration::register]. *)
Definition register_waiter_step {B} (remote : P2pId) (tunnel_id : Z) (expected_reverse : bool) (w : World)
  : option ((B + Guard) * World) :=
  let n := w_next w in
  let key := (remote, tunnel_id, expected_reverse) in
  Some (inr (GWaiter key n),
        set_manager (set_mstate (add_incoming_waiter remote tunnel_id expected_reverse n n (tm_state (w_manager w)))
          (w_manager w)) (take_number (Some key) None w)).
Definition guard_number (g : Guard) : nat :=
  match g with GWaiter _ n | GOwner _ _ _ n | GTarget _ _ _ n => n | GLock _ => 0%nat end.

(** ** Dialling *)

Definition intent_of (tunnel_id : Z) (reverse : bool) : TunnelConnectIntent :=
  (if reverse then intent_reverse else intent_active) tunnel_id 0.

Context (test_real_socket_matrix : bool) (hash_probe : Endpoint -> Endpoint -> bool).

(** One endpoint of the loop that starts the attempts. *)
Definition candidate_step (intent : TunnelConnectIntent) (sn_service_available : bool) (net : NetView)
    (acc : list (Endpoint * TunnelConnectIntent) * option P2pErrorCode.t * Z) (ep : Endpoint) :=
  let '(pending, last_err, ids) := acc in
  match nv_get_network net (protocol ep) with
  | Err e => (pending, Some e, ids)
  | Ok _ =>
      let '(candidate_id, ids) := TunnelCandidateIdGenerator_generate ids in
      let intent := mkIntent (in_tunnel_id intent) candidate_id (in_is_reverse intent) (in_udp_punch_enabled intent) in
      (pending ++ [(ep, intent_for_candidate test_real_socket_matrix ep intent sn_service_available)], last_err, ids)
  end.
Definition candidates_step (intent : TunnelConnectIntent) (eps : list Endpoint) (w : World)
  : option (list (Endpoint * TunnelConnectIntent) * option P2pErrorCode.t * World) :=
  let '(pending, last_err, ids) :=
    foldl (candidate_step intent (bool_decide (is_Some (w_sn w))) (w_net w)) ([], None, w_ids w) eps in
  Some (pending, last_err, set_ids ids w).

(** An attempt notes how it ended; an abandoned one is closed. *)
Definition note_step (ep : Endpoint) (success : bool) := on_manager (fun w m => Some (tt, note_connect (w_now w) ep success m)).
Definition close_step (r : nat) := on_manager (fun _ m => Some (close_tunnel r m)).

(** [spawn_abandoned_direct_candidate_cleanup]; [n] attempts are left. *)
Fixpoint abandoned (n : nat) (remote : P2pId) (pending : list (Endpoint * TunnelConnectIntent)) : fut unit :=
  match n with
  | O => Ret tt
  | S n => Await (NextAttempt remote pending) (fun a =>
      match pending !! fst a with
      | None => Ret tt
      | Some (ep, _) =>
          Sync (note_step ep (is_ok (snd a))) (fun _ =>
            match snd a with
            | Ok r => Sync (close_step r) (fun _ => abandoned n remote (delete (fst a) pending))
            | Err _ => abandoned n remote (delete (fst a) pending)
            end)
      end)
  end.

(** The loop of [open_direct_path]; [n] attempts are under way. *)
Fixpoint direct_loop (n : nat) (remote : P2pId) (pending : list (Endpoint * TunnelConnectIntent))
    (last_err : option P2pErrorCode.t) : fut (P2pResult nat) :=
  match n with
  | O => Ret (Err (default P2pErrorCode.ConnectFailed last_err))
  | S n => Await (NextAttempt remote pending) (fun a =>
      match pending !! fst a with
      | None => Ret (Err P2pErrorCode.ConnectFailed)
      | Some (ep, _) =>
          let rest := delete (fst a) pending in
          Sync (note_step ep (is_ok (snd a))) (fun _ =>
            match snd a with
            | Err e => direct_loop n remote rest (Some e)
            | Ok r =>
                Await RegisterLock (fun _ => Sync (register_or_close_step r) (fun reg =>
                  match reg with
                  | Ok _ => Spawn (abandoned n remote rest)
                              (Await (CacheAdd remote DirDirect r (Some ep)) (fun _ => Ret (Ok r)))
                  | Err e => direct_loop n remote rest (Some e)
                  end))
            end)
      end)
  end.

Definition open_direct_path (eps : list Endpoint) (remote : P2pId) (intent : TunnelConnectIntent)
  : fut (P2pResult nat) :=
  Sync (candidates_step intent eps) (fun '(pending, last_err) => direct_loop (length pending) remote pending last_err).

(** Registration, publication and the connection cache, for a tunnel the peer
    opened or a proxy. *)
Definition finish_path (remote : P2pId) (direct : ConnectDirection) (r : nat) : fut (P2pResult nat) :=
  Await RegisterLock (fun _ => Sync (register_step r) (fun res =>
    match res with
    | Err e => Ret (Err e)
    | Ok _ => Await (CacheAdd remote direct r None) (fun _ => Ret (Ok r))
    end)).

Definition open_proxy_path (remote : P2pId) (intent : TunnelConnectIntent) : fut (P2pResult nat) :=
  Sync (read w_pn) (fun pn =>
    if negb pn then Ret (Err P2pErrorCode.NotSupport)
    else Await (ProxyConnect remote intent) (fun res =>
      match res with Err e => Ret (Err e) | Ok r => finish_path remote DirProxy r end)).

(** ** Asking the peer to connect back *)

Definition reverse_endpoints (w : World) : list Endpoint :=
  collect_reverse_endpoints_from_sources test_real_socket_matrix (nv_listener_info_entries (w_net w))
    (from_option sv_wan_ip_list [] (w_sn w)).
Definition reverse_endpoints_for_sn (sn : P2pId) (w : World) : list Endpoint :=
  collect_reverse_endpoints_from_sources test_real_socket_matrix (nv_listener_info_entries (w_net w))
    (from_option (fun v => sv_wan_ip_list_for_sn v sn) [] (w_sn w)).
Definition endpoints_arg (eps : list Endpoint) : option (list Endpoint) := match eps with [] => None | _ => Some eps end.

Definition open_reverse_path (remote : P2pId) (tunnel_id : Z) : fut (P2pResult nat) :=
  Enter (fun w => match w_sn w with
                  | None => Some (inl (Err P2pErrorCode.NotSupport), w)
                  | Some _ => register_waiter_step remote tunnel_id true w
                  end)
    (fun g => Sync (read reverse_endpoints) (fun eps =>
       Await (SnCallAny tunnel_id (endpoints_arg eps) remote) (fun called =>
         match called with
         | Err e => Ret (RDrop, Err e)
         | Ok _ => Timeout (Await (WaitTunnel (guard_number g)) Ret) (fun o =>
             match o with
             | None => Ret (RDrop, Err P2pErrorCode.Timeout)
             | Some (Err e) => Ret (RDrop, Err e)
             | Some (Ok r) => Ret (RDismiss, Ok r)
             end)
         end)))
    (fun res => match res with Err e => Ret (Err e) | Ok r => finish_path remote DirReverse r end).

(** [race_with_delay]: the result and whether dialling decided it. *)
Definition race_result (fin : finish (P2pResult nat) (P2pResult nat)) : P2pResult nat * bool :=
  match fin with
  | First r => (r, true)
  | Second r => (r, false)
  | FirstThen d r => (match r with Ok _ => r | Err _ => d end, false)
  | SecondThen r d => (match d with Ok _ => d | Err _ => r end, true)
  end.
Definition race_with_delay (direct : fut (P2pResult nat)) (reverse_delay : Duration) (reverse : fut (P2pResult nat))
  : fut (P2pResult nat * bool) :=
  Race direct (Await (Sleep reverse_delay) (fun _ => reverse)) (fun r => negb (is_ok r)) (fun r => negb (is_ok r))
    (fun fin => Ret (race_result fin)).

(** ** The order of the paths *)

Definition HEDGED_REVERSE_DELAY : Duration := 300 * 1000000.

Definition try_path (path : fut (P2pResult nat)) (k : option P2pErrorCode.t -> fut (P2pResult nat)) : fut (P2pResult nat) :=
  Bind path (fun res => match res with Ok r => Ret (Ok r) | Err e => k (Some e) end).

Definition degraded_step (ep : Endpoint) := read (fun w => direct_cache_endpoint_degraded ep (tm_state (w_manager w))).

Definition cached_path (remote : P2pId) (remote_eps : list Endpoint) (tunnel_id : Z) (allow_proxy_fallback : bool)
    (info : option P2pConnectionInfo) (k : option P2pErrorCode.t -> fut (P2pResult nat)) : fut (P2pResult nat) :=
  match info with
  | None => k None
  | Some info =>
      match ci_direct info with
      | DirDirect =>
          Sync (degraded_step (ci_remote_ep info)) (fun degraded =>
            if degraded then Await (CacheRemove remote) (fun _ => k None)
            else if existsb (fun ep => ep_eqb ep (ci_remote_ep info)) remote_eps then
              try_path (open_direct_path [ci_remote_ep info] remote (intent_of tunnel_id false)) (fun e =>
                Sync (degraded_step (ci_remote_ep info)) (fun degraded =>
                  if degraded then Await (CacheRemove remote) (fun _ => k e) else k e))
            else k None)
      | DirReverse => try_path (open_reverse_path remote tunnel_id) k
      | DirProxy =>
          if allow_proxy_fallback then try_path (open_proxy_path remote (intent_of tunnel_id false)) k else k None
      end
  end.

Definition prefer_step (preferred : option Endpoint) (eps : list Endpoint) :=
  read (fun w => preferred_direct_endpoints preferred eps (tm_state (w_manager w))).

Definition last_proxy (remote : P2pId) (tunnel_id : Z) (allow_proxy_fallback : bool) (e : option P2pErrorCode.t)
  : fut (P2pResult nat) :=
  if allow_proxy_fallback
  then try_path (open_proxy_path remote (intent_of tunnel_id false)) (fun e => Ret (Err (default P2pErrorCode.NotFound e)))
  else Ret (Err (default P2pErrorCode.NotFound e)).

Definition main_paths (remote : P2pId) (remote_eps : list Endpoint) (tunnel_id : Z) (allow_proxy_fallback : bool)
  : fut (P2pResult nat) :=
  Await (CacheGet remote) (fun info : option P2pConnectionInfo => Sync (prefer_step (ci_remote_ep <$> info) remote_eps) (fun direct_eps =>
    let direct := open_direct_path direct_eps remote (intent_of tunnel_id false) in
    let reverse := open_reverse_path remote tunnel_id in
    Sync (read w_sn) (fun sn =>
      if negb (bool_decide (direct_eps = [])) && bool_decide (is_Some sn) then
        Bind (race_with_delay direct HEDGED_REVERSE_DELAY reverse) (fun '(res, _) =>
          match res with Ok r => Ret (Ok r) | Err e => last_proxy remote tunnel_id allow_proxy_fallback (Some e) end)
      else try_path direct (fun _ => try_path reverse (last_proxy remote tunnel_id allow_proxy_fallback))))).

Definition open_known_tunnel_with_options (remote_eps : list Endpoint) (remote : P2pId)
    (reuse_existing_proxy allow_proxy_fallback : bool) : fut (P2pResult nat) :=
  if bool_decide (remote_eps = []) then Ret (Err P2pErrorCode.InvalidParam)
  else with_lock remote (
    Sync generate_step (fun tunnel_id => Sync (existing_step reuse_existing_proxy remote) (fun existing =>
      match existing with
      | Some r => Ret (Ok r)
      | None => Await (CacheGet remote) (fun info =>
          cached_path remote remote_eps tunnel_id allow_proxy_fallback info
            (fun _ => main_paths remote remote_eps tunnel_id allow_proxy_fallback))
      end))).

Definition open_known_tunnel (remote_eps : list Endpoint) (remote : P2pId) : fut (P2pResult nat) :=
  open_known_tunnel_with_options remote_eps remote true true.

(** ** NAT plans *)

Definition punch_intent_step (reverse : bool) (tunnel_id : Z) (net : NetView)
    (acc : list (Endpoint * TunnelConnectIntent) * Z) (ep : Endpoint) :=
  let '(pending, ids) := acc in
  match nv_get_network net (protocol ep) with
  | Err _ => (pending, ids)
  | Ok udp =>
      let '(candidate_id, ids) := TunnelCandidateIdGenerator_generate ids in
      (if udp : bool then pending ++ [(ep, (if reverse then intent_reverse else intent_active) tunnel_id candidate_id)]
       else pending, ids)
  end.
Definition punch_step (eps : list Endpoint) (tunnel_id : Z) (reverse : bool) (w : World)
  : option (list (Endpoint * TunnelConnectIntent) * World) :=
  let '(pending, ids) :=
    foldl (punch_intent_step reverse tunnel_id (w_net w)) ([], w_ids w)
      (filter (udp_punch_enabled_for_candidate test_real_socket_matrix) eps) in
  Some (pending, set_ids ids w).
Definition punch_candidates (eps : list Endpoint) (tunnel_id : Z) (reverse : bool) : fut unit :=
  Sync (punch_step eps tunnel_id reverse) (fun pending => Await (Punch pending) Ret).

Definition direction_step (r : nat) :=
  read (fun w => if tn_is_reverse (tm_heap (w_manager w) r) then DirReverse else DirDirect).
Definition finish_planned_incoming (remote : P2pId) (r : nat) : fut (P2pResult nat) :=
  Sync (direction_step r) (fun direct => finish_path remote direct r).

Definition planned_result (remote : P2pId) (o : option (P2pResult nat)) : fut (P2pResult nat) :=
  match o with
  | None => Ret (Err P2pErrorCode.Timeout)
  | Some (Err e) => Ret (Err e)
  | Some (Ok r) => finish_planned_incoming remote r
  end.

Definition punch_and_wait_incoming (eps : list Endpoint) (remote : P2pId) (tunnel_id : Z) (incoming_is_active : bool)
    (waiter : nat) : fut (P2pResult nat) :=
  Timeout
    (Race (Await (WaitTunnel waiter) Ret) (punch_candidates eps tunnel_id incoming_is_active) (fun _ => false) (fun _ => true)
       (fun fin => match fin with
                   | First res | FirstThen res _ | SecondThen _ res => Ret res
                   | Second _ => Ret (Err P2pErrorCode.Failed)
                   end))
    (planned_result remote).

Definition wait_planned_incoming (remote : P2pId) (waiter : nat) : fut (P2pResult nat) :=
  Timeout (Await (WaitTunnel waiter) Ret) (planned_result remote).

Definition execute_nat_action (action : PlanAction) (party : PlanParty) (remote_eps : list Endpoint) (remote : P2pId)
    (tunnel_id : Z) (incoming_waiter : option nat) : fut (P2pResult nat) :=
  match action with
  | ActionConnect candidates reverse =>
      match nat_candidates remote_eps candidates with
      | Err e => Ret (Err e)
      | Ok eps => open_direct_path eps remote (intent_of tunnel_id reverse)
      end
  | ActionPunchThenWait candidates =>
      match nat_candidates remote_eps candidates, incoming_waiter with
      | Err e, _ => Ret (Err e)
      | Ok _, None => Ret (Err P2pErrorCode.Failed)
      | Ok eps, Some waiter => punch_and_wait_incoming eps remote tunnel_id (bool_decide (party = Callee)) waiter
      end
  | ActionWaitIncoming =>
      match incoming_waiter with
      | None => Ret (Err P2pErrorCode.Failed)
      | Some waiter => wait_planned_incoming remote waiter
      end
  | ActionLegacy => Ret (Err P2pErrorCode.NotSupport)
  end.

(** [drive_nat_rendezvous_and_action]: the call only accompanies the action. *)
Definition drive_nat_rendezvous_and_action (call : fut (P2pResult unit)) (action : fut (P2pResult nat))
  : fut (P2pResult nat) :=
  Race call action (fun _ => true) (fun _ => false)
    (fun fin => match fin with
                | Second res | FirstThen _ res | SecondThen res _ => Ret res
                | First _ => Ret (Err P2pErrorCode.Failed)
                end).

Definition plan_waits (action : PlanAction) : bool :=
  match action with ActionPunchThenWait _ | ActionWaitIncoming => true | _ => false end.

Definition legacy_attempt (remote_eps : list Endpoint) (remote sn : P2pId) (context : NatTraversalContext)
    (action : PlanAction) (tunnel_id : Z) (eps : list Endpoint) (waiter : option nat) : fut (P2pResult nat) :=
  drive_nat_rendezvous_and_action
    (Await (SnCallVia sn tunnel_id (endpoints_arg eps) remote context) Ret)
    (execute_nat_action action Caller remote_eps remote tunnel_id waiter).

Definition open_nat_aware_tunnel_legacy (remote_eps : list Endpoint) (remote sn : P2pId) (context : NatTraversalContext)
    (action : PlanAction) : fut (P2pResult nat) :=
  Sync (read w_sn) (fun sn_service =>
    match sn_service with
    | None => open_known_tunnel remote_eps remote
    | Some _ => with_lock remote (Sync (get_tunnel_step remote) (fun existing =>
        match existing with
        | Some r => Ret (Ok r)
        | None => Sync generate_step (fun tunnel_id => Sync (read (reverse_endpoints_for_sn sn)) (fun eps =>
            let attempt := legacy_attempt remote_eps remote sn context action tunnel_id eps in
            let proxy := open_proxy_path remote (intent_of tunnel_id false) in
            if plan_waits action then
              Enter (register_waiter_step remote tunnel_id true)
                (fun g => Bind (attempt (Some (guard_number g))) (fun res =>
                   match res with
                   | Ok r => Ret (RDismiss, Ok r)
                   | Err _ => Bind proxy (fun res => Ret (RDrop, res))
                   end)) Ret
            else Bind (attempt None) (fun res => match res with Ok r => Ret (Ok r) | Err _ => proxy end)))
        end))
    end).

(** ** Rendezvous *)

Definition udp_prediction_network (eps : list Endpoint) (w : World) : P2pResult unit :=
  match eps with
  | [] => Err P2pErrorCode.NotFound
  | ep :: _ =>
      udp <-? nv_get_network (w_net w) (protocol ep) ;;
      if udp : bool then Ok tt else Err P2pErrorCode.NotSupport
  end.

Definition validate_step (p : TraversalEndpointPrediction) :=
  read (fun w => nv_validate_prediction (w_net w) p (w_time w)).
Definition validate_owned_step (p : option TraversalEndpointPrediction) :=
  read (fun w => match p with
                 | None => Ok tt
                 | Some p => _ <-? udp_prediction_network (tp_endpoints p) w ;; nv_validate_prediction (w_net w) p (w_time w)
                 end).

(** The reflectors of the active super node. *)
Definition reflectors_step (sn : P2pId) :=
  read (fun w => match w_sn w with
                 | None => Err P2pErrorCode.NotSupport
                 | Some v =>
                     match sv_nat_probe_snapshot v sn with
                     | None => Err P2pErrorCode.NotFound
                     | Some eps =>
                         if (length eps <? 2)%nat then Err P2pErrorCode.NotFound
                         else _ <-? udp_prediction_network eps w ;; Ok eps
                     end
                 end).

Definition predict_owned_rendezvous_endpoints (sn : P2pId) : fut (P2pResult TraversalEndpointPrediction) :=
  Sync (reflectors_step sn) (fun res =>
    match res with
    | Err e => Ret (Err e)
    | Ok eps => Await (PredictEndpoints eps) (fun res =>
        match res with
        | Err e => Ret (Err e)
        | Ok p => Sync (validate_step p) (fun v => Ret (match v with Ok _ => Ok p | Err e => Err e end))
        end)
    end).

(** What the request carries. *)
Definition request_candidates (plan : RendezvousPlan) (sn : P2pId)
  : fut (P2pResult (list Endpoint * option TraversalEndpointPrediction)) :=
  match rp_request_candidates plan with
  | None => Ret (Ok ([], None))
  | Some Base =>
      Sync (read (reverse_endpoints_for_sn sn)) (fun local =>
        match rendezvous_base_endpoints test_real_socket_matrix local (rp_operation plan) with
        | [] => Ret (Err P2pErrorCode.NotFound)
        | eps => Ret (Ok (eps, None))
        end)
  | Some Predicted =>
      Bind (predict_owned_rendezvous_endpoints sn) (fun res =>
        Ret (match res with Err e => Err e | Ok p => Ok (tp_endpoints p, Some p) end))
  end.

(** [new_rendezvous_request]; the generator never returns 0. *)
Definition request_step (tunnel_id : Z) (remote : P2pId) (plan : RendezvousPlan) (eps : list Endpoint) (w : World)
  : option (P2pResult SnTunnelRendezvous * World) :=
  let '(seq, cur) := SequenceGenerator_generate (w_seqs w) in
  let request := mkRendezvous seq tunnel_id remote (rp_operation plan) eps (rp_need_predict_endpoint plan) in
  Some (match rendezvous_validate test_real_socket_matrix hash_probe request with Ok _ => Ok request | Err e => Err e end,
        set_seqs cur w).

Definition expected_of_caller (a : RendezvousCallerAction) : option bool :=
  match a with CallerPunchThenWait _ | CallerWaitIncoming => Some true | CallerConnect _ => None end.
Definition expected_of_target (op : SnTunnelRendezvousOperation) : option bool :=
  match op with PunchOnly | WaitIncoming => Some false | PunchAndReverseConnect | ReverseConnectOnly => None end.

(** [install_rendezvous_owner] with the objects created for it. *)
Definition install (remote : P2pId) (seq tunnel_id : Z) (initiator_local : bool) (expected : option bool) (w : World)
  : P2pResult unit * World :=
  let n := w_next w in
  let owner := mkOwner seq initiator_local n None expected tunnel_id n (if initiator_local then [n] else []) n in
  let '(res, m) := install_rendezvous_owner remote owner (if expected then Some n else None) (w_manager w) in
  (res, set_manager m (take_number ((fun rev => (remote, tunnel_id, rev)) <$> expected) (Some (remote, seq, tunnel_id)) w)).

Definition install_own_step (remote : P2pId) (seq tunnel_id : Z) (expected : option bool) (w : World)
  : option ((P2pResult nat + Guard) * World) :=
  let '(res, w') := install remote seq tunnel_id true expected w in
  Some (match res with Ok _ => inr (GOwner remote seq tunnel_id (w_next w)) | Err e => inl (Err e) end, w').

Definition yielded_step (flag : nat) := read (fun w => bool_decide (Yielded flag ∈ tm_log (w_manager w))).

(** A cancelled attempt: one that yielded waits for the winner's result. *)
Definition cancelled_attempt (n : nat) (otherwise : Release) : fut (Release * P2pResult nat) :=
  Sync (yielded_step n) (fun yielded =>
    if yielded : bool then Await (WaitCompletion n) (fun res => Ret (RDrop, res))
    else Ret (otherwise, Err P2pErrorCode.UserCanceled)).

Definition timed (action : fut (P2pResult nat)) : fut (P2pResult nat) :=
  Timeout action (fun o => Ret (default (Err P2pErrorCode.Timeout) o)).

Definition initiator_action (n : nat) (action : fut (P2pResult nat)) : fut (Release * P2pResult nat) :=
  Race (timed action) (Await (WaitCancel n) Ret) (fun _ => false) (fun _ => false)
    (fun fin => match fin with
                | First res | FirstThen res _ | SecondThen _ res => Ret (RComplete res, res)
                | Second _ => cancelled_attempt n (RComplete (Err P2pErrorCode.UserCanceled))
                end).

Definition response_action (plan : RendezvousPlan) (fallback : PlanAction) (predicted remote_eps : list Endpoint)
    (remote : P2pId) (tunnel_id : Z) (waiter : option nat) : fut (P2pResult nat) :=
  match rp_caller_action plan with
  | CallerConnect true => open_direct_path predicted remote (intent_of tunnel_id false)
  | CallerPunchThenWait true =>
      match waiter with
      | None => Ret (Err P2pErrorCode.ErrorState)
      | Some waiter => punch_and_wait_incoming predicted remote tunnel_id false waiter
      end
  | _ => execute_nat_action fallback Caller remote_eps remote tunnel_id waiter
  end.

Definition initiator_body (remote_eps : list Endpoint) (remote sn : P2pId) (plan : RendezvousPlan) (fallback : PlanAction)
    (tunnel_id : Z) (request : SnTunnelRendezvous) (g : Guard) : fut (Release * P2pResult nat) :=
  let n := guard_number g in
  let waiter := if expected_of_caller (rp_caller_action plan) then Some n else None in
  Race (Await (SnRendezvousVia sn request) Ret) (Await (WaitCancel n) Ret) (fun _ => false) (fun _ => false)
    (fun fin => match fin with
                | First (Ok response) | FirstThen (Ok response) _ | SecondThen _ (Ok response) =>
                    initiator_action n
                      (response_action plan fallback (rs_predicted_endpoint_array response) remote_eps remote tunnel_id waiter)
                | First (Err e) | FirstThen (Err e) _ | SecondThen _ (Err e) =>
                    if is_ambiguous_rendezvous_failure e
                    then initiator_action n (execute_nat_action fallback Caller remote_eps remote tunnel_id waiter)
                    else Ret (RDrop, Err e)
                | Second _ => cancelled_attempt n RDrop
                end).

Definition open_rendezvous_tunnel (remote_eps : list Endpoint) (remote sn : P2pId) (plan : RendezvousPlan)
    (fallback : PlanAction) : fut (P2pResult nat) :=
  Sync (read w_sn) (fun sn_service =>
    match sn_service with
    | None => Ret (Err P2pErrorCode.NotSupport)
    | Some _ => with_lock remote (Sync (get_tunnel_step remote) (fun existing =>
        match existing with
        | Some r => Ret (Ok r)
        | None => Sync generate_step (fun tunnel_id => Bind (request_candidates plan sn) (fun res =>
            match res with
            | Err e => Ret (Err e)
            | Ok (eps, prediction) => Sync (request_step tunnel_id remote plan eps) (fun res =>
                match res with
                | Err e => Ret (Err e)
                | Ok request => Sync (validate_owned_step prediction) (fun v =>
                    match v with
                    | Err e => Ret (Err e)
                    | Ok _ =>
                        Enter (install_own_step remote (rq_seq request) tunnel_id (expected_of_caller (rp_caller_action plan)))
                          (initiator_body remote_eps remote sn plan fallback tunnel_id request) Ret
                    end)
                end)
            end))
        end))
    end).

Definition open_nat_aware_tunnel (remote_eps : list Endpoint) (remote sn : P2pId) (context : NatTraversalContext)
    (plan : ConnectPlan) : fut (P2pResult nat) :=
  let fallback := action_for plan Caller in
  match rendezvous_plan plan with
  | None => open_nat_aware_tunnel_legacy remote_eps remote sn context fallback
  | Some rendezvous =>
      timed (Bind (open_rendezvous_tunnel remote_eps remote sn rendezvous fallback) (fun res =>
        match res with
        | Ok r => Ret (Ok r)
        | Err _ => open_nat_aware_tunnel_legacy remote_eps remote sn context fallback
        end))
  end.

(** ** The peer's rendezvous *)

(** The owner is installed and the task spawned, which waits to be started. *)
Definition install_target_step (remote : P2pId) (seq tunnel_id : Z) (expected : option bool) (w : World)
  : option (P2pResult nat * option Guard * World) :=
  let n := w_next w in
  let '(res, w1) := install remote seq tunnel_id false expected w in
  match res, w_spawn w with
  | Err e, _ => Some (Err e, None, w1)
  | Ok _, Err e =>
      Some (Err e, None, set_manager (cancel_rendezvous_owner remote seq tunnel_id n (w_manager w1)) w1)
  | Ok _, Ok _ => Some (Ok n, Some (GTarget remote seq tunnel_id n), w1)
  end.

Definition attach_step (remote : P2pId) (seq tunnel_id : Z) (n : nat) :=
  on_manager (fun _ m =>
    let '(attached, m) := attach_rendezvous_task remote seq tunnel_id n n n m in
    Some (attached, if attached : bool then m else cancel_rendezvous_owner remote seq tunnel_id n m)).

Definition target_action (n : nat) (remote : P2pId) (notify : SnTunnelRendezvousNotify) : fut (P2pResult nat) :=
  match nt_operation notify with
  | PunchOnly => punch_and_wait_incoming (nt_end_point_array notify) remote (nt_tunnel_id notify) true n
  | WaitIncoming => wait_planned_incoming remote n
  | op => open_direct_path (nt_end_point_array notify) remote
            (set_udp_punch_enabled (bool_decide (op = PunchAndReverseConnect)) (intent_of (nt_tunnel_id notify) true))
  end.

Definition target_task (remote : P2pId) (notify : SnTunnelRendezvousNotify) (g : Guard) : fut (Release * unit) :=
  let n := guard_number g in
  Await (WaitStart n) (fun _ =>
    Race (timed (target_action n remote notify)) (Await (WaitCancel n) Ret) (fun _ => false) (fun _ => false)
      (fun fin => match fin with
                  | First res | FirstThen res _ | SecondThen _ res => Ret (RComplete res, tt)
                  | Second _ => Ret (RComplete (Err P2pErrorCode.UserCanceled), tt)
                  end)).

Definition ack_of (p : option TraversalEndpointPrediction) : SnTunnelRendezvousActionAck :=
  match p with
  | Some p => mkAck (tp_endpoints p) (tp_socket_binding_generation p) (tp_valid_until p)
  | None => without_prediction
  end.

Definition arm_target (remote : P2pId) (notify : SnTunnelRendezvousNotify) (p : option TraversalEndpointPrediction)
  : fut (P2pResult SnTunnelRendezvousActionAck) :=
  Fork (install_target_step remote (nt_seq notify) (nt_tunnel_id notify) (expected_of_target (nt_operation notify)))
    (target_task remote notify)
    (fun res => match res with
                | Err e => Ret (Err e)
                | Ok n => Sync (attach_step remote (nt_seq notify) (nt_tunnel_id notify) n) (fun attached : bool =>
                    Ret (if attached then Ok (ack_of p) else Err P2pErrorCode.Conflict))
                end).

Definition on_sn_rendezvous (notify : SnTunnelRendezvousNotify) (serving_sn : P2pId)
  : fut (P2pResult SnTunnelRendezvousActionAck) :=
  match notify_validate test_real_socket_matrix hash_probe notify, cert_create (nt_peer_info notify) with
  | Err e, _ => Ret (Err e)
  | Ok _, Err e => Ret (Err e)
  | Ok _, Ok cert =>
      let remote := cert_get_id cert in
      Sync (read (fun w => tm_local_id (w_manager w))) (fun local =>
        if bool_decide (remote = local) then Ret (Err P2pErrorCode.PermissionDenied)
        else if nt_need_predict_endpoint notify then
          Bind (predict_owned_rendezvous_endpoints serving_sn) (fun res =>
            match res with
            | Err e => Ret (Err e)
            | Ok p => Sync (validate_owned_step (Some p)) (fun v =>
                match v with Err e => Ret (Err e) | Ok _ => arm_target remote notify (Some p) end)
            end)
        else arm_target remote notify None)
  end.

(** ** The super node's call *)

Definition extend_eps (eps more : list Endpoint) : list Endpoint := foldl push_unique_endpoint eps more.

Definition called_endpoints_step (called : SnCalled) (cert : Cert) :=
  read (fun w =>
    if from_option (fun v => sv_is_same_lan v (cd_reverse_endpoint_array called)) false (w_sn w)
    then extend_eps (cert_endpoints cert) (cd_reverse_endpoint_array called)
    else extend_eps (cd_reverse_endpoint_array called) (cert_endpoints cert)).

(** The plan's action when the call carries a valid context of an active SN. *)
Definition nat_action (called : SnCalled) (cert : Cert) (w : World) : option PlanAction :=
  context ← cd_nat_context called;
  let local := tm_local_id (w_manager w) in
  let active_on_called_sn :=
    from_option (fun v => bool_decide (cd_sn_peer_id called ∈ sv_active_sn_list v)) false (w_sn w) in
  if negb active_on_called_sn || negb (is_valid_for context (cert_get_id cert) local (w_time w)) then None
  else
    match w_local_endpoints w with
    | Err _ => None
    | Ok local_eps =>
        let plan := select_connect_plan context (w_time w) (has_static_wan_identity (cert_endpoints cert))
                      (has_static_wan_identity local_eps) in
        match action_for plan Callee with ActionLegacy => None | action => Some action end
    end.

Definition has_id_step (remote : P2pId) (tunnel_id : Z) :=
  on_manager (fun w => has_available_tunnel_id (w_now w) remote tunnel_id).

Definition unit_result (res : P2pResult nat) : P2pResult unit := match res with Ok _ => Ok tt | Err e => Err e end.

Definition called_action (remote : P2pId) (eps : list Endpoint) (tunnel_id : Z) (action : PlanAction)
  : fut (P2pResult unit) :=
  let run := execute_nat_action action Callee eps remote tunnel_id in
  if plan_waits action then
    Enter (register_waiter_step remote tunnel_id false)
      (fun g => Bind (run (Some (guard_number g))) (fun res =>
         Ret (match res with Ok _ => RDismiss | Err _ => RDrop end, unit_result res))) Ret
  else Bind (run None) (fun res => Ret (unit_result res)).

Definition on_sn_called (called : SnCalled) : fut (P2pResult unit) :=
  match cert_create (cd_peer_info called) with
  | Err e => Ret (Err e)
  | Ok cert =>
      let remote := cert_get_id cert in
      let tunnel_id := cd_tunnel_id called in
      Sync (has_id_step remote tunnel_id) (fun known : bool =>
        if known then Ret (Ok tt)
        else Sync (called_endpoints_step called cert) (fun eps =>
          Await (CacheGet remote) (fun info : option P2pConnectionInfo => Sync (prefer_step (ci_remote_ep <$> info) eps) (fun eps =>
            Sync (read (nat_action called cert)) (fun action =>
              with_lock remote (Sync (has_id_step remote tunnel_id) (fun known : bool =>
                if known then Ret (Ok tt)
                else match action with
                     | Some action => called_action remote eps tunnel_id action
                     | None => Bind (open_direct_path eps remote (intent_of tunnel_id true)) (fun res => Ret (unit_result res))
                     end)))))))
  end.

(** ** Entry points *)

Definition open_tunnel (cert : Cert) : fut (P2pResult nat) := open_known_tunnel (cert_endpoints cert) (cert_get_id cert).

Definition open_direct_tunnel (remote_eps : list Endpoint) (remote : P2pId) : fut (P2pResult nat) :=
  Sync (get_tunnel_step remote) (fun existing =>
    match existing with Some r => Ret (Ok r) | None => open_known_tunnel remote_eps remote end).

(** The plan for a peer that was looked up, when there is one. *)
Definition lookup_plan (cert : Cert) (context : NatTraversalContext) (w : World) : P2pResult (option ConnectPlan) :=
  if negb (is_valid_for context (tm_local_id (w_manager w)) (cert_get_id cert) (w_time w)) then Ok None
  else
    local_eps <-? w_local_endpoints w ;;
    let plan := select_connect_plan context (w_time w) (has_static_wan_identity local_eps)
                  (has_static_wan_identity (cert_endpoints cert)) in
    Ok (match action_for plan Caller with ActionLegacy => None | _ => Some plan end).

Definition open_tunnel_from_lookup (lookup : PeerLookupInfo Cert) : fut (P2pResult nat) :=
  let cert := lk_identity_cert lookup in
  let remote := cert_get_id cert in
  let known := open_known_tunnel (cert_endpoints cert) remote in
  match lk_sn_peer_id lookup, lk_local_net_profile lookup, lk_remote_net_profile lookup with
  | Some sn, Some caller_profile, Some callee_profile =>
      Sync (read (fun w => context_new (tm_local_id (w_manager w)) remote caller_profile callee_profile)) (fun context =>
        Sync (read (lookup_plan cert context)) (fun plan =>
          match plan with
          | Err e => Ret (Err e)
          | Ok None => known
          | Ok (Some plan) => open_nat_aware_tunnel (cert_endpoints cert) remote sn context plan
          end))
  | _, _, _ => known
  end.

Definition proxy_by_id (remote : P2pId) : fut (P2pResult nat) :=
  Sync generate_step (fun tunnel_id => open_proxy_path remote (intent_of tunnel_id false)).

Definition open_tunnel_from_id (remote : P2pId) : fut (P2pResult nat) :=
  Sync (get_tunnel_step remote) (fun existing =>
    match existing with
    | Some r => Ret (Ok r)
    | None => Sync (read w_finder) (fun finder : bool =>
        if finder then Await (FindPeer remote) (fun res =>
          match res with Ok lookup => open_tunnel_from_lookup lookup | Err _ => proxy_by_id remote end)
        else proxy_by_id remote)
    end).

(** [try_upgrade_proxy_tunnel] and the attempt around it. *)
Definition reverse_by_id (remote : P2pId) : fut (P2pResult nat) :=
  Sync generate_step (fun tunnel_id => open_reverse_path remote tunnel_id).

Definition try_upgrade_proxy_tunnel (remote : P2pId) : fut (P2pResult nat) :=
  Sync (existing_step false remote) (fun existing =>
    match existing with
    | Some r => Ret (Ok r)
    | None => Sync (read w_finder) (fun finder : bool =>
        if finder then Await (FindCert remote) (fun res =>
          match res with
          | Ok cert => if bool_decide (cert_endpoints cert = []) then reverse_by_id remote
                       else open_known_tunnel_with_options (cert_endpoints cert) remote false false
          | Err _ => reverse_by_id remote
          end)
        else reverse_by_id remote)
    end).

Definition attempt_end_step (remote : P2pId) (generation : Z) (res : P2pResult nat) :=
  on_manager (fun w m => m ← attempt_end (w_now w) remote generation res m; Some (tt, m)).
Definition attempt_proxy_upgrade_generation (remote : P2pId) (generation : Z) : fut unit :=
  Sync (read (fun w => attempt_current remote generation (w_manager w))) (fun current : bool =>
    if current then Bind (try_upgrade_proxy_tunnel remote) (fun res => Sync (attempt_end_step remote generation res) Ret)
    else Ret tt).
End opening.
Arguments World : clear implicits.
