(* ===== verification/OpeningInvariant.v ===== *)
(** * The invariant of the manager while tunnels are opened (tunnel/tunnel_manager.rs)

    Every waiter for an incoming tunnel, every rendezvous attempt and every lock
    belongs to a guard, and what was sent to waiting futures was meant for them.
    Each operation of the manager that [Opening] uses keeps this. *)

From stdpp Require Import functions.
From S2P Require Import Prelude.
From S2P Require Import Errors.
From S2P Require Import Ids.
From S2P Require Import Endpoint.
From S2P Require Import NatType.
From S2P Require Import SnProtocol.
From S2P Require Import NatConnectPlan.
From S2P Require Import TunnelActivity.
From S2P Require Import TunnelManager.
From S2P Require Import ProxyUpgrade.
From S2P Require Import RendezvousOwner.
From S2P Require Import OpenTunnel.
From S2P Require Import SnService.
From S2P Require Import SnClient.
From S2P Require Import QuicListener.
From S2P Require Import DeviceFinder.
From S2P Require Import Async.
From S2P Require Import Opening.

(** ** Operations on the registry *)

Section quiet.
Context {T : Type} `{!TunnelOps T, !TunnelWork T, !TunnelLaws T}.
Implicit Types (m : TunnelManager T).

(** An operation that leaves waiters and attempts alone and sends nothing to
    them. *)
Record quiet m m' : Prop := {
  q_waiters : ms_waiters (tm_state m') = ms_waiters (tm_state m);
  q_attempts : ms_attempts (tm_state m') = ms_attempts (tm_state m);
  q_heap : forall r, tn_identity (tm_heap m' r) = tn_identity (tm_heap m r);
  q_log : exists l, tm_log m' = tm_log m ++ l /\ Forall (fun e => exists r, e = Told r) l }.

#[global] Instance quiet_preorder : PreOrder quiet.
Proof.
  split.
  - intros m. split; [done..|]. exists []. by rewrite app_nil_r.
  - intros m1 m2 m3 [Hw1 Ha1 Hh1 (l1 & Hl1 & Hf1)] [Hw2 Ha2 Hh2 (l2 & Hl2 & Hf2)].
    split; [congruence|congruence|intros r; by rewrite Hh2|].
    exists (l1 ++ l2). rewrite Hl2, Hl1, app_assoc. split; [done|]. by apply Forall_app.
Qed.

Lemma quiet_plain m m' :
  ms_waiters (tm_state m') = ms_waiters (tm_state m) -> ms_attempts (tm_state m') = ms_attempts (tm_state m) ->
  tm_heap m' = tm_heap m -> tm_log m' = tm_log m -> quiet m m'.
Proof. intros Hw Ha Hh Hl. split; [done|done|by intros r; rewrite Hh|]. exists []. by rewrite app_nil_r. Qed.

Lemma upgrade_change_quiet remote now s b s' :
  upgrade_change remote now s b s' -> ms_waiters s' = ms_waiters s /\ ms_attempts s' = ms_attempts s.
Proof. by destruct 1. Qed.

Lemma reconcile_quiet now remote m m' : reconcile now remote m = Some m' -> quiet m m'.
Proof.
  intros (b & s & -> & Hch & _)%reconcile_spec. apply upgrade_change_quiet in Hch as [Hw Ha]. by apply quiet_plain.
Qed.

Lemma prune_quiet remote m : quiet m (prune remote m).
Proof. unfold prune. case_match; by apply quiet_plain. Qed.

Lemma get_quiet now remote keep hidden m r m' :
  get_tunnel_with_filter now remote keep hidden m = Some (r, m') -> quiet m m'.
Proof.
  unfold get_tunnel_with_filter. destruct (reconcile _ _ _) as [m2|] eqn:Hr; simpl; [|done]. intros [= _ <-].
  etrans; [apply prune_quiet|by eapply reconcile_quiet].
Qed.

Lemma has_id_quiet now remote id m b m' : has_available_tunnel_id now remote id m = Some (b, m') -> quiet m m'.
Proof.
  unfold has_available_tunnel_id. destruct (reconcile _ _ _) as [m2|] eqn:Hr; simpl; [|done]. intros [= _ <-].
  etrans; [apply prune_quiet|by eapply reconcile_quiet].
Qed.

Lemma close_quiet r m : quiet m (snd (close_tunnel r m)).
Proof.
  destruct (close_all_frame [r] m) as (_ & Hs & _ & _ & Hid & _). simpl in *.
  unfold close_tunnel in *. destruct (tn_close _) as [res t]. simpl in *. split; [done|done|done|].
  exists []. by rewrite app_nil_r.
Qed.

Lemma close_all_quiet rs m : quiet m (close_all_tunnels rs m).
Proof. revert m. induction rs as [|r rs IH]; intros m; [reflexivity|]. etrans; [apply close_quiet|apply IH]. Qed.

Lemma register_quiet now r m res m' : register_tunnel now r m = Some (res, m') -> quiet m m'.
Proof.
  unfold register_tunnel. case_match; [by intros [= _ <-]|]. case_match.
  - destruct (reconcile _ _ _) as [m1|] eqn:Hr; simpl; [|done]. intros [= _ <-].
    etrans; [|case_match; [reflexivity|apply close_quiet]]. etrans; [|by eapply reconcile_quiet]. by apply quiet_plain.
  - case_match; simpl; [intros [= _ <-]; by apply quiet_plain|]. case_match.
    + destruct (insert_proxy_upgrade _ _ _) as [s|] eqn:Hi; simpl; [|done]. intros [= _ <-].
      apply insert_proxy_upgrade_change, upgrade_change_quiet in Hi as [Hw Ha]. by apply quiet_plain.
    + destruct (reconcile _ _ _) as [m1|] eqn:Hr; simpl; [|done]. intros [= _ <-].
      etrans; [|by eapply reconcile_quiet]. by apply quiet_plain.
Qed.

Lemma publish_quiet now r m : quiet m (snd (publish_registered_tunnel now r m)).
Proof.
  unfold publish_registered_tunnel. destruct (publish_entry _ _ _ _) as [[[] es]|]; [|reflexivity..].
  split; [done..|]. exists [Told r]. split; [done|]. repeat constructor. by exists r.
Qed.

Lemma register_publish_quiet now r m res m' :
  register_tunnel_and_publish now r m = Some (res, m') -> registry_ok m -> quiet m m' /\ registry_ok m'.
Proof.
  unfold register_tunnel_and_publish. destruct (register_tunnel now r m) as [[res1 m1]|] eqn:Hr; simpl; [|done].
  intros [= H] Hok. pose proof (register_quiet _ _ _ _ _ Hr) as Hq. pose proof (register_tunnel_ok _ _ _ _ _ Hok Hr) as Hok1.
  destruct res1 as [[]|e]; [|by simplify_eq].
  pose proof (publish_quiet now r m1) as Hq2. destruct (publish_registered_tunnel now r m1) as [res2 m2] eqn:Hp.
  simplify_eq. split; [by etrans|]. by eapply publish_ok.
Qed.

Lemma get_ok now remote keep hidden m r m' :
  get_tunnel_with_filter now remote keep hidden m = Some (r, m') -> registry_ok m -> quiet m m' /\ registry_ok m'.
Proof.
  intros Hg Hok. split; [by eapply get_quiet|]. unfold get_tunnel_with_filter in Hg.
  destruct (reconcile _ _ _) as [m2|] eqn:Hr; simpl in Hg; [|done]. simplify_eq. by eapply pruned_reconcile_ok.
Qed.

Lemma has_id_ok now remote id m b m' :
  has_available_tunnel_id now remote id m = Some (b, m') -> registry_ok m -> quiet m m' /\ registry_ok m'.
Proof.
  intros Hg Hok. split; [by eapply has_id_quiet|]. unfold has_available_tunnel_id in Hg.
  destruct (reconcile _ _ _) as [m2|] eqn:Hr; simpl in Hg; [|done]. simplify_eq. by eapply pruned_reconcile_ok.
Qed.

Lemma slot_take_elem h e slot e' : slot_take h e slot = Some e' -> e' = e \/ slot = Some e'.
Proof. unfold slot_take. repeat case_match; naive_solver. Qed.

Lemma select_fold_elem (h : nat -> T) es slots e :
  let r := foldl (select_step h) slots es in
  fst r = Some e \/ snd r = Some e -> e ∈ es \/ fst slots = Some e \/ snd slots = Some e.
Proof.
  revert slots. induction es as [|x es IH]; intros slots; simpl; [by right|]. intros H. apply IH in H as [H|H]; [set_solver|].
  unfold select_step in H. destruct (entry_proxy h x); simpl in H.
  - destruct H as [H|[-> |H]%slot_take_elem]; auto. left. set_solver.
  - destruct H as [[-> |H]%slot_take_elem|H]; auto. left. set_solver.
Qed.

Lemma select_elem (h : nat -> T) es e : select_preferred_tunnel_entry h es = Some e -> e ∈ es.
Proof.
  unfold select_preferred_tunnel_entry. intros Hs. destruct (select_fold_elem h es (None, None) e) as [?|[?|?]]; [|done..].
  destruct (foldl _ _ es) as [[a|] b]; simplify_eq; simpl; auto.
Qed.

Lemma prune_keeps_entries remote m e : e ∈ entries_of remote (prune remote m) -> e ∈ entries_of remote m.
Proof.
  unfold prune, entries_of. destruct (tm_tunnels m !! remote) as [es|] eqn:E; [|by rewrite E]. simpl.
  destruct (retain_available (tm_heap m) es) as [|x l] eqn:Er; simpl; [rewrite lookup_delete_eq; set_solver|].
  rewrite lookup_insert_eq. simpl. rewrite <-Er. by intros [_ ?]%list_elem_of_filter.
Qed.

(** What a lookup returns is a tunnel with that peer. *)
Lemma get_remote now remote keep hidden m r m' :
  get_tunnel_with_filter now remote keep hidden m = Some (Some r, m') -> registry_ok m ->
  tn_remote_id (tm_heap m r) = remote.
Proof.
  unfold get_tunnel_with_filter. destruct (reconcile _ _ _) as [m2|] eqn:Hr; simpl; [|done]. intros [= Hsel _] [Ht _ _].
  assert (exists e, e ∈ entries_of remote m /\ te_tunnel e = r) as (e & He & <-).
  { destruct (select_preferred_tunnel_entry _ (filter te_published _)) as [e|] eqn:E1; simpl in Hsel.
    - apply select_elem in E1 as [_ [_ E1]%list_elem_of_filter]%list_elem_of_filter. simplify_eq.
      exists e. split; [by apply prune_keeps_entries|done].
    - destruct hidden; simpl in Hsel; [|done].
      destruct (select_preferred_tunnel_entry _ _) as [e|] eqn:E2 in Hsel; simpl in Hsel; [|done]. simplify_eq.
      apply select_elem in E2 as [_ E2]%list_elem_of_filter. exists e. split; [by apply prune_keeps_entries|done]. }
  unfold entries_of in He. destruct (tm_tunnels m !! remote) as [es|] eqn:E; simpl in He; [|set_solver].
  by apply (Ht _ _ E).
Qed.

Lemma note_quiet now ep ok m : quiet m (note_connect now ep ok m).
Proof. by apply quiet_plain. Qed.

Lemma finalize_quiet now remote r m b m' : finalize_proxy_upgrade_success now remote r m = Some (b, m') -> quiet m m'.
Proof.
  unfold finalize_proxy_upgrade_success. case_match; [by intros [= _ <-]|]. case_match.
  - simpl. intros [= _ <-]. etrans; [|apply close_all_quiet]. by apply quiet_plain.
  - destruct (reconcile _ _ _) as [m1|] eqn:Hr; simpl; [|done]. intros [= _ <-]. by eapply reconcile_quiet.
Qed.

Lemma failed_quiet now remote generation m :
  quiet m (snd (on_proxy_upgrade_failed_generation now remote generation m)).
Proof.
  unfold on_proxy_upgrade_failed_generation, upgrade_failed_generation.
  repeat case_match; simplify_eq; by apply quiet_plain.
Qed.

Lemma attempt_end_quiet now remote generation res m m' :
  attempt_end now remote generation res m = Some m' -> registry_ok m -> quiet m m' /\ registry_ok m'.
Proof.
  unfold attempt_end. destruct res as [r|e].
  - destruct (finalize_proxy_upgrade_success _ _ _ _) as [[b m1]|] eqn:Hf; simpl; [|done]. intros [= <-] Hok.
    split; [by eapply finalize_quiet|by eapply finalize_ok].
  - intros [= <-] Hok. split; [apply failed_quiet|by apply failed_ok].
Qed.
End quiet.

(** ** The invariant *)

Definition locks_of (gs : list Guard) : list P2pId := omap (fun g => match g with GLock r => Some r | _ => None end) gs.

(** The guard an attempt in its slot belongs to. *)
Definition guard_of (remote : P2pId) (o : RendezvousAttemptOwner) : Guard :=
  (if ro_initiator_local o then GOwner else GTarget) remote (ro_seq o) (ro_tunnel_id o) (ro_token o).

Section invariant.
Context {T : Type} `{!TunnelOps T, !TunnelWork T, !TunnelLaws T}.
Notation World := (World T).
Implicit Types (w : World) (g : Guard) (gs : list Guard) (o : RendezvousAttemptOwner) (k : IncomingWaitKey).

Definition waiters_of w := ms_waiters (tm_state (w_manager w)).
Definition attempts_of w := ms_attempts (tm_state (w_manager w)).
Definition log_of w := tm_log (w_manager w).
Definition key_of w (r : nat) : IncomingWaitKey :=
  let t := tm_heap (w_manager w) r in (tn_remote_id t, tn_tunnel_id t, tn_is_reverse t).

(** A waiter belongs to a registration or to the attempt in the peer's slot. *)
Definition waiter_held gs w k (e : IncomingWaiterEntry) : Prop :=
  GWaiter k (iw_token e) ∈ gs \/
  exists o, attempts_of w !! fst (fst k) = Some o /\ ro_token o = iw_token e /\ ro_tunnel_id o = snd (fst k) /\
    ro_expected_reverse o = Some (snd k).

Record attempt_ok w (remote : P2pId) o : Prop := {
  ao_task : ro_task o = None \/ ro_task o = Some (ro_token o);
  ao_running : TaskAborted (ro_token o) ∉ log_of w;
  ao_number : w_owners w !! ro_token o = Some (remote, ro_seq o, ro_tunnel_id o);
  ao_completions : forall c, c ∈ ro_completions o -> exists s i, w_owners w !! c = Some (remote, s, i) }.

Record waiter_ok w k (e : IncomingWaiterEntry) : Prop := {
  we_same : iw_token e = iw_waiter e;
  we_key : w_keys w !! iw_waiter e = Some k;
  we_open : forall res, Notified (iw_waiter e) res ∉ log_of w }.

(** What was sent was meant for its receiver. *)
Definition event_ok w (e : Event) : Prop :=
  match e with
  | Notified c res => exists r, res = Ok r /\ w_keys w !! c = Some (key_of w r)
  | Completed c (Ok r) => exists s i, w_owners w !! c = Some (remote_of w r, s, i)
  | TaskAborted t => (t < w_next w)%nat
  | _ => True
  end.

Record open_inv gs w : Prop := {
  oi_registry : registry_ok (w_manager w);
  oi_held : forall k e, waiters_of w !! k = Some e -> waiter_held gs w k e;
  oi_waiters : forall k e, waiters_of w !! k = Some e -> waiter_ok w k e;
  oi_guarded : forall remote o, attempts_of w !! remote = Some o -> guard_of remote o ∈ gs;
  oi_attempts : forall remote o, attempts_of w !! remote = Some o -> attempt_ok w remote o;
  oi_events : forall e, e ∈ log_of w -> event_ok w e;
  oi_fresh : forall n, (w_next w <= n)%nat -> w_keys w !! n = None /\ w_owners w !! n = None;
  oi_locks : w_locks w ≡ₚ locks_of gs /\ NoDup (w_locks w) }.

Record grows w w' : Prop := {
  gr_log : forall e, e ∈ log_of w -> e ∈ log_of w';
  gr_heap : forall r, tn_identity (tm_heap (w_manager w') r) = tn_identity (tm_heap (w_manager w) r);
  gr_keys : w_keys w ⊆ w_keys w';
  gr_owners : w_owners w ⊆ w_owners w';
  gr_next : (w_next w <= w_next w')%nat }.

Definition releasable (r : Release) g w : Prop :=
  match r, g with
  | RDrop, GTarget _ _ _ n => TaskAborted n ∈ log_of w
  | RDrop, _ => True
  | RDismiss, GWaiter _ n => exists res, Notified n res ∈ log_of w
  | RComplete res, GOwner remote _ _ _ | RComplete res, GTarget remote _ _ _ => opens w remote res
  | _, _ => False
  end.

#[global] Instance grows_preorder : PreOrder grows.
Proof.
  split; [by intros w; split|]. intros w1 w2 w3 [H1 H2 H3 H4 H5] [K1 K2 K3 K4 K5].
  split; [by auto|intros r; by rewrite K2|by etrans|by etrans|lia].
Qed.

Lemma identity_parts (t t' : T) :
  tn_identity t' = tn_identity t ->
  tn_remote_id t' = tn_remote_id t /\ tn_tunnel_id t' = tn_tunnel_id t /\ tn_is_reverse t' = tn_is_reverse t.
Proof. unfold tn_identity. intros H. by simplify_eq. Qed.

Lemma grows_key w w' r : grows w w' -> key_of w' r = key_of w r.
Proof. intros Hg. destruct (identity_parts _ _ (gr_heap _ _ Hg r)) as (H1 & H2 & H3). unfold key_of. congruence. Qed.

Lemma grows_remote w w' r : grows w w' -> remote_of w' r = remote_of w r.
Proof. intros Hg. by destruct (identity_parts _ _ (gr_heap _ _ Hg r)) as (H1 & _). Qed.

Lemma grows_opens w w' remote res : grows w w' -> opens w remote res -> opens w' remote res.
Proof. intros Hg. destruct res as [r|e]; simpl; [|done]. by rewrite (grows_remote _ _ _ Hg). Qed.

Lemma grows_event w w' e : grows w w' -> event_ok w e -> event_ok w' e.
Proof.
  intros Hg. destruct e as [c [r|]|c res|c|c|t|t|t]; simpl; try done.
  - intros (s & i & Hc). exists s, i. rewrite (grows_remote _ _ _ Hg). by eapply lookup_weaken, gr_owners.
  - intros (r & -> & Hc). exists r. split; [done|]. rewrite (grows_key _ _ _ Hg). by eapply lookup_weaken, gr_keys.
  - intros Ht. pose proof (gr_next _ _ Hg). lia.
Qed.

Lemma releasable_grows r g w w' : grows w w' -> releasable r g w -> releasable r g w'.
Proof.
  intros Hg. destruct r as [| |res], g; simpl; try done.
  - by apply gr_log.
  - intros [res Hres]. exists res. by eapply gr_log.
  - by apply grows_opens.
  - by apply grows_opens.
Qed.

Lemma locks_of_perm gs gs' : gs ≡ₚ gs' -> locks_of gs ≡ₚ locks_of gs'.
Proof. apply omap_Permutation. Qed.

#[global] Instance open_inv_perm : Proper ((≡ₚ) ==> eq ==> iff) open_inv.
Proof.
  assert (forall gs gs' w, gs ≡ₚ gs' -> open_inv gs w -> open_inv gs' w) as Himp.
  { intros gs gs' w Hp [H1 H2 H3 H4 H5 H6 H7 H8]. split; try done.
    - intros k e He. destruct (H2 k e He) as [Hg|Ho]; [left; by rewrite <-Hp|by right].
    - intros remote o Ho. rewrite <-Hp. by apply H4.
    - by rewrite <-(locks_of_perm _ _ Hp). }
  intros gs gs' Hp w w' ->. split; apply Himp; [done|by symmetry].
Qed.

(** ** Updates *)

(** How a new state may differ: everything in it is old, or was created with the
    number just taken. *)
Record update gs' w w' (evs : list Event) : Prop := {
  up_registry : registry_ok (w_manager w');
  up_heap : forall r, tn_identity (tm_heap (w_manager w') r) = tn_identity (tm_heap (w_manager w) r);
  up_log : log_of w' = log_of w ++ evs;
  up_keys : w_keys w ⊆ w_keys w';
  up_owners : w_owners w ⊆ w_owners w';
  up_next : (w_next w <= w_next w')%nat;
  up_fresh : forall n, (w_next w' <= n)%nat -> w_keys w' !! n = None /\ w_owners w' !! n = None;
  up_events : forall e, e ∈ evs -> event_ok w' e;
  up_held : forall k e, waiters_of w' !! k = Some e -> waiter_held gs' w' k e;
  up_waiters : forall k e, waiters_of w' !! k = Some e ->
    (forall res, Notified (iw_waiter e) res ∉ evs) /\
    (waiters_of w !! k = Some e \/ (e = mkIncomingWaiter (w_next w) (w_next w) /\ w_keys w' !! w_next w = Some k));
  up_guarded : forall remote o, attempts_of w' !! remote = Some o -> guard_of remote o ∈ gs';
  up_attempts : forall remote o, attempts_of w' !! remote = Some o ->
    TaskAborted (ro_token o) ∉ evs /\
    (forall c, c ∈ ro_completions o -> exists s i, w_owners w' !! c = Some (remote, s, i)) /\
    ((exists o0, attempts_of w !! remote = Some o0 /\ ro_seq o = ro_seq o0 /\ ro_tunnel_id o = ro_tunnel_id o0 /\
        ro_token o = ro_token o0 /\ (ro_task o = ro_task o0 \/ ro_task o = Some (ro_token o))) \/
     (ro_token o = w_next w /\ ro_task o = None /\ w_owners w' !! w_next w = Some (remote, ro_seq o, ro_tunnel_id o)));
  up_locks : w_locks w' ≡ₚ locks_of gs' /\ NoDup (w_locks w') }.

Lemma update_inv gs gs' w w' evs : open_inv gs w -> update gs' w w' evs -> open_inv gs' w' /\ grows w w'.
Proof.
  intros [H1 H2 H3 H4 H5 H6 H7 H8] [U1 U2 U3 U4 U5 U6 U7 U8 U9 U10 U11 U12 U13].
  assert (grows w w') as Hg by (split; [intros e He; rewrite U3; apply elem_of_app; by left|done..]).
  assert (forall n, (w_next w <= n)%nat -> (forall res, Notified n res ∉ log_of w) /\ TaskAborted n ∉ log_of w) as Hnew.
  { intros n Hn. split.
    - intros res He%H6. simpl in He. destruct He as (r & _ & Hk). destruct (H7 n Hn) as [Hk' _]. congruence.
    - intros He%H6. simpl in He. lia. }
  split; [|done]. split; try done.
  - intros k e He. destruct (U10 k e He) as [Hn [Hold|[-> Hk]]].
    + destruct (H3 k e Hold) as [Hs Hk Ho]. split; [done|by eapply lookup_weaken|].
      intros res. rewrite U3. intros [?|?]%elem_of_app; [by eapply Ho|by eapply Hn].
    + split; [done|done|]. intros res. rewrite U3. intros [He'|He']%elem_of_app; [|by eapply Hn].
      by apply (proj1 (Hnew (w_next w) (Nat.le_refl _)) res).
  - intros remote o Ho. destruct (U12 remote o Ho) as (Hn & Hc & [(o0 & Ho0 & Hs & Hi & Ht & Hk)|(Ht & Hk & Hw)]).
    + destruct (H5 _ _ Ho0) as [K1 K2 K3 K4]. split; [|rewrite U3, Ht in *; by intros [?|?]%elem_of_app| |done].
      * rewrite Ht in *. destruct Hk as [-> | ->]; [done|by right].
      * rewrite Hs, Hi, Ht. by eapply lookup_weaken.
    + split; [by left| |by rewrite Ht|done]. rewrite U3, Ht in *. intros [He|He]%elem_of_app; [|done].
      by apply (proj2 (Hnew (w_next w) (Nat.le_refl _))).
  - intros e. rewrite U3. intros [He|He]%elem_of_app; [|by apply U8]. by eapply grows_event, H6.
Qed.

(** Operations on the registry. *)
Lemma quiet_inv gs w m' :
  open_inv gs w -> quiet (w_manager w) m' -> registry_ok m' ->
  open_inv gs (set_manager m' w) /\ grows w (set_manager m' w).
Proof.
  intros Hi [Qw Qa Qh (l & Ql & Qf)] Hok. pose proof Hi as [H1 H2 H3 H4 H5 H6 H7 H8].
  rewrite Forall_forall in Qf. eapply update_inv; [exact Hi|]. split; try done.
  - intros e He. by destruct (Qf e He) as [r ->].
  - unfold waiters_of. simpl. rewrite Qw. intros k e He. destruct (H2 k e He) as [?|Ho]; [by left|right].
    unfold attempts_of in *. simpl. by rewrite Qa.
  - unfold waiters_of. simpl. rewrite Qw. intros k e He. split; [|by left]. intros res Hn. by destruct (Qf _ Hn).
  - unfold attempts_of. simpl. rewrite Qa. apply H4.
  - unfold attempts_of. simpl. rewrite Qa. intros remote o Ho. destruct (H5 remote o Ho) as [K1 K2 K3 K4].
    split; [by intros (r & ?)%Qf|]. split; [done|]. left. exists o. naive_solver.
Qed.

(** Changes elsewhere. *)
Record same_core w w' : Prop := {
  sc_manager : w_manager w' = w_manager w;
  sc_next : w_next w' = w_next w;
  sc_locks : w_locks w' = w_locks w;
  sc_keys : w_keys w' = w_keys w;
  sc_owners : w_owners w' = w_owners w }.

Lemma core_inv gs w w' : open_inv gs w -> same_core w w' -> open_inv gs w' /\ grows w w'.
Proof.
  intros [H1 H2 H3 H4 H5 H6 H7 H8] [C1 C2 C3 C4 C5].
  assert (grows w w') as Hg.
  { split; [unfold log_of; by rewrite C1|by rewrite C1|by rewrite C4|by rewrite C5|by rewrite C2]. }
  split; [|done]. split.
  - by rewrite C1.
  - unfold waiter_held, waiters_of, attempts_of in *. by rewrite C1.
  - unfold waiters_of in *. rewrite C1. intros k e He. destruct (H3 k e He). split; [done|by rewrite C4|].
    unfold log_of in *. by rewrite C1.
  - unfold attempts_of in *. by rewrite C1.
  - unfold attempts_of in *. rewrite C1. intros remote o Ho. destruct (H5 remote o Ho).
    split; [done|unfold log_of in *; by rewrite C1|by rewrite C5|by rewrite C5].
  - unfold log_of in *. rewrite C1. intros e He. by eapply grows_event, H6.
  - by rewrite C2, C4, C5.
  - by rewrite C3.
Qed.
End invariant.

(** ** Waiters and attempts *)

Section guards.
Context {T : Type} `{!TunnelOps T, !TunnelWork T, !TunnelLaws T}.
Notation World := (World T).
Implicit Types (w : World) (g : Guard) (gs : list Guard) (o : RendezvousAttemptOwner) (k : IncomingWaitKey)
  (m : TunnelManager T).

Lemma registry_ok_state m m' :
  tm_tunnels m' = tm_tunnels m -> tm_heap m' = tm_heap m ->
  ms_upgrades (tm_state m') = ms_upgrades (tm_state m) ->
  ms_next_generation (tm_state m') = ms_next_generation (tm_state m) -> registry_ok m -> registry_ok m'.
Proof.
  intros Ht Hh Hu Hg [H1 H2 H3]. split.
  - unfold table_ok. by rewrite Ht, Hh.
  - unfold generations_ok. by rewrite Hu, Hg.
  - by rewrite Hu, Ht.
Qed.

(** Waiters go, everything else stays. *)
Lemma shrink_inv gs gs' w s' :
  open_inv gs w ->
  ms_attempts s' = attempts_of w -> ms_upgrades s' = ms_upgrades (tm_state (w_manager w)) ->
  ms_next_generation s' = ms_next_generation (tm_state (w_manager w)) ->
  (forall k e, ms_waiters s' !! k = Some e -> waiters_of w !! k = Some e /\ waiter_held gs' w k e) ->
  (forall remote o, attempts_of w !! remote = Some o -> guard_of remote o ∈ gs') -> w_locks w ≡ₚ locks_of gs' ->
  let w' := set_manager (set_mstate s' (w_manager w)) w in open_inv gs' w' /\ grows w w'.
Proof.
  intros Hi Ha Hu Hn Hw Hg Hl. simpl. pose proof Hi as [H1 H2 H3 H4 H5 H6 H7 H8].
  eapply (update_inv _ _ _ _ []); [exact Hi|]. split; try done.
  - by apply (registry_ok_state (w_manager w)).
  - unfold log_of. simpl. by rewrite app_nil_r.
  - intros e He. by apply not_elem_of_nil in He.
  - intros k e [_ He]%Hw. unfold waiter_held, attempts_of in *. simpl. by rewrite Ha.
  - intros k e [He _]%Hw. split; [intros res; apply not_elem_of_nil|by left].
  - intros remote o. unfold attempts_of in *. simpl. rewrite Ha. apply Hg.
  - intros remote o. unfold attempts_of in *. simpl. rewrite Ha. intros Ho. destruct (H5 remote o Ho).
    split; [apply not_elem_of_nil|]. split; [done|]. left. exists o. naive_solver.
  - split; [done|apply H8].
Qed.

(** A registration is dropped. *)
Lemma drop_waiter_inv gs k n w :
  open_inv (GWaiter k n :: gs) w ->
  open_inv gs (release_guard RDrop (GWaiter k n) w) /\ grows w (release_guard RDrop (GWaiter k n) w).
Proof.
  intros Hi. pose proof Hi as [H1 H2 H3 H4 H5 H6 H7 H8]. destruct k as [[remote id] rev]. simpl.
  eapply shrink_inv; [exact Hi| | | | | |by apply H8];
    [unfold remove_incoming_waiter; by repeat case_match|unfold remove_incoming_waiter; by repeat case_match
    |unfold remove_incoming_waiter; by repeat case_match| |].
  - intros k e He.
    assert (waiters_of w !! k = Some e /\ (k = (remote, id, rev) -> iw_token e <> n)) as [Hold Hne].
    { unfold remove_incoming_waiter in He. fold (waiters_of w) in He.
      destruct (waiters_of w !! (remote, id, rev)) as [e0|] eqn:E; simpl in He.
      - destruct (Nat.eqb_spec (iw_token e0) n); simpl in He.
        + apply lookup_delete_Some in He as [Hne He]. split; [done|]. intros ->. done.
        + split; [done|]. intros ->. pose proof (eq_trans (eq_sym He) E) as Heq. by simplify_eq.
      - split; [done|]. intros ->. by pose proof (eq_trans (eq_sym He) E). }
    split; [done|]. destruct (H2 k e Hold) as [[Hg|Hg]%elem_of_cons|Ho]; [|by left|by right].
    exfalso. injection Hg as ? Hn. subst k. by apply Hne.
  - intros r o Ho. apply H4 in Ho as [Hg|Hg]%elem_of_cons; [|done]. unfold guard_of in Hg. by destruct (ro_initiator_local o).
Qed.

(** A waiter that was notified is no longer registered. *)
Lemma dismiss_waiter_inv gs k n w res :
  open_inv (GWaiter k n :: gs) w -> Notified n res ∈ log_of w -> open_inv gs w.
Proof.
  intros [H1 H2 H3 H4 H5 H6 H7 H8] Hn. split; try done.
  - intros k' e He. destruct (H2 k' e He) as [[Hg|Hg]%elem_of_cons|Ho]; [|by left|by right].
    exfalso. injection Hg as <- Ht. destruct (H3 _ _ He) as [Hs _ Ho]. apply (Ho res). by rewrite <-Hs, Ht.
  - intros r o Ho. apply H4 in Ho as [Hg|Hg]%elem_of_cons; [|done]. unfold guard_of in Hg. by destruct (ro_initiator_local o).
Qed.

Definition guards_attempt g (remote : P2pId) (seq id : Z) (token : nat) : Prop :=
  g = GOwner remote seq id token \/ g = GTarget remote seq id token.

Lemma guard_of_attempt remote o g r s i n :
  guards_attempt g r s i n -> guard_of remote o = g ->
  remote = r /\ ro_seq o = s /\ ro_tunnel_id o = i /\ ro_token o = n.
Proof. unfold guard_of. destruct (ro_initiator_local o); intros [-> | ->] H; by simplify_eq. Qed.

(** A guard whose attempt lost its slot. *)
Lemma stale_guard_inv gs g remote s i n w :
  open_inv (g :: gs) w -> guards_attempt g remote s i n ->
  (forall o, attempts_of w !! remote = Some o -> owner_is s i n o = false \/ guard_of remote o ∈ gs) -> open_inv gs w.
Proof.
  intros [H1 H2 H3 H4 H5 H6 H7 H8] Hg Hno. split; try done.
  - intros k e He. destruct (H2 k e He) as [[Hk|Hk]%elem_of_cons|Ho]; [|by left|by right].
    destruct Hg as [-> | ->]; done.
  - intros r o Ho. pose proof (H4 r o Ho) as [He|He]%elem_of_cons; [|done].
    destruct (guard_of_attempt _ _ _ _ _ _ _ Hg He) as (-> & Hs & Hi & Hn). destruct (Hno o Ho) as [Hf|]; [|done].
    unfold owner_is in Hf. rewrite Hs, Hi, Hn, !Z.eqb_refl, Nat.eqb_refl in Hf. done.
  - split; [|apply H8]. destruct H8 as [H8 _]. by destruct Hg as [-> | ->].
Qed.

(** What is sent when an attempt leaves its slot. *)
Definition farewell w (remote : P2pId) o (ev : Event) : Prop :=
  match ev with
  | Completed c res => c ∈ ro_completions o /\ opens w remote res
  | Cancelled _ | Yielded _ => True
  | TaskAborted t => t = ro_token o
  | _ => False
  end.

Lemma owner_number w (remote : P2pId) o gs : open_inv gs w -> attempts_of w !! remote = Some o -> (ro_token o < w_next w)%nat.
Proof.
  intros Hi Ho. destruct (oi_attempts _ _ Hi _ _ Ho) as [_ _ Hn _].
  destruct (decide (w_next w <= ro_token o)%nat) as [Hle|]; [|lia]. destruct (oi_fresh _ _ Hi _ Hle). congruence.
Qed.

Lemma farewell_event w w' remote o ev gs :
  open_inv gs w -> grows w w' -> attempts_of w !! remote = Some o -> farewell w remote o ev -> event_ok w' ev.
Proof.
  intros Hi Hg Ho Hf. apply (grows_event w); [done|]. destruct ev as [c [r|]|c res|c|c|t|t|t]; simpl in *; try done.
  - destruct Hf as [Hc <-]. destruct (oi_attempts _ _ Hi _ _ Ho). eauto.
  - subst t. by eapply owner_number.
Qed.

Lemma remove_attempt_inv gs g w remote o s i n m' evs :
  open_inv (g :: gs) w -> guards_attempt g remote s i n -> attempts_of w !! remote = Some o ->
  registry_ok m' -> tm_heap m' = tm_heap (w_manager w) -> ms_attempts (tm_state m') = delete remote (attempts_of w) ->
  (forall k e, ms_waiters (tm_state m') !! k = Some e -> waiters_of w !! k = Some e /\
     (forall rev, ro_expected_reverse o = Some rev -> k = (remote, ro_tunnel_id o, rev) -> iw_token e <> ro_token o)) ->
  tm_log m' = log_of w ++ evs -> (forall ev, ev ∈ evs -> farewell w remote o ev) ->
  open_inv gs (set_manager m' w) /\ grows w (set_manager m' w).
Proof.
  intros Hi Hg Ho Hr Hh Ha Hw Hl Hev. pose proof Hi as [H1 H2 H3 H4 H5 H6 H7 H8].
  assert (grows w (set_manager m' w)) as Hgr.
  { split; [unfold log_of; simpl; rewrite Hl; set_solver|by simpl; rewrite Hh|done..]. }
  eapply (update_inv _ _ _ _ evs); [exact Hi|]. split; try done.
  - by simpl; rewrite Hh.
  - intros ev Hin. by eapply farewell_event; [exact Hi|exact Hgr|exact Ho|apply Hev].
  - intros k e He. destruct (Hw k e He) as [Hold Hne].
    destruct (H2 k e Hold) as [[Hk|Hk]%elem_of_cons|(o' & Ho' & Ht & Hid & Hrev)].
    + destruct Hg as [-> | ->]; done.
    + by left.
    + right. exists o'. unfold attempts_of in *. simpl. rewrite Ha. destruct (decide (fst (fst k) = remote)) as [Hk|Hk].
      * exfalso. assert (o' = o) as -> by congruence. apply (Hne (snd k)); [done| |done].
        destruct k as [[a b] c]. simpl in *. by subst.
      * by rewrite lookup_delete_ne.
  - intros k e He. destruct (Hw k e He) as [Hold _]. split; [|by left]. intros res Hin. by apply Hev in Hin.
  - unfold attempts_of. simpl. rewrite Ha. intros r o' [Hne Ho']%lookup_delete_Some.
    pose proof (H4 _ _ Ho') as [He|He]%elem_of_cons; [|done]. exfalso. apply Hne.
    by destruct (guard_of_attempt _ _ _ _ _ _ _ Hg He) as (-> & _).
  - unfold attempts_of. simpl. rewrite Ha. intros r o' [Hne Ho']%lookup_delete_Some.
    destruct (H5 _ _ Ho') as [K1 K2 K3 K4]. split.
    + intros Ht%Hev. simpl in Ht. destruct (H5 _ _ Ho) as [_ _ Hn _]. rewrite <-Ht, K3 in Hn. by simplify_eq.
    + split; [done|]. left. exists o'. naive_solver.
  - split; [|apply H8]. destruct H8 as [H8 _]. by destruct Hg as [-> | ->].
Qed.
End guards.

Section attempts.
Context {T : Type} `{!TunnelOps T, !TunnelWork T, !TunnelLaws T}.
Notation World := (World T).
Implicit Types (w : World) (g : Guard) (gs : list Guard) (o : RendezvousAttemptOwner) (k : IncomingWaitKey)
  (m : TunnelManager T) (remote : P2pId).

Lemma remove_owner_upgrades remote o s : ms_upgrades (remove_owner_waiter remote o s) = ms_upgrades s.
Proof. unfold remove_owner_waiter, remove_incoming_waiter. by repeat case_match. Qed.

Lemma remove_owner_generation remote o s : ms_next_generation (remove_owner_waiter remote o s) = ms_next_generation s.
Proof. unfold remove_owner_waiter, remove_incoming_waiter. by repeat case_match. Qed.

Lemma owner_is_spec s i n o : owner_is s i n o = true <-> ro_seq o = s /\ ro_tunnel_id o = i /\ ro_token o = n.
Proof. unfold owner_is. rewrite !andb_true_iff, !Z.eqb_eq, Nat.eqb_eq. tauto. Qed.

Lemma take_owner_cases remote s i n st r st' :
  take_owner remote s i n st = (r, st') ->
  match r with
  | Some o => ms_attempts st !! remote = Some o /\ owner_is s i n o = true /\
              st' = remove_owner_waiter remote o (set_attempts (delete remote (ms_attempts st)) st)
  | None => st' = st /\ forall o, ms_attempts st !! remote = Some o -> owner_is s i n o = false
  end.
Proof.
  unfold take_owner. destruct (ms_attempts st !! remote) as [o|] eqn:E.
  - destruct (owner_is s i n o) eqn:Eo; intros [= <- <-]; [done|]. split; [done|]. intros o' [= <-]. done.
  - intros [= <- <-]. done.
Qed.

(** The events of an abort. *)
Lemma abort_events remote o m w :
  opens w remote cancelled /\ forall ev,
  ev ∈ [Cancelled (ro_cancel o)] ++ (match ro_task o with Some t => [TaskAborted t] | None => [] end)
         ++ answer_completions cancelled (ro_completions o) ->
  (ro_task o = None \/ ro_task o = Some (ro_token o)) -> farewell w remote o ev.
Proof.
  split; [done|]. intros ev Hev Htask. apply elem_of_app in Hev as [->%list_elem_of_singleton|[Hev|Hev]%elem_of_app]; [done| |].
  - destruct Htask as [E|E]; rewrite E in Hev; [by apply not_elem_of_nil in Hev|].
    apply list_elem_of_singleton in Hev as ->. done.
  - apply list_elem_of_fmap in Hev as (c & -> & Hc). done.
Qed.

Lemma cancel_inv gs g remote s i n w :
  open_inv (g :: gs) w -> guards_attempt g remote s i n ->
  let w' := set_manager (cancel_rendezvous_owner remote s i n (w_manager w)) w in open_inv gs w' /\ grows w w'.
Proof.
  intros Hi Hg. simpl. unfold cancel_rendezvous_owner.
  destruct (take_owner remote s i n (tm_state (w_manager w))) as [[o|] st] eqn:Ht; apply take_owner_cases in Ht.
  - destruct Ht as (Ho & His & ->).
    destruct (oi_attempts _ _ Hi _ _ Ho) as [Htask _ _ _].
    eapply remove_attempt_inv; [exact Hi|exact Hg|exact Ho| | | | |reflexivity|].
    + eapply registry_ok_state; [..|apply Hi]; simpl; by rewrite ?remove_owner_upgrades, ?remove_owner_generation.
    + done.
    + simpl. by rewrite !remove_owner_attempts.
    + intros k e He. simpl in He. apply remove_owner_lookup in He as [He Hne].
      apply remove_owner_lookup in He as [He _]. done.
    + intros ev Hev. by apply (abort_events remote o (w_manager w) w).
  - destruct Ht as [_ Hno]. assert (set_manager (w_manager w) w = w) as -> by (by destruct w).
    split; [|reflexivity]. eapply stale_guard_inv; [exact Hi|exact Hg|]. intros o Ho. left. by apply Hno.
Qed.

Lemma complete_inv gs g remote s i n res w :
  open_inv (g :: gs) w -> guards_attempt g remote s i n -> opens w remote res ->
  let w' := set_manager (complete_rendezvous_owner remote s i n res (w_manager w)) w in open_inv gs w' /\ grows w w'.
Proof.
  intros Hi Hg Hres. simpl. unfold complete_rendezvous_owner.
  destruct (take_owner remote s i n (tm_state (w_manager w))) as [[o|] st] eqn:Ht; apply take_owner_cases in Ht.
  - destruct Ht as (Ho & His & ->).
    eapply remove_attempt_inv; [exact Hi|exact Hg|exact Ho| | | | |reflexivity|].
    + eapply registry_ok_state; [..|apply Hi]; simpl; by rewrite ?remove_owner_upgrades, ?remove_owner_generation.
    + done.
    + simpl. by rewrite !remove_owner_attempts.
    + intros k e He. simpl in He. by apply remove_owner_lookup in He.
    + intros ev Hev. apply list_elem_of_fmap in Hev as (c & -> & Hc). done.
  - destruct Ht as [_ Hno]. assert (set_manager (w_manager w) w = w) as -> by (by destruct w).
    split; [|reflexivity]. eapply stale_guard_inv; [exact Hi|exact Hg|]. intros o Ho. left. by apply Hno.
Qed.

(** The task is attached, or its attempt has lost the slot meanwhile. *)
Lemma attach_inv gs remote s i n w b m' :
  open_inv gs w -> w_owners w !! n = Some (remote, s, i) ->
  attach_rendezvous_task remote s i n n n (w_manager w) = (b, m') ->
  (open_inv gs (set_manager m' w) /\ grows w (set_manager m' w)) /\
  (b = false -> cancel_rendezvous_owner remote s i n m' = m').
Proof.
  intros Hi Hn. pose proof Hi as [H1 H2 H3 H4 H5 H6 H7 H8]. unfold attach_rendezvous_task.
  assert ((forall o, attempts_of w !! remote = Some o -> owner_is s i n o = false) ->
    let m1 := emit_all [TaskAborted n] (w_manager w) in
    (open_inv gs (set_manager m1 w) /\ grows w (set_manager m1 w)) /\
    (false = false -> cancel_rendezvous_owner remote s i n m1 = m1)) as Hlost.
  { intros Hno. simpl. split.
    - eapply (update_inv _ _ _ _ [TaskAborted n]); [exact Hi|]. split; try done.
      + by apply (registry_ok_state (w_manager w)).
      + intros e ->%list_elem_of_singleton. simpl. destruct (decide (w_next w <= n)%nat) as [Hle|]; [|lia].
        destruct (H7 n Hle). congruence.
      + intros k e He. split; [intros res ?%list_elem_of_singleton; done|by left].
      + intros r o Ho. destruct (H5 r o Ho) as [K1 K2 K3 K4]. split.
        * intros [= Ht]%list_elem_of_singleton. rewrite Ht, Hn in K3. simplify_eq.
          assert (owner_is (ro_seq o) (ro_tunnel_id o) (ro_token o) o = true) by (by apply owner_is_spec).
          rewrite (Hno o Ho) in *. done.
        * split; [done|]. left. exists o. naive_solver.
    - intros _. unfold cancel_rendezvous_owner. simpl.
      destruct (take_owner remote s i n (tm_state (w_manager w))) as [[o|] st] eqn:Ht; apply take_owner_cases in Ht; [|done].
      destruct Ht as (Ho & His & _). by rewrite (Hno o Ho) in His. }
  destruct (ms_attempts (tm_state (w_manager w)) !! remote) as [o|] eqn:Eo.
  2:{ intros [= <- <-]. apply Hlost. unfold attempts_of. by rewrite Eo. }
  destruct (owner_is s i n o) eqn:His.
  2:{ intros [= <- <-]. apply Hlost. unfold attempts_of. rewrite Eo. by intros ? [= <-]. }
  intros [= <- <-]. split; [|done]. apply owner_is_spec in His as (<- & <- & <-).
  eapply (update_inv _ _ _ _ [TaskStarted (ro_token o)]); [exact Hi|]. split; try done.
  - by apply (registry_ok_state (w_manager w)).
  - intros e ->%list_elem_of_singleton. done.
  - intros k e He. destruct (H2 k e He) as [?|(o' & Ho' & Hk)]; [by left|]. right. unfold attempts_of in *. simpl.
    destruct (decide (fst (fst k) = remote)) as [<-|Hne].
    + exists (with_task (ro_token o) o). rewrite lookup_insert_eq. by simplify_eq.
    + exists o'. by rewrite lookup_insert_ne.
  - intros k e He. split; [intros res ?%list_elem_of_singleton; done|by left].
  - unfold attempts_of. simpl. intros r o' [[<- <-]|[_ Ho']]%lookup_insert_Some; [by apply (H4 _ _ Eo)|by apply H4].
  - unfold attempts_of. simpl. intros r o' Ho'. split; [by intros ?%list_elem_of_singleton|].
    apply lookup_insert_Some in Ho' as [[<- <-]|[_ Ho']].
    + destruct (H5 _ _ Eo) as [K1 K2 K3 K4]. split; [done|]. left. exists o. naive_solver.
    + destruct (H5 _ _ Ho') as [K1 K2 K3 K4]. split; [done|]. left. exists o'. naive_solver.
Qed.

(** A registration is entered under the next number. *)
Lemma register_waiter_inv gs remote id rev w :
  open_inv gs w ->
  let n := w_next w in
  let w' := set_manager (set_mstate (add_incoming_waiter remote id rev n n (tm_state (w_manager w))) (w_manager w))
              (take_number (Some (remote, id, rev)) None w) in
  open_inv (GWaiter (remote, id, rev) n :: gs) w' /\ grows w w' /\ w_keys w' !! n = Some (remote, id, rev).
Proof.
  intros Hi n w'. pose proof Hi as [H1 H2 H3 H4 H5 H6 H7 H8].
  assert (w_keys w' !! n = Some (remote, id, rev)) as Hkey by (simpl; by rewrite lookup_insert_eq).
  assert (w_keys w ⊆ w_keys w') as Hsub by (apply insert_subseteq; by apply (H7 n)).
  enough (open_inv (GWaiter (remote, id, rev) n :: gs) w' /\ grows w w') by naive_solver.
  eapply (update_inv _ _ _ _ []); [exact Hi|]. split; try done.
  - by apply (registry_ok_state (w_manager w)).
  - unfold log_of. simpl. by rewrite app_nil_r.
  - simpl. lia.
  - simpl. intros x Hx. rewrite lookup_insert_ne by lia. apply H7. lia.
  - intros e He. by apply not_elem_of_nil in He.
  - unfold waiters_of. simpl. intros k e [[<- <-]|[_ He]]%lookup_insert_Some; [left; by left|].
    destruct (H2 k e He) as [?|?]; [left; by right|by right].
  - unfold waiters_of. simpl. intros k e He. split; [intros res; apply not_elem_of_nil|].
    apply lookup_insert_Some in He as [[<- <-]|[_ He]]; [by right|by left].
  - intros r o Ho. right. by apply H4.
  - intros r o Ho. destruct (H5 r o Ho). split; [apply not_elem_of_nil|]. split; [done|]. left. exists o. naive_solver.
Qed.
End attempts.

(** ** Entering an attempt *)

Section install.
Context {T : Type} `{!TunnelOps T, !TunnelWork T, !TunnelLaws T}.
Notation World := (World T).
Implicit Types (w : World) (gs : list Guard) (o : RendezvousAttemptOwner) (k : IncomingWaitKey)
  (m : TunnelManager T) (remote : P2pId).

Lemma take_number_facts gs key owner w :
  open_inv gs w ->
  let w' := take_number key owner w in
  w_keys w ⊆ w_keys w' /\ w_owners w ⊆ w_owners w' /\
  (forall n, (w_next w' <= n)%nat -> w_keys w' !! n = None /\ w_owners w' !! n = None).
Proof.
  intros Hi. pose proof (oi_fresh _ _ Hi) as Hf. destruct (Hf (w_next w) (Nat.le_refl _)) as [Hk Ho]. simpl.
  split; [destruct key; [by apply insert_subseteq|done]|]. split; [destruct owner; [by apply insert_subseteq|done]|].
  intros n Hn. destruct (Hf n) as [Hk' Ho']; [lia|]. destruct key, owner; rewrite ?lookup_insert_ne by lia; done.
Qed.

Lemma take_number_inv gs key owner w :
  open_inv gs w -> open_inv gs (take_number key owner w) /\ grows w (take_number key owner w).
Proof.
  intros Hi. destruct (take_number_facts gs key owner w Hi) as (Hk & Ho & Hf).
  pose proof Hi as [H1 H2 H3 H4 H5 H6 H7 H8]. eapply (update_inv _ _ _ _ []); [exact Hi|]. split; try done.
  - unfold log_of. simpl. by rewrite app_nil_r.
  - simpl. lia.
  - intros e He. by apply not_elem_of_nil in He.
  - intros k e He. split; [intros res; apply not_elem_of_nil|by left].
  - intros r o Hr. destruct (H5 r o Hr) as [K1 K2 K3 K4]. split; [apply not_elem_of_nil|]. split.
    + intros c (s & i & Hc)%K4. exists s, i. by eapply lookup_weaken.
    + left. exists o. naive_solver.
Qed.

Definition displaced_event w remote (ev : Event) : Prop :=
  match ev with
  | Completed _ res => res = cancelled
  | Cancelled _ | Yielded _ => True
  | TaskAborted t => exists o, attempts_of w !! remote = Some o /\ t = ro_token o
  | _ => False
  end.

(** A waiter is an old one that did not belong to the slot's former attempt, or
    the new attempt's. *)
Definition slot_waiter w remote o k (e : IncomingWaiterEntry) : Prop :=
  (waiters_of w !! k = Some e /\
     forall o0, attempts_of w !! remote = Some o0 -> forall rev, ro_expected_reverse o0 = Some rev ->
       k = (remote, ro_tunnel_id o0, rev) -> iw_token e <> ro_token o0) \/
  (e = mkIncomingWaiter (w_next w) (w_next w) /\
     exists rev, ro_expected_reverse o = Some rev /\ k = (remote, ro_tunnel_id o, rev)).

Lemma slot_inv gs w m' remote o evs :
  let key := (fun rev => (remote, ro_tunnel_id o, rev)) <$> ro_expected_reverse o in
  let w' := set_manager m' (take_number key (Some (remote, ro_seq o, ro_tunnel_id o)) w) in
  open_inv gs w -> registry_ok m' -> tm_heap m' = tm_heap (w_manager w) ->
  ro_token o = w_next w -> ro_task o = None ->
  (forall c, c ∈ ro_completions o ->
     c = w_next w \/ exists o0, attempts_of w !! remote = Some o0 /\ c ∈ ro_completions o0) ->
  ms_attempts (tm_state m') = <[remote := o]> (attempts_of w) ->
  (forall k e, ms_waiters (tm_state m') !! k = Some e -> slot_waiter w remote o k e) ->
  tm_log m' = log_of w ++ evs -> (forall ev, ev ∈ evs -> displaced_event w remote ev) ->
  open_inv (guard_of remote o :: gs) w' /\ grows w w'.
Proof.
  intros key w' Hi Hr Hh Htok Htask Hc Ha Hw Hl Hev. pose proof Hi as [H1 H2 H3 H4 H5 H6 H7 H8].
  destruct (take_number_facts gs key (Some (remote, ro_seq o, ro_tunnel_id o)) w Hi) as (Hk & Ho & Hf).
  assert (w_owners w' !! w_next w = Some (remote, ro_seq o, ro_tunnel_id o)) as Hown by (simpl; by rewrite lookup_insert_eq).
  eapply (update_inv _ _ _ _ evs); [exact Hi|]. split; try done.
  - simpl. by rewrite Hh.
  - simpl. lia.
  - intros ev Hin%Hev. destruct ev as [c res|c res|c|c|t|t|t]; simpl in *; try done; [by subst|].
    destruct Hin as (o0 & Ho0 & ->). apply (owner_number _ _ _ _ Hi) in Ho0. lia.
  - intros k e [[Hold Hne]|[-> (rev & Hrev & ->)]]%Hw.
    + destruct (H2 k e Hold) as [?|(o' & Ho' & Ht & Hid & Hrev)]; [left; by right|]. right. exists o'.
      unfold attempts_of in *. simpl. rewrite Ha. destruct (decide (fst (fst k) = remote)) as [Hk'|Hk'].
      * exfalso. subst remote. apply (Hne o' Ho' (snd k)); [done| |done]. destruct k as [[a b] c]. simpl in *. by subst.
      * by rewrite lookup_insert_ne.
    + right. exists o. unfold attempts_of. simpl. rewrite Ha, lookup_insert_eq. naive_solver.
  - intros k e He%Hw. split; [by intros res Hin%Hev|]. destruct He as [[Hold _]|[-> (rev & Hrev & ->)]]; [by left|].
    right. split; [done|]. simpl. unfold key. rewrite Hrev. simpl. by rewrite lookup_insert_eq.
  - unfold attempts_of. simpl. rewrite Ha. intros r o' [[<- <-]|[_ Ho']]%lookup_insert_Some; [by left|].
    right. by apply H4.
  - unfold attempts_of. simpl. rewrite Ha. intros r o' [[<- <-]|[Hne Ho']]%lookup_insert_Some.
    + split.
      * intros (o0 & Ho0 & Ht)%Hev. apply (owner_number _ _ _ _ Hi) in Ho0. lia.
      * split; [|by right]. intros c [->|(o0 & Ho0 & Hin)]%Hc; [by eexists _, _|].
        destruct (H5 _ _ Ho0) as [_ _ _ K4]. destruct (K4 c Hin) as (s & i & Hs). exists s, i.
        exact (lookup_weaken _ _ _ _ Hs Ho).
    + destruct (H5 _ _ Ho') as [K1 K2 K3 K4]. split.
      * intros (o0 & Ho0 & Ht)%Hev. destruct (H5 _ _ Ho0) as [_ _ Hn _]. rewrite <-Ht, K3 in Hn. by simplify_eq.
      * split; [|left; exists o'; naive_solver]. intros c (s & i & Hs)%K4. exists s, i.
        exact (lookup_weaken _ _ _ _ Hs Ho).
  - split; [|apply H8]. simpl. unfold guard_of. destruct H8 as [H8 _]. by destruct (ro_initiator_local o).
Qed.

Lemma publish_slot remote o n s k e :
  ms_waiters (publish_rendezvous_waiter remote o (if ro_expected_reverse o then Some n else None) s) !! k = Some e ->
  ms_waiters s !! k = Some e \/
  (e = mkIncomingWaiter (ro_token o) n /\ exists rev, ro_expected_reverse o = Some rev /\ k = (remote, ro_tunnel_id o, rev)).
Proof.
  unfold publish_rendezvous_waiter. destruct (ro_expected_reverse o) as [rev|]; [|by left].
  unfold add_incoming_waiter. simpl. intros [[<- <-]|[_ He]]%lookup_insert_Some; [right|by left]. eauto.
Qed.

Lemma publish_frame remote o v s :
  ms_upgrades (publish_rendezvous_waiter remote o v s) = ms_upgrades s /\
  ms_next_generation (publish_rendezvous_waiter remote o v s) = ms_next_generation s.
Proof. unfold publish_rendezvous_waiter. by repeat case_match. Qed.

(** What [install] enters. *)
Definition new_owner w (seq id : Z) (il : bool) (expected : option bool) : RendezvousAttemptOwner :=
  mkOwner seq il (w_next w) None expected id (w_next w) (if il then [w_next w] else []) (w_next w).
Definition numbered remote (seq id : Z) (expected : option bool) (m' : TunnelManager T) w : World :=
  set_manager m' (take_number ((fun rev => (remote, id, rev)) <$> expected) (Some (remote, seq, id)) w).

Lemma new_owner_completions w seq id il expected c : c ∈ ro_completions (new_owner w seq id il expected) -> c = w_next w.
Proof. simpl. destruct il; [by intros ->%list_elem_of_singleton|]. intros Hc. by apply not_elem_of_nil in Hc. Qed.

(** The slot was free. *)
Lemma install_free_inv gs remote seq id il expected w :
  let o := new_owner w seq id il expected in
  let v := if expected then Some (w_next w) else None in
  let m' := set_mstate (put_attempt remote o (publish_rendezvous_waiter remote o v (tm_state (w_manager w)))) (w_manager w) in
  open_inv gs w -> attempts_of w !! remote = None ->
  open_inv (guard_of remote o :: gs) (numbered remote seq id expected m' w) /\
  grows w (numbered remote seq id expected m' w).
Proof.
  intros o v m' Hi Hn. apply (slot_inv gs w m' remote o []); try done.
  - eapply registry_ok_state; [..|apply Hi]; simpl; try done; by destruct (publish_frame remote o v (tm_state (w_manager w))).
  - intros c Hin. left. by apply new_owner_completions in Hin.
  - simpl. by rewrite publish_attempts.
  - simpl. intros k e [?|?]%publish_slot; [left|by right]. split; [done|]. by rewrite Hn.
  - simpl. by rewrite app_nil_r.
  - intros ev Hev. by apply not_elem_of_nil in Hev.
Qed.

(** The new attempt takes the slot of [ex]; callers that wait for a yielding one
    move over. *)
Definition moved_owner (yields : bool) ex o : RendezvousAttemptOwner :=
  if yields then with_completions (ro_completions o ++ ro_completions ex) o else o.
Definition displaced_owner (yields : bool) ex : RendezvousAttemptOwner := if yields then with_completions [] ex else ex.
Definition displacement (yields : bool) remote ex o (v : option nat) m : TunnelManager T :=
  let s2 := put_attempt remote (moved_owner yields ex o) (publish_rendezvous_waiter remote (moved_owner yields ex o) v
              (remove_owner_waiter remote (displaced_owner yields ex) (tm_state m))) in
  abort_rendezvous_owner remote (displaced_owner yields ex)
    ((if yields then emit_all [Yielded (ro_yielded ex)] else id) (set_mstate s2 m)).
Definition displacement_events (yields : bool) ex : list Event :=
  let dis := displaced_owner yields ex in
  (if yields then [Yielded (ro_yielded ex)] else []) ++ [Cancelled (ro_cancel dis)]
  ++ (match ro_task dis with Some t => [TaskAborted t] | None => [] end) ++ answer_completions cancelled (ro_completions dis).

Lemma displacement_waiters yields remote ex o m k e :
  ms_waiters (tm_state (displacement yields remote ex o (if ro_expected_reverse o then Some (ro_token o) else None) m)) !! k
    = Some e ->
  (ms_waiters (tm_state m) !! k = Some e /\
   forall rev, ro_expected_reverse ex = Some rev -> k = (remote, ro_tunnel_id ex, rev) -> iw_token e <> ro_token ex) \/
  (e = mkIncomingWaiter (ro_token o) (ro_token o) /\
   exists rev, ro_expected_reverse o = Some rev /\ k = (remote, ro_tunnel_id o, rev)).
Proof.
  intros He. unfold displacement in He.
  set (v := if ro_expected_reverse o then _ else _) in He.
  assert (ms_waiters (remove_owner_waiter remote (displaced_owner yields ex) (put_attempt remote (moved_owner yields ex o)
    (publish_rendezvous_waiter remote (moved_owner yields ex o) v
      (remove_owner_waiter remote (displaced_owner yields ex) (tm_state m))))) !! k = Some e) as He' by (by destruct yields).
  apply remove_owner_lookup in He' as [He' _]. simpl in He'.
  assert (v = if ro_expected_reverse (moved_owner yields ex o) then Some (ro_token o) else None) as Hv by (by destruct yields).
  rewrite Hv in He'. apply publish_slot in He' as [He'|(-> & rev & Hrev & ->)].
  - apply remove_owner_lookup in He' as [He' Hne]. left. split; [done|]. by destruct yields.
  - right. destruct yields; simpl in *; eauto.
Qed.

Lemma displacement_event w remote ex yields ev :
  attempts_of w !! remote = Some ex -> (ro_task ex = None \/ ro_task ex = Some (ro_token ex)) ->
  ev ∈ displacement_events yields ex -> displaced_event w remote ev.
Proof.
  intros Hex Htask. unfold displacement_events. intros [Hev|Hev]%elem_of_app.
  { destruct yields; [apply list_elem_of_singleton in Hev as ->; done|by apply not_elem_of_nil in Hev]. }
  assert (ro_task (displaced_owner yields ex) = ro_task ex) as Ht by (by destruct yields).
  apply elem_of_app in Hev as [->%list_elem_of_singleton|[Hev|Hev]%elem_of_app]; [done| |].
  - destruct Htask as [E|E]; rewrite Ht, E in Hev; [by apply not_elem_of_nil in Hev|].
    apply list_elem_of_singleton in Hev as ->. simpl. by exists ex.
  - apply list_elem_of_fmap in Hev as (c & -> & _). done.
Qed.

Lemma install_displacing_inv gs remote seq id il expected w ex yields :
  let o := new_owner w seq id il expected in
  let v := if expected then Some (w_next w) else None in
  let m' := displacement yields remote ex o v (w_manager w) in
  open_inv gs w -> attempts_of w !! remote = Some ex ->
  open_inv (guard_of remote o :: gs) (numbered remote seq id expected m' w) /\
  grows w (numbered remote seq id expected m' w).
Proof.
  intros o v m' Hi Hex. destruct (oi_attempts _ _ Hi _ _ Hex) as [Htask _ _ _].
  pose proof (slot_inv gs w m' remote (moved_owner yields ex o) (displacement_events yields ex)) as Hslot.
  assert (guard_of remote (moved_owner yields ex o) = guard_of remote o /\
    ro_expected_reverse (moved_owner yields ex o) = expected /\ ro_tunnel_id (moved_owner yields ex o) = id /\
    ro_token (moved_owner yields ex o) = w_next w /\ ro_seq (moved_owner yields ex o) = seq /\
    ro_task (moved_owner yields ex o) = None) as (Hg & H1 & H2 & H3 & H4 & H5) by (by destruct yields).
  rewrite Hg, H1, H2, H4 in Hslot. apply Hslot; clear Hslot; try done.
  - eapply registry_ok_state; [..|apply Hi]; destruct yields; simpl; try done;
      rewrite ?remove_owner_upgrades, ?remove_owner_generation; simpl;
      rewrite ?(proj1 (publish_frame _ _ _ _)), ?(proj2 (publish_frame _ _ _ _)), ?remove_owner_upgrades, ?remove_owner_generation; done.
  - by destruct yields.
  - intros c Hin. destruct yields; [|left; by eapply new_owner_completions].
    apply elem_of_app in Hin as [Hin|Hin]; [left; by eapply new_owner_completions|right; by exists ex].
  - destruct yields; simpl; rewrite remove_owner_attempts; simpl; by rewrite publish_attempts, remove_owner_attempts.
  - intros k e [[He Hne]|(-> & rev & Hrev & ->)]%displacement_waiters.
    + left. split; [done|]. rewrite Hex. by intros o0 [= <-].
    + right. split; [done|]. exists rev. by rewrite H1, H2.
  - unfold m', displacement, displacement_events, log_of. destruct yields; simpl; [by rewrite <-app_assoc|done].
  - intros ev. by eapply displacement_event.
Qed.

(** The own attempt yields to the peer's in the slot. *)
Lemma install_yielding_inv gs remote seq id expected w ex :
  let o := new_owner w seq id true expected in
  let m' := emit_all [Yielded (w_next w); Cancelled (w_next w)]
              (set_mstate (put_attempt remote (with_completions (ro_completions ex ++ ro_completions o) ex) (tm_state (w_manager w)))
                 (w_manager w)) in
  open_inv gs w -> attempts_of w !! remote = Some ex ->
  open_inv (guard_of remote o :: gs) (numbered remote seq id expected m' w) /\
  grows w (numbered remote seq id expected m' w).
Proof.
  intros o m' Hi Ex. pose proof Hi as [H1 H2 H3 H4 H5 H6 H7 H8]. unfold attempts_of in Ex.
  pose proof (take_number_facts gs ((fun rev => (remote, id, rev)) <$> expected) (Some (remote, seq, id)) w Hi) as (Hk & Ho & Hf).
  eapply (update_inv _ _ _ _ [Yielded (w_next w); Cancelled (w_next w)]); [exact Hi|]. split; try done.
  - by apply (registry_ok_state (w_manager w)).
  - simpl. lia.
  - intros ev Hev. apply elem_of_cons in Hev as [->| ->%list_elem_of_singleton]; done.
  - intros k e He. destruct (H2 k e He) as [?|(o' & Ho' & Ht & Hid & Hrev)]; [left; by right|]. right.
    unfold attempts_of in *. simpl. destruct (decide (fst (fst k) = remote)) as [Hk'|Hk'].
    + exists (with_completions (ro_completions ex ++ ro_completions o) ex). subst remote. rewrite lookup_insert_eq.
      rewrite Ex in Ho'. by simplify_eq.
    + exists o'. by rewrite lookup_insert_ne.
  - intros k e He. split; [|by left]. intros res Hev. by apply elem_of_cons in Hev as [?|?%list_elem_of_singleton].
  - unfold attempts_of. simpl. intros r o' [[<- <-]|[_ Ho']]%lookup_insert_Some; right; [by apply (H4 _ _ Ex)|by apply H4].
  - unfold attempts_of. simpl. intros r o' Ho'. split; [by intros [?|?%list_elem_of_singleton]%elem_of_cons|].
    apply lookup_insert_Some in Ho' as [[<- <-]|[_ Ho']].
    + destruct (H5 _ _ Ex) as [K1 K2 K3 K4]. split; [|left; exists ex; naive_solver].
      simpl. intros c [Hin|Hin]%elem_of_app.
      * destruct (K4 c Hin) as (s & i & Hs). exists s, i. exact (lookup_weaken _ _ _ _ Hs Ho).
      * apply list_elem_of_singleton in Hin as ->. eexists _, _. apply lookup_insert_eq.
    + destruct (H5 _ _ Ho') as [K1 K2 K3 K4]. split; [|left; exists o'; naive_solver].
      intros c (s & i & Hs)%K4. exists s, i. exact (lookup_weaken _ _ _ _ Hs Ho).
Qed.

Lemma install_inv gs remote seq id il expected w res w' :
  open_inv gs w -> install remote seq id il expected w = (res, w') ->
  let g := (if il : bool then GOwner else GTarget) remote seq id (w_next w) in
  (match res with Ok _ => open_inv (g :: gs) w' | Err _ => open_inv gs w' end /\ grows w w') /\
  w_owners w' !! w_next w = Some (remote, seq, id) /\
  forall rev, expected = Some rev -> w_keys w' !! w_next w = Some (remote, id, rev).
Proof.
  intros Hi Hinst g. unfold install in Hinst. fold (new_owner w seq id il expected) in Hinst.
  assert (g = guard_of remote (new_owner w seq id il expected)) as -> by (by unfold g, guard_of; destruct il).
  destruct (install_rendezvous_owner remote _ _ (w_manager w)) as [res0 m'] eqn:Hm. simplify_eq.
  split; [|simpl; split; [by rewrite lookup_insert_eq|intros rev ->; simpl; by rewrite lookup_insert_eq]].
  fold (numbered remote seq id expected m' w).
  assert (open_inv gs (numbered remote seq id expected (w_manager w) w) /\
          grows w (numbered remote seq id expected (w_manager w) w)) as Hsame
    by exact (take_number_inv gs ((fun rev => (remote, id, rev)) <$> expected) (Some (remote, seq, id)) w Hi).
  unfold install_rendezvous_owner in Hm. destruct (ms_attempts (tm_state (w_manager w)) !! remote) as [ex|] eqn:Ex.
  2:{ injection Hm as <- <-. by apply install_free_inv. }
  destruct (same_attempt ex _); [by injection Hm as <- <-|]. destruct (new_attempt_wins _ _ _); simpl in Hm.
  - injection Hm as <- <-. by apply install_displacing_inv.
  - destruct (il && negb (ro_initiator_local ex)) eqn:Ey; injection Hm as <- <-; [|done].
    apply andb_prop in Ey as [-> _]. by apply install_yielding_inv.
Qed.
End install.
