(* ===== verification/OpeningSafety.v ===== *)
(** * What openers leave behind (tunnel/tunnel_manager.rs)

    The procedures of [Opening] respect the invariant of [OpeningInvariant]:
    every waiter, rendezvous attempt and lock is held by a running future that
    lets go of it, also when it is dropped, and a caller is only ever given a
    tunnel with the peer it asked for. *)

From stdpp Require Import functions.
From S2P Require Import Prelude.
From S2P Require Import Errors.
From S2P Require Import Ids.
From S2P Require Import Endpoint.
From S2P Require Import NatType.
From S2P Require Import SnProtocol.
From S2P Require Import NatConnectPlan.
From S2P Require Import TunnelActivity.
From S2P Require Import TunnelManager.
From S2P Require Import ProxyUpgrade.
From S2P Require Import RendezvousOwner.
From S2P Require Import OpenTunnel.
From S2P Require Import SnService.
From S2P Require Import SnClient.
From S2P Require Import QuicListener.
From S2P Require Import DeviceFinder.
From S2P Require Import Async.
From S2P Require Import Opening.
From S2P Require Import OpeningInvariant.

(** ** The discipline *)

Section discipline.
Context {T : Type} `{!TunnelOps T, !TunnelWork T, !TunnelLaws T} {Cert : Type} `{!CertOps Cert}
  (find_answer : P2pId -> PeerLookupInfo Cert -> Prop) (test_real_socket_matrix : bool)
  (hash_probe : Endpoint -> Endpoint -> bool).
Notation World := (World T).
Implicit Types (w : World) (gs : list Guard) (remote : P2pId).

#[local] Instance runtime_of : Runtime World (Ask Cert) Guard Release := opening_runtime find_answer.
#[local] Instance opening_discipline : Discipline World (Ask Cert) Guard Release :=
  { inv := open_inv; evolves := grows; may_release := releasable }.

(** A tunnel arrives: its waiter is taken out and told, or it is registered, or
    closed when it was to be waited for. *)
Lemma incoming_inv gs w r res m' :
  open_inv gs w -> on_incoming_tunnel (w_now w) r (w_manager w) = Some (res, m') ->
  open_inv gs (set_manager m' w) /\ grows w (set_manager m' w).
Proof.
  intros Hi. pose proof Hi as [H1 H2 H3 H4 H5 H6 H7 H8]. unfold on_incoming_tunnel, take_incoming_waiter.
  match goal with |- context [iw_waiter <$> ?x] => destruct x as [e|] eqn:E end; simpl.
  - change (waiters_of w !! key_of w r = Some e) in E. intros [= <- <-]. destruct (H3 _ _ E) as [_ Hk _].
    assert (forall k e', waiters_of w !! k = Some e' -> k <> key_of w r -> iw_waiter e' <> iw_waiter e) as Hother.
    { intros k e' He' Hne Heq. destruct (H3 _ _ He') as [_ Hk' _]. rewrite Heq, Hk in Hk'. by simplify_eq. }
    eapply (update_inv _ _ _ _ [Notified (iw_waiter e) (Ok r)]); [exact Hi|]. split; try done.
    + by apply (registry_ok_state (w_manager w)).
    + intros ev ->%list_elem_of_singleton. simpl. by exists r.
    + unfold waiters_of. simpl. intros k e' [_ He']%lookup_delete_Some. apply (H2 _ _ He').
    + unfold waiters_of. simpl. intros k e' [Hne He']%lookup_delete_Some. split; [|by left].
      intros res [= Heq _]%list_elem_of_singleton. by apply (Hother k e' He' (not_eq_sym Hne)).
    + intros remote o Ho. destruct (H5 remote o Ho). split; [by intros ?%list_elem_of_singleton|]. split; [done|].
      left. exists o. naive_solver.
  - destruct (tn_is_reverse _).
    + pose proof (close_quiet r (w_manager w)) as Hq. pose proof (close_tunnel_ok r _ H1) as Hok.
      destruct (close_tunnel r (w_manager w)) as [res1 m1]. intros [= _ <-]. by apply quiet_inv.
    + destruct (register_tunnel_and_publish _ _ _) as [[res1 m1]|] eqn:Hr; simpl; [|done]. intros [= _ <-].
      apply register_publish_quiet in Hr as [Hq Hok]; [|done]. by apply quiet_inv.
Qed.

Lemma locks_change gs gs' w l :
  open_inv gs w -> (forall g, g ∈ gs -> (forall r, g <> GLock r) -> g ∈ gs') -> l ≡ₚ locks_of gs' -> NoDup l ->
  open_inv gs' (set_locks l w) /\ grows w (set_locks l w).
Proof.
  intros [H1 H2 H3 H4 H5 H6 H7 H8] Hg Hl Hnd. split; [|done]. split; try done.
  - intros k e He. destruct (H2 k e He) as [?|?]; [left; by apply Hg|by right].
  - intros k e He. by destruct (H3 k e He).
  - intros r o Ho. apply Hg; [by apply H4|]. intros r'. unfold guard_of. by destruct (ro_initiator_local o).
  - intros r o Ho. by destruct (H5 r o Ho).
Qed.

Lemma lock_inv gs remote w :
  open_inv gs w -> remote ∉ w_locks w ->
  open_inv (GLock remote :: gs) (set_locks (remote :: w_locks w) w) /\ grows w (set_locks (remote :: w_locks w) w).
Proof.
  intros Hi Hn. destruct (oi_locks _ _ Hi) as [Hp Hnd].
  apply (locks_change gs); [done|by intros; right|simpl; by rewrite Hp|by constructor].
Qed.

Lemma unlock_inv gs remote w :
  open_inv (GLock remote :: gs) w ->
  open_inv gs (release_guard RDrop (GLock remote) w) /\ grows w (release_guard RDrop (GLock remote) w).
Proof.
  intros Hi. destruct (oi_locks _ _ Hi) as [Hp Hnd]. simpl in Hp.
  apply (locks_change (GLock remote :: gs)); [done| | |by apply NoDup_filter].
  - intros g [->|Hg]%elem_of_cons Hne; [|done]. by destruct (Hne remote).
  - rewrite Hp in Hnd |- *. apply NoDup_cons in Hnd as [Hn Hnd]. rewrite filter_cons_False by naive_solver.
    rewrite (list_filter_iff_in _ (fun _ => True)); [by rewrite list_filter_all|].
    intros x Hx. split; [done|]. intros _ ->. done.
Qed.

#[local] Instance opening_laws : DisciplineLaws World (Ask Cert) Guard Release.
Proof.
  split; [apply _|apply open_inv_perm|intros; by eapply releasable_grows|].
  intros r g gs w Hi Hm. simpl in *. destruct r as [| |res], g as [k n|remote s i n|remote s i n|remote]; simpl in Hm; try done.
  - by apply drop_waiter_inv.
  - eapply cancel_inv; [exact Hi|by left].
  - split; [|reflexivity]. eapply stale_guard_inv; [exact Hi|by right|]. intros o Ho.
    destruct (owner_is s i n o) eqn:His; [|by left]. apply owner_is_spec in His as (_ & _ & <-).
    exfalso. by apply (oi_attempts _ _ Hi _ _ Ho).
  - by apply unlock_inv.
  - destruct Hm as [res Hm]. split; [by eapply dismiss_waiter_inv|reflexivity].
  - eapply complete_inv; [exact Hi|by left|done].
  - eapply complete_inv; [exact Hi|by right|done].
Qed.

(** ** The procedures *)

Notation fut := (fut World (Ask Cert) Guard Release).
Notation code := (code (W := World) (Ask := Ask Cert) (G := Guard) (R := Release)).

Definition peer remote (res : P2pResult nat) w : Prop := opens w remote res.

Lemma code_ret_peer remote (res : P2pResult nat) w : peer remote res w -> code (Ret res) (peer remote) w.
Proof. intros Hr. apply code_ret. intros w' Hw. by eapply grows_opens. Qed.

Lemma code_read {A B} (f : World -> B) (k : B -> fut A) Q w :
  (forall b w', w ≼ w' -> code (k b) Q w') -> code (Sync (read f) k) Q w.
Proof.
  intros Hk. apply code_sync. intros gs w' b w'' Hw Hi [= <- <-]. split; [done|]. split; [reflexivity|]. by apply Hk.
Qed.

(** Steps that touch nothing of the manager. *)
Lemma code_core {A B} f (k : B -> fut A) Q w :
  (forall w' b w'', f w' = Some (b, w'') -> same_core w' w'') ->
  (forall b w', w ≼ w' -> code (k b) Q w') -> code (Sync f k) Q w.
Proof.
  intros Hf Hk. apply code_sync. intros gs w' b w'' Hw Hi Hs. destruct (core_inv gs w' w'' Hi (Hf _ _ _ Hs)) as [Hi2 Hw2].
  split; [done|]. split; [done|]. apply Hk. by etrans.
Qed.

(** Operations on the registry, with what is known of their result. *)
Lemma code_quiet {A B} (f : World -> TunnelManager T -> option (B * TunnelManager T)) (k : B -> fut A) (P : B -> World -> Prop) Q w :
  (forall w' b m', registry_ok (w_manager w') -> f w' (w_manager w') = Some (b, m') ->
     quiet (w_manager w') m' /\ registry_ok m' /\ P b w') ->
  (forall b w' w'', w ≼ w' -> P b w' -> w' ≼ w'' -> code (k b) Q w'') -> code (Sync (on_manager f) k) Q w.
Proof.
  intros Hf Hk. apply code_sync. intros gs w' b w'' Hw Hi Hs. unfold on_manager in Hs.
  destruct (f w' (w_manager w')) as [[b' m']|] eqn:E; simpl in Hs; [|done]. simplify_eq.
  destruct (Hf _ _ _ (oi_registry _ _ Hi) E) as (Hq & Hok & HP). destruct (quiet_inv gs w' m' Hi Hq Hok) as [Hi2 Hw2].
  split; [done|]. split; [done|]. by eapply Hk.
Qed.

Lemma code_get {A} f remote (k : option nat -> fut A) Q w :
  (forall w', exists keep hidden,
     f w' (w_manager w') = get_tunnel_with_filter (w_now w') remote keep hidden (w_manager w')) ->
  (forall w', w ≼ w' -> code (k None) Q w') ->
  (forall r w', w ≼ w' -> remote_of w' r = remote -> code (k (Some r)) Q w') -> code (Sync (on_manager f) k) Q w.
Proof.
  intros Hf Hn Hs. apply (code_quiet _ _ (fun o w => match o with Some r => remote_of w r = remote | None => True end)).
  - intros w' b m' Hok Hg. destruct (Hf w') as (keep & hidden & Hf'). rewrite Hf' in Hg.
    destruct (get_ok _ _ _ _ _ _ _ Hg Hok) as [Hq Hok']. split; [done|]. split; [done|]. destruct b as [r|]; [|done].
    by eapply get_remote.
  - intros [r|] w' w'' Hw HP Hw'; [apply Hs|apply Hn]; [by etrans| |by etrans]. by rewrite (grows_remote _ _ _ Hw').
Qed.

Definition stable {A} (Q : A -> World -> Prop) : Prop := forall a w w', w ≼ w' -> Q a w -> Q a w'.
Lemma stable_peer remote : stable (peer remote).
Proof. intros res w w' Hw. by apply grows_opens. Qed.

Lemma code_ret_stable {A} (a : A) (Q : A -> World -> Prop) w : stable Q -> Q a w -> code (Ret a) Q w.
Proof. intros Hs Hq. apply code_ret. intros w' Hw. by eapply Hs. Qed.

Lemma err_code remote e w : code (Ret (Err e)) (peer remote) w.
Proof. by apply code_ret_peer. Qed.
Hint Resolve err_code : core.

Lemma finish_path_code remote direct r w :
  remote_of w r = remote -> code (finish_path remote direct r) (peer remote) w.
Proof.
  intros Hr. apply code_await. intros gs w1 [] Hw1 _ _. eapply (code_quiet _ _ (fun _ _ => True)).
  { intros w' b m' Hok Hf. apply register_publish_quiet in Hf as [Hq Hok']; done. }
  intros [[]|e] w2 w3 Hw2 _ Hw3; [|done]. apply code_await. intros gs4 w4 [] Hw4 _ _. apply code_ret_peer. simpl.
  rewrite (grows_remote w w4); [done|]. do 3 (etrans; [eassumption|]). done.
Qed.

Lemma note_code {A} ep b (k : unit -> fut A) Q w :
  (forall w', w ≼ w' -> code (k tt) Q w') -> code (Sync (note_step ep b) k) Q w.
Proof.
  intros Hk. eapply (code_quiet _ _ (fun _ _ => True)).
  { intros w' [] m' Hok [= <-]. split; [apply note_quiet|]. split; [by apply note_connect_ok|done]. }
  intros [] w' w'' Hw _ Hw'. apply Hk. by etrans.
Qed.

Lemma close_code {A} r (k : P2pResult unit -> fut A) Q w :
  (forall res w', w ≼ w' -> code (k res) Q w') -> code (Sync (close_step r) k) Q w.
Proof.
  intros Hk. eapply (code_quiet _ _ (fun _ _ => True)).
  { intros w' b m' Hok [= Hc]. pose proof (close_quiet r (w_manager w')) as Hq. pose proof (close_tunnel_ok r _ Hok) as Hok'.
    rewrite Hc in *. done. }
  intros b w' w'' Hw _ Hw'. apply Hk. by etrans.
Qed.

Lemma abandoned_code n remote pending w : code (abandoned n remote pending) (fun _ _ => True) w.
Proof.
  revert pending w. induction n as [|n IH]; intros pending w; simpl; [by apply code_ret|].
  apply code_await. intros gs w1 [i res] Hw1 _ _. simpl. destruct (pending !! i) as [[ep it]|]; [|by apply code_ret].
  apply note_code. intros w2 Hw2. destruct res as [r|e]; [|apply IH]. apply close_code. intros _ w3 _. apply IH.
Qed.

Lemma register_or_close_quiet now r (m : TunnelManager T) b m' :
  registry_ok m ->
  ('(res, m1) ← register_tunnel_and_publish now r m;
   Some (res, match res with Ok _ => m1 | Err _ => snd (close_tunnel r m1) end)) = Some (b, m') ->
  quiet m m' /\ registry_ok m'.
Proof.
  intros Hok. destruct (register_tunnel_and_publish now r m) as [[res m1]|] eqn:E; simpl; [|done]. intros [= <- <-].
  apply register_publish_quiet in E as [Hq Hok']; [|done]. destruct res; [done|].
  split; [etrans; [exact Hq|apply close_quiet]|by apply close_tunnel_ok].
Qed.

Lemma direct_loop_code n remote pending last_err w : code (direct_loop n remote pending last_err) (peer remote) w.
Proof.
  revert pending last_err w. induction n as [|n IH]; intros pending last_err w; simpl; [done|].
  apply code_await. intros gs w1 [i res] Hw1 _ [_ Hopen]. simpl in *. destruct (pending !! i) as [[ep it]|]; [|done].
  apply note_code. intros w2 Hw2. destruct res as [r|e]; [|apply IH].
  apply code_await. intros gs3 w3 [] Hw3 _ _. eapply (code_quiet _ _ (fun _ _ => True)).
  { intros w' b m' Hok Hf. apply register_or_close_quiet in Hf as [Hq Hok']; done. }
  intros [[]|e] w4 w5 Hw4 _ Hw5; [|apply IH]. apply code_spawn; [apply abandoned_code|].
  apply code_await. intros gs6 w6 [] Hw6 _ _. apply code_ret_peer. simpl in *.
  rewrite (grows_remote w1 w6); [done|]. do 4 (etrans; [eassumption|]). done.
Qed.

Lemma open_direct_path_code eps remote intent w :
  code (open_direct_path test_real_socket_matrix eps remote intent) (peer remote) w.
Proof.
  apply code_core.
  - intros w' b w''. unfold candidates_step. destruct (foldl _ _ _) as [[a c] d]. intros [= <- <-]. done.
  - intros [pending last_err] w' _. apply direct_loop_code.
Qed.

Lemma open_proxy_path_code remote intent w : code (open_proxy_path remote intent) (peer remote) w.
Proof.
  apply code_read. intros pn w1 _. destruct (negb pn); [done|]. apply code_await. intros gs w2 [r|e] _ _ Hr; [|done].
  by apply finish_path_code.
Qed.

(** ** Waiting for the peer *)

(** What a registration under [n] may hear. *)
Definition heard (n : nat) remote (res : P2pResult nat) w : Prop :=
  opens w remote res /\ (is_ok res = true -> exists res', Notified n res' ∈ log_of w).

Lemma stable_heard n remote : stable (heard n remote).
Proof.
  intros res w w' Hw [Ho Hn]. split; [by eapply grows_opens|]. intros Hok. destruct (Hn Hok) as [res' Hr].
  exists res'. by eapply gr_log.
Qed.

Definition waits_for w (n : nat) remote : Prop := exists id rev, w_keys w !! n = Some (remote, id, rev).

Lemma waits_for_evolves w w' n remote : waits_for w n remote -> w ≼ w' -> waits_for w' n remote.
Proof. intros (id & rev & Hk) Hw. exists id, rev. eapply lookup_weaken; [exact Hk|apply Hw]. Qed.

Lemma wait_code n remote w : waits_for w n remote -> code (Await (WaitTunnel n) Ret) (heard n remote) w.
Proof.
  intros (id & rev & Hk). apply code_await. intros gs w1 res Hw1 Hi Hres. apply code_ret_stable; [apply stable_heard|].
  simpl in Hres. unfold logged in Hres. pose proof (oi_events _ _ Hi _ Hres) as (r & -> & Hr). split; [|by eauto].
  simpl. pose proof (lookup_weaken _ _ _ _ Hk (gr_keys _ _ Hw1)) as Hk'.
  pose proof (eq_trans (eq_sym Hk') Hr) as Heq. unfold key_of in Heq. by simplify_eq.
Qed.

Lemma register_waiter_facts {B} gs remote id rev w g w' :
  register_waiter_step (B := B) remote id rev w = Some (inr g, w') -> open_inv gs w ->
  open_inv (g :: gs) w' /\ w ≼ w' /\ free g /\ g = GWaiter (remote, id, rev) (guard_number g) /\ waits_for w' (guard_number g) remote.
Proof.
  unfold register_waiter_step. intros [= <- <-] Hi. destruct (register_waiter_inv gs remote id rev w Hi) as (H1 & H2 & H3).
  split; [done|]. split; [done|]. split; [done|]. split; [done|]. by exists id, rev.
Qed.

Lemma reverse_body_code remote id rev g w :
  g = GWaiter (remote, id, rev) (guard_number g) -> waits_for w (guard_number g) remote ->
  code (Sync (read (reverse_endpoints test_real_socket_matrix)) (fun eps =>
     Await (SnCallAny id (endpoints_arg eps) remote) (fun called =>
       match called with
       | Err e => Ret (RDrop, Err e)
       | Ok _ => Timeout (Await (WaitTunnel (guard_number g)) Ret) (fun o =>
           match o with
           | None => Ret (RDrop, Err P2pErrorCode.Timeout)
           | Some (Err e) => Ret (RDrop, Err e)
           | Some (Ok r) => Ret (RDismiss, Ok r)
           end)
       end)))
    (fun rb w => releasable (fst rb) g w /\ peer remote (snd rb) w) w.
Proof.
  intros Hg Hn. apply code_read. intros eps w1 Hw1. apply code_await. intros gs w2 [[]|e] Hw2 _ _.
  2:{ apply code_ret. intros w' _. simpl. by rewrite Hg. }
  eapply code_timeout; [apply wait_code; eapply waits_for_evolves; [exact Hn|by etrans]| |].
  - intros [r|e] w3 Hw3 Hh; apply code_ret; intros w4 Hw4; simpl; [|by rewrite Hg].
    destruct (stable_heard _ _ _ _ _ Hw4 Hh) as [Ho Hl]. rewrite Hg. simpl. split; [by apply Hl|done].
  - intros w3 Hw3. apply code_ret. intros w4 _. simpl. by rewrite Hg.
Qed.

Lemma open_reverse_path_code remote id w :
  code (open_reverse_path test_real_socket_matrix remote id) (peer remote) w.
Proof.
  eapply (code_enter _ _ _ _ _ (peer remote)).
  - intros gs w1 b w2 Hw1 Hi Hf. destruct (w_sn w1); [done|]. simplify_eq. split; [done|]. split; [reflexivity|done].
  - intros gs w1 g w2 Hw1 Hi Hf. destruct (w_sn w1); [|done].
    destruct (register_waiter_facts gs _ _ _ _ _ _ Hf Hi) as (H1 & H2 & H3 & H4 & H5). do 3 (split; [done|]).
    by eapply reverse_body_code.
  - intros [r|e] w1 Hw1 Hr; [|done]. by apply finish_path_code.
Qed.

(** ** The order of the paths *)

Lemma race_with_delay_code remote direct delay reverse w :
  (forall w', w ≼ w' -> code direct (peer remote) w') -> (forall w', w ≼ w' -> code reverse (peer remote) w') ->
  code (race_with_delay direct delay reverse) (fun rb w => peer remote (fst rb) w) w.
Proof.
  intros Hd Hr. eapply (code_race _ _ _ _ _ _ _ _ (peer remote) (peer remote)).
  - apply Hd. reflexivity.
  - apply code_await. intros gs w1 [] Hw1 _ _. by apply Hr.
  - intros b w1 _ Hb _. apply code_ret. intros w2 Hw2. by eapply stable_peer.
  - intros b w1 _ Hb _. apply code_ret. intros w2 Hw2. by eapply stable_peer.
  - intros b c w1 w2 _ Hw2 Hb _ Hc. apply code_ret. intros w3 Hw3. simpl.
    destruct c; [|destruct b; [|done]]; (eapply stable_peer; [exact Hw3|]); [done|by eapply stable_peer].
  - intros b c w1 w2 _ Hw2 Hb _ Hc. apply code_ret. intros w3 Hw3. simpl.
    destruct c; [|destruct b; [|done]]; (eapply stable_peer; [exact Hw3|]); [done|by eapply stable_peer].
Qed.

Lemma try_path_code remote path k w :
  code path (peer remote) w -> (forall e w', w ≼ w' -> code (k e) (peer remote) w') -> code (try_path path k) (peer remote) w.
Proof.
  intros Hp Hk. eapply code_bind; [exact Hp|]. intros [r|e] w' Hw Hr; [by apply code_ret_peer|by apply Hk].
Qed.

Lemma with_lock_code {A} remote (body : fut A) Q w :
  stable Q -> (forall w', w ≼ w' -> code body Q w') -> code (with_lock remote body) Q w.
Proof.
  intros Hs Hb. eapply (code_enter _ _ _ _ _ Q).
  - intros gs w1 b w2 Hw1 Hi. unfold lock_step. by case_match.
  - intros gs w1 g w2 Hw1 Hi. unfold lock_step. case_bool_decide as Hl; [done|]. intros [= <- <-].
    destruct (lock_inv gs remote w1 Hi Hl) as [Hi2 Hw2]. do 3 (split; [done|]).
    eapply code_bind; [apply Hb; by etrans|]. intros b w3 Hw3 Hq. apply code_ret. intros w4 Hw4. simpl.
    split; [done|]. by eapply Hs.
  - intros b w1 Hw1 Hq. by apply code_ret_stable.
Qed.

Lemma generate_code {A} (k : Z -> fut A) Q w : (forall id w', w ≼ w' -> code (k id) Q w') -> code (Sync generate_step k) Q w.
Proof.
  intros Hk. apply code_core; [|done]. intros w' b w''. unfold generate_step. destruct (TunnelIdGenerator_generate _). intros [= <- <-].
  done.
Qed.

Lemma last_proxy_code remote id allow e w : code (last_proxy remote id allow e) (peer remote) w.
Proof. unfold last_proxy. destruct allow; [|done]. apply try_path_code; [apply open_proxy_path_code|done]. Qed.

Lemma main_paths_code remote eps id allow w :
  code (main_paths test_real_socket_matrix remote eps id allow) (peer remote) w.
Proof.
  apply code_await. intros gs w1 info _ _ _. apply code_read. intros direct_eps w2 _. apply code_read. intros sn w3 _.
  case_match.
  - eapply code_bind.
    + apply race_with_delay_code; intros w' _; [apply open_direct_path_code|apply open_reverse_path_code].
    + intros [[r|e] won] w4 Hw4 Hr; [by apply code_ret_peer|apply last_proxy_code].
  - apply try_path_code; [apply open_direct_path_code|]. intros _ w4 _.
    apply try_path_code; [apply open_reverse_path_code|]. intros e w5 _. apply last_proxy_code.
Qed.

Lemma cached_path_code remote eps id allow info k w :
  (forall e w', w ≼ w' -> code (k e) (peer remote) w') ->
  code (cached_path test_real_socket_matrix remote eps id allow info k) (peer remote) w.
Proof.
  intros Hk. destruct info as [info|]; simpl; [|by apply Hk]. destruct (ci_direct info).
  - apply code_read. intros [] w1 Hw1; [apply code_await; intros gs w2 [] Hw2 _ _; apply Hk; by etrans|].
    case_match; [|by apply Hk]. apply try_path_code; [apply open_direct_path_code|]. intros e w2 Hw2.
    apply code_read. intros [] w3 Hw3; [apply code_await; intros gs w4 [] Hw4 _ _|]; apply Hk;
      repeat (etrans; [eassumption|]); done.
  - apply try_path_code; [apply open_reverse_path_code|done].
  - destruct allow; [|by apply Hk]. apply try_path_code; [apply open_proxy_path_code|done].
Qed.

Lemma existing_code {A} b remote (k : option nat -> fut A) Q w :
  (forall w', w ≼ w' -> code (k None) Q w') ->
  (forall r w', w ≼ w' -> remote_of w' r = remote -> code (k (Some r)) Q w') -> code (Sync (existing_step b remote) k) Q w.
Proof. apply code_get. intros w'. destruct b; by eexists _, _. Qed.

Lemma open_known_code eps remote reuse allow w :
  code (open_known_tunnel_with_options test_real_socket_matrix eps remote reuse allow) (peer remote) w.
Proof.
  unfold open_known_tunnel_with_options. case_match; [done|]. apply with_lock_code; [apply stable_peer|]. intros w1 _.
  apply generate_code. intros id w2 _. apply existing_code; [|intros r w3 _ Hr; by apply code_ret_peer].
  intros w3 _. apply code_await. intros gs w4 info _ _ _. apply cached_path_code. intros _ w5 _. apply main_paths_code.
Qed.

(** ** NAT plans *)

Lemma punch_code eps id rev w : code (punch_candidates test_real_socket_matrix eps id rev) (fun _ _ => True) w.
Proof.
  apply code_core.
  - intros w' b w''. unfold punch_step. destruct (foldl _ _ _) as [a d]. intros [= <- <-]. done.
  - intros pending w1 _. apply code_await. intros gs w2 [] _ _ _. by apply code_ret.
Qed.

(** The result of waiting, with what allows to dismiss the registration. *)
Lemma planned_code n remote o w :
  match o with Some res => heard n remote res w | None => True end -> code (planned_result remote o) (heard n remote) w.
Proof.
  destruct o as [[r|e]|]; simpl; [|intros _; by apply code_ret..]. intros [Hr Hn]. destruct (Hn eq_refl) as [res' Hres].
  apply code_read. intros direct w1 Hw1.
  eapply code_mono; [apply finish_path_code; by rewrite (grows_remote _ _ _ Hw1)|].
  intros res w2 Hw2 Ho. split; [done|]. intros _. exists res'. by eapply gr_log, gr_log.
Qed.

Lemma punch_and_wait_code eps remote id active n w :
  waits_for w n remote ->
  code (punch_and_wait_incoming test_real_socket_matrix eps remote id active n) (heard n remote) w.
Proof.
  intros Hn. eapply (code_timeout _ _ _ _ (heard n remote)).
  - eapply (code_race _ _ _ _ _ _ _ _ (heard n remote) (fun _ _ => True)); [by apply wait_code|apply punch_code|..].
    + intros b w1 _ Hb _. apply code_ret_stable; [apply stable_heard|done].
    + done.
    + done.
    + intros c b w1 w2 _ _ _ _ Hb. apply code_ret_stable; [apply stable_heard|done].
  - intros b w1 _ Hb. by apply planned_code.
  - intros w1 _. by apply planned_code.
Qed.

Lemma wait_planned_code remote n w : waits_for w n remote -> code (wait_planned_incoming remote n) (heard n remote) w.
Proof.
  intros Hn. eapply (code_timeout _ _ _ _ (heard n remote)); [by apply wait_code| |].
  - intros b w1 _ Hb. by apply planned_code.
  - intros w1 _. by apply planned_code.
Qed.

Definition acted (action : PlanAction) (waiter : option nat) remote (res : P2pResult nat) w : Prop :=
  opens w remote res /\
  (plan_waits action = true -> is_ok res = true -> forall n, waiter = Some n -> exists res', Notified n res' ∈ log_of w).

Lemma stable_acted action waiter remote : stable (acted action waiter remote).
Proof.
  intros res w w' Hw [Ho Hn]. split; [by eapply grows_opens|]. intros Hp Hok n Hw'.
  destruct (Hn Hp Hok n Hw') as [res' Hr]. exists res'. by eapply gr_log.
Qed.

Lemma acted_err action waiter remote e w : code (Ret (Err e)) (acted action waiter remote) w.
Proof. by apply code_ret. Qed.
Hint Resolve acted_err : core.

Lemma heard_acted action n remote f w : code f (heard n remote) w -> code f (acted action (Some n) remote) w.
Proof.
  intros Hf. eapply code_mono; [exact Hf|]. intros res w1 _ [Ho Hn]. split; [done|]. intros _ Hok n' [= <-]. by apply Hn.
Qed.

Lemma execute_code action party eps remote id waiter w :
  (forall n, waiter = Some n -> waits_for w n remote) ->
  code (execute_nat_action test_real_socket_matrix action party eps remote id waiter) (acted action waiter remote) w.
Proof.
  intros Hn. destruct action as [|cand rev|cand|]; simpl; [done| | |].
  - destruct (nat_candidates eps cand); [|done]. eapply code_mono; [apply open_direct_path_code|].
    intros res w1 _ Ho. by split.
  - destruct (nat_candidates eps cand); [|done]. destruct waiter as [n|]; [|done].
    by apply heard_acted, punch_and_wait_code, Hn.
  - destruct waiter as [n|]; [|done]. by apply heard_acted, wait_planned_code, Hn.
Qed.

Lemma drive_code {Q : P2pResult nat -> World -> Prop} call action w :
  stable Q -> code call (fun _ _ => True) w -> code action Q w -> code (drive_nat_rendezvous_and_action call action) Q w.
Proof.
  intros Hs Hc Ha. eapply (code_race _ _ _ _ _ _ _ _ (fun _ _ => True) Q); [done|done|..].
  - done.
  - intros b w1 _ Hb _. by apply code_ret_stable.
  - intros b c w1 w2 _ _ _ _ Hq. by apply code_ret_stable.
  - done.
Qed.

Lemma legacy_attempt_code eps remote sn context action id local waiter w :
  (forall n, waiter = Some n -> waits_for w n remote) ->
  code (legacy_attempt test_real_socket_matrix eps remote sn context action id local waiter) (acted action waiter remote) w.
Proof.
  intros Hn. apply drive_code; [apply stable_acted| |by apply execute_code].
  apply code_await. intros gs w1 res _ _ _. by apply code_ret.
Qed.

Lemma legacy_scope_code eps remote sn context action id local g w :
  plan_waits action = true -> g = GWaiter (remote, id, true) (guard_number g) -> waits_for w (guard_number g) remote ->
  code (Bind (legacy_attempt test_real_socket_matrix eps remote sn context action id local (Some (guard_number g))) (fun res =>
          match res with
          | Ok r => Ret (RDismiss, Ok r)
          | Err _ => Bind (open_proxy_path remote (intent_of id false)) (fun res => Ret (RDrop, res))
          end))
    (fun rb w => releasable (fst rb) g w /\ peer remote (snd rb) w) w.
Proof.
  intros Hp Hg Hn. eapply code_bind.
  { apply (legacy_attempt_code eps remote sn context action id local (Some (guard_number g))). by intros n [= <-]. }
  intros [r|e] w1 Hw1 Ha.
  - apply code_ret. intros w2 Hw2. destruct (stable_acted _ _ _ _ _ _ Hw2 Ha) as [Ho Hl]. simpl. rewrite Hg. simpl.
    split; [by apply Hl|done].
  - eapply code_bind; [apply open_proxy_path_code|]. intros res w2 Hw2 Ho. apply code_ret. intros w3 Hw3. simpl.
    rewrite Hg. split; [done|]. by eapply stable_peer.
Qed.

Lemma get_code {A} remote (k : option nat -> fut A) Q w :
  (forall w', w ≼ w' -> code (k None) Q w') ->
  (forall r w', w ≼ w' -> remote_of w' r = remote -> code (k (Some r)) Q w') -> code (Sync (get_tunnel_step remote) k) Q w.
Proof. apply code_get. intros w'. by eexists _, _. Qed.

Lemma legacy_code eps remote sn context action w :
  code (open_nat_aware_tunnel_legacy test_real_socket_matrix eps remote sn context action) (peer remote) w.
Proof.
  apply code_read. intros [v|] w1 _; [|apply open_known_code]. apply with_lock_code; [apply stable_peer|]. intros w2 _.
  apply get_code; [|intros r w3 _ Hr; by apply code_ret_peer]. intros w3 _. apply generate_code. intros id w4 _.
  apply code_read. intros local w5 _. destruct (plan_waits action) eqn:Hp.
  - eapply (code_enter _ _ _ _ _ (peer remote)); [done| |intros b w6 _ Hb; by apply code_ret_peer].
    intros gs w6 g w7 Hw6 Hi Hf. destruct (register_waiter_facts gs _ _ _ _ _ _ Hf Hi) as (H1 & H2 & H3 & H4 & H5).
    do 3 (split; [done|]). by apply legacy_scope_code.
  - eapply code_bind; [by apply legacy_attempt_code|]. intros [r|e] w6 _ [Ho _]; [by apply code_ret_peer|].
    apply open_proxy_path_code.
Qed.

(** ** Rendezvous *)

Lemma predict_code sn w : code (predict_owned_rendezvous_endpoints sn) (fun _ _ => True) w.
Proof.
  apply code_read. intros [eps|e] w1 _; [|by apply code_ret]. apply code_await. intros gs w2 [p|e] _ _ _; [|by apply code_ret].
  apply code_read. intros v w3 _. by apply code_ret.
Qed.

Lemma request_candidates_code plan sn w :
  code (request_candidates test_real_socket_matrix plan sn) (fun _ _ => True) w.
Proof.
  unfold request_candidates. destruct (rp_request_candidates plan) as [[]|].
  - apply code_read. intros local w1 _. case_match; by apply code_ret.
  - eapply code_bind; [apply predict_code|]. intros res w1 _ _. by apply code_ret.
  - by apply code_ret.
Qed.

Definition owns w (n : nat) remote : Prop := exists s i, w_owners w !! n = Some (remote, s, i).

Lemma owns_evolves w w' n remote : owns w n remote -> w ≼ w' -> owns w' n remote.
Proof. intros (s & i & Ho) Hw. exists s, i. eapply lookup_weaken; [exact Ho|apply Hw]. Qed.

(** How the initiator's scope ends. *)
Definition ended g remote (rb : Release * P2pResult nat) w : Prop := releasable (fst rb) g w /\ peer remote (snd rb) w.

Lemma stable_ended g remote : stable (ended g remote).
Proof. intros [r res] w w' Hw [H1 H2]. split; [by eapply releasable_grows|by eapply stable_peer]. Qed.

Lemma cancelled_code g remote s i n otherwise w :
  g = GOwner remote s i n -> owns w n remote -> (otherwise = RDrop \/ otherwise = RComplete (Err P2pErrorCode.UserCanceled)) ->
  code (cancelled_attempt n otherwise) (ended g remote) w.
Proof.
  intros -> Hn Ho. apply code_read. intros [] w1 Hw1.
  - apply code_await. intros gs w2 res Hw2 Hi Hres. apply code_ret. intros w3 Hw3. split; [done|].
    apply (stable_peer remote res w2 w3 Hw3). destruct res as [r|e]; [|done]. destruct Hres as [Hres|Hres]; [|done].
    pose proof (oi_events _ _ Hi _ Hres) as (s' & i' & Hr). simpl.
    destruct (owns_evolves _ _ _ _ (owns_evolves _ _ _ _ Hn Hw1) Hw2) as (s2 & i2 & Hr2).
    rewrite Hr in Hr2. by simplify_eq.
  - apply code_ret. intros w2 _. by destruct Ho as [-> | ->].
Qed.

Lemma timed_code action Q w :
  stable Q -> (forall w', Q (Err P2pErrorCode.Timeout) w') -> code action Q w -> code (timed action) Q w.
Proof.
  intros Hs Ht Ha. eapply code_timeout; [exact Ha| |].
  - intros b w1 _ Hb. by apply code_ret_stable.
  - intros w1 _. by apply code_ret.
Qed.

Lemma cancel_wait_code n w : code (Await (WaitCancel n) Ret) (fun _ _ => True) w.
Proof. apply code_await. intros gs w1 [] _ _ _. by apply code_ret. Qed.

Lemma initiator_action_code g remote s i n action w :
  g = GOwner remote s i n -> owns w n remote -> code action (peer remote) w ->
  code (initiator_action n action) (ended g remote) w.
Proof.
  intros Hg Hn Ha.
  eapply (code_race _ _ _ _ _ _ _ _ (peer remote) (fun _ _ => True));
    [by apply timed_code; [apply stable_peer|done|done]|apply cancel_wait_code| | |done|done].
  - intros res w1 _ Hr _. apply code_ret_stable; [apply stable_ended|]. subst g. by split.
  - intros [] w1 Hw1 _ _. eapply cancelled_code; [exact Hg|by eapply owns_evolves|by right].
Qed.

Lemma acted_peer action waiter remote f w : code f (acted action waiter remote) w -> code f (peer remote) w.
Proof. intros Hf. eapply code_mono; [exact Hf|]. by intros res w1 _ [Ho _]. Qed.

Lemma response_action_code plan fallback predicted eps remote id waiter w :
  (forall n, waiter = Some n -> waits_for w n remote) ->
  code (response_action test_real_socket_matrix plan fallback predicted eps remote id waiter) (peer remote) w.
Proof.
  intros Hn. unfold response_action. destruct (rp_caller_action plan) as [[]|[]|];
    try (by eapply acted_peer, execute_code); [apply open_direct_path_code|].
  destruct waiter as [n|]; [|done]. eapply acted_peer, (heard_acted ActionLegacy), punch_and_wait_code. by apply Hn.
Qed.

Lemma initiator_body_code eps remote sn plan fallback id request s i g w :
  g = GOwner remote s i (guard_number g) -> owns w (guard_number g) remote ->
  (forall rev, expected_of_caller (rp_caller_action plan) = Some rev -> waits_for w (guard_number g) remote) ->
  code (initiator_body test_real_socket_matrix eps remote sn plan fallback id request g) (ended g remote) w.
Proof.
  intros Hg Hn Hk. unfold initiator_body. set (waiter := if expected_of_caller _ then _ else _).
  assert (forall w' n, w ≼ w' -> waiter = Some n -> waits_for w' n remote) as Hwait.
  { intros w' n Hw Hwn. unfold waiter in Hwn. destruct (expected_of_caller _) as [rev|]; [|done]. simplify_eq.
    eapply waits_for_evolves; [by eapply Hk|done]. }
  eapply (code_race _ _ _ _ _ _ _ _ (fun _ _ => True) (fun _ _ => True)); [|apply cancel_wait_code| | |done|done].
  - apply code_await. intros gs w1 res _ _ _. by apply code_ret.
  - intros [response|e] w1 Hw1 _ _.
    + eapply initiator_action_code; [exact Hg|by eapply owns_evolves|]. apply response_action_code. intros n. by apply Hwait.
    + case_match; [|apply code_ret; intros w2 _; rewrite Hg; done].
      eapply initiator_action_code; [exact Hg|by eapply owns_evolves|]. eapply acted_peer, execute_code. intros n. by apply Hwait.
  - intros [] w1 Hw1 _ _. eapply cancelled_code; [exact Hg|by eapply owns_evolves|by left].
Qed.

Lemma request_code {A} id remote plan eps (k : P2pResult SnTunnelRendezvous -> fut A) Q w :
  (forall res w', w ≼ w' -> code (k res) Q w') ->
  code (Sync (request_step test_real_socket_matrix hash_probe id remote plan eps) k) Q w.
Proof.
  intros Hk. apply code_core; [|done]. intros w' b w''. unfold request_step.
  destruct (SequenceGenerator_generate _). intros [= <- <-]. done.
Qed.

Lemma install_own_code remote seq id expected body w :
  (forall g w', w ≼ w' -> g = GOwner remote seq id (guard_number g) -> owns w' (guard_number g) remote ->
     (forall rev, expected = Some rev -> waits_for w' (guard_number g) remote) -> code (body g) (ended g remote) w') ->
  code (Enter (install_own_step remote seq id expected) body Ret) (peer remote) w.
Proof.
  intros Hb. eapply (code_enter _ _ _ _ _ (peer remote)); [| |intros b w1 _ Hr; by apply code_ret_peer].
  - intros gs w1 b w2 Hw1 Hi. unfold install_own_step. destruct (install _ _ _ _ _ _) as [res w3] eqn:E.
    intros Hf. destruct res as [[]|e]; [done|]. simplify_eq. destruct (install_inv gs _ _ _ _ _ _ _ _ Hi E) as [[? ?] _].
    split; [done|]. split; [done|]. done.
  - intros gs w1 g w2 Hw1 Hi. unfold install_own_step. destruct (install _ _ _ _ _ _) as [res w3] eqn:E.
    intros Hf. destruct res as [[]|e]; [|done]. simplify_eq.
    destruct (install_inv gs _ _ _ _ _ _ _ _ Hi E) as ([H1 H2] & H3 & H4).
    split; [done|]. split; [done|]. split; [done|]. apply Hb; [by etrans|done|by eexists _, _|].
    intros rev ->. exists id, rev. by apply H4.
Qed.

Lemma rendezvous_code eps remote sn plan fallback w :
  code (open_rendezvous_tunnel test_real_socket_matrix hash_probe eps remote sn plan fallback) (peer remote) w.
Proof.
  apply code_read. intros [v|] w1 _; [|done]. apply with_lock_code; [apply stable_peer|]. intros w2 _.
  apply get_code; [|intros r w3 _ Hr; by apply code_ret_peer]. intros w3 _. apply generate_code. intros id w4 _.
  eapply code_bind; [apply request_candidates_code|]. intros [[local p]|e] w5 _ _; [|done].
  apply request_code. intros [request|e] w6 _; [|done]. apply code_read. intros [[]|e] w7 _; [|done].
  apply install_own_code. intros g w8 _ Hg Ho Hk. by eapply initiator_body_code.
Qed.

Lemma nat_aware_code eps remote sn context plan w :
  code (open_nat_aware_tunnel test_real_socket_matrix hash_probe eps remote sn context plan) (peer remote) w.
Proof.
  unfold open_nat_aware_tunnel. destruct (rendezvous_plan plan) as [rz|]; [|apply legacy_code].
  apply timed_code; [apply stable_peer|done|]. eapply code_bind; [apply rendezvous_code|].
  intros [r|e] w1 _ Hr; [by apply code_ret_peer|apply legacy_code].
Qed.

(** ** The super node's requests *)

Lemma target_task_code remote seq id notify g w :
  g = GTarget remote seq id (guard_number g) ->
  (forall rev, expected_of_target (nt_operation notify) = Some rev -> waits_for w (guard_number g) remote) ->
  code (target_task test_real_socket_matrix remote notify g) (fun rb w => releasable (fst rb) g w) w.
Proof.
  intros Hg Hk. unfold target_task. apply code_await. intros gs w1 [] Hw1 _ _.
  assert (forall res w', peer remote res w' -> code (Ret (RComplete res, tt)) (fun rb w => releasable (fst rb) g w) w') as Hret.
  { intros res w' Hr. apply code_ret. intros w2 Hw2. simpl. rewrite Hg. by eapply stable_peer. }
  eapply (code_race _ _ _ _ _ _ _ _ (peer remote) (fun _ _ => True)); [|apply cancel_wait_code| | |done|done].
  - apply timed_code; [apply stable_peer|done|]. unfold target_action.
    destruct (nt_operation notify); try apply open_direct_path_code;
      eapply acted_peer, (heard_acted ActionLegacy); [apply punch_and_wait_code|apply wait_planned_code];
      (eapply waits_for_evolves; [by eapply Hk|done]).
  - intros res w2 _ Hr _. by apply Hret.
  - intros [] w2 _ _ _. by apply Hret.
Qed.

Lemma attach_code {A} remote s i n (k : bool -> fut A) Q w :
  w_owners w !! n = Some (remote, s, i) -> (forall b w', w ≼ w' -> code (k b) Q w') ->
  code (Sync (attach_step remote s i n) k) Q w.
Proof.
  intros Hn Hk. apply code_sync. intros gs w1 b w2 Hw1 Hi. unfold attach_step, on_manager.
  destruct (attach_rendezvous_task remote s i n n n (w_manager w1)) as [b' m'] eqn:E. simpl. intros [= -> <-].
  pose proof (lookup_weaken _ _ _ _ Hn (gr_owners _ _ Hw1)) as Hn1.
  destruct (attach_inv gs _ _ _ _ _ _ _ Hi Hn1 E) as [[Hi2 Hw2] Hc].
  assert ((if b then m' else cancel_rendezvous_owner remote s i n m') = m') as -> by (destruct b; [done|by apply Hc]).
  split; [done|]. split; [done|]. apply Hk. by etrans.
Qed.

Lemma arm_target_code remote notify p w :
  code (arm_target test_real_socket_matrix remote notify p) (fun _ _ => True) w.
Proof.
  apply code_fork. intros gs w1 b og w2 Hw1 Hi. unfold install_target_step.
  destruct (install _ _ _ _ _ _) as [res w3] eqn:E. destruct (install_inv gs _ _ _ _ _ _ _ _ Hi E) as ([H1 H2] & H3 & H4).
  destruct res as [[]|e]; [|intros [= <- <- <-]; split; [done|]; split; [done|]; split; [by apply code_ret|done]].
  destruct (w_spawn w1) as [[]|e]; intros [= <- <- <-].
  - split; [done|]. split; [done|]. split.
    + apply attach_code; [done|]. intros attached w4 _. by apply code_ret.
    + intros g [= <-]. eapply target_task_code; [done|]. intros rev Hrev. eexists _, rev. by apply H4.
  - destruct (cancel_inv gs _ _ _ _ _ _ H1 (or_intror eq_refl)) as [Hi2 Hw2].
    split; [done|]. split; [by etrans|]. split; [by apply code_ret|done].
Qed.

Lemma on_sn_rendezvous_code notify sn w :
  code (on_sn_rendezvous test_real_socket_matrix hash_probe notify sn) (fun _ _ => True) w.
Proof.
  unfold on_sn_rendezvous. destruct (notify_validate _ _ _); [|by apply code_ret].
  destruct (cert_create _) as [cert|]; [|by apply code_ret]. apply code_read. intros local w1 _.
  case_bool_decide; [by apply code_ret|]. destruct (nt_need_predict_endpoint notify); [|apply arm_target_code].
  eapply code_bind; [apply predict_code|]. intros [p|e] w2 _ _; [|by apply code_ret].
  apply code_read. intros [[]|e] w3 _; [apply arm_target_code|by apply code_ret].
Qed.

Lemma has_id_code {A} remote id (k : bool -> fut A) Q w :
  (forall b w', w ≼ w' -> code (k b) Q w') -> code (Sync (has_id_step remote id) k) Q w.
Proof.
  intros Hk. eapply (code_quiet _ _ (fun _ _ => True)).
  { intros w' b m' Hok Hf. apply has_id_ok in Hf as [Hq Hok']; done. }
  intros b w' w'' Hw _ Hw'. apply Hk. by etrans.
Qed.

Lemma called_action_code remote eps id action w :
  code (called_action test_real_socket_matrix remote eps id action) (fun _ _ => True) w.
Proof.
  unfold called_action. destruct (plan_waits action) eqn:Hp.
  - eapply (code_enter _ _ _ _ _ (fun _ _ => True)); [done| |intros b w1 _ _; by apply code_ret].
    intros gs w1 g w2 Hw1 Hi Hf. destruct (register_waiter_facts gs _ _ _ _ _ _ Hf Hi) as (H1 & H2 & H3 & H4 & H5).
    do 3 (split; [done|]). eapply code_bind.
    { apply (execute_code action Callee eps remote id (Some (guard_number g))). by intros n [= <-]. }
    intros res w3 _ Ha. apply code_ret. intros w4 Hw4. split; [|done]. simpl. rewrite H4.
    destruct (stable_acted _ _ _ _ _ _ Hw4 Ha) as [_ Hl]. destruct res; [simpl; by apply Hl|done].
  - eapply code_bind; [by apply execute_code|]. intros res w1 _ _. by apply code_ret.
Qed.

Lemma on_sn_called_code called w : code (on_sn_called test_real_socket_matrix called) (fun _ _ => True) w.
Proof.
  unfold on_sn_called. destruct (cert_create _) as [cert|]; [|by apply code_ret].
  apply has_id_code. intros [] w1 _; [by apply code_ret|]. apply code_read. intros eps w2 _.
  apply code_await. intros gs w3 info _ _ _. apply code_read. intros eps' w4 _. apply code_read. intros action w5 _.
  apply with_lock_code; [done|]. intros w6 _. apply has_id_code. intros [] w7 _; [by apply code_ret|].
  destruct action as [action|]; [apply called_action_code|]. eapply code_bind; [apply open_direct_path_code|].
  intros res w8 _ _. by apply code_ret.
Qed.

(** ** Entry points *)

Lemma from_lookup_code lookup w :
  code (open_tunnel_from_lookup test_real_socket_matrix hash_probe lookup) (peer (cert_get_id (lk_identity_cert lookup))) w.
Proof.
  unfold open_tunnel_from_lookup. repeat case_match; try apply open_known_code.
  apply code_read. intros context w1 _. apply code_read. intros [[plan|]|e] w2 _; [apply nat_aware_code|apply open_known_code|done].
Qed.

Lemma proxy_by_id_code remote w : code (proxy_by_id remote) (peer remote) w.
Proof. apply generate_code. intros id w1 _. apply open_proxy_path_code. Qed.

Lemma open_direct_tunnel_code eps remote w : code (open_direct_tunnel test_real_socket_matrix eps remote) (peer remote) w.
Proof. apply get_code; [intros w1 _; apply open_known_code|]. intros r w1 _ Hr. by apply code_ret_peer. Qed.

Lemma reverse_by_id_code remote w : code (reverse_by_id test_real_socket_matrix remote) (peer remote) w.
Proof. apply generate_code. intros id w1 _. apply open_reverse_path_code. Qed.

Lemma try_upgrade_code remote w : code (try_upgrade_proxy_tunnel test_real_socket_matrix remote) (peer remote) w.
Proof.
  apply existing_code; [|intros r w1 _ Hr; by apply code_ret_peer]. intros w1 _. apply code_read. intros [] w2 _; [|apply reverse_by_id_code].
  apply code_await. intros gs w3 [cert|e] _ _ _; [|apply reverse_by_id_code]. case_bool_decide; [apply reverse_by_id_code|].
  apply open_known_code.
Qed.

Lemma upgrade_code remote generation w :
  code (attempt_proxy_upgrade_generation test_real_socket_matrix remote generation) (fun _ _ => True) w.
Proof.
  apply code_read. intros [] w1 _; [|by apply code_ret]. eapply code_bind; [apply try_upgrade_code|]. intros res w2 _ _.
  eapply (code_quiet _ _ (fun _ _ => True)).
  { intros w' b m' Hok Hf. destruct (attempt_end _ _ _ _ _) as [m1|] eqn:E; simpl in Hf; [|done]. simplify_eq.
    apply attempt_end_quiet in E as [? ?]; done. }
  intros b w3 w4 _ _ _. by apply code_ret.
Qed.

(** The finder answers with the certificate it was asked for. *)
Definition found remote : Prop := forall info, find_answer remote info -> cert_get_id (lk_identity_cert info) = remote.

Lemma from_id_code remote w :
  code (open_tunnel_from_id test_real_socket_matrix hash_probe remote) (fun res w => found remote -> peer remote res w) w.
Proof.
  assert (forall f w', code f (peer remote) w' -> code f (fun res w => found remote -> peer remote res w) w') as Hpeer.
  { intros f w' Hf. by eapply code_mono; [exact Hf|]. }
  apply get_code; [|intros r w1 _ Hr; by apply Hpeer, code_ret_peer]. intros w1 _. apply code_read.
  intros [] w2 _; [|apply Hpeer, proxy_by_id_code]. apply code_await.
  intros gs w3 [info|e] _ _ Ha; [|apply Hpeer, proxy_by_id_code]. simpl in Ha.
  eapply code_mono; [apply from_lookup_code|]. intros res w4 _ Hr Hf. by rewrite <-(Hf info Ha).
Qed.

(** ** The manager at work *)

Inductive Entry :=
| EOpenTunnel (cert : Cert)
| EOpenDirectTunnel (eps : list Endpoint) (remote : P2pId)
| EOpenTunnelFromId (remote : P2pId)
| ESnCalled (called : SnCalled)
| ESnRendezvous (notify : SnTunnelRendezvousNotify) (sn : P2pId)
| EProxyUpgrade (remote : P2pId) (generation : Z).

Definition entry_result (l : Entry) : Type :=
  match l with
  | EOpenTunnel _ | EOpenDirectTunnel _ _ | EOpenTunnelFromId _ => P2pResult nat
  | ESnCalled _ => P2pResult unit
  | ESnRendezvous _ _ => P2pResult SnTunnelRendezvousActionAck
  | EProxyUpgrade _ _ => unit
  end.

Definition entry_program (l : Entry) : fut (entry_result l) :=
  match l with
  | EOpenTunnel cert => open_tunnel test_real_socket_matrix cert
  | EOpenDirectTunnel eps remote => open_direct_tunnel test_real_socket_matrix eps remote
  | EOpenTunnelFromId remote => open_tunnel_from_id test_real_socket_matrix hash_probe remote
  | ESnCalled called => on_sn_called test_real_socket_matrix called
  | ESnRendezvous notify sn => on_sn_rendezvous test_real_socket_matrix hash_probe notify sn
  | EProxyUpgrade remote generation => attempt_proxy_upgrade_generation test_real_socket_matrix remote generation
  end.

(** The peer a caller gets a tunnel with; a lookup is trusted when the finder
    answers with the certificate asked for. *)
Definition entry_promise (l : Entry) : entry_result l -> World -> Prop :=
  match l return entry_result l -> World -> Prop with
  | EOpenTunnel cert => peer (cert_get_id cert)
  | EOpenDirectTunnel _ remote => peer remote
  | EOpenTunnelFromId remote => fun res w => found remote -> peer remote res w
  | _ => fun _ _ => True
  end.

(** What happens besides: tunnels arrive, go through their own life, are cleaned
    up; clocks, the super node's client and the networks move on. *)
Inductive disturbance : World -> World -> Prop :=
| di_incoming r w res m' :
    on_incoming_tunnel (w_now w) r (w_manager w) = Some (res, m') -> disturbance w (set_manager m' w)
| di_tunnels h' w :
    (forall r, tn_identity (h' r) = tn_identity (tm_heap (w_manager w) r)) ->
    disturbance w (set_manager (set_heap h' (w_manager w)) w)
| di_outside w w' : same_core w w' -> disturbance w w'.

#[local] Instance opening_tasks : Tasks World (Ask Cert) Guard Release Entry :=
  {| result := entry_result; promise := entry_promise; starts := fun l f => f = entry_program l; disturbs := disturbance |}.

Lemma entry_code l w : code (entry_program l) (entry_promise l) w.
Proof.
  destruct l; simpl; [apply open_known_code|apply open_direct_tunnel_code|apply from_id_code|apply on_sn_called_code
    |apply on_sn_rendezvous_code|apply upgrade_code].
Qed.

Lemma disturbance_inv gs w w' : disturbance w w' -> open_inv gs w -> open_inv gs w' /\ grows w w'.
Proof.
  destruct 1 as [r w res m' Hin|h' w Hh|w w' Hc]; intros Hi; [by eapply incoming_inv| |by apply core_inv].
  apply quiet_inv; [done| |].
  - split; [done|done|done|]. exists []. by rewrite app_nil_r.
  - apply registry_ok_heap; [|apply Hi]. intros r es e _ _. apply Hh.
Qed.

(** A manager that was just created. *)
Definition fresh_world w : Prop :=
  exists local initial heap, w_manager w = manager_new local initial heap /\ w_locks w = [] /\ w_keys w = ∅ /\ w_owners w = ∅.

Definition opening_reachable (p : list (task (W := World) (Ask := Ask Cert) (G := Guard) (R := Release)) * World) : Prop :=
  exists w0, fresh_world w0 /\ rtc pool_step ([], w0) p.

Lemma manager_new_ok local initial (heap : nat -> T) : registry_ok (manager_new local initial heap).
Proof.
  split; [by intros remote es He; simpl in He; rewrite lookup_empty in He| |intros remote; simpl; rewrite lookup_empty; by intros [? ?]].
  split; [done|]. intros remote u. simpl. by rewrite lookup_empty.
Qed.

Lemma fresh_inv w : fresh_world w -> open_inv [] w.
Proof.
  intros (local & initial & heap & Hm & Hl & Hk & Ho). split; unfold waiters_of, attempts_of, log_of; rewrite ?Hm; simpl.
  - apply manager_new_ok.
  - intros k e. by rewrite lookup_empty.
  - intros k e. by rewrite lookup_empty.
  - intros remote o. by rewrite lookup_empty.
  - intros remote o. by rewrite lookup_empty.
  - intros e He. by apply not_elem_of_nil in He.
  - intros n _. by rewrite Hk, Ho, !lookup_empty.
  - rewrite Hl. split; [done|constructor].
Qed.

Lemma reachable_ok p : opening_reachable p -> pool_ok p.
Proof.
  intros (w0 & Hf & Hr). eapply (pool_inv (L := Entry)); [| |exact Hr|].
  - intros l f w ->. apply entry_code.
  - intros gs w w'. apply disturbance_inv.
  - split; [by apply fresh_inv|constructor].
Qed.

Lemma all_held_elem ts (g : Guard) : g ∈ all_held ts -> exists t, t ∈ ts /\ g ∈ task_held t.
Proof.
  unfold all_held. intros (l & (t & -> & Ht)%list_elem_of_In%list_elem_of_fmap & Hg%list_elem_of_In)%list_elem_of_In%in_concat. by exists t.
Qed.

(** The peer a guard is for. *)
Definition guard_peer (g : Guard) : P2pId :=
  match g with GWaiter k _ => fst (fst k) | GOwner r _ _ _ | GTarget r _ _ _ | GLock r => r end.

(** C3: openers_leave_nothing: however callers open tunnels, the super node
    calls and requests rendezvous, peers connect, timeouts fire, races are
    decided and callers give up at any await, every registered waiter, every
    rendezvous attempt and every lock of a peer is held by a task that is still
    running, and no two tasks hold the same lock; so when all tasks have ended
    or were dropped, no waiter, attempt or lock is left. *)
Theorem openers_leave_nothing ts w :
  opening_reachable (ts, w) ->
  (forall k e, waiters_of w !! k = Some e ->
     exists t g, t ∈ ts /\ g ∈ task_held t /\ guard_number g = iw_token e /\ guard_peer g = fst (fst k)) /\
  (forall remote o, attempts_of w !! remote = Some o -> exists t, t ∈ ts /\ guard_of remote o ∈ task_held t) /\
  (forall remote, remote ∈ w_locks w -> exists t, t ∈ ts /\ GLock remote ∈ task_held t) /\
  NoDup (locks_of (all_held ts)) /\
  (ts = [] -> waiters_of w = ∅ /\ attempts_of w = ∅ /\ w_locks w = []).
Proof.
  intros [Hi _]%reachable_ok. simpl in Hi. destruct Hi as [_ H2 _ H4 _ _ _ [H8 Hnd]].
  assert (forall remote o, attempts_of w !! remote = Some o -> exists t, t ∈ ts /\ guard_of remote o ∈ task_held t) as Ha
    by (intros remote o Ho; by apply all_held_elem, H4).
  assert (forall k e, waiters_of w !! k = Some e ->
     exists t g, t ∈ ts /\ g ∈ task_held t /\ guard_number g = iw_token e /\ guard_peer g = fst (fst k)) as Hw.
  { intros k e [Hg|(o & Ho & Ht & _)]%H2.
    - apply all_held_elem in Hg as (t & Ht & Hg). by exists t, (GWaiter k (iw_token e)).
    - destruct (Ha _ _ Ho) as (t & Hin & Hg). exists t, (guard_of (fst (fst k)) o). unfold guard_of in *.
      by destruct (ro_initiator_local o). }
  split; [done|]. split; [done|]. split.
  { intros remote. rewrite H8. intros ([| | |r] & Hg & [= ->])%list_elem_of_omap. by apply all_held_elem. }
  split; [by rewrite <-H8|]. intros ->. split; [|split].
  - apply map_empty. intros k. apply eq_None_not_Some. intros [e (t & g & Ht & _)%Hw]. by apply not_elem_of_nil in Ht.
  - apply map_empty. intros k. apply eq_None_not_Some. intros [e (t & Ht & _)%Ha]. by apply not_elem_of_nil in Ht.
  - by apply Permutation_nil_r in H8.
Qed.

(** C10: opened_tunnels_of_peer: a caller that is given a tunnel, by whichever
    path (registry, dialling, connecting back, rendezvous, a colliding attempt
    of the peer, proxy), is given one with the peer it asked for; by identifier
    provided the device finder answers with the certificate asked for.  (Of the
    networks and the proxy it is assumed that a tunnel they return is one with
    the peer they were asked for, as their authentication ensures.)  What a
    registered waiter is handed is a tunnel of exactly the peer, the tunnel id
    and the direction it was registered for. *)
Theorem opened_tunnels_of_peer ts w :
  opening_reachable (ts, w) ->
  (forall cert r, Named (EOpenTunnel cert) (Ret (Ok r)) ∈ ts -> remote_of w r = cert_get_id cert) /\
  (forall eps remote r, Named (EOpenDirectTunnel eps remote) (Ret (Ok r)) ∈ ts -> remote_of w r = remote) /\
  (forall remote r, found remote -> Named (EOpenTunnelFromId remote) (Ret (Ok r)) ∈ ts -> remote_of w r = remote) /\
  (forall n r, Notified n (Ok r) ∈ log_of w -> w_keys w !! n = Some (key_of w r)).
Proof.
  intros Hok%reachable_ok. split_and!.
  - intros cert r Hin. exact (pool_promise _ _ _ _ Hok Hin).
  - intros eps remote r Hin. exact (pool_promise _ _ _ _ Hok Hin).
  - intros remote r Hf Hin. exact (pool_promise _ _ _ _ Hok Hin Hf).
  - intros n r Hn. destruct Hok as [Hi _]. by destruct (oi_events _ _ Hi _ Hn) as (r' & [= <-] & Hk).
Qed.

(** Building runs. *)
Definition by_id_task remote (f : fut (P2pResult nat)) : task := Named (EOpenTunnelFromId remote) f.
Definition direct_task eps remote (f : fut (P2pResult nat)) : task := Named (EOpenDirectTunnel eps remote) f.

Lemma reachable_start l ts w : opening_reachable (ts, w) -> opening_reachable (Named l (entry_program l) :: ts, w).
Proof. intros (w0 & Hf & Hr). exists w0. split; [done|]. eapply rtc_r; [exact Hr|]. by apply ps_start. Qed.

Lemma reachable_direct eps remote (f f' : fut (P2pResult nat)) w w' sp ts :
  opening_reachable (Named (EOpenDirectTunnel eps remote) f :: ts, w) -> fstep f w f' w' sp ->
  opening_reachable (Named (EOpenDirectTunnel eps remote) f' :: (Anonymous <$> sp) ++ ts, w').
Proof.
  intros (w0 & Hf & Hr) Hs. exists w0. split; [done|]. eapply rtc_r; [exact Hr|].
  by apply (ps_named [] (EOpenDirectTunnel eps remote)).
Qed.

Lemma reachable_from_id remote (f f' : fut (P2pResult nat)) w w' sp ts :
  opening_reachable (Named (EOpenTunnelFromId remote) f :: ts, w) -> fstep f w f' w' sp ->
  opening_reachable (Named (EOpenTunnelFromId remote) f' :: (Anonymous <$> sp) ++ ts, w').
Proof.
  intros (w0 & Hf & Hr) Hs. exists w0. split; [done|]. eapply rtc_r; [exact Hr|].
  by apply (ps_named [] (EOpenTunnelFromId remote)).
Qed.

Lemma reachable_drop l f ts w :
  opening_reachable (Named l f :: ts, w) -> Forall (fun g => releasable RDrop g w) (held f) ->
  opening_reachable (ts, drop_fut f w).
Proof. intros (w0 & Hf & Hr) Hd. exists w0. split; [done|]. eapply rtc_r; [exact Hr|]. by apply (ps_drop_named []). Qed.

Lemma reachable_disturb ts w w' : opening_reachable (ts, w) -> disturbance w w' -> opening_reachable (ts, w').
Proof. intros (w0 & Hf & Hr) Hd. exists w0. split; [done|]. eapply rtc_r; [exact Hr|]. by apply ps_disturb. Qed.
End discipline.

(** The default finder, asked for a device about which the super nodes and the
    outer cache are honest, is such a finder. *)
Definition finder_answers {Cert} `{!CertOps Cert, !CertUpdate Cert} (outer : bool) (outer_get : P2pId -> option Cert)
    (remote : P2pId) (info : PeerLookupInfo Cert) : Prop :=
  exists f query f', rtc (finder_step outer_get) (finder_new (cache_new outer)) f /\
    (forall q bytes cert, query = Ok q -> qr_peer_info (qx_response q) = Some bytes -> cert_create bytes = Ok cert ->
       cert_get_id cert = remote) /\
    get_peer_info outer_get remote query f = (Ok info, f').

Lemma default_finder_found {Cert} `{!CertOps Cert, !CertUpdate Cert, !CertUpdateLaws Cert} outer outer_get remote :
  (forall id d, outer_get id = Some d -> cert_get_id d = id) -> found (finder_answers outer outer_get) remote.
Proof. intros Ho info (f & query & f' & Hr & Hq & Hget). by eapply honest_lookup. Qed.

(** ** Concrete runs *)

Module OpeningDemo.
Record DemoCert := mkDemoCert { dc_id : P2pId; dc_endpoints : list Endpoint }.
#[global] Instance DemoCert_ops : CertOps DemoCert :=
  {| cert_create := fun _ => Err P2pErrorCode.CertError; cert_get_id := dc_id; cert_endpoints := dc_endpoints;
     cert_encoded := fun _ => Err P2pErrorCode.CertError |}.

Definition other_peer : P2pId := mkP2pId [8].
Definition ep : Endpoint := mkEndpoint Wan Tcp (V4 (mkV4 203 0 113 1) 4000).
Definition plain (id : Z) (form : TunnelForm) (reverse : bool) (remote : P2pId) : PlainTunnel :=
  mkPlain id 1 form reverse remote StConnected false (mkActivity ActLive 0 0 0 None).
(** The peer's tunnel for the first id, and one dialled to the other peer. *)
Definition heap (r : nat) : PlainTunnel :=
  match r with 0%nat => plain 1 FormPassive true demo_peer | _ => plain 1 FormActive false other_peer end.
Definition sn_view : SnView := mkSnView [] (fun _ => []) (fun _ => None) [] (fun _ => false).
Definition start (sn : option SnView) (finder : bool) : World PlainTunnel :=
  mkWorld (manager_new (mkP2pId [1]) PROXY_UPGRADE_INITIAL_INTERVAL heap) 10 10 1 1 0 [] sn false finder
    (mkNetView (fun _ => Ok false) [] (fun _ _ => Ok tt)) (Ok []) (Ok tt) ∅ ∅.
Lemma start_fresh sn finder : fresh_world (start sn finder).
Proof. by eexists _, _, _. Qed.

Definition any_answer : P2pId -> PeerLookupInfo DemoCert -> Prop := fun _ _ => True.
Definition honest_answer : P2pId -> PeerLookupInfo DemoCert -> Prop :=
  fun remote info => cert_get_id (lk_identity_cert info) = remote.
Definition probe (_ _ : Endpoint) : bool := true.

Lemma start_reachable find sn finder : opening_reachable find false probe ([], start sn finder).
Proof. exists (start sn finder). split; [apply start_fresh|reflexivity]. Qed.

(** Steps with their result as an equation to compute. *)
Section steps.
Context {W : Type} {Ask : Type -> Type} {G R : Type} `{!Runtime W Ask G R}.
Notation fut := (fut W Ask G R).

Lemma do_sync A B f (k : B -> fut A) w b w' f' : f w = Some (b, w') -> k b = f' -> fstep (Sync f k) w f' w' [].
Proof. intros Hf <-. by constructor. Qed.
Lemma do_await A B (q : Ask B) (k : B -> fut A) b w f' : answers q b w -> k b = f' -> fstep (Await q k) w f' w [].
Proof. intros Hf <-. by constructor. Qed.
Lemma do_enter A B f body (k : B -> fut A) w g w' x :
  f w = Some (inr g, w') -> body g = x -> fstep (Enter f body k) w (Held g x k) w' [].
Proof. intros Hf <-. by constructor. Qed.
Lemma do_bind_ret A B b (k : B -> fut A) w f' : k b = f' -> fstep (Bind (Ret b) k) w f' w [].
Proof. intros <-. constructor. Qed.
Lemma do_held_ret A B g r b (k : B -> fut A) w w' f' :
  release r g w = w' -> k b = f' -> fstep (Held g (Ret (r, b)) k) w f' w' [].
Proof. intros <- <-. constructor. Qed.
End steps.

Ltac compute_eq := match goal with |- ?x = _ => let r := eval vm_compute in x in change x with r; reflexivity end.
Ltac head_eq := match goal with |- ?x = _ => let r := eval hnf in x in change x with r; reflexivity end.
Ltac sync := eapply do_sync; [compute_eq|head_eq].
Ltac enter := eapply do_enter; [compute_eq|head_eq].
Ltac await b := eapply (do_await _ _ _ _ b); [first [exact I | done]|head_eq].
(** One step of the only task. *)
Ltac fwd H tac :=
  first [eapply reachable_direct in H; [|tac] | eapply reachable_from_id in H; [|tac]]; cbn [app fmap list_fmap] in H.

(** The caller has found no tunnel, holds the lock and waits for the peer to
    connect back while it dials. *)
Ltac run_to_waiting H :=
  pose proof (start_reachable honest_answer (Some sn_view) false) as H;
  apply (reachable_start _ _ _ (EOpenDirectTunnel [ep] demo_peer)) in H; simpl in H; unfold open_direct_tunnel in H;
  fwd H sync; fwd H enter; do 2 fwd H ltac:(eapply fs_held, fs_bind; sync);
  do 2 fwd H ltac:(eapply fs_held, fs_bind; await (None (A := P2pConnectionInfo)));
  do 2 fwd H ltac:(eapply fs_held, fs_bind; sync); unfold race_with_delay in H;
  fwd H ltac:(eapply fs_held, fs_bind, fs_bind, fs_race_y; await tt);
  fwd H ltac:(eapply fs_held, fs_bind, fs_bind, fs_race_y; enter).

Lemma waiting_run :
  exists f w, opening_reachable honest_answer false probe ([direct_task honest_answer false probe [ep] demo_peer f], w) /\
    held f = [GLock demo_peer; GWaiter (demo_peer, 1, true) 0] /\
    waiters_of w !! (demo_peer, 1, true) = Some (mkIncomingWaiter 0 0) /\ w_locks w = [demo_peer].
Proof. run_to_waiting H. eexists _, _. split; [exact H|]. vm_compute. split_and!; reflexivity. Qed.

Lemma openers_leave_nothing_witness :
  exists ts w, opening_reachable honest_answer false probe (ts, w) /\ waiters_of w <> ∅ /\
    (forall remote, remote ∈ w_locks w -> exists t, t ∈ ts /\ GLock remote ∈ task_held t).
Proof.
  destruct waiting_run as (f & w & H & _ & Hw & _). eexists _, w. split; [exact H|]. split.
  - intros He. by rewrite He, lookup_empty in Hw.
  - by apply (openers_leave_nothing honest_answer false probe _ w H).
Defined.

(** A peer connects back; the caller gives up before it looks: the tunnel is
    neither registered nor closed. *)
Lemma handed_tunnel_lost :
  exists w : World PlainTunnel, opening_reachable honest_answer false probe ([], w) /\
    Notified 0 (Ok 0%nat) ∈ log_of w /\ entries_of demo_peer (w_manager w) = [] /\
    tn_is_closed (tm_heap (w_manager w) 0) = false.
Proof.
  run_to_waiting H. eapply reachable_disturb in H; [|eapply (di_incoming 0); compute_eq].
  apply reachable_drop in H; [|by repeat constructor]. eexists. split; [exact H|]. vm_compute. split_and!; [by left|done|done].
Qed.

(** A device is looked up, dialled and registered. *)
Ltac run_by_id H find asked answer_tac :=
  pose proof (start_reachable find None true) as H;
  apply (reachable_start _ _ _ (EOpenTunnelFromId asked)) in H; simpl in H; unfold open_tunnel_from_id in H;
  fwd H sync; fwd H sync;
  fwd H ltac:(eapply (do_await _ _ _ _ (Ok (mkLookup (mkDemoCert other_peer [ep]) None None None) : P2pResult (PeerLookupInfo DemoCert)));
              [answer_tac|head_eq]);
  fwd H enter; do 2 fwd H ltac:(eapply fs_held, fs_bind; sync);
  do 2 fwd H ltac:(eapply fs_held, fs_bind; await (None (A := P2pConnectionInfo)));
  do 2 fwd H ltac:(eapply fs_held, fs_bind; sync); unfold try_path, open_direct_path in H;
  fwd H ltac:(eapply fs_held, fs_bind, fs_bind; sync);
  fwd H ltac:(eapply fs_held, fs_bind, fs_bind; eapply (do_await _ _ _ _ (0%nat, Ok 1%nat)); [simpl; split; [lia|reflexivity]|head_eq]);
  fwd H ltac:(eapply fs_held, fs_bind, fs_bind; sync); fwd H ltac:(eapply fs_held, fs_bind, fs_bind; await tt);
  fwd H ltac:(eapply fs_held, fs_bind, fs_bind; sync);
  fwd H ltac:(eapply fs_held, fs_bind, fs_bind, fs_spawn); fwd H ltac:(eapply fs_held, fs_bind, fs_bind; await tt);
  fwd H ltac:(eapply fs_held, fs_bind; eapply do_bind_ret; head_eq); fwd H ltac:(eapply fs_held; eapply do_bind_ret; head_eq);
  fwd H ltac:(eapply do_held_ret; [compute_eq|head_eq]).

(** Asked for one device, the finder answers with another one's certificate:
    the caller gets a tunnel with that one. *)
Lemma found_other_device :
  exists r ts w, opening_reachable any_answer false probe (by_id_task any_answer false probe demo_peer (Ret (Ok r)) :: ts, w) /\
    remote_of w r = other_peer.
Proof. run_by_id H any_answer demo_peer ltac:(exact I). eexists _, _, _. split; [exact H|]. reflexivity. Qed.

Lemma honest_run :
  exists r ts w, opening_reachable honest_answer false probe (by_id_task honest_answer false probe other_peer (Ret (Ok r)) :: ts, w).
Proof. run_by_id H honest_answer other_peer ltac:(reflexivity). eexists _, _, _. exact H. Qed.

Lemma opened_tunnels_of_peer_witness :
  exists r ts w, opening_reachable honest_answer false probe (by_id_task honest_answer false probe other_peer (Ret (Ok r)) :: ts, w) /\
    remote_of w r = other_peer.
Proof.
  destruct honest_run as (r & ts & w & H). exists r, ts, w. split; [exact H|].
  destruct (opened_tunnels_of_peer honest_answer false probe _ w H) as (_ & _ & Hid & _).
  apply Hid; [by intros info|by left].
Defined.
End OpeningDemo.
