(* ===== verification/Text.v ===== *)
(** * Text

    What the code uses of the standard library's text: characters are code
    points, a [str] is a list of them (for ASCII text that is also the list of
    its bytes).  Digits and numbers, [from_str_radix] of the unsigned integers,
    [lines] and [split_whitespace]. *)

From stdpp Require Export strings.
From S2P Require Import Prelude.

Definition str (s : string) : list Z := map (fun a => Z.of_N (Ascii.N_of_ascii a)) (String.list_ascii_of_string s).
Arguments str s%_string.

(** [char::to_digit]. *)
Definition to_digit (radix c : Z) : option Z :=
  let d := if (48 <=? c) && (c <=? 57) then c - 48
           else if (97 <=? c) && (c <=? 122) then c - 87
           else if (65 <=? c) && (c <=? 90) then c - 55
           else radix in
  if d <? radix then Some d else None.

(** [char::is_whitespace], the property White_Space of Unicode. *)
Definition is_whitespace (c : Z) : bool :=
  ((9 <=? c) && (c <=? 13)) || (c =? 32) || (c =? 0x85) || (c =? 0xa0) || (c =? 0x1680)
  || ((0x2000 <=? c) && (c <=? 0x200a)) || (c =? 0x2028) || (c =? 0x2029) || (c =? 0x202f) || (c =? 0x205f)
  || (c =? 0x3000).

(** ** Printing numbers *)

Definition digit_char (d : Z) : Z := if d <? 10 then 48 + d else 87 + d.

(** At most [fuel] digits. *)
Fixpoint print_digits (fuel : nat) (radix n : Z) : list Z :=
  match fuel with
  | O => []
  | S fuel => if n <? radix then [digit_char n]
              else print_digits fuel radix (n / radix) ++ [digit_char (n mod radix)]
  end.
(** The widest number printed is a [u32]. *)
Definition print_number (radix n : Z) : list Z := print_digits 10 radix n.

(** ** Reading numbers *)

(** [from_str_radix] of an unsigned type with the given maximum; every error is
    [None]. *)
Fixpoint radix_loop (radix tmax : Z) (s : list Z) (result : Z) : option Z :=
  match s with
  | [] => Some result
  | c :: s =>
      d ← to_digit radix c;
      if tmax <? result * radix then None
      else if tmax <? result * radix + d then None
      else radix_loop radix tmax s (result * radix + d)
  end.
Definition from_str_radix (radix tmax : Z) (s : list Z) : option Z :=
  match s with
  | [] => None
  | 43 :: s => match s with [] => None | _ => radix_loop radix tmax s 0 end
  | _ => radix_loop radix tmax s 0
  end.

(** ** Splitting *)

(** The pieces between occurrences of a character. *)
Fixpoint split_on (sep : Z -> bool) (s : list Z) : list (list Z) :=
  match s with
  | [] => [[]]
  | c :: s =>
      if sep c then [] :: split_on sep s
      else match split_on sep s with [] => [[c]] | piece :: pieces => (c :: piece) :: pieces end
  end.

Definition split_whitespace (s : list Z) : list (list Z) := filter (fun piece => piece <> []) (split_on is_whitespace s).

(** [str::lines]: pieces end with a line feed, which is removed together with a
    carriage return before it; a last empty piece is no line. *)
Definition strip_cr (l : list Z) : list Z :=
  match rev l with 13 :: l => rev l | _ => l end.
Fixpoint strip_lines (pieces : list (list Z)) : list (list Z) :=
  match pieces with
  | [] => []
  | [last] => match last with [] => [] | _ => [last] end
  | piece :: pieces => strip_cr piece :: strip_lines pieces
  end.
Definition lines (s : list Z) : list (list Z) := strip_lines (split_on (Z.eqb 10) s).

(** [str::starts_with] and [str::contains]. *)
Definition str_starts_with (p s : list Z) : bool := bool_decide (take (length p) s = p).
Fixpoint str_contains (p s : list Z) : bool :=
  str_starts_with p s || match s with [] => false | _ :: s => str_contains p s end.

(** ** Lemmas *)

Definition is_digit (radix c : Z) : Prop := is_Some (to_digit radix c).

Lemma to_digit_char radix d : 0 <= d < radix -> radix <= 36 -> to_digit radix (digit_char d) = Some d.
Proof.
  intros Hd Hr. unfold to_digit, digit_char. destruct (d <? 10) eqn:E; bool_to_prop.
  - replace ((48 <=? 48 + d) && (48 + d <=? 57)) with true by (symmetry; apply andb_true_iff; split; lia).
    replace (48 + d - 48) with d by lia. by replace (d <? radix) with true by lia.
  - replace ((48 <=? 87 + d) && (87 + d <=? 57)) with false by (symmetry; apply andb_false_iff; right; lia).
    replace ((97 <=? 87 + d) && (87 + d <=? 122)) with true by (symmetry; apply andb_true_iff; split; lia).
    replace (87 + d - 87) with d by lia. by replace (d <? radix) with true by lia.
Qed.

Lemma to_digit_bound radix c d : 0 < radix -> to_digit radix c = Some d -> 0 <= d < radix.
Proof. unfold to_digit. intros Hr H. repeat case_match; simplify_eq; bool_to_prop; lia. Qed.

(** A number below [radix ^ k] has at most [k] digits, the first of them zero
    only if it is the only one. *)
Definition digits_of (radix n : Z) (k : nat) (ds : list Z) : Prop :=
  Forall (fun x => 0 <= x < radix) ds /\ foldl (fun r x => r * radix + x) 0 ds = n /\ ds <> [] /\
  (head ds = Some 0 -> length ds = 1%nat) /\ (length ds <= k)%nat.

Lemma print_digits_spec fuel radix n k :
  2 <= radix <= 36 -> 0 <= n < radix ^ Z.of_nat k -> (0 < k <= fuel)%nat ->
  exists ds, print_digits fuel radix n = map digit_char ds /\ digits_of radix n k ds.
Proof.
  intros Hr. revert n k. induction fuel as [|fuel IH]; intros n k Hn Hf; [lia|]. simpl.
  destruct (n <? radix) eqn:E; bool_to_prop.
  { exists [n]. split; [done|]. split; [by repeat constructor; lia|]. simpl. split; [lia|]. split; [done|]. split; [done|lia]. }
  assert (1 < k)%nat as Hk by (destruct k as [|[|k]]; [lia|change (Z.of_nat 1) with 1 in Hn; lia|lia]).
  destruct (IH (n / radix) (Nat.pred k)) as (ds & -> & Hds & Hv & Hne & Hz & Hl); [|lia|].
  { replace (Z.of_nat k) with (Z.succ (Z.of_nat (Nat.pred k))) in Hn by lia. rewrite Z.pow_succ_r in Hn by lia.
    split; [apply Z.div_pos; lia|apply Z.div_lt_upper_bound; lia]. }
  pose proof (Z.mod_pos_bound n radix ltac:(lia)).
  exists (ds ++ [n mod radix]). split; [by rewrite map_app|]. split_and!.
  - apply Forall_app. split; [done|by apply Forall_singleton].
  - rewrite foldl_app, Hv. simpl. rewrite (Z.div_mod n radix) at 3 by lia. lia.
  - by destruct ds.
  - intros Hh. destruct ds as [|d ds]; [done|]. simpl in Hh. injection Hh as ->.
    destruct ds; [|by specialize (Hz eq_refl)]. simpl in Hv.
    pose proof (Z.div_str_pos n radix ltac:(lia)). lia.
  - rewrite length_app. simpl. lia.
Qed.

Lemma print_number_spec radix n k :
  2 <= radix <= 36 -> 0 <= n < radix ^ Z.of_nat k -> (0 < k <= 10)%nat ->
  exists ds, print_number radix n = map digit_char ds /\ digits_of radix n k ds.
Proof. apply print_digits_spec. Qed.

(** Leading digits only make the number larger. *)
Lemma foldl_digits_ge radix ds r :
  2 <= radix -> 0 <= r -> Forall (fun x => 0 <= x < radix) ds -> r <= foldl (fun r x => r * radix + x) r ds.
Proof.
  intros Hr. revert r. induction ds as [|d ds IH]; intros r Hr0 Hds; simpl; [lia|].
  apply Forall_cons in Hds as [Hd Hds]. specialize (IH (r * radix + d) ltac:(nia) Hds). nia.
Qed.

Lemma radix_loop_print radix tmax ds r :
  2 <= radix <= 36 -> 0 <= r -> Forall (fun x => 0 <= x < radix) ds ->
  foldl (fun r x => r * radix + x) r ds <= tmax ->
  radix_loop radix tmax (map digit_char ds) r = Some (foldl (fun r x => r * radix + x) r ds).
Proof.
  intros Hr. revert r. induction ds as [|d ds IH]; intros r Hr0 Hds Hm; simpl in *; [done|].
  apply Forall_cons in Hds as [Hd Hds]. rewrite to_digit_char by lia. simpl.
  pose proof (foldl_digits_ge radix ds (r * radix + d) ltac:(lia) ltac:(nia) Hds).
  replace (tmax <? r * radix) with false by lia. replace (tmax <? r * radix + d) with false by lia.
  apply IH; [nia|done|done].
Qed.

Lemma digit_char_not_plus d : 0 <= d -> digit_char d <> 43.
Proof. unfold digit_char. case_match; bool_to_prop; lia. Qed.

(** Reading a numeral, leading zeroes allowed. *)
Lemma from_str_radix_numeral radix tmax n ds :
  2 <= radix <= 36 -> ds <> [] -> Forall (fun x => 0 <= x < radix) ds -> foldl (fun r x => r * radix + x) 0 ds = n ->
  n <= tmax -> from_str_radix radix tmax (map digit_char ds) = Some n.
Proof.
  intros Hr Hne Hds Hv Hn. destruct ds as [|d ds]; [done|].
  pose proof Hds as [Hd _]%Forall_cons. pose proof (digit_char_not_plus d ltac:(lia)) as Hp.
  unfold from_str_radix. cbn [map].
  assert (radix_loop radix tmax (digit_char d :: map digit_char ds) 0 = Some n) as Hl.
  { change (digit_char d :: map digit_char ds) with (map digit_char (d :: ds)). rewrite radix_loop_print; [by rewrite Hv|lia|lia|done|lia]. }
  destruct (digit_char d) as [|p|p]; try done. repeat (destruct p as [p|p|]; try done).
Qed.

(** Leading zeroes up to a width. *)
Definition pad_zeroes (width : nat) (s : list Z) : list Z := replicate (width - length s) 48 ++ s.

Lemma from_str_radix_padded radix tmax fuel n width :
  2 <= radix <= 36 -> 0 <= n < radix ^ Z.of_nat fuel -> (0 < fuel)%nat -> n <= tmax ->
  from_str_radix radix tmax (pad_zeroes width (print_digits fuel radix n)) = Some n.
Proof.
  intros Hr Hn Hk Ht. destruct (print_digits_spec fuel radix n fuel Hr Hn ltac:(lia)) as (ds & -> & Hds & Hv & Hne & _).
  unfold pad_zeroes. set (k := (width - length (map digit_char ds))%nat). clearbody k.
  assert (replicate k 48 ++ map digit_char ds = map digit_char (replicate k 0 ++ ds)) as ->.
  { rewrite map_app. f_equal. induction k as [|k IH]; [done|]. simpl. by rewrite IH. }
  apply from_str_radix_numeral; [done| | | |done].
  - by destruct k, ds.
  - apply Forall_app. split; [|done]. apply Forall_replicate. lia.
  - rewrite foldl_app, <-Hv. f_equal. induction k as [|k IH]; [done|]. exact IH.
Qed.

Lemma from_str_radix_print radix tmax n k :
  2 <= radix <= 36 -> 0 <= n < radix ^ Z.of_nat k -> (0 < k <= 10)%nat -> n <= tmax ->
  from_str_radix radix tmax (print_number radix n) = Some n.
Proof.
  intros Hr Hn Hk Ht. destruct (print_number_spec radix n k Hr Hn Hk) as (ds & -> & Hd).
  destruct Hd as (Hds & Hv & Hne & _). by apply from_str_radix_numeral.
Qed.

(** ** Words and lines *)

Lemma split_on_none sep s : Forall (fun c => sep c = false) s -> split_on sep s = [s].
Proof. induction 1 as [|c s Hc _ IH]; simpl; [done|]. by rewrite Hc, IH. Qed.

Lemma split_on_app sep w c rest :
  Forall (fun c => sep c = false) w -> sep c = true -> split_on sep (w ++ c :: rest) = w :: split_on sep rest.
Proof.
  intros Hw Hc. induction Hw as [|x w Hx _ IH]; simpl; [by rewrite Hc|]. by rewrite Hx, IH.
Qed.

Definition is_word (w : list Z) : Prop := w <> [] /\ Forall (fun c => is_whitespace c = false) w.

Lemma split_whitespace_word w : is_word w -> split_whitespace w = [w].
Proof. intros [Hne Hw]. unfold split_whitespace. by rewrite split_on_none, filter_cons_True. Qed.

Lemma split_whitespace_cons w rest : is_word w -> split_whitespace (w ++ 32 :: rest) = w :: split_whitespace rest.
Proof. intros [Hne Hw]. unfold split_whitespace. by rewrite split_on_app, filter_cons_True. Qed.

Lemma split_whitespace_spaces k rest : split_whitespace (replicate k 32 ++ rest) = split_whitespace rest.
Proof.
  induction k as [|k IH]; [done|]. simpl. rewrite <-IH. unfold split_whitespace at 1. simpl.
  by rewrite filter_cons_False by (intros H; by apply H).
Qed.

Lemma split_on_nonempty sep s : split_on sep s <> [].
Proof. destruct s as [|c s]; simpl; [done|]. repeat case_match; done. Qed.

Lemma lines_cons l rest : Forall (fun c => (10 =? c) = false) l -> lines (l ++ 10 :: rest) = strip_cr l :: lines rest.
Proof.
  intros Hl. unfold lines. rewrite split_on_app by done.
  pose proof (split_on_nonempty (Z.eqb 10) rest). by destruct (split_on (Z.eqb 10) rest).
Qed.

Lemma strip_cr_other l : last l <> Some 13 -> strip_cr l = l.
Proof.
  intros Hl. unfold strip_cr. destruct (rev l) as [|c l'] eqn:E; [done|].
  assert (last l = Some c) as Hc.
  { apply (f_equal (@rev Z)) in E. rewrite rev_involutive in E. subst l. simpl. by rewrite last_snoc. }
  repeat case_match; simplify_eq; congruence.
Qed.
