(* ===== verification/EndpointText.v ===== *)
(** * The textual form of endpoints (endpoint.rs)

    [Display] and [FromStr] of endpoints, with what they use of [std::net]: the
    printing of socket addresses and the recursive-descent parser of the
    standard library.  A parser takes the text to come and returns a value with
    the rest, or [None] having consumed nothing. *)

From S2P Require Import Prelude.
From S2P Require Import Errors.
From S2P Require Import Endpoint.
From S2P Require Import Text.
Open Scope Z_scope.

(** ** Printing addresses (std::net) *)

Definition print_v4 (ip : Ipv4Addr) : list Z :=
  print_number 10 (v4_a ip) ++ str "." ++ print_number 10 (v4_b ip) ++ str "." ++
  print_number 10 (v4_c ip) ++ str "." ++ print_number 10 (v4_d ip).

(** The leftmost longest run of zero segments, as start and length. *)
Fixpoint zeroes_loop (i : nat) (segs : list Z) (longest current : nat * nat) : nat * nat :=
  match segs with
  | [] => longest
  | s :: segs =>
      if s =? 0 then
        let current := (if (snd current =? 0)%nat then i else fst current, S (snd current)) in
        zeroes_loop (S i) segs (if (snd longest <? snd current)%nat then current else longest) current
      else zeroes_loop (S i) segs longest (0%nat, 0%nat)
  end.
Definition zeroes (segs : list Z) : nat * nat := zeroes_loop 0 segs (0%nat, 0%nat) (0%nat, 0%nat).

Fixpoint fmt_tail (chunk : list Z) : list Z :=
  match chunk with [] => [] | s :: chunk => str ":" ++ print_number 16 s ++ fmt_tail chunk end.
Definition fmt_subslice (chunk : list Z) : list Z :=
  match chunk with [] => [] | s :: chunk => print_number 16 s ++ fmt_tail chunk end.

Definition to_ipv4_mapped (ip : Ipv6Addr) : option Ipv4Addr :=
  if bool_decide (take 6 (segments ip) = [0; 0; 0; 0; 0; 0xffff])
  then Some (mkV4 (v6_6 ip / 256) (v6_6 ip mod 256) (v6_7 ip / 256) (v6_7 ip mod 256)) else None.

Definition print_v6 (ip : Ipv6Addr) : list Z :=
  match to_ipv4_mapped ip with
  | Some v4 => str "::ffff:" ++ print_v4 v4
  | None =>
      let segs := segments ip in
      let '(start, len) := zeroes segs in
      if (1 <? len)%nat then fmt_subslice (take start segs) ++ str "::" ++ fmt_subslice (drop (start + len) segs)
      else fmt_subslice segs
  end.

Definition print_addr (a : SocketAddr) : list Z :=
  match a with
  | V4 ip port => print_v4 ip ++ str ":" ++ print_number 10 port
  | V6 ip port _ scope =>
      str "[" ++ print_v6 ip ++ (if scope =? 0 then [] else str "%" ++ print_number 10 scope) ++ str "]:" ++
      print_number 10 port
  end.

(** ** Parsing addresses (std::net) *)

Definition parser (A : Type) : Type := list Z -> option (A * list Z).

Definition read_given_char (c : Z) : parser unit :=
  fun s => match s with x :: s => if x =? c then Some (tt, s) else None | [] => None end.

Definition read_separator {A} (sep : Z) (index : nat) (inner : parser A) : parser A :=
  fun s => match index with
           | O => inner s
           | S _ => '(_, s) ← read_given_char sep s; inner s
           end.

(** The digits to come: with a maximal number of them, or checked against the
    maximum of the type. *)
Fixpoint read_digits (radix tmax : Z) (max_digits : option nat) (s : list Z) (result : Z) (count : nat)
  : option (Z * nat * list Z) :=
  match s with
  | [] => Some (result, count, s)
  | c :: s' =>
      match to_digit radix c with
      | None => Some (result, count, s)
      | Some d =>
          let next := result * radix + d in
          if match max_digits with
             | Some m => (m <? S count)%nat
             | None => (tmax <? result * radix) || (tmax <? next)
             end
          then None else read_digits radix tmax max_digits s' next (S count)
      end
  end.
Definition read_number (radix tmax : Z) (max_digits : option nat) (allow_zero_prefix : bool) : parser Z :=
  fun s =>
    '(result, count, rest) ← read_digits radix tmax max_digits s 0 0;
    if (count =? 0)%nat then None
    else if negb allow_zero_prefix && bool_decide (head s = Some 48) && (1 <? count)%nat then None
    else if tmax <? result then None else Some (result, rest).

Definition read_octet (i : nat) : parser Z := read_separator 46 i (read_number 10 u8_max (Some 3%nat) false).
Definition read_ipv4_addr : parser Ipv4Addr :=
  fun s =>
    '(a, s) ← read_octet 0 s; '(b, s) ← read_octet 1 s; '(c, s) ← read_octet 2 s; '(d, s) ← read_octet 3 s;
    Some (mkV4 a b c d, s).

(** [togo] of [limit] groups are still to be read, starting with group [i]; the
    groups read and whether the last two were an IPv4 address. *)
Fixpoint read_groups (togo : nat) (i : nat) (s : list Z) : list Z * bool * list Z :=
  match togo with
  | O => ([], false, s)
  | S togo =>
      match (if (0 <? togo)%nat then read_separator 58 i read_ipv4_addr s else None) with
      | Some (v4, s) => ([v4_a v4 * 256 + v4_b v4; v4_c v4 * 256 + v4_d v4], true, s)
      | None =>
          match read_separator 58 i (read_number 16 u16_max (Some 4%nat) true) s with
          | Some (g, s) => let '(gs, v4, s) := read_groups togo (S i) s in (g :: gs, v4, s)
          | None => ([], false, s)
          end
      end
  end.

Definition ipv6_of (gs : list Z) : option Ipv6Addr :=
  match gs with [a; b; c; d; e; f; g; h] => Some (mkV6 a b c d e f g h) | _ => None end.

Definition read_ipv6_addr : parser Ipv6Addr :=
  fun s =>
    let '(hd, head_ipv4, s) := read_groups 8 0 s in
    if (length hd =? 8)%nat then ip ← ipv6_of hd; Some (ip, s)
    else if head_ipv4 : bool then None
    else
      '(_, s) ← read_given_char 58 s; '(_, s) ← read_given_char 58 s;
      let '(tl, _, s) := read_groups (8 - (length hd + 1)) 0 s in
      ip ← ipv6_of (hd ++ replicate (8 - length tl - length hd) 0 ++ tl); Some (ip, s).

Definition read_port : parser Z := fun s => '(_, s) ← read_given_char 58 s; read_number 10 u16_max None true s.
Definition read_scope_id : parser Z := fun s => '(_, s) ← read_given_char 37 s; read_number 10 u32_max None true s.

Definition read_socket_addr_v4 : parser SocketAddr :=
  fun s => '(ip, s) ← read_ipv4_addr s; '(port, s) ← read_port s; Some (V4 ip port, s).
Definition read_socket_addr_v6 : parser SocketAddr :=
  fun s =>
    '(_, s) ← read_given_char 91 s;
    '(ip, s) ← read_ipv6_addr s;
    let '(scope, s) := default (0, s) (read_scope_id s) in
    '(_, s) ← read_given_char 93 s;
    '(port, s) ← read_port s;
    Some (V6 ip port 0 scope, s).
Definition read_socket_addr : parser SocketAddr :=
  fun s => match read_socket_addr_v4 s with Some r => Some r | None => read_socket_addr_v6 s end.

(** [SocketAddr::from_str]: everything is consumed. *)
Definition addr_from_str (s : list Z) : option SocketAddr :=
  match read_socket_addr s with Some (a, []) => Some a | _ => None end.

(** ** Endpoints *)

Definition area_char (a : EndpointArea) : list Z :=
  match a with Lan => str "L" | ServerReflexive => str "S" | Wan => str "W" | Mapped => str "M" end.

(** [format!("e{:02}", n)]. *)
Definition print_protocol (p : Protocol) : list Z :=
  match p with
  | Ext n => str "e" ++ (if n <? 10 then str "0" else []) ++ print_number 10 n
  | Tcp => str "tcp"
  | Quic => str "qic"
  end.

Definition endpoint_to_string (ep : Endpoint) : list Z :=
  area_char (area ep) ++ (if is_ipv4 (addr ep) then str "4" else str "6") ++ print_protocol (protocol ep) ++
  print_addr (addr ep).

Definition is_ascii (c : Z) : bool := (0 <=? c) && (c <=? 127).
Definition is_decimal (c : Z) : bool := (48 <=? c) && (c <=? 57).

Definition area_from_char (c : Z) : P2pResult EndpointArea :=
  if c =? 87 then Ok Wan else if c =? 77 then Ok Mapped else if c =? 76 then Ok Lan
  else if c =? 83 then Ok ServerReflexive else Err P2pErrorCode.InvalidInput.

Definition protocol_from_chars (a b c : Z) : P2pResult Protocol :=
  if bool_decide ([a; b; c] = str "tcp") then Ok Tcp
  else if bool_decide ([a; b; c] = str "udp") || bool_decide ([a; b; c] = str "qic") then Ok Quic
  else if (a =? 101) && is_decimal b && is_decimal c then
    let n := (b - 48) * 10 + (c - 48) in
    if (n <? 8) || (16 <=? n) then Err P2pErrorCode.InvalidInput else Ok (Ext n)
  else Err P2pErrorCode.InvalidInput.

(** The text after an ASCII prefix starts at a character boundary. *)
Definition endpoint_from_str (s : list Z) : P2pResult Endpoint :=
  match s with
  | c0 :: version :: c2 :: c3 :: c4 :: rest =>
      if negb (forallb is_ascii [c0; version; c2; c3; c4]) then Err P2pErrorCode.InvalidInput
      else
        area <-? area_from_char c0 ;;
        protocol <-? protocol_from_chars c2 c3 c4 ;;
        match addr_from_str rest with
        | None => Err P2pErrorCode.InvalidInput
        | Some a =>
            if negb ((is_ipv4 a && (version =? 52)) || (is_ipv6 a && (version =? 54))) then Err P2pErrorCode.InvalidInput
            else Ok (mkEndpoint area protocol a)
        end
  | _ => Err P2pErrorCode.InvalidInput
  end.

(** [endpoints_to_string], a list for log lines. *)
Fixpoint join_tail (eps : list Endpoint) : list Z :=
  match eps with [] => [] | ep :: eps => str "," ++ endpoint_to_string ep ++ join_tail eps end.
Definition endpoints_to_string (eps : list Endpoint) : list Z :=
  str "[" ++ (match eps with [] => [] | ep :: eps => endpoint_to_string ep ++ join_tail eps end) ++ str "]".

(** ** Numbers *)

(** The text does not go on with a digit. *)
Definition stops (radix : Z) (s : list Z) : Prop := forall c, head s = Some c -> to_digit radix c = None.

Lemma stops_cons radix c s : to_digit radix c = None -> stops radix (c :: s).
Proof. by intros H x [= <-]. Qed.
Lemma stops_nil radix : stops radix [].
Proof. by intros c. Qed.
#[local] Hint Resolve stops_nil : core.
#[local] Hint Extern 1 (stops _ (_ :: _)) => (apply stops_cons; reflexivity) : core.
#[local] Hint Extern 1 (stops _ (str _ ++ _)) => (apply stops_cons; reflexivity) : core.

Lemma read_digits_print radix tmax md ds rest r count :
  2 <= radix <= 36 -> 0 <= r -> Forall (fun x => 0 <= x < radix) ds -> stops radix rest ->
  (match md with
   | Some m => (count + length ds <= m)%nat
   | None => foldl (fun r x => r * radix + x) r ds <= tmax
   end) ->
  read_digits radix tmax md (map digit_char ds ++ rest) r count =
    Some (foldl (fun r x => r * radix + x) r ds, (count + length ds)%nat, rest).
Proof.
  intros Hr. revert r count. induction ds as [|d ds IH]; intros r count Hr0 Hds Hs Hm; simpl.
  { rewrite Nat.add_0_r. destruct rest as [|c rest]; [done|]. simpl. by rewrite (Hs c). }
  apply Forall_cons in Hds as [Hd Hds]. rewrite to_digit_char by lia.
  pose proof (foldl_digits_ge radix ds (r * radix + d) ltac:(lia) ltac:(nia) Hds) as Hge. simpl in Hm.
  replace (match md with Some m => (m <? S count)%nat | None => (tmax <? r * radix) || (tmax <? r * radix + d) end) with false.
  - rewrite IH; [by rewrite Nat.add_succ_r|nia|done|done|]. destruct md; [lia|done].
  - destruct md; symmetry; [apply Nat.ltb_ge; lia|]. apply orb_false_iff. lia.
Qed.

Lemma digit_char_zero d : 0 <= d -> digit_char d = 48 -> d = 0.
Proof. unfold digit_char. case_match; bool_to_prop; lia. Qed.

Lemma read_number_print radix tmax md allow n k rest :
  2 <= radix <= 36 -> 0 <= n < radix ^ Z.of_nat k -> (0 < k <= 10)%nat -> n <= tmax ->
  (forall m, md = Some m -> (k <= m)%nat) -> stops radix rest ->
  read_number radix tmax md allow (print_number radix n ++ rest) = Some (n, rest).
Proof.
  intros Hr Hn Hk Ht Hm Hs. destruct (print_number_spec radix n k Hr Hn Hk) as (ds & -> & Hds & Hv & Hne & Hz & Hl).
  unfold read_number. rewrite read_digits_print; [|done|lia|done|done|].
  2:{ destruct md as [m|]; [specialize (Hm m eq_refl); simpl; lia|lia]. }
  rewrite Hv. simpl. destruct ds as [|d ds]; [done|]. simpl length. cbn [Nat.eqb].
  replace (tmax <? n) with false by lia. destruct allow; [done|]. simpl.
  case_bool_decide as Hh; [|done]. apply Forall_cons in Hds as [Hd _].
  injection Hh as Hh%digit_char_zero; [|lia]. subst d. specialize (Hz eq_refl). simpl in Hz.
  by replace (length ds) with 0%nat by lia.
Qed.

Lemma stops_hex s : stops 16 s -> stops 10 s.
Proof.
  intros H c Hc. specialize (H c Hc). unfold to_digit in *. repeat case_match; simplify_eq; bool_to_prop; lia || done.
Qed.

Lemma read_digits_spec radix tmax md s r count r' count' rest :
  2 <= radix -> 0 <= r -> read_digits radix tmax md s r count = Some (r', count', rest) ->
  0 <= r' /\ exists ds, s = ds ++ rest /\ Forall (is_digit radix) ds /\ stops radix rest /\ count' = (count + length ds)%nat.
Proof.
  intros Hr. revert r count. induction s as [|c s IH]; intros r count Hr0; simpl.
  { intros [= <- <- <-]. split; [done|]. exists []. split_and!; [done|constructor|auto|simpl; lia]. }
  destruct (to_digit radix c) as [d|] eqn:Hd.
  - case_match; [done|]. apply to_digit_bound in Hd as Hb; [|lia].
    intros (Hr' & ds & -> & Hds & Hs & ->)%IH; [|nia]. split; [done|]. exists (c :: ds). split_and!; [done| |done|simpl; lia].
    constructor; [by exists d|done].
  - intros [= <- <- <-]. split; [done|]. exists []. split_and!; [done|constructor|by apply stops_cons|simpl; lia].
Qed.

Lemma read_number_spec radix tmax md allow s n rest :
  2 <= radix -> read_number radix tmax md allow s = Some (n, rest) ->
  0 <= n <= tmax /\ exists ds, s = ds ++ rest /\ Forall (is_digit radix) ds /\ ds <> [].
Proof.
  intros Hr. unfold read_number. intros ([[r c] s'] & Hd & H)%bind_Some.
  apply read_digits_spec in Hd as (Hr0 & ds & -> & Hds & Hs & ->); [|done|lia]. repeat case_match; simplify_eq. bool_to_prop.
  split; [lia|]. exists ds. split_and!; [done..|]. by intros ->.
Qed.

Lemma read_number_none radix tmax md allow s : 2 <= radix -> stops radix s -> read_number radix tmax md allow s = None.
Proof.
  intros Hr Hs. apply eq_None_not_Some. intros [[n rest] (_ & ds & -> & Hds & Hne)%read_number_spec]; [|done].
  destruct ds as [|d ds]; [done|]. apply Forall_cons in Hds as [[x Hx] _]. by rewrite (Hs d eq_refl) in Hx.
Qed.

(** ** IPv4 *)

Lemma pow_u8 n : is_u8 n -> 0 <= n < 10 ^ Z.of_nat 3.
Proof. unfold is_u8, u8_max. change (10 ^ Z.of_nat 3) with 1000. lia. Qed.

Lemma read_first_octet n rest :
  is_u8 n -> stops 10 rest -> read_octet 0 (print_number 10 n ++ rest) = Some (n, rest).
Proof.
  intros Hn Hs. apply (read_number_print _ _ _ _ _ 3); [lia|by apply pow_u8|lia|apply Hn|by intros m [= <-]|done].
Qed.
Lemma read_next_octet i n rest :
  is_u8 n -> stops 10 rest -> read_octet (S i) (str "." ++ print_number 10 n ++ rest) = Some (n, rest).
Proof. apply read_first_octet. Qed.

Lemma read_ipv4_print ip rest : wf_v4 ip -> stops 10 rest -> read_ipv4_addr (print_v4 ip ++ rest) = Some (ip, rest).
Proof.
  intros Hip Hs. destruct ip as [a b c d]. unfold wf_v4, octets4 in Hip. simpl in Hip.
  apply Forall_cons in Hip as [Ha Hip]. apply Forall_cons in Hip as [Hb Hip]. apply Forall_cons in Hip as [Hc Hip].
  apply Forall_cons in Hip as [Hd _]. unfold read_ipv4_addr, print_v4. simpl v4_a. simpl v4_b. simpl v4_c. simpl v4_d.
  rewrite <-!app_assoc, read_first_octet by auto. cbn [mbind option_bind].
  rewrite read_next_octet by auto. cbn [mbind option_bind]. rewrite read_next_octet by auto. cbn [mbind option_bind].
  by rewrite read_next_octet.
Qed.

(** No text that goes on with decimal digits and a dot. *)
Definition no_dot (s : list Z) : Prop := forall ds rest, s = ds ++ rest -> Forall (is_digit 10) ds -> head rest <> Some 46.

Lemma read_ipv4_none s : no_dot s -> read_ipv4_addr s = None.
Proof.
  intros Hs. unfold read_ipv4_addr. destruct (read_octet 0 s) as [[a s']|] eqn:Ha; [|done].
  simpl. apply read_number_spec in Ha as (_ & ds & -> & Hds & _); [|lia]. specialize (Hs ds s' eq_refl Hds).
  unfold read_octet, read_separator, read_given_char. destruct s' as [|c s']; [done|].
  destruct (c =? 46) eqn:E; [|done]. bool_to_prop. by subst c.
Qed.

Lemma digit_char_not_dot d : 0 <= d -> digit_char d <> 46.
Proof. unfold digit_char. case_match; bool_to_prop; lia. Qed.

Lemma no_dot_digits hs rest :
  Forall (fun x => 0 <= x) hs -> stops 10 rest -> head rest <> Some 46 -> no_dot (map digit_char hs ++ rest).
Proof.
  intros Hhs Hs Hd. induction hs as [|h hs IH]; intros ds rest' Heq Hds; simpl in Heq.
  - subst rest. destruct ds as [|d ds]; [done|]. apply Forall_cons in Hds as [[x Hx] _]. by rewrite (Hs d eq_refl) in Hx.
  - apply Forall_cons in Hhs as [Hh Hhs]. destruct ds as [|d ds]; simpl in Heq.
    + subst rest'. simpl. intros [= H]. by apply digit_char_not_dot in H.
    + injection Heq as _ Heq. apply Forall_cons in Hds as [_ Hds]. by apply (IH Hhs ds rest').
Qed.

Lemma no_dot_print n rest : is_u16 n -> stops 10 rest -> head rest <> Some 46 -> no_dot (print_number 16 n ++ rest).
Proof.
  intros Hn Hs Hd. destruct (print_number_spec 16 n 4) as (ds & -> & Hds & _); [lia| |lia|].
  - unfold is_u16, u16_max in Hn. change (16 ^ Z.of_nat 4) with 65536. lia.
  - apply no_dot_digits; [|done|done]. eapply Forall_impl; [exact Hds|]. simpl. lia.
Qed.

Lemma no_dot_other rest : stops 10 rest -> head rest <> Some 46 -> no_dot rest.
Proof. intros Hs Hd. by apply (no_dot_digits []). Qed.

(** ** IPv6 *)

(** The text ends a list of groups: nothing of it can be read as another one. *)
Definition ends_groups (s : list Z) : Prop :=
  stops 16 s /\ head s <> Some 46 /\ (head s = Some 58 -> exists s', s = 58 :: 58 :: s').

Lemma pow_u16 n : is_u16 n -> 0 <= n < 16 ^ Z.of_nat 4.
Proof. unfold is_u16, u16_max. change (16 ^ Z.of_nat 4) with 65536. lia. Qed.

Definition chunk_text (i : nat) (chunk : list Z) : list Z :=
  match i with O => fmt_subslice chunk | S _ => fmt_tail chunk end.

Lemma read_no_group i {A} (inner : parser A) s :
  ends_groups s -> (forall s, stops 16 s -> head s <> Some 46 -> inner s = None) -> read_separator 58 i inner s = None.
Proof.
  intros (Hs & Hd & Hc) Hi. destruct i as [|i]; [by apply Hi|]. simpl. unfold read_given_char.
  destruct s as [|c s]; [done|]. destruct (c =? 58) eqn:E; [|done]. bool_to_prop. subst c.
  destruct (Hc eq_refl) as (s' & [= ->]). simpl. apply Hi; [by apply stops_cons|done].
Qed.

Lemma read_no_v4 s : stops 16 s -> head s <> Some 46 -> read_ipv4_addr s = None.
Proof. intros Hs Hd. apply read_ipv4_none, no_dot_other; [by apply stops_hex|done]. Qed.

Lemma chunk_follows chunk rest :
  ends_groups rest -> stops 16 (fmt_tail chunk ++ rest) /\ head (fmt_tail chunk ++ rest) <> Some 46.
Proof. intros (Hs & Hd & _). destruct chunk as [|g chunk]; simpl; [done|]. split; [|done]. by apply stops_cons. Qed.

Lemma read_group i g chunk rest (A : Type) (inner : parser A) :
  read_separator 58 i inner (chunk_text i (g :: chunk) ++ rest) = inner (print_number 16 g ++ fmt_tail chunk ++ rest).
Proof. destruct i; simpl; by rewrite <-app_assoc. Qed.

(** Printed groups are read back, none of them as an IPv4 address. *)
Lemma read_groups_print togo i chunk rest :
  (length chunk <= togo)%nat -> Forall is_u16 chunk -> ends_groups rest ->
  read_groups togo i (chunk_text i chunk ++ rest) = (chunk, false, rest).
Proof.
  revert i chunk. induction togo as [|togo IH]; intros i chunk Hl Hc He.
  { destruct chunk; [|simpl in Hl; lia]. by destruct i. }
  destruct chunk as [|g chunk].
  - replace (chunk_text i [] ++ rest) with rest by by destruct i. simpl.
    rewrite !(read_no_group i) by (done || intros; by apply read_no_v4 || (apply read_number_none; [lia|done])).
    by destruct (0 <? togo)%nat.
  - apply Forall_cons in Hc as [Hg Hc]. destruct (chunk_follows chunk rest He) as [Hs Hd]. cbn [read_groups].
    rewrite !read_group, read_ipv4_none by (apply no_dot_print; [done|by apply stops_hex|done]).
    rewrite (read_number_print _ _ _ _ _ 4); [|lia|by apply pow_u16|lia|apply Hg|by intros m [= <-]|done].
    change (fmt_tail chunk) with (chunk_text (S i) chunk). rewrite IH; [|simpl in Hl; lia|done|done].
    by destruct (0 <? togo)%nat.
Qed.

(** The run of zeroes. *)
Lemma zeroes_loop_spec pre segs longest current :
  let ok l '(start, len) := (start + len <= length l)%nat /\ take len (drop start l) = replicate len 0 in
  ok pre longest -> ok pre current -> (snd current = 0%nat \/ fst current + snd current = length pre)%nat ->
  ok (pre ++ segs) (zeroes_loop (length pre) segs longest current).
Proof.
  intros ok. revert pre longest current. induction segs as [|s segs IH]; intros pre longest current Hl Hc Hend; simpl.
  { by rewrite app_nil_r. }
  assert (forall p, ok pre p -> ok (pre ++ [s]) p) as Hgrow.
  { intros [st ln] [H1 H2]. split; [rewrite length_app; simpl; lia|]. rewrite drop_app_le by lia.
    by rewrite take_app_le by (rewrite length_drop; lia). }
  replace (pre ++ s :: segs) with ((pre ++ [s]) ++ segs) by by rewrite <-app_assoc.
  replace (S (length pre)) with (length (pre ++ [s])) by (rewrite length_app; simpl; lia).
  destruct (s =? 0) eqn:E; bool_to_prop.
  2:{ apply IH; [by apply Hgrow| |by left]. split; [lia|done]. }
  subst s. destruct current as [st ln]. simpl in Hend.
  assert (ok (pre ++ [0]) (if (ln =? 0)%nat then length pre else st, S ln)) as Hcur.
  { destruct (Nat.eqb_spec ln 0) as [->|E].
    - split; [rewrite length_app; simpl; lia|]. by rewrite drop_app_length.
    - destruct Hend as [->|Hend]; [done|]. destruct Hc as [_ Hc]. split; [rewrite length_app; simpl; lia|].
      rewrite drop_app_le by lia. rewrite take_app_ge by (rewrite length_drop; lia).
      replace (S ln - length (drop st pre))%nat with 1%nat by (rewrite length_drop; lia).
      rewrite <-(take_ge (drop st pre) ln) by (rewrite length_drop; lia).
      rewrite Hc. simpl take. by rewrite <-replicate_cons_app. }
  apply IH; [|exact Hcur|].
  - simpl. destruct (snd longest <? S ln)%nat; [exact Hcur|by apply Hgrow].
  - right. simpl. rewrite length_app. simpl. destruct (Nat.eqb_spec ln 0); lia.
Qed.

Lemma zeroes_spec segs start len :
  zeroes segs = (start, len) -> (start + len <= length segs)%nat /\
  segs = take start segs ++ replicate len 0 ++ drop (start + len) segs.
Proof.
  intros Hz. pose proof (zeroes_loop_spec [] segs (0%nat, 0%nat) (0%nat, 0%nat)) as H. simpl in H.
  unfold zeroes in Hz. rewrite Hz in H. destruct H as [H1 H2]; [split; [lia|done]..|by left|]. split; [done|].
  rewrite <-H2, <-drop_drop, take_drop, take_drop. done.
Qed.

Lemma ipv6_of_segments ip : ipv6_of (segments ip) = Some ip.
Proof. by destruct ip. Qed.

Lemma ends_colons s : ends_groups (58 :: 58 :: s).
Proof. split; [by apply stops_cons|]. split; [done|]. intros _. by exists s. Qed.

Lemma mapped_spec ip v4 :
  wf_v6 ip -> to_ipv4_mapped ip = Some v4 ->
  wf_v4 v4 /\ segments ip = [0; 0; 0; 0; 0; 0xffff; v4_a v4 * 256 + v4_b v4; v4_c v4 * 256 + v4_d v4].
Proof.
  intros Hip. destruct ip as [s0 s1 s2 s3 s4 s5 s6 s7]. unfold to_ipv4_mapped. case_bool_decide as H; [|done].
  simpl in H. intros [= <-]. simpl. injection H as -> -> -> -> -> ->.
  unfold wf_v6, segments in Hip. simpl in Hip. do 6 apply Forall_cons_1 in Hip as [_ Hip].
  apply Forall_cons_1 in Hip as [H6 Hip]. apply Forall_cons_1 in Hip as [H7 _]. unfold is_u16, u16_max in *. split.
  - unfold wf_v4, octets4. simpl.
    assert (forall x, 0 <= x <= 65535 -> is_u8 (x / 256) /\ is_u8 (x mod 256)) as Hb.
    { intros x Hx. unfold is_u8, u8_max. pose proof (Z.mod_pos_bound x 256). pose proof (Z.div_pos x 256).
      pose proof (Z.div_lt_upper_bound x 256 256). lia. }
    destruct (Hb _ H6), (Hb _ H7). by rewrite !Forall_cons, Forall_nil.
  - assert (forall x, x = x / 256 * 256 + x mod 256) as Hx by (intros x; pose proof (Z.div_mod x 256); lia).
    unfold segments. simpl. by rewrite <-!Hx.
Qed.

Lemma wf_v6_segments ip : wf_v6 ip -> Forall is_u16 (segments ip) /\ length (segments ip) = 8%nat.
Proof. done. Qed.

(** The text after an address in brackets. *)
Definition closes (s : list Z) : Prop := ends_groups s /\ head s <> Some 58.

Lemma closes_groups s : closes s -> ends_groups s.
Proof. by intros [H _]. Qed.
#[local] Hint Resolve closes_groups : core.

Lemma read_groups_v4 togo i s v4 s' :
  read_separator 58 i read_ipv4_addr s = Some (v4, s') ->
  read_groups (S (S togo)) i s = ([v4_a v4 * 256 + v4_b v4; v4_c v4 * 256 + v4_d v4], true, s').
Proof. intros H. simpl. by rewrite H. Qed.
Lemma read_groups_group togo i s g s' :
  read_separator 58 i read_ipv4_addr s = None ->
  read_separator 58 i (read_number 16 u16_max (Some 4%nat) true) s = Some (g, s') ->
  read_groups (S togo) i s = let '(gs, v4, r) := read_groups togo (S i) s' in (g :: gs, v4, r).
Proof. intros H1 H2. simpl. rewrite H1, H2. by destruct (0 <? togo)%nat. Qed.

Lemma read_mapped_print v4 rest :
  wf_v4 v4 -> closes rest ->
  read_groups 7 0 (str "ffff:" ++ print_v4 v4 ++ rest) =
    ([0xffff; v4_a v4 * 256 + v4_b v4; v4_c v4 * 256 + v4_d v4], true, rest).
Proof.
  intros Hv [(Hs & _ & _) _].
  change (str "ffff:" ++ print_v4 v4 ++ rest) with (print_number 16 65535 ++ 58 :: print_v4 v4 ++ rest).
  rewrite (read_groups_group 6 0 _ 65535 (58 :: print_v4 v4 ++ rest)).
  - rewrite (read_groups_v4 4 1 _ v4 rest); [done|]. apply read_ipv4_print; [done|by apply stops_hex].
  - apply read_ipv4_none, no_dot_print; [done|by apply stops_cons|done].
  - apply (read_number_print _ _ _ _ _ 4); [lia|done|lia|done|by intros m [= <-]|by apply stops_cons].
Qed.

Lemma read_ipv6_print ip rest : wf_v6 ip -> closes rest -> read_ipv6_addr (print_v6 ip ++ rest) = Some (ip, rest).
Proof.
  intros Hip Hrest. destruct (wf_v6_segments ip Hip) as [Hf Hl]. unfold print_v6, read_ipv6_addr.
  destruct (to_ipv4_mapped ip) as [v4|] eqn:Hm.
  { apply mapped_spec in Hm as [Hv Hseg]; [|done].
    change ((str "::ffff:" ++ print_v4 v4) ++ rest) with (58 :: 58 :: str "ffff:" ++ print_v4 v4 ++ rest).
    pose proof (read_groups_print 8 0 [] _ ltac:(simpl; lia) ltac:(constructor)
      (ends_colons (str "ffff:" ++ print_v4 v4 ++ rest))) as Hg. simpl chunk_text in Hg. cbn [app] in Hg. rewrite Hg.
    simpl length. cbn [Nat.eqb read_given_char Z.eqb Pos.eqb mbind option_bind]. simpl Nat.sub.
    rewrite read_mapped_print by done. simpl length. simpl replicate. cbn [app]. rewrite <-Hseg.
    by rewrite ipv6_of_segments. }
  destruct (zeroes (segments ip)) as [start len] eqn:Hz. apply zeroes_spec in Hz as [Hle Hseg]. rewrite Hl in Hle.
  destruct (Nat.ltb_spec 1 len) as [Hlen|Hlen].
  - rewrite <-!app_assoc. set (tl := drop (start + len) (segments ip)) in *. set (hd := take start (segments ip)) in *.
    assert (length hd = start) as Hh by (unfold hd; rewrite length_take; lia).
    assert (length tl = 8 - (start + len))%nat as Ht by (unfold tl; rewrite length_drop; lia).
    pose proof (read_groups_print 8 0 hd (str "::" ++ fmt_subslice tl ++ rest)) as Hg. cbn [chunk_text] in Hg.
    rewrite Hg; [|lia|by apply Forall_take|by apply ends_colons]. rewrite Hh.
    replace (start =? 8)%nat with false by (symmetry; apply Nat.eqb_neq; lia).
    cbn [str]. change (str "::" ++ fmt_subslice tl ++ rest) with (58 :: 58 :: fmt_subslice tl ++ rest).
    cbn [read_given_char Z.eqb Pos.eqb mbind option_bind].
    pose proof (read_groups_print (8 - (start + 1)) 0 tl rest) as Hg2. cbn [chunk_text] in Hg2.
    rewrite Hg2; [|lia|by apply Forall_drop|auto].
    replace (8 - length tl - start)%nat with len by lia. rewrite <-Hseg. by rewrite ipv6_of_segments.
  - pose proof (read_groups_print 8 0 (segments ip) rest) as Hg. cbn [chunk_text] in Hg.
    rewrite Hg; [|lia|done|auto]. rewrite Hl. cbn [Nat.eqb]. by rewrite ipv6_of_segments.
Qed.

(** ** Socket addresses *)

Lemma pow_10 n : 0 <= n <= u32_max -> 0 <= n < 10 ^ Z.of_nat 10.
Proof. unfold u32_max. change (10 ^ Z.of_nat 10) with 10000000000. lia. Qed.

Lemma read_port_print port : is_u16 port -> read_port (str ":" ++ print_number 10 port) = Some (port, []).
Proof.
  intros Hp. unfold read_port. simpl. rewrite <-(app_nil_r (print_number 10 port)).
  apply (read_number_print _ _ _ _ _ 10); [lia| |lia|apply Hp|done|auto].
  apply pow_10. unfold is_u16, u16_max, u32_max in *. lia.
Qed.

Definition without_flow (a : SocketAddr) : SocketAddr :=
  match a with V4 ip port => V4 ip port | V6 ip port _ scope => V6 ip port 0 scope end.

Lemma addr_text_roundtrip a : wf_addr a -> addr_from_str (print_addr a) = Some (without_flow a).
Proof.
  unfold addr_from_str, read_socket_addr. destruct a as [ip port|ip port flow scope]; cbn [print_addr wf_addr without_flow].
  - intros [Hip Hp]. unfold read_socket_addr_v4. rewrite read_ipv4_print by auto. cbn [mbind option_bind].
    by rewrite read_port_print.
  - intros (Hip & Hp & _ & Hs). unfold read_socket_addr_v4.
    change (str "[" ++ ?x) with (91 :: x). cbn [app].
    rewrite read_no_v4 by (by apply stops_cons || done). cbn [mbind option_bind].
    unfold read_socket_addr_v6. cbn [read_given_char Z.eqb Pos.eqb mbind option_bind].
    destruct (Z.eqb_spec scope 0) as [->|Hne].
    + rewrite app_nil_l. rewrite read_ipv6_print; [|done|].
      2:{ split; [|done]. split; [by apply stops_cons|]. split; [done|]. intros [=]. }
      cbn [mbind option_bind]. change (str "]:" ++ ?x) with (93 :: 58 :: x).
      cbn [read_scope_id read_given_char Z.eqb Pos.eqb mbind option_bind default].
      change (58 :: print_number 10 port) with (str ":" ++ print_number 10 port).
      simpl default. cbn [read_given_char Z.eqb Pos.eqb mbind option_bind]. by rewrite read_port_print.
    + rewrite <-app_assoc, read_ipv6_print; [|done|].
      2:{ split; [|done]. split; [by apply stops_cons|]. split; [done|]. intros [=]. }
      cbn [mbind option_bind]. unfold read_scope_id.
      change (str "%" ++ ?x) with (37 :: x). cbn [read_given_char Z.eqb Pos.eqb mbind option_bind].
      change (str "]:" ++ ?x) with (93 :: 58 :: x).
      rewrite (read_number_print _ _ _ _ _ 10); [|lia|by apply pow_10|lia|apply Hs|done|by apply stops_cons].
      simpl default. cbn [read_given_char Z.eqb Pos.eqb mbind option_bind].
      change (58 :: print_number 10 port) with (str ":" ++ print_number 10 port). by rewrite read_port_print.
Qed.

(** ** What a parser accepts *)

Lemma read_octet_sound i s n rest : read_octet i s = Some (n, rest) -> is_u8 n.
Proof.
  unfold read_octet, read_separator. destruct i; [intros [H _]%read_number_spec; [exact H|lia]|].
  intros ([? ?] & _ & [H _]%read_number_spec)%bind_Some; [exact H|lia].
Qed.

Lemma read_ipv4_sound s ip rest : read_ipv4_addr s = Some (ip, rest) -> wf_v4 ip.
Proof.
  unfold read_ipv4_addr.
  intros ([a s1] & Ha%read_octet_sound & ([b s2] & Hb%read_octet_sound & ([c s3] & Hc%read_octet_sound &
    ([d s4] & Hd%read_octet_sound & [= <- <-])%bind_Some)%bind_Some)%bind_Some)%bind_Some.
  unfold wf_v4, octets4. simpl. by rewrite !Forall_cons, Forall_nil.
Qed.

Lemma read_separator_some {A} sep i (inner : parser A) s a rest :
  read_separator sep i inner s = Some (a, rest) -> exists s', inner s' = Some (a, rest).
Proof. destruct i; [by exists s|]. intros ([? s'] & _ & H)%bind_Some. by exists s'. Qed.

Lemma read_groups_sound togo i s gs v4 rest :
  read_groups togo i s = (gs, v4, rest) -> Forall is_u16 gs /\ (length gs <= togo)%nat.
Proof.
  revert i s gs v4 rest. induction togo as [|togo IH]; intros i s gs v4 rest; simpl.
  { intros [= <- <- <-]. split; [constructor|simpl; lia]. }
  destruct (if (0 <? togo)%nat then _ else None) as [[ip s']|] eqn:Hv.
  { intros [= <- <- <-]. destruct (Nat.ltb_spec 0 togo); [|done].
    apply read_separator_some in Hv as (? & Hw%read_ipv4_sound). unfold wf_v4, octets4 in Hw. rewrite !Forall_cons in Hw.
    unfold is_u8, is_u16, u8_max, u16_max in *. split; [|simpl; lia]. rewrite !Forall_cons, Forall_nil. lia. }
  destruct (read_separator 58 i (read_number 16 u16_max (Some 4%nat) true) s) as [[g s']|] eqn:Hg; [|intros [= <- <- <-]; split; [constructor|simpl; lia]].
  apply read_separator_some in Hg as (? & [Hb _]%read_number_spec); [|lia].
  destruct (read_groups togo (S i) s') as [[gs' v'] r'] eqn:E. apply IH in E as [H1 H2]. intros [= <- <- <-].
  split; [by constructor|simpl; lia].
Qed.

Lemma ipv6_of_wf gs ip : ipv6_of gs = Some ip -> Forall is_u16 gs -> wf_v6 ip.
Proof. unfold ipv6_of. repeat case_match; try done. by intros [= <-]. Qed.

Lemma read_ipv6_sound s ip rest : read_ipv6_addr s = Some (ip, rest) -> wf_v6 ip.
Proof.
  unfold read_ipv6_addr. destruct (read_groups 8 0 s) as [[hd v4] s1] eqn:E. apply read_groups_sound in E as [Hh _].
  case_match; [intros (? & Hi & [= <- <-])%bind_Some; by eapply ipv6_of_wf|]. case_match; [done|].
  intros ([? s2] & _ & ([? s3] & _ & Hr)%bind_Some)%bind_Some.
  destruct (read_groups _ 0 s3) as [[tl ?] s4] eqn:E. apply read_groups_sound in E as [Ht _].
  apply bind_Some in Hr as (? & Hi & [= <- <-]). eapply ipv6_of_wf; [done|].
  apply Forall_app. split; [done|]. apply Forall_app. split; [|done]. by apply Forall_replicate.
Qed.

Lemma read_port_sound s p rest : read_port s = Some (p, rest) -> is_u16 p.
Proof. intros ([? ?] & _ & [H _]%read_number_spec)%bind_Some; [exact H|lia]. Qed.

Lemma addr_from_str_sound s a : addr_from_str s = Some a -> wf_addr a /\ without_flow a = a.
Proof.
  unfold addr_from_str, read_socket_addr. destruct (read_socket_addr_v4 s) as [[a' r]|] eqn:E4.
  { destruct r; [|done]. intros [= <-]. revert E4.
    intros ([ip s1] & Hi%read_ipv4_sound & ([p s2] & Hp%read_port_sound & [= <- _])%bind_Some)%bind_Some. done. }
  destruct (read_socket_addr_v6 s) as [[a' r]|] eqn:E6; [|done]. destruct r; [|done]. intros [= <-]. revert E6.
  intros ([? s1] & _ & ([ip s2] & Hi%read_ipv6_sound & H)%bind_Some)%bind_Some.
  destruct (default (0, s2) (read_scope_id s2)) as [scope s3] eqn:Es.
  apply bind_Some in H as ([? s4] & _ & ([p s5] & Hp%read_port_sound & [= <- _])%bind_Some).
  split; [|done]. simpl. split; [done|]. split; [done|]. split; [unfold is_u32, u32_max; lia|].
  unfold read_scope_id in Es. destruct (read_given_char 37 s2 ≫= _) as [[n r]|] eqn:En; simpl in Es; simplify_eq.
  - apply bind_Some in En as ([? ?] & _ & [H _]%read_number_spec); [exact H|lia].
  - unfold is_u32, u32_max. lia.
Qed.

Lemma protocol_from_chars_sound a b c p :
  protocol_from_chars a b c = Ok p -> match p with Ext n => 8 <= n < 16 | _ => True end.
Proof. unfold protocol_from_chars. repeat case_match; intros [= <-] || intros; simplify_eq; bool_to_prop; auto; lia. Qed.

Lemma area_char_roundtrip a s : exists c, area_char a ++ s = c :: s /\ is_ascii c = true /\ area_from_char c = Ok a.
Proof. destruct a; by eexists. Qed.

(** The five characters before an address. *)
Lemma protocol_chars p :
  match p with Ext n => 8 <= n < 16 | _ => True end ->
  exists a b c, print_protocol p = [a; b; c] /\ forallb is_ascii [a; b; c] = true /\ protocol_from_chars a b c = Ok p.
Proof.
  destruct p as [n| |]; [|by eexists _, _, _..]. intros Hn.
  assert (n = 8 \/ n = 9 \/ n = 10 \/ n = 11 \/ n = 12 \/ n = 13 \/ n = 14 \/ n = 15) as Hcases by lia.
  destruct Hcases as [->|[->|[->|[->|[->|[->|[->| ->]]]]]]]; by eexists _, _, _.
Qed.

Lemma extension_chars n :
  is_u8 n -> n < 8 \/ 16 <= n < 100 ->
  exists a b c, print_protocol (Ext n) = [a; b; c] /\ protocol_from_chars a b c = Err P2pErrorCode.InvalidInput.
Proof.
  unfold is_u8, u8_max. intros Hu Hn. destruct (Z.ltb_spec n 10) as [H|H].
  - assert (n = 0 \/ n = 1 \/ n = 2 \/ n = 3 \/ n = 4 \/ n = 5 \/ n = 6 \/ n = 7) as Hc by lia.
    destruct Hc as [->|[->|[->|[->|[->|[->|[->| ->]]]]]]]; by eexists _, _, _.
  - destruct (print_number_spec 10 n 2) as (ds & Hp & Hds & Hv & Hne & Hz & Hl); [lia|change (10 ^ Z.of_nat 2) with 100; lia|lia|].
    unfold print_protocol. replace (n <? 10) with false by lia. rewrite Hp.
    destruct ds as [|x [|y [|? ?]]]; [done|simpl in Hv; apply Forall_cons in Hds as [? _]; lia| |simpl in Hl; lia].
    apply Forall_cons in Hds as [Hx Hds]. apply Forall_cons in Hds as [Hy _]. simpl in Hv.
    eexists _, _, _. split; [reflexivity|]. unfold protocol_from_chars, digit_char.
    replace (x <? 10) with true by lia. replace (y <? 10) with true by lia.
    rewrite !bool_decide_false by (intros [=]). simpl orb. cbv iota.
    unfold is_decimal. replace ((48 <=? 48 + x) && (48 + x <=? 57)) with true by (symmetry; apply andb_true_iff; lia).
    replace ((48 <=? 48 + y) && (48 + y <=? 57)) with true by (symmetry; apply andb_true_iff; lia).
    simpl andb. cbv iota. replace ((48 + x - 48) * 10 + (48 + y - 48)) with n by lia.
    by replace ((n <? 8) || (16 <=? n)) with true by (symmetry; apply orb_true_iff; lia).
Qed.

(** What can be printed and read back. *)
Definition ext_in_text (p : Protocol) : Prop := match p with Ext n => 8 <= n < 16 | _ => True end.

Lemma version_fits a :
  let version := if is_ipv4 a then 52 else 54 in
  (is_ipv4 (without_flow a) && (version =? 52)) || (is_ipv6 (without_flow a) && (version =? 54)) = true.
Proof. by destruct a. Qed.

Lemma endpoint_text_cons ep : ext_in_text (protocol ep) -> wf_addr (addr ep) ->
  endpoint_from_str (endpoint_to_string ep) = Ok (mkEndpoint (area ep) (protocol ep) (without_flow (addr ep))).
Proof.
  intros Hp Ha. unfold endpoint_to_string.
  destruct (protocol_chars _ Hp) as (a & b & c & -> & Hasc & Hproto).
  destruct (area_char_roundtrip (area ep) ((if is_ipv4 (addr ep) then str "4" else str "6") ++ [a; b; c] ++ print_addr (addr ep)))
    as (c0 & -> & Hc0 & Harea).
  replace ((if is_ipv4 (addr ep) then str "4" else str "6") ++ [a; b; c] ++ print_addr (addr ep))
    with ((if is_ipv4 (addr ep) then 52 else 54) :: a :: b :: c :: print_addr (addr ep)) by by destruct (is_ipv4 (addr ep)).
  cbn [endpoint_from_str]. cbn [forallb] in Hasc. cbn [forallb]. rewrite Hc0.
  replace (is_ascii (if is_ipv4 (addr ep) then 52 else 54)) with true by by destruct (is_ipv4 (addr ep)).
  cbn [andb]. rewrite Hasc. cbn [negb]. rewrite Harea, Hproto, addr_text_roundtrip by done.
  by rewrite version_fits.
Qed.

Lemma endpoint_from_str_sound s ep :
  endpoint_from_str s = Ok ep -> ext_in_text (protocol ep) /\ wf_addr (addr ep) /\ without_flow (addr ep) = addr ep.
Proof.
  unfold endpoint_from_str. destruct s as [|c0 [|v [|a [|b [|c rest]]]]]; try done. case_match; [done|].
  destruct (area_from_char c0) as [ar|]; [|done]. destruct (protocol_from_chars a b c) as [p|] eqn:Hp; [|done].
  destruct (addr_from_str rest) as [ad|] eqn:Ha; [|done]. case_match; [done|]. intros [= <-]. simpl.
  split; [by apply protocol_from_chars_sound in Hp|]. by apply addr_from_str_sound in Ha.
Qed.

(** C25: endpoint_text_roundtrip: an endpoint with a protocol of the protocol
    list, printed and parsed, is that endpoint again with its address up to the
    flow information, IPv6 addresses with their compressed zeroes, embedded IPv4
    addresses and scopes included; an extension protocol outside of 8 to 15 that
    prints with two digits is refused.  Whatever text is accepted, the endpoint
    is well formed, and printed again it is read as the same endpoint. *)
Theorem endpoint_text_roundtrip :
  (forall ep, wf_addr (addr ep) -> ext_in_text (protocol ep) ->
     endpoint_from_str (endpoint_to_string ep) = Ok (mkEndpoint (area ep) (protocol ep) (without_flow (addr ep)))) /\
  (forall ar n a, is_u8 n -> n < 8 \/ 16 <= n < 100 ->
     endpoint_from_str (endpoint_to_string (mkEndpoint ar (Ext n) a)) = Err P2pErrorCode.InvalidInput) /\
  (forall s ep, endpoint_from_str s = Ok ep ->
     wf_addr (addr ep) /\ ext_in_text (protocol ep) /\ endpoint_from_str (endpoint_to_string ep) = Ok ep).
Proof.
  split; [|split].
  - intros ep Ha Hp. by apply endpoint_text_cons.
  - intros ar n a Hu Hn. unfold endpoint_to_string. cbn [protocol addr area].
    destruct (extension_chars n Hu Hn) as (x & y & z & -> & Hproto).
    destruct (area_char_roundtrip ar ((if is_ipv4 a then str "4" else str "6") ++ [x; y; z] ++ print_addr a)) as (c0 & -> & Hc0 & Harea).
    replace ((if is_ipv4 a then str "4" else str "6") ++ [x; y; z] ++ print_addr a)
      with ((if is_ipv4 a then 52 else 54) :: x :: y :: z :: print_addr a) by by destruct (is_ipv4 a).
    cbn [endpoint_from_str]. case_match; [done|]. by rewrite Harea, Hproto.
  - intros s ep (Hp & Ha & Hf)%endpoint_from_str_sound. split; [done|]. split; [done|].
    rewrite endpoint_text_cons by done. rewrite Hf. by destruct ep.
Qed.

Module TextDemo.
(** An embedded IPv4 address, a compressed address with a scope, an alias. *)
Lemma printed_examples :
  endpoint_to_string (mkEndpoint Wan (Ext 9) (V6 (mkV6 0 0 0 0 0 0xffff 0xc000 0x0201) 4433 7 0)) = str "W6e09[::ffff:192.0.2.1]:4433" /\
  endpoint_to_string (mkEndpoint Mapped Quic (V6 (mkV6 0x2001 0xdb8 0 0 1 0 0 0x1f) 80 0 3)) = str "M6qic[2001:db8::1:0:0:1f%3]:80" /\
  endpoint_from_str (str "S4udp10.0.0.1:9000") = Ok (mkEndpoint ServerReflexive Quic (V4 (mkV4 10 0 0 1) 9000)) /\
  endpoint_from_str (str "L4tcp[::1]:80") = Err P2pErrorCode.InvalidInput.
Proof. by vm_compute. Qed.

(** A protocol number of three digits is printed into the address. *)
Lemma wide_protocol_misread :
  endpoint_from_str (endpoint_to_string (mkEndpoint Lan (Ext 101) (V4 (mkV4 1 2 3 4) 80))) =
    Ok (mkEndpoint Lan (Ext 10) (V4 (mkV4 11 2 3 4) 80)).
Proof. by vm_compute. Qed.
End TextDemo.
