(* ===== verification/LocalIp.v ===== *)
(** * Local addresses (sn/client/local_ip.rs, sn/client/sn_service.rs)

    Which addresses of the host a client reports: the interfaces left out by
    name, the state of the addresses on Linux (text of the kernel) and on Windows
    (codes of the adapter), their ranking.  The interfaces of the crate if_addrs
    and the text of /proc/net/if_inet6 are arguments. *)

From S2P Require Import Prelude.
From S2P Require Import Endpoint.
From S2P Require Import Text.
From S2P Require Import SnService.
From S2P Require Import SnClient.
Open Scope Z_scope.

Inductive DadState := DadPreferred | DadDeprecated | DadTentative | DadFailed | DadUnknown.
Inductive PrefixSource := Manual | LinkLayer | Random | OtherSource | UnknownSource.
#[global] Instance DadState_eq_dec : EqDecision DadState.
Proof. solve_decision. Defined.
#[global] Instance PrefixSource_eq_dec : EqDecision PrefixSource.
Proof. solve_decision. Defined.

Record AddressMeta := mkMeta {
  am_addr : IpAddr; am_dad_state : DadState; am_temporary : bool; am_prefix_source : PrefixSource }.
#[global] Instance AddressMeta_eq_dec : EqDecision AddressMeta.
Proof. solve_decision. Defined.

Definition meta_unknown (a : IpAddr) : AddressMeta := mkMeta a DadUnknown false UnknownSource.

Definition address_is_usable (m : AddressMeta) : bool :=
  match am_dad_state m with DadPreferred | DadUnknown => true | _ => false end.

Definition address_score (m : AddressMeta) : Z :=
  (if bool_decide (am_dad_state m = DadPreferred) then 100 else 0) +
  (if am_temporary m then 0 else 30) +
  (if bool_decide (am_prefix_source m = Random) then 0 else 20).

(** The higher score first, then the order of enumeration. *)
Definition ranked_before (x y : Z * nat * IpAddr) : bool :=
  match then_with (fst (fst y) ?= fst (fst x)) (Nat.compare (snd (fst x)) (snd (fst y))) with Gt => false | _ => true end.

Definition ranked (metas : list AddressMeta) : list (Z * nat * IpAddr) :=
  omap (fun '(index, m) => if address_is_usable m then Some (address_score m, index, am_addr m) else None)
    (zip (seq 0 (length metas)) metas).
Definition select_local_ips (metas : list AddressMeta) : list IpAddr :=
  snd <$> take MAX_LOCAL_IP_COUNT (sort_by ranked_before (ranked metas)).

(** ** Windows *)

Definition NLDS_INVALID : Z := 0.
Definition NLDS_TENTATIVE : Z := 1.
Definition NLDS_DUPLICATE : Z := 2.
Definition NLDS_DEPRECATED : Z := 3.
Definition NLDS_PREFERRED : Z := 4.
Definition NLSO_MANUAL : Z := 1.
Definition NLSO_WELL_KNOWN : Z := 2.
Definition NLSO_DHCP : Z := 3.
Definition NLSO_LINK_LAYER : Z := 4.
Definition NLSO_RANDOM : Z := 5.

Definition windows_dad_state (code : Z) : option DadState :=
  if code =? NLDS_INVALID then None else if code =? NLDS_TENTATIVE then Some DadTentative
  else if code =? NLDS_DUPLICATE then Some DadFailed else if code =? NLDS_DEPRECATED then Some DadDeprecated
  else if code =? NLDS_PREFERRED then Some DadPreferred else Some DadUnknown.
Definition windows_prefix_source (code : Z) : PrefixSource :=
  if code =? NLSO_MANUAL then Manual else if code =? NLSO_LINK_LAYER then LinkLayer
  else if code =? NLSO_RANDOM then Random else if (code =? NLSO_WELL_KNOWN) || (code =? NLSO_DHCP) then OtherSource
  else UnknownSource.
Definition windows_meta (a : IpAddr) (dad_state_code suffix_origin_code : Z) (adapter_up : bool) : option AddressMeta :=
  if negb adapter_up then None
  else
    dad_state ← windows_dad_state dad_state_code;
    let prefix_source := windows_prefix_source suffix_origin_code in
    Some (mkMeta a dad_state (bool_decide (prefix_source = Random)) prefix_source).

(** ** Linux *)

Definition IFA_F_TEMPORARY : Z := 0x01.
Definition IFA_F_DADFAILED : Z := 0x08.
Definition IFA_F_DEPRECATED : Z := 0x20.
Definition IFA_F_TENTATIVE : Z := 0x40.
Definition IFA_F_STABLE_PRIVACY : Z := 0x800.

Record ProcNetIfInet6Entry := mkProcEntry {
  pe_addr : IpAddr; pe_ifname : list Z; pe_prefix_len : Z; pe_scope : Z; pe_flags : Z }.
#[global] Instance ProcNetIfInet6Entry_eq_dec : EqDecision ProcNetIfInet6Entry.
Proof. solve_decision. Defined.

Definition has_flag (flags f : Z) : bool := negb (Z.land flags f =? 0).
Definition dad_state_from_flags (flags : Z) : DadState :=
  if has_flag flags IFA_F_DADFAILED then DadFailed
  else if has_flag flags IFA_F_TENTATIVE then DadTentative
  else if has_flag flags IFA_F_DEPRECATED then DadDeprecated
  else DadPreferred.
Definition meta_from_flags (a : IpAddr) (flags : Z) : AddressMeta :=
  mkMeta a (dad_state_from_flags flags) (has_flag flags IFA_F_TEMPORARY)
    (if has_flag flags IFA_F_STABLE_PRIVACY then Random else UnknownSource).

Definition u128_max : Z := 2 ^ 128 - 1.
(** [Ipv6Addr::from(u128)]. *)
Definition ipv6_from_u128 (n : Z) : Ipv6Addr :=
  let seg i := n / 65536 ^ i mod 65536 in
  mkV6 (seg 7) (seg 6) (seg 5) (seg 4) (seg 3) (seg 2) (seg 1) (seg 0).

(** One line; [None] for a line that is skipped. *)
Definition parse_row (line : list Z) : option ProcNetIfInet6Entry :=
  match split_whitespace line with
  | address :: _ifindex :: prefix_len :: scope :: flags :: ifname :: _ =>
      a ← from_str_radix 16 u128_max address;
      p ← from_str_radix 16 u8_max prefix_len;
      s ← from_str_radix 16 u8_max scope;
      f ← from_str_radix 16 u32_max flags;
      Some (mkProcEntry (IpV6 (ipv6_from_u128 a)) ifname p s f)
  | _ => None
  end.
Definition parse_proc_net_if_inet6 (text : list Z) : list ProcNetIfInet6Entry := omap parse_row (lines text).

Definition find_entry (entries : list ProcNetIfInet6Entry) (ifname : list Z) (a : IpAddr) : option ProcNetIfInet6Entry :=
  match list_find (fun e => pe_addr e = a /\ pe_ifname e = ifname) entries with
  | Some (_, e) => Some e
  | None => snd <$> list_find (fun e => pe_addr e = a) entries
  end.

(** [platform_annotate] on Linux; no text when the file cannot be read. *)
Definition annotate_linux (text : option (list Z)) (entries : list (list Z * IpAddr)) : list AddressMeta :=
  let snapshot := from_option parse_proc_net_if_inet6 [] text in
  (fun '(ifname, a) => match find_entry snapshot ifname a with
                       | Some e => meta_from_flags a (pe_flags e)
                       | None => meta_unknown a
                       end) <$> entries.

(** On Windows, over the snapshot of the adapters, and elsewhere. *)
Definition annotate_windows (snapshot : list (IpAddr * option AddressMeta)) (entries : list (list Z * IpAddr))
  : list AddressMeta :=
  omap (fun '(_, a) => match list_find (fun c => fst c = a) snapshot with
                       | Some (_, (_, m)) => m
                       | None => Some (meta_unknown a)
                       end) entries.
Definition annotate_other (entries : list (list Z * IpAddr)) : list AddressMeta := (fun '(_, a) => meta_unknown a) <$> entries.

(** ** Interfaces *)

Definition ip_is_unspecified (ip : IpAddr) : bool :=
  match ip with IpV4 ip => v4_is_unspecified ip | IpV6 ip => v6_is_unspecified ip end.
Definition ip_is_multicast (ip : IpAddr) : bool :=
  match ip with IpV4 ip => v4_is_multicast ip | IpV6 ip => v6_is_multicast ip end.

Definition should_ignore_interface (name : list Z) : bool :=
  existsb (fun p => str_contains (str p) name)
    ["VMware"; "VirtualBox"; "ZeroTier"; "Tun"; "tun"; "utun"; "docker"; "lo"; "veth"; "feth"; "V-M"; "br-"; "vEthernet";
     "TAP"; "tap"; "virbr"; "vmnet"; "VMnet"; "vboxnet"; "dummy"; "tailscale"; "hamachi"; "sit"; "ip6tnl"; "teredo";
     "isatap"; "6to4"; "gif"; "stf"; "awdl"; "ip6ip"; "ppp"; "bridge"; "nflog"]%string
  || existsb (fun p => str_starts_with (str p) name) ["zt"; "wg"]%string.

Definition reportable (i : list Z * IpAddr) : bool :=
  negb (should_ignore_interface (fst i)) && negb (ip_is_loopback (snd i)) && negb (ip_is_unspecified (snd i))
  && negb (ip_is_multicast (snd i)).
Definition filter_local_ip_entries (addrs : list (list Z * IpAddr)) : list (list Z * IpAddr) :=
  take MAX_LOCAL_IP_COUNT (filter (fun i => reportable i = true) addrs).

(** [EnhancedLocalIpProvider::get_local_ips] over a platform. *)
Definition get_local_ips (annotate : list (list Z * IpAddr) -> list AddressMeta)
    (addrs : option (list (list Z * IpAddr))) : list IpAddr :=
  match addrs with
  | None => []
  | Some addrs => select_local_ips (annotate (filter_local_ip_entries addrs))
  end.

(** ** Ranking *)

Lemma ranked_before_iff x y :
  ranked_before x y = true <->
  fst (fst y) < fst (fst x) \/ fst (fst x) = fst (fst y) /\ (snd (fst x) <= snd (fst y))%nat.
Proof.
  unfold ranked_before, then_with. destruct (Z.compare_spec (fst (fst y)) (fst (fst x))) as [H|H|H].
  - destruct (Nat.compare_spec (snd (fst x)) (snd (fst y))); split; try done; intros; lia.
  - split; [by left|done].
  - split; [done|lia].
Qed.

Lemma ranked_before_total x y : ranked_before x y = true \/ ranked_before y x = true.
Proof. rewrite !ranked_before_iff. lia. Qed.
Lemma ranked_before_trans x y z : ranked_before x y = true -> ranked_before y z = true -> ranked_before x z = true.
Proof. rewrite !ranked_before_iff. lia. Qed.

Lemma elem_ranked metas s i a :
  (s, i, a) ∈ ranked metas <->
  exists m, metas !! i = Some m /\ address_is_usable m = true /\ s = address_score m /\ a = am_addr m.
Proof.
  unfold ranked. rewrite list_elem_of_omap. split.
  - intros ([j m] & (k & Hk)%list_elem_of_lookup & H). apply lookup_zip_with_Some in Hk as (j' & m' & [= -> ->] & Hj & Hm).
    apply lookup_seq in Hj as [-> _]. simpl in *. destruct (address_is_usable m') eqn:Hu; [|done]. injection H as <- <- <-. by exists m'.
  - intros (m & Hm & Hu & -> & ->). exists (i, m). rewrite Hu. split; [|done]. apply list_elem_of_lookup. exists i.
    apply lookup_zip_with_Some. exists i, m. split; [done|]. split; [|done]. apply lookup_seq. split; [done|].
    by apply lookup_lt_Some in Hm.
Qed.

Lemma ranked_nodup metas : NoDup ((fun x => snd (fst x)) <$> ranked metas).
Proof.
  unfold ranked. generalize 0%nat. induction metas as [|m metas IH]; intros k; simpl; [constructor|].
  destruct (address_is_usable m); [|apply IH]. simpl. constructor; [|apply IH].
  intros ([[s i] a] & Hi & ([j m'] & Hj%elem_of_zip_l & Hm)%list_elem_of_omap)%list_elem_of_fmap. simpl in Hi. subst i.
  apply elem_of_seq in Hj. destruct (address_is_usable m'); [|done]. injection Hm as _ -> _. lia.
Qed.

Lemma ranked_length metas : (length (ranked metas) <= length metas)%nat.
Proof.
  unfold ranked. generalize 0%nat. induction metas as [|m metas IH]; intros k; simpl; [lia|].
  specialize (IH (S k)). destruct (address_is_usable m); [by apply le_n_S|by apply le_S].
Qed.

(** As long as no more addresses than the maximum are offered, every usable one
    is selected. *)
Lemma select_spec metas :
  (length metas <= MAX_LOCAL_IP_COUNT)%nat ->
  exists js, select_local_ips metas = omap (fun j => am_addr <$> metas !! j) js /\ NoDup js /\
    (forall j, j ∈ js <-> exists m, metas !! j = Some m /\ address_is_usable m = true) /\
    StronglySorted (fun i j => forall mi mj, metas !! i = Some mi -> metas !! j = Some mj ->
      address_score mj < address_score mi \/ address_score mi = address_score mj /\ (i < j)%nat) js.
Proof.
  intros Hl. set (r := sort_by ranked_before (ranked metas)).
  assert (r ≡ₚ ranked metas) as Hp by apply sort_by_perm.
  assert (forall s i a, (s, i, a) ∈ r -> exists m, metas !! i = Some m /\ address_is_usable m = true /\ s = address_score m /\ a = am_addr m) as Hr.
  { intros s i a H. rewrite Hp in H. by apply elem_ranked. }
  assert (NoDup ((fun x => snd (fst x)) <$> r)) as Hnd by (rewrite Hp; apply ranked_nodup).
  exists ((fun x => snd (fst x)) <$> r). split; [|split; [done|split]].
  - unfold select_local_ips. fold r. rewrite take_ge by (rewrite Hp; pose proof (ranked_length metas); lia).
    clear Hp Hnd. induction r as [|[[s i] a] r IH]; [done|]. simpl.
    destruct (Hr s i a ltac:(left)) as (m & -> & _ & _ & ->). simpl. f_equal. apply IH. intros. apply Hr. by right.
  - intros j. rewrite list_elem_of_fmap. split.
    + intros ([[s i] a] & -> & (m & Hm & Hu & _)%Hr). by exists m.
    + intros (m & Hm & Hu). exists (address_score m, j, am_addr m). split; [done|]. rewrite Hp. apply elem_ranked. by exists m.
  - assert (StronglySorted (fun x y => ranked_before x y = true) r) as Hs
      by (apply sort_by_sorted; [apply ranked_before_total|apply ranked_before_trans]).
    clear Hp. induction Hs as [|[[s i] a] r' Hs IH Hx]; simpl; [constructor|].
    simpl in Hnd. apply NoDup_cons in Hnd as [Hni Hnd]. constructor; [apply IH; [intros; apply Hr; by right|done]|].
    apply Forall_forall. intros j Hj mi mj Hmi Hmj. pose proof Hj as ([[s' j'] a'] & -> & Hin)%list_elem_of_fmap. simpl in *.
    rewrite Forall_forall in Hx. specialize (Hx _ Hin). apply ranked_before_iff in Hx. simpl in Hx.
    destruct (Hr s i a ltac:(left)) as (m1 & H1 & _ & -> & _). destruct (Hr s' j' a' ltac:(by right)) as (m2 & H2 & _ & -> & _).
    simplify_eq. assert (i <> j') by (intros ->; done). lia.
Qed.

(** ** The text of the kernel *)

Definition u128_of (ip : Ipv6Addr) : Z := foldl (fun r s => r * 65536 + s) 0 (segments ip).

Lemma u128_of_bound ip : wf_v6 ip -> 0 <= u128_of ip < 2 ^ 128.
Proof.
  destruct ip. unfold wf_v6, u128_of, segments, is_u16, u16_max. simpl. rewrite !Forall_cons.
  change (2 ^ 128) with (65536 * 65536 * 65536 * 65536 * 65536 * 65536 * 65536 * 65536). lia.
Qed.

Lemma segment_step r s : 0 <= s < 65536 -> (r * 65536 + s) / 65536 = r /\ (r * 65536 + s) mod 65536 = s.
Proof.
  intros Hs. split.
  - rewrite Z.div_add_l, Z.div_small by lia. lia.
  - rewrite Z.add_comm, Z.mod_add, Z.mod_small by lia. done.
Qed.

Lemma ipv6_from_u128_of ip : wf_v6 ip -> ipv6_from_u128 (u128_of ip) = ip.
Proof.
  destruct ip as [s0 s1 s2 s3 s4 s5 s6 s7]. unfold wf_v6, segments, is_u16, u16_max. rewrite !Forall_cons. intros H. simpl in H.
  unfold ipv6_from_u128, u128_of, segments. cbn [foldl v6_0 v6_1 v6_2 v6_3 v6_4 v6_5 v6_6 v6_7].
  assert (forall n i, 0 <= i -> n / 65536 ^ (Z.succ i) = n / 65536 / 65536 ^ i) as Hd.
  { intros n i Hi. rewrite Z.pow_succ_r by lia. by rewrite Z.div_div by (try apply Z.pow_pos_nonneg; lia). }
  change 7 with (Z.succ (Z.succ (Z.succ (Z.succ (Z.succ (Z.succ (Z.succ 0))))))).
  change 6 with (Z.succ (Z.succ (Z.succ (Z.succ (Z.succ (Z.succ 0)))))).
  change 5 with (Z.succ (Z.succ (Z.succ (Z.succ (Z.succ 0))))). change 4 with (Z.succ (Z.succ (Z.succ (Z.succ 0)))).
  change 3 with (Z.succ (Z.succ (Z.succ 0))). change 2 with (Z.succ (Z.succ 0)). change 1 with (Z.succ 0).
  rewrite !Hd by lia. rewrite Z.pow_0_r, !Z.div_1_r.
  rewrite (proj2 (segment_step _ s7 ltac:(lia))), (proj1 (segment_step _ s7 ltac:(lia))).
  rewrite (proj2 (segment_step _ s6 ltac:(lia))), (proj1 (segment_step _ s6 ltac:(lia))).
  rewrite (proj2 (segment_step _ s5 ltac:(lia))), (proj1 (segment_step _ s5 ltac:(lia))).
  rewrite (proj2 (segment_step _ s4 ltac:(lia))), (proj1 (segment_step _ s4 ltac:(lia))).
  rewrite (proj2 (segment_step _ s3 ltac:(lia))), (proj1 (segment_step _ s3 ltac:(lia))).
  rewrite (proj2 (segment_step _ s2 ltac:(lia))), (proj1 (segment_step _ s2 ltac:(lia))).
  rewrite (proj2 (segment_step _ s1 ltac:(lia))), (proj1 (segment_step _ s1 ltac:(lia))).
  by rewrite (proj2 (segment_step 0 s0 ltac:(lia))).
Qed.

(** A row as the kernel prints it: the address in 32 digits, the index of the
    interface, prefix length, scope and flags in two digits or more, and the name
    to the right of a column of eight. *)
Record KernelRow := mkRow { kr_ip : Ipv6Addr; kr_index : Z; kr_prefix : Z; kr_scope : Z; kr_flags : Z; kr_name : list Z }.

Definition row_ok (r : KernelRow) : Prop :=
  wf_v6 (kr_ip r) /\ is_u32 (kr_index r) /\ is_u8 (kr_prefix r) /\ is_u8 (kr_scope r) /\ is_u32 (kr_flags r) /\
  is_word (kr_name r) /\ Forall (fun c => (10 =? c) = false) (kr_name r).

Definition hex_column (n : Z) : list Z := pad_zeroes 2 (print_digits 8 16 n).
Definition kernel_line (r : KernelRow) : list Z :=
  pad_zeroes 32 (print_digits 32 16 (u128_of (kr_ip r))) ++ 32 :: hex_column (kr_index r) ++ 32 ::
  hex_column (kr_prefix r) ++ 32 :: hex_column (kr_scope r) ++ 32 :: hex_column (kr_flags r) ++ 32 ::
  replicate (8 - length (kr_name r)) 32 ++ kr_name r.
Definition kernel_text (rows : list KernelRow) : list Z := r ← rows; kernel_line r ++ [10].
Definition row_entry (r : KernelRow) : ProcNetIfInet6Entry :=
  mkProcEntry (IpV6 (kr_ip r)) (kr_name r) (kr_prefix r) (kr_scope r) (kr_flags r).

(** Characters that are digits. *)
Lemma digit_char_plain d : 0 <= d < 16 -> is_whitespace (digit_char d) = false /\ (10 =? digit_char d) = false.
Proof.
  intros Hd. assert (exists c, digit_char d = c /\ (48 <= c <= 57 \/ 97 <= c <= 102)) as (c & -> & Hc).
  { eexists. split; [done|]. unfold digit_char. case_match; bool_to_prop; lia. }
  unfold is_whitespace. split; [|lia].
  repeat (apply orb_false_iff; split); try (apply Z.eqb_neq; lia); apply andb_false_iff; rewrite !Z.leb_gt; lia.
Qed.

Lemma padded_plain width fuel n :
  0 <= n < 16 ^ Z.of_nat fuel -> (0 < fuel)%nat ->
  is_word (pad_zeroes width (print_digits fuel 16 n)) /\
  Forall (fun c => (10 =? c) = false) (pad_zeroes width (print_digits fuel 16 n)).
Proof.
  intros Hn Hf. destruct (print_digits_spec fuel 16 n fuel) as (ds & -> & Hds & _ & Hne & _); [lia|done|lia|].
  unfold pad_zeroes. set (k := (width - _)%nat). clearbody k. unfold is_word. rewrite !Forall_app, !Forall_map. split; [split|].
  - by destruct k, ds.
  - split; [by apply Forall_replicate|]. eapply Forall_impl; [exact Hds|]. intros d Hd. by apply digit_char_plain.
  - split; [by apply Forall_replicate|]. eapply Forall_impl; [exact Hds|]. intros d Hd. by apply digit_char_plain.
Qed.

Lemma pow_u32 n : is_u32 n -> 0 <= n < 16 ^ Z.of_nat 8.
Proof. unfold is_u32, u32_max. change (16 ^ Z.of_nat 8) with 4294967296. lia. Qed.
Lemma u8_u32 n : is_u8 n -> is_u32 n.
Proof. unfold is_u8, is_u32, u8_max, u32_max. lia. Qed.

Lemma hex_column_plain n : is_u32 n -> is_word (hex_column n) /\ Forall (fun c => (10 =? c) = false) (hex_column n).
Proof. intros Hn. apply padded_plain; [by apply pow_u32|lia]. Qed.
Lemma read_hex_column n tmax : is_u32 n -> n <= tmax -> from_str_radix 16 tmax (hex_column n) = Some n.
Proof. intros Hn Ht. apply from_str_radix_padded; [lia|by apply pow_u32|lia|done]. Qed.

Lemma u128_hex ip : wf_v6 ip -> 0 <= u128_of ip < 16 ^ Z.of_nat 32.
Proof. intros H. pose proof (u128_of_bound ip H). change (16 ^ Z.of_nat 32) with (2 ^ 128). done. Qed.

Lemma parse_kernel_line r : row_ok r -> parse_row (kernel_line r) = Some (row_entry r).
Proof.
  intros (Hip & Hi & Hp & Hs & Hf & Hn & _). unfold parse_row, kernel_line.
  assert (forall n, is_u32 n -> is_word (hex_column n)) as Hw by (intros n Hn'; apply (hex_column_plain n Hn')).
  rewrite split_whitespace_cons by apply (padded_plain 32 32 _ (u128_hex _ Hip) ltac:(lia)).
  rewrite (split_whitespace_cons _ _ (Hw _ Hi)), (split_whitespace_cons _ _ (Hw _ (u8_u32 _ Hp))),
    (split_whitespace_cons _ _ (Hw _ (u8_u32 _ Hs))), (split_whitespace_cons _ _ (Hw _ Hf)).
  rewrite split_whitespace_spaces, split_whitespace_word by done.
  rewrite from_str_radix_padded; [|lia|by apply u128_hex|lia|].
  2:{ pose proof (u128_of_bound _ Hip). unfold u128_max. lia. }
  cbn [mbind option_bind]. rewrite (read_hex_column _ _ (u8_u32 _ Hp) (proj2 Hp)). cbn [mbind option_bind].
  rewrite (read_hex_column _ _ (u8_u32 _ Hs) (proj2 Hs)). cbn [mbind option_bind].
  rewrite (read_hex_column _ _ Hf (proj2 Hf)). cbn [mbind option_bind]. by rewrite ipv6_from_u128_of.
Qed.

Lemma kernel_line_plain r : row_ok r -> Forall (fun c => (10 =? c) = false) (kernel_line r) /\ last (kernel_line r) <> Some 13.
Proof.
  intros (Hip & Hi & Hp & Hs & Hf & [Hne Hw] & Hn). unfold kernel_line. split.
  - repeat (rewrite Forall_app || rewrite Forall_cons). split_and!; try done.
    + apply (padded_plain 32 32 _ (u128_hex _ Hip)). lia.
    + by apply hex_column_plain.
    + by apply hex_column_plain, u8_u32.
    + by apply hex_column_plain, u8_u32.
    + by apply hex_column_plain.
    + by apply Forall_replicate.
  - rewrite !app_comm_cons, !app_assoc. rewrite last_app. destruct (last (kr_name r)) as [c|] eqn:E.
    + apply last_Some in E as (l & E). rewrite E in Hw. apply Forall_app in Hw as [_ Hc]. rewrite Forall_singleton in Hc.
      intros [= ->]. by vm_compute in Hc.
    + by apply last_None in E.
Qed.

(** Reading the kernel's table gives its rows. *)
Lemma proc_rows_read rows : Forall row_ok rows -> parse_proc_net_if_inet6 (kernel_text rows) = row_entry <$> rows.
Proof.
  unfold parse_proc_net_if_inet6. induction 1 as [|r rows Hr _ IH]; [done|]. simpl.
  destruct (kernel_line_plain r Hr) as [Hl Hc]. rewrite <-app_assoc. cbn [app].
  rewrite lines_cons by done. simpl. rewrite strip_cr_other by done. rewrite parse_kernel_line by done. by f_equal.
Qed.

(** ** What is reported *)

Lemma flags_usable a flags : address_is_usable (meta_from_flags a flags) = true <->
  Z.land flags (Z.lor IFA_F_DADFAILED (Z.lor IFA_F_TENTATIVE IFA_F_DEPRECATED)) = 0.
Proof.
  rewrite !Z.land_lor_distr_r, !Z.lor_eq_0_iff.
  unfold address_is_usable, meta_from_flags, dad_state_from_flags, has_flag. simpl am_dad_state.
  destruct (Z.eqb_spec (Z.land flags IFA_F_DADFAILED) 0), (Z.eqb_spec (Z.land flags IFA_F_TENTATIVE) 0),
    (Z.eqb_spec (Z.land flags IFA_F_DEPRECATED) 0); simpl; split; intuition congruence.
Qed.

(** The row of an address: on the interface if there is one, else any. *)
Lemma find_entry_spec entries name a :
  match find_entry entries name a with
  | Some e => e ∈ entries /\ pe_addr e = a /\ (pe_ifname e = name \/ forall e', e' ∈ entries -> pe_addr e' = a -> pe_ifname e' <> name)
  | None => forall e, e ∈ entries -> pe_addr e <> a
  end.
Proof.
  unfold find_entry. destruct (list_find _ entries) as [[i e]|] eqn:E1.
  { apply list_find_Some in E1 as (Hi & [Ha Hn] & _). split; [by eapply list_elem_of_lookup_2|]. auto. }
  apply list_find_None in E1. rewrite Forall_forall in E1.
  destruct (list_find (fun e => pe_addr e = a) entries) as [[i e]|] eqn:E2; simpl.
  - apply list_find_Some in E2 as (Hi & Ha & _). split; [by eapply list_elem_of_lookup_2|]. split; [done|].
    right. intros e' He Ha' Hn. by apply (E1 e' He).
  - apply list_find_None in E2. rewrite Forall_forall in E2. intros e He Ha. by apply (E2 e He).
Qed.

Lemma annotate_linux_addr text entries : am_addr <$> annotate_linux text entries = snd <$> entries.
Proof.
  unfold annotate_linux. rewrite <-list_fmap_compose. apply list_fmap_ext. intros i [name a] _. simpl. by destruct (find_entry _ _ _).
Qed.

(** The addresses a client on Linux reports, from the
    interfaces of the host and the kernel's table of addresses in its textual
    form.  Of the first 32 candidates (no ignored interface, no loopback,
    unspecified or multicast address) exactly those are reported whose row does
    not say that duplicate detection failed or is under way or that the address
    is deprecated, where the row is the one of the interface if it has one, and
    an address without a row counts as usable.  They are ordered by their score
    and, where it is equal, as they were enumerated. *)
Theorem local_ips_reported rows addrs :
  Forall row_ok rows ->
  let table := row_entry <$> rows in
  let entries := filter_local_ip_entries addrs in
  let annotate := annotate_linux (Some (kernel_text rows)) in
  exists js, get_local_ips annotate (Some addrs) = omap (fun j => snd <$> entries !! j) js /\ NoDup js /\
    (forall j, j ∈ js <-> exists name a, entries !! j = Some (name, a) /\
       forall e, find_entry table name a = Some e ->
         Z.land (pe_flags e) (Z.lor IFA_F_DADFAILED (Z.lor IFA_F_TENTATIVE IFA_F_DEPRECATED)) = 0) /\
    StronglySorted (fun i j => forall mi mj, annotate entries !! i = Some mi -> annotate entries !! j = Some mj ->
      address_score mj < address_score mi \/ address_score mi = address_score mj /\ (i < j)%nat) js.
Proof.
  intros Hrows table entries annotate.
  assert (length (annotate entries) = length entries) as Hl by (unfold annotate, annotate_linux; by rewrite length_fmap).
  destruct (select_spec (annotate entries)) as (js & Hsel & Hnd & Hin & Hsort).
  { rewrite Hl. unfold entries, filter_local_ip_entries. rewrite length_take. lia. }
  exists js. split; [|split; [done|split; [|done]]].
  - simpl. fold entries. fold annotate. rewrite Hsel.
    assert (forall j, am_addr <$> annotate entries !! j = snd <$> entries !! j) as Hj
      by (intros j; rewrite <-!list_lookup_fmap; unfold annotate; by rewrite annotate_linux_addr).
    clear Hin Hsort Hnd Hsel. induction js as [|j js IH]; [done|]. simpl. rewrite Hj.
    destruct (snd <$> entries !! j); [f_equal|]; exact IH.
  - intros j. rewrite Hin. unfold annotate, annotate_linux. simpl from_option. rewrite (proc_rows_read _ Hrows). fold table.
    rewrite list_lookup_fmap. split.
    + intros (m & Hm & Hu). destruct (entries !! j) as [[name a]|]; [|done]. exists name, a. split; [done|].
      intros e He. simpl in Hm. rewrite He in Hm. injection Hm as <-. by apply flags_usable in Hu.
    + intros (name & a & -> & Hf). simpl. eexists. split; [done|]. destruct (find_entry table name a) as [e|]; [|done].
      by apply flags_usable, Hf.
Qed.

Module LocalIpDemo.
Definition eth1 : list Z := str "eth1".
Definition stable : Ipv6Addr := mkV6 0x240e 0x3bc 0x308f 0x24c0 0 0 0 0x77.
Definition deprecated : Ipv6Addr := mkV6 0x240e 0x3bc 0x308f 0x24c0 0xc7f7 0x43da 0x01d1 0xd30a.
Definition rows : list KernelRow := [mkRow deprecated 3 0x40 0 0xa2 eth1; mkRow stable 3 0x80 0 0x82 eth1].
Definition hosts : list (list Z * IpAddr) :=
  [(str "lo", IpV4 (mkV4 127 0 0 1)); (eth1, IpV4 (mkV4 192 168 1 5)); (eth1, IpV6 deprecated); (eth1, IpV6 stable)].

(** The rows as they are in the file, and what is reported of the host. *)
Lemma kernel_text_example :
  kernel_text rows =
    str "240e03bc308f24c0c7f743da01d1d30a 03 40 00 a2     eth1" ++ [10] ++
    str "240e03bc308f24c00000000000000077 03 80 00 82     eth1" ++ [10].
Proof. by vm_compute. Qed.

Lemma reported_example :
  get_local_ips (annotate_linux (Some (kernel_text rows))) (Some hosts) = [IpV6 stable; IpV4 (mkV4 192 168 1 5)].
Proof. by vm_compute. Qed.

Lemma rows_ok : Forall row_ok rows.
Proof.
  unfold rows. rewrite !Forall_cons, Forall_nil. split_and!; try done; unfold row_ok, wf_v6, is_u16, is_u32, is_u8, is_word; simpl;
    rewrite ?Forall_cons, ?Forall_nil; unfold u16_max, u32_max, u8_max; split_and!; try lia; try done; vm_compute; repeat constructor; done.
Qed.

(** The first 32 candidates fill the report even if none of them is usable: an
    address enumerated later is not reported. *)
Lemma usable_address_cut_off :
  get_local_ips (annotate_linux (Some (kernel_text rows))) (Some (replicate 32 (eth1, IpV6 deprecated) ++ [(eth1, IpV6 stable)])) = [].
Proof. by vm_compute. Qed.

Lemma local_ips_reported_witness :
  exists js, [IpV6 stable; IpV4 (mkV4 192 168 1 5)] = omap (fun j => snd <$> filter_local_ip_entries hosts !! j) js /\ NoDup js.
Proof.
  destruct (local_ips_reported rows hosts rows_ok) as (js & H & Hnd & _). exists js. split; [|exact Hnd].
  rewrite <-H. vm_compute. reflexivity.
Defined.
End LocalIpDemo.
