(* ===== verification/SnMessages.v ===== *)
(** * Further messages of the SN protocol (sn/protocol/sn.rs, sn/protocol/v0.rs)

    [SnQueryResp] and [SnCalled] with their extensions, and the service receipts
    with their hand-written codecs.  As in [SnExtension], derived codecs are the
    interface [RawCodec]. *)

From S2P Require Import Prelude.
From S2P Require Import Errors.
From S2P Require Import Ids.
From S2P Require Import Endpoint.
From S2P Require Import NatType.
From S2P Require Import SnProtocol.
From S2P Require Import Codec.
From S2P Require Import SnExtension.
From S2P Require Import SnService.
Open Scope Z_scope.

Definition SN_QUERY_RESP_EXTENSION_MAGIC : Z := magic4 83 81 82 80.                  (* SQRP *)
Definition SN_QUERY_RESP_PROTOCOL_VERSION_EXTENSION_MAGIC : Z := magic4 83 81 80 86. (* SQPV *)
Definition SN_CALLED_EXTENSION_MAGIC : Z := magic4 83 67 76 68.                      (* SCLD *)

Record LegacySnQueryResp := mkLegacyQueryResp {
  lq_seq : Sequence; lq_peer_info : option EncodedP2pIdentityCert; lq_end_point_array : list Endpoint }.
Definition query_resp_legacy (m : SnQueryResp) : LegacySnQueryResp :=
  mkLegacyQueryResp (qr_seq m) (qr_peer_info m) (qr_end_point_array m).

Record LegacySnCalled := mkLegacyCalled {
  la_seq : Sequence; la_sn_peer_id : P2pId; la_to_peer_id : P2pId; la_reverse_endpoint_array : list Endpoint;
  la_active_pn_list : list P2pId; la_peer_info : EncodedP2pIdentityCert; la_tunnel_id : TunnelId;
  la_call_send_time : Timestamp; la_call_type : TunnelType; la_payload : list Z }.
Definition called_legacy (m : SnCalled) : LegacySnCalled :=
  mkLegacyCalled (cd_seq m) (cd_sn_peer_id m) (cd_to_peer_id m) (cd_reverse_endpoint_array m) (cd_active_pn_list m)
    (cd_peer_info m) (cd_tunnel_id m) (cd_call_send_time m) (cd_call_type m) (cd_payload m).
Definition called_of_legacy (l : LegacySnCalled) (c : option NatTraversalContext) : SnCalled :=
  mkCalled (la_seq l) (la_sn_peer_id l) (la_to_peer_id l) (la_reverse_endpoint_array l) (la_active_pn_list l)
    (la_peer_info l) (la_tunnel_id l) (la_call_send_time l) (la_call_type l) (la_payload l) c.

Section messages.
Context (u8c u32c : RawCodec Z).
Context `{!RawCodec LegacySnQueryResp, !RawCodec LegacySnCalled, !RawCodec NatProfile, !RawCodec NatTraversalContext}.

Definition query_resp_encode (m : SnQueryResp) : CodecResult (list Z) :=
  l <-? to_vec (query_resp_legacy m) ;;
  a <-? extension_encode u8c u32c (qr_net_profile m) SN_QUERY_RESP_EXTENSION_MAGIC ;;
  b <-? extension_encode (H:=u8c) u8c u32c (qr_target_protocol_version m) SN_QUERY_RESP_PROTOCOL_VERSION_EXTENSION_MAGIC ;;
  Ok (l ++ a ++ b).

Definition query_resp_decode (buf : list Z) : CodecResult (SnQueryResp * list Z) :=
  match codec_decode (T:=LegacySnQueryResp) buf with
  | Err e => Err e
  | Ok (legacy, buf) =>
      let '(p, buf) := extension_decode u8c u32c NatProfile buf SN_QUERY_RESP_EXTENSION_MAGIC in
      let '(v, buf) := extension_decode (H:=u8c) u8c u32c Z buf SN_QUERY_RESP_PROTOCOL_VERSION_EXTENSION_MAGIC in
      Ok (mkQueryResp (lq_seq legacy) (lq_peer_info legacy) (lq_end_point_array legacy) (supported_nat_profile p) v, buf)
  end.

Definition called_encode (m : SnCalled) : CodecResult (list Z) :=
  l <-? to_vec (called_legacy m) ;;
  a <-? extension_encode u8c u32c (cd_nat_context m) SN_CALLED_EXTENSION_MAGIC ;;
  Ok (l ++ a).

Definition called_decode (buf : list Z) : CodecResult (SnCalled * list Z) :=
  match codec_decode (T:=LegacySnCalled) buf with
  | Err e => Err e
  | Ok (legacy, buf) =>
      let '(c, buf) := extension_decode u8c u32c NatTraversalContext buf SN_CALLED_EXTENSION_MAGIC in
      Ok (called_of_legacy legacy (supported_nat_context c), buf)
  end.

(** [strict_rendezvous_decode]: nothing may follow. *)
Definition strict_rendezvous_decode (T : Type) `{!RawCodec T} (buf : list Z) : CodecResult T :=
  match codec_decode (T:=T) buf with
  | Err e => Err e
  | Ok (v, remainder) => match remainder with [] => Ok v | _ => Err CodecInvalidData end
  end.
End messages.

(** ** Service receipts *)

Inductive SnServiceGrade := GradeNone | Discard | Passable | GradeNormal | Fine | Wonderfull.
Definition grade_as_u8 (g : SnServiceGrade) : Z :=
  match g with GradeNone => 0 | Discard => 1 | Passable => 2 | GradeNormal => 3 | Fine => 4 | Wonderfull => 5 end.
Definition is_accept (g : SnServiceGrade) : bool := grade_as_u8 Passable <=? grade_as_u8 g.
Definition is_refuse (g : SnServiceGrade) : bool := negb (is_accept g).
Definition grade_try_from (v : Z) : P2pResult SnServiceGrade :=
  if v =? 0 then Ok GradeNone else if v =? 1 then Ok Discard else if v =? 2 then Ok Passable
  else if v =? 3 then Ok GradeNormal else if v =? 4 then Ok Fine else if v =? 5 then Ok Wonderfull
  else Err P2pErrorCode.InvalidParam.

Inductive SnServiceReceiptVersion := VersionInvalid | VersionCurrent.
Definition version_as_u8 (v : SnServiceReceiptVersion) : Z := match v with VersionInvalid => 0 | VersionCurrent => 1 end.
Definition version_try_from (v : Z) : P2pResult SnServiceReceiptVersion :=
  if v =? 0 then Ok VersionInvalid else if v =? 1 then Ok VersionCurrent else Err P2pErrorCode.UnSupport.

(** A one-byte enumeration: what is read, and the byte written into a buffer with
    the given room. *)
Definition enum_decode {A} (try_from : Z -> P2pResult A) (buf : list Z) : CodecResult (A * list Z) :=
  match buf with
  | [] => Err CodecOutOfLimit
  | b :: buf => match try_from b with Ok v => Ok (v, buf) | Err _ => Err CodecFailed end
  end.
Definition enum_encode {A} (as_u8 : A -> Z) (v : A) (room : nat) : CodecResult (list Z) :=
  if (room <? 1)%nat then Err CodecOutOfLimit else Ok [as_u8 v].

(** [SystemTime] is a type of the world, converted by the crate bucky_time. *)
Record SnServiceReceipt (SystemTime : Type) := mkReceipt {
  rc_version : SnServiceReceiptVersion;
  rc_grade : SnServiceGrade;
  rc_rto : Z;
  rc_duration : Duration;
  rc_start_time : SystemTime;
  rc_ping_count : Z;
  rc_ping_resp_count : Z;
  rc_called_count : Z;
  rc_call_peer_count : Z;
  rc_connect_peer_count : Z;
  rc_call_delay : Z;
}.
Arguments mkReceipt {SystemTime}. Arguments rc_version {SystemTime}. Arguments rc_grade {SystemTime}.
Arguments rc_rto {SystemTime}. Arguments rc_duration {SystemTime}. Arguments rc_start_time {SystemTime}.
Arguments rc_ping_count {SystemTime}. Arguments rc_ping_resp_count {SystemTime}. Arguments rc_called_count {SystemTime}.
Arguments rc_call_peer_count {SystemTime}. Arguments rc_connect_peer_count {SystemTime}. Arguments rc_call_delay {SystemTime}.

Section receipts.
Context (u16c u32c u64c : RawCodec Z).
Context {SystemTime : Type} (unix_epoch : SystemTime) (to_bucky : SystemTime -> Z) (from_bucky : Z -> SystemTime)
  (MIN_BUCKY_TIME : Z).

Definition receipt_default : SnServiceReceipt SystemTime :=
  mkReceipt VersionInvalid GradeNone 0 (from_secs 0) unix_epoch 0 0 0 0 0 0.

(** [duration.as_millis() as u32]. *)
Definition millis_u32 (d : Duration) : Z := (d / 1000000) mod (u32_max + 1).

(** Into a buffer of the measured size. *)
Definition receipt_encode (r : SnServiceReceipt SystemTime) : CodecResult (list Z) :=
  version <-? enum_encode version_as_u8 (rc_version r) 38 ;;
  grade <-? enum_encode grade_as_u8 (rc_grade r) 37 ;;
  rto <-? @to_vec Z u16c (rc_rto r) ;;
  dur <-? @to_vec Z u32c (millis_u32 (rc_duration r)) ;;
  start <-? @to_vec Z u64c (to_bucky (rc_start_time r)) ;;
  pings <-? @to_vec Z u32c (rc_ping_count r) ;;
  resps <-? @to_vec Z u32c (rc_ping_resp_count r) ;;
  called <-? @to_vec Z u32c (rc_called_count r) ;;
  callp <-? @to_vec Z u32c (rc_call_peer_count r) ;;
  connp <-? @to_vec Z u32c (rc_connect_peer_count r) ;;
  delay <-? @to_vec Z u16c (rc_call_delay r) ;;
  Ok (version ++ grade ++ rto ++ dur ++ start ++ pings ++ resps ++ called ++
      callp ++ connp ++ delay).

Definition receipt_decode (buf : list Z) : CodecResult (SnServiceReceipt SystemTime * list Z) :=
  match enum_decode version_try_from buf with Err e => Err e | Ok (version, buf) =>
  match enum_decode grade_try_from buf with Err e => Err e | Ok (grade, buf) =>
  match @codec_decode Z u16c buf with Err e => Err e | Ok (rto, buf) =>
  match @codec_decode Z u32c buf with Err e => Err e | Ok (duration, buf) =>
  match @codec_decode Z u64c buf with Err e => Err e | Ok (timestamp, buf) =>
  if timestamp <? MIN_BUCKY_TIME then Err CodecInvalidData
  else
    match @codec_decode Z u32c buf with Err e => Err e | Ok (ping_count, buf) =>
    match @codec_decode Z u32c buf with Err e => Err e | Ok (ping_resp_count, buf) =>
    match @codec_decode Z u32c buf with Err e => Err e | Ok (called_count, buf) =>
    match @codec_decode Z u32c buf with Err e => Err e | Ok (call_peer_count, buf) =>
    match @codec_decode Z u32c buf with Err e => Err e | Ok (connect_peer_count, buf) =>
    match @codec_decode Z u16c buf with Err e => Err e | Ok (call_delay, buf) =>
    Ok (mkReceipt version grade rto (from_millis duration) (from_bucky timestamp) ping_count ping_resp_count called_count
          call_peer_count connect_peer_count call_delay, buf)
  end end end end end end end end end end end.
End receipts.

(** ** Across versions *)

Section roundtrips.
Context (u8c u32c : RawCodec Z) `{!FixedCodec 1 u8c, !FixedCodec 4 u32c}.
Context `{!RawCodec LegacySnQueryResp, !RawCodec LegacySnCalled, !RawCodec NatProfile, !RawCodec NatTraversalContext}.
Context `{!RawCodecLaws LegacySnQueryResp, !RawCodecLaws LegacySnCalled, !RawCodecLaws NatProfile,
          !RawCodecLaws NatTraversalContext}.
#[local] Existing Instance fixed_laws.

Lemma query_resp_bytes (m : SnQueryResp) b :
  query_resp_encode u8c u32c m = Ok b ->
  exists l a c, b = l ++ a ++ c /\ to_vec (query_resp_legacy m) = Ok l /\
    extension_encode u8c u32c (qr_net_profile m) SN_QUERY_RESP_EXTENSION_MAGIC = Ok a /\
    extension_encode (H:=u8c) u8c u32c (qr_target_protocol_version m) SN_QUERY_RESP_PROTOCOL_VERSION_EXTENSION_MAGIC = Ok c.
Proof using Type.
  unfold query_resp_encode. destruct (to_vec (query_resp_legacy m)) as [l|]; [|done].
  destruct (extension_encode _ _ (qr_net_profile m) _) as [a|]; [|done].
  destruct (extension_encode _ _ (qr_target_protocol_version m) _) as [c|]; [|done]. intros [= <-]. by exists l, a, c.
Qed.

Lemma called_bytes (m : SnCalled) b :
  called_encode u8c u32c m = Ok b ->
  exists l a, b = l ++ a /\ to_vec (called_legacy m) = Ok l /\
    extension_encode u8c u32c (cd_nat_context m) SN_CALLED_EXTENSION_MAGIC = Ok a.
Proof using Type.
  unfold called_encode. destruct (to_vec (called_legacy m)) as [l|]; [|done].
  destruct (extension_encode _ _ (cd_nat_context m) _) as [a|]; [|done]. intros [= <-]. by exists l, a.
Qed.

(** The answer of a query and the notification of a call between programs of
    different versions.  Between current ones, decoding gives the message back
    without what this version does not support; a program that knows the legacy
    message reads its fields out of a current message; and a legacy message is
    read as one without extensions. *)
Theorem messages_cross_versions :
  (forall (m : SnQueryResp) b, query_resp_encode u8c u32c m = Ok b ->
     query_resp_decode u8c u32c b =
       Ok (mkQueryResp (qr_seq m) (qr_peer_info m) (qr_end_point_array m) (supported_nat_profile (qr_net_profile m))
             (qr_target_protocol_version m), []) /\
     exists rest, codec_decode b = Ok (query_resp_legacy m, rest)) /\
  (forall (l : LegacySnQueryResp) b, to_vec l = Ok b ->
     query_resp_decode u8c u32c b = Ok (mkQueryResp (lq_seq l) (lq_peer_info l) (lq_end_point_array l) None None, [])) /\
  (forall (m : SnCalled) b, called_encode u8c u32c m = Ok b ->
     called_decode u8c u32c b = Ok (called_of_legacy (called_legacy m) (supported_nat_context (cd_nat_context m)), []) /\
     exists rest, codec_decode b = Ok (called_legacy m, rest)) /\
  (forall (l : LegacySnCalled) b, to_vec l = Ok b -> called_decode u8c u32c b = Ok (called_of_legacy l None, [])).
Proof using All.
  split_and!.
  - intros m b (l & a & c & -> & Hl & Ha & Hc)%query_resp_bytes.
    destruct (two_extensions_roundtrip u8c u32c (query_resp_legacy m) (qr_net_profile m) (qr_target_protocol_version m)
      SN_QUERY_RESP_EXTENSION_MAGIC SN_QUERY_RESP_PROTOCOL_VERSION_EXTENSION_MAGIC l a c (RawCodec2:=u8c)) as (H1 & H2 & H3); [done..|].
    split; [unfold query_resp_decode; by rewrite H1, H2, H3|by exists (a ++ c)].
  - intros l b Hl. unfold query_resp_decode. rewrite <-(app_nil_r b), (decode_to_vec _ _ _ Hl). by rewrite !extension_decode_nil.
  - intros m b (l & a & -> & Hl & Ha)%called_bytes. split; [|exists a; by apply decode_to_vec].
    unfold called_decode. rewrite (decode_to_vec _ _ _ Hl), <-(app_nil_r a).
    by rewrite (extension_decode_optional u8c u32c _ _ a [] 0 [] Ha) by (by left).
  - intros l b Hl. unfold called_decode. rewrite <-(app_nil_r b), (decode_to_vec _ _ _ Hl). by rewrite extension_decode_nil.
Qed.
End roundtrips.

(** ** Receipts *)

Section receipt_facts.
Context (u16c u32c u64c : RawCodec Z) `{!FixedCodec 2 u16c, !FixedCodec 4 u32c, !FixedCodec 8 u64c}.
Context {SystemTime : Type} (to_bucky : SystemTime -> Z) (from_bucky : Z -> SystemTime) (MIN_BUCKY_TIME : Z).
#[local] Existing Instance fixed_laws.

Lemma grade_roundtrip g room b rest :
  enum_encode grade_as_u8 g room = Ok b -> enum_decode grade_try_from (b ++ rest) = Ok (g, rest).
Proof using Type. unfold enum_encode. case_match; [done|]. intros [= <-]. by destruct g. Qed.
Lemma version_roundtrip v room b rest :
  enum_encode version_as_u8 v room = Ok b -> enum_decode version_try_from (b ++ rest) = Ok (v, rest).
Proof using Type. unfold enum_encode. case_match; [done|]. intros [= <-]. by destruct v. Qed.

(** A receipt crosses the wire up to whole milliseconds of its duration, modulo
    the width of the field, and up to the conversion of its start time; one that
    started before the first time of the clock is refused. *)
Theorem receipt_roundtrip (r : SnServiceReceipt SystemTime) b rest :
  receipt_encode u16c u32c u64c to_bucky r = Ok b ->
  receipt_decode u16c u32c u64c from_bucky MIN_BUCKY_TIME (b ++ rest) =
    if to_bucky (rc_start_time r) <? MIN_BUCKY_TIME then Err CodecInvalidData
    else Ok (mkReceipt (rc_version r) (rc_grade r) (rc_rto r) (from_millis (millis_u32 (rc_duration r)))
           (from_bucky (to_bucky (rc_start_time r))) (rc_ping_count r) (rc_ping_resp_count r) (rc_called_count r)
           (rc_call_peer_count r) (rc_connect_peer_count r) (rc_call_delay r), rest).
Proof using FixedCodec0 FixedCodec1 FixedCodec2.
  unfold receipt_encode.
  destruct (enum_encode version_as_u8 _ _) as [bv|] eqn:Hv; [|done].
  destruct (enum_encode grade_as_u8 _ _) as [bg|] eqn:Hg; [|done].
  repeat match goal with |- context [@to_vec Z ?c ?v] => destruct (@to_vec Z c v) eqn:?; [|done] end.
  intros [= <-]. unfold receipt_decode. rewrite <-!app_assoc.
  rewrite (version_roundtrip _ _ _ _ Hv), (grade_roundtrip _ _ _ _ Hg).
  do 3 (erewrite decode_to_vec by eassumption; cbv beta iota).
  case_match; [done|]. by do 6 (erewrite decode_to_vec by eassumption; cbv beta iota).
Qed.

Lemma grade_accept g : is_accept g = true <-> 2 <= grade_as_u8 g.
Proof using Type. unfold is_accept. simpl. lia. Qed.
End receipt_facts.

Module MessagesDemo.
(** A duration of 2^32 milliseconds, about fifty days, is sent as zero. *)
Lemma receipt_duration_wraps : millis_u32 (from_millis 4294967296) = 0 /\ millis_u32 (from_secs 60) = 60000.
Proof. by vm_compute. Qed.
End MessagesDemo.
