(* ===== verification/PnSetup.v ===== *)
(** * Two proxy clients (pn/client/pn_client.rs, pn_listener.rs)

    How two clients set up a relayed tunnel over a proxy node and open channels
    on it: the initiator asks for a control channel ([create_tunnel_via_relay]),
    the proxy forwards the request with the authenticated sender, the other
    client registers the passive end and answers ([PnListener::handle_stream]),
    the initiator registers its end when it reads the answer; every channel is a
    connection of its own that the receiving client leads to a registered
    tunnel.  Connections take any time and the proxy may refuse or lose them. *)

From stdpp Require Import functions.
From S2P Require Import Prelude.
From S2P Require Import Errors.
From S2P Require Import Ids.
From S2P Require Import ControlStream.
From S2P Require Import PnTraffic.
From S2P Require Import PnServer.
From S2P Require Import PnTunnel.
From S2P Require Import PnClient.

(** A connection through the proxy: who opened it, for which tunnel of its own,
    with which identifier; what the other client, or the proxy, answered with the
    tunnel that got the connection, and what the opener has returned.  The two
    are apart: an opener that gave up does not take its request back. *)
Inductive ConnKind := Control | Data.
Record Conn := mkConnection {
  co_kind : ConnKind; co_side : bool; co_tunnel : nat; co_id : TunnelId;
  co_answer : option (TunnelCommandResult * option nat); co_result : option (P2pResult unit) }.

(** The tunnel objects: their client, identifier and whether they were created
    by [new_active_with_relay]. *)
Record Tun := mkTun { tu_side : bool; tu_id : TunnelId; tu_active : bool }.

Record Setup := mkSetup {
  su_shared : bool -> PnShared;
  su_tunnels : gmap nat Tun;
  su_conns : gmap nat Conn;
  (** identifiers in use, by the client that generated them *)
  su_used : gset TunnelId;
  (** channels delivered: tunnel of the opener, tunnel that got it *)
  su_delivered : list (nat * nat) }.

Section setup.
Context (ident : bool -> P2pId).

Definition set_shared (s : bool) (x : PnShared) (w : Setup) : Setup :=
  mkSetup (fun b => if Bool.eqb b s then x else su_shared w b) (su_tunnels w) (su_conns w) (su_used w) (su_delivered w).
Definition set_conn (c : nat) (x : Conn) (w : Setup) : Setup :=
  mkSetup (su_shared w) (su_tunnels w) (<[c := x]> (su_conns w)) (su_used w) (su_delivered w).
Definition new_tunnel (a : nat) (t : Tun) (w : Setup) : Setup :=
  mkSetup (su_shared w) (<[a := t]> (su_tunnels w)) (su_conns w) (su_used w) (su_delivered w).
Definition use_id (id : TunnelId) (w : Setup) : Setup :=
  mkSetup (su_shared w) (su_tunnels w) (su_conns w) ({[id]} ∪ su_used w) (su_delivered w).
Definition deliver_to (a b : nat) (w : Setup) : Setup :=
  mkSetup (su_shared w) (su_tunnels w) (su_conns w) (su_used w) (su_delivered w ++ [(a, b)]).

Definition answered (r : TunnelCommandResult) (t : option nat) (x : Conn) : Conn :=
  mkConnection (co_kind x) (co_side x) (co_tunnel x) (co_id x) (Some (r, t)) (co_result x).
Definition returned (r : P2pResult unit) (x : Conn) : Conn :=
  mkConnection (co_kind x) (co_side x) (co_tunnel x) (co_id x) (co_answer x) (Some r).

(** [PnShared::tunnel_key] of the other client. *)
Definition key_at (s : bool) (id : TunnelId) : PnTunnelKey := (ident (negb s), id).

(** [close] of a tunnel: the flag under the lifecycle lock, then its
    registration. *)
Definition flag_closed (a : nat) (x : PnShared) : PnShared :=
  mkShared (sh_tunnels x) (tn_alive x) (<[a := true]> (tn_flag x)).
Definition close_pn (s : bool) (a : nat) (id : TunnelId) (x : PnShared) : PnShared :=
  unregister_tunnel (key_at s id) a (flag_closed a x).

(** The passive client's [handle_stream] of a control request: the answer and
    the tunnel that was created. *)
Definition handle_control (s : bool) (b : nat) (id : TunnelId) (x : PnShared) : TunnelCommandResult * option nat * PnShared :=
  match register_passive_control_tunnel (key_at s id) b x with
  | (Ok _, x) => (ResSuccess, Some b, x)
  | (Err _, x) => (ResInternalError, None, x)
  end.
Definition enter_passive (s : bool) (id : TunnelId) (peer : option nat) (w : Setup) : Setup :=
  match peer with Some b => new_tunnel b (mkTun s id false) w | None => w end.

(** The end of [create_tunnel_via_relay_with_options], with what
    [open_control_channel] returned. *)
Definition create_end (s : bool) (a : nat) (id : TunnelId) (opened : P2pResult unit) (x : PnShared)
    : P2pResult unit * PnShared :=
  match opened with
  | Err e => (Err e, close_pn s a id x)
  | Ok _ =>
      match register_control_tunnel_if_absent (key_at s id) a x with
      | (Err e, x) => (Err e, close_pn s a id x)
      | (Ok _, x) => (Ok tt, x)
      end
  end.

Definition control_answer (id : TunnelId) (r : TunnelCommandResult) : P2pResult unit :=
  open_response id (Some (Ok (id, command_result_u8 r))).

Inductive setup_step : Setup -> Setup -> Prop :=
| ss_create w s a c id :
    (** a new active tunnel and its control request; the identifiers that the
        clients generate are not in use ([tunnel_ids_apart]) *)
    su_tunnels w !! a = None -> su_conns w !! c = None -> id ∉ su_used w -> tunnel_live (su_shared w s) a ->
    setup_step w (use_id id (set_conn c (mkConnection Control s a id None None) (new_tunnel a (mkTun s id true) w)))
| ss_control w c x s' b r peer :
    (** the other client gets the request *)
    su_conns w !! c = Some x -> co_kind x = Control -> co_answer x = None -> su_tunnels w !! b = None ->
    tunnel_live (su_shared w (negb (co_side x))) b ->
    handle_control (negb (co_side x)) b (co_id x) (su_shared w (negb (co_side x))) = (r, peer, s') ->
    setup_step w (set_conn c (answered r peer x)
      (set_shared (negb (co_side x)) s' (enter_passive (negb (co_side x)) (co_id x) peer w)))
| ss_refuse w c x r :
    (** the proxy answers by itself *)
    su_conns w !! c = Some x -> co_answer x = None -> r <> ResSuccess ->
    setup_step w (set_conn c (answered r None x) w)
| ss_created w c x r peer res s' :
    (** the initiator reads the answer *)
    su_conns w !! c = Some x -> co_kind x = Control -> co_answer x = Some (r, peer) -> co_result x = None ->
    create_end (co_side x) (co_tunnel x) (co_id x) (control_answer (co_id x) r) (su_shared w (co_side x)) = (res, s') ->
    setup_step w (set_conn c (returned res x) (set_shared (co_side x) s' w))
| ss_lost w c x e res s' :
    (** the connection fails or the answer does not come in time *)
    su_conns w !! c = Some x -> co_kind x = Control -> co_result x = None ->
    create_end (co_side x) (co_tunnel x) (co_id x) (Err e) (su_shared w (co_side x)) = (res, s') ->
    setup_step w (set_conn c (returned res x) (set_shared (co_side x) s' w))
| ss_open w c t s id active :
    (** a channel on a tunnel *)
    su_tunnels w !! t = Some (mkTun s id active) -> su_conns w !! c = None ->
    setup_step w (set_conn c (mkConnection Data s t id None None) w)
| ss_data w c x pushed t s' r :
    (** the other client leads it to a tunnel, which will answer *)
    su_conns w !! c = Some x -> co_kind x = Data -> co_answer x = None ->
    dispatch_passive_channel (key_at (negb (co_side x)) (co_id x)) pushed (su_shared w (negb (co_side x))) = (Ok t, s') ->
    setup_step w (deliver_to (co_tunnel x) t (set_conn c (answered r (Some t) x) (set_shared (negb (co_side x)) s' w)))
| ss_reject w c x pushed e s' :
    su_conns w !! c = Some x -> co_kind x = Data -> co_answer x = None ->
    dispatch_passive_channel (key_at (negb (co_side x)) (co_id x)) pushed (su_shared w (negb (co_side x))) = (Err e, s') ->
    setup_step w (set_conn c (answered ResInvalidParam None x) (set_shared (negb (co_side x)) s' w))
| ss_opened w c x r peer :
    su_conns w !! c = Some x -> co_kind x = Data -> co_answer x = Some (r, peer) -> co_result x = None ->
    setup_step w (set_conn c (returned (control_answer (co_id x) r) x) w)
| ss_open_lost w c x e :
    su_conns w !! c = Some x -> co_kind x = Data -> co_result x = None ->
    setup_step w (set_conn c (returned (Err e) x) w)
| ss_close w t s id active :
    (** a tunnel is closed by its user, its timers or its peer *)
    su_tunnels w !! t = Some (mkTun s id active) ->
    setup_step w (set_shared s (flag_closed t (su_shared w s)) w)
| ss_unregister w t s id active :
    su_tunnels w !! t = Some (mkTun s id active) -> tn_flag (su_shared w s) t = true ->
    setup_step w (set_shared s (unregister_tunnel (key_at s id) t (su_shared w s)) w)
| ss_drop w s t :
    setup_step w (set_shared s (mkShared (sh_tunnels (su_shared w s)) (<[t := false]> (tn_alive (su_shared w s)))
      (tn_flag (su_shared w s))) w).

(** Two clients that know no tunnel yet. *)
Definition setup_fresh (w : Setup) : Prop :=
  (forall s, sh_tunnels (su_shared w s) = ∅) /\ su_tunnels w = ∅ /\ su_conns w = ∅ /\ su_used w = ∅ /\ su_delivered w = [].
Definition setup_reachable (w : Setup) : Prop := exists w0, setup_fresh w0 /\ rtc setup_step w0 w.

(** ** The registry operations *)

(** Entries only disappear, except for one that is entered. *)
Definition entered (key : PnTunnelKey) (t : nat) (x x' : PnShared) : Prop :=
  tn_flag x' = tn_flag x /\
  forall k u, sh_tunnels x' !! k = Some u -> sh_tunnels x !! k = Some u \/ (k = key /\ u = t).
Definition shrunk (x x' : PnShared) : Prop :=
  tn_flag x' = tn_flag x /\ forall k u, sh_tunnels x' !! k = Some u -> sh_tunnels x !! k = Some u.

Lemma shrunk_refl x : shrunk x x.
Proof. by split. Qed.
Lemma shrunk_trans x y z : shrunk x y -> shrunk y z -> shrunk x z.
Proof. intros [H1 H2] [H3 H4]. split; [congruence|]. auto. Qed.
Lemma shrunk_delete key x : shrunk x (set_tunnels (delete key (sh_tunnels x)) x).
Proof. split; [done|]. simpl. intros k u [_ H]%lookup_delete_Some. done. Qed.
Lemma entered_insert key t m x :
  shrunk x (set_tunnels m x) -> entered key t x (set_tunnels (<[key := t]> m) x).
Proof.
  intros [_ Hm]. split; [done|]. simpl. intros k u [[<- <-]|[_ H]]%lookup_insert_Some; [by right|left]. by apply Hm.
Qed.

Lemma register_passive_entered key b x r x' : register_passive_control_tunnel key b x = (r, x') ->
  (r = Ok tt /\ entered key b x x') \/ (is_err r = true /\ x' = x).
Proof.
  unfold register_passive_control_tunnel.
  assert (entered key b x (set_tunnels (<[key := b]> (delete key (sh_tunnels x))) x)) as He
    by apply entered_insert, shrunk_delete.
  destruct (current key x) as [c|]; [destruct (negb (tn_flag x c))|]; intros [= <- <-]; auto.
Qed.

Lemma register_active_entered key a x r x' : register_control_tunnel_if_absent key a x = (r, x') ->
  (r = Ok tt /\ entered key a x x' /\ tn_flag x a = false) \/ (is_err r = true /\ x' = x).
Proof.
  unfold register_control_tunnel_if_absent. destruct (tn_flag x a) eqn:Hf; [intros [= <- <-]; auto|].
  assert (entered key a x (set_tunnels (<[key := a]> (sh_tunnels x)) x)) as He by (apply entered_insert; by split).
  destruct (current key x) as [c|]; [destruct (negb (tn_flag x c))|]; intros [= <- <-]; auto.
Qed.

Lemma get_shrunk key x r x' : pn_get_tunnel key x = (r, x') ->
  shrunk x x' /\ forall t, r = Some t -> sh_tunnels x !! key = Some t.
Proof.
  unfold pn_get_tunnel, current. destruct (sh_tunnels x !! key) as [c|] eqn:Hc; simpl.
  2:{ intros [= <- <-]. split; [apply shrunk_delete|done]. }
  unfold upgrade. destruct (tn_alive x c); simpl; [destruct (negb (tn_flag x c))|]; intros [= <- <-];
    (split; [apply shrunk_refl || apply shrunk_delete|]); congruence.
Qed.

Lemma unregister_shrunk key a x : shrunk x (unregister_tunnel key a x) /\ sh_tunnels (unregister_tunnel key a x) !! key <> Some a.
Proof.
  unfold unregister_tunnel, current. destruct (sh_tunnels x !! key) as [c|] eqn:Hc; simpl.
  2:{ split; [apply shrunk_delete|]. simpl. by rewrite lookup_delete_eq. }
  unfold upgrade. destruct (tn_alive x c); simpl.
  - case_bool_decide; [split; [apply shrunk_delete|]; simpl; by rewrite lookup_delete_eq|].
    split; [apply shrunk_refl|]. rewrite Hc. congruence.
  - split; [apply shrunk_delete|]. simpl. by rewrite lookup_delete_eq.
Qed.

Lemma dispatch_shrunk key pushed x r x' : dispatch_passive_channel key pushed x = (r, x') ->
  shrunk x x' /\ forall t, r = Ok t -> sh_tunnels x !! key = Some t.
Proof.
  unfold dispatch_passive_channel. destruct (pn_get_tunnel key x) as [[a|] x1] eqn:Hg; apply get_shrunk in Hg as [Hs Ha].
  - destruct pushed; [intros [= <- <-]; split; [done|]; intros t [= <-]; auto|].
    destruct (tn_flag x1 a); intros [= <- <-]; (split; [|done]); [|done]. eapply shrunk_trans; [done|]. apply unregister_shrunk.
  - intros [= <- <-]. by split.
Qed.

Lemma control_answer_ok id r : control_answer id r = Ok tt -> r = ResSuccess.
Proof. unfold control_answer, open_response. simpl. rewrite Z.eqb_refl. by destruct r. Qed.

(** ** The invariant *)

(** The tunnel a connection has reached: the passive end it created, or the one
    its channel was given to. *)
Definition reached (w : Setup) (x : Conn) (t : nat) : Prop :=
  match co_kind x with
  | Control => su_tunnels w !! t = Some (mkTun (negb (co_side x)) (co_id x) false)
  | Data => (co_tunnel x, t) ∈ su_delivered w
  end.

(** The control connection a tunnel comes from. *)
Definition origin (t : nat) (u : Tun) (x : Conn) : Prop :=
  co_kind x = Control /\ co_id x = tu_id u /\
  if tu_active u then co_side x = tu_side u /\ co_tunnel x = t
  else co_side x = negb (tu_side u) /\ exists r, co_answer x = Some (r, Some t).

(** A set-up that failed leaves a closed tunnel that is not registered. *)
Definition closed_out (w : Setup) (s : bool) (t : nat) (id : TunnelId) : Prop :=
  tn_flag (su_shared w s) t = true /\ sh_tunnels (su_shared w s) !! key_at s id <> Some t.

(** What the two ends of a connection know of it. *)
Definition conn_ok (w : Setup) (x : Conn) : Prop :=
  (exists active, su_tunnels w !! co_tunnel x = Some (mkTun (co_side x) (co_id x) active)) /\
  (forall r p, co_answer x = Some (r, p) -> (r = ResSuccess -> is_Some p) /\ forall t, p = Some t -> reached w x t) /\
  (co_result x = Some (Ok tt) -> exists t, reached w x t) /\
  (forall e, co_kind x = Control -> co_result x = Some (Err e) -> closed_out w (co_side x) (co_tunnel x) (co_id x)).

Record setup_ok (w : Setup) : Prop := {
  so_registry s k t : sh_tunnels (su_shared w s) !! k = Some t ->
    k.1 = ident (negb s) /\ exists active, su_tunnels w !! t = Some (mkTun s k.2 active);
  so_conn c x : su_conns w !! c = Some x -> conn_ok w x;
  so_control c c' x x' : su_conns w !! c = Some x -> su_conns w !! c' = Some x' ->
    co_kind x = Control -> co_kind x' = Control -> co_id x = co_id x' -> c = c';
  so_tunnel t u : su_tunnels w !! t = Some u -> tu_id u ∈ su_used w /\ exists c x, su_conns w !! c = Some x /\ origin t u x;
  so_delivered a b : (a, b) ∈ su_delivered w -> exists s id active,
    su_tunnels w !! a = Some (mkTun s id active) /\ su_tunnels w !! b = Some (mkTun (negb s) id (negb active)) }.

(** The tunnels of one identifier: one end on each side, of opposite roles. *)
Lemma same_id_same_origin w t t' u u' : setup_ok w ->
  su_tunnels w !! t = Some u -> su_tunnels w !! t' = Some u' -> tu_id u = tu_id u' ->
  exists x, origin t u x /\ origin t' u' x.
Proof.
  intros Hw Ht Ht' Hid. destruct (so_tunnel _ Hw _ _ Ht) as (_ & c & x & Hc & Ho).
  destruct (so_tunnel _ Hw _ _ Ht') as (_ & c' & x' & Hc' & Ho').
  destruct Ho as (Hk & Hi & Ho), Ho' as (Hk' & Hi' & Ho').
  assert (c = c') as <- by (eapply (so_control _ Hw); eauto; congruence).
  assert (x' = x) as -> by congruence. exists x. by split.
Qed.

Lemma ends_opposite w t t' s id act act' : setup_ok w ->
  su_tunnels w !! t = Some (mkTun s id act) -> su_tunnels w !! t' = Some (mkTun (negb s) id act') -> act' = negb act.
Proof.
  intros Hw Ht Ht'. destruct (same_id_same_origin _ _ _ _ _ Hw Ht Ht' eq_refl) as (x & (_ & _ & H) & (_ & _ & H')).
  simpl in *. destruct act, act'; simpl; try done; destruct H as [H _], H' as [H' _]; rewrite H in H'; by destruct s.
Qed.

Lemma end_unique w t t' s id act act' : setup_ok w ->
  su_tunnels w !! t = Some (mkTun s id act) -> su_tunnels w !! t' = Some (mkTun s id act') -> t = t'.
Proof.
  intros Hw Ht Ht'. destruct (same_id_same_origin _ _ _ _ _ Hw Ht Ht' eq_refl) as (x & (_ & _ & H) & (_ & _ & H')).
  simpl in *. destruct act, act'; destruct H as [H ?], H' as [H' ?]; try congruence; try (rewrite H in H'; by destruct s).
  destruct H0, H1. congruence.
Qed.

(** ** Every step keeps it *)

(** Later worlds keep what a connection has reached. *)
Definition extends (w w' : Setup) : Prop :=
  su_tunnels w ⊆ su_tunnels w' /\ (forall p, p ∈ su_delivered w -> p ∈ su_delivered w').

Lemma reached_mono w w' x t : extends w w' -> reached w x t -> reached w' x t.
Proof. intros [Ht Hd]. unfold reached. destruct (co_kind x); [intros H; by eapply lookup_weaken|auto]. Qed.

Lemma conn_ok_mono w w' x : extends w w' ->
  (forall e, co_kind x = Control -> co_result x = Some (Err e) ->
    closed_out w (co_side x) (co_tunnel x) (co_id x) -> closed_out w' (co_side x) (co_tunnel x) (co_id x)) ->
  conn_ok w x -> conn_ok w' x.
Proof.
  intros He Hc (Ho & Ha & Hr & Hf). split_and!.
  - destruct Ho as [act Ho]. exists act. eapply lookup_weaken; [done|]. apply He.
  - intros r p Hp. destruct (Ha r p Hp) as [H1 H2]. split; [done|]. intros t ->. eauto using reached_mono.
  - intros Hok. destruct (Hr Hok) as [t Hre]. eauto using reached_mono.
  - eauto.
Qed.

Lemma extends_refl w w' : su_tunnels w' = su_tunnels w -> su_delivered w' = su_delivered w -> extends w w'.
Proof. intros H1 H2. split; [by rewrite H1|]. by rewrite H2. Qed.

(** A change of one registry: flags are not taken back; an entry that is new is
    that of an end of the side whose set-up has not failed. *)
Lemma shared_ok w s y : setup_ok w ->
  (forall t, tn_flag (su_shared w s) t = true -> tn_flag y t = true) ->
  (forall k u, sh_tunnels y !! k = Some u -> sh_tunnels (su_shared w s) !! k = Some u \/
    (exists id act, k = key_at s id /\ su_tunnels w !! u = Some (mkTun s id act)) /\
    forall c x e, su_conns w !! c = Some x -> co_kind x = Control -> co_result x = Some (Err e) -> co_tunnel x <> u) ->
  setup_ok (set_shared s y w).
Proof.
  intros Hw Hfl Hent. constructor; try apply Hw.
  - simpl. intros s0 k t. destruct (Bool.eqb_spec s0 s) as [->|]; [|by apply (so_registry _ Hw)].
    intros [H|[(id & act & -> & H) _]]%Hent; [by apply (so_registry _ Hw)|]. split; [done|]. by exists act.
  - simpl. intros c x Hc. apply (conn_ok_mono w); [by apply extends_refl| |by eapply (so_conn _ Hw)].
    intros e Hk Hr [H1 H2]. unfold closed_out. simpl. destruct (Bool.eqb_spec (co_side x) s) as [Hs|]; [|done].
    rewrite Hs in H1, H2 |- *. split; [auto|]. intros [H|[_ H]]%Hent; [done|]. by eapply H.
Qed.

Lemma shared_shrunk_ok w s y : setup_ok w -> shrunk (su_shared w s) y -> setup_ok (set_shared s y w).
Proof. intros Hw [Hf Hs]. apply shared_ok; [done| |]; rewrite ?Hf; auto. Qed.
Lemma flag_closed_mono t x u : tn_flag x u = true -> tn_flag (flag_closed t x) u = true.
Proof. simpl. intros Hu. by destruct (decide (u = t)) as [->|]; [apply fn_lookup_insert|rewrite fn_lookup_insert_ne]. Qed.
Lemma flag_ok w s t : setup_ok w -> setup_ok (set_shared s (flag_closed t (su_shared w s)) w).
Proof. intros Hw. apply shared_ok; [done|apply flag_closed_mono|by auto]. Qed.
Lemma close_closes s t id x : tn_flag (close_pn s t id x) t = true /\ sh_tunnels (close_pn s t id x) !! key_at s id <> Some t.
Proof.
  unfold close_pn. destruct (unregister_shrunk (key_at s id) t (flag_closed t x)) as [[Hf _] Hu].
  split; [|done]. rewrite Hf. apply fn_lookup_insert.
Qed.
Lemma close_ok w s t id : setup_ok w -> setup_ok (set_shared s (close_pn s t id (su_shared w s)) w).
Proof.
  intros Hw. destruct (unregister_shrunk (key_at s id) t (flag_closed t (su_shared w s))) as [[Hf Hs] _].
  unfold close_pn. apply shared_ok; [done| |by auto]. rewrite Hf. apply flag_closed_mono.
Qed.

(** A connection that learns something. *)
Lemma conn_change_ok w c x x' : setup_ok w -> su_conns w !! c = Some x ->
  co_kind x' = co_kind x -> co_side x' = co_side x -> co_tunnel x' = co_tunnel x -> co_id x' = co_id x ->
  (forall a, co_answer x = Some a -> co_answer x' = Some a) -> conn_ok w x' ->
  setup_ok (set_conn c x' w).
Proof.
  intros Hw Hc Hk Hs Ht Hi Ha Hx. constructor; try apply Hw.
  - simpl. intros c0 x0 [[<- <-]|[_ H]]%lookup_insert_Some;
      (apply (conn_ok_mono w); [by apply extends_refl|done|]); [done|by eapply (so_conn _ Hw)].
  - simpl. intros c1 c2 x1 x2 [[<- <-]|[? H1]]%lookup_insert_Some [[<- <-]|[? H2]]%lookup_insert_Some;
      rewrite ?Hk, ?Hi; [done|by eapply (so_control _ Hw)..].
  - simpl. intros t u Hu. destruct (so_tunnel _ Hw _ _ Hu) as (Hin & c0 & x0 & H0 & Ho). split; [done|].
    destruct (decide (c0 = c)) as [->|]; [|exists c0, x0; by rewrite lookup_insert_ne].
    exists c, x'. rewrite lookup_insert_eq. split; [done|]. assert (x0 = x) as -> by congruence.
    destruct Ho as (? & ? & Ho). unfold origin. rewrite Hk, Hi, Hs, Ht. split_and!; [done..|].
    destruct (tu_active u); [done|]. destruct Ho as [? [r ?]]. split; [done|]. exists r. auto.
Qed.

Lemma answered_ok w c x r p : setup_ok w -> su_conns w !! c = Some x -> co_answer x = None ->
  (r = ResSuccess -> is_Some p) -> (forall t, p = Some t -> reached w x t) -> setup_ok (set_conn c (answered r p x) w).
Proof.
  intros Hw Hc Hn Hr Hp. eapply conn_change_ok; [done|done|done..|by rewrite Hn|].
  destruct (so_conn _ Hw _ _ Hc) as (Ho & _ & Hok & Hf). split_and!; [done| |done|done].
  intros r' p' [= <- <-]. by split.
Qed.

Lemma returned_ok w c x r : setup_ok w -> su_conns w !! c = Some x ->
  (r = Ok tt -> exists t, reached w x t) ->
  (forall e, co_kind x = Control -> r = Err e -> closed_out w (co_side x) (co_tunnel x) (co_id x)) ->
  setup_ok (set_conn c (returned r x) w).
Proof.
  intros Hw Hc Hr He. eapply conn_change_ok; [done|done|done..|].
  destruct (so_conn _ Hw _ _ Hc) as (Ho & Ha & _ & _). split_and!; [done|done| |].
  - intros [= ->]. auto.
  - intros e Hk [= ->]. eauto.
Qed.

(** What is left of a connection in a world with more tunnels. *)
Lemma others_ok w w' x : setup_ok w -> (exists c, su_conns w !! c = Some x) -> su_tunnels w ⊆ su_tunnels w' ->
  su_delivered w' = su_delivered w -> su_shared w' = su_shared w -> conn_ok w' x.
Proof.
  intros Hw [c Hc] Ht Hd Hs. apply (conn_ok_mono w); [split; [done|by rewrite Hd]| |by eapply (so_conn _ Hw)].
  unfold closed_out. by rewrite Hs.
Qed.

Lemma create_ok w s a c id : setup_ok w -> su_tunnels w !! a = None -> su_conns w !! c = None -> id ∉ su_used w ->
  setup_ok (use_id id (set_conn c (mkConnection Control s a id None None) (new_tunnel a (mkTun s id true) w))).
Proof.
  intros Hw Ha Hc Hid. assert (su_tunnels w ⊆ <[a := mkTun s id true]> (su_tunnels w)) as Hsub by by apply insert_subseteq.
  assert (forall c' x, su_conns w !! c' = Some x -> co_id x <> id) as Hnew.
  { intros c' x Hx <-. destruct (so_conn _ Hw _ _ Hx) as ([act Ho] & _). by apply (so_tunnel _ Hw) in Ho as [Ho _]. }
  constructor; simpl.
  - intros s0 k t Hk. destruct (so_registry _ Hw _ _ _ Hk) as (H1 & act & H2). split; [done|].
    exists act. by eapply lookup_weaken.
  - intros c0 x0 [[<- <-]|[_ H]]%lookup_insert_Some; [|apply (others_ok w); eauto].
    split_and!; simpl; [|done..]. exists true. by rewrite lookup_insert_eq.
  - intros c1 c2 x1 x2 [[<- <-]|[? H1]]%lookup_insert_Some [[<- <-]|[? H2]]%lookup_insert_Some; simpl; intros Hk1 Hk2 Hi;
      [done|by edestruct Hnew|by edestruct Hnew|by eapply (so_control _ Hw)].
  - intros t u [[<- <-]|[Hne H]]%lookup_insert_Some.
    + split; [set_solver|]. exists c. eexists. by rewrite lookup_insert_eq.
    + destruct (so_tunnel _ Hw _ _ H) as (? & c0 & x0 & H0 & Ho). split; [set_solver|]. exists c0, x0.
      split; [|done]. rewrite lookup_insert_ne; [done|]. congruence.
  - intros a0 b0 Hab. destruct (so_delivered _ Hw _ _ Hab) as (s0 & id0 & act & H1 & H2).
    exists s0, id0, act. split; by eapply lookup_weaken.
Qed.

(** The passive end, before it is registered. *)
Lemma passive_ok w c x b : setup_ok w -> su_conns w !! c = Some x -> co_kind x = Control -> co_answer x = None ->
  su_tunnels w !! b = None ->
  setup_ok (set_conn c (answered ResSuccess (Some b) x) (new_tunnel b (mkTun (negb (co_side x)) (co_id x) false) w)).
Proof.
  intros Hw Hc Hk Hn Hb.
  set (u := mkTun (negb (co_side x)) (co_id x) false).
  assert (su_tunnels w ⊆ <[b := u]> (su_tunnels w)) as Hsub by by apply insert_subseteq.
  destruct (so_conn _ Hw _ _ Hc) as ([act Ho] & _ & Hr & Hf).
  constructor; simpl.
  - intros s0 k t Hk0. destruct (so_registry _ Hw _ _ _ Hk0) as (H1 & act0 & H2). split; [done|].
    exists act0. by eapply lookup_weaken.
  - intros c0 x0 [[<- <-]|[_ H]]%lookup_insert_Some; [|apply (others_ok w); eauto].
    assert (reached (set_conn c (answered ResSuccess (Some b) x) (new_tunnel b u w)) (answered ResSuccess (Some b) x) b) as Hre.
    { unfold reached. simpl. by rewrite Hk, lookup_insert_eq. }
    split_and!; simpl; [exists act; by eapply lookup_weaken| | |done].
    + intros r p [= <- <-]. split; [done|]. by intros t [= <-].
    + eauto.
  - intros c1 c2 x1 x2 [[<- <-]|[? H1]]%lookup_insert_Some [[<- <-]|[? H2]]%lookup_insert_Some; simpl; intros Hk1 Hk2 Hi;
      [done|by eapply (so_control _ Hw)..].
  - intros t v [[<- <-]|[Hne H]]%lookup_insert_Some.
    + split; [by apply (so_tunnel _ Hw) in Ho as [Ho _]|]. exists c. eexists. rewrite lookup_insert_eq. split; [done|].
      split_and!; [done|done|]. simpl. rewrite negb_involutive. eauto.
    + destruct (so_tunnel _ Hw _ _ H) as (? & c0 & x0 & H0 & Hor). split; [done|].
      destruct (decide (c0 = c)) as [->|]; [|exists c0, x0; by rewrite lookup_insert_ne].
      exists c. eexists. rewrite lookup_insert_eq. split; [done|]. assert (x0 = x) as -> by congruence.
      destruct Hor as (? & ? & Hor). split_and!; [done|done|]. destruct (tu_active v); [done|].
      destruct Hor as (_ & r & Hor). congruence.
  - intros a0 b0 Hab. destruct (so_delivered _ Hw _ _ Hab) as (s0 & id0 & act0 & H1 & H2).
    exists s0, id0, act0. split; by eapply lookup_weaken.
Qed.

Lemma open_ok w c t s id act : setup_ok w -> su_tunnels w !! t = Some (mkTun s id act) -> su_conns w !! c = None ->
  setup_ok (set_conn c (mkConnection Data s t id None None) w).
Proof.
  intros Hw Ht Hc. constructor; simpl; try apply Hw.
  - intros c0 x0 [[<- <-]|[_ H]]%lookup_insert_Some; [|by apply (others_ok w); eauto]. split_and!; simpl; [by eexists|done..].
  - intros c1 c2 x1 x2 [[<- <-]|[? H1]]%lookup_insert_Some [[<- <-]|[? H2]]%lookup_insert_Some; [done..|].
    by eapply (so_control _ Hw).
  - intros t0 u H. destruct (so_tunnel _ Hw _ _ H) as (? & c0 & x0 & H0 & Ho). split; [done|]. exists c0, x0.
    split; [|done]. rewrite lookup_insert_ne; [done|]. congruence.
Qed.

Lemma deliver_ok w a b s id act : setup_ok w -> su_tunnels w !! a = Some (mkTun s id act) ->
  su_tunnels w !! b = Some (mkTun (negb s) id (negb act)) -> setup_ok (deliver_to a b w).
Proof.
  intros Hw Ha Hb. constructor; simpl; try apply Hw.
  - intros c x Hc. apply (conn_ok_mono w); [|done|by eapply (so_conn _ Hw)]. split; [done|]. simpl. intros p Hp. apply elem_of_app. auto.
  - intros a0 b0 [H|H%list_elem_of_singleton]%elem_of_app; [by apply (so_delivered _ Hw)|].
    injection H as -> ->. by exists s, id, act.
Qed.

Lemma create_end_cases s a id o x res x' : create_end s a id o x = (res, x') ->
  (res = Ok tt /\ o = Ok tt /\ entered (key_at s id) a x x') \/ (exists e, res = Err e /\ x' = close_pn s a id x).
Proof.
  unfold create_end. destruct o as [[]|e]; [|intros [= <- <-]; eauto].
  destruct (register_control_tunnel_if_absent (key_at s id) a x) as [r y] eqn:Hr.
  apply register_active_entered in Hr as [(-> & He & _)|[Her ->]]; [intros [= <- <-]; auto|].
  destruct r as [[]|e]; [done|]. intros [= <- <-]. eauto.
Qed.

Lemma shared_same w s y : su_shared (set_shared s y w) s = y.
Proof. simpl. by rewrite Bool.eqb_reflx. Qed.

(** The initiator's end, with or without an answer. *)
Lemma create_end_ok w c x o res s' : setup_ok w -> su_conns w !! c = Some x -> co_kind x = Control -> co_result x = None ->
  (o = Ok tt -> exists p, co_answer x = Some (ResSuccess, p)) ->
  create_end (co_side x) (co_tunnel x) (co_id x) o (su_shared w (co_side x)) = (res, s') ->
  setup_ok (set_conn c (returned res x) (set_shared (co_side x) s' w)).
Proof.
  intros Hw Hc Hk Hn Ho [(-> & Hok & Hf & He)|(e & -> & ->)]%create_end_cases.
  - destruct (so_conn _ Hw _ _ Hc) as ([act Ht] & Ha & _ & _).
    assert (setup_ok (set_shared (co_side x) s' w)) as Hs.
    { apply shared_ok; [done|by rewrite Hf|]. intros k u [H|[-> ->]]%He; [by left|]. right. split; [by eauto|].
      intros c' x' e Hc' Hk' Hr' Heq. destruct (so_conn _ Hw _ _ Hc') as ([act' Ht'] & _).
      assert (c' = c) as -> by (eapply (so_control _ Hw); eauto; congruence). congruence. }
    eapply returned_ok; [done|done| |done]. intros _. destruct (Ho Hok) as [p Hp].
    destruct (Ha _ _ Hp) as [[t ->] Hre]; [done|]. exists t. by apply Hre.
  - eapply returned_ok; [by apply close_ok|done|done|]. intros e' _ _.
    unfold closed_out. rewrite shared_same. apply close_closes.
Qed.

Lemma control_ok w c x b r peer s' : setup_ok w -> su_conns w !! c = Some x -> co_kind x = Control -> co_answer x = None ->
  su_tunnels w !! b = None ->
  handle_control (negb (co_side x)) b (co_id x) (su_shared w (negb (co_side x))) = (r, peer, s') ->
  setup_ok (set_conn c (answered r peer x)
    (set_shared (negb (co_side x)) s' (enter_passive (negb (co_side x)) (co_id x) peer w))).
Proof.
  intros Hw Hc Hk Hn Hb. unfold handle_control.
  destruct (register_passive_control_tunnel _ b _) as [reg y] eqn:Hr.
  apply register_passive_entered in Hr as [(-> & Hf & He)|[Her ->]].
  - intros [= <- <- <-]. pose proof (passive_ok w c x b Hw Hc Hk Hn Hb) as Hp.
    refine (shared_ok _ (negb (co_side x)) y Hp _ _); simpl; [by rewrite Hf|].
    intros k u [H|[-> ->]]%He; [by left|]. right. split; [exists (co_id x), false; by rewrite lookup_insert_eq|].
    intros c' x' e Hc' _ _ Heq. assert (exists c0 x0, su_conns w !! c0 = Some x0 /\ co_tunnel x0 = b) as (c0 & x0 & H0 & Hb0).
    { apply lookup_insert_Some in Hc' as [[<- <-]|[_ H]]; [by exists c, x|by exists c', x']. }
    destruct (so_conn _ Hw _ _ H0) as ([act Ht] & _). congruence.
  - destruct reg; [done|]. intros [= <- <- <-]. simpl.
    apply answered_ok; [|done..]. apply shared_shrunk_ok; [done|apply shrunk_refl].
Qed.

Lemma data_ok w c x pushed t s' r : setup_ok w -> su_conns w !! c = Some x -> co_kind x = Data -> co_answer x = None ->
  dispatch_passive_channel (key_at (negb (co_side x)) (co_id x)) pushed (su_shared w (negb (co_side x))) = (Ok t, s') ->
  setup_ok (deliver_to (co_tunnel x) t (set_conn c (answered r (Some t) x) (set_shared (negb (co_side x)) s' w))).
Proof.
  intros Hw Hc Hk Hn [Hs Ht]%dispatch_shrunk. specialize (Ht t eq_refl).
  destruct (so_conn _ Hw _ _ Hc) as ([act Ho] & _). apply (so_registry _ Hw) in Ht as (_ & act' & Ht). simpl in Ht.
  rewrite (ends_opposite _ _ _ _ _ _ _ Hw Ho Ht) in Ht.
  change (setup_ok (set_conn c (answered r (Some t) x) (deliver_to (co_tunnel x) t (set_shared (negb (co_side x)) s' w)))).
  apply answered_ok; [by eapply deliver_ok; [apply shared_shrunk_ok|..]|done|done|done|].
  intros u [= <-]. unfold reached. rewrite Hk. simpl. apply elem_of_app. right. by apply list_elem_of_singleton.
Qed.

Lemma setup_step_ok w w' : setup_step w w' -> setup_ok w -> setup_ok w'.
Proof.
  intros Hst Hw. destruct Hst.
  - by apply create_ok.
  - by eapply control_ok.
  - by apply answered_ok.
  - eapply create_end_ok; eauto. intros ->%control_answer_ok. eauto.
  - eapply create_end_ok; eauto. done.
  - by eapply open_ok.
  - by eapply data_ok.
  - apply dispatch_shrunk in H2 as [Hs _]. apply answered_ok; [|done..]. by apply shared_shrunk_ok.
  - destruct (so_conn _ Hw _ _ H) as (_ & Ha & _). apply returned_ok; [done|done| |congruence].
    intros ->%control_answer_ok. destruct (Ha _ _ H1) as [[t ->] Hre]; [done|]. exists t. by apply Hre.
  - apply returned_ok; [done|done|done|congruence].
  - by apply flag_ok.
  - apply shared_shrunk_ok; [done|]. apply unregister_shrunk.
  - apply shared_shrunk_ok; [done|]. by split.
Qed.

Lemma setup_reachable_ok w : setup_reachable w -> setup_ok w.
Proof.
  intros (w0 & (Hsh & Ht & Hc & Hu & Hd) & Hr).
  eapply (rtc_preserves setup_step setup_ok); [intros ??; apply setup_step_ok|exact Hr|].
  constructor; rewrite ?Ht, ?Hc, ?Hd; [|done|done|done|by intros a b ?%elem_of_nil].
  intros s k t. by rewrite Hsh.
Qed.

(** C30: pn_channels_reach_pair: Two clients set up relayed tunnels over a proxy
    and open channels on them, in any interleaving of requests, answers, refusals
    by the proxy, openers that give up, closes and drops.  A channel reaches only
    the other end of the tunnel it was opened on: the tunnel with the same
    identifier at the other client, of the opposite role, of which there is one.
    A set-up the initiator saw succeed has created the passive end; a channel it
    saw opened was delivered; and a set-up that failed leaves a tunnel that is
    closed and not registered. *)
Theorem pn_channels_reach_pair w : setup_reachable w ->
  (forall a b, (a, b) ∈ su_delivered w -> exists s id active,
     su_tunnels w !! a = Some (mkTun s id active) /\ su_tunnels w !! b = Some (mkTun (negb s) id (negb active)) /\
     forall b' u, su_tunnels w !! b' = Some u -> tu_side u = negb s -> tu_id u = id -> b' = b) /\
  (forall c x, su_conns w !! c = Some x ->
     (co_result x = Some (Ok tt) -> exists t, reached w x t) /\
     forall e, co_kind x = Control -> co_result x = Some (Err e) -> closed_out w (co_side x) (co_tunnel x) (co_id x)).
Proof.
  intros Hw%setup_reachable_ok. split.
  - intros a b Hab. destruct (so_delivered _ Hw _ _ Hab) as (s & id & act & Ha & Hb). exists s, id, act.
    split_and!; [done..|]. intros b' [s' id' act'] Hb'. simpl. intros -> ->. by eapply end_unique.
  - intros c x Hc. destruct (so_conn _ Hw _ _ Hc) as (_ & _ & Hr & Hf). by split.
Qed.
End setup.

(** ** Concrete runs *)
Module SetupDemo.
Definition who (s : bool) : P2pId := mkP2pId [if s then 1 else 2].
Definition empty_shared : PnShared := mkShared ∅ (fun _ => true) (fun _ => false).
Definition start : Setup := mkSetup (fun _ => empty_shared) ∅ ∅ ∅ [].

(** Client [true] asks for tunnel 7; client [false] has got the request. *)
Definition request := mkConnection Control true 10 7 None None.
Definition asked : Setup := use_id 7 (set_conn 0 request (new_tunnel 10 (mkTun true 7 true) start)).
Definition passive_shared : PnShared := snd (handle_control who false 20 7 empty_shared).
Definition accepted : Setup :=
  set_conn 0 (answered ResSuccess (Some 20%nat) request)
    (set_shared false passive_shared (enter_passive false 7 (Some 20%nat) asked)).
Lemma demo_accepted : rtc (setup_step who) start accepted.
Proof.
  eapply rtc_l; [apply (ss_create who start true 10 0 7); [done|done|set_solver|done]|].
  apply rtc_once. by apply (ss_control who asked 0 request passive_shared 20 ResSuccess (Some 20%nat)).
Qed.

(** The initiator reads the answer; it opens a channel, which is delivered. *)
Definition active_shared : PnShared := snd (create_end who true 10 7 (Ok tt) empty_shared).
Definition made : Setup :=
  set_conn 0 (returned (Ok tt) (answered ResSuccess (Some 20%nat) request)) (set_shared true active_shared accepted).
Definition channel := mkConnection Data true 10 7 None None.
Definition opened : Setup :=
  deliver_to 10 20 (set_conn 1 (answered ResSuccess (Some 20%nat) channel) (set_shared false passive_shared (set_conn 1 channel made))).
Lemma demo_opened : setup_reachable who opened.
Proof.
  exists start. split; [by split_and!|]. eapply transitivity; [apply demo_accepted|].
  eapply rtc_l; [by apply (ss_created who accepted 0 (answered ResSuccess (Some 20%nat) request) ResSuccess (Some 20%nat) (Ok tt) active_shared)|].
  eapply rtc_l; [by apply (ss_open who made 1 10 true 7 true)|].
  apply rtc_once. by apply (ss_data who (set_conn 1 channel made) 1 channel (Ok tt) 20 passive_shared ResSuccess).
Qed.

Lemma pn_channels_reach_pair_witness :
  setup_reachable who opened /\ su_delivered opened = [(10%nat, 20%nat)] /\
  (exists s id active, su_tunnels opened !! 10%nat = Some (mkTun s id active) /\
    su_tunnels opened !! 20%nat = Some (mkTun (negb s) id (negb active))) /\
  exists t, reached opened (returned (Ok tt) (answered ResSuccess (Some 20%nat) request)) t.
Proof.
  destruct (pn_channels_reach_pair who opened demo_opened) as [Hd Hc].
  split; [apply demo_opened|]. split; [reflexivity|]. split.
  - destruct (Hd 10%nat 20%nat) as (s & id & act & Ha & Hb & _); [set_solver|]. by exists s, id, act.
  - by apply (Hc 0%nat).
Defined.

(** The passive client may use its end at once, but the initiator registers its
    own only when it has read the answer: a channel that overtakes the answer is
    rejected, although both ends go on to be set up. *)
Definition early := mkConnection Data false 20 7 None None.
Definition refused : Setup :=
  set_conn 1 (answered ResInvalidParam None early) (set_shared true empty_shared (set_conn 1 early accepted)).
Definition completed : Setup :=
  set_conn 0 (returned (Ok tt) (answered ResSuccess (Some 20%nat) request)) (set_shared true active_shared refused).
Lemma early_channel_rejected :
  setup_reachable who completed /\
  (exists x, su_conns completed !! 1%nat = Some x /\ co_tunnel x = 20%nat /\ co_answer x = Some (ResInvalidParam, None)) /\
  su_tunnels completed !! 20%nat = Some (mkTun false 7 false) /\
  sh_tunnels (su_shared completed false) !! key_at who false 7 = Some 20%nat /\
  sh_tunnels (su_shared completed true) !! key_at who true 7 = Some 10%nat.
Proof.
  split.
  - exists start. split; [by split_and!|]. eapply transitivity; [apply demo_accepted|].
    eapply rtc_l; [by apply (ss_open who accepted 1 20 false 7 false)|].
    eapply rtc_l; [by apply (ss_reject who (set_conn 1 early accepted) 1 early (Ok tt) P2pErrorCode.ErrorState empty_shared)|].
    apply rtc_once. by apply (ss_created who refused 0 (answered ResSuccess (Some 20%nat) request) ResSuccess (Some 20%nat) (Ok tt) active_shared).
  - split; [by eexists|]. by vm_compute.
Qed.
End SetupDemo.
