(* ===== verification/Identity.v ===== *)
(** * Identities and X.509 certificates (p2p_identity.rs, x509.rs)

    The traits [P2pIdentity], [P2pIdentityCert] and their factories as classes,
    with what the TLS layer relies on as laws, and their implementation over
    X.509 certificates.  Parsing of certificates, hashing and signing are the
    crates x509-cert, x509-verify, sha2, ring and rcgen: the class [X509Ops]. *)

From S2P Require Import Prelude.
From S2P Require Import Errors.
From S2P Require Import Ids.
From S2P Require Import Endpoint.
From S2P Require Import Codec.
From S2P Require Import SnService.

Inductive P2pIdentitySignType := Rsa | Ed25519.
#[global] Instance P2pIdentitySignType_eq_dec : EqDecision P2pIdentitySignType.
Proof. solve_decision. Defined.

(** [P2pSn]: an SN that a certificate names. *)
Record CertSn := mkCertSn { xs_id : P2pId; xs_name : list Z; xs_endpoints : list Endpoint }.

(** ** The traits *)

(** [P2pIdentityCert] and [P2pIdentityCertFactory]. *)
Class IdentityCertOps (Cert : Type) := {
  ic_get_id : Cert -> P2pId;
  ic_get_name : Cert -> list Z;
  ic_sign_type : Cert -> P2pIdentitySignType;
  ic_verify : Cert -> list Z -> list Z -> bool;
  ic_verify_cert : Cert -> list Z -> bool;
  ic_get_encoded_cert : Cert -> P2pResult (list Z);
  ic_endpoints : Cert -> list Endpoint;
  ic_sn_list : Cert -> list CertSn;
  ic_update_endpoints : Cert -> list Endpoint -> Cert;
  ic_create : list Z -> P2pResult Cert;
}.

(** [P2pIdentity] and [P2pIdentityFactory]; [None] stands for a panic. *)
Class IdentityOps (Cert Ident : Type) := {
  id_identity_cert : Ident -> P2pResult Cert;
  id_get_id : Ident -> P2pId;
  id_get_name : Ident -> list Z;
  id_sign_type : Ident -> P2pIdentitySignType;
  id_sign : Ident -> list Z -> P2pResult (list Z);
  id_get_encoded_identity : Ident -> P2pResult (list Z);
  id_endpoints : Ident -> list Endpoint;
  id_update_endpoints : Ident -> list Endpoint -> option Ident;
  id_create : list Z -> P2pResult Ident;
}.

(** What an identity promises to those that present its certificate: the
    certificate names the identity and survives its encoding, and so does the
    identity itself.  [id_valid] holds of the identities the factory makes. *)
Class IdentityLaws (Cert Ident : Type) `{IdentityCertOps Cert, IdentityOps Cert Ident} := {
  id_valid : Ident -> Prop;
  law_cert_id i c : id_valid i -> id_identity_cert i = Ok c ->
    ic_get_id c = id_get_id i /\ ic_get_name c = id_get_name i /\ ic_sign_type c = id_sign_type i;
  law_cert_create i c b : id_valid i -> id_identity_cert i = Ok c -> ic_get_encoded_cert c = Ok b -> ic_create b = Ok c;
  law_id_create i b : id_valid i -> id_get_encoded_identity i = Ok b -> id_create b = Ok i;
  law_create_valid b i : id_create b = Ok i -> id_valid i;
}.

(** The super node's view of certificates is the same trait. *)
#[global] Instance identity_cert_ops `{IdentityCertOps Cert} : CertOps Cert | 100 := {
  cert_create := ic_create;
  cert_get_id := ic_get_id;
  cert_endpoints := ic_endpoints;
  cert_encoded := ic_get_encoded_cert;
}.

(** ** X.509 *)

Definition Oid := list Z.
Definition RSA_ENCRYPTION : Oid := [1; 2; 840; 113549; 1; 1; 1].
Definition ED25519_OID : Oid := [1; 3; 101; 112].
Definition ID_CE_SUBJECT_ALT_NAME : Oid := [2; 5; 29; 17].

Inductive GeneralName := DnsName (name : list Z) | OtherName (name : list Z).
Record Extension := mkExtension { extn_id : Oid; extn_value : list Z }.

(** The algorithms of ring that the code names. *)
Inductive RingAlgorithm := RSA_PKCS1_2048_8192_SHA256 | RING_ED25519.

(** What the code calls of the crates.  [to_string] is the base-36 text of an
    identifier. *)
Class X509Ops (Certificate RsaKey EdKey : Type) := {
  from_der : list Z -> option Certificate;
  from_pem : list Z -> option Certificate;
  to_der : Certificate -> option (list Z);
  spki_algorithm : Certificate -> Oid;
  spki_key : Certificate -> list Z;
  extensions : Certificate -> option (list Extension);
  subject_alt_name_from_der : list Z -> option (list GeneralName);
  verifying_key_verifies : Certificate -> bool;  (* VerifyingKey::try_from and verify of the certificate itself *)
  ring_verify : RingAlgorithm -> list Z -> list Z -> list Z -> bool;
  sha256 : list Z -> list Z;
  to_string : P2pId -> list Z;
  rsa_from_pkcs8 : list Z -> option RsaKey;
  ed_from_pkcs8 : list Z -> option EdKey;
  ed_from_pkcs8_maybe_unchecked : list Z -> option EdKey;
  rsa_sign : RsaKey -> list Z -> option (list Z);
  ed_sign : EdKey -> list Z -> list Z;
}.

(** [into_p2p_err!(code)] on a result of another crate. *)
Definition into_p2p {A} (code : P2pErrorCode.t) (r : option A) : P2pResult A :=
  match r with Some a => Ok a | None => Err code end.
Definition into_p2p_codec {E A} (code : P2pErrorCode.t) (r : Result E A) : P2pResult A :=
  match r with Ok a => Ok a | Err _ => Err code end.

Record X509IdentityCertData := mkCertData { cd_raw_cert : list Z; cd_sn_list : list CertSn; cd_endpoints : list Endpoint }.
Record X509IdentityData := mkIdData { di_key : list Z; di_cert : X509IdentityCertData }.

Section x509.
Context {Certificate RsaKey EdKey : Type} {X : X509Ops Certificate RsaKey EdKey}.
Context `{CC : RawCodec X509IdentityCertData} `{CI : RawCodec X509IdentityData}.

Definition sign_type_from_algorithm (oid : Oid) : P2pResult P2pIdentitySignType :=
  if bool_decide (oid = RSA_ENCRYPTION) then Ok Rsa
  else if bool_decide (oid = ED25519_OID) then Ok Ed25519
  else Err P2pErrorCode.NotSupport.
Definition sign_type_from_cert (c : Certificate) : P2pResult P2pIdentitySignType := sign_type_from_algorithm (spki_algorithm c).

Record X509IdentityCert := mkX509Cert { xc_cert : Certificate; xc_data : X509IdentityCertData; xc_sn_list : list CertSn }.

Definition x509_new (cert : Certificate) (raw_cert : list Z) : X509IdentityCert := mkX509Cert cert (mkCertData raw_cert [] []) [].
Definition set_sn_list (sn_list : list CertSn) (c : X509IdentityCert) : X509IdentityCert :=
  mkX509Cert (xc_cert c) (mkCertData (cd_raw_cert (xc_data c)) sn_list (cd_endpoints (xc_data c))) sn_list.
Definition set_cert_endpoints (eps : list Endpoint) (c : X509IdentityCert) : X509IdentityCert :=
  mkX509Cert (xc_cert c) (mkCertData (cd_raw_cert (xc_data c)) (cd_sn_list (xc_data c)) eps) (xc_sn_list c).
Definition x509_from_der (der : list Z) : P2pResult X509IdentityCert :=
  cert <-? into_p2p P2pErrorCode.CertError (from_der der) ;; Ok (x509_new cert der).
Definition x509_from_pem (pem : list Z) : P2pResult X509IdentityCert :=
  cert <-? into_p2p P2pErrorCode.CertError (from_pem pem) ;;
  der_cert <-? into_p2p P2pErrorCode.CertError (to_der cert) ;;
  Ok (x509_new cert der_cert).
Definition cert_from_data (data : X509IdentityCertData) : P2pResult X509IdentityCert :=
  cert <-? into_p2p P2pErrorCode.CertError (from_der (cd_raw_cert data)) ;;
  Ok (mkX509Cert cert data (cd_sn_list data)).
Definition x509_update_endpoints (c : X509IdentityCert) (eps : list Endpoint) : X509IdentityCert :=
  mkX509Cert (xc_cert c) (mkCertData (cd_raw_cert (xc_data c)) (cd_sn_list (xc_data c)) eps) (xc_sn_list c).

(** [impl P2pIdentityCert for X509IdentityCert]. *)
Definition x509_get_id (c : X509IdentityCert) : P2pId := mkP2pId (sha256 (spki_key (xc_cert c))).

Fixpoint first_dns_name (names : list GeneralName) : option (list Z) :=
  match names with
  | [] => None
  | DnsName n :: _ => Some n
  | OtherName _ :: names => first_dns_name names
  end.
Fixpoint alt_name (exts : list Extension) : option (list Z) :=
  match exts with
  | [] => None
  | e :: exts =>
      if bool_decide (extn_id e = ID_CE_SUBJECT_ALT_NAME) then
        match subject_alt_name_from_der (extn_value e) with
        | Some names => match first_dns_name names with Some n => Some n | None => alt_name exts end
        | None => alt_name exts
        end
      else alt_name exts
  end.
Definition x509_get_name (c : X509IdentityCert) : list Z :=
  match extensions (xc_cert c) ≫= alt_name with Some n => n | None => to_string (x509_get_id c) end.
Definition x509_sign_type (c : X509IdentityCert) : P2pIdentitySignType :=
  match sign_type_from_cert (xc_cert c) with Ok t => t | Err _ => Rsa end.
Definition x509_verify (c : X509IdentityCert) (message sign : list Z) : bool :=
  let public_key := spki_key (xc_cert c) in
  match x509_sign_type c with
  | Rsa => ring_verify RSA_PKCS1_2048_8192_SHA256 public_key message sign
  | Ed25519 => ring_verify RING_ED25519 public_key message sign
  end.
Definition x509_verify_cert (c : X509IdentityCert) (_name : list Z) : bool := verifying_key_verifies (xc_cert c).
Definition x509_get_encoded_cert (c : X509IdentityCert) : P2pResult (list Z) :=
  into_p2p_codec P2pErrorCode.RawCodecError (to_vec (xc_data c)).
Definition x509_cert_create (b : list Z) : P2pResult X509IdentityCert :=
  data <-? into_p2p_codec P2pErrorCode.RawCodecError (clone_from_slice b) ;; cert_from_data data.

#[global] Instance X509IdentityCert_ops : IdentityCertOps X509IdentityCert := {
  ic_get_id := x509_get_id;
  ic_get_name := x509_get_name;
  ic_sign_type := x509_sign_type;
  ic_verify := x509_verify;
  ic_verify_cert := x509_verify_cert;
  ic_get_encoded_cert := x509_get_encoded_cert;
  ic_endpoints c := cd_endpoints (xc_data c);
  ic_sn_list c := xc_sn_list c;
  ic_update_endpoints := x509_update_endpoints;
  ic_create := x509_cert_create;
}.

Inductive X509PrivateKey := RsaPrivate (k : RsaKey) | EdPrivate (k : EdKey).
Record X509Identity := mkX509Identity { xi_cert : X509IdentityCert; xi_key : X509PrivateKey; xi_raw_key : list Z }.

Definition private_key_from (t : P2pIdentitySignType) (der : list Z) : P2pResult X509PrivateKey :=
  match t with
  | Rsa => k <-? into_p2p P2pErrorCode.CertError (rsa_from_pkcs8 der) ;; Ok (RsaPrivate k)
  | Ed25519 =>
      k <-? into_p2p P2pErrorCode.CertError
              (match ed_from_pkcs8 der with Some k => Some k | None => ed_from_pkcs8_maybe_unchecked der end) ;;
      Ok (EdPrivate k)
  end.
Definition identity_from_data (data : X509IdentityData) : P2pResult X509Identity :=
  cert <-? cert_from_data (di_cert data) ;;
  key <-? private_key_from (x509_sign_type cert) (di_key data) ;;
  Ok (mkX509Identity cert key (di_key data)).

Definition x509_sign (i : X509Identity) (message : list Z) : P2pResult (list Z) :=
  match xi_key i with
  | RsaPrivate k => into_p2p P2pErrorCode.SignError (rsa_sign k message)
  | EdPrivate k => Ok (ed_sign k message)
  end.
Definition x509_get_encoded_identity (i : X509Identity) : P2pResult (list Z) :=
  into_p2p_codec P2pErrorCode.CertError (to_vec (mkIdData (xi_raw_key i) (xc_data (xi_cert i)))).
Definition x509_identity_update_endpoints (i : X509Identity) (eps : list Endpoint) : option X509Identity :=
  let d := xc_data (xi_cert i) in
  match identity_from_data (mkIdData (xi_raw_key i) (mkCertData (cd_raw_cert d) (cd_sn_list d) eps)) with
  | Ok i => Some i
  | Err _ => None
  end.
Definition x509_identity_create (b : list Z) : P2pResult X509Identity :=
  data <-? into_p2p_codec P2pErrorCode.RawCodecError (clone_from_slice b) ;; identity_from_data data.

#[global] Instance X509Identity_ops : IdentityOps X509IdentityCert X509Identity := {
  id_identity_cert i := Ok (xi_cert i);
  id_get_id i := x509_get_id (xi_cert i);
  id_get_name i := x509_get_name (xi_cert i);
  id_sign_type i := x509_sign_type (xi_cert i);
  id_sign := x509_sign;
  id_get_encoded_identity := x509_get_encoded_identity;
  id_endpoints i := cd_endpoints (xc_data (xi_cert i));
  id_update_endpoints := x509_identity_update_endpoints;
  id_create := x509_identity_create;
}.

(** ** Well-formed certificates and identities *)

(** A certificate belongs to its bytes and lists the SNs of its data; a key is
    the one of its bytes, of the certificate's kind. *)
Definition cert_wf (c : X509IdentityCert) : Prop :=
  from_der (cd_raw_cert (xc_data c)) = Some (xc_cert c) /\ xc_sn_list c = cd_sn_list (xc_data c).
Definition identity_wf (i : X509Identity) : Prop :=
  cert_wf (xi_cert i) /\ private_key_from (x509_sign_type (xi_cert i)) (xi_raw_key i) = Ok (xi_key i).

Lemma cert_from_data_wf data c : cert_from_data data = Ok c <-> cert_wf c /\ xc_data c = data.
Proof.
  unfold cert_from_data, cert_wf. split.
  - destruct (from_der (cd_raw_cert data)) eqn:Hd; simpl; [|done]. by intros [= <-].
  - destruct c as [cert data' sns]. simpl. intros [[Hd ->] ->]. by rewrite Hd.
Qed.

Lemma identity_from_data_wf data i :
  identity_from_data data = Ok i <-> identity_wf i /\ mkIdData (xi_raw_key i) (xc_data (xi_cert i)) = data.
Proof.
  unfold identity_from_data, identity_wf. split.
  - destruct (cert_from_data (di_cert data)) as [c|] eqn:Hc; simpl; [|done]. apply cert_from_data_wf in Hc as [Hw Hd].
    destruct (private_key_from (x509_sign_type c) (di_key data)) as [k|] eqn:Hk; simpl; [|done].
    intros [= <-]. simpl. split; [done|]. rewrite Hd. by destruct data.
  - destruct i as [c k raw]. simpl. intros [[Hw Hk] <-]. simpl.
    by rewrite (proj2 (cert_from_data_wf _ c) (conj Hw eq_refl)); simpl; rewrite Hk.
Qed.

Lemma set_sn_list_wf sns c : cert_wf c -> cert_wf (set_sn_list sns c).
Proof. intros [H1 H2]. by split. Qed.
Lemma update_endpoints_wf c eps : cert_wf c -> cert_wf (x509_update_endpoints c eps).
Proof. intros [H1 H2]. by split. Qed.
Lemma from_der_wf der c : x509_from_der der = Ok c -> cert_wf c.
Proof. unfold x509_from_der, cert_wf. destruct (from_der der) eqn:Hd; simpl; [|done]. by intros [= <-]. Qed.
Lemma from_pem_wf pem c : (forall x d, to_der x = Some d -> from_der d = Some x) -> x509_from_pem pem = Ok c -> cert_wf c.
Proof.
  intros Hl. unfold x509_from_pem, cert_wf. destruct (from_pem pem) as [x|]; simpl; [|done].
  destruct (to_der x) eqn:Hd; simpl; [|done]. intros [= <-]. simpl. split; [by apply Hl|done].
Qed.

(** Moving an identity to other endpoints never panics and keeps its id, its
    name and its key. *)
Lemma identity_update_total i eps : identity_wf i ->
  exists i', x509_identity_update_endpoints i eps = Some i' /\ identity_wf i' /\ xi_key i' = xi_key i /\
    cd_endpoints (xc_data (xi_cert i')) = eps /\ x509_get_id (xi_cert i') = x509_get_id (xi_cert i) /\
    x509_get_name (xi_cert i') = x509_get_name (xi_cert i).
Proof.
  intros [Hc Hk]. set (i' := mkX509Identity (x509_update_endpoints (xi_cert i) eps) (xi_key i) (xi_raw_key i)).
  assert (identity_wf i') as Hw by (split; [by apply update_endpoints_wf|exact Hk]).
  exists i'. split; [|done]. unfold x509_identity_update_endpoints.
  match goal with |- context [identity_from_data ?d] => assert (identity_from_data d = Ok i') as -> end; [|done].
  by apply identity_from_data_wf.
Qed.

(** ** Round trips *)
Context `{LC : !RawCodecLaws X509IdentityCertData} `{LI : !RawCodecLaws X509IdentityData}.

Lemma x509_cert_roundtrip c b : cert_wf c -> x509_get_encoded_cert c = Ok b -> x509_cert_create b = Ok c.
Proof.
  unfold x509_get_encoded_cert, x509_cert_create. intros Hw. destruct (to_vec (xc_data c)) as [b'|] eqn:Hv; simpl; [|done].
  intros [= <-]. rewrite (clone_to_vec _ _ Hv). simpl. by apply cert_from_data_wf.
Qed.

Lemma x509_identity_roundtrip i b : identity_wf i -> x509_get_encoded_identity i = Ok b -> x509_identity_create b = Ok i.
Proof.
  unfold x509_get_encoded_identity, x509_identity_create. intros Hw.
  destruct (to_vec (mkIdData _ _)) as [b'|] eqn:Hv; simpl; [|done].
  intros [= <-]. rewrite (clone_to_vec _ _ Hv). simpl. by apply identity_from_data_wf.
Qed.

#[global] Program Instance X509Identity_laws : IdentityLaws X509IdentityCert X509Identity := { id_valid := identity_wf }.
Next Obligation. simpl. intros i c _ [= <-]. done. Qed.
Next Obligation. simpl. intros i c b [Hw _] [= <-]. by apply x509_cert_roundtrip. Qed.
Next Obligation. simpl. intros i b. apply x509_identity_roundtrip. Qed.
Next Obligation.
  simpl. intros b i. unfold x509_identity_create. destruct (clone_from_slice b) as [d|]; simpl; [|done].
  by intros [Hw _]%identity_from_data_wf.
Qed.

(** ** Generation *)

(** rcgen: the parameters of a certificate for a list of alternative names, its
    self-signed DER form, the key's public part and its private DER form. *)
Context {KeyPair CertificateParams : Type} (public_key_raw : KeyPair -> list Z) (serialize_der : KeyPair -> list Z)
  (params_new : list (list Z) -> option CertificateParams) (self_signed : CertificateParams -> KeyPair -> option (list Z)).

Definition generate_x509_identity_with_key_pair (name : option (list Z)) (key_pair : KeyPair) : P2pResult X509Identity :=
  let p2p_id := mkP2pId (sha256 (public_key_raw key_pair)) in
  let subject_alt_names := [match name with Some n => n | None => to_string p2p_id end] in
  params <-? into_p2p P2pErrorCode.CertError (params_new subject_alt_names) ;;
  cert <-? into_p2p P2pErrorCode.CertError (self_signed params key_pair) ;;
  identity_from_data (mkIdData (serialize_der key_pair) (mkCertData cert [] [])).

(** rcgen enters a name that reads as an IP address as such an alternative name,
    any other as a DNS name, and the key pair's public key. *)
Context (ip_text : list Z -> bool)
  (rcgen_certificate : forall n p k der c,
    params_new [n] = Some p -> self_signed p k = Some der -> from_der der = Some c ->
    spki_key c = public_key_raw k /\ extensions c ≫= alt_name = if ip_text n then None else Some n).

(** A generated identity is well formed, its identifier is the hash of the public
    key, and it has the name asked for unless that reads as an IP address. *)
Lemma generated_identity name k i : generate_x509_identity_with_key_pair name k = Ok i ->
  let id := mkP2pId (sha256 (public_key_raw k)) in
  identity_wf i /\ x509_get_id (xi_cert i) = id /\ cd_endpoints (xc_data (xi_cert i)) = [] /\
  x509_get_name (xi_cert i) = match name with
                              | Some n => if ip_text n then to_string id else n
                              | None => to_string id
                              end.
Proof.
  unfold generate_x509_identity_with_key_pair.
  set (n := match name with Some n => n | None => _ end).
  destruct (params_new [n]) as [p|] eqn:Hp; simpl; [|done]. destruct (self_signed p k) as [der|] eqn:Hs; simpl; [|done].
  intros [[[Hd Hsn] Hk] Heq]%identity_from_data_wf. split; [done|]. injection Heq as Hr Hdata. rewrite Hdata in Hd. simpl in Hd.
  destruct (rcgen_certificate _ _ _ _ _ Hp Hs Hd) as [Hkey Hname].
  unfold x509_get_name, x509_get_id. rewrite Hname, Hkey, Hdata. simpl. split_and!; [done..|].
  subst n. by destruct name as [n|]; destruct (ip_text _).
Qed.

(** The certificate's signature covers neither the endpoints nor the SNs: with
    any others it is as valid, for the same identity. *)
Lemma endpoints_not_signed c eps sns name : let c' := set_sn_list sns (x509_update_endpoints c eps) in
  x509_verify_cert c' name = x509_verify_cert c name /\ x509_get_id c' = x509_get_id c /\ (cert_wf c -> cert_wf c').
Proof. intros c'. split_and!; [done|done|]. intros Hw. by apply set_sn_list_wf, update_endpoints_wf. Qed.
End x509.
Arguments X509IdentityCert : clear implicits.
Arguments X509Identity : clear implicits.
Arguments X509PrivateKey : clear implicits.
