(* ===== verification/TlsAuth.v ===== *)
(** * Authentication of connections (tls, networks/tcp/connection.rs)

    The callbacks rustls is configured with (verifiers of both sides, the
    resolver of the server's certificate, the signing key), the configurations,
    and what the program makes of a finished handshake: TCP connections, QUIC
    connections and the encrypted channels of proxy tunnels.  The handshake
    itself is rustls: two functions with the laws [TlsLaws], which say when the
    callbacks are consulted and what is sent. *)

From stdpp Require Import strings.
From S2P Require Import Prelude.
From S2P Require Import Errors.
From S2P Require Import Ids.
From S2P Require Import Endpoint.
From S2P Require Import QuicListener.
From S2P Require Import Codec.
From S2P Require Import Identity.

(** ** Signature schemes (tls/sign.rs) *)
Inductive SignatureScheme := RSA_PSS_SHA256 | ED25519 | UnknownScheme (code : Z).
#[global] Instance SignatureScheme_eq_dec : EqDecision SignatureScheme.
Proof. solve_decision. Defined.
Inductive SignatureAlgorithm := AlgorithmRsa | AlgorithmEd25519.

Definition signature_scheme_for_sign_type (t : P2pIdentitySignType) : SignatureScheme :=
  match t with Rsa => RSA_PSS_SHA256 | Ed25519 => ED25519 end.
Definition signature_algorithm_for_sign_type (t : P2pIdentitySignType) : SignatureAlgorithm :=
  match t with Rsa => AlgorithmRsa | Ed25519 => AlgorithmEd25519 end.
Definition supported_verify_schemes : list SignatureScheme := [RSA_PSS_SHA256; ED25519].

(** Errors of rustls that the callbacks return. *)
Inductive RustlsError := BadEncoding | General.
Notation TlsResult := (Result RustlsError).
Definition tls_of_p2p {A} (e : RustlsError) (r : P2pResult A) : TlsResult A := match r with Ok a => Ok a | Err _ => Err e end.

Inductive PrivateKeyDer := Pkcs8 (der : list Z) | OtherKeyDer.

(** What two ends of a handshake exchange: the server name of the client hello
    as the server sees it, and of each side its certificates and the signature
    with which it proves that it holds their key. *)
Record PartyProof := mkProof { pf_certs : list (list Z); pf_message : list Z; pf_scheme : SignatureScheme; pf_signature : list Z }.
Record Handshake := mkHandshake { hs_server_name : option (list Z); hs_server : PartyProof; hs_client : PartyProof }.

Record TcpTlsConnection := mkTlsConnection {
  tc_local_ep : Endpoint; tc_remote_ep : Endpoint; tc_local_id : P2pId; tc_local_name : list Z;
  tc_remote_id : P2pId; tc_remote_name : list Z }.

Section tls.
Context {Cert Ident : Type} {IC : IdentityCertOps Cert} {IO : IdentityOps Cert Ident}.
(** The text of an identifier, and the names rustls takes for server names. *)
Context (to_string : P2pId -> list Z) (valid_name : list Z -> bool).

(** ** The signing key *)
Record TlsKey := mkTlsKey { tk_key : Ident; tk_sign_type : P2pIdentitySignType; tk_scheme : SignatureScheme }.
Definition tls_key_new (key : Ident) : TlsKey :=
  let sign_type := id_sign_type key in mkTlsKey key sign_type (signature_scheme_for_sign_type sign_type).
Definition choose_scheme (k : TlsKey) (offered : list SignatureScheme) : option TlsKey :=
  if bool_decide (tk_scheme k ∈ offered) then Some k else None.
Definition tls_key_algorithm (k : TlsKey) : SignatureAlgorithm := signature_algorithm_for_sign_type (tk_sign_type k).
Definition tls_key_sign (k : TlsKey) (message : list Z) : TlsResult (list Z) := tls_of_p2p General (id_sign (tk_key k) message).

(** [KeyProvider::load_private_key]; [None] is its panic. *)
Definition load_private_key (key_der : PrivateKeyDer) : option (TlsResult TlsKey) :=
  match key_der with
  | Pkcs8 der => Some (id <-? tls_of_p2p General (id_create der) ;; Ok (tls_key_new id))
  | OtherKeyDer => None
  end.

(** ** The verifiers *)
Definition verify_client_cert (end_entity : list Z) : TlsResult unit :=
  cert <-? tls_of_p2p General (ic_create end_entity) ;;
  if ic_verify_cert cert (ic_get_name cert) then Ok tt else Err General.
Definition verify_client_signature (message device : list Z) (scheme : SignatureScheme) (sign : list Z) : TlsResult unit :=
  cert <-? tls_of_p2p General (ic_create device) ;;
  if negb (bool_decide (scheme = signature_scheme_for_sign_type (ic_sign_type cert))) then Err General
  else if ic_verify cert message sign then Ok tt else Err General.

Definition verify_server_cert (server_id : P2pId) (device server_name : list Z) : TlsResult unit :=
  cert <-? tls_of_p2p BadEncoding (ic_create device) ;;
  if ic_verify_cert cert server_name && bool_decide (ic_get_id cert = server_id) then Ok tt else Err General.
Definition verify_server_signature (server_id : P2pId) (message device : list Z) (scheme : SignatureScheme) (sign : list Z)
    : TlsResult unit :=
  cert <-? tls_of_p2p BadEncoding (ic_create device) ;;
  if negb (bool_decide (scheme = signature_scheme_for_sign_type (ic_sign_type cert))) then Err General
  else if ic_verify cert message sign && bool_decide (ic_get_id cert = server_id) then Ok tt else Err General.

(** Signatures of TLS 1.2 are not looked at; every configuration allows TLS 1.3
    only. *)
Definition verify_tls12_signature (_message _cert _sign : list Z) : TlsResult unit := Ok tt.

(** ** The resolver (DefaultTlsServerCertResolver) *)
Notation Resolver := (gmap (list Z) Ident).
Definition add_server_identity (id : Ident) (r : Resolver) : Resolver :=
  <[to_string (id_get_id id) := id]> (<[id_get_name id := id]> r).
Definition remove_server_identity (device_id : list Z) (r : Resolver) : Resolver :=
  match r !! device_id with
  | Some device => delete (id_get_name device) (delete (to_string (id_get_id device)) (delete device_id r))
  | None => r
  end.
Definition get_server_identity (device_id : list Z) (r : Resolver) : option Ident := r !! device_id.

(** [resolve]: the certificate and the key to present; the outer [None] is the
    panic of [unwrap]. *)
Definition resolve (server_name : option (list Z)) (r : Resolver) : option (option (list Z * TlsKey)) :=
  match server_name with
  | None => Some None
  | Some server_name =>
      match r !! parse_server_name server_name with
      | None => Some None
      | Some device_info =>
          match (cert <-? id_identity_cert device_info ;; ic_get_encoded_cert cert) with
          | Ok encoded => Some (Some (encoded, tls_key_new device_info))
          | Err _ => None
          end
      end
  end.

(** ** Configurations *)
Record ClientConfig := mkClientConfig { cc_server_id : P2pId; cc_cert : list Z; cc_key : TlsKey }.

(** [build_client_config] of TCP, the same lines in [connect_with_ep] of QUIC and
    in [wrap_stream_with_client_tls]; the outer [None] is a panic. *)
Definition build_client_config (local : Ident) (remote_id : P2pId) : option (P2pResult ClientConfig) :=
  match (cert <-? id_identity_cert local ;; ic_get_encoded_cert cert) with
  | Err e => Some (Err e)
  | Ok encoded =>
      match id_get_encoded_identity local with
      | Err e => Some (Err e)
      | Ok der =>
          match load_private_key (Pkcs8 der) with
          | None => None
          | Some (Err _) => Some (Err P2pErrorCode.TlsError)
          | Some (Ok key) => Some (Ok (mkClientConfig remote_id encoded key))
          end
      end
  end.

(** ** rustls *)

(** Whether an end of a TLS 1.3 handshake completes. *)
Context (client_completes : ClientConfig -> list Z -> Handshake -> bool) (server_completes : Resolver -> Handshake -> bool).

(** A client completes only when the verifier it was configured with has accepted
    the server's first certificate and its signature, in a scheme it supports; it
    presents the certificate it was configured with.  A server presents what its
    resolver answers to the name of the client hello; with a client verifier a
    client certificate is mandatory, and it completes only when the verifier has
    accepted the certificate and the signature. *)
Class TlsLaws : Prop := {
  client_verifies cfg name hs : client_completes cfg name hs = true ->
    exists cert rest, pf_certs (hs_server hs) = cert :: rest /\ pf_scheme (hs_server hs) ∈ supported_verify_schemes /\
      verify_server_cert (cc_server_id cfg) cert name = Ok tt /\
      verify_server_signature (cc_server_id cfg) (pf_message (hs_server hs)) cert (pf_scheme (hs_server hs)) (pf_signature (hs_server hs)) = Ok tt;
  client_presents cfg name hs : client_completes cfg name hs = true -> pf_certs (hs_client hs) = [cc_cert cfg];
  server_presents r hs : server_completes r hs = true ->
    exists encoded key, resolve (hs_server_name hs) r = Some (Some (encoded, key)) /\ pf_certs (hs_server hs) = [encoded];
  server_verifies r hs : server_completes r hs = true ->
    exists cert rest, pf_certs (hs_client hs) = cert :: rest /\ pf_scheme (hs_client hs) ∈ supported_verify_schemes /\
      verify_client_cert cert = Ok tt /\
      verify_client_signature (pf_message (hs_client hs)) cert (pf_scheme (hs_client hs)) (pf_signature (hs_client hs)) = Ok tt;
}.

(** ** What the program makes of a handshake *)

(** The client's end of a handshake towards [name]: [None] when the name is still
    no server name ([try_into().unwrap()]). *)
Definition tls_connect (cfg : ClientConfig) (name : list Z) (error : P2pErrorCode.t) (hs : Handshake) : option (P2pResult unit) :=
  let name := validate_server_name valid_name name in
  if negb (valid_name name) then None
  else Some (if client_completes cfg name hs then Ok tt else Err error).

(** [connect_with_optional_local]: [socket] is the local endpoint of the connected
    socket, [written] whether the hello could be written. *)
Definition connect_with_optional_local (local : Ident) (remote_ep : Endpoint) (remote_id : P2pId) (remote_name : option (list Z))
    (socket : P2pResult Endpoint) (hs : Handshake) (written : bool) : option (P2pResult TcpTlsConnection) :=
  match build_client_config local remote_id with
  | None => None
  | Some (Err e) => Some (Err e)
  | Some (Ok cfg) =>
      match socket with
      | Err e => Some (Err e)
      | Ok local_ep =>
          let remote_name := match remote_name with Some n => n | None => to_string remote_id end in
          match tls_connect cfg remote_name P2pErrorCode.ConnectFailed hs with
          | None => None
          | Some (Err e) => Some (Err e)
          | Some (Ok _) =>
              Some (if negb written then Err P2pErrorCode.Failed
                    else
                      remote <-? (if P2pId_is_default remote_id then
                                    match pf_certs (hs_server hs) with
                                    | [] => Err P2pErrorCode.CertError
                                    | cert :: _ => device <-? ic_create cert ;; Ok (ic_get_id device, ic_get_name device)
                                    end
                                  else Ok (remote_id, remote_name)) ;;
                      Ok (mkTlsConnection local_ep remote_ep (id_get_id local) (id_get_name local) (fst remote) (snd remote)))
          end
      end
  end.

(** [accept_connection] of TCP; [r] is the resolver during the handshake and
    [r'] when the name is looked up again. *)
Definition tcp_accept_connection {Hello : Type} (r r' : Resolver) (local remote : Endpoint) (hs : Handshake) (hello : P2pResult Hello)
    : P2pResult (TcpTlsConnection * Hello) :=
  if negb (server_completes r hs) then Err P2pErrorCode.ConnectFailed
  else
    hello <-? match hello with Ok h => Ok h | Err _ => Err P2pErrorCode.Failed end ;;
    match pf_certs (hs_client hs) with
    | [] => Err P2pErrorCode.CertError
    | cert :: _ =>
        match hs_server_name hs with
        | None => Err P2pErrorCode.CertError
        | Some server_name =>
            let server_name := parse_server_name server_name in
            match get_server_identity server_name r' with
            | None => Err P2pErrorCode.CertError
            | Some local_cert =>
                remote_device <-? ic_create cert ;;
                Ok (mkTlsConnection local remote (id_get_id local_cert) server_name (ic_get_id remote_device) (ic_get_name remote_device), hello)
            end
        end
    end.

(** [accept_connection] of the QUIC listener: the two identifiers of the tunnel. *)
Definition quic_accept_connection (r r' : Resolver) (hs : Handshake) (cached : P2pResult unit) : P2pResult (P2pId * P2pId) :=
  if negb (server_completes r hs) then Err P2pErrorCode.QuicError
  else
    match hs_server_name hs with
    | None => Err P2pErrorCode.TlsError
    | Some server_name =>
        match pf_certs (hs_client hs) with
        | [] => Err P2pErrorCode.CertError
        | remote_cert :: _ =>
            match get_server_identity (parse_server_name server_name) r' with
            | None => Err P2pErrorCode.CertError
            | Some local_identity =>
                remote_identity <-? ic_create remote_cert ;;
                _ <-? cached ;;
                Ok (id_get_id local_identity, ic_get_id remote_identity)
            end
        end
    end.

(** [connect_with_ep] of QUIC. *)
Definition connect_with_ep (local : Ident) (remote_id : P2pId) (remote_name : option (list Z)) (hs : Handshake)
    : option (P2pResult unit) :=
  match build_client_config local remote_id with
  | None => None
  | Some (Err e) => Some (Err e)
  | Some (Ok cfg) =>
      let remote_name := validate_server_name valid_name match remote_name with Some n => n | None => to_string remote_id end in
      Some (if valid_name remote_name && client_completes cfg remote_name hs then Ok tt else Err P2pErrorCode.ConnectFailed)
  end.

(** The encrypted channels of proxy tunnels (pn/client/pn_tunnel.rs). *)
Definition wrap_stream_with_client_tls (local : Ident) (remote_id : P2pId) (hs : Handshake) : option (P2pResult unit) :=
  match build_client_config local remote_id with
  | None => None
  | Some (Err e) => Some (Err e)
  | Some (Ok cfg) => tls_connect cfg (to_string remote_id) P2pErrorCode.TlsError hs
  end.
Definition wrap_stream_with_server_tls (local : Ident) (remote_id : P2pId) (hs : Handshake) : P2pResult unit :=
  let resolver := add_server_identity local ∅ in
  if negb (server_completes resolver hs) then Err P2pErrorCode.TlsError
  else
    match pf_certs (hs_client hs) with
    | [] => Err P2pErrorCode.CertError
    | cert :: _ =>
        remote_cert <-? ic_create cert ;;
        if negb (bool_decide (ic_get_id remote_cert = remote_id)) then Err P2pErrorCode.CertError else Ok tt
    end.

(** ** The callbacks *)

(** Proof that the other side holds the key of an identity: its first certificate
    is one of the identity, signed by itself, whose key has signed the
    handshake. *)
Definition peer_proved (p : PartyProof) (id : P2pId) : Prop :=
  exists cert rest c, pf_certs p = cert :: rest /\ ic_create cert = Ok c /\ ic_get_id c = id /\
    (exists name, ic_verify_cert c name = true) /\
    pf_scheme p = signature_scheme_for_sign_type (ic_sign_type c) /\ ic_verify c (pf_message p) (pf_signature p) = true.

Lemma server_callbacks_prove id p cert rest name : pf_certs p = cert :: rest ->
  verify_server_cert id cert name = Ok tt ->
  verify_server_signature id (pf_message p) cert (pf_scheme p) (pf_signature p) = Ok tt -> peer_proved p id.
Proof.
  intros Hp. unfold verify_server_cert, verify_server_signature, peer_proved.
  destruct (ic_create cert) as [c|] eqn:Hc; simpl; [|done].
  destruct (ic_verify_cert c name) eqn:Hv, (bool_decide_reflect (ic_get_id c = id)) as [<-|]; simpl; try done. intros _.
  destruct (bool_decide_reflect (pf_scheme p = signature_scheme_for_sign_type (ic_sign_type c))) as [Hs|]; simpl; [|done].
  destruct (ic_verify c (pf_message p) (pf_signature p)) eqn:Hg; [|done]. intros _. exists cert, rest, c. eauto 10.
Qed.

Lemma client_callbacks_prove p cert rest : pf_certs p = cert :: rest ->
  verify_client_cert cert = Ok tt ->
  verify_client_signature (pf_message p) cert (pf_scheme p) (pf_signature p) = Ok tt ->
  exists c, ic_create cert = Ok c /\ peer_proved p (ic_get_id c).
Proof.
  intros Hp. unfold verify_client_cert, verify_client_signature, peer_proved.
  destruct (ic_create cert) as [c|] eqn:Hc; simpl; [|done]. destruct (ic_verify_cert c (ic_get_name c)) eqn:Hv; [|done]. intros _.
  destruct (bool_decide_reflect (pf_scheme p = signature_scheme_for_sign_type (ic_sign_type c))) as [Hs|]; simpl; [|done].
  destruct (ic_verify c (pf_message p) (pf_signature p)) eqn:Hg; [|done]. intros _. exists c. split; [done|].
  exists cert, rest, c. eauto 10.
Qed.

(** Conversely an honest server passes both callbacks: what its resolver presents
    and its key signs is accepted by a client that asks for it. *)
Lemma honest_server_accepted `{!IdentityLaws Cert Ident} i c encoded message sign name :
  id_valid i -> id_identity_cert i = Ok c -> ic_get_encoded_cert c = Ok encoded -> ic_verify_cert c name = true ->
  tls_key_sign (tls_key_new i) message = Ok sign -> (forall m s, id_sign i m = Ok s -> ic_verify c m s = true) ->
  verify_server_cert (id_get_id i) encoded name = Ok tt /\
  verify_server_signature (id_get_id i) message encoded (tk_scheme (tls_key_new i)) sign = Ok tt.
Proof.
  intros Hi Hc He Hv Hs Hk. unfold verify_server_cert, verify_server_signature.
  destruct (law_cert_id i c Hi Hc) as (Hid & _ & Ht). rewrite (law_cert_create i c encoded Hi Hc He). simpl.
  rewrite Hv, Hid, Ht, !bool_decide_eq_true_2 by done. simpl. split; [done|].
  unfold tls_key_sign in Hs. simpl in Hs. destruct (id_sign i message) as [s|] eqn:Hg; simpl in Hs; [|done].
  injection Hs as ->. by rewrite (Hk _ _ Hg).
Qed.

(** ** The resolver *)

(** Identities are entered under their names and identifiers only. *)
Definition resolver_ok (r : Resolver) : Prop :=
  forall n i, r !! n = Some i -> n = id_get_name i \/ n = to_string (id_get_id i).
Lemma resolver_empty_ok : resolver_ok ∅.
Proof. by intros n i. Qed.
Lemma add_server_identity_ok id r : resolver_ok r -> resolver_ok (add_server_identity id r).
Proof.
  intros Hr n i. unfold add_server_identity. intros [[<- <-]|[_ [[<- <-]|[_ H]]%lookup_insert_Some]]%lookup_insert_Some; auto.
Qed.
Lemma remove_server_identity_ok n r : resolver_ok r -> resolver_ok (remove_server_identity n r).
Proof.
  intros Hr m i. unfold remove_server_identity. destruct (r !! n); [|apply Hr].
  intros [_ [_ [_ H]%lookup_delete_Some]%lookup_delete_Some]%lookup_delete_Some. auto.
Qed.
Lemma add_server_identity_found id r :
  get_server_identity (to_string (id_get_id id)) (add_server_identity id r) = Some id /\
  (id_get_name id <> to_string (id_get_id id) -> get_server_identity (id_get_name id) (add_server_identity id r) = Some id).
Proof.
  unfold get_server_identity, add_server_identity. split; [by rewrite lookup_insert_eq|].
  intros Hne. by rewrite lookup_insert_ne, lookup_insert_eq.
Qed.
Lemma removed_server_identity_gone n r : get_server_identity n (remove_server_identity n r) = None.
Proof.
  unfold get_server_identity, remove_server_identity. destruct (r !! n) eqn:Hn; [|done].
  apply lookup_delete_None. right. apply lookup_delete_None. right. apply lookup_delete_eq.
Qed.

(** ** Both ends *)
Context {IL : IdentityLaws Cert Ident} {TL : TlsLaws}.

Lemma client_completes_proves cfg name hs : client_completes cfg name hs = true -> peer_proved (hs_server hs) (cc_server_id cfg).
Proof. intros (cert & rest & Hc & _ & H1 & H2)%client_verifies. by eapply server_callbacks_prove. Qed.

Lemma server_completes_proves r hs cert rest c : server_completes r hs = true ->
  pf_certs (hs_client hs) = cert :: rest -> ic_create cert = Ok c -> peer_proved (hs_client hs) (ic_get_id c).
Proof.
  intros (cert' & rest' & Hc & _ & H1 & H2)%server_verifies Hp Hcr.
  destruct (client_callbacks_prove _ _ _ Hc H1 H2) as (c' & Hc' & Hpr). congruence.
Qed.

Lemma resolve_presents sn r encoded key : resolve sn r = Some (Some (encoded, key)) ->
  exists n i c, sn = Some n /\ r !! parse_server_name n = Some i /\ key = tls_key_new i /\
    id_identity_cert i = Ok c /\ ic_get_encoded_cert c = Ok encoded.
Proof.
  unfold resolve. destruct sn as [n|]; [|done]. destruct (r !! parse_server_name n) as [i|] eqn:Hi; [|done].
  destruct (id_identity_cert i) as [c|] eqn:Hc; simpl; [|done]. destruct (ic_get_encoded_cert c) as [e|] eqn:He; [|done].
  intros [= <- <-]. exists n, i, c. by split_and!.
Qed.

Lemma client_config_presents local rid cfg : id_valid local -> build_client_config local rid = Some (Ok cfg) ->
  cc_server_id cfg = rid /\ cc_key cfg = tls_key_new local /\
  exists c, ic_create (cc_cert cfg) = Ok c /\ ic_get_id c = id_get_id local.
Proof.
  intros Hl. unfold build_client_config. destruct (id_identity_cert local) as [c|] eqn:Hc; simpl; [|done].
  destruct (ic_get_encoded_cert c) as [e|] eqn:He; [|done]. destruct (id_get_encoded_identity local) as [d|] eqn:Hd; [|done].
  rewrite (law_id_create _ _ Hl Hd). simpl. intros [= <-]. simpl. split_and!; [done..|].
  exists c. split; [by eapply law_cert_create|]. by apply law_cert_id.
Qed.
Lemma client_config_asks local rid cfg : build_client_config local rid = Some (Ok cfg) -> cc_server_id cfg = rid.
Proof.
  unfold build_client_config. destruct (_ <-? id_identity_cert local ;; _); [|done].
  destruct (id_get_encoded_identity local); [|done]. destruct (load_private_key _) as [[|]|]; [|done|done]. by intros [= <-].
Qed.

(** One handshake that both ends complete: the server is the identity that was
    resolved and that the client asked for, and the certificate the server sees
    is the client's. *)
Lemma handshake_agrees local rid cfg name r hs : id_valid local -> (forall n i, r !! n = Some i -> id_valid i) ->
  build_client_config local rid = Some (Ok cfg) -> client_completes cfg name hs = true -> server_completes r hs = true ->
  exists n i cert rest c, hs_server_name hs = Some n /\ r !! parse_server_name n = Some i /\ id_get_id i = rid /\
    pf_certs (hs_client hs) = cert :: rest /\ ic_create cert = Ok c /\ ic_get_id c = id_get_id local.
Proof.
  intros Hl Hr Hcfg Hcl Hsv. destruct (client_config_presents _ _ _ Hl Hcfg) as (Hid & _ & c & Hcc & Hci).
  destruct (server_presents _ _ Hsv) as (e & key & Hres & Hse).
  destruct (resolve_presents _ _ _ _ Hres) as (n & i & ci & Hn & Hi & _ & Hic & Hie).
  destruct (client_completes_proves _ _ _ Hcl) as (cert' & rest' & c' & Hp & Hcr & Hcid & _).
  pose proof (client_presents _ _ _ Hcl) as Hpc.
  exists n, i, (cc_cert cfg), [], c. split_and!; [done..| |done|done|done].
  assert (cert' = e) as -> by congruence. rewrite (law_cert_create _ _ _ (Hr _ _ Hi) Hic Hie) in Hcr. injection Hcr as <-.
  destruct (law_cert_id _ _ (Hr _ _ Hi) Hic) as [<- _]. congruence.
Qed.

Lemma connected_facts local ep rid rname sock hs w c :
  connect_with_optional_local local ep rid rname sock hs w = Some (Ok c) ->
  exists cfg name, build_client_config local rid = Some (Ok cfg) /\ client_completes cfg name hs = true /\
    tc_local_id c = id_get_id local /\ tc_remote_id c = rid.
Proof.
  unfold connect_with_optional_local. destruct (build_client_config local rid) as [[cfg|]|] eqn:Hb; [|done|done].
  destruct sock as [lep|]; [|done]. unfold tls_connect. destruct (negb (valid_name _)); [done|].
  destruct (client_completes cfg _ hs) eqn:Hcl; [|done]. destruct w; simpl; [|done].
  intros Heq. exists cfg. eexists. split_and!; [done|exact Hcl| |];
    destruct (P2pId_is_default rid); try (by injection Heq as <-);
    destruct (client_completes_proves _ _ _ Hcl) as (cert & rest & d & Hp & Hd & Hid & _);
    rewrite Hp in Heq; rewrite Hd in Heq; simpl in Heq; injection Heq as <-; [done|].
  simpl. rewrite Hid. by eapply client_config_asks.
Qed.

Lemma accepted_facts {Hello : Type} r r' l rem hs (hello : P2pResult Hello) c h : tcp_accept_connection r r' l rem hs hello = Ok (c, h) ->
  server_completes r hs = true /\ exists n i cert rest d, hs_server_name hs = Some n /\
    r' !! parse_server_name n = Some i /\ pf_certs (hs_client hs) = cert :: rest /\ ic_create cert = Ok d /\
    tc_local_id c = id_get_id i /\ tc_remote_id c = ic_get_id d.
Proof.
  unfold tcp_accept_connection, get_server_identity. destruct (server_completes r hs); simpl; [|done]. destruct hello as [h'|]; simpl; [|done].
  destruct (pf_certs (hs_client hs)) as [|cert rest]; [done|]. destruct (hs_server_name hs) as [n|]; [|done].
  destruct (r' !! parse_server_name n) as [i|] eqn:Hi; [|done]. destruct (ic_create cert) as [d|] eqn:Hd; simpl; [|done].
  intros [= <- <-]. split; [done|]. by exists n, i, cert, rest, d.
Qed.

Lemma quic_accepted_facts r r' hs cached a b : quic_accept_connection r r' hs cached = Ok (a, b) ->
  server_completes r hs = true /\ exists n i cert rest d, hs_server_name hs = Some n /\
    r' !! parse_server_name n = Some i /\ pf_certs (hs_client hs) = cert :: rest /\ ic_create cert = Ok d /\
    a = id_get_id i /\ b = ic_get_id d.
Proof.
  unfold quic_accept_connection, get_server_identity. destruct (server_completes r hs); simpl; [|done].
  destruct (hs_server_name hs) as [n|]; [|done]. destruct (pf_certs (hs_client hs)) as [|cert rest]; [done|].
  destruct (r' !! parse_server_name n) as [i|] eqn:Hi; [|done]. destruct (ic_create cert) as [d|] eqn:Hd; simpl; [|done].
  destruct cached; simpl; [|done]. intros [= <- <-]. split; [done|]. by exists n, i, cert, rest, d.
Qed.

Lemma quic_connected_facts local rid name hs : connect_with_ep local rid name hs = Some (Ok tt) ->
  exists cfg name', build_client_config local rid = Some (Ok cfg) /\ client_completes cfg name' hs = true.
Proof.
  unfold connect_with_ep. destruct (build_client_config local rid) as [[cfg|]|] eqn:Hb; [|done|done].
  destruct (valid_name _); simpl; [|done]. destruct (client_completes cfg _ hs) eqn:Hcl; [|done]. eauto.
Qed.

Lemma wrapped_client_facts local rid hs : wrap_stream_with_client_tls local rid hs = Some (Ok tt) ->
  exists cfg name, build_client_config local rid = Some (Ok cfg) /\ client_completes cfg name hs = true.
Proof.
  unfold wrap_stream_with_client_tls, tls_connect. destruct (build_client_config local rid) as [[cfg|]|] eqn:Hb; [|done|done].
  destruct (negb _); [done|]. destruct (client_completes cfg _ hs) eqn:Hcl; [|done]. eauto.
Qed.

Lemma wrapped_server_facts local rid hs : wrap_stream_with_server_tls local rid hs = Ok tt ->
  server_completes (add_server_identity local ∅) hs = true /\
  exists cert rest d, pf_certs (hs_client hs) = cert :: rest /\ ic_create cert = Ok d /\ ic_get_id d = rid.
Proof.
  unfold wrap_stream_with_server_tls. destruct (server_completes _ hs); simpl; [|done].
  destruct (pf_certs (hs_client hs)) as [|cert rest]; [done|]. destruct (ic_create cert) as [d|] eqn:Hd; simpl; [|done].
  destruct (bool_decide_reflect (ic_get_id d = rid)); simpl; [|done]. intros _. split; [done|]. by exists cert, rest, d.
Qed.
Lemma only_identity local n i : add_server_identity local (∅ : Resolver) !! n = Some i -> i = local.
Proof. unfold add_server_identity. by intros [[_ <-]|[_ [[_ <-]|[_ ?]]%lookup_insert_Some]]%lookup_insert_Some. Qed.

(** C7: tls_connections_authenticated: A connection is with whom it says.  A TCP
    connection that was established names as its peer the identity that was asked
    for, and the other side has proved that it holds that identity's key; an
    accepted one names the identity whose key the client has proved to hold.  When
    both ends complete the same handshake they name each other, provided that the
    server's name is not given to another identity while it is accepted; so do the
    ends of a QUIC connection; and when both ends of a proxied channel are
    encrypted, each is with the identity of the tunnel at the other end. *)
Theorem tls_connections_authenticated :
  (forall local ep rid rname sock hs w c, connect_with_optional_local local ep rid rname sock hs w = Some (Ok c) ->
     tc_remote_id c = rid /\ tc_local_id c = id_get_id local /\ peer_proved (hs_server hs) rid) /\
  (forall (Hello : Type) r r' l rem hs (hello : P2pResult Hello) s h, tcp_accept_connection r r' l rem hs hello = Ok (s, h) ->
     peer_proved (hs_client hs) (tc_remote_id s)) /\
  (forall (Hello : Type) local ep rid rname sock hs w c r r' l rem (hello : P2pResult Hello) s h,
     id_valid local -> (forall n i, r !! n = Some i -> id_valid i) -> (forall n, hs_server_name hs = Some n -> r' !! parse_server_name n = r !! parse_server_name n) ->
     connect_with_optional_local local ep rid rname sock hs w = Some (Ok c) -> tcp_accept_connection r r' l rem hs hello = Ok (s, h) ->
     tc_local_id s = tc_remote_id c /\ tc_remote_id s = tc_local_id c) /\
  (forall local rid rname hs r r' cached a b,
     id_valid local -> (forall n i, r !! n = Some i -> id_valid i) -> (forall n, hs_server_name hs = Some n -> r' !! parse_server_name n = r !! parse_server_name n) ->
     connect_with_ep local rid rname hs = Some (Ok tt) -> quic_accept_connection r r' hs cached = Ok (a, b) ->
     a = rid /\ b = id_get_id local /\ peer_proved (hs_server hs) rid /\ peer_proved (hs_client hs) b) /\
  (forall x y hs rid rid', id_valid x -> id_valid y ->
     wrap_stream_with_client_tls x rid hs = Some (Ok tt) -> wrap_stream_with_server_tls y rid' hs = Ok tt ->
     rid = id_get_id y /\ rid' = id_get_id x).
Proof.
  split_and!.
  - intros local ep rid rname sock hs w c (cfg & name & Hb & Hcl & Hli & Hri)%connected_facts. split_and!; [done..|].
    rewrite <- (client_config_asks _ _ _ Hb). by eapply client_completes_proves.
  - intros Hello r r' l rem hs hello s h (Hsv & n & i & cert & rest & d & _ & _ & Hc & Hd & _ & ->)%accepted_facts.
    by eapply server_completes_proves.
  - intros Hello local ep rid rname sock hs w c r r' l rem hello s h Hl Hr Hsame
      (cfg & name & Hb & Hcl & Hli & Hri)%connected_facts (Hsv & n & i & cert & rest & d & Hn & Hi & Hc & Hd & Hsl & Hsr)%accepted_facts.
    destruct (handshake_agrees _ _ _ _ _ _ Hl Hr Hb Hcl Hsv) as (n' & i' & cert' & rest' & c' & ? & ? & ? & ? & ? & ?).
    rewrite (Hsame n) in Hi by done. split; congruence.
  - intros local rid rname hs r r' cached a b Hl Hr Hsame (cfg & name & Hb & Hcl)%quic_connected_facts
      (Hsv & n & i & cert & rest & d & Hn & Hi & Hc & Hd & -> & ->)%quic_accepted_facts.
    destruct (handshake_agrees _ _ _ _ _ _ Hl Hr Hb Hcl Hsv) as (n' & i' & cert' & rest' & c' & ? & ? & ? & ? & ? & ?).
    rewrite (Hsame n) in Hi by done. split_and!; [congruence|congruence| |eapply server_completes_proves; [exact Hsv|exact Hc|exact Hd]].
    rewrite <- (client_config_asks _ _ _ Hb). by eapply client_completes_proves.
  - intros x y hs rid rid' Hx Hy (cfg & name & Hb & Hcl)%wrapped_client_facts (Hsv & cert & rest & d & Hc & Hd & <-)%wrapped_server_facts.
    destruct (handshake_agrees _ _ _ _ _ _ Hx (fun n i H => eq_rect_r id_valid Hy (only_identity _ _ _ H)) Hb Hcl Hsv)
      as (n' & i' & cert' & rest' & c' & ? & ->%only_identity & ? & ? & ? & ?). split; congruence.
Qed.

(** Dialling a peer whose identifier is not known: [connect_with_optional_local]
    means to take the identity from the certificate then, but the verifier has
    asked for the default identifier before. *)
Lemma unknown_peer_refused local ep rid rname sock hs w c :
  (forall b d, ic_create b = Ok d -> P2pId_is_default (ic_get_id d) = false) ->
  P2pId_is_default rid = true -> connect_with_optional_local local ep rid rname sock hs w <> Some (Ok c).
Proof.
  intros Hno Hd (cfg & name & Hb & Hcl & _)%connected_facts.
  destruct (client_completes_proves _ _ _ Hcl) as (cert & rest & d & _ & Hc & Hid & _).
  rewrite (client_config_asks _ _ _ Hb) in Hid. apply Hno in Hc. congruence.
Qed.
End tls.

(** ** A handshake that consults the callbacks and nothing else *)
Section plain.
Context {Cert Ident : Type} {IC : IdentityCertOps Cert} {IO : IdentityOps Cert Ident}.

Definition plain_client (cfg : ClientConfig (Ident := Ident)) (name : list Z) (hs : Handshake) : bool :=
  match pf_certs (hs_server hs) with
  | [] => false
  | cert :: _ =>
      bool_decide (pf_scheme (hs_server hs) ∈ supported_verify_schemes) &&
      is_ok (verify_server_cert (cc_server_id cfg) cert name) &&
      is_ok (verify_server_signature (cc_server_id cfg) (pf_message (hs_server hs)) cert (pf_scheme (hs_server hs)) (pf_signature (hs_server hs))) &&
      bool_decide (pf_certs (hs_client hs) = [cc_cert cfg])
  end.
Definition plain_server (r : gmap (list Z) Ident) (hs : Handshake) : bool :=
  match resolve (hs_server_name hs) r, pf_certs (hs_client hs) with
  | Some (Some (encoded, _)), cert :: _ =>
      bool_decide (pf_certs (hs_server hs) = [encoded]) &&
      bool_decide (pf_scheme (hs_client hs) ∈ supported_verify_schemes) &&
      is_ok (verify_client_cert cert) &&
      is_ok (verify_client_signature (pf_message (hs_client hs)) cert (pf_scheme (hs_client hs)) (pf_signature (hs_client hs)))
  | _, _ => false
  end.

Lemma is_ok_unit {E} (r : Result E unit) : is_ok r = true -> r = Ok tt.
Proof. by destruct r as [[]|]. Qed.

Lemma plain_laws : TlsLaws plain_client plain_server.
Proof.
  split.
  - intros cfg name hs. unfold plain_client. destruct (pf_certs (hs_server hs)) as [|cert rest]; [done|].
    intros H. bool_to_prop. exists cert, rest. by split_and!; [|done|apply is_ok_unit..].
  - intros cfg name hs. unfold plain_client. destruct (pf_certs (hs_server hs)); [done|]. intros H. by bool_to_prop.
  - intros r hs. unfold plain_server. destruct (resolve _ r) as [[[e k]|]|]; [|done|done].
    destruct (pf_certs (hs_client hs)); [done|]. intros H. bool_to_prop. by exists e, k.
  - intros r hs. unfold plain_server. destruct (resolve _ r) as [[[e k]|]|]; [|done|done].
    destruct (pf_certs (hs_client hs)) as [|cert rest]; [done|]. intros H. bool_to_prop. exists cert, rest.
    by split_and!; [|done|apply is_ok_unit..].
Qed.
End plain.

(** ** An example over X.509 identities

    Certificates are an algorithm and a key; keys sign by prefixing themselves. *)
Module TlsDemo.
Definition DemoCertificate : Type := Oid * list Z.
#[export] Instance demo_x509 : X509Ops DemoCertificate (list Z) (list Z) := {
  from_der b := match b with 1 :: k => Some (ED25519_OID, k) | 0 :: k => Some (RSA_ENCRYPTION, k) | _ => None end;
  from_pem b := None;
  to_der c := Some ((if bool_decide (fst c = ED25519_OID) then 1 else 0) :: snd c);
  spki_algorithm := fst;
  spki_key := snd;
  extensions c := match snd c with [_; n] => Some [mkExtension ID_CE_SUBJECT_ALT_NAME [n]] | _ => None end;
  subject_alt_name_from_der v := Some [DnsName v];
  verifying_key_verifies _ := true;
  ring_verify _ k m s := bool_decide (s = k ++ m);
  sha256 k := k;
  Identity.to_string id := 105 :: p2pid_bytes id;
  rsa_from_pkcs8 := Some;
  ed_from_pkcs8 := Some;
  ed_from_pkcs8_maybe_unchecked := Some;
  rsa_sign k m := Some (k ++ m);
  ed_sign k m := k ++ m;
}.

(** Codecs of certificates without SNs and endpoints. *)
Definition framed (b : list Z) : list Z := Z.of_nat (length b) :: b.
Definition unframe (l : list Z) : option (list Z * list Z) :=
  match l with
  | n :: l => if (Z.to_nat n <=? length l)%nat then Some (take (Z.to_nat n) l, drop (Z.to_nat n) l) else None
  | [] => None
  end.
Lemma unframe_framed b rest : unframe (framed b ++ rest) = Some (b, rest).
Proof.
  unfold unframe, framed. simpl. rewrite Nat2Z.id, length_app, (proj2 (Nat.leb_le _ _)) by lia.
  by rewrite take_app_length, drop_app_length.
Qed.
Lemma framed_length b : length (framed b) = S (length b).
Proof. done. Qed.
#[local] Opaque framed unframe.
#[export] Instance demo_cert_codec : RawCodec X509IdentityCertData := {
  codec_measure d := Ok (S (length (cd_raw_cert d)));
  to_vec d := match cd_sn_list d, cd_endpoints d with [], [] => Ok (framed (cd_raw_cert d)) | _, _ => Err CodecInvalidInput end;
  codec_decode l := match unframe l with Some (b, rest) => Ok (mkCertData b [] [], rest) | None => Err CodecOutOfLimit end;
  clone_from_slice l := match unframe l with Some (b, _) => Ok (mkCertData b [] []) | None => Err CodecOutOfLimit end;
}.
#[export] Instance demo_cert_codec_laws : RawCodecLaws X509IdentityCertData.
Proof.
  assert (forall (v : X509IdentityCertData) b, to_vec v = Ok b -> v = mkCertData (cd_raw_cert v) [] [] /\ b = framed (cd_raw_cert v)) as Hv.
  { intros [raw [|] [|]] b; simpl; try done. by intros [= <-]. }
  split.
  - intros v b [_ ->]%Hv. by rewrite (framed_length (cd_raw_cert v)).
  - intros v b rest [Hd ->]%Hv. simpl. rewrite unframe_framed. by rewrite Hd at 2.
  - intros v b [Hd ->]%Hv. simpl. rewrite <- (app_nil_r (framed _)), unframe_framed. by rewrite Hd at 2.
Qed.
#[export] Instance demo_id_codec : RawCodec X509IdentityData := {
  codec_measure d := m <-? codec_measure (di_cert d) ;; Ok (S (length (di_key d)) + m)%nat;
  to_vec d := c <-? to_vec (di_cert d) ;; Ok (framed (di_key d) ++ c);
  codec_decode l :=
    match unframe l with
    | Some (k, l) => x <-? codec_decode l ;; Ok (mkIdData k (fst x), snd x)
    | None => Err CodecOutOfLimit
    end;
  clone_from_slice l :=
    match unframe l with Some (k, l) => x <-? clone_from_slice l ;; Ok (mkIdData k x) | None => Err CodecOutOfLimit end;
}.
Lemma demo_id_encoded (d : X509IdentityData) b : to_vec d = Ok b ->
  exists c, to_vec (di_cert d) = Ok c /\ b = framed (di_key d) ++ c.
Proof.
  cbn [to_vec demo_id_codec]. destruct (to_vec (di_cert d)) as [c|]; cbn; [|done]. intros [= <-]. by exists c.
Qed.
#[export] Instance demo_id_codec_laws : RawCodecLaws X509IdentityData.
Proof.
  split.
  - intros d b (c & Hc & ->)%demo_id_encoded. cbn [codec_measure demo_id_codec].
    rewrite (measure_to_vec _ _ Hc), length_app, framed_length. done.
  - intros d b rest (c & Hc & ->)%demo_id_encoded. cbn [codec_decode demo_id_codec].
    rewrite <- app_assoc, unframe_framed, (decode_to_vec _ _ rest Hc). by destruct d.
  - intros d b (c & Hc & ->)%demo_id_encoded. cbn [clone_from_slice demo_id_codec].
    rewrite unframe_framed, (clone_to_vec _ _ Hc). by destruct d.
Qed.
#[local] Transparent framed unframe.

Notation DemoIdentity := (X509Identity DemoCertificate (list Z) (list Z)).
Definition text : P2pId -> list Z := Identity.to_string.
Definition name_ok (_ : list Z) : bool := true.
Definition ident (k : Z) : DemoIdentity := mkX509Identity (x509_new (ED25519_OID, [k]) [1; k]) (EdPrivate [k]) [k].
Definition alice := ident 7.
Definition bob := ident 8.
Definition bob_id : P2pId := mkP2pId [8].
Definition ep : Endpoint := mkEndpoint Lan Tcp (V4 (mkV4 10 0 0 1) 80).

(** Alice dials Bob. *)
Definition names : gmap (list Z) DemoIdentity := add_server_identity text bob ∅.
Definition proof_of (k : Z) (message : list Z) : PartyProof := mkProof [framed [1; k]] message ED25519 (k :: message).
Definition shake : Handshake := mkHandshake (Some (text bob_id)) (proof_of 8 [1; 2]) (proof_of 7 [3; 4]).
Definition dialled := mkTlsConnection ep ep (mkP2pId [7]) [105; 7] bob_id [105; 8].
Definition taken := mkTlsConnection ep ep bob_id [105; 8] (mkP2pId [7]) [105; 7].
Lemma demo_dialled : connect_with_optional_local text name_ok plain_client alice ep bob_id None (Ok ep) shake true = Some (Ok dialled).
Proof. vm_compute. reflexivity. Qed.
Lemma demo_taken : tcp_accept_connection plain_server names names ep ep shake (Ok tt) = Ok (taken, tt).
Proof. vm_compute. reflexivity. Qed.
Lemma demo_valid k : id_valid (ident k).
Proof. by split. Qed.

Lemma tls_connections_authenticated_witness :
  tc_local_id taken = tc_remote_id dialled /\ tc_remote_id taken = tc_local_id dialled /\
  peer_proved (hs_server shake) bob_id /\ peer_proved (hs_client shake) (mkP2pId [7]).
Proof.
  destruct (tls_connections_authenticated text name_ok plain_client plain_server (TL := plain_laws))
    as (Hc & Hs & Hag & _ & _).
  destruct (Hag unit alice ep bob_id None (Ok ep) shake true dialled names names ep ep (Ok tt) taken tt) as [H1 H2].
  - apply demo_valid.
  - intros n i ->%only_identity. apply demo_valid.
  - intros n _. reflexivity.
  - apply demo_dialled.
  - apply demo_taken.
  - split; [exact H1|]. split; [exact H2|]. split.
    + by apply (Hc alice ep bob_id None (Ok ep) shake true dialled), demo_dialled.
    + apply (Hs unit names names ep ep shake (Ok tt) taken tt), demo_taken.
Defined.

(** Two identities of one name. *)
Definition named (k : Z) : DemoIdentity := mkX509Identity (x509_new (ED25519_OID, [k; 50]) [1; k; 50]) (EdPrivate [k; 50]) [k; 50].
Definition bound (k : Z) (r : gmap (list Z) DemoIdentity) := add_server_identity text (named k) r.

(** Removing the first takes the name from the second, which is still known by its
    identifier. *)
Lemma shared_name_lost :
  let r := bound 8 (bound 7 ∅) in
  let r' := remove_server_identity text (text (id_get_id (named 7))) r in
  get_server_identity [50] r = Some (named 8) /\ get_server_identity [50] r' = None /\
  get_server_identity (text (id_get_id (named 8))) r' = Some (named 8).
Proof. by vm_compute. Qed.

(** The name is given to another identity between the handshake and the second
    lookup: the client is connected with identity 7 and the server counts the
    connection as one of identity 8. *)
Definition named_shake : Handshake :=
  mkHandshake (Some [50]) (mkProof [framed [1; 7; 50]] [1] ED25519 [7; 50; 1]) (proof_of 9 [2]).
Lemma rebound_name_confuses_ends :
  exists c s, connect_with_optional_local text name_ok plain_client (ident 9) ep (id_get_id (named 7)) (Some [50]) (Ok ep) named_shake true = Some (Ok c) /\
    tcp_accept_connection plain_server (bound 7 ∅) (bound 8 (bound 7 ∅)) ep ep named_shake (Ok tt) = Ok (s, tt) /\
    tc_remote_id c = id_get_id (named 7) /\ tc_local_id s = id_get_id (named 8).
Proof. eexists _, _. by vm_compute. Qed.
End TlsDemo.
